(* ===== verification/_CoqProject ===== *)
-Q . S2P
Prelude.v
Orders.v
OctetsLib.v
Readers.v
Bits.v
HuffTable.v
Huffman.v
StaticTable.v
QpackCodec.v
BTree.v
Ranges.v
FlowCtl.v
RangeBufs.v
RecvBufs.v
SendBufs.v
Delivery.v
PktNum.v
Packets.v
Protect.v
Frames.v
FrameCodec.v
Cids.v
Params.v
Times.v
Minmax.v
Congest.v
CongestInv.v
Recov.v
RecovInv.v
RecovRun.v
Streams.v
ConnStreams.v
ConnInv.v
ConnOps.v
ConnFlush.v
ConnRun.v
ConnTouch.v
QuicBuffers.v
H3Frames.v
H3Streams.v
H3Conn.v
H3Scan.v
H3Inv.v
H3Pipe.v
H3Errors.v
H3Run.v
H3Send.v
H3Sent.v
H3World.v
H3Moves.v
Quic.v
QuicLaws.v
QuicWork.v
QuicWorld.v
Dgrams.v
