(* ===== verification/Prelude.v ===== *)
(** * The transport core of quiche with FEC (quirl), verified

    This library models the protocol core of the Rust crates [octets] and
    [quiche] (with its forward erasure correction extension) as executable
    functions and proves what makes each part correct.  Sources are given
    relative to [src/].

    ** Files

    - [Prelude.v]: outcomes, the state-and-error monad, checked 64-bit
      arithmetic, lists indexed by integers, the error type of the crate
      ([quiche/src/lib.rs]).
    - [OctetsLib.v]: [octets/src/lib.rs]; cursors over byte buffers, big-endian
      integers and varints, and the two codec relations [parses] and [writes] in
      which every wire format below is specified.
    - [Readers.v]: rules for parsers on arbitrary input.
    - [Bits.v], [HuffTable.v], [Huffman.v], [StaticTable.v], [QpackCodec.v]:
      HTTP/3 header compression ([quiche/src/h3/qpack]): bit strings, the tables
      of the Huffman code, its encoder and decoder, the static table, and header
      blocks.
    - [BTree.v]: the standard library's ordered map as a sorted association
      list, shared by the range sets and the receive buffer.
    - [Ranges.v]: [quiche/src/ranges.rs]; both representations of ACK range sets.
    - [FlowCtl.v]: [quiche/src/flowcontrol.rs].
    - [RangeBufs.v], [RecvBufs.v], [SendBufs.v]: the chunks of
      [quiche/src/stream/mod.rs] and the two stream buffers of
      [quiche/src/stream/recv_buf.rs] and [send_buf.rs].
    - [Delivery.v]: a send buffer and a receive buffer with a network between
      them, and the pipe that they refine.
    - [PktNum.v], [Packets.v], [Protect.v]: [quiche/src/packet.rs] (truncated
      packet numbers and the duplicate filter; headers, version negotiation and
      Retry; header and payload protection, with the AEAD wrappers of
      [quiche/src/crypto]).
    - [Frames.v], [FrameCodec.v]: [quiche/src/frame.rs]; the parser, the writer
      and the sizes, then their wire format and theorems.
    - [Cids.v]: [quiche/src/cid.rs]; the connection ids of both directions.
    - [Params.v]: [TransportParams] of [quiche/src/lib.rs]; its encoding and decoding.
    - [Times.v], [Minmax.v]: clocks, durations and rounded floats;
      [quiche/src/minmax.rs] and [quiche/src/recovery/rtt.rs].
    - [Congest.v], [CongestInv.v]: [quiche/src/recovery/congestion]: the state
      that the algorithms share, pacing, HyStart++, PRR, delivery rates, Reno
      and the disabled algorithm; then the class [CongestionLaws] of what loss
      recovery needs from an algorithm, and its instances.
    - [Recov.v], [RecovInv.v], [RecovRun.v]: [quiche/src/recovery/mod.rs]:
      loss recovery; what one packet number space does with an ACK and with a
      timeout; loss recovery as a state machine.
    - [Orders.v]: what hash maps, binary search and red-black trees leave open.
    - [Streams.v]: the rest of [quiche/src/stream/mod.rs]; one stream, the
      stream map, its limits and its three priority queues.
    - [ConnStreams.v]: the stream part of [Connection] ([quiche/src/lib.rs]): the
      application's calls, the peer's frames, acknowledgements and losses
      ([Module Conn]), and the stream frames of a packet ([Module Packing]).
      [ConnInv.v] has the invariant and the rules for a call in progress,
      [ConnOps.v] that every operation keeps it, [ConnFlush.v] what the loop
      that writes STREAM frames does, and [ConnRun.v] the connection as a state
      machine with the theorems.  [ConnTouch.v] says which streams a call
      changes, and [QuicBuffers.v] what the two buffers of a stream keep,
      whatever is done to them.
    - [H3Frames.v]: [quiche/src/h3/frame.rs]; HTTP/3 errors, frames, their wire
      format, and the settings.
    - [H3Streams.v]: [quiche/src/h3/stream.rs]; the class [Transport] of what
      HTTP/3 asks of a QUIC connection, and the state machine of one stream.
    - [H3Conn.v], [H3Send.v]: [quiche/src/h3/mod.rs]; the connection, [poll] and
      [recv_body], what each frame does; requests, responses, bodies,
      priorities, GOAWAY, SETTINGS and the connection's own streams.
    - [H3Scan.v]: the reference parser, which reads whole frames from all the
      bytes of a stream at once.
    - [H3Inv.v]: the class [TransportLaws] of what HTTP/3 relies on, and how the
      parser of a stream stands to the bytes read so far; [H3Pipe.v]: a small
      transport that satisfies the laws.
    - [H3Run.v], [H3Sent.v]: that every call keeps the invariant of the receiving
      side, and what every call sends; [H3Errors.v]: errors close the
      connection; [H3World.v]: the connection as a state machine, with the
      theorems, and a concrete run of a client and a server; [H3Moves.v]: calls
      act on the transport through its methods only.
    - [Quic.v]: the part of [Connection] ([quiche/src/lib.rs]) that HTTP/3 calls,
      with closing and the limit of datagrams, as an instance of [Transport];
      [QuicLaws.v]: it satisfies [TransportLaws]; [QuicWork.v]: the peer's
      frames, acknowledgements, losses and packets leave what was read and
      written; [QuicWorld.v]: two endpoints, HTTP/3 over QUIC, whose STREAM
      frames travel as the bytes of packets through a network that loses,
      repeats and reorders, with the theorems and a concrete run.
    - [Dgrams.v]: [quiche/src/dgram.rs] and the datagrams of [Connection]
      ([quiche/src/lib.rs]): the calls, the DATAGRAM frames of a packet, and the
      frame that arrives; two endpoints that exchange datagrams.

    ** How the model corresponds to the code

    A Rust struct is a [Record] of the same fields, an enum an [Inductive] with
    the same constructors, a method with [&mut self] a computation in the monad
    [M state Error], which keeps the state on errors as the code does; a [&self]
    method is a function of the state.  [Panic] is an outcome of its own: every
    index, slice, [unwrap], [assert!] and checked subtraction or addition that
    can abort is written so.  A mutable sub-slice is a window into the buffer
    it borrows from, so that aliased writes are writes to the whole.  Integers
    are [Z]; casts to 8, 16 and 32 bits wrap, 64-bit arithmetic is checked.

    ** What the theorems show

    Wire formats: varints, packet numbers, headers, Retry and version
    negotiation packets, protected packets and frames round-trip, sizes are
    exact, and parsing arbitrary bytes is panic free.  Header compression: the
    Huffman decoder is the exact inverse of the encoder, lists of headers
    survive QPACK, and no header block breaks the decoder.  Range sets: insertion and
    removal do what sets of integers do, in both representations, up to the
    capacity.  Stream
    buffers: in every run the receiver delivers a prefix of the sender's bytes,
    delivers all of them once all have arrived, and the sender never loses a
    byte and stays within the peer's limit; the two buffers over a network that
    loses, repeats and reorders frames refine a first-in-first-out pipe, and a
    frame that was sent is never refused ([Delivery.v]).  Connection ids: in
    every run the ids stay distinct, bounded and never run out.  Streams:
    opening follows the limits on every branch and streams of one urgency take
    turns.  Connection: in every reachable state the counters of flow control
    agree with the buffers, every stream with data is queued, but those that a
    packet with no room for their header took off the queue, and no call panics
    on the arguments that the theorem admits; a packet carries the next bytes of
    the first stream that may send.  Datagrams: what is received was sent, at
    most once, and a packet holds the first datagrams that fit.
    Flow control: limits grow as the
    application consumes.  Loss recovery: whatever is sent, acknowledged, lost
    or timed out (fewer than 32 times in a row), the bytes in flight are those of
    the outstanding packets, no frame is forgotten, an ACK and a timeout affect
    exactly the packets they should, the timer is armed while packets of the
    handshake are in flight and, once it has completed, while anything is, and
    Reno halves its window once per recovery period.  HTTP/3: frames round-trip; what the
    application is given from a request stream is what the reference parser
    reads from all its bytes, however they arrive; what is sent are whole frames
    that say what the application asked for; together, two endpoints over a
    transport that keeps the order of bytes deliver a prefix of the headers and
    bodies that were sent; no call panics or loops, and a protocol error closes
    the connection.  HTTP/3 over QUIC: the stream part of [Connection] is such a
    transport, so that with nothing assumed of the network two endpoints deliver
    a prefix of what was sent, down to the bytes of the STREAM frames
    ([QuicWorld.v]).  Several theorems state behaviour that differs from
    what a comment or the protocol asks for; the manifest lists them as
    findings.

    ** Fuel

    Loops that are not structural take a natural number: the bytes left in the
    buffer ([skip_padding], [parse_blocks], [get_versions]), or the number of
    stored chunks ([overlap], [write_loop], [emit_loop]), or of the queued
    streams ([stream_loop]).  [poll] and [recv_body] need three turns for each
    byte that the transport holds: a turn that reads nothing takes the parser
    of a stream closer to a state that reads or stops.  The theorems on these
    operations show that a run never ends for lack of fuel: that outcome is
    [Panic], which they exclude.

    ** Not modelled

    The TLS and C interfaces ([quiche/src/tls], [quiche/src/ffi.rs]), the
    cryptographic libraries (parameters with their documented laws), the
    network coding library (a parameter of [Frames.v]), structured field values
    (parsing a priority field value, by the crate [sfv]), paths and path MTU
    discovery, the FEC schedulers, the handshake and the processing of whole packets in
    [quiche/src/lib.rs], CUBIC, BBR and BBRv2
    (any algorithm that satisfies [CongestionLaws] may take their place), qlog, logging and
    [Debug] output, the counters that only statistics read (such as the
    retransmitted bytes), the applications, tools and tests.
*)
From stdpp Require Export prelude.
From Stdlib Require Export ZArith Lia.

#[export] Set Default Goal Selector "!".

Create HintDb quic_wp discriminated.
Create Rewrite HintDb zlen.

Declare Scope quic_scope.
Delimit Scope quic_scope with quic.
Global Open Scope Z_scope.
Global Open Scope quic_scope.

(** ** Machine integers

    All integers of the code are [Z].  [u64] and [usize] share one width (the
    model is of a 64-bit target); arithmetic that can leave the width is
    written with the checked operations below, which panic exactly where the
    code's arithmetic overflows (the overflow checks of the dev profile). *)

Abbreviation u8_max := 255.
Abbreviation u16_max := 65535.
Abbreviation u32_max := 4294967295.
Abbreviation u64_max := 18446744073709551615.

Definition is_u8 (z : Z) : Prop := 0 <= z <= u8_max.
Definition is_u64 (z : Z) : Prop := 0 <= z <= u64_max.

(** ** Outcomes

    [Ok] and [Err] are Rust's [Result]; [Panic] is an abort: a failed
    assertion, an index out of range, an arithmetic overflow, or
    [unreachable!()]. *)

Inductive result (E A : Type) : Type :=
| Ok (a : A)
| Err (e : E)
| Panic.
Arguments Ok {E A} a.
Arguments Err {E A} e.
Arguments Panic {E A}.

(** A computation on a mutable state [S]: the state is kept on errors, as
    it is behind a [&mut self]. *)
Definition M (S E A : Type) : Type := S → result E A * S.

Section monad.
Context {S E : Type}.

#[export] Instance M_ret : MRet (M S E) := λ A a s, (Ok a, s).

#[export] Instance M_bind : MBind (M S E) := λ A B k m s,
  match m s with
  | (Ok a, s') => k a s'
  | (Err e, s') => (Err e, s')
  | (Panic, s') => (Panic, s')
  end.

Definition fail {A} (e : E) : M S E A := λ s, (Err e, s).
Definition panic {A} : M S E A := λ s, (Panic, s).
Definition get : M S E S := λ s, (Ok s, s).
Definition gets {A} (f : S → A) : M S E A := λ s, (Ok (f s), s).
Definition put (s : S) : M S E unit := λ _, (Ok (), s).
Definition modify (f : S → S) : M S E unit := λ s, (Ok (), f s).

(** A [&self] method that may fail. *)
Definition reads {A} (f : S → result E A) : M S E A := λ s, (f s, s).
(** A pure outcome used inside a stateful method. *)
Definition lift {A} (r : result E A) : M S E A := λ s, (r, s).
End monad.

(** A method call on a component [T] of the state [S]. *)
Definition zoom {S T E A} (g : S → T) (u : T → S → S) (m : M T E A) : M S E A :=
  λ s, let '(r, t) := m (g s) in (r, u t s).

(** The pure outcome monad, for methods that do not touch a state. *)
#[export] Instance result_ret {E} : MRet (result E) := λ A a, Ok a.
#[export] Instance result_bind {E} : MBind (result E) := λ A B k m,
  match m with
  | Ok a => k a
  | Err e => Err e
  | Panic => Panic
  end.

(** Checked arithmetic on a 64-bit unsigned integer. *)
Definition uadd {E} (a b : Z) : result E Z :=
  if a + b <=? u64_max then Ok (a + b) else Panic.
Definition usub {E} (a b : Z) : result E Z :=
  if b <=? a then Ok (a - b) else Panic.
Definition umul {E} (a b : Z) : result E Z :=
  if a * b <=? u64_max then Ok (a * b) else Panic.

(** [saturating_sub] and [saturating_add] of the standard library. *)
Definition saturating_sub (a b : Z) : Z := Z.max 0 (a - b).
Definition saturating_add (a b : Z) : Z := Z.min u64_max (a + b).

Lemma uadd_ok {E} a b : a + b <= u64_max → @uadd E a b = Ok (a + b).
Proof. intros H. unfold uadd. destruct (Z.leb_spec (a + b) u64_max); [done|lia]. Qed.
Lemma usub_ok {E} a b : b <= a → @usub E a b = Ok (a - b).
Proof. intros H. unfold usub. destruct (Z.leb_spec b a); [done|lia]. Qed.
Lemma usub_panic {E} a b : a < b → @usub E a b = Panic.
Proof. intros H. unfold usub. destruct (Z.leb_spec b a); [lia|done]. Qed.
Lemma umul_ok {E} a b : a * b <= u64_max → @umul E a b = Ok (a * b).
Proof. intros H. unfold umul. destruct (Z.leb_spec (a * b) u64_max); [done|lia]. Qed.

(** ** Running a computation *)

Section run.
Context {S E : Type}.
Implicit Types s : S.

Lemma run_ret {A} (a : A) s : (mret a : M S E A) s = (Ok a, s).
Proof. done. Qed.

Lemma run_bind_ok {A B} (m : M S E A) (k : A → M S E B) s a s' :
  m s = (Ok a, s') → (m ≫= k) s = k a s'.
Proof. intros H. unfold mbind, M_bind. by rewrite H. Qed.

Lemma run_bind_err {A B} (m : M S E A) (k : A → M S E B) s e s' :
  m s = (Err e, s') → (m ≫= k) s = (Err e, s').
Proof. intros H. unfold mbind, M_bind. by rewrite H. Qed.

Lemma run_bind_panic {A B} (m : M S E A) (k : A → M S E B) s s' :
  m s = (Panic, s') → (m ≫= k) s = (Panic, s').
Proof. intros H. unfold mbind, M_bind. by rewrite H. Qed.

Lemma run_bind_lift {A B} (r : result E A) (k : A → M S E B) s a :
  r = Ok a → (lift r ≫= k) s = k a s.
Proof. by intros ->. Qed.
Lemma run_bind_reads {A B} (f : S → result E A) (k : A → M S E B) s a :
  f s = Ok a → (reads f ≫= k) s = k a s.
Proof. intros H. unfold mbind, M_bind, reads. by rewrite H. Qed.
Lemma run_bind_gets {A B} (f : S → A) (k : A → M S E B) s :
  (gets f ≫= k) s = k (f s) s.
Proof. done. Qed.
Lemma run_bind_get {B} (k : S → M S E B) s : (get ≫= k) s = k s s.
Proof. done. Qed.
Lemma run_bind_modify {B} (f : S → S) (k : unit → M S E B) s :
  (modify f ≫= k) s = k () (f s).
Proof. done. Qed.
Lemma run_bind_ret {A B} (a : A) (k : A → M S E B) s : (mret a ≫= k) s = k a s.
Proof. done. Qed.

Lemma run_bind_assoc {A B C} (m : M S E A) (k : A → M S E B) (h : B → M S E C) s :
  ((m ≫= k) ≫= h) s = (m ≫= λ a, k a ≫= h) s.
Proof. unfold mbind, M_bind. by destruct (m s) as [[]]. Qed.

(** Inversion: a successful bind ran both halves. *)
Lemma run_bind_inv {A B} (m : M S E A) (k : A → M S E B) s b s'' :
  (m ≫= k) s = (Ok b, s'') →
  ∃ a s', m s = (Ok a, s') ∧ k a s' = (Ok b, s'').
Proof.
  unfold mbind, M_bind. destruct (m s) as [[a|e|] s'] eqn:Hm; intros H;
    simplify_eq/=; eauto.
Qed.

(** Weakest preconditions: [Q] on success, [QE] on error, never a panic. *)
Definition wp {A} (m : M S E A) (Q : A → S → Prop) (QE : E → S → Prop) (s : S) : Prop :=
  match m s with
  | (Ok a, s') => Q a s'
  | (Err e, s') => QE e s'
  | (Panic, _) => False
  end.

Lemma wp_ret {A} (a : A) Q QE s : Q a s → wp (mret a) Q QE s.
Proof. done. Qed.
Lemma wp_fail {A} (e : E) (Q : A → S → Prop) QE s : QE e s → wp (fail e) Q QE s.
Proof. done. Qed.
Lemma wp_gets {A} (f : S → A) Q QE s : Q (f s) s → wp (gets f) Q QE s.
Proof. done. Qed.
Lemma wp_get (Q : S → S → Prop) QE s : Q s s → wp get Q QE s.
Proof. done. Qed.
Lemma wp_modify (f : S → S) Q QE s : Q () (f s) → wp (modify f) Q QE s.
Proof. done. Qed.
Lemma wp_lift {A} (a : A) (r : result E A) Q QE s :
  r = Ok a → Q a s → wp (lift r) Q QE s.
Proof. by intros ->. Qed.

Lemma wp_bind {A B} (m : M S E A) (k : A → M S E B) Q QE s :
  wp m (λ a s', wp (k a) Q QE s') QE s → wp (m ≫= k) Q QE s.
Proof. unfold wp, mbind, M_bind. by destruct (m s) as [[]]. Qed.

Lemma wp_mono {A} (m : M S E A) (Q Q' : A → S → Prop) (QE QE' : E → S → Prop) s :
  wp m Q QE s →
  (∀ a s', Q a s' → Q' a s') → (∀ e s', QE e s' → QE' e s') →
  wp m Q' QE' s.
Proof. unfold wp. destruct (m s) as [[]]; naive_solver. Qed.

Lemma wp_ok {A} (m : M S E A) Q QE s a s' :
  m s = (Ok a, s') → wp m Q QE s → Q a s'.
Proof. unfold wp. by intros ->. Qed.
End run.

Lemma wp_zoom {S0 T E0 A} (g : S0 → T) (u : T → S0 → S0) (m : M T E0 A) Q QE s :
  wp m (λ a t, Q a (u t s)) (λ e t, QE e (u t s)) (g s) → wp (zoom g u m) Q QE s.
Proof. unfold wp, zoom. by destruct (m (g s)) as [[]]. Qed.

#[export] Hint Resolve wp_ret wp_fail wp_gets wp_get wp_modify : quic_wp.

(** ** Lists indexed by [Z] *)

Definition zlen {A} (l : list A) : Z := Z.of_nat (length l).
Definition ztake {A} (n : Z) (l : list A) : list A := take (Z.to_nat n) l.
Definition zdrop {A} (n : Z) (l : list A) : list A := drop (Z.to_nat n) l.
(** [&l[a..b]] where [a <= b <= l.len()]. *)
Definition zslice {A} (a b : Z) (l : list A) : list A := ztake (b - a) (zdrop a l).

Section zlist.
Context {A : Type}.
Implicit Types l k : list A.

Lemma zlen_nonneg l : 0 <= zlen l.
Proof. unfold zlen. lia. Qed.
Lemma zlen_nil : zlen (@nil A) = 0.
Proof. done. Qed.
Lemma zlen_cons x l : zlen (x :: l) = 1 + zlen l.
Proof. unfold zlen. simpl. lia. Qed.
Lemma zlen_app l k : zlen (l ++ k) = zlen l + zlen k.
Proof. unfold zlen. rewrite length_app. lia. Qed.
Lemma zlen_0 l : zlen l = 0 ↔ l = [].
Proof. unfold zlen. destruct l; simpl; split; intros; try done; lia. Qed.

Lemma zlen_ztake n l : 0 <= n <= zlen l → zlen (ztake n l) = n.
Proof. unfold zlen, ztake. rewrite length_take. lia. Qed.
Lemma zlen_zdrop n l : 0 <= n <= zlen l → zlen (zdrop n l) = zlen l - n.
Proof. unfold zlen, zdrop. rewrite length_drop. lia. Qed.
Lemma zlen_zslice a b l : 0 <= a <= b → b <= zlen l → zlen (zslice a b l) = b - a.
Proof.
  intros. unfold zslice. rewrite zlen_ztake; [done|].
  rewrite zlen_zdrop; lia.
Qed.

Lemma ztake_app l k : ztake (zlen l) (l ++ k) = l.
Proof. unfold ztake, zlen. rewrite Nat2Z.id. apply take_app_length. Qed.
Lemma zdrop_app l k : zdrop (zlen l) (l ++ k) = k.
Proof. unfold zdrop, zlen. rewrite Nat2Z.id. apply drop_app_length. Qed.
Lemma ztake_app' n l k : n = zlen l → ztake n (l ++ k) = l.
Proof. intros ->. apply ztake_app. Qed.
Lemma zdrop_app' n l k : n = zlen l → zdrop n (l ++ k) = k.
Proof. intros ->. apply zdrop_app. Qed.
Lemma ztake_0 l : ztake 0 l = [].
Proof. done. Qed.
Lemma zdrop_0 l : zdrop 0 l = l.
Proof. done. Qed.
Lemma ztake_zdrop n l : ztake n l ++ zdrop n l = l.
Proof. apply take_drop. Qed.
Lemma ztake_all n l : zlen l <= n → ztake n l = l.
Proof. unfold ztake, zlen. intros. apply take_ge. lia. Qed.
Lemma zdrop_all n l : zlen l <= n → zdrop n l = [].
Proof. unfold zdrop, zlen. intros. apply drop_ge. lia. Qed.
Lemma zdrop_zdrop a b l : 0 <= a → 0 <= b → zdrop a (zdrop b l) = zdrop (b + a) l.
Proof. intros. unfold zdrop. rewrite drop_drop. f_equal. lia. Qed.

(** The window [b] of [a ++ b ++ c]. *)
Lemma zslice_mid l k r n m :
  n = zlen l → m = zlen l + zlen k → zslice n m (l ++ k ++ r) = k.
Proof.
  intros -> ->. unfold zslice. rewrite zdrop_app.
  replace (zlen l + zlen k - zlen l) with (zlen k) by lia. apply ztake_app.
Qed.
End zlist.

#[global] Arguments zlen : simpl never.
#[global] Arguments Z.eqb : simpl never.
#[global] Arguments Z.leb : simpl never.
#[global] Arguments Z.ltb : simpl never.
#[export] Hint Rewrite @zlen_app @zlen_cons @zlen_nil : zlen.
#[export] Hint Resolve zlen_nonneg : core.

(** Case analysis on the boolean comparison of the goal. *)
Ltac zcase :=
  match goal with
  | |- context [ (?a <=? ?b) ] => destruct (Z.leb_spec a b)
  | |- context [ (?a <? ?b) ] => destruct (Z.ltb_spec a b)
  | |- context [ (?a =? ?b) ] => destruct (Z.eqb_spec a b)
  end.
(** The same in the hypotheses. *)
Ltac zcase_in H :=
  match type of H with
  | context [ (?a <=? ?b) ] => destruct (Z.leb_spec a b)
  | context [ (?a <? ?b) ] => destruct (Z.ltb_spec a b)
  | context [ (?a =? ?b) ] => destruct (Z.eqb_spec a b)
  end.
(** Decide the comparison of the goal by arithmetic. *)
Ltac zdecide :=
  repeat match goal with
  | |- context [ (?a <=? ?b) ] =>
      first [ rewrite (proj2 (Z.leb_le a b)) by lia
            | rewrite (proj2 (Z.leb_gt a b)) by lia ]
  | |- context [ (?a <? ?b) ] =>
      first [ rewrite (proj2 (Z.ltb_lt a b)) by lia
            | rewrite (proj2 (Z.ltb_ge a b)) by lia ]
  | |- context [ (?a =? ?b) ] =>
      first [ rewrite (proj2 (Z.eqb_eq a b)) by lia
            | rewrite (proj2 (Z.eqb_neq a b)) by lia ]
  end.

(** Weaken a [Forall] by arithmetic on each element. *)
Ltac forall_lia :=
  match goal with
  | H : Forall _ ?l |- Forall _ ?l =>
      solve [ apply (Forall_impl _ _ _ H); let G := fresh in intros ? G; simpl in *; lia ]
  end.

(** ** The error type of the quiche crate ([quiche/src/lib.rs]) *)
Inductive Error : Type :=
| Done | BufferTooShort | UnknownVersion | InvalidFrame | InvalidPacket
| InvalidState | InvalidStreamState (id : Z) | InvalidTransportParam
| CryptoFail | TlsFail | FlowControl | StreamLimit
| StreamStopped (code : Z) | StreamReset (code : Z) | FinalSize
| CongestionControl | FECScheduler | IdLimit | OutOfIdentifiers | KeyUpdate
| CryptoBufferExceeded | FECDecoderError (code : Z) | FECEncoderError (code : Z)
| BadSymbolID | SourceSymbolCreationError.

#[export] Instance Error_eq_dec : EqDecision Error.
Proof. solve_decision. Defined.
