(* ===== verification/Orders.v ===== *)
(** * What the standard library and its data structures leave open

    The iteration order of hash sets and maps, the answer of
    [partition_point] on a sequence that is not partitioned, and the place a
    red-black tree gives to a new element, as parameters with the laws that
    their documentation states.  [ToyOrders] has concrete ones. *)
From stdpp Require Import gmap.
From S2P Require Import Prelude.

(** Hash sets and maps, and binary search in a sequence. *)
Class StdOrders := {
  hash_iter : gset Z → list Z;
  hash_iter_elements s : hash_iter s ≡ₚ elements s;
  map_iter {V} : gmap Z V → list (Z * V);
  map_iter_list {V} (m : gmap Z V) : map_iter m ≡ₚ map_to_list m;
  partition_point : list bool → nat;
  partition_point_le l : (partition_point l <= length l)%nat;
  partition_point_split a b : partition_point (replicate a true ++ replicate b false) = a
}.

(** [RBTree::insert] of the intrusive_collections crate, on the tree's elements
    in order.  [less x y] compares the key of the new element with that of a
    stored one; the new element stands after those it is not less than. *)
Class RBTree := {
  rb_insert {K} : (K → K → bool) → K → list K → list K;
  rb_insert_perm {K} (less : K → K → bool) x l : rb_insert less x l ≡ₚ x :: l;
  rb_insert_ordered {K} (less : K → K → bool) x l1 l2 :
    Forall (λ y, less x y = false) l1 → Forall (λ y, less x y = true) l2 →
    rb_insert less x (l1 ++ l2) = l1 ++ x :: l2
}.

(** Sets and maps that iterate in the order of their elements, a search that
    counts the leading [true]s, and insertion into a sorted list. *)
Module ToyOrders.
Fixpoint leading (l : list bool) : nat :=
  match l with true :: l => S (leading l) | _ => O end.

Lemma leading_le l : (leading l <= length l)%nat.
Proof. induction l as [|[] l IH]; simpl; lia. Qed.

Lemma leading_split a b : leading (replicate a true ++ replicate b false) = a.
Proof. induction a as [|a IH]; simpl; [by destruct b|by rewrite IH]. Qed.

#[global] Instance orders : StdOrders := {|
  hash_iter s := elements s;
  hash_iter_elements s := reflexivity _;
  map_iter V m := map_to_list m;
  map_iter_list V m := reflexivity _;
  partition_point := leading;
  partition_point_le := leading_le;
  partition_point_split := leading_split
|}.
Fixpoint ins {K} (less : K → K → bool) (x : K) (l : list K) : list K :=
  match l with
  | [] => [x]
  | y :: l => if less x y then x :: y :: l else y :: ins less x l
  end.

Lemma ins_perm {K} (less : K → K → bool) x l : ins less x l ≡ₚ x :: l.
Proof.
  induction l as [|y l IH]; [done|]. cbn. destruct (less x y); [done|]. rewrite IH. constructor.
Qed.

Lemma ins_ordered {K} (less : K → K → bool) x l1 l2 :
  Forall (λ y, less x y = false) l1 → Forall (λ y, less x y = true) l2 →
  ins less x (l1 ++ l2) = l1 ++ x :: l2.
Proof.
  intros H1 H2. induction H1 as [|y l1 Hy H1 IH]; cbn.
  - destruct H2 as [|y l2 Hy H2]; cbn; [done|by rewrite Hy].
  - by rewrite Hy, IH.
Qed.

#[global] Instance rbtree : RBTree := {|
  rb_insert := @ins;
  rb_insert_perm := @ins_perm;
  rb_insert_ordered := @ins_ordered
|}.
End ToyOrders.

