(* ===== verification/OctetsLib.v ===== *)
(** * Byte buffers: [octets/src/lib.rs]

    [Octets] and [OctetsMut] are a slice with a cursor.  Both have the same two
    fields and are modelled by the one record [octets]; an [OctetsMut] method
    may also change the bytes.  Every reader and writer of the crate is built
    from the three macros [peek_u!], [get_u!], [put_u!].

    The second half gives the two relations in which every codec of the
    development is specified: [parses m bs v] (reading [bs] yields [v]) and
    [writes m bs] (the writer emits exactly [bs]); both compose along [bind]. *)
From S2P Require Import Prelude.

(** The error a caller sees for [BufferTooShortError]: each crate converts it
    with its own [From] implementation. *)
Class BufErr (E : Type) := buffer_too_short : E.

(** [impl From<octets::BufferTooShortError> for Error] *)
#[export] Instance Error_BufErr : BufErr Error := BufferTooShort.

Record octets := mk_octets { o_buf : list Z; o_off : Z }.

#[export] Instance octets_eq_dec : EqDecision octets.
Proof. solve_decision. Defined.

(** ** Big-endian integers *)

(** The value of a big-endian byte string, [from_be]. *)
Definition be_val (l : list Z) : Z := foldl (λ acc b, acc * 256 + b) 0 l.

(** The [n] low bytes of [v], most significant first, [to_be]. *)
Fixpoint be_bytes (n : nat) (v : Z) : list Z :=
  match n with
  | O => []
  | S n' => Z.land (Z.shiftr v (8 * Z.of_nat n')) 255 :: be_bytes n' v
  end.

(** Overwrite the bytes of [l] from index [i] with [bs]. *)
Definition zsplice (i : Z) (bs l : list Z) : list Z :=
  ztake i l ++ bs ++ zdrop (i + zlen bs) l.

(** Numeric casts. *)
Definition as_u8 (v : Z) : Z := v mod 2 ^ 8.
Definition as_u16 (v : Z) : Z := v mod 2 ^ 16.
Definition as_u32 (v : Z) : Z := v mod 2 ^ 32.

(** ** Varint lengths *)

(** [const fn varint_len]; [unreachable!()] is a panic. *)
Definition varint_len {E} (v : Z) : result E Z :=
  if v <=? 63 then Ok 1
  else if v <=? 16383 then Ok 2
  else if v <=? 1073741823 then Ok 4
  else if v <=? 4611686018427387903 then Ok 8
  else Panic.

(** [const fn varint_parse_len] *)
Definition varint_parse_len {E} (first : Z) : result E Z :=
  let k := Z.shiftr first 6 in
  if k =? 0 then Ok 1
  else if k =? 1 then Ok 2
  else if k =? 2 then Ok 4
  else if k =? 3 then Ok 8
  else Panic.

Section macros.
Context {E : Type} `{BufErr E}.

(** [peek_u!($b, $ty, $len)]: [&b.buf[b.off..]] panics when [off] is past
    the end. *)
Definition peek_u (len : Z) : M octets E Z := λ o,
  if zlen (o_buf o) <? o_off o then (Panic, o)
  else
    let src := zdrop (o_off o) (o_buf o) in
    if zlen src <? len then (Err buffer_too_short, o)
    else (Ok (be_val (ztake len src)), o).

(** [get_u!($b, $ty, $len)] *)
Definition get_u (len : Z) : M octets E Z :=
  out ← peek_u len;
  _ ← modify (λ o, mk_octets (o_buf o) (o_off o + len));
  mret out.

(** [put_u!($b, $ty, $v, $len)]; the result is the index at which the
    returned slice [dst] starts. *)
Definition put_u (v : Z) (len : Z) : M octets E Z := λ o,
  if zlen (o_buf o) <? o_off o + len then (Err buffer_too_short, o)
  else
    (Ok (o_off o),
     mk_octets (zsplice (o_off o) (be_bytes (Z.to_nat len) v) (o_buf o))
               (o_off o + len)).
End macros.

(** ** [impl Octets] *)
Module Octets.
Section methods.
Context {E : Type} `{BufErr E}.

Definition with_slice (b : list Z) : octets := mk_octets b 0.

Definition cap (o : octets) : result E Z := usub (zlen (o_buf o)) (o_off o).
Definition len (o : octets) : Z := zlen (o_buf o).
Definition is_empty (o : octets) : bool := zlen (o_buf o) =? 0.
Definition off (o : octets) : Z := o_off o.
Definition buf (o : octets) : list Z := o_buf o.
(** [as_ref], [to_vec]: the bytes from the cursor on. *)
Definition as_ref (o : octets) : list Z := zdrop (o_off o) (o_buf o).
Definition to_vec (o : octets) : list Z := as_ref o.

Definition peek_u8 : M octets E Z := peek_u 1.
Definition get_u8 : M octets E Z := get_u 1.
Definition get_u16 : M octets E Z := get_u 2.
Definition get_u24 : M octets E Z := get_u 3.
Definition get_u32 : M octets E Z := get_u 4.
Definition get_u64 : M octets E Z := get_u 8.

Definition get_varint : M octets E Z :=
  first ← peek_u8;
  len ← lift (varint_parse_len first);
  c ← reads cap;
  if c <? len then fail buffer_too_short
  else if len =? 1 then get_u8
  else if len =? 2 then v ← get_u16; mret (Z.land v 0x3fff)
  else if len =? 4 then v ← get_u32; mret (Z.land v 0x3fffffff)
  else if len =? 8 then v ← get_u64; mret (Z.land v 0x3fffffffffffffff)
  else panic.

Definition slice (len : Z) : M octets E (list Z) :=
  c ← reads cap;
  if c <? len then fail buffer_too_short
  else gets (λ o, zslice (o_off o) (o_off o + len) (o_buf o)).

Definition peek_bytes (len : Z) : M octets E octets :=
  c ← reads cap;
  if c <? len then fail buffer_too_short
  else gets (λ o, mk_octets (zslice (o_off o) (o_off o + len) (o_buf o)) 0).

Definition get_bytes (len : Z) : M octets E octets :=
  out ← peek_bytes len;
  _ ← modify (λ o, mk_octets (o_buf o) (o_off o + len));
  mret out.

Definition get_bytes_with_u8_length : M octets E octets :=
  len ← get_u8; get_bytes len.
Definition get_bytes_with_u16_length : M octets E octets :=
  len ← get_u16; get_bytes len.
Definition get_bytes_with_varint_length : M octets E octets :=
  len ← get_varint; get_bytes len.

(** [&self.buf[cap - len..]]: an index computed from [cap], not from the
    end of the buffer. *)
Definition slice_last (len : Z) : M octets E (list Z) :=
  c ← reads cap;
  if c <? len then fail buffer_too_short
  else gets (λ o, zdrop (c - len) (o_buf o)).

Definition skip (n : Z) : M octets E unit :=
  c ← reads cap;
  if c <? n then fail buffer_too_short
  else modify (λ o, mk_octets (o_buf o) (o_off o + n)).
End methods.
End Octets.

(** ** [impl OctetsMut] *)
Module OctetsMut.
Section methods.
Context {E : Type} `{BufErr E}.

Definition with_slice (b : list Z) : octets := mk_octets b 0.

Definition cap (o : octets) : result E Z := usub (zlen (o_buf o)) (o_off o).
Definition len (o : octets) : Z := zlen (o_buf o).
Definition is_empty (o : octets) : bool := zlen (o_buf o) =? 0.
Definition off (o : octets) : Z := o_off o.
Definition buf (o : octets) : list Z := o_buf o.
Definition as_ref (o : octets) : list Z := zdrop (o_off o) (o_buf o).
Definition to_vec (o : octets) : list Z := as_ref o.

Definition peek_u8 : M octets E Z := peek_u 1.
Definition get_u8 : M octets E Z := get_u 1.
Definition put_u8 (v : Z) : M octets E Z := put_u v 1.
Definition get_u16 : M octets E Z := get_u 2.
Definition put_u16 (v : Z) : M octets E Z := put_u v 2.
Definition get_u24 : M octets E Z := get_u 3.
Definition put_u24 (v : Z) : M octets E Z := put_u v 3.
Definition get_u32 : M octets E Z := get_u 4.
Definition put_u32 (v : Z) : M octets E Z := put_u v 4.
Definition get_u64 : M octets E Z := get_u 8.
Definition put_u64 (v : Z) : M octets E Z := put_u v 8.

Definition get_varint : M octets E Z :=
  first ← peek_u8;
  len ← lift (varint_parse_len first);
  c ← reads cap;
  if c <? len then fail buffer_too_short
  else if len =? 1 then get_u8
  else if len =? 2 then v ← get_u16; mret (Z.land v 0x3fff)
  else if len =? 4 then v ← get_u32; mret (Z.land v 0x3fffffff)
  else if len =? 8 then v ← get_u64; mret (Z.land v 0x3fffffffffffffff)
  else panic.

(** [buf[0] |= mask] on the slice that starts at [i]. *)
Definition or_first (i mask : Z) : M octets E unit := λ o,
  match zdrop i (o_buf o) with
  | [] => (Panic, o)
  | b :: rest => (Ok (), mk_octets (ztake i (o_buf o) ++ Z.lor b mask :: rest) (o_off o))
  end.

Definition put_varint_with_len (v len : Z) : M octets E Z :=
  c ← reads cap;
  if c <? len then fail buffer_too_short
  else if len =? 1 then put_u8 (as_u8 v)
  else if len =? 2 then
    i ← put_u16 (as_u16 v); _ ← or_first i 0x40; mret i
  else if len =? 4 then
    i ← put_u32 (as_u32 v); _ ← or_first i 0x80; mret i
  else if len =? 8 then
    i ← put_u64 v; _ ← or_first i 0xc0; mret i
  else panic.

Definition put_varint (v : Z) : M octets E Z :=
  len ← lift (varint_len v);
  put_varint_with_len v len.

Definition peek_bytes (len : Z) : M octets E octets :=
  c ← reads cap;
  if c <? len then fail buffer_too_short
  else gets (λ o, mk_octets (zslice (o_off o) (o_off o + len) (o_buf o)) 0).

Definition get_bytes (len : Z) : M octets E octets :=
  out ← peek_bytes len;
  _ ← modify (λ o, mk_octets (o_buf o) (o_off o + len));
  mret out.

Definition get_bytes_with_u8_length : M octets E octets :=
  len ← get_u8; get_bytes len.
Definition get_bytes_with_u16_length : M octets E octets :=
  len ← get_u16; get_bytes len.
Definition get_bytes_with_varint_length : M octets E octets :=
  len ← get_varint; get_bytes len.

(** A mutable sub-buffer borrows the window [[a, b)] of its parent: its
    writes are writes to the parent, so a borrow is the pair of bounds and
    [in_window] runs a method on the borrowed part. *)
Definition peek_bytes_mut (len : Z) : M octets E (Z * Z) :=
  c ← reads cap;
  if c <? len then fail buffer_too_short
  else gets (λ o, (o_off o, o_off o + len)).

Definition get_bytes_mut (len : Z) : M octets E (Z * Z) :=
  w ← peek_bytes_mut len;
  _ ← modify (λ o, mk_octets (o_buf o) (o_off o + len));
  mret w.

Definition split_at (i : Z) : M octets E ((Z * Z) * (Z * Z)) := λ o,
  if zlen (o_buf o) <? i then (Err buffer_too_short, o)
  else (Ok ((0, i), (i, zlen (o_buf o))), o).

Definition in_window {A} (w : Z * Z) (m : M octets E A) : M octets E A := λ o,
  let '(r, o') := m (mk_octets (zslice w.1 w.2 (o_buf o)) 0) in
  (r, mk_octets (zsplice w.1 (o_buf o') (o_buf o)) (o_off o)).

Definition put_bytes (v : list Z) : M octets E unit :=
  c ← reads cap;
  if c <? zlen v then fail buffer_too_short
  else if zlen v =? 0 then mret ()
  else modify (λ o, mk_octets (zsplice (o_off o) v (o_buf o)) (o_off o + zlen v)).

Definition slice (len : Z) : M octets E (list Z) :=
  c ← reads cap;
  if c <? len then fail buffer_too_short
  else gets (λ o, zslice (o_off o) (o_off o + len) (o_buf o)).

Definition slice_last (len : Z) : M octets E (list Z) :=
  c ← reads cap;
  if c <? len then fail buffer_too_short
  else gets (λ o, zdrop (c - len) (o_buf o)).

Definition skip (n : Z) : M octets E unit :=
  c ← reads cap;
  if c <? n then fail buffer_too_short
  else modify (λ o, mk_octets (o_buf o) (o_off o + n)).
End methods.
End OctetsMut.

(** ** Lemmas on big-endian strings *)

Definition bytes_ok (l : list Z) : Prop := Forall is_u8 l.

Lemma be_val_app l k : be_val (l ++ k) = be_val l * 256 ^ zlen k + be_val k.
Proof.
  unfold be_val. rewrite foldl_app. generalize (foldl (λ acc b : Z, acc * 256 + b) 0 l).
  intros a. revert a. induction k as [|b k IH] using rev_ind; intros a.
  - rewrite zlen_nil. simpl. lia.
  - rewrite !foldl_app, zlen_app, zlen_cons, zlen_nil. simpl.
    rewrite (IH a), Z.pow_add_r by (try apply zlen_nonneg; lia). lia.
Qed.

Lemma be_val_cons b l : be_val (b :: l) = b * 256 ^ zlen l + be_val l.
Proof. change (b :: l) with ([b] ++ l). rewrite be_val_app. done. Qed.

Lemma be_val_bound l : bytes_ok l → 0 <= be_val l < 256 ^ zlen l.
Proof.
  induction 1 as [|b l Hb Hl IH]; [done|].
  rewrite be_val_cons, zlen_cons, Z.pow_add_r by (try apply zlen_nonneg; lia).
  unfold is_u8 in Hb. change (256 ^ 1) with 256.
  assert (0 < 256 ^ zlen l) by (apply Z.pow_pos_nonneg; [lia|apply zlen_nonneg]). nia.
Qed.

Lemma be_byte_eq v n : Z.land (Z.shiftr v (8 * Z.of_nat n)) 255 = (v / 256 ^ Z.of_nat n) mod 256.
Proof.
  rewrite Z.shiftr_div_pow2 by lia. rewrite Z.pow_mul_r by lia. change (2 ^ 8) with 256.
  change 255 with (Z.ones 8). by rewrite Z.land_ones.
Qed.

Lemma be_bytes_length n v : length (be_bytes n v) = n.
Proof. induction n; simpl; congruence. Qed.
Lemma zlen_be_bytes n v : zlen (be_bytes n v) = Z.of_nat n.
Proof. unfold zlen. by rewrite be_bytes_length. Qed.

Lemma be_bytes_ok n v : bytes_ok (be_bytes n v).
Proof.
  induction n as [|n IH]; simpl; constructor; [|done].
  rewrite be_byte_eq. unfold is_u8.
  pose proof (Z.mod_pos_bound (v / 256 ^ Z.of_nat n) 256). lia.
Qed.

(** Decoding the [n] low bytes of [v] gives [v] modulo [256^n]. *)
Lemma be_val_be_bytes n v : be_val (be_bytes n v) = v mod 256 ^ Z.of_nat n.
Proof.
  induction n as [|n IH]; [by rewrite Z.mod_1_r|].
  cbn [be_bytes]. rewrite be_val_cons, zlen_be_bytes, be_byte_eq, IH, Nat2Z.inj_succ.
  rewrite Z.pow_succ_r by lia.
  assert (0 < 256 ^ Z.of_nat n) by (apply Z.pow_pos_nonneg; lia).
  rewrite (Z.mul_comm 256), Z.rem_mul_r by lia. lia.
Qed.

Lemma be_bytes_head n v l :
  0 <= v < 256 ^ Z.of_nat (S n) →
  be_bytes (S n) v ++ l = v / 256 ^ Z.of_nat n :: be_bytes n v ++ l.
Proof.
  intros Hv. cbn [be_bytes app]. rewrite be_byte_eq, Z.mod_small; [done|].
  rewrite Nat2Z.inj_succ, Z.pow_succ_r in Hv by lia.
  assert (0 < 256 ^ Z.of_nat n) by (apply Z.pow_pos_nonneg; lia).
  split; [apply Z.div_pos; lia|apply Z.div_lt_upper_bound; lia].
Qed.

(** ** Codec relations *)

(** [m] reads exactly [bs] at the cursor, whatever surrounds it, and yields
    [a]. *)
Definition parses {E A} (m : M octets E A) (bs : list Z) (a : A) : Prop :=
  ∀ pre rest,
    m (mk_octets (pre ++ bs ++ rest) (zlen pre)) =
    (Ok a, mk_octets (pre ++ bs ++ rest) (zlen pre + zlen bs)).

(** [m] overwrites the bytes at the cursor with exactly [bs]. *)
Definition writes {E A} (m : M octets E A) (bs : list Z) : Prop :=
  ∀ pre old rest, zlen old = zlen bs →
    ∃ a, m (mk_octets (pre ++ old ++ rest) (zlen pre)) =
         (Ok a, mk_octets (pre ++ bs ++ rest) (zlen pre + zlen bs)).

Section codec.
Context {E : Type}.

Lemma parses_ret {A} (a : A) : parses (mret a : M octets E A) [] a.
Proof. intros pre rest. rewrite run_ret. by rewrite zlen_nil, Z.add_0_r. Qed.

Lemma parses_bind {A B} (m : M octets E A) (k : A → M octets E B) b1 b2 a c :
  parses m b1 a → parses (k a) b2 c → parses (m ≫= k) (b1 ++ b2) c.
Proof.
  intros Hm Hk pre rest. rewrite <- app_assoc.
  rewrite (run_bind_ok _ _ _ _ _ (Hm pre (b2 ++ rest))).
  specialize (Hk (pre ++ b1) rest). rewrite <- !app_assoc, zlen_app in Hk.
  rewrite Hk, zlen_app. do 2 f_equal. lia.
Qed.

(** A pure continuation at the end of a parser. *)
Lemma parses_bind_ret {A B} (m : M octets E A) (k : A → M octets E B) b1 a c :
  parses m b1 a → k a = mret c → parses (m ≫= k) b1 c.
Proof.
  intros Hm Hk. rewrite <- (app_nil_r b1). eapply parses_bind; [done|].
  rewrite Hk. apply parses_ret.
Qed.

Lemma writes_ret {A} (a : A) : writes (mret a : M octets E A) [].
Proof.
  intros pre old rest Hold. rewrite zlen_nil, zlen_0 in Hold. subst old.
  exists a. rewrite run_ret, zlen_nil, Z.add_0_r. done.
Qed.

Lemma writes_bind {A B} (m : M octets E A) (k : A → M octets E B) b1 b2 :
  writes m b1 → (∀ a, writes (k a) b2) → writes (m ≫= k) (b1 ++ b2).
Proof.
  intros Hm Hk pre old rest Hold. rewrite zlen_app in Hold.
  pose proof (zlen_nonneg b1). pose proof (zlen_nonneg b2).
  rewrite <- (ztake_zdrop (zlen b1) old), <- (app_assoc (ztake _ _)).
  destruct (Hm pre (ztake (zlen b1) old) (zdrop (zlen b1) old ++ rest)) as [a Ha];
    [rewrite zlen_ztake; lia|].
  rewrite (run_bind_ok _ _ _ _ _ Ha).
  destruct (Hk a (pre ++ b1) (zdrop (zlen b1) old) rest) as [c Hc];
    [rewrite zlen_zdrop; lia|].
  rewrite <- !app_assoc, zlen_app in Hc. exists c. rewrite Hc.
  rewrite <- !app_assoc, zlen_app. do 2 f_equal. lia.
Qed.

(** [m] reads [bs] and goes on as [m'], which may look at all that follows. *)
Definition reads_into {A} (m : M octets E A) (bs : list Z) (m' : M octets E A) : Prop :=
  ∀ pre rest,
    m (mk_octets (pre ++ bs ++ rest) (zlen pre)) =
    m' (mk_octets (pre ++ bs ++ rest) (zlen pre + zlen bs)).

Lemma reads_into_refl {A} (m : M octets E A) : reads_into m [] m.
Proof. intros pre rest. by rewrite zlen_nil, Z.add_0_r. Qed.

Lemma reads_into_bind {A B} (m : M octets E A) (k : A → M octets E B) b1 b2 a m' :
  parses m b1 a → reads_into (k a) b2 m' → reads_into (m ≫= k) (b1 ++ b2) m'.
Proof.
  intros Hm Hk pre rest. rewrite <- app_assoc.
  rewrite (run_bind_ok _ _ _ _ _ (Hm pre (b2 ++ rest))).
  specialize (Hk (pre ++ b1) rest). rewrite <- !app_assoc, zlen_app in Hk.
  rewrite Hk, zlen_app. do 2 f_equal. lia.
Qed.

Lemma reads_into_parses {A} (m m' : M octets E A) b1 b2 a :
  reads_into m b1 m' → parses m' b2 a → parses m (b1 ++ b2) a.
Proof.
  intros Hm Hm' pre rest. rewrite <- app_assoc, (Hm pre (b2 ++ rest)).
  specialize (Hm' (pre ++ b1) rest). rewrite <- !app_assoc, zlen_app in Hm'.
  rewrite Hm', zlen_app. do 2 f_equal. lia.
Qed.

(** [m] writes [bs] and returns the cursor it ends at. *)
Definition writes_to (m : M octets E Z) (bs : list Z) : Prop :=
  ∀ pre old rest, zlen old = zlen bs →
    m (mk_octets (pre ++ old ++ rest) (zlen pre)) =
    (Ok (zlen pre + zlen bs), mk_octets (pre ++ bs ++ rest) (zlen pre + zlen bs)).

Lemma writes_to_off : writes_to (gets OctetsMut.off) [].
Proof.
  intros pre old rest Hold. rewrite zlen_nil, zlen_0 in Hold. subst old.
  by rewrite zlen_nil, Z.add_0_r.
Qed.

Lemma writes_to_bind {A} (m : M octets E A) (k : A → M octets E Z) b1 b2 :
  writes m b1 → (∀ a, writes_to (k a) b2) → writes_to (m ≫= k) (b1 ++ b2).
Proof.
  intros Hm Hk pre old rest Hold. rewrite zlen_app in Hold.
  pose proof (zlen_nonneg b1). pose proof (zlen_nonneg b2).
  rewrite <- (ztake_zdrop (zlen b1) old), <- (app_assoc (ztake _ _)).
  destruct (Hm pre (ztake (zlen b1) old) (zdrop (zlen b1) old ++ rest)) as [a Ha];
    [rewrite zlen_ztake; lia|].
  rewrite (run_bind_ok _ _ _ _ _ Ha).
  specialize (Hk a (pre ++ b1) (zdrop (zlen b1) old) rest).
  rewrite <- !app_assoc, !zlen_app in Hk. rewrite Hk by (rewrite zlen_zdrop; lia).
  rewrite <- !app_assoc, !zlen_app. do 2 f_equal; lia.
Qed.

(** A writer, run at the start of a large enough buffer. *)
Lemma writes_to_run (m : M octets E Z) bs out :
  writes_to m bs → zlen bs <= zlen out →
  m (OctetsMut.with_slice out) =
  (Ok (zlen bs), mk_octets (bs ++ zdrop (zlen bs) out) (zlen bs)).
Proof.
  intros Hm Hout. pose proof (zlen_nonneg bs).
  specialize (Hm [] (ztake (zlen bs) out) (zdrop (zlen bs) out)).
  rewrite ztake_zdrop in Hm. apply Hm. by apply zlen_ztake.
Qed.

Lemma writes_if {A} (b : bool) (m1 m2 : M octets E A) b1 b2 :
  (b = true → writes m1 b1) → (b = false → writes m2 b2) →
  writes (if b then m1 else m2) (if b then b1 else b2).
Proof. destruct b; auto. Qed.
End codec.

(** ** The varint wire format *)

Definition varint_size (v : Z) : Z :=
  if v <=? 63 then 1 else if v <=? 16383 then 2 else if v <=? 1073741823 then 4 else 8.

(** The two-bit length tag. *)
Definition varint_tag (len : Z) : Z :=
  if len =? 1 then 0 else if len =? 2 then 1 else if len =? 4 then 2 else 3.

Definition enc_varint_len (len v : Z) : list Z :=
  be_bytes (Z.to_nat len) (v + varint_tag len * 2 ^ (8 * len - 2)).

Definition enc_varint (v : Z) : list Z := enc_varint_len (varint_size v) v.

(** The largest value a varint can carry. *)
Abbreviation varint_max := 4611686018427387903.
Definition is_varint (v : Z) : Prop := 0 <= v <= varint_max.

(** [v] fits a varint of [len] bytes. *)
Definition fits_varint (len v : Z) : Prop :=
  (len = 1 ∧ 0 <= v < 64) ∨ (len = 2 ∧ 0 <= v < 16384) ∨
  (len = 4 ∧ 0 <= v < 1073741824) ∨ (len = 8 ∧ 0 <= v < 4611686018427387904).

(** Case analysis on a varint's length, its constants evaluated. *)
Ltac zeval t := let v := eval vm_compute in t in change t with v in *.
Ltac varint_cases H :=
  let go len :=
    zeval (varint_tag len); zeval (2 ^ (8 * len - 2)); zeval (256 ^ len);
    zeval (256 ^ (len - 1)) in
  destruct H as [[-> H]|[[-> H]|[[-> H]|[-> H]]]]; [go 1|go 2|go 4|go 8].

Lemma varint_size_fits v : is_varint v → fits_varint (varint_size v) v.
Proof.
  unfold is_varint, fits_varint, varint_size. intros.
  repeat zcase; lia.
Qed.

Lemma varint_len_size {E} v : is_varint v → @varint_len E v = Ok (varint_size v).
Proof. unfold is_varint, varint_len, varint_size. intros. repeat zcase; try done; lia. Qed.

Lemma varint_size_bounds v : 1 <= varint_size v <= 8.
Proof. unfold varint_size. repeat zcase; lia. Qed.

Lemma zlen_enc_varint_len len v : 0 <= len → zlen (enc_varint_len len v) = len.
Proof. intros. unfold enc_varint_len. rewrite zlen_be_bytes. lia. Qed.
Lemma zlen_enc_varint v : zlen (enc_varint v) = varint_size v.
Proof. apply zlen_enc_varint_len. pose proof (varint_size_bounds v). lia. Qed.
#[export] Hint Rewrite zlen_enc_varint @zlen_be_bytes : zlen.

Lemma enc_varint_ok v : bytes_ok (enc_varint v).
Proof. apply be_bytes_ok. Qed.

Lemma fits_varint_len len v : fits_varint len v → len = 1 ∨ len = 2 ∨ len = 4 ∨ len = 8.
Proof. unfold fits_varint. intuition. Qed.

(** The value and the first byte of an encoded varint. *)
Lemma enc_varint_len_word len v :
  fits_varint len v →
  0 <= v + varint_tag len * 2 ^ (8 * len - 2) < 256 ^ len ∧
  be_val (enc_varint_len len v) = v + varint_tag len * 2 ^ (8 * len - 2).
Proof.
  intros Hf.
  assert (0 <= v + varint_tag len * 2 ^ (8 * len - 2) < 256 ^ len) as Hb.
  { varint_cases Hf; lia. }
  split; [done|]. unfold enc_varint_len. rewrite be_val_be_bytes.
  rewrite Z2Nat.id by (pose proof (fits_varint_len _ _ Hf); lia).
  by apply Z.mod_small.
Qed.

Lemma enc_varint_len_first len v :
  fits_varint len v →
  ∃ b tl, enc_varint_len len v = b :: tl ∧ zlen tl = len - 1 ∧
          0 <= b <= 255 ∧ Z.shiftr b 6 = varint_tag len.
Proof.
  intros Hf. destruct (enc_varint_len_word _ _ Hf) as [Hw _].
  unfold enc_varint_len in *. set (w := v + _) in *.
  destruct (Z.to_nat len) as [|n] eqn:Hn; [pose proof (fits_varint_len _ _ Hf); lia|].
  assert (Z.of_nat n = len - 1) as Hlen by lia.
  exists (w / 256 ^ Z.of_nat n), (be_bytes n w).
  pose proof (be_bytes_head n w []) as Hh. rewrite !app_nil_r, Nat2Z.inj_succ, Hlen in Hh.
  rewrite Hlen, zlen_be_bytes, Z.shiftr_div_pow2 by lia. change (2 ^ 6) with 64.
  split_and!; [by apply Hh; replace (Z.succ (len - 1)) with len by lia|lia|..];
    subst w; clear Hh Hn Hlen; varint_cases Hf; Z.div_mod_to_equations; lia.
Qed.

(** ** The macros as codecs *)

Section primitives.
Context {E : Type} `{BufErr E}.

Lemma peek_u_prefix n pre bs rest :
  0 <= n <= zlen bs →
  peek_u n (mk_octets (pre ++ bs ++ rest) (zlen pre)) =
  (Ok (be_val (ztake n bs)), mk_octets (pre ++ bs ++ rest) (zlen pre)).
Proof.
  intros Hn. unfold peek_u. cbn [o_buf o_off]. rewrite zdrop_app, !zlen_app.
  pose proof (zlen_nonneg bs). pose proof (zlen_nonneg rest). zdecide.
  do 3 f_equal. unfold ztake, zlen in *. rewrite take_app_le; [done|lia].
Qed.

Lemma get_u_parses n bs : n = zlen bs → parses (get_u n) bs (be_val bs).
Proof.
  intros -> pre rest. unfold get_u.
  erewrite run_bind_ok by (apply peek_u_prefix; pose proof (zlen_nonneg bs); lia).
  rewrite ztake_all by lia. done.
Qed.

Lemma zsplice_mid (pre old bs rest : list Z) :
  zlen old = zlen bs → zsplice (zlen pre) bs (pre ++ old ++ rest) = pre ++ bs ++ rest.
Proof.
  intros Hl. unfold zsplice. rewrite ztake_app. do 2 f_equal.
  rewrite app_assoc. apply zdrop_app'. rewrite zlen_app. lia.
Qed.

Lemma split_at_run i l off :
  0 <= i <= zlen l →
  OctetsMut.split_at (E:=Error) i (mk_octets l off) = (Ok ((0, i), (i, zlen l)), mk_octets l off).
Proof. intros Hi. unfold OctetsMut.split_at. cbn [o_buf]. by rewrite (proj2 (Z.ltb_ge _ _)) by lia. Qed.

Lemma put_u_run v n pre old rest :
  0 <= n → zlen old = n →
  put_u v n (mk_octets (pre ++ old ++ rest) (zlen pre)) =
  (Ok (zlen pre), mk_octets (pre ++ be_bytes (Z.to_nat n) v ++ rest) (zlen pre + n)).
Proof.
  intros Hn Hold. unfold put_u. cbn [o_buf o_off]. rewrite !zlen_app.
  pose proof (zlen_nonneg rest). zdecide.
  rewrite zsplice_mid by (rewrite zlen_be_bytes; lia). done.
Qed.

Lemma put_u_writes v n : 0 <= n → writes (put_u v n) (be_bytes (Z.to_nat n) v).
Proof.
  intros Hn pre old rest Hold. rewrite zlen_be_bytes, Z2Nat.id in Hold by lia.
  exists (zlen pre). rewrite put_u_run by lia.
  by rewrite zlen_be_bytes, Z2Nat.id by lia.
Qed.

Lemma cap_run pre bs rest :
  reads Octets.cap (mk_octets (pre ++ bs ++ rest) (zlen pre)) =
  (@Ok E _ (zlen bs + zlen rest), mk_octets (pre ++ bs ++ rest) (zlen pre)).
Proof.
  unfold reads, Octets.cap. cbn [o_buf o_off]. rewrite !zlen_app.
  pose proof (zlen_nonneg bs). pose proof (zlen_nonneg rest).
  rewrite usub_ok by lia. do 3 f_equal. lia.
Qed.

Lemma varint_parse_len_tag b len :
  len = 1 ∨ len = 2 ∨ len = 4 ∨ len = 8 →
  Z.shiftr b 6 = varint_tag len → @varint_parse_len E b = Ok len.
Proof. intros Hl Hb. unfold varint_parse_len. rewrite Hb. by destruct Hl as [->|[->|[->| ->]]]. Qed.

Lemma land_ones_eq a n m : 0 <= n → m = Z.ones n → Z.land a m = a mod 2 ^ n.
Proof. intros ? ->. by apply Z.land_ones. Qed.

(** Reading the varint [v] back, whichever of the admissible lengths was
    used to write it. *)
Lemma get_varint_len_parses len v :
  fits_varint len v → parses Octets.get_varint (enc_varint_len len v) v.
Proof.
  intros Hf pre rest. unfold Octets.get_varint, Octets.peek_u8.
  destruct (enc_varint_len_first _ _ Hf) as (b & tl & Heq & Htl & Hb & Htag).
  pose proof (fits_varint_len _ _ Hf) as Hl.
  destruct (enc_varint_len_word _ _ Hf) as [_ Hval].
  assert (zlen (enc_varint_len len v) = len) as Hlen by (apply zlen_enc_varint_len; lia).
  erewrite run_bind_ok by (apply peek_u_prefix; lia).
  replace (be_val (ztake 1 (enc_varint_len len v))) with b by (by rewrite Heq).
  rewrite (run_bind_lift _ _ _ len) by (by apply varint_parse_len_tag).
  erewrite run_bind_ok by apply cap_run. rewrite Hlen.
  pose proof (zlen_nonneg rest).
  rewrite (proj2 (Z.ltb_ge (len + zlen rest) len)) by lia.
  pose proof (get_u_parses len (enc_varint_len len v) (eq_sym Hlen) pre rest) as Hget.
  rewrite Hval, Hlen in Hget. clear Heq Hval Hlen Htag Htl Hb Hl.
  destruct Hf as [[-> Hf]|[[-> Hf]|[[-> Hf]|[-> Hf]]]].
  - zdecide. unfold Octets.get_u8. rewrite Hget. repeat f_equal.
    zeval (varint_tag 1). lia.
  - unfold Octets.get_u16. zdecide. rewrite (run_bind_ok _ _ _ _ _ Hget), run_ret.
    rewrite (land_ones_eq _ 14) by done. do 3 f_equal. zeval (varint_tag 2 * 2 ^ (8 * 2 - 2)).
    zeval (2 ^ 14). Z.div_mod_to_equations; lia.
  - unfold Octets.get_u32. zdecide. rewrite (run_bind_ok _ _ _ _ _ Hget), run_ret.
    rewrite (land_ones_eq _ 30) by done. do 3 f_equal. zeval (varint_tag 4 * 2 ^ (8 * 4 - 2)).
    zeval (2 ^ 30). Z.div_mod_to_equations; lia.
  - unfold Octets.get_u64. zdecide. rewrite (run_bind_ok _ _ _ _ _ Hget), run_ret.
    rewrite (land_ones_eq _ 62) by done. do 3 f_equal. zeval (varint_tag 8 * 2 ^ (8 * 8 - 2)).
    zeval (2 ^ 62). Z.div_mod_to_equations; lia.
Qed.

Lemma get_varint_parses v : is_varint v → parses Octets.get_varint (enc_varint v) v.
Proof. intros. by apply get_varint_len_parses, varint_size_fits. Qed.
End primitives.

(** Setting the tag bits of the first byte. *)
Lemma lor_tag b m k :
  (m, k) = (64, 64) ∨ (m, k) = (128, 64) ∨ (m, k) = (192, 64) →
  0 <= b < k → Z.lor b m = b + m.
Proof.
  intros Hm Hb.
  assert (∀ m, m ∈ [64; 128; 192] → ∀ n, (n < 64)%nat →
          Z.lor (Z.of_nat n) m = Z.of_nat n + m) as Hall.
  { assert (forallb (λ m, forallb (λ n, Z.lor (Z.of_nat n) m =? Z.of_nat n + m) (seq 0 64))
              [64; 128; 192] = true) as Hc by (vm_compute; reflexivity).
    intros m' Hm' n Hn. rewrite forallb_forall in Hc.
    specialize (Hc m' ltac:(by apply list_elem_of_In)). rewrite forallb_forall in Hc.
    apply Z.eqb_eq, Hc, in_seq. lia. }
  rewrite <- (Z2Nat.id b) by lia.
  destruct Hm as [Hm|[Hm|Hm]]; simplify_eq; apply Hall; try lia;
    rewrite !elem_of_cons; auto.
Qed.

(** The tag can be added before or after the bytes are laid out. *)
Lemma be_bytes_add_high n v t :
  0 <= v → be_bytes n (v + t * 256 ^ Z.of_nat n) = be_bytes n v.
Proof.
  intros Hv. revert t. induction n as [|n IH]; intros t; [done|]. cbn [be_bytes].
  rewrite !be_byte_eq, Nat2Z.inj_succ, Z.pow_succ_r by lia.
  assert (0 < 256 ^ Z.of_nat n) by (apply Z.pow_pos_nonneg; lia).
  replace (v + t * (256 * 256 ^ Z.of_nat n)) with (v + (t * 256) * 256 ^ Z.of_nat n) by lia.
  rewrite IH, Z.div_add by lia. f_equal. by rewrite Z.mod_add by lia.
Qed.

Section put_varint.
Context {E : Type} `{BufErr E}.

Lemma or_first_run m pre b tl rest :
  OctetsMut.or_first (E:=E) (zlen pre) m (mk_octets (pre ++ (b :: tl) ++ rest) (zlen pre + zlen (b :: tl))) =
  (Ok (), mk_octets (pre ++ (Z.lor b m :: tl) ++ rest) (zlen pre + zlen (b :: tl))).
Proof. unfold OctetsMut.or_first. cbn [o_buf o_off]. by rewrite zdrop_app, ztake_app. Qed.

(** A big-endian word with its first byte tagged is the tagged word. *)
Lemma be_bytes_tag len v m :
  fits_varint len v → len ≠ 1 → m = varint_tag len * 64 →
  ∃ b tl, be_bytes (Z.to_nat len) v = b :: tl ∧ Z.lor b m :: tl = enc_varint_len len v.
Proof.
  intros Hf Hl Hm. unfold enc_varint_len.
  destruct (Z.to_nat len) as [|n] eqn:Hn; [pose proof (fits_varint_len _ _ Hf); lia|].
  pose proof (proj1 (enc_varint_len_word _ _ Hf)) as Hw.
  pose proof (be_bytes_head n v []) as Hh.
  pose proof (be_bytes_head n (v + varint_tag len * 2 ^ (8 * len - 2)) []) as Hh'.
  rewrite !app_nil_r in Hh, Hh'.
  assert (Z.of_nat n = len - 1) as Hlen by lia.
  rewrite Nat2Z.inj_succ, Hlen in Hh, Hh'.
  replace (Z.succ (len - 1)) with len in Hh, Hh' by lia.
  exists (v / 256 ^ (len - 1)), (be_bytes n v).
  assert (2 ^ (8 * len - 2) = 64 * 256 ^ (len - 1)) as Hpow
    by (pose proof (fits_varint_len _ _ Hf) as [->|[->|[->| ->]]]; reflexivity).
  assert (0 < 256 ^ (len - 1)) by (apply Z.pow_pos_nonneg; lia).
  assert (0 <= v < 64 * 256 ^ (len - 1)) as Hv.
  { rewrite <- Hpow. clear -Hf. varint_cases Hf; lia. }
  rewrite Hh by (clear -Hf; varint_cases Hf; lia).
  rewrite Hh' by done. rewrite Hpow. split; [done|].
  replace (varint_tag len * (64 * 256 ^ (len - 1)))
    with ((varint_tag len * 64) * 256 ^ (len - 1)) by lia.
  rewrite Z.div_add by lia. rewrite <- Hlen, be_bytes_add_high by lia. rewrite Hlen.
  rewrite (lor_tag _ _ 64), Hm; [done| |].
  - rewrite Hm. pose proof (fits_varint_len _ _ Hf) as [->|[->|[->| ->]]]; auto; lia.
  - split; [apply Z.div_pos; lia|apply Z.div_lt_upper_bound; lia].
Qed.

Lemma put_tagged_writes len v m :
  fits_varint len v → len ≠ 1 → m = varint_tag len * 64 →
  writes (E:=E) (i ← put_u v len; _ ← OctetsMut.or_first i m; mret i) (enc_varint_len len v).
Proof.
  intros Hf Hl Hm pre old rest Hold.
  assert (0 <= len) by (pose proof (fits_varint_len _ _ Hf); lia).
  rewrite zlen_enc_varint_len in Hold by done.
  destruct (be_bytes_tag _ _ _ Hf Hl Hm) as (b & tl & Hb & He).
  assert (len = zlen (b :: tl)) as Hlen by (rewrite <- Hb, zlen_be_bytes; lia).
  exists (zlen pre). erewrite run_bind_ok by (by apply put_u_run). rewrite Hb, Hlen.
  erewrite run_bind_ok by apply or_first_run. rewrite run_ret, <- Hlen, He.
  by rewrite zlen_enc_varint_len by lia.
Qed.

Lemma put_varint_with_len_writes len v :
  fits_varint len v →
  writes (E:=E) (OctetsMut.put_varint_with_len v len) (enc_varint_len len v).
Proof.
  intros Hf pre old rest Hold.
  assert (0 <= len) by (pose proof (fits_varint_len _ _ Hf); lia).
  pose proof (zlen_nonneg rest). unfold OctetsMut.put_varint_with_len.
  rewrite (run_bind_reads _ _ _ (zlen old + zlen rest))
    by (pose proof (cap_run (E:=E) pre old rest) as Hc; by injection Hc).
  rewrite Hold, zlen_enc_varint_len by done. zdecide.
  assert (∀ m, len ≠ 1 → m = varint_tag len * 64 →
    ∃ a, (i ← put_u v len; _ ← OctetsMut.or_first i m; mret i)
      (mk_octets (pre ++ old ++ rest) (zlen pre)) =
    (@Ok E Z a, mk_octets (pre ++ enc_varint_len len v ++ rest) (zlen pre + len))) as Hput.
  { intros m Hl Hm. destruct (put_tagged_writes _ _ _ Hf Hl Hm pre old rest Hold) as [a Ha].
    rewrite zlen_enc_varint_len in Ha by done. eauto. }
  destruct Hf as [[-> Hf]|[[-> Hf]|[[-> Hf]|[-> Hf]]]]; zdecide.
  - assert (as_u8 v = v) as -> by (apply Z.mod_small; change (2 ^ 8) with 256; lia).
    destruct (put_u_writes v 1 ltac:(lia) pre old rest Hold) as [a Ha].
    exists a. unfold OctetsMut.put_u8. rewrite Ha. rewrite zlen_be_bytes.
    unfold enc_varint_len. zeval (varint_tag 1 * 2 ^ (8 * 1 - 2)).
    by rewrite Z.add_0_r.
  - assert (as_u16 v = v) as -> by (apply Z.mod_small; change (2 ^ 16) with 65536; lia).
    by apply Hput.
  - assert (as_u32 v = v) as -> by (apply Z.mod_small; change (2 ^ 32) with 4294967296; lia).
    by apply Hput.
  - by apply Hput.
Qed.

Lemma put_varint_writes v : is_varint v → writes (E:=E) (OctetsMut.put_varint v) (enc_varint v).
Proof.
  intros Hv pre old rest Hold. unfold OctetsMut.put_varint.
  rewrite (run_bind_lift _ _ _ _ (varint_len_size v Hv)).
  by apply put_varint_with_len_writes, Hold; apply varint_size_fits.
Qed.
End put_varint.

(** ** Byte strings *)

Section byte_strings.
Context {E : Type} `{BufErr E}.

Lemma get_u8_parses b : parses (E:=E) Octets.get_u8 [b] b.
Proof. by apply (get_u_parses 1 [b]). Qed.

Lemma get_u_be_parses n k v :
  n = Z.of_nat k → 0 <= v < 256 ^ n → parses (E:=E) (get_u n) (be_bytes k v) v.
Proof.
  intros -> Hv pre rest.
  rewrite (get_u_parses _ (be_bytes k v)) by (by rewrite zlen_be_bytes).
  by rewrite be_val_be_bytes, Z.mod_small.
Qed.

Lemma put_u8_writes b : is_u8 b → writes (E:=E) (OctetsMut.put_u8 b) [b].
Proof.
  intros Hb. replace [b] with (be_bytes (Z.to_nat 1) b); [by apply put_u_writes|].
  change (be_bytes (Z.to_nat 1) b) with ([Z.land (Z.shiftr b 0) 255]).
  rewrite Z.shiftr_0_r. change 255 with (Z.ones 8).
  unfold is_u8 in Hb. rewrite Z.land_ones, Z.mod_small; [done|change (2^8) with 256; lia|lia].
Qed.

Lemma put_bytes_writes v : writes (E:=E) (OctetsMut.put_bytes v) v.
Proof.
  intros pre old rest Hold. unfold OctetsMut.put_bytes.
  rewrite (run_bind_reads _ _ _ (zlen old + zlen rest))
    by (pose proof (cap_run (E:=E) pre old rest) as Hc; by injection Hc).
  pose proof (zlen_nonneg rest). pose proof (zlen_nonneg v). exists (). zdecide.
  destruct (Z.eqb_spec (zlen v) 0) as [Hz|Hz].
  - rewrite Hz in *. apply zlen_0 in Hz as ->. apply zlen_0 in Hold as ->.
    rewrite run_ret. by rewrite Z.add_0_r.
  - unfold modify. cbn [o_buf o_off]. by rewrite zsplice_mid.
Qed.

Lemma peek_bytes_run n pre bs rest :
  n = zlen bs →
  Octets.peek_bytes n (mk_octets (pre ++ bs ++ rest) (zlen pre)) =
  (@Ok E _ (mk_octets bs 0), mk_octets (pre ++ bs ++ rest) (zlen pre)).
Proof.
  intros ->. unfold Octets.peek_bytes. erewrite run_bind_ok by apply cap_run.
  pose proof (zlen_nonneg rest). zdecide. unfold gets. cbn [o_buf o_off].
  by rewrite zslice_mid by lia.
Qed.

Lemma get_bytes_parses n bs :
  n = zlen bs → parses (E:=E) (Octets.get_bytes n) bs (mk_octets bs 0).
Proof.
  intros Hn pre rest. unfold Octets.get_bytes.
  erewrite run_bind_ok by (by apply peek_bytes_run). by rewrite Hn.
Qed.

Lemma get_bytes_with_varint_length_parses bs :
  is_varint (zlen bs) →
  parses (E:=E) Octets.get_bytes_with_varint_length (enc_varint (zlen bs) ++ bs) (mk_octets bs 0).
Proof.
  intros Hl. unfold Octets.get_bytes_with_varint_length.
  eapply parses_bind; [by apply get_varint_parses|by apply get_bytes_parses].
Qed.

Lemma as_ref_whole bs : Octets.as_ref (mk_octets bs 0) = bs.
Proof. done. Qed.
End byte_strings.

(** ** Panic freedom *)

(** The cursor is within the buffer and the buffer holds bytes. *)
Definition octets_wf (o : octets) : Prop :=
  0 <= o_off o <= zlen (o_buf o) ∧ bytes_ok (o_buf o).

(** A reader leaves the bytes alone and moves the cursor forward. *)
Definition advances (o o' : octets) : Prop :=
  o_buf o' = o_buf o ∧ o_off o <= o_off o' ∧ octets_wf o'.

(** Well-formedness of a concrete buffer. *)
Ltac solve_bytes :=
  repeat (apply Forall_cons_2; [unfold is_u8; lia|]); apply Forall_nil_2.
Ltac solve_wf := split; [vm_compute; split; discriminate|solve_bytes].

Lemma advances_refl o : octets_wf o → advances o o.
Proof. by intros; split_and!; [|lia|]. Qed.
Lemma advances_trans o1 o2 o3 : advances o1 o2 → advances o2 o3 → advances o1 o3.
Proof. intros (?&?&?) (?&?&?). split_and!; [congruence|lia|done]. Qed.
#[export] Hint Resolve advances_refl : quic_wp.

Section wp_readers.
Context {E : Type} `{BufErr E}.
Implicit Types o : octets.

Definition too_short o : E → octets → Prop := λ e o', e = buffer_too_short ∧ o' = o.

Lemma bytes_ok_slice o n : octets_wf o → bytes_ok (ztake n (zdrop (o_off o) (o_buf o))).
Proof. intros [_ Hb]. apply Forall_take, Forall_drop, Hb. Qed.

Lemma wp_peek_u n o :
  octets_wf o → 0 <= n →
  wp (peek_u n) (λ v o', o' = o ∧ 0 <= v < 256 ^ n ∧ o_off o + n <= zlen (o_buf o))
     (too_short o) o.
Proof.
  intros Hwf Hn. pose proof Hwf as [? _]. unfold wp, peek_u. zdecide.
  rewrite zlen_zdrop by lia. zcase; [done|].
  pose proof (be_val_bound _ (bytes_ok_slice o n Hwf)) as Hb.
  rewrite zlen_ztake in Hb by (rewrite zlen_zdrop; lia).
  split_and!; done || lia.
Qed.

Lemma wp_get_u n o :
  octets_wf o → 0 <= n →
  wp (get_u n) (λ v o', advances o o' ∧ o_off o' = o_off o + n ∧ 0 <= v < 256 ^ n)
     (too_short o) o.
Proof.
  intros Hwf Hn. pose proof Hwf as [? ?]. unfold get_u. apply wp_bind.
  eapply wp_mono; [by apply wp_peek_u| |done].
  intros v o' (-> & Hv & Hoff). apply wp_bind, wp_modify, wp_ret.
  unfold advances, octets_wf. cbn [o_buf o_off]. split_and!; done || lia.
Qed.

Lemma wp_cap (o : octets) Q QE :
  octets_wf o → Q (zlen (o_buf o) - o_off o) o → wp (E:=E) (reads Octets.cap) Q QE o.
Proof. intros [? _] HQ. unfold wp, reads, Octets.cap. rewrite usub_ok by lia. done. Qed.

(** A varint takes at least the bytes of its shortest form. *)
Lemma wp_get_varint_size o :
  octets_wf o →
  wp Octets.get_varint (λ v o', advances o o' ∧ o_off o + varint_size v <= o_off o' ∧ is_varint v)
     (too_short o) o.
Proof.
  intros Hwf. pose proof (wp_peek_u 1 o Hwf ltac:(lia)) as Hpeek.
  unfold Octets.get_varint. apply wp_bind. revert Hpeek. unfold Octets.peek_u8, wp at 1 2.
  destruct (peek_u 1 o) as [[b|e|] o1] eqn:Hp; [|done|done].
  intros (-> & Hb & Hoff). change (256 ^ 1) with 256 in Hb.
  assert (∃ len, @varint_parse_len E b = Ok len ∧ (len = 1 ∨ len = 2 ∨ len = 4 ∨ len = 8)
          ∧ (len = 1 → b < 64)) as (len & Hlen & Hl & Hb1).
  { unfold varint_parse_len. rewrite Z.shiftr_div_pow2 by lia. change (2 ^ 6) with 64.
    repeat zcase; first
      [ exfalso; Z.div_mod_to_equations; lia
      | eexists; split; [reflexivity|]; Z.div_mod_to_equations; lia ]. }
  apply wp_bind. eapply wp_lift; [done|]. apply wp_bind, wp_cap; [done|].
  zcase; [done|].
  assert (∀ n k, 0 < n → 0 <= k <= 62 → (∀ v, 0 <= v < 2 ^ k → varint_size v <= n) →
    wp (E:=E) (v ← get_u n; mret (Z.land v (Z.ones k)))
      (λ v o', advances o o' ∧ o_off o + varint_size v <= o_off o' ∧ is_varint v) (too_short o) o) as Hgo.
  { intros n k Hn Hk Hsize. apply wp_bind. eapply wp_mono; [apply wp_get_u; [done|lia]| |done].
    intros v o' (? & ? & ?). apply wp_ret. rewrite Z.land_ones by lia. unfold is_varint.
    pose proof (Z.mod_pos_bound v (2 ^ k) ltac:(apply Z.pow_pos_nonneg; lia)) as Hm.
    pose proof (Hsize _ Hm). split_and!; [done|lia|lia|].
    assert (2 ^ k <= 2 ^ 62) by (apply Z.pow_le_mono_r; lia).
    change (2 ^ 62) with 4611686018427387904 in *. lia. }
  destruct Hl as [->|[->|[->| ->]]]; zdecide.
  - specialize (Hb1 eq_refl). unfold wp, Octets.get_u8, get_u. rewrite (run_bind_ok _ _ _ _ _ Hp), run_bind_modify, run_ret.
    destruct Hwf as [? ?]. unfold advances, octets_wf, is_varint, varint_size. cbn [o_buf o_off]. zdecide. split_and!; done || lia.
  - apply (Hgo 2 14); [lia..|]. intros v Hv. change (2 ^ 14) with 16384 in Hv. unfold varint_size. repeat zcase; lia.
  - apply (Hgo 4 30); [lia..|]. intros v Hv. change (2 ^ 30) with 1073741824 in Hv. unfold varint_size. repeat zcase; lia.
  - apply (Hgo 8 62); [lia..|]. intros v _. pose proof (varint_size_bounds v). lia.
Qed.

Lemma wp_get_varint o :
  octets_wf o →
  wp Octets.get_varint (λ v o', advances o o' ∧ o_off o < o_off o' ∧ is_varint v)
     (too_short o) o.
Proof.
  intros Hwf. eapply wp_mono; [by apply wp_get_varint_size| |done].
  intros v o' (? & ? & ?). pose proof (varint_size_bounds v). split_and!; [done|lia|done].
Qed.

Lemma wp_get_bytes n o :
  octets_wf o → 0 <= n →
  wp (Octets.get_bytes n)
     (λ b o', advances o o' ∧ o_off o' = o_off o + n ∧ octets_wf b ∧ o_off b = 0 ∧
              o_buf b = zslice (o_off o) (o_off o + n) (o_buf o) ∧ zlen (o_buf b) = n)
     (too_short o) o.
Proof.
  intros Hwf Hn. pose proof Hwf as [? ?]. unfold Octets.get_bytes, Octets.peek_bytes.
  do 2 apply wp_bind. apply wp_cap; [done|]. zcase; [done|]. apply wp_gets.
  apply wp_bind, wp_modify, wp_ret. unfold advances, octets_wf. cbn [o_buf o_off].
  rewrite zlen_zslice by lia.
  split_and!; try done; try lia. by apply Forall_take, Forall_drop.
Qed.
End wp_readers.

(** ** Properties *)

Lemma octets_split (o : octets) n :
  0 <= o_off o → 0 <= n → o_off o + n <= zlen (o_buf o) →
  ∃ pre old rest, o = mk_octets (pre ++ old ++ rest) (zlen pre) ∧ zlen old = n ∧
    pre = ztake (o_off o) (o_buf o) ∧ rest = zdrop (o_off o + n) (o_buf o).
Proof.
  intros H1 H2 H3. destruct o as [b off]. cbn [o_buf o_off] in *.
  exists (ztake off b), (ztake n (zdrop off b)), (zdrop (off + n) b).
  rewrite !zlen_ztake by (rewrite ?zlen_zdrop; lia).
  split_and!; try done. rewrite <- zdrop_zdrop by lia. by rewrite !ztake_zdrop.
Qed.

(** A writer's codec lifted to any buffer with enough room. *)
Lemma writes_run {E A} (m : M octets E A) bs o :
  writes m bs → 0 <= o_off o → o_off o + zlen bs <= zlen (o_buf o) →
  ∃ a o', m o = (Ok a, o') ∧ o_off o' = o_off o + zlen bs ∧
    o_buf o' = ztake (o_off o) (o_buf o) ++ bs ++ zdrop (o_off o + zlen bs) (o_buf o).
Proof.
  intros Hm H1 H2.
  destruct (octets_split o (zlen bs)) as (pre & old & rest & Ho & Hold & Hpre & Hrest);
    [done|apply zlen_nonneg|done|].
  destruct (Hm pre old rest Hold) as [a Ha]. exists a. eexists. rewrite Ho at 1.
  split; [exact Ha|]. rewrite <- Hpre, <- Hrest. cbn [o_buf o_off].
  by rewrite Ho.
Qed.

Lemma parses_run {E A} (m : M octets E A) bs a pre rest :
  parses m bs a → m (mk_octets (pre ++ bs ++ rest) (zlen pre)) =
                  (Ok a, mk_octets (pre ++ bs ++ rest) (zlen pre + zlen bs)).
Proof. intros Hm. apply Hm. Qed.

Section short_writes.
Context {E : Type} `{BufErr E}.

Lemma put_varint_short v o :
  is_varint v → octets_wf o → zlen (o_buf o) - o_off o < varint_size v →
  OctetsMut.put_varint v o = (Err (E:=E) buffer_too_short, o).
Proof.
  intros Hv [? _] Hs. unfold OctetsMut.put_varint.
  rewrite (run_bind_lift _ _ _ _ (varint_len_size v Hv)).
  unfold OctetsMut.put_varint_with_len.
  rewrite (run_bind_reads _ _ _ (zlen (o_buf o) - o_off o))
    by (unfold OctetsMut.cap; apply usub_ok; lia).
  zdecide. done.
Qed.

Lemma put_varint_too_large v o :
  varint_max < v → OctetsMut.put_varint v o = (Panic (E:=E), o).
Proof.
  intros Hv. unfold OctetsMut.put_varint, varint_len. zdecide. done.
Qed.
End short_writes.

(** Varint round trip.  Writing [v < 2^62] into a buffer with
    [varint_size v] bytes of room succeeds, advances the cursor by exactly that
    many bytes and changes nothing outside them; reading at the old cursor then
    returns [v] and ends at the same place. *)
Theorem varint_roundtrip v (o : octets) :
  is_varint v → 0 <= o_off o → o_off o + varint_size v <= zlen (o_buf o) →
  ∃ i o', OctetsMut.put_varint (E:=Error) v o = (Ok i, o') ∧
    o_off o' = o_off o + varint_size v ∧
    ztake (o_off o) (o_buf o') = ztake (o_off o) (o_buf o) ∧
    zdrop (o_off o') (o_buf o') = zdrop (o_off o') (o_buf o) ∧
    Octets.get_varint (E:=Error) (mk_octets (o_buf o') (o_off o)) = (Ok v, o').
Proof.
  intros Hv H1 H2. rewrite <- zlen_enc_varint in H2.
  destruct (writes_run _ _ _ (put_varint_writes (E:=Error) v Hv) H1 H2)
    as (i & [b' off'] & Hput & Hoff & Hbuf). cbn [o_buf o_off] in *.
  set (pre := ztake (o_off o) (o_buf o)) in *.
  pose proof (zlen_nonneg (enc_varint v)).
  assert (zlen pre = o_off o) as Hpre by (apply zlen_ztake; lia).
  exists i, (mk_octets b' off'). cbn [o_buf o_off]. rewrite <- zlen_enc_varint.
  split_and!; [done|done| | |].
  - rewrite Hbuf. by apply ztake_app'.
  - rewrite Hbuf, Hoff, app_assoc. apply zdrop_app'. rewrite zlen_app. lia.
  - rewrite Hbuf, Hoff, <- Hpre. by apply parses_run, get_varint_parses.
Qed.

Lemma varint_roundtrip_witness :
  ∃ i o', OctetsMut.put_varint (E:=Error) 15293 (mk_octets [0; 0; 0; 0] 1) = (Ok i, o') ∧
    o' = mk_octets [0; 123; 189; 0] 3.
Proof.
  destruct (varint_roundtrip 15293 (mk_octets [0; 0; 0; 0] 1)) as (i & o' & Hp & _).
  - unfold is_varint; lia.
  - cbn; lia.
  - vm_compute; discriminate.
  - exists i, o'. split; [exact Hp|]. vm_compute in Hp. congruence.
Defined.

(** Varint writes are total up to the documented limit: with too little room
    the writer reports [BufferTooShort] and leaves the buffer and the cursor
    alone, and only a value above [2^62 - 1] aborts. *)
Theorem put_varint_errors v (o : octets) :
  octets_wf o → 0 <= v →
  (varint_max < v → OctetsMut.put_varint (E:=Error) v o = (Panic, o)) ∧
  (v <= varint_max → zlen (o_buf o) - o_off o < varint_size v →
   OctetsMut.put_varint (E:=Error) v o = (Err BufferTooShort, o)).
Proof.
  intros Hwf Hv. split; [apply put_varint_too_large|].
  intros Hm Hs. by apply put_varint_short.
Qed.

Lemma put_varint_errors_witness :
  OctetsMut.put_varint (E:=Error) 64 (mk_octets [0] 0) = (Err BufferTooShort, mk_octets [0] 0).
Proof.
  apply put_varint_errors.
  - solve_wf.
  - lia.
  - lia.
  - vm_compute. reflexivity.
Defined.

(** Every reader of [Octets], as one list. *)
Section all_readers.
Context {E : Type} `{BufErr E}.

Definition keeps_buf (o o' : octets) : Prop := o_buf o' = o_buf o ∧ octets_wf o'.
Definition never_panics {A} (m : M octets E A) : Prop :=
  ∀ o, octets_wf o → wp m (λ _, keeps_buf o) (λ _, keeps_buf o) o.

Lemma keeps_advances o o' : advances o o' → keeps_buf o o'.
Proof. by intros (? & ? & ?). Qed.

Lemma never_panics_bind {A B} (m : M octets E A) (k : A → M octets E B) :
  (∀ o, octets_wf o → wp m (λ a o', keeps_buf o o' ∧ never_panics (k a)) (λ _, keeps_buf o) o) →
  never_panics (m ≫= k).
Proof.
  intros Hm o Hwf. apply wp_bind. eapply wp_mono; [by apply Hm| |done].
  intros a o' [[Hb Hwf'] Hk]. eapply wp_mono; [by apply Hk|..]; by intros ?? [Hb' ?]; split; [rewrite Hb'|].
Qed.

Lemma never_panics_get_u n : 0 <= n → never_panics (get_u n).
Proof.
  intros Hn o Hwf. eapply wp_mono; [by apply wp_get_u|..].
  - intros ?? [??]; by apply keeps_advances.
  - by intros ?? [_ ->].
Qed.
Lemma never_panics_varint : never_panics Octets.get_varint.
Proof.
  intros o Hwf. eapply wp_mono; [by apply wp_get_varint|..].
  - intros ?? [??]; by apply keeps_advances.
  - by intros ?? [_ ->].
Qed.
Lemma never_panics_get_bytes n : 0 <= n → never_panics (Octets.get_bytes n).
Proof.
  intros Hn o Hwf. eapply wp_mono; [by apply wp_get_bytes|..].
  - intros ?? [??]; by apply keeps_advances.
  - by intros ?? [_ ->].
Qed.

(** Readers guarded by [cap]. *)
Lemma never_panics_guarded {A} n (m : M octets E A) :
  (∀ o, octets_wf o → n <= zlen (o_buf o) - o_off o →
    wp m (λ _, keeps_buf o) (λ _, keeps_buf o) o) →
  never_panics (c ← reads Octets.cap; if c <? n then fail buffer_too_short else m).
Proof.
  intros Hm o Hwf. apply wp_bind, wp_cap; [done|]. zcase; [by split|]. by apply Hm.
Qed.

Lemma never_panics_prefixed (m : M octets E Z) :
  (∀ o, octets_wf o → wp m (λ v o', advances o o' ∧ 0 <= v) (λ _, keeps_buf o) o) →
  never_panics (len ← m; Octets.get_bytes len).
Proof.
  intros Hm. apply never_panics_bind. intros o Hwf.
  eapply wp_mono; [by apply Hm| |done]. intros v o' [? ?].
  split; [by apply keeps_advances|by apply never_panics_get_bytes].
Qed.
End all_readers.

(** Reading is panic free and in bounds: on a buffer of bytes whose cursor is
    inside it, no method of [Octets] aborts, whatever the bytes and the length
    asked for; the bytes never change and the cursor stays inside, on success
    and on [BufferTooShort] alike. *)
Theorem octets_panic_free (n : Z) :
  0 <= n →
  never_panics (E:=Error) Octets.peek_u8 ∧ never_panics (E:=Error) Octets.get_u8 ∧
  never_panics (E:=Error) Octets.get_u16 ∧ never_panics (E:=Error) Octets.get_u24 ∧
  never_panics (E:=Error) Octets.get_u32 ∧ never_panics (E:=Error) Octets.get_u64 ∧
  never_panics (E:=Error) Octets.get_varint ∧
  never_panics (E:=Error) (Octets.get_bytes n) ∧
  never_panics (E:=Error) (Octets.peek_bytes n) ∧
  never_panics (E:=Error) Octets.get_bytes_with_u8_length ∧
  never_panics (E:=Error) Octets.get_bytes_with_u16_length ∧
  never_panics (E:=Error) Octets.get_bytes_with_varint_length ∧
  never_panics (E:=Error) (Octets.slice n) ∧ never_panics (E:=Error) (Octets.slice_last n) ∧
  never_panics (E:=Error) (Octets.skip n).
Proof.
  intros Hn.
  assert (∀ k, 0 <= k → ∀ o, octets_wf o →
    wp (get_u (E:=Error) k) (λ v o', advances o o' ∧ 0 <= v) (λ _, keeps_buf o) o) as Hpre.
  { intros k Hk o Hwf. eapply wp_mono; [by apply wp_get_u|..].
    - by intros ?? (?&?&?&?). 
    - by intros ?? [_ ->]. }
  split_and!; try (apply never_panics_get_u; lia).
  - intros o Hwf. eapply wp_mono; [by apply wp_peek_u|..]; by intros ?? [? ?]; subst.
  - apply never_panics_varint.
  - by apply never_panics_get_bytes.
  - apply never_panics_guarded. intros o Hwf ?. by apply wp_gets.
  - by apply never_panics_prefixed, Hpre.
  - by apply never_panics_prefixed, Hpre.
  - apply never_panics_prefixed. intros o Hwf. eapply wp_mono; [by apply wp_get_varint|..].
    + by intros ?? (? & ? & ? & ?).
    + by intros ?? [_ ->].
  - apply never_panics_guarded. intros o Hwf ?. by apply wp_gets.
  - intros o Hwf. apply wp_bind, wp_cap; [done|]. zcase; by split.
  - apply never_panics_guarded. intros o [? ?] ?. apply wp_modify.
    unfold keeps_buf, octets_wf. cbn [o_buf o_off]. split_and!; done || lia.
Qed.

Lemma octets_panic_free_witness :
  wp (E:=Error) (Octets.slice_last 1) (λ _, keeps_buf (mk_octets [7; 8; 9] 1))
     (λ _, keeps_buf (mk_octets [7; 8; 9] 1)) (mk_octets [7; 8; 9] 1).
Proof. apply (octets_panic_free 1); [lia|solve_wf]. Defined.

(** [slice_last] counts back from the remaining capacity rather than from
    the end of the buffer: once the cursor has moved, it returns [off] bytes
    more than were asked for. *)
Theorem slice_last_length n (o : octets) :
  octets_wf o → 0 <= n <= zlen (o_buf o) - o_off o →
  ∃ s, Octets.slice_last (E:=Error) n o = (Ok s, o) ∧ zlen s = n + o_off o ∧
       OctetsMut.slice_last (E:=Error) n o = (Ok s, o).
Proof.
  intros [? ?] Hn. exists (zdrop (zlen (o_buf o) - o_off o - n) (o_buf o)).
  unfold Octets.slice_last, OctetsMut.slice_last.
  rewrite !(run_bind_reads _ _ _ (zlen (o_buf o) - o_off o)) by (apply usub_ok; lia).
  zdecide. split_and!; [done| |done]. rewrite zlen_zdrop; lia.
Qed.

Lemma slice_last_length_witness :
  ∃ s, Octets.slice_last (E:=Error) 1 (mk_octets [7; 8; 9] 1) = (Ok s, mk_octets [7; 8; 9] 1) ∧
       zlen s = 2.
Proof.
  destruct (slice_last_length 1 (mk_octets [7; 8; 9] 1)) as (s & Hs & Hl & _).
  - solve_wf.
  - vm_compute. split; discriminate.
  - exists s. split; [exact Hs|]. rewrite Hl. reflexivity.
Defined.
