(* ===== verification/Readers.v ===== *)
(** * Parsers on arbitrary input

    Rules for computations that read forward from a cursor: they never panic,
    leave the buffer alone, and return values of a given shape.  The second
    family bounds the bytes that are left, for loops that run on fuel. *)
From S2P Require Import Prelude OctetsLib.

Section readers.
Context {E : Type} `{BufErr E}.

(** A pure step of a parser. *)
Lemma parses_lift {A B} (r : result E A) (k : A → M octets E B) a bs b :
  r = Ok a → parses (k a) bs b → parses (lift r ≫= k) bs b.
Proof. intros Hr Hk pre rest. rewrite (run_bind_lift _ _ _ _ Hr). apply Hk. Qed.

(** [m] reads forward on any buffer, never panics, and returns a [P]. *)
Definition reader {A} (m : M octets E A) (P : A → Prop) : Prop :=
  ∀ o, octets_wf o → wp m (λ a o', advances o o' ∧ P a) (λ _, keeps_buf o) o.

Lemma reader_at {A B} (m : M octets E A) (k : A → M octets E B) P Q o :
  wp m (λ a o', advances o o' ∧ P a) (λ _, keeps_buf o) o →
  (∀ a o', advances o o' → P a → wp (k a) (λ b o'', advances o' o'' ∧ Q b) (λ _, keeps_buf o') o') →
  wp (m ≫= k) (λ b o', advances o o' ∧ Q b) (λ _, keeps_buf o) o.
Proof.
  intros Hm Hk. apply wp_bind. eapply wp_mono; [exact Hm| |done].
  intros a o' [Ha HP]. eapply wp_mono; [by apply Hk|..].
  - intros b o'' [Hb HQ]. split; [by eapply advances_trans|done].
  - intros e o'' [Hb ?]. destruct Ha as (Ha & _). split; [by rewrite Hb|done].
Qed.

Lemma reader_bind {A B} (m : M octets E A) (k : A → M octets E B) P Q :
  reader m P → (∀ a, P a → reader (k a) Q) → reader (m ≫= k) Q.
Proof.
  intros Hm Hk o Hwf. eapply reader_at; [by apply Hm|]. intros a o' (_ & _ & Hwf') HP. by apply Hk.
Qed.

Lemma reader_ret {A} (a : A) (P : A → Prop) : P a → reader (mret a) P.
Proof. intros HP o Hwf. split; [by apply advances_refl|done]. Qed.

Lemma reader_fail {A} (e : E) (P : A → Prop) : reader (fail e) P.
Proof. intros o Hwf. by split. Qed.

Lemma reader_lift {A B} (r : result E A) (k : A → M octets E B) a Q :
  r = Ok a → reader (k a) Q → reader (lift r ≫= k) Q.
Proof. intros Hr Hk o Hwf. apply wp_bind. eapply wp_lift; [done|]. by apply Hk. Qed.

Lemma reader_if {A} (b : bool) (m1 m2 : M octets E A) P :
  (b = true → reader m1 P) → (b = false → reader m2 P) → reader (if b then m1 else m2) P.
Proof. destruct b; auto. Qed.

Lemma reader_mono {A} (m : M octets E A) (P Q : A → Prop) :
  reader m P → (∀ a, P a → Q a) → reader m Q.
Proof.
  intros Hm HPQ o Hwf. eapply wp_mono; [by apply Hm| |done]. intros a o' [? ?]. split; [done|by apply HPQ].
Qed.

Lemma reader_varint : reader Octets.get_varint is_varint.
Proof.
  intros o Hwf. eapply wp_mono; [by apply wp_get_varint| |by intros ?? [_ ->]].
  intros v o' (? & ? & ?). by split.
Qed.

Lemma reader_u8 : reader Octets.get_u8 is_u8.
Proof.
  intros o Hwf. eapply wp_mono; [by apply (wp_get_u 1)| |by intros ?? [_ ->]].
  intros v o' (? & ? & Hv). split; [done|]. change (256 ^ 1) with 256 in Hv. unfold is_u8. lia.
Qed.

Lemma reader_bytes n :
  0 <= n → reader (Octets.get_bytes n) (λ b, o_off b = 0 ∧ zlen (o_buf b) = n).
Proof.
  intros Hn o Hwf. eapply wp_mono; [by apply wp_get_bytes| |by intros ?? [_ ->]].
  intros b o' (? & ? & ? & ? & ? & ?). by split.
Qed.

Lemma reader_varint_bytes :
  reader Octets.get_bytes_with_varint_length (λ b, o_off b = 0 ∧ is_varint (zlen (o_buf b))).
Proof.
  eapply reader_bind; [apply reader_varint|]. intros n Hn.
  eapply reader_mono; [apply reader_bytes; unfold is_varint in Hn; lia|].
  intros b [? Hl]. by rewrite Hl.
Qed.

Lemma reader_cap : reader (reads Octets.cap) (λ c, 0 <= c).
Proof. intros o Hwf. apply wp_cap; [done|]. split; [by apply advances_refl|]. destruct Hwf. lia. Qed.

(** The same for buffers with fewer than [N] bytes left. *)
Definition reader_in (N : Z) {A} (m : M octets E A) (P : A → Prop) : Prop :=
  ∀ o, octets_wf o → zlen (o_buf o) - o_off o < N →
    wp m (λ a o', advances o o' ∧ P a) (λ _, keeps_buf o) o.

Lemma reader_in_all N {A} (m : M octets E A) P : reader m P → reader_in N m P.
Proof. intros Hm o Hwf _. by apply Hm. Qed.

Lemma reader_in_bind N {A B} (m : M octets E A) (k : A → M octets E B) P Q :
  reader m P → (∀ a, P a → reader_in N (k a) Q) → reader_in N (m ≫= k) Q.
Proof.
  intros Hm Hk o Hwf HN. eapply reader_at; [by apply Hm|]. intros a o' (Hb & ? & Hwf') HP.
  apply Hk; [done..|]. rewrite Hb. lia.
Qed.

Lemma reader_in_lift N {A B} (r : result E A) (k : A → M octets E B) a Q :
  r = Ok a → reader_in N (k a) Q → reader_in N (lift r ≫= k) Q.
Proof. intros Hr Hk o Hwf HN. apply wp_bind. eapply wp_lift; [done|]. by apply Hk. Qed.

(** Reading a varint makes progress. *)
Lemma reader_in_varint N {B} (k : Z → M octets E B) Q :
  (∀ v, is_varint v → reader_in (N - 1) (k v) Q) → reader_in N (Octets.get_varint ≫= k) Q.
Proof.
  intros Hk o Hwf HN. apply wp_bind.
  eapply wp_mono; [by apply wp_get_varint| |by intros ?? [_ ->]].
  intros v o' ((Hb & Hle & Hwf') & Hlt & Hv).
  eapply wp_mono; [apply (Hk v Hv o' Hwf'); rewrite Hb; lia|..].
  - intros b o'' [Ha HQ]. split; [|done]. eapply advances_trans; [|exact Ha]. by split_and!.
  - intros e o'' [Hb' ?]. split; [by rewrite Hb'|done].
Qed.

Lemma reader_in_seq N {A B} (m : M octets E A) (k : A → M octets E B) P Q :
  reader_in N m P → (∀ a, P a → reader_in N (k a) Q) → reader_in N (m ≫= k) Q.
Proof.
  intros Hm Hk o Hwf HN. eapply reader_at; [by apply Hm|]. intros a o' (Hb & ? & Hwf') HP.
  apply Hk; [done..|]. rewrite Hb. lia.
Qed.

Lemma reader_in_cap N : reader_in N (reads Octets.cap) (λ c, 0 <= c < N).
Proof. intros o Hwf HN. apply wp_cap; [done|]. split; [by apply advances_refl|]. destruct Hwf. lia. Qed.

Lemma reader_skip n : 0 <= n → reader (Octets.skip n) (λ _, True).
Proof.
  intros Hn o Hwf. pose proof Hwf as [? ?]. apply wp_bind, wp_cap; [done|]. zcase; [done|].
  apply wp_modify. unfold advances, octets_wf. cbn [o_buf o_off]. split_and!; done || lia.
Qed.

End readers.

Lemma whole_buf (b : octets) : o_off b = 0 → Octets.as_ref b = o_buf b ∧ Octets.to_vec b = o_buf b.
Proof. intros Ho. unfold Octets.to_vec, Octets.as_ref. by rewrite Ho. Qed.

(** Computations that also consume a byte, for the loops that end with the
    buffer. *)
Section progress.
Context {E : Type} `{BufErr E}.

Definition progress_in (N : Z) {A} (m : M octets E A) (P : A → Prop) : Prop :=
  ∀ o, octets_wf o → zlen (o_buf o) - o_off o < N →
    wp m (λ a o', advances o o' ∧ o_off o < o_off o' ∧ P a) (λ _, keeps_buf o) o.

Lemma progress_in_bind N {A B} (m : M octets E A) (k : A → M octets E B) P Q :
  progress_in N m P → (∀ a, P a → reader_in N (k a) Q) → progress_in N (m ≫= k) Q.
Proof.
  intros Hm Hk o Hwf HN. apply wp_bind. eapply wp_mono; [by apply Hm| |done].
  intros a o' (Ha & Hlt & HP). pose proof Ha as (Hb & Hle & Hwf'). eapply wp_mono; [apply (Hk a HP o' Hwf'); rewrite Hb; lia|..].
  - intros b o'' [Hb' HQ]. pose proof Hb' as (_ & ? & _). split_and!; [by eapply advances_trans|lia|done].
  - intros e o'' [Hb' ?]. split; [by rewrite Hb'|done].
Qed.

Lemma progress_in_peek N {A B} (m : M octets E A) (k : A → M octets E B) P Q :
  reader_in N m P → (∀ a, P a → progress_in N (k a) Q) → progress_in N (m ≫= k) Q.
Proof.
  intros Hm Hk o Hwf HN. apply wp_bind. eapply wp_mono; [by apply Hm| |done].
  intros a o' (Ha & HP). pose proof Ha as (Hb & Hle & Hwf'). eapply wp_mono; [apply (Hk a HP o' Hwf'); rewrite Hb; lia|..].
  - intros b o'' (Hb' & Hlt & HQ). split_and!; [by eapply advances_trans|lia|done].
  - intros e o'' [Hb' ?]. split; [by rewrite Hb'|done].
Qed.

Lemma progress_in_fail N {A} (e : E) (P : A → Prop) : progress_in N (fail e) P.
Proof. intros o Hwf _. by split. Qed.

Lemma progress_in_mono N {A} (m : M octets E A) (P Q : A → Prop) :
  progress_in N m P → (∀ a, P a → Q a) → progress_in N m Q.
Proof.
  intros Hm HPQ o Hwf HN. eapply wp_mono; [by apply Hm| |done]. intros a o' (? & ? & ?). split_and!; [done..|by apply HPQ].
Qed.

Lemma progress_in_reader N {A} (m : M octets E A) P : progress_in N m P → reader_in N m P.
Proof. intros Hm o Hwf HN. eapply wp_mono; [by apply Hm| |done]. by intros a o' (? & _ & ?). Qed.

Lemma progress_in_u8 N : progress_in N Octets.get_u8 is_u8.
Proof.
  intros o Hwf _. eapply wp_mono; [by apply (wp_get_u 1)| |by intros ?? [_ ->]].
  intros v o' (? & ? & Hv). change (256 ^ 1) with 256 in Hv. unfold is_u8. split_and!; done || lia.
Qed.

Lemma reader_peek_u8 : reader Octets.peek_u8 is_u8.
Proof.
  intros o Hwf. eapply wp_mono; [by apply (wp_peek_u 1)| |by intros ?? [_ ->]].
  intros v o' (-> & Hv & _). change (256 ^ 1) with 256 in Hv. split; [by apply advances_refl|]. unfold is_u8. lia.
Qed.
End progress.
