(* ===== verification/Bits.v ===== *)
(** * Bit strings

    Lists of booleans, most significant bit first, against integers and
    big-endian byte strings. *)
From S2P Require Import Prelude OctetsLib.

(** The [n] low bits of [v]. *)
Fixpoint bits_of (n : nat) (v : Z) : list bool :=
  match n with O => [] | S n' => Z.testbit v (Z.of_nat n') :: bits_of n' v end.

(** The value of a bit string. *)
Fixpoint bval (l : list bool) : Z :=
  match l with [] => 0 | b :: l => Z.b2z b * 2 ^ zlen l + bval l end.

(** The bits of a byte string. *)
Definition bytes_bits (bs : list Z) : list bool := bs ≫= bits_of 8.

Section bits.
Implicit Types (l : list bool) (v : Z).

Lemma bits_of_length n v : length (bits_of n v) = n.
Proof. induction n as [|n IH]; cbn; congruence. Qed.
Lemma zlen_bits_of n v : zlen (bits_of n v) = Z.of_nat n.
Proof. unfold zlen. by rewrite bits_of_length. Qed.

Lemma bval_bound l : 0 <= bval l < 2 ^ zlen l.
Proof.
  induction l as [|b l IH]; cbn [bval]; [done|]. rewrite zlen_cons, Z.pow_add_r by (try apply zlen_nonneg; lia).
  pose proof (zlen_nonneg l). destruct b; cbn [Z.b2z]; lia.
Qed.

Lemma bval_app l (k : list bool) : bval (l ++ k) = bval l * 2 ^ zlen k + bval k.
Proof.
  induction l as [|b l IH]; cbn [bval app]; [lia|]. rewrite IH, zlen_app, Z.pow_add_r by apply zlen_nonneg. lia.
Qed.

Lemma bval_bits_of n v : bval (bits_of n v) = v mod 2 ^ Z.of_nat n.
Proof.
  induction n as [|n IH]; cbn [bits_of bval]; [by rewrite Z.mod_1_r|].
  rewrite zlen_bits_of, IH, Nat2Z.inj_succ, Z.pow_succ_r by lia.
  assert (0 < 2 ^ Z.of_nat n) by (apply Z.pow_pos_nonneg; lia).
  rewrite (Z.mul_comm 2), Z.rem_mul_r by lia. rewrite <- Z.testbit_spec' by lia. lia.
Qed.

Lemma bits_of_app n m a b :
  0 <= b < 2 ^ Z.of_nat m → bits_of (n + m) (a * 2 ^ Z.of_nat m + b) = bits_of n a ++ bits_of m b.
Proof.
  intros Hb. induction n as [|n IH]; cbn [bits_of Nat.add app].
  - assert (∀ j : nat, (j <= m)%nat → bits_of j (a * 2 ^ Z.of_nat m + b) = bits_of j b) as Hj; [|by apply Hj].
    induction j as [|j IH]; intros Hjm; cbn [bits_of]; [done|]. f_equal; [|apply IH; lia].
    apply Z.b2z_inj. rewrite !Z.testbit_spec' by lia.
    replace (Z.of_nat m) with ((Z.of_nat m - Z.of_nat j - 1) + 1 + Z.of_nat j) by lia.
    rewrite 2!Z.pow_add_r by lia. change (2 ^ 1) with 2. assert (0 < 2 ^ Z.of_nat j) by (apply Z.pow_pos_nonneg; lia).
    replace (a * (2 ^ (Z.of_nat m - Z.of_nat j - 1) * 2 * 2 ^ Z.of_nat j) + b)
      with (b + (a * 2 ^ (Z.of_nat m - Z.of_nat j - 1) * 2) * 2 ^ Z.of_nat j) by lia.
    rewrite Z.div_add by lia. by rewrite Z.mod_add by lia.
  - f_equal; [|exact IH]. apply Z.b2z_inj. rewrite !Z.testbit_spec' by lia.
    assert (0 < 2 ^ Z.of_nat m) by (apply Z.pow_pos_nonneg; lia).
    rewrite Nat2Z.inj_add, (Z.add_comm (Z.of_nat n)), Z.pow_add_r, <- Z.div_div by (try apply Z.pow_pos_nonneg; lia).
    rewrite (Z.add_comm (a * _)), Z.div_add, (Z.div_small b) by lia. by rewrite Z.add_0_l.
Qed.

Lemma bits_of_bval l : bits_of (length l) (bval l) = l.
Proof.
  induction l as [|b l IH]; [done|]. cbn [length bval]. change (S (length l)) with (1 + length l)%nat.
  pose proof (bval_bound l). unfold zlen in *. rewrite bits_of_app by done. rewrite IH. by destruct b.
Qed.

Lemma bval_inj l (k : list bool) : length l = length k → bval l = bval k → l = k.
Proof. intros Hl Hv. by rewrite <- (bits_of_bval l), <- (bits_of_bval k), Hl, Hv. Qed.

(** Whole bytes. *)
Lemma be_bytes_bits k l : length l = (8 * k)%nat → bytes_bits (be_bytes k (bval l)) = l.
Proof.
  revert l. induction k as [|k IH]; intros l Hl; [by destruct l|].
  rewrite <- (take_drop 8 l). set (a := take 8 l). set (b := drop 8 l).
  assert (length a = 8%nat) as Ha by (unfold a; rewrite length_take; lia).
  assert (length b = (8 * k)%nat) as Hb by (unfold b; rewrite length_drop; lia).
  rewrite bval_app. cbn [be_bytes]. unfold bytes_bits in *. cbn [mbind list_bind]. rewrite be_byte_eq.
  pose proof (bval_bound a) as Hba. pose proof (bval_bound b) as Hbb. unfold zlen in *. rewrite Ha in Hba. rewrite Hb in *.
  assert (2 ^ Z.of_nat (8 * k) = 256 ^ Z.of_nat k) as Ep
    by (rewrite Nat2Z.inj_mul, Z.pow_mul_r by lia; done).
  rewrite Ep in *. change (2 ^ Z.of_nat 8) with 256 in Hba.
  assert (0 < 256 ^ Z.of_nat k) by (apply Z.pow_pos_nonneg; lia).
  rewrite (Z.add_comm (_ * _)), Z.div_add, (Z.div_small (bval b)), Z.mod_small, be_bytes_add_high by lia.
  rewrite Z.add_0_l. f_equal; [|by apply IH]. rewrite <- Ha. apply bits_of_bval.
Qed.

Lemma bytes_bits_length bs : length (bytes_bits bs) = (8 * length bs)%nat.
Proof. unfold bytes_bits. induction bs as [|b bs IH]; [done|]. cbn [mbind list_bind]. rewrite length_app, bits_of_length, IH. cbn. lia. Qed.

Lemma bytes_bits_inj bs1 bs2 : bytes_ok bs1 → bytes_ok bs2 → bytes_bits bs1 = bytes_bits bs2 → bs1 = bs2.
Proof.
  revert bs2. induction bs1 as [|b1 bs1 IH]; intros [|b2 bs2] H1 H2 E; [done|..].
  - apply (f_equal length) in E. rewrite !bytes_bits_length in E. cbn in E. lia.
  - apply (f_equal length) in E. rewrite !bytes_bits_length in E. cbn in E. lia.
  - apply Forall_cons in H1 as [Hb1 H1]. apply Forall_cons in H2 as [Hb2 H2]. unfold bytes_bits in E. cbn [mbind list_bind] in E.
    apply app_inj_1 in E as [E1 E2]; [|by rewrite !bits_of_length].
    apply (f_equal bval) in E1. rewrite !bval_bits_of in E1. change (2 ^ Z.of_nat 8) with 256 in E1. unfold is_u8 in *.
    rewrite !Z.mod_small in E1 by lia. subst. f_equal. by apply IH.
Qed.

Lemma bytes_bits_app bs1 bs2 : bytes_bits (bs1 ++ bs2) = bytes_bits bs1 ++ bytes_bits bs2.
Proof. apply bind_app. Qed.
End bits.
