(* ===== verification/Huffman.v ===== *)
(** * The Huffman code of HPACK ([quiche/src/h3/qpack/huffman/mod.rs])

    The encoder packs codes into 64-bit words, the decoder is a table-driven
    automaton on four bits at a time.  Both are shown against the code as a
    prefix code: the decoder accepts exactly the encoder's outputs. *)
From S2P Require Import Prelude OctetsLib Bits HuffTable.

(** ** [qpack::Error] *)
Module Qpack.
Inductive Error :=
  | BufferTooShort
  | InflatedHuffmanEncoding
  | InvalidHuffmanEncoding
  | InvalidStaticTableIndex
  | InvalidHeaderValue
  | HeaderListTooLarge.

#[global] Instance error_buf : BufErr Error := BufferTooShort.
End Qpack.

(** [v << n] and [v >> n] on u64; shifting by 64 or more overflows. *)
Definition ushl {E} (v n : Z) : result E Z := if n <? 64 then Ok (Z.shiftl v n mod 2 ^ 64) else Panic.
Definition ushr {E} (v n : Z) : result E Z := if n <? 64 then Ok (Z.shiftr v n) else Panic.

(** An index into a slice. *)
Definition index {E A} (l : list A) (i : Z) : result E A :=
  match l !! Z.to_nat i with Some x => if 0 <=? i then Ok x else Panic | None => Panic end.

Definition to_ascii_lowercase (b : Z) : Z := if (65 <=? b) && (b <=? 90) then b + 32 else b.

Module Huffman.
Abbreviation Error := Qpack.Error.

(** ** Decoding *)
Module Decoder.
Record t := mk { state : Z; maybe_eos : bool }.
Definition new : t := mk 0 false.

Definition MAYBE_EOS : Z := 1.
Definition DECODED : Z := 2.
Definition ERROR : Z := 4.

(** Decodes 4 bits. *)
Definition decode4 (input : Z) (d : t) : result Error (option Z * t) :=
  row ← index Table.DECODE_TABLE (state d);
  '(next, byte, flags) ← index row input;
  if Z.land flags ERROR =? ERROR then Err Qpack.InvalidHuffmanEncoding
  else
    let ret := if Z.land flags DECODED =? DECODED then Some byte else None in
    Ok (ret, mk next (Z.land flags MAYBE_EOS =? MAYBE_EOS)).

Definition is_final (d : t) : bool := (state d =? 0) || maybe_eos d.
End Decoder.

(** [if let Some(b) = r { out.push(b) }] *)
Definition push (r : option Z) (out : list Z) : list Z := match r with Some b => out ++ [b] | None => out end.

(** [while b.cap() > 0]; every turn reads a byte. *)
Fixpoint decode_loop (fuel : nat) (decoder : Decoder.t) (out : list Z) : M octets Error (list Z) :=
  c ← reads Octets.cap;
  if c =? 0 then
    if negb (Decoder.is_final decoder) then fail Qpack.InvalidHuffmanEncoding else mret out
  else
    match fuel with
    | O => panic
    | S fuel =>
        byte ← Octets.get_u8;
        '(r, decoder) ← lift (Decoder.decode4 (Z.shiftr byte 4) decoder);
        let out := push r out in
        '(r, decoder) ← lift (Decoder.decode4 (Z.land byte 0xf) decoder);
        decode_loop fuel decoder (push r out)
    end.

Definition decode : M octets Error (list Z) :=
  b ← get;
  decode_loop (length (o_buf b)) Decoder.new [].

(** ** Encoding *)
Section encode.
Context (LOWER_CASE : bool).

Definition cased (b : Z) : Z := if LOWER_CASE then to_ascii_lowercase b else b.

Fixpoint encode_loop (src : list Z) (bits pending : Z) : M octets Error (Z * Z) :=
  match src with
  | [] => mret (bits, pending)
  | b :: src =>
      '(nbits, code) ← lift (index Table.ENCODE_TABLE (cased b));
      pending ← lift (uadd pending nbits);
      if pending <? 64 then
        sh ← lift (usub 64 pending);
        c ← lift (ushl code sh);
        encode_loop src (Z.lor bits c) pending
      else
        pending ← lift (usub pending 64);
        c ← lift (ushr code pending);
        OctetsMut.put_u64 (Z.lor bits c);;
        bits ← lift (if pending =? 0 then Ok 0 else sh ← usub 64 pending; ushl code sh);
        encode_loop src bits pending
  end.

Fixpoint put_tail (fuel : nat) (bits pending : Z) : M octets Error unit :=
  if pending <=? 0 then mret ()
  else
    match fuel with
    | O => panic
    | S fuel =>
        pending ← lift (usub pending 8);
        b ← lift (ushr bits pending);
        OctetsMut.put_u8 (as_u8 b);;
        put_tail fuel bits pending
    end.

Definition encode (src : list Z) : M octets Error unit :=
  '(bits, pending) ← encode_loop src 0 0;
  if pending =? 0 then mret ()
  else
    m ← lift (ushr u64_max pending);
    let bits := Z.lor bits m in
    let pending := Z.land (pending + 7) (Z.lnot 7) in
    sh ← lift (usub 64 pending);
    bits ← lift (ushr bits sh);
    pending ← (if 32 <=? pending then
                 pending ← lift (usub pending 32);
                 w ← lift (ushr bits pending);
                 OctetsMut.put_u32 (as_u32 w);;
                 mret pending
               else mret pending);
    put_tail (Z.to_nat pending) bits pending.

Fixpoint count_bits (src : list Z) (bits : Z) : result Error Z :=
  match src with
  | [] => Ok bits
  | b :: src =>
      '(nbits, _) ← index Table.ENCODE_TABLE (cased b);
      bits ← uadd bits nbits;
      count_bits src bits
  end.

Definition encode_output_length (src : list Z) : result Error Z :=
  bits ← count_bits src 0;
  let len := if negb (Z.land bits 7 =? 0) then bits / 8 + 1 else bits / 8 in
  if zlen src <? len then Err Qpack.InflatedHuffmanEncoding else Ok len.
End encode.
End Huffman.

(** ** The code as bit strings *)

(** The code of a byte. *)
Definition code (b : Z) : list bool :=
  match Table.ENCODE_TABLE !! Z.to_nat b with Some (n, v) => bits_of (Z.to_nat n) v | None => [] end.
Definition codes (s : list Z) : list bool := s ≫= code.

(** The code as a tree. *)
Inductive tree := Empty | Leaf (b : Z) | Node (l r : tree).

Fixpoint add (bs : list bool) (b : Z) (t : tree) : tree :=
  match bs with
  | [] => Leaf b
  | x :: bs =>
      let '(l, r) := match t with Node l r => (l, r) | _ => (Empty, Empty) end in
      if x then Node l (add bs b r) else Node (add bs b l) r
  end.

Definition bytes_256 : list Z := Z.of_nat <$> seq 0 256.
Definition code_tree : tree := fold_right (λ b t, add (code b) b t) Empty bytes_256.

(** Following bits from the root: a byte and the bits after its code, a place
    inside the tree, or bits that no code starts with. *)
Inductive walked := Found (b : Z) (rest : list bool) | Inside | Dead.
Fixpoint walk (t : tree) (bs : list bool) : walked :=
  match t, bs with
  | Empty, _ => Dead
  | Leaf b, _ => Found b bs
  | Node _ _, [] => Inside
  | Node l r, x :: bs => walk (if x then r else l) bs
  end.

(** The bits that the decoder has read beyond the last byte, by its state. *)
Definition prefixes : list (Z * Z) := [
    (0, 0); (1, 0); (2, 0); (3, 0); (4, 0); (4, 1); (3, 1); (4, 2); (4, 3); (2, 1); (3, 2); (4, 4); (4, 5);
    (5, 10); (5, 11); (3, 3); (4, 6); (5, 12); (5, 13); (4, 7); (5, 14); (5, 15); (1, 1); (2, 2); (3, 4);
    (4, 8); (5, 16); (5, 17); (4, 9); (5, 18); (5, 19); (3, 5); (4, 10); (5, 20); (5, 21); (4, 11); (5, 22);
    (5, 23); (6, 46); (6, 47); (2, 3); (3, 6); (4, 12); (5, 24); (6, 48); (6, 49); (5, 25); (6, 50); (6, 51);
    (4, 13); (5, 26); (6, 52); (6, 53); (5, 27); (6, 54); (6, 55); (3, 7); (4, 14); (5, 28); (6, 56);
    (6, 57); (5, 29); (6, 58); (6, 59); (4, 15); (5, 30); (6, 60); (6, 61); (5, 31); (6, 62); (7, 124);
    (7, 125); (6, 63); (7, 126); (7, 127); (8, 254); (9, 508); (9, 509); (8, 255); (9, 510); (10, 1021);
    (9, 511); (10, 1022); (11, 2045); (10, 1023); (11, 2046); (12, 4092); (12, 4093); (11, 2047); (12, 4094);
    (12, 4095); (13, 8190); (13, 8191); (14, 16382); (14, 16383); (15, 32767); (16, 65534); (17, 131068);
    (18, 262136); (18, 262137); (19, 524275); (17, 131069); (18, 262138); (19, 524276); (19, 524277);
    (18, 262139); (19, 524278); (19, 524279); (20, 1048558); (20, 1048559); (16, 65535); (17, 131070);
    (18, 262140); (19, 524280); (20, 1048560); (20, 1048561); (19, 524281); (20, 1048562); (20, 1048563);
    (18, 262141); (19, 524282); (20, 1048564); (21, 2097129); (20, 1048565); (21, 2097130); (21, 2097131);
    (19, 524283); (20, 1048566); (21, 2097132); (21, 2097133); (20, 1048567); (21, 2097134); (21, 2097135);
    (17, 131071); (18, 262142); (19, 524284); (20, 1048568); (21, 2097136); (21, 2097137); (20, 1048569);
    (21, 2097138); (21, 2097139); (19, 524285); (20, 1048570); (21, 2097140); (21, 2097141); (20, 1048571);
    (21, 2097142); (22, 4194284); (22, 4194285); (21, 2097143); (22, 4194286); (22, 4194287); (18, 262143);
    (19, 524286); (20, 1048572); (21, 2097144); (22, 4194288); (22, 4194289); (21, 2097145); (22, 4194290);
    (22, 4194291); (20, 1048573); (21, 2097146); (22, 4194292); (22, 4194293); (21, 2097147); (22, 4194294);
    (22, 4194295); (19, 524287); (20, 1048574); (21, 2097148); (22, 4194296); (22, 4194297); (21, 2097149);
    (22, 4194298); (23, 8388597); (22, 4194299); (23, 8388598); (23, 8388599); (20, 1048575); (21, 2097150);
    (22, 4194300); (23, 8388600); (23, 8388601); (22, 4194301); (23, 8388602); (23, 8388603); (24, 16777206);
    (24, 16777207); (21, 2097151); (22, 4194302); (23, 8388604); (24, 16777208); (25, 33554416);
    (25, 33554417); (24, 16777209); (25, 33554418); (25, 33554419); (23, 8388605); (24, 16777210);
    (25, 33554420); (25, 33554421); (24, 16777211); (25, 33554422); (25, 33554423); (26, 67108847);
    (22, 4194303); (23, 8388606); (24, 16777212); (25, 33554424); (26, 67108848); (26, 67108849);
    (25, 33554425); (26, 67108850); (26, 67108851); (24, 16777213); (25, 33554426); (26, 67108852);
    (26, 67108853); (25, 33554427); (26, 67108854); (26, 67108855); (23, 8388607); (24, 16777214);
    (25, 33554428); (26, 67108856); (27, 134217713); (26, 67108857); (27, 134217714); (27, 134217715);
    (25, 33554429); (26, 67108858); (27, 134217716); (27, 134217717); (26, 67108859); (27, 134217718);
    (27, 134217719); (24, 16777215); (25, 33554430); (26, 67108860); (27, 134217720); (27, 134217721);
    (26, 67108861); (27, 134217722); (27, 134217723); (25, 33554431); (26, 67108862); (27, 134217724);
    (27, 134217725); (26, 67108863); (27, 134217726); (27, 134217727); (28, 268435455); (29, 536870910);
    (29, 536870911)].
Definition prefix_of (s : Z) : list bool :=
  match prefixes !! Z.to_nat s with Some (n, v) => bits_of (Z.to_nat n) v | None => [] end.

(** The padding: less than a byte of ones. *)
Definition padding (k : nat) : list bool := replicate k true.
Definition is_padding (l : list bool) : bool := forallb id l && (length l <? 8)%nat.

(** ** The tables agree with the code *)

(** One entry of the table: from state [s], on the four bits [n]. *)
Definition check_entry (t : tree) (p : list bool) (n : Z) (e : Z * Z * Z) : bool :=
  let '(next, byte, flags) := e in
  let bits := p ++ bits_of 4 n in
  let flag m := Z.land flags m =? m in
  match walk t bits with
  | Dead => flag Huffman.Decoder.ERROR
  | Found b rest =>
      negb (flag Huffman.Decoder.ERROR) && flag Huffman.Decoder.DECODED && (b =? byte) &&
      bool_decide (prefix_of next = rest) && bool_decide (bits = code byte ++ rest) && (0 <=? byte) && (byte <? 256) &&
      (0 <=? next) && (next <? 256) && (flag Huffman.Decoder.MAYBE_EOS || (next =? 0) || negb (is_padding rest)) &&
      (negb (flag Huffman.Decoder.MAYBE_EOS) || is_padding rest)
  | Inside =>
      negb (flag Huffman.Decoder.ERROR) && negb (flag Huffman.Decoder.DECODED) && bool_decide (prefix_of next = bits) &&
      (0 <=? next) && (next <? 256) && (flag Huffman.Decoder.MAYBE_EOS || negb (is_padding bits)) &&
      (negb (flag Huffman.Decoder.MAYBE_EOS) || is_padding bits)
  end.

Fixpoint check_row (t : tree) (p : list bool) (n : Z) (row : list (Z * Z * Z)) : bool :=
  match row with [] => n =? 16 | e :: row => check_entry t p n e && check_row t p (n + 1) row end.

Fixpoint check_rows (t : tree) (s : Z) (rows : list (list (Z * Z * Z))) : bool :=
  match rows with
  | [] => s =? 256
  | row :: rows => check_row t (prefix_of s) 0 row && check_rows t (s + 1) rows
  end.

Lemma table_ok : check_rows code_tree 0 Table.DECODE_TABLE = true.
Proof. vm_compute. reflexivity. Qed.

(** Every byte has a code of 5 to 30 bits, found at its leaf. *)
Definition check_code (b : Z) : bool :=
  match Table.ENCODE_TABLE !! Z.to_nat b with
  | Some (n, v) =>
      (5 <=? n) && (n <=? 30) && (0 <=? v) && (v <? 2 ^ n) &&
      match walk code_tree (code b) with Found b' [] => b =? b' | _ => false end
  | None => false
  end.

Lemma codes_ok : forallb check_code bytes_256 = true.
Proof. vm_compute. reflexivity. Qed.

Lemma prefixes_inside : forallb (λ s, match walk code_tree (prefix_of s) with Inside => true | _ => false end) bytes_256 = true.
Proof. vm_compute. reflexivity. Qed.
Lemma padding_inside : forallb (λ k, match walk code_tree (padding k) with Inside => true | _ => false end) (seq 0 8) = true.
Proof. vm_compute. reflexivity. Qed.

Section code.
Implicit Types (l : list bool).

Lemma in_bytes_256 b : is_u8 b → b ∈ bytes_256.
Proof.
  intros Hb. unfold is_u8 in Hb. apply list_elem_of_fmap. exists (Z.to_nat b). split; [lia|]. apply elem_of_seq. lia.
Qed.

(** The entry of a byte. *)
Lemma code_entry b : is_u8 b → ∃ n v, index (E:=Qpack.Error) Table.ENCODE_TABLE b = Ok (n, v) ∧
  5 <= n <= 30 ∧ 0 <= v < 2 ^ n ∧ code b = bits_of (Z.to_nat n) v ∧ walk code_tree (code b) = Found b [].
Proof.
  intros Hb. pose proof codes_ok as Hall. rewrite forallb_forall in Hall.
  specialize (Hall b (proj1 (list_elem_of_In _ _) (in_bytes_256 b Hb))). unfold check_code in Hall. unfold index, code in *.
  destruct (Table.ENCODE_TABLE !! Z.to_nat b) as [[n v]|]; [|done]. exists n, v.
  rewrite (proj2 (Z.leb_le 0 b)) by apply Hb.
  rewrite !andb_true_iff, !Z.leb_le, Z.ltb_lt in Hall. destruct Hall as ((((? & ?) & ?) & ?) & Hw).
  split_and!; [done|lia..|done|]. destruct (walk _ _) as [b' [|]| |]; try done. by apply Z.eqb_eq in Hw as ->.
Qed.

Lemma walk_found_app t l b r k : walk t l = Found b r → walk t (l ++ k) = Found b (r ++ k).
Proof.
  revert l. induction t as [|b'|t1 IH1 t2 IH2]; intros l; cbn; [done|by intros [= -> ->]|].
  destruct l as [|x l]; [done|]. cbn. destruct x; auto.
Qed.
Lemma walk_dead_app t l k : walk t l = Dead → walk t (l ++ k) = Dead.
Proof.
  revert l. induction t as [|b'|t1 IH1 t2 IH2]; intros l; cbn; [done|done|].
  destruct l as [|x l]; [done|]. cbn. destruct x; auto.
Qed.

Lemma codes_cons b s : codes (b :: s) = code b ++ codes s.
Proof. done. Qed.

(** The first code of a string is found. *)
Lemma walk_codes b s k : is_u8 b → walk code_tree (codes (b :: s) ++ k) = Found b (codes s ++ k).
Proof.
  intros Hb. destruct (code_entry b Hb) as (_ & _ & _ & _ & _ & _ & Hw). unfold codes. cbn [mbind list_bind].
  rewrite <- app_assoc. by apply (walk_found_app _ _ _ [] _ Hw).
Qed.

Lemma walk_padding k : (k < 8)%nat → walk code_tree (padding k) = Inside.
Proof.
  intros Hk. pose proof padding_inside as Hall. rewrite forallb_forall in Hall.
  specialize (Hall k). rewrite in_seq in Hall. specialize (Hall ltac:(lia)). by destruct (walk _ _).
Qed.

Lemma is_padding_iff l : is_padding l = true ↔ ∃ k, l = padding k ∧ (k < 8)%nat.
Proof.
  unfold is_padding. rewrite andb_true_iff, Nat.ltb_lt. split.
  - intros [Hall Hl]. exists (length l). split; [|done]. clear Hl. induction l as [|x l IH]; [done|].
    cbn in *. apply andb_true_iff in Hall as [Hx Hall]. unfold padding. cbn. f_equal; [exact Hx|by apply IH].
  - intros (k & -> & Hk). unfold padding. rewrite length_replicate. split; [|done]. clear Hk.
    induction k as [|k IH]; [done|exact IH].
Qed.

Lemma check_row_nth t p n row i e : check_row t p n row = true → row !! i = Some e → check_entry t p (n + Z.of_nat i) e = true.
Proof.
  revert n i. induction row as [|e' row IH]; intros n i Hc Hi; [done|]. cbn in Hc. apply andb_true_iff in Hc as [He Hc].
  destruct i as [|i]; cbn in Hi; [injection Hi as ->; by rewrite Z.add_0_r|].
  replace (n + Z.of_nat (S i)) with (n + 1 + Z.of_nat i) by lia. by eapply IH.
Qed.
Lemma check_row_length t p n row : check_row t p n row = true → n + zlen row = 16.
Proof.
  revert n. induction row as [|e row IH]; intros n Hc; cbn in Hc; [apply Z.eqb_eq in Hc; rewrite zlen_nil; lia|].
  apply andb_true_iff in Hc as [_ Hc]. apply IH in Hc. rewrite zlen_cons. lia.
Qed.
Lemma check_rows_nth t s rows i row :
  check_rows t s rows = true → rows !! i = Some row → check_row t (prefix_of (s + Z.of_nat i)) 0 row = true.
Proof.
  revert s i. induction rows as [|row' rows IH]; intros s i Hc Hi; [done|]. cbn in Hc. apply andb_true_iff in Hc as [Hr Hc].
  destruct i as [|i]; cbn in Hi; [injection Hi as ->; by rewrite Z.add_0_r|].
  replace (s + Z.of_nat (S i)) with (s + 1 + Z.of_nat i) by lia. by eapply IH.
Qed.
Lemma check_rows_length t s rows : check_rows t s rows = true → s + zlen rows = 256.
Proof.
  revert s. induction rows as [|row rows IH]; intros s Hc; cbn in Hc; [apply Z.eqb_eq in Hc; rewrite zlen_nil; lia|].
  apply andb_true_iff in Hc as [_ Hc]. apply IH in Hc. rewrite zlen_cons. lia.
Qed.

(** *** The automaton *)
Import Huffman.

(** The state and the flag agree. *)
Definition dec_ok (d : Decoder.t) : Prop :=
  0 <= Decoder.state d < 256 ∧ (Decoder.is_final d = true ↔ is_padding (prefix_of (Decoder.state d)) = true).

Lemma index_ok {E A} (l : list A) i x : 0 <= i → l !! Z.to_nat i = Some x → index (E:=E) l i = Ok x.
Proof. intros Hi Hx. unfold index. by rewrite Hx, (proj2 (Z.leb_le 0 i)). Qed.

Lemma checked_entry t s rows n : check_rows t 0 rows = true → 0 <= s < 256 → 0 <= n < 16 →
  ∃ row e, index (E:=Qpack.Error) rows s = Ok row ∧ index (E:=Qpack.Error) row n = Ok e ∧ check_entry t (prefix_of s) n e = true.
Proof.
  intros Hok Hs Hn. pose proof (check_rows_length _ _ _ Hok) as Hlen. unfold zlen in Hlen.
  destruct (lookup_lt_is_Some_2 rows (Z.to_nat s) ltac:(lia)) as [row Hrow].
  pose proof (check_rows_nth _ _ _ _ _ Hok Hrow) as Hcr. replace (0 + Z.of_nat (Z.to_nat s)) with s in Hcr by lia.
  pose proof (check_row_length _ _ _ _ Hcr) as Hlen2. unfold zlen in Hlen2.
  destruct (lookup_lt_is_Some_2 row (Z.to_nat n) ltac:(lia)) as [e Hentry].
  pose proof (check_row_nth _ _ _ _ _ _ Hcr Hentry) as Hce. replace (0 + Z.of_nat (Z.to_nat n)) with n in Hce by lia.
  exists row, e. split_and!; [apply index_ok; [lia|done]..|done].
Qed.

Lemma entry_at s n : 0 <= s < 256 → 0 <= n < 16 →
  ∃ row e, index (E:=Qpack.Error) Table.DECODE_TABLE s = Ok row ∧ index (E:=Qpack.Error) row n = Ok e ∧
    check_entry code_tree (prefix_of s) n e = true.
Proof. exact (checked_entry code_tree s Table.DECODE_TABLE n table_ok). Qed.

(** Four bits, by what the tree finds in them. *)
Lemma decode4_entry t d n row next byte flags :
  index (E:=Qpack.Error) Table.DECODE_TABLE (Decoder.state d) = Ok row → index (E:=Qpack.Error) row n = Ok (next, byte, flags) →
  check_entry t (prefix_of (Decoder.state d)) n (next, byte, flags) = true →
  match walk t (prefix_of (Decoder.state d) ++ bits_of 4 n) with
  | Dead => Decoder.decode4 n d = Err Qpack.InvalidHuffmanEncoding
  | Found b rest => is_u8 b ∧ prefix_of (Decoder.state d) ++ bits_of 4 n = code b ++ rest ∧
      ∃ d', Decoder.decode4 n d = Ok (Some b, d') ∧ dec_ok d' ∧ prefix_of (Decoder.state d') = rest
  | Inside => ∃ d', Decoder.decode4 n d = Ok (None, d') ∧ dec_ok d' ∧
      prefix_of (Decoder.state d') = prefix_of (Decoder.state d) ++ bits_of 4 n
  end.
Proof.
  intros Hrow Hentry Hce. unfold check_entry in Hce. unfold Decoder.decode4. rewrite Hrow. cbn [mbind result_bind].
  rewrite Hentry. cbn [mbind result_bind]. clear Hrow Hentry. generalize dependent (prefix_of (Decoder.state d) ++ bits_of 4 n).
  intros bits Hce.
  assert (∀ m : bool, (m || (next =? 0) || negb (is_padding (prefix_of next)) = true) →
    (negb m || is_padding (prefix_of next) = true) → 0 <= next < 256 → dec_ok (Decoder.mk next m)) as Hdec.
  { intros m H1 H2 H3. split; [exact H3|]. unfold Decoder.is_final. cbn [Decoder.state Decoder.maybe_eos].
    destruct (Z.eqb_spec next 0) as [->|]; [done|]. by destruct m, (is_padding (prefix_of next)). }
  destruct (walk t _) as [b rest| |].
  - rewrite !andb_true_iff, !bool_decide_eq_true, !Z.eqb_eq, !Z.leb_le, !Z.ltb_lt in Hce.
    destruct Hce as ((((((((((He & Hd) & ->) & <-) & Hbits) & ?) & ?) & ?) & ?) & H1) & H2).
    apply negb_true_iff in He. apply Z.eqb_eq in Hd. rewrite He, Hd. unfold is_u8. split; [lia|]. split; [done|].
    eexists. split; [reflexivity|]. split; [|done]. apply Hdec; [done|done|lia].
  - rewrite !andb_true_iff, bool_decide_eq_true, Z.leb_le, Z.ltb_lt in Hce.
    destruct Hce as ((((((He & Hd) & Hp) & ?) & ?) & H1) & H2). apply negb_true_iff in He, Hd. rewrite He, Hd.
    eexists. split; [reflexivity|]. split; [|done]. rewrite <- Hp in H1, H2.
    apply Hdec; [|done|lia].
    apply orb_true_iff in H1 as [-> | ->]; [done|by rewrite orb_true_r].
  - by rewrite Hce.
Qed.

Lemma decode4_run d n :
  dec_ok d → 0 <= n < 16 →
  match walk code_tree (prefix_of (Decoder.state d) ++ bits_of 4 n) with
  | Dead => Decoder.decode4 n d = Err Qpack.InvalidHuffmanEncoding
  | Found b rest => is_u8 b ∧ prefix_of (Decoder.state d) ++ bits_of 4 n = code b ++ rest ∧
      ∃ d', Decoder.decode4 n d = Ok (Some b, d') ∧ dec_ok d' ∧ prefix_of (Decoder.state d') = rest
  | Inside => ∃ d', Decoder.decode4 n d = Ok (None, d') ∧ dec_ok d' ∧
      prefix_of (Decoder.state d') = prefix_of (Decoder.state d) ++ bits_of 4 n
  end.
Proof.
  intros [Hs _] Hn. destruct (entry_at _ n Hs Hn) as (row & [[next byte] flags] & Hrow & Hentry & Hce).
  exact (decode4_entry code_tree d n row next byte flags Hrow Hentry Hce).
Qed.

(** *** What the decoder does with bits that start with codes *)

(** Half a byte of a string of codes and padding. *)
Lemma decode4_codes d n s k r :
  dec_ok d → 0 <= n < 16 → Forall is_u8 s → (k < 8)%nat →
  prefix_of (Decoder.state d) ++ bits_of 4 n ++ r = codes s ++ padding k →
  ∃ o d' s', Decoder.decode4 n d = Ok (o, d') ∧ dec_ok d' ∧ Forall is_u8 s' ∧ s = push o [] ++ s' ∧
    prefix_of (Decoder.state d') ++ r = codes s' ++ padding k.
Proof.
  intros Hd Hn Hs Hk E. pose proof (decode4_run d n Hd Hn) as Hrun.
  rewrite app_assoc in E. generalize dependent (prefix_of (Decoder.state d) ++ bits_of 4 n). intros bits E Hrun.
  destruct s as [|b s].
  - assert (∃ j, bits = padding j ∧ (j < 8)%nat) as (j & Ej & Hj).
    { change (codes [] ++ padding k) with (padding k) in E. exists (length bits).
      assert (length bits + length r = k)%nat as Hlen
        by (apply (f_equal length) in E; unfold padding in E; rewrite length_app, length_replicate in E; done).
      split; [|lia]. apply (f_equal (take (length bits))) in E. rewrite take_app_length in E.
      etrans; [exact E|]. unfold padding. rewrite take_replicate. f_equal. lia. }
    rewrite Ej, walk_padding in Hrun by done. destruct Hrun as (d' & Hr & Hd' & Hp).
    exists None, d', []. split_and!; [done..|]. by rewrite Hp, <- Ej.
  - apply Forall_cons in Hs as [Hb Hs]. pose proof (walk_codes b s (padding k) Hb) as Hw. rewrite <- E in Hw.
    destruct (walk code_tree bits) as [b' rest| |] eqn:Hwb.
    + destruct Hrun as (_ & _ & d' & Hr & Hd' & Hp). rewrite (walk_found_app _ _ _ _ r Hwb) in Hw. injection Hw as <- Hrest.
      exists (Some b'), d', s. split_and!; [done..|]. by rewrite Hp.
    + destruct Hrun as (d' & Hr & Hd' & Hp). exists None, d', (b :: s). split_and!; [done|done|by constructor|done|]. by rewrite Hp.
    + by rewrite (walk_dead_app _ _ r Hwb) in Hw.
Qed.

(** Half a byte that the decoder takes. *)
Lemma decode4_inv d n o d' :
  dec_ok d → 0 <= n < 16 → Decoder.decode4 n d = Ok (o, d') →
  dec_ok d' ∧ Forall is_u8 (push o []) ∧
  prefix_of (Decoder.state d) ++ bits_of 4 n = codes (push o []) ++ prefix_of (Decoder.state d').
Proof.
  intros Hd Hn Hr. pose proof (decode4_run d n Hd Hn) as Hrun.
  destruct (walk _ _) as [b rest| |] in Hrun.
  - destruct Hrun as (Hb & E & d1 & Hr1 & Hd1 & Hp). rewrite Hr in Hr1. injection Hr1 as -> ->. split; [done|].
    split; [by apply Forall_singleton|]. rewrite E, Hp. unfold codes. cbn. by rewrite app_nil_r.
  - destruct Hrun as (d1 & Hr1 & Hd1 & Hp). rewrite Hr in Hr1. injection Hr1 as -> ->. by rewrite Hp.
  - congruence.
Qed.

Lemma byte_halves b : is_u8 b →
  bits_of 8 b = bits_of 4 (Z.shiftr b 4) ++ bits_of 4 (Z.land b 0xf) ∧ 0 <= Z.shiftr b 4 < 16 ∧ 0 <= Z.land b 0xf < 16.
Proof.
  intros Hb. unfold is_u8 in Hb. rewrite Z.shiftr_div_pow2 by lia. change (2 ^ 4) with 16.
  rewrite (land_ones_eq b 4) by done. change (2 ^ 4) with 16.
  pose proof (Z.mod_pos_bound b 16 ltac:(lia)). pose proof (Z.div_mod b 16 ltac:(lia)).
  split_and!; [|apply Z.div_pos; lia|apply Z.div_lt_upper_bound; lia|lia..].
  rewrite <- (bits_of_app 4 4) by (change (2 ^ Z.of_nat 4) with 16; lia).
  f_equal. change (2 ^ Z.of_nat 4) with 16. lia.
Qed.

(** A whole string of codes and padding. *)
Lemma prefix_inside s : 0 <= s < 256 → walk code_tree (prefix_of s) = Inside.
Proof.
  intros Hs. pose proof prefixes_inside as Hall. rewrite forallb_forall in Hall.
  specialize (Hall s (proj1 (list_elem_of_In _ _) (in_bytes_256 s ltac:(unfold is_u8; lia)))). by destruct (walk _ _).
Qed.

Lemma loop_unfold fuel d out pre bs :
  decode_loop fuel d out (mk_octets (pre ++ bs) (zlen pre)) =
  match bs with
  | [] => (if Decoder.is_final d then Ok out else Err Qpack.InvalidHuffmanEncoding, mk_octets (pre ++ bs) (zlen pre))
  | b :: bs' =>
      match fuel with
      | O => (Panic, mk_octets (pre ++ bs) (zlen pre))
      | S fuel =>
          ('(r, d) ← lift (Decoder.decode4 (Z.shiftr b 4) d);
           '(r', d) ← lift (Decoder.decode4 (Z.land b 0xf) d);
           decode_loop fuel d (push r' (push r out))) (mk_octets ((pre ++ [b]) ++ bs') (zlen (pre ++ [b])))
      end
  end.
Proof.
  assert (Octets.cap (E:=Error) (mk_octets (pre ++ bs) (zlen pre)) = Ok (zlen bs)) as Hcap.
  { unfold Octets.cap. cbn [o_buf o_off]. rewrite zlen_app, usub_ok by (pose proof (zlen_nonneg bs); lia). f_equal. lia. }
  destruct fuel; cbn [decode_loop]; rewrite (run_bind_reads _ _ _ _ Hcap); destruct bs as [|b bs].
  1, 3: rewrite zlen_nil; cbn; by destruct (Decoder.is_final d).
  all: rewrite zlen_cons, (proj2 (Z.eqb_neq _ _)) by (pose proof (zlen_nonneg bs); lia).
  { done. }
  assert (Octets.get_u8 (E:=Error) (mk_octets (pre ++ b :: bs) (zlen pre)) = (Ok b, mk_octets ((pre ++ [b]) ++ bs) (zlen (pre ++ [b])))) as Hget.
  { pose proof (get_u8_parses (E:=Error) b pre bs) as Hg. etrans; [exact Hg|]. by rewrite <- app_assoc, zlen_app. }
  by rewrite (run_bind_ok _ _ _ _ _ Hget).
Qed.

Lemma decode_loop_codes fuel d out pre bs s k :
  dec_ok d → bytes_ok bs → Forall is_u8 s → (k < 8)%nat → (length bs <= fuel)%nat →
  prefix_of (Decoder.state d) ++ bytes_bits bs = codes s ++ padding k →
  decode_loop fuel d out (mk_octets (pre ++ bs) (zlen pre)) = (Ok (out ++ s), mk_octets (pre ++ bs) (zlen (pre ++ bs))).
Proof.
  revert fuel d out pre s. induction bs as [|b bs IH]; intros fuel d out pre s Hd Hbs Hs Hk Hfuel E; rewrite loop_unfold.
  - change (bytes_bits []) with (@nil bool) in E. rewrite app_nil_r in E.
    assert (s = []) as ->.
    { destruct s as [|b s]; [done|]. pose proof (prefix_inside _ (proj1 Hd)) as Hw. rewrite E in Hw.
      apply Forall_cons in Hs as [Hb _]. by rewrite walk_codes in Hw by done. }
    assert (Decoder.is_final d = true) as ->; [|by rewrite !app_nil_r].
    apply Hd, is_padding_iff. by exists k.
  - destruct fuel as [|fuel]; [cbn in Hfuel; lia|]. apply Forall_cons in Hbs as [Hb Hbs].
    destruct (byte_halves b Hb) as (Eb & H1 & H2). unfold bytes_bits in E. cbn [mbind list_bind] in E. rewrite Eb, <- app_assoc in E.
    destruct (decode4_codes _ _ _ _ _ Hd H1 Hs Hk E) as (r1 & d1 & s1 & Hr1 & Hd1 & Hs1 & -> & E1).
    destruct (decode4_codes _ _ _ _ _ Hd1 H2 Hs1 Hk E1) as (r2 & d2 & s2 & Hr2 & Hd2 & Hs2 & -> & E2).
    rewrite (run_bind_lift _ _ _ _ Hr1), (run_bind_lift _ _ _ _ Hr2).
    rewrite (IH fuel d2 _ (pre ++ [b]) s2) by (done || (cbn in Hfuel; lia)).
    rewrite <- app_assoc. do 2 f_equal. destruct r1, r2; cbn; by rewrite <- ?app_assoc.
Qed.

Lemma wp_decode4 {A} d n (f : option Z * Decoder.t → M octets Error A) Q QE o :
  dec_ok d → 0 <= n < 16 → QE Qpack.InvalidHuffmanEncoding o →
  (∀ r d', dec_ok d' → Forall is_u8 (push r []) →
     prefix_of (Decoder.state d) ++ bits_of 4 n = codes (push r []) ++ prefix_of (Decoder.state d') → wp (f (r, d')) Q QE o) →
  wp (lift (Decoder.decode4 n d) ≫= f) Q QE o.
Proof.
  intros Hd Hn HQE Hf. pose proof (decode4_run d n Hd Hn) as Hrun. apply wp_bind.
  destruct (Decoder.decode4 n d) as [[r d']|e|] eqn:Hr.
  - eapply wp_lift; [done|]. destruct (decode4_inv _ _ _ _ Hd Hn Hr) as (? & ? & ?). by apply Hf.
  - destruct (walk _ _) in Hrun; [by destruct Hrun as (_ & _ & ? & ? & _)|by destruct Hrun as (? & ? & _)|].
    by injection Hrun as ->.
  - destruct (walk _ _) in Hrun; [by destruct Hrun as (_ & _ & ? & ? & _)|by destruct Hrun as (? & ? & _)|done].
Qed.

(** What the decoder accepts, and that it never panics. *)
Lemma decode_loop_inv fuel d out pre bs :
  dec_ok d → bytes_ok bs → (length bs <= fuel)%nat →
  wp (decode_loop fuel d out) (λ res o', o' = mk_octets (pre ++ bs) (zlen (pre ++ bs)) ∧
      ∃ s k, res = out ++ s ∧ Forall is_u8 s ∧ (k < 8)%nat ∧
        prefix_of (Decoder.state d) ++ bytes_bits bs = codes s ++ padding k)
    (λ e o', e = Qpack.InvalidHuffmanEncoding ∧ o_buf o' = pre ++ bs ∧ zlen pre <= o_off o' <= zlen (pre ++ bs))
    (mk_octets (pre ++ bs) (zlen pre)).
Proof.
  revert fuel d out pre. induction bs as [|b bs IH]; intros fuel d out pre Hd Hbs Hfuel; unfold wp; rewrite loop_unfold.
  - rewrite app_nil_r. destruct (Decoder.is_final d) eqn:Hf; [|split_and!; done || cbn; lia].
    apply Hd, is_padding_iff in Hf as (k & Hk & ?). split; [done|]. exists [], k. rewrite app_nil_r. split_and!; [done..|].
    by rewrite app_nil_r.
  - destruct fuel as [|fuel]; [cbn in Hfuel; lia|]. apply Forall_cons in Hbs as [Hb Hbs].
    destruct (byte_halves b Hb) as (Eb & H1 & H2). pose proof (zlen_nonneg bs).
    change (wp ('(r, d) ← lift (Decoder.decode4 (Z.shiftr b 4) d); '(r', d) ← lift (Decoder.decode4 (Z.land b 0xf) d);
      decode_loop fuel d (push r' (push r out)))
      (λ res o', o' = mk_octets (pre ++ b :: bs) (zlen (pre ++ b :: bs)) ∧
        ∃ s k, res = out ++ s ∧ Forall is_u8 s ∧ (k < 8)%nat ∧
        prefix_of (Decoder.state d) ++ bytes_bits (b :: bs) = codes s ++ padding k)
      (λ e o', e = Qpack.InvalidHuffmanEncoding ∧ o_buf o' = pre ++ b :: bs ∧ zlen pre <= o_off o' <= zlen (pre ++ b :: bs))
      (mk_octets ((pre ++ [b]) ++ bs) (zlen (pre ++ [b])))).
    replace (pre ++ b :: bs) with ((pre ++ [b]) ++ bs) by by rewrite <- app_assoc.
    assert (zlen pre <= zlen (pre ++ [b]) <= zlen ((pre ++ [b]) ++ bs)) as Hoff by (rewrite !zlen_app, zlen_cons, zlen_nil; lia).
    eapply wp_decode4; [exact Hd|exact H1|split_and!; [done|done|cbn; lia..]|]. intros r1 d1 Hd1 Hu1 E1.
    eapply wp_decode4; [exact Hd1|exact H2|split_and!; [done|done|cbn; lia..]|]. intros r2 d2 Hd2 Hu2 E2.
    eapply wp_mono; [apply (IH fuel d2); done || (cbn in Hfuel; lia)|..]; cbv beta.
    + intros res o' (-> & s & k & -> & Hs & Hk & E). split; [done|]. exists (push r1 [] ++ push r2 [] ++ s), k.
      split_and!; [destruct r1, r2; cbn; by rewrite <- ?app_assoc|by repeat apply Forall_app_2|done|].
      unfold bytes_bits in *. cbn [mbind list_bind]. rewrite Eb, <- app_assoc, app_assoc, E1. unfold codes in *.
      rewrite !bind_app, <- !app_assoc. f_equal. by rewrite app_assoc, E2, <- !app_assoc, E.
    + intros e o' (-> & Hb' & ?). split_and!; [done|done|lia|lia].
Qed.
End code.

(** ** The encoder *)

(** [m] writes [bs] and returns [a]. *)
Definition puts {E A} (m : M octets E A) (bs : list Z) (a : A) : Prop := ∀ pre old rest, zlen old = zlen bs →
  m (mk_octets (pre ++ old ++ rest) (zlen pre)) = (Ok a, mk_octets (pre ++ bs ++ rest) (zlen pre + zlen bs)).

Section puts.
Context {E : Type}.

Lemma puts_ret {A} (a : A) : puts (mret a : M octets E A) [] a.
Proof. intros pre old rest Hold. rewrite zlen_nil, zlen_0 in Hold. subst old. by rewrite run_ret, zlen_nil, Z.add_0_r. Qed.

Lemma puts_bind {A B} (m : M octets E A) (k : A → M octets E B) b1 b2 a c :
  puts m b1 a → puts (k a) b2 c → puts (m ≫= k) (b1 ++ b2) c.
Proof.
  intros Hm Hk pre old rest Hold. rewrite zlen_app in Hold. pose proof (zlen_nonneg b1). pose proof (zlen_nonneg b2).
  rewrite <- (ztake_zdrop (zlen b1) old), <- (app_assoc (ztake _ _)).
  rewrite (run_bind_ok _ _ _ _ _ (Hm pre (ztake (zlen b1) old) (zdrop (zlen b1) old ++ rest) ltac:(rewrite zlen_ztake; lia))).
  specialize (Hk (pre ++ b1) (zdrop (zlen b1) old) rest ltac:(rewrite zlen_zdrop; lia)).
  rewrite <- !app_assoc, zlen_app in Hk. rewrite Hk, <- !app_assoc, zlen_app. do 2 f_equal. lia.
Qed.

Lemma puts_seq {A B} (m : M octets E A) (k : M octets E B) b1 b2 c :
  writes m b1 → puts k b2 c → puts (m;; k) (b1 ++ b2) c.
Proof.
  intros Hm Hk pre old rest Hold. rewrite zlen_app in Hold. pose proof (zlen_nonneg b1). pose proof (zlen_nonneg b2).
  rewrite <- (ztake_zdrop (zlen b1) old), <- (app_assoc (ztake _ _)).
  destruct (Hm pre (ztake (zlen b1) old) (zdrop (zlen b1) old ++ rest) ltac:(rewrite zlen_ztake; lia)) as [a Ha].
  rewrite (run_bind_ok _ _ _ _ _ Ha).
  specialize (Hk (pre ++ b1) (zdrop (zlen b1) old) rest ltac:(rewrite zlen_zdrop; lia)).
  rewrite <- !app_assoc, zlen_app in Hk. rewrite Hk, <- !app_assoc, zlen_app. do 2 f_equal. lia.
Qed.

Lemma puts_lift {A B} (r : result E A) (k : A → M octets E B) a bs c : r = Ok a → puts (k a) bs c → puts (lift r ≫= k) bs c.
Proof. intros Hr Hk pre old rest Hold. rewrite (run_bind_lift _ _ _ _ Hr). by apply Hk. Qed.

Lemma writes_puts (m : M octets E unit) bs : writes m bs → puts m bs ().
Proof. intros Hm pre old rest Hold. by destruct (Hm pre old rest Hold) as [[] Ha]. Qed.

Lemma puts_writes {A} (m : M octets E A) bs a : puts m bs a → writes m bs.
Proof. intros Hm pre old rest Hold. exists a. by apply Hm. Qed.
End puts.

Section words.
Implicit Types (l : list bool).

Lemma lor_add a b n : 0 <= n → 0 <= b < 2 ^ n → Z.lor (a * 2 ^ n) b = a * 2 ^ n + b.
Proof.
  intros Hn Hb. pose proof (Z.add_lor_land (a * 2 ^ n) b). enough (Z.land (a * 2 ^ n) b = 0) by lia.
  apply Z.bits_inj'. intros i Hi. rewrite Z.land_spec, Z.bits_0. destruct (Z.lt_ge_cases i n).
  - by rewrite Z.mul_pow2_bits_low.
  - rewrite andb_false_iff. right. destruct (Z.eq_dec b 0) as [->|]; [apply Z.bits_0|].
    apply Z.bits_above_log2; [lia|]. enough (Z.log2 b < n) by lia. apply Z.log2_lt_pow2; lia.
Qed.

Lemma shr_app l (k : list bool) : Z.shiftr (bval (l ++ k)) (zlen k) = bval l.
Proof.
  pose proof (bval_bound k). rewrite bval_app, Z.shiftr_div_pow2 by apply zlen_nonneg.
  rewrite Z.add_comm, Z.div_add, Z.div_small by lia. lia.
Qed.

Lemma bval_ones n : bval (replicate n true) = 2 ^ Z.of_nat n - 1.
Proof.
  induction n as [|n IH]; [done|]. cbn [replicate bval]. rewrite IH. unfold zlen. rewrite length_replicate.
  rewrite Nat2Z.inj_succ, Z.pow_succ_r by lia. cbn [Z.b2z]. lia.
Qed.

Lemma be_bytes_app n m v : be_bytes (n + m) v = be_bytes n (Z.shiftr v (8 * Z.of_nat m)) ++ be_bytes m v.
Proof.
  induction n as [|n IH]; [done|]. cbn [Nat.add be_bytes app]. rewrite IH, Z.shiftr_shiftr by lia. do 3 f_equal. lia.
Qed.

Lemma be_bytes_wrap n v : 0 <= v → be_bytes n (v mod 256 ^ Z.of_nat n) = be_bytes n v.
Proof.
  intros Hv. assert (0 < 256 ^ Z.of_nat n) by (apply Z.pow_pos_nonneg; lia).
  pose proof (Z.mod_pos_bound v (256 ^ Z.of_nat n) ltac:(lia)).
  rewrite (Z.div_mod v (256 ^ Z.of_nat n)) at 2 by lia.
  by rewrite Z.add_comm, Z.mul_comm, be_bytes_add_high by lia.
Qed.
End words.

Section encoder.
Context (LOWER_CASE : bool).
Import Huffman.

(** The first 64 bits make a word; what is left starts the next one. *)
Lemma encode_loop_puts src bl :
  Forall is_u8 (cased LOWER_CASE <$> src) → zlen bl < 64 →
  ∃ out bl', puts (encode_loop LOWER_CASE src (bval bl * 2 ^ (64 - zlen bl)) (zlen bl)) out (bval bl' * 2 ^ (64 - zlen bl'), zlen bl') ∧
    zlen bl' < 64 ∧ bytes_ok out ∧ bytes_bits out ++ bl' = bl ++ codes (cased LOWER_CASE <$> src).
Proof.
  revert bl. induction src as [|b src IH]; intros bl Hsrc Hbl; cbn [encode_loop fmap list_fmap].
  { exists [], bl. split_and!; [apply puts_ret|done|constructor|]. by rewrite app_nil_r. }
  apply Forall_cons in Hsrc as [Hb Hsrc].
  destruct (code_entry _ Hb) as (n & v & Hi & Hn & Hv & Ec & _). set (cb := code (cased LOWER_CASE b)) in *.
  assert (zlen cb = n) as Elen by (rewrite Ec, zlen_bits_of; lia).
  assert (bval cb = v) as Ev by (rewrite Ec, bval_bits_of, Z2Nat.id, Z.mod_small by lia; done).
  pose proof (zlen_nonneg bl). pose proof (bval_bound bl).
  destruct (Z.ltb_spec (zlen bl + n) 64) as [Hlt|Hge].
  - destruct (IH (bl ++ cb) Hsrc) as (out & bl' & Hp & Hl' & Hok & E); [rewrite zlen_app; lia|].
    exists out, bl'. split_and!; [|done|done|by rewrite E, codes_cons, <- app_assoc].
    eapply puts_lift; [exact Hi|]. cbv beta iota. eapply puts_lift; [apply uadd_ok; lia|].
    rewrite (proj2 (Z.ltb_lt _ _) Hlt). eapply puts_lift; [apply usub_ok; lia|].
    eapply puts_lift; [unfold ushl; rewrite (proj2 (Z.ltb_lt _ _)) by lia; reflexivity|]. cbv beta.
    replace (Z.lor _ _) with (bval (bl ++ cb) * 2 ^ (64 - (zlen bl + n))); [by rewrite zlen_app, Elen in Hp|].
    rewrite bval_app, Elen, Ev, Z.shiftl_mul_pow2 by lia.
    assert (0 < 2 ^ (64 - (zlen bl + n))) by (apply Z.pow_pos_nonneg; lia).
    assert (2 ^ (64 - zlen bl) = 2 ^ n * 2 ^ (64 - (zlen bl + n))) as Ep by (rewrite <- Z.pow_add_r by lia; f_equal; lia).
    assert (v * 2 ^ (64 - (zlen bl + n)) < 2 ^ (64 - zlen bl)) by (rewrite Ep; apply Z.mul_lt_mono_pos_r; lia).
    assert (0 <= v * 2 ^ (64 - (zlen bl + n))) by (apply Z.mul_nonneg_nonneg; lia).
    assert (2 ^ (64 - zlen bl) <= 2 ^ 64) by (apply Z.pow_le_mono_r; lia).
    rewrite Z.mod_small by lia.
    rewrite lor_add by lia. rewrite Ep. lia.
  - set (c1 := take (Z.to_nat (64 - zlen bl)) cb). set (c2 := drop (Z.to_nat (64 - zlen bl)) cb).
    assert (cb = c1 ++ c2) as Ecb by (symmetry; apply take_drop).
    assert (zlen c1 = 64 - zlen bl) as El1 by (unfold c1, zlen; rewrite length_take; unfold zlen in *; lia).
    assert (zlen c2 = zlen bl + n - 64) as El2 by (unfold c2, zlen; rewrite length_drop; unfold zlen in *; lia).
    pose proof (bval_bound c1) as Hb1. pose proof (bval_bound c2) as Hb2. rewrite El1 in Hb1.
    destruct (IH c2 Hsrc) as (out & bl' & Hp & Hl' & Hok & E); [lia|].
    exists (be_bytes 8 (bval (bl ++ c1)) ++ out), bl'. split_and!; [|done|by apply Forall_app_2; [apply be_bytes_ok|]|].
    2: { rewrite bytes_bits_app, be_bytes_bits by (rewrite length_app; unfold zlen in *; lia).
      rewrite <- app_assoc, E, codes_cons. fold cb. by rewrite Ecb, <- !app_assoc. }
    eapply puts_lift; [exact Hi|]. cbv beta iota. eapply puts_lift; [apply uadd_ok; lia|].
    rewrite (proj2 (Z.ltb_ge _ _) Hge). eapply puts_lift; [apply usub_ok; lia|].
    eapply puts_lift; [unfold ushr; rewrite (proj2 (Z.ltb_lt _ _)) by lia; reflexivity|].
    rewrite <- El2. replace (Z.shiftr v (zlen c2)) with (bval c1) by (by rewrite <- Ev, Ecb, shr_app).
    rewrite lor_add by lia. rewrite <- El1, <- bval_app. eapply puts_seq; [by apply put_u_writes|].
    eapply (puts_lift _ _ (bval c2 * 2 ^ (64 - zlen c2))); [|exact Hp].
    destruct (Z.eqb_spec (zlen c2) 0) as [E0|Hne].
    + apply zlen_0 in E0. by rewrite E0.
    + pose proof (zlen_nonneg c2). rewrite usub_ok by lia. cbn [mbind result_bind]. unfold ushl. rewrite (proj2 (Z.ltb_lt _ _)) by lia.
      f_equal. rewrite Z.shiftl_mul_pow2, <- Ev, Ecb, bval_app by lia.
      assert (2 ^ 64 = 2 ^ zlen c2 * 2 ^ (64 - zlen c2)) as Ep by (rewrite <- Z.pow_add_r by lia; f_equal; lia).
      assert (0 < 2 ^ (64 - zlen c2)) by (apply Z.pow_pos_nonneg; lia).
      rewrite Z.mul_add_distr_r, <- Z.mul_assoc, <- Ep, Z.add_comm, Z.mod_add by lia.
      rewrite Z.mod_small; [done|]. split; [lia|]. rewrite Ep. apply Z.mul_lt_mono_pos_r; lia.
Qed.

(** The last bytes, one by one. *)
Lemma put_tail_puts fuel j bits :
  0 <= bits → (j <= fuel)%nat → Z.of_nat j <= 8 →
  writes (put_tail fuel bits (8 * Z.of_nat j)) (be_bytes j bits).
Proof.
  intros Hb. revert j. induction fuel as [|fuel IH]; intros j Hj Hj8; cbn [put_tail].
  { assert (j = O) as -> by lia. apply writes_ret. }
  destruct j as [|j]; [apply writes_ret|]. rewrite (proj2 (Z.leb_gt _ _)) by lia.
  intros pre old rest Hold. rewrite (run_bind_lift _ _ _ (8 * Z.of_nat j)) by (rewrite usub_ok by lia; f_equal; lia).
  rewrite (run_bind_lift _ _ _ (Z.shiftr bits (8 * Z.of_nat j))) by (unfold ushr; by rewrite (proj2 (Z.ltb_lt _ _)) by lia).
  revert pre old rest Hold. cbn [be_bytes].
  change (writes (OctetsMut.put_u8 (as_u8 (Z.shiftr bits (8 * Z.of_nat j)));; put_tail fuel bits (8 * Z.of_nat j))
    ([Z.land (Z.shiftr bits (8 * Z.of_nat j)) 255] ++ be_bytes j bits)).
  apply writes_bind; [|intros _; apply IH; lia].
  rewrite (land_ones_eq _ 8) by done. unfold as_u8. apply put_u8_writes. unfold is_u8.
  pose proof (Z.mod_pos_bound (Z.shiftr bits (8 * Z.of_nat j)) (2 ^ 8) ltac:(done)). change (2 ^ 8) with 256 in *. lia.
Qed.

(** The last word: [q] bytes of bits and padding. *)
Lemma round_up p : 0 < p < 64 → ∃ q : nat, Z.land (p + 7) (Z.lnot 7) = 8 * Z.of_nat q ∧ p <= 8 * Z.of_nat q < p + 8 ∧ (q <= 8)%nat.
Proof.
  intros Hp. exists (Z.to_nat ((p + 7) / 8)).
  pose proof (Z.div_mod (p + 7) 8 ltac:(lia)). pose proof (Z.mod_pos_bound (p + 7) 8 ltac:(lia)).
  assert (0 <= (p + 7) / 8) by (apply Z.div_pos; lia). rewrite Z2Nat.id by done. split; [|split; lia].
  assert (forallb (λ i, Z.land (Z.of_nat i + 7) (Z.lnot 7) =? 8 * ((Z.of_nat i + 7) / 8)) (seq 0 64) = true) as Hall by done.
  rewrite forallb_forall in Hall. specialize (Hall (Z.to_nat p)). rewrite in_seq in Hall.
  specialize (Hall ltac:(lia)). apply Z.eqb_eq in Hall. by rewrite Z2Nat.id in Hall by lia.
Qed.

Lemma encode_writes src :
  Forall is_u8 (cased LOWER_CASE <$> src) →
  ∃ out k, writes (encode LOWER_CASE src) out ∧ bytes_ok out ∧ (k < 8)%nat ∧
    bytes_bits out = codes (cased LOWER_CASE <$> src) ++ padding k.
Proof.
  intros Hsrc. destruct (encode_loop_puts src [] Hsrc ltac:(done)) as (out & bl & Hp & Hl & Hok & E).
  change (bval [] * 2 ^ (64 - zlen [])) with 0 in Hp. change (zlen []) with 0 in Hp. cbn [app] in E.
  set (p := zlen bl) in *. pose proof (zlen_nonneg bl) as Hp0. fold p in Hp0. pose proof (bval_bound bl) as Hbl. fold p in Hbl.
  destruct (Z.eqb_spec p 0) as [E0|Hne].
  { apply zlen_0 in E0. subst bl. exists out, O. rewrite app_nil_r in *. split_and!; [|done|lia|done].
    rewrite <- (app_nil_r out). unfold encode. eapply puts_writes, puts_bind; [exact Hp|]. cbv beta iota. apply puts_ret. }
  destruct (round_up p ltac:(lia)) as (q & Hq & Hpq & Hq8).
  set (k := Z.to_nat (8 * Z.of_nat q - p)). set (L := bl ++ padding k).
  assert (zlen L = 8 * Z.of_nat q) as EL by (unfold L, padding, k; rewrite zlen_app; unfold zlen at 2; rewrite length_replicate; lia).
  exists (out ++ be_bytes q (bval L)), k. split_and!.
  - unfold encode. eapply puts_writes, puts_bind; [exact Hp|]. cbv beta iota. rewrite (proj2 (Z.eqb_neq _ _) Hne).
    eapply puts_lift; [unfold ushr; rewrite (proj2 (Z.ltb_lt _ _)) by lia; reflexivity|]. cbv beta zeta. rewrite Hq.
    eapply puts_lift; [apply usub_ok; lia|].
    eapply puts_lift; [unfold ushr; rewrite (proj2 (Z.ltb_lt _ _)) by lia; reflexivity|]. cbv beta.
    assert (Z.shiftr (Z.lor (bval bl * 2 ^ (64 - p)) (Z.shiftr u64_max p)) (64 - 8 * Z.of_nat q) = bval L) as ->.
    { set (ones := λ n : Z, replicate (Z.to_nat n) true).
      assert (∀ n, 0 <= n → zlen (ones n) = n) as Eones by (intros n ?; unfold ones, zlen; rewrite length_replicate; lia).
      assert (Z.shiftr u64_max p = bval (ones (64 - p))) as ->.
      { unfold ones. rewrite bval_ones, Z2Nat.id by lia. change u64_max with (Z.ones 64). rewrite Z.shiftr_div_pow2, Z.ones_equiv by lia.
        assert (2 ^ 64 = 2 ^ (64 - p) * 2 ^ p) as -> by (rewrite <- Z.pow_add_r by lia; f_equal; lia).
        assert (0 < 2 ^ p) by (apply Z.pow_pos_nonneg; lia). symmetry. apply (Z.div_unique _ _ _ (2 ^ p - 1)); lia. }
      pose proof (bval_bound (ones (64 - p))) as Hb. rewrite Eones in Hb by lia. rewrite lor_add by lia.
      rewrite <- (Eones (64 - p)) at 1 by lia. rewrite <- bval_app.
      assert (bl ++ ones (64 - p) = L ++ ones (64 - 8 * Z.of_nat q)) as ->.
      { unfold L, padding, ones, k. rewrite <- app_assoc, <- replicate_add. do 2 f_equal. lia. }
      rewrite <- (Eones (64 - 8 * Z.of_nat q)) at 2 by lia. apply shr_app. }
    pose proof (bval_bound L) as HL. destruct (Z.leb_spec 32 (8 * Z.of_nat q)) as [H32|H32].
    + assert (q = 4 + (q - 4))%nat as Eq by lia. rewrite Eq at 2. rewrite be_bytes_app.
      set (j := (q - 4)%nat) in *. eapply puts_bind.
      * eapply puts_lift; [apply usub_ok; lia|]. replace (8 * Z.of_nat q - 32) with (8 * Z.of_nat j) by lia.
        eapply puts_lift; [unfold ushr; rewrite (proj2 (Z.ltb_lt _ _)) by lia; reflexivity|]. cbv beta.
        rewrite <- (app_nil_r (be_bytes 4 _)). eapply puts_seq; [|apply puts_ret].
        rewrite <- (be_bytes_wrap 4) by (apply Z.shiftr_nonneg; lia). by apply put_u_writes.
      * cbv beta. apply writes_puts, put_tail_puts; lia.
    + rewrite <- (app_nil_l (be_bytes q _)). eapply puts_bind; [apply puts_ret|]. cbv beta. apply writes_puts, put_tail_puts; lia.
  - apply Forall_app_2; [done|apply be_bytes_ok].
  - unfold k. lia.
  - rewrite bytes_bits_app, be_bytes_bits by (unfold zlen in EL; lia). unfold L. by rewrite app_assoc, E.
Qed.

(** [encode_output_length] is the number of bytes written, unless it is more
    than the string itself has. *)
Lemma count_bits_run src n :
  Forall is_u8 (cased LOWER_CASE <$> src) → n + 30 * zlen src <= u64_max →
  count_bits LOWER_CASE src n = Ok (n + zlen (codes (cased LOWER_CASE <$> src))).
Proof.
  revert n. induction src as [|b src IH]; intros n Hsrc Hn; cbn [count_bits fmap list_fmap].
  { change (codes []) with (@nil bool). by rewrite zlen_nil, Z.add_0_r. }
  apply Forall_cons in Hsrc as [Hb Hsrc]. destruct (code_entry _ Hb) as (k & v & Hi & Hk & _ & Ec & _).
  pose proof (zlen_nonneg src). rewrite zlen_cons in Hn. rewrite Hi. cbn [mbind result_bind]. rewrite uadd_ok by lia. cbn [mbind result_bind].
  rewrite IH by (done || lia). f_equal. rewrite codes_cons, zlen_app, Ec, zlen_bits_of. lia.
Qed.

Lemma output_length_run src out k :
  Forall is_u8 (cased LOWER_CASE <$> src) → 30 * zlen src <= u64_max → (k < 8)%nat →
  bytes_bits out = codes (cased LOWER_CASE <$> src) ++ padding k →
  encode_output_length LOWER_CASE src = if zlen src <? zlen out then Err Qpack.InflatedHuffmanEncoding else Ok (zlen out).
Proof.
  intros Hsrc Hn Hk E. unfold encode_output_length. rewrite count_bits_run by (done || lia). cbn [mbind result_bind].
  set (n := 0 + zlen (codes _)). assert (8 * zlen out = n + Z.of_nat k) as Hlen.
  { apply (f_equal zlen) in E. unfold zlen at 1 in E. rewrite bytes_bits_length, zlen_app in E.
    unfold padding, zlen at 2 in E. rewrite length_replicate in E. unfold n, zlen in *. lia. }
  rewrite (land_ones_eq n 3) by done. change (2 ^ 3) with 8.
  pose proof (Z.div_mod n 8 ltac:(lia)). pose proof (Z.mod_pos_bound n 8 ltac:(lia)).
  replace (if negb (n mod 8 =? 0) then n / 8 + 1 else n / 8) with (zlen out); [done|].
  destruct (Z.eqb_spec (n mod 8) 0); cbn [negb]; lia.
Qed.
End encoder.

(** ** Theorems *)

Section theorems.
Import Huffman.

Lemma new_ok : dec_ok Decoder.new.
Proof. split; [cbn; lia|done]. Qed.

Lemma cased_ok lower src : bytes_ok src → Forall is_u8 (cased lower <$> src).
Proof.
  intros Hs. apply Forall_fmap. eapply Forall_impl; [exact Hs|]. intros b Hb. unfold compose, cased, to_ascii_lowercase, is_u8 in *.
  destruct lower; [|lia]. destruct (Z.leb_spec 65 b), (Z.leb_spec b 90); cbn [andb]; lia.
Qed.

(** Byte strings with the same codes and padding are equal. *)
Lemma padded_inj s bs1 bs2 k1 k2 :
  bytes_ok bs1 → bytes_ok bs2 → (k1 < 8)%nat → (k2 < 8)%nat →
  bytes_bits bs1 = codes s ++ padding k1 → bytes_bits bs2 = codes s ++ padding k2 → bs1 = bs2.
Proof.
  intros H1 H2 Hk1 Hk2 E1 E2. apply bytes_bits_inj; [done..|]. rewrite E1, E2. f_equal.
  apply (f_equal length) in E1, E2. unfold padding in *. rewrite bytes_bits_length, length_app, length_replicate in E1, E2. f_equal. lia.
Qed.

(** Decoding a whole buffer: what is accepted, and every padded string of codes is. *)
Lemma decode_of_codes bs s k :
  bytes_ok bs → Forall is_u8 s → (k < 8)%nat → bytes_bits bs = codes s ++ padding k →
  decode (mk_octets bs 0) = (Ok s, mk_octets bs (zlen bs)).
Proof.
  intros Hbs Hs Hk E. unfold decode. rewrite run_bind_get. cbn [o_buf].
  exact (decode_loop_codes (length bs) Decoder.new [] [] bs s k new_ok Hbs Hs Hk (Nat.le_refl _) E).
Qed.

Lemma wp_decode bs :
  bytes_ok bs →
  wp decode (λ s o', o' = mk_octets bs (zlen bs) ∧ Forall is_u8 s ∧ ∃ k, (k < 8)%nat ∧ bytes_bits bs = codes s ++ padding k)
    (λ e _, e = Qpack.InvalidHuffmanEncoding) (mk_octets bs 0).
Proof.
  intros Hbs. unfold decode. apply wp_bind, wp_get. cbn [o_buf].
  eapply wp_mono; [exact (decode_loop_inv (length bs) Decoder.new [] [] bs new_ok Hbs (Nat.le_refl _))|..]; cbv beta.
  - intros res o' (-> & s & k & -> & Hs & Hk & E). split_and!; [done|done|]. by exists k.
  - by intros e o' (-> & _).
Qed.

(** The bytes that [encode] writes for a string. *)
Lemma encode_spec lower src :
  bytes_ok src → 30 * zlen src <= u64_max →
  ∃ out k, writes (encode lower src) out ∧ bytes_ok out ∧ (k < 8)%nat ∧
    bytes_bits out = codes (cased lower <$> src) ++ padding k ∧
    encode_output_length lower src = (if zlen src <? zlen out then Err Qpack.InflatedHuffmanEncoding else Ok (zlen out)).
Proof.
  intros Hsrc Hlen. pose proof (cased_ok lower src Hsrc) as Hc. destruct (encode_writes lower src Hc) as (out & k & Hw & Hok & Hk & E).
  exists out, k. split_and!; [done..|]. by eapply output_length_run.
Qed.

(** C33. The Huffman code is a bijection between strings and the byte strings
    that the decoder accepts: the encoder writes, at the exact length that
    [encode_output_length] announces (unless that is more than the string
    itself), the one byte string that decodes to the string, with the letters
    lowered where the code asks for it; any other bytes (wrong padding, a code
    cut short, the end-of-string code) are refused or decode to another string,
    and no byte string makes the decoder panic. *)
Theorem huffman_exact lower src :
  bytes_ok src → 30 * zlen src <= u64_max →
  ∃ out, writes (encode lower src) out ∧ bytes_ok out ∧
    encode_output_length lower src = (if zlen src <? zlen out then Err Qpack.InflatedHuffmanEncoding else Ok (zlen out)) ∧
    (∀ bs, bytes_ok bs → ((decode (mk_octets bs 0)).1 = Ok (cased lower <$> src) ↔ bs = out)) ∧
    ∀ bs, bytes_ok bs → (∃ s, bytes_ok s ∧ decode (mk_octets bs 0) = (Ok s, mk_octets bs (zlen bs))) ∨
      (decode (mk_octets bs 0)).1 = Err Qpack.InvalidHuffmanEncoding.
Proof.
  intros Hsrc Hlen. destruct (encode_spec lower src Hsrc Hlen) as (out & k & Hw & Hok & Hk & E & Hl).
  exists out. split_and!; [done..| |].
  - intros bs Hbs. split; [|intros ->; by rewrite (decode_of_codes out _ k Hbs (cased_ok lower src Hsrc) Hk E)].
    intros Hd. pose proof (wp_decode bs Hbs) as Hwp. unfold wp in Hwp. destruct (decode _) as [[]]; [|done..].
    injection Hd as ->. destruct Hwp as (_ & _ & k' & Hk' & E'). exact (padded_inj _ bs out k' k Hbs Hok Hk' Hk E' E).
  - intros bs Hbs. pose proof (wp_decode bs Hbs) as Hwp. unfold wp in Hwp. destruct (decode _) as [[s|e|] o']; [..|done].
    + destruct Hwp as (-> & Hs & _). left. by exists s.
    + subst e. by right.
Qed.

(** "Www" lowered. *)
Lemma huffman_exact_witness :
  encode_output_length true [87; 119; 119] = Ok 3 ∧
  (∃ out, bytes_ok out ∧ ∀ bs, bytes_ok bs → ((decode (mk_octets bs 0)).1 = Ok [119; 119; 119] ↔ bs = out)) ∧
  decode (mk_octets [241; 227; 199] 0) = (Ok [119; 119; 119], mk_octets [241; 227; 199] 3).
Proof.
  split; [vm_compute; reflexivity|]. split; [|vm_compute; reflexivity].
  destruct (huffman_exact true [87; 119; 119]) as (out & _ & Hok & _ & Hd & _); [solve_bytes|unfold zlen; cbn; lia|].
  exists out. split; [exact Hok|exact Hd].
Defined.
End theorems.
