(* ===== verification/StaticTable.v ===== *)
(** * The static table of QPACK ([quiche/src/h3/qpack/static_table.rs])

    The table by index for the decoder, and by length of the name for the
    encoder. *)
From S2P Require Import Prelude.
From Stdlib Require Import Ascii String.

(** The bytes of an ASCII literal. *)
Definition ascii (s : string) : list Z := map (λ c, Z.of_N (N_of_ascii c)) (list_ascii_of_string s).

Module StaticTable.
Local Open Scope string_scope.

Definition STATIC_ENCODE_TABLE : list (list (list Z * list (list Z * Z))) := [
  (* length 0 *) [];
  (* length 1 *) [];
  (* length 2 *) [];
  (* length 3 *) [
    (ascii "age", [(ascii "0", 2)])];
  (* length 4 *) [
    (ascii "etag", [([], 7)]); (ascii "date", [([], 6)]); (ascii "link", [([], 11)]);
    (ascii "vary", [(ascii "accept-encoding", 59); (ascii "origin", 60)])];
  (* length 5 *) [
    (ascii "range", [(ascii "bytes=0-", 55)]); (ascii ":path", [(ascii "/", 1)])];
  (* length 6 *) [
    (ascii "cookie", [([], 5)]); (ascii "origin", [([], 90)]); (ascii "server", [([], 92)]);
    (ascii "accept", [(ascii "*/*", 29); (ascii "application/dns-message", 30)])];
  (* length 7 *) [
    (ascii "purpose", [(ascii "prefetch", 91)]); (ascii "referer", [([], 13)]);
    (ascii "alt-svc", [(ascii "clear", 83)]);
    (ascii ":status", [
      (ascii "103", 24); (ascii "200", 25); (ascii "304", 26); (ascii "404", 27); (ascii "503", 28);
      (ascii "100", 63); (ascii "204", 64); (ascii "206", 65); (ascii "302", 66); (ascii "400", 67);
      (ascii "403", 68); (ascii "421", 69); (ascii "425", 70); (ascii "500", 71)]);
    (ascii ":scheme", [(ascii "http", 22); (ascii "https", 23)]);
    (ascii ":method", [
      (ascii "CONNECT", 15); (ascii "DELETE", 16); (ascii "GET", 17); (ascii "HEAD", 18); (ascii "OPTIONS", 19);
      (ascii "POST", 20); (ascii "PUT", 21)])];
  (* length 8 *) [
    (ascii "location", [([], 12)]); (ascii "if-range", [([], 89)])];
  (* length 9 *) [
    (ascii "expect-ct", [([], 87)]); (ascii "forwarded", [([], 88)])];
  (* length 10 *) [
    (ascii "user-agent", [([], 95)]); (ascii ":authority", [([], 0)]); (ascii "set-cookie", [([], 14)]);
    (ascii "early-data", [(ascii "1", 86)])];
  (* length 11 *) [];
  (* length 12 *) [
    (ascii "content-type", [
      (ascii "application/dns-message", 44); (ascii "application/javascript", 45); (ascii "application/json", 46);
      (ascii "application/x-www-form-urlencoded", 47); (ascii "image/gif", 48); (ascii "image/jpeg", 49);
      (ascii "image/png", 50); (ascii "text/css", 51); (ascii "text/html; charset=utf-8", 52);
      (ascii "text/plain", 53); (ascii "text/plain;charset=utf-8", 54)])];
  (* length 13 *) [
    (ascii "last-modified", [([], 10)]); (ascii "accept-ranges", [(ascii "bytes", 32)]);
    (ascii "authorization", [([], 84)]); (ascii "if-none-match", [([], 9)]);
    (ascii "cache-control", [
      (ascii "max-age=0", 36); (ascii "max-age=2592000", 37); (ascii "max-age=604800", 38); (ascii "no-cache", 39);
      (ascii "no-store", 40); (ascii "public, max-age=31536000", 41)])];
  (* length 14 *) [
    (ascii "content-length", [(ascii "0", 4)])];
  (* length 15 *) [
    (ascii "accept-encoding", [(ascii "gzip, deflate, br", 31)]); (ascii "x-forwarded-for", [([], 96)]);
    (ascii "accept-language", [([], 72)]); (ascii "x-frame-options", [(ascii "deny", 97); (ascii "sameorigin", 98)])];
  (* length 16 *) [
    (ascii "content-encoding", [(ascii "br", 42); (ascii "gzip", 43)]);
    (ascii "x-xss-protection", [(ascii "1; mode=block", 62)])];
  (* length 17 *) [
    (ascii "if-modified-since", [([], 8)])];
  (* length 18 *) [];
  (* length 19 *) [
    (ascii "content-disposition", [([], 3)]); (ascii "timing-allow-origin", [(ascii "*", 93)])];
  (* length 20 *) [];
  (* length 21 *) [];
  (* length 22 *) [
    (ascii "x-content-type-options", [(ascii "nosniff", 61)])];
  (* length 23 *) [
    (ascii "content-security-policy", [(ascii "script-src 'none'; object-src 'none'; base-uri 'none'", 85)])];
  (* length 24 *) [];
  (* length 25 *) [
    (ascii "upgrade-insecure-requests", [(ascii "1", 94)]);
    (ascii "strict-transport-security", [
      (ascii "max-age=31536000", 56); (ascii "max-age=31536000; includesubdomains", 57);
      (ascii "max-age=31536000; includesubdomains; preload", 58)])];
  (* length 26 *) [];
  (* length 27 *) [
    (ascii "access-control-allow-origin", [(ascii "*", 35)])];
  (* length 28 *) [
    (ascii "access-control-allow-methods", [
      (ascii "get", 76); (ascii "get, post, options", 77); (ascii "options", 78)]);
    (ascii "access-control-allow-headers", [
      (ascii "cache-control", 33); (ascii "content-type", 34); (ascii "*", 75)])];
  (* length 29 *) [
    (ascii "access-control-expose-headers", [(ascii "content-length", 79)]);
    (ascii "access-control-request-method", [(ascii "get", 81); (ascii "post", 82)])];
  (* length 30 *) [
    (ascii "access-control-request-headers", [(ascii "content-type", 80)])];
  (* length 31 *) [];
  (* length 32 *) [
    (ascii "access-control-allow-credentials", [(ascii "FALSE", 73); (ascii "TRUE", 74)])]].

Definition STATIC_DECODE_TABLE : list (list Z * list Z) := [
  (ascii ":authority", []); (ascii ":path", ascii "/"); (ascii "age", ascii "0"); (ascii "content-disposition", []);
  (ascii "content-length", ascii "0"); (ascii "cookie", []); (ascii "date", []); (ascii "etag", []);
  (ascii "if-modified-since", []); (ascii "if-none-match", []); (ascii "last-modified", []); (ascii "link", []);
  (ascii "location", []); (ascii "referer", []); (ascii "set-cookie", []); (ascii ":method", ascii "CONNECT");
  (ascii ":method", ascii "DELETE"); (ascii ":method", ascii "GET"); (ascii ":method", ascii "HEAD");
  (ascii ":method", ascii "OPTIONS"); (ascii ":method", ascii "POST"); (ascii ":method", ascii "PUT");
  (ascii ":scheme", ascii "http"); (ascii ":scheme", ascii "https"); (ascii ":status", ascii "103");
  (ascii ":status", ascii "200"); (ascii ":status", ascii "304"); (ascii ":status", ascii "404");
  (ascii ":status", ascii "503"); (ascii "accept", ascii "*/*"); (ascii "accept", ascii "application/dns-message");
  (ascii "accept-encoding", ascii "gzip, deflate, br"); (ascii "accept-ranges", ascii "bytes");
  (ascii "access-control-allow-headers", ascii "cache-control");
  (ascii "access-control-allow-headers", ascii "content-type"); (ascii "access-control-allow-origin", ascii "*");
  (ascii "cache-control", ascii "max-age=0"); (ascii "cache-control", ascii "max-age=2592000");
  (ascii "cache-control", ascii "max-age=604800"); (ascii "cache-control", ascii "no-cache");
  (ascii "cache-control", ascii "no-store"); (ascii "cache-control", ascii "public, max-age=31536000");
  (ascii "content-encoding", ascii "br"); (ascii "content-encoding", ascii "gzip");
  (ascii "content-type", ascii "application/dns-message"); (ascii "content-type", ascii "application/javascript");
  (ascii "content-type", ascii "application/json");
  (ascii "content-type", ascii "application/x-www-form-urlencoded"); (ascii "content-type", ascii "image/gif");
  (ascii "content-type", ascii "image/jpeg"); (ascii "content-type", ascii "image/png");
  (ascii "content-type", ascii "text/css"); (ascii "content-type", ascii "text/html; charset=utf-8");
  (ascii "content-type", ascii "text/plain"); (ascii "content-type", ascii "text/plain;charset=utf-8");
  (ascii "range", ascii "bytes=0-"); (ascii "strict-transport-security", ascii "max-age=31536000");
  (ascii "strict-transport-security", ascii "max-age=31536000; includesubdomains");
  (ascii "strict-transport-security", ascii "max-age=31536000; includesubdomains; preload");
  (ascii "vary", ascii "accept-encoding"); (ascii "vary", ascii "origin");
  (ascii "x-content-type-options", ascii "nosniff"); (ascii "x-xss-protection", ascii "1; mode=block");
  (ascii ":status", ascii "100"); (ascii ":status", ascii "204"); (ascii ":status", ascii "206");
  (ascii ":status", ascii "302"); (ascii ":status", ascii "400"); (ascii ":status", ascii "403");
  (ascii ":status", ascii "421"); (ascii ":status", ascii "425"); (ascii ":status", ascii "500");
  (ascii "accept-language", []); (ascii "access-control-allow-credentials", ascii "FALSE");
  (ascii "access-control-allow-credentials", ascii "TRUE"); (ascii "access-control-allow-headers", ascii "*");
  (ascii "access-control-allow-methods", ascii "get");
  (ascii "access-control-allow-methods", ascii "get, post, options");
  (ascii "access-control-allow-methods", ascii "options");
  (ascii "access-control-expose-headers", ascii "content-length");
  (ascii "access-control-request-headers", ascii "content-type");
  (ascii "access-control-request-method", ascii "get"); (ascii "access-control-request-method", ascii "post");
  (ascii "alt-svc", ascii "clear"); (ascii "authorization", []);
  (ascii "content-security-policy", ascii "script-src 'none'; object-src 'none'; base-uri 'none'");
  (ascii "early-data", ascii "1"); (ascii "expect-ct", []); (ascii "forwarded", []); (ascii "if-range", []);
  (ascii "origin", []); (ascii "purpose", ascii "prefetch"); (ascii "server", []);
  (ascii "timing-allow-origin", ascii "*"); (ascii "upgrade-insecure-requests", ascii "1"); (ascii "user-agent", []);
  (ascii "x-forwarded-for", []); (ascii "x-frame-options", ascii "deny");
  (ascii "x-frame-options", ascii "sameorigin")].
End StaticTable.
