(* ===== verification/QpackCodec.v ===== *)
(** * QPACK header blocks ([quiche/src/h3/qpack/encoder.rs], [decoder.rs])

    The integers and strings of QPACK, the static table look-ups, the encoder
    and the decoder of header blocks, and the round trip of a list of headers. *)
From stdpp Require Import strings.
From S2P Require Import Prelude OctetsLib Readers Bits HuffTable Huffman StaticTable.

(** A header, and the names of [qpack/mod.rs]. *)
Module Header.
Record t := mk { name : list Z; value : list Z }.
End Header.

Definition INDEXED : Z := 128.
Definition INDEXED_WITH_POST_BASE : Z := 16.
Definition LITERAL : Z := 32.
Definition LITERAL_WITH_NAME_REF : Z := 64.

(** [u64::checked_shl]. *)
Definition checked_shl (v n : Z) : option Z := if n <? 64 then Some (Z.shiftl v n mod 2 ^ 64) else None.
Definition checked_add (a b : Z) : option Z := if a + b <=? u64_max then Some (a + b) else None.
Definition checked_sub (a b : Z) : option Z := if b <=? a then Some (a - b) else None.

(** [o.ok_or(e)?] *)
Definition ok_or {S E A} (o : option A) (e : E) : M S E A := match o with Some a => mret a | None => fail e end.

(** ** The encoder *)
Module Encoder.
Abbreviation Error := Qpack.Error.

(** [std::iter::zip(a, b).all(...)] *)
Fixpoint cmp_lowercase (a b : list Z) : bool :=
  match a, b with
  | x :: a, y :: b => (x =? to_ascii_lowercase y) && cmp_lowercase a b
  | _, _ => true
  end.

(** The loop over the values of a name. *)
Fixpoint match_value (values : list (list Z * Z)) (v : list Z) : option (Z * bool) :=
  match values with
  | [] => None
  | (value, enc) :: values =>
      if bool_decide (value = []) then Some (enc, false)
      else if bool_decide (v = value) then Some (enc, true)
      else match_value values v
  end.

(** The loop over the names of a length. *)
Fixpoint match_name (table : list (list Z * list (list Z * Z))) (h : Header.t) : option (Z * bool) :=
  match table with
  | [] => None
  | (name, values) :: table =>
      if cmp_lowercase name (Header.name h) then
        match match_value values (Header.value h) with
        | Some r => Some r
        | None => '(_, enc) ← head values; Some (enc, false)
        end
      else match_name table h
  end.

Definition lookup_static (h : Header.t) : option (Z * bool) :=
  table_for_len ← StaticTable.STATIC_ENCODE_TABLE !! length (Header.name h);
  match_name table_for_len h.

(** [while v >= 128] *)
Fixpoint encode_int_loop (fuel : nat) (v : Z) : M octets Error unit :=
  if 128 <=? v then
    match fuel with
    | O => panic
    | S fuel =>
        OctetsMut.put_u8 (as_u8 (v mod 128 + 128));;
        encode_int_loop fuel (Z.shiftr v 7)
    end
  else OctetsMut.put_u8 (as_u8 v);; mret ().

Definition encode_int (v first prefix : Z) : M octets Error unit :=
  let mask := 2 ^ prefix - 1 in
  if v <? mask then OctetsMut.put_u8 (Z.lor first (as_u8 v));; mret ()
  else
    OctetsMut.put_u8 (Z.lor first (as_u8 mask));;
    v ← lift (usub v mask);
    encode_int_loop 9 v.

Definition encode_str (LOWER_CASE : bool) (v : list Z) (first prefix : Z) : M octets Error unit :=
  match Huffman.encode_output_length LOWER_CASE v with
  | Ok len =>
      encode_int len (Z.lor first (Z.shiftl 1 prefix)) prefix;;
      Huffman.encode LOWER_CASE v
  | Err Qpack.InflatedHuffmanEncoding =>
      encode_int (zlen v) first prefix;;
      if LOWER_CASE then OctetsMut.put_bytes (to_ascii_lowercase <$> v) else OctetsMut.put_bytes v
  | Err e => fail e
  | Panic => panic
  end.

(** The body of the loop over the headers. *)
Definition encode_header (h : Header.t) : M octets Error unit :=
  match lookup_static h with
  | Some (idx, true) => encode_int idx (Z.lor INDEXED 0x40) 6
  | Some (idx, false) =>
      encode_int idx (Z.lor LITERAL_WITH_NAME_REF 0x10) 4;;
      encode_str false (Header.value h) 0 7
  | None =>
      encode_str true (Header.name h) LITERAL 3;;
      encode_str false (Header.value h) 0 7
  end.

Fixpoint encode_headers (headers : list Header.t) : M octets Error unit :=
  match headers with
  | [] => mret ()
  | h :: headers => encode_header h;; encode_headers headers
  end.

(** The length of the block, and the buffer that holds it. *)
Definition encode (headers : list Header.t) (out : list Z) : result Error Z * octets :=
  (encode_int 0 0 8;;
   encode_int 0 0 7;;
   encode_headers headers;;
   gets OctetsMut.off) (OctetsMut.with_slice out).
End Encoder.

(** ** The decoder *)
Module Decoder.
Abbreviation Error := Qpack.Error.

Inductive Representation := Indexed | IndexedWithPostBase | Literal | LiteralWithNameRef | LiteralWithPostBase.

Definition from_byte (b : Z) : Representation :=
  if Z.land b INDEXED =? INDEXED then Indexed
  else if Z.land b LITERAL_WITH_NAME_REF =? LITERAL_WITH_NAME_REF then LiteralWithNameRef
  else if Z.land b LITERAL =? LITERAL then Literal
  else if Z.land b INDEXED_WITH_POST_BASE =? INDEXED_WITH_POST_BASE then IndexedWithPostBase
  else LiteralWithPostBase.

Definition lookup_static (idx : Z) : result Error (list Z * list Z) :=
  if zlen StaticTable.STATIC_DECODE_TABLE <=? idx then Err Qpack.InvalidStaticTableIndex
  else index StaticTable.STATIC_DECODE_TABLE idx.

(** [while b.cap() > 0]; every turn reads a byte. *)
Fixpoint decode_int_loop (fuel : nat) (val shift : Z) : M octets Error Z :=
  c ← reads Octets.cap;
  if c =? 0 then fail Qpack.BufferTooShort
  else
    match fuel with
    | O => panic
    | S fuel =>
        byte ← Octets.get_u8;
        inc ← ok_or (checked_shl (Z.land byte 0x7f) shift) Qpack.BufferTooShort;
        val ← ok_or (checked_add val inc) Qpack.BufferTooShort;
        let shift := shift + 7 in
        if Z.land byte 0x80 =? 0 then mret val
        else decode_int_loop fuel val shift
    end.

Definition decode_int (prefix : Z) : M octets Error Z :=
  let mask := 2 ^ prefix - 1 in
  val ← Octets.get_u8;
  let val := Z.land val mask in
  if val <? mask then mret val
  else
    b ← get;
    decode_int_loop (length (o_buf b)) val 0.

(** [super::huffman::decode(&mut val)] on the bytes of a field. *)
Definition huffman_or_copy (huff : bool) (val : octets) : result Error (list Z) :=
  if huff then (Huffman.decode val).1 else Ok (Octets.to_vec val).

Definition decode_str : M octets Error (list Z) :=
  first ← Octets.peek_u8;
  let huff := Z.land first 0x80 =? 0x80 in
  len ← decode_int 7;
  val ← Octets.get_bytes len;
  lift (huffman_or_copy huff val).

(** [left.checked_sub((name.len() + value.len()) as u64).ok_or(..)?] *)
Definition take_left (left : Z) (name value : list Z) : M octets Error Z :=
  n ← lift (uadd (zlen name) (zlen value));
  ok_or (checked_sub left n) Qpack.HeaderListTooLarge.

(** One field line: the header and what is left of the size limit. *)
Definition decode_line (left : Z) : M octets Error (Z * Header.t) :=
  first ← Octets.peek_u8;
  match from_byte first with
  | Indexed =>
      let s := Z.land first 0x40 =? 0x40 in
      idx ← decode_int 6;
      if negb s then fail Qpack.InvalidHeaderValue
      else
        '(name, value) ← lift (lookup_static idx);
        left ← take_left left name value;
        mret (left, Header.mk name value)
  | IndexedWithPostBase =>
      _ ← decode_int 4;
      fail Qpack.InvalidHeaderValue
  | Literal =>
      b0 ← reads (λ b, index (Octets.as_ref b) 0);
      let name_huff := Z.land b0 0x08 =? 0x08 in
      name_len ← decode_int 3;
      name ← Octets.get_bytes name_len;
      name ← lift (huffman_or_copy name_huff name);
      value ← decode_str;
      left ← take_left left name value;
      mret (left, Header.mk name value)
  | LiteralWithNameRef =>
      let s := Z.land first 0x10 =? 0x10 in
      name_idx ← decode_int 4;
      value ← decode_str;
      if negb s then fail Qpack.InvalidHeaderValue
      else
        '(name, _) ← lift (lookup_static name_idx);
        left ← take_left left name value;
        mret (left, Header.mk name value)
  | LiteralWithPostBase => fail Qpack.InvalidHeaderValue
  end.

(** [while b.cap() > 0] *)
Fixpoint decode_lines (fuel : nat) (left : Z) (out : list Header.t) : M octets Error (list Header.t) :=
  c ← reads Octets.cap;
  if c =? 0 then mret out
  else
    match fuel with
    | O => panic
    | S fuel =>
        '(left, hdr) ← decode_line left;
        decode_lines fuel left (out ++ [hdr])
    end.

Definition decode (buf : list Z) (max_size : Z) : result Error (list Header.t) :=
  ((_ ← decode_int 8;
    _ ← decode_int 7;
    decode_lines (length buf) max_size []) (Octets.with_slice buf)).1.
End Decoder.

(** Examples of the tests. *)
Example encode_static_header :
  (Encoder.encode [Header.mk (ascii ":method"%string) (ascii "GET"%string)] [0; 0; 0]) = (Ok 3, mk_octets [0; 0; 209] 3).
Proof. vm_compute. reflexivity. Qed.
Example encode_int_1337 :
  Encoder.encode_int 1337 0 5 (mk_octets [0; 0; 0] 0) = (Ok (), mk_octets [31; 154; 10] 3) ∧
  (Decoder.decode_int 5 (mk_octets [31; 154; 10] 0)).1 = Ok 1337.
Proof. vm_compute. done. Qed.

(** ** Integers *)

(** The bytes of an integer, after a prefix of [prefix] bits in a byte whose
    upper bits are [first]. *)
Fixpoint enc_tail (fuel : nat) (v : Z) : list Z :=
  if 128 <=? v then
    match fuel with O => [] | S fuel => (v mod 128 + 128) :: enc_tail fuel (Z.shiftr v 7) end
  else [v].
Definition enc_int (v first prefix : Z) : list Z :=
  let mask := 2 ^ prefix - 1 in if v <? mask then [first + v] else (first + mask) :: enc_tail 9 (v - mask).

Section integers.

(** A byte with room for a prefix. *)
Definition room (first prefix : Z) : Prop := 3 <= prefix <= 8 ∧ ∃ a, 0 <= a < 2 ^ (8 - prefix) ∧ first = a * 2 ^ prefix.

Lemma room_byte first prefix x : room first prefix → 0 <= x < 2 ^ prefix →
  Z.lor first x = first + x ∧ is_u8 (first + x) ∧ (first + x) mod 2 ^ prefix = x.
Proof.
  intros (Hp & a & Ha & ->) Hx. rewrite lor_add by lia. split; [done|].
  assert (2 ^ 8 = 2 ^ (8 - prefix) * 2 ^ prefix) as E by (rewrite <- Z.pow_add_r by lia; f_equal; lia).
  change (2 ^ 8) with 256 in E. split; [unfold is_u8; nia|]. by rewrite Z.add_comm, Z.mod_add, Z.mod_small by lia.
Qed.

Lemma mask_bounds prefix : 3 <= prefix <= 8 → 7 <= 2 ^ prefix - 1 <= 255.
Proof.
  intros Hp. assert (2 ^ 3 <= 2 ^ prefix) by (apply Z.pow_le_mono_r; lia).
  assert (2 ^ prefix <= 2 ^ 8) by (apply Z.pow_le_mono_r; lia). change (2 ^ 3) with 8 in *. change (2 ^ 8) with 256 in *. lia.
Qed.

Lemma shiftr_7 v : Z.shiftr v 7 = v / 128.
Proof. by rewrite Z.shiftr_div_pow2. Qed.

Lemma enc_tail_writes fuel v : 0 <= v < 128 ^ Z.of_nat (S fuel) →
  writes (Encoder.encode_int_loop fuel v) (enc_tail fuel v) ∧ bytes_ok (enc_tail fuel v).
Proof.
  revert v. induction fuel as [|fuel IH]; intros v Hv; cbn [Encoder.encode_int_loop enc_tail].
  - change (128 ^ Z.of_nat 1) with 128 in Hv. rewrite (proj2 (Z.leb_gt 128 v)) by lia.
    assert (as_u8 v = v) as -> by (apply Z.mod_small; change (2 ^ 8) with 256; lia).
    assert (is_u8 v) by (unfold is_u8; lia). split; [|by apply Forall_singleton].
    rewrite <- (app_nil_r [v]). eapply writes_bind; [by apply put_u8_writes|intros _; apply writes_ret].
  - rewrite Nat2Z.inj_succ, Z.pow_succ_r in Hv by lia. destruct (Z.leb_spec 128 v) as [Hge|Hlt].
    + pose proof (Z.mod_pos_bound v 128 ltac:(lia)).
      assert (as_u8 (v mod 128 + 128) = v mod 128 + 128) as -> by (apply Z.mod_small; change (2 ^ 8) with 256; lia).
      assert (is_u8 (v mod 128 + 128)) by (unfold is_u8; lia). rewrite shiftr_7.
      destruct (IH (v / 128)) as [Hw Hb]; [split; [apply Z.div_pos; lia|apply Z.div_lt_upper_bound; lia]|].
      split; [|by constructor]. apply (writes_bind _ _ [v mod 128 + 128]); [by apply put_u8_writes|by intros _].
    + assert (as_u8 v = v) as -> by (apply Z.mod_small; change (2 ^ 8) with 256; lia).
      assert (is_u8 v) by (unfold is_u8; lia). split; [|by apply Forall_singleton].
      rewrite <- (app_nil_r [v]). eapply writes_bind; [by apply put_u8_writes|intros _; apply writes_ret].
Qed.

Lemma int_prefix_writes v first prefix :
  room first prefix → is_u64 v →
  writes (Encoder.encode_int v first prefix) (enc_int v first prefix) ∧ bytes_ok (enc_int v first prefix).
Proof.
  intros Hr Hv. unfold is_u64 in Hv. unfold Encoder.encode_int, enc_int. pose proof (mask_bounds prefix (proj1 Hr)) as Hm.
  set (mask := 2 ^ prefix - 1) in *. assert (2 ^ prefix = mask + 1) as Emask by (unfold mask; lia).
  assert (∀ x, 0 <= x <= mask → writes (OctetsMut.put_u8 (E:=Qpack.Error) (Z.lor first (as_u8 x))) [first + x] ∧ is_u8 (first + x)) as Hput.
  { intros x Hx. assert (as_u8 x = x) as -> by (apply Z.mod_small; change (2 ^ 8) with 256; lia).
    destruct (room_byte first prefix x Hr) as (-> & Hb & _); [lia|]. split; [by apply put_u8_writes|done]. }
  destruct (Z.ltb_spec v mask) as [Hlt|Hge].
  - destruct (Hput v) as [Hw Hb]; [lia|]. split; [|by apply Forall_singleton].
    rewrite <- (app_nil_r [_]). eapply writes_bind; [exact Hw|intros _; apply writes_ret].
  - destruct (Hput mask) as [Hw Hb]; [lia|].
    destruct (enc_tail_writes 9 (v - mask)) as [Hwt Hbt]; [change (128 ^ Z.of_nat 10) with 1180591620717411303424; lia|].
    split; [|by constructor]. apply (writes_bind _ _ [first + mask]); [exact Hw|intros _].
    rewrite usub_ok by lia. exact Hwt.
Qed.

Lemma enc_int_first v first prefix :
  room first prefix → 0 <= v → ∃ x tl, enc_int v first prefix = (first + x) :: tl ∧ 0 <= x < 2 ^ prefix.
Proof.
  intros Hr Hv. pose proof (mask_bounds prefix (proj1 Hr)). unfold enc_int. zcase; eexists _, _; (split; [reflexivity|lia]).
Qed.

(** One turn of the loop on a byte. *)
Lemma decode_turn fuel val shift x pre rest :
  0 <= x < 256 → 0 <= shift < 64 → 0 <= val → val + x mod 128 * 2 ^ shift <= u64_max →
  Decoder.decode_int_loop (S fuel) val shift (mk_octets (pre ++ x :: rest) (zlen pre)) =
  (if x <? 128 then mret (val + x mod 128 * 2 ^ shift)
   else Decoder.decode_int_loop fuel (val + x mod 128 * 2 ^ shift) (shift + 7)) (mk_octets (pre ++ x :: rest) (zlen pre + 1)).
Proof.
  intros Hx Hs Hval Hv. cbn [Decoder.decode_int_loop].
  rewrite (run_bind_ok _ _ _ _ _ (cap_run pre [x] rest)). rewrite !zlen_cons, zlen_nil.
  rewrite (proj2 (Z.eqb_neq _ _)) by (pose proof (zlen_nonneg rest); lia).
  rewrite (run_bind_ok _ _ _ _ _ (get_u8_parses x pre rest)). rewrite (land_ones_eq x 7 0x7f) by done. change (2 ^ 7) with 128.
  pose proof (Z.mod_pos_bound x 128 ltac:(lia)). assert (0 < 2 ^ shift) by (apply Z.pow_pos_nonneg; lia).
  unfold checked_shl. rewrite (proj2 (Z.ltb_lt shift 64)) by lia.
  rewrite Z.shiftl_mul_pow2, (Z.mod_small (_ * _)) by (try split; try nia; change (2 ^ 64) with 18446744073709551616; lia).
  cbn [ok_or]. rewrite run_bind_ret. unfold checked_add. rewrite (proj2 (Z.leb_le (val + _) _)) by done.
  cbn [ok_or]. rewrite run_bind_ret. replace (Z.land x 0x80 =? 0) with (x <? 128); [by destruct (x <? 128)|].
  change (Z.land x 0x80) with (Z.land x (2 ^ 7)). destruct (Z.ltb_spec x 128), (Z.eqb_spec (Z.land x (2 ^ 7)) 0) as [E|E]; try done.
  - destruct E. apply Z.bits_inj'. intros i Hi. rewrite Z.land_spec, Z.pow2_bits_eqb, Z.bits_0 by lia.
    destruct (Z.eqb_spec 7 i) as [<-|]; [|by rewrite andb_false_r]. rewrite andb_true_r.
    destruct (Z.eq_dec x 0) as [->|]; [done|]. apply Z.bits_above_log2; [lia|]. apply Z.log2_lt_pow2; [lia|]. change (2 ^ 7) with 128. lia.
  - apply (f_equal (λ y, Z.testbit y 7)) in E. rewrite Z.land_spec, Z.pow2_bits_true, Z.bits_0, andb_true_r in E by lia.
    apply Z.testbit_false in E; [|lia]. change (2 ^ 7) with 128 in E. exfalso.
    assert (x / 128 = 1) as E1 by (symmetry; apply (Z.div_unique x 128 1 (x - 128)); lia). rewrite E1 in E. done.
Qed.

Lemma decode_tail gas fuel val shift v pre rest :
  0 <= v < 128 ^ Z.of_nat (S gas) → 0 <= shift < 64 → 0 <= val → val + v * 2 ^ shift <= u64_max →
  (length (enc_tail gas v) <= fuel)%nat →
  Decoder.decode_int_loop fuel val shift (mk_octets (pre ++ enc_tail gas v ++ rest) (zlen pre)) =
  (Ok (val + v * 2 ^ shift), mk_octets (pre ++ enc_tail gas v ++ rest) (zlen pre + zlen (enc_tail gas v))).
Proof.
  revert fuel val shift v pre. induction gas as [|gas IH]; intros fuel val shift v pre Hv Hs Hval Hmax Hfuel; cbn [enc_tail] in *.
  all: assert (0 < 2 ^ shift) by (apply Z.pow_pos_nonneg; lia).
  all: destruct (Z.leb_spec 128 v) as [Hge|Hlt]; [try (change (128 ^ Z.of_nat 1) with 128 in Hv; lia)|].
  1, 3: destruct fuel as [|fuel]; [cbn in Hfuel; lia|]; cbn [app]; rewrite decode_turn by (rewrite ?Z.mod_small; lia);
    rewrite (proj2 (Z.ltb_lt v 128)), Z.mod_small by lia; done.
  destruct fuel as [|fuel]; [cbn in Hfuel; lia|]. cbn [app]. rewrite shiftr_7 in *.
  pose proof (Z.div_mod v 128 ltac:(lia)) as Hd. pose proof (Z.mod_pos_bound v 128 ltac:(lia)).
  assert (0 < v / 128) by (apply Z.div_str_pos; lia). set (q := v / 128) in *. set (r := v mod 128) in *.
  assert ((r + 128) mod 128 = r) as Er by (change 128 with (1 * 128) at 1; rewrite Z.mod_add by lia; apply Z.mod_small; lia).
  assert (2 ^ (shift + 7) = 128 * 2 ^ shift) as Ep by (rewrite Z.pow_add_r by lia; change (2 ^ 7) with 128; lia).
  assert (val + r * 2 ^ shift + q * 2 ^ (shift + 7) = val + v * 2 ^ shift) as Ev by (rewrite Ep, Hd; lia).
  assert (shift + 7 < 64) as Hs7.
  { destruct (Z.lt_ge_cases (shift + 7) 64) as [|Hbig]; [done|]. exfalso.
    assert (2 ^ 64 <= 2 ^ (shift + 7)) as Hpow by (apply Z.pow_le_mono_r; lia). change (2 ^ 64) with 18446744073709551616 in Hpow. nia. }
  rewrite decode_turn by (rewrite ?Er; try lia; nia). rewrite Er, (proj2 (Z.ltb_ge (r + 128) 128)) by lia.
  replace (pre ++ r + 128 :: enc_tail gas q ++ rest) with ((pre ++ [r + 128]) ++ enc_tail gas q ++ rest) by by rewrite <- app_assoc.
  replace (zlen pre + 1) with (zlen (pre ++ [r + 128])) by by rewrite zlen_app.
  rewrite IH; [|split; [lia|]|lia|nia|lia|cbn in Hfuel; lia].
  - rewrite Ev, zlen_app, !zlen_cons, zlen_nil. do 2 f_equal. lia.
  - rewrite Nat2Z.inj_succ, Z.pow_succ_r in Hv by lia. nia.
Qed.

Lemma decode_int_parses v first prefix :
  room first prefix → is_u64 v → parses (Decoder.decode_int prefix) (enc_int v first prefix) v.
Proof.
  intros Hr Hv pre rest. unfold is_u64 in Hv. unfold Decoder.decode_int, enc_int.
  pose proof (mask_bounds prefix (proj1 Hr)) as Hm. set (mask := 2 ^ prefix - 1) in *.
  assert (2 ^ prefix = mask + 1) as Emask by (unfold mask; lia).
  assert (∀ y, Z.land y mask = y mod 2 ^ prefix) as Hland by (intros y; apply land_ones_eq; [destruct Hr; lia|rewrite Z.ones_equiv; lia]).
  destruct (Z.ltb_spec v mask) as [Hlt|Hge]; cbn [app].
  - rewrite (run_bind_ok _ _ _ _ _ (get_u8_parses (first + v) pre rest)), Hland.
    destruct (room_byte first prefix v Hr) as (_ & _ & ->); [lia|]. by rewrite (proj2 (Z.ltb_lt v mask)).
  - set (tl := enc_tail 9 (v - mask)).
    rewrite (run_bind_ok _ _ _ _ _ (get_u8_parses (first + mask) pre (tl ++ rest))), Hland.
    destruct (room_byte first prefix mask Hr) as (_ & _ & ->); [lia|]. rewrite (proj2 (Z.ltb_ge mask mask)) by lia.
    rewrite run_bind_get. cbn [o_buf].
    replace (pre ++ first + mask :: tl ++ rest) with ((pre ++ [first + mask]) ++ tl ++ rest) by by rewrite <- app_assoc.
    change (mk_octets (pre ++ [first + mask] ++ tl ++ rest) (zlen pre + zlen [first + mask]))
      with (mk_octets (pre ++ ([first + mask] ++ tl ++ rest)) (zlen pre + zlen [first + mask])).
    rewrite (app_assoc pre [first + mask]), <- zlen_app.
    unfold tl. rewrite decode_tail.
    + rewrite (zlen_app pre), (zlen_cons (first + mask) (enc_tail _ _)), (zlen_cons (first + mask) []).
      change (zlen (@nil Z)) with 0. change (2 ^ 0) with 1. f_equal; [f_equal; lia|]. f_equal. lia.
    + change (128 ^ Z.of_nat 10) with 1180591620717411303424. lia.
    + lia.
    + lia.
    + change (2 ^ 0) with 1. lia.
    + rewrite !length_app. lia.
Qed.
End integers.

(** ** Outcomes of a parser on given bytes *)

(** [m] reads exactly [bs] and ends with [r], which may be an error. *)
Definition yields {A} (m : M octets Qpack.Error A) (bs : list Z) (r : result Qpack.Error A) : Prop :=
  ∀ pre rest, m (mk_octets (pre ++ bs ++ rest) (zlen pre)) = (r, mk_octets (pre ++ bs ++ rest) (zlen pre + zlen bs)).

Lemma yields_bind {A B} (m : M octets Qpack.Error A) (k : A → M octets Qpack.Error B) b1 b2 a r :
  parses m b1 a → yields (k a) b2 r → yields (m ≫= k) (b1 ++ b2) r.
Proof.
  intros Hm Hk pre rest. rewrite <- app_assoc. rewrite (run_bind_ok _ _ _ _ _ (Hm pre (b2 ++ rest))).
  specialize (Hk (pre ++ b1) rest). rewrite <- !app_assoc, zlen_app in Hk. rewrite Hk, zlen_app. do 2 f_equal. lia.
Qed.

Lemma yields_lift {A B} (x : result Qpack.Error A) (k : A → M octets Qpack.Error B) a bs r :
  x = Ok a → yields (k a) bs r → yields (lift x ≫= k) bs r.
Proof. intros Hx Hk pre rest. rewrite (run_bind_lift _ _ _ _ Hx). apply Hk. Qed.

Lemma yields_here {A} (m : M octets Qpack.Error A) r : (∀ o, m o = (r, o)) → yields m [] r.
Proof. intros Hm pre rest. rewrite Hm. by rewrite zlen_nil, Z.add_0_r. Qed.

Lemma yields_peek {A} (k : Z → M octets Qpack.Error A) x bs r :
  head bs = Some x → yields (k x) bs r → yields (Octets.peek_u8 ≫= k) bs r.
Proof.
  intros Hx Hk pre rest. destruct bs as [|x' tl]; [done|]. injection Hx as ->.
  erewrite run_bind_ok by (apply (peek_u_prefix 1 pre (x :: tl) rest); rewrite zlen_cons; pose proof (zlen_nonneg tl); lia).
  apply Hk.
Qed.

(** [b.as_ref()[0]] *)
Lemma yields_first {A} (k : Z → M octets Qpack.Error A) x bs r :
  head bs = Some x → yields (k x) bs r → yields (reads (λ b, index (Octets.as_ref b) 0) ≫= k) bs r.
Proof.
  intros Hx Hk pre rest. destruct bs as [|x' tl]; [done|]. injection Hx as ->.
  rewrite (run_bind_reads _ _ _ x); [apply Hk|]. unfold Octets.as_ref, index. cbn [o_buf o_off]. by rewrite zdrop_app.
Qed.

(** Facts about the bits of a byte, by enumeration. *)
Lemma every_byte (f : Z → bool) x : forallb f bytes_256 = true → is_u8 x → f x = true.
Proof. intros Hall Hx. rewrite forallb_forall in Hall. apply Hall, list_elem_of_In. by apply in_bytes_256. Qed.

(** Decide a fact on the byte [x] that holds for all bytes. *)
Ltac by_bytes x :=
  match goal with |- ?l = ?r =>
    let f := eval pattern x in (Bool.eqb l r) in
    match f with ?g _ => apply Bool.eqb_true_iff, (every_byte g x); [vm_compute; reflexivity|assumption] end
  end.

Lemma byte_huff x : is_u8 x → (Z.land x 0x80 =? 0x80) = (128 <=? x).
Proof. intros Hx. by_bytes x. Qed.
Lemma byte_static x : is_u8 x → (Z.land x 0x40 =? 0x40) = (64 <=? x mod 128).
Proof. intros Hx. by_bytes x. Qed.
Lemma byte_name_static x : is_u8 x → (Z.land x 0x10 =? 0x10) = (16 <=? x mod 32).
Proof. intros Hx. by_bytes x. Qed.
Lemma byte_name_huff x : is_u8 x → (Z.land x 0x08 =? 0x08) = (8 <=? x mod 16).
Proof. intros Hx. by_bytes x. Qed.
Lemma from_byte_eq x : is_u8 x →
  Decoder.from_byte x = if 128 <=? x then Decoder.Indexed else if 64 <=? x then Decoder.LiteralWithNameRef
    else if 32 <=? x then Decoder.Literal else if 16 <=? x then Decoder.IndexedWithPostBase else Decoder.LiteralWithPostBase.
Proof.
  intros Hx. unfold Decoder.from_byte, INDEXED, LITERAL_WITH_NAME_REF, LITERAL, INDEXED_WITH_POST_BASE.
  assert ((Z.land x 128 =? 128) = (128 <=? x)) as -> by by_bytes x. zcase; [done|].
  assert ((Z.land x 64 =? 64) = (64 <=? x mod 128)) as -> by by_bytes x. rewrite Z.mod_small by (unfold is_u8 in Hx; lia). zcase; [done|].
  assert ((Z.land x 32 =? 32) = (32 <=? x mod 64)) as -> by by_bytes x. rewrite Z.mod_small by (unfold is_u8 in Hx; lia). zcase; [done|].
  assert ((Z.land x 16 =? 16) = (16 <=? x mod 32)) as -> by by_bytes x. rewrite Z.mod_small by (unfold is_u8 in Hx; lia). by zcase.
Qed.

Lemma zlen_enc_int v first prefix : zlen (enc_int v first prefix) <= 11.
Proof.
  assert (∀ n v, zlen (enc_tail n v) <= Z.of_nat n + 1) as Ht.
  { induction n as [|n IH]; intros w; cbn [enc_tail]; case_match; rewrite ?zlen_cons, ?zlen_nil; [lia|lia| |lia].
    specialize (IH (Z.shiftr w 7)). lia. }
  unfold enc_int. specialize (Ht 9%nat (v - (2 ^ prefix - 1))). destruct (_ <? _); rewrite !zlen_cons, ?zlen_nil; lia.
Qed.

(** ** Strings *)

Definition str_ok (s : list Z) : Prop := bytes_ok s ∧ 30 * zlen s <= u64_max.

Section strings.

(** What [encode_str] writes: a flag above the prefix, the length and the bytes. *)
Lemma encode_str_writes lower v first prefix :
  str_ok v → room first (prefix + 1) → 3 <= prefix →
  ∃ (huff : bool) data,
    let bs := enc_int (zlen data) (first + if huff then 2 ^ prefix else 0) prefix ++ data in
    room (first + if huff then 2 ^ prefix else 0) prefix ∧ is_u64 (zlen data) ∧
    writes (Encoder.encode_str lower v first prefix) bs ∧ bytes_ok bs ∧
    Decoder.huffman_or_copy huff (mk_octets data 0) = Ok (Huffman.cased lower <$> v) ∧ zlen data <= zlen v.
Proof.
  intros (Hv & Hlen) (Hp & a & Ha & Hf) Hp3. pose proof (zlen_nonneg v).
  assert (2 ^ (prefix + 1) = 2 * 2 ^ prefix) as Ep by (rewrite Z.pow_add_r by lia; lia).
  assert (2 ^ (8 - prefix) = 2 * 2 ^ (8 - (prefix + 1))) as Eq by (rewrite <- (Z.pow_add_r 2 1) by lia; f_equal; lia).
  assert (0 < 2 ^ prefix) by (apply Z.pow_pos_nonneg; lia).
  assert (∀ x : bool, room (first + if x then 2 ^ prefix else 0) prefix) as Hroom.
  { intros x. split; [lia|]. exists (2 * a + if x then 1 else 0). rewrite Hf, Ep. destruct x; split; lia. }
  destruct (encode_spec lower v Hv Hlen) as (out & k & Hw & Hok & Hk & E & Hl). unfold Encoder.encode_str. rewrite Hl.
  pose proof (zlen_nonneg out). destruct (Z.ltb_spec (zlen v) (zlen out)).
  - exists false, (Huffman.cased lower <$> v). assert (zlen (Huffman.cased lower <$> v) = zlen v) as -> by (unfold zlen; by rewrite length_fmap).
    cbn zeta. assert (is_u64 (zlen v)) by (unfold is_u64; lia).
    destruct (int_prefix_writes (zlen v) first prefix) as [Hwi Hbi]; [|done|].
    { specialize (Hroom false). cbv iota in Hroom. by rewrite Z.add_0_r in Hroom. }
    rewrite Z.add_0_r. split_and!; [by rewrite <- (Z.add_0_r first); apply (Hroom false)|done| |apply Forall_app_2; [done|by apply cased_ok]|done|lia].
    eapply writes_bind; [exact Hwi|intros _]. destruct lower; [apply put_bytes_writes|].
    rewrite list_fmap_id. apply put_bytes_writes.
  - exists true, out. cbn zeta. assert (is_u64 (zlen out)) by (unfold is_u64; lia).
    destruct (int_prefix_writes (zlen out) (first + 2 ^ prefix) prefix) as [Hwi Hbi]; [by apply (Hroom true)|done|].
    split_and!; [by apply (Hroom true)|done| |by apply Forall_app_2| |lia].
    + eapply writes_bind; [|intros _; exact Hw].
      rewrite Z.shiftl_mul_pow2, Z.mul_1_l by lia. rewrite Hf, lor_add by lia. by rewrite <- Hf.
    + unfold Decoder.huffman_or_copy. by rewrite (decode_of_codes out _ k Hok (cased_ok lower v Hv) Hk E).
Qed.

Lemma decode_str_parses (huff : bool) data s :
  is_u64 (zlen data) → Decoder.huffman_or_copy huff (mk_octets data 0) = Ok s →
  parses Decoder.decode_str (enc_int (zlen data) (0 + if huff then 2 ^ 7 else 0) 7 ++ data) s.
Proof.
  intros Hl Hs. set (first := 0 + if huff then 2 ^ 7 else 0).
  assert (room first 7) as Hr. { split; [lia|]. exists (if huff then 1 else 0). by destruct huff. }
  destruct (enc_int_first (zlen data) first 7 Hr) as (x & tl & E & Hx); [apply Hl|].
  destruct (room_byte first 7 x Hr Hx) as (_ & Hb & _).
  pose proof (decode_int_parses (zlen data) first 7 Hr Hl) as Hint. rewrite E in Hint |- *.
  eapply yields_peek; [reflexivity|]. rewrite byte_huff by done. change (2 ^ 7) with 128 in Hx.
  replace (128 <=? first + x) with huff by (unfold first; change (2 ^ 7) with 128; destruct huff; zcase; done || lia).
  eapply yields_bind; [exact Hint|]. rewrite <- (app_nil_r data) at 2. eapply yields_bind; [by apply get_bytes_parses|].
  apply yields_here. intros o. unfold lift. by rewrite Hs.
Qed.
End strings.

(** ** The static table *)

Definition lower (h : Header.t) : Header.t := Header.mk (to_ascii_lowercase <$> Header.name h) (Header.value h).
Definition header_size (h : Header.t) : Z := zlen (Header.name h) + zlen (Header.value h).
Definition header_ok (h : Header.t) : Prop := str_ok (Header.name h) ∧ str_ok (Header.value h).

Section static_table.
Import StaticTable.

(** The entry for an index, as the encoder uses it. *)
Definition check_entry (name : list Z) (e : list Z * Z) : bool :=
  let '(value, enc) := e in
  (0 <=? enc) &&
  match STATIC_DECODE_TABLE !! Z.to_nat enc with
  | Some (n, v) => bool_decide (n = name) && (bool_decide (value = []) || bool_decide (v = value))
  | None => false
  end.
Definition check_table (row : nat * list (list Z * list (list Z * Z))) : bool :=
  forallb (λ '(name, values), (length name =? row.1)%nat && forallb (check_entry name) values) row.2.

Lemma tables_ok : forallb check_table (imap pair STATIC_ENCODE_TABLE) = true.
Proof. vm_compute. reflexivity. Qed.

Lemma cmp_lowercase_eq a b : length a = length b → Encoder.cmp_lowercase a b = true → a = to_ascii_lowercase <$> b.
Proof.
  revert b. induction a as [|x a IH]; intros [|y b] Hl Hc; try done. cbn in Hc. apply andb_true_iff in Hc as [Hx Hc].
  apply Z.eqb_eq in Hx as ->. cbn. f_equal. apply IH; [by injection Hl|done].
Qed.

(** An index that the encoder may send for a header. *)
Definition entry_for (h : Header.t) (r : Z * bool) : Prop :=
  ∃ v, 0 <= r.1 ∧ STATIC_DECODE_TABLE !! Z.to_nat r.1 = Some (to_ascii_lowercase <$> Header.name h, v) ∧ (r.2 = true → v = Header.value h).

Lemma check_entry_for h value enc (full : bool) :
  check_entry (to_ascii_lowercase <$> Header.name h) (value, enc) = true →
  (full = true → value ≠ [] ∧ Header.value h = value) → entry_for h (enc, full).
Proof.
  intros Hc Hf. unfold check_entry in Hc. apply andb_true_iff in Hc as [Hle Hc].
  destruct (STATIC_DECODE_TABLE !! Z.to_nat enc) as [[n v]|] eqn:Hd; [|done].
  apply andb_true_iff in Hc as [Hn Hv]. apply bool_decide_eq_true in Hn as ->. exists v. cbn [fst snd].
  split_and!; [by apply Z.leb_le|done|]. intros Hfull. destruct (Hf Hfull) as [Hne <-].
  apply orb_true_iff in Hv as [Hv|Hv]; apply bool_decide_eq_true in Hv; done.
Qed.

Lemma match_value_spec h values r :
  forallb (check_entry (to_ascii_lowercase <$> Header.name h)) values = true →
  Encoder.match_value values (Header.value h) = Some r → entry_for h r.
Proof.
  induction values as [|[value enc] values IH]; intros Hc Hm; [done|]. cbn [forallb] in Hc. apply andb_true_iff in Hc as [He Hc].
  cbn [Encoder.match_value] in Hm. case_bool_decide as H1; [injection Hm as <-; by apply (check_entry_for h value)|].
  case_bool_decide as H2; [injection Hm as <-; by apply (check_entry_for h value)|by apply IH].
Qed.

Lemma lookup_static_spec h r : Encoder.lookup_static h = Some r → entry_for h r.
Proof.
  intros Hl. unfold Encoder.lookup_static in Hl. apply bind_Some in Hl as (table & Htable & Hm).
  pose proof tables_ok as Hall. rewrite forallb_forall in Hall.
  assert (check_table (length (Header.name h), table) = true) as Hc.
  { apply Hall, list_elem_of_In, list_elem_of_lookup. exists (length (Header.name h)). by rewrite list_lookup_imap, Htable. }
  unfold check_table in Hc. cbn [fst snd] in Hc. clear Hall Htable. induction table as [|[name values] table IH]; [done|].
  cbn [forallb] in Hc. rewrite !andb_true_iff in Hc. destruct Hc as [[Hlen Hv] Hc]. apply Nat.eqb_eq in Hlen.
  cbn [Encoder.match_name] in Hm. destruct (Encoder.cmp_lowercase name (Header.name h)) eqn:Hcmp; [|by apply IH].
  apply cmp_lowercase_eq in Hcmp; [subst name|done].
  destruct (Encoder.match_value values (Header.value h)) as [r'|] eqn:Hmv.
  - injection Hm as ->. by eapply match_value_spec.
  - destruct values as [|[value enc] values]; [done|]. injection Hm as <-. cbn [forallb] in Hv. apply andb_true_iff in Hv as [Hv _].
    by apply (check_entry_for h value).
Qed.

Lemma entry_index h idx full : entry_for h (idx, full) →
  0 <= idx < 99 ∧ ∃ v, Decoder.lookup_static idx = Ok (to_ascii_lowercase <$> Header.name h, v) ∧ (full = true → v = Header.value h).
Proof.
  intros (v & H0 & Hd & Hv). cbn [fst snd] in *. pose proof (lookup_lt_Some _ _ _ Hd) as Hlt.
  change (length STATIC_DECODE_TABLE) with 99%nat in Hlt. split; [lia|]. exists v. split; [|done].
  unfold Decoder.lookup_static. change (zlen STATIC_DECODE_TABLE) with 99. rewrite (proj2 (Z.leb_gt 99 idx)) by lia. by apply index_ok.
Qed.
End static_table.

(** ** Header blocks *)

Section blocks.

(** The outcome for one header under the limit [left]. *)
Definition limited (left : Z) (h : Header.t) : result Qpack.Error (Z * Header.t) :=
  if header_size h <=? left then Ok (left - header_size h, lower h) else Err Qpack.HeaderListTooLarge.

Lemma size_lower h : header_size (lower h) = header_size h.
Proof. unfold header_size, lower, zlen. cbn. by rewrite length_fmap. Qed.

Lemma header_size_ok h : header_ok h → 0 <= header_size h <= u64_max.
Proof. intros [[_ H1] [_ H2]]. pose proof (zlen_nonneg (Header.name h)). pose proof (zlen_nonneg (Header.value h)). unfold header_size. lia. Qed.

Lemma yields_limit left h :
  header_ok h →
  yields (left ← Decoder.take_left left (to_ascii_lowercase <$> Header.name h) (Header.value h);
          mret (left, Header.mk (to_ascii_lowercase <$> Header.name h) (Header.value h))) [] (limited left h).
Proof.
  intros Hh. apply yields_here. intros o. pose proof (header_size_ok h Hh) as Hs. rewrite <- size_lower in Hs.
  unfold limited. rewrite <- size_lower. unfold header_size, lower in *. cbn [Header.name Header.value] in *.
  unfold Decoder.take_left. rewrite run_bind_assoc, (run_bind_lift _ _ _ _ (uadd_ok _ _ (proj2 Hs))). unfold checked_sub. by zcase.
Qed.

(** The bytes of a header: what the encoder writes and the decoder reads. *)
Definition wire (h : Header.t) (bs : list Z) : Prop :=
  writes (Encoder.encode_header h) bs ∧ bytes_ok bs ∧ bs ≠ [] ∧ (∀ left, yields (Decoder.decode_line left) bs (limited left h)) ∧
  zlen bs <= header_size h + 30.

Lemma wire_indexed h idx : header_ok h → Encoder.lookup_static h = Some (idx, true) → ∃ bs, wire h bs.
Proof.
  intros Hh Hl. destruct (entry_index _ _ _ (lookup_static_spec _ _ Hl)) as (Hidx & v & Hd & Hv).
  assert (room 192 6) as Hr by (split; [lia|]; by exists 3). assert (is_u64 idx) as Hu by (unfold is_u64; lia).
  destruct (int_prefix_writes idx 192 6 Hr Hu) as [Hw Hb].
  destruct (enc_int_first idx 192 6 Hr (proj1 Hidx)) as (x & tl & E & Hx). destruct (room_byte 192 6 x Hr Hx) as (_ & Hx8 & _).
  change (2 ^ 6) with 64 in Hx. exists (enc_int idx 192 6). unfold wire, Encoder.encode_header. rewrite Hl.
  split_and!; [exact Hw|done|by rewrite E| |pose proof (zlen_enc_int idx 192 6); pose proof (header_size_ok h Hh); lia]. intros left. unfold Decoder.decode_line.
  eapply yields_peek; [by rewrite E|]. rewrite from_byte_eq, byte_static by done. rewrite (proj2 (Z.leb_le 128 _)) by lia.
  replace ((192 + x) mod 128) with (64 + x) by (symmetry; replace (192 + x) with (64 + x + 1 * 128) by lia; rewrite Z.mod_add, Z.mod_small; lia).
  rewrite (proj2 (Z.leb_le 64 _)) by lia. cbn [negb]. rewrite <- (app_nil_r (enc_int _ _ _)).
  eapply yields_bind; [by apply decode_int_parses|]. eapply yields_lift; [exact Hd|]. rewrite Hv by done. by apply yields_limit.
Qed.

(** The value of a header, as both literal forms end. *)
Lemma value_writes h : header_ok h →
  ∃ bs, writes (Encoder.encode_str false (Header.value h) 0 7) bs ∧ bytes_ok bs ∧ parses Decoder.decode_str bs (Header.value h) ∧
    zlen bs <= 11 + zlen (Header.value h).
Proof.
  intros [_ Hv]. destruct (encode_str_writes false (Header.value h) 0 7 Hv) as (huff & data & _ & Hl & Hw & Hb & Hc & Hz).
  { split; [lia|]. by exists 0. } { lia. }
  eexists. split_and!; [exact Hw|exact Hb| |rewrite zlen_app; match goal with |- zlen (enc_int ?v ?f ?p) + _ <= _ => pose proof (zlen_enc_int v f p) end; lia]. apply decode_str_parses; [done|]. rewrite Hc. f_equal. apply list_fmap_id.
Qed.

Lemma wire_name_ref h idx : header_ok h → Encoder.lookup_static h = Some (idx, false) → ∃ bs, wire h bs.
Proof.
  intros Hh Hl. destruct (entry_index _ _ _ (lookup_static_spec _ _ Hl)) as (Hidx & v & Hd & _).
  destruct (value_writes h Hh) as (vs & Hwv & Hbv & Hpv & Hzv).
  assert (room 80 4) as Hr by (split; [lia|]; by exists 5). assert (is_u64 idx) as Hu by (unfold is_u64; lia).
  destruct (int_prefix_writes idx 80 4 Hr Hu) as [Hw Hb].
  destruct (enc_int_first idx 80 4 Hr (proj1 Hidx)) as (x & tl & E & Hx). destruct (room_byte 80 4 x Hr Hx) as (_ & Hx8 & _).
  change (2 ^ 4) with 16 in Hx. exists (enc_int idx 80 4 ++ vs). unfold wire, Encoder.encode_header. rewrite Hl.
  split_and!; [eapply writes_bind; [exact Hw|by intros _]|by apply Forall_app_2|by rewrite E| |].
  2: { pose proof (zlen_enc_int idx 80 4). pose proof (zlen_nonneg (Header.name h)). rewrite zlen_app. unfold header_size. lia. }
  intros left. unfold Decoder.decode_line.
  eapply yields_peek; [by rewrite E|]. rewrite from_byte_eq, byte_name_static by done. rewrite (proj2 (Z.leb_gt 128 _)), (proj2 (Z.leb_le 64 _)) by lia.
  replace ((80 + x) mod 32) with (16 + x) by (symmetry; replace (80 + x) with (16 + x + 2 * 32) by lia; rewrite Z.mod_add, Z.mod_small; lia).
  rewrite (proj2 (Z.leb_le 16 _)) by lia. cbn [negb].
  eapply yields_bind; [by apply decode_int_parses|]. rewrite <- (app_nil_r vs). eapply yields_bind; [exact Hpv|].
  eapply yields_lift; [exact Hd|]. by apply yields_limit.
Qed.

Lemma wire_literal h : header_ok h → Encoder.lookup_static h = None → ∃ bs, wire h bs.
Proof.
  intros Hh Hl. destruct (value_writes h Hh) as (vs & Hwv & Hbv & Hpv & Hzv).
  destruct (encode_str_writes true (Header.name h) LITERAL 3 (proj1 Hh)) as (huff & data & Hr & Hu & Hw & Hb & Hc & Hz).
  { split; [lia|]. by exists 2. } { lia. }
  cbn zeta in *. set (first := LITERAL + _) in *. set (ns := enc_int (zlen data) first 3) in *.
  destruct (enc_int_first (zlen data) first 3 Hr (proj1 Hu)) as (x & tl & E & Hx). destruct (room_byte first 3 x Hr Hx) as (_ & Hx8 & _).
  assert (parses (Decoder.decode_int 3) ns (zlen data)) as Hint by by apply decode_int_parses.
  change (2 ^ 3) with 8 in Hx. exists ((ns ++ data) ++ vs). unfold wire, Encoder.encode_header. rewrite Hl.
  assert (ns ≠ []) as Hne by (unfold ns; by rewrite E). assert (head ((ns ++ data) ++ vs) = Some (first + x)) as Hhd by (unfold ns; by rewrite E).
  assert (first = if huff then 40 else 32) as Ef by (unfold first; by destruct huff).
  split_and!; [eapply writes_bind; [exact Hw|by intros _]|by apply Forall_app_2|by destruct ns| |].
  2: { pose proof (zlen_enc_int (zlen data) first 3). unfold header_size. rewrite !zlen_app. unfold ns. lia. }
  intros left. unfold Decoder.decode_line.
  eapply yields_peek; [exact Hhd|]. rewrite from_byte_eq by done.
  rewrite (proj2 (Z.leb_gt 128 _)), (proj2 (Z.leb_gt 64 _)), (proj2 (Z.leb_le 32 _)) by (destruct huff; lia).
  eapply yields_first; [exact Hhd|]. rewrite byte_name_huff by done.
  replace (8 <=? (first + x) mod 16) with huff.
  2: { rewrite Ef. destruct huff; [replace (40 + x) with (8 + x + 2 * 16) by lia|replace (32 + x) with (x + 2 * 16) by lia];
       rewrite Z.mod_add, Z.mod_small by lia; zcase; done || lia. }
  rewrite <- app_assoc. eapply yields_bind; [exact Hint|]. eapply yields_bind; [by apply get_bytes_parses|].
  eapply yields_lift; [exact Hc|]. rewrite <- (app_nil_r vs). eapply yields_bind; [exact Hpv|]. by apply yields_limit.
Qed.

Lemma header_wire h : header_ok h → ∃ bs, wire h bs.
Proof.
  intros Hh. destruct (Encoder.lookup_static h) as [[idx []]|] eqn:Hl;
    [by eapply wire_indexed|by eapply wire_name_ref|by apply wire_literal].
Qed.

(** The size of a list of headers, as the decoder counts it. *)
Fixpoint list_size (hs : list Header.t) : Z := match hs with [] => 0 | h :: hs => header_size h + list_size hs end.

Lemma list_size_nonneg hs : 0 <= list_size hs.
Proof.
  induction hs as [|h hs IH]; cbn [list_size]; [lia|]. unfold header_size.
  pose proof (zlen_nonneg (Header.name h)). pose proof (zlen_nonneg (Header.value h)). lia.
Qed.

Lemma decode_lines_run fuel left out hs bss pre :
  Forall header_ok hs → Forall2 wire hs bss → (length (concat bss) <= fuel)%nat → 0 <= left →
  (Decoder.decode_lines fuel left out (mk_octets (pre ++ concat bss) (zlen pre))).1 =
  if list_size hs <=? left then Ok (out ++ (lower <$> hs)) else Err Qpack.HeaderListTooLarge.
Proof.
  revert fuel left out bss pre. induction hs as [|h hs IH]; intros fuel left out bss pre Hok Hw Hfuel Hleft.
  - apply Forall2_nil_inv_l in Hw as ->. cbn [concat list_size]. rewrite (proj2 (Z.leb_le 0 left)), !app_nil_r by done.
    assert (Octets.cap (E:=Qpack.Error) (mk_octets pre (zlen pre)) = Ok 0) as Hcap.
    { unfold Octets.cap. cbn [o_buf o_off]. rewrite usub_ok by lia. f_equal. lia. }
    destruct fuel; cbn [Decoder.decode_lines]; by rewrite (run_bind_reads _ _ _ _ Hcap).
  - apply Forall2_cons_inv_l in Hw as (bs & bss' & (Hwr & Hb & Hne & Hy & _) & Hw & ->). apply Forall_cons in Hok as [Hh Hok].
    cbn [concat] in *. rewrite length_app in Hfuel. destruct fuel as [|fuel]; [destruct bs; [done|cbn in Hfuel; lia]|].
    cbn [Decoder.decode_lines list_size fmap list_fmap].
    rewrite (run_bind_ok _ _ _ _ _ (cap_run pre bs (concat bss'))). pose proof (zlen_nonneg (concat bss')).
    rewrite (proj2 (Z.eqb_neq _ 0)) by (pose proof (zlen_nonneg bs); rewrite <- zlen_0 in Hne; lia).
    specialize (Hy left pre (concat bss')). unfold limited in Hy. pose proof (list_size_nonneg hs).
    destruct (Z.leb_spec (header_size h) left) as [Hle|Hgt].
    + rewrite (run_bind_ok _ _ _ _ _ Hy). rewrite app_assoc, <- zlen_app.
      rewrite IH; [|done|done|destruct bs; [done|cbn in Hfuel; lia]|lia]. rewrite <- app_assoc.
      destruct (Z.leb_spec (list_size hs) (left - header_size h)), (Z.leb_spec (header_size h + list_size hs) left); done || lia.
    + rewrite (run_bind_err _ _ _ _ _ Hy). rewrite (proj2 (Z.leb_gt _ _)) by lia. done.
Qed.

Lemma encode_headers_writes hs bss : Forall2 wire hs bss → writes (Encoder.encode_headers hs) (concat bss).
Proof.
  induction 1 as [|h bs hs bss Hw Hf IH]; [apply writes_ret|]. cbn [Encoder.encode_headers concat].
  eapply writes_bind; [apply Hw|by intros _].
Qed.
End blocks.

Lemma encode_decode hs :
  Forall header_ok hs →
  ∃ bs, bytes_ok bs ∧
    (∀ out, zlen bs <= zlen out → Encoder.encode hs out = (Ok (zlen bs), mk_octets (bs ++ zdrop (zlen bs) out) (zlen bs))) ∧
    (∀ max_size, 0 <= max_size → Decoder.decode bs max_size =
      if list_size hs <=? max_size then Ok (lower <$> hs) else Err Qpack.HeaderListTooLarge) ∧
    zlen bs <= 2 + list_size hs + 30 * zlen hs.
Proof.
  intros Hok. assert (∃ bss, Forall2 wire hs bss) as (bss & Hw).
  { induction Hok as [|h hs Hh _ [bss IH]]; [by exists []|]. destruct (header_wire h Hh) as [bs Hbs]. exists (bs :: bss). by constructor. }
  assert (is_u64 0) as H0 by (unfold is_u64; lia).
  assert (room 0 8) as Hr8 by (split; [lia|]; by exists 0). assert (room 0 7) as Hr7 by (split; [lia|]; by exists 0).
  exists ([0] ++ [0] ++ concat bss). split_and!.
  - repeat (apply Forall_app_2; [by apply Forall_singleton; unfold is_u8; lia|]).
    clear Hok. induction Hw as [|h bs hs bss Hh Hw IH]; [constructor|]. apply Forall_app_2; [apply Hh|done].
  - intros out Hout. unfold Encoder.encode. apply writes_to_run; [|done].
    eapply writes_to_bind; [apply (int_prefix_writes 0 0 8 Hr8 H0)|intros _].
    eapply writes_to_bind; [apply (int_prefix_writes 0 0 7 Hr7 H0)|intros _].
    rewrite <- (app_nil_r (concat bss)). eapply writes_to_bind; [by apply encode_headers_writes|intros _; apply writes_to_off].
  - intros max_size Hmax. unfold Decoder.decode, Octets.with_slice.
    rewrite (run_bind_ok _ _ _ _ _ (decode_int_parses 0 0 8 Hr8 H0 [] ([0] ++ concat bss))).
    rewrite (run_bind_ok _ _ _ _ _ (decode_int_parses 0 0 7 Hr7 H0 [0] (concat bss))).
    apply (decode_lines_run (length ([0] ++ [0] ++ concat bss)) max_size [] hs bss [0; 0] Hok Hw); [cbn; lia|done].
  - rewrite !zlen_app. change (zlen [0]) with 1. clear Hok. induction Hw as [|h bs hs bss Hh Hw IH]; cbn [concat list_size]; [by change (zlen []) with 0|].
    destruct Hh as (_ & _ & _ & _ & Hz). rewrite zlen_app, zlen_cons. lia.
Qed.

(** C24. A list of headers survives QPACK: the encoder writes one block of bytes
    into any buffer that has the room, and the decoder gives back the same
    headers in the same order, names in lower case and values untouched,
    whichever of the three forms and of the two string codings was chosen for
    each; and it refuses the list exactly when its names and values are longer
    than the limit. *)
Theorem qpack_roundtrip hs :
  Forall header_ok hs →
  ∃ bs, bytes_ok bs ∧
    (∀ out, zlen bs <= zlen out → Encoder.encode hs out = (Ok (zlen bs), mk_octets (bs ++ zdrop (zlen bs) out) (zlen bs))) ∧
    ∀ max_size, 0 <= max_size → Decoder.decode bs max_size =
      if list_size hs <=? max_size then Ok (lower <$> hs) else Err Qpack.HeaderListTooLarge.
Proof. intros Hok. destruct (encode_decode hs Hok) as (bs & ? & ? & ? & _). by exists bs. Qed.

(** An indexed header, a known name and a new header. *)
Lemma qpack_roundtrip_witness :
  ∃ bs, bytes_ok bs ∧ Decoder.decode bs 1000 = Ok [Header.mk (ascii ":method"%string) (ascii "GET"%string);
    Header.mk (ascii ":status"%string) (ascii "418"%string); Header.mk (ascii "foo"%string) (ascii "BaR"%string)].
Proof.
  destruct (qpack_roundtrip [Header.mk (ascii ":method"%string) (ascii "GET"%string);
    Header.mk (ascii ":Status"%string) (ascii "418"%string); Header.mk (ascii "Foo"%string) (ascii "BaR"%string)])
    as (bs & Hok & _ & Hd).
  { repeat constructor; try solve [solve_bytes]; cbn; unfold zlen; cbn; lia. }
  exists bs. split; [exact Hok|]. rewrite Hd by lia. vm_compute. reflexivity.
Defined.

(** ** Arbitrary header blocks *)

Section safety.
Implicit Types (o : octets) (N : Z).

(** A property of a pure outcome that is not a panic. *)
Definition outcome {E A} (r : result E A) (P : A → Prop) : Prop :=
  match r with Ok a => P a | Err _ => True | Panic => False end.

Lemma reader_in_outcome N {A B} (r : result Qpack.Error A) (k : A → M octets Qpack.Error B) P Q :
  outcome r P → (∀ a, P a → reader_in N (k a) Q) → reader_in N (lift r ≫= k) Q.
Proof.
  intros Hr Hk o Hwf HN. apply wp_bind. unfold wp, lift. destruct r as [a|e|]; [by apply Hk|by split|done].
Qed.
Lemma reader_in_ok_or N {A B} (x : option A) e (k : A → M octets Qpack.Error B) Q :
  (∀ a, x = Some a → reader_in N (k a) Q) → reader_in N (ok_or x e ≫= k) Q.
Proof. intros Hk o Hwf HN. apply wp_bind. destruct x as [a|]; [by apply Hk|by split]. Qed.

Lemma checked_shl_range v n i : 0 <= n → checked_shl v n = Some i → 0 <= i.
Proof. unfold checked_shl. zcase; intros ? [= <-]. pose proof (Z.mod_pos_bound (Z.shiftl v n) (2 ^ 64) ltac:(done)). lia. Qed.

Lemma decode_int_loop_reads fuel val shift o :
  octets_wf o → zlen (o_buf o) - o_off o <= Z.of_nat fuel → 0 <= shift → is_u64 val →
  wp (Decoder.decode_int_loop fuel val shift) (λ v o', advances o o' ∧ is_u64 v) (λ _, keeps_buf o) o.
Proof.
  revert val shift o. induction fuel as [|fuel IH]; intros val shift o Hwf Hfuel Hs Hv; cbn [Decoder.decode_int_loop];
    apply wp_bind, wp_cap; [done| |done|]; (destruct (Z.eqb_spec (zlen (o_buf o) - o_off o) 0); [by split|]).
  { destruct Hwf. lia. }
  apply wp_bind. eapply wp_mono; [by apply (progress_in_u8 (zlen (o_buf o) - o_off o + 1)); [|lia]| |done].
  intros x o1 (Ha & Hlt & _). pose proof Ha as (Hb & _ & Hwf1).
  pose proof (keeps_advances _ _ Ha) as Hk.
  destruct (checked_shl _ _) as [i|] eqn:Hi; [|by apply wp_bind]. apply checked_shl_range in Hi; [|done]. cbn [ok_or]. apply wp_bind, wp_ret.
  unfold checked_add. destruct (Z.leb_spec (val + i) u64_max); [|by apply wp_bind]. cbn [ok_or]. apply wp_bind, wp_ret.
  assert (is_u64 (val + i)) by (unfold is_u64 in *; lia). destruct (Z.land x 0x80 =? 0); [by apply wp_ret|].
  eapply wp_mono; [apply IH; [done|rewrite Hb; lia|lia|done]|..].
  - intros v o2 [Ha2 ?]. split; [by eapply advances_trans|done].
  - intros e o2 [Hb2 ?]. split; [by rewrite Hb2|done].
Qed.

Lemma decode_int_progress N prefix : 0 <= prefix → progress_in N (Decoder.decode_int prefix) is_u64.
Proof.
  intros Hp. unfold Decoder.decode_int. eapply progress_in_bind; [apply progress_in_u8|]. intros x Hx.
  assert (0 < 2 ^ prefix) by (apply Z.pow_pos_nonneg; lia).
  assert (0 <= Z.land x (2 ^ prefix - 1) <= x) as Hl.
  { split; [apply Z.land_nonneg; unfold is_u8 in Hx; lia|]. rewrite (land_ones_eq x prefix) by (done || rewrite Z.ones_equiv; lia).
    apply Z.mod_le; unfold is_u8 in Hx; lia. }
  assert (is_u64 (Z.land x (2 ^ prefix - 1))) by (unfold is_u8, is_u64 in *; lia).
  zcase; [by apply reader_in_all, reader_ret|]. intros o Hwf HN. apply wp_bind, wp_get.
  apply decode_int_loop_reads; [done|unfold zlen in *; destruct Hwf; lia|lia|done].
Qed.

(** A field of [n] bytes. *)
Definition field N (b : octets) : Prop := octets_wf b ∧ o_off b = 0 ∧ zlen (o_buf b) < N.
Lemma reader_field N n : 0 <= n → reader_in N (Octets.get_bytes (E:=Qpack.Error) n) (field N).
Proof.
  intros Hn o Hwf HN. eapply wp_mono; [by apply wp_get_bytes| |by intros ?? [_ ->]].
  intros b o' (Ha & Hoff & Hb & H0 & _ & Hl). split; [done|]. split_and!; [done|done|].
  destruct Ha as (Hbuf & _ & [[_ Hle] _]). rewrite Hbuf in Hle. lia.
Qed.

(** A string is at most twice as long as its code. *)
Lemma zlen_codes s : Forall is_u8 s → 5 * zlen s <= zlen (codes s).
Proof.
  induction 1 as [|x s Hx Hs IH]; [by change (5 * zlen (@nil Z) <= zlen (@nil bool))|]. rewrite codes_cons, zlen_app, zlen_cons.
  destruct (code_entry x Hx) as (n & v & _ & Hn & _ & -> & _). rewrite zlen_bits_of. lia.
Qed.

Definition str_within N (s : list Z) : Prop := bytes_ok s ∧ zlen s <= 2 * (N - 1).

Lemma huffman_or_copy_safe N huff b : field N b → outcome (Decoder.huffman_or_copy huff b) (str_within N).
Proof.
  intros ([_ Hok] & H0 & Hl). destruct b as [bs off]. cbn [o_buf o_off] in *. subst off. pose proof (zlen_nonneg bs).
  unfold Decoder.huffman_or_copy, str_within. destruct huff; [|split; [done|change (Octets.to_vec (mk_octets bs 0)) with bs; lia]].
  pose proof (wp_decode bs Hok) as Hd. unfold wp in Hd. destruct (Huffman.decode _) as [[s|e|] o']; cbn [fst outcome]; [|done..].
  destruct Hd as (_ & Hs & k & _ & E). split; [done|]. pose proof (zlen_codes s Hs).
  assert (zlen (codes s) <= 8 * zlen bs); [|lia].
  apply (f_equal length) in E. rewrite bytes_bits_length, length_app in E. unfold zlen. lia.
Qed.

Lemma decode_str_progress N : progress_in N Decoder.decode_str (str_within N).
Proof.
  eapply progress_in_peek; [apply reader_in_all, reader_peek_u8|]. intros x Hx. cbv beta zeta.
  eapply progress_in_bind; [by apply decode_int_progress|]. intros n Hn.
  eapply reader_in_seq; [apply reader_field, Hn|]. intros b Hb. intros o Hwf HN.
  pose proof (huffman_or_copy_safe N (Z.land x 0x80 =? 0x80) b Hb) as Ho. unfold wp, lift.
  destruct (Decoder.huffman_or_copy _ b); [by split; [apply advances_refl|]|by split|done].
Qed.

(** A header within the limit. *)
Definition line_ok (left : Z) (r : Z * Header.t) : Prop :=
  0 <= r.1 ∧ r.1 + header_size r.2 = left ∧ bytes_ok (Header.name r.2) ∧ bytes_ok (Header.value r.2).

Lemma take_left_safe N left name value :
  N <= 2 ^ 62 → 0 <= left → str_within N name → str_within N value →
  reader_in N (left ← Decoder.take_left left name value; mret (left, Header.mk name value)) (line_ok left).
Proof.
  intros HN Hleft [Hn Hn'] [Hv Hv']. change (2 ^ 62) with 4611686018427387904 in HN.
  intros o Hwf _. unfold Decoder.take_left, wp. rewrite run_bind_assoc, (run_bind_lift _ _ _ _ (uadd_ok (zlen name) (zlen value) ltac:(lia))).
  unfold checked_sub. zcase; [|by split]. cbn. split; [by apply advances_refl|]. unfold line_ok, header_size. cbn. split_and!; [lia|lia|done|done].
Qed.

(** The entries of the static table. *)
Lemma table_entries_ok : forallb (λ e : list Z * list Z, forallb (λ x, (0 <=? x) && (x <=? 255)) (e.1 ++ e.2) && (zlen e.1 + zlen e.2 <? 100))
  StaticTable.STATIC_DECODE_TABLE = true.
Proof. vm_compute. reflexivity. Qed.

Lemma lookup_static_safe idx : 0 <= idx →
  outcome (Decoder.lookup_static idx) (λ e, bytes_ok e.1 ∧ bytes_ok e.2 ∧ zlen e.1 + zlen e.2 < 100).
Proof.
  intros Hidx. unfold Decoder.lookup_static. zcase; [done|].
  destruct (lookup_lt_is_Some_2 StaticTable.STATIC_DECODE_TABLE (Z.to_nat idx)) as [e He]; [unfold zlen in *; lia|].
  rewrite (index_ok _ _ _ Hidx He). cbn [outcome]. pose proof table_entries_ok as Hall. rewrite forallb_forall in Hall.
  specialize (Hall e (proj1 (list_elem_of_In _ _) (list_elem_of_lookup_2 _ _ _ He))). apply andb_true_iff in Hall as [Hb Hl].
  apply Z.ltb_lt in Hl. rewrite forallb_app in Hb. apply andb_true_iff in Hb as [H1 H2].
  assert (∀ l, forallb (λ x, (0 <=? x) && (x <=? 255)) l = true → bytes_ok l) as Hbytes.
  { intros l Hf. rewrite forallb_forall in Hf. apply Forall_forall. intros x Hx. apply list_elem_of_In in Hx.
    specialize (Hf x Hx). rewrite andb_true_iff, !Z.leb_le in Hf. done. }
  split_and!; [by apply Hbytes..|done].
Qed.

Lemma short_within N (e : list Z * list Z) (l : list Z) :
  100 <= N → bytes_ok l → zlen e.1 + zlen e.2 < 100 → l = e.1 ∨ l = e.2 → str_within N l.
Proof.
  intros HN Hl He Hor. split; [done|]. pose proof (zlen_nonneg e.1). pose proof (zlen_nonneg e.2). destruct Hor as [-> | ->]; lia.
Qed.

Lemma list_size_app hs1 hs2 : list_size (hs1 ++ hs2) = list_size hs1 + list_size hs2.
Proof. induction hs1 as [|h hs1 IH]; cbn [list_size app]; [done|]. rewrite IH. lia. Qed.

Lemma decode_line_progress N left :
  100 <= N <= 2 ^ 62 → 0 <= left → progress_in N (Decoder.decode_line left) (line_ok left).
Proof.
  intros HN Hleft o Hwf HoN. apply wp_bind. eapply wp_mono; [by apply (wp_peek_u 1)| |by intros ?? [_ ->]].
  intros x o' (-> & _ & Hend).
  assert (∀ P, reader_in N (fail Qpack.InvalidHeaderValue : M octets Qpack.Error (Z * Header.t)) P) as Hfail
    by (intros P; apply reader_in_all, reader_fail).
  destruct (Decoder.from_byte x).
  - revert o Hwf HoN Hend. refine (λ o Hwf HoN _, (_ : progress_in N _ _) o Hwf HoN).
    eapply progress_in_bind; [by apply decode_int_progress|]. intros i [Hi _]. destruct (negb _); [apply Hfail|].
    eapply reader_in_outcome; [by apply lookup_static_safe|]. intros [n v] (Hn & Hv & Hl).
    apply take_left_safe; [lia|done|apply (short_within _ (n, v)); cbn; auto; lia..].
  - revert o Hwf HoN Hend. refine (λ o Hwf HoN _, (_ : progress_in N _ _) o Hwf HoN).
    eapply progress_in_bind; [by apply decode_int_progress|]. intros _ _. apply Hfail.
  - apply wp_bind. destruct (lookup_lt_is_Some_2 (Octets.as_ref o) 0) as [b0 Hb0].
    { unfold Octets.as_ref, zdrop. rewrite length_drop. unfold zlen in *. destruct Hwf. lia. }
    unfold wp at 1, reads. rewrite (index_ok _ 0 b0) by done. clear Hb0 Hend. revert o Hwf HoN.
    refine (_ : progress_in N _ _).
    eapply progress_in_bind; [by apply decode_int_progress|]. intros n [Hn _].
    eapply reader_in_seq; [by apply reader_field|]. intros b Hb.
    eapply reader_in_outcome; [by apply huffman_or_copy_safe|]. intros name Hname.
    eapply reader_in_seq; [apply progress_in_reader, decode_str_progress|]. intros value Hvalue. apply take_left_safe; done || lia.
  - revert o Hwf HoN Hend. refine (λ o Hwf HoN _, (_ : progress_in N _ _) o Hwf HoN).
    eapply progress_in_bind; [by apply decode_int_progress|]. intros i [Hi _].
    eapply reader_in_seq; [apply progress_in_reader, decode_str_progress|]. intros value Hvalue. destruct (negb _); [apply Hfail|].
    eapply reader_in_outcome; [by apply lookup_static_safe|]. intros [n v] (Hn & Hv & Hl).
    apply take_left_safe; [lia|done|apply (short_within _ (n, v)); cbn; auto; lia|done].
  - by split.
Qed.

Definition headers_ok (hs : list Header.t) : Prop := Forall (λ h, bytes_ok (Header.name h) ∧ bytes_ok (Header.value h)) hs.

Lemma decode_lines_safe fuel left out o :
  octets_wf o → zlen (o_buf o) - o_off o <= Z.of_nat fuel → zlen (o_buf o) < 2 ^ 62 → 0 <= left → headers_ok out →
  wp (Decoder.decode_lines fuel left out) (λ hs _, headers_ok hs ∧ list_size hs <= left + list_size out) (λ _ _, True) o.
Proof.
  change (2 ^ 62) with 4611686018427387904.
  revert left out o. induction fuel as [|fuel IH]; intros left out o Hwf Hfuel HN Hleft Hout; cbn [Decoder.decode_lines];
    apply wp_bind, wp_cap; [done| |done|]; (destruct (Z.eqb_spec (zlen (o_buf o) - o_off o) 0); [apply wp_ret; split; [done|lia]|]).
  { destruct Hwf. lia. }
  apply wp_bind. eapply wp_mono; [apply (decode_line_progress 4611686018427387904 left); [|done|done|destruct Hwf; lia]| |done].
  { split; [lia|]. by change (2 ^ 62) with 4611686018427387904. }
  intros [left' h] o1 ((Hb & _ & Hwf1) & Hlt & Hl & Hsum & Hn & Hv). cbn [fst snd] in *.
  eapply wp_mono; [apply (IH left' (out ++ [h])); [done|rewrite Hb; lia|by rewrite Hb|done|]| |done].
  - apply Forall_app_2; [done|by apply Forall_singleton].
  - intros hs _ [? Hle]. split; [done|]. rewrite list_size_app in Hle. cbn [list_size] in Hle. lia.
Qed.
End safety.

Lemma decode_safe buf max_size :
  bytes_ok buf → zlen buf < 2 ^ 62 → 0 <= max_size →
  match Decoder.decode buf max_size with
  | Ok hs => headers_ok hs ∧ list_size hs <= max_size
  | Err _ => True
  | Panic => False
  end.
Proof.
  intros Hbuf HN Hmax. assert (octets_wf (Octets.with_slice buf)) as Hwf by (split; [cbn; pose proof (zlen_nonneg buf); lia|done]).
  pose proof (zlen_nonneg buf). assert (∀ p, 0 <= p → reader (Decoder.decode_int p) is_u64) as Hint.
  { intros p Hp o Ho. apply (progress_in_reader (zlen (o_buf o) + 1)); [by apply decode_int_progress|done|destruct Ho; lia]. }
  assert (wp (_ ← Decoder.decode_int 8; _ ← Decoder.decode_int 7; Decoder.decode_lines (length buf) max_size [])
    (λ hs _, headers_ok hs ∧ list_size hs <= max_size) (λ _ _, True) (Octets.with_slice buf)) as Hwp.
  { apply wp_bind. eapply wp_mono; [by apply (Hint 8)| |done]. intros _ o1 ((Hb1 & Ho1 & Hwf1) & _).
    apply wp_bind. eapply wp_mono; [by apply (Hint 7)| |done]. intros _ o2 ((Hb2 & Ho2 & Hwf2) & _). cbn [o_buf o_off Octets.with_slice] in *.
    eapply wp_mono; [apply decode_lines_safe; [done|..|constructor]| |done].
    - rewrite Hb2, Hb1. unfold zlen. lia.
    - by rewrite Hb2, Hb1.
    - done.
    - cbn [list_size]. intros hs _ [? ?]. split; [done|lia]. }
  unfold Decoder.decode. revert Hwp. generalize (_ ← Decoder.decode_int 8; _ ← Decoder.decode_int 7; Decoder.decode_lines (length buf) max_size []).
  intros m Hwp. unfold wp in Hwp. by destruct (m (Octets.with_slice buf)) as [[]].
Qed.

(** No header block makes the decoder panic or run forever, whatever its
    bytes and the limit are: it ends with an error, or with headers whose names
    and values are bytes and together no longer than the limit. *)
Theorem qpack_decode_safe buf max_size :
  bytes_ok buf → zlen buf < 2 ^ 62 → 0 <= max_size →
  match Decoder.decode buf max_size with
  | Ok hs => headers_ok hs ∧ list_size hs <= max_size
  | Err _ => True
  | Panic => False
  end.
Proof. apply decode_safe. Qed.

Lemma qpack_decode_safe_witness :
  ∃ hs, Decoder.decode [0; 0; 209; 95; 9; 3; 52; 49; 56] 100 = Ok hs ∧ list_size hs <= 100.
Proof.
  pose proof (qpack_decode_safe [0; 0; 209; 95; 9; 3; 52; 49; 56] 100) as H.
  destruct (Decoder.decode _ _) as [hs|e|] eqn:Hd; [|vm_compute in Hd; discriminate..].
  exists hs. split; [reflexivity|]. apply H; [solve_bytes|done|lia].
Defined.

(** An integer that does not fit 64 bits can lose its upper bits: the last
    [checked_shl], by 63 bits, drops all but one bit of its byte. *)
Lemma decode_int_drops_bits :
  (Decoder.decode_int 8 (mk_octets [255; 128; 128; 128; 128; 128; 128; 128; 128; 128; 2] 0)).1 = Ok 255.
Proof. vm_compute. reflexivity. Qed.
