(* ===== verification/BTree.v ===== *)
(** * Ordered maps

    [std::collections::BTreeMap<u64, V>] as its in-order list of bindings, with
    the operations the crate uses; used by the range sets and by the receive
    buffer.  The laws are stated for lists in strictly increasing key order,
    which every operation keeps. *)
From Stdlib Require Export Sorted.
From S2P Require Import Prelude.

Section btree.
Context {V : Type}.
Implicit Types (k : Z) (v : V) (l : list (Z * V)).

Definition bt_sorted l : Prop := StronglySorted (λ p q, p.1 < q.1) l.

(** [BTreeMap::insert] *)
Fixpoint bt_insert k v l : list (Z * V) :=
  match l with
  | [] => [(k, v)]
  | (k', v') :: l' =>
      if k <? k' then (k, v) :: l
      else if k =? k' then (k, v) :: l'
      else (k', v') :: bt_insert k v l'
  end.

(** [BTreeMap::remove] *)
Fixpoint bt_remove k l : list (Z * V) :=
  match l with
  | [] => []
  | (k', v') :: l' => if k =? k' then l' else (k', v') :: bt_remove k l'
  end.

(** [BTreeMap::range(k..)] and [BTreeMap::range(..=k)], in order. *)
Definition bt_range_from k l : list (Z * V) := List.filter (λ p, k <=? p.1) l.
Definition bt_range_to k l : list (Z * V) := List.filter (λ p, p.1 <=? k) l.

(** [first_key_value], [last_key_value], [pop_first] *)
Definition bt_first l : option (Z * V) := head l.
Definition bt_last l : option (Z * V) := last l.
Definition bt_pop_first l : list (Z * V) := tail l.

Lemma bt_sorted_inv p l :
  bt_sorted (p :: l) → bt_sorted l ∧ Forall (λ q, p.1 < q.1) l.
Proof. by inversion 1. Qed.

Lemma bt_sorted_app l1 l2 :
  bt_sorted (l1 ++ l2) ↔
  bt_sorted l1 ∧ bt_sorted l2 ∧ Forall (λ p, Forall (λ q, p.1 < q.1) l2) l1.
Proof.
  induction l1 as [|p l1 IH]; simpl.
  - split; [by intros; split_and!; [constructor| |]|by intros (_ & ? & _)].
  - unfold bt_sorted in *. split.
    + intros H. inversion_clear H as [|? ? Hs Hf]. apply IH in Hs as (? & ? & ?).
      apply Forall_app in Hf as [? ?]. split_and!; [by constructor|done|by constructor].
    + intros (H1 & H2 & H3). inversion_clear H1. inversion_clear H3.
      constructor; [by apply IH|by apply Forall_app].
Qed.

(** Inserting or removing between the smaller and the larger keys. *)
Lemma bt_insert_mid k v l1 l2 :
  Forall (λ p, p.1 < k) l1 → Forall (λ p, k < p.1) l2 →
  bt_insert k v (l1 ++ l2) = l1 ++ (k, v) :: l2.
Proof.
  induction 1 as [|[k' v'] l1 Hk Hl IH]; intros H2; simpl in *.
  - destruct l2 as [|[k' v'] l2]; [done|]. inversion_clear H2. simpl in *.
    by rewrite (proj2 (Z.ltb_lt k k')).
  - rewrite (proj2 (Z.ltb_ge k k')), (proj2 (Z.eqb_neq k k')) by lia. by rewrite IH.
Qed.

Lemma bt_remove_mid k v l1 l2 :
  Forall (λ p, p.1 < k) l1 → bt_remove k (l1 ++ (k, v) :: l2) = l1 ++ l2.
Proof.
  induction 1 as [|[k' v'] l1 Hk Hl IH]; simpl in *; [by rewrite Z.eqb_refl|].
  rewrite (proj2 (Z.eqb_neq k k')) by lia. by rewrite IH.
Qed.

Lemma bt_range_from_app k l1 l2 :
  Forall (λ p, p.1 < k) l1 → Forall (λ p, k <= p.1) l2 → bt_range_from k (l1 ++ l2) = l2.
Proof.
  intros H1 H2. unfold bt_range_from. rewrite List.filter_app.
  replace (List.filter _ l1) with (@nil (Z * V)).
  - induction H2 as [|p l Hp Hl IH]; simpl in *; [done|]. zdecide. by rewrite IH.
  - induction H1 as [|p l Hp Hl IH]; simpl; [done|]. zdecide. done.
Qed.

Lemma bt_range_to_app k l1 l2 :
  Forall (λ p, p.1 <= k) l1 → Forall (λ p, k < p.1) l2 → bt_range_to k (l1 ++ l2) = l1.
Proof.
  intros H1 H2. unfold bt_range_to. rewrite List.filter_app.
  replace (List.filter _ l2) with (@nil (Z * V)); [rewrite app_nil_r|].
  - induction H1 as [|p l Hp Hl IH]; simpl in *; [done|]. zdecide. by rewrite IH.
  - induction H2 as [|p l Hp Hl IH]; simpl; [done|]. zdecide. done.
Qed.

(** A sorted map splits at every key. *)
Lemma bt_split_le k l :
  bt_sorted l → ∃ l1 l2, l = l1 ++ l2 ∧ Forall (λ p, p.1 <= k) l1 ∧ Forall (λ p, k < p.1) l2.
Proof.
  intros Hs. induction Hs as [|p l Hs IH Hp]; [by exists [], []|].
  destruct (Z.le_gt_cases p.1 k) as [Hle|Hgt].
  - destruct IH as (l1 & l2 & -> & H1 & H2). exists (p :: l1), l2. by split_and!; [|constructor|].
  - exists [], (p :: l). split_and!; [done..|]. constructor; [lia|].
    eapply Forall_impl; [done|]. simpl. lia.
Qed.

(** The bindings from a key on are bindings of the map, in the same order. *)
Lemma bt_range_from_Forall (P : Z * V → Prop) k l :
  Forall P l → Forall P (bt_range_from k l).
Proof. induction 1; simpl; [constructor|]. case_match; auto. Qed.

Lemma bt_range_from_StronglySorted R k l :
  StronglySorted R l → StronglySorted R (bt_range_from k l).
Proof.
  induction 1; simpl; [constructor|].
  case_match; [constructor; [done|by apply bt_range_from_Forall]|done].
Qed.

Lemma bt_range_from_keys k l : Forall (λ p, k <= p.1) (bt_range_from k l).
Proof.
  induction l as [|p l IH]; simpl; [constructor|]. zcase; [by constructor|done].
Qed.

Lemma bt_range_from_rest (P : Z * V → Prop) k l :
  Forall P (bt_range_from k l) → Forall (λ p, p.1 < k ∨ P p) l.
Proof.
  induction l as [|p l IH]; simpl; [constructor|]. zcase.
  - inversion_clear 1. constructor; auto.
  - intros. constructor; auto.
Qed.

Lemma bt_range_from_Exists (P : Z * V → Prop) k l :
  Exists P (bt_range_from k l) → Exists P l.
Proof.
  induction l as [|p l IH]; simpl; [inversion 1|]. zcase.
  - inversion_clear 1; [by left|right; auto].
  - intros. right. auto.
Qed.

Lemma bt_insert_Forall (P : Z * V → Prop) k v l :
  Forall P l → P (k, v) → Forall P (bt_insert k v l).
Proof.
  intros Hl Hk. induction Hl as [|[k' v'] l Hp Hl IH]; simpl; [by repeat constructor|].
  repeat case_match; repeat (constructor; auto).
Qed.
End btree.

#[export] Hint Constructors StronglySorted : core.
