(* ===== verification/Ranges.v ===== *)
(** * Range sets: [quiche/src/ranges.rs]

    A sorted collection of non-overlapping [u64] ranges with two
    representations, a small vector and a B-tree, exchanged by [fixup].  Both
    hold the same thing, the in-order list of [(start, end)] pairs.
    [range_insert] is the reference insertion both are shown equal to, and
    [in_ranges] the set of integers a collection stands for. *)
From S2P Require Import Prelude BTree.

Abbreviation range := (Z * Z)%type.

(** [fn range_overlaps]: [r] is the stored range, [other] the new one. *)
Definition range_overlaps (r other : range) : bool :=
  ((r.1 <=? other.1) && (other.1 <=? r.2)) || ((r.1 <=? other.2) && (other.2 <=? r.2)).

(** [Range::contains] *)
Definition range_contains (r : range) (x : Z) : bool := (r.1 <=? x) && (x <? r.2).

Definition MAX_INLINE_CAPACITY : Z := 4.
Definition MIN_TO_INLINE : Z := 2.

(** ** [impl InlineRangeSet] *)
Module InlineRangeSet.
Record t := mk { inner : list range; capacity : Z }.

(** [self.inner.remove(0)] *)
Definition remove_first {E} (l : list range) : result E (list range) :=
  match l with [] => Panic | _ :: l' => Ok l' end.

(** The second loop of [insert]: merge the ranges that [cur], whose end has
    become [end_], now overlaps. *)
Fixpoint merge_next (cur : range) (end_ : Z) (rest : list range) : list range :=
  match rest with
  | [] => [cur]
  | (s, e) :: rest' =>
      if end_ <? s then cur :: rest
      else let new_e := Z.max e end_ in merge_next (cur.1, new_e) new_e rest'
  end.

(** The first loop of [insert]: [pre] is the part of the vector before
    [pos], [rest] the part from [pos] on. *)
Fixpoint insert_at {E} (cap start end_ : Z) (pre rest : list range)
    : result E (list range) :=
  match rest with
  | [] =>
      inner ← (if zlen pre =? cap then remove_first pre else Ok pre);
      Ok (inner ++ [(start, end_)])
  | (s, e) :: rest' =>
      if e <? start then insert_at cap start end_ (pre ++ [(s, e)]) rest'
      else if end_ <? s then
        if zlen (pre ++ rest) =? cap then
          (* remove(0), then [pos -= 1] *)
          match pre with
          | [] => Panic
          | _ :: pre' => Ok (pre' ++ (start, end_) :: rest)
          end
        else Ok (pre ++ (start, end_) :: rest)
      else
        let s' := if start <? s then start else s in
        if e <? end_ then Ok (pre ++ merge_next (s', end_) end_ rest')
        else Ok (pre ++ (s', e) :: rest')
  end.

Definition insert {E} (item : range) : M t E unit := λ set,
  match insert_at (capacity set) item.1 item.2 [] (inner set) with
  | Ok l => (Ok (), mk l (capacity set))
  | Err e => (Err e, set)
  | Panic => (Panic, set)
  end.

Fixpoint drop_until (largest : Z) (l : list range) : list range :=
  match l with
  | [] => []
  | (s, e) :: l' =>
      if e <=? largest then drop_until largest l'
      else
        let s' := Z.max (largest + 1) s in
        if s' =? e then l' else (s', e) :: l'
  end.

Definition remove_until {E} (largest : Z) : M t E unit :=
  modify (λ set, mk (drop_until largest (inner set)) (capacity set)).
End InlineRangeSet.

(** ** [impl BTreeRangeSet] *)
Module BTreeRangeSet.
Record t := mk { inner : list range; capacity : Z }.

Definition prev_to (l : list range) (item : Z) : option range := last (bt_range_to item l).
Definition next_to (l : list range) (item : Z) : option range := head (bt_range_from item l).

(** The [while let Some(r) = self.next_to(start)] loop of [insert]; every
    turn removes a binding, so [fuel] bounds it by the size of the map. *)
Fixpoint absorb_next {E} (fuel : nat) (item : range) (start end_ : Z) (l : list range)
    : result E (list range * Z * Z) :=
  match fuel with
  | O => Panic
  | S fuel' =>
      match next_to l start with
      | None => Ok (l, start, end_)
      | Some r =>
          if range_contains item r.1 && range_contains item r.2 then
            absorb_next fuel' item start end_ (bt_remove r.1 l)
          else if negb (range_overlaps r item) then Ok (l, start, end_)
          else absorb_next fuel' item (Z.min start r.1) (Z.max end_ r.2) (bt_remove r.1 l)
      end
  end.

Definition insert_in {E} (cap : Z) (item : range) (l : list range) : result E (list range) :=
  let '(l, start, end_) :=
    match prev_to l item.1 with
    | Some r =>
        if range_overlaps r item then
          (bt_remove r.1 l, Z.min item.1 r.1, Z.max item.2 r.2)
        else (l, item.1, item.2)
    | None => (l, item.1, item.2)
    end in
  '(l, start, end_) ← absorb_next (S (length l)) item start end_ l;
  let l := if cap <=? zlen l then bt_pop_first l else l in
  Ok (bt_insert start end_ l).

Definition insert {E} (item : range) : M t E unit := λ set,
  match insert_in (capacity set) item (inner set) with
  | Ok l => (Ok (), mk l (capacity set))
  | Err e => (Err e, set)
  | Panic => (Panic, set)
  end.

(** The [for r in ranges] loop of [remove_until]. *)
Fixpoint trim_all {E} (largest cap : Z) (rs l : list range) : result E (list range) :=
  match rs with
  | [] => Ok l
  | r :: rs' =>
      let l := bt_remove r.1 l in
      next ← uadd largest 1;
      l ← (if next <? r.2 then insert_in cap (next, r.2) l else Ok l);
      trim_all largest cap rs' l
  end.

Definition remove_until {E} (largest : Z) : M t E unit := λ set,
  match trim_all largest (capacity set) (bt_range_to largest (inner set)) (inner set) with
  | Ok l => (Ok (), mk l (capacity set))
  | Err e => (Err e, set)
  | Panic => (Panic, set)
  end.
End BTreeRangeSet.

(** ** [impl RangeSet] *)
Module RangeSet.
Inductive t :=
| Inline (set : InlineRangeSet.t)
| BTree (set : BTreeRangeSet.t).

Definition new (capacity : Z) : t := Inline (InlineRangeSet.mk [] capacity).
(** [impl Default]: [usize::MAX] ranges. *)
Definition default : t := Inline (InlineRangeSet.mk [] u64_max).

(** The stored ranges in increasing order, [iter]. *)
Definition iter (rs : t) : list range :=
  match rs with
  | Inline set => InlineRangeSet.inner set
  | BTree set => BTreeRangeSet.inner set
  end.
Definition capacity (rs : t) : Z :=
  match rs with
  | Inline set => InlineRangeSet.capacity set
  | BTree set => BTreeRangeSet.capacity set
  end.

Definition len (rs : t) : Z :=
  match rs with
  | Inline set => zlen (InlineRangeSet.inner set)
  | BTree set => zlen (BTreeRangeSet.inner set)
  end.

Definition fixup (rs : t) : t :=
  match rs with
  | Inline (InlineRangeSet.mk l cap) =>
      if zlen l =? MAX_INLINE_CAPACITY then BTree (BTreeRangeSet.mk l cap) else rs
  | BTree (BTreeRangeSet.mk l cap) =>
      if zlen l <=? MIN_TO_INLINE then Inline (InlineRangeSet.mk l cap) else rs
  end.

(** Run a method on whichever variant is present. *)
Definition on_variant {E} (f : M InlineRangeSet.t E unit) (g : M BTreeRangeSet.t E unit)
    : M t E unit := λ rs,
  match rs with
  | Inline set => let '(r, set') := f set in (r, Inline set')
  | BTree set => let '(r, set') := g set in (r, BTree set')
  end.

Definition insert {E} (item : range) : M t E unit :=
  _ ← on_variant (InlineRangeSet.insert item) (BTreeRangeSet.insert item);
  modify fixup.

(** Every integer covered, in increasing order. *)
Definition flatten (rs : t) : list Z := iter rs ≫= λ r, seqZ r.1 (r.2 - r.1).

Definition first (rs : t) : option Z :=
  match rs with
  | Inline set => fst <$> head (InlineRangeSet.inner set)
  | BTree set => fst <$> bt_first (BTreeRangeSet.inner set)
  end.

(** [e - 1] on the last range. *)
Definition last {E} (rs : t) : result E (option Z) :=
  match match rs with
        | Inline set => bt_last (InlineRangeSet.inner set)
        | BTree set => bt_last (BTreeRangeSet.inner set)
        end with
  | None => Ok None
  | Some r => v ← usub r.2 1; Ok (Some v)
  end.

Definition remove_until {E} (largest : Z) : M t E unit :=
  _ ← on_variant (InlineRangeSet.remove_until largest) (BTreeRangeSet.remove_until largest);
  modify fixup.

Definition push_item {E} (item : Z) : M t E unit :=
  next ← lift (uadd item 1); insert (item, next).

(** [impl PartialEq<Range<u64>> for RangeSet] *)
Definition eq_range (rs : t) (other : range) : bool :=
  if negb (len rs =? 1) then false
  else match head (iter rs) with
       | Some r => (r.1 =? other.1) && (r.2 =? other.2)
       | None => false
       end.
End RangeSet.

(** ** The reference collection *)

(** Sorted and strictly separated: a gap of at least one integer lies between
    two neighbours, and no range is reversed. *)
Definition ranges_wf (l : list range) : Prop :=
  StronglySorted (λ p q, p.2 < q.1) l ∧ Forall (λ r, 0 <= r.1 <= r.2) l.

Definition in_ranges (x : Z) (l : list range) : Prop := Exists (λ r, r.1 <= x < r.2) l.

(** Insertion as one pass over the list. *)
Fixpoint range_insert (s e : Z) (l : list range) : list range :=
  match l with
  | [] => [(s, e)]
  | (a, b) :: l' =>
      if b <? s then (a, b) :: range_insert s e l'
      else if e <? a then (s, e) :: l
      else range_insert (Z.min s a) (Z.max e b) l'
  end.

(** The same with a bound on the number of ranges: the smallest stored range
    makes room for a new one. *)
Definition bounded_insert (cap s e : Z) (l : list range) : list range :=
  if zlen (range_insert s e l) <=? cap then range_insert s e l else range_insert s e (tail l).

Section reference.
Implicit Types l : list range.

Lemma ranges_wf_nil : ranges_wf [].
Proof. by split; constructor. Qed.

Lemma ranges_wf_cons a b l :
  ranges_wf ((a, b) :: l) ↔ 0 <= a <= b ∧ Forall (λ r, b < r.1) l ∧ ranges_wf l.
Proof.
  unfold ranges_wf. split.
  - intros [Hs Hf]. by inversion_clear Hs; inversion_clear Hf.
  - intros (? & ? & ? & ?). by split; constructor.
Qed.

Lemma ranges_wf_app l1 l2 :
  ranges_wf (l1 ++ l2) ↔
  ranges_wf l1 ∧ ranges_wf l2 ∧ Forall (λ p, Forall (λ q, p.2 < q.1) l2) l1.
Proof.
  induction l1 as [|[a b] l1 IH]; simpl.
  - split; [by intros; split_and!; [apply ranges_wf_nil| |]|by intros (_ & ? & _)].
  - rewrite !ranges_wf_cons, IH, Forall_app, Forall_cons. simpl. tauto.
Qed.

Lemma ranges_wf_tail l : ranges_wf l → ranges_wf (tail l).
Proof. destruct l as [|[a b] l]; [done|]. rewrite ranges_wf_cons. tauto. Qed.

Lemma ranges_wf_bt l : ranges_wf l → bt_sorted l.
Proof.
  intros [Hs Hf]. induction Hs as [|p l Hs IH Hp]; [constructor|]. inversion_clear Hf.
  constructor; [by apply IH|]. forall_lia.
Qed.

Lemma in_ranges_cons x r l : in_ranges x (r :: l) ↔ r.1 <= x < r.2 ∨ in_ranges x l.
Proof. unfold in_ranges. by rewrite Exists_cons. Qed.
Lemma in_ranges_app x l1 l2 : in_ranges x (l1 ++ l2) ↔ in_ranges x l1 ∨ in_ranges x l2.
Proof. unfold in_ranges. by rewrite Exists_app. Qed.
Lemma in_ranges_nil x : ¬ in_ranges x [].
Proof. by inversion 1. Qed.

Lemma range_insert_starts c s e l :
  c < s → Forall (λ r, c < r.1) l → Forall (λ r, c < r.1) (range_insert s e l).
Proof.
  intros Hs Hl. revert s e Hs.
  induction Hl as [|[a b] l Ha Hl IH]; intros s e Hs; simpl in *; [by constructor|].
  repeat zcase.
  - constructor; [done|by apply IH].
  - by repeat constructor.
  - apply IH. lia.
Qed.

Lemma range_insert_wf s e l : 0 <= s <= e → ranges_wf l → ranges_wf (range_insert s e l).
Proof.
  revert s e. induction l as [|[a b] l IH]; intros s e Hse Hwf; simpl.
  - apply ranges_wf_cons. split_and!; [lia|lia|constructor|done].
  - apply ranges_wf_cons in Hwf as Hwf'. destruct Hwf' as ([? ?] & Hb & Hl). repeat zcase.
    + apply ranges_wf_cons. split_and!; [lia|lia| |by apply IH].
      apply range_insert_starts; [lia|done].
    + apply ranges_wf_cons. split_and!; [lia|lia| |done].
      constructor; [simpl; lia|forall_lia].
    + apply IH; [lia|done].
Qed.

Lemma range_insert_in x s e l :
  s <= e → ranges_wf l → in_ranges x (range_insert s e l) ↔ s <= x < e ∨ in_ranges x l.
Proof.
  revert s e. induction l as [|[a b] l IH]; intros s e Hse Hwf; simpl.
  - rewrite in_ranges_cons. done.
  - apply ranges_wf_cons in Hwf as Hwf'. destruct Hwf' as ([? ?] & Hb & Hl). repeat zcase.
    + rewrite !in_ranges_cons, IH by done. tauto.
    + rewrite !in_ranges_cons. done.
    + rewrite IH, in_ranges_cons by (done || lia). simpl.
      assert (Z.min s a <= x < Z.max e b ↔ s <= x < e ∨ a <= x < b) by lia. tauto.
Qed.

(** The ranges after the insertion point that the new one swallows. *)
Fixpoint absorb (e : Z) (l : list range) : Z * list range :=
  match l with
  | [] => (e, [])
  | (a, b) :: l' => if e <? a then (e, l) else absorb (Z.max e b) l'
  end.

Lemma range_insert_absorb s e l :
  Forall (λ r, s < r.1) l → ranges_wf l →
  range_insert s e l = (s, (absorb e l).1) :: (absorb e l).2.
Proof.
  intros Hs Hwf. revert e. induction l as [|[a b] l IH]; intros e; simpl; [done|].
  apply ranges_wf_cons in Hwf as ([? ?] & ? & ?). inversion_clear Hs. simpl in *.
  zdecide. zcase; [done|]. rewrite Z.min_l by lia. by apply IH.
Qed.

Lemma range_insert_skip s e l1 l2 :
  Forall (λ r, r.2 < s) l1 → range_insert s e (l1 ++ l2) = l1 ++ range_insert s e l2.
Proof.
  induction 1 as [|[a b] l1 Hb Hl IH]; simpl in *; [done|]. zdecide. by rewrite IH.
Qed.

Lemma range_insert_length s e l : zlen (range_insert s e l) <= zlen l + 1.
Proof.
  revert s e. induction l as [|[a b] l IH]; intros s e; simpl; [done|].
  repeat zcase; rewrite ?zlen_cons in *; [specialize (IH s e)|lia|specialize (IH (Z.min s a) (Z.max e b))]; lia.
Qed.

Lemma absorb_length e l : zlen (absorb e l).2 <= zlen l.
Proof.
  revert e. induction l as [|[a b] l IH]; intros e; simpl; [done|].
  zcase; rewrite ?zlen_cons; simpl; [rewrite zlen_cons; lia|]. specialize (IH (Z.max e b)). lia.
Qed.
End reference.
#[export] Hint Resolve ranges_wf_nil ranges_wf_bt : core.

(** ** Both representations implement the reference insertion *)

Section equivalence.
Context {E : Type}.
Implicit Types l : list range.

Lemma absorb_none e l : Forall (λ r, e < r.1) l → absorb e l = (e, l).
Proof. destruct 1 as [|[a b] l Ha Hl]; simpl in *; [done|]. by zdecide. Qed.

Lemma absorb_id e l : zlen (absorb e l).2 = zlen l → absorb e l = (e, l).
Proof.
  destruct l as [|[a b] l]; simpl; [done|]. zcase; [done|].
  rewrite zlen_cons. pose proof (absorb_length (Z.max e b) l). lia.
Qed.

Lemma merge_next_absorb c e l :
  InlineRangeSet.merge_next (c, e) e l = (c, (absorb e l).1) :: (absorb e l).2.
Proof.
  revert e. induction l as [|[a b] l IH]; intros e; simpl; [done|]. zcase; [done|].
  rewrite IH. by rewrite (Z.max_comm e b).
Qed.

Lemma inline_insert_at_ref cap s e pre rest :
  s <= e → ranges_wf rest → zlen (pre ++ range_insert s e rest) <= cap →
  InlineRangeSet.insert_at (E:=E) cap s e pre rest = Ok (pre ++ range_insert s e rest).
Proof.
  intros Hse. revert pre. induction rest as [|[a b] rest IH]; intros pre Hwf Hcap; simpl in *.
  - rewrite zlen_app, zlen_cons, zlen_nil in Hcap. by zdecide.
  - apply ranges_wf_cons in Hwf as (? & Hb & Hwf).
    destruct (Z.ltb_spec b s).
    + rewrite IH, <- app_assoc; [done..|]. by rewrite <- app_assoc.
    + destruct (Z.ltb_spec e a).
      * rewrite !zlen_app, !zlen_cons in *. zdecide. done.
      * rewrite range_insert_absorb by (done || forall_lia).
        destruct (Z.ltb_spec b e).
        { rewrite merge_next_absorb, Z.max_l by lia. do 4 f_equal.
          destruct (Z.ltb_spec s a); lia. }
        rewrite Z.max_r, absorb_none by (done || lia). do 4 f_equal. simpl.
        destruct (Z.ltb_spec s a); lia.
Qed.

(** The same at capacity, past the first range, which makes room. *)
Lemma inline_insert_at_full cap s e p pre rest :
  s <= e → ranges_wf rest → zlen (p :: pre ++ rest) = cap → zlen rest < zlen (range_insert s e rest) →
  InlineRangeSet.insert_at (E:=E) cap s e (p :: pre) rest = Ok (pre ++ range_insert s e rest).
Proof.
  intros Hse. revert pre. induction rest as [|[a b] rest IH]; intros pre Hwf Hcap Hnew; simpl in *.
  - rewrite app_nil_r in Hcap. by zdecide.
  - apply ranges_wf_cons in Hwf as (? & Hb & Hwf).
    destruct (Z.ltb_spec b s).
    + rewrite !zlen_cons in Hnew. rewrite IH, <- app_assoc; [done|done| |lia]. by rewrite <- app_assoc.
    + destruct (Z.ltb_spec e a); [by rewrite Hcap, Z.eqb_refl|].
      pose proof (range_insert_length (Z.min s a) (Z.max e b) rest) as Hlen.
      rewrite range_insert_absorb in Hnew, Hlen by (done || forall_lia). rewrite !zlen_cons in *.
      pose proof (absorb_length (Z.max e b) rest). lia.
Qed.

(** A set that overflows has merged nothing. *)
Lemma overflow_grows cap s e l : zlen l <= cap → cap < zlen (range_insert s e l) → zlen l = cap ∧ zlen (range_insert s e l) = zlen l + 1.
Proof. pose proof (range_insert_length s e l). lia. Qed.

(** At capacity, when the new range is not the first. *)
Lemma overflow_head cap s e a b l :
  s <= e → ranges_wf ((a, b) :: l) → zlen ((a, b) :: l) <= cap → cap < zlen (range_insert s e ((a, b) :: l)) → a <= e →
  b < s ∧ zlen ((a, b) :: l) = cap ∧ zlen l < zlen (range_insert s e l).
Proof.
  intros Hse (Hab & Hb & Hwf)%ranges_wf_cons Hlen Hover Ha. destruct (overflow_grows _ _ _ _ Hlen Hover) as [Hc Hg].
  simpl in Hg. destruct (Z.ltb_spec b s); [rewrite !zlen_cons in *; split_and!; lia|]. rewrite (proj2 (Z.ltb_ge e a)) in Hg by lia.
  rewrite range_insert_absorb in Hg by (done || forall_lia).
  rewrite !zlen_cons in *. pose proof (absorb_length (Z.max e b) l). lia.
Qed.

Lemma inline_insert_bounded cap s e l :
  0 <= s <= e → ranges_wf l → zlen l <= cap → zlen (range_insert s e l) <= cap ∨ Exists (λ r, r.1 <= e) l →
  InlineRangeSet.insert_at (E:=E) cap s e [] l = Ok (bounded_insert cap s e l).
Proof.
  intros Hse Hwf Hlen Hroom. unfold bounded_insert. destruct (Z.leb_spec (zlen (range_insert s e l)) cap) as [Hf|Hover].
  { by rewrite (inline_insert_at_ref cap s e [] l) by (simpl; done || lia). }
  destruct Hroom as [?|Hex]; [lia|]. destruct l as [|[a b] l]; [by inversion Hex|].
  assert (a <= e) as Ha.
  { pose proof Hwf as (? & Hb & _)%ranges_wf_cons. apply Exists_cons in Hex as [?|Hex]; [done|].
    apply Exists_exists in Hex as (r & Hr & Hle). rewrite Forall_forall in Hb. specialize (Hb r Hr). cbn in *. lia. }
  destruct (overflow_head _ _ _ _ _ _ (proj2 Hse) Hwf Hlen Hover Ha) as (Hbs & Hc & Hg). simpl. zdecide.
  apply ranges_wf_cons in Hwf as (_ & _ & Hwf). apply inline_insert_at_full; [lia|done|by rewrite <- Hc|done].
Qed.

Lemma btree_absorb_next item start end_ l1 l2 fuel :
  Forall (λ r, r.1 < start) l1 → Forall (λ r, item.1 < r.1) l2 → ranges_wf l2 →
  start <= item.1 <= item.2 → item.2 <= end_ →
  end_ = item.2 ∨ Forall (λ r, end_ < r.1) l2 →
  (length l2 < fuel)%nat →
  BTreeRangeSet.absorb_next (E:=E) fuel item start end_ (l1 ++ l2) =
  Ok (l1 ++ (absorb end_ l2).2, start, (absorb end_ l2).1).
Proof.
  intros H1 H2 Hwf Hs He Hend. revert end_ fuel He Hend.
  induction l2 as [|[a b] l2 IH]; intros end_ [|fuel] He Hend Hfuel; simpl in Hfuel; try lia;
    simpl; unfold BTreeRangeSet.next_to;
    rewrite bt_range_from_app by (done || forall_lia); simpl; [done|].
  apply ranges_wf_cons in Hwf as (Hab & Hb & Hwf). inversion_clear H2. simpl in *.
  assert (bt_remove a (l1 ++ (a, b) :: l2) = l1 ++ l2) as Hrem
    by (apply bt_remove_mid; forall_lia).
  unfold range_contains, range_overlaps. simpl.
  destruct (Z.leb_spec a item.2) as [Ha|Ha].
  - assert (end_ = item.2) as ->
      by (destruct Hend as [?|Hend]; [done|inversion_clear Hend; simpl in *; lia]).
    rewrite (proj2 (Z.ltb_ge item.2 a)) by lia.
    destruct (Z.ltb_spec b item.2).
    + zdecide. simpl. rewrite Hrem, Z.max_l by lia. apply IH; try done; try lia; by left.
    + replace ((item.1 <=? a) && (a <? item.2) && ((item.1 <=? b) && false)) with false
        by (by rewrite !andb_false_r).
      zdecide. simpl.
      rewrite Hrem, Z.min_l by lia. apply IH; try done; try lia.
      right. replace (Z.max item.2 b) with b by lia. done.
  - rewrite (proj2 (Z.ltb_ge a item.2)) by lia.
    rewrite (proj2 (Z.ltb_lt end_ a));
      [|destruct Hend as [?|Hend]; [lia|inversion_clear Hend; simpl in *; lia]].
    rewrite (proj2 (Z.leb_gt a item.1)) by lia. by rewrite andb_false_r.
Qed.

Lemma bounded_insert_mid cap s e l1 l2 :
  Forall (λ r, r.1 < s) l1 → Forall (λ r, r.2 < s) l1 →
  Forall (λ r, s < r.1) l2 → ranges_wf l2 →
  zlen (l1 ++ l2) <= cap →
  (let l := l1 ++ (absorb e l2).2 in
   bt_insert s (absorb e l2).1 (if cap <=? zlen l then tail l else l)) =
  bounded_insert cap s e (l1 ++ l2).
Proof.
  intros H1' H1 H2 Hwf Hcap. cbv zeta.
  unfold bounded_insert. rewrite range_insert_skip, range_insert_absorb by done.
  assert (∀ l1' l2', Forall (λ r, r.1 < s) l1' → Forall (λ r, s < r.1) l2' → ∀ v,
    bt_insert s v (l1' ++ l2') = l1' ++ (s, v) :: l2') as Hins
    by (intros; by apply bt_insert_mid).
  assert (Forall (λ r, s < r.1) (absorb e l2).2) as H2'.
  { clear -H2. revert e. induction H2 as [|[a b] l2 ? ? IH]; intros e; simpl; [constructor|].
    zcase; [by constructor|apply IH]. }
  rewrite !zlen_app, zlen_cons in *. destruct (absorb e l2) as [e' l2'] eqn:Habs. simpl in *.
  pose proof (absorb_length e l2) as Hlen. rewrite Habs in Hlen. simpl in Hlen.
  destruct (Z.leb_spec cap (zlen l1 + zlen l2')); zdecide; [|by apply Hins].
  assert (absorb e l2 = (e, l2)) as Habs' by (apply absorb_id; rewrite Habs; simpl; lia).
  rewrite Habs in Habs'. simplify_eq.
  destruct H1' as [|r l1 Hr H1']; simpl.
  - destruct l2 as [|[a b] l2]; simpl; [done|].
    inversion_clear H2. apply ranges_wf_cons in Hwf as (? & ? & ?).
    rewrite range_insert_absorb by done. rewrite <- (app_nil_l l2) at 1.
    rewrite Hins by done. simpl. simpl in Habs. destruct (Z.ltb_spec e a); simplify_eq/=.
    + rewrite absorb_none by forall_lia. done.
    + pose proof (absorb_length (Z.max e b) l2) as Hl. rewrite Habs in Hl. simpl in Hl.
      rewrite zlen_cons in Hl. lia.
  - inversion_clear H1. rewrite Hins, range_insert_skip, range_insert_absorb, Habs by done. done.
Qed.

Lemma bounded_insert_fits cap s e l :
  zlen (range_insert s e l) <= cap → bounded_insert cap s e l = range_insert s e l.
Proof. intros. unfold bounded_insert. by zdecide. Qed.

(** The preceding range of the map, as the split of the list at [s]. *)
Lemma btree_prev_cases s l :
  0 <= s → ranges_wf l →
  ∃ l1 l2, l = l1 ++ l2 ∧ ranges_wf l1 ∧ ranges_wf l2 ∧ Forall (λ r, s < r.1) l2 ∧
    BTreeRangeSet.prev_to l s = last l1 ∧ Forall (λ r, r.1 <= s) l1.
Proof.
  intros Hs Hwf. destruct (bt_split_le s l) as (l1 & l2 & -> & H1 & H2); [by apply ranges_wf_bt|].
  apply ranges_wf_app in Hwf as (? & ? & ?). exists l1, l2.
  unfold BTreeRangeSet.prev_to. by rewrite bt_range_to_app.
Qed.

#[local] Arguments BTreeRangeSet.absorb_next : simpl never.

Lemma btree_insert_in_ref cap s e l :
  0 <= s <= e → ranges_wf l → zlen l <= cap →
  BTreeRangeSet.insert_in (E:=E) cap (s, e) l = Ok (bounded_insert cap s e l).
Proof.
  intros Hse Hwf Hcap. unfold BTreeRangeSet.insert_in. simpl.
  destruct (btree_prev_cases s l) as (l1 & l2 & -> & Hwf1 & Hwf2 & H2 & -> & H1); [lia|done|].
  assert (∀ l1', Forall (λ r, r.1 < s) l1' → Forall (λ r, r.2 < s) l1' → zlen (l1' ++ l2) <= cap →
    ('(l, start, end_) ← BTreeRangeSet.absorb_next (E:=E) (S (length (l1' ++ l2))) (s, e) s e (l1' ++ l2);
     Ok (bt_insert start end_ (if cap <=? zlen l then bt_pop_first l else l))) =
    Ok (bounded_insert cap s e (l1' ++ l2))) as Hplain.
  { intros l1' ? ? ?. rewrite btree_absorb_next; simpl; try done; try lia;
      [|rewrite length_app; lia].
    f_equal. by apply bounded_insert_mid. }
  destruct l1 as [|[ps pe] l1 _] using rev_ind; [by apply Hplain|].
  rewrite last_snoc. apply ranges_wf_app in Hwf1 as (Hwf1 & Hp & Hsep).
  apply ranges_wf_cons in Hp as (? & _ & _). apply Forall_app in H1 as [H1 Hp].
  inversion_clear Hp. simpl in *.
  assert (Forall (λ r, r.2 < ps) l1) as Hsep1
    by (apply (Forall_impl _ _ _ Hsep); intros r Hr; by inversion_clear Hr).
  destruct Hwf1 as [_ Hle].
  assert (Forall (λ r, r.1 < ps) l1) as Hkey1.
  { rewrite Forall_forall in Hsep1, Hle |- *. intros r Hr.
    specialize (Hsep1 r Hr). specialize (Hle r Hr). simpl in *. lia. }
  assert (Forall (λ r, pe < r.1) l2) as Hpe.
  { apply ranges_wf_app in Hwf as (_ & _ & Hs2). rewrite Forall_app in Hs2.
    destruct Hs2 as [_ Hs2]. by inversion_clear Hs2. }
  unfold range_overlaps. simpl.
  replace ((ps <=? s) && (s <=? pe) || (ps <=? e) && (e <=? pe)) with (s <=? pe)
    by (zdecide; destruct (Z.leb_spec s pe), (Z.leb_spec e pe); simpl; done || lia).
  destruct (Z.leb_spec s pe).
  - set (m := Z.max e pe).
    assert ((l1 ++ [(ps, pe)]) ++ l2 = l1 ++ (ps, pe) :: l2) as -> by (by rewrite <- app_assoc).
    assert (range_insert s e (l1 ++ (ps, pe) :: l2) = range_insert ps m (l1 ++ l2)) as Href.
    { rewrite !range_insert_skip by forall_lia. simpl. zdecide. by rewrite Z.min_r by lia. }
    pose proof (range_insert_length ps m (l1 ++ l2)) as Hlen.
    rewrite bt_remove_mid by done. rewrite (Z.min_r s ps) by lia.
    rewrite !zlen_app, !zlen_cons, ?zlen_nil in *.
    rewrite btree_absorb_next; simpl; try done; try lia;
      [|destruct (Z.max_spec e pe) as [[? Hm]|[? Hm]]; subst m; rewrite Hm; [by right|by left]
       |rewrite length_app; simpl; lia].
    rewrite (bounded_insert_fits cap s) by (rewrite Href; lia). rewrite Href.
    rewrite <- (bounded_insert_fits cap) by lia. f_equal.
    apply bounded_insert_mid; try done; [forall_lia|rewrite zlen_app; lia].
  - apply Hplain; [..|done]; apply Forall_app; (split; [forall_lia|]);
      apply Forall_singleton; simpl; lia.
Qed.
End equivalence.

(** ** [remove_until] *)

Definition nonempty (l : list range) : Prop := Forall (λ r, r.1 < r.2) l.

Section remove_until.
Context {E : Type}.
Implicit Types l : list range.

Lemma drop_until_wf L l : 0 <= L → ranges_wf l → ranges_wf (InlineRangeSet.drop_until L l).
Proof.
  intros HL. induction l as [|[a b] l IH]; simpl; [done|]. rewrite ranges_wf_cons.
  intros (? & ? & ?). repeat zcase; [by apply IH|done|].
  apply ranges_wf_cons. split_and!; [lia|lia|done|done].
Qed.

Lemma drop_until_in x L l :
  ranges_wf l → in_ranges x (InlineRangeSet.drop_until L l) ↔ in_ranges x l ∧ L < x.
Proof.
  induction l as [|[a b] l IH]; simpl.
  - intros _. pose proof (in_ranges_nil x). tauto.
  - rewrite ranges_wf_cons. intros (? & Hb & Hl).
    assert (in_ranges x l → b < x) as Hgt.
    { unfold in_ranges. rewrite Exists_exists. intros (r & Hr & ?).
      rewrite Forall_forall in Hb. specialize (Hb r Hr). simpl in *. lia. }
    rewrite in_ranges_cons. simpl. repeat zcase.
    + rewrite IH by done. split; [tauto|]. intros [[?|?] ?]; [lia|tauto].
    + split; [intros Hx; specialize (Hgt Hx); split; [by right|lia]|].
      intros [[?|?] ?]; [lia|done].
    + rewrite in_ranges_cons. simpl.
      assert (Z.max (L + 1) a <= x < b ↔ a <= x < b ∧ L < x) as -> by lia.
      split; [|tauto]. intros [?|Hx]; [tauto|]. specialize (Hgt Hx). split; [by right|lia].
Qed.

Lemma drop_until_length L l : zlen (InlineRangeSet.drop_until L l) <= zlen l.
Proof.
  induction l as [|[a b] l IH]; simpl; [done|]. repeat zcase; rewrite ?zlen_cons; lia.
Qed.

Lemma drop_until_above L l :
  nonempty l → Forall (λ r, L < r.1) l → InlineRangeSet.drop_until L l = l.
Proof.
  intros Hn Hl. destruct l as [|[a b] l]; [done|].
  inversion_clear Hn; inversion_clear Hl; simpl in *.
  zdecide. rewrite Z.max_r by lia. by zdecide.
Qed.

Lemma btree_trim_all L cap l1 l2 :
  ranges_wf (l1 ++ l2) → nonempty (l1 ++ l2) → zlen (l1 ++ l2) <= cap → 0 <= L < u64_max →
  Forall (λ r, r.1 <= L) l1 → Forall (λ r, L < r.1) l2 →
  BTreeRangeSet.trim_all (E:=E) L cap l1 (l1 ++ l2) = Ok (InlineRangeSet.drop_until L (l1 ++ l2)).
Proof.
  induction l1 as [|[a b] l1 IH]; intros Hwf Hne Hcap HL H1 H2; simpl.
  - by rewrite drop_until_above.
  - rewrite <- app_comm_cons in Hwf, Hne, Hcap. rewrite zlen_cons in Hcap.
    apply ranges_wf_cons in Hwf as (? & Hb & Hwf). inversion_clear Hne.
    inversion_clear H1. simpl in *. rewrite Z.eqb_refl, uadd_ok by lia. simpl.
    destruct (Z.leb_spec b L) as [Hle|Hgt].
    { rewrite (proj2 (Z.ltb_ge (L + 1) b)) by lia. by apply IH; try done; try lia. }
    assert (l1 = []) as ->.
    { destruct l1 as [|r l1]; [done|]. simpl in Hb. inversion_clear Hb.
      match goal with H : Forall _ (r :: l1) |- _ => inversion_clear H end. lia. }
    simpl in *. rewrite Z.max_l by lia. destruct (Z.ltb_spec (L + 1) b).
    + rewrite btree_insert_in_ref by (done || lia). rewrite (proj2 (Z.eqb_neq _ _)) by lia.
      simpl. rewrite bounded_insert_fits; rewrite range_insert_absorb by (done || forall_lia);
        rewrite absorb_none by done; simpl; [done|]. rewrite zlen_cons. lia.
    + by rewrite (proj2 (Z.eqb_eq _ _)) by lia.
Qed.
End remove_until.

(** ** The collection's invariant *)

(** Sorted, separated, within capacity, and in the representation [fixup]
    selects for its size. *)
Definition rs_wf (rs : RangeSet.t) : Prop :=
  ranges_wf (RangeSet.iter rs) ∧ zlen (RangeSet.iter rs) <= RangeSet.capacity rs ∧
  MAX_INLINE_CAPACITY <= RangeSet.capacity rs ∧
  match rs with
  | RangeSet.Inline _ => RangeSet.len rs < MAX_INLINE_CAPACITY
  | RangeSet.BTree _ => MIN_TO_INLINE < RangeSet.len rs
  end.

Section rangeset.
Context {E : Type}.
Implicit Types rs : RangeSet.t.

Lemma iter_fixup rs : RangeSet.iter (RangeSet.fixup rs) = RangeSet.iter rs.
Proof. destruct rs as [[l c]|[l c]]; simpl; by zcase. Qed.
Lemma capacity_fixup rs : RangeSet.capacity (RangeSet.fixup rs) = RangeSet.capacity rs.
Proof. destruct rs as [[l c]|[l c]]; simpl; by zcase. Qed.

(** One [fixup] restores the representation after a step of at most one
    range. *)
Lemma fixup_wf rs :
  ranges_wf (RangeSet.iter rs) → zlen (RangeSet.iter rs) <= RangeSet.capacity rs →
  MAX_INLINE_CAPACITY <= RangeSet.capacity rs →
  match rs with
  | RangeSet.Inline _ => RangeSet.len rs <= MAX_INLINE_CAPACITY
  | RangeSet.BTree _ => True
  end → rs_wf (RangeSet.fixup rs).
Proof.
  intros Hwf Hlen Hcap Hrep. unfold rs_wf. rewrite iter_fixup, capacity_fixup.
  split_and!; [done..|].
  destruct rs as [[l c]|[l c]]; simpl in *; zcase; simpl; unfold MAX_INLINE_CAPACITY, MIN_TO_INLINE in *; lia.
Qed.

Lemma bounded_insert_wf cap s e l :
  0 <= s <= e → ranges_wf l → zlen l <= cap → 1 <= cap →
  ranges_wf (bounded_insert cap s e l) ∧ zlen (bounded_insert cap s e l) <= cap.
Proof.
  intros Hse Hwf Hlen Hcap. unfold bounded_insert. zcase.
  - split; [by apply range_insert_wf|done].
  - split; [by apply range_insert_wf, ranges_wf_tail|].
    pose proof (range_insert_length s e (tail l)) as Ht.
    destruct l as [|r l]; simpl in *; [rewrite zlen_nil in *|rewrite zlen_cons in *]; lia.
Qed.

Lemma bounded_insert_length cap s e l :
  zlen (bounded_insert cap s e l) <= zlen l + 1.
Proof.
  unfold bounded_insert. zcase; [apply range_insert_length|].
  pose proof (range_insert_length s e (tail l)).
  destruct l; simpl in *; rewrite ?zlen_cons, ?zlen_nil in *; lia.
Qed.

Lemma rangeset_insert_run s e rs :
  rs_wf rs → 0 <= s <= e →
  ∃ rs', RangeSet.insert (E:=E) (s, e) rs = (Ok (), rs') ∧ rs_wf rs' ∧
    RangeSet.capacity rs' = RangeSet.capacity rs ∧
    RangeSet.iter rs' = bounded_insert (RangeSet.capacity rs) s e (RangeSet.iter rs).
Proof.
  intros (Hwf & Hlen & Hcap & Hrep) Hse. unfold MAX_INLINE_CAPACITY in Hcap.
  destruct (bounded_insert_wf _ s e _ Hse Hwf Hlen) as [Hwf' Hlen']; [lia|].
  pose proof (bounded_insert_length (RangeSet.capacity rs) s e (RangeSet.iter rs)) as Hlen1.
  destruct rs as [[l c]|[l c]]; unfold RangeSet.insert, InlineRangeSet.insert, BTreeRangeSet.insert, mbind, M_bind; simpl in *.
  - pose proof (range_insert_length s e l). unfold MAX_INLINE_CAPACITY in *.
    rewrite bounded_insert_fits in * by lia.
    rewrite (inline_insert_at_ref c s e [] l) by (simpl; done || lia). simpl.
    eexists; split; [done|]. rewrite capacity_fixup, iter_fixup. split; [|done].
    apply fixup_wf; simpl; unfold MAX_INLINE_CAPACITY; try done; try lia.
  - rewrite btree_insert_in_ref by done. simpl.
    eexists; split; [done|]. rewrite capacity_fixup, iter_fixup. split; [|done].
    by apply fixup_wf.
Qed.

Lemma rangeset_remove_until_run L rs :
  rs_wf rs → nonempty (RangeSet.iter rs) → 0 <= L < u64_max →
  ∃ rs', RangeSet.remove_until (E:=E) L rs = (Ok (), rs') ∧ rs_wf rs' ∧
    RangeSet.capacity rs' = RangeSet.capacity rs ∧
    RangeSet.iter rs' = InlineRangeSet.drop_until L (RangeSet.iter rs).
Proof.
  intros (Hwf & Hlen & Hcap & Hrep) Hne HL.
  pose proof (drop_until_wf L _ (proj1 HL) Hwf). pose proof (drop_until_length L (RangeSet.iter rs)).
  destruct rs as [[l c]|[l c]]; unfold RangeSet.remove_until, mbind, M_bind; simpl in *.
  - eexists; split; [done|]. rewrite capacity_fixup, iter_fixup. split; [|done].
    apply fixup_wf; simpl; try done; lia.
  - unfold BTreeRangeSet.remove_until. simpl.
    destruct (bt_split_le L l) as (l1 & l2 & -> & H1 & H2); [by apply ranges_wf_bt|].
    rewrite bt_range_to_app, btree_trim_all by done. simpl.
    eexists; split; [done|]. rewrite capacity_fixup, iter_fixup. split; [|done].
    apply fixup_wf; simpl; try done; lia.
Qed.
End rangeset.

(** ** Views *)

Section views.
Implicit Types rs : RangeSet.t.

Lemma elem_of_flatten rs x :
  x ∈ RangeSet.flatten rs ↔ in_ranges x (RangeSet.iter rs).
Proof.
  unfold RangeSet.flatten, in_ranges. rewrite list_elem_of_bind, Exists_exists.
  split.
  - intros (r & Hx & Hr). exists r. split; [done|]. apply elem_of_seqZ in Hx. lia.
  - intros (r & Hr & Hx). exists r. split; [|done]. apply elem_of_seqZ. lia.
Qed.

Lemma flatten_sorted l :
  ranges_wf l → StronglySorted Z.lt (l ≫= λ r, seqZ r.1 (r.2 - r.1)).
Proof.
  intros [Hs Hf]. induction Hs as [|[a b] l Hs IH Hp]; simpl; [constructor|].
  inversion_clear Hf. simpl in *.
  assert (∀ n m, StronglySorted Z.lt (seqZ m n)) as Hseq.
  { intros n m. destruct (Z.le_gt_cases 0 n) as [Hn|Hn]; [|by rewrite seqZ_nil by lia].
    revert m. pattern n. apply natlike_ind; [|clear n Hn; intros n Hn IHn m|done].
    - intros m. by rewrite seqZ_nil.
    - rewrite seqZ_cons, Z.pred_succ by lia. constructor; [apply IHn|].
      apply Forall_forall. intros x Hx%elem_of_seqZ. lia. }
  generalize (Hseq (b - a) a) as Hab. assert (Forall (λ x, x < b) (seqZ a (b - a))) as Hlt.
  { apply Forall_forall. intros x Hx%elem_of_seqZ. lia. }
  assert (Forall (λ x, b < x) (l ≫= λ r, seqZ r.1 (r.2 - r.1))) as Hgt.
  { apply Forall_forall. intros x (r & Hx%elem_of_seqZ & Hr)%list_elem_of_bind.
    rewrite Forall_forall in Hp. specialize (Hp r Hr). simpl in *. lia. }
  intros Hab. revert Hlt Hab.
  induction (seqZ a (b - a)) as [|x k IHk]; intros Hlt Hab; simpl; [by apply IH|].
  inversion_clear Hlt. inversion_clear Hab. constructor; [by apply IHk|].
  apply Forall_app. split; [done|forall_lia].
Qed.

Lemma ranges_first x r l : ranges_wf (r :: l) → in_ranges x (r :: l) → r.1 <= x.
Proof.
  destruct r as [a b]. rewrite ranges_wf_cons, in_ranges_cons. simpl.
  intros (? & Hb & _) [?|Hx]; [lia|]. unfold in_ranges in Hx.
  apply Exists_exists in Hx as (r & Hr & ?).
  rewrite Forall_forall in Hb. specialize (Hb r Hr). lia.
Qed.

Lemma ranges_last x r l : ranges_wf (l ++ [r]) → in_ranges x (l ++ [r]) → x < r.2.
Proof.
  rewrite ranges_wf_app, in_ranges_app, in_ranges_cons. intros (_ & Hr & Hs) [Hx|[?|Hx]].
  - destruct r as [a b]. apply ranges_wf_cons in Hr as (? & _). unfold in_ranges in Hx.
    apply Exists_exists in Hx as (q & Hq & ?). rewrite Forall_forall in Hs.
    specialize (Hs q Hq). inversion_clear Hs. simpl in *. lia.
  - lia.
  - by apply in_ranges_nil in Hx.
Qed.
End views.

(** ** Properties *)

(** Concrete collections are well-formed by computation. *)
Ltac solve_ranges :=
  repeat first [ apply ranges_wf_nil
               | apply ranges_wf_cons; split_and!; [lia|lia|repeat constructor; simpl; lia|] ].

Ltac solve_rs_wf :=
  refine (conj _ (conj _ (conj _ _)));
    [solve_ranges|vm_compute; discriminate|vm_compute; discriminate|vm_compute; reflexivity].

(** C30. [RangeSet::insert], exactly.  On any well-formed set with room for at
    least four ranges it succeeds and keeps the set sorted, separated, within
    capacity and in the right representation.  With [all] the sorted list of the
    union of the new range and the old ones: as long as [all] fits the capacity it
    is the result; when it does not, and the new range is not below all the
    others, the result is [all] without its smallest range, as the comment in
    [ranges.rs] says.  In the last case, a full set and a new range below all of
    its ranges, the result differs from that comment: the new range, which is the
    smallest, stays, and the smallest of the old ones goes. *)
Theorem rangeset_insert_spec s e (rs : RangeSet.t) :
  rs_wf rs → 0 <= s <= e →
  let old := RangeSet.iter rs in
  let all := range_insert s e old in
  ranges_wf all ∧ (∀ x, in_ranges x all ↔ s <= x < e ∨ in_ranges x old) ∧
  ∃ rs', RangeSet.insert (E:=Error) (s, e) rs = (Ok (), rs') ∧ rs_wf rs' ∧
    RangeSet.capacity rs' = RangeSet.capacity rs ∧
    (zlen all <= RangeSet.capacity rs → RangeSet.iter rs' = all) ∧
    (RangeSet.capacity rs < zlen all → Exists (λ r, r.1 <= e) old → RangeSet.iter rs' = tail all) ∧
    (RangeSet.capacity rs < zlen all → Forall (λ r, e < r.1) old → all = (s, e) :: old ∧ RangeSet.iter rs' = (s, e) :: tail old).
Proof.
  intros Hwf Hse old all. destruct (rangeset_insert_run (E:=Error) s e rs Hwf Hse) as (rs' & Hi & Hwf' & Hc & Hit).
  destruct Hwf as (Hw & Hlen & Hcap & _). fold old in Hw, Hlen, Hit.
  split; [by apply range_insert_wf|]. split; [intros x; apply range_insert_in; [lia|done]|].
  exists rs'. rewrite Hit. unfold bounded_insert. fold all. split_and!; [done..| | |].
  - intros Hf. by rewrite (proj2 (Z.leb_le _ _) Hf).
  - intros Hover Hex. rewrite (proj2 (Z.leb_gt _ _) Hover). destruct old as [|[a b] l]; [by inversion Hex|].
    assert (a <= e) as Ha.
    { pose proof Hw as (? & Hb & _)%ranges_wf_cons. apply Exists_cons in Hex as [?|Hex]; [done|].
      apply Exists_exists in Hex as (r & Hr & Hle). rewrite Forall_forall in Hb. specialize (Hb r Hr). cbn in *. lia. }
    destruct (overflow_head _ _ _ _ _ _ (proj2 Hse) Hw Hlen Hover Ha) as (Hbs & _). subst all. simpl. by zdecide.
  - intros Hover Hb. rewrite (proj2 (Z.leb_gt _ _) Hover). subst all. destruct old as [|[a b] l].
    { unfold MAX_INLINE_CAPACITY in Hcap. change (zlen (range_insert s e [])) with 1 in Hover. lia. }
    pose proof Hw as (Hab & Hlt & Hwl)%ranges_wf_cons. apply Forall_cons in Hb as [Ha Hb]. cbn in Ha. simpl. zdecide.
    split; [done|]. destruct l as [|[c d] l]; [done|]. apply Forall_cons in Hlt as [Hcd _]. apply ranges_wf_cons in Hwl as (Hd & _). cbn in *. by zdecide.
Qed.

Lemma rangeset_insert_spec_witness :
  (∃ rs', RangeSet.insert (E:=Error) (4, 9) (RangeSet.Inline (InlineRangeSet.mk [(1, 3); (8, 10)] 68))
         = (Ok (), rs') ∧ RangeSet.iter rs' = [(1, 3); (4, 10)]) ∧
  (∃ rs', RangeSet.insert (E:=Error) (1, 2) (RangeSet.BTree (BTreeRangeSet.mk [(4, 5); (8, 10); (12, 13); (20, 21)] 4))
         = (Ok (), rs') ∧ RangeSet.iter rs' = [(1, 2); (8, 10); (12, 13); (20, 21)]).
Proof.
  split.
  - destruct (rangeset_insert_spec 4 9 (RangeSet.Inline (InlineRangeSet.mk [(1, 3); (8, 10)] 68)))
      as (_ & _ & rs' & Hi & _ & _ & Hf & _); [solve_rs_wf|lia|].
    exists rs'. split; [exact Hi|]. rewrite Hf; [reflexivity|vm_compute; discriminate].
  - destruct (rangeset_insert_spec 1 2 (RangeSet.BTree (BTreeRangeSet.mk [(4, 5); (8, 10); (12, 13); (20, 21)] 4)))
      as (_ & _ & rs' & Hi & _ & _ & _ & _ & Hb); [solve_rs_wf|lia|].
    exists rs'. split; [exact Hi|]. apply Hb; [reflexivity|]. repeat constructor.
Defined.

(** The small-vector and the B-tree insertions are interchangeable: both
    produce the list of ranges of the reference insertion, as long as the result
    fits the capacity or the new range is not below all the others (below all of
    a full set they differ, [insert_below_at_capacity], but a small vector is
    never full in a [RangeSet] of capacity four or more); and so do the two
    [remove_until]s on non-empty ranges, up to any bound below 2^64 - 1. *)
Theorem representations_agree cap s e L (l : list range) :
  ranges_wf l → nonempty l → 0 <= s <= e → zlen l <= cap → zlen (range_insert s e l) <= cap ∨ Exists (λ r, r.1 <= e) l →
  0 <= L < u64_max →
  (InlineRangeSet.insert (E:=Error) (s, e) (InlineRangeSet.mk l cap) =
     (Ok (), InlineRangeSet.mk (bounded_insert cap s e l) cap) ∧
   BTreeRangeSet.insert (E:=Error) (s, e) (BTreeRangeSet.mk l cap) =
     (Ok (), BTreeRangeSet.mk (bounded_insert cap s e l) cap)) ∧
  ∃ l', InlineRangeSet.remove_until (E:=Error) L (InlineRangeSet.mk l cap) =
          (Ok (), InlineRangeSet.mk l' cap) ∧
        BTreeRangeSet.remove_until (E:=Error) L (BTreeRangeSet.mk l cap) =
          (Ok (), BTreeRangeSet.mk l' cap).
Proof.
  intros Hwf Hne Hse Hlen Hcap HL. split; [split|].
  - unfold InlineRangeSet.insert. simpl. by rewrite inline_insert_bounded.
  - unfold BTreeRangeSet.insert. simpl. by rewrite btree_insert_in_ref.
  - exists (InlineRangeSet.drop_until L l). split; [done|]. unfold BTreeRangeSet.remove_until. simpl.
    destruct (bt_split_le L l) as (l1 & l2 & -> & H1 & H2); [by apply ranges_wf_bt|].
    by rewrite bt_range_to_app, btree_trim_all.
Qed.

Lemma representations_agree_witness :
  BTreeRangeSet.insert (E:=Error) (3, 8) (BTreeRangeSet.mk [(1, 3); (8, 10); (12, 13)] 9) =
  (Ok (), BTreeRangeSet.mk [(1, 10); (12, 13)] 9).
Proof.
  refine (proj2 (proj1 (representations_agree 9 3 8 0 [(1, 3); (8, 10); (12, 13)] _ _ _ _ _ _))).
  - solve_ranges.
  - repeat constructor.
  - lia.
  - vm_compute; discriminate.
  - left. vm_compute; discriminate.
  - lia.
Defined.

(** [RangeSet::remove_until] forgets exactly the integers up to and
    including its bound, in either representation, and keeps the invariant. *)
Theorem rangeset_remove_until_spec L (rs : RangeSet.t) :
  rs_wf rs → nonempty (RangeSet.iter rs) → 0 <= L < u64_max →
  ∃ rs', RangeSet.remove_until (E:=Error) L rs = (Ok (), rs') ∧ rs_wf rs' ∧
    ∀ x, in_ranges x (RangeSet.iter rs') ↔ in_ranges x (RangeSet.iter rs) ∧ L < x.
Proof.
  intros Hwf Hne HL.
  destruct (rangeset_remove_until_run (E:=Error) L rs Hwf Hne HL) as (rs' & Hr & Hwf' & _ & Hit).
  exists rs'. split_and!; [done..|]. intros x. rewrite Hit. apply drop_until_in, Hwf.
Qed.

Lemma rangeset_remove_until_spec_witness :
  ∃ rs', RangeSet.remove_until (E:=Error) 8
           (RangeSet.BTree (BTreeRangeSet.mk [(1, 3); (8, 10); (12, 13)] 68)) = (Ok (), rs') ∧
         rs' = RangeSet.Inline (InlineRangeSet.mk [(9, 10); (12, 13)] 68).
Proof.
  destruct (rangeset_remove_until_spec 8
    (RangeSet.BTree (BTreeRangeSet.mk [(1, 3); (8, 10); (12, 13)] 68))) as (rs' & Hr & _).
  - solve_rs_wf.
  - repeat constructor.
  - lia.
  - exists rs'. split; [exact Hr|]. vm_compute in Hr. congruence.
Defined.

(** The views of a well-formed set agree with it: [flatten] enumerates its
    integers in strictly increasing order, [first] is the least and [last] the
    greatest of them, and comparison with a plain range holds exactly when that
    range is the only one stored. *)
Theorem rangeset_views (rs : RangeSet.t) :
  rs_wf rs → nonempty (RangeSet.iter rs) →
  (∀ x, x ∈ RangeSet.flatten rs ↔ in_ranges x (RangeSet.iter rs)) ∧
  StronglySorted Z.lt (RangeSet.flatten rs) ∧
  (∀ m, RangeSet.first rs = Some m →
     in_ranges m (RangeSet.iter rs) ∧ ∀ x, in_ranges x (RangeSet.iter rs) → m <= x) ∧
  (∃ o, RangeSet.last (E:=Error) rs = Ok o ∧
     ∀ m, o = Some m → in_ranges m (RangeSet.iter rs) ∧
                       ∀ x, in_ranges x (RangeSet.iter rs) → x <= m) ∧
  (∀ r, RangeSet.eq_range rs r = true ↔ RangeSet.iter rs = [r]).
Proof.
  intros (Hwf & _) Hne. split_and!.
  - intros x. apply elem_of_flatten.
  - by apply flatten_sorted.
  - intros m Hm. assert (fst <$> head (RangeSet.iter rs) = Some m) as Hh by (by destruct rs).
    destruct (RangeSet.iter rs) as [|r l]; simplify_eq/=. inversion_clear Hne.
    split; [apply in_ranges_cons; left; lia|]. intros x. by apply ranges_first.
  - assert (RangeSet.last (E:=Error) rs = match bt_last (RangeSet.iter rs) with
            | None => Ok None | Some r => v ← usub r.2 1; Ok (Some v) end) as -> by (by destruct rs).
    unfold bt_last. destruct (RangeSet.iter rs) as [|r l _] using rev_ind; [by exists None|].
    rewrite last_snoc. apply Forall_app in Hne as [_ Hr]. inversion_clear Hr.
    destruct r as [a b]. pose proof Hwf as Hwf'.
    apply ranges_wf_app in Hwf' as (_ & Hr & _). apply ranges_wf_cons in Hr as (? & _).
    simpl in *. exists (Some (b - 1)). rewrite usub_ok by lia. split; [done|].
    intros m ?. simplify_eq. split.
    + apply in_ranges_app. right. apply in_ranges_cons. left. simpl. lia.
    + intros x Hx. pose proof (ranges_last x (a, b) l Hwf Hx). simpl in *. lia.
  - intros [s e]. unfold RangeSet.eq_range.
    assert (RangeSet.len rs = zlen (RangeSet.iter rs)) as -> by (by destruct rs).
    destruct (RangeSet.iter rs) as [|[a b] [|q l]].
    + split; discriminate.
    + simpl. rewrite andb_true_iff, !Z.eqb_eq. split; [by intros [-> ->]|by intros [= -> ->]].
    + rewrite (proj2 (Z.eqb_neq (zlen _) 1)) by (rewrite !zlen_cons; pose proof (zlen_nonneg l); lia).
      split; discriminate.
Qed.

Lemma rangeset_views_witness :
  RangeSet.flatten (RangeSet.Inline (InlineRangeSet.mk [(1, 3); (8, 10)] 68)) = [1; 2; 8; 9] ∧
  StronglySorted Z.lt (RangeSet.flatten (RangeSet.Inline (InlineRangeSet.mk [(1, 3); (8, 10)] 68))).
Proof.
  split; [vm_compute; reflexivity|].
  apply (rangeset_views (RangeSet.Inline (InlineRangeSet.mk [(1, 3); (8, 10)] 68))).
  - solve_rs_wf.
  - repeat constructor.
Defined.

(** At capacity, inserting below every stored range drops the smallest
    {e stored} range and keeps the new, smaller one, in the B-tree
    representation; the small vector aborts instead (its index underflows). *)
Theorem insert_below_at_capacity cap s e r (l : list range) :
  ranges_wf (r :: l) → 0 <= s <= e → e < r.1 → zlen (r :: l) = cap →
  BTreeRangeSet.insert (E:=Error) (s, e) (BTreeRangeSet.mk (r :: l) cap) =
    (Ok (), BTreeRangeSet.mk ((s, e) :: l) cap) ∧
  InlineRangeSet.insert (E:=Error) (s, e) (InlineRangeSet.mk (r :: l) cap) =
    (Panic, InlineRangeSet.mk (r :: l) cap).
Proof.
  destruct r as [a b]. intros Hwf Hse He Hlen. pose proof Hwf as Hwf'.
  apply ranges_wf_cons in Hwf' as (? & Hb & Hl). simpl in He. split.
  - unfold BTreeRangeSet.insert. simpl. rewrite btree_insert_in_ref by (done || lia).
    unfold bounded_insert. simpl. zdecide. rewrite zlen_cons in *. rewrite zlen_cons. zdecide.
    rewrite range_insert_absorb, absorb_none by (done || forall_lia). done.
  - unfold InlineRangeSet.insert. simpl. zdecide. done.
Qed.

Lemma insert_below_at_capacity_witness :
  InlineRangeSet.insert (E:=Error) (1, 5) (InlineRangeSet.mk [(10, 20)] 1) =
  (Panic, InlineRangeSet.mk [(10, 20)] 1).
Proof.
  apply (insert_below_at_capacity 1 1 5 (10, 20) []).
  - solve_ranges.
  - lia.
  - simpl; lia.
  - reflexivity.
Defined.
