(* ===== verification/FlowCtl.v ===== *)
(** * Receive flow control: [quiche/src/flowcontrol.rs]

    Instants and durations are integers (nanoseconds); [Instant - Instant]
    saturates at zero, as in the standard library. *)
From S2P Require Import Prelude.

Definition WINDOW_INCREASE_FACTOR : Z := 2.
Definition WINDOW_TRIGGER_FACTOR : Z := 2.

(** [Instant::sub], [Instant::duration_since] *)
Definition duration_since (later earlier : Z) : Z := Z.max 0 (later - earlier).

Module FlowControl.
Record t := mk {
  consumed : Z;
  max_data : Z;
  window : Z;
  max_window : Z;
  last_update : option Z
}.

Definition new (max_data window max_window : Z) : t := mk 0 max_data window max_window None.

Section methods.
Context {E : Type}.

Definition add_consumed (n : Z) : M t E unit :=
  fc ← get;
  c ← lift (uadd (consumed fc) n);
  put (mk c (max_data fc) (window fc) (max_window fc) (last_update fc)).

Definition should_update_max_data (fc : t) : result E bool :=
  available_window ← usub (max_data fc) (consumed fc);
  mret (available_window <? window fc / 2).

Definition max_data_next (fc : t) : result E Z := uadd (consumed fc) (window fc).

Definition update_max_data (now : Z) : M t E unit :=
  m ← reads max_data_next;
  modify (λ fc, mk (consumed fc) m (window fc) (max_window fc) (Some now)).

Definition autotune_window (now rtt : Z) : M t E unit :=
  fc ← get;
  match last_update fc with
  | Some last =>
      if duration_since now last <? rtt * WINDOW_TRIGGER_FACTOR then
        w ← lift (umul (window fc) WINDOW_INCREASE_FACTOR);
        put (mk (consumed fc) (max_data fc) (Z.min w (max_window fc)) (max_window fc)
                (last_update fc))
      else mret ()
  | None => mret ()
  end.

Definition ensure_window_lower_bound (min_window : Z) : M t E unit :=
  modify (λ fc,
    if window fc <? min_window
    then mk (consumed fc) (max_data fc) min_window (max_window fc) (last_update fc)
    else fc).
End methods.

(** The peer has not been read past its limit, and the next limit fits. *)
Definition wf (fc : t) : Prop :=
  0 <= consumed fc <= max_data fc ∧ max_data fc <= u64_max ∧
  0 <= window fc ∧ consumed fc + window fc <= u64_max.

Lemma add_consumed_run {E} n fc :
  0 <= consumed fc + n <= u64_max →
  add_consumed (E:=E) n fc =
  (Ok (), mk (consumed fc + n) (max_data fc) (window fc) (max_window fc) (last_update fc)).
Proof.
  intros. unfold add_consumed. rewrite run_bind_get.
  by rewrite (run_bind_lift _ _ _ (consumed fc + n)) by (apply uadd_ok; lia).
Qed.

Lemma should_update_run {E} fc :
  consumed fc <= max_data fc →
  should_update_max_data (E:=E) fc = Ok (max_data fc - consumed fc <? window fc / 2).
Proof. intros. unfold should_update_max_data. by rewrite usub_ok. Qed.

Lemma update_max_data_run {E} now fc :
  consumed fc + window fc <= u64_max →
  update_max_data (E:=E) now fc =
  (Ok (), mk (consumed fc) (consumed fc + window fc) (window fc) (max_window fc) (Some now)).
Proof.
  intros. unfold update_max_data.
  rewrite (run_bind_reads _ _ _ (consumed fc + window fc)) by (by apply uadd_ok). done.
Qed.
End FlowControl.

(** ** Properties *)

(** Committing a flow-control update: when the controller asks for one, the
    new limit is strictly larger than the old one (credit is never taken
    back), the peer can send exactly one window beyond what was consumed, and
    the request is satisfied; with a positive window a limit is never
    announced twice in a row. *)
Theorem flow_update_grows now (fc : FlowControl.t) :
  FlowControl.wf fc → FlowControl.should_update_max_data (E:=Error) fc = Ok true →
  ∃ fc', FlowControl.update_max_data (E:=Error) now fc = (Ok (), fc') ∧ FlowControl.wf fc' ∧
    FlowControl.max_data fc < FlowControl.max_data fc' ∧
    FlowControl.max_data fc' - FlowControl.consumed fc' = FlowControl.window fc ∧
    FlowControl.should_update_max_data (E:=Error) fc' = Ok false.
Proof.
  intros (? & ? & ? & ?) Hs. rewrite FlowControl.should_update_run in Hs by lia.
  injection Hs as Hs. apply Z.ltb_lt in Hs.
  pose proof (Z.div_le_upper_bound (FlowControl.window fc) 2 (FlowControl.window fc) ltac:(lia) ltac:(lia)).
  eexists. rewrite FlowControl.update_max_data_run by done. split; [done|].
  unfold FlowControl.wf. simpl. split_and!; try lia.
  rewrite FlowControl.should_update_run by (simpl; lia). simpl. f_equal.
  apply Z.ltb_ge. lia.
Qed.

Lemma flow_update_grows_witness :
  ∃ fc', FlowControl.update_max_data (E:=Error) 7 (FlowControl.mk 95 100 20 100 None) = (Ok (), fc') ∧
    FlowControl.max_data fc' = 115.
Proof.
  destruct (flow_update_grows 7 (FlowControl.mk 95 100 20 100 None)) as (fc' & Hu & _).
  - unfold FlowControl.wf. simpl. lia.
  - vm_compute. reflexivity.
  - exists fc'. split; [exact Hu|]. vm_compute in Hu. by simplify_eq.
Defined.

(** Window autotuning doubles the window when two updates are closer than
    two round trips and otherwise leaves it alone; the result never exceeds
    the larger of the old window and the configured maximum, and nothing but
    the window changes. *)
Theorem autotune_window_spec now rtt (fc : FlowControl.t) :
  0 <= FlowControl.window fc → FlowControl.window fc * 2 <= u64_max →
  ∃ fc', FlowControl.autotune_window (E:=Error) now rtt fc = (Ok (), fc') ∧
    FlowControl.window fc' =
      (if match FlowControl.last_update fc with
          | Some last => duration_since now last <? 2 * rtt
          | None => false
          end
       then Z.min (2 * FlowControl.window fc) (FlowControl.max_window fc)
       else FlowControl.window fc) ∧
    FlowControl.window fc' <= Z.max (FlowControl.window fc) (FlowControl.max_window fc) ∧
    FlowControl.consumed fc' = FlowControl.consumed fc ∧
    FlowControl.max_data fc' = FlowControl.max_data fc ∧
    FlowControl.max_window fc' = FlowControl.max_window fc ∧
    FlowControl.last_update fc' = FlowControl.last_update fc.
Proof.
  intros Hw Hw2. unfold FlowControl.autotune_window. rewrite run_bind_get.
  unfold WINDOW_TRIGGER_FACTOR, WINDOW_INCREASE_FACTOR.
  destruct (FlowControl.last_update fc) as [last|] eqn:Hl.
  - rewrite (Z.mul_comm rtt). zcase.
    + rewrite (run_bind_lift _ _ _ _ (umul_ok _ _ Hw2)). eexists. split; [done|].
      simpl. split_and!; try done; lia.
    + exists fc. split_and!; try done; lia.
  - exists fc. split_and!; try done; lia.
Qed.

Lemma autotune_window_spec_witness :
  ∃ fc', FlowControl.autotune_window (E:=Error) 15 10 (FlowControl.mk 0 100 20 100 (Some 0)) = (Ok (), fc') ∧
    FlowControl.window fc' = 40.
Proof.
  destruct (autotune_window_spec 15 10 (FlowControl.mk 0 100 20 100 (Some 0))) as (fc' & Hu & Hw & _).
  - simpl; lia.
  - simpl; lia.
  - exists fc'. split; [exact Hu|]. rewrite Hw. reflexivity.
Defined.
