(* ===== verification/RangeBufs.v ===== *)
(** * Stream data chunks: [RangeBuf] of [quiche/src/stream/mod.rs]

    A chunk is a view of a shared, never mutated byte vector, so sharing is not
    observable and the vector is a plain list.  [wf] is the struct's invariant;
    under it no accessor over- or underflows ([accessors_in_range]), which is
    why the accessors are plain arithmetic. *)
From S2P Require Import Prelude OctetsLib.

Module RangeBuf.
Record t := mk {
  data : list Z;
  start : Z;
  pos : Z;
  len_ : Z;
  off_ : Z;
  fin : bool
}.

#[export] Instance t_eq_dec : EqDecision t.
Proof. solve_decision. Defined.

(** [RangeBuf::from] *)
Definition from (buf : list Z) (off : Z) (fin : bool) : t := mk buf 0 0 (zlen buf) off fin.

Definition off (b : t) : Z := (off_ b - start b) + pos b.
Definition len (b : t) : Z := len_ b - (pos b - start b).
Definition max_off (b : t) : Z := off b + len b.
Definition is_empty (b : t) : bool := len b =? 0.
Definition consume (count : Z) (b : t) : t :=
  mk (data b) (start b) (pos b + count) (len_ b) (off_ b) (fin b).

(** [split_off]: the part kept in [self] and the part returned; the split
    index is checked by an [assert!]. *)
Definition split_off {E} (at_ : Z) (b : t) : result E (t * t) :=
  if at_ <=? len_ b then
    Ok (mk (data b) (start b) (Z.min (pos b) (start b + at_)) at_ (off_ b) false,
        mk (data b) (start b + at_) (Z.max (pos b) (start b + at_)) (len_ b - at_)
           (off_ b + at_) (fin b))
  else Panic.

(** [Deref]: the bytes not yet consumed. *)
Definition deref (b : t) : list Z := zslice (pos b) (start b + len_ b) (data b).

Definition wf (b : t) : Prop :=
  0 <= start b <= pos b ∧ pos b <= start b + len_ b ∧ start b + len_ b <= zlen (data b) ∧
  start b <= off_ b ∧ off_ b + len_ b <= u64_max.

(** Nothing consumed yet. *)
Definition fresh (b : t) : Prop := pos b = start b.

(** The chunk carries byte [x] at stream offset [o]. *)
Definition holds (b : t) (o x : Z) : Prop :=
  off b <= o < max_off b ∧ deref b !! Z.to_nat (o - off b) = Some x.

Lemma accessors_in_range b :
  wf b →
  0 <= pos b - start b <= u64_max ∧ 0 <= off_ b - start b ∧ 0 <= off b <= u64_max ∧
  0 <= len b <= u64_max ∧ 0 <= max_off b <= u64_max ∧ zlen (deref b) = len b.
Proof.
  intros (? & ? & ? & ? & ?). unfold max_off, off, len, deref.
  split_and!; try lia. rewrite zlen_zslice; lia.
Qed.

Lemma len_nonneg b : wf b → 0 <= len b.
Proof. intros (? & ? & ? & ? & ?). unfold len. lia. Qed.
Lemma off_le_max b : wf b → off b <= max_off b.
Proof. intros Hwf. pose proof (len_nonneg b Hwf). unfold max_off. lia. Qed.
Lemma off_nonneg b : wf b → 0 <= off b.
Proof. intros (? & ? & ? & ? & ?). unfold off. lia. Qed.
Lemma zlen_deref b : wf b → zlen (deref b) = len b.
Proof. intros Hwf. by apply accessors_in_range. Qed.

Lemma from_wf buf o f : 0 <= o → o + zlen buf <= u64_max → wf (from buf o f).
Proof. intros. pose proof (zlen_nonneg buf). unfold wf, from. simpl. lia. Qed.
Lemma from_fresh buf o f : fresh (from buf o f).
Proof. done. Qed.
Lemma off_from buf o f : off (from buf o f) = o.
Proof. unfold off, from. simpl. lia. Qed.
Lemma max_off_from buf o f : max_off (from buf o f) = o + zlen buf.
Proof. unfold max_off, off, len, from. simpl. lia. Qed.
Lemma deref_from buf o f : deref (from buf o f) = buf.
Proof.
  unfold deref, from, zslice. cbn [pos start len_ data].
  rewrite zdrop_0. apply ztake_all. lia.
Qed.

Lemma holds_from buf o f i x :
  holds (from buf o f) i x ↔ o <= i ∧ buf !! Z.to_nat (i - o) = Some x.
Proof.
  unfold holds. rewrite max_off_from, off_from, deref_from. unfold zlen. split; [tauto|].
  intros [? Hx]. pose proof (lookup_lt_Some _ _ _ Hx). split; [lia|done].
Qed.

Lemma holds_fun b o x y : holds b o x → holds b o y → x = y.
Proof. intros [_ ?] [_ ?]. congruence. Qed.

Lemma holds_total b o : wf b → off b <= o < max_off b → ∃ x, holds b o x.
Proof.
  intros Hwf Ho. destruct (lookup_lt_is_Some_2 (deref b) (Z.to_nat (o - off b))) as [x Hx].
  - pose proof (zlen_deref b Hwf) as Hl. unfold zlen, max_off in *. lia.
  - exists x. split; done.
Qed.

(** The bytes are those of the underlying vector, at a fixed displacement. *)
Lemma holds_data b o x :
  wf b → holds b o x ↔
  off b <= o < max_off b ∧ data b !! Z.to_nat (o - (off_ b - start b)) = Some x.
Proof.
  intros (? & ? & ? & ? & ?). unfold holds, deref, zslice, ztake, zdrop.
  unfold max_off, off, len.
  split; intros [Ho Hx]; (split; [done|]).
  - rewrite lookup_take, lookup_drop in Hx. case_decide; [|done].
    rewrite <- Hx. f_equal. lia.
  - rewrite lookup_take, lookup_drop. rewrite decide_True by lia.
    rewrite <- Hx. f_equal. lia.
Qed.

(** Splitting a fresh chunk cuts its offsets in two. *)
Lemma split_off_fresh {E} at_ b :
  wf b → fresh b → 0 <= at_ <= len b →
  ∃ h t, split_off (E:=E) at_ b = Ok (h, t) ∧ wf h ∧ wf t ∧ fresh h ∧ fresh t ∧
    off h = off b ∧ max_off h = off b + at_ ∧ off t = off b + at_ ∧ max_off t = max_off b ∧
    fin h = false ∧ fin t = fin b ∧
    (∀ o x, holds h o x ↔ holds b o x ∧ o < off b + at_) ∧
    (∀ o x, holds t o x ↔ holds b o x ∧ off b + at_ <= o).
Proof.
  intros Hwf Hf Hat. unfold fresh in Hf. unfold split_off. unfold len in Hat.
  rewrite (proj2 (Z.leb_le _ _)) by lia. eexists _, _. split; [done|].
  pose proof Hwf as (? & ? & ? & ? & ?).
  set (h := mk _ _ _ at_ _ _). set (t := mk _ _ _ (len_ b - at_) _ _).
  assert (wf h ∧ wf t) as [Hh Ht] by (unfold wf; subst h t; simpl; lia).
  assert (off h = off b ∧ max_off h = off b + at_ ∧ off t = off b + at_ ∧ max_off t = max_off b)
    as (E1 & E2 & E3 & E4) by (unfold max_off, off, len; subst h t; simpl; lia).
  split_and!; try done; try (unfold fresh; subst h t; simpl; lia); intros o x;
    rewrite !holds_data, ?E1, ?E2, ?E3, ?E4 by done; subst h t; simpl.
  - unfold max_off, len. split; [intros [? ?]; split; [split; [lia|done]|lia]|].
    intros [[? ?] ?]. split; [lia|done].
  - replace (off_ b + at_ - (start b + at_)) with (off_ b - start b) by lia.
    split; [intros [? ?]; split; [split; [lia|done]|lia]|].
    intros [[? ?] ?]. split; [lia|done].
Qed.

Lemma consume_wf n b : wf b → 0 <= n <= len b → wf (consume n b).
Proof. intros (? & ? & ? & ? & ?). unfold len, wf, consume. simpl. lia. Qed.

Lemma off_consume n b : off (consume n b) = off b + n.
Proof. unfold off, consume. simpl. lia. Qed.
Lemma len_consume n b : len (consume n b) = len b - n.
Proof. unfold len, consume. simpl. lia. Qed.
Lemma max_off_consume n b : max_off (consume n b) = max_off b.
Proof. unfold max_off. rewrite off_consume, len_consume. lia. Qed.

Lemma holds_consume n b o x :
  wf b → 0 <= n <= len b → holds (consume n b) o x ↔ holds b o x ∧ off b + n <= o.
Proof.
  intros Hwf Hn. rewrite !holds_data by (done || by apply consume_wf).
  rewrite off_consume, max_off_consume. simpl.
  split; [intros [? ?]; split; [split; [lia|done]|lia]|]. intros [[? ?] ?]. split; [lia|done].
Qed.

(** Reading [n] bytes off the front. *)
Lemma deref_prefix n b i x :
  wf b → 0 <= n <= len b → (i < Z.to_nat n)%nat →
  ztake n (deref b) !! i = Some x ↔ holds b (off b + Z.of_nat i) x.
Proof.
  intros Hwf Hn Hi. unfold ztake. rewrite lookup_take, decide_True by done.
  unfold holds. replace (Z.to_nat (off b + Z.of_nat i - off b)) with i by lia.
  unfold max_off. split; [intros; split; [lia|done]|by intros [_ ?]].
Qed.
End RangeBuf.
