(* ===== verification/RecvBufs.v ===== *)
(** * Receive-side stream buffer: [quiche/src/stream/recv_buf.rs]

    [RecvBuf] keeps the received chunks in a [BTreeMap] keyed by the chunks'
    end offset.  The file has the code's operations ([Module RecvBuf]), the
    buffer's invariant, and what the operations do to the partial map from
    stream offsets to bytes that the buffer stores ([stores]). *)
From S2P Require Import Prelude OctetsLib BTree FlowCtl RangeBufs.

Definition DEFAULT_STREAM_WINDOW : Z := 32 * 1024.

Module RecvBuf.
Record t := mk {
  data : list (Z * RangeBuf.t);
  off : Z;
  len : Z;
  flow_control : FlowControl.t;
  fin_off : option Z;
  error : option Z;
  drain : bool
}.

Definition set_data (d : list (Z * RangeBuf.t)) (rb : t) : t :=
  mk d (off rb) (len rb) (flow_control rb) (fin_off rb) (error rb) (drain rb).
Definition set_off (o : Z) (rb : t) : t :=
  mk (data rb) o (len rb) (flow_control rb) (fin_off rb) (error rb) (drain rb).
Definition set_len (l : Z) (rb : t) : t :=
  mk (data rb) (off rb) l (flow_control rb) (fin_off rb) (error rb) (drain rb).
Definition set_flow_control (fc : FlowControl.t) (rb : t) : t :=
  mk (data rb) (off rb) (len rb) fc (fin_off rb) (error rb) (drain rb).
Definition set_fin_off (f : option Z) (rb : t) : t :=
  mk (data rb) (off rb) (len rb) (flow_control rb) f (error rb) (drain rb).
Definition set_error (e : option Z) (rb : t) : t :=
  mk (data rb) (off rb) (len rb) (flow_control rb) (fin_off rb) e (drain rb).
Definition set_drain (b : bool) (rb : t) : t :=
  mk (data rb) (off rb) (len rb) (flow_control rb) (fin_off rb) (error rb) b.

Definition new (max_data max_window : Z) : t :=
  mk [] 0 0 (FlowControl.new max_data (Z.min max_data DEFAULT_STREAM_WINDOW) max_window)
     None None false.

Definition off_front (rb : t) : Z := off rb.
Definition max_off (rb : t) : Z := len rb.
Definition max_data (rb : t) : Z := FlowControl.max_data (flow_control rb).
Definition window (rb : t) : Z := FlowControl.window (flow_control rb).
Definition is_draining (rb : t) : bool := drain rb.
Definition is_fin (rb : t) : bool := bool_decide (fin_off rb = Some (off rb)).

Definition ready (rb : t) : bool :=
  match bt_first (data rb) with
  | Some (_, buf) => RangeBuf.off buf =? off rb
  | None => false
  end.

(** The [for (_, b) in self.data.range(buf.off()..)] loop of [write]: what is
    left of [buf] to insert ([None] on [continue 'tmp]) and the queue. *)
Fixpoint overlap (buf : RangeBuf.t) (tmp : list RangeBuf.t) (bs : list (Z * RangeBuf.t))
    : result Error (option RangeBuf.t * list RangeBuf.t) :=
  match bs with
  | [] => Ok (Some buf, tmp)
  | (_, b) :: bs' =>
      let off := RangeBuf.off buf in
      if RangeBuf.max_off buf <? RangeBuf.off b then Ok (Some buf, tmp)
      else if (RangeBuf.off b <=? off) && (RangeBuf.max_off buf <=? RangeBuf.max_off b) then
        Ok (None, tmp)
      else
        buf ← (if (RangeBuf.off b <=? off) && (off <? RangeBuf.max_off b) then
                 '(_, tail) ← RangeBuf.split_off (RangeBuf.max_off b - off) buf; Ok tail
               else Ok buf);
        if (off <? RangeBuf.off b) && (RangeBuf.off b <? RangeBuf.max_off buf) then
          '(head, tail) ← RangeBuf.split_off (RangeBuf.off b - off) buf;
          overlap head (tmp ++ [tail]) bs'
        else overlap buf tmp bs'
  end.

(** The ['tmp] loop of [write]; it turns once for each queued chunk, and a
    queued tail is shorter than the chunk it was cut from. *)
Fixpoint write_loop (fuel : nat) (tmp_bufs : list RangeBuf.t) : M t Error unit :=
  match fuel, tmp_bufs with
  | _, [] => mret ()
  | O, _ => panic
  | S fuel', buf :: tmp =>
      rb ← get;
      buf ← lift (if RangeBuf.off buf <? off_front rb then
                    '(_, tail) ← RangeBuf.split_off (off_front rb - RangeBuf.off buf) buf; Ok tail
                  else Ok buf);
      '(kept, tmp) ← lift
        (if (RangeBuf.off buf <? max_off rb) || RangeBuf.is_empty buf
         then overlap buf tmp (bt_range_from (RangeBuf.off buf) (data rb))
         else Ok (Some buf, tmp));
      match kept with
      | None => write_loop fuel' tmp
      | Some buf =>
          modify (λ rb, set_len (Z.max (len rb) (RangeBuf.max_off buf)) rb);;
          modify (λ rb, if drain rb then rb
                        else set_data (bt_insert (RangeBuf.max_off buf) buf (data rb)) rb);;
          write_loop fuel' tmp
      end
  end.

Definition write_fuel (buf : RangeBuf.t) : nat := S (Z.to_nat (RangeBuf.len buf)).

Definition write (buf : RangeBuf.t) : M t Error unit :=
  rb ← get;
  if max_data rb <? RangeBuf.max_off buf then fail FlowControl
  else if match fin_off rb with
          | Some fin_off =>
              (fin_off <? RangeBuf.max_off buf)
              || RangeBuf.fin buf && negb (fin_off =? RangeBuf.max_off buf)
          | None => false
          end then fail FinalSize
  else if RangeBuf.fin buf && (RangeBuf.max_off buf <? len rb) then fail FinalSize
  else if bool_decide (is_Some (fin_off rb)) && RangeBuf.is_empty buf then mret ()
  else
    (if RangeBuf.fin buf then modify (set_fin_off (Some (RangeBuf.max_off buf))) else mret ());;
    if negb (RangeBuf.fin buf) && RangeBuf.is_empty buf then mret ()
    else if (RangeBuf.max_off buf <=? off rb) && negb (RangeBuf.is_empty buf) then mret ()
    else write_loop (write_fuel buf) [buf].

(** The [while cap > 0 && self.ready()] loop of [emit] on the chunks in order;
    it returns the bytes copied out, the chunks left and the new offset. *)
Fixpoint emit_loop (cap : Z) (bs : list (Z * RangeBuf.t)) (off : Z)
    : result Error (list Z * list (Z * RangeBuf.t) * Z) :=
  match bs with
  | [] => Ok ([], [], off)
  | (k, buf) :: bs' =>
      if (0 <? cap) && (RangeBuf.off buf =? off) then
        let buf_len := Z.min (RangeBuf.len buf) cap in
        off' ← uadd off buf_len;
        let out := ztake buf_len (RangeBuf.deref buf) in
        if buf_len <? RangeBuf.len buf then
          Ok (out, (k, RangeBuf.consume buf_len buf) :: bs', off')
        else
          '(out', bs'', off'') ← emit_loop (cap - buf_len) bs' off';
          Ok (out ++ out', bs'', off'')
      else Ok ([], bs, off)
  end.

(** [emit] into an output slice of [cap] bytes: the bytes written and the
    end-of-stream flag. *)
Definition emit (cap : Z) : M t Error (list Z * bool) :=
  rb ← get;
  if negb (ready rb) then fail Done
  else match error rb with
  | Some e => modify (set_data []);; fail (StreamReset e)
  | None =>
      '(out, bs, off) ← lift (emit_loop cap (data rb) (off rb));
      modify (set_data bs);; modify (set_off off);;
      zoom flow_control set_flow_control (FlowControl.add_consumed (zlen out));;
      fin ← gets is_fin;
      mret (out, fin)
  end.

Definition reset (error_code final_size : Z) : M t Error Z :=
  rb ← get;
  if match fin_off rb with Some fin_off => negb (fin_off =? final_size) | None => false end
  then fail FinalSize
  else if final_size <? len rb then fail FinalSize
  else
    max_data_delta ← lift (usub final_size (len rb));
    match error rb with
    | Some _ => mret max_data_delta
    | None =>
        modify (set_error (Some error_code));;
        modify (set_off final_size);;
        modify (set_data []);;
        write (RangeBuf.from [] final_size true);;
        mret max_data_delta
    end.

Definition update_max_data (now : Z) : M t Error unit :=
  zoom flow_control set_flow_control (FlowControl.update_max_data now).
Definition max_data_next (rb : t) : result Error Z :=
  FlowControl.max_data_next (flow_control rb).
Definition autotune_window (now rtt : Z) : M t Error unit :=
  zoom flow_control set_flow_control (FlowControl.autotune_window now rtt).

Definition shutdown : M t Error unit :=
  rb ← get;
  if drain rb then fail Done
  else
    modify (set_drain true);;
    modify (set_data []);;
    modify (λ rb, set_off (max_off rb) rb).

Definition almost_full (rb : t) : result Error bool :=
  match fin_off rb with
  | None => FlowControl.should_update_max_data (flow_control rb)
  | Some _ => Ok false
  end.
End RecvBuf.

(** ** Chunk lists *)

(** The bytes and the offsets a chunk list has. *)
Definition holds_in (l : list (Z * RangeBuf.t)) (o x : Z) : Prop :=
  Exists (λ p, RangeBuf.holds p.2 o x) l.
Definition covered_in (l : list (Z * RangeBuf.t)) (o : Z) : Prop :=
  Exists (λ p, RangeBuf.off p.2 <= o < RangeBuf.max_off p.2) l.

(** Keys are end offsets, and chunks follow each other without overlap. *)
Definition chunk_wf (p : Z * RangeBuf.t) : Prop :=
  p.1 = RangeBuf.max_off p.2 ∧ RangeBuf.wf p.2.
Definition before (p q : Z * RangeBuf.t) : Prop := p.1 < q.1 ∧ p.1 <= RangeBuf.off q.2.
Definition chunks_wf (l : list (Z * RangeBuf.t)) : Prop :=
  Forall chunk_wf l ∧ StronglySorted before l.

(** [h] can be stored beside the chunk [p]. *)
Definition beside (h : RangeBuf.t) (p : Z * RangeBuf.t) : Prop :=
  (p.1 <= RangeBuf.off h ∧ p.1 < RangeBuf.max_off h) ∨
  (RangeBuf.max_off h <= RangeBuf.off p.2 ∧ RangeBuf.off h < RangeBuf.max_off h).

Section chunks.
Implicit Types (l : list (Z * RangeBuf.t)) (b h : RangeBuf.t).

Lemma chunks_wf_cons p l :
  chunks_wf (p :: l) ↔ chunk_wf p ∧ Forall (before p) l ∧ chunks_wf l.
Proof.
  unfold chunks_wf. split.
  - intros [Hc Hs]. inversion_clear Hc. inversion_clear Hs. auto.
  - intros (? & ? & ? & ?). split; by constructor.
Qed.

Lemma holds_covered b o x : RangeBuf.holds b o x → RangeBuf.off b <= o < RangeBuf.max_off b.
Proof. by intros [? _]. Qed.

Lemma holds_in_covered l o x : holds_in l o x → covered_in l o.
Proof. intros H. apply (Exists_impl _ _ _ H). intros p. apply holds_covered. Qed.

Lemma covered_holds_in l o : Forall chunk_wf l → covered_in l o → ∃ x, holds_in l o x.
Proof.
  intros Hwf. induction 1 as [[k b] l Hb|p l Hl IH].
  - inversion_clear Hwf as [|? ? [_ ?] ?]. destruct (RangeBuf.holds_total b o) as [x Hx]; [done..|].
    exists x. by left.
  - inversion_clear Hwf. destruct IH as [x Hx]; [done|]. exists x. by right.
Qed.

Lemma beside_not_covered h p o :
  chunk_wf p → beside h p → RangeBuf.off h <= o < RangeBuf.max_off h →
  ¬ RangeBuf.off p.2 <= o < RangeBuf.max_off p.2.
Proof. intros [Hk _] [[? ?]|[? ?]]; lia. Qed.

Lemma beside_all_not_covered h l o :
  Forall chunk_wf l → Forall (beside h) l → RangeBuf.off h <= o < RangeBuf.max_off h →
  ¬ covered_in l o.
Proof.
  intros Hwf Hb Ho (p & Hp & Hc)%Exists_exists.
  rewrite Forall_forall in Hwf, Hb. eapply beside_not_covered; eauto.
Qed.

(** A stored byte is unique. *)
Lemma holds_in_fun l o x y : chunks_wf l → holds_in l o x → holds_in l o y → x = y.
Proof.
  induction l as [|p l IH]; [by inversion 2|].
  intros ([Hk _] & Hb & Hl)%chunks_wf_cons.
  assert (∀ z, RangeBuf.holds p.2 o z → ∀ w, holds_in l o w → False) as Hd.
  { intros z Hz%holds_covered w Hw%holds_in_covered. apply Exists_exists in Hw as (q & Hq & Ho).
    rewrite Forall_forall in Hb. destruct (Hb q Hq). lia. }
  inversion_clear 1; inversion_clear 1.
  - by eapply RangeBuf.holds_fun.
  - exfalso; eauto.
  - exfalso; eauto.
  - eauto.
Qed.

(** Storing a chunk beside all others. *)
Lemma bt_insert_chunk h l :
  RangeBuf.wf h → chunks_wf l → Forall (beside h) l →
  chunks_wf (bt_insert (RangeBuf.max_off h) h l).
Proof.
  intros Hh. induction l as [|[k b] l IH]; simpl.
  { intros _ _. apply chunks_wf_cons. split_and!; [done|constructor|split; constructor]. }
  intros ([Hk Hb] & Hbf & Hl)%chunks_wf_cons Hfit. inversion_clear Hfit as [|? ? Hf Hfl].
  simpl in *. pose proof (RangeBuf.off_le_max b Hb). unfold beside in Hf. simpl in Hf.
  zcase; [|zcase].
  - apply chunks_wf_cons. split_and!; [done| |by apply chunks_wf_cons].
    unfold before in *. constructor; simpl; [lia|forall_lia].
  - apply chunks_wf_cons. split_and!; [done| |done].
    unfold before in *; simpl in *. forall_lia.
  - apply chunks_wf_cons. split_and!; [done| |by apply IH].
    apply bt_insert_Forall; [done|]. unfold before. simpl. lia.
Qed.

Lemma bt_insert_holds h l o x :
  Forall chunk_wf l → Forall (beside h) l →
  holds_in (bt_insert (RangeBuf.max_off h) h l) o x ↔ holds_in l o x ∨ RangeBuf.holds h o x.
Proof.
  unfold holds_in. intros Hwf. induction 1 as [|[k b] l Hf Hfl IH]; simpl.
  { rewrite Exists_cons, !Exists_nil. simpl. tauto. }
  inversion_clear Hwf as [|? ? [Hk Hb] Hl]. simpl in *. unfold beside in Hf. simpl in Hf.
  pose proof (RangeBuf.off_le_max b Hb).
  zcase; [|zcase]; rewrite !Exists_cons; simpl.
  - tauto.
  - split; [tauto|]. intros [[Hx|?]|?]; [|tauto..].
    apply holds_covered in Hx. lia.
  - rewrite IH by done. tauto.
Qed.
End chunks.

(** ** Cutting a fresh chunk *)

(** [h] is the part of the fresh chunk [b] between the offsets [o1] and [o2]. *)
Record part (b : RangeBuf.t) (o1 o2 : Z) (h : RangeBuf.t) : Prop := mk_part {
  part_wf : RangeBuf.wf h;
  part_fresh : RangeBuf.fresh h;
  part_off : RangeBuf.off h = o1;
  part_max : RangeBuf.max_off h = o2;
  part_holds o x : RangeBuf.holds h o x ↔ RangeBuf.holds b o x ∧ o1 <= o < o2
}.

Section parts.
Implicit Types (l : list (Z * RangeBuf.t)) (tmp : list RangeBuf.t) (b h : RangeBuf.t).

Lemma part_refl b :
  RangeBuf.wf b → RangeBuf.fresh b → part b (RangeBuf.off b) (RangeBuf.max_off b) b.
Proof.
  intros. constructor; [done..|]. intros o x. split; [|tauto].
  intros Hx. split; [done|]. by eapply holds_covered.
Qed.

Lemma part_trans b o1 o2 h o3 o4 k :
  part b o1 o2 h → part h o3 o4 k → o1 <= o3 → o4 <= o2 → part b o3 o4 k.
Proof.
  intros [_ _ _ _ Hh] [? ? ? ? Hk] ? ?. constructor; [done..|].
  intros o x. rewrite Hk, Hh. split; [tauto|]. intros [? ?]. split_and!; try done; lia.
Qed.

Lemma part_split at_ b :
  RangeBuf.wf b → RangeBuf.fresh b → 0 <= at_ <= RangeBuf.len b →
  ∃ h t, RangeBuf.split_off (E:=Error) at_ b = Ok (h, t) ∧
    part b (RangeBuf.off b) (RangeBuf.off b + at_) h ∧
    part b (RangeBuf.off b + at_) (RangeBuf.max_off b) t.
Proof.
  intros Hwf Hf Hat.
  destruct (RangeBuf.split_off_fresh (E:=Error) at_ b Hwf Hf Hat)
    as (h & t & Hs & ? & ? & ? & ? & ? & ? & ? & ? & _ & _ & Hh & Ht).
  exists h, t. split; [done|]. split; constructor; try done; intros o x.
  - rewrite Hh. split; [intros [Hx ?]; split; [done|]|tauto].
    apply holds_covered in Hx. lia.
  - rewrite Ht. split; [intros [Hx ?]; split; [done|]|tauto].
    apply holds_covered in Hx. lia.
Qed.

Lemma max_off_len b : RangeBuf.max_off b = RangeBuf.off b + RangeBuf.len b.
Proof. done. Qed.

(** Dropping what comes before an offset. *)
Lemma part_from n buf :
  RangeBuf.wf buf → RangeBuf.fresh buf → n <= RangeBuf.max_off buf →
  ∃ t, (if RangeBuf.off buf <? n
        then '(_, tail) ← RangeBuf.split_off (E:=Error) (n - RangeBuf.off buf) buf; Ok tail
        else Ok buf) = Ok t ∧
       part buf (Z.max n (RangeBuf.off buf)) (RangeBuf.max_off buf) t.
Proof.
  intros Hwf Hf Hn. zcase.
  - destruct (part_split (n - RangeBuf.off buf) buf) as (h & t & -> & _ & Ht);
      [done|done|rewrite (max_off_len buf) in *; lia|].
    exists t. split; [done|].
    by replace (Z.max _ _) with (RangeBuf.off buf + (n - RangeBuf.off buf)) by lia.
  - exists buf. split; [done|]. replace (Z.max _ _) with (RangeBuf.off buf) by lia.
    by apply part_refl.
Qed.

(** Chunks past the end of a non-empty chunk do not matter. *)
Lemma overlap_past buf tmp l :
  RangeBuf.off buf < RangeBuf.max_off buf →
  Forall (λ p, RangeBuf.max_off buf <= RangeBuf.off p.2) l →
  RecvBuf.overlap buf tmp l = Ok (Some buf, tmp).
Proof.
  intros Hne. induction 1 as [|[k b] l Hb Hl IH]; simpl in *; [done|].
  destruct (Z.ltb_spec (RangeBuf.max_off buf) (RangeBuf.off b)); [done|].
  rewrite (proj2 (Z.leb_gt (RangeBuf.off b) (RangeBuf.off buf))) by lia.
  simpl. zdecide. done.
Qed.

(** The empty chunk at the end of the stream is kept only when nothing ends
    there yet. *)
Lemma overlap_empty buf tmp l :
  RangeBuf.off buf = RangeBuf.max_off buf → Forall chunk_wf l →
  Forall (λ p, p.1 = RangeBuf.max_off buf) l →
  RecvBuf.overlap buf tmp l = Ok (match l with [] => Some buf | _ => None end, tmp).
Proof.
  intros He Hc Hk. destruct l as [|[k b] l]; simpl; [done|].
  inversion_clear Hc as [|? ? [Hkb Hb] ?]. inversion_clear Hk. simpl in *.
  pose proof (RangeBuf.off_le_max b Hb). zdecide. done.
Qed.

(** What the overlap loop leaves of a non-empty chunk: nothing when the
    chunk's offsets are all stored; otherwise a part up to the next stored
    chunk, preceded only by stored offsets, and the tail beyond, queued. *)
Definition overlap_result (buf : RangeBuf.t) (tmp : list RangeBuf.t)
    (l : list (Z * RangeBuf.t)) (r : option RangeBuf.t * list RangeBuf.t) : Prop :=
  match r with
  | (None, tmp') =>
      tmp' = tmp ∧ ∀ o, RangeBuf.off buf <= o < RangeBuf.max_off buf → covered_in l o
  | (Some h, tmp') => ∃ o1 o2,
      RangeBuf.off buf <= o1 < o2 ∧ part buf o1 o2 h ∧
      (∀ o, RangeBuf.off buf <= o < o1 → covered_in l o) ∧ Forall (beside h) l ∧
      (tmp' = tmp ∧ o2 = RangeBuf.max_off buf ∨
       ∃ t, tmp' = tmp ++ [t] ∧ o2 < RangeBuf.max_off buf ∧
            part buf o2 (RangeBuf.max_off buf) t)
  end.

Lemma overlap_keep buf tmp l :
  RangeBuf.wf buf → RangeBuf.fresh buf → RangeBuf.off buf < RangeBuf.max_off buf →
  Forall (beside buf) l → overlap_result buf tmp l (Some buf, tmp).
Proof.
  intros. exists (RangeBuf.off buf), (RangeBuf.max_off buf).
  split_and!; [lia|lia|by apply part_refl|lia|done|by left].
Qed.

(** The first chunk covers the start of [buf], the loop goes on with the rest. *)
Lemma overlap_start k b l buf buf' tmp r :
  RangeBuf.off b <= RangeBuf.off buf <= RangeBuf.max_off b → k = RangeBuf.max_off b →
  part buf (RangeBuf.max_off b) (RangeBuf.max_off buf) buf' →
  overlap_result buf' tmp l r → overlap_result buf tmp ((k, b) :: l) r.
Proof.
  intros Ho Hk Hp Hres. pose proof (part_off _ _ _ _ Hp) as Ho'.
  pose proof (part_max _ _ _ _ Hp) as Hm'.
  assert (∀ o, RangeBuf.off buf <= o → (RangeBuf.off buf' <= o → covered_in l o) →
               covered_in ((k, b) :: l) o) as Hcov.
  { intros o ? Hc. destruct (decide (o < RangeBuf.max_off b)); [left; simpl; lia|].
    right. apply Hc. lia. }
  destruct r as [[h|] tmp']; simpl in *.
  - destruct Hres as (o1 & o2 & ? & Hph & Hc & Hbs & Ht). exists o1, o2.
    pose proof (part_off _ _ _ _ Hph). pose proof (part_max _ _ _ _ Hph).
    assert (o2 <= RangeBuf.max_off buf) by (destruct Ht as [[_ ?]|(? & _ & ? & _)]; lia).
    split_and!; [lia|lia|eapply part_trans; [exact Hp|exact Hph|lia|lia]| | |].
    + intros o ?. apply Hcov; [lia|]. intros. apply Hc. lia.
    + constructor; [left; simpl; lia|done].
    + destruct Ht as [[-> ?]|(t & -> & ? & Ht)]; [left; split; [done|lia]|right].
      exists t. split_and!; [done|lia|]. rewrite Hm' in Ht. eapply part_trans; [exact Hp|exact Ht|lia|lia].
  - destruct Hres as [-> Hc]. split; [done|]. intros o ?. apply Hcov; [lia|].
    intros. apply Hc. lia.
Qed.

Lemma past_beside buf l :
  RangeBuf.off buf < RangeBuf.max_off buf →
  Forall (λ p, RangeBuf.max_off buf <= RangeBuf.off p.2) l → Forall (beside buf) l.
Proof. intros ? H. eapply Forall_impl; [exact H|]. intros p ?. right. simpl in *. lia. Qed.

Lemma overlap_spec buf tmp l :
  chunks_wf l → Forall (λ p, RangeBuf.off buf <= p.1) l →
  RangeBuf.wf buf → RangeBuf.fresh buf → RangeBuf.off buf < RangeBuf.max_off buf →
  ∃ r, RecvBuf.overlap buf tmp l = Ok r ∧ overlap_result buf tmp l r.
Proof.
  revert buf. induction l as [|[k b] l IH]; intros buf Hl Hk Hwf Hf Hne; simpl.
  { eexists. split; [done|]. by apply overlap_keep. }
  apply chunks_wf_cons in Hl as ([Hkb Hb] & Hbf & Hl). inversion_clear Hk as [|? ? Hkb' Hk'].
  unfold before in Hbf. simpl in *. pose proof (RangeBuf.off_le_max b Hb).
  assert (∀ h, RangeBuf.off h < RangeBuf.max_off h → RangeBuf.max_off h <= RangeBuf.off b →
               Forall (λ p, RangeBuf.max_off h <= RangeBuf.off p.2) ((k, b) :: l)) as Hpast.
  { intros h ? ?. constructor; [done|forall_lia]. }
  destruct (Z.ltb_spec (RangeBuf.max_off buf) (RangeBuf.off b)).
  { eexists. split; [done|]. apply overlap_keep, past_beside, Hpast; done || lia. }
  destruct (Z.leb_spec (RangeBuf.off b) (RangeBuf.off buf)) as [Hob|Hob]; simpl.
  - destruct (Z.leb_spec (RangeBuf.max_off buf) (RangeBuf.max_off b)) as [Hin|Hin]; simpl.
    { eexists. split; [done|]. split; [done|]. intros o Ho. left. simpl. lia. }
    destruct (part_from (RangeBuf.max_off b) buf Hwf Hf) as (buf' & -> & Hp); [lia|].
    rewrite Z.max_l in Hp by lia. pose proof Hp as [Hwf' Hf' Ho' Hm' _].
    zdecide. simpl.
    destruct (IH buf') as (r & Hr & Hres); [done|forall_lia|done|done|lia|].
    exists r. split; [done|]. eapply overlap_start; [lia|done|exact Hp|done].
  - rewrite (proj2 (Z.ltb_lt _ _) Hob). simpl. zcase.
    + destruct (part_split (RangeBuf.off b - RangeBuf.off buf) buf)
        as (h & t & -> & Hh & Ht); [done|done|rewrite (max_off_len buf) in *; lia|].
      replace (RangeBuf.off buf + _) with (RangeBuf.off b) in * by lia. simpl.
      pose proof Hh as [? ? ? ? _]. pose proof (Hpast h ltac:(lia) ltac:(lia)) as Hph.
      rewrite overlap_past by (lia || by inversion Hph). eexists. split; [done|].
      exists (RangeBuf.off buf), (RangeBuf.off b).
      split_and!; [lia|lia|done|lia|apply past_beside; done || lia|].
      right. exists t. by split_and!.
    + pose proof (Hpast buf ltac:(lia) ltac:(lia)) as Hph.
      rewrite overlap_past by (lia || by inversion Hph). eexists. split; [done|].
      apply overlap_keep, past_beside; done || lia.
Qed.
End parts.

(** ** The invariant of the buffer *)

(** The stored chunks lie between the read offset and the received length;
    only the end of the stream may be stored as an empty chunk. *)
Record data_ok (off len : Z) (fin : option Z) (d : list (Z * RangeBuf.t)) : Prop := mk_data_ok {
  data_chunks : chunks_wf d;
  data_range : Forall (λ p, off <= RangeBuf.off p.2 ∧ p.1 <= len) d;
  data_empty : Forall (λ p, RangeBuf.off p.2 < p.1 ∨ fin = Some p.1) d
}.

Record recv_wf (rb : RecvBuf.t) : Prop := mk_recv_wf {
  recv_data : data_ok (RecvBuf.off rb) (RecvBuf.len rb) (RecvBuf.fin_off rb) (RecvBuf.data rb);
  recv_off : 0 <= RecvBuf.off rb <= RecvBuf.len rb;
  recv_len : RecvBuf.len rb <= RecvBuf.max_data rb <= u64_max;
  recv_fin f : RecvBuf.fin_off rb = Some f → RecvBuf.len rb = f;
  recv_consumed : 0 <= FlowControl.consumed (RecvBuf.flow_control rb) <= RecvBuf.off rb;
  recv_drain : RecvBuf.drain rb = true → RecvBuf.data rb = [];
  recv_error e : RecvBuf.error rb = Some e →
    RecvBuf.fin_off rb = Some (RecvBuf.off rb)
}.

(** The byte the buffer stores at a stream offset. *)
Definition stores (rb : RecvBuf.t) (o x : Z) : Prop := holds_in (RecvBuf.data rb) o x.
Definition buffered (rb : RecvBuf.t) (o : Z) : Prop := covered_in (RecvBuf.data rb) o.

(** The state after one chunk was stored. *)
Definition store (h : RangeBuf.t) (rb : RecvBuf.t) : RecvBuf.t :=
  RecvBuf.set_data
    (if RecvBuf.drain rb then RecvBuf.data rb
     else bt_insert (RangeBuf.max_off h) h (RecvBuf.data rb))
    (RecvBuf.set_len (Z.max (RecvBuf.len rb) (RangeBuf.max_off h)) rb).

Section write.
Implicit Types (rb : RecvBuf.t) (buf h : RangeBuf.t).

Lemma overlap_result_range buf tmp d r :
  overlap_result buf tmp (bt_range_from (RangeBuf.off buf) d) r → overlap_result buf tmp d r.
Proof.
  destruct r as [[h|] tmp']; simpl.
  - intros (o1 & o2 & ? & Hp & Hc & Hb & Ht). exists o1, o2. split_and!; try done; try lia.
    + intros o ?. eapply bt_range_from_Exists. by apply Hc.
    + apply bt_range_from_rest in Hb. pose proof Hp as [_ _ ? ? _].
      eapply Forall_impl; [exact Hb|]. simpl. intros p [?|?]; [left; lia|done].
  - intros [-> Hc]. split; [done|]. intros o ?. eapply bt_range_from_Exists. by apply Hc.
Qed.

(** One turn of the ['tmp] loop on a non-empty chunk that ends past the read
    offset. *)
Lemma write_step fuel buf rb :
  data_ok (RecvBuf.off rb) (RecvBuf.len rb) (RecvBuf.fin_off rb) (RecvBuf.data rb) →
  RangeBuf.wf buf → RangeBuf.fresh buf →
  RangeBuf.off buf < RangeBuf.max_off buf → RecvBuf.off rb < RangeBuf.max_off buf →
  ∃ buf0 r,
    RecvBuf.write_loop (S fuel) [buf] rb =
      match r with
      | (None, tmp) => RecvBuf.write_loop fuel tmp rb
      | (Some h, tmp) => RecvBuf.write_loop fuel tmp (store h rb)
      end ∧
    part buf (Z.max (RecvBuf.off rb) (RangeBuf.off buf)) (RangeBuf.max_off buf) buf0 ∧
    overlap_result buf0 [] (RecvBuf.data rb) r.
Proof.
  intros [Hd Hr He] Hwf Hf Hne Hoff. unfold RecvBuf.off_front in *.
  destruct (part_from (RecvBuf.off rb) buf Hwf Hf) as (buf0 & Hrun0 & Hp); [lia|].
  pose proof Hp as [Hwf0 Hf0 Ho0 Hm0 _].
  assert (∃ r, (if (RangeBuf.off buf0 <? RecvBuf.max_off rb) || RangeBuf.is_empty buf0
                then RecvBuf.overlap buf0 [] (bt_range_from (RangeBuf.off buf0) (RecvBuf.data rb))
                else Ok (Some buf0, [])) = Ok r ∧ overlap_result buf0 [] (RecvBuf.data rb) r)
    as (r & Hrun & Hres).
  { unfold RecvBuf.max_off, RangeBuf.is_empty. destruct Hd as [Hc Hs].
    replace (RangeBuf.len buf0 =? 0) with false
      by (symmetry; apply Z.eqb_neq; pose proof (max_off_len buf0); lia).
    rewrite orb_false_r. zcase.
    - destruct (overlap_spec buf0 [] (bt_range_from (RangeBuf.off buf0) (RecvBuf.data rb)))
        as (r & ? & ?); [|apply bt_range_from_keys|done|done|lia|].
      + split; [by apply bt_range_from_Forall|by apply bt_range_from_StronglySorted].
      + exists r. split; [done|]. by apply overlap_result_range.
    - eexists. split; [done|]. apply overlap_keep; [done|done|lia|].
      eapply Forall_impl; [exact Hr|]. simpl. intros p ?. left. lia. }
  exists buf0, r. split; [|done]. cbn [RecvBuf.write_loop].
  rewrite run_bind_get. unfold RecvBuf.off_front.
  rewrite (run_bind_lift _ _ _ _ Hrun0), (run_bind_lift _ _ _ _ Hrun).
  destruct r as [[h|] tmp]; [|done]. rewrite !run_bind_modify. unfold store.
  by destruct rb as [? ? ? ? ? ? []].
Qed.

(** Storing a chunk that lies beside the others. *)
Lemma store_data_ok h rb :
  data_ok (RecvBuf.off rb) (RecvBuf.len rb) (RecvBuf.fin_off rb) (RecvBuf.data rb) →
  RangeBuf.wf h → RecvBuf.off rb <= RangeBuf.off h → Forall (beside h) (RecvBuf.data rb) →
  RangeBuf.off h < RangeBuf.max_off h ∨ RecvBuf.fin_off rb = Some (RangeBuf.max_off h) →
  data_ok (RecvBuf.off rb) (Z.max (RecvBuf.len rb) (RangeBuf.max_off h)) (RecvBuf.fin_off rb)
          (bt_insert (RangeBuf.max_off h) h (RecvBuf.data rb)).
Proof.
  intros [Hd Hr He] Hwf Ho Hb Hne. constructor; [by apply bt_insert_chunk|..].
  - apply bt_insert_Forall; [|simpl; lia]. forall_lia.
  - by apply bt_insert_Forall.
Qed.

Lemma store_stores h rb o x :
  Forall chunk_wf (RecvBuf.data rb) → Forall (beside h) (RecvBuf.data rb) →
  RecvBuf.drain rb = false →
  stores (store h rb) o x ↔ stores rb o x ∨ RangeBuf.holds h o x.
Proof. intros Hc Hb Hdr. unfold stores, store. simpl. rewrite Hdr. by apply bt_insert_holds. Qed.

Lemma store_buffered h rb o :
  RangeBuf.wf h → chunks_wf (RecvBuf.data rb) → Forall (beside h) (RecvBuf.data rb) →
  RecvBuf.drain rb = false →
  buffered (store h rb) o ↔ buffered rb o ∨ RangeBuf.off h <= o < RangeBuf.max_off h.
Proof.
  intros Hh [Hc Hs] Hb Hdr.
  assert (∀ x, holds_in (RecvBuf.data (store h rb)) o x ↔ stores rb o x ∨ RangeBuf.holds h o x)
    as Hst by (intros x; by apply store_stores).
  unfold stores, buffered in *. split.
  - intros Hcov. apply covered_holds_in in Hcov as (x & Hx).
    + apply Hst in Hx as [Hx|Hx]; [left; by eapply holds_in_covered|right; by eapply holds_covered].
    + unfold store. simpl. rewrite Hdr. by apply bt_insert_chunk.
  - intros [Hcov|Hcov].
    + apply covered_holds_in in Hcov as (x & Hx); [|done].
      eapply holds_in_covered, Hst. by left.
    + apply RangeBuf.holds_total in Hcov as (x & Hx); [|done].
      eapply holds_in_covered, Hst. by right.
Qed.

Lemma covered_below off len fin d o : data_ok off len fin d → covered_in d o → o < len.
Proof.
  intros [[Hc _] Hr _] (p & Hp & Ho)%Exists_exists. rewrite Forall_forall in Hc, Hr.
  destruct (Hc p Hp) as [? _]. pose proof (Hr p Hp). simpl in *. lia.
Qed.

(** What a run of the loop on the chunk [buf] leaves. *)
Definition written (buf : RangeBuf.t) (rb : RecvBuf.t) (d : list (Z * RangeBuf.t)) : Prop :=
  let len := Z.max (RecvBuf.len rb) (RangeBuf.max_off buf) in
  if RecvBuf.drain rb then d = RecvBuf.data rb
  else data_ok (RecvBuf.off rb) len (RecvBuf.fin_off rb) d ∧
    ∀ o x, holds_in d o x ↔ stores rb o x ∨
      (RangeBuf.holds buf o x ∧ RecvBuf.off rb <= o ∧ ¬ buffered rb o).

(** The chunk was stored whole or not at all, or its head was stored and the
    loop went on with the tail [t]. *)
Lemma written_none buf buf0 rb :
  data_ok (RecvBuf.off rb) (RecvBuf.len rb) (RecvBuf.fin_off rb) (RecvBuf.data rb) →
  part buf (Z.max (RecvBuf.off rb) (RangeBuf.off buf)) (RangeBuf.max_off buf) buf0 →
  RangeBuf.off buf < RangeBuf.max_off buf → RecvBuf.off rb < RangeBuf.max_off buf →
  (∀ o, RangeBuf.off buf0 <= o < RangeBuf.max_off buf0 → buffered rb o) →
  RangeBuf.max_off buf <= RecvBuf.len rb ∧ written buf rb (RecvBuf.data rb).
Proof.
  intros Hd [_ _ Ho Hm _] ? ? Hc.
  assert (RangeBuf.max_off buf <= RecvBuf.len rb).
  { enough (RangeBuf.max_off buf - 1 < RecvBuf.len rb) by lia.
    eapply covered_below; [done|]. apply Hc. lia. }
  split; [done|]. unfold written. destruct (RecvBuf.drain rb); [done|].
  rewrite Z.max_l by lia. split; [done|]. intros o x. split; [tauto|].
  intros [?|(Hx%holds_covered & ? & Hn)]; [done|]. destruct Hn. apply Hc. lia.
Qed.

Lemma written_some buf buf0 h o1 o2 rb d :
  data_ok (RecvBuf.off rb) (RecvBuf.len rb) (RecvBuf.fin_off rb) (RecvBuf.data rb) →
  part buf (Z.max (RecvBuf.off rb) (RangeBuf.off buf)) (RangeBuf.max_off buf) buf0 →
  part buf0 o1 o2 h → RangeBuf.off buf0 <= o1 < o2 → o2 <= RangeBuf.max_off buf →
  (∀ o, RangeBuf.off buf0 <= o < o1 → buffered rb o) →
  Forall (beside h) (RecvBuf.data rb) →
  (o2 = RangeBuf.max_off buf ∧ d = RecvBuf.data (store h rb) ∨
   ∃ t, part buf0 o2 (RangeBuf.max_off buf0) t ∧ written t (store h rb) d) →
  written buf rb d.
Proof.
  intros Hd Hp0 Hph Ho1 Ho2 Hc Hb Hdd. unfold written.
  destruct (RecvBuf.drain rb) eqn:Hdr.
  { destruct Hdd as [[_ ->]|(t & _ & Hw)]; [by unfold store; rewrite Hdr|].
    unfold written, store in Hw. simpl in Hw. by rewrite Hdr in Hw. }
  destruct Hp0 as [_ _ Ho0 Hm0 Hh0]. pose proof Hph as [Hwh _ Hoh Hmh Hhh].
  pose proof Hd as [Hcw _ _]. pose proof Hcw as [Hcf _].
  assert (∀ o x, stores rb o x ∨ RangeBuf.holds h o x ∨
            (RangeBuf.holds buf o x ∧ o2 <= o) ∧ RecvBuf.off rb <= o ∧ ¬ buffered rb o ↔
          stores rb o x ∨ RangeBuf.holds buf o x ∧ RecvBuf.off rb <= o ∧ ¬ buffered rb o) as Heq.
  { intros o x. rewrite Hhh, Hh0. split.
    - intros [?|[[[? ?] ?]|?]]; [tauto| |tauto]. right. split_and!; [done|lia|].
      eapply beside_all_not_covered; [done..|]. lia.
    - intros [?|(Hx & ? & Hn)]; [tauto|]. right. pose proof (holds_covered _ _ _ Hx).
      destruct (decide (o < o2)); [left|right; split; [split; [done|lia]|tauto]].
      split; [split; [done|lia]|]. split; [|done].
      destruct (decide (o1 <= o)); [done|]. destruct Hn. apply Hc. lia. }
  destruct Hdd as [[-> ->]|(t & [_ _ Hot Hmt Hht] & Hw)].
  - split; [unfold store; simpl; rewrite Hdr, <- Hmh; apply store_data_ok; done || lia|].
    intros o x. rewrite <- Heq. fold (stores (store h rb) o x). rewrite store_stores by done.
    split; [tauto|]. intros [?|[?|[[?%holds_covered ?] ?]]]; [tauto..|lia].
  - unfold written in Hw. simpl in Hw. rewrite Hdr in Hw. destruct Hw as [Hok Hw].
    split; [replace (Z.max _ _) with (Z.max (Z.max (RecvBuf.len rb) (RangeBuf.max_off h))
              (RangeBuf.max_off t)) by lia; done|].
    intros o x. rewrite Hw, <- Heq, store_stores, store_buffered, Hht, Hh0 by done.
    pose proof (holds_covered buf o x). split; [|].
    + intros [[?|?]|([[? ?] ?] & ? & ?)]; [tauto..|]. right; right. tauto.
    + intros [?|[?|([? ?] & ? & ?)]]; [tauto..|]. right.
      pose proof (holds_covered buf o x ltac:(done)).
      split_and!; try done; try lia. intros [?|?]; [done|lia].
Qed.

Lemma write_loop_spec fuel buf rb :
  data_ok (RecvBuf.off rb) (RecvBuf.len rb) (RecvBuf.fin_off rb) (RecvBuf.data rb) →
  RangeBuf.wf buf → RangeBuf.fresh buf →
  RangeBuf.off buf < RangeBuf.max_off buf → RecvBuf.off rb < RangeBuf.max_off buf →
  (Z.to_nat (RangeBuf.len buf) < fuel)%nat →
  ∃ d, RecvBuf.write_loop fuel [buf] rb =
      (Ok (), RecvBuf.set_data d
         (RecvBuf.set_len (Z.max (RecvBuf.len rb) (RangeBuf.max_off buf)) rb)) ∧
    written buf rb d.
Proof.
  revert buf rb. induction fuel as [|fuel IH]; intros buf rb Hd Hwf Hf Hne Hoff Hfuel; [lia|].
  destruct (write_step fuel buf rb Hd Hwf Hf Hne Hoff) as (buf0 & r & -> & Hp & Hres).
  pose proof Hp as [_ _ Ho0 Hm0 _]. destruct r as [[h|] tmp].
  - destruct Hres as (o1 & o2 & Ho & Hph & Hc & Hb & Ht). pose proof Hph as [Hwh _ Hoh Hmh _].
    destruct Ht as [[-> ->]|(t & -> & Hlt & Hpt)].
    + exists (RecvBuf.data (store h rb)). split.
      { unfold store. rewrite Hmh, Hm0. by destruct fuel. }
      apply (written_some buf buf0 h _ _ rb _ Hd Hp Hph Ho ltac:(lia) Hc Hb). by left.
    + pose proof Hpt as [Hwt Hft Hot Hmt _].
      destruct (IH t (store h rb)) as (d & Hrun & Hw); [|done|done|lia|simpl; lia| |].
      { unfold store. simpl. destruct (RecvBuf.drain rb).
        - destruct Hd as [? ? ?]. constructor; [done|forall_lia|done].
        - apply store_data_ok; done || lia. }
      { pose proof (max_off_len t). pose proof (max_off_len buf). lia. }
      exists d. simpl in Hrun. simpl. rewrite Hrun. split.
      { unfold store, RecvBuf.set_len, RecvBuf.set_data. simpl.
        by replace (Z.max (Z.max _ _) _) with (Z.max (RecvBuf.len rb) (RangeBuf.max_off buf)) by lia. }
      apply (written_some buf buf0 h _ _ rb _ Hd Hp Hph Ho ltac:(lia) Hc Hb).
      right. exists t. by split.
  - destruct Hres as [-> Hc].
    destruct (written_none buf buf0 rb) as [? Hw]; [done..|]. exists (RecvBuf.data rb).
    split; [|done]. rewrite Z.max_l by lia. destruct fuel, rb; done.
Qed.

(** The empty chunk that only carries the end of the stream. *)
Lemma write_loop_empty fuel buf rb :
  data_ok (RecvBuf.off rb) (RecvBuf.len rb) (RecvBuf.fin_off rb) (RecvBuf.data rb) →
  RangeBuf.wf buf → RangeBuf.off buf = RangeBuf.max_off buf →
  RecvBuf.off rb <= RecvBuf.len rb <= RangeBuf.max_off buf →
  RecvBuf.fin_off rb = Some (RangeBuf.max_off buf) →
  ∃ d, RecvBuf.write_loop (S fuel) [buf] rb =
      (Ok (), RecvBuf.set_data d
         (RecvBuf.set_len (Z.max (RecvBuf.len rb) (RangeBuf.max_off buf)) rb)) ∧
    written buf rb d.
Proof.
  intros Hd Hwf He Hlen Hfin. pose proof Hd as [Hdc Hdr Hde]. pose proof Hdc as [Hc Hs].
  set (m := RangeBuf.max_off buf) in *.
  assert (Forall (λ p, p.1 = m) (bt_range_from m (RecvBuf.data rb))) as Hk.
  { eapply Forall_impl; [apply Forall_and; split; [apply (bt_range_from_keys m)|
      apply (bt_range_from_Forall _ _ _ Hdr)]|]. simpl. intros p ?. lia. }
  assert (RangeBuf.is_empty buf = true) as Hemp.
  { unfold RangeBuf.is_empty. apply Z.eqb_eq. pose proof (max_off_len buf). lia. }
  assert (∀ o x, ¬ RangeBuf.holds buf o x) as Hnone.
  { intros o x Hx%holds_covered. lia. }
  cbn [RecvBuf.write_loop]. rewrite run_bind_get. unfold RecvBuf.off_front. rewrite He.
  rewrite (proj2 (Z.ltb_ge _ _)) by lia. rewrite (run_bind_lift _ _ _ buf) by done.
  rewrite Hemp, orb_true_r, He. fold m.
  rewrite (run_bind_lift _ _ _ _ (overlap_empty buf [] _ ltac:(done)
    (bt_range_from_Forall _ _ _ Hc) Hk)).
  destruct (bt_range_from m (RecvBuf.data rb)) as [|p l] eqn:Hr.
  - assert (Forall (beside buf) (RecvBuf.data rb)) as Hb.
    { assert (Forall (λ p, p.1 < m ∨ False) (RecvBuf.data rb)) as Hlt
        by (apply (bt_range_from_rest (λ _, False)); rewrite Hr; constructor).
      eapply Forall_impl; [exact Hlt|]. intros p' [?|[]]. left. lia. }
    exists (RecvBuf.data (store buf rb)). rewrite !run_bind_modify. unfold store. fold m.
    split; [by destruct rb as [? ? ? ? ? ? []], fuel|].
    unfold written. simpl. destruct (RecvBuf.drain rb) eqn:Hdrain; [done|].
    split; [apply store_data_ok; auto; lia|]. intros o x. subst m. rewrite bt_insert_holds by done.
    unfold stores. specialize (Hnone o x). tauto.
  - exists (RecvBuf.data rb).
    assert (RecvBuf.len rb = m) as Hlm.
    { apply Forall_cons in Hk as [Hp _].
      pose proof (bt_range_from_Forall _ m _ Hdr) as Hrl. rewrite Hr in Hrl.
      apply Forall_cons in Hrl as [? _]. simpl in *. lia. }
    rewrite Hlm, Z.max_id. split; [rewrite <- Hlm; by destruct rb, fuel|].
    unfold written. destruct (RecvBuf.drain rb); [done|]. fold m.
    rewrite Hlm, Z.max_id. split; [by rewrite Hlm in Hd|]. intros o x.
    specialize (Hnone o x). unfold stores. tauto.
Qed.

(** When a chunk respects the flow control limit and the final size. *)
Definition accepts (rb : RecvBuf.t) (buf : RangeBuf.t) : Prop :=
  RangeBuf.max_off buf <= RecvBuf.max_data rb ∧
  (∀ f, RecvBuf.fin_off rb = Some f →
     RangeBuf.max_off buf <= f ∧ (RangeBuf.fin buf = true → RangeBuf.max_off buf = f)) ∧
  (RangeBuf.fin buf = true → RecvBuf.len rb <= RangeBuf.max_off buf).

#[export] Instance accepts_dec rb buf : Decision (accepts rb buf).
Proof.
  unfold accepts. destruct (RecvBuf.fin_off rb) as [f|].
  - destruct (decide (RangeBuf.max_off buf <= RecvBuf.max_data rb ∧
      (RangeBuf.max_off buf <= f ∧ (RangeBuf.fin buf = true → RangeBuf.max_off buf = f)) ∧
      (RangeBuf.fin buf = true → RecvBuf.len rb <= RangeBuf.max_off buf))) as [H|H].
    + left. destruct H as (? & H & ?). split_and!; [done| |done]. by intros ? [= <-].
    + right. intros (? & Hf & ?). destruct H. by specialize (Hf f eq_refl).
  - destruct (decide (RangeBuf.max_off buf <= RecvBuf.max_data rb ∧
      (RangeBuf.fin buf = true → RecvBuf.len rb <= RangeBuf.max_off buf))) as [H|H].
    + left. destruct H. by split_and!.
    + right. intros (? & _ & ?). by destruct H.
Defined.

(** The checks at the head of [write]. *)
Lemma write_checks buf rb (k : M RecvBuf.t Error unit) :
  recv_wf rb → accepts rb buf →
  (if RecvBuf.max_data rb <? RangeBuf.max_off buf then fail FlowControl
   else if match RecvBuf.fin_off rb with
           | Some fin_off =>
               (fin_off <? RangeBuf.max_off buf)
               || RangeBuf.fin buf && negb (fin_off =? RangeBuf.max_off buf)
           | None => false
           end then fail FinalSize
   else if RangeBuf.fin buf && (RangeBuf.max_off buf <? RecvBuf.len rb) then fail FinalSize
   else k) rb = k rb.
Proof.
  intros Hwf (Hfc & Hfs & Hlen). rewrite (proj2 (Z.ltb_ge _ _)) by lia.
  destruct (RecvBuf.fin_off rb) as [f|].
  - destruct (Hfs f eq_refl) as [? Hf]. rewrite (proj2 (Z.ltb_ge _ _)) by lia.
    destruct (RangeBuf.fin buf); simpl; [|done].
    rewrite Hf, Z.eqb_refl by done. simpl. rewrite (proj2 (Z.ltb_ge _ _)); [done|].
    rewrite <- Hf by done. auto.
  - destruct (RangeBuf.fin buf); simpl; [|done]. by rewrite (proj2 (Z.ltb_ge _ _)) by auto.
Qed.
End write.

(** What an accepted chunk does to the buffer: the bytes at offsets that were
    neither read nor buffered are stored, all others keep their value. *)
Record write_post (buf : RangeBuf.t) (rb rb' : RecvBuf.t) : Prop := mk_write_post {
  wp_wf : recv_wf rb';
  wp_off : RecvBuf.off rb' = RecvBuf.off rb;
  wp_len : RecvBuf.len rb' =
    if RangeBuf.is_empty buf && negb (RangeBuf.fin buf) then RecvBuf.len rb
    else Z.max (RecvBuf.len rb) (RangeBuf.max_off buf);
  wp_fin : RecvBuf.fin_off rb' =
    if RangeBuf.fin buf then Some (RangeBuf.max_off buf) else RecvBuf.fin_off rb;
  wp_flow : RecvBuf.flow_control rb' = RecvBuf.flow_control rb;
  wp_error : RecvBuf.error rb' = RecvBuf.error rb;
  wp_drain : RecvBuf.drain rb' = RecvBuf.drain rb;
  wp_stores : RecvBuf.drain rb = false → ∀ o x, stores rb' o x ↔
    stores rb o x ∨ (RangeBuf.holds buf o x ∧ RecvBuf.off rb <= o ∧ ¬ buffered rb o)
}.

Section write_spec.
Implicit Types (rb : RecvBuf.t) (buf : RangeBuf.t).

Lemma empty_no_bytes buf : RangeBuf.is_empty buf = true → ∀ o x, ¬ RangeBuf.holds buf o x.
Proof. intros Hl%Z.eqb_eq o x Hx%holds_covered. pose proof (max_off_len buf). lia. Qed.

(** Noting the final size. *)
Lemma set_fin_wf buf rb :
  recv_wf rb → accepts rb buf →
  let rb1 := if RangeBuf.fin buf then RecvBuf.set_fin_off (Some (RangeBuf.max_off buf)) rb else rb in
  data_ok (RecvBuf.off rb1) (RecvBuf.len rb1) (RecvBuf.fin_off rb1) (RecvBuf.data rb1).
Proof.
  intros [Hd _ _ _ _ _ _] (_ & Hfs & _). destruct (RangeBuf.fin buf); [|done].
  destruct Hd as [? ? He]. constructor; [done..|]. simpl.
  destruct (RecvBuf.fin_off rb) as [f|].
  - destruct (Hfs f eq_refl) as [_ Hf]. by rewrite Hf.
  - eapply Forall_impl; [exact He|]. simpl. intros p [?|?]; [by left|done].
Qed.

(** The chunk went through the ['tmp] loop. *)
Lemma loop_post buf rb d :
  let rb1 := if RangeBuf.fin buf then RecvBuf.set_fin_off (Some (RangeBuf.max_off buf)) rb else rb in
  recv_wf rb → accepts rb buf → written buf rb1 d →
  RangeBuf.is_empty buf = false ∨ RangeBuf.fin buf = true →
  write_post buf rb
    (RecvBuf.set_data d (RecvBuf.set_len (Z.max (RecvBuf.len rb) (RangeBuf.max_off buf)) rb1)).
Proof.
  intros rb1 Hwf (Hfc & Hfs & Hlen) Hw Hne. pose proof Hwf as [Hd Ho Hl Hf Hcons Hdr Herr].
  assert (RecvBuf.drain rb1 = RecvBuf.drain rb ∧ RecvBuf.data rb1 = RecvBuf.data rb ∧
          RecvBuf.off rb1 = RecvBuf.off rb ∧ RecvBuf.len rb1 = RecvBuf.len rb ∧
          RecvBuf.error rb1 = RecvBuf.error rb ∧
          RecvBuf.flow_control rb1 = RecvBuf.flow_control rb ∧
          RecvBuf.fin_off rb1 =
            if RangeBuf.fin buf then Some (RangeBuf.max_off buf) else RecvBuf.fin_off rb)
    as (E1 & E2 & E3 & E4 & E5 & E6 & E7) by (subst rb1; by destruct (RangeBuf.fin buf)).
  assert (∀ f, RecvBuf.fin_off rb1 = Some f →
               Z.max (RecvBuf.len rb) (RangeBuf.max_off buf) = f) as Hfin.
  { intros f. rewrite E7. destruct (RangeBuf.fin buf) eqn:Hb.
    - intros [= <-]. pose proof (Hlen eq_refl). lia.
    - intros Hsome. destruct (Hfs f Hsome). rewrite <- (Hf f Hsome) in *. lia. }
  unfold written in Hw. rewrite E1, E2, E3, E4 in Hw.
  constructor; simpl; rewrite ?E1, ?E3, ?E5, ?E6, ?E7; try done.
  - constructor; simpl; unfold RecvBuf.max_data; simpl; rewrite ?E1, ?E3, ?E5, ?E6;
      fold (RecvBuf.max_data rb); try done; try lia.
    + destruct (RecvBuf.drain rb) eqn:Hdrain; [|tauto].
      rewrite Hw, Hdr by done. constructor; [split; constructor|constructor..].
    + intros Ht. rewrite Ht in Hw. by rewrite Hw, Hdr.
    + intros e He. rewrite E7. specialize (Herr e He). destruct (RangeBuf.fin buf) eqn:Hb; [|done].
      destruct (Hfs _ Herr) as [_ ->]; done.
  - destruct Hne as [-> | ->]; simpl; [done|by rewrite andb_false_r].
  - intros Hdf. rewrite Hdf in Hw. unfold stores, buffered in *. simpl.
    rewrite E2 in Hw. tauto.
Qed.

(** Nothing of the chunk is new. *)
Lemma recv_skip_post buf rb :
  recv_wf rb → accepts rb buf → RangeBuf.wf buf →
  (RangeBuf.is_empty buf = true ∧ (RangeBuf.fin buf = true → is_Some (RecvBuf.fin_off rb))) ∨
  RangeBuf.max_off buf <= RecvBuf.off rb →
  write_post buf rb
    (if RangeBuf.fin buf then RecvBuf.set_fin_off (Some (RangeBuf.max_off buf)) rb else rb).
Proof.
  intros Hwf Hacc Hbw Hskip. pose proof Hwf as [Hd Ho Hl Hf Hcons Hdr Herr].
  pose proof (set_fin_wf buf rb Hwf Hacc) as Hd1. destruct Hacc as (Hfc & Hfs & Hlen).
  assert (RangeBuf.fin buf = true → RangeBuf.max_off buf = RecvBuf.len rb) as Hfl.
  { intros Hb. specialize (Hlen Hb). destruct Hskip as [[_ Hs]|?]; [|lia].
    destruct (Hs Hb) as [f Hsome]. destruct (Hfs f Hsome) as [_ Hm].
    rewrite (Hf f Hsome). auto. }
  assert (∀ o x, RangeBuf.holds buf o x ∧ RecvBuf.off rb <= o ∧ ¬ buffered rb o → False) as Hno.
  { intros o x (Hx & ? & _). destruct Hskip as [[Hemp _]|?].
    - by eapply empty_no_bytes.
    - apply holds_covered in Hx. lia. }
  assert (RecvBuf.len rb =
    if RangeBuf.is_empty buf && negb (RangeBuf.fin buf) then RecvBuf.len rb
    else Z.max (RecvBuf.len rb) (RangeBuf.max_off buf)) as Hlr.
  { destruct Hskip as [[-> _]|?]; simpl; [|destruct (_ && _); lia].
    destruct (RangeBuf.fin buf); simpl; [|done]. rewrite Hfl by done. lia. }
  destruct (RangeBuf.fin buf) eqn:Hb; constructor; simpl; try done;
    try (intros _ o x; specialize (Hno o x); unfold stores, buffered in *; simpl; tauto);
    try (by rewrite Hb); try (by rewrite Hlr at 1; rewrite ?Hb).
  constructor; simpl; try done.
  - intros f [= <-]. symmetry. auto.
  - intros e He. specialize (Herr e He). destruct (Hfs _ Herr) as [_ Hm]. by rewrite Hm.
Qed.

Lemma write_rest buf rb :
  recv_wf rb → RangeBuf.wf buf → RangeBuf.fresh buf → accepts rb buf →
  (RangeBuf.is_empty buf = true → RecvBuf.fin_off rb = None) →
  ∃ rb',
    ((if RangeBuf.fin buf then modify (RecvBuf.set_fin_off (Some (RangeBuf.max_off buf)))
      else mret ());;
     if negb (RangeBuf.fin buf) && RangeBuf.is_empty buf then mret ()
     else if (RangeBuf.max_off buf <=? RecvBuf.off rb) && negb (RangeBuf.is_empty buf) then mret ()
     else RecvBuf.write_loop (RecvBuf.write_fuel buf) [buf]) rb = (Ok (), rb') ∧
    write_post buf rb rb'.
Proof.
  intros Hwf Hbw Hbf Hacc Hemp. set (rb1 := if RangeBuf.fin buf
    then RecvBuf.set_fin_off (Some (RangeBuf.max_off buf)) rb else rb).
  rewrite (run_bind_ok _ _ _ () rb1) by (subst rb1; by destruct (RangeBuf.fin buf)).
  pose proof (set_fin_wf buf rb Hwf Hacc) as Hd. fold rb1 in Hd. simpl in Hd.
  assert (RecvBuf.off rb1 = RecvBuf.off rb ∧ RecvBuf.len rb1 = RecvBuf.len rb) as [Eo El]
    by (subst rb1; by destruct (RangeBuf.fin buf)).
  pose proof (recv_off rb Hwf) as Ho. pose proof (max_off_len buf) as Hml.
  destruct (RangeBuf.is_empty buf) eqn:He; [apply Z.eqb_eq in He|apply Z.eqb_neq in He];
    rewrite ?andb_true_r, ?andb_false_r; simpl.
  - destruct (RangeBuf.fin buf) eqn:Hf; simpl.
    + destruct (write_loop_empty (Z.to_nat (RangeBuf.len buf)) buf rb1) as (d & Hrun & Hw);
        [done|done|lia|rewrite Eo, El; split; [lia|by apply Hacc]|done|].
      eexists. split; [exact Hrun|]. rewrite El.
      pose proof (loop_post buf rb d) as Hlp. rewrite Hf in Hlp. apply Hlp; auto.
    + exists rb. split; [done|]. pose proof (recv_skip_post buf rb) as Hsp. rewrite Hf in Hsp.
      apply Hsp; try done. left. split; [by apply Z.eqb_eq|done].
  - zcase.
    + exists rb1. split; [done|]. apply recv_skip_post; auto.
    + pose proof (RangeBuf.off_le_max buf Hbw).
      destruct (write_loop_spec (RecvBuf.write_fuel buf) buf rb1) as (d & Hrun & Hw);
        [done|done|done|lia|lia|unfold RecvBuf.write_fuel; lia|].
      eexists. split; [exact Hrun|]. rewrite El. apply loop_post; try done.
      left. by apply Z.eqb_neq.
Qed.

Lemma write_accepts buf rb :
  recv_wf rb → RangeBuf.wf buf → RangeBuf.fresh buf → accepts rb buf →
  ∃ rb', RecvBuf.write buf rb = (Ok (), rb') ∧ write_post buf rb rb'.
Proof.
  intros Hwf Hbw Hbf Hacc. unfold RecvBuf.write. rewrite run_bind_get, write_checks by done.
  destruct (bool_decide (is_Some (RecvBuf.fin_off rb)) && RangeBuf.is_empty buf) eqn:Hskip.
  2: { apply write_rest; [done..|]. intros He. rewrite He, andb_true_r in Hskip.
       apply bool_decide_eq_false in Hskip. by apply eq_None_not_Some. }
  apply andb_true_iff in Hskip as [Hsome Hemp]. apply bool_decide_eq_true in Hsome.
  exists rb. split; [done|]. pose proof (recv_skip_post buf rb Hwf Hacc Hbw ltac:(tauto)) as Hp.
  destruct Hsome as [f Hsome], Hacc as (_ & Hfs & _), (Hfs f Hsome) as [_ Hm].
  destruct (RangeBuf.fin buf); [|done]. rewrite Hm in Hp by done.
  destruct rb; simpl in *. by subst.
Qed.

Lemma write_rejects buf rb :
  recv_wf rb → ¬ accepts rb buf →
  RecvBuf.write buf rb =
    (Err (if RecvBuf.max_data rb <? RangeBuf.max_off buf then FlowControl else FinalSize), rb).
Proof.
  intros Hwf Hn. unfold RecvBuf.write. rewrite run_bind_get.
  destruct (Z.ltb_spec (RecvBuf.max_data rb) (RangeBuf.max_off buf)); [done|].
  destruct (RecvBuf.fin_off rb) as [f|] eqn:Hf.
  - pose proof (recv_fin rb Hwf f Hf).
    destruct (Z.ltb_spec f (RangeBuf.max_off buf)); simpl; [done|].
    destruct (RangeBuf.fin buf) eqn:Hb; simpl.
    + destruct (Z.eqb_spec f (RangeBuf.max_off buf)) as [->|]; simpl; [|done].
      destruct Hn. split_and!; [done| |lia]. rewrite Hf. intros ? [= <-]. lia.
    + destruct Hn. split_and!; [done| |congruence]. rewrite Hf. intros ? [= <-]. split; [lia|congruence].
  - destruct (RangeBuf.fin buf) eqn:Hb; cbn [andb].
    + destruct (Z.ltb_spec (RangeBuf.max_off buf) (RecvBuf.len rb)); [done|].
      destruct Hn. split_and!; [done|congruence|done].
    + destruct Hn. split_and!; [done|congruence|congruence].
Qed.
End write_spec.

(** ** Reading *)

(** What the copy loop of [emit] takes off the chunks [bs]: the stored bytes
    from [off] on, without a gap, until the output is full or a byte is
    missing. *)
Record emitted (cap off : Z) (bs : list (Z * RangeBuf.t))
    (out : list Z) (bs' : list (Z * RangeBuf.t)) (off' : Z) : Prop := mk_emitted {
  em_off : off' = off + zlen out;
  em_cap : zlen out <= cap;
  em_chunks : chunks_wf bs';
  em_from : Forall (λ p, off' <= RangeBuf.off p.2) bs';
  em_keep (P : Z * RangeBuf.t → Prop) :
    Forall P bs → (∀ p n, 0 <= n < RangeBuf.len p.2 → P p → P (p.1, RangeBuf.consume n p.2)) →
    Forall P bs';
  em_out i x : out !! i = Some x ↔ (i < length out)%nat ∧ holds_in bs (off + Z.of_nat i) x;
  em_rest o x : holds_in bs' o x ↔ holds_in bs o x ∧ off' <= o;
  em_max : zlen out = cap ∨ ¬ covered_in bs off'
}.

Section emit.
Implicit Types (bs : list (Z * RangeBuf.t)).

Lemma before_not_held k b bs o x :
  Forall (before (k, b)) bs → holds_in bs o x → k <= o.
Proof.
  intros Hb (p & Hp & Hx)%Exists_exists. rewrite Forall_forall in Hb.
  destruct (Hb p Hp) as [? ?]. apply holds_covered in Hx. simpl in *. lia.
Qed.

Lemma before_not_covered k b bs o :
  Forall (before (k, b)) bs → covered_in bs o → k <= o.
Proof.
  intros Hb (p & Hp & Hx)%Exists_exists. rewrite Forall_forall in Hb.
  destruct (Hb p Hp) as [? ?]. simpl in *. lia.
Qed.

(** Nothing can be read. *)
Lemma emitted_stop cap off bs :
  0 <= cap → chunks_wf bs → Forall (λ p, off <= RangeBuf.off p.2) bs →
  cap = 0 ∨ ¬ covered_in bs off → emitted cap off bs [] bs off.
Proof.
  intros Hcap Hc Hf Hs. constructor; simpl; try done.
  - rewrite zlen_nil. lia.
  - intros i x. split; [done|]. intros [? _]. lia.
  - intros o x. split; [|tauto]. intros Hx. split; [done|].
    apply holds_in_covered, Exists_exists in Hx as (p & Hp & ?).
    rewrite Forall_forall in Hf. specialize (Hf p Hp). simpl in Hf. lia.
  - destruct Hs as [->|?]; [by left|by right].
Qed.

(** The output ends inside the first chunk. *)
Lemma emitted_partial cap k b bs :
  0 < cap < RangeBuf.len b → chunks_wf ((k, b) :: bs) →
  emitted cap (RangeBuf.off b) ((k, b) :: bs) (ztake cap (RangeBuf.deref b))
    ((k, RangeBuf.consume cap b) :: bs) (RangeBuf.off b + cap).
Proof.
  intros Hcap ([Hk Hb] & Hbf & Hl)%chunks_wf_cons. simpl in *.
  pose proof (max_off_len b) as Hml. pose proof (RangeBuf.zlen_deref b Hb) as Hz.
  assert (zlen (ztake cap (RangeBuf.deref b)) = cap) as Hzo by (apply zlen_ztake; lia).
  constructor; try done; try lia.
  - apply chunks_wf_cons. split_and!; [|done|done].
    split; simpl; [by rewrite RangeBuf.max_off_consume|apply RangeBuf.consume_wf; done || lia].
  - constructor; [simpl; rewrite RangeBuf.off_consume; lia|].
    unfold before in Hbf. simpl in Hbf. forall_lia.
  - intros P HP Hcons. inversion_clear HP as [|? ? HPb HPl]. constructor; [|done].
    apply (Hcons (k, b)); [simpl; lia|done].
  - intros i x. unfold holds_in. rewrite Exists_cons. simpl. split.
    + intros Hx. pose proof (lookup_lt_Some _ _ _ Hx) as Hi. split; [done|]. left.
      apply RangeBuf.deref_prefix in Hx; unfold zlen in Hzo; done || lia.
    + intros [Hi [Hx|Hx]].
      * apply RangeBuf.deref_prefix; unfold zlen in Hzo; done || lia.
      * pose proof (before_not_held _ _ _ _ _ Hbf Hx). unfold zlen in Hzo. lia.
  - intros o x. unfold holds_in. rewrite !Exists_cons. simpl.
    rewrite RangeBuf.holds_consume by (done || lia). split; [|tauto].
    intros [[? ?]|Hx]; [tauto|]. split; [tauto|].
    pose proof (before_not_held _ _ _ _ _ Hbf Hx). lia.
Qed.

(** The first chunk is read whole and the loop goes on. *)
Lemma emitted_whole cap k b bs out bs' off' :
  RangeBuf.len b <= cap → chunks_wf ((k, b) :: bs) →
  emitted (cap - RangeBuf.len b) (RangeBuf.off b + RangeBuf.len b) bs out bs' off' →
  emitted cap (RangeBuf.off b) ((k, b) :: bs) (RangeBuf.deref b ++ out) bs' off'.
Proof.
  intros Hcap ([Hk Hb] & Hbf & Hl)%chunks_wf_cons [Ho Hc Hch Hf Hkeep Hout Hrest Hmax].
  simpl in *. pose proof (max_off_len b) as Hml. pose proof (RangeBuf.zlen_deref b Hb) as Hz.
  pose proof (zlen_nonneg out). constructor; try done; rewrite ?zlen_app; try lia.
  - intros P HP. inversion_clear HP. auto.
  - intros i x. unfold holds_in. rewrite Exists_cons. simpl.
    destruct (decide (i < length (RangeBuf.deref b))%nat) as [Hi|Hi].
    + rewrite lookup_app_l by done. rewrite length_app.
      assert (ztake (RangeBuf.len b) (RangeBuf.deref b) = RangeBuf.deref b) as Hall
        by (apply ztake_all; lia).
      rewrite <- Hall at 1. rewrite RangeBuf.deref_prefix by (unfold zlen in Hz; done || lia).
      split; [intros; split; [lia|by left]|]. intros [_ [Hx|Hx]]; [done|].
      pose proof (before_not_held _ _ _ _ _ Hbf Hx). unfold zlen in Hz. lia.
    + rewrite lookup_app_r by lia. rewrite Hout, length_app. unfold zlen in Hz.
      replace (RangeBuf.off b + RangeBuf.len b + Z.of_nat (i - length (RangeBuf.deref b)))
        with (RangeBuf.off b + Z.of_nat i) by lia.
      split; [intros [? ?]; split; [lia|by right]|]. intros [? [Hx|Hx]]; [|split; [lia|done]].
      apply holds_covered in Hx. lia.
  - intros o x. rewrite Hrest. unfold holds_in. rewrite Exists_cons. simpl.
    split; [tauto|]. intros [[Hx|?] ?]; [apply holds_covered in Hx; lia|tauto].
  - destruct Hmax as [?|Hn]; [left; lia|right]. unfold covered_in in *. rewrite Exists_cons.
    simpl. intros [?|?]; [lia|done].
Qed.

(** Only the last chunk may be empty. *)
Lemma emitted_empty cap off bs out bs' off' fin :
  Forall chunk_wf bs → Forall (λ p, RangeBuf.off p.2 < p.1 ∨ fin = Some p.1) bs →
  emitted cap off bs out bs' off' → Forall (λ p, RangeBuf.off p.2 < p.1 ∨ fin = Some p.1) bs'.
Proof.
  intros Hc He Hem.
  eapply (Forall_impl (λ p, chunk_wf p ∧ (RangeBuf.off p.2 < p.1 ∨ fin = Some p.1)));
    [|by intros p [_ ?]].
  apply (em_keep _ _ _ _ _ _ Hem); [by apply Forall_and|].
  intros [k b] n Hn [[Hk Hb] Hp]. simpl in *. split.
  - split; simpl; [by rewrite RangeBuf.max_off_consume|apply RangeBuf.consume_wf; done || lia].
  - rewrite RangeBuf.off_consume. pose proof (max_off_len b).
    destruct Hp as [?|?]; [left; lia|by right].
Qed.

Lemma recv_emit_loop_spec cap bs off :
  0 <= cap → chunks_wf bs → Forall (λ p, off <= RangeBuf.off p.2) bs →
  ∃ out bs' off', RecvBuf.emit_loop cap bs off = Ok (out, bs', off') ∧
    emitted cap off bs out bs' off'.
Proof.
  revert cap off. induction bs as [|[k b] bs IH]; intros cap off Hcap Hc Hf; simpl.
  { exists [], [], off. split; [done|]. apply emitted_stop; try done. right. by inversion 1. }
  pose proof Hc as Hc'. apply chunks_wf_cons in Hc' as ([Hk Hb] & Hbf & Hl).
  inversion_clear Hf as [|? ? Hfb Hfl]. unfold before in Hbf. simpl in *.
  pose proof (max_off_len b) as Hml. pose proof (RangeBuf.len_nonneg b Hb).
  pose proof Hb as (? & ? & ? & ? & ?).
  destruct (Z.ltb_spec 0 cap); simpl.
  2: { eexists _, _, _. split; [done|].
       apply emitted_stop; [done|done|by constructor|left; lia]. }
  destruct (Z.eqb_spec (RangeBuf.off b) off) as [<-|Hne].
  2: { eexists _, _, _. split; [done|].
       apply emitted_stop; [done|done|by constructor|right]. unfold covered_in.
       rewrite Exists_cons. simpl. intros [?|(p & Hp & ?)%Exists_exists]; [lia|].
       rewrite Forall_forall in Hbf. specialize (Hbf p Hp). lia. }
  rewrite uadd_ok by (pose proof (RangeBuf.accessors_in_range b Hb); lia). simpl.
  destruct (Z.ltb_spec (Z.min (RangeBuf.len b) cap) (RangeBuf.len b)).
  - rewrite Z.min_r by lia. eexists _, _, _. split; [done|]. apply emitted_partial; [lia|done].
  - rewrite Z.min_l by lia.
    destruct (IH (cap - RangeBuf.len b) (RangeBuf.off b + RangeBuf.len b))
      as (out & bs' & off' & -> & He); [lia|done|forall_lia|].
    simpl. eexists _, _, _. split; [done|].
    rewrite ztake_all by (rewrite RangeBuf.zlen_deref by done; lia).
    apply emitted_whole; [lia|done|done].
Qed.
End emit.

(** What a successful read does. *)
Record emit_post (cap : Z) (rb : RecvBuf.t) (out : list Z) (rb' : RecvBuf.t) : Prop := mk_emit_post {
  ep_wf : recv_wf rb';
  ep_off : RecvBuf.off rb' = RecvBuf.off rb + zlen out;
  ep_cap : zlen out <= cap;
  ep_out i x : out !! i = Some x → stores rb (RecvBuf.off rb + Z.of_nat i) x;
  ep_max : zlen out = cap ∨ ¬ buffered rb (RecvBuf.off rb');
  ep_rest o x : stores rb' o x ↔ stores rb o x ∧ RecvBuf.off rb' <= o;
  ep_progress : 0 < cap → out ≠ [] ∨ RecvBuf.is_fin rb' = true;
  ep_len : RecvBuf.len rb' = RecvBuf.len rb;
  ep_fin : RecvBuf.fin_off rb' = RecvBuf.fin_off rb;
  ep_error : RecvBuf.error rb' = RecvBuf.error rb;
  ep_drain : RecvBuf.drain rb' = RecvBuf.drain rb;
  ep_max_data : RecvBuf.max_data rb' = RecvBuf.max_data rb
}.

Section emit_spec.
Implicit Types (rb : RecvBuf.t).

Lemma buffered_ready rb : recv_wf rb → buffered rb (RecvBuf.off rb) → RecvBuf.ready rb = true.
Proof.
  intros Hwf Hb. unfold buffered, RecvBuf.ready in *.
  pose proof (recv_data rb Hwf) as [Hc Hr _].
  destruct (RecvBuf.data rb) as [|[k b] bs]; [by inversion Hb|]. simpl.
  apply chunks_wf_cons in Hc as ([Hk Hbw] & Hbf & _).
  apply Forall_cons in Hr as [[Hoff _] Hr]. simpl in *. apply Z.eqb_eq.
  pose proof (RangeBuf.off_le_max b Hbw).
  apply Exists_cons in Hb as [Hb|Hb]; simpl in *; [lia|].
  pose proof (before_not_covered _ _ _ _ Hbf Hb). lia.
Qed.

(** The first chunk of a readable buffer has bytes or marks the end. *)
Lemma ready_cases rb :
  recv_wf rb → RecvBuf.ready rb = true →
  buffered rb (RecvBuf.off rb) ∨ RecvBuf.is_fin rb = true.
Proof.
  intros Hwf Hb. unfold buffered, RecvBuf.ready, RecvBuf.is_fin in *.
  pose proof (recv_data rb Hwf) as [Hc _ He].
  destruct (RecvBuf.data rb) as [|[k b] bs]; [done|]. simpl in Hb. apply Z.eqb_eq in Hb.
  apply Forall_cons in He as [He _]. apply chunks_wf_cons in Hc as ([Hk Hbw] & _).
  simpl in *. pose proof (RangeBuf.off_le_max b Hbw).
  destruct (decide (RangeBuf.off b = k)) as [Heq|Hne]; [|left; left; simpl; lia].
  destruct He as [He|He]; [lia|]. right. apply bool_decide_eq_true. rewrite He. f_equal. lia.
Qed.

Lemma recv_emit_run cap rb :
  recv_wf rb → RecvBuf.error rb = None → 0 <= cap → RecvBuf.ready rb = true →
  ∃ out rb', RecvBuf.emit cap rb = (Ok (out, RecvBuf.is_fin rb'), rb') ∧
    emit_post cap rb out rb'.
Proof.
  intros Hwf Herr Hcap Hready. pose proof Hwf as [Hd Ho Hl Hf Hcons Hdr _].
  pose proof Hd as [Hdc Hdr' Hde].
  destruct (recv_emit_loop_spec cap (RecvBuf.data rb) (RecvBuf.off rb))
    as (out & bs & off' & Hrun & Hem); [done|done|forall_lia|].
  pose proof Hem as [Eo Ec Ech Ef Ek Eout Erest Emax].
  pose proof (zlen_nonneg out) as Hout0.
  assert (off' <= RecvBuf.len rb) as Hoff'.
  { destruct (decide (out = [])) as [->|Hne]; [rewrite zlen_nil in *; lia|].
    destruct (last out) as [x|] eqn:Hlast; [|by apply last_None in Hlast].
    rewrite last_lookup in Hlast. apply Eout in Hlast as [? Hx].
    apply holds_in_covered, (covered_below _ _ _ _ _ Hd) in Hx. unfold zlen in *. lia. }
  unfold RecvBuf.max_data in Hl.
  eexists out, _. split.
  { unfold RecvBuf.emit. rewrite run_bind_get, Hready, Herr. simpl.
    rewrite (run_bind_lift _ _ _ _ Hrun), !run_bind_modify.
    erewrite run_bind_ok; [done|]. unfold zoom. cbn [RecvBuf.flow_control RecvBuf.set_off RecvBuf.set_data].
    by rewrite FlowControl.add_consumed_run by lia. }
  constructor; simpl; try done.
  - constructor; simpl; try done; try (unfold RecvBuf.max_data; simpl); try lia.
    + constructor; [done| |].
      * eapply Forall_impl; [apply Forall_and; split; [exact Ef|]|].
        -- apply (Ek (λ p, p.1 <= RecvBuf.len rb)); [forall_lia|done].
        -- simpl. intros p ?. lia.
      * by apply (emitted_empty _ _ _ _ _ _ _ (proj1 Hdc) Hde Hem).
    + intros Hdt. specialize (Hdr Hdt). unfold RecvBuf.ready in Hready. by rewrite Hdr in Hready.
    + intros e. congruence.
  - intros i x Hx. by apply Eout in Hx as [_ ?].
  - intros Hc. destruct (ready_cases rb Hwf Hready) as [Hb|Hfin].
    + left. intros ->. rewrite zlen_nil, Z.add_0_r in *. subst off'.
      destruct Emax; [lia|done].
    + destruct (decide (out = [])) as [->|?]; [right|by left].
      rewrite zlen_nil, Z.add_0_r in *. by subst off'.
Qed.
End emit_spec.

(** ** Runs of the buffer

    A run is a sequence of accepted chunks, successful reads and limit updates
    (made, as the connection does, when the buffer asks for one). *)
Inductive recv_event : Type :=
| EvWrite (buf : RangeBuf.t)
| EvRead (out : list Z)
| EvUpdate.

Inductive recv_step (rb : RecvBuf.t) : recv_event → RecvBuf.t → Prop :=
| step_write buf rb' :
    RangeBuf.wf buf → RangeBuf.fresh buf →
    RecvBuf.write buf rb = (Ok (), rb') → recv_step rb (EvWrite buf) rb'
| step_read cap out fin rb' :
    0 <= cap → RecvBuf.emit cap rb = (Ok (out, fin), rb') → recv_step rb (EvRead out) rb'
| step_update now rb' :
    RecvBuf.almost_full rb = Ok true →
    RecvBuf.update_max_data now rb = (Ok (), rb') → recv_step rb EvUpdate rb'.

Inductive recv_run (max_data max_window : Z) : list recv_event → RecvBuf.t → Prop :=
| run_new : recv_run max_data max_window [] (RecvBuf.new max_data max_window)
| run_step evs rb ev rb' :
    recv_run max_data max_window evs rb → recv_step rb ev rb' →
    recv_run max_data max_window (evs ++ [ev]) rb'.

(** The bytes handed to the application, and the offsets the peer has sent. *)
Definition delivered (evs : list recv_event) : list Z :=
  evs ≫= λ ev, match ev with EvRead out => out | _ => [] end.
Definition sent (evs : list recv_event) (o : Z) : Prop :=
  Exists (λ ev, match ev with
                | EvWrite buf => RangeBuf.off buf <= o < RangeBuf.max_off buf
                | _ => False
                end) evs.
(** The chunks are pieces of the stream [s]. *)
Definition pieces_of (s : list Z) (evs : list recv_event) : Prop :=
  Forall (λ ev, match ev with
                | EvWrite buf => ∀ o x, RangeBuf.holds buf o x → s !! Z.to_nat o = Some x
                | _ => True
                end) evs.

(** The end offset the peer announced. *)
Definition announced (evs : list recv_event) (f : Z) : Prop :=
  Exists (λ ev, match ev with
                | EvWrite buf => RangeBuf.fin buf = true ∧ RangeBuf.max_off buf = f
                | _ => False
                end) evs.

Section reassembly.
Context (max_data max_window : Z).
Hypothesis Hmax : 0 <= max_data <= u64_max.
Implicit Types (rb : RecvBuf.t) (evs : list recv_event) (s : list Z).

Lemma new_wf : recv_wf (RecvBuf.new max_data max_window).
Proof.
  constructor; simpl; try done; unfold RecvBuf.max_data; simpl; try lia.
Qed.

Lemma accepted_chunk buf rb rb' :
  recv_wf rb → RangeBuf.wf buf → RangeBuf.fresh buf → RecvBuf.write buf rb = (Ok (), rb') →
  accepts rb buf ∧ write_post buf rb rb'.
Proof.
  intros Hwf Hb Hf Hrun.
  destruct (decide (accepts rb buf)) as [Ha|Hn].
  - split; [done|]. destruct (write_accepts buf rb Hwf Hb Hf Ha) as (rb'' & Hrun' & Hp).
    rewrite Hrun in Hrun'. by simplify_eq.
  - rewrite write_rejects in Hrun by done. done.
Qed.

Lemma delivered_snoc evs ev : delivered (evs ++ [ev]) =
  delivered evs ++ match ev with EvRead out => out | _ => [] end.
Proof. unfold delivered. rewrite bind_app. simpl. by rewrite app_nil_r. Qed.

(** Reading on from a prefix. *)
Lemma take_extend (s out : list Z) n :
  (n <= length s)%nat → (∀ i x, out !! i = Some x → s !! (n + i)%nat = Some x) →
  take n s ++ out = take (n + length out) s ∧ (n + length out <= length s)%nat.
Proof.
  revert n. induction out as [|y out IH]; intros n Hn Hout; simpl.
  { rewrite app_nil_r, Nat.add_0_r. done. }
  pose proof (Hout 0%nat y eq_refl) as Hy. rewrite Nat.add_0_r in Hy.
  pose proof (lookup_lt_Some _ _ _ Hy).
  replace (take n s ++ y :: out) with (take (S n) s ++ out)
    by (by rewrite (take_S_r _ _ y), <- app_assoc).
  destruct (IH (S n)) as [-> ?]; [lia| |].
  - intros i x Hx. replace (S n + i)%nat with (n + S i)%nat by lia. by apply Hout.
  - replace (S n + length out)%nat with (n + S (length out))%nat in * by lia. done.
Qed.

(** The state of a run, against the stream the peer is sending. *)
Record tracks (s : list Z) (evs : list recv_event) (rb : RecvBuf.t) : Prop := mk_tracks {
  tr_wf : recv_wf rb;
  tr_error : RecvBuf.error rb = None;
  tr_drain : RecvBuf.drain rb = false;
  tr_off : RecvBuf.off rb <= zlen s;
  tr_out : delivered evs = take (Z.to_nat (RecvBuf.off rb)) s;
  tr_stores o x : stores rb o x → s !! Z.to_nat o = Some x;
  tr_sent o : sent evs o → o < RecvBuf.off rb ∨ buffered rb o;
  tr_fin f : announced evs f → RecvBuf.fin_off rb = Some f
}.

Lemma stores_off rb o x : recv_wf rb → stores rb o x → RecvBuf.off rb <= o.
Proof.
  intros Hwf (p & Hp & Hx)%Exists_exists. destruct (recv_data rb Hwf) as [_ Hr _].
  rewrite Forall_forall in Hr. specialize (Hr p Hp). apply holds_covered in Hx.
  simpl in *. lia.
Qed.

Lemma tracks_write s evs rb buf rb' :
  tracks s evs rb → (∀ o x, RangeBuf.holds buf o x → s !! Z.to_nat o = Some x) →
  RangeBuf.wf buf → accepts rb buf → write_post buf rb rb' → tracks s (evs ++ [EvWrite buf]) rb'.
Proof.
  intros [Hwf He Hd Ho Hout Hst Hsent Hfin] Hs Hbw (_ & Hfs & _) [Hwf' Ho' _ Hf' _ He' Hd' Hst'].
  specialize (Hst' Hd). constructor; rewrite ?He', ?Hd', ?Ho'; try done.
  - by rewrite delivered_snoc, app_nil_r.
  - intros o x [?|(Hx & _)]%Hst'; eauto.
  - intros o. unfold sent. rewrite Exists_app, Exists_cons, Exists_nil.
    assert (buffered rb o → buffered rb' o) as Hmono.
    { intros (x & Hx)%covered_holds_in; [|by apply (recv_data rb Hwf)].
      eapply holds_in_covered, Hst'. by left. }
    intros [Hse|[Hin|[]]]; [destruct (Hsent o Hse); auto|].
    destruct (decide (o < RecvBuf.off rb)); [by left|right].
    destruct (RangeBuf.holds_total buf o Hbw Hin) as [x Hx].
    assert (buffered rb o ∨ ¬ buffered rb o) as [?|?]; [|by auto|].
    { unfold buffered, covered_in. destruct (decide (Exists (λ p,
        RangeBuf.off p.2 <= o < RangeBuf.max_off p.2) (RecvBuf.data rb))); auto. }
    eapply holds_in_covered, Hst'. right. split_and!; [done|lia|done].
  - intros f. unfold announced. rewrite Exists_app, Exists_cons, Exists_nil, Hf'.
    intros [Ha|[[-> ->]|[]]]; [|done]. specialize (Hfin f Ha).
    destruct (RangeBuf.fin buf); [|done]. by destruct (Hfs f Hfin) as [_ ->].
Qed.

Lemma tracks_emit s evs rb cap out rb' :
  tracks s evs rb → emit_post cap rb out rb' → tracks s (evs ++ [EvRead out]) rb'.
Proof.
  intros [Hwf He Hd Ho Hout Hst Hsent Hfin] [Hwf' Ho' _ Ho2 _ Hrest _ _ Hf' He' Hd' _].
  pose proof (recv_off rb Hwf). pose proof (zlen_nonneg out).
  assert (∀ i x, out !! i = Some x → s !! (Z.to_nat (RecvBuf.off rb) + i)%nat = Some x) as Hb.
  { intros i x Hx. apply Ho2, Hst in Hx. rewrite <- Hx. f_equal. lia. }
  destruct (take_extend s out (Z.to_nat (RecvBuf.off rb))) as [Ht Hlen];
    [unfold zlen in *; lia|done|].
  constructor; rewrite ?He', ?Hd', ?Ho'; try done.
  - unfold zlen in *. lia.
  - rewrite delivered_snoc, Hout, Ht. f_equal. unfold zlen. lia.
  - intros o x [? _]%Hrest. auto.
  - intros o. unfold sent. rewrite Exists_app, Exists_cons, Exists_nil.
    intros [Hse|[[]|[]]].
    destruct (decide (o < RecvBuf.off rb + zlen out)); [by left|right].
    destruct (Hsent o Hse) as [?|(x & Hx)%covered_holds_in]; [lia| |by apply (recv_data rb Hwf)].
    eapply holds_in_covered, Hrest. split; [done|lia].
  - intros f. unfold announced. rewrite Exists_app, Exists_cons, Exists_nil, Hf'.
    intros [?|[[]|[]]]. auto.
Qed.

(** Announcing a new limit never lowers it, and changes nothing else. *)
Lemma update_raises rb now rb' :
  recv_wf rb → RecvBuf.almost_full rb = Ok true → RecvBuf.update_max_data now rb = (Ok (), rb') →
  recv_wf rb' ∧ RecvBuf.max_data rb <= RecvBuf.max_data rb' ∧
  RecvBuf.data rb' = RecvBuf.data rb ∧ RecvBuf.off rb' = RecvBuf.off rb ∧ RecvBuf.len rb' = RecvBuf.len rb ∧
  RecvBuf.fin_off rb' = RecvBuf.fin_off rb ∧ RecvBuf.error rb' = RecvBuf.error rb ∧ RecvBuf.drain rb' = RecvBuf.drain rb.
Proof.
  intros [Hdata Hoff Hlen Hrf Hcons Hdr Herr] Haf Hup. unfold RecvBuf.almost_full in Haf.
  destruct (RecvBuf.fin_off rb) as [|] eqn:Hnone; [done|]. unfold RecvBuf.max_data in *.
  rewrite FlowControl.should_update_run in Haf by lia. injection Haf as Haf%Z.ltb_lt.
  set (fc := RecvBuf.flow_control rb) in *.
  assert (FlowControl.window fc / 2 <= Z.max 0 (FlowControl.window fc)).
  { destruct (Z.le_gt_cases 0 (FlowControl.window fc)).
    - apply Z.div_le_upper_bound; lia.
    - pose proof (Z.div_lt_upper_bound (FlowControl.window fc) 2 0). lia. }
  unfold RecvBuf.update_max_data, zoom, FlowControl.update_max_data, mbind, M_bind, reads,
    FlowControl.max_data_next, uadd in Hup. fold fc in Hup.
  destruct (Z.leb_spec (FlowControl.consumed fc + FlowControl.window fc) u64_max); [|done]. simplify_eq/=.
  split; [|split; [lia|by split_and!]].
  constructor; simpl; try done; unfold RecvBuf.max_data; simpl; rewrite ?Hnone; try done; lia.
Qed.

Lemma tracks_update s evs rb now rb' :
  tracks s evs rb → RecvBuf.almost_full rb = Ok true →
  RecvBuf.update_max_data now rb = (Ok (), rb') → tracks s (evs ++ [EvUpdate]) rb'.
Proof.
  intros [Hwf He Hd Ho Hout Hst Hsent Hfin] Haf Hup.
  destruct (update_raises _ _ _ Hwf Haf Hup) as (Hwf' & _ & Ed & Eo & _ & Ef & Ee & Er).
  constructor; unfold stores, buffered in *; rewrite ?Ee, ?Er, ?Eo, ?Ed, ?Ef; try done.
  - by rewrite delivered_snoc, app_nil_r.
  - intros o. unfold sent. rewrite Exists_app, Exists_cons, Exists_nil. intros [?|[[]|[]]]. by auto.
  - intros f. unfold announced. rewrite Exists_app, Exists_cons, Exists_nil. intros [?|[[]|[]]]. by auto.
Qed.

Lemma run_tracks s evs rb :
  recv_run max_data max_window evs rb → pieces_of s evs → tracks s evs rb.
Proof.
  induction 1 as [|evs rb ev rb' Hrun IH Hstep]; intros Hp.
  - pose proof (zlen_nonneg s). constructor; simpl; try done.
    + intros o x. by inversion 1.
    + intros o. by inversion 1.
    + intros f. by inversion 1.
  - apply Forall_app in Hp as [Hp1 Hp2]. apply Forall_cons in Hp2 as [Hp2 _].
    specialize (IH Hp1). pose proof IH as [Hwf He _ _ _ _ _ _].
    destruct Hstep as [buf rb' Hbw Hbf Hw|cap out fin rb' Hcap Hem|now rb' Haf Hup].
    + destruct (accepted_chunk buf rb rb' Hwf Hbw Hbf Hw). by eapply tracks_write.
    + destruct (RecvBuf.ready rb) eqn:Hr.
      * destruct (recv_emit_run cap rb Hwf He Hcap Hr) as (out' & rb'' & Hem' & Hpost).
        rewrite Hem in Hem'. simplify_eq. by eapply tracks_emit.
      * unfold RecvBuf.emit in Hem. by rewrite run_bind_get, Hr in Hem.
    + by eapply tracks_update.
Qed.
End reassembly.

(** A slice of a stream is a piece of it. *)
Lemma from_piece s buf o f i x :
  0 <= o → take (length buf) (drop (Z.to_nat o) s) = buf →
  RangeBuf.holds (RangeBuf.from buf o f) i x → s !! Z.to_nat i = Some x.
Proof.
  intros Ho Hs [Hi Hx]%RangeBuf.holds_from. rewrite <- Hs in Hx.
  rewrite lookup_take, lookup_drop in Hx. case_decide; [|done].
  rewrite <- Hx. f_equal. lia.
Qed.

(** ** Properties *)

(** An accepted chunk leaves a well-formed buffer in which exactly the
    offsets that were neither read nor buffered gain the chunk's bytes; bytes
    received first win, the received length and the final size are updated,
    and in draining mode nothing is stored.  The overlap loop never runs out
    of fuel and never panics. *)
Theorem recv_write_stores (buf : RangeBuf.t) (rb : RecvBuf.t) :
  recv_wf rb → RangeBuf.wf buf → RangeBuf.fresh buf → accepts rb buf →
  ∃ rb', RecvBuf.write buf rb = (Ok (), rb') ∧ recv_wf rb' ∧
    RecvBuf.off rb' = RecvBuf.off rb ∧
    RecvBuf.len rb' =
      (if RangeBuf.is_empty buf && negb (RangeBuf.fin buf) then RecvBuf.len rb
       else Z.max (RecvBuf.len rb) (RangeBuf.max_off buf)) ∧
    RecvBuf.fin_off rb' =
      (if RangeBuf.fin buf then Some (RangeBuf.max_off buf) else RecvBuf.fin_off rb) ∧
    if RecvBuf.drain rb then RecvBuf.data rb' = []
    else ∀ o x, stores rb' o x ↔
      stores rb o x ∨ (RangeBuf.holds buf o x ∧ RecvBuf.off rb <= o ∧ ¬ buffered rb o).
Proof.
  intros Hwf Hb Hf Ha. destruct (write_accepts buf rb Hwf Hb Hf Ha) as (rb' & Hrun & Hp).
  destruct Hp as [Hwf' Ho Hl Hfin _ _ Hdr Hst]. exists rb'. split_and!; try done.
  destruct (RecvBuf.drain rb) eqn:Hd; [|by apply Hst].
  apply (recv_drain rb' Hwf'). by rewrite Hdr.
Qed.

Lemma recv_write_stores_witness :
  ∃ rb', RecvBuf.write (RangeBuf.from [7; 8; 9] 2 true) (RecvBuf.new 100 100) = (Ok (), rb') ∧
    RecvBuf.fin_off rb' = Some 5.
Proof.
  destruct (recv_write_stores (RangeBuf.from [7; 8; 9] 2 true) (RecvBuf.new 100 100))
    as (rb' & Hrun & _ & _ & _ & Hf & _).
  - apply new_wf. lia.
  - apply RangeBuf.from_wf; [lia|vm_compute; congruence].
  - done.
  - split_and!; simpl; [vm_compute; congruence|done|intros _; vm_compute; congruence].
  - exists rb'. split; [exact Hrun|exact Hf].
Defined.

(** A chunk is rejected exactly when it ends beyond the flow control
    limit ([FlowControl]) or contradicts the final size or the data already
    received ([FinalSize]); a rejected chunk changes nothing. *)
Theorem recv_write_limits (buf : RangeBuf.t) (rb : RecvBuf.t) :
  recv_wf rb → RangeBuf.wf buf → RangeBuf.fresh buf →
  ((RecvBuf.write buf rb).1 = Ok () ↔ accepts rb buf) ∧
  (¬ accepts rb buf → RecvBuf.write buf rb =
     (Err (if RecvBuf.max_data rb <? RangeBuf.max_off buf then FlowControl else FinalSize), rb)).
Proof.
  intros Hwf Hb Hf. split; [|by apply write_rejects]. split.
  - intros Hok. destruct (decide (accepts rb buf)) as [|Hn]; [done|].
    by rewrite write_rejects in Hok.
  - intros Ha. by destruct (write_accepts buf rb Hwf Hb Hf Ha) as (rb' & -> & _).
Qed.

Lemma recv_write_limits_witness :
  RecvBuf.write (RangeBuf.from [7; 8; 9] 98 false) (RecvBuf.new 100 100) =
    (Err FlowControl, RecvBuf.new 100 100).
Proof.
  destruct (recv_write_limits (RangeBuf.from [7; 8; 9] 98 false) (RecvBuf.new 100 100)) as [_ H].
  - apply new_wf. lia.
  - apply RangeBuf.from_wf; [lia|vm_compute; congruence].
  - done.
  - apply H. intros [Hm _]. vm_compute in Hm. by apply Hm.
Defined.

(** On a stream that was not reset, a read returns the bytes stored from
    the read offset on, as many as fit and without a gap; it moves the read
    offset past them and drops them from the buffer; when nothing is
    available it reports [Done] and changes nothing. *)
Theorem recv_emit_spec (cap : Z) (rb : RecvBuf.t) :
  recv_wf rb → RecvBuf.error rb = None → 0 <= cap →
  if RecvBuf.ready rb then
    ∃ out rb', RecvBuf.emit cap rb = (Ok (out, RecvBuf.is_fin rb'), rb') ∧ recv_wf rb' ∧
      RecvBuf.off rb' = RecvBuf.off rb + zlen out ∧ zlen out <= cap ∧
      (∀ i x, out !! i = Some x → stores rb (RecvBuf.off rb + Z.of_nat i) x) ∧
      (zlen out = cap ∨ ¬ buffered rb (RecvBuf.off rb')) ∧
      (∀ o x, stores rb' o x ↔ stores rb o x ∧ RecvBuf.off rb' <= o) ∧
      (0 < cap → out ≠ [] ∨ RecvBuf.is_fin rb' = true)
  else RecvBuf.emit cap rb = (Err Done, rb) ∧ ¬ buffered rb (RecvBuf.off rb).
Proof.
  intros Hwf He Hc. destruct (RecvBuf.ready rb) eqn:Hr.
  - destruct (recv_emit_run cap rb Hwf He Hc Hr) as (out & rb' & Hrun & []).
    exists out, rb'. by split_and!.
  - split; [unfold RecvBuf.emit; by rewrite run_bind_get, Hr|].
    intros Hb%buffered_ready; [congruence|done].
Qed.

Lemma recv_emit_spec_witness :
  ∃ out rb', RecvBuf.emit 2
      (RecvBuf.mk [(3, RangeBuf.from [7; 8; 9] 0 false)] 0 3 (FlowControl.new 100 100 100)
                  None None false) = (Ok (out, RecvBuf.is_fin rb'), rb') ∧ out = [7; 8].
Proof.
  assert (recv_wf (RecvBuf.mk [(3, RangeBuf.from [7; 8; 9] 0 false)] 0 3
            (FlowControl.new 100 100 100) None None false)) as Hwf.
  { constructor; simpl; try done; unfold RecvBuf.max_data; simpl; try lia.
    repeat constructor; vm_compute; congruence. }
  pose proof (recv_emit_spec 2 _ Hwf eq_refl ltac:(lia)) as H. simpl in H.
  destruct H as (out & rb' & Hrun & _). exists out, rb'. split; [exact Hrun|].
  vm_compute in Hrun. by simplify_eq.
Defined.

(** C14. Reassembly is safe: in every run of a new buffer whose chunks are
    pieces of one stream, in any order, duplicated or overlapping, the bytes
    delivered so far are exactly the stream's first bytes, in order. *)
Theorem recv_delivers_prefix (max_data max_window : Z) (s : list Z) evs rb :
  0 <= max_data <= u64_max → recv_run max_data max_window evs rb → pieces_of s evs →
  delivered evs = ztake (RecvBuf.off rb) s ∧ zlen (delivered evs) = RecvBuf.off rb ∧ recv_wf rb.
Proof.
  intros Hm Hrun Hp. destruct (run_tracks _ _ Hm s evs rb Hrun Hp) as [Hwf _ _ Ho Hout _ _ _].
  pose proof (recv_off rb Hwf). unfold ztake. rewrite Hout. split_and!; try done.
  apply zlen_ztake. lia.
Qed.

(** A run in which the second half of the stream arrives first. *)
Definition sample_events : list recv_event :=
  [EvWrite (RangeBuf.from [3; 4; 5] 2 true); EvWrite (RangeBuf.from [1; 2; 3] 0 false)].

Lemma sample_pieces : pieces_of [1; 2; 3; 4; 5] sample_events.
Proof.
  constructor; [|constructor; [|constructor]]; intros o x; apply from_piece; done || lia.
Qed.

Lemma sample_run : ∃ rb, recv_run 100 100 sample_events rb.
Proof.
  eexists. eapply (run_step _ _ [EvWrite _]); [eapply (run_step _ _ []); [apply run_new|]|];
    (apply step_write; [apply RangeBuf.from_wf; [lia|vm_compute; congruence]|done|
                        cbv; reflexivity]).
Qed.

Lemma recv_delivers_prefix_witness : ∃ rb, recv_run 100 100 sample_events rb ∧ recv_wf rb.
Proof.
  destruct sample_run as [rb Hrun]. exists rb. split; [exact Hrun|].
  destruct (recv_delivers_prefix 100 100 [1; 2; 3; 4; 5] sample_events rb) as (_ & _ & H);
    [lia|exact Hrun|exact sample_pieces|exact H].
Defined.

(** Reassembly is live: once every offset of the stream has been sent,
    one read with enough room completes the delivery, and reports the end of
    the stream when the final size was announced. *)
Theorem recv_delivers_all (max_data max_window cap : Z) (s : list Z) evs rb :
  0 <= max_data <= u64_max → recv_run max_data max_window evs rb → pieces_of s evs →
  (∀ o, 0 <= o < zlen s → sent evs o) → RecvBuf.off rb < zlen s → zlen s <= cap →
  ∃ out fin rb', RecvBuf.emit cap rb = (Ok (out, fin), rb') ∧ delivered evs ++ out = s ∧
    (announced evs (zlen s) → fin = true).
Proof.
  intros Hm Hrun Hp Hsent Hlt Hcap.
  pose proof (run_tracks _ _ Hm s evs rb Hrun Hp) as Htr.
  pose proof Htr as [Hwf He _ _ _ _ Hse _]. pose proof (recv_off rb Hwf).
  assert (RecvBuf.ready rb = true) as Hr.
  { apply buffered_ready; [done|]. destruct (Hse (RecvBuf.off rb)); [apply Hsent; lia|lia|done]. }
  destruct (recv_emit_run cap rb Hwf He ltac:(lia) Hr) as (out & rb' & Hem & Hpost).
  pose proof (tracks_emit s evs rb cap out rb' Htr Hpost) as [_ _ _ Ho Hout _ _ Hfin].
  destruct Hpost as [_ Ho' _ _ Hmax _ _ _ _ _ _ _].
  assert (RecvBuf.off rb' = zlen s) as Heq.
  { destruct Hmax as [?|Hn]; [lia|].
    destruct (Z.lt_ge_cases (RecvBuf.off rb') (zlen s)) as [Hl|]; [|lia].
    pose proof (zlen_nonneg out). destruct (Hse (RecvBuf.off rb')); [apply Hsent; lia|lia|done]. }
  exists out, (RecvBuf.is_fin rb'), rb'. split; [done|]. rewrite delivered_snoc, Heq in Hout.
  split; [rewrite Hout; apply take_ge; unfold zlen; lia|].
  intros Ha. unfold RecvBuf.is_fin. rewrite Heq, (Hfin (zlen s)); [by apply bool_decide_eq_true|].
  unfold announced. apply Exists_app. by left.
Qed.

Lemma recv_delivers_all_witness :
  ∃ rb out fin rb', recv_run 100 100 sample_events rb ∧
    RecvBuf.emit 10 rb = (Ok (out, fin), rb') ∧ out = [1; 2; 3; 4; 5] ∧ fin = true.
Proof.
  destruct sample_run as [rb Hrun]. exists rb.
  destruct (recv_delivers_all 100 100 10 [1; 2; 3; 4; 5] sample_events rb)
    as (out & fin & rb' & Hem & Hout & Hfin).
  - lia.
  - exact Hrun.
  - exact sample_pieces.
  - intros o Ho. unfold zlen in Ho. simpl in Ho.
    destruct (decide (o < 2)); [right; left|left];
      rewrite RangeBuf.off_from, RangeBuf.max_off_from; unfold zlen; simpl; lia.
  - destruct (run_tracks 100 100 ltac:(lia) [1; 2; 3; 4; 5] _ rb Hrun sample_pieces)
      as [Hwf _ _ Ho Ht _ _ _]. change (delivered sample_events) with (@nil Z) in Ht.
    pose proof (recv_off rb Hwf). apply (f_equal length) in Ht. rewrite length_take in Ht.
    unfold zlen. simpl in *. lia.
  - vm_compute. congruence.
  - exists out, fin, rb'. split; [exact Hrun|]. split; [exact Hem|]. split; [exact Hout|].
    apply Hfin. left. vm_compute. done.
Defined.

Section reset.
Implicit Types (rb : RecvBuf.t).

Definition reset_state (e n : Z) rb : RecvBuf.t :=
  RecvBuf.set_data [] (RecvBuf.set_off n (RecvBuf.set_error (Some e) rb)).

(** The zero-length chunk that announces the reset is stored when the final
    size was not known before, and dropped by [write] when it was. *)
Lemma write_reset_marker e n rb :
  recv_wf rb → RecvBuf.len rb <= n <= RecvBuf.max_data rb →
  (∀ f, RecvBuf.fin_off rb = Some f → f = n) →
  RecvBuf.write (RangeBuf.from [] n true) (reset_state e n rb) =
    (Ok (), match RecvBuf.fin_off rb with
            | Some _ => reset_state e n rb
            | None => RecvBuf.set_data
                (if RecvBuf.drain rb then [] else [(n, RangeBuf.from [] n true)])
                (RecvBuf.set_len n (RecvBuf.set_fin_off (Some n) (reset_state e n rb)))
            end).
Proof.
  intros Hwf Hn Hf. set (buf := RangeBuf.from [] n true).
  assert (RangeBuf.max_off buf = n) as Hm
    by (unfold buf; rewrite RangeBuf.max_off_from, zlen_nil; lia).
  assert (RangeBuf.off buf = n) as Ho by apply RangeBuf.off_from.
  unfold RecvBuf.write. rewrite run_bind_get. rewrite Hm.
  unfold RecvBuf.max_data in *. cbn [RecvBuf.flow_control RecvBuf.fin_off RecvBuf.len reset_state
    RecvBuf.set_data RecvBuf.set_off RecvBuf.set_error].
  rewrite (proj2 (Z.ltb_ge _ _)) by lia. destruct (RecvBuf.fin_off rb) as [f|] eqn:Hfin.
  - rewrite (Hf f eq_refl), Z.ltb_irrefl, Z.eqb_refl. simpl.
    rewrite (proj2 (Z.ltb_ge _ _)) by lia. done.
  - simpl. rewrite (proj2 (Z.ltb_ge _ _)) by lia. rewrite run_bind_modify.
    change (RangeBuf.is_empty buf) with true. cbn [negb andb]. rewrite andb_false_r.
    change (RecvBuf.write_fuel buf) with 1%nat. cbn [RecvBuf.write_loop].
    rewrite run_bind_get. unfold RecvBuf.off_front. simpl. rewrite Ho, Z.ltb_irrefl.
    rewrite (run_bind_lift _ _ _ buf) by done.
    change (RangeBuf.is_empty buf) with true. rewrite orb_true_r.
    rewrite (run_bind_lift _ _ _ (Some buf, [])) by done.
    rewrite !run_bind_modify, Hm. unfold reset_state. simpl. rewrite Z.max_r by lia.
    destruct rb as [? ? ? ? ? ? []]; simpl; rewrite ?Hm; done.
Qed.

Definition after_reset (e n : Z) rb : RecvBuf.t :=
  RecvBuf.mk
    (if bool_decide (RecvBuf.fin_off rb = None) && negb (RecvBuf.drain rb)
     then [(n, RangeBuf.from [] n true)] else [])
    n n (RecvBuf.flow_control rb) (Some n) (Some e) (RecvBuf.drain rb).

Lemma recv_reset_run e n rb :
  recv_wf rb → RecvBuf.error rb = None → RecvBuf.len rb <= n <= RecvBuf.max_data rb →
  (∀ f, RecvBuf.fin_off rb = Some f → f = n) →
  RecvBuf.reset e n rb = (Ok (n - RecvBuf.len rb), after_reset e n rb).
Proof.
  intros Hwf He Hn Hf. unfold RecvBuf.reset. rewrite run_bind_get.
  replace (match RecvBuf.fin_off rb with Some f => negb (f =? n) | None => false end) with false.
  2: { destruct (RecvBuf.fin_off rb) as [f|]; [|done]. by rewrite (Hf f eq_refl), Z.eqb_refl. }
  rewrite (proj2 (Z.ltb_ge _ _)) by lia.
  rewrite (run_bind_lift _ _ _ (n - RecvBuf.len rb)) by (apply usub_ok; lia).
  rewrite He, !run_bind_modify.
  fold (reset_state e n rb). rewrite (run_bind_ok _ _ _ _ _ (write_reset_marker e n rb Hwf Hn Hf)).
  rewrite run_ret. f_equal. unfold after_reset.
  destruct (RecvBuf.fin_off rb) as [f|] eqn:Hfin.
  - rewrite bool_decide_eq_false_2 by done. unfold reset_state, RecvBuf.set_data. simpl.
    pose proof (recv_fin rb Hwf f Hfin). pose proof (Hf f eq_refl). rewrite Hfin. f_equal; congruence.
  - rewrite bool_decide_eq_true_2 by done. by destruct rb as [? ? ? ? ? ? []].
Qed.

Lemma after_reset_wf e n rb :
  recv_wf rb → RecvBuf.len rb <= n <= RecvBuf.max_data rb → recv_wf (after_reset e n rb).
Proof.
  intros [Hd Ho Hl Hf Hc Hdr _] Hn. unfold RecvBuf.max_data in *.
  constructor; simpl; try done; try (unfold RecvBuf.max_data; simpl; lia).
  - assert (RangeBuf.wf (RangeBuf.from [] n true)).
    { apply RangeBuf.from_wf; [lia|]. rewrite zlen_nil. lia. }
    case_match; [|repeat constructor]. constructor.
    + apply chunks_wf_cons. split_and!; [|constructor|split; constructor].
      split; [|done]. simpl. rewrite RangeBuf.max_off_from, zlen_nil. lia.
    + constructor; [|constructor]. simpl. rewrite RangeBuf.off_from. lia.
    + constructor; [|constructor]. by right.
  - by intros ? [= <-].
  - intros ->. by rewrite andb_false_r.
Qed.

Lemma reset_refused e n rb :
  n < RecvBuf.len rb ∨ (∃ f, RecvBuf.fin_off rb = Some f ∧ f ≠ n) →
  RecvBuf.reset e n rb = (Err FinalSize, rb).
Proof.
  intros H. unfold RecvBuf.reset. rewrite run_bind_get.
  destruct (match RecvBuf.fin_off rb with Some f => negb (f =? n) | None => false end) eqn:Hb;
    [done|].
  destruct H as [Hn|(f & Hf & Hn)]; [by rewrite (proj2 (Z.ltb_lt _ _) Hn)|].
  rewrite Hf in Hb. apply negb_false_iff, Z.eqb_eq in Hb. congruence.
Qed.

End reset.

(** A valid reset reports how far the connection's flow control must
    advance, discards the buffered data and jumps to the final size; the
    application sees the error on its next read only if the final size was
    not known before and the stream is not being drained: otherwise the
    marker chunk is dropped and the next read reports [Done].  A reset that
    contradicts the final size is refused, a repeated one has no effect. *)
Theorem recv_reset_spec (error_code final_size : Z) (rb : RecvBuf.t) :
  recv_wf rb → RecvBuf.error rb = None → final_size <= RecvBuf.max_data rb →
  if decide (RecvBuf.len rb <= final_size ∧
             (RecvBuf.fin_off rb = None ∨ RecvBuf.fin_off rb = Some final_size))
  then ∃ rb', RecvBuf.reset error_code final_size rb = (Ok (final_size - RecvBuf.len rb), rb') ∧
    recv_wf rb' ∧ RecvBuf.off rb' = final_size ∧ RecvBuf.len rb' = final_size ∧
    RecvBuf.is_fin rb' = true ∧ (∀ o, ¬ buffered rb' o) ∧
    (RecvBuf.emit 0 rb').1 =
      (if bool_decide (RecvBuf.fin_off rb = None) && negb (RecvBuf.drain rb)
       then Err (StreamReset error_code) else Err Done) ∧
    (∀ e, RecvBuf.reset e final_size rb' = (Ok 0, rb'))
  else RecvBuf.reset error_code final_size rb = (Err FinalSize, rb).
Proof.
  intros Hwf He Hmd. case_decide as Hok.
  - destruct Hok as [Hlen Hfin].
    assert (∀ f, RecvBuf.fin_off rb = Some f → f = final_size) as Hff
      by (intros f Hf'; destruct Hfin; congruence).
    exists (after_reset error_code final_size rb).
    split; [by apply recv_reset_run|]. split; [by apply after_reset_wf|]. split_and!; try done.
    + by apply bool_decide_eq_true.
    + intros o. unfold buffered, covered_in, after_reset. simpl.
      case_match; [|by inversion 1]. rewrite Exists_cons, Exists_nil. simpl.
      rewrite RangeBuf.off_from, RangeBuf.max_off_from, zlen_nil. lia.
    + unfold RecvBuf.emit. rewrite run_bind_get. unfold RecvBuf.ready, after_reset. simpl.
      destruct (bool_decide _ && _); [|done]. simpl. by rewrite RangeBuf.off_from, Z.eqb_refl.
    + intros e. unfold RecvBuf.reset, after_reset. rewrite run_bind_get. simpl.
      rewrite Z.eqb_refl, Z.ltb_irrefl. simpl.
      rewrite (run_bind_lift _ _ _ 0); [done|]. rewrite usub_ok by lia. f_equal. lia.
  - apply reset_refused. destruct (Z.lt_ge_cases final_size (RecvBuf.len rb)); [by left|right].
    destruct (RecvBuf.fin_off rb) as [f|] eqn:Hf; [|tauto].
    exists f. split; [done|]. intros ->. tauto.
Qed.

Lemma recv_reset_spec_witness :
  ∃ rb', RecvBuf.reset 9 5 (RecvBuf.new 100 100) = (Ok 5, rb') ∧
    (RecvBuf.emit 0 rb').1 = Err (StreamReset 9).
Proof.
  pose proof (recv_reset_spec 9 5 (RecvBuf.new 100 100)) as H. destruct (decide _) as [Hd|Hd] in H.
  - destruct H as (rb' & Hrun & _ & _ & _ & _ & _ & Hem & _).
    + apply new_wf. lia.
    + done.
    + vm_compute. congruence.
    + exists rb'. split; [exact Hrun|exact Hem].
  - destruct Hd. vm_compute. split; [congruence|by left].
Defined.

(** Shutting down the receive side discards what is buffered.  Data that
    arrives afterwards is validated but not stored, and the read offset stays
    behind it: when the peer then finishes the stream beyond that offset, the
    buffer never reports the end of the stream and every read is [Done]. *)
Theorem recv_shutdown_never_fin (rb : RecvBuf.t) :
  recv_wf rb → RecvBuf.drain rb = false →
  ∃ rb1, RecvBuf.shutdown rb = (Ok (), rb1) ∧ recv_wf rb1 ∧
    RecvBuf.off rb1 = RecvBuf.len rb ∧ (∀ o, ¬ buffered rb1 o) ∧
    RecvBuf.shutdown rb1 = (Err Done, rb1) ∧
    ∀ buf, RangeBuf.wf buf → RangeBuf.fresh buf → accepts rb1 buf → RangeBuf.fin buf = true →
      RecvBuf.len rb < RangeBuf.max_off buf →
      ∃ rb2, RecvBuf.write buf rb1 = (Ok (), rb2) ∧
        RecvBuf.fin_off rb2 = Some (RangeBuf.max_off buf) ∧ RecvBuf.is_fin rb2 = false ∧
        ∀ cap, RecvBuf.emit cap rb2 = (Err Done, rb2).
Proof.
  intros Hwf Hdr. pose proof Hwf as [Hd Ho Hl Hf Hc _ Herr].
  set (rb1 := RecvBuf.set_off (RecvBuf.len rb) (RecvBuf.set_data [] (RecvBuf.set_drain true rb))).
  assert (recv_wf rb1) as Hwf1.
  { constructor; simpl; try done; try lia.
    - intros e He. specialize (Herr e He). rewrite Herr. f_equal. symmetry. by apply Hf. }
  exists rb1. split.
  { unfold RecvBuf.shutdown. rewrite run_bind_get, Hdr. by rewrite !run_bind_modify. }
  split_and!; try done; [intros o; by inversion 1|].
  intros buf Hb Hfr Ha Hfin Hlen.
  destruct (write_accepts buf rb1 Hwf1 Hb Hfr Ha) as (rb2 & Hrun & [Hwf2 Ho2 _ Hf2 _ _ Hd2 _]).
  rewrite Hfin in Hf2. exists rb2. split_and!; try done.
  - apply bool_decide_eq_false. rewrite Hf2, Ho2. simpl. intros [=]. lia.
  - intros cap. unfold RecvBuf.emit. rewrite run_bind_get. unfold RecvBuf.ready.
    by rewrite (recv_drain rb2 Hwf2 Hd2).
Qed.

Lemma recv_shutdown_never_fin_witness :
  ∃ rb1 rb2, RecvBuf.shutdown (RecvBuf.new 100 100) = (Ok (), rb1) ∧
    RecvBuf.write (RangeBuf.from [1; 2] 0 true) rb1 = (Ok (), rb2) ∧
    RecvBuf.is_fin rb2 = false.
Proof.
  destruct (recv_shutdown_never_fin (RecvBuf.new 100 100)) as (rb1 & Hs & _ & _ & _ & _ & H).
  - apply new_wf. lia.
  - done.
  - assert (RecvBuf.data rb1 = [] ∧ RecvBuf.max_data rb1 = 100 ∧ RecvBuf.fin_off rb1 = None ∧
            RecvBuf.len rb1 = 0) as (_ & Hm & Hf & Hl) by (vm_compute in Hs; by simplify_eq).
    destruct (H (RangeBuf.from [1; 2] 0 true)) as (rb2 & Hw & _ & Hfin & _).
    + apply RangeBuf.from_wf; [lia|vm_compute; congruence].
    + done.
    + split_and!; [rewrite Hm; vm_compute; congruence|rewrite Hf; done|
                   intros _; rewrite Hl; vm_compute; congruence].
    + done.
    + done.
    + exists rb1, rb2. split; [exact Hs|]. split; [exact Hw|exact Hfin].
Defined.
