(* ===== verification/SendBufs.v ===== *)
(** * Send-side stream buffer: [quiche/src/stream/send_buf.rs]

    [SendBuf] keeps the chunks written by the application in a queue, each
    with the position up to which it was sent; acknowledged chunks are dropped
    from the front and lost ones are rewound.  The file has the code's
    operations ([Module SendBuf]), the invariant, and what each operation does
    to the two views that matter: the byte stored at each stream offset
    ([content_at]) and the offsets still to be sent ([pending]). *)
From S2P Require Import Prelude OctetsLib BTree Ranges RangeBufs.

Definition SEND_BUFFER_SIZE : Z := 4096.

Module SendBuf.
Record t := mk {
  data : list RangeBuf.t;
  pos : nat;
  off : Z;
  emit_off : Z;
  len : Z;
  max_data : Z;
  blocked_at : option Z;
  fin_off : option Z;
  is_shut : bool;
  acked : RangeSet.t;
  error : option Z
}.

Definition set_data (d : list RangeBuf.t) (sb : t) : t :=
  mk d (pos sb) (off sb) (emit_off sb) (len sb) (max_data sb) (blocked_at sb) (fin_off sb)
     (is_shut sb) (acked sb) (error sb).
Definition set_pos (p : nat) (sb : t) : t :=
  mk (data sb) p (off sb) (emit_off sb) (len sb) (max_data sb) (blocked_at sb) (fin_off sb)
     (is_shut sb) (acked sb) (error sb).
Definition set_off (o : Z) (sb : t) : t :=
  mk (data sb) (pos sb) o (emit_off sb) (len sb) (max_data sb) (blocked_at sb) (fin_off sb)
     (is_shut sb) (acked sb) (error sb).
Definition set_emit_off (o : Z) (sb : t) : t :=
  mk (data sb) (pos sb) (off sb) o (len sb) (max_data sb) (blocked_at sb) (fin_off sb)
     (is_shut sb) (acked sb) (error sb).
Definition set_len (l : Z) (sb : t) : t :=
  mk (data sb) (pos sb) (off sb) (emit_off sb) l (max_data sb) (blocked_at sb) (fin_off sb)
     (is_shut sb) (acked sb) (error sb).
Definition set_max_data (m : Z) (sb : t) : t :=
  mk (data sb) (pos sb) (off sb) (emit_off sb) (len sb) m (blocked_at sb) (fin_off sb)
     (is_shut sb) (acked sb) (error sb).
Definition set_blocked_at (b : option Z) (sb : t) : t :=
  mk (data sb) (pos sb) (off sb) (emit_off sb) (len sb) (max_data sb) b (fin_off sb)
     (is_shut sb) (acked sb) (error sb).
Definition set_fin_off (f : option Z) (sb : t) : t :=
  mk (data sb) (pos sb) (off sb) (emit_off sb) (len sb) (max_data sb) (blocked_at sb) f
     (is_shut sb) (acked sb) (error sb).
Definition set_shutdown (b : bool) (sb : t) : t :=
  mk (data sb) (pos sb) (off sb) (emit_off sb) (len sb) (max_data sb) (blocked_at sb) (fin_off sb)
     b (acked sb) (error sb).
Definition set_acked (a : RangeSet.t) (sb : t) : t :=
  mk (data sb) (pos sb) (off sb) (emit_off sb) (len sb) (max_data sb) (blocked_at sb) (fin_off sb)
     (is_shut sb) a (error sb).
Definition set_error (e : option Z) (sb : t) : t :=
  mk (data sb) (pos sb) (off sb) (emit_off sb) (len sb) (max_data sb) (blocked_at sb) (fin_off sb)
     (is_shut sb) (acked sb) e.

Definition new (max_data : Z) : t :=
  mk [] 0 0 0 0 max_data None None false RangeSet.default None.

Definition off_back (sb : t) : Z := off sb.

(** The loop of [off_front] from the position on. *)
Fixpoint front_of (l : list RangeBuf.t) (off : Z) : Z :=
  match l with
  | [] => off
  | b :: l' => if negb (RangeBuf.is_empty b) then RangeBuf.off b else front_of l' off
  end.
Definition off_front (sb : t) : Z := front_of (drop (pos sb) (data sb)) (off sb).

Definition max_off (sb : t) : Z := max_data sb.
Definition is_fin (sb : t) : bool := bool_decide (fin_off sb = Some (off sb)).
Definition is_complete (sb : t) : bool :=
  match fin_off sb with
  | Some fin_off => RangeSet.eq_range (acked sb) (0, fin_off)
  | None => false
  end.
Definition is_stopped (sb : t) : bool := bool_decide (is_Some (error sb)).
Definition is_shutdown (sb : t) : bool := is_shut sb.
Definition is_empty (sb : t) : bool := match data sb with [] => true | _ => false end.

Definition ack_off (sb : t) : Z :=
  match head (RangeSet.iter (acked sb)) with
  | Some (start, end_) => if start =? 0 then end_ else 0
  | None => 0
  end.

Definition cap (sb : t) : result Error Z :=
  match error sb with
  | Some e => Err (StreamStopped e)
  | None => usub (max_data sb) (off sb)
  end.

(** [data.chunks(SEND_BUFFER_SIZE)] *)
Fixpoint chunks (fuel : nat) (l : list Z) : list (list Z) :=
  match fuel, l with
  | S fuel', _ :: _ => ztake SEND_BUFFER_SIZE l :: chunks fuel' (zdrop SEND_BUFFER_SIZE l)
  | _, _ => []
  end.

(** The loop of [write] over the chunks. *)
Fixpoint push_chunks (total : Z) (fin : bool) (n : Z) (cs : list (list Z)) : M t Error Z :=
  match cs with
  | [] => mret n
  | chunk :: cs' =>
      let n := n + zlen chunk in
      let fin' := (n =? total) && fin in
      sb ← get;
      o ← lift (uadd (off sb) (zlen chunk));
      l ← lift (uadd (len sb) (zlen chunk));
      modify (set_data (data sb ++ [RangeBuf.from chunk (off sb) fin']));;
      modify (set_off o);;
      modify (set_len l);;
      push_chunks total fin n cs'
  end.

Definition write (data0 : list Z) (fin0 : bool) : M t Error Z :=
  sb ← get;
  max_off ← lift (uadd (off sb) (zlen data0));
  capacity ← reads cap;
  let '(data, fin) :=
    if capacity <? zlen data0 then (ztake capacity data0, false) else (data0, fin0) in
  if match fin_off sb with
     | Some fin_off => (fin_off <? max_off) || (max_off =? fin_off) && negb fin
     | None => false
     end then fail FinalSize
  else
    (if fin then modify (set_fin_off (Some max_off)) else mret ());;
    if max_off <=? ack_off sb then mret (zlen data)
    else if zlen data =? 0 then mret (zlen data)
    else push_chunks (zlen data) fin 0 (chunks (length data) data).

(** The loop of [emit]; [out] is what was copied so far, so that [out_pos] is
    its length.  Every turn that goes on advances [pos]. *)
Fixpoint emit_loop (fuel : nat) (out_len next_off : Z) (out : list Z) : M t Error (Z * list Z) :=
  match fuel with
  | O => panic
  | S fuel' =>
      if out_len <=? 0 then mret (next_off, out)
      else
        sb ← get;
        if is_empty sb || (off sb <=? off_front sb) || negb (off_front sb =? next_off)
           || (max_data sb <=? off_front sb) then mret (next_off, out)
        else match data sb !! pos sb with
        | None => mret (next_off, out)
        | Some buf =>
            if RangeBuf.is_empty buf then
              modify (set_pos (S (pos sb)));; emit_loop fuel' out_len next_off out
            else
              let buf_len := Z.min (RangeBuf.len buf) out_len in
              let partial := buf_len <? RangeBuf.len buf in
              let out := out ++ ztake buf_len (RangeBuf.deref buf) in
              l ← lift (usub (len sb) buf_len);
              modify (set_len l);;
              next_off ← lift (uadd (RangeBuf.off buf) buf_len);
              modify (set_data (<[pos sb := RangeBuf.consume buf_len buf]> (data sb)));;
              if partial then mret (next_off, out)
              else
                modify (set_pos (S (pos sb)));;
                emit_loop fuel' (out_len - buf_len) next_off out
        end
  end.

(** [emit] into an output slice of [n] bytes: the bytes written and the
    end-of-stream flag. *)
Definition emit (n : Z) : M t Error (list Z * bool) :=
  sb ← get;
  '(next_off, out) ← emit_loop (S (length (data sb) - pos sb)) n (off_front sb) [];
  let fin := bool_decide (fin_off sb = Some next_off) in
  modify (λ sb, set_emit_off (Z.max (emit_off sb) next_off) sb);;
  mret (out, fin).

Definition update_max_data (m : Z) : M t Error unit :=
  modify (λ sb, set_max_data (Z.max (max_data sb) m) sb).
Definition update_blocked_at (b : option Z) : M t Error unit := modify (set_blocked_at b).

Definition ack (off len : Z) : M t Error unit :=
  e ← lift (uadd off len);
  zoom acked set_acked (RangeSet.insert (off, e)).

(** How many chunks the loop of [ack_and_drop] drops from the front. *)
Fixpoint droppable (ack_off : Z) (l : list RangeBuf.t) : nat :=
  match l with
  | [] => 0
  | buf :: l' =>
      if ack_off <=? RangeBuf.off_ buf then 0
      else if (RangeBuf.off_ buf <? ack_off) && (ack_off <? RangeBuf.max_off buf) then 0
      else S (droppable ack_off l')
  end.

Definition ack_and_drop (off len : Z) : M t Error unit :=
  ack off len;;
  sb ← get;
  if is_empty sb then mret ()
  else if ack_off sb <? off then mret ()
  else
    let n := droppable (ack_off sb) (data sb) in
    if (n =? 0)%nat then mret ()
    else
      modify (set_data (drop n (data sb)));;
      modify (set_pos (pos sb - n)).

Definition buf_set_pos (p : Z) (b : RangeBuf.t) : RangeBuf.t :=
  RangeBuf.mk (RangeBuf.data b) (RangeBuf.start b) p (RangeBuf.len_ b) (RangeBuf.off_ b)
              (RangeBuf.fin b).

(** The [for i in 0..self.data.len()] loop of [retransmit], with [n] turns
    left. *)
Fixpoint retransmit_loop (n i : nat) (off max_off : Z) : M t Error unit :=
  match n with
  | O => mret ()
  | S n' =>
      sb ← get;
      match data sb !! i with
      | None => panic
      | Some buf =>
          if max_off <=? RangeBuf.off_ buf then mret ()
          else if RangeBuf.max_off buf <? off then retransmit_loop n' (S i) off max_off
          else
            '(buf, new_buf) ← lift
              (if (RangeBuf.off_ buf <? max_off) && (max_off <? RangeBuf.max_off buf) then
                 '(head, tail) ← RangeBuf.split_off (max_off - RangeBuf.off_ buf) buf;
                 Ok (head, Some tail)
               else Ok (buf, None));
            let prev_pos := RangeBuf.pos buf in
            let p := if (RangeBuf.off_ buf <? off) && (off <=? RangeBuf.max_off buf)
                     then Z.min (RangeBuf.pos buf) (RangeBuf.start buf + (off - RangeBuf.off_ buf))
                     else RangeBuf.start buf in
            modify (set_pos (Nat.min (pos sb) i));;
            d ← lift (usub prev_pos p);
            l ← lift (uadd (len sb) d);
            modify (set_len l);;
            modify (set_data (take i (data sb) ++ buf_set_pos p buf ::
              match new_buf with Some b => [b] | None => [] end ++ drop (S i) (data sb)));;
            retransmit_loop n' (S i) off max_off
      end
  end.

Definition retransmit (off len : Z) : M t Error unit :=
  max_off ← lift (uadd off len);
  sb ← get;
  if is_empty sb then mret ()
  else if max_off <=? ack_off sb then mret ()
  else retransmit_loop (length (data sb)) 0 off max_off.

Definition reset : M t Error (Z * Z) :=
  sb ← get;
  let unsent_off := Z.max (off_front sb) (emit_off sb) in
  let unsent_len := saturating_sub (off_back sb) unsent_off in
  modify (set_fin_off (Some unsent_off));;
  modify (set_data []);;
  modify (set_off unsent_off);;
  ack 0 unsent_off;;
  modify (set_pos 0);;
  modify (set_len 0);;
  mret (emit_off sb, unsent_len).

Definition stop (error_code : Z) : M t Error (Z * Z) :=
  sb ← get;
  if bool_decide (is_Some (error sb)) then fail Done
  else
    '(max_off, unsent) ← reset;
    modify (set_error (Some error_code));;
    mret (max_off, unsent).

Definition shutdown : M t Error (Z * Z) :=
  sb ← get;
  if is_shut sb then fail Done
  else modify (set_shutdown true);; reset.

Definition bufs_count (sb : t) : nat := length (data sb).
End SendBuf.

(** ** Views of the queue *)

(** The byte a chunk has at a stream offset, sent or not, and the same for the
    queue. *)
Definition raw_holds (b : RangeBuf.t) (o x : Z) : Prop :=
  RangeBuf.off_ b <= o < RangeBuf.max_off b ∧
  RangeBuf.data b !! Z.to_nat (o - (RangeBuf.off_ b - RangeBuf.start b)) = Some x.
Definition content_at (l : list RangeBuf.t) (o x : Z) : Prop := Exists (λ b, raw_holds b o x) l.

(** The offsets that are queued for sending. *)
Definition to_send (b : RangeBuf.t) (o : Z) : Prop := RangeBuf.off b <= o < RangeBuf.max_off b.
Definition pending (l : list RangeBuf.t) (o : Z) : Prop := Exists (λ b, to_send b o) l.
Definition pending_len (l : list RangeBuf.t) : Z := foldr (λ b n, RangeBuf.len b + n) 0 l.

(** Non-empty chunks that follow each other from offset [a] to offset [e]. *)
Fixpoint chain (a : Z) (l : list RangeBuf.t) (e : Z) : Prop :=
  match l with
  | [] => a = e
  | b :: l' => RangeBuf.off_ b = a ∧ RangeBuf.wf b ∧ 0 < RangeBuf.len_ b ∧
               chain (a + RangeBuf.len_ b) l' e
  end.

Section views.
Implicit Types (l : list RangeBuf.t) (b : RangeBuf.t).

Lemma raw_max b : RangeBuf.max_off b = RangeBuf.off_ b + RangeBuf.len_ b.
Proof. unfold RangeBuf.max_off, RangeBuf.off, RangeBuf.len. lia. Qed.
Lemma raw_off b : RangeBuf.wf b → RangeBuf.off_ b <= RangeBuf.off b <= RangeBuf.max_off b.
Proof. intros (? & ? & ? & ? & ?). rewrite raw_max. unfold RangeBuf.off. lia. Qed.

Lemma holds_raw b o x :
  RangeBuf.wf b → RangeBuf.holds b o x ↔ raw_holds b o x ∧ RangeBuf.off b <= o.
Proof.
  intros Hwf. rewrite RangeBuf.holds_data by done. unfold raw_holds.
  pose proof (raw_off b Hwf). split; [intros [? ?]|intros [[? ?] ?]]; split_and!; try done; lia.
Qed.

Lemma raw_total b o :
  RangeBuf.wf b → RangeBuf.off_ b <= o < RangeBuf.max_off b → ∃ x, raw_holds b o x.
Proof.
  intros (? & ? & ? & ? & ?) Ho. rewrite raw_max in Ho.
  destruct (lookup_lt_is_Some_2 (RangeBuf.data b)
              (Z.to_nat (o - (RangeBuf.off_ b - RangeBuf.start b)))) as [x Hx].
  - unfold zlen in *. lia.
  - exists x. split; [rewrite raw_max; lia|done].
Qed.

Lemma content_app l1 l2 o x : content_at (l1 ++ l2) o x ↔ content_at l1 o x ∨ content_at l2 o x.
Proof. unfold content_at. by rewrite Exists_app. Qed.
Lemma content_cons b l o x : content_at (b :: l) o x ↔ raw_holds b o x ∨ content_at l o x.
Proof. unfold content_at. by rewrite Exists_cons. Qed.
Lemma pending_app l1 l2 o : pending (l1 ++ l2) o ↔ pending l1 o ∨ pending l2 o.
Proof. unfold pending. by rewrite Exists_app. Qed.
Lemma pending_cons b l o : pending (b :: l) o ↔ to_send b o ∨ pending l o.
Proof. unfold pending. by rewrite Exists_cons. Qed.
Lemma pending_nil o : ¬ pending [] o.
Proof. by inversion 1. Qed.
Lemma pending_len_app l1 l2 : pending_len (l1 ++ l2) = pending_len l1 + pending_len l2.
Proof. unfold pending_len. induction l1; simpl in *; lia. Qed.

Lemma chain_app a l1 l2 e : chain a (l1 ++ l2) e ↔ ∃ m, chain a l1 m ∧ chain m l2 e.
Proof.
  revert a. induction l1 as [|b l1 IH]; intros a; simpl.
  - split; [by exists a|by intros (m & -> & ?)].
  - rewrite IH. split; [intros (? & ? & ? & m & ? & ?)|intros (m & (? & ? & ? & ?) & ?)]; eauto 10.
Qed.

Lemma chain_le a l e : chain a l e → a <= e.
Proof.
  revert a. induction l as [|b l IH]; intros a; simpl; [lia|].
  intros (_ & _ & ? & Hl). specialize (IH _ Hl). lia.
Qed.

Lemma chain_bounds a l e b :
  chain a l e → b ∈ l →
  RangeBuf.wf b ∧ a <= RangeBuf.off_ b ∧ RangeBuf.max_off b <= e ∧ 0 < RangeBuf.len_ b.
Proof.
  intros Hc (l1 & l2 & ->)%list_elem_of_split. apply chain_app in Hc as (m & H1 & H2).
  destruct H2 as (Ho & ? & ? & H2). apply chain_le in H1, H2. rewrite raw_max.
  split_and!; try done; lia.
Qed.

Lemma chain_pending a l e o : chain a l e → pending l o → a <= o < e.
Proof.
  intros Hc (b & Hb & Ho)%Exists_exists. destruct (chain_bounds a l e b Hc Hb) as (Hwf & ? & ? & _).
  pose proof (raw_off b Hwf). unfold to_send in Ho. lia.
Qed.

Lemma chain_content a l e o x : chain a l e → content_at l o x → a <= o < e.
Proof.
  intros Hc (b & Hb & [Ho _])%Exists_exists.
  destruct (chain_bounds a l e b Hc Hb) as (Hwf & ? & ? & _). lia.
Qed.

Lemma chain_total a l e o : chain a l e → a <= o < e → ∃ x, content_at l o x.
Proof.
  revert a. induction l as [|b l IH]; intros a; simpl; [lia|].
  intros (<- & Hwf & Hl & Hc) Ho.
  destruct (decide (o < RangeBuf.max_off b)) as [?|?].
  - destruct (raw_total b o Hwf) as [x Hx]; [lia|]. exists x. by left.
  - rewrite raw_max in *. destruct (IH _ Hc) as [x Hx]; [lia|]. exists x. by right.
Qed.

Lemma pending_len_nonneg a l e : chain a l e → 0 <= pending_len l.
Proof.
  revert a. induction l as [|b l IH]; intros a; simpl; [lia|].
  intros (_ & Hwf & _ & Hc). specialize (IH _ Hc). pose proof (RangeBuf.len_nonneg b Hwf). lia.
Qed.

Lemma empty_no_pending l : Forall (λ b, RangeBuf.len b = 0) l → ∀ o, ¬ pending l o.
Proof.
  intros Hl o (b & Hb & Ho)%Exists_exists. rewrite Forall_forall in Hl. specialize (Hl b Hb).
  unfold to_send, RangeBuf.max_off in Ho. lia.
Qed.

Lemma empty_pending_len l : Forall (λ b, RangeBuf.len b = 0) l → pending_len l = 0.
Proof. induction 1; simpl; lia. Qed.

(** The front is the first offset to send. *)
Lemma front_spec a l e :
  chain a l e →
  a <= SendBuf.front_of l e <= e ∧ (∀ o, pending l o → SendBuf.front_of l e <= o) ∧
  (SendBuf.front_of l e < e → pending l (SendBuf.front_of l e)).
Proof.
  revert a. induction l as [|b l IH]; intros a; simpl.
  { intros ->. split_and!; [lia|lia| |lia]. intros o Ho. by apply pending_nil in Ho. }
  intros (Hoff & Hwf & Hl & Hc). pose proof (raw_off b Hwf). pose proof (chain_le _ _ _ Hc).
  pose proof (raw_max b). unfold RangeBuf.is_empty. destruct (Z.eqb_spec (RangeBuf.len b) 0) as [He|He]; simpl.
  - destruct (IH _ Hc) as (? & Hmin & Hp). split_and!; [lia|lia| |].
    + intros o [Ho|Ho]%pending_cons; [|by apply Hmin].
      unfold to_send, RangeBuf.max_off in Ho. lia.
    + intros ?. apply pending_cons. right. by apply Hp.
  - pose proof (RangeBuf.len_nonneg b Hwf). split_and!; [lia|lia| |].
    + intros o [Ho|Ho]%pending_cons; [by destruct Ho|].
      pose proof (chain_pending _ _ _ _ Hc Ho). lia.
    + intros _. apply pending_cons. left. unfold to_send, RangeBuf.max_off. lia.
Qed.
End views.

(** ** Sending *)

(** The queue runs from [a] to the stream's offset; everything before the
    position was sent. *)
Record queue_wf (a : Z) (sb : SendBuf.t) : Prop := mk_queue_wf {
  q_chain : chain a (SendBuf.data sb) (SendBuf.off sb);
  q_pos : (SendBuf.pos sb <= length (SendBuf.data sb))%nat;
  q_sent : Forall (λ b, RangeBuf.len b = 0) (take (SendBuf.pos sb) (SendBuf.data sb));
  q_len : pending_len (SendBuf.data sb) <= SendBuf.len sb;
  q_max : SendBuf.off sb <= SendBuf.max_data sb <= u64_max
}.

(** What the loop of [emit] does from the offset [next] on, with room for [n]
    bytes. *)
Record sent_post (a : Z) (sb : SendBuf.t) (n next : Z) (out : list Z)
    (sb' : SendBuf.t) (next' : Z) : Prop := mk_sent_post {
  sp_wf : queue_wf a sb';
  sp_frame : sb' = SendBuf.set_len (SendBuf.len sb')
               (SendBuf.set_pos (SendBuf.pos sb') (SendBuf.set_data (SendBuf.data sb') sb));
  sp_len : SendBuf.len sb' <= SendBuf.len sb;
  sp_next : next' = next + zlen out;
  sp_room : zlen out <= n;
  sp_content o x : content_at (SendBuf.data sb') o x ↔ content_at (SendBuf.data sb) o x;
  sp_out i x : out !! i = Some x → content_at (SendBuf.data sb) (next + Z.of_nat i) x;
  sp_pending o : pending (SendBuf.data sb') o ↔
    pending (SendBuf.data sb) o ∧ ¬ next <= o < next';
  sp_all : zlen out = n ∨ ¬ pending (SendBuf.data sb') next'
}.

Section send.
Implicit Types (sb : SendBuf.t) (b : RangeBuf.t).

Lemma off_front_spec a sb :
  queue_wf a sb →
  a <= SendBuf.off_front sb <= SendBuf.off sb ∧
  (∀ o, pending (SendBuf.data sb) o → SendBuf.off_front sb <= o) ∧
  (SendBuf.off_front sb < SendBuf.off sb → pending (SendBuf.data sb) (SendBuf.off_front sb)).
Proof.
  intros [Hc Hp Hs _ _]. unfold SendBuf.off_front.
  rewrite <- (take_drop (SendBuf.pos sb) (SendBuf.data sb)) in Hc.
  apply chain_app in Hc as (m & Hc1 & Hc2).
  destruct (front_spec _ _ _ Hc2) as (? & Hmin & Hpe). apply chain_le in Hc1 as ?.
  split_and!; [lia|lia| |].
  - intros o. rewrite <- (take_drop (SendBuf.pos sb) (SendBuf.data sb)) at 1.
    intros [Ho|Ho]%pending_app; [by apply empty_no_pending in Ho|by apply Hmin].
  - intros Hlt. rewrite <- (take_drop (SendBuf.pos sb) (SendBuf.data sb)) at 1.
    apply pending_app. right. by apply Hpe.
Qed.

(** Nothing was sent. *)
Lemma sent_stop a sb n next :
  queue_wf a sb → 0 <= n → n = 0 ∨ ¬ pending (SendBuf.data sb) next →
  sent_post a sb n next [] sb next.
Proof.
  intros Hwf Hn Hs. constructor; rewrite ?zlen_nil; try done; try lia.
  - by destruct sb.
  - intros o. split; [intros; split; [done|lia]|tauto].
  - destruct Hs as [->|?]; auto.
Qed.

(** Skipping a chunk that was sent. *)
Lemma skip_wf a sb b :
  queue_wf a sb → SendBuf.data sb !! SendBuf.pos sb = Some b → RangeBuf.len b = 0 →
  queue_wf a (SendBuf.set_pos (S (SendBuf.pos sb)) sb).
Proof.
  intros [Hc Hp Hs Hl Hm] Hb He. pose proof (lookup_lt_Some _ _ _ Hb).
  constructor; simpl; try done. rewrite (take_S_r _ _ b) by done.
  apply Forall_app. by repeat constructor.
Qed.

Lemma send_skip_post a sb n next out sb' next' :
  sent_post a (SendBuf.set_pos (S (SendBuf.pos sb)) sb) n next out sb' next' →
  sent_post a sb n next out sb' next'.
Proof. intros [? Hf ? ? ? ? ? ? ?]. constructor; try done. Qed.

(** Sending [k] bytes of the chunk at the position. *)
Definition sent_chunk (k : Z) (b : RangeBuf.t) (sb : SendBuf.t) : SendBuf.t :=
  SendBuf.set_data (<[SendBuf.pos sb := RangeBuf.consume k b]> (SendBuf.data sb))
    (SendBuf.set_len (SendBuf.len sb - k) sb).

Lemma raw_consume k b o x : raw_holds (RangeBuf.consume k b) o x ↔ raw_holds b o x.
Proof. unfold raw_holds. by rewrite RangeBuf.max_off_consume. Qed.

Lemma send_chunk_post a sb b k :
  queue_wf a sb → SendBuf.data sb !! SendBuf.pos sb = Some b → 0 < k <= RangeBuf.len b →
  sent_post a sb k (RangeBuf.off b) (ztake k (RangeBuf.deref b)) (sent_chunk k b sb)
            (RangeBuf.off b + k).
Proof.
  intros [Hc Hp Hs Hl Hm] Hb Hk. pose proof (lookup_lt_Some _ _ _ Hb) as Hlt.
  pose proof (take_drop_middle _ _ _ Hb) as Heq.
  set (l1 := take (SendBuf.pos sb) (SendBuf.data sb)) in *.
  set (l2 := drop (S (SendBuf.pos sb)) (SendBuf.data sb)) in *.
  assert (<[SendBuf.pos sb := RangeBuf.consume k b]> (SendBuf.data sb) =
          l1 ++ RangeBuf.consume k b :: l2) as Hins by by apply insert_take_drop.
  rewrite <- Heq in Hc, Hl. apply chain_app in Hc as (m & Hc1 & Hoff & Hwf & Hl0 & Hc2).
  pose proof (raw_off b Hwf) as Hro. pose proof (raw_max b) as Hrm.
  assert (RangeBuf.max_off b = RangeBuf.off b + RangeBuf.len b) as Hml by done.
  pose proof (RangeBuf.zlen_deref b Hwf) as Hz.
  assert (zlen (ztake k (RangeBuf.deref b)) = k) as Hzk by (apply zlen_ztake; lia).
  assert (RangeBuf.wf (RangeBuf.consume k b)) as Hwf' by (apply RangeBuf.consume_wf; done || lia).
  rewrite pending_len_app in Hl. simpl in Hl.
  assert (∀ o, pending (l1 ++ RangeBuf.consume k b :: l2) o ↔
    pending (l1 ++ b :: l2) o ∧ ¬ RangeBuf.off b <= o < RangeBuf.off b + k) as Hpend.
  { intros o. rewrite !pending_app, !pending_cons. unfold to_send.
    rewrite RangeBuf.max_off_consume, RangeBuf.off_consume.
    pose proof (empty_no_pending l1 Hs o). split.
    - intros [?|[?|Ho]]; [done|split; [right; left; lia|lia]|].
      pose proof (chain_pending _ _ _ _ Hc2 Ho). split; [tauto|lia].
    - intros [[?|[?|Ho]] ?]; [done|right; left; lia|tauto]. }
  constructor; unfold sent_chunk; simpl; rewrite ?Hins; try done; try lia.
  - constructor; simpl; rewrite ?Hins; try done.
    + apply chain_app. exists m. split; [done|]. by split_and!.
    + rewrite length_app. simpl. unfold l1, l2. rewrite length_take, length_drop. lia.
    + rewrite take_app_le by (unfold l1; rewrite length_take; lia).
      unfold l1 in *. by rewrite take_take, Nat.min_id.
    + rewrite pending_len_app. simpl. rewrite RangeBuf.len_consume. lia.
  - intros o x. rewrite <- Heq. by rewrite !content_app, !content_cons, raw_consume.
  - intros i x Hx. rewrite <- Heq. apply content_app. right. apply content_cons. left.
    pose proof (lookup_lt_Some _ _ _ Hx). unfold zlen in Hzk.
    apply RangeBuf.deref_prefix in Hx; [|done|lia|lia]. by apply holds_raw in Hx as [? _].
  - intros o. rewrite Hpend. by rewrite Heq.
Qed.

(** Going on after a first piece. *)
Lemma sent_trans a sb n next out1 sb1 next1 out2 sb2 next2 :
  sent_post a sb (zlen out1) next out1 sb1 next1 →
  sent_post a sb1 (n - zlen out1) next1 out2 sb2 next2 →
  sent_post a sb n next (out1 ++ out2) sb2 next2.
Proof.
  intros [_ Hf1 Hl1 Hn1 _ Hc1 Ho1 Hp1 _] [Hwf Hf2 Hl2 Hn2 Hr2 Hc2 Ho2 Hp2 Ha2].
  pose proof (zlen_nonneg out1). pose proof (zlen_nonneg out2).
  constructor; rewrite ?zlen_app; try done; try lia.
  - rewrite Hf2, Hf1. done.
  - intros o x. by rewrite Hc2.
  - intros i x Hx. apply lookup_app_Some in Hx as [Hx|[Hi Hx]]; [by apply Ho1|].
    apply Ho2, Hc1 in Hx. subst next1. unfold zlen in Hx.
    by replace (next + Z.of_nat i) with (next + Z.of_nat (length out1) + Z.of_nat (i - length out1)) by lia.
  - intros o. rewrite Hp2, Hp1. split; [intros [[? ?] ?]; split; [done|lia]|].
    intros [? ?]. split; [split; [done|lia]|lia].
  - destruct Ha2; [left; lia|by right].
Qed.

Lemma chain_split a sb b :
  queue_wf a sb → SendBuf.data sb !! SendBuf.pos sb = Some b →
  RangeBuf.wf b ∧ RangeBuf.max_off b <= SendBuf.off sb ∧ RangeBuf.len b <= SendBuf.len sb ∧
  chain (RangeBuf.max_off b) (drop (S (SendBuf.pos sb)) (SendBuf.data sb)) (SendBuf.off sb).
Proof.
  intros [Hc Hp Hs Hl Hm] Hb. rewrite <- (take_drop_middle _ _ _ Hb) in Hc, Hl.
  apply chain_app in Hc as (m & Hc1 & Ho & Hwf & Hl0 & Hc2).
  rewrite pending_len_app in Hl. simpl in Hl.
  pose proof (pending_len_nonneg _ _ _ Hc1). pose proof (pending_len_nonneg _ _ _ Hc2).
  pose proof (chain_le _ _ _ Hc2). rewrite raw_max, Ho. split_and!; try done; lia.
Qed.

(** The front when the chunk at the position is empty, or not. *)
Lemma off_front_at sb b :
  SendBuf.data sb !! SendBuf.pos sb = Some b →
  SendBuf.off_front sb =
    if RangeBuf.is_empty b then SendBuf.off_front (SendBuf.set_pos (S (SendBuf.pos sb)) sb)
    else RangeBuf.off b.
Proof.
  intros Hb. unfold SendBuf.off_front. rewrite (drop_S _ _ _ Hb). simpl.
  by destruct (RangeBuf.is_empty b).
Qed.

(** The conditions under which the loop stops leave nothing to send at the
    offset it has reached. *)
Lemma emit_break a sb next :
  queue_wf a sb → next <= SendBuf.off_front sb →
  SendBuf.is_empty sb || (SendBuf.off sb <=? SendBuf.off_front sb)
    || negb (SendBuf.off_front sb =? next) || (SendBuf.max_data sb <=? SendBuf.off_front sb)
    = true ∨ SendBuf.data sb !! SendBuf.pos sb = None →
  ¬ pending (SendBuf.data sb) next.
Proof.
  intros Hwf Hn Hb Hp. destruct (off_front_spec a sb Hwf) as (_ & Hmin & _).
  pose proof (Hmin next Hp). pose proof (chain_pending _ _ _ _ (q_chain _ _ Hwf) Hp).
  pose proof (q_max _ _ Hwf). destruct Hb as [Hb|Hb].
  - unfold SendBuf.is_empty in Hb. destruct (SendBuf.data sb); [by apply pending_nil in Hp|].
    simpl in Hb. rewrite (proj2 (Z.leb_gt _ _)) in Hb by lia.
    rewrite (proj2 (Z.eqb_eq _ _)) in Hb by lia. rewrite (proj2 (Z.leb_gt _ _)) in Hb by lia. done.
  - apply lookup_ge_None in Hb. unfold SendBuf.off_front in *.
    rewrite drop_ge in * by done. simpl in *. lia.
Qed.

(** The state in which the loop goes on after a whole chunk. *)
Lemma sent_whole a sb b :
  queue_wf a sb → SendBuf.data sb !! SendBuf.pos sb = Some b → 0 < RangeBuf.len b →
  let sb1 := SendBuf.set_pos (S (SendBuf.pos sb)) (sent_chunk (RangeBuf.len b) b sb) in
  sent_post a sb (RangeBuf.len b) (RangeBuf.off b) (RangeBuf.deref b) sb1 (RangeBuf.max_off b) ∧
  RangeBuf.max_off b <= SendBuf.off_front sb1.
Proof.
  intros Hwf Hb Hl sb1. pose proof (lookup_lt_Some _ _ _ Hb) as Hlt.
  destruct (chain_split a sb b Hwf Hb) as (Hbw & _ & _ & Hc2).
  pose proof (send_chunk_post a sb b (RangeBuf.len b) Hwf Hb ltac:(lia)) as Hp.
  rewrite ztake_all in Hp by (rewrite RangeBuf.zlen_deref by done; lia).
  fold (RangeBuf.max_off b) in Hp. split.
  - destruct Hp as [Hw Hf Hle Hnx Hr Hc Ho Hpe Ha]. constructor; try done.
    subst sb1. change (SendBuf.pos sb) with (SendBuf.pos (sent_chunk (RangeBuf.len b) b sb)).
    eapply skip_wf; [done| |by rewrite RangeBuf.len_consume, Z.sub_diag].
    simpl. by rewrite list_lookup_insert_eq.
  - subst sb1. unfold SendBuf.off_front, sent_chunk. simpl.
    rewrite drop_insert_lt by lia. by apply (front_spec _ _ _ Hc2).
Qed.

Lemma send_emit_loop_spec a fuel sb n next out0 :
  queue_wf a sb → 0 <= n → next <= SendBuf.off_front sb →
  (length (SendBuf.data sb) - SendBuf.pos sb < fuel)%nat →
  ∃ out sb' next', SendBuf.emit_loop fuel n next out0 sb = (Ok (next', out0 ++ out), sb') ∧
    sent_post a sb n next out sb' next'.
Proof.
  revert sb n next out0. induction fuel as [|fuel IH]; intros sb n next out0 Hwf Hn Hnext Hfuel;
    [lia|]. cbn [SendBuf.emit_loop].
  destruct (Z.leb_spec n 0).
  { exists [], sb, next. rewrite app_nil_r. split; [done|].
    apply sent_stop; [done|done|left; lia]. }
  rewrite run_bind_get.
  destruct (_ || _ || _ || _) eqn:Hbr.
  { exists [], sb, next. rewrite app_nil_r. split; [done|].
    apply sent_stop; [done|done|right]. eapply emit_break; eauto. }
  destruct (SendBuf.data sb !! SendBuf.pos sb) as [b|] eqn:Hb.
  2: { exists [], sb, next. rewrite app_nil_r. split; [done|].
       apply sent_stop; [done|done|right]. eapply emit_break; eauto. }
  pose proof (off_front_at sb b Hb) as Hfr. pose proof (lookup_lt_Some _ _ _ Hb) as Hlt.
  destruct (chain_split a sb b Hwf Hb) as (Hbw & Hbo & Hbl & _).
  destruct (RangeBuf.is_empty b) eqn:He.
  { rewrite run_bind_modify. apply Z.eqb_eq in He.
    destruct (IH (SendBuf.set_pos (S (SendBuf.pos sb)) sb) n next out0)
      as (out & sb' & next' & Hrun & Hp); [by eapply skip_wf|done|lia|simpl; lia|].
    exists out, sb', next'. split; [done|]. by apply send_skip_post. }
  apply Z.eqb_neq in He. pose proof (RangeBuf.len_nonneg b Hbw).
  assert (next = RangeBuf.off b) as ->.
  { apply orb_false_iff in Hbr as [[[_ _]%orb_false_iff Hbr]%orb_false_iff _].
    apply negb_false_iff, Z.eqb_eq in Hbr. congruence. }
  assert (RangeBuf.max_off b = RangeBuf.off b + RangeBuf.len b) as Hml by done.
  pose proof (q_max _ _ Hwf).
  rewrite (run_bind_lift _ _ _ (SendBuf.len sb - Z.min (RangeBuf.len b) n))
    by (apply usub_ok; lia).
  rewrite run_bind_modify, (run_bind_lift _ _ _ (RangeBuf.off b + Z.min (RangeBuf.len b) n))
    by (apply uadd_ok; lia).
  rewrite run_bind_modify. destruct (Z.ltb_spec (Z.min (RangeBuf.len b) n) (RangeBuf.len b)).
  - rewrite Z.min_r by lia. eexists _, (sent_chunk n b sb), _. split; [done|].
    apply send_chunk_post; done || lia.
  - rewrite Z.min_l, run_bind_modify by lia.
    destruct (sent_whole a sb b Hwf Hb ltac:(lia)) as [Hp1 Hfr1].
    rewrite ztake_all by (rewrite RangeBuf.zlen_deref by done; lia).
    match goal with |- context [SendBuf.emit_loop fuel _ _ _ ?sb0] => set (sb1 := sb0) in * end.
    destruct (IH sb1 (n - RangeBuf.len b) (RangeBuf.max_off b) (out0 ++ RangeBuf.deref b))
      as (out & sb' & next' & Hrun & Hp2); [apply Hp1|lia|done| |].
    { subst sb1. simpl. rewrite length_insert. lia. }
    exists (RangeBuf.deref b ++ out), sb', next'. rewrite app_assoc. split; [done|].
    eapply sent_trans; rewrite RangeBuf.zlen_deref by done; [exact Hp1|exact Hp2].
Qed.
End send.

(** ** The invariant *)

(** The first offset still buffered. *)
Definition base (sb : SendBuf.t) : Z :=
  match SendBuf.data sb with [] => SendBuf.off sb | b :: _ => RangeBuf.off_ b end.

(** Only acknowledged bytes are dropped, only sent bytes are acknowledged, the
    final size is the end of the stream, and what was never sent is queued. *)
Record send_wf (sb : SendBuf.t) : Prop := mk_send_wf {
  sw_queue : queue_wf (base sb) sb;
  sw_base : 0 <= base sb <= SendBuf.ack_off sb;
  sw_ranges : rs_wf (SendBuf.acked sb);
  sw_capacity : RangeSet.capacity (SendBuf.acked sb) = u64_max;
  sw_acked : Forall (λ r, r.2 <= SendBuf.emit_off sb) (RangeSet.iter (SendBuf.acked sb));
  sw_off : 0 <= SendBuf.emit_off sb <= SendBuf.off sb;
  sw_max : SendBuf.max_data sb < u64_max;
  sw_len : SendBuf.len sb <= u64_max;
  sw_fin f : SendBuf.fin_off sb = Some f → f = SendBuf.off sb;
  sw_unsent o : SendBuf.emit_off sb <= o < SendBuf.off sb → pending (SendBuf.data sb) o
}.

Section send_invariant.
Implicit Types (sb : SendBuf.t) (b : RangeBuf.t).

Lemma chain_base a sb : chain a (SendBuf.data sb) (SendBuf.off sb) → base sb = a.
Proof.
  unfold base. destruct (SendBuf.data sb) as [|b l]; simpl; [done|]. by intros [? _].
Qed.

(** The acknowledged prefix is at most what was sent. *)
Lemma ack_off_bounds sb : send_wf sb → 0 <= SendBuf.ack_off sb <= SendBuf.emit_off sb.
Proof.
  intros Hwf. pose proof (sw_acked sb Hwf) as Ha. pose proof (sw_base sb Hwf).
  pose proof (sw_off sb Hwf). unfold SendBuf.ack_off in *.
  destruct (RangeSet.iter (SendBuf.acked sb)) as [|[s e] l]; simpl in *; [lia|].
  apply Forall_cons in Ha as [? _]. simpl in *. destruct (s =? 0); lia.
Qed.

Lemma new_send_wf m : 0 <= m < u64_max → send_wf (SendBuf.new m).
Proof.
  intros Hm. constructor; simpl; try done; try lia.
  constructor; simpl; try done; lia.
Qed.

(** [data.chunks(..)] cuts without loss into non-empty pieces. *)
Lemma chunks_spec fuel l :
  (length l <= fuel)%nat →
  concat (SendBuf.chunks fuel l) = l ∧ Forall (λ c, 0 < zlen c) (SendBuf.chunks fuel l).
Proof.
  revert l. induction fuel as [|fuel IH]; intros l Hl.
  { destruct l; simpl in *; [done|lia]. }
  destruct l as [|x l]; [done|]. unfold SendBuf.chunks; fold SendBuf.chunks.
  unfold ztake, zdrop.
  assert (0 < Z.to_nat SEND_BUFFER_SIZE)%nat by (apply (Z2Nat.inj_lt 0); unfold SEND_BUFFER_SIZE; lia).
  generalize dependent (Z.to_nat SEND_BUFFER_SIZE). intros k ?.
  destruct (IH (drop k (x :: l))) as [Hc Hf]; [rewrite length_drop; simpl in *; lia|].
  split; [rewrite concat_cons, Hc; apply take_drop|]. constructor; [|done].
  unfold zlen. rewrite length_take. simpl. lia.
Qed.

(** What appending the bytes [d] does. *)
Record push_post (a : Z) (sb : SendBuf.t) (d : list Z) (sb' : SendBuf.t) : Prop := mk_push_post {
  pp_wf : queue_wf a sb';
  pp_frame : sb' = SendBuf.set_len (SendBuf.len sb + zlen d)
               (SendBuf.set_off (SendBuf.off sb + zlen d)
                  (SendBuf.set_data (SendBuf.data sb') sb));
  pp_content o x : content_at (SendBuf.data sb') o x ↔
    content_at (SendBuf.data sb) o x ∨
    (SendBuf.off sb <= o ∧ d !! Z.to_nat (o - SendBuf.off sb) = Some x);
  pp_pending o : pending (SendBuf.data sb') o ↔
    pending (SendBuf.data sb) o ∨ SendBuf.off sb <= o < SendBuf.off sb + zlen d
}.

Lemma push_chunk_post a sb c fin :
  queue_wf a sb → 0 <= SendBuf.off sb → 0 < zlen c →
  SendBuf.off sb + zlen c <= SendBuf.max_data sb →
  push_post a sb c
    (SendBuf.set_len (SendBuf.len sb + zlen c) (SendBuf.set_off (SendBuf.off sb + zlen c)
       (SendBuf.set_data (SendBuf.data sb ++ [RangeBuf.from c (SendBuf.off sb) fin]) sb))).
Proof.
  intros [Hc Hp Hs Hl Hm] Ho Hz Hmax. set (b := RangeBuf.from c (SendBuf.off sb) fin).
  assert (RangeBuf.wf b) as Hb by (apply RangeBuf.from_wf; lia).
  constructor; simpl; try done.
  - constructor; simpl; try lia.
    + apply chain_app. exists (SendBuf.off sb). split; [done|]. by split_and!.
    + rewrite length_app. lia.
    + by rewrite take_app_le.
    + rewrite pending_len_app. simpl. unfold b, RangeBuf.len, RangeBuf.from. simpl. lia.
  - intros o x. rewrite content_app, content_cons.
    rewrite <- (RangeBuf.holds_from c (SendBuf.off sb) fin). fold b.
    rewrite holds_raw by done. unfold b at 3. rewrite RangeBuf.off_from.
    unfold content_at at 2. rewrite Exists_nil. split; [|tauto].
    intros [?|[Hr|[]]]; [tauto|right]. split; [done|].
    destruct Hr as [[Hr _] _]. unfold b in Hr. simpl in Hr. lia.
  - intros o. rewrite pending_app, pending_cons. unfold to_send, b.
    rewrite RangeBuf.off_from, RangeBuf.max_off_from. pose proof (pending_nil o). tauto.
Qed.

Lemma push_trans a sb d1 sb1 d2 sb2 :
  push_post a sb d1 sb1 → push_post a sb1 d2 sb2 → push_post a sb (d1 ++ d2) sb2.
Proof.
  intros [_ Hf1 Hc1 Hp1] [Hwf Hf2 Hc2 Hp2].
  assert (SendBuf.off sb1 = SendBuf.off sb + zlen d1) as Ho1 by by rewrite Hf1.
  pose proof (zlen_nonneg d1). pose proof (zlen_nonneg d2).
  constructor; try done.
  - rewrite Hf2, Hf1. rewrite zlen_app. simpl. unfold SendBuf.set_len, SendBuf.set_off,
      SendBuf.set_data. simpl. f_equal; lia.
  - intros o x. rewrite Hc2, Hc1, Ho1. rewrite lookup_app. unfold zlen in *.
    destruct (decide (o < SendBuf.off sb + Z.of_nat (length d1))) as [Hlt|Hge].
    + assert (o < SendBuf.off sb ∨ is_Some (d1 !! Z.to_nat (o - SendBuf.off sb))) as [?|[y Hy]].
      { destruct (decide (o < SendBuf.off sb)); [by left|right]. apply lookup_lt_is_Some_2. lia. }
      * split; [intros [[?|[? ?]]|[? ?]]; [tauto|lia|lia]|intros [?|[? ?]]; [tauto|lia]].
      * rewrite Hy. split; [intros [?|[? ?]]; [tauto|lia]|tauto].
    + rewrite (lookup_ge_None_2 d1) by lia.
      replace (Z.to_nat (o - SendBuf.off sb) - length d1)%nat
        with (Z.to_nat (o - (SendBuf.off sb + Z.of_nat (length d1)))) by lia.
      split; [intros [[?|[? ?]]|[? ?]]; [tauto|done|right; split; [lia|done]]|].
      intros [?|[? ?]]; [tauto|right; split; [lia|done]].
  - intros o. rewrite Hp2, Hp1, Ho1, zlen_app.
    split; [intros [[?|?]|?]; [tauto|right; lia|right; lia]|].
    intros [?|?]; [tauto|]. destruct (decide (o < SendBuf.off sb + zlen d1)); [left; right|right]; lia.
Qed.

Lemma push_nil a sb : queue_wf a sb → push_post a sb [] sb.
Proof.
  intros Hwf. constructor; rewrite ?zlen_nil, ?Z.add_0_r; try done.
  - by destruct sb.
  - intros o x. rewrite lookup_nil. split; [tauto|]. by intros [?|[? ?]].
  - intros o. split; [tauto|]. intros [?|?]; [done|lia].
Qed.

Lemma push_chunks_spec a total fin cs n sb :
  queue_wf a sb → 0 <= SendBuf.off sb → Forall (λ c, 0 < zlen c) cs →
  SendBuf.off sb + zlen (concat cs) <= SendBuf.max_data sb →
  SendBuf.len sb + zlen (concat cs) <= u64_max →
  ∃ sb', SendBuf.push_chunks total fin n cs sb = (Ok (n + zlen (concat cs)), sb') ∧
    push_post a sb (concat cs) sb'.
Proof.
  intros Hwf Ho Hcs. revert n sb Hwf Ho. induction Hcs as [|c cs Hc Hcs IH]; intros n sb Hwf Ho Hmax Hlen.
  { exists sb. simpl. rewrite zlen_nil, Z.add_0_r. split; [done|by apply push_nil]. }
  rewrite concat_cons, zlen_app in *. pose proof (zlen_nonneg (concat cs)).
  pose proof (q_max _ _ Hwf). cbn [SendBuf.push_chunks]. rewrite run_bind_get.
  rewrite (run_bind_lift _ _ _ (SendBuf.off sb + zlen c)) by (apply uadd_ok; lia).
  rewrite (run_bind_lift _ _ _ (SendBuf.len sb + zlen c)) by (apply uadd_ok; lia).
  rewrite !run_bind_modify.
  pose proof (push_chunk_post a sb c ((n + zlen c =? total) && fin) Hwf Ho Hc ltac:(lia)) as Hp.
  match type of Hp with push_post _ _ _ ?s => set (sb1 := s) in * end.
  destruct (IH (n + zlen c) sb1) as (sb' & Hrun & Hp2);
    [apply Hp|simpl; lia|simpl; lia|simpl; lia|].
  exists sb'. split; [rewrite Hrun; f_equal; f_equal; lia|]. by eapply push_trans.
Qed.
End send_invariant.

(** ** Writing *)

Section send_write.
Implicit Types (sb : SendBuf.t) (d : list Z) (fin : bool).

(** Noting the final size does not touch the queue. *)
Lemma queue_set_fin a f sb : queue_wf a sb → queue_wf a (SendBuf.set_fin_off f sb).
Proof. by intros [? ? ? ? ?]. Qed.

Lemma pushed_wf sb d sb' fin_off :
  send_wf sb → push_post (base sb) (SendBuf.set_fin_off fin_off sb) d sb' →
  (∀ f, fin_off = Some f → f = SendBuf.off sb + zlen d) →
  SendBuf.len sb + zlen d <= u64_max → send_wf sb'.
Proof.
  intros [Hq Hb Hr Hcap Ha Ho Hm Hl Hf Hu] [Hq' Hfr Hc Hp] Hfin Hlen.
  pose proof (zlen_nonneg d). pose proof (chain_base _ _ (q_chain _ _ Hq')) as Hbase.
  assert (SendBuf.ack_off sb' = SendBuf.ack_off sb ∧ SendBuf.acked sb' = SendBuf.acked sb ∧
    SendBuf.emit_off sb' = SendBuf.emit_off sb ∧ SendBuf.off sb' = SendBuf.off sb + zlen d ∧
    SendBuf.max_data sb' = SendBuf.max_data sb ∧ SendBuf.len sb' = SendBuf.len sb + zlen d ∧
    SendBuf.fin_off sb' = fin_off) as (E1 & E2 & E3 & E4 & E5 & E6 & E7)
    by (unfold SendBuf.ack_off; rewrite Hfr; done).
  constructor; rewrite ?Hbase, ?E1, ?E2, ?E3, ?E4, ?E5, ?E6, ?E7; try done; try lia.
  intros o Ho'. rewrite Hp.
  destruct (decide (o < SendBuf.off sb)); [left; apply Hu; lia|right; simpl; lia].
Qed.

(** The state after [n] bytes of [d] were accepted. *)
Record write_accepted (sb : SendBuf.t) (d : list Z) (fin : bool) (sb' : SendBuf.t) : Prop :=
  mk_write_accepted {
  wa_wf : send_wf sb';
  wa_off : SendBuf.off sb' = SendBuf.off sb + zlen d;
  wa_emit : SendBuf.emit_off sb' = SendBuf.emit_off sb;
  wa_acked : SendBuf.acked sb' = SendBuf.acked sb;
  wa_max : SendBuf.max_data sb' = SendBuf.max_data sb;
  wa_error : SendBuf.error sb' = SendBuf.error sb;
  wa_fin : SendBuf.fin_off sb' = if fin then Some (SendBuf.off sb') else SendBuf.fin_off sb;
  wa_content o x : content_at (SendBuf.data sb') o x ↔ content_at (SendBuf.data sb) o x ∨
    (SendBuf.off sb <= o ∧ d !! Z.to_nat (o - SendBuf.off sb) = Some x);
  wa_pending o : pending (SendBuf.data sb') o ↔
    pending (SendBuf.data sb) o ∨ SendBuf.off sb <= o < SendBuf.off sb'
}.

Lemma pushed_accepted sb d fin sb' :
  send_wf sb → SendBuf.len sb + zlen d <= u64_max →
  (is_Some (SendBuf.fin_off sb) → zlen d = 0) →
  push_post (base sb)
    (if fin then SendBuf.set_fin_off (Some (SendBuf.off sb + zlen d)) sb else sb) d sb' →
  write_accepted sb d fin sb'.
Proof.
  intros Hwf Hlen Hdone Hp.
  assert (push_post (base sb) (SendBuf.set_fin_off (if fin then Some (SendBuf.off sb + zlen d)
            else SendBuf.fin_off sb) sb) d sb') as Hp'.
  { destruct fin; [done|]. destruct sb. done. }
  assert (send_wf sb') as Hwf'.
  { eapply pushed_wf; [done|exact Hp'| |done]. intros f. destruct fin; [by intros [= <-]|].
    intros Hf. pose proof (sw_fin sb Hwf f Hf). rewrite Hdone by eauto. lia. }
  destruct Hp' as [_ Hf Hc Hpe]. constructor; try done; rewrite Hf; simpl; try done.
Qed.

(** What follows the checks of [write]. *)
Lemma write_tail sb d fin :
  send_wf sb → SendBuf.off sb + zlen d <= SendBuf.max_data sb → SendBuf.len sb + zlen d <= u64_max →
  ∀ max_off, SendBuf.off sb <= max_off → (max_off = SendBuf.off sb → d = []) →
  (fin = true → max_off = SendBuf.off sb + zlen d) → (is_Some (SendBuf.fin_off sb) → zlen d = 0) →
  ∃ sb', ((if fin then modify (SendBuf.set_fin_off (Some max_off)) else mret ()
           : M SendBuf.t Error unit);;
          if max_off <=? SendBuf.ack_off sb then mret (zlen d)
          else if zlen d =? 0 then mret (zlen d)
          else SendBuf.push_chunks (zlen d) fin 0 (SendBuf.chunks (length d) d)) sb =
         (Ok (zlen d), sb') ∧ write_accepted sb d fin sb'.
Proof.
  intros Hwf Hroom Hlen max_off Hmax Hnil Hfin Hdone.
  pose proof (ack_off_bounds sb Hwf). pose proof (sw_off sb Hwf).
  set (sb1 := if fin then SendBuf.set_fin_off (Some (SendBuf.off sb + zlen d)) sb else sb).
  rewrite (run_bind_ok _ _ _ () sb1)
    by (unfold sb1; destruct fin; [by rewrite Hfin|done]).
  assert (queue_wf (base sb) sb1) as Hq1
    by (unfold sb1; destruct fin; [apply queue_set_fin|]; apply (sw_queue sb Hwf)).
  assert (SendBuf.off sb1 = SendBuf.off sb ∧ SendBuf.len sb1 = SendBuf.len sb ∧
          SendBuf.max_data sb1 = SendBuf.max_data sb) as (E1 & E2 & E3)
    by (unfold sb1; by destruct fin).
  destruct (decide (d = [])) as [->|Hne].
  { exists sb1. split; [by destruct (max_off <=? _)|].
    apply pushed_accepted; try done. by apply push_nil. }
  assert (0 < zlen d) by (destruct d; [done|rewrite zlen_cons; pose proof (zlen_nonneg d); lia]).
  rewrite (proj2 (Z.leb_gt _ _)).
  2: { destruct (decide (max_off = SendBuf.off sb)); [by destruct Hne; apply Hnil|lia]. }
  rewrite (proj2 (Z.eqb_neq _ _)) by lia.
  destruct (chunks_spec (length d) d) as [Hcc Hcf]; [done|].
  destruct (push_chunks_spec (base sb) (zlen d) fin (SendBuf.chunks (length d) d) 0 sb1)
    as (sb' & Hrun & Hp); rewrite ?Hcc, ?E1, ?E2, ?E3; try done; try lia.
  exists sb'. rewrite Hcc in *. split; [by rewrite Hrun|]. by apply pushed_accepted.
Qed.

(** The whole of [write] on a stream that was not stopped. *)
Lemma write_run sb d0 fin0 :
  send_wf sb → SendBuf.error sb = None →
  SendBuf.off sb + zlen d0 <= u64_max → SendBuf.len sb + zlen d0 <= u64_max →
  let room := SendBuf.max_data sb - SendBuf.off sb in
  if bool_decide (is_Some (SendBuf.fin_off sb)) && ((0 <? zlen d0) || negb fin0)
  then SendBuf.write d0 fin0 sb = (Err FinalSize, sb)
  else ∃ sb', SendBuf.write d0 fin0 sb = (Ok (Z.min room (zlen d0)), sb') ∧
    write_accepted sb (ztake (Z.min room (zlen d0)) d0) (fin0 && (zlen d0 <=? room)) sb'.
Proof.
  intros Hwf He Ho Hl room. pose proof (zlen_nonneg d0) as Hz.
  pose proof (q_max _ _ (sw_queue sb Hwf)) as Hm. assert (0 <= room) by (unfold room; lia).
  unfold SendBuf.write. rewrite run_bind_get.
  rewrite (run_bind_lift _ _ _ (SendBuf.off sb + zlen d0)) by (apply uadd_ok; lia).
  rewrite (run_bind_reads _ _ _ room) by (unfold SendBuf.cap; rewrite He; apply usub_ok; lia).
  set (d := ztake (Z.min room (zlen d0)) d0). set (fin := fin0 && (zlen d0 <=? room)).
  assert (zlen d = Z.min room (zlen d0)) as Hd by (apply zlen_ztake; lia).
  replace (if room <? zlen d0 then (ztake room d0, false) else (d0, fin0)) with (d, fin).
  2: { unfold d, fin. destruct (Z.ltb_spec room (zlen d0)).
       - rewrite Z.min_l by lia. zdecide. by rewrite andb_false_r.
       - rewrite Z.min_r, ztake_all by lia. zdecide. by rewrite andb_true_r. }
  set (late := bool_decide (is_Some (SendBuf.fin_off sb)) && ((0 <? zlen d0) || negb fin0)).
  replace (match SendBuf.fin_off sb with
           | Some fin_off => (fin_off <? SendBuf.off sb + zlen d0)
               || (SendBuf.off sb + zlen d0 =? fin_off) && negb fin
           | None => false end) with late.
  2: { unfold late. destruct (SendBuf.fin_off sb) as [f|] eqn:Hf; [|done].
       rewrite bool_decide_eq_true_2, (sw_fin sb Hwf f Hf) by done. cbn [andb].
       destruct (Z.ltb_spec 0 (zlen d0)); [by rewrite (proj2 (Z.ltb_lt _ _)) by lia|].
       unfold fin. assert (zlen d0 = 0) as -> by lia. zdecide. by rewrite andb_true_r. }
  destruct late eqn:Hlate; [done|]. rewrite <- Hd. apply write_tail; try done; try lia.
  - intros. apply zlen_0. lia.
  - unfold fin. intros [_ ?%Z.leb_le]%andb_true_iff. lia.
  - intros Hsome. unfold late in Hlate. rewrite bool_decide_eq_true_2 in Hlate by done.
    simpl in Hlate. apply orb_false_iff in Hlate as [?%Z.ltb_ge _]. lia.
Qed.
End send_write.

(** ** Acknowledgements *)

Section send_ack.
Implicit Types (sb : SendBuf.t) (b : RangeBuf.t) (l : list (Z * Z)).

(** Separated ranges below a bound are at most as many as the bound. *)
Lemma ranges_count B s l :
  0 <= s <= B + 1 → ranges_wf l → Forall (λ r, s <= r.1 ∧ r.2 <= B) l → zlen l <= B + 1 - s.
Proof.
  revert s. induction l as [|[a b] l IH]; intros s Hs Hwf Hl; [rewrite zlen_nil; lia|].
  apply ranges_wf_cons in Hwf as (? & Hb & Hwf). apply Forall_cons in Hl as [[? ?] Hl].
  simpl in *. rewrite zlen_cons. enough (zlen l <= B + 1 - (b + 1)) by lia.
  apply IH; [lia|done|].
  apply Forall_forall. intros r Hr. rewrite Forall_forall in Hb, Hl.
  specialize (Hb r Hr). specialize (Hl r Hr). lia.
Qed.

(** The acknowledged prefix of a set of ranges. *)
Definition prefix_of (l : list (Z * Z)) : Z :=
  match head l with Some (start, end_) => if start =? 0 then end_ else 0 | None => 0 end.

Lemma prefix_in l x : ranges_wf l → 0 <= x < prefix_of l → in_ranges x l.
Proof.
  unfold prefix_of. destruct l as [|[s e] l]; simpl; [lia|]. intros _.
  destruct (Z.eqb_spec s 0) as [->|]; [|lia]. intros. left. simpl. lia.
Qed.

Lemma prefix_not_in l : ranges_wf l → ¬ in_ranges (prefix_of l) l.
Proof.
  unfold prefix_of. destruct l as [|[s e] l]; simpl.
  { intros _. apply in_ranges_nil. }
  intros ([Hs ?] & Hb & Hl)%ranges_wf_cons. rewrite in_ranges_cons. simpl.
  intros [?|(r & Hr & ?)%Exists_exists]; [destruct (Z.eqb_spec s 0); lia|].
  rewrite Forall_forall in Hb. specialize (Hb r Hr). simpl in Hb.
  destruct (Z.eqb_spec s 0); lia.
Qed.

Lemma prefix_mono l l' :
  ranges_wf l → ranges_wf l' → (∀ x, in_ranges x l → in_ranges x l') →
  0 <= prefix_of l' → prefix_of l <= prefix_of l'.
Proof.
  intros Hl Hl' Hin Hp. destruct (Z.le_gt_cases (prefix_of l) (prefix_of l')) as [|Hlt]; [done|].
  destruct (prefix_not_in l' Hl'). apply Hin, prefix_in; [done|lia].
Qed.

Lemma prefix_nonneg l : ranges_wf l → 0 <= prefix_of l.
Proof.
  unfold prefix_of. destruct l as [|[s e] l]; simpl; [lia|].
  intros ([? ?] & _)%ranges_wf_cons. destruct (s =? 0); lia.
Qed.

Lemma range_insert_ends B s e l :
  e <= B → Forall (λ r, r.2 <= B) l → Forall (λ r, r.2 <= B) (range_insert s e l).
Proof.
  intros He Hl. revert s e He. induction Hl as [|[a b] l Hb Hl IH]; intros s e He; simpl in *.
  { by repeat constructor. }
  repeat zcase; [constructor; auto|by repeat constructor|apply IH; lia].
Qed.

(** A range from zero that reaches beyond all others swallows them. *)
Lemma range_insert_all e l :
  0 <= e → ranges_wf l → Forall (λ r, r.2 <= e) l → range_insert 0 e l = [(0, e)].
Proof.
  intros He Hwf Hl. revert Hwf. induction Hl as [|[a b] l Hb Hl IH]; [done|].
  intros ([? ?] & _ & Hwf)%ranges_wf_cons. simpl in *. zdecide.
  rewrite Z.min_l, Z.max_l by lia. by apply IH.
Qed.

(** [ack] on ranges that were sent. *)
Lemma ack_run sb o n :
  rs_wf (SendBuf.acked sb) → RangeSet.capacity (SendBuf.acked sb) = u64_max →
  Forall (λ r, r.2 <= SendBuf.emit_off sb) (RangeSet.iter (SendBuf.acked sb)) →
  0 <= o → 0 <= n → o + n <= SendBuf.emit_off sb → SendBuf.emit_off sb < u64_max →
  ∃ acked', SendBuf.ack o n sb = (Ok (), SendBuf.set_acked acked' sb) ∧ rs_wf acked' ∧
    RangeSet.capacity acked' = u64_max ∧
    RangeSet.iter acked' = range_insert o (o + n) (RangeSet.iter (SendBuf.acked sb)).
Proof.
  intros Hr Hc Ha Ho Hn Hs Hm. unfold SendBuf.ack.
  rewrite (run_bind_lift _ _ _ (o + n)) by (apply uadd_ok; lia). unfold zoom.
  destruct (rangeset_insert_run (E:=Error) o (o + n) (SendBuf.acked sb) Hr ltac:(lia))
    as (acked' & -> & Hr' & Hc' & Hi).
  exists acked'. rewrite Hc in *. split_and!; try done. rewrite Hi. unfold bounded_insert.
  destruct Hr as (Hw & _). rewrite (proj2 (Z.leb_le _ _)); [done|].
  pose proof (range_insert_wf o (o + n) _ ltac:(lia) Hw) as Hw'.
  enough (zlen (range_insert o (o + n) (RangeSet.iter (SendBuf.acked sb))) <=
          SendBuf.emit_off sb + 1 - 0) by lia.
  apply ranges_count; [lia|done|]. apply Forall_and. split.
  - destruct Hw' as [_ Hpos]. forall_lia.
  - by apply range_insert_ends.
Qed.

(** The chunks at the front that the acknowledged prefix covers. *)
Lemma droppable_spec a (l : list RangeBuf.t) e n :
  chain a l e → let k := SendBuf.droppable n l in
  (k <= length l)%nat ∧ ∃ m, chain a (take k l) m ∧ chain m (drop k l) e ∧ (k ≠ 0%nat → m <= n).
Proof.
  revert a. induction l as [|b l IH]; intros a; simpl.
  { intros ->. split; [lia|]. by exists e. }
  intros (Ho & Hwf & Hl & Hc). destruct (Z.leb_spec n (RangeBuf.off_ b)).
  { split; [lia|]. exists a. by split_and!. }
  destruct (_ && _) eqn:Hb; simpl.
  { split; [lia|]. exists a. by split_and!. }
  apply andb_false_iff in Hb. rewrite raw_max, Z.ltb_ge, Z.ltb_ge in Hb.
  destruct (IH _ Hc) as (Hk & m & H1 & H2 & Hm). split; [lia|].
  exists m. split_and!; try done. intros _.
  destruct (SendBuf.droppable n l) eqn:Hd; [|by apply Hm].
  simpl in H1. lia.
Qed.

Lemma acked_wf sb acked' :
  send_wf sb → rs_wf acked' → RangeSet.capacity acked' = u64_max →
  Forall (λ r, r.2 <= SendBuf.emit_off sb) (RangeSet.iter acked') →
  (∀ x, in_ranges x (RangeSet.iter (SendBuf.acked sb)) → in_ranges x (RangeSet.iter acked')) →
  send_wf (SendBuf.set_acked acked' sb).
Proof.
  intros [[] Hb Hr Hcap Ha Ho Hm Hl Hf Hu] Hr' Hc' Ha' Hmono. constructor; try done.
  change (base (SendBuf.set_acked acked' sb)) with (base sb).
  enough (SendBuf.ack_off sb <= SendBuf.ack_off (SendBuf.set_acked acked' sb)) by lia.
  apply (prefix_mono (RangeSet.iter (SendBuf.acked sb)) (RangeSet.iter acked'));
    [apply Hr|apply Hr'|done|apply prefix_nonneg, Hr'].
Qed.

(** Dropping acknowledged chunks. *)
Lemma drop_wf sb k m :
  send_wf sb → (k <= length (SendBuf.data sb))%nat →
  chain (base sb) (take k (SendBuf.data sb)) m → chain m (drop k (SendBuf.data sb)) (SendBuf.off sb) →
  m <= SendBuf.ack_off sb →
  let sb' := SendBuf.set_pos (SendBuf.pos sb - k) (SendBuf.set_data (drop k (SendBuf.data sb)) sb) in
  send_wf sb' ∧ base sb' = m ∧
  (∀ o x, content_at (SendBuf.data sb') o x ↔ content_at (SendBuf.data sb) o x ∧ m <= o) ∧
  (∀ o, pending (SendBuf.data sb') o ↔ pending (SendBuf.data sb) o ∧ m <= o).
Proof.
  intros Hwf Hk H1 H2 Hm sb'. pose proof (ack_off_bounds sb Hwf) as Hab.
  destruct Hwf as [[Hc Hp Hs Hl Hq] Hb Hr Hcap Ha Ho Hmd Hle Hf Hu].
  assert (base sb' = m) as Hbase by (apply chain_base; done).
  assert (∀ o, pending (SendBuf.data sb') o ↔ pending (SendBuf.data sb) o ∧ m <= o) as Hpend.
  { intros o. simpl. rewrite <- (take_drop k (SendBuf.data sb)) at 2. rewrite pending_app.
    split; [intros Hx; split; [by right|by apply (chain_pending _ _ _ o H2)]|].
    intros [[Hx|?] ?]; [|done]. apply (chain_pending _ _ _ o H1) in Hx. lia. }
  split; [|split; [done|split; [|done]]].
  - pose proof (chain_le _ _ _ H1). constructor; rewrite ?Hbase; simpl; try done.
    + constructor; simpl; try done.
      * rewrite length_drop. lia.
      * destruct (decide (SendBuf.pos sb <= k)%nat).
        { by replace (SendBuf.pos sb - k)%nat with 0%nat by lia. }
        rewrite take_drop_commute. apply Forall_drop.
        by replace (k + (SendBuf.pos sb - k))%nat with (SendBuf.pos sb) by lia.
      * rewrite <- (take_drop k (SendBuf.data sb)), pending_len_app in Hl.
        pose proof (pending_len_nonneg _ _ _ H1). lia.
    + change (SendBuf.ack_off sb') with (SendBuf.ack_off sb). lia.
    + intros o ?. apply Hpend. split; [by apply Hu|lia].
  - intros o x. simpl. rewrite <- (take_drop k (SendBuf.data sb)) at 2. rewrite content_app.
    split; [intros Hx; split; [by right|by apply (chain_content _ _ _ o x H2)]|].
    intros [[Hx|?] ?]; [|done]. apply (chain_content _ _ _ o x H1) in Hx. lia.
Qed.

(** What an acknowledgement of [n] bytes from [o] on does. *)
Record ack_post sb (o n : Z) (sb' : SendBuf.t) : Prop := mk_ack_post {
  kp_wf : send_wf sb';
  kp_acked x : in_ranges x (RangeSet.iter (SendBuf.acked sb')) ↔
    in_ranges x (RangeSet.iter (SendBuf.acked sb)) ∨ o <= x < o + n;
  kp_base : base sb <= base sb' <= SendBuf.ack_off sb';
  kp_content i x : content_at (SendBuf.data sb') i x ↔
    content_at (SendBuf.data sb) i x ∧ base sb' <= i;
  kp_pending i : pending (SendBuf.data sb') i ↔ pending (SendBuf.data sb) i ∧ base sb' <= i;
  kp_frame : SendBuf.off sb' = SendBuf.off sb ∧ SendBuf.emit_off sb' = SendBuf.emit_off sb ∧
    SendBuf.max_data sb' = SendBuf.max_data sb ∧ SendBuf.fin_off sb' = SendBuf.fin_off sb ∧
    SendBuf.error sb' = SendBuf.error sb
}.

Lemma ack_and_drop_run sb o n :
  send_wf sb → 0 <= o → 0 <= n → o + n <= SendBuf.emit_off sb →
  ∃ sb', SendBuf.ack_and_drop o n sb = (Ok (), sb') ∧ ack_post sb o n sb'.
Proof.
  intros Hwf Ho Hn Hs. pose proof (q_max _ _ (sw_queue sb Hwf)). pose proof (sw_off sb Hwf).
  pose proof (sw_max sb Hwf). pose proof (sw_ranges sb Hwf) as [Hrw _].
  destruct (ack_run sb o n) as (acked' & Hack & Hr' & Hc' & Hi); try apply Hwf; try done; try lia.
  set (sb1 := SendBuf.set_acked acked' sb).
  assert (∀ x, in_ranges x (RangeSet.iter acked') ↔
    in_ranges x (RangeSet.iter (SendBuf.acked sb)) ∨ o <= x < o + n) as Hin
    by (intros x; rewrite Hi, range_insert_in by (done || lia); tauto).
  assert (send_wf sb1) as Hwf1.
  { apply acked_wf; try done; [|intros x ?; apply Hin; by left].
    rewrite Hi. apply range_insert_ends; [lia|apply Hwf]. }
  pose proof (q_chain _ _ (sw_queue sb1 Hwf1)) as Hch.
  assert (ack_post sb o n sb1) as Hkeep.
  { pose proof (sw_base sb1 Hwf1). constructor; try done; [change (base sb1) with (base sb) in *; lia|..].
    - intros i x. split; [|tauto]. intros Hx. split; [done|].
      pose proof (chain_content _ _ _ _ _ Hch Hx). lia.
    - intros i. split; [|tauto]. intros Hx. split; [done|].
      pose proof (chain_pending _ _ _ _ Hch Hx). lia. }
  unfold SendBuf.ack_and_drop. rewrite (run_bind_ok _ _ _ _ _ Hack), run_bind_get. fold sb1.
  destruct (SendBuf.is_empty sb1); [by exists sb1|].
  destruct (SendBuf.ack_off sb1 <? o); [by exists sb1|].
  destruct (droppable_spec _ _ _ (SendBuf.ack_off sb1) Hch) as (Hk & m & Hc1 & Hc2 & Hm).
  set (k := SendBuf.droppable (SendBuf.ack_off sb1) (SendBuf.data sb1)) in *.
  destruct (Nat.eqb_spec k 0) as [|Hne]; [by exists sb1|]. rewrite !run_bind_modify.
  destruct (drop_wf sb1 k m Hwf1 Hk Hc1 Hc2 (Hm Hne)) as (Hwf' & Hb' & Hc & Hp).
  eexists. split; [done|]. constructor; try done.
  - rewrite Hb'. pose proof (chain_le _ _ _ Hc1). change (base sb1) with (base sb) in *.
    split; [done|]. exact (Hm Hne).
  - intros i x. by rewrite Hb', Hc.
  - intros i. by rewrite Hb', Hp.
Qed.
End send_ack.

(** ** Retransmission *)

Section send_retransmit.
Implicit Types (sb : SendBuf.t) (b h : RangeBuf.t).

(** The two parts of a chunk, before [p] is rewound. *)
Definition cut_at (max_off : Z) (b : RangeBuf.t) : result Error (RangeBuf.t * option RangeBuf.t) :=
  if (RangeBuf.off_ b <? max_off) && (max_off <? RangeBuf.max_off b) then
    '(head, tail) ← RangeBuf.split_off (max_off - RangeBuf.off_ b) b; Ok (head, Some tail)
  else Ok (b, None).
Definition rewind_pos (off : Z) (b : RangeBuf.t) : Z :=
  if (RangeBuf.off_ b <? off) && (off <=? RangeBuf.max_off b)
  then Z.min (RangeBuf.pos b) (RangeBuf.start b + (off - RangeBuf.off_ b))
  else RangeBuf.start b.
Definition opt_list {A} (o : option A) : list A := match o with Some x => [x] | None => [] end.

(** Cutting keeps the chunk's offsets, bytes and unsent offsets. *)
Lemma cut_spec max_off b :
  RangeBuf.wf b → 0 < RangeBuf.len_ b → RangeBuf.off_ b < max_off →
  ∃ h nb, cut_at max_off b = Ok (h, nb) ∧ RangeBuf.wf h ∧ 0 < RangeBuf.len_ h ∧
    RangeBuf.off_ h = RangeBuf.off_ b ∧
    RangeBuf.max_off h = Z.min max_off (RangeBuf.max_off b) ∧
    RangeBuf.len_ h <= RangeBuf.len_ b ∧
    chain (RangeBuf.max_off h) (opt_list nb) (RangeBuf.max_off b) ∧
    (∀ t, nb = Some t → RangeBuf.off_ t = max_off) ∧
    RangeBuf.len h + pending_len (opt_list nb) = RangeBuf.len b ∧
    (∀ o x, raw_holds h o x ∨ content_at (opt_list nb) o x ↔ raw_holds b o x) ∧
    (∀ o, to_send h o ∨ pending (opt_list nb) o ↔ to_send b o).
Proof.
  intros Hwf Hl Ho. pose proof Hwf as (? & ? & ? & ? & ?). unfold cut_at.
  rewrite (proj2 (Z.ltb_lt _ _) Ho). cbn [andb]. pose proof (raw_max b) as Hm.
  destruct (Z.ltb_spec max_off (RangeBuf.max_off b)).
  - unfold RangeBuf.split_off. rewrite (proj2 (Z.leb_le _ _)) by lia.
    match goal with |- context [Ok (?h0, ?t0)] => set (h := h0); set (t := t0) end.
    exists h, (Some t). cbn [opt_list pending_len foldr chain].
    assert (RangeBuf.max_off h = max_off) as Hh by (rewrite raw_max; simpl; lia).
    assert (RangeBuf.max_off t = RangeBuf.max_off b) as Ht by (rewrite !raw_max; simpl; lia).
    rewrite Hh, Z.min_l by lia.
    split_and!; try done; try (simpl; lia); try (unfold RangeBuf.wf; simpl; lia).
    + intros t0 Ht0. injection Ht0 as Ht0. rewrite <- Ht0. simpl. lia.
    + unfold RangeBuf.len. simpl. lia.
    + intros o x. rewrite content_cons. unfold content_at, raw_holds. rewrite Exists_nil, Hh, Ht.
      simpl. replace (RangeBuf.off_ b + (max_off - RangeBuf.off_ b) -
        (RangeBuf.start b + (max_off - RangeBuf.off_ b))) with (RangeBuf.off_ b - RangeBuf.start b) by lia.
      split; [intros [[? ?]|[[? ?]|[]]]; (split; [lia|done])|].
      intros [? ?]. destruct (decide (o < max_off)); [left|right; left]; (split; [lia|done]).
    + intros o. rewrite pending_cons. unfold pending, to_send. rewrite Exists_nil, Hh, Ht.
      unfold RangeBuf.off. simpl. lia.
  - exists b, None. simpl. rewrite Z.min_r by lia. split_and!; try done; try lia.
    + intros o x. unfold content_at. rewrite Exists_nil. tauto.
    + intros o. unfold pending. rewrite Exists_nil. tauto.
Qed.

(** Rewinding queues the part of the chunk from [off] on. *)
Lemma rewind_spec off h :
  RangeBuf.wf h → off <= RangeBuf.max_off h →
  let p := rewind_pos off h in let h' := SendBuf.buf_set_pos p h in
  RangeBuf.start h <= p <= RangeBuf.pos h ∧ RangeBuf.wf h' ∧
  RangeBuf.max_off h' = RangeBuf.max_off h ∧
  RangeBuf.len h' = RangeBuf.len h + (RangeBuf.pos h - p) ∧
  RangeBuf.pos h - p <= RangeBuf.len_ h ∧
  (∀ o x, raw_holds h' o x ↔ raw_holds h o x) ∧
  (∀ o, to_send h' o ↔ to_send h o ∨ (off <= o ∧ RangeBuf.off_ h <= o < RangeBuf.max_off h)).
Proof.
  intros (? & ? & ? & ? & ?) Ho p h'. pose proof (raw_max h) as Hm.
  assert (RangeBuf.start h <= p <= RangeBuf.pos h ∧
          (p = RangeBuf.start h ∧ off <= RangeBuf.off_ h ∨
           p = Z.min (RangeBuf.pos h) (RangeBuf.start h + (off - RangeBuf.off_ h)) ∧
           RangeBuf.off_ h < off)) as [Hp Hcase].
  { unfold p, rewind_pos.
    destruct (Z.ltb_spec (RangeBuf.off_ h) off); simpl; [|lia].
    rewrite (proj2 (Z.leb_le _ _)) by lia. lia. }
  assert (RangeBuf.max_off h' = RangeBuf.max_off h) as Hm' by by rewrite !raw_max.
  split; [lia|]. split; [unfold h', RangeBuf.wf; simpl; lia|]. split; [done|].
  split; [unfold h', RangeBuf.len; simpl; lia|]. split; [lia|]. split.
  - intros o x. unfold raw_holds. by rewrite Hm'.
  - intros o. unfold to_send. rewrite Hm'. unfold h', RangeBuf.off. simpl. lia.
Qed.

(** What rewinding the chunks from the offset [m] on does. *)
Record rewound (a : Z) sb (m off max_off : Z) (sb' : SendBuf.t) : Prop := mk_rewound {
  rw_wf : queue_wf a sb';
  rw_frame : sb' = SendBuf.set_len (SendBuf.len sb')
               (SendBuf.set_pos (SendBuf.pos sb') (SendBuf.set_data (SendBuf.data sb') sb));
  rw_content o x : content_at (SendBuf.data sb') o x ↔ content_at (SendBuf.data sb) o x;
  rw_pending o : pending (SendBuf.data sb') o ↔
    pending (SendBuf.data sb) o ∨ (off <= o < max_off ∧ m <= o < SendBuf.off sb);
  rw_len : SendBuf.len sb' <= u64_max
}.

Lemma rewound_none a sb m off max_off :
  queue_wf a sb → SendBuf.len sb <= u64_max →
  (∀ o, ¬ (off <= o < max_off ∧ m <= o < SendBuf.off sb)) → rewound a sb m off max_off sb.
Proof.
  intros Hwf Hl Hn. constructor; try done; [by destruct sb|].
  intros o. specialize (Hn o). tauto.
Qed.

(** One chunk: the loop's body at index [i]. *)
Lemma rewind_chunk a sb i b m off max_off :
  queue_wf a sb → SendBuf.data sb !! i = Some b →
  chain a (take i (SendBuf.data sb)) m → chain m (drop i (SendBuf.data sb)) (SendBuf.off sb) →
  RangeBuf.off_ b < max_off → off <= RangeBuf.max_off b → off <= max_off →
  SendBuf.len sb + (RangeBuf.max_off b - m) <= u64_max →
  ∃ sb1 nb, (∀ n, SendBuf.retransmit_loop (S n) i off max_off sb =
                 SendBuf.retransmit_loop n (S i) off max_off sb1) ∧
    rewound a sb m off (Z.min max_off (RangeBuf.max_off b)) sb1 ∧
    SendBuf.len sb1 <= SendBuf.len sb + (RangeBuf.max_off b - m) ∧
    (∃ h, SendBuf.data sb1 = take i (SendBuf.data sb) ++ h :: opt_list nb ++ drop (S i) (SendBuf.data sb) ∧
          chain m (h :: opt_list nb) (RangeBuf.max_off b)) ∧
    (∀ t, nb = Some t → RangeBuf.off_ t = max_off).
Proof.
  intros [Hc Hp Hs Hl Hq] Hb H1 H2 Hlt Hoff Hmo Hlen.
  pose proof (lookup_lt_Some _ _ _ Hb) as Hi. rewrite (drop_S _ _ _ Hb) in H2.
  destruct H2 as (Hm & Hwf & Hl0 & H2). rewrite <- Hm, <- raw_max in H2.
  destruct (cut_spec max_off b Hwf Hl0 Hlt)
    as (h & nb & Hcut & Hwh & Hlh & Hoh & Hmh & Hlenh & Hch & Hnb & Hpl & Hraw & Hsend).
  destruct (rewind_spec off h Hwh ltac:(lia)) as (Hpr & Hwh' & Hmh' & Hlh' & Hd & Hraw' & Hsend').
  set (p := rewind_pos off h) in *. set (h' := SendBuf.buf_set_pos p h) in *.
  pose proof (raw_max b) as Hrm. pose proof (raw_max h) as Hrh. pose proof (chain_le _ _ _ H2).
  assert (pending_len (SendBuf.data sb) = pending_len (take i (SendBuf.data sb)) +
            (RangeBuf.len b + pending_len (drop (S i) (SendBuf.data sb)))) as Hpd.
  { rewrite <- (take_drop_middle _ _ _ Hb) at 1. by rewrite pending_len_app. }
  assert (∀ o x, content_at (SendBuf.data sb) o x ↔ content_at (take i (SendBuf.data sb)) o x ∨
            raw_holds b o x ∨ content_at (drop (S i) (SendBuf.data sb)) o x) as Hcd.
  { intros o x. rewrite <- (take_drop_middle _ _ _ Hb) at 1. by rewrite content_app, content_cons. }
  assert (∀ o, pending (SendBuf.data sb) o ↔ pending (take i (SendBuf.data sb)) o ∨
            to_send b o ∨ pending (drop (S i) (SendBuf.data sb)) o) as Hpe.
  { intros o. rewrite <- (take_drop_middle _ _ _ Hb) at 1. by rewrite pending_app, pending_cons. }
  set (data1 := take i (SendBuf.data sb) ++ h' :: opt_list nb ++ drop (S i) (SendBuf.data sb)).
  exists (SendBuf.set_data data1 (SendBuf.set_len (SendBuf.len sb + (RangeBuf.pos h - p))
            (SendBuf.set_pos (Nat.min (SendBuf.pos sb) i) sb))), nb.
  assert (chain m (h' :: opt_list nb) (RangeBuf.max_off b)) as Hhead.
  { split; [simpl; lia|]. split; [done|]. split; [done|]. simpl.
    by replace (m + RangeBuf.len_ h) with (RangeBuf.max_off h) by lia. }
  split; [|split; [|split; [|split]]].
  - intros n. cbn [SendBuf.retransmit_loop]. rewrite run_bind_get, Hb.
    rewrite (proj2 (Z.leb_gt _ _)) by lia. rewrite (proj2 (Z.ltb_ge _ _)) by lia.
    unfold cut_at in Hcut. rewrite (run_bind_lift _ _ _ _ Hcut), run_bind_modify.
    fold (rewind_pos off h). fold p.
    rewrite (run_bind_lift _ _ _ (RangeBuf.pos h - p)) by (apply usub_ok; lia).
    rewrite (run_bind_lift _ _ _ (SendBuf.len sb + (RangeBuf.pos h - p))) by (apply uadd_ok; lia).
    by rewrite !run_bind_modify.
  - constructor; simpl; try done; try lia.
    + constructor; simpl; try done.
      * unfold data1. apply chain_app. exists m. split; [done|].
        change (h' :: ?l ++ ?k) with ((h' :: l) ++ k). apply chain_app. by exists (RangeBuf.max_off b).
      * unfold data1. rewrite length_app, length_take. lia.
      * unfold data1. rewrite take_app_le by (rewrite length_take; lia).
        rewrite take_take. replace (_ `min` i)%nat with (i `min` SendBuf.pos sb)%nat by lia.
        rewrite <- take_take. by apply Forall_take.
      * unfold data1. rewrite pending_len_app. simpl. rewrite pending_len_app. lia.
    + intros o x. unfold data1. rewrite content_app, content_cons, content_app, Hraw', Hcd, <- Hraw. tauto.
    + intros o. unfold data1. rewrite pending_app, pending_cons, pending_app, Hsend', Hpe, <- Hsend.
      split; [intros [?|[[?|?]|[?|?]]]; [tauto..| |tauto|tauto]; right; lia|].
      intros [?|?]; [tauto|]. right; left; right. lia.
  - simpl. lia.
  - exists h'. by split.
  - done.
Qed.

Lemma retransmit_break n i sb b off max_off :
  SendBuf.data sb !! i = Some b → max_off <= RangeBuf.off_ b →
  SendBuf.retransmit_loop n i off max_off sb = (Ok (), sb).
Proof.
  intros Hb Hm. destruct n; [done|]. cbn [SendBuf.retransmit_loop].
  by rewrite run_bind_get, Hb, (proj2 (Z.leb_le _ _) Hm).
Qed.

Lemma rewound_trans a sb m off mid max_off sb1 sb2 :
  rewound a sb m off (Z.min max_off mid) sb1 → rewound a sb1 mid off max_off sb2 →
  m <= mid <= SendBuf.off sb → rewound a sb m off max_off sb2.
Proof.
  intros [_ Hf1 Hc1 Hp1 _] [Hwf Hf2 Hc2 Hp2 Hl] Hm.
  assert (SendBuf.off sb1 = SendBuf.off sb) as Ho by by rewrite Hf1.
  constructor; try done.
  - rewrite Hf2, Hf1. done.
  - intros o x. by rewrite Hc2, Hc1.
  - intros o. rewrite Hp2, Hp1, Ho. split; [intros [[?|?]|?]; [tauto|right; lia|right; lia]|].
    intros [?|?]; [tauto|]. destruct (decide (o < mid)); [left; right|right]; lia.
Qed.

Lemma retransmit_loop_spec a off max_off n sb i m :
  queue_wf a sb → (n + i = length (SendBuf.data sb))%nat →
  chain a (take i (SendBuf.data sb)) m → chain m (drop i (SendBuf.data sb)) (SendBuf.off sb) →
  off <= max_off → SendBuf.len sb + (SendBuf.off sb - m) <= u64_max →
  ∃ sb', SendBuf.retransmit_loop n i off max_off sb = (Ok (), sb') ∧
    rewound a sb m off max_off sb'.
Proof.
  intros Hwf Hn H1 H2 Hmo Hlen. revert sb i m Hwf Hn H1 H2 Hlen.
  induction n as [|n IH]; intros sb i m Hwf Hn H1 H2 Hlen; pose proof (chain_le _ _ _ H2).
  { exists sb. split; [done|]. rewrite drop_ge in H2 by lia. simpl in H2.
    apply rewound_none; [done|lia|lia]. }
  destruct (lookup_lt_is_Some_2 (SendBuf.data sb) i) as [b Hb]; [lia|].
  pose proof H2 as H2'. rewrite (drop_S _ _ _ Hb) in H2'. destruct H2' as (Hm & Hbw & Hbl & H2').
  rewrite <- Hm, <- raw_max in H2'. pose proof (chain_le _ _ _ H2'). pose proof (raw_max b).
  destruct (Z.le_gt_cases max_off (RangeBuf.off_ b)) as [Hbr|Hlt].
  { exists sb. split; [by eapply retransmit_break|]. apply rewound_none; [done|lia|lia]. }
  destruct (Z.lt_ge_cases (RangeBuf.max_off b) off) as [Hskip|Hoff].
  { destruct (IH sb (S i) (RangeBuf.max_off b)) as (sb' & Hrun & Hp); try done; try lia.
    { rewrite (take_S_r _ _ b) by done. apply chain_app. exists m. split; [done|].
      split_and!; try done. simpl. lia. }
    exists sb'. split.
    - cbn [SendBuf.retransmit_loop]. rewrite run_bind_get, Hb.
      rewrite (proj2 (Z.leb_gt _ _)) by lia. by rewrite (proj2 (Z.ltb_lt _ _) Hskip).
    - eapply (rewound_trans _ _ _ _ (RangeBuf.max_off b)); [|exact Hp|lia].
      apply rewound_none; [done|lia|lia]. }
  destruct (rewind_chunk a sb i b m off max_off)
    as (sb1 & nb & Hrun & Hp & Hl1 & (h & Hd & Hhc) & Hnb); try done; try lia.
  pose proof (rw_frame _ _ _ _ _ _ Hp) as Hf.
  assert (SendBuf.off sb1 = SendBuf.off sb) as Ho by by rewrite Hf.
  assert (take i (SendBuf.data sb1) = take i (SendBuf.data sb)) as Hti.
  { rewrite Hd. rewrite take_app_le by (rewrite length_take; lia). by rewrite take_take, Nat.min_id. }
  assert (drop i (SendBuf.data sb1) = h :: opt_list nb ++ drop (S i) (SendBuf.data sb)) as Hdi.
  { rewrite Hd. apply drop_app_length'. rewrite length_take. lia. }
  destruct nb as [t|]; simpl in *.
  - exists sb1. rewrite Hrun. split.
    + apply (retransmit_break _ _ _ t); [|by rewrite (Hnb t eq_refl)].
      replace (S i) with (i + 1)%nat by lia. by rewrite <- lookup_drop, Hdi.
    + rewrite (Z.min_l max_off) in Hp; [done|]. rewrite <- (Hnb t eq_refl).
      destruct Hhc as (_ & _ & _ & Hto & _ & Htl & Hte). lia.
  - destruct (IH sb1 (S i) (RangeBuf.max_off b)) as (sb' & Hrun' & Hp'); try lia.
    + apply Hp.
    + rewrite Hd, length_app, length_take. simpl. rewrite length_drop. lia.
    + rewrite (take_S_r _ _ h).
      2: { rewrite <- (Nat.add_0_r i). by rewrite <- lookup_drop, Hdi. }
      rewrite Hti. apply chain_app. by exists m.
    + replace (S i) with (i + 1)%nat by lia. rewrite <- drop_drop, Hdi, Ho. simpl. by rewrite drop_0.
    + exists sb'. rewrite Hrun. split; [done|]. eapply rewound_trans; [exact Hp|exact Hp'|lia].
Qed.

(** [retransmit] queues what is still buffered of the given range, unless the
    whole range is acknowledged. *)
Lemma retransmit_run sb o n :
  send_wf sb → 0 <= o → 0 <= n → o + n <= u64_max →
  SendBuf.len sb + (SendBuf.off sb - base sb) <= u64_max →
  ∃ sb', SendBuf.retransmit o n sb = (Ok (), sb') ∧ send_wf sb' ∧ base sb' = base sb ∧
    SendBuf.set_len 0 (SendBuf.set_pos 0 (SendBuf.set_data [] sb')) =
      SendBuf.set_len 0 (SendBuf.set_pos 0 (SendBuf.set_data [] sb)) ∧
    (∀ i x, content_at (SendBuf.data sb') i x ↔ content_at (SendBuf.data sb) i x) ∧
    (∀ i, pending (SendBuf.data sb') i ↔ pending (SendBuf.data sb) i ∨
       (SendBuf.ack_off sb < o + n ∧ o <= i < o + n ∧ base sb <= i < SendBuf.off sb)).
Proof.
  intros Hwf Ho Hn Hmax Hlen. unfold SendBuf.retransmit.
  rewrite (run_bind_lift _ _ _ (o + n)), run_bind_get by (apply uadd_ok; lia).
  destruct (SendBuf.is_empty sb) eqn:He.
  { exists sb. split_and!; try done. intros i. split; [tauto|]. intros [?|(_ & _ & Hi)]; [done|].
    unfold SendBuf.is_empty, base in *. destruct (SendBuf.data sb); [lia|done]. }
  destruct (Z.leb_spec (o + n) (SendBuf.ack_off sb)).
  { exists sb. split_and!; try done. intros i. split; [tauto|]. intros [?|?]; [done|lia]. }
  pose proof (q_chain _ _ (sw_queue sb Hwf)) as Hch.
  destruct (retransmit_loop_spec (base sb) o (o + n) (length (SendBuf.data sb)) sb 0 (base sb))
    as (sb' & Hrun & [Hq Hf Hc Hp Hl]); try done; try lia.
  { apply Hwf. }
  pose proof (chain_base _ _ (q_chain _ _ Hq)) as Hb. destruct Hwf as [_ Hb0 Hr Hcap Ha Hoff Hm _ Hfin Hu].
  assert (SendBuf.off sb' = SendBuf.off sb ∧ SendBuf.emit_off sb' = SendBuf.emit_off sb ∧
    SendBuf.acked sb' = SendBuf.acked sb ∧ SendBuf.fin_off sb' = SendBuf.fin_off sb ∧
    SendBuf.max_data sb' = SendBuf.max_data sb ∧ SendBuf.ack_off sb' = SendBuf.ack_off sb)
    as (E1 & E2 & E3 & E4 & E5 & E6) by (rewrite Hf; done).
  exists sb'. split; [done|]. split.
  { constructor; rewrite ?Hb, ?E1, ?E2, ?E3, ?E4, ?E5, ?E6; try done.
    intros i Hi. rewrite Hp. left. by apply Hu. }
  split_and!; try done; [by rewrite Hf|]. intros i. rewrite Hp. intuition lia.
Qed.
End send_retransmit.

(** ** Sending and resetting a well-formed buffer *)

Section send_ops.
Implicit Types (sb : SendBuf.t).

Lemma send_emit_run sb n :
  send_wf sb → 0 <= n →
  let front := SendBuf.off_front sb in
  ∃ out sb', SendBuf.emit n sb =
      (Ok (out, bool_decide (SendBuf.fin_off sb = Some (front + zlen out))), sb') ∧
    send_wf sb' ∧ base sb' = base sb ∧ zlen out <= n ∧
    SendBuf.emit_off sb' = Z.max (SendBuf.emit_off sb) (front + zlen out) ∧
    (SendBuf.off sb' = SendBuf.off sb ∧ SendBuf.fin_off sb' = SendBuf.fin_off sb ∧
     SendBuf.max_data sb' = SendBuf.max_data sb ∧ SendBuf.acked sb' = SendBuf.acked sb ∧
     SendBuf.error sb' = SendBuf.error sb) ∧
    front + zlen out <= SendBuf.off sb ∧
    (∀ o x, content_at (SendBuf.data sb') o x ↔ content_at (SendBuf.data sb) o x) ∧
    (∀ i x, out !! i = Some x → content_at (SendBuf.data sb) (front + Z.of_nat i) x) ∧
    (∀ o, pending (SendBuf.data sb') o ↔
          pending (SendBuf.data sb) o ∧ ¬ front <= o < front + zlen out) ∧
    (zlen out = n ∨ ¬ pending (SendBuf.data sb') (front + zlen out)).
Proof.
  intros Hwf Hn front. pose proof (sw_queue sb Hwf) as Hq.
  destruct (send_emit_loop_spec (base sb) (S (length (SendBuf.data sb) - SendBuf.pos sb)) sb n front [])
    as (out & sb1 & next & Hrun & [Hq1 Hf Hle Hnx Hr Hc Ho Hp Ha]); [done|done|done|lia|].
  subst next. destruct (off_front_spec _ sb Hq) as (Hfr & _ & _). fold front in Hfr.
  assert (front + zlen out <= SendBuf.off sb) as Hend.
  { destruct (last out) as [x|] eqn:Hl; [|apply last_None in Hl as ->; rewrite zlen_nil; lia].
    rewrite last_lookup in Hl. pose proof (lookup_lt_Some _ _ _ Hl). apply Ho in Hl.
    apply (chain_content _ _ _ _ _ (q_chain _ _ Hq)) in Hl. unfold zlen. lia. }
  pose proof (chain_base _ _ (q_chain _ _ Hq1)) as Hb.
  destruct Hwf as [_ Hb0 Hra Hcap Hac Hoff Hm Hl Hfin Hu]. pose proof (zlen_nonneg out).
  assert (SendBuf.off sb1 = SendBuf.off sb ∧ SendBuf.emit_off sb1 = SendBuf.emit_off sb ∧
    SendBuf.acked sb1 = SendBuf.acked sb ∧ SendBuf.fin_off sb1 = SendBuf.fin_off sb ∧
    SendBuf.max_data sb1 = SendBuf.max_data sb ∧ SendBuf.ack_off sb1 = SendBuf.ack_off sb ∧
    SendBuf.error sb1 = SendBuf.error sb)
    as (E1 & E2 & E3 & E4 & E5 & E6 & E7) by (rewrite Hf; done).
  set (sb' := SendBuf.set_emit_off (Z.max (SendBuf.emit_off sb) (front + zlen out)) sb1).
  exists out, sb'. split.
  { unfold SendBuf.emit. rewrite run_bind_get, (run_bind_ok _ _ _ _ _ Hrun), run_bind_modify.
    unfold sb'. rewrite <- E2. done. }
  assert (base sb' = base sb) as Hb' by done.
  split.
  { constructor; rewrite ?Hb'; simpl; rewrite ?E1, ?E3, ?E4, ?E5; try done; try lia.
    - by destruct Hq1.
    - change (SendBuf.ack_off sb') with (SendBuf.ack_off sb1). by rewrite E6.
    - forall_lia.
    - intros o Hor. rewrite Hp. split; [apply Hu; lia|lia]. }
  split_and!; done.
Qed.

(** Everything that was sent is below [emit_off], and the rest is queued, so a
    reset cuts the stream at [emit_off]. *)
Lemma front_emit sb :
  send_wf sb → Z.max (SendBuf.off_front sb) (SendBuf.emit_off sb) = SendBuf.emit_off sb.
Proof.
  intros Hwf. destruct (off_front_spec _ sb (sw_queue sb Hwf)) as (Hf & Hmin & _).
  pose proof (sw_off sb Hwf).
  destruct (decide (SendBuf.emit_off sb = SendBuf.off sb)); [lia|].
  pose proof (Hmin (SendBuf.emit_off sb) (sw_unsent sb Hwf (SendBuf.emit_off sb) ltac:(lia))). lia.
Qed.

Lemma send_reset_run sb :
  send_wf sb →
  ∃ sb', SendBuf.reset sb =
      (Ok (SendBuf.emit_off sb, SendBuf.off sb - SendBuf.emit_off sb), sb') ∧
    send_wf sb' ∧ SendBuf.data sb' = [] ∧ SendBuf.off sb' = SendBuf.emit_off sb ∧
    SendBuf.emit_off sb' = SendBuf.emit_off sb ∧
    SendBuf.fin_off sb' = Some (SendBuf.emit_off sb) ∧
    RangeSet.iter (SendBuf.acked sb') = [(0, SendBuf.emit_off sb)] ∧
    SendBuf.error sb' = SendBuf.error sb ∧ SendBuf.is_shut sb' = SendBuf.is_shut sb ∧
    SendBuf.max_data sb' = SendBuf.max_data sb.
Proof.
  intros Hwf. pose proof (front_emit sb Hwf) as Hfe. pose proof (q_max _ _ (sw_queue sb Hwf)).
  destruct Hwf as [_ Hb0 Hra Hcap Hac Hoff Hm Hl Hfin Hu].
  set (e := SendBuf.emit_off sb) in *.
  set (sb1 := SendBuf.set_off e (SendBuf.set_data [] (SendBuf.set_fin_off (Some e) sb))).
  destruct (ack_run sb1 0 e) as (acked' & Hack & Hr' & Hc' & Hi); try done; try (simpl; lia).
  rewrite Z.add_0_l in Hi. simpl in Hi. rewrite range_insert_all in Hi; [|lia|apply Hra|done].
  eexists. split.
  { unfold SendBuf.reset. rewrite run_bind_get. cbv zeta. fold e. rewrite Hfe, !run_bind_modify.
    fold sb1. rewrite (run_bind_ok _ _ _ _ _ Hack), !run_bind_modify.
    unfold saturating_sub, SendBuf.off_back. rewrite Z.max_r by lia. done. }
  split_and!; try done.
  assert (SendBuf.ack_off (SendBuf.set_len 0 (SendBuf.set_pos 0 (SendBuf.set_acked acked' sb1))) = e)
    as Hao by (unfold SendBuf.ack_off; simpl; by rewrite Hi).
  constructor; simpl; try done; try lia.
  - constructor; simpl; try done. lia.
  - rewrite Hao. unfold base. simpl. lia.
  - rewrite Hi. repeat constructor. simpl. unfold e. lia.
  - by intros f [= <-].
Qed.
End send_ops.

(** ** Runs of the buffer

    Newest event first: accepted writes, transmissions, acknowledgements of
    sent ranges, losses, and credit from the peer.  The two conditions on
    [len] say that the counter of queued bytes does not overflow. *)
Inductive send_event : Type :=
| EvAccept (d : list Z)
| EvSent (front : Z) (out : list Z)
| EvAcked (o n : Z)
| EvLost (o n : Z)
| EvCredit.

Inductive send_step (sb : SendBuf.t) : send_event → SendBuf.t → Prop :=
| sstep_write d fin n sb' :
    SendBuf.len sb + zlen d <= u64_max →
    SendBuf.write d fin sb = (Ok n, sb') → send_step sb (EvAccept (ztake n d)) sb'
| sstep_emit cap out fin sb' :
    0 <= cap → SendBuf.emit cap sb = (Ok (out, fin), sb') →
    send_step sb (EvSent (SendBuf.off_front sb) out) sb'
| sstep_ack o n sb' :
    0 <= o → 0 <= n → o + n <= SendBuf.emit_off sb →
    SendBuf.ack_and_drop o n sb = (Ok (), sb') → send_step sb (EvAcked o n) sb'
| sstep_lost o n sb' :
    0 <= o → 0 <= n → o + n <= u64_max →
    SendBuf.len sb + (SendBuf.off sb - base sb) <= u64_max →
    SendBuf.retransmit o n sb = (Ok (), sb') → send_step sb (EvLost o n) sb'
| sstep_credit m sb' :
    m < u64_max → SendBuf.update_max_data m sb = (Ok (), sb') → send_step sb EvCredit sb'.

Inductive send_run (max_data : Z) : list send_event → SendBuf.t → Prop :=
| srun_new : send_run max_data [] (SendBuf.new max_data)
| srun_step evs sb ev sb' :
    send_run max_data evs sb → send_step sb ev sb' → send_run max_data (ev :: evs) sb'.

(** The stream the application has written. *)
Fixpoint accepted (evs : list send_event) : list Z :=
  match evs with
  | [] => []
  | EvAccept d :: evs' => accepted evs' ++ d
  | _ :: evs' => accepted evs'
  end.

(** Sent, and not declared lost since. *)
Fixpoint in_flight (evs : list send_event) (o : Z) : Prop :=
  match evs with
  | [] => False
  | EvSent f out :: evs' => f <= o < f + zlen out ∨ in_flight evs' o
  | EvLost f n :: evs' => ¬ f <= o < f + n ∧ in_flight evs' o
  | _ :: evs' => in_flight evs' o
  end.

Definition acked_at (sb : SendBuf.t) (o : Z) : Prop :=
  in_ranges o (RangeSet.iter (SendBuf.acked sb)).

Section send_runs.
Context (max_data : Z).
Hypothesis Hmax : 0 <= max_data < u64_max.
Implicit Types (sb : SendBuf.t).

Record tracked (evs : list send_event) (sb : SendBuf.t) : Prop := mk_tracked {
  td_wf : send_wf sb;
  td_error : SendBuf.error sb = None;
  td_off : SendBuf.off sb = zlen (accepted evs);
  td_content o x : content_at (SendBuf.data sb) o x → accepted evs !! Z.to_nat o = Some x;
  td_safe o : 0 <= o < SendBuf.off sb →
    acked_at sb o ∨ pending (SendBuf.data sb) o ∨ in_flight evs o;
  td_sent f out i x : EvSent f out ∈ evs → out !! i = Some x →
    0 <= f ∧ accepted evs !! Z.to_nat (f + Z.of_nat i) = Some x
}.

Lemma acked_prefix sb o : send_wf sb → 0 <= o < SendBuf.ack_off sb → acked_at sb o.
Proof. intros Hwf Ho. apply prefix_in; [apply (sw_ranges sb Hwf)|done]. Qed.

(** A successful write is the one [write_run] describes. *)
Lemma write_ok_inv sb d fin n sb' :
  send_wf sb → SendBuf.error sb = None → SendBuf.len sb + zlen d <= u64_max →
  SendBuf.write d fin sb = (Ok n, sb') →
  write_accepted sb (ztake n d) (fin && (n =? zlen d)) sb' ∧
  (is_Some (SendBuf.fin_off sb) → d = [] ∧ fin = true ∧ n = 0).
Proof.
  intros Hwf He Hl Hw. pose proof (q_max _ _ (sw_queue sb Hwf)).
  destruct (Z.le_gt_cases (SendBuf.off sb + zlen d) u64_max) as [Ho|Ho].
  - pose proof (write_run sb d fin Hwf He Ho Hl) as Hr. cbv zeta in Hr.
    destruct (bool_decide (is_Some _) && _) eqn:Hlate in Hr; [congruence|]. destruct Hr as (sb1 & Hr & Hp).
    rewrite Hw in Hr. simplify_eq. split.
    + replace (Z.min _ _ =? zlen d) with (zlen d <=? SendBuf.max_data sb - SendBuf.off sb); [done|].
      destruct (Z.leb_spec (zlen d) (SendBuf.max_data sb - SendBuf.off sb));
        symmetry; [apply Z.eqb_eq|apply Z.eqb_neq]; lia.
    + intros Hs. rewrite bool_decide_eq_true_2 in Hlate by done.
      apply orb_false_iff in Hlate as [Hd Hf]. apply Z.ltb_ge in Hd.
      assert (d = []) as -> by (destruct d; [done|unfold zlen in Hd; cbn in Hd; lia]).
      split; [done|]. split; [by apply negb_false_iff|]. rewrite zlen_nil. lia.
  - unfold SendBuf.write in Hw. rewrite run_bind_get in Hw.
    unfold uadd, mbind, M_bind, lift in Hw. by rewrite (proj2 (Z.leb_gt _ _)) in Hw by lia.
Qed.

Lemma tracked_write evs sb d fin sb' :
  tracked evs sb → write_accepted sb d fin sb' → tracked (EvAccept d :: evs) sb'.
Proof.
  intros [Hwf He Ho Hc Hs Hse] [Hwf' Ho' Hem Hac _ He' _ Hc' Hp'].
  assert (∀ o x, accepted evs !! o = Some x → (accepted evs ++ d) !! o = Some x) as Hmono.
  { intros o x Hx. rewrite lookup_app_l; [done|]. by eapply lookup_lt_Some. }
  constructor; simpl; try done.
  - by rewrite He'.
  - by rewrite Ho', Ho, zlen_app.
  - intros o x [Hx|[Hle Hx]]%Hc'; [by apply Hmono, Hc|].
    rewrite lookup_app_r by (unfold zlen in Ho; lia). rewrite <- Hx. f_equal.
    unfold zlen in Ho. lia.
  - intros o Hlt. unfold acked_at. rewrite Hac, Hp'.
    destruct (decide (o < SendBuf.off sb)); [|right; left; right; lia].
    destruct (Hs o) as [?|[?|?]]; [lia|by left|right; left; by left|by do 2 right].
  - intros f out i x [[=]|Hin]%elem_of_cons Hx. destruct (Hse f out i x Hin Hx). auto.
Qed.

Lemma tracked_emit evs sb cap out fin sb' :
  tracked evs sb → 0 <= cap → SendBuf.emit cap sb = (Ok (out, fin), sb') →
  tracked (EvSent (SendBuf.off_front sb) out :: evs) sb'.
Proof.
  intros [Hwf He Ho Hc Hs Hse] Hcap Hem.
  destruct (send_emit_run sb cap Hwf Hcap) as (out1 & sb1 & Hrun & Hwf1 & _ & _ & _ & (E1 & _ & _ & E2 & E3)
    & _ & Hc1 & Ho1 & Hp1 & _).
  rewrite Hem in Hrun. injection Hrun as <- _ <-.
  assert (0 <= SendBuf.off_front sb) as Hf0.
  { destruct (off_front_spec _ sb (sw_queue sb Hwf)) as ([? _] & _). pose proof (sw_base sb Hwf). lia. }
  constructor; simpl; try done.
  - by rewrite E3.
  - by rewrite E1.
  - intros o x Hx%Hc1. auto.
  - intros o Hlt. rewrite E1 in Hlt. unfold acked_at. rewrite E2, Hp1.
    destruct (decide (SendBuf.off_front sb <= o < SendBuf.off_front sb + zlen out)); [by do 2 right; left|].
    destruct (Hs o Hlt) as [?|[?|?]]; [by left|right; left; by split|by do 3 right].
  - intros f out' i x [[= -> ->]|Hin]%elem_of_cons Hx; [|by eapply Hse].
    split; [done|]. by apply Hc, Ho1.
Qed.

Lemma tracked_ack evs sb o n sb' :
  tracked evs sb → ack_post sb o n sb' → tracked (EvAcked o n :: evs) sb'.
Proof.
  intros [Hwf He Ho Hc Hs Hse] [Hwf' Hac Hb Hc' Hp' (E1 & _ & _ & _ & E2)].
  constructor; simpl; try done.
  - by rewrite E2.
  - by rewrite E1.
  - intros i x [? _]%Hc'. auto.
  - intros i Hi. rewrite E1 in Hi. unfold acked_at. rewrite Hp'.
    destruct (decide (i < base sb')).
    + left. apply (acked_prefix sb' i Hwf'). lia.
    + destruct (Hs i Hi) as [?|[?|?]]; [left; apply Hac; by left|right; left; split; [done|lia]|auto].
  - intros f out i x [[=]|Hin]%elem_of_cons Hx. eauto.
Qed.

Lemma tracked_lost evs sb o n sb' :
  tracked evs sb → 0 <= o → 0 <= n → o + n <= u64_max →
  SendBuf.len sb + (SendBuf.off sb - base sb) <= u64_max →
  SendBuf.retransmit o n sb = (Ok (), sb') → tracked (EvLost o n :: evs) sb'.
Proof.
  intros [Hwf He Ho Hc Hs Hse] ? ? ? ? Hrt.
  destruct (retransmit_run sb o n Hwf) as (sb1 & Hrun & Hwf1 & Hb & Hf & Hc1 & Hp1); [done..|].
  rewrite Hrt in Hrun. injection Hrun as <-.
  assert (SendBuf.off sb' = SendBuf.off sb ∧ SendBuf.error sb' = SendBuf.error sb ∧
          SendBuf.acked sb' = SendBuf.acked sb) as (E1 & E2 & E3).
  { destruct sb, sb'. simpl in *. by injection Hf. }
  constructor; simpl; try done.
  - by rewrite E2.
  - by rewrite E1.
  - intros i x Hx%Hc1. auto.
  - intros i Hi. rewrite E1 in Hi. unfold acked_at. rewrite E3, Hp1.
    destruct (decide (i < SendBuf.ack_off sb)); [left; apply (acked_prefix sb i Hwf); lia|].
    pose proof (sw_base sb Hwf). destruct (decide (o <= i < o + n)).
    + right; left; right. lia.
    + destruct (Hs i Hi) as [?|[?|?]]; auto.
  - intros f out i x [[=]|Hin]%elem_of_cons Hx. eauto.
Qed.

Lemma credit_wf sb m :
  send_wf sb → m < u64_max → send_wf (SendBuf.set_max_data (Z.max (SendBuf.max_data sb) m) sb).
Proof.
  intros [[] ? ? ? ? ? ? ? ? ?] Hm. constructor; simpl; try done; try lia.
  constructor; simpl; try done. lia.
Qed.

Lemma run_tracked evs sb : send_run max_data evs sb → tracked evs sb.
Proof.
  induction 1 as [|evs sb ev sb' Hrun IH Hstep].
  { constructor; simpl; try done; try lia.
    - by apply new_send_wf.
    - by inversion 1.
    - by intros f out i x ?%not_elem_of_nil. }
  pose proof IH as [Hwf He _ _ _ _].
  destruct Hstep as [d fin n sb' Hl Hw|cap out fin sb' Hcap Hem|o n sb' Ho Hn Hs Hack|o n sb' Ho Hn Hm Hl Hrt|m sb' Hm Hup].
  - destruct (write_ok_inv sb d fin n sb' Hwf He Hl Hw) as [Hp _]. by eapply tracked_write.
  - by eapply tracked_emit.
  - destruct (ack_and_drop_run sb o n Hwf Ho Hn Hs) as (sb1 & Hrun1 & Hp).
    rewrite Hack in Hrun1. injection Hrun1 as <-. by eapply tracked_ack.
  - by eapply tracked_lost.
  - injection Hup as <-. destruct IH. constructor; simpl; try done.
    + by apply credit_wf.
    + intros f out i x [[=]|Hin]%elem_of_cons Hx. eauto.
Qed.
End send_runs.

(** ** Properties *)

(** C19. What is put on the wire is the stream the application wrote: in every
    run (writes, transmissions, acknowledgements, losses and retransmissions
    in any order) each transmitted piece carries the written bytes of the
    offsets it claims, and no offset beyond the peer's limit is ever used. *)
Theorem send_runs_faithful (max_data : Z) evs sb :
  0 <= max_data < u64_max → send_run max_data evs sb →
  send_wf sb ∧ SendBuf.off sb = zlen (accepted evs) ∧
  SendBuf.off sb <= SendBuf.max_data sb ∧
  ∀ f out, EvSent f out ∈ evs → ∀ i x, out !! i = Some x →
    0 <= f ∧ f + Z.of_nat i < SendBuf.off sb ∧
    accepted evs !! Z.to_nat (f + Z.of_nat i) = Some x.
Proof.
  intros Hm Hrun. destruct (run_tracked max_data Hm evs sb Hrun) as [Hwf _ Ho _ _ Hse].
  split_and!; try done; [apply (q_max _ _ (sw_queue sb Hwf))|].
  intros f out Hin i x Hx. destruct (Hse f out i x Hin Hx) as [? Ha].
  pose proof (lookup_lt_Some _ _ _ Ha). unfold zlen in Ho. split_and!; [done|lia|done].
Qed.

(** Three bytes are written and sent, the first one is lost and sent again. *)
Definition sample_send : list send_event :=
  [EvSent 0 [5]; EvLost 0 1; EvSent 0 [5; 6; 7]; EvAccept [5; 6; 7]].

Lemma sent_at sb f cap out fin sb' :
  0 <= cap → f = SendBuf.off_front sb → SendBuf.emit cap sb = (Ok (out, fin), sb') →
  send_step sb (EvSent f out) sb'.
Proof. intros ? -> ?. by eapply sstep_emit. Qed.

Lemma sample_send_run : ∃ sb, send_run 100 sample_send sb.
Proof.
  eexists. unfold sample_send.
  eapply srun_step; [eapply srun_step; [eapply srun_step; [eapply srun_step; [apply srun_new|]|]|]|].
  - apply (sstep_write _ [5; 6; 7] true 3); [vm_compute; congruence|cbv; reflexivity].
  - apply (sent_at _ 0 10 [5; 6; 7] true); [lia|reflexivity|cbv; reflexivity].
  - apply sstep_lost; [lia|lia|lia|vm_compute; congruence|cbv; reflexivity].
  - apply (sent_at _ 0 10 [5] false); [lia|reflexivity|cbv; reflexivity].
Qed.

Lemma send_runs_faithful_witness : ∃ sb, send_run 100 sample_send sb ∧ SendBuf.off sb = 3.
Proof.
  destruct sample_send_run as [sb Hrun]. exists sb. split; [exact Hrun|].
  destruct (send_runs_faithful 100 sample_send sb) as (_ & Ho & _); [lia|exact Hrun|].
  exact Ho.
Defined.

(** C15. No byte is ever lost: at every moment of every run, each written
    offset is acknowledged, or queued for (re)transmission, or in flight, that
    is sent and not declared lost since. *)
Theorem send_never_loses (max_data : Z) evs sb o :
  0 <= max_data < u64_max → send_run max_data evs sb → 0 <= o < SendBuf.off sb →
  acked_at sb o ∨ pending (SendBuf.data sb) o ∨ in_flight evs o.
Proof. intros Hm Hrun Ho. by destruct (run_tracked max_data Hm evs sb Hrun) as [_ _ _ _ Hs _]; auto. Qed.

Lemma send_never_loses_witness :
  ∃ sb, send_run 100 sample_send sb ∧
    (acked_at sb 2 ∨ pending (SendBuf.data sb) 2 ∨ in_flight sample_send 2).
Proof.
  destruct sample_send_run as [sb Hrun]. exists sb. split; [exact Hrun|].
  apply (send_never_loses 100 sample_send sb 2); [lia|exact Hrun|].
  destruct (run_tracked 100 ltac:(lia) _ sb Hrun) as [_ _ Ho _ _ _]. rewrite Ho.
  unfold zlen. simpl. lia.
Defined.

(** A write takes as many bytes as the peer's limit leaves room for,
    appends exactly those to the stream and queues them; a finished stream
    accepts only an empty finishing write again.  The final size is recorded
    only when the whole input fits. *)
Theorem send_write_spec (sb : SendBuf.t) (d : list Z) (fin : bool) :
  send_wf sb → SendBuf.error sb = None →
  SendBuf.off sb + zlen d <= u64_max → SendBuf.len sb + zlen d <= u64_max →
  let n := Z.min (SendBuf.max_data sb - SendBuf.off sb) (zlen d) in
  if bool_decide (is_Some (SendBuf.fin_off sb)) && ((0 <? zlen d) || negb fin)
  then SendBuf.write d fin sb = (Err FinalSize, sb)
  else ∃ sb', SendBuf.write d fin sb = (Ok n, sb') ∧ send_wf sb' ∧
    SendBuf.off sb' = SendBuf.off sb + n ∧
    SendBuf.fin_off sb' =
      (if fin && (n =? zlen d) then Some (SendBuf.off sb') else SendBuf.fin_off sb) ∧
    (∀ o x, content_at (SendBuf.data sb') o x ↔ content_at (SendBuf.data sb) o x ∨
       (SendBuf.off sb <= o ∧ ztake n d !! Z.to_nat (o - SendBuf.off sb) = Some x)) ∧
    (∀ o, pending (SendBuf.data sb') o ↔
       pending (SendBuf.data sb) o ∨ SendBuf.off sb <= o < SendBuf.off sb + n).
Proof.
  intros Hwf He Ho Hl n. pose proof (write_run sb d fin Hwf He Ho Hl) as Hr. cbv zeta in Hr.
  fold n in Hr. destruct (_ && _) in Hr |- *; [done|]. destruct Hr as (sb' & Hrun & [Hwf' Ho' _ _ _ _ Hf' Hc' Hp']).
  pose proof (q_max _ _ (sw_queue sb Hwf)). pose proof (zlen_nonneg d).
  assert (zlen (ztake n d) = n) as Hn by (apply zlen_ztake; lia). rewrite Hn in Ho'.
  exists sb'. rewrite Ho' in Hp'. split_and!; try done.
  rewrite Hf'. replace (n =? zlen d) with (zlen d <=? SendBuf.max_data sb - SendBuf.off sb); [done|].
  destruct (Z.leb_spec (zlen d) (SendBuf.max_data sb - SendBuf.off sb));
    symmetry; [apply Z.eqb_eq|apply Z.eqb_neq]; lia.
Qed.

Lemma send_write_spec_witness :
  ∃ sb', SendBuf.write [1; 2; 3] true (SendBuf.new 2) = (Ok 2, sb') ∧
    SendBuf.fin_off sb' = None.
Proof.
  assert (send_wf (SendBuf.new 2)) as Hwf by (apply new_send_wf; lia).
  pose proof (send_write_spec (SendBuf.new 2) [1; 2; 3] true Hwf eq_refl
                ltac:(vm_compute; congruence) ltac:(vm_compute; congruence)) as H.
  cbv zeta in H. change (bool_decide _ && _) with false in H. cbv iota in H.
  destruct H as (sb' & Hrun & _ & _ & Hf & _). exists sb'. split; [exact Hrun|exact Hf].
Defined.

(** A transmission takes from the queue the longest run of queued bytes
    that starts at the first queued offset and fits, never beyond the peer's
    limit; it removes exactly those offsets from the queue, keeps the bytes
    for retransmission, makes progress when anything is queued, and carries
    the end-of-stream flag exactly when it reaches the final size. *)
Theorem send_emit_spec (sb : SendBuf.t) (n : Z) :
  send_wf sb → 0 <= n →
  let front := SendBuf.off_front sb in
  ∃ out fin sb', SendBuf.emit n sb = (Ok (out, fin), sb') ∧ send_wf sb' ∧ zlen out <= n ∧
    front + zlen out <= SendBuf.max_data sb ∧
    (fin = true ↔ SendBuf.fin_off sb = Some (front + zlen out)) ∧
    (∀ i x, out !! i = Some x → content_at (SendBuf.data sb) (front + Z.of_nat i) x) ∧
    (∀ o x, content_at (SendBuf.data sb') o x ↔ content_at (SendBuf.data sb) o x) ∧
    (∀ o, pending (SendBuf.data sb') o ↔
       pending (SendBuf.data sb) o ∧ ¬ front <= o < front + zlen out) ∧
    (zlen out = n ∨ ¬ pending (SendBuf.data sb') (front + zlen out)) ∧
    (∀ o, pending (SendBuf.data sb) o → 0 < n → front <= o ∧ out ≠ []).
Proof.
  intros Hwf Hn front.
  destruct (send_emit_run sb n Hwf Hn) as (out & sb' & Hrun & Hwf' & _ & Hle & _ & _ & Hend & Hc & Ho & Hp & Ha).
  fold front in Hend, Ho, Hp, Ha. pose proof (q_max _ _ (sw_queue sb Hwf)).
  exists out, (bool_decide (SendBuf.fin_off sb = Some (front + zlen out))), sb'.
  split_and!; try done; [lia|apply bool_decide_eq_true|].
  intros o Hpo Hpos. destruct (off_front_spec _ sb (sw_queue sb Hwf)) as (Hfr & Hmin & Hpe).
  fold front in Hfr, Hmin, Hpe. split; [by apply Hmin|]. intros ->.
  rewrite zlen_nil, Z.add_0_r in *. destruct Ha as [?|Hnp]; [lia|]. destruct Hnp.
  apply Hp. pose proof (chain_pending _ _ _ _ (q_chain _ _ (sw_queue sb Hwf)) Hpo).
  pose proof (Hmin o Hpo). split; [apply Hpe; lia|lia].
Qed.

Lemma send_emit_spec_witness :
  ∃ out fin sb', SendBuf.emit 2 (SendBuf.write [1; 2; 3] true (SendBuf.new 9)).2 =
    (Ok (out, fin), sb') ∧ out = [1; 2] ∧ fin = false.
Proof.
  assert (send_wf (SendBuf.write [1; 2; 3] true (SendBuf.new 9)).2) as Hwf.
  { pose proof (write_run (SendBuf.new 9) [1; 2; 3] true (new_send_wf 9 ltac:(lia)) eq_refl
      ltac:(vm_compute; congruence) ltac:(vm_compute; congruence)) as H. cbv zeta in H.
    change (bool_decide _ && _) with false in H. cbv iota in H.
    destruct H as (sb' & -> & Hp). apply Hp. }
  destruct (send_emit_spec _ 2 Hwf ltac:(lia)) as (out & fin & sb' & Hrun & _).
  exists out, fin, sb'. split; [exact Hrun|]. vm_compute in Hrun. by simplify_eq.
Defined.

(** A reset cuts the stream at the largest offset ever sent: that offset
    is reported as the final size together with the number of bytes never
    sent, nothing stays queued, and the send side counts as complete.
    Stopping and shutting down reset once and then report [Done]. *)
Theorem send_reset_spec (sb : SendBuf.t) (code : Z) :
  send_wf sb → SendBuf.error sb = None → SendBuf.is_shut sb = false →
  let answer := (SendBuf.emit_off sb, SendBuf.off sb - SendBuf.emit_off sb) in
  ∃ sb1 sb2,
    SendBuf.stop code sb = (Ok answer, sb1) ∧ SendBuf.shutdown sb = (Ok answer, sb2) ∧
    (∀ sb', sb' = sb1 ∨ sb' = sb2 → send_wf sb' ∧ SendBuf.off sb' = SendBuf.emit_off sb ∧
       SendBuf.is_fin sb' = true ∧ SendBuf.is_complete sb' = true ∧
       (∀ o, ¬ pending (SendBuf.data sb') o)) ∧
    SendBuf.cap sb1 = Err (StreamStopped code) ∧
    SendBuf.stop code sb1 = (Err Done, sb1) ∧ SendBuf.shutdown sb2 = (Err Done, sb2).
Proof.
  intros Hwf He Hsh answer.
  destruct (send_reset_run sb Hwf) as (sb' & Hrun & Hwf' & Hd & Ho & _ & Hf & Hi & He' & Hs' & _).
  assert (send_wf (SendBuf.set_shutdown true sb)) as Hwfs.
  { destruct Hwf as [[] ? ? ? ? ? ? ? ? ?]. constructor; try done. }
  destruct (send_reset_run _ Hwfs) as (sb2 & Hrun2 & Hwf2 & Hd2 & Ho2 & _ & Hf2 & Hi2 & He2 & Hs2 & _).
  exists (SendBuf.set_error (Some code) sb'), sb2. simpl in *.
  assert (∀ s, RangeSet.iter (SendBuf.acked s) = [(0, SendBuf.emit_off sb)] →
               SendBuf.fin_off s = Some (SendBuf.emit_off sb) → SendBuf.is_complete s = true) as Hcomp.
  { intros s Hs Hfs. unfold SendBuf.is_complete, RangeSet.eq_range. rewrite Hfs, Hs.
    assert (RangeSet.len (SendBuf.acked s) = 1) as -> by
      (destruct (SendBuf.acked s); simpl in *; by rewrite Hs).
    simpl. by rewrite !Z.eqb_refl. }
  split_and!; try done.
  - unfold SendBuf.stop. rewrite run_bind_get, He, bool_decide_eq_false_2 by by intros [? ?].
    by rewrite (run_bind_ok _ _ _ _ _ Hrun), run_bind_modify.
  - unfold SendBuf.shutdown. rewrite run_bind_get, Hsh, run_bind_modify. done.
  - intros s [-> | ->]; (split; [|split; [|split; [|split]]]); try done.
    + destruct Hwf' as [[] ? ? ? ? ? ? ? ? ?]. by constructor.
    + apply bool_decide_eq_true. simpl. by rewrite Hf, Ho.
    + by apply Hcomp.
    + simpl. rewrite Hd. apply pending_nil.
    + apply bool_decide_eq_true. by rewrite Hf2, Ho2.
    + by apply Hcomp.
    + rewrite Hd2. apply pending_nil.
  - unfold SendBuf.shutdown. by rewrite run_bind_get, Hs2.
Qed.

Lemma send_reset_spec_witness :
  ∃ sb1, SendBuf.stop 7 (SendBuf.new 9) = (Ok (0, 0), sb1) ∧
    SendBuf.cap sb1 = Err (StreamStopped 7).
Proof.
  destruct (send_reset_spec (SendBuf.new 9) 7) as (sb1 & sb2 & Hs & _ & _ & Hc & _).
  - apply new_send_wf. lia.
  - done.
  - done.
  - exists sb1. split; [exact Hs|exact Hc].
Defined.

(** The counter [len] drifts: bytes queued for retransmission and then
    acknowledged are dropped without being subtracted. *)
Example len_drift :
  let '(_, sb) := (SendBuf.write [1; 2; 3] false;;'(n, _) ← SendBuf.emit 3;
    SendBuf.retransmit 0 3;; SendBuf.ack_and_drop 0 3) (SendBuf.new 9) in
  SendBuf.data sb = [] ∧ SendBuf.len sb = 3.
Proof. vm_compute. done. Qed.
