(* ===== verification/Delivery.v ===== *)
(** * A stream from end to end: [SendBuf] and [RecvBuf] over a network

    The send buffer of one endpoint and the receive buffer of the other, with
    a network between them that delays, reorders, repeats and loses the STREAM
    frames it is given, and a sender that may take any frame for lost.  The
    pair refines a pipe: a queue of bytes with an end. *)
From stdpp Require Import list.
From S2P Require Import Prelude OctetsLib FlowCtl RangeBufs Ranges RecvBufs SendBufs.

(** What the two applications see. *)
Inductive action := Write (d : list Z) (fin : bool) | Read (out : list Z) (fin : bool).

(** ** The specification *)
Module Pipe.
Record t := mk { queue : list Z; closed : bool }.
Definition empty : t := mk [] false.

(** After the end only an empty write that ends the stream again is accepted;
    the reader is told of the end only when nothing is left. *)
Definition step (a : action) (p : t) : option t :=
  match a with
  | Write d fin =>
      if closed p && negb (bool_decide (d = []) && fin) then None else Some (mk (queue p ++ d) (closed p || fin))
  | Read out fin =>
      if bool_decide (take (length out) (queue p) = out) &&
         (negb fin || (closed p && bool_decide (length out = length (queue p))))
      then Some (mk (drop (length out) (queue p)) (closed p)) else None
  end.

Fixpoint run (tr : list action) (p : t) : option t :=
  match tr with [] => Some p | a :: tr => step a p ≫= run tr end.

Lemma run_app tr1 tr2 p : run (tr1 ++ tr2) p = run tr1 p ≫= run tr2.
Proof. revert p. induction tr1 as [|a tr1 IH]; intros p; cbn; [done|]. destruct (step a p); cbn; auto. Qed.
End Pipe.

(** What the pipe promises: the bytes read and those still in it are the bytes
    written. *)
Definition written (tr : list action) : list Z := tr ≫= λ a, match a with Write d _ => d | Read _ _ => [] end.
Definition obtained (tr : list action) : list Z := tr ≫= λ a, match a with Write _ _ => [] | Read out _ => out end.

Lemma pipe_fifo tr p p' :
  Pipe.run tr p = Some p' → Pipe.queue p ++ written tr = obtained tr ++ Pipe.queue p'.
Proof.
  unfold written, obtained. revert p. induction tr as [|a tr IH]; intros p Hr; cbn in *; [injection Hr as ->; by rewrite app_nil_r|].
  destruct (Pipe.step a p) as [p1|] eqn:Hs; [|done]. cbn in Hr. specialize (IH p1 Hr).
  destruct a as [d fin|out fin]; cbn in Hs.
  - case_match; [done|]. injection Hs as <-. cbn in IH. by rewrite app_assoc.
  - case_bool_decide as Ho; [|done]. cbn in Hs. case_match; [|done]. injection Hs as <-. cbn in IH.
    rewrite <- app_assoc, <- IH, app_assoc. cbn. rewrite <- (take_drop (length out) (Pipe.queue p)) at 1. by rewrite Ho, app_nil_r, <- app_assoc.
Qed.

(** ** The two buffers and the network *)
Module Link.
Record frame := mk_frame { f_off : Z; f_data : list Z; f_fin : bool }.
Definition f_end (f : frame) : Z := f_off f + zlen (f_data f).

(** [sent] are all frames that were sent, [flying] those not declared lost
    since, [arrived] those that the receiver got. *)
Record t := mk {
  snd : SendBuf.t;
  rcv : RecvBuf.t;
  sent : list frame;
  flying : list frame;
  arrived : list frame
}.

Definition start (max_data max_window : Z) : t := mk (SendBuf.new max_data) (RecvBuf.new max_data max_window) [] [] [].

(** The sender learns a limit that the receiver announced some time ago.  The
    conditions on [len] say that its counter of queued bytes does not overflow. *)
Inductive step (c : t) : list action → t → Prop :=
| step_write d fin n sb' :
    SendBuf.len (snd c) + zlen d <= u64_max → SendBuf.write d fin (snd c) = (Ok n, sb') →
    step c [Write (ztake n d) (fin && (n =? zlen d))] (mk sb' (rcv c) (sent c) (flying c) (arrived c))
| step_send cap out fin sb' :
    0 <= cap → SendBuf.emit cap (snd c) = (Ok (out, fin), sb') →
    let f := mk_frame (SendBuf.off_front (snd c)) out fin in
    step c [] (mk sb' (rcv c) (f :: sent c) (f :: flying c) (arrived c))
| step_arrive f rb' :
    f ∈ sent c → RecvBuf.write (RangeBuf.from (f_data f) (f_off f) (f_fin f)) (rcv c) = (Ok (), rb') →
    step c [] (mk (snd c) rb' (sent c) (flying c) (f :: arrived c))
| step_ack f sb' :
    f ∈ arrived c → SendBuf.ack_and_drop (f_off f) (zlen (f_data f)) (snd c) = (Ok (), sb') →
    step c [] (mk sb' (rcv c) (sent c) (flying c) (arrived c))
| step_lost l1 f l2 sb' :
    flying c = l1 ++ f :: l2 →
    SendBuf.len (snd c) + (SendBuf.off (snd c) - base (snd c)) <= u64_max →
    SendBuf.retransmit (f_off f) (zlen (f_data f)) (snd c) = (Ok (), sb') →
    step c [] (mk sb' (rcv c) (sent c) (l1 ++ l2) (arrived c))
| step_update now rb' :
    RecvBuf.almost_full (rcv c) = Ok true → RecvBuf.update_max_data now (rcv c) = (Ok (), rb') →
    step c [] (mk (snd c) rb' (sent c) (flying c) (arrived c))
| step_credit m sb' :
    m <= RecvBuf.max_data (rcv c) → m < u64_max → SendBuf.update_max_data m (snd c) = (Ok (), sb') →
    step c [] (mk sb' (rcv c) (sent c) (flying c) (arrived c))
| step_read cap out fin rb' :
    0 <= cap → RecvBuf.emit cap (rcv c) = (Ok (out, fin), rb') →
    step c [Read out fin] (mk (snd c) rb' (sent c) (flying c) (arrived c)).

Inductive run (c0 : t) : list action → t → Prop :=
| run_start : run c0 [] c0
| run_step tr c a c' : run c0 tr c → step c a c' → run c0 (tr ++ a) c'.
End Link.

(** ** The simulation *)
Section link.
Import Link.
Implicit Types (c : Link.t) (f : Link.frame) (w : list Z).

Definition covers f (o : Z) : Prop := f_off f <= o < f_end f.

(** [w] is what was written so far. *)
Record linked w c : Prop := {
  lk_send : ∃ evs, tracked evs (snd c) ∧ accepted evs = w ∧
    (∀ f, f ∈ sent c → EvSent (f_off f) (f_data f) ∈ evs) ∧
    (∀ o, in_flight evs o → ∃ f, f ∈ flying c ∧ covers f o);
  lk_recv : ∃ evs, tracks w evs (rcv c) ∧
    (∀ f, f ∈ arrived c → EvWrite (RangeBuf.from (f_data f) (f_off f) (f_fin f)) ∈ evs);
  lk_flying f : f ∈ flying c ∨ f ∈ arrived c → f ∈ sent c;
  lk_frame f : f ∈ sent c → 0 <= f_off f ∧ f_end f <= SendBuf.emit_off (snd c) ∧
    (f_fin f = true → SendBuf.fin_off (snd c) = Some (f_end f));
  lk_acked o : acked_at (snd c) o → ∃ f, f ∈ arrived c ∧ covers f o;
  lk_fin n : RecvBuf.fin_off (rcv c) = Some n → SendBuf.fin_off (snd c) = Some n;
  lk_limit : SendBuf.max_data (snd c) <= RecvBuf.max_data (rcv c) ∧ RecvBuf.len (rcv c) <= SendBuf.off (snd c)
}.

Definition refines w c (p : Pipe.t) : Prop := linked w c ∧
  Pipe.queue p = drop (Z.to_nat (RecvBuf.off (rcv c))) w ∧
  Pipe.closed p = bool_decide (is_Some (SendBuf.fin_off (snd c))).

(** The bytes of a frame are those that were written at its offsets. *)
Lemma frame_holds w c f o x :
  linked w c → f ∈ sent c → RangeBuf.holds (RangeBuf.from (f_data f) (f_off f) (f_fin f)) o x →
  w !! Z.to_nat o = Some x.
Proof.
  intros [(evs & [_ _ _ _ _ Hse] & <- & Hev & _) _ _ _ _ _ _] Hf [Ho Hx]%RangeBuf.holds_from.
  destruct (Hse _ _ _ _ (Hev f Hf) Hx) as [? Hw]. rewrite <- Hw. f_equal. lia.
Qed.

(** Whatever was sent is accepted. *)
Lemma frame_accepted w c f :
  linked w c → f ∈ sent c → let buf := RangeBuf.from (f_data f) (f_off f) (f_fin f) in
  RangeBuf.wf buf ∧ RangeBuf.fresh buf ∧ accepts (rcv c) buf.
Proof.
  intros Hl Hf buf. destruct (lk_frame _ _ Hl f Hf) as (H0 & He & Hfin). unfold f_end in *.
  destruct (lk_send _ _ Hl) as (evs & [Hwf _ _ _ _ _] & _). destruct (lk_limit _ _ Hl) as [Hm Hlen].
  pose proof (sw_off _ Hwf). pose proof (sw_max _ Hwf). pose proof (q_max _ _ (sw_queue _ Hwf)).
  assert (RangeBuf.max_off buf = f_off f + zlen (f_data f)) as Emax by apply RangeBuf.max_off_from.
  split; [apply RangeBuf.from_wf; lia|]. split; [apply RangeBuf.from_fresh|].
  unfold accepts. rewrite Emax. change (RangeBuf.fin buf) with (f_fin f). split_and!.
  - lia.
  - intros n Hn%(lk_fin _ _ Hl). split; [pose proof (sw_fin _ Hwf n Hn); lia|].
    intros Ht%Hfin. congruence.
  - intros Ht%Hfin. pose proof (sw_fin _ Hwf _ Ht). lia.
Qed.

Lemma take_pointwise {A} (out q : list A) : (∀ i x, out !! i = Some x → q !! i = Some x) → take (length out) q = out.
Proof.
  revert q. induction out as [|y out IH]; intros q Hq; [done|]. pose proof (Hq O y eq_refl) as Hy.
  destruct q as [|z q]; [done|]. cbn in Hy |- *. injection Hy as ->. f_equal. apply IH. intros i x Hx. by apply (Hq (S i)).
Qed.

Lemma tracks_grow w d evs rb : tracks w evs rb → tracks (w ++ d) evs rb.
Proof.
  intros [Hwf He Hd Ho Hout Hst Hs Hf]. pose proof (recv_off _ Hwf). constructor; try done.
  - rewrite zlen_app. pose proof (zlen_nonneg d). lia.
  - rewrite take_app_le by (unfold zlen in Ho; lia). done.
  - intros o x Hx%Hst. rewrite lookup_app_l; [done|]. by eapply lookup_lt_Some.
Qed.

(** *** One step *)

Lemma linked_start max_data max_window : 0 <= max_data < u64_max → linked [] (Link.start max_data max_window).
Proof.
  intros Hm. constructor; cbn; try done.
  - exists []. split; [apply (run_tracked max_data Hm), srun_new|]. split_and!; try done. by intros f ?%not_elem_of_nil.
  - exists []. split; [apply (run_tracks max_data max_window ltac:(lia)); [apply run_new|constructor]|]. by intros f ?%not_elem_of_nil.
  - intros f [H|H]; by apply not_elem_of_nil in H.
  - by intros f ?%not_elem_of_nil.
  - intros o Ho. unfold acked_at in Ho. cbn in Ho. by apply in_ranges_nil in Ho.
Qed.

Lemma linked_write w c d fin n sb' :
  linked w c → SendBuf.len (snd c) + zlen d <= u64_max → SendBuf.write d fin (snd c) = (Ok n, sb') →
  linked (w ++ ztake n d) (mk sb' (rcv c) (sent c) (flying c) (arrived c)) ∧
  SendBuf.fin_off sb' = (if fin && (n =? zlen d) then Some (SendBuf.off sb') else SendBuf.fin_off (snd c)) ∧
  (is_Some (SendBuf.fin_off (snd c)) → d = [] ∧ fin = true ∧ n = 0).
Proof.
  intros [(evs & Ht & <- & Hev & Hfl) (evr & Hr & Har) Hin Hf Hack Hfin [Hm Hlen]] Hroom Hw.
  pose proof Ht as [Hwf He _ _ _ _]. destruct (write_ok_inv _ _ _ _ _ Hwf He Hroom Hw) as [Hp Hlate].
  pose proof Hp as [Hwf' Ho Hem Hac Hmax _ Hf' _ _]. split; [|by split].
  assert (∀ m, SendBuf.fin_off (snd c) = Some m → SendBuf.fin_off sb' = Some m) as Hkeep.
  { intros m Hs. rewrite Hf'. destruct (fin && _); [|done]. destruct (Hlate ltac:(by eexists)) as [-> _].
    rewrite Ho, (sw_fin _ Hwf m Hs). unfold ztake. by rewrite take_nil, zlen_nil, Z.add_0_r. }
  constructor; cbn.
  - exists (EvAccept (ztake n d) :: evs). split; [by eapply tracked_write|]. split_and!; [done| |done].
    intros f Hs. right. by apply Hev.
  - exists evr. split; [by apply tracks_grow|done].
  - exact Hin.
  - intros f Hs. destruct (Hf f Hs) as (? & ? & Hff). rewrite Hem. split_and!; [done|done|auto].
  - unfold acked_at. rewrite Hac. exact Hack.
  - auto.
  - rewrite Hmax, Ho. pose proof (zlen_nonneg (ztake n d)). lia.
Qed.

Lemma linked_send w c cap out fin sb' :
  linked w c → 0 <= cap → SendBuf.emit cap (snd c) = (Ok (out, fin), sb') →
  let f := mk_frame (SendBuf.off_front (snd c)) out fin in
  linked w (mk sb' (rcv c) (f :: sent c) (f :: flying c) (arrived c)) ∧ SendBuf.fin_off sb' = SendBuf.fin_off (snd c).
Proof.
  intros [(evs & Ht & <- & Hev & Hfl) (evr & Hr & Har) Hin Hf Hack Hfin [Hm Hlen]] Hcap He f.
  pose proof Ht as [Hwf _ _ _ _ _].
  destruct (send_emit_run _ cap Hwf Hcap) as (out1 & sb1 & Hrun & Hwf1 & _ & _ & Hem & (E1 & E2 & E3 & E4 & _) & Hle & _).
  rewrite He in Hrun. injection Hrun as <- Efin <-. split; [|done].
  pose proof (tracked_emit _ _ _ _ _ _ Ht Hcap He) as Ht1.
  constructor; cbn; unfold acked_at; rewrite ?E1, ?E2, ?E3, ?E4; try done.
  - exists (EvSent (f_off f) (f_data f) :: evs). split; [exact Ht1|]. split_and!; [done| |].
    + intros g [-> |Hg]%elem_of_cons; [by left|right; auto].
    + intros o [Ho|(g & Hg & Hc)%Hfl]; [exists f; split; [by left|exact Ho]|exists g; split; [by right|done]].
  - by exists evr.
  - intros g [[-> |Hg]%elem_of_cons|Hg]; [by left|right; auto..].
  - destruct (off_front_spec _ _ (sw_queue _ Hwf)) as ([? _] & _). pose proof (sw_base _ Hwf).
    intros g [-> |Hg]%elem_of_cons.
    + unfold f_end. cbn. split_and!; [lia|lia|]. intros ->. symmetry in Efin. by apply bool_decide_eq_true in Efin.
    + destruct (Hf g Hg) as (? & ? & ?). split_and!; [done|lia|done].
Qed.

Lemma linked_arrive w c f rb' :
  linked w c → f ∈ sent c → RecvBuf.write (RangeBuf.from (f_data f) (f_off f) (f_fin f)) (rcv c) = (Ok (), rb') →
  linked w (mk (snd c) rb' (sent c) (flying c) (f :: arrived c)) ∧ RecvBuf.off rb' = RecvBuf.off (rcv c).
Proof.
  intros Hl Hs Hw. destruct (frame_accepted w c f Hl Hs) as (Hb & Hfr & Hacc). pose proof (frame_holds w c f) as Hholds.
  set (buf := RangeBuf.from _ _ _) in *. pose proof Hl as [Hsend (evr & Hr & Har) Hin Hf Hack Hfin [Hm Hlen]].
  destruct (accepted_chunk _ _ _ (tr_wf _ _ _ Hr) Hb Hfr Hw) as [_ Hp]. split; [|apply Hp].
  pose proof (tracks_write w evr _ buf _ Hr (λ o x, Hholds o x Hl Hs) Hb Hacc Hp) as Hr1.
  destruct Hp as [Hwf' _ Hlen' Hfin' Hflow _ _ _]. destruct Hsend as (evs & Ht & Hw' & Hev & Hfl).
  destruct (Hf f Hs) as (H0 & He & Hff). pose proof (sw_off _ (td_wf _ _ Ht)).
  constructor; cbn; try done.
  - by exists evs.
  - exists (evr ++ [EvWrite buf]). split; [done|]. intros g [-> |Hg]%elem_of_cons; apply elem_of_app; [right; by left|left; auto].
  - intros g [Hg|[-> |Hg]%elem_of_cons]; auto.
  - intros o (g & Hg & Hc)%Hack. exists g. split; [by right|done].
  - intros n. rewrite Hfin'. change (RangeBuf.fin buf) with (f_fin f). destruct (f_fin f) eqn:Ef; [|apply Hfin].
    intros [= <-]. rewrite (Hff eq_refl). unfold buf. by rewrite RangeBuf.max_off_from.
  - unfold RecvBuf.max_data in *. rewrite Hflow, Hlen'. split; [done|]. unfold f_end in He.
    assert (RangeBuf.max_off buf = f_off f + zlen (f_data f)) as -> by apply RangeBuf.max_off_from.
    destruct (RangeBuf.is_empty buf && _); lia.
Qed.

Lemma linked_ack w c f sb' :
  linked w c → f ∈ arrived c → SendBuf.ack_and_drop (f_off f) (zlen (f_data f)) (snd c) = (Ok (), sb') →
  linked w (mk sb' (rcv c) (sent c) (flying c) (arrived c)) ∧ SendBuf.fin_off sb' = SendBuf.fin_off (snd c).
Proof.
  intros [(evs & Ht & <- & Hev & Hfl) Hrecv Hin Hf Hack Hfin [Hm Hlen]] Ha Hrun.
  destruct (Hf f (Hin f (or_intror Ha))) as (H0 & He & _). unfold f_end in He.
  destruct (ack_and_drop_run _ _ _ (td_wf _ _ Ht) H0 (zlen_nonneg (f_data f)) He) as (sb1 & Hrun1 & Hp).
  rewrite Hrun in Hrun1. injection Hrun1 as <-. pose proof Hp as [_ Hac _ _ _ (E1 & E2 & E3 & E4 & _)].
  split; [|done]. constructor; cbn; rewrite ?E1, ?E2, ?E3, ?E4; try done.
  - exists (EvAcked (f_off f) (zlen (f_data f)) :: evs). split; [by eapply tracked_ack|]. split_and!; [done| |done].
    intros g Hg. right. auto.
  - intros o [Ho|Ho]%Hac; [by apply Hack|by exists f].
Qed.

Lemma linked_lost w c l1 f l2 sb' :
  linked w c → flying c = l1 ++ f :: l2 →
  SendBuf.len (snd c) + (SendBuf.off (snd c) - base (snd c)) <= u64_max →
  SendBuf.retransmit (f_off f) (zlen (f_data f)) (snd c) = (Ok (), sb') →
  linked w (mk sb' (rcv c) (sent c) (l1 ++ l2) (arrived c)) ∧ SendBuf.fin_off sb' = SendBuf.fin_off (snd c).
Proof.
  intros [(evs & Ht & <- & Hev & Hfl) Hrecv Hin Hf Hack Hfin [Hm Hlen]] El Hroom Hrun.
  assert (f ∈ sent c) as Hs by (apply Hin; left; rewrite El; apply elem_of_app; right; by left).
  destruct (Hf f Hs) as (H0 & He & _). unfold f_end in He. pose proof Ht as [Hwf _ _ _ _ _].
  pose proof (sw_off _ Hwf). pose proof (q_max _ _ (sw_queue _ Hwf)). pose proof (sw_max _ Hwf).
  assert (f_off f + zlen (f_data f) <= u64_max) as Hu by lia.
  pose proof (tracked_lost _ _ _ _ _ Ht H0 (zlen_nonneg _) Hu Hroom Hrun) as Ht1.
  destruct (retransmit_run _ _ _ Hwf H0 (zlen_nonneg (f_data f)) Hu Hroom) as (sb1 & Hrun1 & _ & _ & Hfr & _).
  rewrite Hrun in Hrun1. injection Hrun1 as <-.
  assert (SendBuf.emit_off sb' = SendBuf.emit_off (snd c) ∧ SendBuf.fin_off sb' = SendBuf.fin_off (snd c) ∧
    SendBuf.acked sb' = SendBuf.acked (snd c) ∧ SendBuf.max_data sb' = SendBuf.max_data (snd c) ∧
    SendBuf.off sb' = SendBuf.off (snd c)) as (E1 & E2 & E3 & E4 & E5).
  { destruct (snd c), sb'. cbn in *. by injection Hfr. }
  split; [|done]. constructor; cbn; unfold acked_at; rewrite ?E1, ?E2, ?E3, ?E4, ?E5; try done.
  - exists (EvLost (f_off f) (zlen (f_data f)) :: evs). split; [done|]. split_and!; [done|intros g Hg; right; auto|].
    intros o [Hno (g & Hg & Hc)%Hfl]. exists g. split; [|done]. rewrite El in Hg.
    apply elem_of_app in Hg as [Hg|[-> |Hg]%elem_of_cons]; apply elem_of_app; [by left|done|by right].
  - intros g [Hg|Hg]; apply Hin; [left|by right]. rewrite El. apply elem_of_app in Hg as [Hg|Hg]; apply elem_of_app; [by left|].
    right. by right.
Qed.

Lemma linked_update w c now rb' :
  linked w c → RecvBuf.almost_full (rcv c) = Ok true → RecvBuf.update_max_data now (rcv c) = (Ok (), rb') →
  linked w (mk (snd c) rb' (sent c) (flying c) (arrived c)) ∧ RecvBuf.off rb' = RecvBuf.off (rcv c).
Proof.
  intros [Hsend (evr & Hr & Har) Hin Hf Hack Hfin [Hm Hlen]] Haf Hup.
  destruct (update_raises _ _ _ (tr_wf _ _ _ Hr) Haf Hup) as (_ & Hup' & _ & Eo & El & Ef & _). split; [|done].
  constructor; cbn; rewrite ?Ef, ?El; try done; [|lia].
  exists (evr ++ [EvUpdate]). split; [by eapply tracks_update|]. intros g Hg. apply elem_of_app. left. auto.
Qed.

Lemma linked_credit w c m sb' :
  linked w c → m <= RecvBuf.max_data (rcv c) → m < u64_max → SendBuf.update_max_data m (snd c) = (Ok (), sb') →
  linked w (mk sb' (rcv c) (sent c) (flying c) (arrived c)) ∧ SendBuf.fin_off sb' = SendBuf.fin_off (snd c).
Proof.
  intros [(evs & Ht & <- & Hev & Hfl) Hrecv Hin Hf Hack Hfin [Hm Hlen]] Hmr Hmu [= <-]. split; [|done].
  constructor; cbn; try done; [|lia]. exists evs. split; [|done].
  destruct Ht. constructor; cbn; try done. by apply credit_wf.
Qed.

Lemma linked_read w c cap out fin rb' :
  linked w c → 0 <= cap → RecvBuf.emit cap (rcv c) = (Ok (out, fin), rb') →
  linked w (mk (snd c) rb' (sent c) (flying c) (arrived c)) ∧
  RecvBuf.off rb' = RecvBuf.off (rcv c) + zlen out ∧ fin = RecvBuf.is_fin rb' ∧
  RecvBuf.fin_off rb' = RecvBuf.fin_off (rcv c) ∧
  (∀ i x, out !! i = Some x → w !! (Z.to_nat (RecvBuf.off (rcv c)) + i)%nat = Some x).
Proof.
  intros [Hsend (evr & Hr & Har) Hin Hf Hack Hfin [Hm Hlen]] Hcap He.
  pose proof Hr as [Hwf Herr _ _ _ _ _ _]. destruct (RecvBuf.ready (rcv c)) eqn:Hready.
  2: { unfold RecvBuf.emit in He. by rewrite run_bind_get, Hready in He. }
  destruct (recv_emit_run cap _ Hwf Herr Hcap Hready) as (out1 & rb1 & Hrun & Hp).
  rewrite He in Hrun. injection Hrun as <- -> <-.
  pose proof (tracks_emit _ _ _ _ _ _ Hr Hp) as Hr1. destruct Hp as [_ Ho _ Hbytes _ _ _ El Ef _ _ Emax].
  split; [|split_and!; [done..|]].
  2: { intros i x Hx. apply Hbytes, (tr_stores _ _ _ Hr) in Hx. pose proof (recv_off _ Hwf). rewrite <- Hx. f_equal. lia. } constructor; cbn; rewrite ?Ef, ?El, ?Emax; try done.
  exists (evr ++ [EvRead out]). split; [done|]. intros g Hg. apply elem_of_app. left. auto.
Qed.

(** The reader is where it says, and the bytes are the next ones of [w]. *)
Lemma linked_off w c : linked w c → 0 <= RecvBuf.off (rcv c) <= zlen w.
Proof. intros [_ (evr & [Hwf _ _ Ho _ _ _ _] & _) _ _ _ _ _]. pose proof (recv_off _ Hwf). lia. Qed.

Lemma linked_end w c n : linked w c → SendBuf.fin_off (snd c) = Some n → n = zlen w.
Proof.
  intros [(evs & [Hwf _ Ho _ _ _] & <- & _) _ _ _ _ _ _] Hn. by rewrite (sw_fin _ Hwf n Hn), Ho.
Qed.

Lemma linked_out w c cap out fin rb' :
  linked w c → 0 <= cap → RecvBuf.emit cap (rcv c) = (Ok (out, fin), rb') →
  let q := drop (Z.to_nat (RecvBuf.off (rcv c))) w in
  take (length out) q = out ∧ (fin = true → is_Some (SendBuf.fin_off (snd c)) ∧ length out = length q).
Proof.
  intros Hl Hcap He q. destruct (linked_read w c cap out fin rb' Hl Hcap He) as (Hl' & Ho & Hfin & Hf & Hbytes).
  pose proof (linked_off _ _ Hl). pose proof (linked_off _ _ Hl') as Hoff'. cbn in Hoff'.
  split.
  { apply take_pointwise. intros i x Hx. unfold q. rewrite lookup_drop. by apply Hbytes. }
  intros ->. unfold RecvBuf.is_fin in Hfin. symmetry in Hfin. apply bool_decide_eq_true in Hfin.
  rewrite Hf in Hfin. apply (lk_fin _ _ Hl) in Hfin. split; [by eexists|].
  pose proof (linked_end _ _ _ Hl Hfin). unfold q. rewrite length_drop. unfold zlen in *. lia.
Qed.

(** A step that the applications do not see. *)
Lemma silent_refines w c p c' :
  refines w c p → linked w c' → SendBuf.fin_off (snd c') = SendBuf.fin_off (snd c) →
  RecvBuf.off (rcv c') = RecvBuf.off (rcv c) →
  ∃ p', Pipe.run [] p = Some p' ∧ refines (w ++ written []) c' p' ∧
    RecvBuf.off (rcv c') = RecvBuf.off (rcv c) + zlen (obtained []).
Proof.
  intros (Hl & Hq & Hc) Hl' Ef Eo. exists p. split; [done|]. cbn. rewrite app_nil_r, zlen_nil.
  split; [|lia]. split; [done|]. by rewrite Ef, Eo.
Qed.

(** Every step of the link is a step of the pipe, or one that it does not see. *)
Lemma step_refines w c p a c' :
  refines w c p → Link.step c a c' →
  ∃ p', Pipe.run a p = Some p' ∧ refines (w ++ written a) c' p' ∧
    RecvBuf.off (rcv c') = RecvBuf.off (rcv c) + zlen (obtained a).
Proof.
  intros Href Hstep. pose proof Href as (Hl & Hq & Hc). pose proof (linked_off _ _ Hl) as Hoff.
  destruct Hstep as [d fin n sb' Hroom Hw|cap out fin sb' Hcap He f|f rb' Hf Hw|f sb' Hf Ha|l1 f l2 sb' El Hroom Hr|
    now rb' Haf Hup|m sb' Hm Hmu Hup|cap out fin rb' Hcap He].
  - destruct (linked_write _ _ _ _ _ _ Hl Hroom Hw) as (Hl' & Hf & Hlate). eexists. split.
    + cbn. rewrite (proj2 (andb_false_iff _ _)); [reflexivity|]. rewrite Hc. case_bool_decide as Hs; [right|by left].
      by destruct (Hlate Hs) as (-> & -> & ->).
    + cbn. rewrite app_nil_r, zlen_nil. split; [|lia]. split; [done|]. cbn. split.
      * rewrite Hq, drop_app_le by (unfold zlen in Hoff; lia). done.
      * rewrite Hf, Hc. destruct (fin && (n =? zlen d)); [rewrite orb_true_r|by rewrite orb_false_r].
        symmetry. apply bool_decide_eq_true. by eexists.
  - destruct (linked_send _ _ _ _ _ _ Hl Hcap He). by eapply silent_refines.
  - destruct (linked_arrive _ _ _ _ Hl Hf Hw). by eapply silent_refines.
  - destruct (linked_ack _ _ _ _ Hl Hf Ha). by eapply silent_refines.
  - destruct (linked_lost _ _ _ _ _ _ Hl El Hroom Hr). by eapply silent_refines.
  - destruct (linked_update _ _ _ _ Hl Haf Hup). by eapply silent_refines.
  - destruct (linked_credit _ _ _ _ Hl Hm Hmu Hup). by eapply silent_refines.
  - destruct (linked_out _ _ _ _ _ _ Hl Hcap He) as [Hqo Hend]. rewrite <- Hq in Hqo, Hend.
    destruct (linked_read _ _ _ _ _ _ Hl Hcap He) as (Hl' & Ho & _). eexists. split.
    + cbn. rewrite bool_decide_eq_true_2 by done. destruct fin; cbn; [|reflexivity].
      destruct (Hend eq_refl) as [Hs Hlen]. by rewrite Hc, !bool_decide_eq_true_2 by done.
    + cbn. rewrite !app_nil_r. split; [|done]. split; [done|]. cbn. split; [|done].
      rewrite Hq, drop_drop, Ho. f_equal. unfold zlen. lia.
Qed.

Lemma run_refines max_data max_window tr c :
  0 <= max_data < u64_max → Link.run (Link.start max_data max_window) tr c →
  ∃ p, Pipe.run tr Pipe.empty = Some p ∧ refines (written tr) c p ∧ RecvBuf.off (rcv c) = zlen (obtained tr).
Proof.
  intros Hm. induction 1 as [|tr c a c' _ (p & Hp & Hr & Ho) Hstep].
  - exists Pipe.empty. split; [done|]. split; [split; [by apply linked_start|done]|done].
  - destruct (step_refines _ _ _ _ _ Hr Hstep) as (p' & Hp' & Hr' & Ho'). exists p'. split; [by rewrite Pipe.run_app, Hp|].
    unfold written, obtained in *. rewrite !bind_app, zlen_app. split; [done|lia].
Qed.

(** If nothing is queued and everything in flight has arrived, the receiver
    stores all that is left of [w]. *)
Lemma all_buffered w c o :
  linked w c → (∀ o, ¬ pending (SendBuf.data (snd c)) o) → (∀ f, f ∈ flying c → f ∈ arrived c) →
  RecvBuf.off (rcv c) <= o < zlen w → buffered (rcv c) o.
Proof.
  intros Hl Hq Hfly Ho. pose proof (linked_off _ _ Hl).
  destruct (lk_send _ _ Hl) as (evs & Ht & <- & _ & Hfl). destruct (lk_recv _ _ Hl) as (evr & Hr & Har).
  assert (∃ f, f ∈ arrived c ∧ covers f o) as (f & Hf & Hc).
  { destruct (td_safe _ _ Ht o) as [?|[?|Hin]]; [rewrite (td_off _ _ Ht); lia|by apply (lk_acked _ _ Hl)|by destruct (Hq o)|].
    destruct (Hfl o Hin) as (f & Hf & Hc). exists f. auto. }
  destruct (tr_sent _ _ _ Hr o) as [?|?]; [|lia|done].
  apply Exists_exists. exists (EvWrite (RangeBuf.from (f_data f) (f_off f) (f_fin f))). split; [by apply Har|].
  rewrite RangeBuf.off_from, RangeBuf.max_off_from. exact Hc.
Qed.
End link.

(** ** Theorems *)

(** C3. A stream is a reliable pipe.  The send buffer of one endpoint and the
    receive buffer of the other, over a network that may delay, reorder, repeat
    and lose frames, with any schedule of writes, transmissions, arrivals,
    acknowledgements, (possibly spurious) loss reports, flow control updates
    and reads, refine a first-in-first-out pipe of bytes: everything the two
    applications see is a run of the pipe.  So the bytes read are a prefix of
    those written, and the end is reported only once everything was read and
    the writer has ended the stream. *)
Theorem delivery_refines_pipe (max_data max_window : Z) tr c :
  0 <= max_data < u64_max → Link.run (Link.start max_data max_window) tr c →
  ∃ p, Pipe.run tr Pipe.empty = Some p ∧ written tr = obtained tr ++ Pipe.queue p ∧
    RecvBuf.off (Link.rcv c) = zlen (obtained tr) ∧ SendBuf.off (Link.snd c) = zlen (written tr) ∧
    Pipe.closed p = bool_decide (is_Some (SendBuf.fin_off (Link.snd c))).
Proof.
  intros Hm Hrun. destruct (run_refines _ _ _ _ Hm Hrun) as (p & Hp & (Hl & _ & Hc) & Ho).
  exists p. split; [done|]. split; [exact (pipe_fifo _ _ _ Hp)|]. split; [done|]. split; [|done].
  destruct (lk_send _ _ Hl) as (evs & Ht & <- & _). apply (td_off _ _ Ht).
Qed.

(** C8. Flow control and final sizes agree from end to end: in every reachable
    state of the link, every frame that was ever sent is accepted by the
    receiver, whenever and however often it arrives, and the acknowledgement
    of every frame that arrived is accepted by the sender. *)
Theorem delivery_never_refused (max_data max_window : Z) tr c f :
  0 <= max_data < u64_max → Link.run (Link.start max_data max_window) tr c → f ∈ Link.sent c →
  (∃ rb', RecvBuf.write (RangeBuf.from (Link.f_data f) (Link.f_off f) (Link.f_fin f)) (Link.rcv c) = (Ok (), rb')) ∧
  (f ∈ Link.arrived c →
     ∃ sb', SendBuf.ack_and_drop (Link.f_off f) (zlen (Link.f_data f)) (Link.snd c) = (Ok (), sb')).
Proof.
  intros Hm Hrun Hf. destruct (run_refines _ _ _ _ Hm Hrun) as (p & _ & (Hl & _) & _). split.
  - destruct (frame_accepted _ _ _ Hl Hf) as (Hb & Hfr & Hacc). destruct (lk_recv _ _ Hl) as (evr & Hr & _).
    destruct (write_accepts _ _ (tr_wf _ _ _ Hr) Hb Hfr Hacc) as (rb' & Hw & _). by exists rb'.
  - intros _. destruct (lk_frame _ _ Hl f Hf) as (H0 & He & _). destruct (lk_send _ _ Hl) as (evs & Ht & _).
    destruct (ack_and_drop_run _ _ _ (td_wf _ _ Ht) H0 (zlen_nonneg (Link.f_data f)) He) as (sb' & Ha & _). by exists sb'.
Qed.

(** C9. Delivery completes.  In every reachable state of the link, once
    nothing is queued at the sender and every frame that was not declared lost
    has arrived, one large enough read returns all that was written and not
    yet read, and the end of the stream if a frame with the end arrived. *)
Theorem delivery_completes (max_data max_window cap : Z) tr c p :
  0 <= max_data < u64_max → Link.run (Link.start max_data max_window) tr c → Pipe.run tr Pipe.empty = Some p →
  (∀ o, ¬ pending (SendBuf.data (Link.snd c)) o) → (∀ f, f ∈ Link.flying c → f ∈ Link.arrived c) →
  Pipe.queue p ≠ [] → zlen (Pipe.queue p) <= cap →
  ∃ fin rb', RecvBuf.emit cap (Link.rcv c) = (Ok (Pipe.queue p, fin), rb') ∧
    ((∃ f, f ∈ Link.arrived c ∧ Link.f_fin f = true) → fin = true).
Proof.
  intros Hm Hrun Hp Hq Hfly Hne Hcap.
  destruct (run_refines _ _ _ _ Hm Hrun) as (p1 & Hp1 & (Hl & Hqueue & _) & _). rewrite Hp in Hp1. injection Hp1 as <-.
  set (w := written tr) in *. pose proof (linked_off _ _ Hl) as Hoff. pose proof (all_buffered w c) as Hall.
  assert (RecvBuf.off (Link.rcv c) + zlen (Pipe.queue p) = zlen w) as Hlen.
  { rewrite Hqueue. unfold zlen in *. rewrite length_drop. lia. }
  assert (0 < zlen (Pipe.queue p)) by (destruct (Pipe.queue p); [done|unfold zlen; cbn; lia]).
  assert (0 <= cap) as Hcap0 by lia.
  destruct (lk_recv _ _ Hl) as (evr & Hr & Har). pose proof Hr as [Hwf Herr _ _ _ _ _ _].
  assert (RecvBuf.ready (Link.rcv c) = true) as Hready by (apply buffered_ready; [done|]; apply Hall; done || lia).
  destruct (recv_emit_run cap _ Hwf Herr Hcap0 Hready) as (out & rb' & Hrun1 & Hpost).
  destruct (linked_read _ _ _ _ _ _ Hl Hcap0 Hrun1) as (Hl' & Ho & _ & Hf & _).
  destruct (linked_out _ _ _ _ _ _ Hl Hcap0 Hrun1) as [Htake _]. rewrite <- Hqueue in Htake.
  pose proof (linked_off _ _ Hl') as Hoff'. cbn in Hoff'.
  assert (RecvBuf.off rb' = zlen w) as Eend.
  { destruct (ep_max _ _ _ _ Hpost) as [?|Hn]; [lia|]. destruct (Z.lt_ge_cases (RecvBuf.off rb') (zlen w)); [|lia].
    destruct Hn. pose proof (zlen_nonneg out). apply Hall; done || lia. }
  assert (out = Pipe.queue p) as ->.
  { rewrite <- Htake. apply take_ge. unfold zlen in *. lia. }
  exists (RecvBuf.is_fin rb'), rb'. split; [done|]. intros (f & Hfa & Hff). unfold RecvBuf.is_fin. rewrite Hf, Eend.
  rewrite (tr_fin _ _ _ Hr (Link.f_end f)).
  - apply bool_decide_eq_true. f_equal. destruct (lk_frame _ _ Hl f (lk_flying _ _ Hl f (or_intror Hfa))) as (_ & _ & He).
    by apply (linked_end w c), He.
  - apply Exists_exists. eexists. split; [by apply Har|]. split; [exact Hff|apply RangeBuf.max_off_from].
Qed.

(** Three bytes in two frames; the second one arrives first. *)
Module Sample.
Import Link.
Definition s1 : SendBuf.t := (SendBuf.write [5; 6; 7] true (SendBuf.new 100)).2.
Definition s2 : SendBuf.t := (SendBuf.emit 2 s1).2.
Definition s3 : SendBuf.t := (SendBuf.emit 10 s2).2.
Definition f1 : frame := mk_frame 0 [5; 6] false.
Definition f2 : frame := mk_frame 2 [7] true.
Definition r1 : RecvBuf.t := (RecvBuf.write (RangeBuf.from [7] 2 true) (RecvBuf.new 100 100)).2.
Definition r2 : RecvBuf.t := (RecvBuf.write (RangeBuf.from [5; 6] 0 false) r1).2.
Definition trace : list action := [Write [5; 6; 7] true].
Definition end_state : Link.t := mk s3 r2 [f2; f1] [f2; f1] [f1; f2].

Lemma quiet_step c0 tr c c' : Link.run c0 tr c → Link.step c [] c' → Link.run c0 tr c'.
Proof. intros Hr Hs. rewrite <- (app_nil_r tr). by eapply run_step. Qed.

Lemma end_run : Link.run (start 100 100) trace end_state.
Proof.
  assert (Link.run (start 100 100) trace (mk s1 (RecvBuf.new 100 100) [] [] [])) as H1.
  { refine (run_step _ [] (start 100 100) trace _ (run_start _) _).
    apply (step_write (start 100 100) [5; 6; 7] true 3); [by vm_compute|reflexivity]. }
  assert (Link.run (start 100 100) trace (mk s2 (RecvBuf.new 100 100) [f1] [f1] [])) as H2.
  { eapply quiet_step; [exact H1|]. by apply (step_send (mk s1 (RecvBuf.new 100 100) [] [] []) 2 [5; 6] false). }
  assert (Link.run (start 100 100) trace (mk s3 (RecvBuf.new 100 100) [f2; f1] [f2; f1] [])) as H3.
  { eapply quiet_step; [exact H2|]. by apply (step_send (mk s2 (RecvBuf.new 100 100) [f1] [f1] []) 10 [7] true). }
  assert (Link.run (start 100 100) trace (mk s3 r1 [f2; f1] [f2; f1] [f2])) as H4.
  { eapply quiet_step; [exact H3|]. apply (step_arrive (mk s3 (RecvBuf.new 100 100) [f2; f1] [f2; f1] []) f2); [by left|reflexivity]. }
  eapply quiet_step; [exact H4|]. apply (step_arrive (mk s3 r1 [f2; f1] [f2; f1] [f2]) f1); [right; by left|reflexivity].
Qed.
End Sample.

Lemma delivery_refines_pipe_witness :
  ∃ p, Pipe.run Sample.trace Pipe.empty = Some p ∧ Pipe.closed p = true.
Proof.
  destruct (delivery_refines_pipe 100 100 Sample.trace Sample.end_state ltac:(lia) Sample.end_run)
    as (p & Hp & _ & _ & _ & Hc). exists p. split; [exact Hp|exact Hc].
Defined.

Lemma delivery_never_refused_witness :
  ∃ rb', RecvBuf.write (RangeBuf.from [7] 2 true) (Link.rcv Sample.end_state) = (Ok (), rb').
Proof.
  refine (proj1 (delivery_never_refused 100 100 Sample.trace Sample.end_state Sample.f2 ltac:(lia) Sample.end_run _)).
  by left.
Defined.

Lemma delivery_completes_witness :
  ∃ rb', RecvBuf.emit 10 (Link.rcv Sample.end_state) = (Ok ([5; 6; 7], true), rb').
Proof.
  destruct (delivery_completes 100 100 10 Sample.trace Sample.end_state (Pipe.mk [5; 6; 7] true) ltac:(lia) Sample.end_run)
    as (fin & rb' & He & Hf).
  - reflexivity.
  - apply empty_no_pending. apply Forall_singleton. reflexivity.
  - intros f [-> |[-> |Hf%elem_of_nil]%elem_of_cons]%elem_of_cons; [right; by left|by left|done].
  - discriminate.
  - vm_compute. discriminate.
  - exists rb'. rewrite He. rewrite Hf; [reflexivity|]. exists Sample.f2. split; [right; by left|reflexivity].
Defined.
