(* ===== verification/PktNum.v ===== *)
(** * Packet numbers: [quiche/src/packet.rs]

    The truncation of packet numbers on the wire ([pkt_num_len],
    [encode_pkt_num], [decode_pkt_num]) and the duplicate filter
    ([PktNumWindow]).  Arithmetic that can leave [u64] is checked. *)
From S2P Require Import Prelude OctetsLib.

Definition MAX_PKT_NUM_LEN : Z := 4.

(** [64 - n.leading_zeros()] for a 64-bit [n]. *)
Definition bit_length (n : Z) : Z := if n =? 0 then 0 else Z.log2 n + 1.

Definition pkt_num_len (pn largest_acked : Z) : result Error Z :=
  num_unacked ← uadd (saturating_sub pn largest_acked) 1;
  let min_bits := bit_length num_unacked in
  Ok ((min_bits + 7) / 8).

(** [1 << n] on [u64]: the shift amount is checked. *)
Definition shl1 (n : Z) : result Error Z := if n <? 64 then Ok (2 ^ n) else Panic.

Definition decode_pkt_num (largest_pn truncated_pn pn_len : Z) : result Error Z :=
  let pn_nbits := pn_len * 8 in
  expected_pn ← uadd largest_pn 1;
  pn_win ← shl1 pn_nbits;
  let pn_hwin := pn_win / 2 in
  let pn_mask := pn_win - 1 in
  let candidate_pn := Z.lor (Z.ldiff expected_pn pn_mask) truncated_pn in
  low ← uadd candidate_pn pn_hwin;
  lim ← usub (2 ^ 62) pn_win;
  if (low <=? expected_pn) && (candidate_pn <? lim) then uadd candidate_pn pn_win
  else
    high ← uadd expected_pn pn_hwin;
    if (high <? candidate_pn) && (pn_win <=? candidate_pn) then usub candidate_pn pn_win
    else Ok candidate_pn.

Definition encode_pkt_num (pn pn_len : Z) : M octets Error unit :=
  if pn_len =? 1 then OctetsMut.put_u8 (as_u8 pn);; mret ()
  else if pn_len =? 2 then OctetsMut.put_u16 (as_u16 pn);; mret ()
  else if pn_len =? 3 then OctetsMut.put_u24 (as_u32 pn);; mret ()
  else if pn_len =? 4 then OctetsMut.put_u32 (as_u32 pn);; mret ()
  else fail InvalidPacket.

(** The [match pn_len] of [decrypt_hdr] that reads a truncated number back. *)
Definition read_pkt_num (pn_len : Z) : M octets Error Z :=
  if pn_len =? 1 then OctetsMut.get_u8
  else if pn_len =? 2 then OctetsMut.get_u16
  else if pn_len =? 3 then OctetsMut.get_u24
  else if pn_len =? 4 then OctetsMut.get_u32
  else fail InvalidPacket.

Module PktNumWindow.
Record t := mk { lower : Z; window : Z }.

Definition default : t := mk 0 0.

Definition unwrap_or (d : Z) (o : option Z) : Z := match o with Some z => z | None => d end.

(** [window] has 128 bits; shifting drops what leaves them. *)
Definition u128_mask (w : Z) : Z := Z.land w (Z.ones 128).
Definition checked_shl (w n : Z) : option Z :=
  if n <? 128 then Some (u128_mask (Z.shiftl w n)) else None.
Definition shl128 (n : Z) : result Error Z := if n <? 128 then Ok (2 ^ n) else Panic.

Definition upper (win : t) : Z := saturating_add (lower win) 128 - 1.

Definition insert (seq : Z) : M t Error unit :=
  win ← get;
  if seq <? lower win then mret ()
  else
    (if upper win <? seq then
       let diff := seq - upper win in
       l ← lift (uadd (lower win) diff);
       put (mk l (unwrap_or 0 (checked_shl (window win) (as_u32 diff))))
     else mret ());;
    win ← get;
    shift ← lift (usub (upper win) seq);
    mask ← lift (shl128 shift);
    put (mk (lower win) (Z.lor (window win) mask)).

Definition contains (win : t) (seq : Z) : result Error bool :=
  if upper win <? seq then Ok false
  else if seq <? lower win then Ok true
  else
    shift ← usub (upper win) seq;
    mask ← shl128 shift;
    Ok (negb (Z.land (window win) mask =? 0)).
End PktNumWindow.

(** ** Truncated packet numbers *)

Section numbers.

Lemma pow_split n : 1 <= n → 2 ^ (8 * n) = 2 * 2 ^ (8 * n - 1).
Proof. intros. rewrite <- Z.pow_succ_r by lia. f_equal. lia. Qed.

Lemma bit_length_bound n : 0 < n → 2 ^ (bit_length n - 1) <= n < 2 ^ bit_length n.
Proof.
  intros Hn. unfold bit_length. rewrite (proj2 (Z.eqb_neq _ _)) by lia.
  pose proof (Z.log2_spec n Hn). rewrite <- Z.add_1_r in *.
  replace (Z.log2 n + 1 - 1) with (Z.log2 n) by lia. lia.
Qed.

(** Shifted and low bits do not meet. *)
Lemma lor_shiftl q r n : 0 <= n → 0 <= r < 2 ^ n → Z.lor (Z.shiftl q n) r = q * 2 ^ n + r.
Proof.
  intros Hn Hr. rewrite <- (Z.shiftl_mul_pow2 q n Hn), <- Z.add_lor_land.
  replace (Z.land (Z.shiftl q n) r) with 0; [lia|]. symmetry. apply Z.bits_inj'. intros i Hi.
  rewrite Z.land_spec, Z.bits_0. destruct (Z.lt_ge_cases i n).
  - by rewrite Z.shiftl_spec_low.
  - destruct (decide (r = 0)) as [->|Hne]; [by rewrite Z.bits_0, andb_false_r|].
    rewrite (Z.bits_above_log2 r i), andb_false_r; [done|lia|].
    apply Z.log2_lt_pow2; [lia|]. apply Z.lt_le_trans with (2 ^ n); [lia|].
    apply Z.pow_le_mono_r; lia.
Qed.

(** The expected number with its low bits replaced. *)
Lemma candidate_eq e r n :
  0 <= n → 0 <= r < 2 ^ n →
  Z.lor (Z.ldiff e (2 ^ n - 1)) r = e / 2 ^ n * 2 ^ n + r.
Proof.
  intros Hn Hr. replace (2 ^ n - 1) with (Z.ones n) by (rewrite Z.ones_equiv; lia).
  rewrite Z.ldiff_ones_r, Z.shiftr_div_pow2 by lia. by apply lor_shiftl.
Qed.

(** Two numbers less than a window apart, by quotient and remainder. *)
Lemma near_quotients e p w :
  0 < w → - w < p - e <= w → e / w - 1 <= p / w <= e / w + 1.
Proof.
  intros Hw Hd. pose proof (Z.div_mod e w ltac:(lia)). pose proof (Z.div_mod p w ltac:(lia)).
  pose proof (Z.mod_pos_bound e w Hw). pose proof (Z.mod_pos_bound p w Hw). nia.
Qed.

(** [decode_pkt_num] recovers every number in the half-window around the next
    expected one. *)
Lemma decode_in_window largest pn n :
  1 <= n <= 4 → 0 <= largest < 2 ^ 62 → 0 <= pn < 2 ^ 62 →
  let hwin := 2 ^ (8 * n - 1) in
  largest + 1 - hwin < pn <= largest + 1 + hwin →
  decode_pkt_num largest (pn mod 2 ^ (8 * n)) n = Ok pn.
Proof.
  intros Hn Hl Hp hwin Hw. unfold decode_pkt_num.
  rewrite uadd_ok by lia. simpl. rewrite (Z.mul_comm n 8).
  assert (8 * n < 64) as H64 by lia. unfold shl1. rewrite (proj2 (Z.ltb_lt _ _) H64). simpl.
  assert (2 ^ (8 * n) = 2 * hwin) as Hwin by (apply pow_split; lia).
  assert (2 ^ 7 <= hwin <= 2 ^ 31) as Hh by (split; apply Z.pow_le_mono_r; lia).
  rewrite candidate_eq by (try apply Z.mod_pos_bound; lia).
  rewrite Hwin. replace (2 * hwin / 2) with hwin by (rewrite Z.mul_comm, Z.div_mul; lia).
  set (win := 2 * hwin) in *. set (e := largest + 1) in *.
  assert (win = 2 * hwin) as Hw2 by done. assert (e = largest + 1) as He by done.
  pose proof (near_quotients e pn win ltac:(lia) ltac:(lia)) as Hq.
  pose proof (Z.div_mod pn win ltac:(lia)) as Hdp. pose proof (Z.mod_pos_bound pn win ltac:(lia)).
  pose proof (Z.div_mod e win ltac:(lia)). pose proof (Z.mod_pos_bound e win ltac:(lia)).
  assert (0 <= e / win) by (apply Z.div_pos; lia).
  set (c := e / win * win + pn mod win) in *.
  assert (pn = c + (pn / win - e / win) * win) as Hc by (unfold c; lia).
  assert (e / win * win <= e) by lia. assert (0 <= e / win * win) by (apply Z.mul_nonneg_nonneg; lia).
  assert (0 <= c <= 2 ^ 62 + 2 ^ 32) by (unfold c; lia).
  change (2 ^ 62) with 4611686018427387904 in *. change (2 ^ 7) with 128 in *.
  change (2 ^ 31) with 2147483648 in *. change (2 ^ 32) with 4294967296 in *.
  clearbody c e win hwin.
  rewrite (uadd_ok c hwin) by lia. simpl. rewrite (usub_ok 4611686018427387904 win) by lia. simpl.
  assert (pn / win - e / win = -1 ∨ pn / win - e / win = 0 ∨ pn / win - e / win = 1)
    as [Hd|[Hd|Hd]] by lia; rewrite Hd in Hc.
  - rewrite (proj2 (Z.leb_gt (c + hwin) e)) by lia. simpl. rewrite (uadd_ok e hwin) by lia. simpl.
    rewrite (proj2 (Z.ltb_lt _ _)), (proj2 (Z.leb_le win c)) by lia. simpl.
    rewrite usub_ok by lia. f_equal. lia.
  - rewrite (proj2 (Z.leb_gt (c + hwin) e)) by lia. simpl. rewrite (uadd_ok e hwin) by lia. simpl.
    rewrite (proj2 (Z.ltb_ge _ _)) by lia. simpl. f_equal. lia.
  - rewrite (proj2 (Z.leb_le (c + hwin) e)), (proj2 (Z.ltb_lt c _)) by lia. simpl.
    rewrite uadd_ok by lia. f_equal. lia.
Qed.

Lemma be_bytes_mod k n v :
  0 <= v → (k <= n)%nat → be_bytes k (v mod 256 ^ Z.of_nat n) = be_bytes k v.
Proof.
  intros Hv Hk. assert (0 < 256 ^ Z.of_nat n) by (apply Z.pow_pos_nonneg; lia).
  pose proof (Z.div_mod v (256 ^ Z.of_nat n) ltac:(lia)) as Hd.
  pose proof (Z.mod_pos_bound v (256 ^ Z.of_nat n) ltac:(lia)).
  assert (256 ^ Z.of_nat n = 256 ^ Z.of_nat (n - k) * 256 ^ Z.of_nat k) as Hpow
    by (rewrite <- Z.pow_add_r by lia; f_equal; lia).
  set (d := v / 256 ^ Z.of_nat n) in *. set (r := v mod 256 ^ Z.of_nat n) in *.
  replace v with (r + (256 ^ Z.of_nat (n - k) * d) * 256 ^ Z.of_nat k)
    by (rewrite Hd, Hpow; ring).
  symmetry. apply be_bytes_add_high. lia.
Qed.

(** The wire image of a truncated packet number. *)
Lemma encode_pkt_num_writes pn n :
  1 <= n <= 4 → 0 <= pn →
  writes (encode_pkt_num pn n) (be_bytes (Z.to_nat n) pn).
Proof.
  intros Hn Hp. assert (∀ k w, (k <= w)%nat → be_bytes k (pn mod 2 ^ (8 * Z.of_nat w)) = be_bytes k pn) as Hmod.
  { intros k w Hk. rewrite Z.pow_mul_r by lia. by apply be_bytes_mod. }
  rewrite <- (app_nil_r (be_bytes _ _)).
  assert (n = 1 ∨ n = 2 ∨ n = 3 ∨ n = 4) as [-> | [-> | [-> | ->]]] by lia;
    refine (writes_bind _ _ _ _ _ (λ _, writes_ret _)).
  - change (Z.to_nat 1) with 1%nat. rewrite <- (Hmod 1%nat 1%nat) by lia. by apply (put_u_writes (as_u8 pn) 1).
  - change (Z.to_nat 2) with 2%nat. rewrite <- (Hmod 2%nat 2%nat) by lia. by apply (put_u_writes (as_u16 pn) 2).
  - change (Z.to_nat 3) with 3%nat. rewrite <- (Hmod 3%nat 4%nat) by lia. by apply (put_u_writes (as_u32 pn) 3).
  - change (Z.to_nat 4) with 4%nat. rewrite <- (Hmod 4%nat 4%nat) by lia. by apply (put_u_writes (as_u32 pn) 4).
Qed.

Lemma read_pkt_num_parses pn n :
  1 <= n <= 4 → parses (read_pkt_num n) (be_bytes (Z.to_nat n) pn) (pn mod 2 ^ (8 * n)).
Proof.
  intros Hn. assert (be_val (be_bytes (Z.to_nat n) pn) = pn mod 2 ^ (8 * n)) as <-.
  { rewrite be_val_be_bytes, Z2Nat.id, Z.pow_mul_r by lia. done. }
  assert (n = 1 ∨ n = 2 ∨ n = 3 ∨ n = 4) as [-> | [-> | [-> | ->]]] by lia.
  - apply (get_u_parses 1 (be_bytes 1 pn)). done.
  - apply (get_u_parses 2 (be_bytes 2 pn)). done.
  - apply (get_u_parses 3 (be_bytes 3 pn)). done.
  - apply (get_u_parses 4 (be_bytes 4 pn)). done.
Qed.

Lemma pkt_num_len_pos pn la n : 0 <= pn < 2 ^ 62 → pkt_num_len pn la = Ok n → 1 <= n.
Proof.
  intros Hpn. unfold pkt_num_len, saturating_sub.
  destruct (@uadd Error _ 1) as [u| |] eqn:Hu; simpl; [|done|done].
  unfold uadd in Hu. destruct (Z.leb_spec (Z.max 0 (pn - la) + 1) u64_max); [|done].
  intros [= <-]. simplify_eq. unfold bit_length.
  rewrite (proj2 (Z.eqb_neq _ _)) by lia.
  pose proof (Z.log2_nonneg (Z.max 0 (pn - la) + 1)). apply Z.div_le_lower_bound; lia.
Qed.

(** C32. A packet number [pn] sent with the length [pkt_num_len] chooses (at
    most four bytes) is written as its low bytes, read back as the truncated
    number, and decoded to [pn] by every receiver whose largest received
    number puts [pn] within half an encoding window of the next expected one. *)
Theorem pkt_num_roundtrip pn largest_acked largest n :
  0 <= pn < 2 ^ 62 → 0 <= largest < 2 ^ 62 →
  pkt_num_len pn largest_acked = Ok n → n <= MAX_PKT_NUM_LEN →
  largest + 1 - 2 ^ (8 * n - 1) < pn <= largest + 1 + 2 ^ (8 * n - 1) →
  ∃ bs truncated,
    zlen bs = n ∧
    writes (encode_pkt_num pn n) bs ∧
    parses (read_pkt_num n) bs truncated ∧
    decode_pkt_num largest truncated n = Ok pn.
Proof.
  intros Hpn Hl Hlen Hmax Hw. unfold MAX_PKT_NUM_LEN in Hmax.
  pose proof (pkt_num_len_pos _ _ _ Hpn Hlen).
  exists (be_bytes (Z.to_nat n) pn), (pn mod 2 ^ (8 * n)).
  split; [rewrite zlen_be_bytes; lia|]. split; [apply encode_pkt_num_writes; lia|].
  split; [apply read_pkt_num_parses; lia|]. apply decode_in_window; [lia|done..].
Qed.

Lemma pkt_num_roundtrip_witness :
  pkt_num_len 1044 1000 = Ok 1 ∧
  ∃ bs truncated, zlen bs = 1 ∧ writes (encode_pkt_num 1044 1) bs ∧
    parses (read_pkt_num 1) bs truncated ∧ decode_pkt_num 1003 truncated 1 = Ok 1044.
Proof.
  split; [reflexivity|].
  apply (pkt_num_roundtrip 1044 1000 1003 1);
    [split; [vm_compute; congruence|reflexivity]..|reflexivity|vm_compute; congruence|
     split; [reflexivity|vm_compute; congruence]].
Defined.

(** The length chosen is too short by one bit: with 130 to 254 packets in
    flight past the largest acknowledged number, [pkt_num_len] answers one
    byte, and a receiver that has seen nothing since that number decodes a
    number 256 below the one sent. *)
Theorem pkt_num_len_too_short pn largest_acked :
  0 <= largest_acked → 256 <= pn < 2 ^ 61 → 130 <= pn - largest_acked <= 254 →
  pkt_num_len pn largest_acked = Ok 1 ∧
  decode_pkt_num largest_acked (pn mod 2 ^ 8) 1 = Ok (pn - 256).
Proof.
  intros Hla Hpn Hd. change (2 ^ 61) with 2305843009213693952 in Hpn. split.
  - unfold pkt_num_len, saturating_sub. rewrite uadd_ok by lia. simpl.
    assert (bit_length (Z.max 0 (pn - largest_acked) + 1) = 8) as ->; [|done].
    unfold bit_length. rewrite (proj2 (Z.eqb_neq _ _)) by lia.
    rewrite (Z.log2_unique _ 7); lia.
  - unfold decode_pkt_num. rewrite uadd_ok by lia. simpl.
    pose proof (candidate_eq (largest_acked + 1) (pn mod 2 ^ 8) 8 ltac:(lia)) as Hc.
    specialize (Hc (Z.mod_pos_bound pn (2 ^ 8) ltac:(lia))).
    change (1 * 8) with 8. rewrite Hc. clear Hc. change (2 ^ 8) with 256.
    change (2 ^ 62) with 4611686018427387904.
    set (e := largest_acked + 1). set (c := e / 256 * 256 + pn mod 256).
    assert (c = pn ∨ c = pn - 256) as Hc.
    { unfold c. pose proof (Z.div_mod pn 256 ltac:(lia)). pose proof (Z.div_mod e 256 ltac:(lia)).
      pose proof (Z.mod_pos_bound pn 256 ltac:(lia)). pose proof (Z.mod_pos_bound e 256 ltac:(lia)).
      assert (pn / 256 = e / 256 ∨ pn / 256 = e / 256 + 1) by (unfold e in *; lia). lia. }
    assert (e = largest_acked + 1) as He by done. clearbody e c.
    change (256 / 2) with 128. rewrite (uadd_ok c 128) by lia. simpl.
    rewrite (proj2 (Z.leb_gt (c + 128) e)) by lia. simpl. rewrite (uadd_ok e 128) by lia. simpl.
    destruct Hc as [-> | ->].
    + rewrite (proj2 (Z.ltb_lt _ _)), (proj2 (Z.leb_le 256 pn)) by lia. simpl. apply usub_ok; lia.
    + by rewrite (proj2 (Z.ltb_ge _ _)) by lia.
Qed.

Lemma pkt_num_len_too_short_witness :
  pkt_num_len 1200 1000 = Ok 1 ∧ decode_pkt_num 1000 (1200 mod 2 ^ 8) 1 = Ok 944.
Proof. apply (pkt_num_len_too_short 1200 1000); lia. Defined.
End numbers.

(** ** The duplicate filter *)

Section window.
Import PktNumWindow.
Implicit Types (w : t) (l : list Z).

Lemma land_bit v k : 0 <= k → Z.land v (2 ^ k) = if Z.testbit v k then 2 ^ k else 0.
Proof.
  intros Hk. apply Z.bits_inj'. intros i Hi. rewrite Z.land_spec, Z.pow2_bits_eqb by lia.
  destruct (Z.eqb_spec k i) as [->|Hne].
  - destruct (Z.testbit v i) eqn:E; [by rewrite Z.pow2_bits_eqb, Z.eqb_refl by lia|].
    by rewrite Z.bits_0.
  - rewrite andb_false_r. destruct (Z.testbit v k); [|by rewrite Z.bits_0].
    rewrite Z.pow2_bits_eqb by lia. symmetry. by apply Z.eqb_neq.
Qed.

Lemma test_mask v k : 0 <= k → negb (Z.land v (2 ^ k) =? 0) = Z.testbit v k.
Proof.
  intros Hk. rewrite land_bit by done. pose proof (Z.pow_pos_nonneg 2 k ltac:(lia) Hk).
  destruct (Z.testbit v k); [|done]. by rewrite (proj2 (Z.eqb_neq _ _)) by lia.
Qed.

(** Sliding the window moves every bit that stays inside. *)
Lemma slide_bits v n i :
  0 <= n → 0 <= i < 128 →
  Z.testbit (unwrap_or 0 (checked_shl v n)) i = (n <=? i) && Z.testbit v (i - n).
Proof.
  intros Hn Hi. unfold checked_shl, u128_mask. destruct (Z.ltb_spec n 128); simpl.
  - rewrite Z.land_spec, Z.ones_spec_low, andb_true_r, Z.shiftl_spec by lia.
    destruct (Z.leb_spec n i); [done|]. by rewrite Z.testbit_neg_r by lia.
  - rewrite Z.bits_0. by rewrite (proj2 (Z.leb_gt n i)) by lia.
Qed.

(** What the window remembers of the numbers [l] inserted so far. *)
Record window_wf (l : list Z) (w : t) : Prop := {
  wf_lower : 0 <= lower w <= 2 ^ 62;
  wf_bits : ∀ s, lower w <= s <= lower w + 127 →
    Z.testbit (window w) (lower w + 127 - s) = bool_decide (s ∈ l);
  wf_above : ∀ s, s ∈ l → 0 <= s <= lower w + 127
}.

Lemma upper_eq l w : window_wf l w → upper w = lower w + 127.
Proof.
  intros [Hl _ _]. unfold upper, saturating_add. change (2 ^ 62) with 4611686018427387904 in *. lia.
Qed.

Lemma window_wf_default : window_wf [] default.
Proof.
  constructor; [simpl; lia| |by intros ? ?%elem_of_nil].
  intros s _. change (window default) with 0. rewrite Z.bits_0. symmetry.
  apply bool_decide_eq_false_2, not_elem_of_nil.
Qed.

(** The lower edge after an insertion. *)
Definition slide_to (lo seq : Z) : Z := Z.max lo (seq - 127).

Lemma insert_wf l w seq :
  window_wf l w → 0 <= seq < 2 ^ 62 → seq - (lower w + 127) < 2 ^ 32 →
  ∃ w', insert seq w = (Ok (), w') ∧ window_wf (l ++ [seq]) w' ∧
        lower w' = slide_to (lower w) seq.
Proof.
  intros Hwf Hseq Hjump. pose proof (upper_eq _ _ Hwf) as Hup. destruct Hwf as [Hlo Hbits Habove].
  assert (∀ s, s ≠ seq → bool_decide (s ∈ l ++ [seq]) = bool_decide (s ∈ l)) as Hne.
  { intros s Hs. apply bool_decide_ext. rewrite elem_of_app, list_elem_of_singleton. tauto. }
  unfold insert, slide_to. rewrite run_bind_get. destruct (Z.ltb_spec seq (lower w)) as [Hlow|Hge].
  { exists w. split; [done|]. split; [|lia]. constructor; [done| |].
    - intros s Hs. rewrite Hne by lia. by apply Hbits.
    - intros s [Hs | ->%list_elem_of_singleton]%elem_of_app; [by apply Habove|lia]. }
  rewrite Hup. set (w1 := if lower w + 127 <? seq
    then mk (seq - 127) (unwrap_or 0 (checked_shl (window w) (seq - (lower w + 127)))) else w).
  assert (lower w1 = Z.max (lower w) (seq - 127)) as Hlo1.
  { unfold w1. destruct (Z.ltb_spec (lower w + 127) seq); simpl; lia. }
  assert (∀ s, lower w1 <= s <= lower w1 + 127 →
    Z.testbit (window w1) (lower w1 + 127 - s) = bool_decide (s ∈ l)) as Hbits1.
  { intros s Hs. rewrite Hlo1 in *. unfold w1. destruct (Z.ltb_spec (lower w + 127) seq); simpl.
    - rewrite slide_bits by lia. destruct (Z.leb_spec (seq - (lower w + 127)) (Z.max (lower w) (seq - 127) + 127 - s)); simpl.
      + rewrite <- Hbits by lia. f_equal. lia.
      + symmetry. apply bool_decide_eq_false_2. intros ?%Habove. lia.
    - rewrite <- Hbits by lia. f_equal. lia. }
  assert (upper w1 = lower w1 + 127) as Hup1.
  { unfold upper, saturating_add. change (2 ^ 62) with 4611686018427387904 in *. lia. }
  exists (mk (lower w1) (Z.lor (window w1) (2 ^ (lower w1 + 127 - seq)))). split_and!.
  - rewrite (run_bind_ok _ _ _ () w1).
    + rewrite run_bind_get, Hup1, run_bind_lift with (a := lower w1 + 127 - seq) by (apply usub_ok; lia).
      unfold shl128. rewrite (proj2 (Z.ltb_lt _ _)) by lia. done.
    + unfold w1. destruct (Z.ltb_spec (lower w + 127) seq); [|done].
      rewrite run_bind_lift with (a := seq - 127).
      * unfold put. do 4 f_equal. unfold as_u32. apply Z.mod_small. lia.
      * change (2 ^ 62) with 4611686018427387904 in *. rewrite uadd_ok by lia. f_equal. lia.
  - constructor; simpl; [lia| |].
    + intros s Hs. rewrite Z.lor_spec, Hbits1, Z.pow2_bits_eqb by lia.
      destruct (decide (s = seq)) as [->|Hs'].
      * rewrite Z.eqb_refl, orb_true_r. symmetry. apply bool_decide_eq_true_2. set_solver.
      * rewrite Hne by done. rewrite (proj2 (Z.eqb_neq _ _)) by lia. apply orb_false_r.
    + intros s [Hs | ->%list_elem_of_singleton]%elem_of_app; [pose proof (Habove _ Hs); lia|lia].
  - done.
Qed.

Lemma contains_wf l w seq :
  window_wf l w → contains w seq = Ok (bool_decide (seq < lower w ∨ seq ∈ l)).
Proof.
  intros Hwf. pose proof (upper_eq _ _ Hwf) as Hup. destruct Hwf as [Hlo Hbits Habove].
  unfold contains. rewrite Hup. destruct (Z.ltb_spec (lower w + 127) seq).
  { f_equal. symmetry. apply bool_decide_eq_false_2. intros [?|?%Habove]; lia. }
  destruct (Z.ltb_spec seq (lower w)).
  { f_equal. symmetry. apply bool_decide_eq_true_2. by left. }
  rewrite usub_ok by lia. simpl. unfold shl128. rewrite (proj2 (Z.ltb_lt _ _)) by lia. simpl.
  rewrite test_mask, Hbits by lia. f_equal. apply bool_decide_ext.
  split; [by right|]. intros [?|?]; [lia|done].
Qed.

(** A connection's whole history of received numbers. *)
Fixpoint insert_all (l : list Z) : M t Error unit :=
  match l with
  | [] => mret ()
  | seq :: l => insert seq;; insert_all l
  end.

(** No number is [2^32] or more past the window as it stands. *)
Fixpoint no_far_jump (lo : Z) (l : list Z) : bool :=
  match l with
  | [] => true
  | seq :: l => (seq - (lo + 127) <? 2 ^ 32) && no_far_jump (slide_to lo seq) l
  end.

Lemma insert_all_wf l : ∀ l0 w,
  window_wf l0 w → Forall (λ s, 0 <= s < 2 ^ 62) l → no_far_jump (lower w) l = true →
  ∃ w', insert_all l w = (Ok (), w') ∧ window_wf (l0 ++ l) w' ∧
        lower w' = foldl slide_to (lower w) l.
Proof.
  induction l as [|seq l IH]; intros l0 w Hwf Hl Hj.
  { exists w. by rewrite app_nil_r. }
  inversion Hl as [|? ? Hseq Hl']; subst. simpl in Hj. apply andb_prop in Hj as [Hj1 Hj2].
  apply Z.ltb_lt in Hj1. destruct (insert_wf l0 w seq Hwf Hseq Hj1) as (w1 & Hrun & Hwf1 & Hlo1).
  rewrite <- Hlo1 in Hj2. destruct (IH _ _ Hwf1 Hl' Hj2) as (w' & Hrun' & Hwf' & Hlo').
  exists w'. simpl. rewrite (run_bind_ok _ _ _ _ _ Hrun). split; [done|].
  rewrite <- app_assoc in Hwf'. split; [done|]. by rewrite <- Hlo1.
Qed.

(** After any history of insertions in which no number lies [2^32] or more
    past the window, [contains] answers true exactly for the numbers that were
    inserted and for those below the window, whose lower edge is 127 below the
    largest number inserted: no packet is processed twice, and inside the
    window no packet is dropped that was not received before. *)
Theorem window_filters (l : list Z) :
  Forall (λ s, 0 <= s < 2 ^ 62) l → no_far_jump 0 l = true →
  ∃ w, insert_all l default = (Ok (), w) ∧
    lower w = foldl slide_to 0 l ∧
    ∀ seq, contains w seq = Ok (bool_decide (seq < lower w ∨ seq ∈ l)).
Proof.
  intros Hl Hj. destruct (insert_all_wf l [] default window_wf_default Hl Hj) as (w & Hrun & Hwf & Hlo).
  exists w. split; [done|]. split; [done|]. intros seq. by apply contains_wf.
Qed.

Lemma window_filters_witness :
  no_far_jump 0 [3; 500; 400; 2] = true ∧
  ∃ w, insert_all [3; 500; 400; 2] default = (Ok (), w) ∧ lower w = 373 ∧
    ∀ seq, contains w seq = Ok (bool_decide (seq < lower w ∨ seq ∈ [3; 500; 400; 2])).
Proof.
  split; [done|]. apply (window_filters [3; 500; 400; 2]); [|done].
  repeat constructor; vm_compute; congruence.
Defined.

(** The shift count of the window is cut to 32 bits: when a number
    [2^32 + 1] past the upper edge arrives, the window slides by one bit, and
    the number before it, which never arrived, is then reported as received. *)
Theorem window_stale_bit s :
  127 <= s < 2 ^ 32 →
  ∃ w, insert_all [s; s + 2 ^ 32 + 1] default = (Ok (), w) ∧
       contains w (s + 2 ^ 32) = Ok true.
Proof.
  intros Hs. change (2 ^ 32) with 4294967296 in *.
  destruct (insert_all_wf [s] [] default window_wf_default) as (w & Hrun & Hwf & Hlo).
  { repeat constructor; lia. }
  { simpl. rewrite andb_true_r. apply Z.ltb_lt. change (2 ^ 32) with 4294967296. lia. }
  assert (lower w = s - 127) as Hl. { rewrite Hlo. unfold slide_to. simpl. lia. }
  pose proof (upper_eq _ _ Hwf) as Hup. pose proof (wf_bits _ _ Hwf s) as Hbit.
  rewrite bool_decide_eq_true_2 in Hbit by set_solver. rewrite Hl in Hbit.
  replace (s - 127 + 127 - s) with 0 in Hbit by lia. specialize (Hbit ltac:(lia)).
  set (v := Z.lor (u128_mask (Z.shiftl (window w) 1)) 1).
  exists (mk (s + 4294967296 + 1 - 127) v). split.
  - simpl in Hrun |- *. unfold mbind, M_bind in Hrun |- *.
    destruct (insert s default) as [[[]| |] w'] eqn:E; [|done|done].
    injection Hrun as ->. unfold insert. rewrite run_bind_get.
    rewrite (proj2 (Z.ltb_ge _ _)), Hup by lia. rewrite (proj2 (Z.ltb_lt _ _)) by lia.
    unfold mbind, M_bind, lift, put, get. rewrite Hl, uadd_ok by lia.
    replace (s + 4294967296 + 1 - (s - 127 + 127)) with 4294967297 by lia.
    unfold upper, saturating_add. simpl. rewrite Z.min_r by lia.
    replace (s - 127 + 4294967297 + 128 - 1) with (s + 4294967296 + 1) by lia.
    rewrite usub_ok, Z.sub_diag by lia. simpl. unfold v. by replace (s - 127 + 4294967297) with (s + 4294967296 + 1 - 127) by lia.
  - unfold contains, upper, saturating_add. simpl. rewrite Z.min_r by lia.
    replace (s + 4294967296 + 1 - 127 + 128 - 1) with (s + 4294967296 + 1) by lia.
    rewrite (proj2 (Z.ltb_ge _ _)), (proj2 (Z.ltb_ge _ _)), usub_ok by lia. simpl.
    replace (s + 4294967296 + 1 - (s + 4294967296)) with 1 by lia. unfold shl128. simpl.
    change 2 with (2 ^ 1). rewrite test_mask by lia. unfold v, u128_mask.
    rewrite Z.lor_spec, Z.land_spec, Z.shiftl_spec by lia. change (1 - 1) with 0. by rewrite Hbit.
Qed.

Lemma window_stale_bit_witness :
  127 <= 200 < 2 ^ 32 ∧
  ∃ w, insert_all [200; 200 + 2 ^ 32 + 1] default = (Ok (), w) ∧
       contains w (200 + 2 ^ 32) = Ok true.
Proof. split; [lia|]. apply (window_stale_bit 200). lia. Defined.
End window.
