(* ===== verification/Packets.v ===== *)
(** * Packet headers: [quiche/src/packet.rs]

    Packet types and epochs, the header record, its parser [from_bytes] and
    writer [to_bytes], version negotiation and Retry packets.  A connection id
    is its bytes (owned and borrowed ids compare and hash by their bytes).
    The AES-128-GCM tag of a Retry packet is a parameter. *)
From S2P Require Import Prelude OctetsLib.

Definition FORM_BIT : Z := 0x80.
Definition FIXED_BIT : Z := 0x40.
Definition KEY_PHASE_BIT : Z := 0x04.
Definition TYPE_MASK : Z := 0x30.
Definition PKT_NUM_MASK : Z := 0x03.
Definition MAX_CID_LEN : Z := 20.
Definition PROTOCOL_VERSION_V1 : Z := 0x00000001.

Definition version_is_supported (version : Z) : bool := version =? PROTOCOL_VERSION_V1.

Module Epoch.
Inductive t := Initial | Handshake | Application.
#[global] Instance t_eq_dec : EqDecision t.
Proof. solve_decision. Defined.

Definition to_usize (e : t) : Z :=
  match e with Initial => 0 | Handshake => 1 | Application => 2 end.

Definition EPOCHS : list t := [Initial; Handshake; Application].
Definition count : Z := 3.

(** [EPOCHS[start ..= end]]: slicing panics when [start > end + 1]. *)
Definition epochs (start stop : t) : result Error (list t) :=
  if to_usize stop + 1 <? to_usize start then Panic
  else Ok (zslice (to_usize start) (to_usize stop + 1) EPOCHS).
End Epoch.

(** [enum Type] *)
Module PktType.
Inductive t := Initial | Retry | Handshake | ZeroRTT | VersionNegotiation | Short.
#[global] Instance t_eq_dec : EqDecision t.
Proof. solve_decision. Defined.

Definition from_epoch (e : Epoch.t) : t :=
  match e with
  | Epoch.Initial => Initial
  | Epoch.Handshake => Handshake
  | Epoch.Application => Short
  end.

Definition to_epoch (ty : t) : result Error Epoch.t :=
  match ty with
  | Initial => Ok Epoch.Initial
  | ZeroRTT => Ok Epoch.Application
  | Handshake => Ok Epoch.Handshake
  | Short => Ok Epoch.Application
  | _ => Err InvalidPacket
  end.
End PktType.

Module Header.
Record t := mk {
  ty : PktType.t;
  version : Z;
  dcid : list Z;
  scid : list Z;
  pkt_num : Z;
  pkt_num_len : Z;
  token : option (list Z);
  versions : option (list Z);
  key_phase : bool
}.

Definition is_long (b : Z) : bool := negb (Z.land b FORM_BIT =? 0).

(** The type bits of a long header. *)
Definition long_type (first version : Z) : result Error PktType.t :=
  if version =? 0 then Ok PktType.VersionNegotiation
  else
    let k := Z.shiftr (Z.land first TYPE_MASK) 4 in
    if k =? 0 then Ok PktType.Initial
    else if k =? 1 then Ok PktType.ZeroRTT
    else if k =? 2 then Ok PktType.Handshake
    else if k =? 3 then Ok PktType.Retry
    else Err InvalidPacket.

(** A length-prefixed connection id of a long header. *)
Definition get_cid (version : Z) : M octets Error (list Z) :=
  cid_len ← OctetsMut.get_u8;
  if version_is_supported version && (MAX_CID_LEN <? cid_len) then fail InvalidPacket
  else
    b ← OctetsMut.get_bytes cid_len;
    mret (Octets.to_vec b).

(** [aead::AES_128_GCM.tag_len()] *)
Definition tag_len : Z := 16.

(** [while b.cap() > 0]: every turn reads four bytes or stops. *)
Fixpoint get_versions (fuel : nat) (acc : list Z) : M octets Error (list Z) :=
  c ← reads OctetsMut.cap;
  if c <=? 0 then mret acc
  else
    match fuel with
    | O => panic
    | S fuel =>
        version ← OctetsMut.get_u32;
        get_versions fuel (acc ++ [version])
    end.

(** The fields that depend on the type: token and list of versions. *)
Definition get_type_fields (ty : PktType.t) :
    M octets Error (option (list Z) * option (list Z)) :=
  match ty with
  | PktType.Initial =>
      b ← OctetsMut.get_bytes_with_varint_length;
      mret (Some (Octets.to_vec b), None)
  | PktType.Retry =>
      c ← reads OctetsMut.cap;
      if c <? tag_len then fail InvalidPacket
      else
        b ← OctetsMut.get_bytes (c - tag_len);
        mret (Some (Octets.to_vec b), None)
  | PktType.VersionNegotiation =>
      c ← reads OctetsMut.cap;
      l ← get_versions (Z.to_nat c) [];
      mret (None, Some l)
  | _ => mret (None, None)
  end.

Definition from_bytes (dcid_len : Z) : M octets Error t :=
  first ← OctetsMut.get_u8;
  if negb (is_long first) then
    dcid ← OctetsMut.get_bytes dcid_len;
    mret (mk PktType.Short 0 (Octets.to_vec dcid) [] 0 0 None None false)
  else
    version ← OctetsMut.get_u32;
    ty ← lift (long_type first version);
    dcid ← get_cid version;
    scid ← get_cid version;
    '(token, versions) ← get_type_fields ty;
    mret (mk ty version dcid scid 0 0 token versions false).

Definition from_slice (buf : list Z) (dcid_len : Z) : result Error t :=
  (from_bytes dcid_len (OctetsMut.with_slice buf)).1.

Definition short_first (hdr : t) : Z :=
  let first := as_u8 (saturating_sub (pkt_num_len hdr) 1) in
  let first := Z.ldiff first FORM_BIT in
  let first := Z.lor first FIXED_BIT in
  if key_phase hdr then Z.lor first KEY_PHASE_BIT else Z.ldiff first KEY_PHASE_BIT.

Definition type_bits (ty : PktType.t) : result Error Z :=
  match ty with
  | PktType.Initial => Ok 0
  | PktType.ZeroRTT => Ok 1
  | PktType.Handshake => Ok 2
  | PktType.Retry => Ok 3
  | _ => Err InvalidPacket
  end.

Definition long_first (hdr : t) (ty : Z) : Z :=
  Z.lor (as_u8 (saturating_sub (pkt_num_len hdr) 1))
        (Z.lor (Z.lor FORM_BIT FIXED_BIT) (as_u8 (Z.shiftl ty 4))).

(** Only Initial and Retry packets have a token. *)
Definition put_type_fields (hdr : t) : M octets Error unit :=
  match ty hdr with
  | PktType.Initial =>
      match token hdr with
      | Some v => OctetsMut.put_varint (zlen v);; OctetsMut.put_bytes v
      | None => OctetsMut.put_varint 0;; mret ()
      end
  | PktType.Retry =>
      v ← lift (match token hdr with Some v => Ok v | None => Panic end);
      OctetsMut.put_bytes v
  | _ => mret ()
  end.

Definition to_bytes (hdr : t) : M octets Error unit :=
  if decide (ty hdr = PktType.Short) then
    OctetsMut.put_u8 (short_first hdr);;
    OctetsMut.put_bytes (dcid hdr);;
    mret ()
  else
    k ← lift (type_bits (ty hdr));
    OctetsMut.put_u8 (long_first hdr k);;
    OctetsMut.put_u32 (version hdr);;
    OctetsMut.put_u8 (as_u8 (zlen (dcid hdr)));;
    OctetsMut.put_bytes (dcid hdr);;
    OctetsMut.put_u8 (as_u8 (zlen (scid hdr)));;
    OctetsMut.put_bytes (scid hdr);;
    put_type_fields hdr;;
    mret ().
End Header.

(** [negotiate_version]; [r] is the byte [rand::rand_u8()] returned. *)
Definition negotiate_version (r : Z) (scid dcid : list Z) : M octets Error Z :=
  OctetsMut.put_u8 (Z.lor r FORM_BIT);;
  OctetsMut.put_u32 0;;
  OctetsMut.put_u8 (as_u8 (zlen scid));;
  OctetsMut.put_bytes scid;;
  OctetsMut.put_u8 (as_u8 (zlen dcid));;
  OctetsMut.put_bytes dcid;;
  OctetsMut.put_u32 PROTOCOL_VERSION_V1;;
  gets OctetsMut.off.

(** ** Retry packets *)

(** [LessSafeKey::seal_in_place_separate_tag] of ring on an empty message:
    key, nonce and associated data to a tag of sixteen bytes. *)
Class RetryTag := gcm_seal_empty : list Z → list Z → list Z → option (list Z).

Section retry.
Context `{RetryTag}.

Definition RETRY_INTEGRITY_KEY_V1 : list Z :=
  [0xbe; 0x0c; 0x69; 0x0b; 0x9f; 0x66; 0x57; 0x5a; 0x1d; 0x76; 0x6b; 0x54;
   0xe3; 0x68; 0xc8; 0x4e].
Definition RETRY_INTEGRITY_NONCE_V1 : list Z :=
  [0x46; 0x15; 0x99; 0xd3; 0x5d; 0x63; 0x2b; 0xf2; 0x23; 0x98; 0x25; 0xbb].

(** Both arms of [match version] pick the same key and nonce. *)
Definition compute_retry_integrity_tag (b : octets) (odcid : list Z) (version : Z) :
    result Error (list Z) :=
  let hdr_len := OctetsMut.off b in
  if zlen (OctetsMut.buf b) <? hdr_len then Panic
  else
    let pseudo := replicate (Z.to_nat (1 + zlen odcid + hdr_len)) 0 in
    let '(r, pb) :=
      (OctetsMut.put_u8 (as_u8 (zlen odcid));;
       OctetsMut.put_bytes odcid;;
       OctetsMut.put_bytes (ztake hdr_len (OctetsMut.buf b)))
      (OctetsMut.with_slice pseudo) in
    match r with
    | Ok _ =>
        match gcm_seal_empty RETRY_INTEGRITY_KEY_V1 RETRY_INTEGRITY_NONCE_V1 (OctetsMut.buf pb) with
        | Some tag => Ok tag
        | None => Err CryptoFail
        end
    | Err e => Err e
    | Panic => Panic
    end.

(** [&b.as_ref()[..16]] panics when fewer bytes are left. *)
Definition verify_retry_integrity (b : octets) (odcid : list Z) (version : Z) :
    result Error unit :=
  tag ← compute_retry_integrity_tag b odcid version;
  if zlen (OctetsMut.as_ref b) <? Header.tag_len then Panic
  else if bool_decide (ztake Header.tag_len (OctetsMut.as_ref b) = tag) then Ok ()
  else Err CryptoFail.

Definition retry (scid dcid new_scid token : list Z) (version : Z) : M octets Error Z :=
  if negb (version_is_supported version) then fail UnknownVersion
  else
    let hdr := Header.mk PktType.Retry version scid new_scid 0 0 (Some token) None false in
    Header.to_bytes hdr;;
    tag ← reads (λ b, compute_retry_integrity_tag b dcid version);
    OctetsMut.put_bytes tag;;
    gets OctetsMut.off.
End retry.

(** ** The wire format *)

Section wire.
Import Header.
Implicit Types (c dcid scid : list Z) (h : t).

Definition cid_bytes c : list Z := [zlen c] ++ c.

Definition long_bytes (first version : Z) dcid scid (extra : list Z) : list Z :=
  [first] ++ be_bytes 4 version ++ cid_bytes dcid ++ cid_bytes scid ++ extra.

(** A connection id fits its length byte, and the limit of version 1. *)
Definition cid_ok (version : Z) c : Prop :=
  zlen c <= 255 ∧ (version_is_supported version = true → zlen c <= MAX_CID_LEN).

Lemma as_u8_small v : 0 <= v <= 255 → as_u8 v = v.
Proof. intros. apply Z.mod_small. change (2 ^ 8) with 256. lia. Qed.

(** A writer followed by [Ok(())]. *)
Lemma writes_then_ret {A B} (m : M octets Error A) (b : B) bs :
  writes m bs → writes (m;; mret b) bs.
Proof.
  intros Hm. rewrite <- (app_nil_r bs). apply writes_bind; [done|]. intros _. apply writes_ret.
Qed.

Lemma get_cid_parses v c : cid_ok v c → parses (get_cid v) (cid_bytes c) c.
Proof.
  intros [Hl Hs]. unfold get_cid, cid_bytes. eapply parses_bind; [apply get_u8_parses|].
  destruct (version_is_supported v); simpl.
  - rewrite (proj2 (Z.ltb_ge _ _)) by auto.
    eapply parses_bind_ret; [by apply get_bytes_parses|done].
  - eapply parses_bind_ret; [by apply get_bytes_parses|done].
Qed.

Lemma put_cid_writes c {B} (k : M octets Error B) bs :
  zlen c <= 255 → writes k bs →
  writes (OctetsMut.put_u8 (as_u8 (zlen c));; OctetsMut.put_bytes c;; k) (cid_bytes c ++ bs).
Proof.
  intros Hc Hk. pose proof (zlen_nonneg c). unfold cid_bytes. rewrite <- app_assoc, as_u8_small by lia.
  apply writes_bind; [apply put_u8_writes; unfold is_u8; lia|]. intros _.
  apply writes_bind; [apply put_bytes_writes|done].
Qed.

Lemma put_u32_writes v : writes (E:=Error) (OctetsMut.put_u32 v) (be_bytes 4 v).
Proof. by apply (put_u_writes v 4). Qed.

Lemma get_u32_parses v : 0 <= v < 2 ^ 32 → parses (E:=Error) OctetsMut.get_u32 (be_bytes 4 v) v.
Proof. intros. by apply (get_u_be_parses 4 4 v). Qed.

(** A long header parses field by field, up to the type-dependent part, which
    for two of the types reads to the end of the buffer. *)
Lemma from_bytes_long_into n first version ty dcid scid :
  is_long first = true → 0 <= version < 2 ^ 32 → long_type first version = Ok ty →
  cid_ok version dcid → cid_ok version scid →
  reads_into (from_bytes n) (long_bytes first version dcid scid [])
    ('(token, versions) ← get_type_fields ty;
     mret (mk ty version dcid scid 0 0 token versions false)).
Proof.
  intros Hl Hv Hty Hd Hs. unfold from_bytes, long_bytes.
  eapply reads_into_bind; [apply get_u8_parses|]. rewrite Hl. cbn [negb].
  eapply reads_into_bind; [by apply get_u32_parses|].
  intros pre rest. rewrite (run_bind_lift _ _ _ _ Hty). revert pre rest.
  eapply reads_into_bind; [by apply get_cid_parses|].
  eapply reads_into_bind; [by apply get_cid_parses|]. apply reads_into_refl.
Qed.

Lemma long_bytes_app first version dcid scid extra :
  long_bytes first version dcid scid extra = long_bytes first version dcid scid [] ++ extra.
Proof. unfold long_bytes. by rewrite app_nil_r, <- !app_assoc. Qed.

Lemma zlen_long_bytes first version dcid scid extra :
  zlen (long_bytes first version dcid scid extra) = 7 + zlen dcid + zlen scid + zlen extra.
Proof. unfold long_bytes, cid_bytes. rewrite !zlen_app, zlen_be_bytes, !zlen_cons, zlen_nil. lia. Qed.

Lemma from_bytes_long n first version ty dcid scid extra f :
  is_long first = true → 0 <= version < 2 ^ 32 → long_type first version = Ok ty →
  cid_ok version dcid → cid_ok version scid →
  parses (get_type_fields ty) extra f →
  parses (from_bytes n) (long_bytes first version dcid scid extra)
    (mk ty version dcid scid 0 0 f.1 f.2 false).
Proof.
  intros Hl Hv Hty Hd Hs Hf. rewrite long_bytes_app.
  eapply reads_into_parses; [by apply from_bytes_long_into|].
  eapply parses_bind_ret; [done|]. by destruct f.
Qed.

Lemma from_bytes_short n first c :
  is_long first = false → n = zlen c →
  parses (from_bytes n) ([first] ++ c) (mk PktType.Short 0 c [] 0 0 None None false).
Proof.
  intros Hl Hn. unfold from_bytes. eapply parses_bind; [apply get_u8_parses|].
  rewrite Hl. cbn [negb]. eapply parses_bind_ret; [by apply get_bytes_parses|done].
Qed.

(** *** First bytes *)

Lemma low_bits_cases n :
  0 <= n <= 4 → ∃ l, as_u8 (saturating_sub n 1) = l ∧ (l = 0 ∨ l = 1 ∨ l = 2 ∨ l = 3).
Proof.
  intros Hn. unfold saturating_sub. exists (Z.max 0 (n - 1)). split; [apply as_u8_small; lia|lia].
Qed.

Lemma long_first_spec h ty k version :
  0 <= pkt_num_len h <= 4 → type_bits ty = Ok k → version ≠ 0 →
  is_u8 (long_first h k) ∧ is_long (long_first h k) = true ∧
  long_type (long_first h k) version = Ok ty.
Proof.
  intros Hp Hk Hv. unfold long_first, long_type. rewrite (proj2 (Z.eqb_neq _ _) Hv).
  destruct (low_bits_cases _ Hp) as (l & -> & Hl). unfold is_u8.
  destruct ty; simplify_eq/=; destruct Hl as [-> | [-> | [-> | ->]]];
    (split; [vm_compute; split; discriminate|split; reflexivity]).
Qed.

Lemma short_first_spec h :
  0 <= pkt_num_len h <= 4 → is_u8 (short_first h) ∧ is_long (short_first h) = false.
Proof.
  intros Hp. unfold short_first. destruct (low_bits_cases _ Hp) as (l & -> & Hl). unfold is_u8.
  destruct (key_phase h), Hl as [-> | [-> | [-> | ->]]];
    (split; [vm_compute; split; discriminate|reflexivity]).
Qed.

Lemma to_bytes_long h k extra :
  type_bits (ty h) = Ok k → is_u8 (long_first h k) →
  zlen (dcid h) <= 255 → zlen (scid h) <= 255 → writes (put_type_fields h) extra →
  writes (to_bytes h) (long_bytes (long_first h k) (version h) (dcid h) (scid h) extra).
Proof.
  intros Hk Hu Hd Hs He pre old rest Hold. unfold to_bytes.
  rewrite decide_False by (intros Hty; rewrite Hty in Hk; discriminate).
  rewrite (run_bind_lift _ _ _ _ Hk). revert pre old rest Hold. unfold long_bytes.
  apply writes_bind; [by apply put_u8_writes|]. intros _.
  apply writes_bind; [apply put_u32_writes|]. intros _.
  apply put_cid_writes; [done|]. apply put_cid_writes; [done|].
  by apply writes_then_ret.
Qed.

(** *** Round trip *)

(** The header a receiver reconstructs: the packet number and the key phase
    are still protected, and an Initial packet always has a token. *)
Definition as_parsed h : t :=
  match ty h with
  | PktType.Short => mk PktType.Short 0 (dcid h) [] 0 0 None None false
  | ty =>
      let token :=
        match ty with
        | PktType.Initial => Some (match token h with Some v => v | None => [] end)
        | _ => None
        end in
      mk ty (version h) (dcid h) (scid h) 0 0 token None false
  end.

Record header_ok h : Prop := {
  hok_type : ty h ≠ PktType.Retry ∧ ty h ≠ PktType.VersionNegotiation;
  hok_len : 0 <= pkt_num_len h <= 4;
  hok_version : 0 < version h < 2 ^ 32;
  hok_dcid : cid_ok (version h) (dcid h);
  hok_scid : cid_ok (version h) (scid h);
  hok_token : ∀ v, token h = Some v → is_varint (zlen v)
}.

(** C29. Packet headers round-trip.  For every Initial, 0-RTT, Handshake and
    short header within the limits of the format, [to_bytes] writes exactly some
    bytes [bs], wherever the cursor stands, and [from_bytes] at those bytes,
    whatever follows them, consumes exactly [bs] and returns the same type,
    version, connection ids and token. *)
Theorem header_roundtrip h :
  header_ok h →
  ∃ bs, writes (to_bytes h) bs ∧ parses (from_bytes (zlen (dcid h))) bs (as_parsed h).
Proof.
  intros [[Hr Hn] Hlen Hv Hd Hs Ht].
  destruct (decide (ty h = PktType.Short)) as [Hty|Hty].
  - destruct (short_first_spec h Hlen) as [Hu Hl]. exists ([short_first h] ++ dcid h). split.
    + unfold to_bytes. rewrite decide_True by done.
      apply writes_bind; [by apply put_u8_writes|]. intros _.
      apply writes_then_ret, put_bytes_writes.
    + unfold as_parsed. rewrite Hty. by apply from_bytes_short.
  - assert (∃ k, type_bits (ty h) = Ok k) as [k Hk] by (destruct (ty h); eauto; done).
    destruct (long_first_spec h (ty h) k (version h) Hlen Hk) as (Hu & Hl & Hlt); [lia|].
    assert (∃ extra f, writes (put_type_fields h) extra ∧ parses (get_type_fields (ty h)) extra f ∧
      as_parsed h = mk (ty h) (version h) (dcid h) (scid h) 0 0 f.1 f.2 false)
      as (extra & f & Hw & Hp & ->).
    { unfold put_type_fields, get_type_fields, as_parsed. destruct (ty h); try done.
      - set (v := match token h with Some v => v | None => [] end).
        assert (is_varint (zlen v)) as Hvar.
        { unfold v. destruct (token h) as [w|]; [by apply Ht|]. by rewrite zlen_nil. }
        exists (enc_varint (zlen v) ++ v), (Some v, None). split; [|split; [|done]].
        + unfold v in *. destruct (token h) as [w|].
          * apply writes_bind; [by apply put_varint_writes|]. intros _. apply put_bytes_writes.
          * apply writes_bind; [by apply put_varint_writes|]. intros _. apply writes_ret.
        + eapply parses_bind_ret; [by apply get_bytes_with_varint_length_parses|done].
      - exists [], (None, None). split; [apply writes_ret|]. split; [apply parses_ret|done].
      - exists [], (None, None). split; [apply writes_ret|]. split; [apply parses_ret|done]. }
    exists (long_bytes (long_first h k) (version h) (dcid h) (scid h) extra). split.
    + apply to_bytes_long; [done..| | |done]; [apply Hd|apply Hs].
    + apply from_bytes_long; [done| |done..]. lia.
Qed.

Lemma header_roundtrip_witness :
  let h := mk PktType.Initial 1 [1; 2; 3] [9] 77 2 (Some [5; 5]) None false in
  ∃ bs, writes (to_bytes h) bs ∧ parses (from_bytes 3) bs
    (mk PktType.Initial 1 [1; 2; 3] [9] 0 0 (Some [5; 5]) None false).
Proof.
  intros h. apply (header_roundtrip h). constructor.
  - split; discriminate.
  - simpl; lia.
  - simpl; lia.
  - split; [vm_compute; discriminate|intros _; vm_compute; discriminate].
  - split; [vm_compute; discriminate|intros _; vm_compute; discriminate].
  - intros v [= <-]. vm_compute. split; discriminate.
Defined.

(** *** Version negotiation *)

Lemma put_cid_writes_to c (k : M octets Error Z) bs :
  zlen c <= 255 → writes_to k bs →
  writes_to (OctetsMut.put_u8 (as_u8 (zlen c));; OctetsMut.put_bytes c;; k) (cid_bytes c ++ bs).
Proof.
  intros Hc Hk. pose proof (zlen_nonneg c). unfold cid_bytes. rewrite <- app_assoc, as_u8_small by lia.
  apply writes_to_bind; [apply put_u8_writes; unfold is_u8; lia|]. intros _.
  apply writes_to_bind; [apply put_bytes_writes|done].
Qed.

Lemma form_bit_spec r :
  is_u8 r → is_u8 (Z.lor r FORM_BIT) ∧ is_long (Z.lor r FORM_BIT) = true.
Proof.
  intros Hr. split.
  - unfold is_u8 in *. split; [apply Z.lor_nonneg; unfold FORM_BIT; lia|].
    assert (Z.lor r FORM_BIT < 2 ^ 8) as Hlt; [|change (2 ^ 8) with 256 in Hlt; lia].
    destruct (decide (Z.lor r FORM_BIT = 0)) as [->|Hne]; [done|].
    apply Z.log2_lt_pow2; [assert (0 <= Z.lor r FORM_BIT) by (apply Z.lor_nonneg; unfold FORM_BIT; lia); lia|].
    rewrite Z.log2_lor by (unfold FORM_BIT; lia). apply Z.max_lub_lt; [|done].
    destruct (decide (r = 0)) as [->|]; [done|]. apply Z.log2_lt_pow2; change (2 ^ 8) with 256; lia.
  - unfold is_long. change FORM_BIT with (2 ^ 7).
    assert (Z.testbit (Z.land (Z.lor r (2 ^ 7)) (2 ^ 7)) 7 = true) as Hb.
    { by rewrite Z.land_spec, Z.lor_spec, Z.pow2_bits_true, orb_true_r. }
    destruct (Z.eqb_spec (Z.land (Z.lor r (2 ^ 7)) (2 ^ 7)) 0) as [E|]; [|done].
    rewrite E, Z.bits_0 in Hb. done.
Qed.

Lemma get_versions_single fuel v pre :
  0 <= v < 2 ^ 32 →
  get_versions (S fuel) [] (mk_octets (pre ++ be_bytes 4 v) (zlen pre)) =
  (Ok [v], mk_octets (pre ++ be_bytes 4 v) (zlen pre + 4)).
Proof.
  intros Hv. cbn [get_versions].
  rewrite (run_bind_reads _ _ _ 4).
  2:{ unfold OctetsMut.cap. cbn [o_buf o_off]. rewrite usub_ok; rewrite zlen_app, zlen_be_bytes; [f_equal|]; lia. }
  zdecide. pose proof (get_u32_parses v Hv pre []) as Hg. rewrite app_nil_r in Hg.
  rewrite (run_bind_ok _ _ _ _ _ Hg), zlen_be_bytes.
  assert (∀ fuel' l, get_versions fuel' l
    (mk_octets (pre ++ be_bytes 4 v) (zlen pre + Z.of_nat 4)) =
    (Ok l, mk_octets (pre ++ be_bytes 4 v) (zlen pre + 4))) as Hend.
  { intros fuel' l. destruct fuel'; cbn [get_versions]; rewrite (run_bind_reads _ _ _ 0);
      [done| |done|];
      (unfold OctetsMut.cap; cbn [o_buf o_off];
       rewrite usub_ok; rewrite zlen_app, zlen_be_bytes; [f_equal|]; lia). }
  by rewrite Hend.
Qed.

(** A version negotiation packet is understood by [from_bytes]: whatever
    random byte was drawn, the packet written for the client's source and
    destination ids (at most 255 bytes each) parses to a VersionNegotiation
    header addressed to the client, listing exactly version 1. *)
Theorem negotiate_version_parses r scid dcid out n :
  is_u8 r → zlen scid <= 255 → zlen dcid <= 255 →
  11 + zlen scid + zlen dcid <= zlen out →
  ∃ len o, negotiate_version r scid dcid (OctetsMut.with_slice out) = (Ok len, o) ∧
    len = 11 + zlen scid + zlen dcid ∧
    from_slice (ztake len (o_buf o)) n =
      Ok (mk PktType.VersionNegotiation 0 scid dcid 0 0 None (Some [PROTOCOL_VERSION_V1]) false).
Proof.
  intros Hr Hs Hd Hout. set (first := Z.lor r FORM_BIT).
  destruct (form_bit_spec r Hr) as [Hu Hl].
  set (lb := long_bytes first 0 scid dcid []). set (bs := lb ++ be_bytes 4 PROTOCOL_VERSION_V1).
  assert (zlen lb = 7 + zlen scid + zlen dcid) as Hlb
    by (unfold lb; rewrite zlen_long_bytes, zlen_nil; lia).
  assert (zlen bs = 11 + zlen scid + zlen dcid) as Hbs
    by (unfold bs; rewrite zlen_app, zlen_be_bytes; lia).
  assert (writes_to (negotiate_version r scid dcid) bs) as Hw.
  { unfold bs, lb. rewrite <- long_bytes_app. unfold negotiate_version, long_bytes.
    apply writes_to_bind; [by apply put_u8_writes|]. intros _.
    apply writes_to_bind; [apply put_u32_writes|]. intros _.
    apply put_cid_writes_to; [done|]. apply put_cid_writes_to; [done|].
    rewrite <- (app_nil_r (be_bytes 4 _)).
    apply writes_to_bind; [apply put_u32_writes|]. intros _. apply writes_to_off. }
  rewrite (writes_to_run _ _ _ Hw) by lia. do 2 eexists. split; [done|]. split; [done|].
  cbn [o_buf]. rewrite ztake_app. unfold from_slice, OctetsMut.with_slice.
  assert (long_type first 0 = Ok PktType.VersionNegotiation) as Hty by done.
  pose proof (from_bytes_long_into n first 0 PktType.VersionNegotiation scid dcid Hl
    ltac:(lia) Hty ltac:(split; [done|discriminate]) ltac:(split; [done|discriminate])
    [] (be_bytes 4 PROTOCOL_VERSION_V1)) as Hrun.
  change ([] ++ ?l) with l in Hrun. fold lb in Hrun. fold bs in Hrun.
  change (zlen (@nil Z)) with 0 in Hrun. change (0 + zlen lb) with (zlen lb) in Hrun.
  rewrite Hrun. unfold get_type_fields. rewrite run_bind_assoc, (run_bind_reads _ _ _ 4).
  - rewrite run_bind_assoc. unfold bs.
    by rewrite (run_bind_ok _ _ _ _ _ (get_versions_single 3 PROTOCOL_VERSION_V1 lb ltac:(done))).
  - unfold OctetsMut.cap. cbn [o_buf o_off]. rewrite usub_ok by lia. f_equal. lia.
Qed.

Lemma negotiate_version_parses_witness :
  ∃ len o, negotiate_version 0x2a [7; 7] [8] (OctetsMut.with_slice (replicate 20 0)) = (Ok len, o) ∧
    len = 14 ∧
    from_slice (ztake len (o_buf o)) 4 =
      Ok (mk PktType.VersionNegotiation 0 [7; 7] [8] 0 0 None (Some [1]) false).
Proof.
  apply (negotiate_version_parses 0x2a [7; 7] [8] (replicate 20 0) 4);
    [split; vm_compute; discriminate|vm_compute; discriminate..].
Defined.

End wire.

(** ** Retry *)

Section retry_lemmas.
Context `{RetryTag}.
Import Header.
Implicit Types (dcid scid odcid token : list Z).

(** The associated data of the tag: the original id, then the packet. *)
Definition retry_pseudo (odcid pkt : list Z) : list Z := [as_u8 (zlen odcid)] ++ odcid ++ pkt.

Definition retry_tag (odcid pkt : list Z) : option (list Z) :=
  gcm_seal_empty RETRY_INTEGRITY_KEY_V1 RETRY_INTEGRITY_NONCE_V1 (retry_pseudo odcid pkt).

Lemma as_u8_is_u8 v : is_u8 (as_u8 v).
Proof. unfold is_u8, as_u8. pose proof (Z.mod_pos_bound v (2 ^ 8) ltac:(lia)). change (2 ^ 8) with 256 in *. lia. Qed.

Lemma compute_tag_eq pkt rest odcid v :
  compute_retry_integrity_tag (mk_octets (pkt ++ rest) (zlen pkt)) odcid v =
  match retry_tag odcid pkt with Some tag => Ok tag | None => Err CryptoFail end.
Proof.
  pose proof (zlen_nonneg rest). pose proof (zlen_nonneg pkt). pose proof (zlen_nonneg odcid).
  unfold compute_retry_integrity_tag, OctetsMut.off, OctetsMut.buf. cbn [o_off o_buf].
  rewrite (proj2 (Z.ltb_ge _ _)) by (rewrite zlen_app; lia). rewrite ztake_app.
  set (blank := replicate _ 0).
  assert (zlen blank = zlen (retry_pseudo odcid pkt)) as Hblank.
  { unfold blank, retry_pseudo. unfold zlen at 1. rewrite length_replicate, Z2Nat.id by lia.
    rewrite !zlen_app, zlen_cons, zlen_nil. lia. }
  assert (writes (E:=Error) (OctetsMut.put_u8 (as_u8 (zlen odcid));; OctetsMut.put_bytes odcid;;
    OctetsMut.put_bytes pkt) (retry_pseudo odcid pkt)) as Hw.
  { apply writes_bind; [apply put_u8_writes, as_u8_is_u8|]. intros _.
    apply writes_bind; [apply put_bytes_writes|]. intros _. apply put_bytes_writes. }
  destruct (Hw [] blank [] Hblank) as [a Ha]. rewrite !app_nil_r in Ha.
  unfold OctetsMut.with_slice. change (zlen (@nil Z)) with 0 in Ha. change ([] ++ ?l) with l in Ha.
  by rewrite Ha.
Qed.

Lemma retry_hdr_writes scid new_scid token :
  zlen scid <= MAX_CID_LEN → zlen new_scid <= MAX_CID_LEN →
  writes (to_bytes (mk PktType.Retry PROTOCOL_VERSION_V1 scid new_scid 0 0 (Some token) None false))
    (long_bytes 0xf0 PROTOCOL_VERSION_V1 scid new_scid token).
Proof.
  unfold MAX_CID_LEN. intros Hs Hn.
  apply (to_bytes_long (mk PktType.Retry PROTOCOL_VERSION_V1 scid new_scid 0 0 (Some token) None false) 3);
    [done|split; vm_compute; discriminate|simpl; lia..|].
  apply put_bytes_writes.
Qed.

(** Retry packets.  For a supported version [retry] writes a packet that
    [from_bytes] reads back as a Retry header addressed to the client, with the
    server's new id and the token without the integrity tag, and
    [verify_retry_integrity], called where the parser stopped and with the
    client's original destination id, accepts it.  Any other version is refused
    before anything is written. *)
Theorem retry_roundtrip scid dcid new_scid token out n :
  (∀ aad, ∃ tag, gcm_seal_empty RETRY_INTEGRITY_KEY_V1 RETRY_INTEGRITY_NONCE_V1 aad = Some tag ∧
                 zlen tag = tag_len) →
  zlen scid <= MAX_CID_LEN → zlen new_scid <= MAX_CID_LEN →
  23 + zlen scid + zlen new_scid + zlen token <= zlen out →
  (∃ len o b,
    retry scid dcid new_scid token PROTOCOL_VERSION_V1 (OctetsMut.with_slice out) = (Ok len, o) ∧
    len = 23 + zlen scid + zlen new_scid + zlen token ∧
    from_bytes n (OctetsMut.with_slice (ztake len (o_buf o))) =
      (Ok (mk PktType.Retry PROTOCOL_VERSION_V1 scid new_scid 0 0 (Some token) None false), b) ∧
    verify_retry_integrity b dcid PROTOCOL_VERSION_V1 = Ok ()) ∧
  (∀ v, v ≠ PROTOCOL_VERSION_V1 →
    retry scid dcid new_scid token v (OctetsMut.with_slice out) =
      (Err UnknownVersion, OctetsMut.with_slice out)).
Proof.
  intros Htag Hs Hn Hout. split.
  2:{ intros v Hv. unfold retry, version_is_supported. by rewrite (proj2 (Z.eqb_neq _ _)). }
  pose proof (zlen_nonneg scid). pose proof (zlen_nonneg new_scid). pose proof (zlen_nonneg token).
  set (lb := long_bytes 0xf0 PROTOCOL_VERSION_V1 scid new_scid token).
  assert (zlen lb = 7 + zlen scid + zlen new_scid + zlen token) as Hlb by apply zlen_long_bytes.
  destruct (Htag (retry_pseudo dcid lb)) as (tag & Hgcm & Htl). unfold tag_len in *.
  destruct (retry_hdr_writes scid new_scid token Hs Hn [] (ztake (zlen lb) out) (zdrop (zlen lb) out))
    as [a Ha]; [rewrite zlen_ztake; [done|lia]|].
  rewrite ztake_zdrop in Ha. change ([] ++ ?l) with l in Ha. change (zlen (@nil Z)) with 0 in Ha.
  fold lb in Ha. rewrite Z.add_0_l in Ha.
  set (rest := zdrop (zlen lb) out) in *.
  assert (zlen rest = zlen out - zlen lb) as Hrest by (apply zlen_zdrop; lia).
  destruct (put_bytes_writes (E:=Error) tag lb (ztake 16 rest) (zdrop 16 rest)) as [[] Hput];
    [rewrite zlen_ztake; lia|]. rewrite ztake_zdrop in Hput.
  exists (zlen lb + 16), (mk_octets (lb ++ tag ++ zdrop 16 rest) (zlen lb + zlen tag)),
    (mk_octets (lb ++ tag) (zlen lb)).
  split; [|split; [lia|split]].
  - unfold retry. change (version_is_supported PROTOCOL_VERSION_V1) with true. cbn [negb].
    rewrite (run_bind_ok _ _ _ _ _ Ha). rewrite (run_bind_reads _ _ _ tag).
    + rewrite (run_bind_ok _ _ _ _ _ Hput). unfold gets, OctetsMut.off. cbn [o_off]. do 2 f_equal. lia.
    + rewrite compute_tag_eq. unfold retry_tag. by rewrite Hgcm.
  - cbn [o_buf]. rewrite app_assoc, ztake_app' by (rewrite zlen_app; lia).
    unfold OctetsMut.with_slice. unfold lb. rewrite long_bytes_app.
    set (l0 := long_bytes 0xf0 PROTOCOL_VERSION_V1 scid new_scid []).
    assert (cid_ok PROTOCOL_VERSION_V1 scid ∧ cid_ok PROTOCOL_VERSION_V1 new_scid) as [Hc1 Hc2]
      by (unfold MAX_CID_LEN in *; split; (split; [lia|intros _; done])).
    pose proof (from_bytes_long_into n 0xf0 PROTOCOL_VERSION_V1 PktType.Retry scid new_scid
      eq_refl ltac:(done) eq_refl Hc1 Hc2 [] (token ++ tag)) as Hrun.
    change ([] ++ ?l) with l in Hrun. change (zlen (@nil Z)) with 0 in Hrun. fold l0 in Hrun.
    rewrite <- app_assoc, Hrun, Z.add_0_l. unfold get_type_fields.
    rewrite run_bind_assoc, (run_bind_reads _ _ _ (zlen token + 16)).
    2:{ unfold OctetsMut.cap. cbn [o_buf o_off]. rewrite usub_ok; rewrite !zlen_app; [f_equal|]; lia. }
    unfold tag_len. rewrite (proj2 (Z.ltb_ge _ _)) by lia.
    rewrite run_bind_assoc.
    rewrite (run_bind_ok _ _ _ _ _ (get_bytes_parses (zlen token + 16 - 16) token ltac:(lia) l0 tag)).
    rewrite run_bind_ret, run_ret. by rewrite zlen_app.
  - unfold verify_retry_integrity. rewrite compute_tag_eq. unfold retry_tag. rewrite Hgcm.
    cbn [mbind result_bind]. unfold OctetsMut.as_ref. cbn [o_off o_buf]. rewrite zdrop_app.
    unfold tag_len. rewrite (proj2 (Z.ltb_ge _ _)) by lia.
    rewrite ztake_all by lia. by rewrite bool_decide_eq_true_2.
Qed.
End retry_lemmas.

Lemma retry_roundtrip_witness :
  let tag : RetryTag := λ _ _ aad, Some (replicate 16 (zlen aad)) in
  ∃ len o b,
    retry [1; 2] [3] [4] [5; 6] 1 (OctetsMut.with_slice (replicate 40 0)) = (Ok len, o) ∧ len = 28 ∧
    Header.from_bytes 0 (OctetsMut.with_slice (ztake len (o_buf o))) =
      (Ok (Header.mk PktType.Retry 1 [1; 2] [4] 0 0 (Some [5; 6]) None false), b) ∧
    verify_retry_integrity b [3] 1 = Ok ().
Proof.
  intros tag. refine (proj1 (retry_roundtrip (H:=tag) [1; 2] [3] [4] [5; 6] (replicate 40 0) 0 _ _ _ _)).
  - intros aad. exists (replicate 16 (zlen aad)). split; reflexivity.
  - vm_compute; discriminate.
  - vm_compute; discriminate.
  - vm_compute; discriminate.
Defined.

(** ** Arbitrary input *)

Section safety.
Import Header.

Definition shape_ok (h : t) : Prop :=
  (token h ≠ None ↔ ty h = PktType.Initial ∨ ty h = PktType.Retry) ∧
  (versions h ≠ None ↔ ty h = PktType.VersionNegotiation) ∧
  (ty h ≠ PktType.Short → cid_ok (version h) (dcid h) ∧ cid_ok (version h) (scid h)).


(** Two readers in a row. *)
Lemma wp_read_bind {A B} (m : M octets Error A) (k : A → M octets Error B) P Q o :
  wp m (λ a o', keeps_buf o o' ∧ P a) (λ _, keeps_buf o) o →
  (∀ a o', P a → octets_wf o' → wp (k a) (λ b o'', keeps_buf o' o'' ∧ Q b) (λ _, keeps_buf o') o') →
  wp (m ≫= k) (λ b o', keeps_buf o o' ∧ Q b) (λ _, keeps_buf o) o.
Proof.
  intros Hm Hk. apply wp_bind. eapply wp_mono; [done| |done].
  intros a o' [[Hb Hwf] HP]. eapply wp_mono; [by apply Hk|..].
  - intros b o'' [[Hb' ?] ?]. split; [|done]. split; [by rewrite Hb'|done].
  - intros e o'' [Hb' ?]. split; [by rewrite Hb'|done].
Qed.

Lemma wp_read_u n o : octets_wf o → 0 <= n →
  wp (get_u (E:=Error) n) (λ v o', keeps_buf o o' ∧ 0 <= v < 256 ^ n) (λ _, keeps_buf o) o.
Proof.
  intros Hwf Hn. eapply wp_mono; [by apply wp_get_u|..].
  - intros v o' (? & ? & ?). split; [by apply keeps_advances|done].
  - by intros ?? [_ ->].
Qed.

Lemma wp_read_bytes n o : octets_wf o → 0 <= n →
  wp (E:=Error) (Octets.get_bytes n) (λ b o', keeps_buf o o' ∧ zlen (Octets.to_vec b) = n) (λ _, keeps_buf o) o.
Proof.
  intros Hwf Hn. eapply wp_mono; [by apply wp_get_bytes|..].
  - intros b o' (? & ? & ? & Hoff & ? & Hl). split; [by apply keeps_advances|].
    unfold Octets.to_vec, Octets.as_ref. by rewrite Hoff, zdrop_0.
  - by intros ?? [_ ->].
Qed.

Lemma wp_read_ret {A} (a : A) (Q : A → Prop) o :
  octets_wf o → Q a → wp (E:=Error) (mret a) (λ b o', keeps_buf o o' ∧ Q b) (λ _, keeps_buf o) o.
Proof. intros. by split. Qed.

Lemma wp_get_cid v o : octets_wf o →
  wp (get_cid v) (λ c o', keeps_buf o o' ∧ cid_ok v c) (λ _, keeps_buf o) o.
Proof.
  intros Hwf. unfold get_cid. eapply wp_read_bind; [by apply (wp_read_u 1)|].
  intros len o1 Hlen Hwf1. cbv beta in Hlen. change (256 ^ 1) with 256 in Hlen.
  assert (wp (E:=Error) (b ← OctetsMut.get_bytes len; mret (Octets.to_vec b))
    (λ c o', keeps_buf o1 o' ∧ zlen c = len) (λ _, keeps_buf o1) o1) as Hgo.
  { eapply wp_read_bind; [apply wp_read_bytes; [done|lia]|]. intros b o2 Hb Hwf2. by apply wp_read_ret. }
  destruct (version_is_supported v) eqn:Hsup; cbn [andb].
  - destruct (Z.ltb_spec MAX_CID_LEN len); [done|].
    eapply wp_mono; [exact Hgo| |done]. intros c o' [? ?]. split; [done|]. split; [lia|]. intros _. lia.
  - eapply wp_mono; [exact Hgo| |done]. intros c o' [? ?]. split; [done|]. split; [lia|].
    congruence.
Qed.

Lemma wp_get_versions fuel : ∀ acc o,
  octets_wf o → zlen (o_buf o) - o_off o <= Z.of_nat fuel →
  wp (get_versions fuel acc) (λ _ o', keeps_buf o o' ∧ True) (λ _, keeps_buf o) o.
Proof.
  induction fuel as [|fuel IH]; intros acc o Hwf Hf; cbn [get_versions];
    apply wp_bind, wp_cap; try done.
  - rewrite (proj2 (Z.leb_le _ _)) by lia. by apply wp_read_ret.
  - destruct (Z.leb_spec (zlen (o_buf o) - o_off o) 0); [by apply wp_read_ret|].
    apply wp_bind. eapply wp_mono; [by apply (wp_get_u 4)| |by intros ?? [_ ->]].
    intros v o' ((Hb & ? & Hwf') & Hoff & _). eapply wp_mono; [apply IH; [done|rewrite Hb; lia]|..].
    + intros _ o'' [[Hb' ?] _]. split; [|done]. split; [by rewrite Hb'|done].
    + intros _ o'' [Hb' ?]. split; [by rewrite Hb'|done].
Qed.

Lemma wp_get_type_fields ty o : octets_wf o → ty ≠ PktType.Short →
  wp (get_type_fields ty)
    (λ f o', keeps_buf o o' ∧
      (f.1 ≠ None ↔ ty = PktType.Initial ∨ ty = PktType.Retry) ∧
      (f.2 ≠ None ↔ ty = PktType.VersionNegotiation)) (λ _, keeps_buf o) o.
Proof.
  intros Hwf Hty. destruct ty; try done; cbn [get_type_fields].
  - eapply (wp_read_bind _ _ (λ _, True)).
    + apply wp_bind. eapply wp_mono; [by apply wp_get_varint| |by intros ?? [_ ->]].
      intros len o1 (Ha & _ & Hlen & _). destruct (keeps_advances _ _ Ha) as [Hb Hwf1].
      eapply wp_mono; [by apply wp_read_bytes|..].
      * intros b o' [[Hb' ?] _]. split; [|done]. split; [by rewrite Hb'|done].
      * intros b o' [Hb' ?]. split; [by rewrite Hb'|done].
    + intros b o' _ Hwf'. apply wp_read_ret; [done|]. simpl. naive_solver.
  - apply wp_bind, wp_cap; [done|]. destruct (Z.ltb_spec (zlen (o_buf o) - o_off o) tag_len); [done|].
    eapply wp_read_bind; [apply wp_read_bytes; [done|lia]|].
    intros b o' _ Hwf'. apply wp_read_ret; [done|]. simpl. naive_solver.
  - apply wp_read_ret; [done|]. simpl. naive_solver.
  - apply wp_read_ret; [done|]. simpl. naive_solver.
  - apply wp_bind, wp_cap; [done|]. eapply wp_read_bind.
    + apply wp_get_versions; [done|]. destruct Hwf. lia.
    + intros l o' _ Hwf'. apply wp_read_ret; [done|]. simpl. naive_solver.
Qed.

(** C34. Parsing a header is safe on arbitrary input: on any buffer of bytes and
    for any length of short-header ids, [from_bytes] does not abort, its loop
    over versions ends, the bytes stay as they are and the cursor stays inside,
    on success and on error; a header it returns has a token exactly for
    Initial and Retry, a version list exactly for VersionNegotiation, and
    connection ids within the limits of its version. *)
Theorem from_bytes_safe n o :
  octets_wf o → 0 <= n →
  wp (from_bytes n) (λ h o', keeps_buf o o' ∧ shape_ok h) (λ _, keeps_buf o) o.
Proof.
  intros Hwf Hn. unfold from_bytes. eapply wp_read_bind; [by apply (wp_read_u 1)|].
  intros first o1 _ Hwf1. destruct (is_long first); cbn [negb].
  - eapply wp_read_bind; [by apply (wp_read_u 4)|]. intros v o2 Hv Hwf2.
    destruct (long_type first v) as [ty|e|] eqn:Hty.
    + apply wp_bind. eapply wp_lift; [done|].
      assert (ty ≠ PktType.Short) as Hns.
      { unfold long_type in Hty. intros ->. by repeat case_match. }
      eapply wp_read_bind; [by apply wp_get_cid|]. intros dcid o3 Hd Hwf3.
      eapply wp_read_bind; [by apply wp_get_cid|]. intros scid o4 Hs Hwf4.
      eapply wp_read_bind; [by apply wp_get_type_fields|]. intros [tok vs] o5 [Ht Hvs] Hwf5.
      apply wp_read_ret; [done|]. simpl in *. split; [done|]. split; [done|done].
    + by apply wp_bind.
    + unfold long_type in Hty. by repeat case_match.
  - eapply wp_read_bind; [by apply wp_read_bytes|]. intros b o2 _ Hwf2.
    apply wp_read_ret; [done|]. split; [naive_solver|]. split; [naive_solver|done].
Qed.

Lemma from_bytes_safe_witness :
  wp (from_bytes 4) (λ h o', keeps_buf (mk_octets [0xc0; 0; 0; 0; 1; 200] 0) o' ∧ shape_ok h)
    (λ _, keeps_buf (mk_octets [0xc0; 0; 0; 0; 1; 200] 0)) (mk_octets [0xc0; 0; 0; 0; 1; 200] 0).
Proof. apply (from_bytes_safe 4); [solve_wf|lia]. Defined.
End safety.
