(* ===== verification/Protect.v ===== *)
(** * Packet protection: [quiche/src/packet.rs], [quiche/src/crypto/]

    Header protection ([encrypt_hdr], [decrypt_hdr]) and payload protection
    ([encrypt_pkt], [decrypt_pkt]) on the shared packet buffer, with the AEAD
    wrappers of [crypto/mod.rs] and [crypto/boringssl.rs].  The foreign
    functions of BoringSSL and ring are parameters (class [Backend]).  The
    buffer of a sub-slice is a window of the packet buffer, so every write is a
    write to the packet. *)
From S2P Require Import Prelude OctetsLib PktNum Packets.

Definition SAMPLE_LEN : Z := 16.
(** [aead::NONCE_LEN] *)
Definition NONCE_LEN : Z := 12.

Module Algorithm.
Inductive t := AES128_GCM | AES256_GCM | ChaCha20_Poly1305.

Definition key_len (a : t) : Z :=
  match a with AES128_GCM => 16 | AES256_GCM => 32 | ChaCha20_Poly1305 => 32 end.
Definition tag_len (a : t) : Z :=
  match a with AES128_GCM => 16 | AES256_GCM => 16 | ChaCha20_Poly1305 => 16 end.
Definition nonce_len (a : t) : Z :=
  match a with AES128_GCM => 12 | AES256_GCM => 12 | ChaCha20_Poly1305 => 12 end.
End Algorithm.

(** The foreign functions.  [EVP_AEAD_CTX_open] and [_seal_scatter] return
    whether they succeeded and the bytes they left in their output buffers. *)
Class Backend := {
  EVP_AEAD_CTX : Type;
  HeaderProtectionKey : Type;
  (** context, nonce, input, associated data *)
  EVP_AEAD_CTX_open : EVP_AEAD_CTX → list Z → list Z → list Z → bool * list Z;
  (** context, nonce, input, extra input, associated data *)
  EVP_AEAD_CTX_seal_scatter :
    EVP_AEAD_CTX → list Z → list Z → list Z → list Z → bool * (list Z * list Z);
  hpk_new_mask : HeaderProtectionKey → list Z → option (list Z)
}.

(** [^=] on the bytes of [l] with those of [ks]. *)
Definition xor_bytes (l ks : list Z) : list Z := zip_with Z.lxor l ks.

(** [copy_from_slice] panics when the lengths differ. *)
Definition make_nonce (iv : list Z) (counter : Z) : result Error (list Z) :=
  if zlen iv =? NONCE_LEN then
    Ok (ztake 4 iv ++ xor_bytes (zdrop 4 iv) (be_bytes 8 counter))
  else Panic.

Section crypto.
Context `{Backend}.

(** [Open] and [Seal] have the same fields; [PacketKey] is inlined. *)
Record aead_key := mk_key {
  k_alg : Algorithm.t;
  k_hpk : HeaderProtectionKey;
  k_ctx : EVP_AEAD_CTX;
  k_nonce : list Z
}.

Definition new_mask (k : aead_key) (sample : list Z) : result Error (list Z) :=
  match hpk_new_mask (k_hpk k) sample with
  | Some mask => Ok mask
  | None => Err CryptoFail
  end.

Definition open_with_u64_counter (k : aead_key) (counter : Z) (ad : list Z) :
    M (list Z) Error Z :=
  buf ← get;
  let tag_len := Algorithm.tag_len (k_alg k) in
  if zlen buf <? tag_len then fail CryptoFail
  else
    nonce ← lift (make_nonce (k_nonce k) counter);
    let '(rc, out) := EVP_AEAD_CTX_open (k_ctx k) nonce buf ad in
    put (zsplice 0 out buf);;
    if rc then mret (zlen out) else fail CryptoFail.

Definition seal_with_u64_counter (k : aead_key) (counter : Z) (ad : list Z) (in_len : Z)
    (extra_in : option (list Z)) : M (list Z) Error Z :=
  buf ← get;
  let tag_len := Algorithm.tag_len (k_alg k) in
  let extra := match extra_in with Some v => v | None => [] end in
  if zlen buf <? in_len + tag_len + zlen extra then fail CryptoFail
  else
    nonce ← lift (make_nonce (k_nonce k) counter);
    let '(rc, (out, tag)) :=
      EVP_AEAD_CTX_seal_scatter (k_ctx k) nonce (ztake in_len buf) extra ad in
    put (zsplice in_len tag (zsplice 0 out buf));;
    if rc then mret (in_len + zlen tag) else fail CryptoFail.

(** ** Header protection *)

(** [as_mut()]: the bytes of a cursor that stands at the start. *)
Definition on_bytes {A} (m : M (list Z) Error A) : M octets Error A :=
  zoom o_buf (λ l o, mk_octets l (o_off o)) m.

(** [first ^= mask[0] & 0x0f] or [& 0x1f], by the form bit. *)
Definition mask_first (first : Z) (mask : list Z) : Z :=
  Z.lxor first (Z.land (nth 0 mask 0) (if Header.is_long first then 0x0f else 0x1f)).

(** [for i in 0..pn_len { buf[i] ^= mask[i + 1] }] on the bytes from [at] on. *)
Definition mask_pn (pos pn_len : Z) (mask : list Z) : M (list Z) Error unit := λ buf,
  if (zlen buf <? pos + pn_len) || (zlen mask <? pn_len + 1) then (Panic, buf)
  else
    (Ok (), zsplice pos (xor_bytes (zslice pos (pos + pn_len) buf) (zslice 1 (pn_len + 1) mask)) buf).

Definition set_first (f : Z → Z) : M (list Z) Error unit := λ buf,
  match buf with
  | [] => (Panic, buf)
  | b :: rest => (Ok (), f b :: rest)
  end.

Definition first_byte : M (list Z) Error Z := λ buf,
  match buf with [] => (Panic, buf) | b :: _ => (Ok b, buf) end.

(** [slice_last(pn_len)] on [rest], whose cursor is at its start, begins
    [pn_len] bytes before its end. *)
Definition encrypt_hdr (pn_len : Z) (payload : list Z) (aead : aead_key) : M octets Error unit :=
  lo ← lift (usub MAX_PKT_NUM_LEN pn_len);
  if zlen payload <? SAMPLE_LEN + lo then panic
  else
    mask ← lift (new_mask aead (zslice lo (SAMPLE_LEN + lo) payload));
    '(first, rest) ← OctetsMut.split_at 1;
    OctetsMut.in_window first (on_bytes (set_first (λ b, mask_first b mask)));;
    OctetsMut.in_window rest (
      c ← reads OctetsMut.cap;
      if c <? pn_len then fail BufferTooShort
      else on_bytes (mask_pn (c - pn_len) pn_len mask)).

(** The part of [decrypt_hdr] that works on [pn_and_sample]: the unmasked
    first byte and the length of the packet number it gives. *)
Definition unmask_pn (first : Z) (aead : aead_key) : M octets Error (Z * Z) :=
  '(ciphertext, sample) ← OctetsMut.split_at MAX_PKT_NUM_LEN;
  sample ← gets (λ o, zslice sample.1 sample.2 (o_buf o));
  mask ← lift (new_mask aead sample);
  let first := mask_first first mask in
  let pn_len := Z.land first PKT_NUM_MASK + 1 in
  OctetsMut.in_window ciphertext (on_bytes (mask_pn 0 pn_len mask));;
  mret (first, pn_len).

Definition decrypt_hdr (hdr : Header.t) (aead : aead_key) : M octets Error Header.t :=
  '(first_buf, _) ← OctetsMut.split_at 1;
  first ← OctetsMut.in_window first_buf (on_bytes first_byte);
  pn_and_sample ← OctetsMut.peek_bytes_mut (MAX_PKT_NUM_LEN + SAMPLE_LEN);
  '(first, pn_len) ← OctetsMut.in_window pn_and_sample (unmask_pn first aead);
  pn ← read_pkt_num pn_len;
  '(first_buf, _) ← OctetsMut.split_at 1;
  OctetsMut.in_window first_buf (on_bytes (set_first (λ _, first)));;
  let key_phase :=
    if decide (Header.ty hdr = PktType.Short) then negb (Z.land first KEY_PHASE_BIT =? 0)
    else Header.key_phase hdr in
  mret (Header.mk (Header.ty hdr) (Header.version hdr) (Header.dcid hdr) (Header.scid hdr)
          pn pn_len (Header.token hdr) (Header.versions hdr) key_phase).

(** ** Payload protection *)

Definition encrypt_pkt (pn pn_len payload_len payload_offset : Z)
    (extra_in : option (list Z)) (aead : aead_key) : M octets Error Z :=
  '(header, payload) ← OctetsMut.split_at payload_offset;
  ad ← gets (λ o, zslice header.1 header.2 (o_buf o));
  ciphertext_len ← OctetsMut.in_window payload
    (on_bytes (seal_with_u64_counter aead pn ad payload_len extra_in));
  payload ← gets (λ o, zslice payload.1 payload.2 (o_buf o));
  OctetsMut.in_window header (encrypt_hdr pn_len payload aead);;
  lift (uadd payload_offset ciphertext_len).

Definition decrypt_pkt (pn pn_len payload_len : Z) (aead : aead_key) : M octets Error octets :=
  payload_offset ← gets OctetsMut.off;
  '(header, payload) ← OctetsMut.split_at payload_offset;
  if payload_len <? pn_len then fail InvalidPacket
  else
    ad ← gets (λ o, zslice header.1 header.2 (o_buf o));
    payload_len ← OctetsMut.in_window payload (
      ciphertext ← OctetsMut.peek_bytes_mut (payload_len - pn_len);
      OctetsMut.in_window ciphertext (on_bytes (open_with_u64_counter aead pn ad)));
    OctetsMut.get_bytes payload_len.
End crypto.

(** ** Windows *)

Section windows.
Implicit Types l k r : list Z.

Lemma in_window_mid {A} (m : M octets Error A) a b l k r off res k' off' :
  a = zlen l → b = zlen l + zlen k →
  m (mk_octets k 0) = (res, mk_octets k' off') → zlen k' = zlen k →
  OctetsMut.in_window (a, b) m (mk_octets (l ++ k ++ r) off) = (res, mk_octets (l ++ k' ++ r) off).
Proof.
  intros -> -> Hm Hk. unfold OctetsMut.in_window. cbn [fst snd o_buf o_off].
  rewrite zslice_mid by done. rewrite Hm. cbn [o_buf]. by rewrite zsplice_mid.
Qed.

Lemma on_bytes_run {A} (m : M (list Z) Error A) l res l' off :
  m l = (res, l') → on_bytes m (mk_octets l off) = (res, mk_octets l' off).
Proof. intros Hm. unfold on_bytes, zoom. cbn [o_buf o_off]. by rewrite Hm. Qed.

Lemma zslice_at a b l k r : a = zlen l → b = zlen l + zlen k → zslice a b (l ++ k ++ r) = k.
Proof. apply zslice_mid. Qed.

Lemma zslice_tail a b l k : a = zlen l → b = zlen l + zlen k → zslice a b (l ++ k) = k.
Proof. intros. rewrite <- (app_nil_r k) at 1. rewrite app_assoc, <- app_assoc. by apply zslice_mid. Qed.

Lemma zlen_xor_bytes l k : zlen l <= zlen k → zlen (xor_bytes l k) = zlen l.
Proof. unfold xor_bytes, zlen. rewrite length_zip_with. lia. Qed.

Lemma xor_bytes_twice l : ∀ k, zlen l <= zlen k → xor_bytes (xor_bytes l k) k = l.
Proof.
  induction l as [|x l IH]; intros [|y k] Hl; [done|done| |].
  - rewrite zlen_nil, zlen_cons in Hl. pose proof (zlen_nonneg l). lia.
  - rewrite !zlen_cons in Hl. cbn. f_equal; [|apply IH; lia].
    by rewrite Z.lxor_assoc, Z.lxor_nilpotent, Z.lxor_0_r.
Qed.

Lemma mask_pn_run l k r mask pos n :
  pos = zlen l → n = zlen k → n + 1 <= zlen mask →
  mask_pn pos n mask (l ++ k ++ r) = (Ok (), l ++ xor_bytes k (zslice 1 (n + 1) mask) ++ r).
Proof.
  intros -> -> Hm. pose proof (zlen_nonneg r). pose proof (zlen_nonneg k). unfold mask_pn.
  rewrite !(proj2 (Z.ltb_ge _ _)) by (rewrite ?zlen_app; lia). cbn [orb].
  rewrite zslice_mid by done. rewrite zsplice_mid; [done|].
  rewrite zlen_xor_bytes; [done|]. rewrite zlen_zslice; lia.
Qed.

Lemma is_long_mask first mask : Header.is_long (mask_first first mask) = Header.is_long first.
Proof.
  unfold Header.is_long. do 2 f_equal. apply Z.bits_inj'. intros i Hi.
  rewrite !Z.land_spec. change FORM_BIT with (2 ^ 7).
  destruct (decide (i = 7)) as [->|]; [|by rewrite Z.pow2_bits_false, !andb_false_r].
  unfold mask_first. rewrite Z.lxor_spec, Z.land_spec.
  destruct (Header.is_long first); by rewrite andb_false_r, xorb_false_r.
Qed.

Lemma mask_first_twice first mask : mask_first (mask_first first mask) mask = first.
Proof.
  unfold mask_first at 1. rewrite is_long_mask. unfold mask_first.
  by rewrite Z.lxor_assoc, Z.lxor_nilpotent, Z.lxor_0_r.
Qed.

Lemma make_nonce_ok iv pn : zlen iv = NONCE_LEN → ∃ nonce, make_nonce iv pn = Ok nonce.
Proof. intros Hl. unfold make_nonce. rewrite Hl. eauto. Qed.
End windows.

(** ** The sealed packet *)

Section protection.
Context `{Backend}.
Implicit Types (l tl P plain rest : list Z).

(** What the code relies on of a pair of keys derived from one secret: the
    masks agree, and opening undoes sealing. *)
Record key_pair (ks ko : aead_key) : Prop := {
  kp_alg : k_alg ko = k_alg ks;
  kp_nonce : k_nonce ko = k_nonce ks;
  kp_nonce_len : zlen (k_nonce ks) = NONCE_LEN;
  kp_mask : ∀ sample, zlen sample = SAMPLE_LEN →
    ∃ mask, hpk_new_mask (k_hpk ks) sample = Some mask ∧
            hpk_new_mask (k_hpk ko) sample = Some mask ∧ zlen mask = 5;
  kp_aead : ∀ nonce inp ad,
    ∃ out tag, EVP_AEAD_CTX_seal_scatter (k_ctx ks) nonce inp [] ad = (true, (out, tag)) ∧
      zlen out = zlen inp ∧ zlen tag = Algorithm.tag_len (k_alg ks) ∧
      EVP_AEAD_CTX_open (k_ctx ko) nonce (out ++ tag) ad = (true, inp)
}.

Lemma tag_len_16 a : Algorithm.tag_len a = 16.
Proof. by destruct a. Qed.

Lemma encrypt_hdr_run ks mask first tl P payload off n :
  n = zlen P → 0 <= n <= 4 → SAMPLE_LEN + (4 - n) <= zlen payload →
  hpk_new_mask (k_hpk ks) (zslice (4 - n) (SAMPLE_LEN + (4 - n)) payload) = Some mask →
  zlen mask = 5 →
  encrypt_hdr n payload ks (mk_octets (first :: tl ++ P) off) =
  (Ok (), mk_octets (mask_first first mask :: tl ++ xor_bytes P (zslice 1 (n + 1) mask)) off).
Proof.
  intros Hn Hn4 Hpl Hmask Hml. unfold encrypt_hdr. pose proof (zlen_nonneg tl). pose proof (zlen_nonneg P).
  rewrite (run_bind_lift _ _ _ (4 - n)) by (unfold MAX_PKT_NUM_LEN; apply usub_ok; lia).
  rewrite (proj2 (Z.ltb_ge _ _)) by lia.
  rewrite (run_bind_lift _ _ _ mask) by (unfold new_mask; by rewrite Hmask).
  rewrite (run_bind_ok _ _ _ _ _ (split_at_run 1 (first :: tl ++ P) off
    ltac:(rewrite zlen_cons, zlen_app; lia))).
  pose proof (in_window_mid (on_bytes (set_first (λ b, mask_first b mask))) 0 1 [] [first] (tl ++ P) off
    (Ok ()) [mask_first first mask] 0 eq_refl eq_refl eq_refl eq_refl) as Hf.
  change ([] ++ ?l) with l in Hf. change ([?x] ++ ?l) with (x :: l) in Hf.
  rewrite (run_bind_ok _ _ _ _ _ Hf).
  pose proof (in_window_mid (c ← reads OctetsMut.cap;
      if c <? n then fail BufferTooShort else on_bytes (mask_pn (c - n) n mask))
    1 (zlen (first :: tl ++ P)) [mask_first first mask] (tl ++ P) [] off
    (Ok ()) (tl ++ xor_bytes P (zslice 1 (n + 1) mask)) 0) as Hr.
  rewrite !app_nil_r in Hr. apply Hr.
  - done.
  - by rewrite !zlen_cons, zlen_nil.
  - rewrite (run_bind_reads _ _ _ (zlen tl + zlen P))
      by (unfold OctetsMut.cap; cbn [o_buf o_off]; rewrite usub_ok; rewrite zlen_app; [f_equal|]; lia).
    rewrite (proj2 (Z.ltb_ge _ _)) by lia. apply on_bytes_run.
    pose proof (mask_pn_run tl P [] mask (zlen tl + zlen P - n) n) as Hpn. rewrite !app_nil_r in Hpn.
    apply Hpn; lia.
  - rewrite !zlen_app, zlen_xor_bytes; [done|]. rewrite zlen_zslice; lia.
Qed.

Lemma seal_run ks ko pn ad plain rest room nonce :
  key_pair ks ko → make_nonce (k_nonce ks) pn = Ok nonce → zlen room = 16 →
  ∃ out tag,
    seal_with_u64_counter ks pn ad (zlen plain) None (plain ++ room ++ rest) =
      (Ok (zlen plain + 16), out ++ tag ++ rest) ∧
    zlen out = zlen plain ∧ zlen tag = 16 ∧
    EVP_AEAD_CTX_open (k_ctx ko) nonce (out ++ tag) ad = (true, plain).
Proof.
  intros Hkp Hnonce Hroom. destruct (kp_aead _ _ Hkp nonce plain ad) as (out & tag & Hs & Ho & Ht & Hop).
  rewrite tag_len_16 in Ht. exists out, tag. split; [|done].
  pose proof (zlen_nonneg rest). unfold seal_with_u64_counter. rewrite run_bind_get, tag_len_16.
  rewrite (proj2 (Z.ltb_ge _ _)) by (rewrite !zlen_app, zlen_nil; lia).
  rewrite (run_bind_lift _ _ _ _ Hnonce), ztake_app, Hs.
  unfold mbind, M_bind, put. rewrite Ht.
  pose proof (zsplice_mid [] plain out (room ++ rest) ltac:(done)) as H1.
  change ([] ++ ?l) with l in H1. change (zlen (@nil Z)) with 0 in H1. rewrite H1.
  rewrite <- Ho, zsplice_mid by lia. done.
Qed.

Lemma open_run ko pn ad cipher plain nonce :
  make_nonce (k_nonce ko) pn = Ok nonce →
  EVP_AEAD_CTX_open (k_ctx ko) nonce cipher ad = (true, plain) →
  zlen cipher = zlen plain + 16 →
  open_with_u64_counter ko pn ad cipher = (Ok (zlen plain), plain ++ zdrop (zlen plain) cipher).
Proof.
  intros Hn Ho Hl. pose proof (zlen_nonneg plain). unfold open_with_u64_counter.
  rewrite run_bind_get, tag_len_16. rewrite (proj2 (Z.ltb_ge _ _)) by lia.
  rewrite (run_bind_lift _ _ _ _ Hn), Ho. done.
Qed.

(** A sealed packet: masked header, masked packet number, ciphertext, tag. *)
Lemma encrypt_pkt_run ks ko pn first tl P plain room rest off n :
  key_pair ks ko → n = zlen P → 1 <= n <= 4 → 4 - n <= zlen plain → zlen room = 16 →
  1 + zlen tl + n + zlen plain + 16 <= u64_max →
  let h := first :: tl ++ P in
  ∃ out tag mask nonce,
    make_nonce (k_nonce ko) pn = Ok nonce ∧
    hpk_new_mask (k_hpk ko) (zslice (4 - n) (SAMPLE_LEN + (4 - n)) (out ++ tag)) = Some mask ∧
    zlen mask = 5 ∧ zlen out = zlen plain ∧ zlen tag = 16 ∧
    EVP_AEAD_CTX_open (k_ctx ko) nonce (out ++ tag) h = (true, plain) ∧
    encrypt_pkt pn n (zlen plain) (zlen h) None ks (mk_octets (h ++ plain ++ room ++ rest) off) =
      (Ok (zlen h + (zlen plain + 16)),
       mk_octets ((mask_first first mask :: tl ++ xor_bytes P (zslice 1 (n + 1) mask)) ++
                  out ++ tag ++ rest) off).
Proof.
  intros Hkp Hn Hn4 Hpl Hroom Hfit h. pose proof (zlen_nonneg rest). pose proof (zlen_nonneg tl).
  assert (zlen h = 1 + zlen tl + n) as Hh by (unfold h; rewrite zlen_cons, zlen_app; lia).
  destruct (make_nonce_ok (k_nonce ks) pn (kp_nonce_len _ _ Hkp)) as [nonce Hnonce].
  destruct (seal_run ks ko pn h plain rest room nonce Hkp Hnonce Hroom)
    as (out & tag & Hseal & Ho & Ht & Hopen).
  assert (zslice (4 - n) (SAMPLE_LEN + (4 - n)) (out ++ tag ++ rest) =
          zslice (4 - n) (SAMPLE_LEN + (4 - n)) (out ++ tag)) as Hsample.
  { unfold zslice. rewrite (app_assoc out). unfold ztake, zdrop, zlen, SAMPLE_LEN in *.
    rewrite drop_app_le by (rewrite length_app; lia).
    rewrite take_app_le by (rewrite length_drop, length_app; lia). done. }
  destruct (kp_mask _ _ Hkp (zslice (4 - n) (SAMPLE_LEN + (4 - n)) (out ++ tag)))
    as (mask & Hm1 & Hm2 & Hml).
  { rewrite zlen_zslice; unfold SAMPLE_LEN; rewrite ?zlen_app; lia. }
  exists out, tag, mask, nonce. rewrite (kp_nonce _ _ Hkp).
  repeat (split; [done|]). unfold encrypt_pkt.
  rewrite (run_bind_ok _ _ _ _ _ (split_at_run (zlen h) (h ++ plain ++ room ++ rest) off
    ltac:(rewrite !zlen_app; pose proof (zlen_nonneg plain); pose proof (zlen_nonneg room); lia))).
  rewrite run_bind_gets. cbn [fst snd o_buf].
  assert (zslice 0 (zlen h) (h ++ plain ++ room ++ rest) = h) as ->
    by apply (zslice_at 0 (zlen h) [] h (plain ++ room ++ rest) eq_refl eq_refl).
  pose proof (in_window_mid _ (zlen h) (zlen (h ++ plain ++ room ++ rest)) h (plain ++ room ++ rest) []
    off (Ok (zlen plain + 16)) (out ++ tag ++ rest) 0 eq_refl ltac:(by rewrite zlen_app)
    (on_bytes_run _ _ _ _ 0 Hseal) ltac:(rewrite !zlen_app; lia)) as Hw.
  rewrite !app_nil_r in Hw. rewrite (run_bind_ok _ _ _ _ _ Hw). clear Hw.
  rewrite run_bind_gets. cbn [fst snd o_buf].
  assert (zslice (zlen h) (zlen (h ++ plain ++ room ++ rest)) (h ++ out ++ tag ++ rest) =
          out ++ tag ++ rest) as ->.
  { apply zslice_tail; [done|]. rewrite !zlen_app. lia. }
  assert (zlen (mask_first first mask :: tl ++ xor_bytes P (zslice 1 (n + 1) mask)) = zlen h) as Hlen.
  { unfold h. rewrite !zlen_cons, !zlen_app, zlen_xor_bytes; [done|]. rewrite zlen_zslice; lia. }
  pose proof (in_window_mid _ 0 (zlen h) [] h (out ++ tag ++ rest) off _ _ 0 eq_refl eq_refl
    (encrypt_hdr_run ks mask first tl P (out ++ tag ++ rest) 0 n Hn ltac:(lia)
      ltac:(unfold SAMPLE_LEN; rewrite !zlen_app; lia) ltac:(by rewrite Hsample) Hml) Hlen) as Hw.
  change ([] ++ ?l) with l in Hw. rewrite (run_bind_ok _ _ _ _ _ Hw).
  unfold lift. by rewrite uadd_ok by lia.
Qed.

Lemma unmask_pn_run ko mask first P c1 sample n :
  1 <= n <= 4 → Z.land first PKT_NUM_MASK + 1 = n → zlen P = n →
  zlen c1 = 4 - n → hpk_new_mask (k_hpk ko) sample = Some mask → zlen mask = 5 →
  unmask_pn (mask_first first mask) ko
    (mk_octets ((xor_bytes P (zslice 1 (n + 1) mask) ++ c1) ++ sample) 0) =
  (Ok (first, n), mk_octets ((P ++ c1) ++ sample) 0).
Proof.
  intros Hn Hlow HP Hc1 Hmask Hml. pose proof (zlen_nonneg sample).
  set (P' := xor_bytes P (zslice 1 (n + 1) mask)).
  assert (zlen (zslice 1 (n + 1) mask) = n) as HK by (rewrite zlen_zslice; lia).
  assert (zlen P' = n) as HP' by (unfold P'; rewrite zlen_xor_bytes; lia).
  assert (xor_bytes P' (zslice 1 (n + 1) mask) = P) as HPP by (apply xor_bytes_twice; lia).
  assert (zlen (P' ++ c1) = 4) as H4 by (rewrite zlen_app; lia).
  unfold unmask_pn, MAX_PKT_NUM_LEN.
  rewrite (run_bind_ok _ _ _ _ _ (split_at_run 4 ((P' ++ c1) ++ sample) 0
    ltac:(rewrite zlen_app; lia))).
  rewrite run_bind_gets. cbn [fst snd o_buf].
  rewrite (zslice_tail 4 (zlen ((P' ++ c1) ++ sample)) (P' ++ c1) sample)
    by (rewrite ?zlen_app in *; lia).
  rewrite (run_bind_lift _ _ _ mask) by (unfold new_mask; by rewrite Hmask).
  rewrite mask_first_twice, Hlow.
  pose proof (mask_pn_run [] P' c1 mask 0 n eq_refl ltac:(lia) ltac:(lia)) as Hpn.
  change ([] ++ ?l) with l in Hpn. rewrite HPP in Hpn.
  pose proof (in_window_mid _ 0 4 [] (P' ++ c1) sample 0 _ _ 0 eq_refl ltac:(by rewrite H4)
    (on_bytes_run _ _ _ _ 0 Hpn) ltac:(rewrite !zlen_app; lia)) as Hw.
  change ([] ++ ?l) with l in Hw. by rewrite (run_bind_ok _ _ _ _ _ Hw).
Qed.

(** Removing header protection restores the first byte and the packet number.
    The body is cut where the sample starts and ends. *)
Lemma decrypt_hdr_run ko hdr mask first tl pn c1 sample rest n :
  1 <= n <= 4 → Z.land first PKT_NUM_MASK + 1 = n →
  zlen c1 = 4 - n → zlen sample = SAMPLE_LEN →
  hpk_new_mask (k_hpk ko) sample = Some mask → zlen mask = 5 →
  let P := be_bytes (Z.to_nat n) pn in
  let body := c1 ++ sample ++ rest in
  decrypt_hdr hdr ko
    (mk_octets ((mask_first first mask :: tl) ++ xor_bytes P (zslice 1 (n + 1) mask) ++ body)
               (1 + zlen tl)) =
  (Ok (Header.mk (Header.ty hdr) (Header.version hdr) (Header.dcid hdr) (Header.scid hdr)
        (pn mod 2 ^ (8 * n)) n (Header.token hdr) (Header.versions hdr)
        (if decide (Header.ty hdr = PktType.Short) then negb (Z.land first KEY_PHASE_BIT =? 0)
         else Header.key_phase hdr)),
   mk_octets ((first :: tl) ++ P ++ body) (1 + zlen tl + n)).
Proof.
  intros Hn Hlow Hc1 Hsl Hmask Hml P body. pose proof (zlen_nonneg tl). pose proof (zlen_nonneg rest).
  unfold SAMPLE_LEN in *.
  assert (zlen P = n) as HP by (unfold P; rewrite zlen_be_bytes; lia).
  assert (zlen (zslice 1 (n + 1) mask) = n) as HK by (rewrite zlen_zslice; lia).
  set (f := mask_first first mask). set (P' := xor_bytes P (zslice 1 (n + 1) mask)).
  assert (zlen P' = n) as HP' by (unfold P'; rewrite zlen_xor_bytes; lia).
  assert (xor_bytes P' (zslice 1 (n + 1) mask) = P) as HPP by (apply xor_bytes_twice; lia).
  assert (∀ x (l' : list Z), 1 <= zlen (x :: l')) as Hpos
    by (intros x l'; rewrite zlen_cons; pose proof (zlen_nonneg l'); lia).
  unfold decrypt_hdr.
  rewrite (run_bind_ok _ _ _ _ _ (split_at_run 1 ((f :: tl) ++ P' ++ body) (1 + zlen tl)
    ltac:(pose proof (Hpos f (tl ++ P' ++ body)); simpl; lia))).
  pose proof (in_window_mid (on_bytes first_byte) 0 1 [] [f] (tl ++ P' ++ body) (1 + zlen tl)
    (Ok f) [f] 0 eq_refl eq_refl eq_refl eq_refl) as Hf.
  change ([] ++ [f] ++ tl ++ P' ++ body) with ((f :: tl) ++ P' ++ body) in Hf.
  rewrite (run_bind_ok _ _ _ _ _ Hf). clear Hf.
  set (off := 1 + zlen tl).
  rewrite (run_bind_ok _ _ _ (off, off + 20) (mk_octets ((f :: tl) ++ P' ++ body) off)).
  2:{ unfold OctetsMut.peek_bytes_mut. rewrite (run_bind_reads _ _ _ (n + zlen body)).
      - rewrite (proj2 (Z.ltb_ge _ _)); [done|].
        unfold MAX_PKT_NUM_LEN, SAMPLE_LEN, body. rewrite !zlen_app. lia.
      - unfold OctetsMut.cap, off. cbn [o_buf o_off]. rewrite usub_ok;
          rewrite !zlen_app, zlen_cons; [f_equal|]; pose proof (zlen_nonneg body); lia. }
  pose proof (in_window_mid _ off (off + 20) (f :: tl) ((P' ++ c1) ++ sample) rest off _ _ 0
    ltac:(by rewrite zlen_cons) ltac:(rewrite !zlen_app, zlen_cons; lia)
    (unmask_pn_run ko mask first P c1 sample n Hn Hlow HP Hc1 Hmask Hml)
    ltac:(rewrite !zlen_app; lia)) as Hw.
  rewrite <- !app_assoc in Hw. rewrite (run_bind_ok _ _ _ _ _ Hw). clear Hw.
  replace off with (zlen (f :: tl)) by (by rewrite zlen_cons).
  rewrite (run_bind_ok _ _ _ _ _ (read_pkt_num_parses pn n Hn (f :: tl) body)).
  fold P. rewrite HP.
  rewrite (run_bind_ok _ _ _ _ _ (split_at_run 1 ((f :: tl) ++ P ++ body) _
    ltac:(pose proof (Hpos f (tl ++ P ++ body)); simpl; lia))).
  pose proof (in_window_mid (on_bytes (set_first (λ _, first))) 0 1 [] [f] (tl ++ P ++ body)
    (zlen (f :: tl) + n) (Ok ()) [first] 0 eq_refl eq_refl eq_refl eq_refl) as Hf.
  change ([] ++ [f] ++ tl ++ P ++ body) with ((f :: tl) ++ P ++ body) in Hf.
  by rewrite (run_bind_ok _ _ _ _ _ Hf).
Qed.

Lemma decrypt_pkt_run ko pn n h cipher plain rest nonce :
  make_nonce (k_nonce ko) pn = Ok nonce →
  EVP_AEAD_CTX_open (k_ctx ko) nonce cipher h = (true, plain) →
  zlen cipher = zlen plain + 16 → 0 <= n →
  ∃ o, decrypt_pkt pn n (zlen cipher + n) ko (mk_octets (h ++ cipher ++ rest) (zlen h)) =
    (Ok (mk_octets plain 0), o).
Proof.
  intros Hnonce Hopen Hl Hn. pose proof (zlen_nonneg h). pose proof (zlen_nonneg rest).
  pose proof (zlen_nonneg plain). unfold decrypt_pkt. rewrite run_bind_gets.
  change (OctetsMut.off _) with (zlen h).
  rewrite (run_bind_ok _ _ _ _ _ (split_at_run (zlen h) (h ++ cipher ++ rest) (zlen h)
    ltac:(rewrite !zlen_app; lia))).
  rewrite (proj2 (Z.ltb_ge _ _)) by lia. rewrite run_bind_gets. cbn [fst snd o_buf].
  assert (zslice 0 (zlen h) (h ++ cipher ++ rest) = h) as ->
    by apply (zslice_at 0 (zlen h) [] h (cipher ++ rest) eq_refl eq_refl).
  replace (zlen cipher + n - n) with (zlen cipher) by lia.
  pose proof (open_run ko pn h cipher plain nonce Hnonce Hopen Hl) as Ho.
  set (cipher' := plain ++ zdrop (zlen plain) cipher) in *.
  assert (zlen cipher' = zlen cipher) as Hc' by (unfold cipher'; rewrite zlen_app, zlen_zdrop; lia).
  pose proof (in_window_mid _ 0 (zlen cipher) [] cipher rest 0 _ _ 0 eq_refl eq_refl
    (on_bytes_run _ _ _ _ 0 Ho) Hc') as Hw. change ([] ++ ?l) with l in Hw.
  rewrite (run_bind_ok _ _ _ (zlen plain) (mk_octets (h ++ cipher' ++ rest) (zlen h))).
  - eexists. unfold cipher'. rewrite <- app_assoc.
    apply (get_bytes_parses (zlen plain) plain eq_refl h).
  - rewrite <- (app_nil_r (cipher ++ rest)), <- (app_nil_r (cipher' ++ rest)).
    apply (in_window_mid _ _ _ h (cipher ++ rest) [] _ _ _ 0); [done|rewrite !app_nil_r, !zlen_app; lia| |rewrite !zlen_app; lia].
    rewrite (run_bind_ok _ _ _ (0, zlen cipher) (mk_octets (cipher ++ rest) 0)); [done|].
    unfold OctetsMut.peek_bytes_mut. rewrite (run_bind_reads _ _ _ (zlen cipher + zlen rest)).
    + by rewrite (proj2 (Z.ltb_ge _ _)) by lia.
    + unfold OctetsMut.cap. cbn [o_buf o_off]. rewrite usub_ok; rewrite zlen_app; [f_equal|]; lia.
Qed.

(** C17. Packet protection round-trips in place.  A packet buffer holds a header
    whose last bytes are the packet number truncated to [n] bytes and whose
    first byte announces that length, then the payload, then room for the tag.
    [encrypt_pkt] seals it and masks the header; on the result, [decrypt_hdr]
    with the peer's key, called where the packet number starts, restores the
    header bytes, returns the truncated packet number and its length and, for a
    short header, the key phase bit; then [decrypt_pkt], given the full packet
    number, returns exactly the payload.  Whatever follows the packet in the
    datagram is kept. *)
Theorem protection_roundtrip ks ko hdr pn first tl plain room rest off n :
  key_pair ks ko →
  1 <= n <= 4 → Z.land first PKT_NUM_MASK + 1 = n →
  4 - n <= zlen plain → zlen room = 16 → 1 + zlen tl + n + zlen plain + 16 <= u64_max →
  let h := first :: tl ++ be_bytes (Z.to_nat n) pn in
  ∃ len sealed hdr' opened,
    encrypt_pkt pn n (zlen plain) (zlen h) None ks (mk_octets (h ++ plain ++ room ++ rest) off) =
      (Ok len, mk_octets (sealed ++ rest) off) ∧
    len = zlen h + zlen plain + 16 ∧ zlen sealed = len ∧
    decrypt_hdr hdr ko (mk_octets (sealed ++ rest) (1 + zlen tl)) =
      (Ok hdr', mk_octets (h ++ zdrop (zlen h) sealed ++ rest) (zlen h)) ∧
    Header.pkt_num hdr' = pn mod 2 ^ (8 * n) ∧ Header.pkt_num_len hdr' = n ∧
    (Header.ty hdr = PktType.Short →
     Header.key_phase hdr' = negb (Z.land first KEY_PHASE_BIT =? 0)) ∧
    decrypt_pkt pn n (zlen plain + 16 + n) ko
      (mk_octets (h ++ zdrop (zlen h) sealed ++ rest) (zlen h)) = (Ok (mk_octets plain 0), opened).
Proof.
  intros Hkp Hn Hlow Hpl Hroom Hfit h.
  set (P := be_bytes (Z.to_nat n) pn) in *. pose proof (zlen_nonneg tl).
  assert (zlen P = n) as HP by (unfold P; rewrite zlen_be_bytes; lia).
  assert (zlen h = 1 + zlen tl + n) as Hh by (unfold h; rewrite zlen_cons, zlen_app; lia).
  destruct (encrypt_pkt_run ks ko pn first tl P plain room rest off n Hkp ltac:(lia) Hn Hpl Hroom Hfit)
    as (out & tag & mask & nonce & Hnonce & Hmask & Hml & Ho & Ht & Hopen & Henc).
  fold h in Hopen, Henc. set (P' := xor_bytes P (zslice 1 (n + 1) mask)) in *.
  assert (zlen P' = n) as HP'. { unfold P'. rewrite zlen_xor_bytes; [done|]. rewrite zlen_zslice; lia. }
  set (h' := mask_first first mask :: tl ++ P') in *.
  assert (zlen h' = zlen h) as Hh' by (unfold h'; rewrite zlen_cons, zlen_app; lia).
  set (cipher := out ++ tag) in *.
  assert (zlen cipher = zlen plain + 16) as Hc by (unfold cipher; rewrite zlen_app; lia).
  set (c1 := ztake (4 - n) cipher). set (sample := zslice (4 - n) (SAMPLE_LEN + (4 - n)) cipher) in *.
  set (c3 := zdrop 16 (zdrop (4 - n) cipher)).
  assert (cipher = c1 ++ sample ++ c3) as Hsplit.
  { unfold c1, sample, c3, zslice, SAMPLE_LEN. replace (16 + (4 - n) - (4 - n)) with 16 by lia.
    by rewrite !ztake_zdrop. }
  assert (zlen c1 = 4 - n ∧ zlen sample = SAMPLE_LEN) as [Hc1 Hsl].
  { unfold c1, sample, SAMPLE_LEN. rewrite zlen_ztake, zlen_zslice by lia. lia. }
  pose proof (decrypt_hdr_run ko hdr mask first tl pn c1 sample (c3 ++ rest) n Hn Hlow Hc1 Hsl Hmask Hml)
    as Hdec. cbv zeta in Hdec. fold P in Hdec. fold P' in Hdec.
  destruct (decrypt_pkt_run ko pn n h cipher plain rest nonce Hnonce Hopen Hc ltac:(lia)) as [opened Hopened].
  assert (zdrop (zlen h) (h' ++ cipher) = cipher) as Hd by (by apply zdrop_app').
  exists (zlen h + (zlen plain + 16)), (h' ++ cipher). eexists. exists opened. rewrite Hd.
  assert ((h' ++ cipher) ++ rest = (mask_first first mask :: tl) ++ P' ++ c1 ++ sample ++ c3 ++ rest) as Hb1.
  { clearbody c1 c3 sample. unfold h'. rewrite Hsplit, <- !app_assoc. simpl. by rewrite <- !app_assoc. }
  assert (h ++ cipher ++ rest = (first :: tl) ++ P ++ c1 ++ sample ++ c3 ++ rest) as Hb2.
  { clearbody c1 c3 sample. unfold h. rewrite Hsplit, <- !app_assoc. simpl. by rewrite <- !app_assoc. }
  split; [rewrite Henc; unfold cipher; by rewrite <- !app_assoc|].
  split; [lia|]. split; [rewrite zlen_app; lia|].
  split; [rewrite Hb1, Hdec, Hb2, Hh; reflexivity|].
  split; [done|]. split; [done|]. split; [intros Hs; cbn [Header.key_phase]; by rewrite decide_True|].
  rewrite <- Hopened. do 2 f_equal. lia.
Qed.


End protection.

(** ** A concrete backend, for the witness *)

Module Toy.
Definition xor55 (l : list Z) : list Z := map (λ b, Z.lxor b 0x55) l.

#[global] Instance backend : Backend := {
  EVP_AEAD_CTX := unit;
  HeaderProtectionKey := unit;
  EVP_AEAD_CTX_open := λ _ _ inp _,
    (true, xor55 (ztake (zlen inp - 16) inp));
  EVP_AEAD_CTX_seal_scatter := λ _ _ inp extra ad,
    (true, (xor55 inp, replicate 16 (zlen ad) ++ extra));
  hpk_new_mask := λ _ sample, Some [nth 0 sample 0; 7; 8; 9; 10]
}.

Definition key : aead_key := mk_key Algorithm.AES128_GCM () () (replicate 12 3).

Lemma key_ok : key_pair key key.
Proof.
  constructor; [done..| |].
  - intros sample _. by eexists.
  - intros nonce inp ad. do 2 eexists. split; [reflexivity|].
    assert (zlen (xor55 inp) = zlen inp) as Hl by (unfold zlen, xor55; by rewrite length_map).
    split; [done|]. split; [done|]. cbn [EVP_AEAD_CTX_open backend]. f_equal.
    rewrite app_nil_r, ztake_app' by (rewrite zlen_app; change (zlen (replicate 16 (zlen ad))) with 16; lia).
    unfold xor55. rewrite map_map. rewrite <- (map_id inp) at 2. apply map_ext. intros b.
    by rewrite Z.lxor_assoc, Z.lxor_nilpotent, Z.lxor_0_r.
Qed.
End Toy.

Lemma protection_roundtrip_witness :
  let hdr := Header.mk PktType.Short 0 [1; 2] [] 0 0 None None false in
  let h := 0x45 :: [1; 2] ++ be_bytes (Z.to_nat 2) 0x12345 in
  ∃ len sealed hdr' opened,
    encrypt_pkt 0x12345 2 3 5 None Toy.key (mk_octets (h ++ [65; 66; 67] ++ replicate 16 0 ++ [9; 9]) 0) =
      (Ok len, mk_octets (sealed ++ [9; 9]) 0) ∧
    len = 24 ∧ zlen sealed = len ∧
    decrypt_hdr hdr Toy.key (mk_octets (sealed ++ [9; 9]) 3) =
      (Ok hdr', mk_octets (h ++ zdrop 5 sealed ++ [9; 9]) 5) ∧
    Header.pkt_num hdr' = 0x2345 ∧ Header.pkt_num_len hdr' = 2 ∧
    (Header.ty hdr = PktType.Short → Header.key_phase hdr' = true) ∧
    decrypt_pkt 0x12345 2 21 Toy.key (mk_octets (h ++ zdrop 5 sealed ++ [9; 9]) 5) =
      (Ok (mk_octets [65; 66; 67] 0), opened).
Proof.
  intros hdr h.
  refine (protection_roundtrip Toy.key Toy.key hdr 0x12345 0x45 [1; 2] [65; 66; 67] (replicate 16 0)
    [9; 9] 0 2 Toy.key_ok _ _ _ _ _); vm_compute; first [reflexivity | discriminate | split; discriminate].
Defined.
