(* ===== verification/Frames.v ===== *)
(** * Frames: [quiche/src/frame.rs]

    The frame type, its parser [from_bytes], its writer [to_bytes], the size
    computation [wire_len], the classification of frames, and the header
    encoders used by the packet builder.  The network coding library (repair
    and source symbols) is a parameter; a source symbol's metadata is the byte
    array the library returns. *)
From S2P Require Import Prelude OctetsLib Ranges RangeBufs Packets.

Definition MAX_CRYPTO_OVERHEAD : Z := 8.
Definition MAX_DGRAM_OVERHEAD : Z := 2.
Definition MAX_STREAM_OVERHEAD : Z := 12.
Definition MAX_STREAM_SIZE : Z := 2 ^ 62.

(** The parts of the networkcoding crate the frames use.  Its fallible calls
    return [inl] of the error's code; [inr] carries the bytes read. *)
Class NetCoding := {
  nc_decoder : Type;
  nc_repair_symbol : Type;
  nc_source_symbol : Type;
  read_repair_symbol : nc_decoder → list Z → Z + Z * nc_repair_symbol;
  symbol_size : nc_decoder → Z;
  read_source_symbol_metadata : nc_decoder → list Z → Z + Z * list Z;
  source_symbol_new : list Z → list Z → nc_source_symbol;
  source_symbol_metadata : nc_source_symbol → list Z;
  source_symbol_get : nc_source_symbol → list Z;
  repair_symbol_get : nc_repair_symbol → list Z;
  repair_symbol_wire_len : nc_repair_symbol → Z
}.

(** [impl From<networkcoding::DecoderError> for Error] *)
Definition from_decoder {A} (r : Z + A) : result Error A :=
  match r with inl code => Err (FECDecoderError code) | inr a => Ok a end.

Record EcnCounts := mk_ecn { ect0_count : Z; ect1_count : Z; ecn_ce_count : Z }.

Module Frame.
Section frame.
Context `{NetCoding}.

Inductive t :=
| Padding (len : Z)
| Ping (mtu_probe : option Z)
| ACK (ack_delay : Z) (ranges : RangeSet.t) (ecn_counts : option EcnCounts)
| ResetStream (stream_id error_code final_size : Z)
| StopSending (stream_id error_code : Z)
| Crypto (data : RangeBuf.t)
| CryptoHeader (offset length : Z)
| NewToken (token : list Z)
| Stream (stream_id : Z) (data : RangeBuf.t)
| StreamHeader (stream_id offset length : Z) (fin : bool)
| MaxData (max : Z)
| MaxStreamData (stream_id max : Z)
| MaxStreamsBidi (max : Z)
| MaxStreamsUni (max : Z)
| DataBlocked (limit : Z)
| StreamDataBlocked (stream_id limit : Z)
| StreamsBlockedBidi (limit : Z)
| StreamsBlockedUni (limit : Z)
| NewConnectionId (seq_num retire_prior_to : Z) (conn_id reset_token : list Z)
| RetireConnectionId (seq_num : Z)
| PathChallenge (data : list Z)
| PathResponse (data : list Z)
| ConnectionClose (error_code frame_type : Z) (reason : list Z)
| ApplicationClose (error_code : Z) (reason : list Z)
| HandshakeDone
| Datagram (data : list Z)
| DatagramHeader (length : Z)
| Repair (repair_symbol : nc_repair_symbol)
| SourceSymbolHeader (metadata : list Z) (recovered : bool)
| SourceSymbol (source_symbol : nc_source_symbol)
| SourceSymbolACK (ranges : RangeSet.t).

(** ** Parsing *)

Definition get_varint : M octets Error Z := Octets.get_varint.

(** [b.peek_u8() == Ok(0x00)] *)
Definition peek_is_zero : M octets Error bool := reads (λ o,
  match (Octets.peek_u8 (E:=Error) o).1 with
  | Ok b => Ok (b =? 0)
  | Err _ => Ok false
  | Panic => Panic
  end).

(** Counts the zero bytes, starting at [len]. *)
Fixpoint skip_padding (fuel : nat) (len : Z) : M octets Error Z :=
  zero ← peek_is_zero;
  if (zero : bool) then
    match fuel with
    | O => panic
    | S fuel => Octets.get_u8;; skip_padding fuel (len + 1)
    end
  else mret len.

(** [ranges.insert(smallest..largest + 1)] on a local set. *)
Definition insert_block (smallest largest : Z) (rs : RangeSet.t) : result Error RangeSet.t :=
  stop ← uadd largest 1;
  match RangeSet.insert (E:=Error) (smallest, stop) rs with
  | (Ok _, rs) => Ok rs
  | (Err e, _) => Err e
  | (Panic, _) => Panic
  end.

(** The loop of [parse_ack_frame] and [parse_source_symbol_ack_frame] over the
    further blocks; each turn reads at least two bytes. *)
Fixpoint parse_blocks (fuel : nat) (block_count smallest_ack : Z) (ranges : RangeSet.t) :
    M octets Error RangeSet.t :=
  if block_count <=? 0 then mret ranges
  else
    match fuel with
    | O => panic
    | S fuel =>
        gap ← get_varint;
        lim ← lift (uadd 2 gap);
        if smallest_ack <? lim then fail InvalidFrame
        else
          d ← lift (usub smallest_ack gap);
          largest_ack ← lift (usub d 2);
          ack_block ← get_varint;
          if largest_ack <? ack_block then fail InvalidFrame
          else
            smallest_ack ← lift (usub largest_ack ack_block);
            ranges ← lift (insert_block smallest_ack largest_ack ranges);
            parse_blocks fuel (block_count - 1) smallest_ack ranges
    end.

Definition parse_all_blocks (block_count smallest_ack : Z) (ranges : RangeSet.t) :
    M octets Error RangeSet.t :=
  c ← reads Octets.cap;
  parse_blocks (S (Z.to_nat c)) block_count smallest_ack ranges.

Definition parse_ack_frame (ty : Z) : M octets Error t :=
  let first := as_u8 ty in
  largest_ack ← get_varint;
  ack_delay ← get_varint;
  block_count ← get_varint;
  ack_block ← get_varint;
  if largest_ack <? ack_block then fail InvalidFrame
  else
    smallest_ack ← lift (usub largest_ack ack_block);
    ranges ← lift (insert_block smallest_ack largest_ack RangeSet.default);
    ranges ← parse_all_blocks block_count smallest_ack ranges;
    ecn_counts ←
      (if negb (Z.land first 0x01 =? 0) then
         ect0 ← get_varint;
         ect1 ← get_varint;
         ce ← get_varint;
         mret (Some (mk_ecn ect0 ect1 ce))
       else mret None);
    mret (ACK ack_delay ranges ecn_counts).

Definition parse_source_symbol_ack_frame : M octets Error t :=
  largest_ack ← get_varint;
  block_count ← get_varint;
  ack_block ← get_varint;
  if largest_ack <? ack_block then fail InvalidFrame
  else
    smallest_ack ← lift (usub largest_ack ack_block);
    ranges ← lift (insert_block smallest_ack largest_ack RangeSet.default);
    ranges ← parse_all_blocks block_count smallest_ack ranges;
    mret (SourceSymbolACK ranges).

Definition parse_stream_frame (ty : Z) : M octets Error t :=
  let first := as_u8 ty in
  stream_id ← get_varint;
  offset ← (if negb (Z.land first 0x04 =? 0) then get_varint else mret 0);
  len ← (if negb (Z.land first 0x02 =? 0) then get_varint else reads Octets.cap);
  stop ← lift (uadd offset len);
  if MAX_STREAM_SIZE <=? stop then fail InvalidFrame
  else
    let fin := negb (Z.land first 0x01 =? 0) in
    data ← Octets.get_bytes len;
    mret (Stream stream_id (RangeBuf.from (Octets.as_ref data) offset fin)).

Definition parse_datagram_frame (ty : Z) : M octets Error t :=
  let first := as_u8 ty in
  len ← (if negb (Z.land first 0x01 =? 0) then get_varint else reads Octets.cap);
  data ← Octets.get_bytes len;
  mret (Datagram (Octets.buf data)).

(** The rest of a REPAIR frame belongs to the library. *)
Definition parse_repair (dec : nc_decoder) : M octets Error t :=
  b ← gets Octets.to_vec;
  '(read, symbol) ← lift (from_decoder (read_repair_symbol dec b));
  Octets.skip read;;
  mret (Repair symbol).

(** [source_symbol_data[symbol_size - len..].copy_from_slice(b)]: what is left
    of the packet fills the end of the symbol. *)
Definition parse_source_symbol (dec : nc_decoder) : M octets Error t :=
  b ← gets Octets.as_ref;
  '(read, metadata) ← lift (from_decoder (read_source_symbol_metadata dec b));
  Octets.skip read;;
  b ← gets Octets.as_ref;
  pad ← lift (usub (symbol_size dec) (zlen b));
  mret (SourceSymbol (source_symbol_new metadata (replicate (Z.to_nat pad) 0 ++ b))).

(** The fields of a frame of type [ty]. *)
Definition parse_fields (ty : Z) (dec : nc_decoder) : M octets Error t :=
  if ty =? 0x00 then
    c ← reads Octets.cap;
    len ← skip_padding (Z.to_nat c) 1;
    mret (Padding len)
  else if ty =? 0x01 then mret (Ping None)
  else if (0x02 <=? ty) && (ty <=? 0x03) then parse_ack_frame ty
  else if ty =? 0x04 then
    stream_id ← get_varint; error_code ← get_varint; final_size ← get_varint;
    mret (ResetStream stream_id error_code final_size)
  else if ty =? 0x05 then
    stream_id ← get_varint; error_code ← get_varint;
    mret (StopSending stream_id error_code)
  else if ty =? 0x06 then
    offset ← get_varint;
    data ← Octets.get_bytes_with_varint_length;
    mret (Crypto (RangeBuf.from (Octets.as_ref data) offset false))
  else if ty =? 0x07 then
    len ← get_varint;
    if len =? 0 then fail InvalidFrame
    else
      token ← Octets.get_bytes len;
      mret (NewToken (Octets.to_vec token))
  else if (0x08 <=? ty) && (ty <=? 0x0f) then parse_stream_frame ty
  else if ty =? 0x10 then max ← get_varint; mret (MaxData max)
  else if ty =? 0x11 then
    stream_id ← get_varint; max ← get_varint; mret (MaxStreamData stream_id max)
  else if ty =? 0x12 then max ← get_varint; mret (MaxStreamsBidi max)
  else if ty =? 0x13 then max ← get_varint; mret (MaxStreamsUni max)
  else if ty =? 0x14 then limit ← get_varint; mret (DataBlocked limit)
  else if ty =? 0x15 then
    stream_id ← get_varint; limit ← get_varint; mret (StreamDataBlocked stream_id limit)
  else if ty =? 0x16 then limit ← get_varint; mret (StreamsBlockedBidi limit)
  else if ty =? 0x17 then limit ← get_varint; mret (StreamsBlockedUni limit)
  else if ty =? 0x18 then
    seq_num ← get_varint;
    retire_prior_to ← get_varint;
    conn_id_len ← Octets.get_u8;
    if negb ((1 <=? conn_id_len) && (conn_id_len <=? MAX_CID_LEN)) then fail InvalidFrame
    else
      conn_id ← Octets.get_bytes conn_id_len;
      reset_token ← Octets.get_bytes 16;
      mret (NewConnectionId seq_num retire_prior_to (Octets.to_vec conn_id) (Octets.buf reset_token))
  else if ty =? 0x19 then seq_num ← get_varint; mret (RetireConnectionId seq_num)
  else if ty =? 0x1a then data ← Octets.get_bytes 8; mret (PathChallenge (Octets.buf data))
  else if ty =? 0x1b then data ← Octets.get_bytes 8; mret (PathResponse (Octets.buf data))
  else if ty =? 0x1c then
    error_code ← get_varint;
    frame_type ← get_varint;
    reason ← Octets.get_bytes_with_varint_length;
    mret (ConnectionClose error_code frame_type (Octets.to_vec reason))
  else if ty =? 0x1d then
    error_code ← get_varint;
    reason ← Octets.get_bytes_with_varint_length;
    mret (ApplicationClose error_code (Octets.to_vec reason))
  else if ty =? 0x1e then mret HandshakeDone
  else if (ty =? 0x30) || (ty =? 0x31) then parse_datagram_frame ty
  else if ty =? 0x32 then parse_repair dec
  else if ty =? 0x33 then parse_source_symbol dec
  else if ty =? 0x34 then parse_source_symbol_ack_frame
  else fail InvalidFrame.

(** Which frames a packet type may carry. *)
Definition allowed (pkt : PktType.t) (frame : t) : bool :=
  match pkt, frame with
  | _, Padding _ | _, Ping _ => true
  | PktType.ZeroRTT, ACK _ _ _ => false
  | PktType.ZeroRTT, Crypto _ => false
  | PktType.ZeroRTT, HandshakeDone => false
  | PktType.ZeroRTT, NewToken _ => false
  | PktType.ZeroRTT, PathResponse _ => false
  | PktType.ZeroRTT, RetireConnectionId _ => false
  | PktType.ZeroRTT, ConnectionClose _ _ _ => false
  | _, ACK _ _ _ => true
  | _, Crypto _ => true
  | _, ConnectionClose _ _ _ => true
  | PktType.Short, _ => true
  | PktType.ZeroRTT, _ => true
  | _, _ => false
  end.

Definition from_bytes (pkt : PktType.t) (dec : nc_decoder) : M octets Error t :=
  frame_type ← get_varint;
  frame ← parse_fields frame_type dec;
  if negb (allowed pkt frame) then fail InvalidPacket else mret frame.

(** ** Writing *)

Definition put (v : Z) : M octets Error Z := OctetsMut.put_varint v.

Definition encode_crypto_header (offset length : Z) : M octets Error unit :=
  put 0x06;;
  put offset;;
  OctetsMut.put_varint_with_len length 2;;
  mret ().

Definition encode_stream_header (stream_id offset length : Z) (fin : bool) : M octets Error unit :=
  let ty := Z.lor (Z.lor 0x08 0x04) 0x02 in
  let ty := if fin then Z.lor ty 0x01 else ty in
  put ty;;
  put stream_id;;
  put offset;;
  OctetsMut.put_varint_with_len length 2;;
  mret ().

Definition encode_dgram_header (length : Z) : M octets Error unit :=
  put (Z.lor 0x30 0x01);;
  OctetsMut.put_varint_with_len length 2;;
  mret ().

(** [while left > 0] of PADDING. *)
Fixpoint put_padding (n : nat) : M octets Error unit :=
  match n with
  | O => mret ()
  | S n => put 0x00;; put_padding n
  end.

(** [let first = it.next().unwrap()] on the ranges from the largest down. *)
Definition first_block (ranges : RangeSet.t) : result Error (range * list range) :=
  match rev (RangeSet.iter ranges) with
  | [] => Panic
  | first :: it => Ok (first, it)
  end.

(** [(block.end - 1) - block.start] *)
Definition block_len (block : range) : result Error Z :=
  l ← usub block.2 1; usub l block.1.

(** [smallest_ack - block.end - 1] *)
Definition block_gap (smallest_ack : Z) (block : range) : result Error Z :=
  g ← usub smallest_ack block.2; usub g 1.

(** [for block in it] *)
Fixpoint put_blocks (smallest_ack : Z) (it : list range) : M octets Error unit :=
  match it with
  | [] => mret ()
  | block :: it =>
      gap ← lift (block_gap smallest_ack block);
      ack_block ← lift (block_len block);
      put gap;;
      put ack_block;;
      put_blocks block.1 it
  end.

Definition put_ecn (ecn_counts : option EcnCounts) : M octets Error unit :=
  match ecn_counts with
  | Some ecn => put (ect0_count ecn);; put (ect1_count ecn);; put (ecn_ce_count ecn);; mret ()
  | None => mret ()
  end.

(** The frame proper; [to_bytes] also returns how far the cursor moved. *)
Definition put_frame (f : t) : M octets Error unit :=
  match f with
  | Padding len => put_padding (Z.to_nat len)
  | Ping _ => put 0x01;; mret ()
  | ACK ack_delay ranges ecn_counts =>
      put (match ecn_counts with None => 0x02 | Some _ => 0x03 end);;
      '(first, it) ← lift (first_block ranges);
      ack_block ← lift (block_len first);
      largest ← lift (usub first.2 1);
      put largest;;
      put ack_delay;;
      put (zlen it);;
      put ack_block;;
      put_blocks first.1 it;;
      put_ecn ecn_counts
  | ResetStream stream_id error_code final_size =>
      put 0x04;; put stream_id;; put error_code;; put final_size;; mret ()
  | StopSending stream_id error_code => put 0x05;; put stream_id;; put error_code;; mret ()
  | Crypto data =>
      encode_crypto_header (RangeBuf.off data) (RangeBuf.len data);;
      OctetsMut.put_bytes (RangeBuf.deref data)
  | CryptoHeader _ _ => mret ()
  | NewToken token => put 0x07;; put (zlen token);; OctetsMut.put_bytes token
  | Stream stream_id data =>
      encode_stream_header stream_id (RangeBuf.off data) (RangeBuf.len data) (RangeBuf.fin data);;
      OctetsMut.put_bytes (RangeBuf.deref data)
  | StreamHeader _ _ _ _ => mret ()
  | MaxData max => put 0x10;; put max;; mret ()
  | MaxStreamData stream_id max => put 0x11;; put stream_id;; put max;; mret ()
  | MaxStreamsBidi max => put 0x12;; put max;; mret ()
  | MaxStreamsUni max => put 0x13;; put max;; mret ()
  | DataBlocked limit => put 0x14;; put limit;; mret ()
  | StreamDataBlocked stream_id limit => put 0x15;; put stream_id;; put limit;; mret ()
  | StreamsBlockedBidi limit => put 0x16;; put limit;; mret ()
  | StreamsBlockedUni limit => put 0x17;; put limit;; mret ()
  | NewConnectionId seq_num retire_prior_to conn_id reset_token =>
      put 0x18;; put seq_num;; put retire_prior_to;;
      OctetsMut.put_u8 (as_u8 (zlen conn_id));;
      OctetsMut.put_bytes conn_id;;
      OctetsMut.put_bytes reset_token
  | RetireConnectionId seq_num => put 0x19;; put seq_num;; mret ()
  | PathChallenge data => put 0x1a;; OctetsMut.put_bytes data
  | PathResponse data => put 0x1b;; OctetsMut.put_bytes data
  | ConnectionClose error_code frame_type reason =>
      put 0x1c;; put error_code;; put frame_type;; put (zlen reason);; OctetsMut.put_bytes reason
  | ApplicationClose error_code reason =>
      put 0x1d;; put error_code;; put (zlen reason);; OctetsMut.put_bytes reason
  | HandshakeDone => put 0x1e;; mret ()
  | Datagram data => encode_dgram_header (zlen data);; OctetsMut.put_bytes data
  | DatagramHeader _ => mret ()
  | Repair symbol => put 0x32;; OctetsMut.put_bytes (repair_symbol_get symbol)
  | SourceSymbolHeader metadata _ => put 0x33;; OctetsMut.put_bytes metadata
  | SourceSymbol symbol =>
      put 0x33;;
      OctetsMut.put_bytes (source_symbol_metadata symbol);;
      OctetsMut.put_bytes (source_symbol_get symbol)
  | SourceSymbolACK ranges =>
      put 0x34;;
      '(first, it) ← lift (first_block ranges);
      ack_block ← lift (block_len first);
      largest ← lift (usub first.2 1);
      put largest;;
      put (zlen it);;
      put ack_block;;
      put_blocks first.1 it
  end.

Definition to_bytes (f : t) : M octets Error Z :=
  before ← reads OctetsMut.cap;
  put_frame f;;
  after ← reads OctetsMut.cap;
  lift (usub before after).

(** ** Sizes *)

(** The sum of the varint lengths of a list of fields. *)
Fixpoint varints_len (l : list Z) : result Error Z :=
  match l with
  | [] => Ok 0
  | v :: l => n ← varint_len v; m ← varints_len l; Ok (n + m)
  end.

Fixpoint blocks_len (smallest_ack : Z) (it : list range) : result Error Z :=
  match it with
  | [] => Ok 0
  | block :: it =>
      gap ← block_gap smallest_ack block;
      ack_block ← block_len block;
      n ← varints_len [gap; ack_block];
      m ← blocks_len block.1 it;
      Ok (n + m)
  end.

(** Type byte, varint fields, then a fixed number of bytes. *)
Definition fields_len (l : list Z) (bytes : Z) : result Error Z :=
  n ← varints_len l; Ok (1 + n + bytes).

Definition wire_len (f : t) : result Error Z :=
  match f with
  | Padding len => Ok len
  | Ping _ => Ok 1
  | ACK ack_delay ranges ecn_counts =>
      '(first, it) ← first_block ranges;
      ack_block ← block_len first;
      largest ← usub first.2 1;
      n ← varints_len [largest; ack_delay; zlen it; ack_block];
      m ← blocks_len first.1 it;
      e ← match ecn_counts with
          | Some ecn => varints_len [ect0_count ecn; ect1_count ecn; ecn_ce_count ecn]
          | None => Ok 0
          end;
      Ok (1 + n + m + e)
  | ResetStream stream_id error_code final_size => fields_len [stream_id; error_code; final_size] 0
  | StopSending stream_id error_code => fields_len [stream_id; error_code] 0
  | Crypto data => fields_len [RangeBuf.off data] (2 + RangeBuf.len data)
  | CryptoHeader offset length => fields_len [offset] (2 + length)
  | NewToken token => fields_len [zlen token] (zlen token)
  | Stream stream_id data => fields_len [stream_id; RangeBuf.off data] (2 + RangeBuf.len data)
  | StreamHeader stream_id offset length _ => fields_len [stream_id; offset] (2 + length)
  | MaxData max => fields_len [max] 0
  | MaxStreamData stream_id max => fields_len [stream_id; max] 0
  | MaxStreamsBidi max => fields_len [max] 0
  | MaxStreamsUni max => fields_len [max] 0
  | DataBlocked limit => fields_len [limit] 0
  | StreamDataBlocked stream_id limit => fields_len [stream_id; limit] 0
  | StreamsBlockedBidi limit => fields_len [limit] 0
  | StreamsBlockedUni limit => fields_len [limit] 0
  | NewConnectionId seq_num retire_prior_to conn_id reset_token =>
      fields_len [seq_num; retire_prior_to] (1 + zlen conn_id + zlen reset_token)
  | RetireConnectionId seq_num => fields_len [seq_num] 0
  | PathChallenge _ => Ok (1 + 8)
  | PathResponse _ => Ok (1 + 8)
  | ConnectionClose error_code frame_type reason =>
      fields_len [error_code; frame_type; zlen reason] (zlen reason)
  | ApplicationClose error_code reason => fields_len [error_code; zlen reason] (zlen reason)
  | HandshakeDone => Ok 1
  | Datagram data => Ok (1 + 2 + zlen data)
  | DatagramHeader length => Ok (1 + 2 + length)
  | Repair symbol => Ok (1 + repair_symbol_wire_len symbol)
  | SourceSymbolHeader metadata _ => Ok (1 + zlen metadata)
  | SourceSymbol symbol =>
      Ok (1 + zlen (source_symbol_metadata symbol) + zlen (source_symbol_get symbol))
  | SourceSymbolACK ranges =>
      '(first, it) ← first_block ranges;
      ack_block ← block_len first;
      largest ← usub first.2 1;
      n ← varints_len [largest; zlen it; ack_block];
      m ← blocks_len first.1 it;
      Ok (1 + n + m)
  end.

(** ** Classification *)

Definition ack_eliciting (f : t) : bool :=
  match f with
  | Padding _ | ACK _ _ _ | ApplicationClose _ _ | SourceSymbol _ | SourceSymbolHeader _ _
  | SourceSymbolACK _ | ConnectionClose _ _ _ => false
  | _ => true
  end.

Definition probing (f : t) : bool :=
  match f with
  | Padding _ | NewConnectionId _ _ _ _ | PathChallenge _ | PathResponse _ => true
  | _ => false
  end.
End frame.
End Frame.
