(* ===== verification/FrameCodec.v ===== *)
(** * The wire format of frames

    The byte layout of every frame as a reference encoder [enc_frame], and the
    theorems that relate it to [Frames.v]: writing and parsing are inverse, the
    size computation is exact, and parsing arbitrary bytes is safe. *)
From S2P Require Import Prelude OctetsLib Readers Ranges RangeBufs Packets Frames.

(** ** The wire format *)

Section wire.
Context `{NetCoding}.
Import Frame.
Implicit Types (f : t) (it : list range) (rs : RangeSet.t).

Definition enc_fields (l : list Z) : list Z := l ≫= enc_varint.

(** The further blocks of an ACK, from the largest down. *)
Fixpoint enc_blocks (smallest : Z) it : list Z :=
  match it with
  | [] => []
  | b :: it => enc_varint (smallest - b.2 - 1) ++ enc_varint (b.2 - 1 - b.1) ++ enc_blocks b.1 it
  end.

Definition enc_ack (prefix : list Z) rs : list Z :=
  match rev (RangeSet.iter rs) with
  | [] => []
  | first :: it =>
      enc_varint (first.2 - 1) ++ prefix ++ enc_varint (zlen it) ++
      enc_varint (first.2 - 1 - first.1) ++ enc_blocks first.1 it
  end.

Definition enc_ecn (ecn : option EcnCounts) : list Z :=
  match ecn with
  | Some e => enc_varint (ect0_count e) ++ enc_varint (ect1_count e) ++ enc_varint (ecn_ce_count e)
  | None => []
  end.

Definition enc_bytes (l : list Z) : list Z := enc_varint (zlen l) ++ l.
Definition enc_len2 (l : list Z) : list Z := enc_varint_len 2 (zlen l) ++ l.

(** The type of a frame on the wire. *)
Definition frame_type f : Z :=
  match f with
  | Padding _ => 0x00 | Ping _ => 0x01
  | ACK _ _ None => 0x02 | ACK _ _ (Some _) => 0x03
  | ResetStream _ _ _ => 0x04 | StopSending _ _ => 0x05
  | Crypto _ | CryptoHeader _ _ => 0x06 | NewToken _ => 0x07
  | Stream _ data => if RangeBuf.fin data then 0x0f else 0x0e
  | StreamHeader _ _ _ fin => if fin then 0x0f else 0x0e
  | MaxData _ => 0x10 | MaxStreamData _ _ => 0x11
  | MaxStreamsBidi _ => 0x12 | MaxStreamsUni _ => 0x13
  | DataBlocked _ => 0x14 | StreamDataBlocked _ _ => 0x15
  | StreamsBlockedBidi _ => 0x16 | StreamsBlockedUni _ => 0x17
  | NewConnectionId _ _ _ _ => 0x18 | RetireConnectionId _ => 0x19
  | PathChallenge _ => 0x1a | PathResponse _ => 0x1b
  | ConnectionClose _ _ _ => 0x1c | ApplicationClose _ _ => 0x1d | HandshakeDone => 0x1e
  | Datagram _ | DatagramHeader _ => 0x31
  | Repair _ => 0x32 | SourceSymbolHeader _ _ | SourceSymbol _ => 0x33 | SourceSymbolACK _ => 0x34
  end.

(** The fields after the type. *)
Definition enc_payload f : list Z :=
  match f with
  | ACK ack_delay ranges ecn => enc_ack (enc_varint ack_delay) ranges ++ enc_ecn ecn
  | ResetStream a b c => enc_varint a ++ enc_varint b ++ enc_varint c
  | StopSending a b => enc_varint a ++ enc_varint b
  | Crypto data => enc_varint (RangeBuf.off data) ++ enc_len2 (RangeBuf.deref data)
  | NewToken token => enc_bytes token
  | Stream id data => enc_varint id ++ enc_varint (RangeBuf.off data) ++ enc_len2 (RangeBuf.deref data)
  | MaxData a | MaxStreamsBidi a | MaxStreamsUni a | DataBlocked a | StreamsBlockedBidi a
  | StreamsBlockedUni a | RetireConnectionId a => enc_varint a
  | MaxStreamData a b | StreamDataBlocked a b => enc_varint a ++ enc_varint b
  | NewConnectionId a b cid token => enc_varint a ++ enc_varint b ++ [zlen cid] ++ cid ++ token
  | PathChallenge d | PathResponse d => d
  | ConnectionClose a b reason => enc_varint a ++ enc_varint b ++ enc_bytes reason
  | ApplicationClose a reason => enc_varint a ++ enc_bytes reason
  | Datagram data => enc_len2 data
  | SourceSymbolACK ranges => enc_ack [] ranges
  | _ => []
  end.

Definition enc_frame f : list Z := [frame_type f] ++ enc_payload f.

(** What fits the format: varints below [2^62], two-byte lengths, connection
    ids of 1 to 20 bytes, and for an ACK at least one range. *)
Definition ack_ok rs : Prop :=
  RangeSet.iter rs ≠ [] ∧ ranges_wf (RangeSet.iter rs) ∧ nonempty (RangeSet.iter rs) ∧
  Forall (λ r, r.2 <= 2 ^ 62) (RangeSet.iter rs) ∧ zlen (RangeSet.iter rs) < 2 ^ 62.

Definition data_ok (data : RangeBuf.t) : Prop :=
  RangeBuf.wf data ∧ RangeBuf.len data < 16384 ∧ RangeBuf.max_off data < 2 ^ 62.

Definition ecn_ok (ecn : option EcnCounts) : Prop :=
  match ecn with
  | Some e => is_varint (ect0_count e) ∧ is_varint (ect1_count e) ∧ is_varint (ecn_ce_count e)
  | None => True
  end.

Definition frame_ok f : Prop :=
  match f with
  | Ping _ | HandshakeDone => True
  | ACK d rs ecn => is_varint d ∧ ack_ok rs ∧ ecn_ok ecn
  | ResetStream a b c => is_varint a ∧ is_varint b ∧ is_varint c
  | StopSending a b | MaxStreamData a b | StreamDataBlocked a b => is_varint a ∧ is_varint b
  | Crypto data => data_ok data ∧ RangeBuf.fin data = false
  | NewToken token => token ≠ [] ∧ is_varint (zlen token)
  | Stream id data => is_varint id ∧ data_ok data
  | MaxData a | MaxStreamsBidi a | MaxStreamsUni a | DataBlocked a | StreamsBlockedBidi a
  | StreamsBlockedUni a | RetireConnectionId a => is_varint a
  | NewConnectionId a b cid token =>
      is_varint a ∧ is_varint b ∧ 1 <= zlen cid <= MAX_CID_LEN ∧ zlen token = 16
  | PathChallenge d | PathResponse d => zlen d = 8
  | ConnectionClose a b reason => is_varint a ∧ is_varint b ∧ is_varint (zlen reason)
  | ApplicationClose a reason => is_varint a ∧ is_varint (zlen reason)
  | Datagram data => zlen data < 16384
  | SourceSymbolACK rs => ack_ok rs
  | _ => False
  end.

(** Equality of frames as a receiver can observe it: the representation of
    range sets and buffers and the local metadata of a PING do not travel. *)
Definition same_data (a b : RangeBuf.t) : Prop :=
  RangeBuf.off a = RangeBuf.off b ∧ RangeBuf.deref a = RangeBuf.deref b ∧
  RangeBuf.fin a = RangeBuf.fin b.

Definition same_frame (f g : t) : Prop :=
  match f, g with
  | Ping _, Ping None => True
  | ACK d rs e, ACK d' rs' e' => d = d' ∧ RangeSet.iter rs = RangeSet.iter rs' ∧ e = e'
  | SourceSymbolACK rs, SourceSymbolACK rs' => RangeSet.iter rs = RangeSet.iter rs'
  | Crypto a, Crypto b => same_data a b
  | Stream i a, Stream j b => i = j ∧ same_data a b
  | _, _ => f = g
  end.

(** *** Writers *)

Lemma put_writes v : is_varint v → writes (put v) (enc_varint v).
Proof. apply put_varint_writes. Qed.

Lemma block_len_ok b : 0 <= b.1 < b.2 → block_len b = Ok (b.2 - 1 - b.1).
Proof. intros. unfold block_len. rewrite (usub_ok b.2 1) by lia. cbn. by rewrite usub_ok by lia. Qed.

Lemma block_gap_ok s b : b.2 < s → block_gap s b = Ok (s - b.2 - 1).
Proof. intros. unfold block_gap. rewrite (usub_ok s b.2) by lia. cbn. by rewrite usub_ok by lia. Qed.

(** A chain of blocks going down from [smallest]. *)
Fixpoint descends (smallest : Z) it : Prop :=
  match it with
  | [] => True
  | b :: it => 0 <= b.1 < b.2 ∧ b.2 < smallest ∧ descends b.1 it
  end.

Lemma descends_of_wf it : ∀ first l,
  ranges_wf (rev it ++ first :: l) → nonempty (rev it ++ first :: l) → descends first.1 it.
Proof.
  induction it as [|b it IH]; intros first l Hwf Hne; [done|].
  simpl in Hwf, Hne. rewrite <- !app_assoc in Hwf, Hne. simpl in Hwf, Hne.
  split; [|split; [|by apply (IH b (first :: l))]].
  - apply ranges_wf_app in Hwf as (_ & Hwf & _). destruct b as [x y]. apply ranges_wf_cons in Hwf as (? & _).
    unfold nonempty in Hne. rewrite Forall_app, Forall_cons in Hne. simpl in *. lia.
  - apply ranges_wf_app in Hwf as (_ & Hwf & _). destruct b as [x y].
    apply ranges_wf_cons in Hwf as (_ & Hf & _). by inversion Hf.
Qed.

Lemma put_blocks_writes it : ∀ smallest,
  smallest <= 2 ^ 62 → descends smallest it → writes (put_blocks smallest it) (enc_blocks smallest it).
Proof.
  induction it as [|b it IH]; intros s Hs Hd; [apply writes_ret|].
  destruct Hd as (Hb & Hbs & Hd). change (2 ^ 62) with 4611686018427387904 in Hs.
  intros pre old rest Hold. simpl.
  rewrite (run_bind_lift _ _ _ _ (block_gap_ok s b Hbs)).
  rewrite (run_bind_lift _ _ _ _ (block_len_ok b ltac:(lia))). revert pre old rest Hold.
  apply writes_bind; [apply put_writes; unfold is_varint; lia|]. intros _.
  apply writes_bind; [apply put_writes; unfold is_varint; lia|]. intros _.
  apply IH; [lia|done].
Qed.

Lemma put_ecn_writes e : ecn_ok e → writes (put_ecn e) (enc_ecn e).
Proof.
  destruct e as [e|]; [|intros; apply writes_ret]. intros (? & ? & ?). simpl.
  apply writes_bind; [by apply put_writes|]. intros _.
  apply writes_bind; [by apply put_writes|]. intros _.
  by apply writes_then_ret, put_writes.
Qed.

(** The ranges of an ACK from the largest down. *)
Record blocks_of rs (first : range) it : Prop := {
  bo_rev : rev (RangeSet.iter rs) = first :: it;
  bo_first : 0 <= first.1 < first.2 ∧ first.2 <= 2 ^ 62;
  bo_descends : descends first.1 it;
  bo_count : is_varint (zlen it)
}.

Lemma zlen_rev_app it (l : list range) : zlen (rev it ++ l) = zlen it + zlen l.
Proof. unfold zlen. rewrite length_app, length_rev. lia. Qed.

Lemma ack_ok_blocks rs : ack_ok rs → ∃ first it, blocks_of rs first it.
Proof.
  intros (Hne & Hwf & Hpos & Hmax & Hlen).
  destruct (rev (RangeSet.iter rs)) as [|first it] eqn:E.
  { apply (f_equal (@rev _)) in E. rewrite rev_involutive in E. done. }
  assert (RangeSet.iter rs = rev it ++ [first]) as Hit.
  { by rewrite <- (rev_involutive (RangeSet.iter rs)), E. }
  exists first, it. rewrite Hit in Hwf, Hpos, Hmax, Hlen. constructor; [done| | |].
  - unfold nonempty in Hpos. rewrite Forall_app, Forall_singleton in Hpos, Hmax.
    apply ranges_wf_app in Hwf as (_ & Hwf & _). destruct first as [x y].
    apply ranges_wf_cons in Hwf as (? & _). simpl in *. lia.
  - by apply (descends_of_wf it first []).
  - rewrite zlen_rev_app in Hlen. unfold is_varint. change (2 ^ 62) with 4611686018427387904 in Hlen.
    change (zlen [first]) with 1 in Hlen. pose proof (zlen_nonneg it). lia.
Qed.

Lemma enc_varint_small ty : 0 <= ty < 64 → enc_varint ty = [ty].
Proof.
  intros Hty. unfold enc_varint, varint_size. rewrite (proj2 (Z.leb_le _ _)) by lia.
  unfold enc_varint_len. change (varint_tag 1) with 0. rewrite Z.add_0_r.
  change (Z.to_nat 1) with 1%nat. cbn [be_bytes]. f_equal.
  rewrite Z.shiftr_0_r. change 255 with (Z.ones 8). rewrite Z.land_ones by lia.
  apply Z.mod_small. change (2 ^ 8) with 256. lia.
Qed.

Lemma put_type_writes ty : 0 <= ty < 64 → writes (put ty) [ty].
Proof. intros Hty. rewrite <- (enc_varint_small ty Hty). apply put_writes. unfold is_varint. lia. Qed.

Lemma put_len2_writes n : 0 <= n < 16384 →
  writes (E:=Error) (OctetsMut.put_varint_with_len n 2) (enc_varint_len 2 n).
Proof. intros. apply put_varint_with_len_writes. right; left. lia. Qed.

(** The leaves of a writer, and its sequencing. *)
Ltac writes_leaf :=
  first [ apply put_type_writes; lia | apply put_len2_writes; lia | apply put_bytes_writes
        | apply put_writes; first [done | unfold is_varint in *; lia] ].
Ltac solve_writes :=
  repeat first [ apply writes_ret | solve [writes_leaf] | apply writes_then_ret; solve [writes_leaf]
               | apply writes_bind; [solve [writes_leaf]|intros _] ].

Lemma encode_crypto_header_writes off n :
  is_varint off → 0 <= n < 16384 →
  writes (encode_crypto_header off n) ([0x06] ++ enc_varint off ++ enc_varint_len 2 n).
Proof. intros. unfold encode_crypto_header. solve_writes. Qed.

Lemma encode_stream_header_writes id off n (fin : bool) :
  is_varint id → is_varint off → 0 <= n < 16384 →
  writes (encode_stream_header id off n fin)
    ([if fin then 0x0f else 0x0e] ++ enc_varint id ++ enc_varint off ++ enc_varint_len 2 n).
Proof.
  intros. unfold encode_stream_header.
  change (Z.lor (Z.lor 8 4) 2) with 0x0e. destruct fin; cbv iota; change (Z.lor 0x0e 1) with 0x0f;
    solve_writes.
Qed.

Lemma encode_dgram_header_writes n :
  0 <= n < 16384 → writes (encode_dgram_header n) ([0x31] ++ enc_varint_len 2 n).
Proof. intros. unfold encode_dgram_header. change (Z.lor 0x30 0x01) with 0x31. solve_writes. Qed.

Lemma data_ok_ranges d :
  data_ok d → is_varint (RangeBuf.off d) ∧ 0 <= RangeBuf.len d < 16384 ∧
    zlen (RangeBuf.deref d) = RangeBuf.len d.
Proof.
  intros (Hwf & Hl & Hm). change (2 ^ 62) with 4611686018427387904 in Hm.
  pose proof (RangeBuf.off_nonneg d Hwf). pose proof (RangeBuf.off_le_max d Hwf).
  pose proof (RangeBuf.len_nonneg d Hwf). rewrite RangeBuf.zlen_deref by done.
  unfold is_varint. lia.
Qed.

Lemma enc_ack_eq prefix rs first it :
  rev (RangeSet.iter rs) = first :: it →
  enc_ack prefix rs = enc_varint (first.2 - 1) ++ prefix ++ enc_varint (zlen it) ++
    enc_varint (first.2 - 1 - first.1) ++ enc_blocks first.1 it.
Proof. intros E. unfold enc_ack. by rewrite E. Qed.

Lemma put_ack_writes rs {A} (k : range → list range → Z → Z → M octets Error A) bs :
  ack_ok rs →
  (∀ first it, blocks_of rs first it → writes (k first it (first.2 - 1 - first.1) (first.2 - 1)) bs) →
  writes ('(first, it) ← lift (first_block rs);
          ack_block ← lift (block_len first);
          largest ← lift (usub first.2 1);
          k first it ack_block largest) bs.
Proof.
  intros Hok Hk. destruct (ack_ok_blocks rs Hok) as (first & it & Hb).
  intros pre old rest Hold. destruct (bo_first _ _ _ Hb) as [Hf _].
  rewrite (run_bind_lift _ _ _ (first, it)) by (unfold first_block; by rewrite (bo_rev _ _ _ Hb)).
  rewrite (run_bind_lift _ _ _ _ (block_len_ok first ltac:(lia))).
  rewrite (run_bind_lift _ _ _ (first.2 - 1)) by (apply usub_ok; lia).
  by apply Hk.
Qed.

Ltac first_range Hb :=
  let H := fresh in pose proof (bo_first _ _ _ Hb) as H;
  change (2 ^ 62) with 4611686018427387904 in H; unfold is_varint; lia.

Lemma put_frame_writes f : frame_ok f → writes (put_frame f) (enc_frame f).
Proof.
  intros Hok. unfold enc_frame. destruct f; simpl in Hok; try done; cbn [put_frame frame_type enc_payload];
    unfold enc_bytes, enc_len2;
    try (destruct_and?; solve [solve_writes]).
  - destruct Hok as (Hd & Hack & Hecn).
    replace ([match ecn_counts with Some _ => 3 | None => 2 end] : list Z)
      with [match ecn_counts with None => 2 | Some _ => 3 end] by done.
    apply writes_bind; [apply put_type_writes; destruct ecn_counts; lia|]. intros _.
    apply (put_ack_writes ranges (λ first it ack_block largest,
      put largest;; put ack_delay;; put (zlen it);; put ack_block;;
      put_blocks first.1 it;; put_ecn ecn_counts)); [done|].
    intros first it Hb. rewrite (enc_ack_eq _ _ first it) by apply Hb. rewrite <- !app_assoc.
    apply writes_bind; [apply put_writes; first_range Hb|]. intros _.
    apply writes_bind; [by apply put_writes|]. intros _.
    apply writes_bind; [apply put_writes, Hb|]. intros _.
    apply writes_bind; [apply put_writes; first_range Hb|]. intros _.
    apply writes_bind; [|intros _; by apply put_ecn_writes].
    apply put_blocks_writes; [|apply Hb]. first_range Hb.
  - destruct Hok as [Hd _]. destruct (data_ok_ranges _ Hd) as (? & ? & Hl). rewrite Hl.
    rewrite (app_assoc (enc_varint _)), (app_assoc [6]).
    apply writes_bind; [by apply encode_crypto_header_writes|]. intros _. apply put_bytes_writes.
  - destruct Hok as [Hi Hd]. destruct (data_ok_ranges _ Hd) as (? & ? & Hl). rewrite Hl.
    rewrite !app_assoc, <- (app_assoc [_]), <- (app_assoc [_]), <- (app_assoc (enc_varint _)).
    apply writes_bind; [by apply encode_stream_header_writes|]. intros _. apply put_bytes_writes.
  - destruct Hok as (Ha & Hb & Hc & Ht). unfold MAX_CID_LEN in Hc.
    apply writes_bind; [writes_leaf|]. intros _.
    apply writes_bind; [writes_leaf|]. intros _.
    apply writes_bind; [writes_leaf|]. intros _.
    apply (put_cid_writes conn_id _ reset_token); [lia|]. apply put_bytes_writes.
  - pose proof (zlen_nonneg data). rewrite (app_assoc [49]).
    apply writes_bind; [apply encode_dgram_header_writes; lia|]. intros _. apply put_bytes_writes.
  - apply writes_bind; [writes_leaf|]. intros _.
    apply (put_ack_writes ranges (λ first it ack_block largest,
      put largest;; put (zlen it);; put ack_block;; put_blocks first.1 it)); [done|].
    intros first it Hb. rewrite (enc_ack_eq _ _ first it) by apply Hb. rewrite app_nil_l.
    apply writes_bind; [apply put_writes; first_range Hb|]. intros _.
    apply writes_bind; [apply put_writes, Hb|]. intros _.
    apply writes_bind; [apply put_writes; first_range Hb|]. intros _.
    apply put_blocks_writes; [|apply Hb]. first_range Hb.
Qed.

(** *** Sizes *)

Lemma varints_len_enc l : Forall is_varint l → varints_len l = Ok (zlen (enc_fields l)).
Proof.
  induction 1 as [|v l Hv Hl IH]; [done|]. cbn [varints_len].
  rewrite varint_len_size by done. cbn. rewrite IH. cbn. unfold enc_fields. rewrite zlen_app, zlen_enc_varint. done.
Qed.

Lemma fields_len_enc l n : Forall is_varint l → fields_len l n = Ok (1 + zlen (enc_fields l) + n).
Proof. intros. unfold fields_len. rewrite varints_len_enc by done. done. Qed.

Lemma blocks_len_enc it : ∀ smallest,
  smallest <= 2 ^ 62 → descends smallest it →
  blocks_len smallest it = Ok (zlen (enc_blocks smallest it)).
Proof.
  induction it as [|b it IH]; intros s Hs Hd; [done|].
  destruct Hd as (Hb & Hbs & Hd). change (2 ^ 62) with 4611686018427387904 in *. cbn [blocks_len enc_blocks].
  rewrite block_gap_ok by done. cbn. rewrite block_len_ok by lia. cbn.
  rewrite !varint_len_size by (unfold is_varint; lia). cbn. rewrite IH by (done || lia). cbn.
  rewrite !zlen_app, !zlen_enc_varint. f_equal. lia.
Qed.

Ltac varints :=
  repeat (apply Forall_cons_2; [first [done | unfold is_varint in *; lia]|]); apply Forall_nil_2.

(** The common part of the sizes of the two kinds of ACK. *)
Ltac ack_sizes Hb :=
  let Hf := fresh in let Hm := fresh in let Hc := fresh in
  destruct (bo_first _ _ _ Hb) as [Hf Hm]; change (2 ^ 62) with 4611686018427387904 in Hm;
  pose proof (bo_count _ _ _ Hb) as Hc;
  unfold first_block; rewrite (bo_rev _ _ _ Hb); cbn [mbind result_bind];
  rewrite block_len_ok by lia; cbn [mbind result_bind]; rewrite usub_ok by lia; cbn [mbind result_bind];
  rewrite varints_len_enc by varints; cbn [mbind result_bind];
  rewrite blocks_len_enc by (first [apply Hb | change (2 ^ 62) with 4611686018427387904; lia]);
  cbn [mbind result_bind]; rewrite !zlen_app.

(** Sizes of a concrete list of fields. *)
Ltac sizes :=
  rewrite ?fields_len_enc by varints;
  unfold enc_fields; cbn [mbind list_bind];
  rewrite ?zlen_app, ?(zlen_enc_varint_len 2) by lia; rewrite ?zlen_cons, ?zlen_nil;
  f_equal; lia.

Lemma wire_len_enc f : frame_ok f → wire_len f = Ok (zlen (enc_frame f)).
Proof.
  intros Hok. unfold enc_frame. rewrite zlen_app. change (zlen [frame_type f]) with 1.
  destruct f; simpl in Hok; try done; cbn [wire_len enc_payload]; unfold enc_bytes, enc_len2;
    try (destruct_and?; solve [sizes]).
  - destruct Hok as (Hd & Hack & Hecn). destruct (ack_ok_blocks _ Hack) as (first & it & Hb).
    rewrite (enc_ack_eq _ _ first it) by apply Hb. ack_sizes Hb.
    destruct ecn_counts as [e|]; cbn [enc_ecn].
    + destruct Hecn as (? & ? & ?). rewrite varints_len_enc by varints.
      cbn [mbind result_bind]. unfold enc_fields. cbn [mbind list_bind]. rewrite !zlen_app, zlen_nil. f_equal. lia.
    + cbn [mbind result_bind]. unfold enc_fields. cbn [mbind list_bind]. rewrite !zlen_app, zlen_nil. f_equal. lia.
  - destruct Hok as [Hd _]. destruct (data_ok_ranges _ Hd) as (? & ? & Hl). rewrite Hl in *. sizes.
  - destruct Hok as [Hi Hd]. destruct (data_ok_ranges _ Hd) as (? & ? & Hl). rewrite Hl in *. sizes.
  - destruct (ack_ok_blocks _ Hok) as (first & it & Hb).
    rewrite (enc_ack_eq _ _ first it) by apply Hb. ack_sizes Hb.
    unfold enc_fields. cbn [mbind list_bind]. rewrite !zlen_app, zlen_nil. f_equal. lia.
Qed.

(** *** Parsers *)

Lemma get_varint_p v : is_varint v → parses get_varint (enc_varint v) v.
Proof. apply get_varint_parses. Qed.

Lemma get_len2_p n : 0 <= n < 16384 → parses get_varint (enc_varint_len 2 n) n.
Proof. intros. apply get_varint_len_parses. right; left. lia. Qed.

Lemma rs_wf_default : rs_wf RangeSet.default.
Proof.
  split; [apply ranges_wf_nil|]. split; [vm_compute; discriminate|].
  split; [vm_compute; discriminate|]. reflexivity.
Qed.

(** Inserting a block below all others puts it in front. *)
Lemma insert_block_front b rs :
  rs_wf rs → 0 <= b.1 < b.2 → b.2 <= 2 ^ 62 →
  match RangeSet.iter rs with [] => True | r :: _ => b.2 < r.1 end →
  zlen (RangeSet.iter rs) < RangeSet.capacity rs →
  ∃ rs', insert_block b.1 (b.2 - 1) rs = Ok rs' ∧ rs_wf rs' ∧
    RangeSet.capacity rs' = RangeSet.capacity rs ∧ RangeSet.iter rs' = b :: RangeSet.iter rs.
Proof.
  intros Hwf Hb Hmax Hfront Hcap. change (2 ^ 62) with 4611686018427387904 in Hmax.
  destruct (rangeset_insert_run (E:=Error) b.1 b.2 rs Hwf ltac:(lia)) as (rs' & Hins & Hwf' & Hc & Hit).
  exists rs'. unfold insert_block. rewrite uadd_ok by lia. cbn [mbind result_bind].
  replace (b.2 - 1 + 1) with b.2 by lia. rewrite Hins. split; [done|]. split; [done|]. split; [done|].
  rewrite Hit. destruct b as [x y]. simpl in *.
  assert (range_insert x y (RangeSet.iter rs) = (x, y) :: RangeSet.iter rs) as E.
  { destruct Hwf as (Hw & _). destruct (RangeSet.iter rs) as [|[a c] l]; [done|]. simpl in Hfront.
    apply ranges_wf_cons in Hw as (Hac & _). simpl.
    rewrite (proj2 (Z.ltb_ge c x)), (proj2 (Z.ltb_lt y a)) by lia. done. }
  rewrite bounded_insert_fits; [done|]. rewrite E, zlen_cons. lia.
Qed.

Lemma parse_blocks_p it : ∀ smallest e l rs,
  rs_wf rs → RangeSet.iter rs = (smallest, e) :: l → smallest <= 2 ^ 62 →
  zlen it + zlen (RangeSet.iter rs) <= RangeSet.capacity rs → descends smallest it →
  ∃ rs', RangeSet.iter rs' = rev it ++ RangeSet.iter rs ∧
    ∀ fuel, (length it <= fuel)%nat →
      parses (parse_blocks fuel (zlen it) smallest rs) (enc_blocks smallest it) rs'.
Proof.
  induction it as [|b it IH]; intros s e l rs Hwf Hit Hs Hcap Hd.
  { exists rs. split; [done|]. intros fuel _. destruct fuel; apply parses_ret. }
  destruct Hd as (Hb & Hbs & Hd). rewrite zlen_cons in Hcap. pose proof (zlen_nonneg it).
  change (2 ^ 62) with 4611686018427387904 in Hs.
  destruct (insert_block_front b rs Hwf Hb) as (rs1 & Hins & Hwf1 & Hc1 & Hit1);
    [change (2 ^ 62) with 4611686018427387904; lia|by rewrite Hit|lia|].
  destruct (IH b.1 b.2 (RangeSet.iter rs) rs1) as (rs' & Hit' & Hp);
    [done|by rewrite Hit1; destruct b|change (2 ^ 62) with 4611686018427387904; lia
    |rewrite Hit1, zlen_cons; lia|done|].
  exists rs'. split; [by rewrite Hit', Hit1; simpl; rewrite <- app_assoc|].
  intros fuel Hfuel. destruct fuel as [|fuel]; [simpl in Hfuel; lia|]. simpl in Hfuel.
  cbn [parse_blocks enc_blocks]. rewrite zlen_cons, (proj2 (Z.leb_gt _ _)) by lia.
  eapply parses_bind; [apply get_varint_p; unfold is_varint; lia|].
  eapply parses_lift; [apply uadd_ok; lia|].
  rewrite (proj2 (Z.ltb_ge _ _)) by lia.
  eapply parses_lift; [apply usub_ok; lia|]. eapply parses_lift; [apply usub_ok; lia|].
  eapply parses_bind; [apply get_varint_p; unfold is_varint; lia|].
  rewrite (proj2 (Z.ltb_ge _ _)) by lia. eapply parses_lift; [apply usub_ok; lia|].
  replace (s - (s - b.2 - 1) - 2 - (b.2 - 1 - b.1)) with b.1 by lia.
  replace (s - (s - b.2 - 1) - 2) with (b.2 - 1) by lia.
  eapply parses_lift; [exact Hins|]. replace (1 + zlen it - 1) with (zlen it) by lia.
  apply Hp. lia.
Qed.

Lemma zlen_enc_blocks it : ∀ smallest, 2 * zlen it <= zlen (enc_blocks smallest it).
Proof.
  induction it as [|b it IH]; intros s; [done|]. cbn [enc_blocks].
  rewrite zlen_cons, !zlen_app, !zlen_enc_varint. specialize (IH b.1).
  pose proof (varint_size_bounds (s - b.2 - 1)). pose proof (varint_size_bounds (b.2 - 1 - b.1)). lia.
Qed.

Lemma parse_all_blocks_p rs first it :
  blocks_of rs first it →
  ∃ rs1 rs', insert_block first.1 (first.2 - 1) RangeSet.default = Ok rs1 ∧
    parses (parse_all_blocks (zlen it) first.1 rs1) (enc_blocks first.1 it) rs' ∧
    RangeSet.iter rs' = RangeSet.iter rs.
Proof.
  intros [Hrev [Hf Hmax] Hd Hcount].
  destruct (insert_block_front first RangeSet.default rs_wf_default Hf Hmax) as (rs1 & Hins & Hwf1 & Hc1 & Hit1);
    [done|vm_compute; reflexivity|].
  change (RangeSet.iter RangeSet.default) with (@nil range) in Hit1.
  destruct (parse_blocks_p it first.1 first.2 [] rs1) as (rs' & Hit' & Hp);
    [done|by rewrite Hit1; destruct first|lia| |done|].
  { rewrite Hc1, Hit1. unfold is_varint in Hcount. change (zlen [first]) with 1.
    change (RangeSet.capacity RangeSet.default) with u64_max. lia. }
  exists rs1, rs'. split; [done|]. split.
  - intros pre rest. unfold parse_all_blocks.
    rewrite (run_bind_ok _ _ _ _ _ (cap_run (E:=Error) pre (enc_blocks first.1 it) rest)).
    pose proof (zlen_enc_blocks it first.1). pose proof (zlen_nonneg rest).
    apply Hp. unfold zlen in *. lia.
  - rewrite Hit', Hit1. change ([first]) with (rev [first]). rewrite <- rev_app_distr.
    rewrite <- (rev_involutive (RangeSet.iter rs)), Hrev. done.
Qed.

(** An ACK's blocks, between its fixed fields. *)
Lemma parse_ecn_p e (first : Z) :
  ecn_ok e → Z.land first 0x01 = (match e with None => 0 | Some _ => 1 end) →
  parses (if negb (Z.land first 0x01 =? 0) then
            ect0 ← get_varint; ect1 ← get_varint; ce ← get_varint;
            mret (Some (mk_ecn ect0 ect1 ce))
          else mret None) (enc_ecn e) e.
Proof.
  intros He Hf. rewrite Hf. destruct e as [[a b c]|]; [|apply parses_ret].
  destruct He as (? & ? & ?). simpl in *. change (negb (1 =? 0)) with true. cbv iota.
  eapply parses_bind; [by apply get_varint_p|]. eapply parses_bind; [by apply get_varint_p|].
  by eapply parses_bind_ret; [by apply get_varint_p|].
Qed.

Lemma parse_ack_p d rs e :
  is_varint d → ack_ok rs → ecn_ok e →
  ∃ rs', parses (parse_ack_frame (frame_type (ACK d rs e)))
           (enc_ack (enc_varint d) rs ++ enc_ecn e) (ACK d rs' e) ∧
         RangeSet.iter rs' = RangeSet.iter rs.
Proof.
  intros Hd Hack He. destruct (ack_ok_blocks _ Hack) as (first & it & Hb).
  destruct (parse_all_blocks_p rs first it Hb) as (rs1 & rs' & Hins & Hp & Hit).
  exists rs'. split; [|done]. rewrite (enc_ack_eq _ _ first it) by apply Hb. rewrite <- !app_assoc.
  destruct (bo_first _ _ _ Hb) as [Hf Hm]. unfold parse_ack_frame.
  eapply parses_bind; [apply get_varint_p; first_range Hb|].
  eapply parses_bind; [by apply get_varint_p|].
  eapply parses_bind; [apply get_varint_p, Hb|].
  eapply parses_bind; [apply get_varint_p; first_range Hb|].
  rewrite (proj2 (Z.ltb_ge _ _)) by lia. eapply parses_lift; [apply usub_ok; lia|].
  replace (first.2 - 1 - (first.2 - 1 - first.1)) with first.1 by lia.
  eapply parses_lift; [exact Hins|]. eapply parses_bind; [exact Hp|].
  eapply parses_bind_ret; [|done]. apply parse_ecn_p; [done|]. by destruct e.
Qed.

Lemma parse_ssack_p rs :
  ack_ok rs →
  ∃ rs', parses parse_source_symbol_ack_frame (enc_ack [] rs) (SourceSymbolACK rs') ∧
         RangeSet.iter rs' = RangeSet.iter rs.
Proof.
  intros Hack. destruct (ack_ok_blocks _ Hack) as (first & it & Hb).
  destruct (parse_all_blocks_p rs first it Hb) as (rs1 & rs' & Hins & Hp & Hit).
  exists rs'. split; [|done]. rewrite (enc_ack_eq _ _ first it) by apply Hb. rewrite app_nil_l.
  destruct (bo_first _ _ _ Hb) as [Hf Hm]. unfold parse_source_symbol_ack_frame.
  eapply parses_bind; [apply get_varint_p; first_range Hb|].
  eapply parses_bind; [apply get_varint_p, Hb|].
  eapply parses_bind; [apply get_varint_p; first_range Hb|].
  rewrite (proj2 (Z.ltb_ge _ _)) by lia. eapply parses_lift; [apply usub_ok; lia|].
  replace (first.2 - 1 - (first.2 - 1 - first.1)) with first.1 by lia.
  eapply parses_lift; [exact Hins|]. by eapply parses_bind_ret; [exact Hp|].
Qed.

(** The leaves of a parser, and its sequencing. *)
Ltac parses_leaf :=
  first [ apply get_varint_p; first [done | unfold is_varint in *; lia]
        | apply get_len2_p; lia
        | apply get_bytes_with_varint_length_parses; first [done | unfold is_varint in *; lia]
        | apply get_bytes_parses; first [done | lia] ].
Ltac solve_parses :=
  repeat first [ eapply parses_bind_ret; [solve [parses_leaf]|reflexivity]
               | eapply parses_bind; [solve [parses_leaf]|] ].

Lemma same_data_from d : RangeBuf.wf d → same_data d (RangeBuf.from (RangeBuf.deref d) (RangeBuf.off d) (RangeBuf.fin d)).
Proof.
  intros Hwf. unfold same_data. rewrite RangeBuf.off_from, RangeBuf.deref_from. done.
Qed.

Lemma parse_stream_p id d :
  is_varint id → data_ok d →
  parses (parse_stream_frame (if RangeBuf.fin d then 0x0f else 0x0e))
    (enc_varint id ++ enc_varint (RangeBuf.off d) ++ enc_len2 (RangeBuf.deref d))
    (Stream id (RangeBuf.from (RangeBuf.deref d) (RangeBuf.off d) (RangeBuf.fin d))).
Proof.
  intros Hi Hd. destruct (data_ok_ranges d Hd) as (Ho & Hl & Hz). destruct Hd as (Hwf & _ & Hm).
  unfold enc_len2. rewrite Hz. unfold parse_stream_frame.
  unfold RangeBuf.max_off in Hm. change (2 ^ 62) with 4611686018427387904 in Hm.
  destruct (RangeBuf.fin d).
  all: match goal with |- context [as_u8 ?n] => change (as_u8 n) with n end.
  1: change (negb (Z.land 15 4 =? 0)) with true; change (negb (Z.land 15 2 =? 0)) with true;
     change (negb (Z.land 15 1 =? 0)) with true.
  2: change (negb (Z.land 14 4 =? 0)) with true; change (negb (Z.land 14 2 =? 0)) with true;
     change (negb (Z.land 14 1 =? 0)) with false.
  all: cbv iota; eapply parses_bind; [by apply get_varint_p|];
    eapply parses_bind; [by apply get_varint_p|]; eapply parses_bind; [by apply get_len2_p|];
    eapply parses_lift; [apply uadd_ok; lia|];
    rewrite (proj2 (Z.leb_gt _ _)) by (unfold MAX_STREAM_SIZE; change (2 ^ 62) with 4611686018427387904; lia);
    eapply parses_bind_ret; [apply get_bytes_parses; lia|reflexivity].
Qed.

Lemma parse_fields_p dec f :
  frame_ok f →
  ∃ f', parses (parse_fields (frame_type f) dec) (enc_payload f) f' ∧ same_frame f f' ∧
        ∀ pkt, allowed pkt f' = allowed pkt f.
Proof.
  intros Hok. destruct f; simpl in Hok; try done; cbn [frame_type enc_payload]; unfold enc_bytes.
  all: try (destruct_and?; eexists; split; [solve [solve_parses]|split; [by first [done|f_equal]|by intros []]]).
  - exists (Ping None). split; [apply parses_ret|done].
  - destruct Hok as (Hd & Hack & Hecn). destruct (parse_ack_p ack_delay ranges ecn_counts) as (rs' & Hp & Hit); [done..|].
    exists (ACK ack_delay rs' ecn_counts). split; [by destruct ecn_counts|]. by split; [|intros []].
  - destruct Hok as [Hd Hfin]. destruct (data_ok_ranges _ Hd) as (Ho & Hl & Hz). eexists. split.
    + unfold enc_len2. rewrite Hz. eapply parses_bind; [parses_leaf|].
      eapply parses_bind_ret; [|reflexivity]. unfold Octets.get_bytes_with_varint_length.
      eapply parses_bind; [by apply get_len2_p|]. apply get_bytes_parses. lia.
    + split; [|by intros []]. simpl. rewrite <- Hfin. apply same_data_from, Hd.
  - destruct Hok as [Hne Hl]. exists (NewToken token). split; [|by split; [|intros []]].
    assert (zlen token ≠ 0) as Hz by (by rewrite zlen_0).
    eapply parses_bind; [parses_leaf|]. rewrite (proj2 (Z.eqb_neq _ _)) by done.
    by eapply parses_bind_ret; [by apply get_bytes_parses|].
  - destruct Hok as [Hi Hd]. exists (Stream stream_id
      (RangeBuf.from (RangeBuf.deref data) (RangeBuf.off data) (RangeBuf.fin data))).
    split; [|split; [|by intros []]].
    + pose proof (parse_stream_p stream_id data Hi Hd) as Hp. by destruct (RangeBuf.fin data).
    + simpl. split; [done|]. apply same_data_from, Hd.
  - destruct Hok as (Ha & Hb & Hc & Ht). eexists. split; [|split; [reflexivity|by intros []]].
    unfold MAX_CID_LEN in Hc.
    eapply parses_bind; [parses_leaf|]. eapply parses_bind; [parses_leaf|].
    eapply parses_bind; [apply get_u8_parses|].
    unfold MAX_CID_LEN. rewrite !(proj2 (Z.leb_le _ _)) by lia. cbn [andb negb].
    eapply parses_bind; [by apply get_bytes_parses|].
    by eapply parses_bind_ret; [by apply get_bytes_parses|].
  - exists HandshakeDone. split; [apply parses_ret|]. by split; [|intros []].
  - pose proof (zlen_nonneg data). exists (Datagram data). split; [|by split; [|intros []]].
    unfold enc_len2. eapply parses_bind; [apply get_len2_p; lia|].
    by eapply parses_bind_ret; [by apply get_bytes_parses|].
  - destruct (parse_ssack_p ranges Hok) as (rs' & Hp & Hit).
    exists (SourceSymbolACK rs'). split; [done|]. by split; [|intros []].
Qed.

(** The result of [to_bytes] is the size written. *)
Lemma writes_to_bytes f bs : writes (put_frame f) bs → ∀ pre old rest, zlen old = zlen bs →
  to_bytes f (mk_octets (pre ++ old ++ rest) (zlen pre)) = (Ok (zlen bs), mk_octets (pre ++ bs ++ rest) (zlen pre + zlen bs)).
Proof.
  intros Hw pre old rest Hold. unfold to_bytes.
  pose proof (zlen_nonneg rest). pose proof (zlen_nonneg bs).
  rewrite (run_bind_ok _ _ _ _ _ (cap_run (E:=Error) pre old rest)).
  destruct (Hw pre old rest Hold) as [a Ha]. rewrite (run_bind_ok _ _ _ _ _ Ha).
  rewrite (run_bind_reads _ _ _ (zlen rest)).
  - unfold lift. rewrite usub_ok by lia. do 2 f_equal. lia.
  - unfold OctetsMut.cap. cbn [o_buf o_off]. rewrite usub_ok; rewrite !zlen_app; [f_equal|]; lia.
Qed.

Lemma frame_type_small f : frame_ok f → 0 <= frame_type f < 64.
Proof.
  destruct f; simpl; try done; intros; repeat case_match; lia.
Qed.

Lemma from_bytes_p dec pkt f :
  frame_ok f → allowed pkt f = true →
  ∃ f', parses (from_bytes pkt dec) (enc_frame f) f' ∧ same_frame f f'.
Proof.
  intros Hok Hal. destruct (parse_fields_p dec f Hok) as (f' & Hp & Hs & Ha).
  exists f'. split; [|done]. unfold enc_frame, from_bytes.
  rewrite <- (enc_varint_small _ (frame_type_small f Hok)).
  pose proof (frame_type_small f Hok).
  eapply parses_bind; [apply get_varint_p; unfold is_varint; lia|].
  eapply parses_bind_ret; [exact Hp|]. by rewrite Ha, Hal.
Qed.

(** *** Padding and network coding *)

(** How many zero bytes [rest] starts with. *)
Fixpoint zeros (rest : list Z) : Z := match rest with [] => 0 | x :: rest => if x =? 0 then 1 + zeros rest else 0 end.

(** What the writer needs of a frame, and the reader of the bytes [rest] after
    it: for a frame of the coding library, that the library reads its own bytes
    and that what it protects fits a symbol.  The three header frames are not
    written by [to_bytes]. *)
Definition frame_sendable (dec : nc_decoder) f (rest : list Z) : Prop :=
  match f with
  | Padding len => 1 <= len
  | Repair s => repair_symbol_wire_len s = zlen (repair_symbol_get s) ∧
      read_repair_symbol dec (repair_symbol_get s ++ rest) = inr (zlen (repair_symbol_get s), s)
  | SourceSymbolHeader md _ => read_source_symbol_metadata dec (md ++ rest) = inr (zlen md, md) ∧ zlen rest <= symbol_size dec
  | SourceSymbol s =>
      let md := source_symbol_metadata s in let data := source_symbol_get s ++ rest in
      read_source_symbol_metadata dec (md ++ data) = inr (zlen md, md) ∧ zlen data <= symbol_size dec
  | CryptoHeader _ _ | StreamHeader _ _ _ _ | DatagramHeader _ => False
  | _ => frame_ok f
  end.

(** The bytes of every frame. *)
Definition wire_bytes f : list Z :=
  match f with
  | Padding len => replicate (Z.to_nat len) 0
  | Repair s => [0x32] ++ repair_symbol_get s
  | SourceSymbolHeader md _ => [0x33] ++ md
  | SourceSymbol s => [0x33] ++ source_symbol_metadata s ++ source_symbol_get s
  | _ => enc_frame f
  end.

(** The source symbol of the protected bytes [data]: zeros fill it in front. *)
Definition padded (dec : nc_decoder) (md data : list Z) : t :=
  SourceSymbol (source_symbol_new md (replicate (Z.to_nat (symbol_size dec - zlen data)) 0 ++ data)).

(** What the receiver makes of the frame when [rest] follows, and how far it
    reads: padding runs on over further zeros, and the frames that a source
    symbol protects are read again as frames. *)
Definition frame_received (dec : nc_decoder) f (rest : list Z) f' : Prop :=
  match f with
  | Padding len => f' = Padding (len + zeros rest)
  | SourceSymbolHeader md _ => f' = padded dec md rest
  | SourceSymbol s => f' = padded dec (source_symbol_metadata s) (source_symbol_get s ++ rest)
  | _ => same_frame f f'
  end.
Definition frame_consumed f (rest : list Z) : Z :=
  match f with
  | Padding len => len + zeros rest
  | SourceSymbol s => 1 + zlen (source_symbol_metadata s)
  | _ => zlen (wire_bytes f)
  end.

Lemma put_padding_writes n : writes (put_padding n) (replicate n 0).
Proof.
  induction n as [|n IH]; [apply writes_ret|]. cbn [put_padding replicate]. change (0 :: replicate n 0) with ([0] ++ replicate n 0).
  apply writes_bind; [apply put_type_writes; lia|done].
Qed.

Lemma put_sendable_writes dec f rest : frame_sendable dec f rest → writes (put_frame f) (wire_bytes f).
Proof.
  intros Hok. destruct f; cbn [frame_sendable] in Hok; try done; cbn [wire_bytes]; try (by apply put_frame_writes); cbn [put_frame]; [apply put_padding_writes|solve_writes..].
Qed.

Lemma wire_len_sendable dec f rest : frame_sendable dec f rest → wire_len f = Ok (zlen (wire_bytes f)).
Proof.
  intros Hok. destruct f; cbn [frame_sendable] in Hok; try done; cbn [wire_bytes]; try (by apply wire_len_enc); cbn [wire_len].
  - f_equal. unfold zlen. rewrite length_replicate. lia.
  - destruct Hok as [-> _]. by rewrite zlen_app.
  - by rewrite zlen_app.
  - rewrite !zlen_app. f_equal. change (zlen [51]) with 1. lia.
Qed.

(** The bytes read back. *)
Lemma peek_zero pre rest : peek_is_zero (mk_octets (pre ++ rest) (zlen pre)) =
  (Ok (match rest with x :: _ => x =? 0 | [] => false end), mk_octets (pre ++ rest) (zlen pre)).
Proof.
  unfold peek_is_zero, reads, Octets.peek_u8, peek_u. cbn [o_buf o_off]. rewrite zdrop_app, zlen_app. pose proof (zlen_nonneg rest). zdecide.
  destruct rest as [|x rest]; [done|]. rewrite zlen_cons. pose proof (zlen_nonneg rest). zdecide. done.
Qed.

Lemma zeros_bounds rest : 0 <= zeros rest <= zlen rest.
Proof. induction rest as [|x rest IH]; [done|]. cbn [zeros]. rewrite zlen_cons. destruct (x =? 0); lia. Qed.
Lemma zeros_replicate n rest : zeros (replicate n 0 ++ rest) = Z.of_nat n + zeros rest.
Proof. induction n as [|n IH]; [done|]. cbn [replicate app zeros]. change (0 =? 0) with true. cbv iota. rewrite IH. lia. Qed.

Lemma skip_padding_run rest : ∀ fuel len pre, zeros rest <= Z.of_nat fuel →
  skip_padding fuel len (mk_octets (pre ++ rest) (zlen pre)) = (Ok (len + zeros rest), mk_octets (pre ++ rest) (zlen pre + zeros rest)).
Proof.
  induction rest as [|x rest IH]; intros fuel len pre Hf.
  { destruct fuel; cbn [skip_padding zeros]; rewrite (run_bind_ok _ _ _ _ _ (peek_zero pre [])); cbv iota; by rewrite run_ret, !Z.add_0_r. }
  cbn [zeros] in *. pose proof (zeros_bounds rest).
  destruct (Z.eqb_spec x 0) as [-> |Hx]; (destruct fuel as [|fuel]; [try lia|]); cbn [skip_padding]; rewrite (run_bind_ok _ _ _ _ _ (peek_zero pre (_ :: rest))).
  - change (0 =? 0) with true. cbv iota. pose proof (get_u8_parses (E:=Error) 0 pre rest) as Hg. cbn [app] in Hg. rewrite (run_bind_ok _ _ _ _ _ Hg).
    change (zlen pre + zlen [0]) with (zlen pre + 1). specialize (IH fuel (len + 1) (pre ++ [0]) ltac:(lia)).
    rewrite <- (assoc_L (++)), zlen_app in IH. cbn [app] in IH. change (zlen [0]) with 1 in IH. rewrite IH. f_equal; f_equal; lia.
  - rewrite (proj2 (Z.eqb_neq _ _) Hx). by rewrite run_ret, !Z.add_0_r.
  - rewrite (proj2 (Z.eqb_neq _ _) Hx). by rewrite run_ret, !Z.add_0_r.
Qed.

Lemma parse_source_symbol_run dec pre md data : read_source_symbol_metadata dec (md ++ data) = inr (zlen md, md) → zlen data <= symbol_size dec →
  parse_source_symbol dec (mk_octets (pre ++ md ++ data) (zlen pre)) = (Ok (padded dec md data), mk_octets (pre ++ md ++ data) (zlen pre + zlen md)).
Proof.
  intros Hmd Hsize. pose proof (zlen_nonneg data). unfold parse_source_symbol. rewrite run_bind_gets.
  replace (Octets.as_ref (mk_octets (pre ++ md ++ data) (zlen pre))) with (md ++ data) by (symmetry; apply zdrop_app).
  rewrite Hmd, run_bind_lift with (a := (zlen md, md)) by done.
  rewrite (run_bind_ok _ _ _ () (mk_octets (pre ++ md ++ data) (zlen pre + zlen md))).
  - rewrite run_bind_gets. unfold Octets.as_ref. cbn [o_buf o_off]. rewrite app_assoc, (zdrop_app' _ (pre ++ md) data) by (by rewrite zlen_app).
    rewrite run_bind_lift with (a := symbol_size dec - zlen data) by (by apply usub_ok). done.
  - unfold Octets.skip. rewrite (run_bind_ok _ _ _ _ _ (cap_run (E:=Error) pre md data)). by rewrite (proj2 (Z.ltb_ge _ _)) by lia.
Qed.

Lemma parse_repair_run dec pre s rest : read_repair_symbol dec (repair_symbol_get s ++ rest) = inr (zlen (repair_symbol_get s), s) →
  let bytes := pre ++ repair_symbol_get s ++ rest in
  parse_repair dec (mk_octets bytes (zlen pre)) = (Ok (Repair s), mk_octets bytes (zlen pre + zlen (repair_symbol_get s))).
Proof.
  intros Hs bytes. pose proof (zlen_nonneg rest). unfold parse_repair. rewrite run_bind_gets.
  replace (Octets.to_vec (mk_octets bytes (zlen pre))) with (repair_symbol_get s ++ rest) by (symmetry; apply zdrop_app).
  rewrite Hs, run_bind_lift with (a := (zlen (repair_symbol_get s), s)) by done.
  rewrite (run_bind_ok _ _ _ () (mk_octets bytes (zlen pre + zlen (repair_symbol_get s)))); [done|].
  unfold Octets.skip, bytes. rewrite (run_bind_ok _ _ _ _ _ (cap_run (E:=Error) pre _ rest)). by rewrite (proj2 (Z.ltb_ge _ _)) by lia.
Qed.

(** The type, then the fields. *)
Lemma from_bytes_of dec pkt ty pre bs f o : 0 <= ty < 64 → allowed pkt f = true →
  parse_fields ty dec (mk_octets ((pre ++ [ty]) ++ bs) (zlen (pre ++ [ty]))) = (Ok f, o) →
  from_bytes pkt dec (mk_octets (pre ++ [ty] ++ bs) (zlen pre)) = (Ok f, o).
Proof.
  intros Hty Ha Hp. unfold from_bytes. pose proof (get_varint_p ty ltac:(unfold is_varint; lia) pre bs) as Hg. rewrite enc_varint_small in Hg by done.
  rewrite (run_bind_ok _ _ _ _ _ Hg), (assoc_L (++)). replace (zlen pre + zlen [ty]) with (zlen (pre ++ [ty])) by apply zlen_app.
  rewrite (run_bind_ok _ _ _ _ _ Hp), Ha. done.
Qed.

Lemma padding_received dec pkt len pre rest : 1 <= len →
  let bytes := pre ++ wire_bytes (Padding len) ++ rest in
  from_bytes pkt dec (mk_octets bytes (zlen pre)) = (Ok (Padding (len + zeros rest)), mk_octets bytes (zlen pre + (len + zeros rest))).
Proof.
  intros Hlen bytes. subst bytes. cbn [wire_bytes]. destruct (Z.to_nat len) as [|n] eqn:En; [lia|].
  change (replicate (S n) 0 ++ rest) with ([0] ++ (replicate n 0 ++ rest)). set (l := replicate n 0 ++ rest).
  assert (zeros l = len - 1 + zeros rest) as Hz by (unfold l; rewrite zeros_replicate; lia).
  apply from_bytes_of; [lia|by destruct pkt|]. change (parse_fields 0 dec) with (c ← reads Octets.cap; n ← skip_padding (Z.to_nat c) 1; mret (Padding n)).
  pose proof (cap_run (E:=Error) (pre ++ [0]) l []) as Hc. rewrite app_nil_r in Hc. rewrite (run_bind_ok _ _ _ _ _ Hc).
  rewrite (run_bind_ok _ _ _ (1 + zeros l) (mk_octets ((pre ++ [0]) ++ l) (zlen (pre ++ [0]) + zeros l))).
  - rewrite run_ret, <- (assoc_L (++)), zlen_app, Hz. change (zlen [0]) with 1. f_equal; f_equal; [f_equal|]; lia.
  - apply skip_padding_run. pose proof (zeros_bounds l). rewrite Z.add_0_r. lia.
Qed.

(** C16. Frames round-trip.  [to_bytes] writes every frame within the limits of
    the format (all but the three header frames, for which it writes nothing),
    wherever the cursor stands, as [wire_bytes]; the number returned is their
    number and is what [wire_len] announced.  [from_bytes] at those bytes, in any
    packet type that may carry the frame and whatever follows, reads exactly them
    and returns the same frame.  Three cases are special: padding is read together
    with the zero bytes that follow, as one longer padding; and of a source symbol
    or its header only the metadata is consumed, the result being the symbol of
    all the rest of the packet, filled with zeros in front.  For the frames of the
    coding library its reader must accept its own bytes, and the protected bytes
    fit a symbol. *)
Theorem frame_roundtrip dec pkt f pre rest :
  frame_sendable dec f rest → allowed pkt f = true →
  wire_len f = Ok (zlen (wire_bytes f)) ∧
  (∀ old, zlen old = zlen (wire_bytes f) →
     to_bytes f (mk_octets (pre ++ old ++ rest) (zlen pre)) =
     (Ok (zlen (wire_bytes f)), mk_octets (pre ++ wire_bytes f ++ rest) (zlen pre + zlen (wire_bytes f)))) ∧
  ∃ f', from_bytes pkt dec (mk_octets (pre ++ wire_bytes f ++ rest) (zlen pre)) =
          (Ok f', mk_octets (pre ++ wire_bytes f ++ rest) (zlen pre + frame_consumed f rest)) ∧ frame_received dec f rest f'.
Proof.
  intros Hok Hal. split; [by eapply wire_len_sendable|]. split; [intros old; apply writes_to_bytes; by eapply put_sendable_writes|].
  destruct f; cbn [frame_sendable] in Hok; try done; cbn [frame_received frame_consumed]; cbv zeta in Hok.
  all: try (destruct (from_bytes_p dec pkt _ Hok Hal) as (f' & Hp & Hs); exists f'; split; [apply Hp|exact Hs]).
  - eexists. split; [by apply padding_received|done].
  - destruct Hok as [_ Hs]. exists (Repair repair_symbol). split; [|done]. cbn [wire_bytes]. rewrite <- (assoc_L (++) [_]).
    apply from_bytes_of; [lia|done|]. change (parse_fields 0x32 dec) with (parse_repair dec). rewrite (parse_repair_run _ _ _ rest) by done.
    rewrite <- (assoc_L (++)), !zlen_app. do 2 f_equal. lia.
  - destruct Hok as [Hmd Hsize]. eexists. split; [|done]. cbn [wire_bytes]. rewrite <- (assoc_L (++) [_]).
    apply from_bytes_of; [lia|by destruct pkt|]. change (parse_fields 0x33 dec) with (parse_source_symbol dec). rewrite parse_source_symbol_run by done.
    rewrite <- (assoc_L (++)), !zlen_app. do 2 f_equal. lia.
  - destruct Hok as [Hmd Hsize]. eexists. split; [|done]. cbn [wire_bytes]. rewrite <- !(assoc_L (++)).
    apply from_bytes_of; [lia|by destruct pkt|]. change (parse_fields 0x33 dec) with (parse_source_symbol dec). rewrite parse_source_symbol_run by done.
    rewrite <- (assoc_L (++)), !zlen_app. change (zlen [51]) with 1. do 2 f_equal. lia.
Qed.

(** *** Arbitrary input *)

Lemma insert_block_wf s l rs :
  rs_wf rs → 0 <= s <= l → l <= 2 ^ 62 → ∃ rs', insert_block s l rs = Ok rs' ∧ rs_wf rs'.
Proof.
  intros Hwf Hs Hl. change (2 ^ 62) with 4611686018427387904 in Hl.
  destruct (rangeset_insert_run (E:=Error) s (l + 1) rs Hwf ltac:(lia)) as (rs' & Hins & Hwf' & _).
  exists rs'. split; [|done]. unfold insert_block. rewrite uadd_ok by lia. cbn [mbind result_bind].
  by rewrite Hins.
Qed.

(** The loop over ACK blocks: fuel above the bytes left is enough. *)
Lemma reader_parse_blocks fuel : ∀ n s rs,
  rs_wf rs → 0 <= s <= 2 ^ 62 →
  reader_in (Z.of_nat fuel) (parse_blocks fuel n s rs) rs_wf.
Proof.
  induction fuel as [|fuel IH]; intros n s rs Hrs Hs.
  { intros o [? _] HN. simpl in HN. lia. }
  cbn [parse_blocks]. destruct (n <=? 0); [by apply reader_in_all, reader_ret|].
  change (2 ^ 62) with 4611686018427387904 in *.
  apply reader_in_varint. intros gap Hgap. unfold is_varint in Hgap.
  replace (Z.of_nat (S fuel) - 1) with (Z.of_nat fuel) by lia.
  eapply reader_in_lift; [apply uadd_ok; lia|].
  destruct (Z.ltb_spec s (2 + gap)); [apply reader_in_all, reader_fail|].
  eapply reader_in_lift; [apply usub_ok; lia|]. eapply reader_in_lift; [apply usub_ok; lia|].
  eapply reader_in_bind; [apply reader_varint|]. intros blk Hblk. unfold is_varint in Hblk.
  destruct (Z.ltb_spec (s - gap - 2) blk); [apply reader_in_all, reader_fail|].
  eapply reader_in_lift; [apply usub_ok; lia|].
  destruct (insert_block_wf (s - gap - 2 - blk) (s - gap - 2) rs) as (rs' & Hins & Hrs');
    [done|lia|change (2 ^ 62) with 4611686018427387904; lia|].
  eapply reader_in_lift; [exact Hins|]. apply IH; [done|lia].
Qed.

Lemma reader_all_blocks n s rs :
  rs_wf rs → 0 <= s <= 2 ^ 62 → reader (parse_all_blocks n s rs) rs_wf.
Proof.
  intros Hrs Hs o Hwf. unfold parse_all_blocks. apply wp_bind, wp_cap; [done|].
  apply reader_parse_blocks; try done. lia.
Qed.

Lemma peek_is_zero_run o :
  octets_wf o →
  ∃ b, peek_is_zero o = (Ok b, o) ∧ (b = true → o_off o + 1 <= zlen (o_buf o)).
Proof.
  intros Hwf. pose proof (wp_peek_u (E:=Error) 1 o Hwf ltac:(lia)) as Hp.
  unfold peek_is_zero, reads, Octets.peek_u8. unfold wp in Hp.
  destruct (peek_u 1 o) as [[v| |] o']; simpl; [|by exists false|done].
  exists (v =? 0). split; [done|]. intros _. tauto.
Qed.

Lemma wp_bind_run {A B} (m : M octets Error A) (k : A → M octets Error B) Q QE o a o' :
  m o = (Ok a, o') → wp (k a) Q QE o' → wp (m ≫= k) Q QE o.
Proof. intros Hm Hk. unfold wp. by rewrite (run_bind_ok _ _ _ _ _ Hm). Qed.

(** The loop over padding. *)
(** What the parser promises about the frame it returns. *)
Definition parsed_ok (f : t) : Prop :=
  match f with
  | Padding len => 1 <= len
  | Ping p => p = None
  | ACK d rs e => is_varint d ∧ rs_wf rs ∧ ecn_ok e
  | ResetStream a b c => is_varint a ∧ is_varint b ∧ is_varint c
  | StopSending a b | MaxStreamData a b | StreamDataBlocked a b => is_varint a ∧ is_varint b
  | Crypto data => is_varint (RangeBuf.off data) ∧ RangeBuf.fin data = false ∧ RangeBuf.fresh data
  | NewToken token => token ≠ []
  | Stream id data => is_varint id ∧ 0 <= RangeBuf.off data ∧ RangeBuf.max_off data < MAX_STREAM_SIZE
  | MaxData a | MaxStreamsBidi a | MaxStreamsUni a | DataBlocked a | StreamsBlockedBidi a
  | StreamsBlockedUni a | RetireConnectionId a => is_varint a
  | NewConnectionId a b cid token =>
      is_varint a ∧ is_varint b ∧ 1 <= zlen cid <= MAX_CID_LEN ∧ zlen token = 16
  | PathChallenge d | PathResponse d => zlen d = 8
  | ConnectionClose a b reason => is_varint a ∧ is_varint b ∧ is_varint (zlen reason)
  | ApplicationClose a reason => is_varint a ∧ is_varint (zlen reason)
  | HandshakeDone | Datagram _ | Repair _ | SourceSymbol _ => True
  | SourceSymbolACK rs => rs_wf rs
  | CryptoHeader _ _ | StreamHeader _ _ _ _ | DatagramHeader _ | SourceSymbolHeader _ _ => False
  end.

Lemma reader_skip_padding fuel : ∀ len,
  0 <= len → reader_in (Z.of_nat fuel + 1) (skip_padding fuel len) (λ n, len <= n).
Proof.
  induction fuel as [|fuel IH]; intros len Hlen o Hwf HN; cbn [skip_padding];
    destruct (peek_is_zero_run o Hwf) as (b & Hpk & Hb); eapply wp_bind_run; try exact Hpk;
    destruct b; try (by apply reader_ret).
  - specialize (Hb eq_refl). simpl in HN. lia.
  - apply wp_bind. eapply wp_mono; [by apply (wp_get_u 1)| |by intros ?? [_ ->]].
    intros v o' ((Hb' & Hle & Hwf') & Hoff & _).
    eapply wp_mono; [apply (IH (len + 1) ltac:(lia) o' Hwf'); rewrite Hb'; lia|..].
    + intros n o1 [Ha Hn]. split; [|lia]. eapply advances_trans; [|exact Ha]. by split_and!.
    + intros e o1 [Hb1 ?]. split; [by rewrite Hb1|done].
Qed.

Lemma reader_ecn (b : bool) :
  reader (if b then ect0 ← get_varint; ect1 ← get_varint; ce ← get_varint;
                    mret (Some (mk_ecn ect0 ect1 ce)) else mret None) ecn_ok.
Proof.
  destruct b; [|by apply reader_ret].
  do 3 (eapply reader_bind; [apply reader_varint|]; intros ? ?). by apply reader_ret.
Qed.

Lemma reader_first_block largest blk {B} (k : Z → RangeSet.t → M octets Error B) Q :
  is_varint largest → is_varint blk →
  (∀ s rs, rs_wf rs → 0 <= s <= 2 ^ 62 → reader (k s rs) Q) →
  reader (if largest <? blk then fail InvalidFrame
          else smallest ← lift (usub largest blk);
               ranges ← lift (insert_block smallest largest RangeSet.default);
               k smallest ranges) Q.
Proof.
  intros Hl Hb Hk. unfold is_varint in *. destruct (Z.ltb_spec largest blk); [apply reader_fail|].
  eapply reader_lift; [apply usub_ok; lia|].
  destruct (insert_block_wf (largest - blk) largest RangeSet.default rs_wf_default) as (rs & Hi & Hrs);
    [lia|change (2 ^ 62) with 4611686018427387904; lia|].
  eapply reader_lift; [exact Hi|]. apply Hk; [done|]. change (2 ^ 62) with 4611686018427387904. lia.
Qed.

Lemma reader_ack ty : reader (parse_ack_frame ty) parsed_ok.
Proof.
  unfold parse_ack_frame. do 4 (eapply reader_bind; [apply reader_varint|]; intros ? ?).
  apply reader_first_block; [done..|]. intros s rs Hrs Hs.
  eapply reader_bind; [by apply reader_all_blocks|]. intros rs' Hrs'.
  eapply reader_bind; [apply reader_ecn|]. intros e He. by apply reader_ret.
Qed.

Lemma reader_ssack : reader parse_source_symbol_ack_frame parsed_ok.
Proof.
  unfold parse_source_symbol_ack_frame. do 3 (eapply reader_bind; [apply reader_varint|]; intros ? ?).
  apply reader_first_block; [done..|]. intros s rs Hrs Hs.
  eapply reader_bind; [by apply reader_all_blocks|]. intros rs' Hrs'. by apply reader_ret.
Qed.

(** An explicit length, or all that is left of the packet. *)
Lemma reader_in_len N (b : bool) :
  0 <= N <= 2 ^ 62 →
  reader_in N (if b then get_varint else reads Octets.cap) (λ n, 0 <= n < 2 ^ 62).
Proof.
  intros HN. destruct b.
  - apply reader_in_all. eapply reader_mono; [apply reader_varint|]. unfold is_varint. intros; lia.
  - intros o Hwf Ho. eapply wp_mono; [by apply reader_in_cap| |done]. intros c o' [? ?]. split; [done|lia].
Qed.

Lemma reader_in_stream N ty : 0 <= N <= 2 ^ 62 → reader_in N (parse_stream_frame ty) parsed_ok.
Proof.
  intros HN. unfold parse_stream_frame.
  eapply reader_in_bind; [apply reader_varint|]. intros id Hid.
  eapply reader_in_bind.
  { apply (reader_if _ _ _ is_varint); intros _; [apply reader_varint|by apply reader_ret]. }
  intros off Hoff. eapply reader_in_seq; [by apply reader_in_len|]. intros len Hlen.
  cbv beta in Hlen. unfold is_varint in Hoff.
  change (2 ^ 62) with 4611686018427387904 in Hlen.
  eapply reader_in_lift; [apply uadd_ok; lia|].
  destruct (Z.leb_spec MAX_STREAM_SIZE (off + len)); [apply reader_in_all, reader_fail|].
  eapply reader_in_bind; [apply reader_bytes; lia|]. intros b [Hb Hl].
  apply reader_in_all, reader_ret. simpl. destruct (whole_buf b Hb) as [-> _].
  rewrite RangeBuf.off_from, RangeBuf.max_off_from, Hl. split; [done|lia].
Qed.

Lemma reader_in_datagram N ty : 0 <= N <= 2 ^ 62 → reader_in N (parse_datagram_frame ty) parsed_ok.
Proof.
  intros HN. unfold parse_datagram_frame. eapply reader_in_seq; [by apply reader_in_len|].
  intros len Hlen. cbv beta in Hlen. eapply reader_in_bind; [apply reader_bytes; lia|]. intros b _.
  by apply reader_in_all, reader_ret.
Qed.

(** The decoder reports how many bytes it used. *)
Record decoder_ok (dec : nc_decoder) : Prop := {
  dok_repair : ∀ b n s, read_repair_symbol dec b = inr (n, s) → 0 <= n;
  dok_metadata : ∀ b n md, read_source_symbol_metadata dec b = inr (n, md) → 0 <= n
}.

Lemma reader_in_gets N {A B} (f : octets → A) (k : A → M octets Error B) Q :
  (∀ o, octets_wf o → zlen (o_buf o) - o_off o < N →
    wp (k (f o)) (λ b o', advances o o' ∧ Q b) (λ _, keeps_buf o) o) →
  reader_in N (gets f ≫= k) Q.
Proof. intros Hk o Hwf HN. apply wp_bind, wp_gets. by apply Hk. Qed.

Lemma reader_repair dec : decoder_ok dec → reader (parse_repair dec) parsed_ok.
Proof.
  intros Hdec o Hwf. unfold parse_repair. apply wp_bind, wp_gets. apply wp_bind.
  destruct (read_repair_symbol dec (Octets.to_vec o)) as [code|[n s]] eqn:E; [done|].
  eapply wp_lift; [done|]. eapply reader_at; [apply reader_skip; [by eapply (dok_repair _ Hdec)|done]|].
  intros _ o' (_ & _ & Hwf') _. by apply reader_ret.
Qed.

Lemma reader_in_source_symbol N dec :
  decoder_ok dec → N <= symbol_size dec + 1 → reader_in N (parse_source_symbol dec) parsed_ok.
Proof.
  intros Hdec HN o Hwf Ho. unfold parse_source_symbol. apply wp_bind, wp_gets. apply wp_bind.
  destruct (read_source_symbol_metadata dec (Octets.as_ref o)) as [code|[n md]] eqn:E; [done|].
  eapply wp_lift; [done|]. eapply reader_at; [apply reader_skip; [by eapply (dok_metadata _ Hdec)|done]|].
  intros _ o' (Hb & Hle & Hwf') _. apply wp_bind, wp_gets. apply wp_bind. eapply wp_lift.
  - apply usub_ok. unfold Octets.as_ref. destruct Hwf' as [? _]. rewrite zlen_zdrop by lia. rewrite Hb. lia.
  - by apply reader_ret.
Qed.

(** One field after the other. *)
Ltac solve_reader :=
  repeat first
    [ eapply reader_bind; [apply reader_varint|]; intros ? ?
    | eapply reader_bind; [apply reader_varint_bytes|]; intros ? [? ?]
    | eapply reader_bind; [apply reader_bytes; lia|]; intros ? [? ?] ];
  apply reader_ret; simpl;
  repeat match goal with H : o_off ?b = 0 |- _ => destruct (whole_buf b H) as [? ->]; clear H end;
  try done.

Lemma reader_in_fields N dec ty :
  decoder_ok dec → 0 <= N <= 2 ^ 62 → (ty = 0x33 → N <= symbol_size dec + 1) → reader_in N (parse_fields ty dec) parsed_ok.
Proof.
  intros Hdec HN Hsym. unfold parse_fields.
  repeat match goal with
  | |- reader_in _ (if ty =? 0x33 then _ else _) _ => destruct (Z.eqb_spec ty 0x33)
  | |- reader_in _ (if ?b then _ else _) _ => destruct b
  end;
  first [ by apply reader_in_stream | by apply reader_in_datagram | apply reader_in_source_symbol; by auto
        | apply reader_in_all; first [ solve [solve_reader] | apply reader_ack | apply reader_ssack
                                     | by apply reader_repair | apply reader_fail ] | idtac ].
  - intros o Hwf Ho. apply wp_bind, wp_cap; [done|].
    assert (reader_in (Z.of_nat (Z.to_nat (zlen (o_buf o) - o_off o)) + 1)
      (len ← skip_padding (Z.to_nat (zlen (o_buf o) - o_off o)) 1; mret (Padding len)) parsed_ok) as Hp.
    { eapply reader_in_seq; [by apply reader_skip_padding|]. intros n Hn. by apply reader_in_all, reader_ret. }
    apply Hp; [done|]. destruct Hwf. lia.
  - apply reader_in_all. eapply reader_bind; [apply reader_varint|]. intros off Hoff.
    eapply reader_bind; [apply reader_varint_bytes|]. intros b _. apply reader_ret. simpl.
    by rewrite RangeBuf.off_from.
  - apply reader_in_all. eapply reader_bind; [apply reader_varint|]. intros n Hn.
    destruct (Z.eqb_spec n 0); [apply reader_fail|].
    eapply reader_bind; [apply reader_bytes; unfold is_varint in Hn; lia|]. intros b [Hb Hl].
    apply reader_ret. simpl. destruct (whole_buf b Hb) as [_ ->]. intros E. by rewrite E in Hl.
  - apply reader_in_all. do 2 (eapply reader_bind; [apply reader_varint|]; intros ? ?).
    eapply reader_bind; [apply reader_u8|]. intros n Hn. unfold is_u8 in Hn.
    destruct (Z.leb_spec 1 n), (Z.leb_spec n MAX_CID_LEN); cbn [andb negb]; try apply reader_fail.
    eapply reader_bind; [apply reader_bytes; lia|]. intros b [Hb Hl].
    eapply reader_bind; [apply reader_bytes; lia|]. intros c [Hc Hl'].
    apply reader_ret. simpl. destruct (whole_buf b Hb) as [_ ->]. rewrite Hl. done.
Qed.

(** C23. Parsing a frame is safe on arbitrary input.  On any buffer of bytes,
    shorter than 2^62, [from_bytes] does not abort and its loops end, whatever the
    bytes and the packet type, with one exception: a SOURCE_SYMBOL frame (type
    0x33) with more bytes unread than a symbol of the decoder has, for which see
    [source_symbol_panics].  The bytes stay as they are and the cursor stays
    inside.  On success the cursor has moved, the packet type may carry the frame,
    and the frame is well formed: stream data ends below 2^62, range sets are
    sorted and disjoint, connection ids have 1 to 20 bytes. *)
Theorem frames_safe dec pkt o :
  decoder_ok dec → octets_wf o → zlen (o_buf o) < 2 ^ 62 →
  (∀ o', get_varint o = (Ok 0x33, o') → zlen (o_buf o) - o_off o <= symbol_size dec) →
  wp (from_bytes pkt dec)
    (λ f o', (advances o o' ∧ o_off o < o_off o') ∧ parsed_ok f ∧ allowed pkt f = true)
    (λ _, keeps_buf o) o.
Proof.
  intros Hdec Hwf Hlen Hsym. pose proof Hwf as [Hoff _]. unfold from_bytes. apply wp_bind.
  pose proof (wp_get_varint (E:=Error) o Hwf) as Hty. unfold wp, get_varint in *.
  destruct (Octets.get_varint o) as [[ty|e|] o1]; [|by destruct Hty as [_ ->]|done]. destruct Hty as ((Hb & Hle & Hwf1) & Hlt & Hty).
  assert (reader_in (zlen (o_buf o) - o_off o)
    (frame ← parse_fields ty dec; if negb (allowed pkt frame) then fail InvalidPacket else mret frame)
    (λ f, parsed_ok f ∧ allowed pkt f = true)) as Hr.
  { eapply reader_in_seq; [apply reader_in_fields; [done|lia|intros ->; specialize (Hsym o1 eq_refl); lia]|]. intros f Hf.
    apply reader_in_all. destruct (allowed pkt f) eqn:Ha; [by apply reader_ret|apply reader_fail]. }
  eapply wp_mono; [apply (Hr o1 Hwf1); rewrite Hb; lia|..].
  - intros f o2 [(Hb2 & Hle2 & Hwf2) Hf]. split; [|done]. split; [|lia].
    split_and!; [by rewrite Hb2|lia|done].
  - intros e o2 [Hb2 ?]. split; [by rewrite Hb2|done].
Qed.

(** A SOURCE_SYMBOL frame that is followed by more bytes than the decoder's
    symbol size aborts the receiver: the padding is computed by a subtraction
    that is not checked against the input. *)
Theorem source_symbol_panics dec pkt pre mdb md body :
  read_source_symbol_metadata dec (mdb ++ body) = inr (zlen mdb, md) →
  symbol_size dec < zlen body →
  (from_bytes pkt dec (mk_octets (pre ++ [0x33] ++ mdb ++ body) (zlen pre))).1 = Panic.
Proof.
  intros Hmd Hsym. unfold from_bytes.
  pose proof (get_varint_p 0x33 ltac:(unfold is_varint; lia) pre (mdb ++ body)) as Hty.
  rewrite enc_varint_small in Hty by lia. rewrite (run_bind_ok _ _ _ _ _ Hty).
  change (parse_fields 51 dec) with (parse_source_symbol dec).
  replace (pre ++ [51] ++ mdb ++ body) with ((pre ++ [51]) ++ mdb ++ body) by (by rewrite <- app_assoc).
  replace (zlen pre + zlen [51]) with (zlen (pre ++ [51])) by apply zlen_app.
  set (p := pre ++ [51]). unfold parse_source_symbol. rewrite run_bind_assoc, run_bind_gets.
  replace (Octets.as_ref (mk_octets (p ++ mdb ++ body) (zlen p))) with (mdb ++ body)
    by (symmetry; apply zdrop_app). rewrite Hmd.
  rewrite run_bind_assoc, run_bind_lift with (a := (zlen mdb, md)) by done.
  rewrite run_bind_assoc, (run_bind_ok _ _ _ () (mk_octets (p ++ mdb ++ body) (zlen p + zlen mdb))).
  - rewrite run_bind_assoc, run_bind_gets. unfold Octets.as_ref. cbn [o_buf o_off].
    rewrite app_assoc, (zdrop_app' _ (p ++ mdb) body) by (by rewrite zlen_app).
    by rewrite usub_panic by lia.
  - pose proof (zlen_nonneg body). unfold Octets.skip.
    rewrite (run_bind_ok _ _ _ _ _ (cap_run (E:=Error) p mdb body)).
    rewrite (proj2 (Z.ltb_ge _ _)) by lia. done.
Qed.

(** The tag of a two-byte varint is already set in a length from 2^14 on. *)
Lemma lor_64 b : 64 <= b < 128 → Z.lor b 64 = b.
Proof.
  intros Hb. assert (forallb (λ b, Z.lor b 64 =? b) (seqZ 64 64) = true) as Hall by (vm_compute; reflexivity).
  rewrite forallb_forall in Hall. apply Z.eqb_eq, Hall, list_elem_of_In, elem_of_seqZ. lia.
Qed.

Lemma put_len2_wraps n :
  16384 <= n < 32768 →
  writes (E:=Error) (OctetsMut.put_varint_with_len n 2) (enc_varint_len 2 (n - 16384)).
Proof.
  intros Hn pre old rest Hold. rewrite zlen_enc_varint_len in Hold |- * by lia.
  unfold enc_varint_len. change (varint_tag 2 * 2 ^ (8 * 2 - 2)) with 16384.
  replace (n - 16384 + 16384) with n by lia. pose proof (zlen_nonneg rest).
  unfold OctetsMut.put_varint_with_len.
  rewrite (run_bind_ok _ _ _ _ _ (cap_run (E:=Error) pre old rest)). rewrite Hold. zdecide.
  assert (as_u16 n = n) as -> by (apply Z.mod_small; change (2 ^ 16) with 65536; lia).
  change (Z.to_nat 2) with 2%nat. exists (zlen pre). unfold OctetsMut.put_u16.
  erewrite run_bind_ok by (by apply put_u_run). change (Z.to_nat 2) with 2%nat.
  pose proof (be_bytes_head 1 n []) as Hh. rewrite !app_nil_r in Hh.
  change (256 ^ Z.of_nat 2) with 65536 in Hh. change (256 ^ Z.of_nat 1) with 256 in Hh.
  rewrite Hh by lia. change 2 with (zlen (n / 256 :: be_bytes 1 n)) at 1.
  erewrite run_bind_ok by apply or_first_run. rewrite run_ret, lor_64; [done|].
  split; [apply Z.div_le_lower_bound; lia|apply Z.div_lt_upper_bound; lia].
Qed.

(** The header encoders always use a two-byte length, without checking that
    the length fits: from 2^14 to 2^15 the bytes written are those of a length
    smaller by 2^14, so the receiver takes the rest of the data for frames. *)
Theorem stream_header_length_wraps id off n (fin : bool) :
  is_varint id → is_varint off → 16384 <= n < 32768 →
  let ty := if fin then 0x0f else 0x0e in
  let len := enc_varint_len 2 (n - 16384) in
  writes (encode_stream_header id off n fin) ([ty] ++ enc_varint id ++ enc_varint off ++ len) ∧
  parses get_varint len (n - 16384).
Proof.
  intros Hi Ho Hn ty len. split; [|apply get_len2_p; lia]. unfold encode_stream_header, ty, len.
  change (Z.lor (Z.lor 8 4) 2) with 0x0e.
  destruct fin; cbv iota; change (Z.lor 0x0e 1) with 0x0f;
    (apply writes_bind; [writes_leaf|]; intros _; apply writes_bind; [writes_leaf|]; intros _;
     apply writes_bind; [writes_leaf|]; intros _; by apply writes_then_ret, put_len2_wraps).
Qed.
End wire.

(** ** A concrete coding library, for the witnesses *)

Module ToyCoding.
#[global] Instance coding : NetCoding := {
  nc_decoder := Z;
  nc_repair_symbol := list Z;
  nc_source_symbol := list Z * list Z;
  read_repair_symbol := λ _ b, inr (zlen b, b);
  symbol_size := λ d, d;
  read_source_symbol_metadata := λ _ b, if zlen b <? 2 then inl 7 else inr (2, ztake 2 b);
  source_symbol_new := λ md b, (md, b);
  source_symbol_metadata := fst;
  source_symbol_get := snd;
  repair_symbol_get := λ s, s;
  repair_symbol_wire_len := λ s, zlen s
}.

Definition decoder (size : Z) : nc_decoder := size.

Lemma coding_ok d : decoder_ok d.
Proof.
  constructor; simpl.
  - intros b n s [= <- _]. apply zlen_nonneg.
  - intros b n md. destruct (zlen b <? 2); [done|]. intros [= <- _]. done.
Qed.
End ToyCoding.

Lemma frame_roundtrip_witness :
  let f := Frame.ACK 25 (RangeSet.Inline (InlineRangeSet.mk [(0, 3); (5, 7)] 68)) None in
  let g := Frame.SourceSymbolHeader [1; 2] false in
  let dec := ToyCoding.decoder 5 in
  (Frame.wire_len f = Ok (zlen (wire_bytes f)) ∧
   ∃ f', Frame.from_bytes PktType.Initial dec (mk_octets ([9] ++ wire_bytes f ++ [8]) 1) =
     (Ok f', mk_octets ([9] ++ wire_bytes f ++ [8]) 8) ∧ same_frame f f') ∧
  (Frame.from_bytes PktType.Short dec (mk_octets ([9] ++ [0x33; 1; 2] ++ [7; 8; 9]) 1) =
     (Ok (Frame.SourceSymbol ([1; 2], [0; 0; 7; 8; 9])), mk_octets [9; 0x33; 1; 2; 7; 8; 9] 4)).
Proof.
  intros f g dec. split.
  - destruct (frame_roundtrip dec PktType.Initial f [9] [8]) as (Hl & _ & f' & Hf & Hr); [|reflexivity|by split; [|exists f']].
    split; [unfold is_varint; lia|]. split; [|done]. split; [discriminate|]. simpl.
    split; [|split; [|split; [|done]]].
    + apply ranges_wf_cons. split; [lia|]. split; [apply Forall_singleton; simpl; lia|].
      apply ranges_wf_cons. split; [lia|]. split; [apply Forall_nil_2|apply ranges_wf_nil].
    + repeat (apply Forall_cons_2; [simpl; lia|]). apply Forall_nil_2.
    + repeat (apply Forall_cons_2; [simpl; lia|]). apply Forall_nil_2.
  - destruct (frame_roundtrip dec PktType.Short g [9] [7; 8; 9]) as (_ & _ & f' & Hf & Hr); [by split; vm_compute|reflexivity|].
    vm_compute in Hr. subst f'. exact Hf.
Defined.

Lemma frames_safe_witness :
  let o := mk_octets [0x02; 0x41] 0 in
  wp (Frame.from_bytes PktType.Short (ToyCoding.decoder 100))
    (λ f o', (advances o o' ∧ o_off o < o_off o') ∧ parsed_ok f ∧ Frame.allowed PktType.Short f = true)
    (λ _, keeps_buf o) o.
Proof.
  intros o. apply frames_safe; [apply ToyCoding.coding_ok|solve_wf|reflexivity|]. intros o' Hrun. vm_compute in Hrun. discriminate.
Defined.

Lemma source_symbol_panics_witness :
  (Frame.from_bytes PktType.Short (ToyCoding.decoder 3)
    (mk_octets ([] ++ [0x33] ++ [0; 1] ++ [9; 9; 9; 9]) 0)).1 = Panic.
Proof.
  apply (source_symbol_panics (ToyCoding.decoder 3) PktType.Short [] [0; 1] [0; 1] [9; 9; 9; 9]);
    reflexivity.
Defined.

Lemma stream_header_length_wraps_witness :
  writes (Frame.encode_stream_header 4 0 20000 true)
    ([0x0f] ++ enc_varint 4 ++ enc_varint 0 ++ enc_varint_len 2 3616) ∧
  parses Frame.get_varint (enc_varint_len 2 3616) 3616.
Proof. apply (stream_header_length_wraps 4 0 20000 true); [unfold is_varint; lia..|lia]. Defined.
