(* ===== verification/Cids.v ===== *)
(** * Connection identifiers: [quiche/src/cid.rs]

    The sets of source and destination connection ids of a connection, their
    bounded containers and the bookkeeping of NEW_CONNECTION_ID and
    RETIRE_CONNECTION_ID.  A [VecDeque] is the list from front to back, a
    [HashSet] a finite set whose iteration order is a parameter, and so is the
    answer of [partition_point] on a sequence that is not partitioned. *)
From stdpp Require Import gmap.
From S2P Require Import Prelude Orders OctetsLib Ranges RangeBufs Packets Frames.

Definition RETIRED_CONN_ID_LIMIT_MULTIPLIER : Z := 3.

(** ** Bounded containers *)

Module BoundedConnectionIdSeqSet.
Record t := mk { inner : gset Z; capacity : Z }.

Definition new (capacity : Z) : t := mk ∅ capacity.

Definition insert (e : Z) : M t Error bool :=
  s ← get;
  if capacity s <=? Z.of_nat (size (inner s)) then fail IdLimit
  else
    put (mk ({[e]} ∪ inner s) (capacity s));;
    mret (bool_decide (e ∉ inner s)).

Definition remove (e : Z) : M t Error bool :=
  s ← get;
  put (mk (inner s ∖ {[e]}) (capacity s));;
  mret (bool_decide (e ∈ inner s)).

Definition front `{StdOrders} (s : t) : option Z := head (hash_iter (inner s)).
Definition is_empty (s : t) : bool := bool_decide (inner s = ∅).
End BoundedConnectionIdSeqSet.

(** [reset_token] is a [u128]. *)
Record ConnectionIdEntry := mk_entry {
  cid : list Z;
  seq : Z;
  reset_token : option Z;
  path_id : option Z
}.

#[export] Instance ConnectionIdEntry_eq_dec : EqDecision ConnectionIdEntry.
Proof. solve_decision. Defined.

Module BoundedNonEmptyConnectionIdVecDeque.
Record t := mk { inner : list ConnectionIdEntry; capacity : Z }.

Definition new (capacity : Z) (initial_entry : ConnectionIdEntry) : t := mk [initial_entry] capacity.

Definition resize (new_capacity : Z) (d : t) : t :=
  if capacity d <? new_capacity then mk (inner d) new_capacity else d.

(** [expect("vecdeque is empty")] *)
Definition get_oldest (d : t) : result Error ConnectionIdEntry :=
  match inner d with [] => Panic | e :: _ => Ok e end.

Definition get (s : Z) (d : t) : option ConnectionIdEntry :=
  List.find (λ e, seq e =? s) (inner d).

(** [get_mut] and an update of the entry it points to. *)
Fixpoint update_first (s : Z) (f : ConnectionIdEntry → ConnectionIdEntry)
    (l : list ConnectionIdEntry) : list ConnectionIdEntry :=
  match l with
  | [] => []
  | e :: l => if seq e =? s then f e :: l else e :: update_first s f l
  end.

Definition len (d : t) : Z := zlen (inner d).

Definition insert (e : ConnectionIdEntry) : M t Error unit :=
  d ← Prelude.get;
  match get (seq e) d with
  | Some _ => put (mk (update_first (seq e) (λ _, e) (inner d)) (capacity d))
  | None =>
      if capacity d <=? zlen (inner d) then fail IdLimit
      else put (mk (inner d ++ [e]) (capacity d))
  end.

Definition clear_and_insert (e : ConnectionIdEntry) (d : t) : t := mk [e] (capacity d).

(** [position] and [VecDeque::remove]. *)
Fixpoint remove_first (s : Z) (l : list ConnectionIdEntry) :
    option ConnectionIdEntry * list ConnectionIdEntry :=
  match l with
  | [] => (None, [])
  | e :: l =>
      if seq e =? s then (Some e, l)
      else let '(r, l') := remove_first s l in (r, e :: l')
  end.

Definition remove (s : Z) : M t Error (option ConnectionIdEntry) :=
  d ← Prelude.get;
  if zlen (inner d) <=? 1 then fail OutOfIdentifiers
  else
    let '(r, l) := remove_first s (inner d) in
    put (mk l (capacity d));;
    mret r.
End BoundedNonEmptyConnectionIdVecDeque.

Abbreviation CidSet := BoundedConnectionIdSeqSet.t.
Abbreviation CidDeque := BoundedNonEmptyConnectionIdVecDeque.t.

(** ** [ConnectionIdentifiers] *)

Module Ids.
Module S := BoundedConnectionIdSeqSet.
Module D := BoundedNonEmptyConnectionIdVecDeque.

Record t := mk {
  dcids : CidDeque;
  scids : CidDeque;
  advertise_new_scid_seqs : list Z;
  retire_dcid_seqs : CidSet;
  retired_scids : list (list Z);
  largest_peer_retire_prior_to : Z;
  largest_destination_seq : Z;
  next_scid_seq : Z;
  retire_prior_to : Z;
  source_conn_id_limit : Z;
  is_zero_length_scid : bool;
  is_zero_length_dcid : bool
}.

(** Field updates. *)
Definition set_dcids d i := mk d (scids i) (advertise_new_scid_seqs i) (retire_dcid_seqs i) (retired_scids i) (largest_peer_retire_prior_to i) (largest_destination_seq i) (next_scid_seq i) (retire_prior_to i) (source_conn_id_limit i) (is_zero_length_scid i) (is_zero_length_dcid i).
Definition set_scids d i := mk (dcids i) d (advertise_new_scid_seqs i) (retire_dcid_seqs i) (retired_scids i) (largest_peer_retire_prior_to i) (largest_destination_seq i) (next_scid_seq i) (retire_prior_to i) (source_conn_id_limit i) (is_zero_length_scid i) (is_zero_length_dcid i).
Definition set_advertise d i := mk (dcids i) (scids i) d (retire_dcid_seqs i) (retired_scids i) (largest_peer_retire_prior_to i) (largest_destination_seq i) (next_scid_seq i) (retire_prior_to i) (source_conn_id_limit i) (is_zero_length_scid i) (is_zero_length_dcid i).
Definition set_retire_dcid_seqs d i := mk (dcids i) (scids i) (advertise_new_scid_seqs i) d (retired_scids i) (largest_peer_retire_prior_to i) (largest_destination_seq i) (next_scid_seq i) (retire_prior_to i) (source_conn_id_limit i) (is_zero_length_scid i) (is_zero_length_dcid i).
Definition set_retired_scids d i := mk (dcids i) (scids i) (advertise_new_scid_seqs i) (retire_dcid_seqs i) d (largest_peer_retire_prior_to i) (largest_destination_seq i) (next_scid_seq i) (retire_prior_to i) (source_conn_id_limit i) (is_zero_length_scid i) (is_zero_length_dcid i).
Definition set_largest_peer_retire d i := mk (dcids i) (scids i) (advertise_new_scid_seqs i) (retire_dcid_seqs i) (retired_scids i) d (largest_destination_seq i) (next_scid_seq i) (retire_prior_to i) (source_conn_id_limit i) (is_zero_length_scid i) (is_zero_length_dcid i).
Definition set_largest_dest d i := mk (dcids i) (scids i) (advertise_new_scid_seqs i) (retire_dcid_seqs i) (retired_scids i) (largest_peer_retire_prior_to i) d (next_scid_seq i) (retire_prior_to i) (source_conn_id_limit i) (is_zero_length_scid i) (is_zero_length_dcid i).
Definition set_next_scid d i := mk (dcids i) (scids i) (advertise_new_scid_seqs i) (retire_dcid_seqs i) (retired_scids i) (largest_peer_retire_prior_to i) (largest_destination_seq i) d (retire_prior_to i) (source_conn_id_limit i) (is_zero_length_scid i) (is_zero_length_dcid i).
Definition set_retire_prior_to d i := mk (dcids i) (scids i) (advertise_new_scid_seqs i) (retire_dcid_seqs i) (retired_scids i) (largest_peer_retire_prior_to i) (largest_destination_seq i) (next_scid_seq i) d (source_conn_id_limit i) (is_zero_length_scid i) (is_zero_length_dcid i).
Definition set_source_limit d i := mk (dcids i) (scids i) (advertise_new_scid_seqs i) (retire_dcid_seqs i) (retired_scids i) (largest_peer_retire_prior_to i) (largest_destination_seq i) (next_scid_seq i) (retire_prior_to i) d (is_zero_length_scid i) (is_zero_length_dcid i).
Definition set_zero_dcid d i := mk (dcids i) (scids i) (advertise_new_scid_seqs i) (retire_dcid_seqs i) (retired_scids i) (largest_peer_retire_prior_to i) (largest_destination_seq i) (next_scid_seq i) (retire_prior_to i) (source_conn_id_limit i) (is_zero_length_scid i) d.

Definition new (destination_conn_id_limit : Z) (initial_scid : list Z) (initial_path_id : Z)
    (token : option Z) : result Error t :=
  let destination_conn_id_limit :=
    if destination_conn_id_limit <? 2 then 2 else destination_conn_id_limit in
  let source_conn_id_limit := 2 in
  retired_limit ← umul destination_conn_id_limit RETIRED_CONN_ID_LIMIT_MULTIPLIER;
  Ok (mk (D.new destination_conn_id_limit (mk_entry [] 0 None (Some initial_path_id)))
     (D.new (2 * source_conn_id_limit - 1) (mk_entry initial_scid 0 token (Some initial_path_id)))
     []
     (S.new retired_limit)
     [] 0 0 1 0 source_conn_id_limit (zlen initial_scid =? 0) false).

(** [usize::MAX / 2] *)
Definition set_source_conn_id_limit (v : Z) (i : t) : t :=
  let v := Z.min v (u64_max / 2) in
  if 2 <=? v then set_scids (D.resize (2 * v - 1) (scids i)) (set_source_limit v i) else i.

(** [ok_or] *)
Definition ok_or {A} (o : option A) (e : Error) : result Error A :=
  match o with Some a => Ok a | None => Err e end.

Definition get_dcid (seq_num : Z) (i : t) : result Error ConnectionIdEntry :=
  ok_or (D.get seq_num (dcids i)) InvalidState.
Definition get_scid (seq_num : Z) (i : t) : result Error ConnectionIdEntry :=
  ok_or (D.get seq_num (scids i)) InvalidState.

(** [Iterator::min] *)
Fixpoint min_of (l : list Z) : option Z :=
  match l with
  | [] => None
  | x :: l => match min_of l with None => Some x | Some m => Some (Z.min x m) end
  end.

Definition lowest_usable_scid_seq (i : t) : result Error Z :=
  ok_or (min_of (seq <$> List.filter (λ e, retire_prior_to i <=? seq e) (D.inner (scids i))))
    InvalidState.

Definition no_path (e : ConnectionIdEntry) : bool :=
  match path_id e with None => true | Some _ => false end.

Definition lowest_available_dcid_seq (i : t) : option Z :=
  min_of (seq <$> List.filter no_path (D.inner (dcids i))).

Fixpoint remove_seq (s : Z) (l : list Z) : list Z :=
  match l with [] => [] | x :: l => if x =? s then l else x :: remove_seq s l end.

Definition mark_advertise_new_scid_seq (scid_seq : Z) (advertise : bool) (i : t) : t :=
  if advertise then set_advertise (advertise_new_scid_seqs i ++ [scid_seq]) i
  else set_advertise (remove_seq scid_seq (advertise_new_scid_seqs i)) i.

Definition mark_retire_dcid_seq (dcid_seq : Z) (retire : bool) : M t Error unit :=
  if retire then zoom retire_dcid_seqs set_retire_dcid_seqs (S.insert dcid_seq);; mret ()
  else zoom retire_dcid_seqs set_retire_dcid_seqs (S.remove dcid_seq);; mret ().

Definition new_scid (c : list Z) (token : option Z) (advertise : bool) (pid : option Z)
    (retire_if_needed : bool) : M t Error Z :=
  i ← get;
  if is_zero_length_scid i then fail InvalidState
  else
    (if source_conn_id_limit i <=? D.len (scids i) then
       if negb retire_if_needed then fail IdLimit
       else
         l ← reads lowest_usable_scid_seq;
         r ← lift (uadd l 1);
         modify (set_retire_prior_to r)
     else mret ());;
    seq_ ← gets next_scid_seq;
    if bool_decide (token = None) && negb (seq_ =? 0) then fail InvalidState
    else
      found ← gets (λ i, List.find (λ e, bool_decide (cid e = c)) (D.inner (scids i)));
      match found with
      | Some e => if bool_decide (reset_token e = token) then mret (seq e) else fail InvalidState
      | None =>
          zoom scids set_scids (D.insert (mk_entry c seq_ token pid));;
          n ← lift (uadd seq_ 1);
          modify (set_next_scid n);;
          modify (mark_advertise_new_scid_seq seq_ advertise);;
          mret seq_
      end.

Definition set_initial_dcid (c : list Z) (token : option Z) (pid : option Z) (i : t) : t :=
  set_dcids (D.clear_and_insert (mk_entry c 0 token pid) (dcids i))
    (set_zero_dcid (zlen c =? 0) i).

(** The loop over the drained entries; the first refused one ends it, and the
    rest of the drained range is dropped with the iterator. *)
Fixpoint retire_drained (l : list ConnectionIdEntry) (out : list (Z * Z)) (retired : CidSet) :
    option Error * list (Z * Z) * CidSet :=
  match l with
  | [] => (None, out, retired)
  | e :: l =>
      let out := match path_id e with Some pid => out ++ [(seq e, pid)] | None => out end in
      match S.insert (seq e) retired with
      | (Ok _, retired) => retire_drained l out retired
      | (Err err, retired) => (Some err, out, retired)
      | (Panic, retired) => (None, out, retired)
      end
  end.

(** The final part of [new_dcid]: retire what the peer asked for, then insert
    the new entry; the error of the retire queue comes last. *)
Definition retire_for `{StdOrders} (new_entry : ConnectionIdEntry) (retire_prior_to_ : Z) :
    M (t * list (Z * Z)) Error (option Error) :=
  '(i, out) ← get;
  if largest_peer_retire_prior_to i <? retire_prior_to_ then
    if seq new_entry <? retire_prior_to_ then fail OutOfIdentifiers
    else
      let l := D.inner (dcids i) in
      let index := partition_point ((λ e, seq e <? retire_prior_to_) <$> l) in
      let '(err, out, retired) := retire_drained (take index l) out (retire_dcid_seqs i) in
      put (set_largest_peer_retire retire_prior_to_
             (set_retire_dcid_seqs retired
               (set_dcids (D.mk (drop index l) (D.capacity (dcids i))) i)), out);;
      mret err
  else mret None.

Definition insert_last (new_entry : ConnectionIdEntry) (err : option Error) :
    M (t * list (Z * Z)) Error unit :=
  zoom (dcids ∘ fst) (λ d s, (set_dcids d s.1, s.2)) (D.insert new_entry);;
  match err with Some e => fail e | None => mret () end.

Definition store_dcid `{StdOrders} (new_entry : ConnectionIdEntry) (retire_prior_to_ : Z) :
    M (t * list (Z * Z)) Error unit :=
  err ← retire_for new_entry retire_prior_to_;
  insert_last new_entry err.

(** The state of [new_dcid] includes the out parameter [retired_path_ids]. *)
Definition new_dcid `{StdOrders} (c : list Z) (seq_ token retire_prior_to_ : Z) :
    M (t * list (Z * Z)) Error unit :=
  '(i, _) ← get;
  if is_zero_length_dcid i then fail InvalidState
  else
    match List.find (λ e, bool_decide (cid e = c) || (seq e =? seq_)) (D.inner (dcids i)) with
    | Some e =>
        if negb (bool_decide (cid e = c)) || negb (seq e =? seq_)
           || negb (bool_decide (reset_token e = Some token))
        then fail InvalidFrame
        else mret ()
    | None =>
        if seq_ <? retire_prior_to_ then fail InvalidFrame
        else if seq_ <? largest_peer_retire_prior_to i then
          zoom fst (λ i s, (i, snd s)) (mark_retire_dcid_seq seq_ true)
        else
          (if largest_destination_seq i <? seq_ then
             modify (λ s, (set_largest_dest seq_ s.1, s.2)) else mret ());;
          store_dcid (mk_entry c seq_ (Some token) None) retire_prior_to_
    end.

Definition retire_scid (seq_ : Z) (pkt_dcid : list Z) : M t Error (option Z) :=
  i ← get;
  if next_scid_seq i <=? seq_ then fail InvalidState
  else
    r ← zoom scids set_scids (D.remove seq_);
    match r with
    | Some e =>
        if bool_decide (cid e = pkt_dcid) then fail InvalidState
        else
          modify (λ i, set_retired_scids (retired_scids i ++ [cid e]) i);;
          lowest ← reads lowest_usable_scid_seq;
          modify (set_retire_prior_to lowest);;
          mret (path_id e)
    | None => mret None
    end.

Definition retire_dcid (seq_ : Z) : M t Error (option Z) :=
  i ← get;
  if is_zero_length_dcid i then fail InvalidState
  else
    r ← zoom dcids set_dcids (D.remove seq_);
    e ← lift (ok_or r InvalidState);
    mark_retire_dcid_seq seq_ true;;
    mret (path_id e).

Definition scids_iter (i : t) : list (list Z) := cid <$> D.inner (scids i).

Definition set_path (pid : Z) (e : ConnectionIdEntry) : ConnectionIdEntry :=
  mk_entry (cid e) (seq e) (reset_token e) (Some pid).

Definition link_scid_to_path_id (s pid : Z) : M t Error unit :=
  i ← get;
  match D.get s (scids i) with
  | None => fail InvalidState
  | Some _ => put (set_scids (D.mk (D.update_first s (set_path pid) (D.inner (scids i))) (D.capacity (scids i))) i)
  end.

Definition link_dcid_to_path_id (s pid : Z) : M t Error unit :=
  i ← get;
  match D.get s (dcids i) with
  | None => fail InvalidState
  | Some _ => put (set_dcids (D.mk (D.update_first s (set_path pid) (D.inner (dcids i))) (D.capacity (dcids i))) i)
  end.

Definition find_scid_seq (scid : list Z) (i : t) : option (Z * option Z) :=
  (λ e, (seq e, path_id e)) <$> List.find (λ e, bool_decide (cid e = scid)) (D.inner (scids i)).

Definition zero_length_scid (i : t) : bool := is_zero_length_scid i.
Definition zero_length_dcid (i : t) : bool := is_zero_length_dcid i.

Definition available_scids (i : t) : Z := zlen (List.filter no_path (D.inner (scids i))).
Definition available_dcids (i : t) : Z :=
  if zero_length_dcid i then 0 else zlen (List.filter no_path (D.inner (dcids i))).

Definition oldest_scid (i : t) : result Error ConnectionIdEntry := D.get_oldest (scids i).
Definition oldest_dcid (i : t) : result Error ConnectionIdEntry := D.get_oldest (dcids i).

Definition next_advertise_new_scid_seq (i : t) : option Z := head (advertise_new_scid_seqs i).
Definition next_retire_dcid_seq `{StdOrders} (i : t) : option Z := S.front (retire_dcid_seqs i).
Definition has_new_scids (i : t) : bool := negb (zlen (advertise_new_scid_seqs i) =? 0).
Definition has_retire_dcids (i : t) : bool := negb (S.is_empty (retire_dcid_seqs i)).

Definition get_new_connection_id_frame_for `{NetCoding} (seq_num : Z) (i : t) : result Error Frame.t :=
  e ← ok_or (D.get seq_num (scids i)) InvalidState;
  token ← ok_or (reset_token e) InvalidState;
  Ok (Frame.NewConnectionId seq_num (retire_prior_to i) (cid e) (be_bytes 16 token)).

Definition active_source_cids (i : t) : Z := D.len (scids i).
Definition retired_source_cids (i : t) : Z := zlen (retired_scids i).

Definition pop_retired_scid (i : t) : option (list Z) * t :=
  match retired_scids i with
  | [] => (None, i)
  | c :: l => (Some c, set_retired_scids l i)
  end.
End Ids.

(** ** The containers *)

Section containers.
Import BoundedNonEmptyConnectionIdVecDeque.
Implicit Types (l : list ConnectionIdEntry) (d : t).

(** Never empty, within capacity, one entry per sequence number. *)
Record deque_wf d : Prop := {
  dw_nonempty : inner d ≠ [];
  dw_capacity : zlen (inner d) <= capacity d;
  dw_seqs : NoDup (seq <$> inner d)
}.

Lemma find_seq_none s l : List.find (λ e, seq e =? s) l = None ↔ s ∉ seq <$> l.
Proof.
  split.
  - intros Hf Hin. apply list_elem_of_fmap in Hin as (e & -> & He).
    pose proof (List.find_none _ _ Hf e (proj1 (list_elem_of_In _ _) He)) as Hn.
    cbv beta in Hn. by rewrite Z.eqb_refl in Hn.
  - intros Hn. destruct (List.find _ l) as [e|] eqn:Hf; [|done]. exfalso. apply Hn.
    apply List.find_some in Hf as [He Hs%Z.eqb_eq]. subst s.
    by apply list_elem_of_fmap_2, list_elem_of_In.
Qed.

Lemma update_first_seqs s f l :
  (∀ e, seq e = s → seq (f e) = s) → seq <$> update_first s f l = seq <$> l.
Proof.
  intros Hf. induction l as [|e l IH]; [done|]. cbn [update_first].
  destruct (Z.eqb_spec (seq e) s) as [E|]; cbn; [by rewrite Hf, E|by rewrite IH].
Qed.

Lemma update_first_length s f l : zlen (update_first s f l) = zlen l.
Proof.
  induction l as [|e l IH]; [done|]. cbn [update_first].
  destruct (seq e =? s); rewrite !zlen_cons; [done|by rewrite IH].
Qed.

Lemma update_first_Forall (P : ConnectionIdEntry → Prop) s f l :
  (∀ e, P e → P (f e)) → Forall P l → Forall P (update_first s f l).
Proof.
  intros Hf. induction 1 as [|e l He Hl IH]; [constructor|]. cbn [update_first].
  destruct (seq e =? s); constructor; auto.
Qed.

Lemma update_first_cids s f l :
  (∀ e, cid (f e) = cid e) → cid <$> update_first s f l = cid <$> l.
Proof.
  intros Hf. induction l as [|e l IH]; [done|]. cbn [update_first].
  destruct (seq e =? s); cbn; [by rewrite Hf|by rewrite IH].
Qed.

Lemma remove_first_spec s l : ∀ r l',
  remove_first s l = (r, l') →
  sublist l' l ∧ match r with
                 | Some e => seq e = s ∧ e ∈ l ∧ zlen l' = zlen l - 1
                 | None => l' = l ∧ s ∉ seq <$> l
                 end.
Proof.
  induction l as [|e l IH]; intros r l' Hr; cbn [remove_first] in Hr; simplify_eq/=.
  { split; [constructor|]. split; [done|apply not_elem_of_nil]. }
  destruct (Z.eqb_spec (seq e) s) as [E|E]; simplify_eq/=.
  - split; [by constructor|]. split; [done|]. split; [by left|]. rewrite zlen_cons. lia.
  - destruct (remove_first s l) as [r0 l0] eqn:Hl. simplify_eq/=.
    destruct (IH _ _ eq_refl) as [Hsub Hr]. split; [by constructor|]. destruct r as [x|].
    + destruct Hr as (? & ? & ?). split; [done|]. split; [by right|]. rewrite !zlen_cons. lia.
    + destruct Hr as [-> Hn]. split; [done|]. rewrite not_elem_of_cons. by split; [apply not_eq_sym|].
Qed.

(** Removing entries keeps what holds of all of them and their distinctness. *)
Lemma sublist_Forall_entries (P : ConnectionIdEntry → Prop) l l' : sublist l' l → Forall P l → Forall P l'.
Proof.
  intros Hs Hl. apply Forall_forall. intros e He. rewrite Forall_forall in Hl.
  apply Hl. by eapply elem_of_submseteq; [|by apply sublist_submseteq].
Qed.
Lemma sublist_NoDup_fmap {A} (f : ConnectionIdEntry → A) l l' :
  sublist l' l → NoDup (f <$> l) → NoDup (f <$> l').
Proof. intros Hs Hl. eapply sublist_NoDup; [done|]. by apply fmap_sublist. Qed.

Lemma NoDup_fmap_snoc {A} (f : ConnectionIdEntry → A) e l :
  NoDup (f <$> l) → f e ∉ f <$> l → NoDup (f <$> l ++ [e]).
Proof.
  intros Hl He. rewrite fmap_app. apply NoDup_app. split; [done|].
  split; [|apply NoDup_singleton]. by intros x Hx ->%list_elem_of_singleton.
Qed.

Lemma NoDup_fmap_cons {A} (f : ConnectionIdEntry → A) e l :
  NoDup (f <$> e :: l) → (f e ∉ f <$> l) ∧ NoDup (f <$> l).
Proof. intros Hl. change (NoDup (f e :: (f <$> l))) in Hl. by apply NoDup_cons. Qed.

Lemma NoDup_fmap_unique {A} (f : ConnectionIdEntry → A) l x y :
  NoDup (f <$> l) → x ∈ l → y ∈ l → f x = f y → x = y.
Proof.
  induction l as [|z l IH]; intros Hl Hx Hy E; [by apply not_elem_of_nil in Hx|].
  apply NoDup_fmap_cons in Hl as [Hz Hl].
  apply elem_of_cons in Hx as [->|Hx], Hy as [->|Hy]; [done|..|by apply IH]; exfalso; apply Hz.
  - rewrite E. by apply list_elem_of_fmap_2.
  - rewrite <- E. by apply list_elem_of_fmap_2.
Qed.

(** A sequence number above all others is new. *)
Lemma seqs_fresh n l : Forall (λ e, 0 <= seq e < n) l → n ∉ seq <$> l.
Proof.
  intros Hl (e & E & He)%list_elem_of_fmap. rewrite Forall_forall in Hl. specialize (Hl e He).
  simpl in Hl. lia.
Qed.

Lemma find_seq_last e l :
  Forall (λ x, 0 <= seq x < seq e) l → List.find (λ x, seq x =? seq e) (l ++ [e]) = Some e.
Proof.
  induction 1 as [|x l Hx Hl IH]; cbn; [by rewrite Z.eqb_refl|].
  by rewrite (proj2 (Z.eqb_neq _ _)) by lia.
Qed.

Lemma deque_resize c d : deque_wf d → deque_wf (resize c d).
Proof. intros [? ? ?]. unfold resize. destruct (Z.ltb_spec (capacity d) c); constructor; simpl; try done; lia. Qed.

Lemma deque_insert_fresh e d :
  zlen (inner d) < capacity d → NoDup (seq <$> inner d) → seq e ∉ seq <$> inner d →
  insert e d = (Ok (), mk (inner d ++ [e]) (capacity d)) ∧ deque_wf (mk (inner d ++ [e]) (capacity d)).
Proof.
  intros Hc Hs He. unfold insert. rewrite run_bind_get. unfold get.
  rewrite (proj2 (find_seq_none _ _) He), (proj2 (Z.leb_gt _ _)) by lia. split; [done|].
  constructor; simpl.
  - by destruct (inner d).
  - rewrite zlen_app. change (zlen [e]) with 1. lia.
  - by apply NoDup_fmap_snoc.
Qed.

Lemma deque_insert_full e d :
  capacity d <= zlen (inner d) → seq e ∉ seq <$> inner d → insert e d = (Err IdLimit, d).
Proof.
  intros Hc He. unfold insert. rewrite run_bind_get. unfold get.
  by rewrite (proj2 (find_seq_none _ _) He), (proj2 (Z.leb_le _ _)) by lia.
Qed.

Lemma deque_remove_run s d :
  deque_wf d →
  remove s d = (if zlen (inner d) <=? 1 then Err OutOfIdentifiers else Ok (remove_first s (inner d)).1,
                if zlen (inner d) <=? 1 then d else mk (remove_first s (inner d)).2 (capacity d)) ∧
  deque_wf (remove s d).2.
Proof.
  intros Hwf. unfold remove. rewrite run_bind_get. destruct (Z.leb_spec (zlen (inner d)) 1); [done|].
  destruct (remove_first s (inner d)) as [r l] eqn:E. split; [done|].
  destruct (remove_first_spec _ _ _ _ E) as [Hsub Hr]. destruct Hwf as [Hne Hc Hs].
  assert (zlen l <= zlen (inner d) ∧ 1 <= zlen l) as [Hle Hpos].
  { destruct r as [e|]; [|destruct Hr as [-> _]; lia]. destruct Hr as (_ & _ & Hl). lia. }
  constructor; simpl; [by intros ->|lia|by eapply sublist_NoDup_fmap].
Qed.
End containers.

(** ** The invariant *)

Section invariant.
Import Ids.
Implicit Types i : t.

Record ids_wf i : Prop := {
  iw_dcids : deque_wf (dcids i);
  iw_scids : deque_wf (scids i);
  iw_dcap : 2 <= D.capacity (dcids i);
  iw_limit : 2 <= source_conn_id_limit i ∧ 2 * source_conn_id_limit i - 1 <= D.capacity (scids i);
  iw_scid_seqs : Forall (λ e, 0 <= seq e < next_scid_seq i) (D.inner (scids i));
  iw_scid_cids : NoDup (cid <$> D.inner (scids i));
  iw_dcid_seqs : Forall (λ e, 0 <= seq e <= largest_destination_seq i) (D.inner (dcids i));
  iw_dcid_cids : NoDup (cid <$> D.inner (dcids i));
  iw_retire : Z.of_nat (size (S.inner (retire_dcid_seqs i))) <= S.capacity (retire_dcid_seqs i);
  iw_prior : 0 <= largest_peer_retire_prior_to i <= largest_destination_seq i
}.

(** The counters only grow, and the peer's limit on our ids is fixed. *)
Record grows i i' : Prop := {
  gr_next : next_scid_seq i <= next_scid_seq i';
  gr_peer : largest_peer_retire_prior_to i <= largest_peer_retire_prior_to i';
  gr_dest : largest_destination_seq i <= largest_destination_seq i';
  gr_prior : retire_prior_to i <= retire_prior_to i';
  gr_dcap : D.capacity (dcids i') = D.capacity (dcids i);
  gr_rcap : S.capacity (retire_dcid_seqs i') = S.capacity (retire_dcid_seqs i)
}.

(** A step that hands out at most [n] new source ids. *)
Record keeps_n (n : Z) i i' : Prop := {
  ks_wf : ids_wf i';
  ks_grows : grows i i';
  ks_next : next_scid_seq i' <= next_scid_seq i + n
}.
Abbreviation keeps := (keeps_n 0).

Lemma grows_refl i : grows i i.
Proof. constructor; lia. Qed.
Lemma grows_trans i1 i2 i3 : grows i1 i2 → grows i2 i3 → grows i1 i3.
Proof. intros [? ? ? ? ? ?] [? ? ? ? ? ?]. constructor; lia. Qed.
Lemma keeps_refl i : ids_wf i → keeps i i.
Proof. intros. split; [done|apply grows_refl|lia]. Qed.
Lemma keeps_trans n i1 i2 i3 : keeps i1 i2 → keeps_n n i2 i3 → keeps_n n i1 i3.
Proof. intros [? ? ?] [? ? ?]. split; [done|by eapply grows_trans|lia]. Qed.
Lemma keeps_n_then n i1 i2 i3 : keeps_n n i1 i2 → keeps i2 i3 → keeps_n n i1 i3.
Proof. intros [? ? ?] [? ? ?]. split; [done|by eapply grows_trans|lia]. Qed.
Lemma keeps_mono n i i' : 0 <= n → keeps i i' → keeps_n n i i'.
Proof. intros ? [? ? ?]. split; [done..|lia]. Qed.

Lemma min_of_spec l m : min_of l = Some m → m ∈ l ∧ Forall (λ x, m <= x) l.
Proof.
  revert m. induction l as [|x l IH]; intros m Hm; [done|]. cbn [min_of] in Hm.
  destruct (min_of l) as [m0|] eqn:E; simplify_eq/=.
  - destruct (IH _ eq_refl) as [Hin Hall]. split.
    + destruct (Z.min_spec x m0) as [[_ ->]|[_ ->]]; [by left|by right].
    + constructor; [lia|]. eapply Forall_impl; [exact Hall|]. intros y ?. simpl in *. lia.
  - assert (l = []) as ->. { destruct l as [|y l]; [done|]. cbn in E. by destruct (min_of l). }
    split; [by left|]. repeat constructor. lia.
Qed.

Lemma lowest_usable_spec i l :
  lowest_usable_scid_seq i = Ok l →
  retire_prior_to i <= l ∧ ∃ e, e ∈ D.inner (scids i) ∧ seq e = l.
Proof.
  unfold lowest_usable_scid_seq. destruct (min_of _) as [m|] eqn:E; simpl; [|done].
  intros [= ->]. destruct (min_of_spec _ _ E) as [Hin _].
  apply list_elem_of_fmap in Hin as (e & -> & He). apply list_elem_of_In, List.filter_In in He as [He Hp].
  split; [by apply Z.leb_le|]. exists e. by rewrite list_elem_of_In.
Qed.

Lemma seq_set_insert_size e s r s' :
  Z.of_nat (size (S.inner s)) <= S.capacity s → S.insert e s = (r, s') →
  r ≠ Panic ∧ S.capacity s' = S.capacity s ∧ Z.of_nat (size (S.inner s')) <= S.capacity s'.
Proof.
  intros Hs. unfold S.insert. rewrite run_bind_get.
  destruct (Z.leb_spec (S.capacity s) (Z.of_nat (size (S.inner s)))) as [|Hlt]; intros [= <- <-]; [done|].
  split; [done|]. split; [done|]. cbn [S.inner S.capacity].
  assert (size ({[e]} ∪ S.inner s) <= S (size (S.inner s)))%nat; [|lia].
  destruct (decide (e ∈ S.inner s)) as [He|He].
  - replace ({[e]} ∪ S.inner s) with (S.inner s) by set_solver. lia.
  - rewrite size_union by set_solver. rewrite size_singleton. lia.
Qed.

(** The wp rule of a method on a field. *)
Lemma mark_retire_keeps s b i :
  ids_wf i → wp (mark_retire_dcid_seq s b) (λ _, keeps i) (λ _, keeps i) i.
Proof.
  intros Hwf. unfold mark_retire_dcid_seq. destruct b.
  - apply wp_bind, wp_zoom. unfold wp.
    destruct (S.insert s (retire_dcid_seqs i)) as [r s'] eqn:E.
    destruct (seq_set_insert_size _ _ _ _ (iw_retire _ Hwf) E) as (Hr & Hc & Hs).
    assert (keeps i (set_retire_dcid_seqs s' i)) as Hk.
    { split; [|by constructor; simpl; lia|simpl; lia]. destruct Hwf. by constructor. }
    by destruct r.
  - apply wp_bind, wp_zoom. unfold S.remove, wp. rewrite run_bind_get. cbn.
    split; [|by constructor; simpl; lia|simpl; lia]. destruct Hwf as [? ? ? ? ? ? ? ? Hs ?]. constructor; try done.
    simpl in *. assert (size (S.inner (retire_dcid_seqs i) ∖ {[s]}) <= size (S.inner (retire_dcid_seqs i)))%nat; [|lia].
    apply subseteq_size. set_solver.
Qed.

Lemma link_path_wf s pid d :
  deque_wf d → deque_wf (D.mk (D.update_first s (set_path pid) (D.inner d)) (D.capacity d)).
Proof.
  intros [Hne Hc Hs]. constructor; simpl.
  - intros E. apply Hne. apply (f_equal zlen) in E. rewrite update_first_length in E. by apply zlen_0 in E.
  - by rewrite update_first_length.
  - by rewrite update_first_seqs.
Qed.

Lemma link_scid_keeps s pid i :
  ids_wf i → wp (link_scid_to_path_id s pid) (λ _, keeps i) (λ _, keeps i) i.
Proof.
  intros Hwf. unfold link_scid_to_path_id. apply wp_bind, wp_get.
  destruct (D.get s (scids i)); [|by apply keeps_refl].
  split; [|by constructor; simpl; lia|simpl; lia]. destruct Hwf. constructor; simpl; try done.
  - by apply link_path_wf.
  - by apply update_first_Forall.
  - by rewrite update_first_cids.
Qed.

Lemma link_dcid_keeps s pid i :
  ids_wf i → wp (link_dcid_to_path_id s pid) (λ _, keeps i) (λ _, keeps i) i.
Proof.
  intros Hwf. unfold link_dcid_to_path_id. apply wp_bind, wp_get.
  destruct (D.get s (dcids i)); [|by apply keeps_refl].
  split; [|by constructor; simpl; lia|simpl; lia]. destruct Hwf. constructor; simpl; try done.
  - by apply link_path_wf.
  - by apply update_first_Forall.
  - by rewrite update_first_cids.
Qed.

Lemma set_limit_keeps v i : ids_wf i → keeps i (set_source_conn_id_limit v i).
Proof.
  intros Hwf. unfold set_source_conn_id_limit. set (m := Z.min v (u64_max / 2)).
  destruct (Z.leb_spec 2 m); [|by apply keeps_refl].
  split; [|by constructor; simpl; lia|simpl; lia]. destruct Hwf as [? ? ? [? ?] ? ? ? ? ? ?].
  constructor; simpl; try done; try (by apply deque_resize); unfold D.resize;
    destruct (Z.ltb_spec (D.capacity (scids i)) (2 * m - 1)); simpl; try done; lia.
Qed.

Lemma set_initial_dcid_keeps c tok pid i : ids_wf i → keeps i (set_initial_dcid c tok pid i).
Proof.
  intros Hwf. split; [|by constructor; simpl; lia|simpl; lia]. destruct Hwf. constructor; simpl; try done.
  - constructor; simpl; [done|change (zlen [mk_entry c 0 tok pid]) with 1; lia|apply NoDup_singleton].
  - repeat constructor; simpl; lia.
  - apply NoDup_singleton.
Qed.

(** Removing a source id. *)
Lemma remove_scid_keeps s i :
  ids_wf i →
  wp (zoom scids set_scids (D.remove s))
    (λ _ i', keeps i i' ∧ retire_prior_to i' = retire_prior_to i) (λ _, keeps i) i.
Proof.
  intros Hwf. apply wp_zoom. unfold wp. destruct (deque_remove_run s (scids i) (iw_scids _ Hwf)) as [-> Hd].
  destruct (Z.leb_spec (zlen (D.inner (scids i))) 1); cbn [fst snd] in *.
  - destruct i. by apply keeps_refl.
  - destruct (D.remove_first s (D.inner (scids i))) as [r l] eqn:E.
    destruct (remove_first_spec _ _ _ _ E) as [Hsub _]. cbn [fst snd] in *.
    split; [|done]. split; [|by constructor; simpl; lia|simpl; lia]. destruct Hwf.
    constructor; simpl; try done.
    + by eapply sublist_Forall_entries.
    + by eapply sublist_NoDup_fmap.
Qed.

Lemma retire_scid_keeps s pkt i :
  ids_wf i → wp (retire_scid s pkt) (λ _, keeps i) (λ _, keeps i) i.
Proof.
  intros Hwf. unfold retire_scid. apply wp_bind, wp_get.
  destruct (next_scid_seq i <=? s); [by apply keeps_refl|].
  apply wp_bind. eapply wp_mono; [by apply remove_scid_keeps| |done].
  intros r i1 [Hk Hp]. destruct r as [e|]; [|done]. case_bool_decide; [done|].
  apply wp_bind, wp_modify, wp_bind. unfold wp at 1, reads.
  set (i2 := set_retired_scids _ i1).
  assert (keeps i i2) as Hk2.
  { eapply keeps_trans; [exact Hk|]. pose proof (ks_wf _ _ _ Hk) as Hw1.
    split; [|by constructor; simpl; lia|simpl; lia]. destruct Hw1. by constructor. }
  destruct (lowest_usable_scid_seq i2) as [l|er|] eqn:E; [|done|].
  - apply wp_bind, wp_modify, wp_ret. destruct (lowest_usable_spec _ _ E) as [Hl _].
    eapply keeps_trans; [exact Hk2|]. pose proof (ks_wf _ _ _ Hk2) as Hw2.
    split; [|by constructor; simpl in *; lia|simpl; lia]. destruct Hw2. by constructor.
  - unfold lowest_usable_scid_seq in E. by destruct (min_of _).
Qed.

Lemma retire_dcid_keeps s i :
  ids_wf i → wp (retire_dcid s) (λ _, keeps i) (λ _, keeps i) i.
Proof.
  intros Hwf. unfold retire_dcid. apply wp_bind, wp_get.
  destruct (is_zero_length_dcid i); [by apply keeps_refl|].
  apply wp_bind, wp_zoom. unfold wp at 1.
  destruct (deque_remove_run s (dcids i) (iw_dcids _ Hwf)) as [-> Hd].
  destruct (Z.leb_spec (zlen (D.inner (dcids i))) 1); cbn [fst snd] in *.
  { destruct i. by apply keeps_refl. }
  destruct (D.remove_first s (D.inner (dcids i))) as [r l] eqn:E.
  destruct (remove_first_spec _ _ _ _ E) as [Hsub _]. cbn [fst snd] in *.
  set (i1 := set_dcids _ i).
  assert (keeps i i1) as Hk.
  { split; [|by constructor; simpl; lia|simpl; lia]. destruct Hwf. constructor; simpl; try done.
    + by eapply sublist_Forall_entries.
    + by eapply sublist_NoDup_fmap. }
  apply wp_bind. destruct r as [e|]; [|done]. eapply wp_lift; [done|].
  apply wp_bind. eapply wp_mono; [apply mark_retire_keeps, Hk|..].
  - intros ? i2 Hk2. cbv beta in Hk2. by eapply keeps_trans.
  - intros ? i2 Hk2. cbv beta in Hk2. by eapply keeps_trans.
Qed.

Lemma advertise_keeps s b i : ids_wf i → keeps i (mark_advertise_new_scid_seq s b i).
Proof.
  intros Hwf. unfold mark_advertise_new_scid_seq.
  destruct b; (split; [|by constructor; simpl; lia|simpl; lia]); destruct Hwf; by constructor.
Qed.

Lemma pop_keeps i : ids_wf i → keeps i (pop_retired_scid i).2.
Proof.
  intros Hwf. unfold pop_retired_scid. destruct (retired_scids i); [by apply keeps_refl|].
  split; [|by constructor; simpl; lia|simpl; lia]. destruct Hwf. by constructor.
Qed.

(** The final part of [new_scid]: a fresh id with the next sequence number. *)
Lemma insert_scid_wf e i :
  ids_wf i → zlen (D.inner (scids i)) < D.capacity (scids i) →
  seq e = next_scid_seq i → cid e ∉ cid <$> D.inner (scids i) →
  ids_wf (set_next_scid (next_scid_seq i + 1)
            (set_scids (D.mk (D.inner (scids i) ++ [e]) (D.capacity (scids i))) i)).
Proof.
  intros Hwf Hcap He Hc. destruct Hwf as [? [Hne Hl Hnd] ? ? Hseqs ? ? ? ? ?].
  assert (0 <= next_scid_seq i) as Hpos.
  { destruct (D.inner (scids i)) as [|e0 l]; [done|]. inversion Hseqs. lia. }
  constructor; simpl; try done.
  - apply deque_insert_fresh; [done..|]. rewrite He. apply seqs_fresh, Hseqs.
  - apply Forall_app. split; [forall_lia|]. apply Forall_singleton. lia.
  - by apply NoDup_fmap_snoc.
Qed.

Lemma add_scid_keeps c tok adv pid i :
  ids_wf i → next_scid_seq i < u64_max → c ∉ cid <$> D.inner (scids i) →
  wp (zoom scids set_scids (D.insert (mk_entry c (next_scid_seq i) tok pid));;
      n ← lift (uadd (next_scid_seq i) 1);
      modify (set_next_scid n);;
      modify (mark_advertise_new_scid_seq (next_scid_seq i) adv);;
      mret (next_scid_seq i)) (λ _, keeps_n 1 i) (λ _, keeps_n 1 i) i.
Proof.
  intros Hwf Hmax Hc. pose proof Hwf as [_ Hs _ _ Hseqs _ _ _ _ _].
  set (e := mk_entry c (next_scid_seq i) tok pid).
  assert (seq e ∉ seq <$> D.inner (scids i)) as Hfresh by by apply seqs_fresh.
  apply wp_bind, wp_zoom. unfold wp at 1.
  destruct (Z.lt_ge_cases (zlen (D.inner (scids i))) (D.capacity (scids i))) as [Hcap|Hcap].
  - destruct (deque_insert_fresh e (scids i) Hcap (dw_seqs _ Hs) Hfresh) as [-> _].
    apply wp_bind. eapply wp_lift; [apply uadd_ok; lia|].
    apply wp_bind, wp_modify, wp_bind, wp_modify, wp_ret.
    pose proof (insert_scid_wf e i Hwf Hcap eq_refl Hc) as Hw.
    eapply keeps_n_then; [|by apply advertise_keeps].
    by split; [|constructor; simpl; lia|simpl; lia].
  - rewrite (deque_insert_full e (scids i) Hcap Hfresh). destruct i. by apply keeps_mono, keeps_refl.
Qed.

(** A counter that still has room, for [lowest_usable + 1]. *)
Lemma scid_in_room e i : ids_wf i → e ∈ D.inner (scids i) → 0 <= seq e < next_scid_seq i.
Proof. intros Hwf He. pose proof (iw_scid_seqs _ Hwf) as Hs. rewrite Forall_forall in Hs. by apply Hs. Qed.

Lemma new_scid_keeps c tok adv pid ret i :
  ids_wf i → next_scid_seq i < u64_max →
  wp (new_scid c tok adv pid ret) (λ _, keeps_n 1 i) (λ _, keeps_n 1 i) i.
Proof.
  intros Hwf Hmax. unfold new_scid. apply wp_bind, wp_get.
  destruct (is_zero_length_scid i); [by apply keeps_mono, keeps_refl|].
  apply wp_bind, (wp_mono _ (λ _ i', keeps i i' ∧ next_scid_seq i' = next_scid_seq i ∧
                                   scids i' = scids i) _ (λ _, keeps i)).
  - destruct (_ <=? _); [|by split; [apply keeps_refl|]].
    destruct ret; simpl; [|by apply keeps_refl].
    apply wp_bind. unfold wp at 1, reads.
    destruct (lowest_usable_scid_seq i) as [l| |] eqn:E;
      [|by apply keeps_refl|unfold lowest_usable_scid_seq in E; by destruct (min_of _)].
    destruct (lowest_usable_spec _ _ E) as (Hl & e & He & <-).
    pose proof (scid_in_room _ _ Hwf He).
    apply wp_bind. eapply wp_lift; [apply uadd_ok; lia|]. apply wp_modify. split; [|done].
    split; [|by constructor; simpl; lia|simpl; lia]. destruct Hwf. by constructor.
  - intros ? i1 (Hk & Hn & Hsc). pose proof (ks_wf _ _ _ Hk) as Hw1. cbv beta.
    apply wp_bind, wp_gets. destruct (_ && _); [by apply keeps_mono|].
    apply wp_bind, wp_gets. destruct (List.find _ _) as [e|] eqn:Hf.
    { case_bool_decide; by apply keeps_mono. }
    eapply wp_mono; [apply add_scid_keeps; [done|lia|]|..].
    + intros (e & -> & He)%list_elem_of_fmap.
      pose proof (List.find_none _ _ Hf e (proj1 (list_elem_of_In _ _) He)) as Hc. cbv beta in Hc.
      by rewrite bool_decide_true in Hc.
    + intros ? i2 Hk2. by eapply keeps_trans.
    + intros ? i2 Hk2. by eapply keeps_trans.
  - intros ? i1 Hk. by apply keeps_mono.
Qed.

Lemma retire_drained_size l : ∀ out r err out' r',
  Z.of_nat (size (S.inner r)) <= S.capacity r → retire_drained l out r = (err, out', r') →
  Z.of_nat (size (S.inner r')) <= S.capacity r' ∧ S.capacity r' = S.capacity r.
Proof.
  induction l as [|e l IH]; intros out r err out' r' Hs Hr; cbn [retire_drained] in Hr; [by simplify_eq|].
  destruct (S.insert (seq e) r) as [x r1] eqn:E.
  destruct (seq_set_insert_size _ _ _ _ Hs E) as (Hx & Hc & Hs1).
  destruct x; simplify_eq/=; [|done..]. destruct (IH _ _ _ _ _ Hs1 Hr) as [? ?]. split; [done|lia].
Qed.

Lemma find_new_dcid c s l :
  List.find (λ e, bool_decide (cid e = c) || (seq e =? s)) l = None → c ∉ cid <$> l ∧ s ∉ seq <$> l.
Proof.
  intros Hf. split; intros (e & -> & He)%list_elem_of_fmap;
    pose proof (List.find_none _ _ Hf e (proj1 (list_elem_of_In _ _) He)) as Hc; cbv beta in Hc.
  - by rewrite bool_decide_true in Hc.
  - by rewrite Z.eqb_refl, orb_true_r in Hc.
Qed.

(** Queueing the new id after [k] of the old ones are gone. *)
Lemma insert_dcid_wf `{StdOrders} e k r rpt i :
  ids_wf i → cid e ∉ cid <$> D.inner (dcids i) → seq e ∉ seq <$> D.inner (dcids i) →
  0 <= seq e <= largest_destination_seq i → rpt <= largest_destination_seq i →
  largest_peer_retire_prior_to i <= rpt →
  Z.of_nat (size (S.inner r)) <= S.capacity r → S.capacity r = S.capacity (retire_dcid_seqs i) →
  let i1 := set_largest_peer_retire rpt (set_retire_dcid_seqs r
              (set_dcids (D.mk (drop k (D.inner (dcids i))) (D.capacity (dcids i))) i)) in
  wp (zoom dcids set_dcids (D.insert e)) (λ _, keeps i) (λ _, keeps i) i1.
Proof.
  intros Hwf Hc Hs Hseq Hrpt Hle Hr Hrc i1. apply wp_zoom. unfold wp.
  set (l := drop k (D.inner (dcids i))). assert (sublist l (D.inner (dcids i))) as Hsub by apply sublist_drop.
  assert (seq e ∉ seq <$> l ∧ cid e ∉ cid <$> l) as [Hs' Hc'].
  { split; [contradict Hs|contradict Hc]; (eapply elem_of_submseteq; [done|]);
      by apply sublist_submseteq, fmap_sublist. }
  pose proof Hwf as [[Hne Hcap Hnd] _ Hd _ _ _ Hds Hdc _ _].
  assert (zlen l <= zlen (D.inner (dcids i))) as Hlen.
  { unfold zlen. apply inj_le. by apply sublist_length. }
  destruct (Z.lt_ge_cases (zlen l) (D.capacity (dcids i))) as [Hl|Hl].
  - destruct (deque_insert_fresh e (dcids i1) Hl (sublist_NoDup_fmap _ _ _ Hsub Hnd) Hs') as [-> Hw].
    subst i1. split; [|by constructor; simpl; lia|simpl; lia]. destruct Hwf. constructor; simpl; try done; [..|lia].
    + apply Forall_app. split; [by eapply sublist_Forall_entries|]. by apply Forall_singleton.
    + apply NoDup_fmap_snoc; [by eapply sublist_NoDup_fmap|done].
  - rewrite (deque_insert_full e (dcids i1) Hl Hs').
    subst i1. split; [|by constructor; simpl; lia|simpl; lia]. destruct Hwf. constructor; simpl; try done; [..|lia].
    + fold l. constructor; simpl; [|lia|by eapply sublist_NoDup_fmap].
      intros El. simpl in Hl. rewrite El in Hl. change (zlen []) with 0 in Hl. lia.
    + by eapply sublist_Forall_entries.
    + by eapply sublist_NoDup_fmap.
Qed.

Lemma raise_dest_keeps s i :
  ids_wf i → largest_destination_seq i <= s → keeps i (set_largest_dest s i).
Proof.
  intros Hwf Hs. split; [|by constructor; simpl; lia|simpl; lia].
  destruct Hwf. constructor; simpl; try done; [|lia]. forall_lia.
Qed.

Lemma wp_zoom_fst (m : M CidDeque Error unit) (Q : t → Prop) i (out : list (Z * Z)) :
  wp (zoom dcids set_dcids m) (λ _, Q) (λ _, Q) i →
  wp (zoom (dcids ∘ fst) (λ d s, (set_dcids d s.1, s.2)) m) (λ _ st, Q st.1) (λ _ st, Q st.1) (i, out).
Proof. unfold wp, zoom. simpl. by destruct (m (dcids i)) as [[]]. Qed.

(** The branch that stores the new id, from a state where it is known to be new. *)
Lemma store_dcid_keeps `{StdOrders} e rpt i out :
  ids_wf i → cid e ∉ cid <$> D.inner (dcids i) → seq e ∉ seq <$> D.inner (dcids i) →
  0 <= seq e <= largest_destination_seq i → rpt <= seq e →
  wp (store_dcid e rpt)
    (λ _ st, keeps i st.1) (λ _ st, keeps i st.1) (i, out).
Proof.
  intros Hwf Hc Hs Hseq Hrpt.
  assert (∀ (err : option Error) i' out', wp (zoom dcids set_dcids (D.insert e)) (λ _, keeps i) (λ _, keeps i) i' →
    wp (insert_last e err) (λ _ st, keeps i st.1) (λ _ st, keeps i st.1) (i', out')) as Htail.
  { intros err i' out' Hi. apply wp_bind. eapply wp_mono; [by apply (wp_zoom_fst _ (keeps i))| |done].
    intros ? st Hst. by destruct err. }
  unfold store_dcid. apply wp_bind. unfold retire_for. apply wp_bind, wp_get. cbv beta iota zeta.
  destruct (Z.ltb_spec (largest_peer_retire_prior_to i) rpt).
  - rewrite (proj2 (Z.ltb_ge (seq e) rpt)) by lia.
    destruct (retire_drained _ out (retire_dcid_seqs i)) as [[err out'] r] eqn:Hr.
    destruct (retire_drained_size _ _ _ _ _ _ (iw_retire _ Hwf) Hr) as [Hsz Hrc].
    apply wp_ret. apply Htail. by apply insert_dcid_wf; try lia.
  - apply wp_ret, Htail.
    pose proof (insert_dcid_wf e 0 (retire_dcid_seqs i) (largest_peer_retire_prior_to i) i Hwf Hc Hs) as Hw.
    assert (set_largest_peer_retire (largest_peer_retire_prior_to i)
      (set_retire_dcid_seqs (retire_dcid_seqs i) (set_dcids (D.mk (drop 0 (D.inner (dcids i))) (D.capacity (dcids i))) i))
      = i) as Ei by by destruct i as [[]].
    cbv zeta in Hw. rewrite Ei in Hw. destruct Hwf. apply Hw; lia.
Qed.

Lemma new_dcid_keeps `{StdOrders} c s tok rpt i out :
  ids_wf i → 0 <= s →
  wp (new_dcid c s tok rpt) (λ _ st, keeps i st.1) (λ _ st, keeps i st.1) (i, out).
Proof.
  intros Hwf Hs. unfold new_dcid. apply wp_bind, wp_get. cbv beta iota.
  destruct (is_zero_length_dcid i); [by apply keeps_refl|].
  destruct (List.find _ _) as [e|] eqn:Hf.
  { destruct (_ || _); by apply keeps_refl. }
  apply find_new_dcid in Hf as [Hc Hq].
  destruct (Z.ltb_spec s rpt); [by apply keeps_refl|].
  destruct (s <? largest_peer_retire_prior_to i).
  { apply wp_zoom. cbn [fst snd]. apply mark_retire_keeps, Hwf. }
  apply wp_bind. set (i1 := set_largest_dest (Z.max (largest_destination_seq i) s) i).
  assert (keeps i i1) as Hk by (apply raise_dest_keeps; [done|lia]).
  apply (wp_mono _ (λ _ st, st = (i1, out)) _ (λ _ _, False)); [..|done].
  - zcase; [apply wp_modify|apply wp_ret]; unfold i1; simpl.
    + by rewrite Z.max_r by lia.
    + rewrite Z.max_l by lia. by destruct i.
  - intros ? ? ->. eapply wp_mono; [apply (store_dcid_keeps (mk_entry c s (Some tok) None) rpt i1 out)|..];
      simpl; try done; [by apply ks_wf in Hk|lia|..];
      intros ? st Hst; by eapply keeps_trans.
Qed.
End invariant.

(** ** Runs *)

Section runs.
Import Ids.
Context `{StdOrders}.

Inductive op :=
| SetSourceConnIdLimit (v : Z)
| NewScid (c : list Z) (token : option Z) (advertise : bool) (pid : option Z) (retire_if_needed : bool)
| SetInitialDcid (c : list Z) (token pid : option Z)
| NewDcid (c : list Z) (seq token retire_prior_to : Z)
| RetireScid (seq : Z) (pkt_dcid : list Z)
| RetireDcid (seq : Z)
| LinkScid (seq pid : Z)
| LinkDcid (seq pid : Z)
| MarkAdvertise (seq : Z) (advertise : bool)
| MarkRetire (seq : Z) (retire : bool)
| PopRetired.

Definition discard {S E A} (m : M S E A) : M S E unit := m;; mret ().

Definition apply_op (o : op) : M t Error unit :=
  match o with
  | SetSourceConnIdLimit v => modify (set_source_conn_id_limit v)
  | NewScid c token adv pid ret => discard (new_scid c token adv pid ret)
  | SetInitialDcid c token pid => modify (set_initial_dcid c token pid)
  | NewDcid c s token rpt => λ i, let '(r, (i', _)) := new_dcid c s token rpt (i, []) in (r, i')
  | RetireScid s pkt => discard (retire_scid s pkt)
  | RetireDcid s => discard (retire_dcid s)
  | LinkScid s pid => link_scid_to_path_id s pid
  | LinkDcid s pid => link_dcid_to_path_id s pid
  | MarkAdvertise s b => modify (mark_advertise_new_scid_seq s b)
  | MarkRetire s b => mark_retire_dcid_seq s b
  | PopRetired => modify (λ i, (pop_retired_scid i).2)
  end.

(** Sequence numbers come from frames: they are unsigned. *)
Definition op_ok (o : op) : Prop :=
  match o with NewDcid _ s _ _ => 0 <= s | _ => True end.

(** The states after [n] operations on fresh identifiers, failed ones included. *)
Inductive reachable (limit : Z) : nat → t → Prop :=
| reach_new scid pid token i : new limit scid pid token = Ok i → reachable limit 0 i
| reach_op n i o r i' :
    reachable limit n i → op_ok o → apply_op o i = (r, i') → reachable limit (S n) i'.

Lemma wp_discard {S E A} (m : M S E A) Q QE s :
  wp m (λ _, Q) QE s → wp (discard m) (λ _, Q) QE s.
Proof. intros Hm. by apply wp_bind. Qed.

Lemma op_keeps o i :
  ids_wf i → next_scid_seq i < u64_max → op_ok o →
  wp (apply_op o) (λ _, keeps_n 1 i) (λ _, keeps_n 1 i) i.
Proof.
  intros Hwf Hmax Ho.
  assert (∀ A (m : M t Error A), wp m (λ _, keeps_n 0 i) (λ _, keeps_n 0 i) i →
            wp m (λ _, keeps_n 1 i) (λ _, keeps_n 1 i) i) as Hmono.
  { intros A m Hm. eapply wp_mono; [exact Hm|..]; intros ? ? ?; by apply keeps_mono. }
  destruct o; cbn [apply_op];
    try (apply wp_discard); try (by apply new_scid_keeps); apply Hmono.
  - by apply wp_modify, set_limit_keeps.
  - by apply wp_modify, set_initial_dcid_keeps.
  - match goal with |- context [new_dcid ?c ?s ?tok ?rpt] =>
      pose proof (new_dcid_keeps c s tok rpt i [] Hwf Ho) as Hd end.
    unfold wp in *. by destruct (new_dcid _ _ _ _ _) as [[] []].
  - by apply retire_scid_keeps.
  - by apply retire_dcid_keeps.
  - by apply link_scid_keeps.
  - by apply link_dcid_keeps.
  - by apply wp_modify, advertise_keeps.
  - by apply mark_retire_keeps.
  - by apply wp_modify, pop_keeps.
Qed.

Lemma ids_new_wf limit scid pid token i : new limit scid pid token = Ok i →
  ids_wf i ∧ next_scid_seq i = 1 ∧ D.capacity (dcids i) = Z.max 2 limit ∧ S.capacity (retire_dcid_seqs i) = 3 * Z.max 2 limit.
Proof.
  unfold new. assert ((if limit <? 2 then 2 else limit) = Z.max 2 limit) as -> by (zcase; lia). set (lim := Z.max 2 limit).
  assert (2 <= lim) as Hl by (unfold lim; lia). unfold umul, RETIRED_CONN_ID_LIMIT_MULTIPLIER, mbind, result_bind.
  destruct (lim * 3 <=? u64_max); [|done]. intros [= <-]. split; [|cbn; split_and!; lia].
  constructor; simpl; try lia; try apply NoDup_singleton; try (constructor; simpl; [done| |apply NoDup_singleton]).
  - change (zlen [mk_entry [] 0 None (Some pid)]) with 1. lia.
  - change (zlen [mk_entry scid 0 token (Some pid)]) with 1. lia.
  - repeat constructor; simpl; lia.
  - repeat constructor; simpl; lia.
  - change (Z.of_nat (size (∅ : gset Z)) <= lim * 3).
    rewrite size_empty. lia.
Qed.

(** Every limit that a varint can carry is accepted. *)
Lemma ids_new_ok limit scid pid token : limit < 2 ^ 62 → ∃ i, new limit scid pid token = Ok i.
Proof.
  intros Hl. change (2 ^ 62) with 4611686018427387904 in Hl. unfold new, RETIRED_CONN_ID_LIMIT_MULTIPLIER.
  rewrite umul_ok by (zcase; lia). by eexists.
Qed.

Lemma reachable_wf limit n i :
  reachable limit n i → Z.of_nat n < u64_max - 1 →
  ids_wf i ∧ next_scid_seq i <= 1 + Z.of_nat n ∧
  D.capacity (dcids i) = Z.max 2 limit ∧ S.capacity (retire_dcid_seqs i) = 3 * Z.max 2 limit.
Proof.
  induction 1 as [scid pid token i Hnew|n i o r i' Hr IH Ho Hi]; intros Hn.
  - destruct (ids_new_wf _ _ _ _ _ Hnew) as (? & -> & ? & ?). by split_and!.
  - destruct IH as (Hwf & Hnext & Hd & Hs); [lia|].
    pose proof (op_keeps o i Hwf ltac:(lia) Ho) as Hk. unfold wp in Hk. rewrite Hi in Hk.
    assert (keeps_n 1 i i') as [Hw [_ _ _ _ Hdc Hrc] Hnx] by by destruct r.
    split; [done|]. lia.
Qed.

(** C25. In every run of the connection-id bookkeeping, whatever the calls and
    the order in which they come and fail: no operation panics; there is
    always a source and a destination id (so [oldest_scid] and [oldest_dcid]
    return one); sequence numbers and ids are distinct; at most
    [max 2 limit] destination ids are active and at most three times as many
    wait for their RETIRE_CONNECTION_ID frame. *)
Theorem connection_ids_invariant limit n i o :
  reachable limit n i → Z.of_nat n < u64_max - 1 → op_ok o →
  (apply_op o i).1 ≠ Panic ∧
  oldest_scid i ≠ Panic ∧ oldest_dcid i ≠ Panic ∧
  NoDup (seq <$> D.inner (scids i)) ∧ NoDup (cid <$> D.inner (scids i)) ∧
  NoDup (seq <$> D.inner (dcids i)) ∧ NoDup (cid <$> D.inner (dcids i)) ∧
  Forall (λ e, seq e < next_scid_seq i) (D.inner (scids i)) ∧
  Forall (λ e, seq e <= largest_destination_seq i) (D.inner (dcids i)) ∧
  D.len (dcids i) <= Z.max 2 limit ∧
  Z.of_nat (size (S.inner (retire_dcid_seqs i))) <= 3 * Z.max 2 limit.
Proof.
  intros Hr Hn Ho. destruct (reachable_wf _ _ _ Hr Hn) as (Hwf & Hnext & Hd & Hs).
  pose proof (op_keeps o i Hwf ltac:(lia) Ho) as Hk.
  pose proof Hwf as [[Hne Hdl Hdq] [Hsne _ Hsq] _ _ Hss Hsc Hds Hdc Hre _].
  unfold oldest_scid, oldest_dcid, D.get_oldest, D.len. split_and!; try done; try lia.
  - unfold wp in Hk. by destruct (apply_op o i) as [[]].
  - by destruct (D.inner (scids i)).
  - by destruct (D.inner (dcids i)).
  - forall_lia.
  - forall_lia.
Qed.
End runs.

Lemma connection_ids_invariant_witness :
  match Ids.new 4 [9] 0 None with
  | Ok i => (apply_op (H := ToyOrders.orders) (NewDcid [1] 1 10 0) i).1 ≠ Panic ∧ Ids.D.len (Ids.dcids i) = 1
  | _ => False
  end.
Proof.
  destruct (Ids.new 4 [9] 0 None) as [i|e|] eqn:Hnew; [|discriminate Hnew..]. split; [|by vm_compute in Hnew; injection Hnew as <-].
  refine (proj1 (connection_ids_invariant (H := ToyOrders.orders) 4 0 i (NewDcid [1] 1 10 0) _ _ _)).
  - by eapply reach_new.
  - reflexivity.
  - simpl. lia.
Defined.

(** ** What the operations do *)

Section functional.
Import Ids.
Context `{StdOrders}.

Definition paths_of (l : list ConnectionIdEntry) : list (Z * Z) :=
  omap (λ e, (λ pid, (seq e, pid)) <$> path_id e) l.

Lemma seq_set_insert_ok e s :
  Z.of_nat (size (S.inner s)) < S.capacity s →
  S.insert e s = (Ok (bool_decide (e ∉ S.inner s)), S.mk ({[e]} ∪ S.inner s) (S.capacity s)).
Proof. intros Hs. unfold S.insert. rewrite run_bind_get. by rewrite (proj2 (Z.leb_gt _ _)) by lia. Qed.

Lemma retire_drained_ok l : ∀ out r,
  Z.of_nat (size (S.inner r)) + zlen l <= S.capacity r →
  retire_drained l out r =
    (None, out ++ paths_of l, S.mk (list_to_set (seq <$> l) ∪ S.inner r) (S.capacity r)).
Proof.
  induction l as [|e l IH]; intros out r Hr; cbn [retire_drained].
  - rewrite app_nil_r. simpl. rewrite union_empty_l_L. by destruct r.
  - rewrite zlen_cons in Hr. pose proof (zlen_nonneg l). rewrite seq_set_insert_ok by lia. rewrite IH; cbn [S.inner S.capacity].
    + rewrite (assoc_L (∪)), (comm_L (∪) (list_to_set _) {[seq e]}).
      f_equal. f_equal. unfold paths_of. cbn. destruct (path_id e); cbn; [|done]. by rewrite <- app_assoc.
    + assert (size ({[seq e]} ∪ S.inner r) <= S (size (S.inner r)))%nat; [|lia].
      pose proof (size_union_alt {[seq e]} (S.inner r)) as ->. rewrite size_singleton.
      assert (size (S.inner r ∖ {[seq e]}) <= size (S.inner r))%nat by (apply subseteq_size; set_solver). lia.
Qed.

Lemma partition_prefix rpt old kept :
  Forall (λ e, seq e < rpt) old → Forall (λ e, rpt <= seq e) kept →
  partition_point ((λ e, seq e <? rpt) <$> old ++ kept) = length old.
Proof.
  intros Ho Hk. rewrite fmap_app.
  assert ((λ e, seq e <? rpt) <$> old = replicate (length old) true) as ->.
  { induction Ho as [|e l He Hl IH]; [done|]. cbn. rewrite (proj2 (Z.ltb_lt _ _)) by done. by rewrite IH. }
  assert ((λ e, seq e <? rpt) <$> kept = replicate (length kept) false) as ->.
  { induction Hk as [|e l He Hl IH]; [done|]. cbn. rewrite (proj2 (Z.ltb_ge _ _)) by done. by rewrite IH. }
  apply partition_point_split.
Qed.

Lemma find_new_dcid_none c s l :
  c ∉ cid <$> l → s ∉ seq <$> l →
  List.find (λ e, bool_decide (cid e = c) || (seq e =? s)) l = None.
Proof.
  intros Hc Hs. destruct (List.find _ l) as [e|] eqn:Hf; [|done]. exfalso.
  apply List.find_some in Hf as [He%list_elem_of_In [E%bool_decide_eq_true|E%Z.eqb_eq]%orb_prop]; subst.
  - by apply Hc, list_elem_of_fmap_2.
  - by apply Hs, list_elem_of_fmap_2.
Qed.

(** C35. A NEW_CONNECTION_ID frame with a new id does what the protocol asks
    when the active ids are queued in the order of their sequence numbers: all
    ids below Retire Prior To leave, their sequence numbers are queued for
    RETIRE_CONNECTION_ID frames and the paths that used them are reported;
    the others stay and the new id joins them, without a path. *)
Theorem new_dcid_spec c s tok rpt i out old kept :
  ids_wf i → is_zero_length_dcid i = false →
  D.inner (dcids i) = old ++ kept →
  Forall (λ e, seq e < rpt) old → Forall (λ e, rpt <= seq e) kept →
  c ∉ cid <$> D.inner (dcids i) → s ∉ seq <$> D.inner (dcids i) →
  largest_peer_retire_prior_to i < rpt <= s →
  zlen kept < D.capacity (dcids i) →
  Z.of_nat (size (S.inner (retire_dcid_seqs i))) + zlen old <= S.capacity (retire_dcid_seqs i) →
  ∃ i', new_dcid c s tok rpt (i, out) = (Ok (), (i', out ++ paths_of old)) ∧
    D.inner (dcids i') = kept ++ [mk_entry c s (Some tok) None] ∧
    S.inner (retire_dcid_seqs i') = list_to_set (seq <$> old) ∪ S.inner (retire_dcid_seqs i) ∧
    largest_peer_retire_prior_to i' = rpt ∧
    largest_destination_seq i' = Z.max (largest_destination_seq i) s ∧
    scids i' = scids i.
Proof.
  intros Hwf Hz Hl Ho Hk Hc Hs Hrpt Hcap Hre.
  unfold new_dcid. rewrite run_bind_get. cbv beta iota. rewrite Hz, find_new_dcid_none by done.
  rewrite (proj2 (Z.ltb_ge s rpt)), (proj2 (Z.ltb_ge s (largest_peer_retire_prior_to i))) by lia.
  set (i1 := set_largest_dest (Z.max (largest_destination_seq i) s) i).
  assert ((if largest_destination_seq i <? s then modify (λ st, (set_largest_dest s st.1, st.2))
           else mret ()) (i, out) = (Ok () : result Error unit, (i1, out))) as Hm.
  { unfold i1. zcase; [rewrite Z.max_r by lia; done|rewrite Z.max_l by lia; by destruct i]. }
  rewrite (run_bind_ok _ _ _ _ _ Hm). unfold store_dcid, retire_for.
  rewrite run_bind_assoc, run_bind_get. cbv beta iota zeta.
  change (largest_peer_retire_prior_to i1) with (largest_peer_retire_prior_to i).
  rewrite (proj2 (Z.ltb_lt _ rpt)) by lia. cbn [seq].
  rewrite (proj2 (Z.ltb_ge s rpt)) by lia.
  change (dcids i1) with (dcids i). change (retire_dcid_seqs i1) with (retire_dcid_seqs i).
  rewrite Hl, partition_prefix, take_app_length, drop_app_length by done.
  rewrite retire_drained_ok by done. unfold insert_last, zoom, mbind, M_bind, put. cbn [compose fst].
  cbn [fst snd dcids set_dcids set_largest_peer_retire set_retire_dcid_seqs mret M_ret compose].
  set (d := D.mk kept _).
  assert (zlen kept <= zlen (D.inner (dcids i)) ∧ NoDup (seq <$> kept) ∧ s ∉ seq <$> kept) as (Hlen & Hnd & Hsk).
  { rewrite Hl in Hs |- *. pose proof (dw_seqs _ (iw_dcids _ Hwf)) as Hq. rewrite Hl in Hq.
    rewrite zlen_app. pose proof (zlen_nonneg old). rewrite fmap_app in Hq, Hs.
    apply NoDup_app in Hq as (_ & _ & Hq). split_and!; [lia|done|]. set_solver. }
  destruct (deque_insert_fresh (mk_entry c s (Some tok) None) d Hcap Hnd Hsk) as [-> _].
  eexists. split; [reflexivity|]. by simpl.
Qed.

(** A witness state: a fresh client whose first destination id is known. *)
Definition start (lim : Z) : t :=
  match new lim [9] 0 None with Ok i => set_initial_dcid [0] None (Some 0) i | _ => mk (D.new 2 (mk_entry [] 0 None None)) (D.new 3 (mk_entry [] 0 None None)) [] (S.new 6) [] 0 0 1 0 2 true false end.

Lemma start_wf lim : lim < 2 ^ 62 → ids_wf (start lim).
Proof.
  intros Hl. destruct (ids_new_ok lim [9] 0 None Hl) as [i Hnew]. unfold start. rewrite Hnew. apply set_initial_dcid_keeps. by eapply ids_new_wf.
Qed.

(** The unique entry of an id and of a sequence number. *)
Lemma find_stored c s l e :
  NoDup (seq <$> l) → NoDup (cid <$> l) → e ∈ l → cid e = c → seq e = s →
  List.find (λ e, bool_decide (cid e = c) || (seq e =? s)) l = Some e.
Proof.
  intros Hs Hc He Ec Es. induction l as [|x l IH]; [by apply not_elem_of_nil in He|]. cbn.
  apply NoDup_fmap_cons in Hs as [Hxs Hs]. apply NoDup_fmap_cons in Hc as [Hxc Hc]. apply elem_of_cons in He as [->|He].
  - by rewrite bool_decide_true.
  - rewrite bool_decide_false, (proj2 (Z.eqb_neq _ _)); [by apply IH|..]; intros E.
    + apply Hxs. rewrite E, <- Es. by apply list_elem_of_fmap_2.
    + apply Hxc. rewrite E, <- Ec. by apply list_elem_of_fmap_2.
Qed.

Definition stored c s tok i : Prop :=
  is_zero_length_dcid i = false ∧
  ∃ e, e ∈ D.inner (dcids i) ∧ cid e = c ∧ seq e = s ∧ reset_token e = Some tok.

Lemma insert_last_stored c s tok err i out :
  is_zero_length_dcid i = false →
  wp (insert_last (mk_entry c s (Some tok) None) err) (λ _ st, stored c s tok st.1) (λ _ _, True) (i, out).
Proof.
  intros Hz. unfold insert_last. apply wp_bind.
  apply (wp_mono _ (λ _ st, stored c s tok st.1) _ (λ _ _, True)); [| |done].
  - unfold wp, zoom, D.insert, mbind, M_bind, get, put, fail. cbn [compose fst].
    destruct (D.get _ _) as [e|] eqn:Hg.
    + simpl. split; [done|]. exists (mk_entry c s (Some tok) None). split; [|done]. cbn [D.inner].
      unfold D.get in Hg. clear -Hg. induction (D.inner (dcids i)) as [|x l IH]; [done|].
      cbn in *. destruct (seq x =? s); [by left|]. right. by apply IH.
    + destruct (_ <=? _); [done|]. simpl. split; [done|].
      exists (mk_entry c s (Some tok) None). split; [|done]. apply elem_of_app. right. by left.
  - intros ? st Hst. by destruct err.
Qed.

Lemma new_dcid_stores c s tok rpt i out :
  largest_peer_retire_prior_to i <= s →
  wp (new_dcid c s tok rpt) (λ _ st, stored c s tok st.1) (λ _ _, True) (i, out).
Proof.
  intros Hp. unfold new_dcid. apply wp_bind, wp_get. cbv beta iota.
  destruct (is_zero_length_dcid i) eqn:Hz; [done|].
  destruct (List.find _ _) as [e|] eqn:Hf.
  { apply List.find_some in Hf as [He%list_elem_of_In _].
    case_bool_decide; [|done]. destruct (Z.eqb_spec (seq e) s); [|done]. case_bool_decide; [|done].
    split; [done|]. by exists e. }
  destruct (s <? rpt); [done|]. rewrite (proj2 (Z.ltb_ge _ _)) by done.
  apply wp_bind. eapply (wp_mono _ (λ _ st, is_zero_length_dcid st.1 = false) _ (λ _ _, True)); [|clear|done].
  - by destruct (_ <? _).
  - intros ? [i1 out1] Hz. unfold store_dcid. apply wp_bind.
    apply (wp_mono _ (λ _ st, is_zero_length_dcid st.1 = false) _ (λ _ _, True)); [| |done].
    + unfold retire_for. apply wp_bind, wp_get. cbv beta iota zeta.
      destruct (_ <? _); [|done]. destruct (_ <? _); [done|]. by destruct (retire_drained _ _ _) as [[]].
    + intros err [i2 out2] Hz2. by apply insert_last_stored.
Qed.

(** NEW_CONNECTION_ID frames may be retransmitted: once one is accepted,
    receiving it again succeeds and changes nothing. *)
Theorem new_dcid_idempotent c s tok rpt i out i' out' rpt' out'' :
  ids_wf i → 0 <= s → largest_peer_retire_prior_to i <= s →
  new_dcid c s tok rpt (i, out) = (Ok (), (i', out')) →
  new_dcid c s tok rpt' (i', out'') = (Ok (), (i', out'')).
Proof.
  intros Hwf Hs Hp Hr.
  pose proof (new_dcid_keeps c s tok rpt i out Hwf Hs) as Hk.
  pose proof (new_dcid_stores c s tok rpt i out Hp) as Hst.
  eapply wp_ok in Hk; [|exact Hr]. eapply wp_ok in Hst; [|exact Hr]. simpl in Hk, Hst.
  destruct Hst as (Hz & e & He & Ec & Es & Et). pose proof (ks_wf _ _ _ Hk) as Hw.
  unfold new_dcid. rewrite run_bind_get. cbv beta iota.
  rewrite Hz, (find_stored c s _ e (dw_seqs _ (iw_dcids _ Hw)) (iw_dcid_cids _ Hw) He Ec Es).
  by rewrite Ec, Es, Et, !bool_decide_true, Z.eqb_refl by done.
Qed.

(** Whatever [new_dcid] answers, it cut a prefix of the queue and perhaps
    appended the new id. *)
Definition cut_and_append l e d : Prop :=
  ∃ k, D.inner d = drop k l ∨ D.inner d = drop k l ++ [e].

Lemma insert_last_cut e err k l i out :
  seq e ∉ seq <$> l → D.inner (dcids i) = drop k l →
  wp (insert_last e err) (λ _ st, cut_and_append l e (dcids st.1))
    (λ _ st, cut_and_append l e (dcids st.1)) (i, out).
Proof.
  intros Hs Hi.
  assert (seq e ∉ seq <$> D.inner (dcids i)) as Hf.
  { rewrite Hi. contradict Hs. eapply elem_of_submseteq; [done|].
    by apply sublist_submseteq, fmap_sublist, sublist_drop. }
  unfold insert_last. apply wp_bind.
  eapply (wp_mono _ (λ _ st, cut_and_append l e (dcids st.1)) _ (λ _ st, cut_and_append l e (dcids st.1)));
    [|intros ? st Hst; by destruct err|done].
  apply (wp_zoom_fst _ (λ i, cut_and_append l e (dcids i))), wp_zoom.
  unfold wp, D.insert. rewrite run_bind_get. unfold D.get.
  rewrite (proj2 (find_seq_none _ _) Hf). destruct (_ <=? _); exists k; simpl; rewrite Hi; [by left|by right].
Qed.

Lemma new_dcid_cut c s tok rpt i out :
  c ∉ cid <$> D.inner (dcids i) → s ∉ seq <$> D.inner (dcids i) →
  let Q := λ st : t * list (Z * Z), cut_and_append (D.inner (dcids i)) (mk_entry c s (Some tok) None) (dcids st.1) in
  wp (new_dcid c s tok rpt) (λ _, Q) (λ _, Q) (i, out).
Proof.
  intros Hc Hs Q. assert (∀ st, dcids st.1 = dcids i → Q st) as Hsame.
  { intros st E. exists O. rewrite E. by left. }
  unfold new_dcid. apply wp_bind, wp_get. cbv beta iota.
  destruct (is_zero_length_dcid i); [by apply wp_fail, Hsame|]. rewrite find_new_dcid_none by done.
  destruct (s <? rpt); [by apply wp_fail, Hsame|].
  destruct (s <? largest_peer_retire_prior_to i).
  { apply wp_zoom. cbn [fst snd]. unfold mark_retire_dcid_seq. apply wp_bind, wp_zoom. unfold wp.
    destruct (S.insert _ _) as [[] ?] eqn:E; [by apply Hsame..|]. unfold S.insert in E.
    rewrite run_bind_get in E. by destruct (_ <=? _). }
  apply wp_bind. eapply (wp_mono _ (λ _ st, dcids st.1 = dcids i) _ (λ _ _, False)); [by destruct (_ <? _)| |done].
  intros ? [i1 out1] Hi1. simpl in Hi1. unfold store_dcid, retire_for. apply wp_bind, wp_bind, wp_get. cbv beta iota.
  destruct (_ <? rpt).
  - destruct (_ <? rpt); [by apply wp_fail, Hsame|]. cbv zeta.
    destruct (retire_drained _ _ _) as [[err out2] r]. apply wp_bind. unfold wp at 1, put. apply wp_ret.
    rewrite Hi1. by eapply insert_last_cut.
  - apply wp_ret. apply (insert_last_cut _ _ 0); [done|]. by rewrite Hi1.
Qed.

(** What happens when NEW_CONNECTION_ID frames arrive out of order: if an
    id [e1] that the peer keeps stands in the queue before an id [e2] that it
    wants retired, then after the frame either [e2] is still in use or [e1]
    is gone as well, whatever index the binary search of [partition_point]
    answers on the unsorted queue. *)
Theorem new_dcid_misretires c s tok rpt i out r i' out' a e1 b e2 d :
  D.inner (dcids i) = a ++ e1 :: b ++ e2 :: d → NoDup (seq <$> D.inner (dcids i)) →
  seq e2 < rpt <= seq e1 → rpt <= s →
  c ∉ cid <$> D.inner (dcids i) → s ∉ seq <$> D.inner (dcids i) →
  new_dcid c s tok rpt (i, out) = (r, (i', out')) →
  seq e2 ∈ seq <$> D.inner (dcids i') ∨ seq e1 ∉ seq <$> D.inner (dcids i').
Proof.
  intros Hl Hnd He Hs Hc Hf Hr.
  pose proof (new_dcid_cut c s tok rpt i out Hc Hf) as Hw. unfold wp in Hw. rewrite Hr in Hw.
  assert (cut_and_append (D.inner (dcids i)) (mk_entry c s (Some tok) None) (dcids i')) as [k Hk] by by destruct r.
  assert (seq e2 ∈ seq <$> drop k (D.inner (dcids i)) ∨ seq e1 ∉ seq <$> drop k (D.inner (dcids i))) as Hd.
  { destruct (le_lt_dec k (length a)) as [Hka|Hka]; [left|right].
    - rewrite Hl, drop_app_le by done. rewrite !fmap_app. cbn. rewrite fmap_app. cbn. set_solver.
    - intros Hin. rewrite <- (take_drop k (D.inner (dcids i))), fmap_app in Hnd.
      apply NoDup_app in Hnd as (_ & Hdis & _). apply (Hdis (seq e1)); [|done].
      apply list_elem_of_fmap_2. rewrite Hl, take_app_ge by lia. apply elem_of_app. right.
      destruct (k - length a)%nat eqn:E; [lia|]. by left. }
  assert (seq e1 ≠ s) as Hne.
  { intros <-. apply Hf. rewrite Hl. apply list_elem_of_fmap_2, elem_of_app. right. by left. }
  destruct Hk as [-> | ->]; [done|]. rewrite fmap_app. set_solver.
Qed.

(** Issuing a source id: below the peer's limit, a new id gets the next
    sequence number, can be looked up under it, and is queued for a
    NEW_CONNECTION_ID frame when asked for; an id that is already there keeps
    its number and nothing changes. *)
Theorem new_scid_spec c tok adv pid ret i :
  ids_wf i → is_zero_length_scid i = false → next_scid_seq i < u64_max →
  D.len (scids i) < source_conn_id_limit i →
  (c ∉ cid <$> D.inner (scids i) →
    ∃ i', new_scid c (Some tok) adv pid ret i = (Ok (next_scid_seq i), i') ∧
      D.inner (scids i') = D.inner (scids i) ++ [mk_entry c (next_scid_seq i) (Some tok) pid] ∧
      next_scid_seq i' = next_scid_seq i + 1 ∧
      get_scid (next_scid_seq i) i' = Ok (mk_entry c (next_scid_seq i) (Some tok) pid) ∧
      (adv = true → advertise_new_scid_seqs i' = advertise_new_scid_seqs i ++ [next_scid_seq i])) ∧
  (∀ e, e ∈ D.inner (scids i) → cid e = c → reset_token e = Some tok →
    new_scid c (Some tok) adv pid ret i = (Ok (seq e), i)).
Proof.
  intros Hwf Hz Hmax Hlen. pose proof Hwf as [_ [_ _ Hnd] _ [_ Hcap] Hss Hsc _ _ _ _].
  unfold D.len in Hlen. pose proof (zlen_nonneg (D.inner (scids i))).
  assert (∀ k : unit → M t Error Z, ((if source_conn_id_limit i <=? zlen (D.inner (scids i))
    then if negb ret then fail IdLimit else l ← reads lowest_usable_scid_seq; r ← lift (uadd l 1);
           modify (set_retire_prior_to r) else mret ()) ≫= k) i = k () i) as Hskip.
  { intros k. by rewrite (proj2 (Z.leb_gt _ _)) by done. }
  unfold new_scid, D.len. split.
  - intros Hc. rewrite run_bind_get, Hz, Hskip, run_bind_gets, bool_decide_false by done. simpl.
    rewrite run_bind_gets. destruct (List.find _ _) as [e|] eqn:Hf.
    { apply List.find_some in Hf as [He%list_elem_of_In E%bool_decide_eq_true]. subst c.
      by destruct Hc; apply list_elem_of_fmap_2. }
    set (e := mk_entry c _ _ _).
    destruct (deque_insert_fresh e (scids i) ltac:(lia) Hnd (seqs_fresh _ _ Hss)) as [Hi _].
    unfold zoom, mbind, M_bind, lift. rewrite Hi, uadd_ok by lia. cbn [fst snd].
    eexists. split; [reflexivity|]. cbn. split_and!; [by destruct adv|by destruct adv|..].
    + unfold get_scid, D.get. pose proof (find_seq_last e (D.inner (scids i)) Hss) as Hfe.
      cbn [seq e] in Hfe.
      destruct adv; cbn; by rewrite Hfe.
    + by intros ->.
  - intros e He Ec Et. rewrite run_bind_get, Hz, Hskip, run_bind_gets, bool_decide_false by done. simpl.
    rewrite run_bind_gets. destruct (List.find _ _) as [e'|] eqn:Hf.
    + apply List.find_some in Hf as [He'%list_elem_of_In E%bool_decide_eq_true].
      assert (e' = e) as ->. { eapply NoDup_fmap_unique; [exact Hsc|done..|congruence]. }
      by rewrite bool_decide_true.
    + pose proof (List.find_none _ _ Hf e (proj1 (list_elem_of_In _ _) He)) as Hn. cbv beta in Hn.
      by rewrite bool_decide_true in Hn.
Qed.
End functional.

Lemma new_dcid_spec_witness :
  let i := start 2 in
  ∃ i', Ids.new_dcid (H := ToyOrders.orders) [1] 1 77 1 (i, []) = (Ok (), (i', [(0, 0)])) ∧
    seq <$> Ids.D.inner (Ids.dcids i') = [1].
Proof.
  destruct (new_dcid_spec (H := ToyOrders.orders) [1] 1 77 1 (start 2) [] (Ids.D.inner (Ids.dcids (start 2))) [])
    as (i' & Hr & Hd & _).
  - by apply start_wf.
  - reflexivity.
  - by rewrite app_nil_r.
  - repeat constructor.
  - constructor.
  - refine (bool_decide_unpack _ _). by vm_compute.
  - refine (bool_decide_unpack _ _). by vm_compute.
  - by vm_compute.
  - by vm_compute.
  - by vm_compute.
  - exists i'. split; [exact Hr|]. by rewrite Hd.
Defined.

Lemma new_dcid_idempotent_witness :
  let st := Ids.new_dcid (H := ToyOrders.orders) [1] 1 77 0 (start 2, []) in
  Ids.new_dcid (H := ToyOrders.orders) [1] 1 77 0 (st.2.1, []) = (Ok (), (st.2.1, [])).
Proof.
  apply (new_dcid_idempotent (H := ToyOrders.orders) [1] 1 77 0 (start 2) []
           (Ids.new_dcid (H := ToyOrders.orders) [1] 1 77 0 (start 2, [])).2.1 []).
  - by apply start_wf.
  - lia.
  - by vm_compute.
  - by vm_compute.
Defined.

Lemma new_scid_spec_witness :
  ∃ i', Ids.new_scid [5] (Some 7) true None false (start 2) = (Ok 1, i') ∧
    Ids.advertise_new_scid_seqs i' = [1].
Proof.
  destruct (new_scid_spec [5] 7 true None false (start 2)) as [Hfresh _].
  - by apply start_wf.
  - reflexivity.
  - by vm_compute.
  - by vm_compute.
  - destruct Hfresh as (i' & Hr & _ & _ & _ & Ha).
    + refine (bool_decide_unpack _ _). by vm_compute.
    + exists i'. split; [exact Hr|]. by rewrite Ha.
Defined.

(** Two received ids, the later one first. *)
Definition misordered : Ids.t :=
  foldl (λ i o, (apply_op (H := ToyOrders.orders) o i).2) (start 4) [NewDcid [2] 2 20 0; NewDcid [1] 1 10 0].

Lemma new_dcid_misretires_witness :
  seq <$> Ids.D.inner (Ids.dcids misordered) = [0; 2; 1] ∧
  let '(r, (i', _)) := Ids.new_dcid (H := ToyOrders.orders) [3] 3 30 2 (misordered, []) in
  r = Ok () ∧ (1 ∈ seq <$> Ids.D.inner (Ids.dcids i') ∨ 2 ∉ seq <$> Ids.D.inner (Ids.dcids i')).
Proof.
  split; [reflexivity|].
  destruct (Ids.new_dcid (H := ToyOrders.orders) [3] 3 30 2 (misordered, [])) as [r [i' out']] eqn:E.
  split; [change r with (r, (i', out')).1; rewrite <- E; by vm_compute|].
  apply (new_dcid_misretires (H := ToyOrders.orders) [3] 3 30 2 misordered [] r i' out'
           [mk_entry [0] 0 None (Some 0)] (mk_entry [2] 2 (Some 20) None) []
           (mk_entry [1] 1 (Some 10) None) []).
  - by vm_compute.
  - refine (bool_decide_unpack _ _). by vm_compute.
  - simpl. lia.
  - lia.
  - refine (bool_decide_unpack _ _). by vm_compute.
  - refine (bool_decide_unpack _ _). by vm_compute.
  - exact E.
Defined.
