(* ===== verification/Params.v ===== *)
(** * Transport parameters: [TransportParams] of [quiche/src/lib.rs]

    Encoding and decoding of the QUIC transport parameters, with the wire
    format as a list of identified values. *)
From stdpp Require Import gmap.
From S2P Require Import Prelude OctetsLib Readers.

Definition MAX_STREAM_ID : Z := 2 ^ 60.

Module TransportParams.
Record t := mk {
  original_destination_connection_id : option (list Z);
  max_idle_timeout : Z;
  stateless_reset_token : option Z;
  max_udp_payload_size : Z;
  initial_max_data : Z;
  initial_max_stream_data_bidi_local : Z;
  initial_max_stream_data_bidi_remote : Z;
  initial_max_stream_data_uni : Z;
  initial_max_streams_bidi : Z;
  initial_max_streams_uni : Z;
  ack_delay_exponent : Z;
  max_ack_delay : Z;
  disable_active_migration : bool;
  active_conn_id_limit : Z;
  initial_source_connection_id : option (list Z);
  retry_source_connection_id : option (list Z);
  max_datagram_frame_size : option Z
}.

Definition default : t := mk None 0 None 65527 0 0 0 0 0 0 3 25 false 2 None None None.

(** Field updates. *)
Definition with_odcid v p := let '(mk _ b c d e f g h i j k l m n o q r) := p in mk v b c d e f g h i j k l m n o q r.
Definition with_idle v p := let '(mk a _ c d e f g h i j k l m n o q r) := p in mk a v c d e f g h i j k l m n o q r.
Definition with_token v p := let '(mk a b _ d e f g h i j k l m n o q r) := p in mk a b v d e f g h i j k l m n o q r.
Definition with_udp v p := let '(mk a b c _ e f g h i j k l m n o q r) := p in mk a b c v e f g h i j k l m n o q r.
Definition with_data v p := let '(mk a b c d _ f g h i j k l m n o q r) := p in mk a b c d v f g h i j k l m n o q r.
Definition with_bidi_local v p := let '(mk a b c d e _ g h i j k l m n o q r) := p in mk a b c d e v g h i j k l m n o q r.
Definition with_bidi_remote v p := let '(mk a b c d e f _ h i j k l m n o q r) := p in mk a b c d e f v h i j k l m n o q r.
Definition with_uni v p := let '(mk a b c d e f g _ i j k l m n o q r) := p in mk a b c d e f g v i j k l m n o q r.
Definition with_streams_bidi v p := let '(mk a b c d e f g h _ j k l m n o q r) := p in mk a b c d e f g h v j k l m n o q r.
Definition with_streams_uni v p := let '(mk a b c d e f g h i _ k l m n o q r) := p in mk a b c d e f g h i v k l m n o q r.
Definition with_exponent v p := let '(mk a b c d e f g h i j _ l m n o q r) := p in mk a b c d e f g h i j v l m n o q r.
Definition with_ack_delay v p := let '(mk a b c d e f g h i j k _ m n o q r) := p in mk a b c d e f g h i j k v m n o q r.
Definition with_migration v p := let '(mk a b c d e f g h i j k l _ n o q r) := p in mk a b c d e f g h i j k l v n o q r.
Definition with_cid_limit v p := let '(mk a b c d e f g h i j k l m _ o q r) := p in mk a b c d e f g h i j k l m v o q r.
Definition with_scid v p := let '(mk a b c d e f g h i j k l m n _ q r) := p in mk a b c d e f g h i j k l m n v q r.
Definition with_retry v p := let '(mk a b c d e f g h i j k l m n o _ r) := p in mk a b c d e f g h i j k l m n o v r.
Definition with_dgram v p := let '(mk a b c d e f g h i j k l m n o q _) := p in mk a b c d e f g h i j k l m n o q v.

Section codec.
Import Octets.

(** A value that must satisfy a check. *)
Definition checked (ok : Z → bool) (v : M octets Error Z) : M octets Error Z :=
  x ← v;
  if ok x then mret x else fail InvalidTransportParam.

(** [match id { ... }] on the value cursor. *)
Definition decode_value (is_server : bool) (id : Z) (tp : t) : M octets Error t :=
  if id =? 0x0000 then
    if is_server then fail InvalidTransportParam else gets (λ val, with_odcid (Some (to_vec val)) tp)
  else if id =? 0x0001 then v ← get_varint; mret (with_idle v tp)
  else if id =? 0x0002 then
    if is_server then fail InvalidTransportParam
    else b ← get_bytes 16; mret (with_token (Some (be_val (to_vec b))) tp)
  else if id =? 0x0003 then
    v ← checked (λ v, negb (v <? 1200)) get_varint; mret (with_udp v tp)
  else if id =? 0x0004 then v ← get_varint; mret (with_data v tp)
  else if id =? 0x0005 then v ← get_varint; mret (with_bidi_local v tp)
  else if id =? 0x0006 then v ← get_varint; mret (with_bidi_remote v tp)
  else if id =? 0x0007 then v ← get_varint; mret (with_uni v tp)
  else if id =? 0x0008 then
    v ← checked (λ v, negb (MAX_STREAM_ID <? v)) get_varint; mret (with_streams_bidi v tp)
  else if id =? 0x0009 then
    v ← checked (λ v, negb (MAX_STREAM_ID <? v)) get_varint; mret (with_streams_uni v tp)
  else if id =? 0x000a then
    v ← checked (λ v, negb (20 <? v)) get_varint; mret (with_exponent v tp)
  else if id =? 0x000b then
    v ← checked (λ v, negb (2 ^ 14 <=? v)) get_varint; mret (with_ack_delay v tp)
  else if id =? 0x000c then mret (with_migration true tp)
  else if id =? 0x000d then
    if is_server then fail InvalidTransportParam else mret tp
  else if id =? 0x000e then
    v ← checked (λ v, negb (v <? 2)) get_varint; mret (with_cid_limit v tp)
  else if id =? 0x000f then gets (λ val, with_scid (Some (to_vec val)) tp)
  else if id =? 0x0010 then
    if is_server then fail InvalidTransportParam else gets (λ val, with_retry (Some (to_vec val)) tp)
  else if id =? 0x0020 then v ← get_varint; mret (with_dgram (Some v) tp)
  else mret tp.

(** The loop takes as many turns as there are bytes at most: a turn reads the
    parameter's id. *)
Fixpoint decode_loop (fuel : nat) (is_server : bool) (seen_params : gset Z) (tp : t) :
    M octets Error t :=
  match fuel with
  | O => panic
  | S fuel =>
      c ← reads cap;
      if c <=? 0 then mret tp
      else
        id ← get_varint;
        if bool_decide (id ∈ seen_params) then fail InvalidTransportParam
        else
          val ← get_bytes_with_varint_length;
          tp ← lift (decode_value is_server id tp val).1;
          decode_loop fuel is_server ({[id]} ∪ seen_params) tp
  end.

Definition decode (buf : list Z) (is_server : bool) : result Error t :=
  (decode_loop (S (length buf)) is_server ∅ default (with_slice buf)).1.
End codec.

Section encode.
Import OctetsMut.

Definition encode_param (ty len : Z) : M octets Error unit :=
  put_varint ty;; put_varint len;; mret ().

Definition encode_int (ty v : Z) : M octets Error unit :=
  n ← lift (varint_len v); encode_param ty n;; put_varint v;; mret ().

Definition encode_bytes (ty : Z) (v : list Z) : M octets Error unit :=
  encode_param ty (zlen v);; put_bytes v.

Definition encode_cid (ty : Z) (v : option (list Z)) : M octets Error unit :=
  match v with Some c => encode_bytes ty c | None => mret () end.

(** [if v != skip { ... }] *)
Definition encode_unless (skip ty v : Z) : M octets Error unit :=
  if negb (v =? skip) then encode_int ty v else mret ().

Definition encode_body (tp : t) (is_server : bool) : M octets Error Z :=
  (if is_server then encode_cid 0x0000 (original_destination_connection_id tp) else mret ());;
  encode_unless 0 0x0001 (max_idle_timeout tp);;
  (if is_server then
     match stateless_reset_token tp with
     | Some token => encode_param 0x0002 16;; put_bytes (be_bytes 16 token)
     | None => mret ()
     end
   else mret ());;
  encode_unless 0 0x0003 (max_udp_payload_size tp);;
  encode_unless 0 0x0004 (initial_max_data tp);;
  encode_unless 0 0x0005 (initial_max_stream_data_bidi_local tp);;
  encode_unless 0 0x0006 (initial_max_stream_data_bidi_remote tp);;
  encode_unless 0 0x0007 (initial_max_stream_data_uni tp);;
  encode_unless 0 0x0008 (initial_max_streams_bidi tp);;
  encode_unless 0 0x0009 (initial_max_streams_uni tp);;
  encode_unless 0 0x000a (ack_delay_exponent tp);;
  encode_unless 0 0x000b (max_ack_delay tp);;
  (if disable_active_migration tp then encode_param 0x000c 0 else mret ());;
  encode_unless 2 0x000e (active_conn_id_limit tp);;
  encode_cid 0x000f (initial_source_connection_id tp);;
  (if is_server then encode_cid 0x0010 (retry_source_connection_id tp) else mret ());;
  match max_datagram_frame_size tp with Some v => encode_int 0x0020 v | None => mret () end;;
  gets off.

(** [&mut out[..out_len]] *)
Definition encode (tp : t) (is_server : bool) (out : list Z) : result Error (list Z) :=
  match encode_body tp is_server (with_slice out) with
  | (Ok out_len, b) => Ok (ztake out_len (buf b))
  | (Err e, _) => Err e
  | (Panic, _) => Panic
  end.

(** [Connection::encode_transport_params] without the TLS call that stores
    the result. *)
Definition encode_transport_params (local_transport_params : t) (is_server : bool) : result Error (list Z) :=
  encode local_transport_params is_server (replicate 128 0).
End encode.
End TransportParams.

(** ** The wire format *)

Section wire.
Import TransportParams.
Implicit Types (tp : t) (s : bool).

(** A parameter on the wire: its identifier and its value. *)
Definition enc_param (p : Z * list Z) : list Z :=
  enc_varint p.1 ++ enc_varint (zlen p.2) ++ p.2.
Definition enc_params (l : list (Z * list Z)) : list Z := l ≫= enc_param.

Definition int_param (skip ty v : Z) : list (Z * list Z) :=
  if negb (v =? skip) then [(ty, enc_varint v)] else [].
Definition bytes_param (ty : Z) (v : option (list Z)) : list (Z * list Z) :=
  match v with Some c => [(ty, c)] | None => [] end.
Definition for_server s (l : list (Z * list Z)) : list (Z * list Z) := if s then l else [].

(** The parameters a client or a server ([s]) sends. *)
Definition params_of tp s : list (Z * list Z) :=
  for_server s (bytes_param 0x00 (original_destination_connection_id tp)) ++
  int_param 0 0x01 (max_idle_timeout tp) ++
  for_server s (bytes_param 0x02 (be_bytes 16 <$> stateless_reset_token tp)) ++
  int_param 0 0x03 (max_udp_payload_size tp) ++
  int_param 0 0x04 (initial_max_data tp) ++
  int_param 0 0x05 (initial_max_stream_data_bidi_local tp) ++
  int_param 0 0x06 (initial_max_stream_data_bidi_remote tp) ++
  int_param 0 0x07 (initial_max_stream_data_uni tp) ++
  int_param 0 0x08 (initial_max_streams_bidi tp) ++
  int_param 0 0x09 (initial_max_streams_uni tp) ++
  int_param 0 0x0a (ack_delay_exponent tp) ++
  int_param 0 0x0b (max_ack_delay tp) ++
  (if disable_active_migration tp then [(0x0c, [])] else []) ++
  int_param 2 0x0e (active_conn_id_limit tp) ++
  bytes_param 0x0f (initial_source_connection_id tp) ++
  for_server s (bytes_param 0x10 (retry_source_connection_id tp)) ++
  match max_datagram_frame_size tp with Some v => [(0x20, enc_varint v)] | None => [] end.

(** A connection id of at most twenty bytes. *)
Definition cid_ok (c : option (list Z)) : Prop :=
  match c with Some c => zlen c <= 20 | None => True end.

(** Values that a peer accepts. *)
Record params_ok tp : Prop := {
  po_odcid : cid_ok (original_destination_connection_id tp);
  po_idle : is_varint (max_idle_timeout tp);
  po_token : match stateless_reset_token tp with Some v => 0 <= v < 2 ^ 128 | None => True end;
  po_udp : max_udp_payload_size tp = 0 ∨ 1200 <= max_udp_payload_size tp <= varint_max;
  po_data : is_varint (initial_max_data tp);
  po_bidi_local : is_varint (initial_max_stream_data_bidi_local tp);
  po_bidi_remote : is_varint (initial_max_stream_data_bidi_remote tp);
  po_uni : is_varint (initial_max_stream_data_uni tp);
  po_streams_bidi : 0 <= initial_max_streams_bidi tp <= MAX_STREAM_ID;
  po_streams_uni : 0 <= initial_max_streams_uni tp <= MAX_STREAM_ID;
  po_exponent : 0 <= ack_delay_exponent tp <= 20;
  po_ack_delay : 0 <= max_ack_delay tp < 2 ^ 14;
  po_cid_limit : 2 <= active_conn_id_limit tp <= varint_max;
  po_scid : cid_ok (initial_source_connection_id tp);
  po_retry : cid_ok (retry_source_connection_id tp);
  po_dgram : match max_datagram_frame_size tp with Some v => is_varint v | None => True end
}.

(** What the peer of a sender in role [s] makes of [tp]: a client's
    parameters carry no server fields, and an absent parameter takes its
    default. *)
Definition unless (skip v dflt : Z) : Z := if negb (v =? skip) then v else dflt.
Definition received s tp : t := mk
  (if s then original_destination_connection_id tp else None)
  (max_idle_timeout tp)
  (if s then stateless_reset_token tp else None)
  (unless 0 (max_udp_payload_size tp) 65527)
  (initial_max_data tp)
  (initial_max_stream_data_bidi_local tp)
  (initial_max_stream_data_bidi_remote tp)
  (initial_max_stream_data_uni tp)
  (initial_max_streams_bidi tp)
  (initial_max_streams_uni tp)
  (unless 0 (ack_delay_exponent tp) 3)
  (unless 0 (max_ack_delay tp) 25)
  (disable_active_migration tp)
  (active_conn_id_limit tp)
  (initial_source_connection_id tp)
  (if s then retry_source_connection_id tp else None)
  (max_datagram_frame_size tp).

(** *** Writing *)

Lemma enc_params_app l k : enc_params (l ++ k) = enc_params l ++ enc_params k.
Proof. apply bind_app. Qed.

Lemma put_varint_unit v : is_varint v → writes (E:=Error) (OctetsMut.put_varint v;; mret ()) (enc_varint v).
Proof.
  intros Hv. rewrite <- (app_nil_r (enc_varint v)).
  apply writes_bind; [by apply put_varint_writes|]. intros _. apply writes_ret.
Qed.

Lemma encode_param_writes ty len :
  is_varint ty → is_varint len → writes (encode_param ty len) (enc_varint ty ++ enc_varint len).
Proof.
  intros. apply writes_bind; [by apply put_varint_writes|]. intros _. by apply put_varint_unit.
Qed.

Lemma encode_bytes_writes ty v :
  is_varint ty → is_varint (zlen v) → writes (encode_bytes ty v) (enc_params [(ty, v)]).
Proof.
  intros. unfold enc_params, enc_param. cbn [mbind list_bind fst snd]. rewrite app_nil_r, app_assoc.
  apply writes_bind; [by apply encode_param_writes|]. intros _. apply put_bytes_writes.
Qed.

Lemma varint_size_varint v : is_varint (varint_size v).
Proof. pose proof (varint_size_bounds v). unfold is_varint. lia. Qed.

Lemma encode_int_writes ty v :
  is_varint ty → is_varint v → writes (encode_int ty v) (enc_params [(ty, enc_varint v)]).
Proof.
  intros Hty Hv. unfold enc_params, enc_param. cbn [mbind list_bind fst snd].
  rewrite app_nil_r, app_assoc, zlen_enc_varint. unfold encode_int.
  intros pre old rest Hold. rewrite (run_bind_lift _ _ _ _ (varint_len_size v Hv)).
  revert pre old rest Hold. apply writes_bind; [apply encode_param_writes; [done|apply varint_size_varint]|].
  intros _. by apply put_varint_unit.
Qed.

Lemma writes_nothing : writes (mret () : M octets Error unit) (enc_params []).
Proof. apply writes_ret. Qed.

Lemma encode_unless_writes skip ty v :
  is_varint ty → is_varint v → writes (encode_unless skip ty v) (enc_params (int_param skip ty v)).
Proof.
  intros. unfold encode_unless, int_param. destruct (negb _); [by apply encode_int_writes|apply writes_nothing].
Qed.

Lemma encode_cid_writes ty c :
  is_varint ty → cid_ok c → writes (encode_cid ty c) (enc_params (bytes_param ty c)).
Proof.
  intros ? Hc. destruct c as [c|]; [|apply writes_nothing]. apply encode_bytes_writes; [done|].
  simpl in Hc. pose proof (zlen_nonneg c). unfold is_varint. lia.
Qed.

Lemma for_server_writes s (m : M octets Error unit) l :
  writes m (enc_params l) → writes (if s then m else mret ()) (enc_params (for_server s l)).
Proof. intros. destruct s; [done|apply writes_nothing]. Qed.

Lemma encode_body_writes tp s : params_ok tp → writes_to (encode_body tp s) (enc_params (params_of tp s)).
Proof.
  intros []. assert (MAX_STREAM_ID = 1152921504606846976) by done.
  unfold encode_body, params_of. rewrite !enc_params_app.
  repeat (apply writes_to_bind;
    [first [ apply encode_unless_writes; unfold is_varint in *; lia
           | apply for_server_writes, encode_cid_writes; [unfold is_varint; lia|done]
           | apply encode_cid_writes; [unfold is_varint; lia|done] | idtac ] | intros _]).
  - apply for_server_writes. destruct (stateless_reset_token tp) as [v|]; [|apply writes_nothing].
    apply (encode_bytes_writes 2 (be_bytes 16 v)); [unfold is_varint; lia|by rewrite zlen_be_bytes].
  - destruct (disable_active_migration tp); [|apply writes_nothing]. cbn. apply encode_param_writes; done.
  - rewrite <- (app_nil_r (enc_params (match _ with Some _ => _ | None => _ end))).
    apply writes_to_bind; [|intros _; apply writes_to_off].
    destruct (max_datagram_frame_size tp) as [v|]; [|apply writes_nothing]. by apply encode_int_writes.
Qed.

(** *** Reading *)

(** The parameters one after the other, without the cursor. *)
Fixpoint apply_params s (l : list (Z * list Z)) tp : result Error t :=
  match l with
  | [] => Ok tp
  | p :: l => tp ← (decode_value s p.1 tp (mk_octets p.2 0)).1; apply_params s l tp
  end.

Lemma apply_params_app s l k tp :
  apply_params s (l ++ k) tp = (apply_params s l tp ≫= λ tp, apply_params s k tp).
Proof.
  revert tp. induction l as [|p l IH]; intros tp; [done|]. cbn [apply_params app].
  destruct (decode_value _ _ _ _).1 as [tp'| |]; [|done..]. apply IH.
Qed.

Definition param_wf (p : Z * list Z) : Prop := is_varint p.1 ∧ is_varint (zlen p.2).

Lemma decode_loop_apply s l : ∀ fuel seen tp tp' pre,
  Forall param_wf l → NoDup l.*1 → (∀ p, p ∈ l → p.1 ∉ seen) → (length l < fuel)%nat →
  apply_params s l tp = Ok tp' →
  (decode_loop fuel s seen tp (mk_octets (pre ++ enc_params l) (zlen pre))).1 = Ok tp'.
Proof.
  induction l as [|p l IH]; intros fuel seen tp tp' pre Hwf Hnd Hseen Hfuel Happ;
    (destruct fuel as [|fuel]; [simpl in Hfuel; lia|]); cbn [decode_loop].
  - cbn in Happ. simplify_eq. rewrite (run_bind_reads _ _ _ 0); [done|].
    unfold Octets.cap. cbn [enc_params mbind list_bind o_buf o_off]. rewrite app_nil_r.
    rewrite usub_ok by lia. f_equal. lia.
  - apply Forall_cons in Hwf as [[Hid Hlen] Hwf]. cbn in Hnd. apply NoDup_cons in Hnd as [Hp Hnd].
    assert (enc_params (p :: l) = enc_varint p.1 ++ (enc_varint (zlen p.2) ++ p.2) ++ enc_params l) as ->.
    { unfold enc_params. cbn [mbind list_bind]. unfold enc_param. by rewrite <- !app_assoc. }
    rewrite (run_bind_reads _ _ _ (varint_size p.1 + zlen ((enc_varint (zlen p.2) ++ p.2) ++ enc_params l))).
    2: { unfold Octets.cap. cbn [o_buf o_off]. rewrite !zlen_app, zlen_enc_varint.
         pose proof (varint_size_bounds p.1). pose proof (zlen_nonneg p.2). pose proof (zlen_nonneg (enc_params l)).
         pose proof (zlen_nonneg (enc_varint (zlen p.2))). rewrite usub_ok by lia. f_equal. lia. }
    pose proof (varint_size_bounds p.1).
    pose proof (zlen_nonneg ((enc_varint (zlen p.2) ++ p.2) ++ enc_params l)).
    rewrite (proj2 (Z.leb_gt _ 0)) by lia.
    rewrite (run_bind_ok _ _ _ _ _ (get_varint_parses p.1 Hid pre _)).
    rewrite bool_decide_false by (apply Hseen; by left).
    pose proof (get_bytes_with_varint_length_parses (E:=Error) p.2 Hlen (pre ++ enc_varint p.1) (enc_params l)) as Hval.
    rewrite <- !app_assoc, !zlen_app in Hval. rewrite <- !app_assoc.
    rewrite (run_bind_ok _ _ _ _ _ Hval). cbn [apply_params] in Happ.
    destruct (decode_value s p.1 tp (mk_octets p.2 0)).1 as [tp1| |]; [|done..].
    rewrite run_bind_ret || rewrite (run_bind_lift _ _ _ tp1) by done. cbn in Happ.
    specialize (IH fuel ({[p.1]} ∪ seen) tp1 tp' (pre ++ enc_varint p.1 ++ enc_varint (zlen p.2) ++ p.2)).
    rewrite <- !app_assoc, !zlen_app in IH. rewrite <- !Z.add_assoc. apply IH; try done; [|simpl in Hfuel; lia].
    intros q Hq. rewrite not_elem_of_union, not_elem_of_singleton. split; [|apply Hseen; by right].
    intros E. apply Hp. rewrite <- E. by apply list_elem_of_fmap_2.
Qed.

(** Evaluate the dispatch on a known identifier. *)
Ltac eval_id :=
  unfold decode_value;
  repeat match goal with
  | |- context [?a =? ?b] => let r := eval vm_compute in (a =? b) in change (a =? b) with r
  end; cbv iota.

Lemma get_varint_alone v :
  is_varint v →
  Octets.get_varint (E:=Error) (mk_octets (enc_varint v) 0) =
  (Ok v, mk_octets (enc_varint v) (zlen (enc_varint v))).
Proof. intros Hv. pose proof (get_varint_parses (E:=Error) v Hv [] []) as Hg. by rewrite app_nil_r in Hg. Qed.

Lemma decode_varint {B} v (k : Z → M octets Error B) r o :
  is_varint v → (∀ o', (k v o').1 = r) → o = mk_octets (enc_varint v) 0 →
  ((Octets.get_varint ≫= k) o).1 = r.
Proof. intros Hv Hk ->. rewrite (run_bind_ok _ _ _ _ _ (get_varint_alone v Hv)). apply Hk. Qed.

Lemma decode_checked {B} ok v (k : Z → M octets Error B) r o :
  is_varint v → ok v = true → (∀ o', (k v o').1 = r) → o = mk_octets (enc_varint v) 0 →
  ((checked ok Octets.get_varint ≫= k) o).1 = r.
Proof.
  intros Hv Hok Hk ->. unfold checked. rewrite run_bind_assoc, (run_bind_ok _ _ _ _ _ (get_varint_alone v Hv)).
  rewrite Hok. apply Hk.
Qed.

(** One optional parameter: [g] reads the field and [f] sets it. *)
Lemma apply_int s skip ty v tp (f : Z → t → t) dflt :
  f dflt tp = tp →
  (v ≠ skip → (decode_value s ty tp (mk_octets (enc_varint v) 0)).1 = Ok (f v tp)) →
  apply_params s (int_param skip ty v) tp = Ok (f (unless skip v dflt) tp).
Proof.
  intros Hf Hd. unfold int_param, unless. destruct (Z.eqb_spec v skip); cbn; [by rewrite Hf|]. by rewrite Hd.
Qed.

Lemma apply_bytes s ty v tp (f : option (list Z) → t → t) :
  f None tp = tp →
  (∀ c, v = Some c → (decode_value s ty tp (mk_octets c 0)).1 = Ok (f v tp)) →
  apply_params s (bytes_param ty v) tp = Ok (f v tp).
Proof. intros Hf Hd. destruct v as [c|]; cbn; [|by rewrite Hf]. by rewrite (Hd c). Qed.

Lemma apply_server_bytes s ty v tp (f : option (list Z) → t → t) :
  f None tp = tp →
  (∀ c, s = true → v = Some c → (decode_value false ty tp (mk_octets c 0)).1 = Ok (f v tp)) →
  apply_params (negb s) (for_server s (bytes_param ty v)) tp = Ok (f (if s then v else None) tp).
Proof.
  intros Hf Hd. destruct s; cbn; [|by rewrite Hf]. apply apply_bytes; [done|]. intros c Hc. by apply Hd.
Qed.

Lemma apply_then s l k tp tp1 r :
  apply_params s l tp = Ok tp1 → apply_params s k tp1 = r → apply_params s (l ++ k) tp = r.
Proof. intros Hl Hk. rewrite apply_params_app, Hl. exact Hk. Qed.

Lemma decode_token tp v :
  0 <= v < 2 ^ 128 →
  (decode_value false 0x02 tp (mk_octets (be_bytes 16 v) 0)).1 = Ok (with_token (Some v) tp).
Proof.
  intros Hv. eval_id.
  pose proof (get_bytes_parses (E:=Error) 16 (be_bytes 16 v) ltac:(by rewrite zlen_be_bytes) [] []) as Hb.
  rewrite app_nil_r in Hb. rewrite (run_bind_ok _ _ _ _ _ Hb). unfold Octets.to_vec. rewrite as_ref_whole.
  rewrite be_val_be_bytes, Z.mod_small; [done|]. change (256 ^ Z.of_nat 16) with (2 ^ 128). done.
Qed.

Lemma apply_token s tp v :
  match v with Some v => 0 <= v < 2 ^ 128 | None => True end → with_token None tp = tp →
  apply_params (negb s) (for_server s (bytes_param 0x02 (be_bytes 16 <$> v))) tp =
  Ok (with_token (if s then v else None) tp).
Proof.
  intros Hv Hn. destruct s; [|cbn; by rewrite Hn]. destruct v as [v|]; [|cbn; by rewrite Hn].
  cbn [negb for_server fmap option_fmap option_map bytes_param apply_params fst snd].
  by rewrite decode_token.
Qed.

Lemma unless_same skip v : unless skip v skip = v.
Proof. unfold unless. by destruct (Z.eqb_spec v skip). Qed.

(** One parameter of [params_of] after the other, its value a varint that
    passes its check. *)
Ltac solve_decode :=
  intros; eval_id;
  first [ eapply decode_checked; [| |intros; reflexivity|reflexivity]
        | eapply decode_varint; [|intros; reflexivity|reflexivity] ];
  first [ unfold is_varint in *; lia
        | apply negb_true_iff; first [apply Z.ltb_ge|apply Z.leb_gt]; lia ].
Ltac int_step f d := eapply apply_then; [apply (apply_int _ _ _ _ _ f d); [reflexivity|solve_decode]|].

Lemma apply_params_of tp s :
  params_ok tp → apply_params (negb s) (params_of tp s) default = Ok (received s tp).
Proof.
  intros []. assert (MAX_STREAM_ID = 1152921504606846976) by done. change (2 ^ 14) with 16384 in *.
  unfold params_of.
  eapply apply_then; [apply (apply_server_bytes _ _ _ _ with_odcid); [reflexivity|intros c _ ->; by eval_id]|].
  int_step with_idle 0.
  eapply apply_then; [apply apply_token; [done|reflexivity]|].
  int_step with_udp 65527. int_step with_data 0. int_step with_bidi_local 0. int_step with_bidi_remote 0.
  int_step with_uni 0. int_step with_streams_bidi 0. int_step with_streams_uni 0. int_step with_exponent 3.
  int_step with_ack_delay 25.
  eapply apply_then.
  { instantiate (1 := with_migration (disable_active_migration tp) _). by destruct (disable_active_migration tp). }
  int_step with_cid_limit 2.
  eapply apply_then; [apply (apply_bytes _ _ _ _ with_scid); [reflexivity|intros c ->; by eval_id]|].
  eapply apply_then; [apply (apply_server_bytes _ _ _ _ with_retry); [reflexivity|intros c _ ->; by eval_id]|].
  unfold received. cbn [with_odcid with_idle with_token with_udp with_data with_bidi_local with_bidi_remote
    with_uni with_streams_bidi with_streams_uni with_exponent with_ack_delay with_migration with_cid_limit
    with_scid with_retry default]. rewrite !unless_same.
  destruct (max_datagram_frame_size tp) as [v|]; [|done]. cbn [apply_params fst snd].
  assert (∀ tp, (decode_value (negb s) 32 tp (mk_octets (enc_varint v) 0)).1 = Ok (with_dgram (Some v) tp)) as ->
    by solve_decode. done.
Qed.

(** *** Identifiers and sizes *)

Lemma int_param_ids skip ty v : sublist (int_param skip ty v).*1 [ty].
Proof. unfold int_param. destruct (negb _); repeat constructor. Qed.
Lemma bytes_param_ids ty v : sublist (bytes_param ty v).*1 [ty].
Proof. destruct v; repeat constructor. Qed.
Lemma for_server_ids s l k : sublist l.*1 k → sublist (for_server s l).*1 k.
Proof. destruct s; [done|]. intros. apply sublist_nil_l. Qed.

Lemma params_of_ids tp s : NoDup (params_of tp s).*1.
Proof.
  apply (sublist_NoDup _ ([0] ++ [1] ++ [2] ++ [3] ++ [4] ++ [5] ++ [6] ++ [7] ++ [8] ++ [9] ++ [10] ++ [11] ++
    [12] ++ [14] ++ [15] ++ [16] ++ [32])); [by apply (bool_decide_unpack _)|].
  unfold params_of. rewrite !fmap_app.
  repeat apply sublist_app; try apply int_param_ids; try apply for_server_ids; try apply bytes_param_ids.
  - destruct (disable_active_migration tp); repeat constructor.
  - destruct (max_datagram_frame_size tp); repeat constructor.
Qed.

(** A list of parameters of at most [n] bytes, all well formed. *)
Definition params_within (n : Z) l : Prop := Forall param_wf l ∧ zlen (enc_params l) <= n.

Lemma within_app n m l k : params_within n l → params_within m k → params_within (n + m) (l ++ k).
Proof.
  intros [Hl Hn] [Hk Hm]. split; [by apply Forall_app|]. rewrite enc_params_app, zlen_app. lia.
Qed.
Lemma within_nil n : 0 <= n → params_within n [].
Proof. intros. by split; [constructor|]. Qed.
Lemma within_one n id v : 0 <= id < 64 → zlen v <= 63 → 2 + zlen v <= n → params_within n [(id, v)].
Proof.
  intros Hid Hv Hn. pose proof (zlen_nonneg v). split.
  - apply Forall_singleton. split; unfold is_varint; simpl; lia.
  - unfold enc_params, enc_param. cbn [mbind list_bind fst snd]. rewrite app_nil_r, !zlen_app, !zlen_enc_varint.
    assert (∀ x, 0 <= x <= 63 → varint_size x = 1) as Hs by (intros x ?; unfold varint_size; by zdecide).
    rewrite !Hs by lia. lia.
Qed.
Lemma within_int skip ty v : 0 <= ty < 64 → params_within 10 (int_param skip ty v).
Proof.
  intros. unfold int_param. destruct (negb _); [|by apply within_nil].
  apply within_one; [done|..]; rewrite zlen_enc_varint; pose proof (varint_size_bounds v); lia.
Qed.
Lemma within_cid ty v : 0 <= ty < 64 → cid_ok v → params_within 22 (bytes_param ty v).
Proof. intros ? Hv. destruct v; [|by apply within_nil]. simpl in Hv. apply within_one; [done|lia..]. Qed.
Lemma within_server n s l : params_within n l → 0 <= n → params_within n (for_server s l).
Proof. intros. destruct s; [done|by apply within_nil]. Qed.

(** An upper bound on the size of the parameters with ids of at most twenty
    bytes. *)
Definition MAX_PARAMS_SIZE : Z := 206.

Lemma params_of_within tp s : params_ok tp → params_within MAX_PARAMS_SIZE (params_of tp s).
Proof.
  intros []. unfold params_of.
  change MAX_PARAMS_SIZE with (22 + (10 + (18 + (10 + (10 + (10 + (10 + (10 + (10 + (10 + (10 + (10 + (2 + (10 +
    (22 + (22 + 10)))))))))))))))).
  repeat (apply within_app;
    [try (by apply within_int); try (by apply within_server; [apply within_cid|]); try (by apply within_cid)|]).
  - apply within_server; [|done]. destruct (stateless_reset_token tp); [|by apply within_nil].
    apply within_one; rewrite ?zlen_be_bytes; lia.
  - destruct (disable_active_migration tp); [|by apply within_nil]. by apply within_one.
  - destruct (max_datagram_frame_size tp) as [v|]; [|by apply within_nil].
    apply within_one; rewrite ?zlen_enc_varint; pose proof (varint_size_bounds v); lia.
Qed.

(** *** Properties *)

Lemma encode_run tp s out :
  params_ok tp → zlen (enc_params (params_of tp s)) <= zlen out →
  encode tp s out = Ok (enc_params (params_of tp s)).
Proof.
  intros Hok Hout. unfold encode. rewrite (writes_to_run _ _ out (encode_body_writes tp s Hok) Hout).
  unfold OctetsMut.buf. cbn [o_buf]. by rewrite ztake_app.
Qed.

Lemma decode_run tp s :
  params_ok tp → decode (enc_params (params_of tp s)) (negb s) = Ok (received s tp).
Proof.
  intros Hok. destruct (params_of_within tp s Hok) as [Hwf _]. unfold decode.
  apply (decode_loop_apply (negb s) (params_of tp s) _ ∅ default _ []).
  - done.
  - apply params_of_ids.
  - intros p _. apply not_elem_of_empty.
  - apply le_n_S. clear. induction (params_of tp s) as [|p l IH]; [done|]. unfold enc_params in *.
    cbn [mbind list_bind length]. rewrite length_app. unfold enc_param at 1.
    rewrite length_app. pose proof (varint_size_bounds p.1) as Hs. rewrite <- zlen_enc_varint in Hs. unfold zlen in Hs. lia.
  - by apply apply_params_of.
Qed.


(** A configured ACK delay exponent or maximum ACK delay of zero is lost:
    the encoder leaves the parameter out, and the peer takes the default of 3
    or 25 milliseconds. *)
Theorem zero_ack_delay_lost tp s out :
  params_ok tp → MAX_PARAMS_SIZE <= zlen out → ack_delay_exponent tp = 0 → max_ack_delay tp = 0 →
  ∃ bs tp', encode tp s out = Ok bs ∧ decode bs (negb s) = Ok tp' ∧
    ack_delay_exponent tp' = 3 ∧ max_ack_delay tp' = 25.
Proof.
  intros Hok Hout He Hd. exists (enc_params (params_of tp s)), (received s tp).
  destruct (params_of_within tp s Hok) as [_ Hsize]. rewrite encode_run, decode_run by (done || lia).
  unfold received. cbn. by rewrite He, Hd.
Qed.

(** *** Arbitrary input *)

(** What every accepted set of parameters satisfies. *)
Record decoded_ok tp : Prop := {
  do_udp : 1200 <= max_udp_payload_size tp;
  do_streams_bidi : 0 <= initial_max_streams_bidi tp <= MAX_STREAM_ID;
  do_streams_uni : 0 <= initial_max_streams_uni tp <= MAX_STREAM_ID;
  do_exponent : 0 <= ack_delay_exponent tp <= 20;
  do_ack_delay : 0 <= max_ack_delay tp < 2 ^ 14;
  do_cid_limit : 2 <= active_conn_id_limit tp;
  do_varints : Forall is_varint [max_idle_timeout tp; initial_max_data tp;
    initial_max_stream_data_bidi_local tp; initial_max_stream_data_bidi_remote tp;
    initial_max_stream_data_uni tp; from_option (λ v, v) 0 (max_datagram_frame_size tp)]
}.

Lemma decoded_ok_default : decoded_ok TransportParams.default.
Proof. constructor; cbn; try lia; [done..|]. repeat constructor; done. Qed.

Lemma reader_checked ok (P : Z → Prop) :
  (∀ v, is_varint v → ok v = true → P v) → reader (checked ok Octets.get_varint) P.
Proof.
  intros HP. eapply reader_bind; [apply reader_varint|]. intros v Hv.
  destruct (ok v) eqn:E; [by apply reader_ret, HP|apply reader_fail].
Qed.

Lemma reader_rest {A} (f : list Z → A) (P : A → Prop) :
  (∀ b, P (f b)) → reader (E:=Error) (gets (λ val, f (Octets.to_vec val))) P.
Proof. intros HP o Hwf. apply wp_gets. split; [by apply advances_refl|apply HP]. Qed.

(** Setting a field keeps the others. *)
Ltac set_field :=
  match goal with H : decoded_ok ?tp |- _ =>
    let Hv := fresh in destruct tp; destruct H as [? ? ? ? ? ? Hv]; cbn in *;
    constructor; cbn; try lia; rewrite ?Forall_cons in *; unfold is_varint in *; naive_solver
  end.

Lemma reader_decode_value b id tp : decoded_ok tp → reader (decode_value b id tp) decoded_ok.
Proof.
  intros Htp. unfold decode_value. assert (MAX_STREAM_ID = 1152921504606846976) by done.
  repeat match goal with
  | |- reader (if _ then fail _ else _) _ => apply reader_if; intros _; [apply reader_fail|]
  | |- reader (gets _) _ =>
      first [ apply (reader_rest (λ b, with_odcid (Some b) tp)) | apply (reader_rest (λ b, with_scid (Some b) tp))
            | apply (reader_rest (λ b, with_retry (Some b) tp)) ]; intros ?; set_field
  | |- reader (mret _) _ => apply reader_ret; first [assumption|set_field]
  | |- reader (checked _ _ ≫= _) _ =>
      eapply reader_bind;
        [apply reader_checked; intros ? ? Hok; apply negb_true_iff in Hok;
         first [apply Z.ltb_ge in Hok|apply Z.leb_gt in Hok]; exact (conj H0 Hok)|]; intros ? [? ?]
  | |- reader (Octets.get_varint ≫= _) _ => eapply reader_bind; [apply reader_varint|]; intros ? ?
  | |- reader (Octets.get_bytes _ ≫= _) _ => eapply reader_bind; [apply reader_bytes; lia|]; intros ? ?
  | |- reader (if _ then _ else _) _ => apply reader_if; intros _
  end.
Qed.

Lemma reader_value : reader (Octets.get_bytes_with_varint_length (E:=Error)) octets_wf.
Proof.
  eapply reader_bind; [apply reader_varint|]. intros n Hn o Hwf.
  eapply wp_mono; [apply wp_get_bytes; [done|unfold is_varint in Hn; lia]| |by intros ?? [_ ->]].
  intros b o' (? & ? & ? & _). by split.
Qed.

(** The loop: fuel above the bytes left is enough. *)
Lemma reader_decode_loop fuel : ∀ b seen tp,
  decoded_ok tp → reader_in (Z.of_nat fuel) (decode_loop fuel b seen tp) decoded_ok.
Proof.
  induction fuel as [|fuel IH]; intros b seen tp Htp; [intros o [? _] Ho; simpl in Ho; lia|].
  cbn [decode_loop]. eapply reader_in_seq; [apply reader_in_cap|]. intros c Hc. cbv beta in Hc.
  destruct (c <=? 0); [by apply reader_in_all, reader_ret|].
  apply reader_in_varint. intros id Hid. case_bool_decide; [apply reader_in_all, reader_fail|].
  replace (Z.of_nat (S fuel) - 1) with (Z.of_nat fuel) by lia.
  eapply reader_in_bind; [apply reader_value|]. intros val Hval.
  pose proof (reader_decode_value b id tp Htp val Hval) as Hv. unfold wp in Hv.
  destruct (decode_value b id tp val) as [[tp'|e|] o']; cbn [fst]; [|apply reader_in_all|done].
  - destruct Hv as [_ Hv]. by eapply reader_in_lift; [done|apply IH].
  - intros o Hwf. by split.
Qed.

(** C40. Decoding transport parameters is safe: on any bytes the loop ends and
    nothing panics, and every accepted set of parameters is in range: a payload
    size of at least 1200, stream counts up to 2^60, an exponent up to 20, a
    delay below 2^14, and at least two connection ids. *)
Theorem transport_params_safe buf b :
  bytes_ok buf → decode buf b ≠ Panic ∧ ∀ tp, decode buf b = Ok tp → decoded_ok tp.
Proof.
  intros Hb. unfold decode.
  assert (octets_wf (Octets.with_slice buf)) as Hwf.
  { split; [|done]. cbn. pose proof (zlen_nonneg buf). lia. }
  pose proof (reader_decode_loop (S (length buf)) b ∅ _ decoded_ok_default _ Hwf) as Hr.
  cbn [Octets.with_slice o_buf o_off] in Hr. specialize (Hr ltac:(unfold zlen; lia)). unfold wp in Hr.
  destruct (decode_loop _ _ _ _ _) as [[tp| |] o']; cbn [fst]; split; try done.
  intros tp' [= <-]. by destruct Hr.
Qed.
End wire.

(** ** Witnesses *)

(** A server behind a Retry, with large limits. *)
Definition large_params : TransportParams.t :=
  TransportParams.mk (Some (replicate 20 7)) 30000 (Some 12345) 65527 (2 ^ 30) (2 ^ 30) (2 ^ 30) (2 ^ 30)
    100 100 3 25 true 2 (Some (replicate 20 8)) (Some (replicate 20 9)) (Some 65536).


(** [encode_transport_params] can fail on legitimate parameters: its buffer of 128
    bytes is too small for a server behind a Retry with large limits. *)
Theorem params_buffer_too_small :
  TransportParams.encode_transport_params large_params true = Err BufferTooShort ∧
  ∃ bs, TransportParams.encode large_params true (replicate 206 0) = Ok bs ∧ zlen bs = 158.
Proof. split; [by vm_compute|]. eexists. split; vm_compute; reflexivity. Qed.


Definition no_delay_params : TransportParams.t :=
  TransportParams.with_exponent 0 (TransportParams.with_ack_delay 0 TransportParams.default).

Lemma zero_ack_delay_lost_witness :
  ∃ bs tp', TransportParams.encode no_delay_params false (replicate 206 0) = Ok bs ∧
    TransportParams.decode bs true = Ok tp' ∧
    TransportParams.ack_delay_exponent tp' = 3 ∧ TransportParams.max_ack_delay tp' = 25.
Proof.
  apply (zero_ack_delay_lost no_delay_params false (replicate 206 0)); try done.
  constructor; vm_compute; try done; try (by split); try (right; by split).
Defined.

Lemma transport_params_safe_witness :
  TransportParams.decode [1; 2; 3] false ≠ Panic.
Proof.
  refine (proj1 (transport_params_safe [1; 2; 3] false _)). solve_bytes.
Defined.
