(* ===== verification/Times.v ===== *)
(** * Instants, durations and floating point

    Durations are nanoseconds; an instant is the nanoseconds since some origin.
    The standard library panics when a sum leaves the 64 bits of its seconds.
    A non-negative [f64] or [f32] is the rational number it stands for, and
    every operation rounds to the nearest with 53 or 24 significant bits, ties
    to even.  The values of the code are neither subnormal nor infinite. *)
From Stdlib Require Import QArith Qpower Qround Lqa.
From S2P Require Import Prelude.
Local Open Scope Z_scope.

Definition SEC : Z := 1000000000.

(** [Duration::MAX] and the limits of [Instant] (signed seconds). *)
Definition DURATION_MAX : Z := 2 ^ 64 * SEC - 1.
Definition INSTANT_MAX : Z := 2 ^ 63 * SEC - 1.
Definition INSTANT_MIN : Z := - (2 ^ 63 * SEC).

Definition is_duration (d : Z) : Prop := 0 <= d <= DURATION_MAX.

(** [d1 + d2], [d * k] for a [u32], [t + d] and [t - d]. *)
Definition dur_add {E} (d1 d2 : Z) : result E Z := if d1 + d2 <=? DURATION_MAX then Ok (d1 + d2) else Panic.
Definition dur_mul {E} (d k : Z) : result E Z := if d * k <=? DURATION_MAX then Ok (d * k) else Panic.
Definition inst_add {E} (t d : Z) : result E Z := if t + d <=? INSTANT_MAX then Ok (t + d) else Panic.
Definition inst_sub {E} (t d : Z) : result E Z := if INSTANT_MIN <=? t - d then Ok (t - d) else Panic.
(** [t1 - t2], [t1.duration_since(t2)], [t1.saturating_duration_since(t2)]: all saturate. *)
Definition duration_since (t1 t2 : Z) : Z := Z.max 0 (t1 - t2).
(** [d.saturating_add(e)] *)
Definition dur_saturating_add (d e : Z) : Z := Z.min DURATION_MAX (d + e).

(** ** Floating point *)

(** [n / d], to the nearest integer, ties to even. *)
Definition round_half_even (n d : Z) : Z :=
  let q := n / d in
  let r := n mod d in
  if (d <? 2 * r) || ((d =? 2 * r) && Z.odd q) then q + 1 else q.

(** [2 ^ e] for any exponent. *)
Definition two_power (e : Z) : Q := Qpower 2 e.

Definition round_q (x : Q) : Z := round_half_even (Qnum x) (Zpos (Qden x)).

(** The nearest number with [p] significant bits. *)
Definition rnd (p : Z) (x : Q) : Q :=
  if Qle_bool x 0 then 0%Q
  else
    let k := Z.log2 (Qnum x) - Z.log2 (Zpos (Qden x)) in
    let e := (if Qle_bool (two_power k) x then k + 1 else k) - p in
    Qred (inject_Z (round_q (x / two_power e)) * two_power e)%Q.

Definition f64 : Q → Q := rnd 53.
Definition f32 : Q → Q := rnd 24.

(** [x as f64] for an unsigned integer, and back: truncated, saturating. *)
Definition f64_of_int (n : Z) : Q := f64 (inject_Z n).
Definition int_of_f64 (x : Q) : Z := Z.min u64_max (Qnum x / Zpos (Qden x)).

(** [as_secs_f64], [as_secs_f32] *)
Definition as_secs (rn : Q → Q) (d : Z) : Q :=
  rn (rn (inject_Z (d / SEC)) + rn (rn (inject_Z (d mod SEC)) / rn (inject_Z SEC)))%Q.
(** [from_secs_f64], [from_secs_f32]: to the nearest nanosecond. *)
Definition from_secs {E} (x : Q) : result E Z :=
  let d := round_q (x * inject_Z SEC)%Q in if d <=? DURATION_MAX then Ok d else Panic.

Definition mul_f64 {E} (d : Z) (x : Q) : result E Z := from_secs (f64 (x * as_secs f64 d)%Q).
Definition div_f32 {E} (d : Z) (x : Q) : result E Z := from_secs (f32 (as_secs f32 d / x)%Q).

Example nine_eighths : mul_f64 (E:=Error) (333 * 1000000) (9 # 8) = Ok 374625000.
Proof. vm_compute. reflexivity. Qed.
Example tenth : as_secs f64 100000000 = (3602879701896397 # 36028797018963968)%Q.
Proof. vm_compute. reflexivity. Qed.
Example quarter_window : div_f32 (E:=Error) (300 * SEC) 4 = Ok (75 * SEC).
Proof. vm_compute. reflexivity. Qed.

(** ** Bounds *)

Lemma dur_add_ok {E} a b : a + b <= DURATION_MAX → dur_add (E:=E) a b = Ok (a + b).
Proof. intros H. unfold dur_add. by rewrite (proj2 (Z.leb_le _ _)). Qed.
Lemma dur_mul_ok {E} a b : a * b <= DURATION_MAX → dur_mul (E:=E) a b = Ok (a * b).
Proof. intros H. unfold dur_mul. by rewrite (proj2 (Z.leb_le _ _)). Qed.
Lemma inst_add_ok {E} a b : a + b <= INSTANT_MAX → inst_add (E:=E) a b = Ok (a + b).
Proof. intros H. unfold inst_add. by rewrite (proj2 (Z.leb_le _ _)). Qed.
Lemma inst_sub_ok {E} a b : INSTANT_MIN <= a - b → inst_sub (E:=E) a b = Ok (a - b).
Proof. intros H. unfold inst_sub. by rewrite (proj2 (Z.leb_le _ _)). Qed.

Section rounding.
Local Open Scope Q_scope.

Lemma round_half_even_bounds n d : (0 < d)%Z → (0 <= n)%Z →
  (0 <= round_half_even n d)%Z ∧ (2 * n - d <= 2 * d * round_half_even n d <= 2 * n + d)%Z.
Proof.
  intros Hd Hn. unfold round_half_even. pose proof (Z.div_mod n d ltac:(lia)). pose proof (Z.mod_pos_bound n d Hd).
  pose proof (Z.div_pos n d Hn Hd). destruct (_ || _) eqn:E; [|split; nia].
  apply orb_true_iff in E as [E|E]; [apply Z.ltb_lt in E|apply andb_true_iff in E as [E _]; apply Z.eqb_eq in E]; split; nia.
Qed.

Lemma round_q_bounds x : 0 <= x → (0 <= round_q x)%Z ∧ x - (1 # 2) <= inject_Z (round_q x) <= x + (1 # 2).
Proof.
  intros Hx. destruct x as [n d]. unfold round_q, Qle in *. cbn in *. rewrite Z.mul_1_r in Hx.
  destruct (round_half_even_bounds n (Zpos d)) as (H1 & H2 & H3); [done|lia|]. split; [done|]. split; nia.
Qed.

Lemma two_power_pos e : 0 < two_power e.
Proof. apply Qpower_0_lt. lra. Qed.
Lemma two_power_le a b : (a <= b)%Z → two_power a <= two_power b.
Proof. intros H. apply Qpower_le_compat_l; [done|lra]. Qed.

(** A rational by the binary logarithms of its parts. *)
Lemma log2_below x : 0 < x → two_power (Z.log2 (Qnum x) - Z.log2 (Zpos (Qden x)) - 1) <= x.
Proof.
  destruct x as [n d]. cbn [Qnum Qden]. intros Hn. assert (0 < n)%Z as Hn' by (unfold Qlt in Hn; cbn in Hn; lia).
  destruct (Z.log2_spec n Hn') as [H1 _]. destruct (Z.log2_spec (Zpos d) ltac:(lia)) as [_ H2].
  pose proof (Z.log2_nonneg n). pose proof (Z.log2_nonneg (Zpos d)). set (a := Z.log2 n) in *. set (c := Z.log2 (Zpos d)) in *.
  replace (a - c - 1)%Z with (a + - (c + 1))%Z by lia. unfold two_power. rewrite Qpower_plus, Qpower_opp by lra.
  assert (∀ k, (0 <= k)%Z → 2 ^ k == inject_Z (2 ^ k))%Q as Hp by (intros k Hk; symmetry; exact (Zpower_Qpower 2 k Hk)).
  rewrite !Hp by lia. apply Qle_shift_div_r; [change 0 with (inject_Z 0); rewrite <- Zlt_Qlt; apply Z.pow_pos_nonneg; lia|].
  unfold Qle. cbn [Qnum Qden Qmult inject_Z]. rewrite Pos.mul_1_r, Z.mul_1_r. change (Z.succ c) with (c + 1)%Z in *. nia.
Qed.

(** Rounding is to a multiple of a unit that is at most the number. *)
Lemma rnd_unit p x : (1 <= p)%Z → 0 < x → ∃ u, 0 < u <= x ∧ rnd p x == inject_Z (round_q (x / u)) * u.
Proof.
  intros Hp Hx. unfold rnd. set (k := (Z.log2 (Qnum x) - _)%Z). set (e := ((if _ : bool then _ else _) - p)%Z).
  destruct (Qle_bool x 0) eqn:E0; [apply Qle_bool_iff in E0; lra|]. exists (two_power e).
  split; [|apply Qred_correct]. split; [apply two_power_pos|]. unfold e. destruct (Qle_bool (two_power k) x) eqn:E.
  - apply Qle_bool_iff in E. eapply Qle_trans; [|exact E]. apply two_power_le. lia.
  - eapply Qle_trans; [|by apply log2_below]. apply two_power_le. fold k. lia.
Qed.

(** Rounding at most halves or doubles a number. *)
Lemma rnd_bounds p x : (1 <= p)%Z → 0 <= x → 0 <= rnd p x ∧ rnd p x <= 2 * x ∧ x <= 2 * rnd p x.
Proof.
  intros Hp Hx. destruct (Qlt_le_dec 0 x) as [Hpos|H0].
  - destruct (rnd_unit p x Hp Hpos) as (u & Hu & ->). assert (1 <= x / u) as Hy by (apply Qle_shift_div_l; lra).
    destruct (round_q_bounds (x / u)) as (H1 & H2 & H3); [lra|]. assert (x / u * u == x) as E by (field; lra).
    assert (inject_Z (round_q (x / u)) * u <= (x / u + (1 # 2)) * u) by (apply Qmult_le_compat_r; lra).
    assert ((x / u - (1 # 2)) * u <= inject_Z (round_q (x / u)) * u) by (apply Qmult_le_compat_r; lra).
    split_and!; [apply Qmult_le_0_compat; [unfold Qle; cbn; lia|lra]|lra..].
  - unfold rnd. rewrite (proj2 (Qle_bool_iff _ _) H0). lra.
Qed.

Lemma round_q_int x z : x == inject_Z z → round_q x = z.
Proof.
  destruct x as [n d]. unfold Qeq, round_q, round_half_even. cbn. rewrite Z.mul_1_r. intros ->.
  rewrite Z.div_mul, Z.mod_mul by done. zdecide. done.
Qed.

(** A number with at most [p] significant bits is not rounded. *)
Lemma rnd_exact p m k x : (0 <= m < 2 ^ p)%Z → (0 <= p)%Z → x == inject_Z m * two_power k → rnd p x == x.
Proof.
  intros Hm Hp Hxm. pose proof (two_power_pos k) as Hk. unfold rnd.
  set (l := (Z.log2 (Qnum x) - _)%Z). set (e := ((if _ : bool then _ else _) - p)%Z). pose proof (two_power_pos e) as He.
  assert (0 <= inject_Z m) as Hi by (unfold Qle; cbn; lia).
  assert (0 <= x) by (rewrite Hxm; apply Qmult_le_0_compat; lra).
  destruct (Qle_bool x 0) eqn:E0; [apply Qle_bool_iff in E0; lra|]. rewrite Qred_correct.
  assert (0 < x) as Hx by (apply Qnot_le_lt; intros E; apply Qle_bool_iff in E; congruence).
  assert (x < two_power (p + k)) as Hlt.
  { rewrite Hxm. unfold two_power in *. rewrite Qpower_plus by lra. apply Qmult_lt_compat_r; [done|].
    change (Qpower 2 p) with (Qpower (inject_Z 2) p). rewrite <- (Zpower_Qpower 2 p Hp). rewrite <- Zlt_Qlt. lia. }
  assert (e <= k)%Z as Hek.
  { assert (∀ a, two_power a <= x → (a < p + k)%Z) as Ha.
    { intros a Hax. destruct (Z.lt_ge_cases a (p + k)) as [|Hge]; [done|]. pose proof (two_power_le _ _ Hge). lra. }
    unfold e. destruct (Qle_bool (two_power l) x) eqn:E.
    - apply Qle_bool_iff, Ha in E. lia.
    - specialize (Ha _ (log2_below x Hx)). fold l in Ha. lia. }
  assert (two_power (k - e) * two_power e == two_power k) as Eke.
  { unfold two_power. rewrite <- Qpower_plus by lra. by replace (k - e + e)%Z with k by lia. }
  assert (inject_Z (m * 2 ^ (k - e)) == inject_Z m * two_power (k - e)) as Em.
  { by rewrite inject_Z_mult, (Zpower_Qpower 2) by lia. }
  rewrite (round_q_int _ (m * 2 ^ (k - e))).
  - rewrite Em, <- Qmult_assoc, Eke. by symmetry.
  - rewrite Em, Hxm, <- Eke. field. lra.
Qed.

(** Integers below [2^53] and their halves are exact. *)
Lemma f64_of_int_exact n : (0 <= n < 2 ^ 53)%Z → f64_of_int n == inject_Z n.
Proof. intros Hn. apply (rnd_exact 53 n 0); [done..|]. unfold two_power. cbn [Qpower]. lra. Qed.
Lemma f64_half n x : (0 <= n < 2 ^ 53)%Z → x == inject_Z n * (1 # 2) → f64 x == inject_Z n * (1 # 2).
Proof. intros Hn Hx. rewrite <- Hx. apply (rnd_exact 53 n (-1)); [done..|]. exact Hx. Qed.

Lemma int_of_f64_floor x : int_of_f64 x = Z.min u64_max (Qfloor x).
Proof. by destruct x. Qed.

Lemma as_secs_bounds d : (0 <= d)%Z → 0 <= as_secs f64 d ∧ as_secs f64 d <= 8 * inject_Z d / inject_Z SEC.
Proof.
  intros Hd. unfold as_secs, f64. pose proof (Z.div_mod d SEC ltac:(done)) as Hdm. pose proof (Z.mod_pos_bound d SEC ltac:(done)) as Hm.
  pose proof (Z.div_pos d SEC Hd ltac:(done)) as Hq. assert (∀ z, (0 <= z)%Z → 0 <= inject_Z z) as Hinj by (intros z Hz; unfold Qle; cbn; lia).
  set (s := (d / SEC)%Z) in *. set (n := (d mod SEC)%Z) in *.
  assert (rnd 53 (inject_Z SEC) = inject_Z SEC) as -> by by vm_compute.
  destruct (rnd_bounds 53 (inject_Z s)) as (Hs1 & Hs2 & _); [done|apply Hinj; lia|]. destruct (rnd_bounds 53 (inject_Z n)) as (Hn1 & Hn2 & _); [done|apply Hinj; lia|].
  set (r1 := rnd 53 (inject_Z s)) in *. set (r2 := rnd 53 (inject_Z n)) in *.
  assert (0 <= r2 / inject_Z SEC) by (apply Qle_shift_div_l; [done|lra]).
  destruct (rnd_bounds 53 (r2 / inject_Z SEC)) as (Hf1 & Hf2 & _); [done..|].
  set (r3 := rnd 53 (r2 / inject_Z SEC)) in *. destruct (rnd_bounds 53 (r1 + r3)) as (Ha1 & Ha2 & _); [done|lra|]. split; [done|].
  eapply Qle_trans; [exact Ha2|]. apply Qle_shift_div_l; [done|].
  assert (inject_Z d == inject_Z SEC * inject_Z s + inject_Z n) as -> by (rewrite <- inject_Z_mult, <- inject_Z_plus; by rewrite Hdm at 1).
  assert (r3 * inject_Z SEC <= 2 * r2) as H3.
  { apply Qle_trans with (2 * (r2 / inject_Z SEC) * inject_Z SEC); [by apply Qmult_le_compat_r|].
    assert (2 * (r2 / inject_Z SEC) * inject_Z SEC == 2 * r2) as -> by (field; by vm_compute). lra. }
  assert (0 <= inject_Z s) by by apply Hinj. change (inject_Z SEC) with (1000000000 # 1) in *. lra.
Qed.

(** Multiplication by a small factor does not panic. *)
Lemma mul_f64_bounds {E} d x : (0 <= d <= 2 ^ 32 * SEC)%Z → 0 <= x <= 2 → ∃ r, mul_f64 (E:=E) d x = Ok r ∧ (0 <= r <= 32 * d + 1)%Z.
Proof.
  intros Hd [Hx Hx2]. destruct (as_secs_bounds d) as [H1 H2]; [lia|]. unfold mul_f64, from_secs.
  set (a := as_secs f64 d) in *. assert (0 <= x * a) by by apply Qmult_le_0_compat. destruct (rnd_bounds 53 (x * a)) as (Hr1 & Hr2 & _); [done..|].
  change (rnd 53 (x * a)) with (f64 (x * a)) in *. set (r := f64 (x * a)) in *.
  destruct (round_q_bounds (r * inject_Z SEC)) as (Hq1 & _ & Hq2); [by apply Qmult_le_0_compat|]. set (q := round_q _) in *.
  assert (r <= 4 * a) by (eapply Qle_trans; [exact Hr2|]; assert (x * a <= 2 * a) by (by apply Qmult_le_compat_r); lra).
  assert (a * inject_Z SEC <= 8 * inject_Z d) as Ha.
  { apply Qle_trans with (8 * inject_Z d / inject_Z SEC * inject_Z SEC); [by apply Qmult_le_compat_r|].
    assert (8 * inject_Z d / inject_Z SEC * inject_Z SEC == 8 * inject_Z d) as -> by (field; by vm_compute). lra. }
  assert (inject_Z q <= inject_Z (32 * d + 1)) as Hq.
  { rewrite inject_Z_plus, inject_Z_mult. change (inject_Z SEC) with (1000000000 # 1) in *. change (inject_Z 32) with (32 # 1). change (inject_Z 1) with 1. lra. }
  rewrite <- Zle_Qle in Hq. change (2 ^ 32 * SEC)%Z with 4294967296000000000%Z in Hd.
  change DURATION_MAX with 18446744073709551615999999999%Z. rewrite (proj2 (Z.leb_le q _)) by lia. eexists. split; [reflexivity|lia].
Qed.
End rounding.
