(* ===== verification/Minmax.v ===== *)
(** * Windowed minimum ([quiche/src/minmax.rs]) and round-trip times ([quiche/src/recovery/rtt.rs]) *)
From Stdlib Require Import QArith.
From S2P Require Import Prelude Times.
Local Open Scope Z_scope.

Module MinmaxSample.
Record t := mk { time : Z; value : Z }.
End MinmaxSample.

(** ** The filter *)
Module Minmax.
(** The array of three estimates. *)
Record t := mk { est0 : MinmaxSample.t; est1 : MinmaxSample.t; est2 : MinmaxSample.t }.

(** [*minmax] *)
Definition deref (m : t) : Z := MinmaxSample.value (est0 m).

(** [now] is [Instant::now()]. *)
Definition new (now val : Z) : t := let s := MinmaxSample.mk now val in mk s s s.

Definition reset (time meas : Z) (m : t) : Z * t :=
  let val := MinmaxSample.mk time meas in
  (meas, mk val val val).

Definition subwin_update (win time meas : Z) (m : t) : result Error (Z * t) :=
  let val := MinmaxSample.mk time meas in
  let delta_time := duration_since time (MinmaxSample.time (est0 m)) in
  m' ← (if win <? delta_time then
          let m := mk (est1 m) (est2 m) val in
          Ok (if win <? duration_since time (MinmaxSample.time (est0 m)) then mk (est1 m) (est2 m) val else m)
        else
          quarter ← div_f32 win 4;
          half ← div_f32 win 2;
          Ok (if (MinmaxSample.time (est1 m) =? MinmaxSample.time (est0 m)) && (quarter <? delta_time) then mk (est0 m) val val
              else if (MinmaxSample.time (est2 m) =? MinmaxSample.time (est1 m)) && (half <? delta_time) then mk (est0 m) (est1 m) val
              else m));
  Ok (deref m', m').

Definition running_min (win time meas : Z) (m : t) : result Error (Z * t) :=
  let val := MinmaxSample.mk time meas in
  let delta_time := duration_since time (MinmaxSample.time (est2 m)) in
  if (meas <=? MinmaxSample.value (est0 m)) || (win <? delta_time) then Ok (reset time meas m)
  else
    let m :=
      if meas <=? MinmaxSample.value (est1 m) then mk (est0 m) val val
      else if meas <=? MinmaxSample.value (est2 m) then mk (est0 m) (est1 m) val
      else m in
    subwin_update win time meas m.

Definition running_max (win time meas : Z) (m : t) : result Error (Z * t) :=
  let val := MinmaxSample.mk time meas in
  let delta_time := duration_since time (MinmaxSample.time (est2 m)) in
  if (MinmaxSample.value (est0 m) <=? meas) || (win <? delta_time) then Ok (reset time meas m)
  else
    let m :=
      if MinmaxSample.value (est1 m) <=? meas then mk (est0 m) val val
      else if MinmaxSample.value (est2 m) <=? meas then mk (est0 m) (est1 m) val
      else m in
    subwin_update win time meas m.
End Minmax.

(** ** Round-trip times *)
Module RttStats.
Definition INITIAL_RTT : Z := 333 * 1000000.
Definition RTT_WINDOW : Z := 300 * SEC.

Record t := mk {
  latest_rtt : Z;
  smoothed_rtt : Z;
  rttvar : Z;
  min_rtt : Minmax.t;
  max_ack_delay : Z;
  first_rtt_sample : option Z
}.

(** [now] is [Instant::now()]. *)
Definition new (now max_ack_delay : Z) : t := mk 0 INITIAL_RTT (INITIAL_RTT / 2) (Minmax.new now 0) max_ack_delay None.

Definition update_rtt (latest_rtt ack_delay now : Z) (handshake_confirmed : bool) (r : t) : result Error t :=
  match first_rtt_sample r with
  | None => Ok (mk latest_rtt latest_rtt (latest_rtt / 2) (Minmax.reset now latest_rtt (min_rtt r)).2 (max_ack_delay r) (Some now))
  | Some first =>
      '(_, min_rtt) ← Minmax.running_min RTT_WINDOW now latest_rtt (min_rtt r);
      let ack_delay := if handshake_confirmed then Z.min ack_delay (max_ack_delay r) else ack_delay in
      threshold ← dur_add (Minmax.deref min_rtt) ack_delay;
      let adjusted_rtt := if threshold <=? latest_rtt then latest_rtt - ack_delay else latest_rtt in
      var3 ← dur_mul (rttvar r) 3;
      rttvar ← dur_add (var3 / 4) (Z.abs (smoothed_rtt r - adjusted_rtt) mod 2 ^ 64 / 4);
      srtt7 ← dur_mul (smoothed_rtt r) 7;
      smoothed_rtt ← dur_add (srtt7 / 8) (adjusted_rtt / 8);
      Ok (mk latest_rtt smoothed_rtt rttvar min_rtt (max_ack_delay r) (Some first))
  end.

Definition rtt (r : t) : Z := smoothed_rtt r.
(** [RttStats::min_rtt] *)
Definition get_min_rtt (r : t) : option Z :=
  let m := Minmax.deref (min_rtt r) in if negb (m =? 0) then Some m else None.
End RttStats.

(** ** The minimum over the window *)

Section minmax.
Import Minmax.
Implicit Types (h : list MinmaxSample.t) (e : MinmaxSample.t) (m : t).

(** [e] was measured, and nothing since then was smaller. *)
Definition tracked h e : Prop :=
  ∃ h1 h2, h = h1 ++ e :: h2 ∧ Forall (λ s, MinmaxSample.value e <= MinmaxSample.value s) h2.

Lemma tracked_new h e : tracked (h ++ [e]) e.
Proof. by exists h, []. Qed.
Lemma tracked_later h e s : tracked h e → MinmaxSample.value e <= MinmaxSample.value s → tracked (h ++ [s]) e.
Proof.
  intros (h1 & h2 & -> & Hh) Hs. exists h1, (h2 ++ [s]). split; [by rewrite <- app_assoc|]. apply Forall_app_2; [done|by apply Forall_singleton].
Qed.

(** The estimates in order of time and of value, all taken by [now]. *)
Definition minmax_ok h (now : Z) m : Prop :=
  tracked h (est0 m) ∧ tracked h (est1 m) ∧ tracked h (est2 m) ∧
  MinmaxSample.time (est0 m) <= MinmaxSample.time (est1 m) ∧ MinmaxSample.time (est1 m) <= MinmaxSample.time (est2 m) ∧
  MinmaxSample.time (est2 m) <= now ∧
  MinmaxSample.value (est0 m) <= MinmaxSample.value (est1 m) ∧ MinmaxSample.value (est1 m) <= MinmaxSample.value (est2 m).

Lemma reset_ok h time meas m : minmax_ok (h ++ [MinmaxSample.mk time meas]) time (reset time meas m).2.
Proof. unfold minmax_ok, reset. cbn. split_and!; try apply tracked_new; lia. Qed.

(** The divisions of the window. *)
Definition window_ok (win : Z) : Prop := ∃ quarter half, div_f32 (E:=Error) win 4 = Ok quarter ∧ div_f32 (E:=Error) win 2 = Ok half.
Lemma rtt_window_ok : window_ok RttStats.RTT_WINDOW.
Proof. eexists _, _. split; vm_compute; reflexivity. Qed.

(** What a measurement does to the estimates. *)
Lemma running_min_ok h now win time meas m :
  window_ok win → 0 <= win → minmax_ok h now m → now <= time →
  ∃ m', running_min win time meas m = Ok (deref m', m') ∧ minmax_ok (h ++ [MinmaxSample.mk time meas]) time m' ∧
    time - MinmaxSample.time (est0 m') <= win ∧ deref m' <= meas.
Proof.
  intros (quarter & half & Hq & Hh) Hwin (H0 & H1 & H2 & Ht1 & Ht2 & Hnow & Hv1 & Hv2) Htime.
  unfold running_min, duration_since. rewrite Z.max_r by lia. set (val := MinmaxSample.mk time meas).
  destruct (Z.leb_spec meas (MinmaxSample.value (est0 m))) as [Hle|Hgt]; cbn [orb].
  { exists (reset time meas m).2. split; [reflexivity|]. split; [apply reset_ok|]. cbn. lia. }
  destruct (Z.ltb_spec win (time - MinmaxSample.time (est2 m))) as [Hold|Hin].
  { exists (reset time meas m).2. split; [reflexivity|]. split; [apply reset_ok|]. cbn. lia. }
  set (m1 := if meas <=? MinmaxSample.value (est1 m) then _ else _).
  assert (minmax_ok (h ++ [val]) time m1 ∧ MinmaxSample.value (est0 m1) <= meas ∧ time - MinmaxSample.time (est2 m1) <= win ∧ MinmaxSample.value (est2 m1) <= meas) as (Hok & Hm & Hw & Hm2).
  { unfold m1. assert (∀ e, tracked h e → MinmaxSample.value e <= meas → tracked (h ++ [val]) e) as Hlater by (intros; by apply tracked_later).
    pose proof (tracked_new h val). unfold minmax_ok. repeat zcase; cbn; split_and!; try done; try lia; apply Hlater; done || lia. }
  clearbody m1. clear -Hq Hh Hwin Hok Hm Hw Hm2. destruct Hok as (H0 & H1 & H2 & Ht1 & Ht2 & Hnow & Hv1 & Hv2).
  unfold subwin_update, duration_since. fold val. pose proof (tracked_new h val). rewrite Z.max_r by lia.
  destruct (Z.ltb_spec win (time - MinmaxSample.time (est0 m1))); cbn [mbind result_bind est0 est1 est2].
  - rewrite Z.max_r by lia. eexists. split; [reflexivity|].
    destruct (Z.ltb_spec win (time - MinmaxSample.time (est1 m1))); unfold minmax_ok, deref; cbn; split_and!; done || lia.
  - rewrite Hq, Hh. cbn [mbind result_bind]. eexists. split; [reflexivity|].
    destruct (_ && _); [|destruct (_ && _)]; unfold minmax_ok, deref; cbn; split_and!; done || lia.
Qed.
End minmax.

(** ** Round-trip times *)

Section rtt.
Import RttStats.

(** A sample: the round trip, the peer's delay, the time, and whether the
    handshake was confirmed. *)
Record rtt_sample := Sample { s_rtt : Z; s_delay : Z; s_now : Z; s_confirmed : bool }.

Definition rtt_step (r : result Error t) (s : rtt_sample) : result Error t :=
  r ← r; update_rtt (s_rtt s) (s_delay s) (s_now s) (s_confirmed s) r.

(** The round trips that [update_rtt] has been given. *)
Definition measured (ss : list rtt_sample) : list MinmaxSample.t := (λ s, MinmaxSample.mk (s_now s) (s_rtt s)) <$> ss.

(** All estimates are durations up to [H]. *)
Definition rtt_within (H : Z) (r : t) : Prop :=
  0 <= latest_rtt r <= H ∧ 0 <= smoothed_rtt r <= H ∧ 0 <= rttvar r <= H ∧ 0 <= max_ack_delay r <= DURATION_MAX.

(** The longest round trip that the arithmetic is claimed for: 136 years. *)
Definition RTT_BOUND : Z := 2 ^ 32 * SEC.

Definition sample_ok (H : Z) (s : rtt_sample) : Prop := 0 <= s_rtt s <= H ∧ 0 <= s_delay s <= u64_max * 1000.

(** The state after the samples [ss], the last of them at [now]. *)
Definition rtt_ok (H : Z) (ss : list rtt_sample) (now : Z) (r : t) : Prop :=
  rtt_within H r ∧
  match first_rtt_sample r with
  | None => ss = []
  | Some _ => minmax_ok (measured ss) now (min_rtt r) ∧ Minmax.deref (min_rtt r) <= latest_rtt r ∧ 0 <= Minmax.deref (min_rtt r) <= H ∧
      now - MinmaxSample.time (Minmax.est0 (min_rtt r)) <= RTT_WINDOW
  end.

Lemma tracked_value H ss e : Forall (sample_ok H) ss → tracked (measured ss) e → 0 <= MinmaxSample.value e <= H.
Proof.
  intros Hss (h1 & h2 & E & _). assert (e ∈ measured ss) as He by (rewrite E; apply elem_of_app; right; constructor).
  apply list_elem_of_fmap in He as (s & -> & Hs). rewrite Forall_forall in Hss. apply (Hss s Hs).
Qed.

Lemma update_rtt_ok H ss now s r :
  0 <= H <= RTT_BOUND → rtt_ok H ss now r → Forall (sample_ok H) (ss ++ [s]) → now <= s_now s →
  ∃ r', update_rtt (s_rtt s) (s_delay s) (s_now s) (s_confirmed s) r = Ok r' ∧ rtt_ok H (ss ++ [s]) (s_now s) r' ∧
    latest_rtt r' = s_rtt s ∧ max_ack_delay r' = max_ack_delay r ∧
    (∀ B, 0 <= B → s_rtt s <= B → (first_rtt_sample r ≠ None → smoothed_rtt r <= B ∧ rttvar r <= B) → smoothed_rtt r' <= B ∧ rttvar r' <= B).
Proof.
  intros HH [(Hl & Hs & Hv & Hd) Hf] Hss Hnow. pose proof Hss as Hss'. apply Forall_app in Hss' as [_ Hs1]. apply Forall_singleton in Hs1 as [Hr Ha].
  change RTT_BOUND with 4294967296000000000 in HH. unfold rtt_ok, rtt_within.
  assert (measured (ss ++ [s]) = measured ss ++ [MinmaxSample.mk (s_now s) (s_rtt s)]) as Em by (unfold measured; by rewrite fmap_app).
  unfold update_rtt. destruct (first_rtt_sample r) as [first|].
  - destruct Hf as (Hok & _ & _ & _).
    destruct (running_min_ok _ _ RTT_WINDOW (s_now s) (s_rtt s) _ rtt_window_ok ltac:(done) Hok Hnow) as (m & Hm & Hmok & Hmw & Hmle).
    rewrite Hm. cbn [mbind result_bind]. rewrite <- Em in Hmok.
    assert (0 <= Minmax.deref m <= H) as Hd0 by (apply (tracked_value H (ss ++ [s])); [done|apply Hmok]).
    set (delay := if s_confirmed s then _ else _). assert (0 <= delay <= u64_max * 1000) as Hdelay by (unfold delay; destruct (s_confirmed s); lia).
    change DURATION_MAX with 18446744073709551615999999999 in *.
    rewrite dur_add_ok by (change DURATION_MAX with 18446744073709551615999999999; lia). cbn [mbind result_bind].
    set (adjusted := if _ <=? _ then _ else _). assert (0 <= adjusted <= s_rtt s) as Hadj by (unfold adjusted; zcase; lia).
    clearbody adjusted delay. rewrite (dur_mul_ok (rttvar r) 3) by (change DURATION_MAX with 18446744073709551615999999999; lia). cbn [mbind result_bind].
    change (2 ^ 64) with 18446744073709551616. rewrite (Z.mod_small (Z.abs _)) by lia.
    pose proof (Z.div_mod (rttvar r * 3) 4 ltac:(lia)). pose proof (Z.mod_pos_bound (rttvar r * 3) 4 ltac:(lia)).
    pose proof (Z.div_mod (Z.abs (smoothed_rtt r - adjusted)) 4 ltac:(lia)). pose proof (Z.mod_pos_bound (Z.abs (smoothed_rtt r - adjusted)) 4 ltac:(lia)).
    rewrite (dur_add_ok (_ / 4)) by (change DURATION_MAX with 18446744073709551615999999999; lia). cbn [mbind result_bind].
    rewrite (dur_mul_ok (smoothed_rtt r) 7) by (change DURATION_MAX with 18446744073709551615999999999; lia). cbn [mbind result_bind].
    pose proof (Z.div_mod (smoothed_rtt r * 7) 8 ltac:(lia)). pose proof (Z.mod_pos_bound (smoothed_rtt r * 7) 8 ltac:(lia)).
    pose proof (Z.div_mod adjusted 8 ltac:(lia)). pose proof (Z.mod_pos_bound adjusted 8 ltac:(lia)).
    rewrite (dur_add_ok (_ / 8)) by (change DURATION_MAX with 18446744073709551615999999999; lia). cbn [mbind result_bind].
    eexists. split; [reflexivity|]. cbn. split_and!; try done; try lia. intros B HB HrB HsB. specialize (HsB ltac:(done)). lia.
  - subst ss. eexists. split; [reflexivity|]. cbn [latest_rtt smoothed_rtt rttvar max_ack_delay first_rtt_sample min_rtt].
    pose proof (Z.div_mod (s_rtt s) 2 ltac:(lia)). pose proof (Z.mod_pos_bound (s_rtt s) 2 ltac:(lia)).
    split_and!; try done; try lia; [rewrite Em; apply (reset_ok [])|unfold RTT_WINDOW, SEC; cbn; lia..].
Qed.

Lemma new_rtt_ok H now delay : INITIAL_RTT <= H → is_duration delay → rtt_ok H [] now (new now delay).
Proof. intros HH Hd. unfold rtt_ok, rtt_within, new, is_duration in *. cbn [latest_rtt smoothed_rtt rttvar max_ack_delay first_rtt_sample min_rtt].
  change (INITIAL_RTT / 2) with 166500000. change INITIAL_RTT with 333000000 in *. split_and!; done || lia. Qed.
End rtt.

(** Samples in the order of time. *)
Fixpoint times_from (now : Z) (ss : list rtt_sample) : Prop :=
  match ss with [] => True | s :: ss => now <= s_now s ∧ times_from (s_now s) ss end.

Lemma rtt_run H ss0 now r ss :
  0 <= H <= RTT_BOUND → rtt_ok H ss0 now r → Forall (sample_ok H) (ss0 ++ ss) → times_from now ss →
  ∃ r', foldl rtt_step (Ok r) ss = Ok r' ∧ rtt_ok H (ss0 ++ ss) (default now (s_now <$> last ss)) r' ∧
    RttStats.latest_rtt r' = default (RttStats.latest_rtt r) (s_rtt <$> last ss) ∧
    ∀ B, Forall (λ s, s_rtt s <= B) ss → (RttStats.first_rtt_sample r ≠ None ∨ ss = [] → RttStats.smoothed_rtt r <= B ∧ RttStats.rttvar r <= B) → 0 <= B →
      RttStats.smoothed_rtt r' <= B ∧ RttStats.rttvar r' <= B.
Proof.
  intros HH. revert ss0 now r. induction ss as [|s ss IH]; intros ss0 now r Hr Hss Ht.
  - exists r. rewrite app_nil_r. split_and!; [done..|]. intros B _ Hb _. apply Hb. by right.
  - destruct Ht as [Hnow Ht]. replace (ss0 ++ s :: ss) with ((ss0 ++ [s]) ++ ss) in * by by rewrite <- app_assoc.
    pose proof Hss as Hss'. apply Forall_app in Hss' as [Hss1 _].
    destruct (update_rtt_ok H ss0 now s r HH Hr Hss1 Hnow) as (r1 & Hu & Hr1 & Hl1 & _ & Hb1).
    destruct (IH _ _ r1 Hr1 Hss Ht) as (r' & Hrun & Hr' & Hl & Hb). exists r'. cbn [foldl rtt_step mbind result_bind].
    rewrite Hu, last_cons. split_and!; [done|by destruct (last ss)|rewrite Hl; by destruct (last ss)|].
    + intros B HB Hrb HB0. apply Forall_cons in HB as [Hsb HB]. apply Hb; [done| |done]. intros _. apply Hb1; [done|done|]. intros Hne. apply Hrb. by left.
Qed.

(** C28. The round-trip estimates stay within the measured times: in every
    sequence of samples in the order of time, none longer than 136 years, no
    arithmetic of [update_rtt] overflows, the smoothed round trip and the
    variation are at most the longest sample, the latest round trip is the last
    sample, and [min_rtt] is a sample of the last five minutes that no later
    sample was below.  An earlier sample of the window may be below it. *)
Theorem rtt_estimates H now0 delay ss :
  RttStats.INITIAL_RTT <= H <= RTT_BOUND → is_duration delay → Forall (sample_ok H) ss → times_from now0 ss →
  ∃ r, foldl rtt_step (Ok (RttStats.new now0 delay)) ss = Ok r ∧ rtt_within H r ∧
    ∀ s ss', ss = ss' ++ [s] →
      (∀ B, 0 <= B → Forall (λ s, s_rtt s <= B) ss → RttStats.rtt r <= B ∧ RttStats.rttvar r <= B) ∧
      RttStats.latest_rtt r = s_rtt s ∧
      ∃ s1 s2 e, ss = s1 ++ e :: s2 ∧ Minmax.deref (RttStats.min_rtt r) = s_rtt e ∧ s_now s - s_now e <= RttStats.RTT_WINDOW ∧
        Forall (λ s, s_rtt e <= s_rtt s) s2.
Proof.
  intros HH Hd Hss Ht. assert (0 <= H <= RTT_BOUND) as HH' by (change RttStats.INITIAL_RTT with 333000000 in HH; lia).
  pose proof (new_rtt_ok H now0 delay (proj1 HH) Hd) as Hnew.
  destruct (rtt_run H [] now0 _ ss HH' Hnew Hss Ht) as (r & Hrun & [Hw Hf] & Hlast & Hb). exists r. split_and!; [done..|].
  intros s ss' Ess. rewrite Ess, last_snoc in Hlast, Hf. cbn in Hlast, Hf. rewrite <- Ess in Hf. split_and!; [|done|].
  - intros B HB0 HB. apply Hb; [done| |done]. intros [?|?]; [done|by destruct ss'; subst].
  - cbn [app] in Hf. destruct (RttStats.first_rtt_sample r); [|by destruct ss'; subst].
    destruct Hf as (((h1 & h2 & Em & Hh) & _) & _ & _ & Hwin). unfold measured in Em.
    apply fmap_app_inv in Em as (s1 & s2' & _ & Es2 & E). destruct s2' as [|e s2]; [done|]. injection Es2 as Ee Es2.
    exists s1, s2, e. unfold Minmax.deref. rewrite Ee in *. cbn in *. split_and!; [done..|]. subst h2. by rewrite Forall_fmap in Hh.
Qed.

(** Three samples: 100, 80 and 120 milliseconds. *)
Lemma rtt_estimates_witness :
  ∃ r, foldl rtt_step (Ok (RttStats.new 0 25000000))
         [Sample 100000000 0 (1 * SEC) false; Sample 80000000 5000000 (2 * SEC) false; Sample 120000000 30000000 (3 * SEC) true] = Ok r ∧
    RttStats.rtt r <= 120000000 ∧ Minmax.deref (RttStats.min_rtt r) = 80000000.
Proof.
  destruct (rtt_estimates RTT_BOUND 0 25000000
    [Sample 100000000 0 (1 * SEC) false; Sample 80000000 5000000 (2 * SEC) false; Sample 120000000 30000000 (3 * SEC) true])
    as (r & Hr & _ & Hs).
  - split; [vm_compute; discriminate|lia].
  - split; [lia|vm_compute; discriminate].
  - repeat constructor; vm_compute; discriminate.
  - unfold SEC. cbn. lia.
  - exists r. split; [exact Hr|]. split.
    + destruct (Hs _ [Sample 100000000 0 (1 * SEC) false; Sample 80000000 5000000 (2 * SEC) false] eq_refl) as (HB & _).
      apply HB; [lia|]. repeat constructor; vm_compute; discriminate.
    + vm_compute in Hr. injection Hr as <-. reflexivity.
Defined.

(** The filter keeps three estimates: of the samples 10, 11, 20 and 25
    milliseconds after 1, 2, 81 and 302 seconds it ends with 20, although the
    second one is not older than five minutes. *)
Lemma window_sample_missed :
  let ms := 1000000 in
  match foldl rtt_step (Ok (RttStats.new 0 (25 * ms)))
          [Sample (10 * ms) 0 (1 * SEC) false; Sample (11 * ms) 0 (2 * SEC) false; Sample (20 * ms) 0 (81 * SEC) false; Sample (25 * ms) 0 (302 * SEC) false] with
  | Ok r => Minmax.deref (RttStats.min_rtt r) = 20 * ms
  | _ => False
  end ∧ 302 * SEC - 2 * SEC <= RttStats.RTT_WINDOW.
Proof. by vm_compute. Qed.
