(* ===== verification/Congest.v ===== *)
(** * Congestion control ([quiche/src/recovery/congestion])

    The state that all algorithms share, pacing, HyStart++, proportional rate
    reduction and delivery rate estimation, and the algorithms Reno and
    "disabled".  An algorithm is a record of functions, as in the code; the
    state that CUBIC, BBR and BBRv2 keep for themselves is the parameter [S]. *)
From Stdlib Require Import QArith Qabs.
From S2P Require Import Prelude Ranges Frames Times Minmax.
Local Open Scope Z_scope.

(** ** Packets ([quiche/src/recovery/mod.rs]) *)

Module Sent.
Section sent.
Context `{NetCoding}.

Record t := mk {
  pkt_num : Z;
  frames : list Frame.t;
  time_sent : Z;
  time_acked : option Z;
  time_lost : option Z;
  size : Z;
  ack_eliciting : bool;
  in_flight : bool;
  delivered : Z;
  delivered_time : Z;
  first_sent_time : Z;
  is_app_limited : bool;
  tx_in_flight : Z;
  lost : Z;
  has_data : bool;
  pmtud : bool
}.
Definition set_frames (v : list Frame.t) (x : t) : t := mk
  (pkt_num x) v (time_sent x) (time_acked x) (time_lost x) (size x) (ack_eliciting x) (in_flight x) (delivered x)
  (delivered_time x) (first_sent_time x) (is_app_limited x) (tx_in_flight x) (lost x) (has_data x) (pmtud x).
Definition set_time_sent (v : Z) (x : t) : t := mk
  (pkt_num x) (frames x) v (time_acked x) (time_lost x) (size x) (ack_eliciting x) (in_flight x) (delivered x)
  (delivered_time x) (first_sent_time x) (is_app_limited x) (tx_in_flight x) (lost x) (has_data x) (pmtud x).
Definition set_time_acked (v : option Z) (x : t) : t := mk
  (pkt_num x) (frames x) (time_sent x) v (time_lost x) (size x) (ack_eliciting x) (in_flight x) (delivered x)
  (delivered_time x) (first_sent_time x) (is_app_limited x) (tx_in_flight x) (lost x) (has_data x) (pmtud x).
Definition set_time_lost (v : option Z) (x : t) : t := mk
  (pkt_num x) (frames x) (time_sent x) (time_acked x) v (size x) (ack_eliciting x) (in_flight x) (delivered x)
  (delivered_time x) (first_sent_time x) (is_app_limited x) (tx_in_flight x) (lost x) (has_data x) (pmtud x).
(** What [Rate::on_packet_sent] sets. *)
Definition set_rate (first_sent_time delivered_time delivered : Z) (is_app_limited : bool) (tx_in_flight lost : Z) (x : t) : t :=
  mk (pkt_num x) (frames x) (time_sent x) (time_acked x) (time_lost x) (size x) (ack_eliciting x) (in_flight x)
  delivered delivered_time first_sent_time is_app_limited tx_in_flight lost (has_data x) (pmtud x).
End sent.
End Sent.

Module Acked.
Record t := mk {
  pkt_num : Z;
  time_sent : Z;
  size : Z;
  rtt : Z;
  delivered : Z;
  delivered_time : Z;
  first_sent_time : Z;
  is_app_limited : bool
}.
End Acked.

(** ** Proportional rate reduction ([prr.rs]) *)
Module PRR.
Record t := mk {
  prr_delivered : Z;
  recoverfs : Z;
  prr_out : Z;
  snd_cnt : Z
}.
Definition set_prr_delivered (v : Z) (x : t) : t := mk v (recoverfs x) (prr_out x) (snd_cnt x).
Definition set_prr_out (v : Z) (x : t) : t := mk (prr_delivered x) (recoverfs x) v (snd_cnt x).
Definition set_snd_cnt (v : Z) (x : t) : t := mk (prr_delivered x) (recoverfs x) (prr_out x) v.

Definition default : t := mk 0 0 0 0.

Definition on_packet_sent (sent_bytes : Z) : M t Error unit :=
  p ← get;
  out ← lift (uadd (prr_out p) sent_bytes);
  modify (set_prr_out out);;
  modify (λ p, set_snd_cnt (saturating_sub (snd_cnt p) sent_bytes) p).

Definition congestion_event (bytes_in_flight : Z) : M t Error unit := put (mk 0 bytes_in_flight 0 0).

Definition on_packet_acked (delivered_data pipe ssthresh max_datagram_size : Z) : M t Error unit :=
  p ← get;
  delivered ← lift (uadd (prr_delivered p) delivered_data);
  modify (set_prr_delivered delivered);;
  cnt ← lift (
    if ssthresh <? pipe then
      if 0 <? recoverfs p then
        n ← umul delivered ssthresh;
        n ← uadd n (recoverfs p);
        n ← usub n 1;
        Ok (saturating_sub (n / recoverfs p) (prr_out p))
      else Ok 0
    else
      limit ← uadd (Z.max (saturating_sub delivered (prr_out p)) delivered_data) max_datagram_size;
      room ← usub ssthresh pipe;
      Ok (Z.min room limit));
  modify (set_snd_cnt (Z.max cnt 0)).
End PRR.

(** ** HyStart++ ([hystart.rs]) *)
Module Hystart.
Definition MIN_RTT_THRESH : Z := 4 * 1000000.
Definition MAX_RTT_THRESH : Z := 16 * 1000000.
Definition N_RTT_SAMPLE : Z := 8.
Definition CSS_GROWTH_DIVISOR : Z := 4.
Definition CSS_ROUNDS : Z := 5.

Record t := mk {
  enabled : bool;
  window_end : option Z;
  last_round_min_rtt : Z;
  current_round_min_rtt : Z;
  css_baseline_min_rtt : Z;
  rtt_sample_count : Z;
  css_start_time : option Z;
  css_round_count : Z
}.
Definition set_window_end (v : option Z) (x : t) : t := mk
  (enabled x) v (last_round_min_rtt x) (current_round_min_rtt x) (css_baseline_min_rtt x) (rtt_sample_count x)
  (css_start_time x) (css_round_count x).
Definition set_last_round_min_rtt (v : Z) (x : t) : t := mk
  (enabled x) (window_end x) v (current_round_min_rtt x) (css_baseline_min_rtt x) (rtt_sample_count x)
  (css_start_time x) (css_round_count x).
Definition set_current_round_min_rtt (v : Z) (x : t) : t := mk
  (enabled x) (window_end x) (last_round_min_rtt x) v (css_baseline_min_rtt x) (rtt_sample_count x)
  (css_start_time x) (css_round_count x).
Definition set_css_baseline_min_rtt (v : Z) (x : t) : t := mk
  (enabled x) (window_end x) (last_round_min_rtt x) (current_round_min_rtt x) v (rtt_sample_count x)
  (css_start_time x) (css_round_count x).
Definition set_rtt_sample_count (v : Z) (x : t) : t := mk
  (enabled x) (window_end x) (last_round_min_rtt x) (current_round_min_rtt x) (css_baseline_min_rtt x) v
  (css_start_time x) (css_round_count x).
Definition set_css_start_time (v : option Z) (x : t) : t := mk
  (enabled x) (window_end x) (last_round_min_rtt x) (current_round_min_rtt x) (css_baseline_min_rtt x)
  (rtt_sample_count x) v (css_round_count x).
Definition set_css_round_count (v : Z) (x : t) : t := mk
  (enabled x) (window_end x) (last_round_min_rtt x) (current_round_min_rtt x) (css_baseline_min_rtt x)
  (rtt_sample_count x) (css_start_time x) v.

Definition new (enabled : bool) : t := mk enabled None DURATION_MAX DURATION_MAX DURATION_MAX 0 None 0.

Definition in_css (h : t) : bool := enabled h && bool_decide (is_Some (css_start_time h)).

Definition start_round (pkt_num : Z) : M t Error unit :=
  h ← get;
  if bool_decide (window_end h = None) then
    modify (set_window_end (Some pkt_num));;
    modify (set_last_round_min_rtt (current_round_min_rtt h));;
    modify (set_current_round_min_rtt DURATION_MAX);;
    modify (set_rtt_sample_count 0)
  else mret ().

(** Leaves slow start when the round trips have grown, and comes back when they
    shrink. *)
Definition css_transition (now : Z) (h : t) : t :=
  match css_start_time h with
  | None =>
      if (N_RTT_SAMPLE <=? rtt_sample_count h) && negb (current_round_min_rtt h =? DURATION_MAX) &&
         negb (last_round_min_rtt h =? DURATION_MAX) then
        let rtt_thresh := Z.max (last_round_min_rtt h / 8) MIN_RTT_THRESH in
        let rtt_thresh := Z.min rtt_thresh MAX_RTT_THRESH in
        if dur_saturating_add (last_round_min_rtt h) rtt_thresh <=? current_round_min_rtt h then
          set_css_start_time (Some now) (set_css_baseline_min_rtt (current_round_min_rtt h) h)
        else h
      else h
  | Some _ =>
      if N_RTT_SAMPLE <=? rtt_sample_count h then
        let h := set_rtt_sample_count 0 h in
        if current_round_min_rtt h <? css_baseline_min_rtt h then
          set_css_round_count 0 (set_css_start_time None (set_css_baseline_min_rtt DURATION_MAX h))
        else h
      else h
  end.

(** [true] when congestion avoidance begins. *)
Definition on_packet_acked (packet : Acked.t) (rtt now : Z) : M t Error bool :=
  h ← get;
  if negb (enabled h) then mret false
  else
    modify (λ h, set_current_round_min_rtt (Z.min (current_round_min_rtt h) rtt) h);;
    count ← lift (uadd (rtt_sample_count h) 1);
    modify (set_rtt_sample_count count);;
    modify (css_transition now);;
    h ← get;
    match window_end h with
    | Some end_pkt_num =>
        if end_pkt_num <=? Acked.pkt_num packet then
          modify (set_window_end None);;
          if bool_decide (is_Some (css_start_time h)) then
            rounds ← lift (uadd (css_round_count h) 1);
            modify (set_css_round_count rounds);;
            if CSS_ROUNDS <=? rounds then modify (set_css_round_count 0);; mret true
            else mret false
          else mret false
        else mret false
    | None => mret false
    end.

Definition css_cwnd_inc (pkt_size : Z) (h : t) : Z := pkt_size / CSS_GROWTH_DIVISOR.

Definition congestion_event : M t Error unit :=
  modify (set_window_end None);;
  modify (set_css_start_time None).
End Hystart.

(** ** Delivery rate ([delivery_rate.rs]) *)
Module RateSample.
Record t := mk {
  delivery_rate : Z;
  is_app_limited : bool;
  interval : Z;
  delivered : Z;
  prior_delivered : Z;
  prior_time : option Z;
  send_elapsed : Z;
  ack_elapsed : Z;
  rtt : Z
}.
Definition set_delivery_rate (v : Z) (x : t) : t := mk
  v (is_app_limited x) (interval x) (delivered x) (prior_delivered x) (prior_time x) (send_elapsed x)
  (ack_elapsed x) (rtt x).
Definition set_interval (v : Z) (x : t) : t := mk
  (delivery_rate x) (is_app_limited x) v (delivered x) (prior_delivered x) (prior_time x) (send_elapsed x)
  (ack_elapsed x) (rtt x).
Definition set_delivered (v : Z) (x : t) : t := mk
  (delivery_rate x) (is_app_limited x) (interval x) v (prior_delivered x) (prior_time x) (send_elapsed x)
  (ack_elapsed x) (rtt x).
Definition default : t := mk 0 false 0 0 0 None 0 0 0.
End RateSample.

Module Rate.
Record t := mk {
  delivered : Z;
  delivered_time : Z;
  first_sent_time : Z;
  end_of_app_limited : Z;
  last_sent_packet : Z;
  largest_acked : Z;
  rate_sample : RateSample.t
}.
Definition set_delivered (v : Z) (x : t) : t := mk
  v (delivered_time x) (first_sent_time x) (end_of_app_limited x) (last_sent_packet x) (largest_acked x)
  (rate_sample x).
Definition set_delivered_time (v : Z) (x : t) : t := mk
  (delivered x) v (first_sent_time x) (end_of_app_limited x) (last_sent_packet x) (largest_acked x) (rate_sample x).
Definition set_first_sent_time (v : Z) (x : t) : t := mk
  (delivered x) (delivered_time x) v (end_of_app_limited x) (last_sent_packet x) (largest_acked x) (rate_sample x).
Definition set_end_of_app_limited (v : Z) (x : t) : t := mk
  (delivered x) (delivered_time x) (first_sent_time x) v (last_sent_packet x) (largest_acked x) (rate_sample x).
Definition set_last_sent_packet (v : Z) (x : t) : t := mk
  (delivered x) (delivered_time x) (first_sent_time x) (end_of_app_limited x) v (largest_acked x) (rate_sample x).
Definition set_largest_acked (v : Z) (x : t) : t := mk
  (delivered x) (delivered_time x) (first_sent_time x) (end_of_app_limited x) (last_sent_packet x) v
  (rate_sample x).
Definition set_rate_sample (v : RateSample.t) (x : t) : t := mk
  (delivered x) (delivered_time x) (first_sent_time x) (end_of_app_limited x) (last_sent_packet x)
  (largest_acked x) v.

(** [now] is [Instant::now()]. *)
Definition default (now : Z) : t := mk 0 now now 0 0 0 RateSample.default.

Definition app_limited_ (r : t) : bool := negb (end_of_app_limited r =? 0).

Section rate.
Context `{NetCoding}.

Definition on_packet_sent (pkt : Sent.t) (bytes_in_flight bytes_lost : Z) : M t Error Sent.t :=
  r ← get;
  (if bytes_in_flight =? 0 then
     modify (set_first_sent_time (Sent.time_sent pkt));;
     modify (set_delivered_time (Sent.time_sent pkt))
   else mret ());;
  r ← get;
  modify (set_last_sent_packet (Sent.pkt_num pkt));;
  mret (Sent.set_rate (first_sent_time r) (delivered_time r) (delivered r) (app_limited_ r) bytes_in_flight bytes_lost pkt).
End rate.

Definition update_rate_sample (pkt : Acked.t) (now : Z) : M t Error unit :=
  r ← get;
  total ← lift (uadd (delivered r) (Acked.size pkt));
  modify (set_delivered total);;
  modify (set_delivered_time now);;
  let s := rate_sample r in
  (if bool_decide (RateSample.prior_time s = None) || (RateSample.prior_delivered s <? Acked.delivered pkt) then
     modify (set_rate_sample
       (RateSample.mk (RateSample.delivery_rate s) (Acked.is_app_limited pkt) (RateSample.interval s) (RateSample.delivered s)
          (Acked.delivered pkt) (Some (Acked.delivered_time pkt))
          (duration_since (Acked.time_sent pkt) (Acked.first_sent_time pkt))
          (duration_since now (Acked.delivered_time pkt)) (Acked.rtt pkt)));;
     modify (set_first_sent_time (Acked.time_sent pkt))
   else mret ());;
  modify (λ r, set_largest_acked (Z.max (largest_acked r) (Acked.pkt_num pkt)) r).

Definition update_app_limited (v : bool) : M t Error unit :=
  modify (λ r, set_end_of_app_limited (if v then Z.max (last_sent_packet r) 1 else 0) r).

Definition generate_rate_sample (min_rtt : Z) : M t Error unit :=
  r ← get;
  (if app_limited_ r && (end_of_app_limited r <? largest_acked r) then update_app_limited false else mret ());;
  r ← get;
  let s := rate_sample r in
  if bool_decide (is_Some (RateSample.prior_time s)) then
    let interval := Z.max (RateSample.send_elapsed s) (RateSample.ack_elapsed s) in
    n ← lift (usub (delivered r) (RateSample.prior_delivered s));
    let s := RateSample.set_interval interval (RateSample.set_delivered n s) in
    if interval <? min_rtt then modify (set_rate_sample (RateSample.set_interval 0 s))
    else if negb (interval =? 0) then
      modify (set_rate_sample (RateSample.set_delivery_rate (int_of_f64 (f64 (f64_of_int n / as_secs f64 interval))) s))
    else modify (set_rate_sample s)
  else mret ().

Definition sample_delivery_rate (r : t) : Z := RateSample.delivery_rate (rate_sample r).
End Rate.

(** ** Pacing ([pacer.rs]) *)
Module Pacer.
Record t := mk {
  enabled : bool;
  capacity : Z;
  used : Z;
  rate : Z;
  last_update : Z;
  next_time : Z;
  max_datagram_size : Z;
  last_packet_size : option Z;
  iv : Z;
  max_pacing_rate : option Z
}.
Definition set_capacity (v : Z) (x : t) : t := mk
  (enabled x) v (used x) (rate x) (last_update x) (next_time x) (max_datagram_size x) (last_packet_size x) (iv x)
  (max_pacing_rate x).
Definition set_used (v : Z) (x : t) : t := mk
  (enabled x) (capacity x) v (rate x) (last_update x) (next_time x) (max_datagram_size x) (last_packet_size x)
  (iv x) (max_pacing_rate x).
Definition set_rate (v : Z) (x : t) : t := mk
  (enabled x) (capacity x) (used x) v (last_update x) (next_time x) (max_datagram_size x) (last_packet_size x)
  (iv x) (max_pacing_rate x).
Definition set_last_update (v : Z) (x : t) : t := mk
  (enabled x) (capacity x) (used x) (rate x) v (next_time x) (max_datagram_size x) (last_packet_size x) (iv x)
  (max_pacing_rate x).
Definition set_next_time (v : Z) (x : t) : t := mk
  (enabled x) (capacity x) (used x) (rate x) (last_update x) v (max_datagram_size x) (last_packet_size x) (iv x)
  (max_pacing_rate x).
Definition set_last_packet_size (v : option Z) (x : t) : t := mk
  (enabled x) (capacity x) (used x) (rate x) (last_update x) (next_time x) (max_datagram_size x) v (iv x)
  (max_pacing_rate x).
Definition set_iv (v : Z) (x : t) : t := mk
  (enabled x) (capacity x) (used x) (rate x) (last_update x) (next_time x) (max_datagram_size x)
  (last_packet_size x) v (max_pacing_rate x).

(** [a / b] on machine integers. *)
Definition udiv {E} (a b : Z) : result E Z := if b =? 0 then Panic else Ok (a / b).
Definition cap_rate (max_rate : option Z) (rate : Z) : Z := match max_rate with Some m => Z.min m rate | None => rate end.

(** [now] is [Instant::now()]. *)
Definition new (now : Z) (enabled : bool) (capacity rate max_datagram_size : Z) (max_pacing_rate : option Z) : result Error t :=
  q ← udiv capacity max_datagram_size;
  Ok (mk enabled (q * max_datagram_size) 0 (cap_rate max_pacing_rate rate) now now max_datagram_size None 0 max_pacing_rate).

(** Resets the pacer for the next burst. *)
Definition reset (now : Z) (p : t) : t :=
  mk (enabled p) (capacity p) 0 (rate p) now (Z.max (next_time p) now) (max_datagram_size p) None 0 (max_pacing_rate p).

Definition update (new_capacity new_rate now : Z) : M t Error unit :=
  p ← get;
  q ← lift (udiv new_capacity (max_datagram_size p));
  let new_capacity := q * max_datagram_size p in
  (if negb (capacity p =? new_capacity) then modify (reset now) else mret ());;
  modify (set_capacity new_capacity);;
  modify (set_rate (cap_rate (max_pacing_rate p) new_rate)).

(** [Duration::from_secs_f64(n as f64 / rate as f64)] *)
Definition secs_at (n rate : Z) : result Error Z := from_secs (f64 (f64_of_int n / f64_of_int rate)%Q).

Definition send (packet_size now : Z) : M t Error unit :=
  p ← get;
  if rate p =? 0 then modify (reset now)
  else
    (if negb (iv p =? 0) then
       next ← lift (inst_add (Z.max (next_time p) now) (iv p));
       modify (set_next_time next);;
       modify (set_iv 0)
     else mret ());;
    interval ← lift (secs_at (capacity p) (rate p));
    let elapsed := duration_since now (last_update p) in
    (if interval <? elapsed then modify (reset now) else mret ());;
    p ← get;
    used ← lift (uadd (used p) packet_size);
    modify (set_used used);;
    let same_size := match last_packet_size p with Some last_packet_size => last_packet_size =? packet_size | None => true end in
    modify (set_last_packet_size (Some packet_size));;
    if (capacity p <=? used) || negb same_size then
      iv ← lift (secs_at used (rate p));
      modify (set_iv iv);;
      modify (set_used 0);;
      modify (set_last_update now);;
      modify (set_last_packet_size None)
    else mret ().
End Pacer.

(** ** The shared state ([mod.rs]) *)
Module Congestion.
(** [PACING_MULTIPLIER] *)
Definition PACING_MULTIPLIER : Q := 5 # 4.
(** [recovery::LOSS_REDUCTION_FACTOR], [recovery::MINIMUM_WINDOW_PACKETS] *)
Definition LOSS_REDUCTION_FACTOR : Q := 1 # 2.
Definition MINIMUM_WINDOW_PACKETS : Z := 2.

Section congestion.
Context {S : Type} `{NetCoding}.

Record t := mk {
  state : S;
  hystart : Hystart.t;
  pacer : Pacer.t;
  prr : PRR.t;
  real_time : bool;
  send_quantum : Z;
  congestion_window : Z;
  ssthresh : Z;
  bytes_acked_sl : Z;
  bytes_acked_ca : Z;
  congestion_recovery_start_time : option Z;
  app_limited : bool;
  delivery_rate : Rate.t;
  initial_congestion_window_packets : Z;
  current_loss_epoch_start_time : option Z;
  current_loss_epoch_lost_packets_count : Z;
  max_lost_packets_per_epoch : option Z;
  smoothed_lost_packets_per_epoch : option Q;
  var_lost_packets_per_epoch : Q;
  max_datagram_size : Z;
  lost_count : Z
}.
Definition set_hystart (v : Hystart.t) (x : t) : t := mk
  (state x) v (pacer x) (prr x) (real_time x) (send_quantum x) (congestion_window x) (ssthresh x)
  (bytes_acked_sl x) (bytes_acked_ca x) (congestion_recovery_start_time x) (app_limited x) (delivery_rate x)
  (initial_congestion_window_packets x) (current_loss_epoch_start_time x) (current_loss_epoch_lost_packets_count x)
  (max_lost_packets_per_epoch x) (smoothed_lost_packets_per_epoch x) (var_lost_packets_per_epoch x)
  (max_datagram_size x) (lost_count x).
Definition set_pacer (v : Pacer.t) (x : t) : t := mk
  (state x) (hystart x) v (prr x) (real_time x) (send_quantum x) (congestion_window x) (ssthresh x)
  (bytes_acked_sl x) (bytes_acked_ca x) (congestion_recovery_start_time x) (app_limited x) (delivery_rate x)
  (initial_congestion_window_packets x) (current_loss_epoch_start_time x) (current_loss_epoch_lost_packets_count x)
  (max_lost_packets_per_epoch x) (smoothed_lost_packets_per_epoch x) (var_lost_packets_per_epoch x)
  (max_datagram_size x) (lost_count x).
Definition set_prr (v : PRR.t) (x : t) : t := mk
  (state x) (hystart x) (pacer x) v (real_time x) (send_quantum x) (congestion_window x) (ssthresh x)
  (bytes_acked_sl x) (bytes_acked_ca x) (congestion_recovery_start_time x) (app_limited x) (delivery_rate x)
  (initial_congestion_window_packets x) (current_loss_epoch_start_time x) (current_loss_epoch_lost_packets_count x)
  (max_lost_packets_per_epoch x) (smoothed_lost_packets_per_epoch x) (var_lost_packets_per_epoch x)
  (max_datagram_size x) (lost_count x).
Definition set_send_quantum (v : Z) (x : t) : t := mk
  (state x) (hystart x) (pacer x) (prr x) (real_time x) v (congestion_window x) (ssthresh x) (bytes_acked_sl x)
  (bytes_acked_ca x) (congestion_recovery_start_time x) (app_limited x) (delivery_rate x)
  (initial_congestion_window_packets x) (current_loss_epoch_start_time x) (current_loss_epoch_lost_packets_count x)
  (max_lost_packets_per_epoch x) (smoothed_lost_packets_per_epoch x) (var_lost_packets_per_epoch x)
  (max_datagram_size x) (lost_count x).
Definition set_congestion_window (v : Z) (x : t) : t := mk
  (state x) (hystart x) (pacer x) (prr x) (real_time x) (send_quantum x) v (ssthresh x) (bytes_acked_sl x)
  (bytes_acked_ca x) (congestion_recovery_start_time x) (app_limited x) (delivery_rate x)
  (initial_congestion_window_packets x) (current_loss_epoch_start_time x) (current_loss_epoch_lost_packets_count x)
  (max_lost_packets_per_epoch x) (smoothed_lost_packets_per_epoch x) (var_lost_packets_per_epoch x)
  (max_datagram_size x) (lost_count x).
Definition set_ssthresh (v : Z) (x : t) : t := mk
  (state x) (hystart x) (pacer x) (prr x) (real_time x) (send_quantum x) (congestion_window x) v (bytes_acked_sl x)
  (bytes_acked_ca x) (congestion_recovery_start_time x) (app_limited x) (delivery_rate x)
  (initial_congestion_window_packets x) (current_loss_epoch_start_time x) (current_loss_epoch_lost_packets_count x)
  (max_lost_packets_per_epoch x) (smoothed_lost_packets_per_epoch x) (var_lost_packets_per_epoch x)
  (max_datagram_size x) (lost_count x).
Definition set_bytes_acked_sl (v : Z) (x : t) : t := mk
  (state x) (hystart x) (pacer x) (prr x) (real_time x) (send_quantum x) (congestion_window x) (ssthresh x) v
  (bytes_acked_ca x) (congestion_recovery_start_time x) (app_limited x) (delivery_rate x)
  (initial_congestion_window_packets x) (current_loss_epoch_start_time x) (current_loss_epoch_lost_packets_count x)
  (max_lost_packets_per_epoch x) (smoothed_lost_packets_per_epoch x) (var_lost_packets_per_epoch x)
  (max_datagram_size x) (lost_count x).
Definition set_bytes_acked_ca (v : Z) (x : t) : t := mk
  (state x) (hystart x) (pacer x) (prr x) (real_time x) (send_quantum x) (congestion_window x) (ssthresh x)
  (bytes_acked_sl x) v (congestion_recovery_start_time x) (app_limited x) (delivery_rate x)
  (initial_congestion_window_packets x) (current_loss_epoch_start_time x) (current_loss_epoch_lost_packets_count x)
  (max_lost_packets_per_epoch x) (smoothed_lost_packets_per_epoch x) (var_lost_packets_per_epoch x)
  (max_datagram_size x) (lost_count x).
Definition set_congestion_recovery_start_time (v : option Z) (x : t) : t := mk
  (state x) (hystart x) (pacer x) (prr x) (real_time x) (send_quantum x) (congestion_window x) (ssthresh x)
  (bytes_acked_sl x) (bytes_acked_ca x) v (app_limited x) (delivery_rate x) (initial_congestion_window_packets x)
  (current_loss_epoch_start_time x) (current_loss_epoch_lost_packets_count x) (max_lost_packets_per_epoch x)
  (smoothed_lost_packets_per_epoch x) (var_lost_packets_per_epoch x) (max_datagram_size x) (lost_count x).
Definition set_app_limited (v : bool) (x : t) : t := mk
  (state x) (hystart x) (pacer x) (prr x) (real_time x) (send_quantum x) (congestion_window x) (ssthresh x)
  (bytes_acked_sl x) (bytes_acked_ca x) (congestion_recovery_start_time x) v (delivery_rate x)
  (initial_congestion_window_packets x) (current_loss_epoch_start_time x) (current_loss_epoch_lost_packets_count x)
  (max_lost_packets_per_epoch x) (smoothed_lost_packets_per_epoch x) (var_lost_packets_per_epoch x)
  (max_datagram_size x) (lost_count x).
Definition set_delivery_rate (v : Rate.t) (x : t) : t := mk
  (state x) (hystart x) (pacer x) (prr x) (real_time x) (send_quantum x) (congestion_window x) (ssthresh x)
  (bytes_acked_sl x) (bytes_acked_ca x) (congestion_recovery_start_time x) (app_limited x) v
  (initial_congestion_window_packets x) (current_loss_epoch_start_time x) (current_loss_epoch_lost_packets_count x)
  (max_lost_packets_per_epoch x) (smoothed_lost_packets_per_epoch x) (var_lost_packets_per_epoch x)
  (max_datagram_size x) (lost_count x).
Definition set_current_loss_epoch_start_time (v : option Z) (x : t) : t := mk
  (state x) (hystart x) (pacer x) (prr x) (real_time x) (send_quantum x) (congestion_window x) (ssthresh x)
  (bytes_acked_sl x) (bytes_acked_ca x) (congestion_recovery_start_time x) (app_limited x) (delivery_rate x)
  (initial_congestion_window_packets x) v (current_loss_epoch_lost_packets_count x) (max_lost_packets_per_epoch x)
  (smoothed_lost_packets_per_epoch x) (var_lost_packets_per_epoch x) (max_datagram_size x) (lost_count x).
Definition set_current_loss_epoch_lost_packets_count (v : Z) (x : t) : t := mk
  (state x) (hystart x) (pacer x) (prr x) (real_time x) (send_quantum x) (congestion_window x) (ssthresh x)
  (bytes_acked_sl x) (bytes_acked_ca x) (congestion_recovery_start_time x) (app_limited x) (delivery_rate x)
  (initial_congestion_window_packets x) (current_loss_epoch_start_time x) v (max_lost_packets_per_epoch x)
  (smoothed_lost_packets_per_epoch x) (var_lost_packets_per_epoch x) (max_datagram_size x) (lost_count x).
Definition set_lost_count (v : Z) (x : t) : t := mk
  (state x) (hystart x) (pacer x) (prr x) (real_time x) (send_quantum x) (congestion_window x) (ssthresh x)
  (bytes_acked_sl x) (bytes_acked_ca x) (congestion_recovery_start_time x) (app_limited x) (delivery_rate x)
  (initial_congestion_window_packets x) (current_loss_epoch_start_time x) (current_loss_epoch_lost_packets_count x)
  (max_lost_packets_per_epoch x) (smoothed_lost_packets_per_epoch x) (var_lost_packets_per_epoch x)
  (max_datagram_size x) v.
Definition set_loss_stats (max_lost : option Z) (smoothed : option Q) (var : Q) (x : t) : t :=
  mk (state x) (hystart x) (pacer x) (prr x) (real_time x) (send_quantum x) (congestion_window x) (ssthresh x) (bytes_acked_sl x)
  (bytes_acked_ca x) (congestion_recovery_start_time x) (app_limited x) (delivery_rate x) (initial_congestion_window_packets x)
  (current_loss_epoch_start_time x) (current_loss_epoch_lost_packets_count x) max_lost smoothed var (max_datagram_size x)
  (lost_count x).

(** [CongestionControlOps], the functions of an algorithm. *)
Record ops := mk_ops {
  ops_on_init : M t Error unit;
  ops_on_packet_sent : Z → Z → Z → M t Error unit;
  ops_on_packets_acked : Z → list Acked.t → Z → RttStats.t → M t Error (list Acked.t);
  ops_congestion_event : Z → Z → Sent.t → Z → M t Error unit;
  ops_checkpoint : M t Error unit;
  ops_rollback : M t Error bool;
  ops_has_custom_pacing : bool
}.

Definition in_congestion_recovery (sent_time : Z) (c : t) : bool :=
  match congestion_recovery_start_time c with Some start => sent_time <=? start | None => false end.

Definition set_pacing_rate (rate now : Z) : M t Error unit :=
  c ← get;
  zoom pacer set_pacer (Pacer.update (send_quantum c) rate now).

Definition schedule_next_packet (now packet_size : Z) : M t Error unit :=
  c ← get;
  initcwnd ← lift (umul (max_datagram_size c) (initial_congestion_window_packets c));
  let in_initcwnd := congestion_window c <? initcwnd in
  let sent_bytes := if negb (Pacer.enabled (pacer c)) || in_initcwnd then 0 else packet_size in
  zoom pacer set_pacer (Pacer.send sent_bytes now).

Definition get_packet_send_time (c : t) : Z := Pacer.next_time (pacer c).

(** [(x / y) as u64] for floats: infinity saturates, and not-a-number is 0. *)
Definition u64_of_div (x y : Q) : Z :=
  if Qeq_bool y 0 then if Qeq_bool x 0 then 0 else u64_max else int_of_f64 (f64 (x / y)).

Section with_ops.
Context (cc_ops : ops).

Definition from_config (now : Z) (s : S) (max_send_udp_payload_size packets : Z) (hystart_ pacing real_time_ : bool)
  (max_pacing_rate : option Z) : result Error t :=
  initial ← umul max_send_udp_payload_size packets;
  pacer ← Pacer.new now pacing initial 0 max_send_udp_payload_size max_pacing_rate;
  ((ops_on_init cc_ops;; get)
    (mk s (Hystart.new hystart_) pacer PRR.default real_time_ initial initial u64_max 0 0 None false (Rate.default now) packets
       None 0 None None 0 max_send_udp_payload_size 0)).1.

Definition on_packet_sent (bytes_in_flight sent_bytes now : Z) (pkt : Sent.t) (rtt_stats : RttStats.t) (bytes_lost : Z)
  (in_flight : bool) : M t Error Sent.t :=
  (if in_flight then
     c ← get;
     total ← lift (uadd bytes_in_flight sent_bytes);
     modify (set_app_limited (total <? congestion_window c));;
     ops_on_packet_sent cc_ops sent_bytes bytes_in_flight now;;
     zoom prr set_prr (PRR.on_packet_sent sent_bytes);;
     c ← get;
     if Hystart.enabled (hystart c) && (congestion_window c <? ssthresh c) then
       zoom hystart set_hystart (Hystart.start_round (Sent.pkt_num pkt))
     else mret ()
   else mret ());;
  (if negb (ops_has_custom_pacing cc_ops) && bool_decide (is_Some (RttStats.first_rtt_sample rtt_stats)) then
     c ← get;
     set_pacing_rate
       (u64_of_div (f64 (PACING_MULTIPLIER * f64_of_int (congestion_window c))) (as_secs f64 (RttStats.smoothed_rtt rtt_stats))) now
   else mret ());;
  schedule_next_packet now sent_bytes;;
  c ← get;
  let pkt := Sent.set_time_sent (get_packet_send_time c) pkt in
  zoom delivery_rate set_delivery_rate (Rate.on_packet_sent pkt bytes_in_flight bytes_lost).

Fixpoint update_rate_samples (acked : list Acked.t) (now : Z) : M t Error unit :=
  match acked with
  | [] => mret ()
  | pkt :: acked =>
      zoom delivery_rate set_delivery_rate (Rate.update_rate_sample pkt now);;
      update_rate_samples acked now
  end.

(** The statistics of the lost packets per round trip. *)
Definition record_loss_epoch (now rtt : Z) (c : t) : t :=
  match current_loss_epoch_start_time c with
  | None => c
  | Some start_time =>
      if rtt <? duration_since now start_time then
        let n := f64_of_int (current_loss_epoch_lost_packets_count c) in
        let '(smoothed, var) :=
          match smoothed_lost_packets_per_epoch c with
          | None => (n, 1%Q)
          | Some s =>
              (f64 (f64 (s * (7 # 8)) + f64 (n * (1 # 8))),
               f64 (f64 (f64 (var_lost_packets_per_epoch c * 3) / 4) + f64 (f64 (Qabs (s - n)) * (1 # 4))))%Q
          end in
        let max_lost := Z.max (default 0 (max_lost_packets_per_epoch c)) (current_loss_epoch_lost_packets_count c) in
        set_current_loss_epoch_lost_packets_count 0
          (set_current_loss_epoch_start_time None (set_loss_stats (Some max_lost) (Some smoothed) var c))
      else c
  end.

(** What remains in the list of acknowledged packets. *)
Definition on_packets_acked (bytes_in_flight : Z) (acked : list Acked.t) (rtt_stats : RttStats.t) (now : Z) : M t Error (list Acked.t) :=
  update_rate_samples acked now;;
  zoom delivery_rate set_delivery_rate (Rate.generate_rate_sample (Minmax.deref (RttStats.min_rtt rtt_stats)));;
  modify (record_loss_epoch now (RttStats.rtt rtt_stats));;
  ops_on_packets_acked cc_ops bytes_in_flight acked now rtt_stats.
End with_ops.
End congestion.
Arguments t S : clear implicits.
Arguments ops S {_}.
End Congestion.

(** ** Reno ([reno.rs]) *)
Module Reno.
Section reno.
Context `{NetCoding}.
Import Congestion.

Definition on_packet_acked (packet : Acked.t) (now : Z) (rtt_stats : RttStats.t) : M (t unit) Error unit :=
  r ← get;
  if in_congestion_recovery (Acked.time_sent packet) r then mret ()
  else if app_limited r then mret ()
  else if congestion_window r <? ssthresh r then
    sl ← lift (uadd (bytes_acked_sl r) (Acked.size packet));
    modify (set_bytes_acked_sl sl);;
    cwnd ← lift (uadd (congestion_window r)
      (if Hystart.in_css (hystart r) then Hystart.css_cwnd_inc (max_datagram_size r) (hystart r) else max_datagram_size r));
    modify (set_congestion_window cwnd);;
    leave ← zoom hystart set_hystart (Hystart.on_packet_acked packet (RttStats.latest_rtt rtt_stats) now);
    if (leave : bool) then modify (set_ssthresh cwnd) else mret ()
  else
    ca ← lift (uadd (bytes_acked_ca r) (Acked.size packet));
    modify (set_bytes_acked_ca ca);;
    if congestion_window r <=? ca then
      modify (set_bytes_acked_ca (ca - congestion_window r));;
      cwnd ← lift (uadd (congestion_window r) (max_datagram_size r));
      modify (set_congestion_window cwnd)
    else mret ().

(** [packets.drain(..)] *)
Fixpoint on_packets_acked (bytes_in_flight : Z) (packets : list Acked.t) (now : Z) (rtt_stats : RttStats.t) : M (t unit) Error (list Acked.t) :=
  match packets with
  | [] => mret []
  | pkt :: packets => on_packet_acked pkt now rtt_stats;; on_packets_acked bytes_in_flight packets now rtt_stats
  end.

(** [(n as f64 * LOSS_REDUCTION_FACTOR) as usize] *)
Definition reduce (n : Z) : Z := int_of_f64 (f64 (f64_of_int n * LOSS_REDUCTION_FACTOR)%Q).

Definition congestion_event (bytes_in_flight lost_bytes : Z) (largest_lost_pkt : Sent.t) (now : Z) : M (t unit) Error unit :=
  r ← get;
  if negb (in_congestion_recovery (Sent.time_sent largest_lost_pkt) r) then
    modify (set_congestion_recovery_start_time (Some now));;
    minimum ← lift (umul (max_datagram_size r) MINIMUM_WINDOW_PACKETS);
    let cwnd := Z.max (reduce (congestion_window r)) minimum in
    modify (set_congestion_window cwnd);;
    modify (set_bytes_acked_ca (reduce cwnd));;
    modify (set_ssthresh cwnd);;
    if Hystart.in_css (hystart r) then zoom hystart set_hystart Hystart.congestion_event else mret ()
  else mret ().

Definition RENO : ops unit :=
  mk_ops (mret ()) (λ _ _ _, mret ()) on_packets_acked congestion_event (mret ()) (mret true) false.
End reno.
End Reno.

(** ** No congestion control ([disabled_cc.rs]) *)
Module Disabled.
Section disabled.
Context `{NetCoding}.
Import Congestion.

Definition congestion_event (bytes_in_flight lost_bytes : Z) (largest_lost_pkt : Sent.t) (now : Z) : M (t unit) Error unit :=
  modify (set_congestion_window (u64_max - 1)).

Definition DISABLED_CC : ops unit :=
  mk_ops (mret ()) (λ _ _ _, mret ()) (λ _ packets _ _, mret packets) congestion_event (mret ()) (mret true) false.
End disabled.
End Disabled.
