(* ===== verification/CongestInv.v ===== *)
(** * Congestion control, verified

    What every congestion control algorithm must promise to loss recovery
    ([CongestionLaws]), that the shared state then stays within its bounds, that
    Reno and "disabled" keep the promise, and what Reno does on a loss. *)
From Stdlib Require Import QArith Qround Lqa.
From S2P Require Import Prelude Ranges Frames Times Minmax Congest.
Local Open Scope Z_scope.

(** ** Computations that neither fail nor panic *)

Section total.
Context {S : Type}.
Implicit Types s : S.

Definition total {A} (m : M S Error A) (Q : A → S → Prop) (s : S) : Prop := wp m Q (λ _ _, False) s.

Lemma total_bind {A B} (m : M S Error A) (k : A → M S Error B) Q s : total m (λ a s', total (k a) Q s') s → total (m ≫= k) Q s.
Proof. apply wp_bind. Qed.
Lemma total_ret {A} (a : A) (Q : A → S → Prop) s : Q a s → total (mret a) Q s.
Proof. done. Qed.
Lemma total_get (Q : S → S → Prop) s : Q s s → total get Q s.
Proof. done. Qed.
Lemma total_modify f (Q : unit → S → Prop) s : Q () (f s) → total (modify f) Q s.
Proof. done. Qed.
Lemma total_put s' (Q : unit → S → Prop) s : Q () s' → total (put s') Q s.
Proof. done. Qed.
Lemma total_lift {A} (r : result Error A) a (Q : A → S → Prop) s : r = Ok a → Q a s → total (lift r) Q s.
Proof. by intros ->. Qed.
Lemma total_mono {A} (m : M S Error A) (Q Q' : A → S → Prop) s : total m Q s → (∀ a s', Q a s' → Q' a s') → total m Q' s.
Proof. intros H HQ. by eapply wp_mono. Qed.
Lemma total_run {A} (m : M S Error A) Q s : total m Q s → ∃ a s', m s = (Ok a, s') ∧ Q a s'.
Proof. unfold total, wp. destruct (m s) as [[a|e|] s']; [eauto|done..]. Qed.
Lemma run_total {A} (m : M S Error A) (Q : A → S → Prop) s a s' : m s = (Ok a, s') → Q a s' → total m Q s.
Proof. unfold total, wp. by intros ->. Qed.
End total.

Lemma total_zoom {S T A} (g : S → T) (u : T → S → S) (m : M T Error A) Q (s : S) :
  total m (λ a t, Q a (u t s)) (g s) → total (zoom g u m) Q s.
Proof. intros H. by apply wp_zoom. Qed.

(** One step of a computation without alternatives. *)
Ltac tstep :=
  cbv beta iota;
  lazymatch goal with
  | |- total (_ ≫= _) _ _ => apply total_bind
  | |- total (mret _) _ _ => apply total_ret
  | |- total get _ _ => apply total_get
  | |- total (modify _) _ _ => apply total_modify
  | |- total (put _) _ _ => apply total_put
  | |- total (zoom _ _ _) _ _ => apply total_zoom
  | |- total (lift _) _ _ => eapply total_lift; [first [apply uadd_ok | apply usub_ok | apply umul_ok]; lia|]
  end; cbv beta.

(** ** The bounds *)

(** Packets of a connection, bytes of a packet, the pacing quantum, and the time
    that the clock may show (two years). *)
Definition PACKETS : Z := 2 ^ 36.
Definition PACKET_SIZE : Z := 65535.
Definition QUANTUM : Z := 2 ^ 20.
Definition HORIZON : Z := 2 ^ 26 * SEC.
(** What pacing can add to the time of the next packet. *)
Definition PACING : Z := 2 ^ 25 * SEC.
Definition SEND_TIME : Z := 2 ^ 62 * SEC.

Definition size_ok (size : Z) : Prop := 0 <= size <= PACKET_SIZE.
(** [n] packets have been sent. *)
Definition count_ok (n : Z) : Prop := 0 <= n <= PACKETS.

(** The same packet, with the records of pacing and rate estimation aside. *)
Section same_packet.
Context `{NetCoding}.
Record same_packet (p q : Sent.t) : Prop := {
  same_num : Sent.pkt_num q = Sent.pkt_num p;
  same_frames : Sent.frames q = Sent.frames p;
  same_acked : Sent.time_acked q = Sent.time_acked p;
  same_lost : Sent.time_lost q = Sent.time_lost p;
  same_size : Sent.size q = Sent.size p;
  same_eliciting : Sent.ack_eliciting q = Sent.ack_eliciting p;
  same_in_flight : Sent.in_flight q = Sent.in_flight p;
  same_data : Sent.has_data q = Sent.has_data p;
  same_pmtud : Sent.pmtud q = Sent.pmtud p
}.
End same_packet.

(** *** Pacing *)
Section pacing.
Import Pacer.

Record pacer_ok (n : Z) (p : t) : Prop := {
  pc_size : 0 < max_datagram_size p;
  pc_rate : 0 <= rate p <= u64_max;
  pc_cap : 0 <= capacity p;
  pc_small : rate p = 0 ∨ capacity p <= QUANTUM;
  pc_used : 0 <= used p <= capacity p;
  pc_iv : 0 <= iv p <= PACING;
  pc_next : 0 <= next_time p <= HORIZON + n * PACING;
  pc_max : match max_pacing_rate p with Some m => is_u64 m | None => True end
}.

Lemma pacer_more n n' p : n <= n' → pacer_ok n p → pacer_ok n' p.
Proof. intros Hn []. split; try done. change PACING with 33554432000000000 in *. nia. Qed.

Lemma cap_rate_ok m r : match m with Some m => is_u64 m | None => True end → 0 <= r <= u64_max → 0 <= cap_rate m r <= u64_max.
Proof. intros Hm Hr. destruct m; cbn; unfold is_u64 in *; lia. Qed.

Lemma udiv_ok {E} a b : 0 < b → udiv (E:=E) a b = Ok (a / b).
Proof. intros H. unfold udiv. by zdecide. Qed.

Lemma new_pacer_ok now on cap mds m n :
  0 <= now <= HORIZON → 0 <= cap → 0 < mds → match m with Some m => is_u64 m | None => True end → 0 <= n →
  ∃ p, Pacer.new now on cap 0 mds m = Ok p ∧ pacer_ok n p.
Proof.
  intros Hnow Hcap Hmds Hm Hn. unfold Pacer.new. rewrite udiv_ok by done. eexists. split; [reflexivity|].
  pose proof (Z.div_pos cap mds Hcap Hmds). split; cbn; try done; try nia.
  - apply cap_rate_ok; [done|lia].
  - left. destruct m; cbn; unfold is_u64 in *; lia.
  - change PACING with 33554432000000000. nia.
Qed.

Lemma reset_pacer_ok n now p : 0 <= now <= HORIZON → 0 <= n → pacer_ok n p → pacer_ok n (reset now p).
Proof. intros Hnow Hn []. split; cbn; try done; change PACING with 33554432000000000 in *; nia. Qed.

Lemma pacer_update_ok n cap r now p :
  0 <= cap <= QUANTUM → 0 <= r <= u64_max → 0 <= now <= HORIZON → 0 <= n → pacer_ok n p →
  total (update cap r now) (λ _ p', pacer_ok n p') p.
Proof.
  intros Hcap Hr Hnow Hn Hp. pose proof (pc_size _ _ Hp) as Hmds. unfold update. do 2 tstep. tstep. eapply total_lift; [by apply udiv_ok|].
  assert (0 <= cap / max_datagram_size p * max_datagram_size p <= cap) as Hq.
  { pose proof (Z.div_pos cap _ ltac:(lia) Hmds). pose proof (Z.mul_div_le cap _ Hmds). nia. }
  set (q := cap / _ * _) in *. tstep. destruct (Z.eqb_spec (capacity p) q) as [Hc|Hc]; cbn [negb].
  - repeat tstep. destruct Hp. split; cbn; try done; try lia; [by apply cap_rate_ok].
  - repeat tstep. apply (reset_pacer_ok _ _ _ Hnow Hn) in Hp. destruct Hp. split; cbn in *; try done; try lia. by apply cap_rate_ok.
Qed.

(** The time that [n] bytes take. *)
Lemma secs_at_ok n r : 0 <= n <= QUANTUM + PACKET_SIZE → 1 <= r <= u64_max → ∃ d, secs_at n r = Ok d ∧ 0 <= d <= PACING.
Proof.
  intros Hn Hr. unfold secs_at, from_secs. assert (∀ z, 0 <= z → (0 <= inject_Z z)%Q) as Hinj by (intros z Hz; unfold Qle; cbn; lia).
  destruct (rnd_bounds 53 (inject_Z n)) as (H1 & H2 & _); [lia|apply Hinj; lia|].
  destruct (rnd_bounds 53 (inject_Z r)) as (_ & _ & H3); [lia|apply Hinj; lia|]. change (rnd 53 (inject_Z ?z)) with (f64_of_int z) in *.
  assert (1 <= inject_Z r)%Q by (unfold Qle; cbn; lia). assert (inject_Z n <= 2097152)%Q as Hn2.
  { change 2097152%Q with (inject_Z 2097152). rewrite <- Zle_Qle. change QUANTUM with 1048576 in Hn. unfold PACKET_SIZE in Hn. lia. }
  set (x := f64_of_int n) in *. set (y := f64_of_int r) in *.
  assert (0 <= x / y <= 2 * x)%Q as [Hd0 Hd].
  { split; [apply Qle_shift_div_l; lra|]. apply Qle_shift_div_r; [lra|].
    assert (0 <= x * (2 * y - 1))%Q by (apply Qmult_le_0_compat; lra). lra. }
  destruct (rnd_bounds 53 (x / y)%Q) as (Hf1 & Hf2 & _); [lia|done|]. change (rnd 53 (x / y)) with (f64 (x / y)) in *.
  set (f := f64 (x / y)%Q) in *. assert (f <= 16777216)%Q as Hf by lra.
  destruct (round_q_bounds (f * inject_Z SEC)%Q) as (Hq1 & _ & Hq2); [by apply Qmult_le_0_compat|]. set (q := round_q _) in *.
  assert (f * inject_Z SEC <= 16777216 * inject_Z SEC)%Q by by apply Qmult_le_compat_r.
  assert (inject_Z q <= inject_Z PACING)%Q as Hq.
  { change (inject_Z PACING) with (33554432000000000 # 1)%Q. change (inject_Z SEC) with (1000000000 # 1)%Q in *. lra. }
  rewrite <- Zle_Qle in Hq. change DURATION_MAX with 18446744073709551615999999999. change PACING with 33554432000000000 in Hq. zdecide.
  eexists. split; [reflexivity|]. done.
Qed.

Lemma pacer_send_ok n size now p :
  size_ok size → 0 <= now <= HORIZON → 0 <= n < PACKETS → pacer_ok n p →
  total (send size now) (λ _ p', pacer_ok (n + 1) p') p.
Proof.
  intros Hsize Hnow Hn Hp. unfold send. do 2 tstep. destruct (Z.eqb_spec (rate p) 0) as [H0|H0].
  { tstep. apply reset_pacer_ok; [done|lia|]. apply (pacer_more n); [lia|done]. }
  tstep. apply (total_mono _ (λ _ p1, pacer_ok (n + 1) p1 ∧ rate p1 = rate p ∧ capacity p1 = capacity p)).
  { destruct (Z.eqb_spec (iv p) 0) as [Hi|Hi]; cbn [negb]; [tstep; split; [apply (pacer_more n); [lia|done]|done]|].
    destruct Hp. change PACKETS with 68719476736 in Hn. change PACING with 33554432000000000 in *. change HORIZON with 67108864000000000 in *.
    tstep. eapply total_lift; [apply inst_add_ok; change INSTANT_MAX with 9223372036854775807999999999; nia|].
    repeat tstep. split; [|done]. split; cbn; try done; change PACING with 33554432000000000; change HORIZON with 67108864000000000; lia. }
  clear Hp. intros [] p1 (Hp1 & Hr1 & Hc1). pose proof (pc_rate _ _ Hp1) as Hrate. rewrite <- Hr1, <- Hc1 in *. assert (capacity p1 <= QUANTUM) as Hcap by (destruct (pc_small _ _ Hp1); lia).
  pose proof (pc_cap _ _ Hp1). destruct (secs_at_ok (capacity p1) (rate p1)) as (interval & Hi & _); [unfold PACKET_SIZE; lia|lia|].
  tstep. eapply total_lift; [done|]. tstep. apply (total_mono _ (λ _ p2, pacer_ok (n + 1) p2 ∧ rate p2 = rate p1 ∧ capacity p2 = capacity p1)).
  { destruct (_ <? _); tstep; [split; [apply reset_pacer_ok; done || lia|done]|done]. }
  intros [] p2 (Hp2 & Hr2 & Hc2). rewrite <- Hr2, <- Hc2 in *. clear p1 Hp1 Hr1 Hc1 Hr2 Hc2 Hi.
  unfold size_ok in Hsize. pose proof (pc_used _ _ Hp2). change PACKET_SIZE with 65535 in *. change QUANTUM with 1048576 in *.
  repeat tstep. destruct (_ || _) eqn:E.
  - destruct (secs_at_ok (used p2 + size) (rate p2)) as (d & Hd & Hdp); [change QUANTUM with 1048576; unfold PACKET_SIZE; lia|lia|].
    tstep. eapply total_lift; [done|]. repeat tstep. destruct Hp2. split; cbn; try done; lia.
  - apply orb_false_iff in E as [E _]. apply Z.leb_gt in E. tstep. destruct Hp2. split; cbn; try done; lia.
Qed.
End pacing.

(** *** The shared state *)
Section shared.
Context `{NetCoding} {S : Type}.
Import Congestion.
Implicit Types c : Congestion.t S.

(** What the algorithms leave alone, and what only they read. *)
Definition shared c := (pacer c, prr c, send_quantum c, delivery_rate c, initial_congestion_window_packets c, current_loss_epoch_lost_packets_count c, max_datagram_size c, lost_count c).
Definition own c := (state c, congestion_window c, ssthresh c, bytes_acked_sl c, bytes_acked_ca c, max_datagram_size c).

(** [n] packets have been sent, [a] acknowledged. *)
Definition rate_ok (n a : Z) (r : Rate.t) : Prop :=
  0 <= RateSample.prior_delivered (Rate.rate_sample r) <= Rate.delivered r ∧ Rate.delivered r <= PACKET_SIZE * a.
Definition hystart_ok (a : Z) (h : Hystart.t) : Prop := 0 <= Hystart.rtt_sample_count h <= a ∧ 0 <= Hystart.css_round_count h <= a.
Definition prr_ok (n : Z) (p : PRR.t) : Prop := 0 <= PRR.prr_out p <= PACKET_SIZE * n ∧ 0 <= PRR.snd_cnt p <= PACKET_SIZE * n.
Definition config_ok c : Prop :=
  0 < max_datagram_size c <= PACKET_SIZE ∧ 0 <= initial_congestion_window_packets c ∧
  max_datagram_size c * initial_congestion_window_packets c <= QUANTUM ∧ 0 <= send_quantum c <= QUANTUM.

(** [n] packets have been sent, [a] acknowledged, [l] lost. *)
Record shared_ok (n a l : Z) c : Prop := {
  sh_pacer : pacer_ok n (pacer c);
  sh_prr : prr_ok n (prr c);
  sh_rate : rate_ok n a (delivery_rate c);
  sh_config : config_ok c;
  sh_lost : 0 <= lost_count c <= l ∧ 0 <= current_loss_epoch_lost_packets_count c <= l;
  sh_window : 0 <= congestion_window c <= u64_max
}.

(** An algorithm: its functions, from a state with [a] acknowledged packets.
    They return, leave the shared state alone and keep the algorithm's own
    invariant, which depends on nothing else. *)
Class CongestionLaws (cc : ops S) := {
  algo_ok : Z → t S → Prop;
  algo_frame a c c' : own c' = own c → algo_ok a c → algo_ok a c';
  algo_window a c : algo_ok a c → 0 <= congestion_window c <= u64_max - 1;
  algo_resize a w c : 0 <= w <= QUANTUM → algo_ok a c → algo_ok a (set_congestion_window w c);
  algo_init c : config_ok c → congestion_window c = max_datagram_size c * initial_congestion_window_packets c →
    ssthresh c = u64_max → bytes_acked_sl c = 0 → bytes_acked_ca c = 0 → hystart_ok 0 (hystart c) →
    total (ops_on_init cc) (λ _ c', algo_ok 0 c' ∧ hystart_ok 0 (hystart c') ∧ shared c' = shared c) c;
  algo_sent a bytes bif now c : algo_ok a c → hystart_ok a (hystart c) →
    total (ops_on_packet_sent cc bytes bif now) (λ _ c', algo_ok a c' ∧ hystart_ok a (hystart c') ∧ shared c' = shared c) c;
  algo_acked a bif acked now stats c : algo_ok a c → hystart_ok a (hystart c) → config_ok c → 0 <= a → a + zlen acked <= PACKETS →
    Forall (λ p, size_ok (Acked.size p)) acked →
    total (ops_on_packets_acked cc bif acked now stats)
      (λ _ c', algo_ok (a + zlen acked) c' ∧ hystart_ok (a + zlen acked) (hystart c') ∧ shared c' = shared c) c;
  algo_lost a bif lost pkt now c : algo_ok a c → hystart_ok a (hystart c) → config_ok c → 0 <= a <= PACKETS →
    total (ops_congestion_event cc bif lost pkt now) (λ _ c', algo_ok a c' ∧ hystart_ok a (hystart c') ∧ shared c' = shared c) c;
  algo_checkpoint a c : algo_ok a c → hystart_ok a (hystart c) →
    total (ops_checkpoint cc) (λ _ c', algo_ok a c' ∧ hystart_ok a (hystart c') ∧ shared c' = shared c) c;
  algo_rollback a c : algo_ok a c → hystart_ok a (hystart c) →
    total (ops_rollback cc) (λ _ c', algo_ok a c' ∧ hystart_ok a (hystart c') ∧ shared c' = shared c) c
}.

Context (cc : ops S) `{!CongestionLaws cc}.

(** The congestion state of a connection. *)
Definition cong_ok (n a l : Z) c : Prop := shared_ok n a l c ∧ algo_ok a c ∧ hystart_ok a (hystart c).

Lemma rate_ok_more n a n' a' r : n <= n' → a <= a' → rate_ok n a r → rate_ok n' a' r.
Proof. unfold rate_ok, PACKET_SIZE. lia. Qed.
Lemma prr_ok_more n n' p : n <= n' → prr_ok n p → prr_ok n' p.
Proof. unfold prr_ok, PACKET_SIZE. lia. Qed.

(** The calls to the algorithm keep the shared part. *)
Lemma shared_kept n a l c c' : shared c' = shared c → 0 <= congestion_window c' <= u64_max → shared_ok n a l c → shared_ok n a l c'.
Proof.
  intros E Hw []. unfold shared in E. injection E as Ep Er Eq Ed Ei El Em Ec.
  split; rewrite ?Ep, ?Er, ?Ed, ?El, ?Ec; try done. unfold config_ok in *. by rewrite Eq, Ei, Em.
Qed.

Lemma cong_kept n a l c c' :
  cong_ok n a l c → algo_ok a c' ∧ hystart_ok a (hystart c') ∧ shared c' = shared c → cong_ok n a l c'.
Proof.
  intros (Hs & _) (Ha & Hh & E). split; [|done]. eapply shared_kept; [done| |done]. pose proof (algo_window _ _ Ha). lia.
Qed.

Lemma u64_of_f64 x : (0 <= x)%Q → 0 <= int_of_f64 (f64 x) <= u64_max.
Proof.
  intros Hx. destruct (rnd_bounds 53 x) as [H0 _]; [done..|]. rewrite int_of_f64_floor. fold f64 in H0.
  pose proof (Qfloor_resp_le _ _ H0) as Hf. change (Qfloor 0) with 0 in Hf. lia.
Qed.

Lemma pacing_rate_ok w d : 0 <= w → 0 <= d → 0 <= u64_of_div (f64 (PACING_MULTIPLIER * f64_of_int w)) (as_secs f64 d) <= u64_max.
Proof.
  intros Hw Hd. unfold u64_of_div. destruct (as_secs_bounds d Hd) as [Hs _].
  destruct (Qeq_bool (as_secs f64 d) 0) eqn:E; [destruct (Qeq_bool (f64 _) 0); cbn; lia|]. apply Qeq_bool_neq in E.
  assert (0 <= inject_Z w)%Q by (unfold Qle; cbn; lia). destruct (rnd_bounds 53 (inject_Z w)) as [H1 _]; [done..|].
  assert (0 <= PACING_MULTIPLIER * f64_of_int w)%Q as H2 by (apply Qmult_le_0_compat; [done|exact H1]).
  destruct (rnd_bounds 53 (PACING_MULTIPLIER * f64_of_int w)) as [H3 _]; [done..|]. apply u64_of_f64, Qle_shift_div_l.
  - destruct (Qle_lt_or_eq _ _ Hs) as [|E']; [done|]. by symmetry in E'.
  - fold f64 in H3. lra.
Qed.

Lemma prr_sent_ok n size p : size_ok size → 0 <= n < PACKETS → prr_ok n p → total (PRR.on_packet_sent size) (λ _ p', prr_ok (n + 1) p') p.
Proof.
  unfold size_ok, prr_ok, PRR.on_packet_sent, saturating_sub. change PACKETS with 68719476736. change PACKET_SIZE with 65535.
  intros Hs Hn Hp. repeat tstep. cbn. lia.
Qed.

Lemma start_round_ok a num h : 0 <= a → hystart_ok a h → total (Hystart.start_round num) (λ _ h', hystart_ok a h') h.
Proof. unfold hystart_ok, Hystart.start_round. intros Ha Hh. repeat tstep. case_bool_decide; repeat tstep; cbn; lia. Qed.

Lemma sent_algorithm_ok n a l bif size now num c :
  cong_ok n a l c → 0 <= a → 0 <= n < PACKETS → size_ok size → 0 <= bif <= PACKET_SIZE * n →
  total (total_ ← lift (uadd bif size);
         modify (set_app_limited (total_ <? congestion_window c));;
         ops_on_packet_sent cc size bif now;;
         zoom prr set_prr (PRR.on_packet_sent size);;
         c ← get;
         if Hystart.enabled (hystart c) && (congestion_window c <? ssthresh c) then
           zoom hystart set_hystart (Hystart.start_round num)
         else mret ())
    (λ _ c', shared_ok n a l (set_prr (prr c) c') ∧ prr_ok (n + 1) (prr c') ∧ algo_ok a c' ∧ hystart_ok a (hystart c') ∧
       delivery_rate c' = delivery_rate c) c.
Proof.
  intros Hc Ha0 Hn Hsize Hbif. unfold size_ok in Hsize. change PACKETS with 68719476736 in Hn. change PACKET_SIZE with 65535 in *.
  do 2 tstep. repeat tstep. eapply total_mono; [apply (algo_sent a)|].
  { eapply algo_frame; [|apply Hc]. done. }
  { apply Hc. }
  intros [] c1 Hc1. assert (cong_ok n a l c1) as Hk by by apply (cong_kept _ _ _ c). tstep. tstep.
  assert (prr c1 = prr c) as Ep by (destruct Hc1 as (_ & _ & E); unfold shared in E; by injection E).
  assert (delivery_rate c1 = delivery_rate c) as Ed by (destruct Hc1 as (_ & _ & E); unfold shared in E; by injection E).
  eapply total_mono; [apply (prr_sent_ok n); [done|done|rewrite Ep; apply Hc]|]. intros [] p Hp. do 2 tstep.
  destruct Hk as (Hs1 & Ha1 & Hh1). assert (algo_ok a (set_prr p c1)) as Ha2 by (by eapply algo_frame; [|exact Ha1]).
  destruct (_ && _).
  - tstep. eapply total_mono; [by apply (start_round_ok a)|]. intros [] h Hh. split_and!; try done; [|by eapply algo_frame; [|exact Ha2]].
    rewrite <- Ep. by destruct Hs1.
  - tstep. split_and!; try done. rewrite <- Ep. by destruct Hs1.
Qed.

Lemma rate_sent_ok n a bif lost pkt r :
  rate_ok n a r →
  total (Rate.on_packet_sent pkt bif lost)
    (λ pkt' r', rate_ok n a r' ∧ same_packet pkt pkt' ∧ Sent.time_sent pkt' = Sent.time_sent pkt ∧
       Sent.delivered pkt' = Rate.delivered r ∧ Rate.delivered r' = Rate.delivered r) r.
Proof.
  intros Hr. unfold Rate.on_packet_sent. do 2 tstep. tstep. destruct (bif =? 0); repeat tstep; (split_and!; [exact Hr|by split|done..]).
Qed.

(** What rate estimation records in a packet. *)
Definition recorded c (delivered : Z) : Prop := 0 <= delivered <= Rate.delivered (delivery_rate c).

Lemma on_packet_sent_ok n a l bif size now pkt stats lost in_flight c :
  cong_ok n a l c → 0 <= a → 0 <= n < PACKETS → size_ok size → 0 <= bif <= PACKET_SIZE * n → 0 <= now <= HORIZON →
  0 <= RttStats.smoothed_rtt stats →
  total (on_packet_sent cc bif size now pkt stats lost in_flight)
    (λ pkt' c', cong_ok (n + 1) a l c' ∧ same_packet pkt pkt' ∧ 0 <= Sent.time_sent pkt' <= SEND_TIME ∧
       recorded c' (Sent.delivered pkt') ∧ Rate.delivered (delivery_rate c') = Rate.delivered (delivery_rate c)) c.
Proof.
  intros Hc Ha0 Hn Hsize Hbif Hnow Hrtt. unfold on_packet_sent. tstep.
  eapply (total_mono _ (λ _ c', shared_ok n a l (set_prr (prr c) c') ∧ prr_ok (n + 1) (prr c') ∧ algo_ok a c' ∧ hystart_ok a (hystart c') ∧
    delivery_rate c' = delivery_rate c)).
  { destruct in_flight; [tstep; apply total_get; by apply sent_algorithm_ok|]. tstep. destruct Hc as (Hs & Ha & Hh). split_and!; try done.
    - by destruct Hs.
    - apply (prr_ok_more n); [lia|]. apply Hs. }
  intros [] c1 (Hs1 & Hp1 & Ha1 & Hh1 & Hd1). tstep. pose proof (algo_window _ _ Ha1) as Hw1.
  eapply (total_mono _ (λ _ c', shared_ok n a l (set_prr (prr c) c') ∧ prr_ok (n + 1) (prr c') ∧ algo_ok a c' ∧ hystart_ok a (hystart c') ∧
    delivery_rate c' = delivery_rate c)).
  { destruct (_ && _); [|by tstep]. unfold set_pacing_rate. repeat tstep. pose proof (sh_config _ _ _ _ Hs1) as (_ & _ & _ & Hq).
    eapply total_mono; [apply (pacer_update_ok n); [exact Hq|apply pacing_rate_ok; lia|exact Hnow|lia|exact (sh_pacer _ _ _ _ Hs1)]|].
    intros [] p Hp. split_and!; [|exact Hp1| |exact Hh1|exact Hd1].
    - destruct Hs1 as [H1 H2 H3 H4 H5 H6]. by exact (Build_shared_ok _ _ _ (set_prr _ (set_pacer p c1)) Hp H2 H3 H4 H5 H6).
    - by eapply algo_frame; [|exact Ha1]. }
  clear c1 Hs1 Hp1 Ha1 Hh1 Hd1 Hw1. intros [] c1 (Hs1 & Hp1 & Ha1 & Hh1 & Hd1).
  destruct Hs1 as [Hpc _ Hr [Hcf1 Hcf2] Hl Hw]. cbn in Hpc, Hr, Hcf1, Hcf2, Hl, Hw. unfold schedule_next_packet. change QUANTUM with 1048576 in *. repeat tstep.
  eapply total_mono; [apply (pacer_send_ok n); [|done|done|exact Hpc]; destruct (_ || _); unfold size_ok, PACKET_SIZE in *; lia|].
  intros [] p Hp. do 2 tstep. tstep. eapply total_mono; [by apply (rate_sent_ok n a)|].
  intros pkt' r (Hr' & Hsame & Ht & Hdel & Hdel'). change PACKETS with 68719476736 in Hn. change PACKET_SIZE with 65535 in *. split_and!.
  - split; [|split; [by eapply algo_frame; [|exact Ha1]|exact Hh1]].
    by refine (Build_shared_ok _ _ _ (set_delivery_rate r (set_pacer p c1)) Hp Hp1 (rate_ok_more n a _ _ _ _ _ Hr') (conj Hcf1 Hcf2) Hl Hw); lia.
  - destruct Hsame. by split.
  - rewrite Ht. apply Hp.
  - rewrite Ht. pose proof (pc_next _ _ Hp) as [_ Hnext]. cbn. change SEND_TIME with 4611686018427387904000000000.
    change HORIZON with 67108864000000000 in Hnext. change PACING with 33554432000000000 in Hnext. unfold get_packet_send_time. cbn. lia.
  - unfold recorded. cbn. rewrite Hdel, Hdel'. destruct Hr'. lia.
  - cbn. rewrite Hdel'. cbn. by rewrite Hd1.
Qed.

(** Acknowledged packets. *)
Definition acked_ok c (p : Acked.t) : Prop := size_ok (Acked.size p) ∧ recorded c (Acked.delivered p).

Lemma rate_acked_ok n a pkt now r :
  rate_ok n a r → 0 <= a < PACKETS → size_ok (Acked.size pkt) → 0 <= Acked.delivered pkt <= Rate.delivered r →
  total (Rate.update_rate_sample pkt now) (λ _ r', rate_ok n (a + 1) r' ∧ Rate.delivered r <= Rate.delivered r') r.
Proof.
  unfold rate_ok, size_ok, Rate.update_rate_sample. change PACKETS with 68719476736. change PACKET_SIZE with 65535. intros Hr Ha Hs Hd.
  repeat tstep. destruct (_ || _); repeat tstep; cbn; lia.
Qed.

Lemma rate_samples_ok n a acked now c :
  rate_ok n a (delivery_rate c) → 0 <= a → a + zlen acked <= PACKETS → Forall (acked_ok c) acked →
  total (update_rate_samples acked now)
    (λ _ c', rate_ok n (a + zlen acked) (delivery_rate c') ∧ Rate.delivered (delivery_rate c) <= Rate.delivered (delivery_rate c') ∧
       ∃ r, c' = set_delivery_rate r c) c.
Proof.
  intros Hr Ha Hlen Hacked. revert a c Hr Ha Hlen Hacked. induction acked as [|pkt acked IH]; intros a c Hr Ha Hlen Hacked; cbn [update_rate_samples].
  { tstep. rewrite zlen_nil, Z.add_0_r. split_and!; [done|lia|]. exists (delivery_rate c). by destruct c. }
  apply Forall_cons in Hacked as [[Hs Hd] Hacked]. autorewrite with zlen in *. pose proof (zlen_nonneg acked). repeat tstep.
  eapply total_mono; [apply (rate_acked_ok n a); [exact Hr|lia|exact Hs|exact Hd]|]. intros [] r (Hr' & Hdr). cbn beta.
  eapply total_mono; [apply (IH (a + 1)); [exact Hr'|lia|lia|]|].
  - eapply Forall_impl; [exact Hacked|]. intros p [Hp1 Hp2]. split; [exact Hp1|]. unfold recorded in *. cbn. lia.
  - intros [] c' (H1 & H2 & r' & ->). replace (a + (1 + zlen acked)) with (a + 1 + zlen acked) by lia. cbn in *.
    split_and!; [exact H1|lia|]. by exists r'.
Qed.

Lemma rate_sample_ok n a min_rtt r :
  rate_ok n a r → 0 <= a → total (Rate.generate_rate_sample min_rtt) (λ _ r', rate_ok n a r' ∧ Rate.delivered r' = Rate.delivered r) r.
Proof.
  intros Hr Ha. unfold Rate.generate_rate_sample. repeat tstep.
  eapply (total_mono _ (λ _ r', rate_ok n a r' ∧ Rate.delivered r' = Rate.delivered r)).
  { destruct (_ && _); [|by tstep]. unfold Rate.update_app_limited. by tstep. }
  intros [] r1 [Hr1 Hd1]. repeat tstep. case_bool_decide; [|by tstep]. unfold rate_ok in *. tstep.
  eapply total_lift; [apply usub_ok; lia|]. cbn. destruct (_ <? _); [by tstep|]. destruct (negb _); by tstep.
Qed.

Lemma on_packets_acked_ok n a l bif acked stats now c :
  cong_ok n a l c → 0 <= a → a + zlen acked <= PACKETS → Forall (acked_ok c) acked →
  total (on_packets_acked cc bif acked stats now)
    (λ _ c', cong_ok n (a + zlen acked) l c' ∧ Rate.delivered (delivery_rate c) <= Rate.delivered (delivery_rate c')) c.
Proof.
  intros Hc Ha Hlen Hacked. pose proof (zlen_nonneg acked). unfold on_packets_acked. tstep.
  eapply total_mono; [apply (rate_samples_ok n a); [apply Hc|done..]|]. intros [] c1 (Hr1 & Hd1 & r & ->). repeat tstep.
  eapply total_mono; [apply (rate_sample_ok n (a + zlen acked)); [exact Hr1|lia]|]. intros [] r2 [Hr2 Hd2]. repeat tstep. cbn [delivery_rate set_delivery_rate] in *.
  set (c2 := record_loss_epoch _ _ _).
  assert (own c2 = own c ∧ hystart c2 = hystart c ∧ pacer c2 = pacer c ∧ prr c2 = prr c ∧ delivery_rate c2 = r2 ∧ send_quantum c2 = send_quantum c ∧
    initial_congestion_window_packets c2 = initial_congestion_window_packets c ∧ lost_count c2 = lost_count c ∧
    0 <= current_loss_epoch_lost_packets_count c2 <= current_loss_epoch_lost_packets_count c) as (Eo & Eh & Ep & Er & Ed & Eq & Ei & El & Ec).
  { destruct Hc as ([] & _). unfold c2, record_loss_epoch. cbn [current_loss_epoch_start_time set_delivery_rate].
    destruct (current_loss_epoch_start_time c); [|split_and!; done || (cbn; lia)]. destruct (_ <? _); [|split_and!; done || (cbn; lia)].
    destruct (match smoothed_lost_packets_per_epoch _ with None => _ | Some _ => _ end) as [sm va]. split_and!; done || (cbn; lia). }
  clearbody c2. assert (congestion_window c2 = congestion_window c ∧ max_datagram_size c2 = max_datagram_size c) as [Ew Em] by (unfold own in Eo; by injection Eo).
  assert (shared_ok n (a + zlen acked) l c2) as Hs2.
  { destruct Hc as ([] & _). split; rewrite ?Ep, ?Er, ?Ed, ?Ew, ?El; try done; [|lia]. unfold config_ok in *. by rewrite Eq, Ei, Em. }
  destruct Hc as (Hs & Hal & Hh). eapply total_mono.
  - apply (algo_acked a); [by eapply algo_frame|by rewrite Eh|apply Hs2|done..|].
    eapply Forall_impl; [exact Hacked|]. by intros p [].
  - intros rest c3 (Ha3 & Hh3 & E3). split.
    + split; [|done]. eapply shared_kept; [done| |done]. pose proof (algo_window _ _ Ha3). lia.
    + assert (delivery_rate c3 = delivery_rate c2) as -> by (unfold shared in E3; by injection E3). rewrite Ed. lia.
Qed.

Lemma from_config_ok s now size packets hystart_ pacing real_time_ m :
  0 <= now <= HORIZON → 0 < size <= PACKET_SIZE → 0 <= packets → size * packets <= QUANTUM →
  match m with Some m => is_u64 m | None => True end →
  ∃ c, from_config cc now s size packets hystart_ pacing real_time_ m = Ok c ∧ cong_ok 0 0 0 c.
Proof.
  intros Hnow Hsize Hpk Hq Hm. unfold from_config. assert (0 <= size * packets) by lia.
  rewrite umul_ok by (change QUANTUM with 1048576 in Hq; lia). cbn [mbind result_bind].
  destruct (new_pacer_ok now pacing (size * packets) size m 0) as (p & -> & Hp); [done|done|lia|done|lia|]. cbn [mbind result_bind].
  set (c0 := mk _ _ _ _ _ _ _ _ _ _ _ _ _ _ _ _ _ _ _ _ _).
  assert (shared_ok 0 0 0 c0) as Hs0.
  { split; cbn; [exact Hp|unfold prr_ok; cbn; lia|unfold rate_ok; cbn; lia|unfold config_ok; cbn; lia|lia|change QUANTUM with 1048576 in Hq; lia]. }
  destruct (total_run (ops_on_init cc;; get) (λ c c', c' = c ∧ algo_ok 0 c ∧ hystart_ok 0 (hystart c) ∧ shared c = shared c0) c0) as (c & c' & -> & -> & Hc).
  - tstep. eapply total_mono; [apply algo_init; [apply Hs0|done..]|]. intros [] c' Hc. by tstep.
  - exists c. split; [done|]. split; [|split; apply Hc]. eapply shared_kept; [apply Hc| |done]. destruct Hc as (Hc & _). pose proof (algo_window _ _ Hc). lia.
Qed.
End shared.
Arguments CongestionLaws {_ _} cc.

(** ** Reno *)
Section reno.
Context `{NetCoding}.
Import Congestion Reno.

(** The window grows by at most one datagram per acknowledged packet. *)
Definition reno_ok (a : Z) (c : t unit) : Prop :=
  0 <= congestion_window c <= QUANTUM + PACKET_SIZE * a ∧ 0 <= bytes_acked_sl c <= PACKET_SIZE * a ∧
  0 <= bytes_acked_ca c <= QUANTUM + PACKET_SIZE * (a + 2) ∧ 0 < max_datagram_size c <= PACKET_SIZE ∧ 0 <= a <= PACKETS.

Lemma hystart_acked_ok a pkt rtt now h :
  hystart_ok a h → 0 <= a < PACKETS → total (Hystart.on_packet_acked pkt rtt now) (λ _ h', hystart_ok (a + 1) h') h.
Proof.
  unfold hystart_ok, Hystart.on_packet_acked. change PACKETS with 68719476736. intros Hh Ha. repeat tstep.
  destruct (negb _); [tstep; lia|]. repeat tstep. cbn [Hystart.rtt_sample_count Hystart.set_current_round_min_rtt].
  set (h0 := Hystart.set_rtt_sample_count _ _).
  assert (hystart_ok (a + 1) (Hystart.css_transition now h0) ∧ Hystart.css_round_count (Hystart.css_transition now h0) <= a) as [Ht Hc].
  { unfold hystart_ok, Hystart.css_transition, h0. cbn [Hystart.css_start_time Hystart.set_rtt_sample_count Hystart.set_current_round_min_rtt].
    destruct (Hystart.css_start_time h); repeat (destruct (_ : bool)); cbn; lia. }
  unfold hystart_ok in Ht. destruct (Hystart.window_end _); [|tstep; lia]. destruct (_ <=? _); [|tstep; lia]. repeat tstep.
  case_bool_decide; [|tstep; cbn; lia]. repeat tstep. destruct (_ <=? _); repeat tstep; cbn; lia.
Qed.

Lemma reno_acked_ok a pkt now stats c :
  reno_ok a c → hystart_ok a (hystart c) → 0 <= a < PACKETS → size_ok (Acked.size pkt) →
  total (on_packet_acked pkt now stats) (λ _ c', reno_ok (a + 1) c' ∧ hystart_ok (a + 1) (hystart c') ∧ shared c' = shared c) c.
Proof.
  intros Hc Hh Ha Hs. unfold on_packet_acked. do 2 tstep. assert (reno_ok (a + 1) c ∧ hystart_ok (a + 1) (hystart c)) as Hmore.
  { unfold reno_ok, hystart_ok, PACKET_SIZE in *. lia. }
  destruct (in_congestion_recovery _ _); [by tstep; destruct Hmore|]. destruct (app_limited c); [by tstep; destruct Hmore|]. clear Hmore.
  unfold size_ok, reno_ok in *. change PACKETS with 68719476736 in *. change PACKET_SIZE with 65535 in *. change QUANTUM with 1048576 in *.
  destruct (_ <? _).
  - repeat tstep. eapply total_lift.
    { apply uadd_ok. unfold Hystart.css_cwnd_inc. destruct (Hystart.in_css _); [|lia].
      pose proof (Z.div_le_upper_bound (max_datagram_size c) Hystart.CSS_GROWTH_DIVISOR (max_datagram_size c) ltac:(done)).
      change Hystart.CSS_GROWTH_DIVISOR with 4 in *. lia. }
    repeat tstep. eapply total_mono; [apply (hystart_acked_ok a); [exact Hh|change PACKETS with 68719476736; lia]|].
    intros leave h Hh'. assert (0 <= (if Hystart.in_css (hystart c) then Hystart.css_cwnd_inc (max_datagram_size c) (hystart c) else max_datagram_size c) <= 65535).
    { destruct (Hystart.in_css _); [|lia]. unfold Hystart.css_cwnd_inc. change Hystart.CSS_GROWTH_DIVISOR with 4.
      pose proof (Z.div_pos (max_datagram_size c) 4). pose proof (Z.div_le_upper_bound (max_datagram_size c) 4 (max_datagram_size c)). lia. }
    destruct leave; tstep; cbn [congestion_window bytes_acked_sl bytes_acked_ca max_datagram_size hystart set_hystart set_ssthresh set_congestion_window set_bytes_acked_sl];
      (split; [lia|split; [exact Hh'|done]]).
  - repeat tstep. unfold hystart_ok in *. zcase; repeat tstep; cbn; (split; [lia|split; [lia|done]]).
Qed.

(** The window is halved exactly. *)
Lemma reduce_half n : 0 <= n < 2 ^ 53 → reduce n = n / 2.
Proof.
  intros Hn. unfold reduce. rewrite int_of_f64_floor.
  assert (f64 (f64_of_int n * LOSS_REDUCTION_FACTOR) == n # 2)%Q as ->.
  { rewrite (f64_half n); [|done|]; [by unfold Qeq, Qmult; cbn; lia|]. by rewrite f64_of_int_exact. }
  change (Qfloor (n # 2)) with (n / 2). assert (0 <= n / 2 <= n) as Hd by (split; [apply Z.div_pos|apply Z.div_le_upper_bound]; lia).
  change (2 ^ 53) with 9007199254740992 in Hn. lia.
Qed.

Lemma reno_event_run bif lost pkt now c :
  0 <= congestion_window c < 2 ^ 53 → 0 < max_datagram_size c <= PACKET_SIZE →
  let cwnd := Z.max (congestion_window c / 2) (2 * max_datagram_size c) in
  let h := if Hystart.in_css (hystart c) then Hystart.set_css_start_time None (Hystart.set_window_end None (hystart c)) else hystart c in
  congestion_event bif lost pkt now c =
    (Ok (), if in_congestion_recovery (Sent.time_sent pkt) c then c
            else set_hystart h (set_ssthresh cwnd (set_bytes_acked_ca (cwnd / 2) (set_congestion_window cwnd
                   (set_congestion_recovery_start_time (Some now) c))))).
Proof.
  intros Hw Hm cwnd h. unfold congestion_event. rewrite run_bind_get. destruct (in_congestion_recovery _ _); [done|]. cbn [negb].
  unfold PACKET_SIZE in Hm. rewrite run_bind_modify, (run_bind_lift _ _ _ (max_datagram_size c * 2)) by (apply umul_ok; lia).
  rewrite reduce_half by done. replace (max_datagram_size c * 2) with (2 * max_datagram_size c) by lia. fold cwnd.
  assert (0 <= cwnd < 2 ^ 53) as Hc.
  { unfold cwnd. pose proof (Z.div_pos (congestion_window c) 2). pose proof (Z.div_le_upper_bound (congestion_window c) 2 (congestion_window c)). lia. }
  rewrite (reduce_half cwnd) by done. unfold h. by destruct (Hystart.in_css (hystart c)), c.
Qed.

#[global] Instance RENO_laws : CongestionLaws RENO.
Proof.
  refine {| algo_ok := reno_ok |}; unfold reno_ok.
  - intros a c c' E. unfold own in E. injection E as _ Ew _ El Ec Em. by rewrite Ew, El, Ec, Em.
  - intros a c Hc. change QUANTUM with 1048576 in Hc. change PACKETS with 68719476736 in Hc. unfold PACKET_SIZE in Hc. lia.
  - intros a w c Hw Hc. cbn. unfold PACKET_SIZE in *. lia.
  - intros c Hc Ew _ El Ec Hh. apply total_ret. unfold config_ok in Hc. rewrite Ew, El, Ec. unfold PACKET_SIZE. unfold PACKET_SIZE in Hc.
    change QUANTUM with 1048576 in *. change PACKETS with 68719476736. split; [lia|done].
  - intros a bytes bif now c Hc Hh. by apply total_ret.
  - intros a bif acked now stats c Hc Hh _ Ha Hlen Hacked. cbn [ops_on_packets_acked RENO]. revert a c Hc Hh Ha Hlen.
    induction Hacked as [|pkt acked Hs _ IH]; intros a c Hc Hh Ha Hlen; cbn [on_packets_acked]; autorewrite with zlen in *.
    { tstep. by rewrite Z.add_0_r. }
    pose proof (zlen_nonneg acked). tstep. eapply total_mono; [apply (reno_acked_ok a); [done..|lia|done]|]. intros [] c1 (Hc1 & Hh1 & E1). cbn beta.
    eapply total_mono; [apply (IH (a + 1)); [done|done|lia|lia]|]. intros rest c2 H2. rewrite E1 in H2.
    by replace (a + (1 + zlen acked)) with (a + 1 + zlen acked) by lia.
  - intros a bif lost pkt now c Hc Hh _ Ha. change QUANTUM with 1048576 in *. change PACKETS with 68719476736 in *. unfold PACKET_SIZE in *.
    cbn [ops_congestion_event RENO]. eapply run_total; [apply reno_event_run; change (2 ^ 53) with 9007199254740992; unfold PACKET_SIZE; lia|].
    destruct (in_congestion_recovery _ _); [done|]. set (cwnd := Z.max _ _). assert (0 <= cwnd <= 1048576 + 65535 * (a + 2) ∧ (cwnd <= congestion_window c ∨ cwnd <= 131070)) as Hcw.
    { unfold cwnd. pose proof (Z.div_pos (congestion_window c) 2). pose proof (Z.div_le_upper_bound (congestion_window c) 2 (congestion_window c)). lia. }
    pose proof (Z.div_pos cwnd 2). pose proof (Z.div_le_upper_bound cwnd 2 cwnd). unfold hystart_ok in *. cbn. split; [lia|]. split; [by destruct (Hystart.in_css _)|done].
  - intros a c Hc Hh. by apply total_ret.
  - intros a c Hc Hh. by apply total_ret.
Qed.

(** C27. On a loss Reno halves the congestion window, exactly and to no less
    than two datagrams, and makes it the slow start threshold; the loss of
    another packet that was sent before this recovery began changes nothing. *)
Theorem reno_halves_once bif lost pkt now bif' lost' pkt' now' c :
  0 <= congestion_window c < 2 ^ 53 → 0 < max_datagram_size c <= PACKET_SIZE →
  in_congestion_recovery (Sent.time_sent pkt) c = false → Sent.time_sent pkt' <= now →
  ∃ c', (ops_congestion_event RENO bif lost pkt now;; ops_congestion_event RENO bif' lost' pkt' now') c = (Ok (), c') ∧
    congestion_window c' = Z.max (congestion_window c / 2) (2 * max_datagram_size c) ∧
    ssthresh c' = congestion_window c' ∧ bytes_acked_ca c' = congestion_window c' / 2 ∧ congestion_recovery_start_time c' = Some now.
Proof.
  intros Hw Hm Hin Ht. cbn [ops_congestion_event RENO]. rewrite (run_bind_ok _ _ _ _ _ (reno_event_run bif lost pkt now c Hw Hm)), Hin.
  set (cwnd := Z.max _ _). set (h := if _ : bool then _ else _). set (c1 := set_hystart _ _). exists c1. split; [|done].
  pose proof (Z.div_pos (congestion_window c) 2). pose proof (Z.div_le_upper_bound (congestion_window c) 2 (congestion_window c)).
  rewrite reno_event_run; [|change (congestion_window c1) with cwnd; unfold cwnd, PACKET_SIZE in *; lia|done].
  assert (in_congestion_recovery (Sent.time_sent pkt') c1 = true) as -> by (unfold in_congestion_recovery, c1; cbn; by apply Z.leb_le). done.
Qed.
End reno.

(** ** Disabled *)
Section disabled.
Context `{NetCoding}.
Import Congestion Disabled.

#[global] Instance DISABLED_laws : CongestionLaws DISABLED_CC.
Proof.
  refine {| algo_ok a c := 0 <= congestion_window c <= u64_max - 1 |}.
  - intros a c c' E. unfold own in E. injection E as _ Ew _ _ _ _. by rewrite Ew.
  - done.
  - intros a w c Hw _. cbn. change QUANTUM with 1048576 in Hw. lia.
  - intros c Hc Ew _ _ _ Hh. apply total_ret. unfold config_ok in Hc. rewrite Ew. change QUANTUM with 1048576 in Hc. split; [lia|done].
  - intros a bytes bif now c Hc Hh. by apply total_ret.
  - intros a bif acked now stats c Hc Hh _ Ha Hlen _. apply total_ret. pose proof (zlen_nonneg acked). unfold hystart_ok in *. split; [done|]. split; [lia|done].
  - intros a bif lost pkt now c Hc Hh _ Ha. apply total_modify. by split.
  - intros a c Hc Hh. by apply total_ret.
  - intros a c Hc Hh. by apply total_ret.
Qed.
End disabled.
