(* ===== verification/Recov.v ===== *)
(** * Loss recovery ([quiche/src/recovery/mod.rs])

    Sent packets per packet number space, acknowledgement and loss detection,
    probe timeouts and the bytes in flight.  Congestion control is the state of
    [Congest.v] with the functions [cc_ops] of an algorithm.  Trace output and
    qlog events are left out. *)
From Stdlib Require Import QArith.
From S2P Require Import Prelude Orders Ranges Packets Frames Times Minmax Congest.
Local Open Scope Z_scope.

Definition INITIAL_PACKET_THRESHOLD : Z := 3.
Definition MAX_PACKET_THRESHOLD : Z := 20.
Definition INITIAL_TIME_THRESHOLD : Q := 9 # 8.
Definition GRANULARITY : Z := 1000000.
Definition MAX_PTO_PROBES_COUNT : Z := 2.
Definition MAX_OUTSTANDING_NON_ACK_ELICITING : Z := 24.

Record HandshakeStatus := mk_status { has_handshake_keys : bool; peer_verified_address : bool; completed : bool }.

(** [2_u32.pow(n)] *)
Definition pow2_u32 {E} (n : Z) : result E Z := if n <? 32 then Ok (2 ^ n) else Panic.

(** [a < b] on [Option<Instant>]: [None] comes first. *)
Definition opt_lt (a b : option Z) : bool :=
  match a, b with
  | None, Some _ => true
  | Some a, Some b => a <? b
  | _, None => false
  end.

(** [Option<Instant> + Duration] under [map]. *)
Definition opt_add (t : option Z) (d : Z) : result Error (option Z) :=
  match t with None => Ok None | Some t => s ← inst_add t d; Ok (Some s) end.

(** ** One packet number space *)
Module RecoveryEpoch.
Section epoch.
Context `{NetCoding} `{StdOrders}.

Inductive LostFrame :=
| Lost (frame : Frame.t)
| LostAndRecovered (frame : Frame.t).

Record t := mk {
  time_of_last_ack_eliciting_packet : option Z;
  largest_acked_packet : option Z;
  loss_time : option Z;
  sent_packets : list Sent.t;
  loss_probes : Z;
  in_flight_count : Z;
  acked_frames : list Frame.t;
  lost_frames : list LostFrame
}.
Definition set_time_of_last_ack_eliciting_packet (v : option Z) (x : t) : t := mk
  v (largest_acked_packet x) (loss_time x) (sent_packets x) (loss_probes x) (in_flight_count x) (acked_frames x)
  (lost_frames x).
Definition set_largest_acked_packet (v : option Z) (x : t) : t := mk
  (time_of_last_ack_eliciting_packet x) v (loss_time x) (sent_packets x) (loss_probes x) (in_flight_count x)
  (acked_frames x) (lost_frames x).
Definition set_loss_time (v : option Z) (x : t) : t := mk
  (time_of_last_ack_eliciting_packet x) (largest_acked_packet x) v (sent_packets x) (loss_probes x)
  (in_flight_count x) (acked_frames x) (lost_frames x).
Definition set_sent_packets (v : list Sent.t) (x : t) : t := mk
  (time_of_last_ack_eliciting_packet x) (largest_acked_packet x) (loss_time x) v (loss_probes x)
  (in_flight_count x) (acked_frames x) (lost_frames x).
Definition set_loss_probes (v : Z) (x : t) : t := mk
  (time_of_last_ack_eliciting_packet x) (largest_acked_packet x) (loss_time x) (sent_packets x) v
  (in_flight_count x) (acked_frames x) (lost_frames x).
Definition set_in_flight_count (v : Z) (x : t) : t := mk
  (time_of_last_ack_eliciting_packet x) (largest_acked_packet x) (loss_time x) (sent_packets x) (loss_probes x) v
  (acked_frames x) (lost_frames x).
Definition set_acked_frames (v : list Frame.t) (x : t) : t := mk
  (time_of_last_ack_eliciting_packet x) (largest_acked_packet x) (loss_time x) (sent_packets x) (loss_probes x)
  (in_flight_count x) v (lost_frames x).
Definition set_lost_frames (v : list LostFrame) (x : t) : t := mk
  (time_of_last_ack_eliciting_packet x) (largest_acked_packet x) (loss_time x) (sent_packets x) (loss_probes x)
  (in_flight_count x) (acked_frames x) v.

Definition default : t := mk None None None [] 0 0 [] [].

(** Neither acknowledged nor declared lost. *)
Definition outstanding (p : Sent.t) : bool := bool_decide (Sent.time_acked p = None) && bool_decide (Sent.time_lost p = None).

(** *** Acknowledgements *)

(** [AckedDetectionResult], with the lists and the counter that the loop updates. *)
Record acks := mk_acks {
  newly_acked : list Acked.t;
  acked_bytes : Z;
  spurious_losses : Z;
  spurious_pkt_thresh : option Z;
  has_ack_eliciting : bool;
  has_in_flight_spurious_loss : bool;
  ack_in_flight_count : Z;
  ack_frames : list Frame.t
}.

(** The loop body. *)
Definition ack_packet (now largest_acked : Z) (unacked : Sent.t) (a : acks) : result Error (Sent.t * acks) :=
  if bool_decide (is_Some (Sent.time_acked unacked)) then Ok (unacked, a)
  else if bool_decide (is_Some (Sent.time_lost unacked)) then
    losses ← uadd (spurious_losses a) 1;
    gap ← usub largest_acked (Sent.pkt_num unacked);
    thresh ← uadd gap 1;
    Ok (Sent.set_time_acked (Some now) unacked,
        mk_acks (newly_acked a) (acked_bytes a) losses
          (match spurious_pkt_thresh a with Some t => Some t | None => Some thresh end) (has_ack_eliciting a)
          (if Sent.in_flight unacked then true else has_in_flight_spurious_loss a) (ack_in_flight_count a) (ack_frames a))
  else
    '(count, bytes) ← (if Sent.in_flight unacked then
                         count ← usub (ack_in_flight_count a) 1;
                         bytes ← uadd (acked_bytes a) (Sent.size unacked);
                         Ok (count, bytes)
                       else Ok (ack_in_flight_count a, acked_bytes a));
    let acked :=
      Acked.mk (Sent.pkt_num unacked) (Sent.time_sent unacked) (Sent.size unacked) (duration_since now (Sent.time_sent unacked))
        (Sent.delivered unacked) (Sent.delivered_time unacked) (Sent.first_sent_time unacked) (Sent.is_app_limited unacked) in
    Ok (Sent.set_time_acked (Some now) (Sent.set_frames [] unacked),
        mk_acks (newly_acked a ++ [acked]) bytes (spurious_losses a) (spurious_pkt_thresh a)
          (has_ack_eliciting a || Sent.ack_eliciting unacked) (has_in_flight_spurious_loss a) count
          (ack_frames a ++ Sent.frames unacked)).

(** The packets from the start of a range; breaks at its end. *)
Fixpoint ack_range (now largest_acked range_end : Z) (pkts : list Sent.t) (a : acks) : result Error (list Sent.t * acks) :=
  match pkts with
  | [] => Ok ([], a)
  | p :: rest =>
      if range_end <=? Sent.pkt_num p then Ok (p :: rest, a)
      else
        '(p, a) ← ack_packet now largest_acked p a;
        '(rest, a) ← ack_range now largest_acked range_end rest a;
        Ok (p :: rest, a)
  end.

(** Where the packets from [from] on start. *)
Definition start_of (from : Z) (pkts : list Sent.t) : nat :=
  let search := partition_point ((λ p, Sent.pkt_num p <? from) <$> pkts) in
  match head pkts with
  | Some e => if from <=? Sent.pkt_num e then O else search
  | None => search
  end.

Fixpoint ack_ranges (now largest_acked : Z) (ranges : list range) (pkts : list Sent.t) (a : acks) : result Error (list Sent.t * acks) :=
  match ranges with
  | [] => Ok (pkts, a)
  | (from, to) :: ranges =>
      let start := start_of from pkts in
      '(tail, a) ← ack_range now largest_acked to (drop start pkts) a;
      ack_ranges now largest_acked ranges (take start pkts ++ tail) a
  end.

Fixpoint drain_front (loss_thresh : Z) (pkts : list Sent.t) : list Sent.t :=
  match pkts with
  | [] => []
  | p :: rest =>
      if match Sent.time_lost p with Some time_lost => loss_thresh <? time_lost | None => false end then pkts
      else if outstanding p then pkts
      else drain_front loss_thresh rest
  end.

Definition drain_acked_and_lost_packets (loss_thresh : Z) (e : t) : t :=
  set_sent_packets (drain_front loss_thresh (sent_packets e)) e.

Definition detect_and_remove_acked_packets (now : Z) (acked : RangeSet.t) (rtt_stats : RttStats.t) (e : t) : result Error (acks * t) :=
  match largest_acked_packet e with
  | None => Panic
  | Some largest_acked =>
      '(pkts, a) ← ack_ranges now largest_acked (RangeSet.iter acked) (sent_packets e)
        (mk_acks [] 0 0 None false false (in_flight_count e) (acked_frames e));
      thresh ← inst_sub now (RttStats.rtt rtt_stats);
      Ok (a, drain_acked_and_lost_packets thresh
            (set_acked_frames (ack_frames a) (set_in_flight_count (ack_in_flight_count a) (set_sent_packets pkts e))))
  end.

(** *** Losses *)

(** The frames of a lost packet: marked from the first recovered source symbol on. *)
Fixpoint report_lost (contains_recovered : bool) (frames : list Frame.t) : list LostFrame :=
  match frames with
  | [] => []
  | f :: frames =>
      let contains_recovered :=
        match f with Frame.SourceSymbolHeader _ true => true | _ => contains_recovered end in
      (if contains_recovered then LostAndRecovered f else Lost f) :: report_lost contains_recovered frames
  end.

(** [LossDetectionResult], with what else the loop updates. *)
Record losses := mk_losses {
  largest_lost_pkt : option Sent.t;
  lost_packets : Z;
  lost_bytes : Z;
  pmtud_lost_bytes : Z;
  loss_in_flight_count : Z;
  loss_frames : list LostFrame;
  next_loss_time : option Z
}.

Fixpoint lose_packets (loss_delay pkt_thresh now largest_acked lost_send_time : Z) (pkts : list Sent.t) (l : losses) :
    result Error (list Sent.t * losses) :=
  match pkts with
  | [] => Ok ([], l)
  | p :: rest =>
      if largest_acked <? Sent.pkt_num p then Ok (p :: rest, l)
      else if negb (outstanding p) then
        '(rest, l) ← lose_packets loss_delay pkt_thresh now largest_acked lost_send_time rest l;
        Ok (p :: rest, l)
      else
        is_lost ← (if Sent.time_sent p <=? lost_send_time then Ok true
                   else threshold ← uadd (Sent.pkt_num p) pkt_thresh; Ok (threshold <=? largest_acked));
        if (is_lost : bool) then
          let frames := loss_frames l ++ report_lost false (Sent.frames p) in
          let p' := Sent.set_time_lost (Some now) (Sent.set_frames [] p) in
          l ← (if Sent.pmtud p then
                 bytes ← uadd (pmtud_lost_bytes l) (Sent.size p);
                 count ← usub (loss_in_flight_count l) 1;
                 Ok (mk_losses (largest_lost_pkt l) (lost_packets l) (lost_bytes l) bytes count frames (next_loss_time l))
               else
                 '(largest, bytes, count) ← (if Sent.in_flight p then
                     bytes ← uadd (lost_bytes l) (Sent.size p);
                     count ← usub (loss_in_flight_count l) 1;
                     Ok (Some p', bytes, count)
                   else Ok (largest_lost_pkt l, lost_bytes l, loss_in_flight_count l));
                 packets ← uadd (lost_packets l) 1;
                 Ok (mk_losses largest packets bytes (pmtud_lost_bytes l) count frames (next_loss_time l)));
          '(rest, l) ← lose_packets loss_delay pkt_thresh now largest_acked lost_send_time rest l;
          Ok (p' :: rest, l)
        else
          at_ ← inst_add (Sent.time_sent p) loss_delay;
          let time := match next_loss_time l with None => at_ | Some loss_time => Z.min loss_time at_ end in
          Ok (p :: rest, mk_losses (largest_lost_pkt l) (lost_packets l) (lost_bytes l) (pmtud_lost_bytes l)
                           (loss_in_flight_count l) (loss_frames l) (Some time))
  end.

Definition detect_lost_packets (loss_delay pkt_thresh now : Z) (e : t) : result Error (losses * t) :=
  let loss_delay := Z.max loss_delay GRANULARITY in
  let largest_acked := match largest_acked_packet e with Some l => l | None => 0 end in
  lost_send_time ← inst_sub now loss_delay;
  '(pkts, l) ← lose_packets loss_delay pkt_thresh now largest_acked lost_send_time (sent_packets e)
    (mk_losses None 0 0 0 (in_flight_count e) (lost_frames e) None);
  Ok (l, set_loss_time (next_loss_time l) (set_lost_frames (loss_frames l)
           (set_in_flight_count (loss_in_flight_count l) (set_sent_packets pkts e)))).

(** *** Probes *)

(** The frames of the first [n] outstanding packets with data. *)
Fixpoint probe_frames (n : nat) (pkts : list Sent.t) : list LostFrame :=
  match pkts, n with
  | [], _ | _, O => []
  | p :: pkts, Datatypes.S n' =>
      if Sent.has_data p && outstanding p then report_lost false (Sent.frames p) ++ probe_frames n' pkts
      else probe_frames n pkts
  end.

(** [on_source_symbol_ack_received] on the frames of the packets. *)
Section source_symbols.
Context (source_symbol_metadata_to_u64 : list Z → Z).

Definition recover_frame (lowest largest : Z) (f : Frame.t) : Frame.t :=
  match f with
  | Frame.SourceSymbolHeader metadata recovered =>
      let mdu64 := source_symbol_metadata_to_u64 metadata in
      if (lowest <=? mdu64) && (mdu64 <=? largest) then Frame.SourceSymbolHeader metadata true else f
  | _ => f
  end.

Definition recover_packet (r : range) (p : Sent.t) : Sent.t :=
  if bool_decide (Sent.time_acked p = None) then Sent.set_frames (recover_frame r.1 (r.2 - 1) <$> Sent.frames p) p else p.

Definition recover_ranges (ranges : list range) (e : t) : t :=
  set_sent_packets (foldl (λ pkts r, recover_packet r <$> pkts) (sent_packets e) ranges) e.
End source_symbols.
End epoch.

End RecoveryEpoch.

(** ** The connection's recovery state *)
Module Recovery.
Section recovery.
Context `{NetCoding} `{StdOrders} {S : Type}.

Record t := mk {
  initial : RecoveryEpoch.t;
  handshake : RecoveryEpoch.t;
  application : RecoveryEpoch.t;
  loss_timer : option Z;
  pto_count : Z;
  rtt_stats : RttStats.t;
  lost_spurious_count : Z;
  pkt_thresh : Z;
  time_thresh : Q;
  bytes_in_flight : Z;
  bytes_sent : Z;
  bytes_lost : Z;
  max_datagram_size : Z;
  outstanding_non_ack_eliciting : Z;
  congestion : Congestion.t S;
  newly_acked : list Acked.t
}.
Definition set_initial (v : RecoveryEpoch.t) (x : t) : t := mk
  v (handshake x) (application x) (loss_timer x) (pto_count x) (rtt_stats x) (lost_spurious_count x) (pkt_thresh x)
  (time_thresh x) (bytes_in_flight x) (bytes_sent x) (bytes_lost x) (max_datagram_size x)
  (outstanding_non_ack_eliciting x) (congestion x) (newly_acked x).
Definition set_handshake (v : RecoveryEpoch.t) (x : t) : t := mk
  (initial x) v (application x) (loss_timer x) (pto_count x) (rtt_stats x) (lost_spurious_count x) (pkt_thresh x)
  (time_thresh x) (bytes_in_flight x) (bytes_sent x) (bytes_lost x) (max_datagram_size x)
  (outstanding_non_ack_eliciting x) (congestion x) (newly_acked x).
Definition set_application (v : RecoveryEpoch.t) (x : t) : t := mk
  (initial x) (handshake x) v (loss_timer x) (pto_count x) (rtt_stats x) (lost_spurious_count x) (pkt_thresh x)
  (time_thresh x) (bytes_in_flight x) (bytes_sent x) (bytes_lost x) (max_datagram_size x)
  (outstanding_non_ack_eliciting x) (congestion x) (newly_acked x).
Definition set_loss_timer (v : option Z) (x : t) : t := mk
  (initial x) (handshake x) (application x) v (pto_count x) (rtt_stats x) (lost_spurious_count x) (pkt_thresh x)
  (time_thresh x) (bytes_in_flight x) (bytes_sent x) (bytes_lost x) (max_datagram_size x)
  (outstanding_non_ack_eliciting x) (congestion x) (newly_acked x).
Definition set_pto_count (v : Z) (x : t) : t := mk
  (initial x) (handshake x) (application x) (loss_timer x) v (rtt_stats x) (lost_spurious_count x) (pkt_thresh x)
  (time_thresh x) (bytes_in_flight x) (bytes_sent x) (bytes_lost x) (max_datagram_size x)
  (outstanding_non_ack_eliciting x) (congestion x) (newly_acked x).
Definition set_rtt_stats (v : RttStats.t) (x : t) : t := mk
  (initial x) (handshake x) (application x) (loss_timer x) (pto_count x) v (lost_spurious_count x) (pkt_thresh x)
  (time_thresh x) (bytes_in_flight x) (bytes_sent x) (bytes_lost x) (max_datagram_size x)
  (outstanding_non_ack_eliciting x) (congestion x) (newly_acked x).
Definition set_lost_spurious_count (v : Z) (x : t) : t := mk
  (initial x) (handshake x) (application x) (loss_timer x) (pto_count x) (rtt_stats x) v (pkt_thresh x)
  (time_thresh x) (bytes_in_flight x) (bytes_sent x) (bytes_lost x) (max_datagram_size x)
  (outstanding_non_ack_eliciting x) (congestion x) (newly_acked x).
Definition set_pkt_thresh (v : Z) (x : t) : t := mk
  (initial x) (handshake x) (application x) (loss_timer x) (pto_count x) (rtt_stats x) (lost_spurious_count x) v
  (time_thresh x) (bytes_in_flight x) (bytes_sent x) (bytes_lost x) (max_datagram_size x)
  (outstanding_non_ack_eliciting x) (congestion x) (newly_acked x).
Definition set_bytes_in_flight (v : Z) (x : t) : t := mk
  (initial x) (handshake x) (application x) (loss_timer x) (pto_count x) (rtt_stats x) (lost_spurious_count x)
  (pkt_thresh x) (time_thresh x) v (bytes_sent x) (bytes_lost x) (max_datagram_size x)
  (outstanding_non_ack_eliciting x) (congestion x) (newly_acked x).
Definition set_bytes_sent (v : Z) (x : t) : t := mk
  (initial x) (handshake x) (application x) (loss_timer x) (pto_count x) (rtt_stats x) (lost_spurious_count x)
  (pkt_thresh x) (time_thresh x) (bytes_in_flight x) v (bytes_lost x) (max_datagram_size x)
  (outstanding_non_ack_eliciting x) (congestion x) (newly_acked x).
Definition set_max_datagram_size (v : Z) (x : t) : t := mk
  (initial x) (handshake x) (application x) (loss_timer x) (pto_count x) (rtt_stats x) (lost_spurious_count x)
  (pkt_thresh x) (time_thresh x) (bytes_in_flight x) (bytes_sent x) (bytes_lost x) v
  (outstanding_non_ack_eliciting x) (congestion x) (newly_acked x).
Definition set_outstanding_non_ack_eliciting (v : Z) (x : t) : t := mk
  (initial x) (handshake x) (application x) (loss_timer x) (pto_count x) (rtt_stats x) (lost_spurious_count x)
  (pkt_thresh x) (time_thresh x) (bytes_in_flight x) (bytes_sent x) (bytes_lost x) (max_datagram_size x) v
  (congestion x) (newly_acked x).
Definition set_congestion (v : Congestion.t S) (x : t) : t := mk
  (initial x) (handshake x) (application x) (loss_timer x) (pto_count x) (rtt_stats x) (lost_spurious_count x)
  (pkt_thresh x) (time_thresh x) (bytes_in_flight x) (bytes_sent x) (bytes_lost x) (max_datagram_size x)
  (outstanding_non_ack_eliciting x) v (newly_acked x).
Definition set_newly_acked (v : list Acked.t) (x : t) : t := mk
  (initial x) (handshake x) (application x) (loss_timer x) (pto_count x) (rtt_stats x) (lost_spurious_count x)
  (pkt_thresh x) (time_thresh x) (bytes_in_flight x) (bytes_sent x) (bytes_lost x) (max_datagram_size x)
  (outstanding_non_ack_eliciting x) (congestion x) v.

(** [self.epochs[epoch]] *)
Definition epoch (e : Epoch.t) (r : t) : RecoveryEpoch.t :=
  match e with Epoch.Initial => initial r | Epoch.Handshake => handshake r | Epoch.Application => application r end.
Definition set_epoch (e : Epoch.t) (v : RecoveryEpoch.t) (r : t) : t := mk
  (match e with Epoch.Initial => v | _ => initial r end) (match e with Epoch.Handshake => v | _ => handshake r end)
  (match e with Epoch.Application => v | _ => application r end) (loss_timer r) (pto_count r) (rtt_stats r)
  (lost_spurious_count r) (pkt_thresh r) (time_thresh r) (bytes_in_flight r) (bytes_sent r) (bytes_lost r)
  (max_datagram_size r) (outstanding_non_ack_eliciting r) (congestion r) (newly_acked r).
Definition on_epoch (e : Epoch.t) (f : RecoveryEpoch.t → RecoveryEpoch.t) (r : t) : t := set_epoch e (f (epoch e r)) r.
(** A method of the epoch that returns a value. *)
Definition call_epoch {A} (e : Epoch.t) (m : RecoveryEpoch.t → result Error (A * RecoveryEpoch.t)) : M t Error A :=
  r ← get;
  '(a, ep) ← lift (m (epoch e r));
  modify (set_epoch e ep);;
  mret a.

Definition on_congestion {A} (m : M (Congestion.t S) Error A) : M t Error A := zoom congestion set_congestion m.

Definition rtt (r : t) : Z := RttStats.rtt (rtt_stats r).
Definition cwnd (r : t) : Z := Congestion.congestion_window (congestion r).

Definition pto (r : t) : result Error Z :=
  var4 ← dur_mul (RttStats.rttvar (rtt_stats r)) 4;
  dur_add (rtt r) (Z.max var4 GRANULARITY).

(** *** Timers *)

Definition loss_time_and_space (r : t) : option Z * Epoch.t :=
  let step (acc : option Z * Epoch.t) e :=
    let new_time := RecoveryEpoch.loss_time (epoch e r) in
    if bool_decide (acc.1 = None) || opt_lt new_time acc.1 then (new_time, e) else acc in
  foldl step (RecoveryEpoch.loss_time (initial r), Epoch.Initial) [Epoch.Handshake; Epoch.Application].

(** The loop over the packet number spaces. *)
Fixpoint pto_loop (hs : HandshakeStatus) (r : t) (duration : Z) (es : list Epoch.t) (timeout : option Z) (space : Epoch.t) :
    result Error (option Z * Epoch.t) :=
  match es with
  | [] => Ok (timeout, space)
  | e :: es =>
      let ep := epoch e r in
      if RecoveryEpoch.in_flight_count ep =? 0 then pto_loop hs r duration es timeout space
      else if bool_decide (e = Epoch.Application) && negb (completed hs) then Ok (timeout, space)
      else
        duration ← (if bool_decide (e = Epoch.Application) then
                      backoff ← pow2_u32 (pto_count r);
                      delay ← dur_mul (RttStats.max_ack_delay (rtt_stats r)) backoff;
                      dur_add duration delay
                    else Ok duration);
        new_time ← opt_add (RecoveryEpoch.time_of_last_ack_eliciting_packet ep) duration;
        if bool_decide (timeout = None) || opt_lt new_time timeout then pto_loop hs r duration es new_time e
        else pto_loop hs r duration es timeout space
  end.

Definition pto_time_and_space (hs : HandshakeStatus) (now : Z) (r : t) : result Error (option Z * Epoch.t) :=
  pto ← pto r;
  backoff ← pow2_u32 (pto_count r);
  duration ← dur_mul pto backoff;
  if bytes_in_flight r =? 0 then
    at_ ← inst_add now duration;
    Ok (Some at_, if has_handshake_keys hs then Epoch.Handshake else Epoch.Initial)
  else pto_loop hs r duration [Epoch.Initial; Epoch.Handshake; Epoch.Application] None Epoch.Initial.

Definition set_loss_detection_timer (hs : HandshakeStatus) (now : Z) : M t Error unit :=
  r ← get;
  match (loss_time_and_space r).1 with
  | Some to => modify (set_loss_timer (Some to))
  | None =>
      if (bytes_in_flight r =? 0) && peer_verified_address hs then modify (set_loss_timer None)
      else
        '(timeout, _) ← lift (pto_time_and_space hs now r);
        match timeout with
        | Some timeout => modify (set_loss_timer (Some timeout))
        | None => mret ()
        end
  end.

Section with_ops.
Context (cc_ops : Congestion.ops S).

(** *** Losses *)

(** The loss statistics of the congestion state. *)
Definition count_lost (now lost_packets : Z) : M (Congestion.t S) Error unit :=
  if 0 <? lost_packets then
    c ← get;
    match Congestion.current_loss_epoch_start_time c with
    | None =>
        modify (Congestion.set_current_loss_epoch_start_time (Some now));;
        modify (Congestion.set_current_loss_epoch_lost_packets_count lost_packets)
    | Some _ =>
        n ← lift (uadd (Congestion.current_loss_epoch_lost_packets_count c) lost_packets);
        modify (Congestion.set_current_loss_epoch_lost_packets_count n)
    end
  else mret ().

Definition detect_lost_packets (e : Epoch.t) (now : Z) : M t Error (Z * Z) :=
  r ← get;
  loss_delay ← lift (mul_f64 (Z.max (RttStats.latest_rtt (rtt_stats r)) (rtt r)) (time_thresh r));
  loss ← call_epoch e (RecoveryEpoch.detect_lost_packets loss_delay (pkt_thresh r) now);
  on_congestion (count_lost now (RecoveryEpoch.lost_packets loss));;
  (match RecoveryEpoch.largest_lost_pkt loss with
   | Some pkt =>
       r ← get;
       (if negb (Congestion.in_congestion_recovery (Sent.time_sent pkt) (congestion r)) then
          on_congestion (Congestion.ops_checkpoint cc_ops)
        else mret ());;
       on_congestion (Congestion.ops_congestion_event cc_ops (bytes_in_flight r) (RecoveryEpoch.lost_bytes loss) pkt now);;
       r ← get;
       bif ← lift (usub (bytes_in_flight r) (RecoveryEpoch.lost_bytes loss));
       modify (set_bytes_in_flight bif)
   | None => mret ()
   end);;
  r ← get;
  bif ← lift (usub (bytes_in_flight r) (RecoveryEpoch.pmtud_lost_bytes loss));
  modify (set_bytes_in_flight bif);;
  thresh ← lift (inst_sub now (rtt r));
  modify (on_epoch e (RecoveryEpoch.drain_acked_and_lost_packets thresh));;
  r ← get;
  n ← lift (uadd (Congestion.lost_count (congestion r)) (RecoveryEpoch.lost_packets loss));
  on_congestion (modify (Congestion.set_lost_count n));;
  mret (RecoveryEpoch.lost_packets loss, RecoveryEpoch.lost_bytes loss).

(** *** Events *)

Definition on_packet_sent (pkt : Sent.t) (e : Epoch.t) (hs : HandshakeStatus) (now : Z) : M t Error unit :=
  let ack_eliciting := Sent.ack_eliciting pkt in
  let in_flight := Sent.in_flight pkt in
  let sent_bytes := Sent.size pkt in
  r ← get;
  (if ack_eliciting then modify (set_outstanding_non_ack_eliciting 0)
   else
     n ← lift (uadd (outstanding_non_ack_eliciting r) 1);
     modify (set_outstanding_non_ack_eliciting n));;
  (if in_flight && ack_eliciting then modify (on_epoch e (RecoveryEpoch.set_time_of_last_ack_eliciting_packet (Some now)))
   else mret ());;
  pkt ← on_congestion (Congestion.on_packet_sent cc_ops (bytes_in_flight r) sent_bytes now pkt (rtt_stats r) (bytes_lost r) in_flight);
  (if in_flight then
     r ← get;
     n ← lift (uadd (RecoveryEpoch.in_flight_count (epoch e r)) 1);
     modify (on_epoch e (RecoveryEpoch.set_in_flight_count n));;
     bif ← lift (uadd (bytes_in_flight r) sent_bytes);
     modify (set_bytes_in_flight bif);;
     set_loss_detection_timer hs now
   else mret ());;
  r ← get;
  sent ← lift (uadd (bytes_sent r) sent_bytes);
  modify (set_bytes_sent sent);;
  modify (on_epoch e (λ ep, RecoveryEpoch.set_sent_packets (RecoveryEpoch.sent_packets ep ++ [pkt]) ep)).

(** The lost packets, lost bytes and acknowledged bytes. *)
Definition on_ack_received (ranges : RangeSet.t) (ack_delay : Z) (e : Epoch.t) (hs : HandshakeStatus) (now : Z) : M t Error (Z * Z * Z) :=
  last ← lift (RangeSet.last ranges);
  match last with
  | None => panic
  | Some last =>
      r ← get;
      let largest_acked := Z.max (default 0 (RecoveryEpoch.largest_acked_packet (epoch e r))) last in
      modify (on_epoch e (RecoveryEpoch.set_largest_acked_packet (Some largest_acked)));;
      acks ← call_epoch e (RecoveryEpoch.detect_and_remove_acked_packets now ranges (rtt_stats r));
      modify (set_newly_acked (RecoveryEpoch.newly_acked acks));;
      n ← lift (uadd (lost_spurious_count r) (RecoveryEpoch.spurious_losses acks));
      modify (set_lost_spurious_count n);;
      (match RecoveryEpoch.spurious_pkt_thresh acks with
       | Some thresh => modify (λ r, set_pkt_thresh (Z.max (pkt_thresh r) (Z.min thresh MAX_PACKET_THRESHOLD)) r)
       | None => mret ()
       end);;
      (if RecoveryEpoch.has_in_flight_spurious_loss acks then
         on_congestion (_ ← Congestion.ops_rollback cc_ops; mret ())
       else mret ());;
      match list.last (RecoveryEpoch.newly_acked acks) with
      | None => mret (0, 0, 0)
      | Some largest_newly_acked =>
          (if (Acked.pkt_num largest_newly_acked =? largest_acked) && RecoveryEpoch.has_ack_eliciting acks then
             let latest_rtt := duration_since now (Acked.time_sent largest_newly_acked) in
             r ← get;
             stats ← lift (RttStats.update_rtt latest_rtt (ack_delay * 1000) now (completed hs) (rtt_stats r));
             modify (set_rtt_stats stats)
           else mret ());;
          loss ← detect_lost_packets e now;
          r ← get;
          rest ← on_congestion (Congestion.on_packets_acked cc_ops (bytes_in_flight r) (newly_acked r) (rtt_stats r) now);
          modify (set_newly_acked rest);;
          r ← get;
          bif ← lift (usub (bytes_in_flight r) (RecoveryEpoch.acked_bytes acks));
          modify (set_bytes_in_flight bif);;
          modify (set_pto_count 0);;
          set_loss_detection_timer hs now;;
          r ← get;
          thresh ← lift (inst_sub now (rtt r));
          modify (on_epoch e (RecoveryEpoch.drain_acked_and_lost_packets thresh));;
          mret (loss, RecoveryEpoch.acked_bytes acks)
      end
  end.

(** [self.pto_count += 1], a [u32]. *)
Definition next_pto_count (r : t) : result Error Z := if pto_count r + 1 <=? u32_max then Ok (pto_count r + 1) else Panic.

Definition on_loss_detection_timeout (hs : HandshakeStatus) (now : Z) : M t Error (Z * Z) :=
  r ← get;
  let '(earliest_loss_time, e) := loss_time_and_space r in
  if bool_decide (is_Some earliest_loss_time) then
    loss ← detect_lost_packets e now;
    set_loss_detection_timer hs now;;
    mret loss
  else
    e ← (if 0 <? bytes_in_flight r then
           '(_, e) ← lift (pto_time_and_space hs now r);
           mret e
         else mret (if has_handshake_keys hs then Epoch.Handshake else Epoch.Initial));
    count ← lift (next_pto_count r);
    modify (set_pto_count count);;
    let probes := Z.min count MAX_PTO_PROBES_COUNT in
    modify (on_epoch e (λ ep,
      RecoveryEpoch.set_lost_frames
        (RecoveryEpoch.lost_frames ep ++ RecoveryEpoch.probe_frames (Z.to_nat probes) (RecoveryEpoch.sent_packets ep))
        (RecoveryEpoch.set_loss_probes probes ep)));;
    set_loss_detection_timer hs now;;
    mret (0, 0).

Definition on_path_change (e : Epoch.t) (now : Z) : M t Error (Z * Z) := detect_lost_packets e now.
End with_ops.

(** The bytes of the packets in flight. *)
Fixpoint sum_sizes (acc : Z) (pkts : list Sent.t) : result Error Z :=
  match pkts with
  | [] => Ok acc
  | p :: pkts =>
      acc ← (if Sent.in_flight p && RecoveryEpoch.outstanding p then uadd acc (Sent.size p) else Ok acc);
      sum_sizes acc pkts
  end.

Definition on_pkt_num_space_discarded (e : Epoch.t) (hs : HandshakeStatus) (now : Z) : M t Error unit :=
  r ← get;
  unacked_bytes ← lift (sum_sizes 0 (RecoveryEpoch.sent_packets (epoch e r)));
  bif ← lift (usub (bytes_in_flight r) unacked_bytes);
  modify (set_bytes_in_flight bif);;
  modify (on_epoch e (λ ep, RecoveryEpoch.mk None (RecoveryEpoch.largest_acked_packet ep) None [] 0 0 [] []));;
  set_loss_detection_timer hs now.

Definition on_source_symbol_ack_received (metadata_to_u64 : list Z → Z) (ranges : RangeSet.t) (e : Epoch.t) : M t Error unit :=
  modify (on_epoch e (RecoveryEpoch.recover_ranges metadata_to_u64 (RangeSet.iter ranges))).

Definition ping_sent (e : Epoch.t) : M t Error unit :=
  modify (on_epoch e (λ ep, RecoveryEpoch.set_loss_probes (saturating_sub (RecoveryEpoch.loss_probes ep) 1) ep)).

(** [drain(..)] of the reported frames. *)
Definition get_acked_frames (e : Epoch.t) : M t Error (list Frame.t) :=
  r ← get;
  modify (on_epoch e (RecoveryEpoch.set_acked_frames []));;
  mret (RecoveryEpoch.acked_frames (epoch e r)).
Definition get_lost_frames (e : Epoch.t) : M t Error (list RecoveryEpoch.LostFrame) :=
  r ← get;
  modify (on_epoch e (RecoveryEpoch.set_lost_frames []));;
  mret (RecoveryEpoch.lost_frames (epoch e r)).

Definition has_lost_frames (e : Epoch.t) (r : t) : bool := negb (bool_decide (RecoveryEpoch.lost_frames (epoch e r) = [])).
Definition get_largest_acked_on_epoch (e : Epoch.t) (r : t) : option Z := RecoveryEpoch.largest_acked_packet (epoch e r).
Definition loss_probes (e : Epoch.t) (r : t) : Z := RecoveryEpoch.loss_probes (epoch e r).
Definition should_elicit_ack (e : Epoch.t) (r : t) : bool :=
  (0 <? loss_probes e r) || (MAX_OUTSTANDING_NON_ACK_ELICITING <=? outstanding_non_ack_eliciting r).
Definition loss_detection_timer (r : t) : option Z := loss_timer r.

Definition cwnd_available (r : t) : result Error Z :=
  if existsb (λ e, 0 <? loss_probes e r) [Epoch.Initial; Epoch.Handshake; Epoch.Application] then Ok u64_max
  else uadd (saturating_sub (cwnd r) (bytes_in_flight r)) (PRR.snd_cnt (Congestion.prr (congestion r))).

(** [clock] is [Instant::now()]. *)
Definition pmtud_update_max_datagram_size (clock new_max_datagram_size : Z) : M t Error unit :=
  r ← get;
  let packets := Congestion.initial_congestion_window_packets (congestion r) in
  initial ← lift (umul (max_datagram_size r) packets);
  (if cwnd r =? initial then
     w ← lift (umul new_max_datagram_size packets);
     on_congestion (modify (Congestion.set_congestion_window w))
   else mret ());;
  r ← get;
  let pacer := Congestion.pacer (congestion r) in
  pacer ← lift (Pacer.new clock (Pacer.enabled pacer) (cwnd r) 0 new_max_datagram_size (Pacer.max_pacing_rate pacer));
  on_congestion (modify (Congestion.set_pacer pacer));;
  modify (set_max_datagram_size new_max_datagram_size).

Definition update_max_datagram_size (clock new_max_datagram_size : Z) : M t Error unit :=
  r ← get;
  pmtud_update_max_datagram_size clock (Z.min (max_datagram_size r) new_max_datagram_size).

Definition update_app_limited (v : bool) : M t Error unit := on_congestion (modify (Congestion.set_app_limited v)).
Definition delivery_rate_update_app_limited (v : bool) : M t Error unit :=
  on_congestion (zoom Congestion.delivery_rate Congestion.set_delivery_rate (Rate.update_app_limited v)).
Definition update_max_ack_delay (max_ack_delay : Z) : M t Error unit :=
  modify (λ r, let s := rtt_stats r in
    set_rtt_stats (RttStats.mk (RttStats.latest_rtt s) (RttStats.smoothed_rtt s) (RttStats.rttvar s) (RttStats.min_rtt s) max_ack_delay
      (RttStats.first_rtt_sample s)) r).

(** [now] is [Instant::now()]; the congestion state is that of [from_config]. *)
Definition new_with_config (now max_ack_delay max_send_udp_payload_size : Z) (congestion : Congestion.t S) : t :=
  mk RecoveryEpoch.default RecoveryEpoch.default RecoveryEpoch.default None 0 (RttStats.new now max_ack_delay) 0 INITIAL_PACKET_THRESHOLD
    INITIAL_TIME_THRESHOLD 0 0 0 max_send_udp_payload_size 0 congestion [].
End recovery.
Arguments t {_} S.
End Recovery.
