(* ===== verification/RecovInv.v ===== *)
(** * One packet number space, verified

    Sums over the sent packets, what acknowledgement and loss detection do to
    them, and that an ACK marks exactly the packets it covers. *)
From Stdlib Require Import Sorting.Sorted.
From S2P Require Import Prelude Orders Ranges Packets Frames Times Minmax Congest CongestInv Recov.
Local Open Scope Z_scope.

(** ** Sums *)

Section zsum.
Context {A : Type}.
Implicit Types (f g : A → Z) (l : list A).

Definition zsum f l : Z := foldr (λ x, Z.add (f x)) 0 l.

Lemma zsum_cons f x l : zsum f (x :: l) = f x + zsum f l.
Proof. done. Qed.
Lemma zsum_app f l k : zsum f (l ++ k) = zsum f l + zsum f k.
Proof. unfold zsum. induction l as [|x l IH]; cbn [app foldr]; [done|]. rewrite IH. lia. Qed.
Lemma zsum_le f g l : Forall (λ x, f x <= g x) l → zsum f l <= zsum g l.
Proof. unfold zsum. induction 1; cbn [foldr]; lia. Qed.
Lemma zsum_nonneg f l : Forall (λ x, 0 <= f x) l → 0 <= zsum f l.
Proof. unfold zsum. induction 1; cbn [foldr]; lia. Qed.
Lemma zsum_scale f g k l : Forall (λ x, f x <= k * g x) l → zsum f l <= k * zsum g l.
Proof. unfold zsum. induction 1; cbn [foldr]; lia. Qed.

Lemma bfilter_cons (f : A → bool) x l : filter f (x :: l) = if f x then x :: filter f l else filter f l.
Proof. rewrite filter_cons. by case_decide; destruct (f x). Qed.
End zsum.

Definition PKT_NUM_MAX : Z := 2 ^ 62.

Section packets.
Context `{NetCoding} `{StdOrders}.
Import RecoveryEpoch.
Implicit Types (p : Sent.t) (pkts : list Sent.t).

(** ** Packets *)

Definition b2z (b : bool) : Z := if b then 1 else 0.

(** In flight: the bytes and the packet. *)
Definition flying p : Z := b2z (Sent.in_flight p && outstanding p).
Definition weight p : Z := if Sent.in_flight p && outstanding p then Sent.size p else 0.
(** Not yet acknowledged or lost; lost and not acknowledged since. *)
Definition live p : Z := b2z (outstanding p).
Definition gone p : Z := b2z (bool_decide (is_Some (Sent.time_lost p)) && bool_decide (Sent.time_acked p = None)).

(** [D] bytes have been delivered. *)
Record packet_ok (D : Z) p : Prop := {
  pk_size : size_ok (Sent.size p);
  pk_num : 0 <= Sent.pkt_num p < PKT_NUM_MAX;
  pk_time : 0 <= Sent.time_sent p <= SEND_TIME;
  pk_delivered : 0 <= Sent.delivered p <= D;
  pk_frames : outstanding p = false → Sent.frames p = [];
  pk_pmtud : Sent.pmtud p = true → Sent.in_flight p = true
}.

Lemma packet_more D D' p : D <= D' → packet_ok D p → packet_ok D' p.
Proof. intros HD []. split; try done. lia. Qed.

Definition numbers pkts : list Z := Sent.pkt_num <$> pkts.
Definition frames_of pkts : list Frame.t := concat (Sent.frames <$> pkts).

Definition packets_ok (D : Z) pkts : Prop := Forall (packet_ok D) pkts ∧ StronglySorted Z.lt (numbers pkts).

Lemma weight_bounds D p : packet_ok D p → 0 <= weight p <= PACKET_SIZE * flying p.
Proof. intros []. unfold weight, flying, size_ok, b2z, PACKET_SIZE in *. destruct (_ && _); lia. Qed.
Lemma flying_live p : 0 <= flying p <= live p ∧ live p <= 1.
Proof. unfold flying, live, b2z. destruct (Sent.in_flight p), (outstanding p); cbn; lia. Qed.
Lemma gone_bounds p : 0 <= gone p.
Proof. unfold gone, b2z. destruct (_ && _); lia. Qed.

Lemma sums_ok D pkts : Forall (packet_ok D) pkts →
  0 <= zsum weight pkts <= PACKET_SIZE * zsum flying pkts ∧ 0 <= zsum flying pkts <= zsum live pkts ∧ 0 <= zsum gone pkts.
Proof.
  intros Hp. split_and!.
  - apply zsum_nonneg. eapply Forall_impl; [exact Hp|]. intros p Hp'. by destruct (weight_bounds _ _ Hp').
  - apply zsum_scale. eapply Forall_impl; [exact Hp|]. intros p Hp'. by destruct (weight_bounds _ _ Hp').
  - apply zsum_nonneg, Forall_true. intros p. apply flying_live.
  - apply zsum_le, Forall_true. intros p. apply flying_live.
  - apply zsum_nonneg, Forall_true. intros p. apply gone_bounds.
Qed.

(** ** Acknowledgements *)

(** A packet that an ACK covers. *)
Definition marked (now : Z) p : Sent.t :=
  if bool_decide (is_Some (Sent.time_acked p)) then p
  else if bool_decide (is_Some (Sent.time_lost p)) then Sent.set_time_acked (Some now) p
  else Sent.set_time_acked (Some now) (Sent.set_frames [] p).

Definition to_acked (now : Z) p : Acked.t :=
  Acked.mk (Sent.pkt_num p) (Sent.time_sent p) (Sent.size p) (duration_since now (Sent.time_sent p)) (Sent.delivered p)
    (Sent.delivered_time p) (Sent.first_sent_time p) (Sent.is_app_limited p).

Definition acked_fine (D : Z) (a : Acked.t) : Prop := size_ok (Acked.size a) ∧ 0 <= Acked.delivered a <= D ∧ 0 <= Acked.time_sent a <= SEND_TIME.

(** From the packets [pkts] and the results [a] to [pkts'] and [a']. *)
Record acks_step D pkts (a : acks) pkts' (a' : acks) : Prop := {
  st_bytes : acked_bytes a' + zsum weight pkts' = acked_bytes a + zsum weight pkts;
  st_count : ack_in_flight_count a' - zsum flying pkts' = ack_in_flight_count a - zsum flying pkts;
  st_fewer : ack_in_flight_count a' <= ack_in_flight_count a;
  st_sizes : acked_bytes a' - acked_bytes a <= PACKET_SIZE * (zlen (newly_acked a') - zlen (newly_acked a));
  st_newly : zlen (newly_acked a') + zsum live pkts' = zlen (newly_acked a) + zsum live pkts;
  st_spurious : spurious_losses a' + zsum gone pkts' = spurious_losses a + zsum gone pkts;
  st_frames : ack_frames a' ++ frames_of pkts' ≡ₚ ack_frames a ++ frames_of pkts;
  st_ok : Forall (packet_ok D) pkts';
  st_fine : Forall (acked_fine D) (newly_acked a) → Forall (acked_fine D) (newly_acked a');
  st_thresh : match spurious_pkt_thresh a with Some t => 1 <= t | None => True end →
    match spurious_pkt_thresh a' with Some t => 1 <= t | None => True end
}.

(** No counter of [a] can overflow or fall below zero on the packets [pkts]. *)
Definition acks_room pkts (a : acks) : Prop :=
  0 <= acked_bytes a ∧ acked_bytes a + zsum weight pkts <= PACKET_SIZE * PACKETS ∧ zsum flying pkts <= ack_in_flight_count a ∧
  0 <= spurious_losses a ∧ spurious_losses a + zsum gone pkts <= PACKETS.

Lemma acks_refl D pkts a : Forall (packet_ok D) pkts → acks_step D pkts a pkts a.
Proof. intros Hp. split; done || lia. Qed.

Lemma acks_trans D (p1 p2 p3 : list Sent.t) a1 a2 a3 : acks_step D p1 a1 p2 a2 → acks_step D p2 a2 p3 a3 → acks_step D p1 a1 p3 a3.
Proof. intros [] []. split; try lia; try done; [by etrans|intros; by apply st_fine1, st_fine0|intros; by apply st_thresh1, st_thresh0]. Qed.

Lemma frames_app (l k : list Sent.t) : frames_of (l ++ k) = frames_of l ++ frames_of k.
Proof. unfold frames_of. by rewrite fmap_app, concat_app. Qed.

(** The packets around stay as they are. *)
Lemma acks_around D (l r : list Sent.t) pkts a pkts' a' :
  Forall (packet_ok D) l → Forall (packet_ok D) r → acks_step D pkts a pkts' a' → acks_step D (l ++ pkts ++ r) a (l ++ pkts' ++ r) a'.
Proof.
  intros Hl Hr []. split; rewrite ?zsum_app, ?frames_app; try lia; try done.
  - rewrite !(Permutation_app_swap_app _ (frames_of l)), !(assoc_L (++)). apply Permutation_app; [|done].
    rewrite <- !(assoc_L (++)). by apply Permutation_app_head.
  - by repeat apply Forall_app_2.
Qed.

Lemma acks_room_app D (l r : list Sent.t) pkts a : Forall (packet_ok D) l → Forall (packet_ok D) r → acks_room (l ++ pkts ++ r) a → acks_room pkts a.
Proof.
  intros Hl%sums_ok Hr%sums_ok. unfold acks_room. rewrite !zsum_app. lia.
Qed.

Lemma acks_room_step D pkts a pkts' a' : acks_step D pkts a pkts' a' → 0 <= acked_bytes a' → 0 <= spurious_losses a' → acks_room pkts a → acks_room pkts' a'.
Proof. intros []. unfold acks_room. lia. Qed.

Lemma ack_packet_run D now largest p a :
  packet_ok D p → Sent.pkt_num p <= largest < PKT_NUM_MAX → acks_room [p] a →
  ∃ a', ack_packet now largest p a = Ok (marked now p, a') ∧ acks_step D [p] a [marked now p] a' ∧ 0 <= acked_bytes a' ∧ 0 <= spurious_losses a'.
Proof.
  intros Hp Hl Hroom. unfold acks_room in Hroom. unfold zsum in Hroom. cbn [foldr] in Hroom. rewrite !Z.add_0_r in Hroom.
  unfold ack_packet, marked. change PACKETS with 68719476736 in *. change PKT_NUM_MAX with 4611686018427387904 in *. change PACKET_SIZE with 65535 in *.
  case_bool_decide as Ha; [exists a; split_and!; try lia; [done|]; by apply acks_refl, Forall_singleton|].
  apply eq_None_not_Some in Ha. pose proof (pk_num _ _ Hp) as Hn. case_bool_decide as Hlost.
  - assert (outstanding p = false) as Ho by (unfold outstanding; rewrite (bool_decide_eq_false_2 (Sent.time_lost p = None)); [by rewrite andb_false_r|]; by intros E; rewrite E in Hlost; destruct Hlost).
    assert (gone p = 1) as Hg by (unfold gone; rewrite !bool_decide_eq_true_2 by done; done).
    rewrite uadd_ok by lia. cbn [mbind result_bind]. rewrite usub_ok by lia. cbn [mbind result_bind]. rewrite uadd_ok by lia. cbn [mbind result_bind].
    eexists. split; [reflexivity|]. split; [|cbn; lia].
    assert (outstanding (Sent.set_time_acked (Some now) p) = false) as Ho' by done.
    split; unfold zsum; cbn [foldr newly_acked acked_bytes spurious_losses spurious_pkt_thresh ack_in_flight_count ack_frames];
      unfold weight, flying, live; rewrite ?Ho, ?Ho', ?andb_false_r; try done; try lia.
    + rewrite Hg. unfold gone. rewrite andb_false_r. cbn. lia.
    + apply Forall_singleton. destruct Hp. split; try done. intros _. by apply pk_frames0.
    + destruct (spurious_pkt_thresh a); [done|]. lia.
  - apply eq_None_not_Some in Hlost. assert (outstanding p = true) as Ho by (unfold outstanding; rewrite Ha, Hlost; done).
    unfold weight, flying in Hroom. rewrite Ho, andb_true_r in Hroom. pose proof (pk_size _ _ Hp) as Hs. unfold size_ok in Hs.
    set (p' := Sent.set_time_acked (Some now) (Sent.set_frames [] p)). assert (outstanding p' = false) as Ho' by done.
    assert (∀ count bytes, count = ack_in_flight_count a - flying p → bytes = acked_bytes a + weight p →
      acks_step D [p] a [p'] (mk_acks (newly_acked a ++ [to_acked now p]) bytes (spurious_losses a) (spurious_pkt_thresh a)
        (has_ack_eliciting a || Sent.ack_eliciting p) (has_in_flight_spurious_loss a) count (ack_frames a ++ Sent.frames p))) as Hstep.
    { intros count bytes -> ->. split; unfold zsum; cbn [foldr newly_acked acked_bytes spurious_losses spurious_pkt_thresh ack_in_flight_count ack_frames];
        unfold weight, flying, live; rewrite ?Ho, ?Ho', ?andb_false_r, ?andb_true_r; try done; try (cbn; lia).
      - destruct (Sent.in_flight p); cbn; lia.
      - autorewrite with zlen. cbn. unfold PACKET_SIZE in *. destruct (Sent.in_flight p); lia.
      - autorewrite with zlen. cbn. lia.
      - assert (gone p' = 0 ∧ gone p = 0) as [-> ->]; [|lia]. split; [unfold gone; by rewrite andb_false_r|]. unfold gone. by rewrite Hlost.
      - unfold frames_of. cbn. by rewrite !app_nil_r.
      - apply Forall_singleton. destruct Hp. by split.
      - intros Hf. apply Forall_app_2; [done|]. apply Forall_singleton. destruct Hp. split_and!; done || (cbn; lia). }
    fold (to_acked now p). unfold b2z in Hroom. unfold flying, weight, b2z in Hstep. rewrite Ho, andb_true_r in Hstep. destruct (Sent.in_flight p).
    + rewrite usub_ok by lia. cbn [mbind result_bind]. rewrite uadd_ok by lia. cbn [mbind result_bind]. eexists. split; [reflexivity|]. split; [by apply Hstep|cbn; lia].
    + cbn [mbind result_bind]. eexists. split; [reflexivity|]. split; [apply Hstep; lia|cbn; lia].
Qed.

Lemma marked_num now p : Sent.pkt_num (marked now p) = Sent.pkt_num p.
Proof. unfold marked. by repeat case_bool_decide. Qed.

(** The packet numbers of the ranges of an ACK. *)
Definition covers (ranges : list range) (n : Z) : bool := existsb (λ r, (r.1 <=? n) && (n <? r.2)) ranges.
Definition mark_all (now : Z) (ranges : list range) pkts : list Sent.t :=
  (λ p, if covers ranges (Sent.pkt_num p) then marked now p else p) <$> pkts.

Lemma marked_twice now p : marked now (marked now p) = marked now p.
Proof. unfold marked at 2 3. case_bool_decide as Ha; [unfold marked; by rewrite bool_decide_eq_true_2|]. by case_bool_decide. Qed.

Lemma mark_all_cons now r ranges pkts : mark_all now ranges (mark_all now [r] pkts) = mark_all now (r :: ranges) pkts.
Proof.
  unfold mark_all. rewrite <- list_fmap_compose. apply list_fmap_ext. intros i p _. unfold compose. cbn [covers existsb]. rewrite orb_false_r.
  change (existsb _ ranges) with (covers ranges (Sent.pkt_num p)).
  destruct (_ && _); [rewrite marked_num; cbn [orb]; destruct (covers ranges _); [by apply marked_twice|done]|done].
Qed.

Lemma mark_all_numbers now ranges pkts : numbers (mark_all now ranges pkts) = numbers pkts.
Proof.
  unfold mark_all, numbers. rewrite <- list_fmap_compose. apply list_fmap_ext. intros i p _. unfold compose. destruct (covers _ _); [apply marked_num|done].
Qed.

Lemma mark_all_none now r pkts : Forall (λ p, covers [r] (Sent.pkt_num p) = false) pkts → mark_all now [r] pkts = pkts.
Proof. unfold mark_all. induction 1 as [|p pkts Hp _ IH]; [done|]. rewrite fmap_cons, Hp. by f_equal. Qed.

Lemma sorted_cons p pkts : StronglySorted Z.lt (numbers (p :: pkts)) ↔ StronglySorted Z.lt (numbers pkts) ∧ Forall (λ q, Sent.pkt_num p < Sent.pkt_num q) pkts.
Proof.
  unfold numbers. rewrite fmap_cons. split.
  - intros Hs%StronglySorted_inv. destruct Hs as [Hs Hf]. split; [done|]. rewrite Forall_fmap in Hf. exact Hf.
  - intros [Hs Hf]. constructor; [done|]. rewrite Forall_fmap. exact Hf.
Qed.

Lemma sorted_suffix (l r : list Sent.t) : StronglySorted Z.lt (numbers (l ++ r)) → StronglySorted Z.lt (numbers r).
Proof. induction l as [|p l IH]; [done|]. intros [Hs _]%sorted_cons. by apply IH. Qed.

Lemma ack_range_run D now largest from to pkts a :
  Forall (packet_ok D) pkts → StronglySorted Z.lt (numbers pkts) → Forall (λ p, from <= Sent.pkt_num p) pkts →
  to <= largest + 1 → largest < PKT_NUM_MAX → acks_room pkts a →
  ∃ a', ack_range now largest to pkts a = Ok (mark_all now [(from, to)] pkts, a') ∧ acks_step D pkts a (mark_all now [(from, to)] pkts) a' ∧
    0 <= acked_bytes a' ∧ 0 <= spurious_losses a'.
Proof.
  intros Hp. revert a. induction Hp as [|p pkts Hp Hpkts IH]; intros a Hs Hfrom Hto Hl Hroom.
  { exists a. split; [done|]. split; [by apply acks_refl|]. split; apply Hroom. }
  apply sorted_cons in Hs as [Hs Hlt]. apply Forall_cons in Hfrom as [Hf Hfrom]. cbn [ack_range].
  destruct (Z.leb_spec to (Sent.pkt_num p)) as [Hge|Hin].
  { rewrite mark_all_none.
    - exists a. split; [done|]. split; [apply acks_refl; by constructor|]. split; apply Hroom.
    - unfold covers. cbn. constructor; [zdecide; by rewrite andb_false_r|]. eapply Forall_impl; [exact Hlt|]. intros q Hq. cbn in *. zdecide. by rewrite andb_false_r. }
  destruct (ack_packet_run D now largest p a) as (a1 & -> & Hst & Hb & Hsp); [done|lia|by apply (acks_room_app D [] pkts [p])|].
  cbn [mbind result_bind]. pose proof (acks_around D [] pkts _ _ _ _ ltac:(done) Hpkts Hst) as Hst1. cbn [app] in Hst1.
  destruct (IH a1) as (a2 & -> & Hst2 & Hb2 & Hsp2); [done..| |].
  { apply (acks_room_app D [marked now p] []); [apply Hst|done|]. rewrite app_nil_r. by eapply acks_room_step. }
  cbn [mbind result_bind]. exists a2.
  assert (mark_all now [(from, to)] (p :: pkts) = marked now p :: mark_all now [(from, to)] pkts) as ->.
  { unfold mark_all. rewrite fmap_cons. f_equal. unfold covers. cbn [existsb fst snd]. by zdecide. }
  split; [done|]. split; [|done]. eapply acks_trans; [exact Hst1|].
  pose proof (acks_around D [marked now p] [] _ _ _ _ ltac:(apply Hst) ltac:(done) Hst2) as Hst3. by rewrite !app_nil_r in Hst3.
Qed.

(** Binary search finds the first packet from [from] on. *)
Lemma start_of_spec from pkts : StronglySorted Z.lt (numbers pkts) →
  ∃ l r, pkts = l ++ r ∧ start_of from pkts = length l ∧ Forall (λ p, Sent.pkt_num p < from) l ∧ Forall (λ p, from <= Sent.pkt_num p) r.
Proof.
  intros Hs. assert (∃ l r, pkts = l ++ r ∧ Forall (λ p, Sent.pkt_num p < from) l ∧ Forall (λ p, from <= Sent.pkt_num p) r) as (l & r & -> & Hl & Hr).
  { induction pkts as [|p pkts IH]; [by exists [], []|]. apply sorted_cons in Hs as [Hs Hlt]. destruct (Z.lt_ge_cases (Sent.pkt_num p) from).
    - destruct IH as (l & r & -> & Hl & Hr); [done|]. exists (p :: l), r. split_and!; [done|by constructor|done].
    - exists [], (p :: pkts). split_and!; [done..|]. constructor; [done|]. eapply Forall_impl; [exact Hlt|]. cbn. lia. }
  exists l, r. split_and!; try done. unfold start_of. rewrite fmap_app.
  assert ((λ p, Sent.pkt_num p <? from) <$> l = replicate (length l) true) as ->.
  { clear Hs. induction Hl as [|p l Hp _ IH]; [done|]. rewrite fmap_cons, IH. cbn [length replicate]. f_equal. by apply Z.ltb_lt. }
  assert ((λ p, Sent.pkt_num p <? from) <$> r = replicate (length r) false) as ->.
  { clear Hs. induction Hr as [|p r Hp _ IH]; [done|]. rewrite fmap_cons, IH. cbn [length replicate]. f_equal. by apply Z.ltb_ge. }
  rewrite partition_point_split. destruct Hl as [|p l Hp Hl]; cbn [app head].
  - destruct Hr; [done|]. cbn [head]. by zdecide.
  - by zdecide.
Qed.

Lemma mark_all_app now ranges (l r : list Sent.t) : mark_all now ranges (l ++ r) = mark_all now ranges l ++ mark_all now ranges r.
Proof. apply fmap_app. Qed.

Lemma ack_ranges_run D now largest ranges pkts a :
  packets_ok D pkts → Forall (λ r, r.2 <= largest + 1) ranges → largest < PKT_NUM_MAX → acks_room pkts a →
  ∃ a', ack_ranges now largest ranges pkts a = Ok (mark_all now ranges pkts, a') ∧ acks_step D pkts a (mark_all now ranges pkts) a' ∧
    0 <= acked_bytes a' ∧ 0 <= spurious_losses a'.
Proof.
  intros Hp Hr. revert pkts a Hp. induction Hr as [|[from to] ranges Hto _ IH]; intros pkts a [Hp Hs] Hl Hroom; cbn [ack_ranges].
  { exists a. replace (mark_all now [] pkts) with pkts; [split_and!; [done|by apply acks_refl|apply Hroom|apply Hroom]|]. unfold mark_all. cbn. by rewrite list_fmap_id. }
  destruct (start_of_spec from pkts Hs) as (l & r & -> & -> & Hlt & Hge). rewrite take_app_length, drop_app_length.
  apply Forall_app in Hp as [Hpl Hpr]. cbn in Hto.
  destruct (ack_range_run D now largest from to r a) as (a1 & -> & Hst & Hb & Hsp); [done|by eapply sorted_suffix|done..|by apply (acks_room_app D l []); rewrite ?app_nil_r|].
  cbn [mbind result_bind].
  assert (l ++ mark_all now [(from, to)] r = mark_all now [(from, to)] (l ++ r)) as E.
  { rewrite mark_all_app. f_equal. symmetry. apply mark_all_none. eapply Forall_impl; [exact Hlt|]. intros q Hq. unfold covers. cbn in *. by zdecide. }
  pose proof (acks_around D l [] _ _ _ _ Hpl ltac:(done) Hst) as Hst1. rewrite !app_nil_r, E in Hst1. rewrite E.
  destruct (IH (mark_all now [(from, to)] (l ++ r)) a1) as (a2 & -> & Hst2 & Hnn).
  - split; [apply Hst1|]. by rewrite mark_all_numbers.
  - done.
  - by eapply acks_room_step.
  - exists a2. rewrite mark_all_cons in Hst2 |- *. split_and!; [done|by eapply acks_trans|apply Hnn|apply Hnn].
Qed.

(** *** What is reported, in order *)

(** A packet that an ACK newly acknowledges, and one that was declared lost. *)
Definition hit (ranges : list range) p : bool := outstanding p && covers ranges (Sent.pkt_num p).
Definition lost_only p : bool := bool_decide (is_Some (Sent.time_lost p)) && bool_decide (Sent.time_acked p = None).
Definition spurious (ranges : list range) p : bool := lost_only p && covers ranges (Sent.pkt_num p).

(** From the results [a] to [a'] by the newly acknowledged packets [hits] and
    the spuriously lost ones [spurs]. *)
Record acks_report (now largest : Z) (hits spurs : list Sent.t) (a a' : acks) : Prop := {
  rp_newly : newly_acked a' = newly_acked a ++ (to_acked now <$> hits);
  rp_frames : ack_frames a' = ack_frames a ++ frames_of hits;
  rp_bytes : acked_bytes a' = acked_bytes a + zsum weight hits;
  rp_spurious : spurious_losses a' = spurious_losses a + zlen spurs;
  rp_thresh : spurious_pkt_thresh a' =
    match spurious_pkt_thresh a with Some t => Some t | None => (λ p, largest - Sent.pkt_num p + 1) <$> head spurs end;
  rp_eliciting : has_ack_eliciting a' = has_ack_eliciting a || existsb Sent.ack_eliciting hits;
  rp_in_flight : has_in_flight_spurious_loss a' = has_in_flight_spurious_loss a || existsb Sent.in_flight spurs
}.

Lemma report_none now largest a : acks_report now largest [] [] a a.
Proof. split; cbn; rewrite ?app_nil_r, ?zlen_nil, ?orb_false_r; try done; try lia. by destruct (spurious_pkt_thresh a). Qed.
Lemma report_app now largest h1 s1 h2 s2 a1 a2 a3 :
  acks_report now largest h1 s1 a1 a2 → acks_report now largest h2 s2 a2 a3 → acks_report now largest (h1 ++ h2) (s1 ++ s2) a1 a3.
Proof.
  intros [E1 E2 E0 E3 E4 E5 E6] [F1 F2 F0 F3 F4 F5 F6]. split.
  - by rewrite F1, E1, fmap_app, (assoc_L (++)).
  - by rewrite F2, E2, frames_app, (assoc_L (++)).
  - rewrite F0, E0, zsum_app. lia.
  - rewrite F3, E3, zlen_app. lia.
  - rewrite F4, E4. destruct (spurious_pkt_thresh a1); [done|]. by destruct s1.
  - by rewrite F5, E5, existsb_app, orb_assoc.
  - by rewrite F6, E6, existsb_app, orb_assoc.
Qed.

(** What one packet adds. *)
Definition one_if (b : bool) p : list Sent.t := if b then [p] else [].
Lemma filter_one_if (f : Sent.t → bool) p pkts : filter f (p :: pkts) = one_if (f p) p ++ filter f pkts.
Proof. rewrite bfilter_cons. by destruct (f p). Qed.

Lemma ack_packet_report now largest p a p' a' : Sent.pkt_num p <= largest < PKT_NUM_MAX → 0 <= Sent.pkt_num p →
  ack_packet now largest p a = Ok (p', a') →
  p' = marked now p ∧ acks_report now largest (one_if (outstanding p) p) (one_if (lost_only p) p) a a'.
Proof.
  intros Hl Hn. change PKT_NUM_MAX with 4611686018427387904 in Hl. unfold ack_packet, outstanding, lost_only, marked.
  destruct (Sent.time_acked p) as [t|] eqn:Ha; cbn.
  { intros [= <- <-]. split; [done|]. rewrite andb_false_r. apply report_none. }
  destruct (Sent.time_lost p) as [t|] eqn:Ht; cbn.
  { unfold mbind, result_bind. destruct (uadd (spurious_losses a) 1) as [k|e|] eqn:Ek; [|done..].
    rewrite usub_ok, uadd_ok by lia. intros [= <- <-]. unfold uadd in Ek. case_match; [injection Ek as <-|done].
    split; [done|]. split; cbn; rewrite ?app_nil_r, ?orb_false_r; try done; [lia|]. by destruct (Sent.in_flight p), (has_in_flight_spurious_loss a). }
  unfold mbind, result_bind. intros Hrun. fold (to_acked now p) in Hrun.
  assert (weight p = if Sent.in_flight p then Sent.size p else 0) as Hw.
  { unfold weight, outstanding. rewrite Ha, Ht. cbn. by rewrite andb_true_r. }
  assert (∃ count, Ok (E:=Error) (Sent.set_time_acked (Some now) (Sent.set_frames [] p),
      mk_acks (newly_acked a ++ [to_acked now p]) (acked_bytes a + weight p) (spurious_losses a) (spurious_pkt_thresh a)
        (has_ack_eliciting a || Sent.ack_eliciting p) (has_in_flight_spurious_loss a) count (ack_frames a ++ Sent.frames p)) = Ok (p', a')) as (count & [= <- <-]).
  { rewrite Hw. destruct (Sent.in_flight p); [|rewrite Z.add_0_r; by eauto]. destruct (usub _ _) as [x|e|]; [|done..].
    destruct (uadd _ _) as [y|e|] eqn:Ey; [|done..]. unfold uadd in Ey. case_match; [|done]. injection Ey as <-. eauto. }
  split; [done|]. split; cbn; rewrite ?app_nil_r, ?orb_false_r, ?zlen_nil, ?Z.add_0_r; try done. by destruct (spurious_pkt_thresh a).
Qed.

Lemma filter_none (f : Sent.t → bool) pkts : Forall (λ p, f p = false) pkts → filter f pkts = [].
Proof. induction 1 as [|p pkts Hp _ IH]; [done|]. by rewrite bfilter_cons, Hp. Qed.
Lemma filter_same (f g : Sent.t → bool) pkts : Forall (λ p, f p = g p) pkts → filter f pkts = filter g pkts.
Proof. induction 1 as [|p pkts Hp _ IH]; [done|]. by rewrite !bfilter_cons, Hp, IH. Qed.

Lemma covers_cons r ranges n : covers (r :: ranges) n = (r.1 <=? n) && (n <? r.2) || covers ranges n.
Proof. done. Qed.
Lemma covers_above to ranges n : Forall (λ r, to < r.1) ranges → n <= to → covers ranges n = false.
Proof.
  intros Hr Hn. induction Hr as [|r ranges Hlt _ IH]; [done|]. rewrite covers_cons, IH. by rewrite (proj2 (Z.leb_gt _ _)) by lia.
Qed.

(** The packets of the first range come before those of the others. *)
Lemma filter_ranges now (g : Sent.t → bool) (f : list range → Sent.t → bool) from to ranges pkts :
  (∀ rs p, f rs p = g p && covers rs (Sent.pkt_num p)) → (∀ p, g (marked now p) = false) →
  ranges_wf ((from, to) :: ranges) → StronglySorted Z.lt (numbers pkts) →
  filter (f ((from, to) :: ranges)) pkts = filter (f [(from, to)]) pkts ++ filter (f ranges) (mark_all now [(from, to)] pkts).
Proof.
  intros Hf Hg (Hft & Hlt & Hwf)%ranges_wf_cons. induction pkts as [|p pkts IH]; [done|]. intros [Hs Hp]%sorted_cons. specialize (IH Hs).
  destruct (Z.lt_ge_cases (Sent.pkt_num p) to) as [Hn|Hn].
  - assert (covers ranges (Sent.pkt_num p) = false) as Hno by (apply (covers_above to); [done|lia]).
    unfold mark_all. rewrite fmap_cons. fold (mark_all now [(from, to)] pkts). rewrite !filter_one_if, IH, !Hf, !covers_cons, Hno.
    change (covers [] (Sent.pkt_num p)) with false. cbn [fst snd]. rewrite !orb_false_r. destruct ((from <=? Sent.pkt_num p) && (Sent.pkt_num p <? to)).
    + rewrite Hg, andb_true_r. cbn [andb one_if app]. by rewrite (assoc_L (++)).
    + by rewrite Hno, !andb_false_r.
  - assert (Forall (λ q, covers [(from, to)] (Sent.pkt_num q) = false) (p :: pkts)) as Hno.
    { unfold covers. cbn. constructor; [zdecide; by rewrite andb_false_r|]. eapply Forall_impl; [exact Hp|]. intros q Hq. cbn in *. zdecide. by rewrite andb_false_r. }
    rewrite mark_all_none by done. rewrite (filter_none (f [(from, to)])); [cbn [app]; apply filter_same|];
      (eapply Forall_impl; [exact Hno|]; intros q Hq; cbv beta in *; rewrite !Hf); [|by rewrite Hq, andb_false_r].
    rewrite covers_cons in Hq |- *. change (covers [] (Sent.pkt_num q)) with false in Hq. rewrite orb_false_r in Hq. by rewrite Hq.
Qed.

Lemma marked_acked now p : bool_decide (Sent.time_acked (marked now p) = None) = false.
Proof.
  apply bool_decide_eq_false, not_eq_None_Some. unfold marked. destruct (Sent.time_acked p) eqn:Ha; cbn; [by rewrite Ha|].
  destruct (Sent.time_lost p); cbn; eexists; reflexivity.
Qed.
Lemma marked_outstanding now p : outstanding (marked now p) = false.
Proof. unfold outstanding. by rewrite marked_acked. Qed.
Lemma marked_lost_only now p : lost_only (marked now p) = false.
Proof. unfold lost_only. by rewrite marked_acked, andb_false_r. Qed.

Lemma ack_range_report now largest from to pkts a pkts' a' :
  StronglySorted Z.lt (numbers pkts) → Forall (λ p, from <= Sent.pkt_num p ∧ 0 <= Sent.pkt_num p) pkts → to <= largest + 1 → largest < PKT_NUM_MAX →
  ack_range now largest to pkts a = Ok (pkts', a') →
  pkts' = mark_all now [(from, to)] pkts ∧ acks_report now largest (filter (hit [(from, to)]) pkts) (filter (spurious [(from, to)]) pkts) a a'.
Proof.
  intros Hs Hp Hto Hl. revert a pkts'. induction Hp as [|p pkts [Hf Hp] _ IH]; intros a pkts' Hrun; cbn [ack_range] in Hrun.
  { injection Hrun as <- <-. split; [done|apply report_none]. }
  apply sorted_cons in Hs as [Hs Hlt]. specialize (IH Hs).
  destruct (Z.leb_spec to (Sent.pkt_num p)) as [Hge|Hin].
  - injection Hrun as <- <-. assert (Forall (λ q, covers [(from, to)] (Sent.pkt_num q) = false) (p :: pkts)) as Hno.
    { unfold covers. cbn. constructor; [zdecide; by rewrite andb_false_r|]. eapply Forall_impl; [exact Hlt|]. intros q Hq. cbn in *. zdecide. by rewrite andb_false_r. }
    rewrite mark_all_none, !filter_none; [split; [done|apply report_none]|..|done]; (eapply Forall_impl; [exact Hno|]; intros q Hq; cbv beta in Hq; unfold spurious, hit; by rewrite Hq, andb_false_r).
  - unfold mbind, result_bind in Hrun. destruct (ack_packet now largest p a) as [[p1 a1]|e|] eqn:Hone; [|done..].
    destruct (ack_range now largest to pkts a1) as [[rest a2]|e|] eqn:Hrest; [|done..]. injection Hrun as <- <-.
    destruct (IH _ _ Hrest) as [-> Hr2]. destruct (ack_packet_report now largest p a p1 a1 ltac:(lia) Hp Hone) as [-> Hr1].
    assert (covers [(from, to)] (Sent.pkt_num p) = true) as Hc by (unfold covers; cbn; by zdecide).
    split; [unfold mark_all; by rewrite fmap_cons, Hc|]. rewrite !filter_one_if. unfold hit at 1, spurious at 1. rewrite Hc, !andb_true_r. by eapply report_app.
Qed.

Lemma ack_ranges_report now largest ranges pkts a pkts' a' :
  ranges_wf ranges → StronglySorted Z.lt (numbers pkts) → Forall (λ p, 0 <= Sent.pkt_num p) pkts → Forall (λ r, r.2 <= largest + 1) ranges → largest < PKT_NUM_MAX →
  ack_ranges now largest ranges pkts a = Ok (pkts', a') →
  acks_report now largest (filter (hit ranges) pkts) (filter (spurious ranges) pkts) a a'.
Proof.
  intros Hwf Hs Hp Hr Hl. revert pkts a pkts' Hs Hp Hwf. induction Hr as [|[from to] ranges Hto _ IH]; intros pkts a pkts' Hs Hp Hwf Hrun; cbn [ack_ranges] in Hrun.
  { injection Hrun as <- <-. rewrite !filter_none; [apply report_none|apply Forall_true..]; intros q; unfold hit, spurious; cbn; by rewrite andb_false_r. }
  destruct (start_of_spec from pkts Hs) as (l & r & -> & Est & Hlt & Hge). rewrite Est, take_app_length, drop_app_length in Hrun.
  unfold mbind, result_bind in Hrun. destruct (ack_range now largest to r a) as [[r' a1]|e|] eqn:Hrange; [|done..].
  pose proof Hp as [_ Hpr]%Forall_app. destruct (ack_range_report now largest from to r a r' a1) as [-> Hrep]; [by eapply sorted_suffix|by apply Forall_and|done..|].
  assert (Forall (λ p, covers [(from, to)] (Sent.pkt_num p) = false) l) as Hno by (eapply Forall_impl; [exact Hlt|]; intros q Hq; unfold covers; cbn in *; by zdecide).
  assert (l ++ mark_all now [(from, to)] r = mark_all now [(from, to)] (l ++ r)) as E by (rewrite mark_all_app; f_equal; symmetry; by apply mark_all_none).
  rewrite E in Hrun. rewrite (filter_ranges now outstanding hit), (filter_ranges now lost_only spurious) by (done || apply marked_outstanding || apply marked_lost_only).
  eapply report_app.
  - rewrite !filter_app. rewrite !(filter_none _ l); [exact Hrep|..];
      (eapply Forall_impl; [exact Hno|]; intros q Hq; cbv beta in Hq; unfold hit, spurious; by rewrite Hq, andb_false_r).
  - eapply (IH (mark_all now [(from, to)] (l ++ r))); [by rewrite mark_all_numbers| |by apply ranges_wf_cons in Hwf as (_ & _ & ?)|exact Hrun].
    unfold mark_all. apply Forall_fmap. eapply Forall_impl; [exact Hp|]. intros q Hq. unfold compose. destruct (covers [(from, to)] (Sent.pkt_num q)); [by rewrite marked_num|done].
Qed.

(** ** Losses *)

Definition frame_of (f : LostFrame) : Frame.t := match f with Lost f | LostAndRecovered f => f end.
Definition reported (l : list LostFrame) : list Frame.t := frame_of <$> l.

Lemma reported_report_lost b frames : reported (report_lost b frames) = frames.
Proof. revert b. induction frames as [|f frames IH]; intros b; [done|]. cbn [report_lost reported]. unfold reported in *. rewrite fmap_cons, IH. by destruct (match f with Frame.SourceSymbolHeader _ true => _ | _ => _ end). Qed.
Lemma reported_app l k : reported (l ++ k) = reported l ++ reported k.
Proof. apply fmap_app. Qed.

(** A packet that is declared lost, and the reference for which ones are. *)
Definition lost_mark (now : Z) p : Sent.t := Sent.set_time_lost (Some now) (Sent.set_frames [] p).
Definition overdue (largest lost_send_time pkt_thresh : Z) p : bool :=
  outstanding p && (Sent.pkt_num p <=? largest) && ((Sent.time_sent p <=? lost_send_time) || (Sent.pkt_num p + pkt_thresh <=? largest)).
Definition lose_all (now largest lost_send_time pkt_thresh : Z) pkts : list Sent.t :=
  (λ p, if overdue largest lost_send_time pkt_thresh p then lost_mark now p else p) <$> pkts.

Record lose_step D pkts (l : losses) pkts' (l' : losses) : Prop := {
  ls_bytes : lost_bytes l' + pmtud_lost_bytes l' + zsum weight pkts' = lost_bytes l + pmtud_lost_bytes l + zsum weight pkts;
  ls_count : loss_in_flight_count l' - zsum flying pkts' = loss_in_flight_count l - zsum flying pkts;
  ls_fewer : loss_in_flight_count l' <= loss_in_flight_count l;
  ls_packets : lost_packets l <= lost_packets l' ∧ lost_packets l' + zsum live pkts' <= lost_packets l + zsum live pkts;
  ls_gone : zsum gone pkts' + zsum live pkts' = zsum gone pkts + zsum live pkts;
  ls_frames : reported (loss_frames l') ++ frames_of pkts' ≡ₚ reported (loss_frames l) ++ frames_of pkts;
  ls_numbers : numbers pkts' = numbers pkts;
  ls_ok : Forall (packet_ok D) pkts';
  ls_largest : (largest_lost_pkt l = None → lost_bytes l = 0) → largest_lost_pkt l' = None → lost_bytes l' = 0
}.

Definition lose_room pkts (l : losses) : Prop :=
  0 <= lost_bytes l ∧ 0 <= pmtud_lost_bytes l ∧ lost_bytes l + pmtud_lost_bytes l + zsum weight pkts <= PACKET_SIZE * PACKETS ∧
  zsum flying pkts <= loss_in_flight_count l ∧ 0 <= lost_packets l ∧ lost_packets l + zsum live pkts <= PACKETS.

Lemma lose_refl D pkts l : Forall (packet_ok D) pkts → lose_step D pkts l pkts l.
Proof. intros Hp. split; done || lia. Qed.
Lemma lose_trans D (p1 p2 p3 : list Sent.t) l1 l2 l3 : lose_step D p1 l1 p2 l2 → lose_step D p2 l2 p3 l3 → lose_step D p1 l1 p3 l3.
Proof. intros [] []. split; try lia; try done; [by etrans|by etrans|intros; by apply ls_largest1; [apply ls_largest0|]]. Qed.

Lemma lose_cons D p p' pkts l l1 pkts' l' :
  Forall (packet_ok D) pkts → lose_step D [p] l [p'] l1 → lose_step D pkts l1 pkts' l' → lose_step D (p :: pkts) l (p' :: pkts') l'.
Proof.
  intros Hp [] []. unfold zsum, numbers in *. cbn [foldr fmap list_fmap frames_of concat] in *.
  split; unfold zsum, numbers; cbn [foldr fmap list_fmap]; try lia.
  - unfold frames_of in *. cbn [fmap list_fmap concat] in *. rewrite !app_nil_r in *.
    rewrite Permutation_app_swap_app, ls_frames1, Permutation_app_swap_app, !(assoc_L (++)). by rewrite ls_frames0.
  - injection ls_numbers0 as ->. by f_equal.
  - constructor; [by apply Forall_singleton|done].
  - intros; by apply ls_largest1; [apply ls_largest0|].
Qed.

(** One packet is declared lost. *)
Lemma lose_one D now p l :
  packet_ok D p → outstanding p = true →
  ∀ largest bytes pmtud count packets next,
    (if Sent.pmtud p then bytes = lost_bytes l ∧ pmtud = pmtud_lost_bytes l + weight p ∧ packets = lost_packets l ∧ largest = largest_lost_pkt l
     else bytes = lost_bytes l + weight p ∧ pmtud = pmtud_lost_bytes l ∧ packets = lost_packets l + 1 ∧
          (if Sent.in_flight p then is_Some largest else largest = largest_lost_pkt l)) →
    count = loss_in_flight_count l - flying p →
  lose_step D [p] l [lost_mark now p] (mk_losses largest packets bytes pmtud count (loss_frames l ++ report_lost false (Sent.frames p)) next).
Proof.
  intros Hp Ho largest bytes pmtud count packets next Hv ->.
  assert (outstanding (lost_mark now p) = false) as Ho' by (unfold outstanding; cbn [lost_mark Sent.set_time_lost Sent.time_lost]; apply andb_false_r).
  assert (gone (lost_mark now p) = live p) as Hg.
  { unfold gone, live. rewrite Ho. unfold outstanding in Ho. apply andb_true_iff in Ho as [Ho _]. cbn [lost_mark Sent.set_time_lost Sent.set_frames Sent.time_acked Sent.time_lost].
    by rewrite Ho. }
  assert (gone p = 0) as Hg0.
  { unfold gone. unfold outstanding in Ho. apply andb_true_iff in Ho as [_ Ho]. apply bool_decide_eq_true in Ho. by rewrite Ho. }
  assert (weight (lost_mark now p) = 0 ∧ flying (lost_mark now p) = 0 ∧ live (lost_mark now p) = 0) as (Hw0 & Hf0 & Hl0).
  { unfold weight, flying, live. by rewrite Ho', andb_false_r. }
  assert (live p = 1) as Hl1 by (unfold live; by rewrite Ho).
  split; unfold zsum; cbn [foldr lost_packets lost_bytes pmtud_lost_bytes loss_in_flight_count loss_frames largest_lost_pkt]; rewrite ?Hw0, ?Hf0, ?Hl0, ?Hg, ?Hg0, ?Hl1.
  - destruct (Sent.pmtud p); lia.
  - lia.
  - pose proof (flying_live p). lia.
  - destruct (Sent.pmtud p); lia.
  - lia.
  - unfold frames_of. cbn. rewrite reported_app, reported_report_lost, !app_nil_r. done.
  - done.
  - apply Forall_singleton. destruct Hp. by split.
  - intros Hl E. destruct (Sent.pmtud p); [destruct Hv as (-> & _ & _ & ->); by apply Hl|]. destruct Hv as (-> & _ & _ & Hlg).
    unfold weight. destruct (Sent.in_flight p); [rewrite E in Hlg; by destruct Hlg|]. cbn. rewrite Hl; [done|by rewrite <- Hlg].
Qed.

Lemma lose_packets_run D delay thresh now largest lost_send_time pkts l :
  packets_ok D pkts → 0 <= delay <= 2 ^ 60 * SEC → 0 <= thresh <= MAX_PACKET_THRESHOLD → lose_room pkts l →
  ∃ pkts' l', lose_packets delay thresh now largest lost_send_time pkts l = Ok (pkts', l') ∧ lose_step D pkts l pkts' l' ∧
    0 <= lost_bytes l' ∧ 0 <= pmtud_lost_bytes l' ∧
    (StronglySorted Z.le (Sent.time_sent <$> pkts) → pkts' = lose_all now largest lost_send_time thresh pkts).
Proof.
  intros [Hp Hs] Hdelay Hthresh. revert l. induction Hp as [|p pkts Hp Hpkts IH]; intros l Hroom; cbn [lose_packets].
  { exists [], l. split_and!; [done|by apply lose_refl|apply Hroom|apply Hroom|done]. }
  apply sorted_cons in Hs as [Hs Hlt]. specialize (IH Hs).
  destruct (Z.ltb_spec largest (Sent.pkt_num p)) as [Hgt|Hle].
  { exists (p :: pkts), l. split_and!; [done|apply lose_refl; by constructor|apply Hroom|apply Hroom|].
    intros _. unfold lose_all. assert (Forall (λ q, overdue largest lost_send_time thresh q = false) (p :: pkts)) as Hno.
    { constructor; [unfold overdue; zdecide; by rewrite andb_false_r|]. eapply Forall_impl; [exact Hlt|]. intros q Hq. cbn in Hq. unfold overdue. zdecide. by rewrite andb_false_r. }
    clear -Hno. induction Hno as [|q qs Hq _ IH]; [done|]. rewrite fmap_cons, Hq. by f_equal. }
  destruct (outstanding p) eqn:Ho; cbn [negb].
  2: { destruct (IH l) as (pkts' & l' & -> & Hst & Hb & Hpb & Hex).
       { unfold lose_room, zsum in *. cbn [foldr] in Hroom. pose proof (weight_bounds _ _ Hp). pose proof (flying_live p). unfold PACKET_SIZE in *. lia. }
       cbn [mbind result_bind]. exists (p :: pkts'), l'. split_and!; [done| |done|done|].
       - eapply lose_cons; [done| |exact Hst]. by apply lose_refl, Forall_singleton.
       - intros Ht. rewrite fmap_cons in Ht. apply StronglySorted_inv in Ht as [Ht _]. unfold lose_all. rewrite fmap_cons. unfold overdue at 1. rewrite Ho. cbn [andb]. f_equal. by apply Hex. }
  assert (∃ b : bool, (if Sent.time_sent p <=? lost_send_time then Ok true
             else threshold ← uadd (Sent.pkt_num p) thresh; Ok (threshold <=? largest)) = Ok (E:=Error) b ∧ overdue largest lost_send_time thresh p = b) as (b & -> & Hb).
  { unfold overdue. rewrite Ho. rewrite (proj2 (Z.leb_le _ _) Hle). destruct (Sent.time_sent p <=? lost_send_time); [by exists true|].
    pose proof (pk_num _ _ Hp) as Hn. change PKT_NUM_MAX with 4611686018427387904 in Hn. unfold MAX_PACKET_THRESHOLD in Hthresh.
    rewrite uadd_ok by lia. cbn. by eexists. }
  cbn [mbind result_bind]. unfold lose_room in Hroom. unfold zsum in Hroom. cbn [foldr] in Hroom.
  pose proof (weight_bounds _ _ Hp) as Hwb. pose proof (sums_ok _ _ Hpkts) as (Hsw & Hsf & _). pose proof (flying_live p) as Hfl.
  change PACKETS with 68719476736 in *. change PACKET_SIZE with 65535 in *. unfold zsum in Hsw, Hsf.
  assert (live p = 1) as Hl1 by (unfold live; by rewrite Ho).
  destruct b.
  - fold (lost_mark now p).
    set (m := if Sent.pmtud p then _ else _). assert (∃ l1, m = Ok l1 ∧ lose_step D [p] l [lost_mark now p] l1 ∧ 0 <= lost_bytes l1 ∧ 0 <= pmtud_lost_bytes l1 ∧ loss_in_flight_count l1 = loss_in_flight_count l - flying p) as (l1 & -> & Hst1 & Hb1 & Hpb1 & Hc1).
    { pose proof (lose_one D now p l Hp Ho) as Hone. unfold m. unfold weight, flying in *. rewrite Ho, andb_true_r in *.
      pose proof (pk_pmtud _ _ Hp) as Hpm. destruct (Sent.pmtud p).
      - rewrite Hpm in * by done. unfold b2z in *. rewrite uadd_ok by lia. cbn [mbind result_bind]. rewrite usub_ok by lia. cbn [mbind result_bind].
        eexists. split; [reflexivity|]. split; [by apply Hone|cbn; lia].
      - destruct (Sent.in_flight p); unfold b2z in *.
        + rewrite uadd_ok by lia. cbn [mbind result_bind]. rewrite usub_ok by lia. cbn [mbind result_bind]. rewrite uadd_ok by lia. cbn [mbind result_bind].
          eexists. split; [reflexivity|]. split; [by apply Hone|cbn; lia].
        + cbn [mbind result_bind]. rewrite uadd_ok by lia. cbn [mbind result_bind]. eexists. split; [reflexivity|].
          split; [apply Hone; [split_and!; done || lia|lia]|cbn; lia]. }
    cbn [mbind result_bind]. destruct (IH l1) as (pkts' & l' & -> & Hst & Hb' & Hpb' & Hex).
    { destruct Hst1. unfold lose_room. unfold zsum in *. cbn [foldr] in *. change PACKETS with 68719476736. change PACKET_SIZE with 65535.
      assert (weight (lost_mark now p) = 0 ∧ live (lost_mark now p) = 0) as [Hw0 Hl0] by (unfold weight, live, outstanding; cbn [lost_mark Sent.set_time_lost Sent.time_lost]; by rewrite !andb_false_r).
      rewrite Hw0 in *. rewrite Hl0 in *. lia. }
    cbn [mbind result_bind]. exists (lost_mark now p :: pkts'), l'. split_and!; [done|by eapply lose_cons|done|done|].
    intros Ht. rewrite fmap_cons in Ht. apply StronglySorted_inv in Ht as [Ht _]. unfold lose_all. rewrite fmap_cons, Hb. f_equal. by apply Hex.
  - pose proof (pk_time _ _ Hp) as Htime. change SEND_TIME with 4611686018427387904000000000 in Htime. change (2 ^ 60 * SEC) with 1152921504606846976000000000 in Hdelay.
    rewrite inst_add_ok by (change INSTANT_MAX with 9223372036854775807999999999; lia). cbn [mbind result_bind].
    eexists _, _. split_and!; [reflexivity| |cbn; lia|cbn; lia|].
    + split; cbn; try done; try lia. by constructor.
    + intros Ht. rewrite fmap_cons in Ht. apply StronglySorted_inv in Ht as [_ Ht]. rewrite Forall_fmap in Ht. unfold lose_all. rewrite fmap_cons, Hb. f_equal.
      unfold overdue in Hb. rewrite Ho, (proj2 (Z.leb_le _ _) Hle) in Hb. cbn [andb] in Hb. apply orb_false_iff in Hb as [Hb1 Hb2].
      apply Z.leb_gt in Hb1, Hb2. clear -Ht Hlt Hb1 Hb2. induction Hlt as [|q qs Hq _ IH]; [done|]. apply Forall_cons in Ht as [Hqt Ht]. cbn in Hqt.
      rewrite fmap_cons. rewrite <- IH by done. f_equal. unfold overdue. zdecide. by rewrite andb_false_r.
Qed.

(** *** What is reported, in order *)

(** The probes of the path's MTU, and the other packets in flight. *)
Definition counted p : bool := negb (Sent.pmtud p).
Definition charged p : bool := negb (Sent.pmtud p) && Sent.in_flight p.

(** From the results [l] to [l'] by the lost packets [hits] and the first
    packet that may be lost later, [wait]. *)
Record loss_report (now delay : Z) (hits : list Sent.t) (wait : option Sent.t) (l l' : losses) : Prop := {
  lr_frames : loss_frames l' = loss_frames l ++ concat ((λ p, report_lost false (Sent.frames p)) <$> hits);
  lr_bytes : lost_bytes l' = lost_bytes l + zsum Sent.size (filter charged hits);
  lr_pmtud : pmtud_lost_bytes l' = pmtud_lost_bytes l + zsum Sent.size (filter Sent.pmtud hits);
  lr_packets : lost_packets l' = lost_packets l + zlen (filter counted hits);
  lr_largest : largest_lost_pkt l' = match last (filter charged hits) with Some p => Some (lost_mark now p) | None => largest_lost_pkt l end;
  lr_time : next_loss_time l' = match wait with
    | Some p => Some (match next_loss_time l with None => Sent.time_sent p + delay | Some t => Z.min t (Sent.time_sent p + delay) end)
    | None => next_loss_time l
    end
}.

Lemma loss_report_none now delay l : loss_report now delay [] None l l.
Proof. split; cbn; rewrite ?app_nil_r, ?zlen_nil; try done; lia. Qed.
Lemma loss_report_app now delay h1 h2 w l1 l2 l3 :
  loss_report now delay h1 None l1 l2 → loss_report now delay h2 w l2 l3 → loss_report now delay (h1 ++ h2) w l1 l3.
Proof.
  intros [E1 E2 E3 E4 E5 E6] [F1 F2 F3 F4 F5 F6]. split.
  - by rewrite F1, E1, fmap_app, concat_app, (assoc_L (++)).
  - rewrite F2, E2, filter_app, zsum_app. lia.
  - rewrite F3, E3, filter_app, zsum_app. lia.
  - rewrite F4, E4, filter_app, zlen_app. lia.
  - rewrite F5, E5, filter_app, last_app. by destruct (last (filter _ h2)).
  - by rewrite F6, E6.
Qed.

(** A packet that is not overdue and may become so with time. *)
Definition waiting (largest lost_send_time pkt_thresh : Z) p : bool :=
  outstanding p && (Sent.pkt_num p <=? largest) && negb (overdue largest lost_send_time pkt_thresh p).

(** One lost packet. *)
Lemma lose_one_report now delay p l largest bytes pmtud count packets :
  (if Sent.pmtud p then bytes = lost_bytes l ∧ pmtud = pmtud_lost_bytes l + Sent.size p ∧ packets = lost_packets l ∧ largest = largest_lost_pkt l
   else (if Sent.in_flight p then bytes = lost_bytes l + Sent.size p ∧ largest = Some (lost_mark now p) else bytes = lost_bytes l ∧ largest = largest_lost_pkt l) ∧
        pmtud = pmtud_lost_bytes l ∧ packets = lost_packets l + 1) →
  loss_report now delay [p] None l (mk_losses largest packets bytes pmtud count (loss_frames l ++ report_lost false (Sent.frames p)) (next_loss_time l)).
Proof.
  intros Hv. assert (∀ f : Sent.t → bool, filter f [p] = one_if (f p) p) as Hone by (intros f; by rewrite filter_one_if, app_nil_r).
  split; cbn [loss_frames lost_bytes pmtud_lost_bytes lost_packets largest_lost_pkt next_loss_time]; rewrite ?Hone; unfold charged, counted;
    [cbn; by rewrite app_nil_r|..|done]; destruct (Sent.pmtud p), (Sent.in_flight p); cbn in *; destruct_and?; subst; rewrite ?zlen_nil; try done; lia.
Qed.

(** Packets after one that is not overdue are not. *)
Lemma later_not_overdue largest lost_send_time thresh p pkts :
  Forall (λ q, Sent.pkt_num p < Sent.pkt_num q) pkts → Forall (λ q, Sent.time_sent p <= Sent.time_sent q) pkts →
  lost_send_time < Sent.time_sent p → largest < Sent.pkt_num p + thresh → Forall (λ q, overdue largest lost_send_time thresh q = false) pkts.
Proof.
  intros Hn Ht Hs Hl. induction Hn as [|q qs Hq _ IH]; [constructor|]. apply Forall_cons in Ht as [Hqt Ht]. constructor; [|by apply IH].
  unfold overdue. zdecide. by rewrite andb_false_r.
Qed.

Lemma lose_packets_report delay thresh now largest lost_send_time pkts l pkts' l' (late := overdue largest lost_send_time thresh) :
  StronglySorted Z.lt (numbers pkts) → StronglySorted Z.le (Sent.time_sent <$> pkts) →
  lose_packets delay thresh now largest lost_send_time pkts l = Ok (pkts', l') →
  loss_report now delay (filter late pkts) (head (filter (waiting largest lost_send_time thresh) pkts)) l l'.
Proof.
  subst late. revert l pkts'. induction pkts as [|p pkts IH]; intros l pkts' Hs Ht Hrun; cbn [lose_packets] in Hrun.
  { injection Hrun as <- <-. apply loss_report_none. }
  apply sorted_cons in Hs as [Hs Hlt]. rewrite fmap_cons in Ht. apply StronglySorted_inv in Ht as [Hts Hle]. rewrite Forall_fmap in Hle. specialize (λ l pkts', IH l pkts' Hs Hts).
  destruct (Z.ltb_spec largest (Sent.pkt_num p)) as [Hgt|Hin].
  { injection Hrun as <- <-. assert (Forall (λ q, (Sent.pkt_num q <=? largest) = false) (p :: pkts)) as Hno.
    { constructor; [by zdecide|]. eapply Forall_impl; [exact Hlt|]. intros q Hq. cbn in Hq. by zdecide. }
    rewrite !filter_none; [apply loss_report_none|..]; (eapply Forall_impl; [exact Hno|]; intros q Hq; cbv beta in Hq; unfold waiting, overdue; by rewrite Hq, andb_false_r). }
  rewrite (filter_one_if (overdue _ _ _)), (filter_one_if (waiting _ _ _)). unfold waiting at 1. rewrite (proj2 (Z.leb_le _ _) Hin), andb_true_r.
  unfold mbind, result_bind in Hrun. destruct (outstanding p) eqn:Ho; cbn [negb andb] in Hrun |- *; cycle 1.
  { destruct (lose_packets _ _ _ _ _ _ _) as [[rest l1]|e|] eqn:Hr; [|done..]. injection Hrun as <- <-. unfold overdue at 1. rewrite Ho. by eapply IH. }
  assert (∀ b : bool, (if Sent.time_sent p <=? lost_send_time then Ok true
      else match uadd (Sent.pkt_num p) thresh with Ok t => Ok (t <=? largest) | Err e => Err e | Panic => Panic end) = Ok (E:=Error) b → overdue largest lost_send_time thresh p = b) as Hb.
  { intros b. unfold overdue. rewrite Ho, (proj2 (Z.leb_le _ _) Hin). cbn [andb]. destruct (_ <=? lost_send_time); [by intros [= <-]|].
    unfold uadd. destruct (_ <=? u64_max); [|done]. by intros [= <-]. }
  destruct (if Sent.time_sent p <=? lost_send_time then _ else _) as [b|e|]; [|done..]. rewrite (Hb b eq_refl). destruct b; cbn [negb one_if app].
  - fold (lost_mark now p) in Hrun.
    match type of Hrun with match ?m with _ => _ end = _ => destruct m as [l1|e|] eqn:Hone; [|done..] end.
    destruct (lose_packets _ _ _ _ _ _ l1) as [[rest l2]|e|] eqn:Hr; [|done..]. injection Hrun as <- <-.
    change (p :: filter ?f pkts) with ([p] ++ filter f pkts). eapply (loss_report_app _ _ [p]); [|by eapply IH]. clear -Hone.
    unfold uadd, usub in Hone. destruct (Sent.pmtud p) eqn:Hpm; [|destruct (Sent.in_flight p) eqn:Hfl]; repeat (case_match; simplify_eq); (apply lose_one_report; rewrite Hpm, ?Hfl; by split_and!).
  - destruct (inst_add _ _) as [t|e|] eqn:Hadd; [|done..]. injection Hrun as <- <-. unfold inst_add in Hadd. case_match; [injection Hadd as <-|done].
    specialize (Hb _ eq_refl). unfold overdue in Hb. rewrite Ho, (proj2 (Z.leb_le _ _) Hin) in Hb. cbn [andb] in Hb. apply orb_false_iff in Hb as [Hb1%Z.leb_gt Hb2%Z.leb_gt].
    rewrite filter_none by by eapply later_not_overdue. split; cbn; rewrite ?app_nil_r, ?zlen_nil; try done; lia.
Qed.

(** ** Draining *)

Lemma drain_front_split thresh pkts : ∃ l, pkts = l ++ drain_front thresh pkts ∧ Forall (λ p, outstanding p = false) l.
Proof.
  induction pkts as [|p pkts IH]; [by exists []|]. cbn [drain_front]. destruct (match Sent.time_lost p with Some _ => _ | None => _ end); [by exists []|].
  destruct (outstanding p) eqn:Ho; [by exists []|]. destruct IH as (l & El & Hl). exists (p :: l). split; [by rewrite <- app_comm_cons, <- El|by constructor].
Qed.

Lemma drained D thresh pkts : packets_ok D pkts →
  packets_ok D (drain_front thresh pkts) ∧ zsum weight (drain_front thresh pkts) = zsum weight pkts ∧
  zsum flying (drain_front thresh pkts) = zsum flying pkts ∧ zsum live (drain_front thresh pkts) = zsum live pkts ∧
  zsum gone (drain_front thresh pkts) <= zsum gone pkts ∧ frames_of (drain_front thresh pkts) = frames_of pkts.
Proof.
  intros [Hp Hs]. destruct (drain_front_split thresh pkts) as (l & E & Hl). set (d := drain_front thresh pkts) in *. clearbody d. subst pkts.
  apply sorted_suffix in Hs. apply Forall_app in Hp as [Hpl Hpd]. rewrite !zsum_app, frames_app. split; [done|].
  assert (zsum weight l = 0 ∧ zsum flying l = 0 ∧ zsum live l = 0 ∧ 0 <= zsum gone l ∧ frames_of l = []) as (-> & -> & -> & Hg & ->); [|split_and!; done || lia].
  clear -Hl Hpl. induction Hl as [|p l Ho _ IH]; [done|]. apply Forall_cons in Hpl as [Hp Hpl]. destruct (IH Hpl) as (H1 & H2 & H3 & H4 & H5).
  rewrite !zsum_cons, H1, H2, H3. unfold weight, flying, live. rewrite Ho, andb_false_r. pose proof (gone_bounds p). split_and!; try done; [lia|].
  unfold frames_of in *. cbn. by rewrite H5, (pk_frames _ _ Hp Ho).
Qed.

(** ** A packet number space *)

Record epoch_ok (D : Z) (e : RecoveryEpoch.t) : Prop := {
  ep_packets : packets_ok D (sent_packets e);
  ep_count : in_flight_count e = zsum flying (sent_packets e);
  ep_largest : match largest_acked_packet e with Some n => 0 <= n < PKT_NUM_MAX | None => True end;
  ep_probes : 0 <= loss_probes e <= MAX_PTO_PROBES_COUNT
}.

(** Everything the space keeps: frames of packets, of acknowledged packets not
    yet read, and of lost packets not yet read. *)
Definition tracked_frames (e : RecoveryEpoch.t) : list Frame.t := frames_of (sent_packets e) ++ acked_frames e ++ reported (lost_frames e).

Lemma epoch_more D D' e : D <= D' → epoch_ok D e → epoch_ok D' e.
Proof.
  intros HD [[Hp Hs] ? ? ?]. split; try done. split; [|done]. eapply Forall_impl; [exact Hp|]. intros p. by apply packet_more.
Qed.

Lemma largest_set_ok D n e : 0 <= n < PKT_NUM_MAX → epoch_ok D e → epoch_ok D (set_largest_acked_packet (Some n) e).
Proof. intros Hn []. by split. Qed.

Lemma default_epoch_ok D : epoch_ok D RecoveryEpoch.default.
Proof. split; [split; constructor|done|done|done]. Qed.

Lemma drain_epoch_ok D thresh e : epoch_ok D e →
  let e' := drain_acked_and_lost_packets thresh e in
  epoch_ok D e' ∧ in_flight_count e' = in_flight_count e ∧ zsum weight (sent_packets e') = zsum weight (sent_packets e) ∧ zsum live (sent_packets e') = zsum live (sent_packets e) ∧
  zsum gone (sent_packets e') <= zsum gone (sent_packets e) ∧ tracked_frames e' = tracked_frames e.
Proof.
  intros [Hp Hc Hl Hb]. destruct (drained D thresh _ Hp) as (Hok & Hw & Hf & Hlv & Hg & Hfr). cbv zeta. unfold drain_acked_and_lost_packets. split_and!; try done.
  - split; cbn [sent_packets in_flight_count largest_acked_packet loss_probes set_sent_packets]; [exact Hok|by rewrite Hf|exact Hl|exact Hb].
  - unfold tracked_frames. cbn [sent_packets set_sent_packets]. by rewrite Hfr.
Qed.

Lemma detect_acked_run D now acked stats e largest :
  epoch_ok D e → largest_acked_packet e = Some largest → Forall (λ r, r.2 <= largest + 1) (RangeSet.iter acked) →
  zsum live (sent_packets e) <= PACKETS → zsum gone (sent_packets e) <= PACKETS → 0 <= now → 0 <= RttStats.rtt stats <= HORIZON →
  ∃ a e', detect_and_remove_acked_packets now acked stats e = Ok (a, e') ∧ epoch_ok D e' ∧
    sent_packets e' = drain_front (now - RttStats.rtt stats) (mark_all now (RangeSet.iter acked) (sent_packets e)) ∧
    in_flight_count e' <= in_flight_count e ∧ acked_bytes a <= PACKET_SIZE * zlen (newly_acked a) ∧
    0 <= acked_bytes a ∧ acked_bytes a + zsum weight (sent_packets e') = zsum weight (sent_packets e) ∧
    zlen (newly_acked a) + zsum live (sent_packets e') = zsum live (sent_packets e) ∧
    0 <= spurious_losses a ∧ spurious_losses a + zsum gone (sent_packets e') <= zsum gone (sent_packets e) ∧
    Forall (acked_fine D) (newly_acked a) ∧ match spurious_pkt_thresh a with Some t => 1 <= t | None => True end ∧
    tracked_frames e' ≡ₚ tracked_frames e ∧
    time_of_last_ack_eliciting_packet e' = time_of_last_ack_eliciting_packet e ∧ largest_acked_packet e' = Some largest ∧ lost_frames e' = lost_frames e ∧
    acked_frames e' ++ frames_of (mark_all now (RangeSet.iter acked) (sent_packets e)) ≡ₚ acked_frames e ++ frames_of (sent_packets e).
Proof.
  intros [Hp Hc Hl Hb] El Hr Hlive Hgone Hnow Hrtt. unfold detect_and_remove_acked_packets. rewrite El in Hl |- *.
  pose proof (sums_ok _ _ (proj1 Hp)) as (Hsw & Hsf & Hsg). change PACKETS with 68719476736 in *. change PACKET_SIZE with 65535 in *.
  edestruct (ack_ranges_run D now largest (RangeSet.iter acked) (sent_packets e)) as (a & -> & Hst & Hnb & Hnsp); [done|done|lia| |].
  { unfold acks_room. cbn [acked_bytes ack_in_flight_count spurious_losses]. change PACKETS with 68719476736. change PACKET_SIZE with 65535. lia. }
  cbn [mbind result_bind]. change HORIZON with 67108864000000000 in Hrtt. rewrite inst_sub_ok by (change INSTANT_MIN with (-9223372036854775808000000000); lia). cbn [mbind result_bind].
  set (pkts := mark_all now _ _) in *. assert (packets_ok D pkts) as Hpk.
  { split; [apply Hst|]. unfold pkts. rewrite mark_all_numbers. apply Hp. }
  destruct (drained D (now - RttStats.rtt stats) _ Hpk) as (Hok & Hw & Hf & Hlv & Hg & Hfr).
  pose proof (sums_ok _ _ (st_ok _ _ _ _ _ Hst)) as (Hsw' & Hsf' & Hsg').
  destruct Hst as [Hst1 Hst2 Hst2' Hst2'' Hst3 Hst4 Hst5 _ Hst6 Hst7]. cbn [acked_bytes ack_in_flight_count newly_acked spurious_losses ack_frames spurious_pkt_thresh zlen] in *. rewrite zlen_nil in *. change PACKET_SIZE with 65535 in *.
  eexists _, _. split; [reflexivity|]. cbn [drain_acked_and_lost_packets set_sent_packets sent_packets set_acked_frames set_in_flight_count time_of_last_ack_eliciting_packet largest_acked_packet].
  split; [|split_and!; try done; try lia; [apply Hst6; constructor|by apply Hst7|]].
  - split; cbn [drain_acked_and_lost_packets sent_packets in_flight_count largest_acked_packet loss_probes set_sent_packets set_acked_frames set_in_flight_count]; [exact Hok|lia|by rewrite El|exact Hb].
  - unfold tracked_frames. cbn [drain_acked_and_lost_packets sent_packets acked_frames lost_frames set_sent_packets set_acked_frames set_in_flight_count set_loss_time set_lost_frames]. rewrite Hfr, (Permutation_app_comm (frames_of pkts)), <- !(assoc_L (++)).
    rewrite (Permutation_app_comm (reported _)), (assoc_L (++)), Hst5. rewrite (Permutation_app_comm (acked_frames e)), <- !(assoc_L (++)).
    apply Permutation_app_head. done.
Qed.

Lemma detect_lost_run D delay thresh now e :
  epoch_ok D e → 0 <= delay <= 2 ^ 59 * SEC → 0 <= thresh <= MAX_PACKET_THRESHOLD → zsum live (sent_packets e) <= PACKETS → 0 <= now →
  ∃ l e', RecoveryEpoch.detect_lost_packets delay thresh now e = Ok (l, e') ∧ epoch_ok D e' ∧ in_flight_count e' <= in_flight_count e ∧
    0 <= lost_bytes l ∧ 0 <= pmtud_lost_bytes l ∧ lost_bytes l + pmtud_lost_bytes l + zsum weight (sent_packets e') = zsum weight (sent_packets e) ∧
    0 <= lost_packets l ∧ lost_packets l + zsum live (sent_packets e') <= zsum live (sent_packets e) ∧
    zsum gone (sent_packets e') + zsum live (sent_packets e') = zsum gone (sent_packets e) + zsum live (sent_packets e) ∧
    (largest_lost_pkt l = None → lost_bytes l = 0) ∧ tracked_frames e' ≡ₚ tracked_frames e ∧
    time_of_last_ack_eliciting_packet e' = time_of_last_ack_eliciting_packet e ∧ largest_acked_packet e' = largest_acked_packet e ∧
    (StronglySorted Z.le (Sent.time_sent <$> sent_packets e) →
     sent_packets e' = lose_all now (match largest_acked_packet e with Some n => n | None => 0 end) (now - Z.max delay GRANULARITY) thresh (sent_packets e)).
Proof.
  intros [Hp Hc Hl Hb] Hd Ht Hlive Hnow. unfold RecoveryEpoch.detect_lost_packets.
  pose proof (sums_ok _ _ (proj1 Hp)) as (Hsw & Hsf & Hsg). change PACKETS with 68719476736 in *. change PACKET_SIZE with 65535 in *.
  change (2 ^ 59 * SEC) with 576460752303423488000000000 in Hd. change GRANULARITY with 1000000.
  rewrite inst_sub_ok by (change INSTANT_MIN with (-9223372036854775808000000000); lia). cbn [mbind result_bind].
  edestruct (lose_packets_run D (Z.max delay 1000000) thresh now (match largest_acked_packet e with Some n => n | None => 0 end) (now - Z.max delay 1000000) (sent_packets e))
    as (pkts & l & -> & Hst & Hnb & Hnp & Hex); [done|change (2 ^ 60 * SEC) with 1152921504606846976000000000; lia|done| |].
  { unfold lose_room. cbn [lost_bytes pmtud_lost_bytes loss_in_flight_count lost_packets]. change PACKETS with 68719476736. change PACKET_SIZE with 65535. lia. }
  cbn [mbind result_bind]. destruct Hst as [H1 H2 H2' H3 H4 H5 H6 H7 H8]. cbn [lost_bytes pmtud_lost_bytes loss_in_flight_count lost_packets loss_frames largest_lost_pkt] in *.
  eexists _, _. split; [reflexivity|]. cbn [set_loss_time set_lost_frames set_in_flight_count set_sent_packets sent_packets time_of_last_ack_eliciting_packet largest_acked_packet].
  split; [|split_and!; try done; try lia; [by apply H8|]].
  - split; cbn [sent_packets in_flight_count largest_acked_packet loss_probes set_loss_time set_lost_frames set_in_flight_count set_sent_packets]; [split; [done|rewrite H6; apply Hp]|lia|exact Hl|exact Hb].
  - unfold tracked_frames. cbn [sent_packets acked_frames lost_frames set_sent_packets set_acked_frames set_in_flight_count set_loss_time set_lost_frames]. rewrite (Permutation_app_swap_app _ (acked_frames e)), (Permutation_app_comm (frames_of pkts)), H5.
    by rewrite (Permutation_app_comm (reported _)), (Permutation_app_swap_app _ (frames_of _)).
Qed.

(** The results of the whole call, in the order of the packets. *)
Lemma detect_acked_report D now acked stats e largest a e' :
  epoch_ok D e → largest_acked_packet e = Some largest → ranges_wf (RangeSet.iter acked) → Forall (λ r, r.2 <= largest + 1) (RangeSet.iter acked) →
  detect_and_remove_acked_packets now acked stats e = Ok (a, e') →
  acks_report now largest (filter (hit (RangeSet.iter acked)) (sent_packets e)) (filter (spurious (RangeSet.iter acked)) (sent_packets e))
    (mk_acks [] 0 0 None false false (in_flight_count e) (acked_frames e)) a ∧ acked_frames e' = ack_frames a.
Proof.
  intros [[Hp Hs] Hc Hl Hb] El Hwf Hr Hrun. unfold detect_and_remove_acked_packets in Hrun. rewrite El in Hrun, Hl. unfold mbind, result_bind in Hrun.
  destruct (ack_ranges _ _ _ _ _) as [[pkts a1]|err|] eqn:Hack; [|done..]. destruct (inst_sub _ _) as [t|err|]; [|done..]. injection Hrun as <- <-.
  split; [|done]. eapply (ack_ranges_report now largest); [done|done| |done|lia|exact Hack]. eapply Forall_impl; [exact Hp|]. intros p Hpk. apply (pk_num _ _ Hpk).
Qed.

(** C20. An ACK acknowledges exactly the packets that its ranges cover.  Of the
    packets of the space, in the order of their numbers: those that are covered
    and still outstanding are marked and, one record for each, handed to
    congestion control; their frames, and no others, are reported as
    acknowledged; their bytes are counted.  The covered ones that were declared
    lost are marked and counted as spurious losses, the first of them gives the
    packet threshold.  No other packet changes, no loss report does, and the
    packets at the front of the list that are no longer outstanding go. *)
Theorem ack_exact D now acked stats e largest :
  epoch_ok D e → largest_acked_packet e = Some largest → ranges_wf (RangeSet.iter acked) → Forall (λ r, r.2 <= largest + 1) (RangeSet.iter acked) →
  zsum live (sent_packets e) <= PACKETS → zsum gone (sent_packets e) <= PACKETS → 0 <= now → 0 <= RttStats.rtt stats <= HORIZON →
  let hits := filter (hit (RangeSet.iter acked)) (sent_packets e) in
  let spurs := filter (spurious (RangeSet.iter acked)) (sent_packets e) in
  ∃ a e', detect_and_remove_acked_packets now acked stats e = Ok (a, e') ∧
    sent_packets e' = drain_front (now - RttStats.rtt stats) (mark_all now (RangeSet.iter acked) (sent_packets e)) ∧
    newly_acked a = to_acked now <$> hits ∧
    acked_frames e' = acked_frames e ++ frames_of hits ∧
    acked_bytes a = zsum weight hits ∧ has_ack_eliciting a = existsb Sent.ack_eliciting hits ∧
    spurious_losses a = zlen spurs ∧ spurious_pkt_thresh a = ((λ p, largest - Sent.pkt_num p + 1) <$> head spurs) ∧
    has_in_flight_spurious_loss a = existsb Sent.in_flight spurs ∧
    lost_frames e' = lost_frames e ∧ in_flight_count e' = zsum flying (sent_packets e') ∧
    acked_bytes a = zsum weight (sent_packets e) - zsum weight (sent_packets e').
Proof.
  intros He El Hwf Hr Hlive Hgone Hnow Hrtt hits spurs.
  destruct (detect_acked_run D now acked stats e largest) as (a & e' & Hrun & He' & Hs & _ & _ & _ & Hb & _ & _ & _ & _ & _ & _ & _ & _ & Hlf & _); [done..|].
  destruct (detect_acked_report _ _ _ _ _ _ _ _ He El Hwf Hr Hrun) as [[Hn Hf Hby Hsp Hth Hel Hfl] Hfr].
  exists a, e'. split_and!; try done; [by rewrite Hfr, Hf|apply He'|lia].
Qed.

(** The results of the whole call. *)
Lemma detect_lost_report D delay thresh now e l e' : epoch_ok D e → StronglySorted Z.le (Sent.time_sent <$> sent_packets e) →
  RecoveryEpoch.detect_lost_packets delay thresh now e = Ok (l, e') →
  let largest := match largest_acked_packet e with Some n => n | None => 0 end in
  let last_time := now - Z.max delay GRANULARITY in
  loss_report now (Z.max delay GRANULARITY) (filter (overdue largest last_time thresh) (sent_packets e)) (head (filter (waiting largest last_time thresh) (sent_packets e)))
    (mk_losses None 0 0 0 (in_flight_count e) (lost_frames e) None) l ∧
  lost_frames e' = loss_frames l ∧ loss_time e' = next_loss_time l ∧ acked_frames e' = acked_frames e.
Proof.
  intros He Ht Hrun largest last_time. unfold RecoveryEpoch.detect_lost_packets, mbind, result_bind in Hrun.
  destruct (inst_sub _ _) as [t|err|] eqn:Hsub; [|done..]. unfold inst_sub in Hsub. destruct (INSTANT_MIN <=? _); [injection Hsub as <-|done].
  destruct (lose_packets _ _ _ _ _ _ _) as [[pkts l1]|err|] eqn:Hlose; [|done..]. injection Hrun as <- <-. split; [|done].
  eapply lose_packets_report; [apply He|done|exact Hlose].
Qed.

(** C21. When send times grow with packet numbers, loss detection declares lost
    exactly the outstanding packets up to the largest acknowledged one that are
    old enough or far enough behind it.  In the order of the packets, their
    frames, and no others, are reported as lost; the bytes are counted apart for
    probes of the MTU, the packets without those, and the last one in flight is
    the one that congestion control sees.  The loss time becomes that of the
    first outstanding packet, up to the largest acknowledged one, that is not yet
    lost, or none when there is no such packet. *)
Theorem loss_exact D delay thresh now e :
  epoch_ok D e → StronglySorted Z.le (Sent.time_sent <$> sent_packets e) →
  0 <= delay <= 2 ^ 59 * SEC → 0 <= thresh <= MAX_PACKET_THRESHOLD → zsum live (sent_packets e) <= PACKETS → 0 <= now →
  let largest := match largest_acked_packet e with Some n => n | None => 0 end in
  let late := overdue largest (now - Z.max delay GRANULARITY) thresh in
  let hits := filter late (sent_packets e) in
  ∃ l e', RecoveryEpoch.detect_lost_packets delay thresh now e = Ok (l, e') ∧
    sent_packets e' = (λ p, if late p then lost_mark now p else p) <$> sent_packets e ∧
    lost_frames e' = lost_frames e ++ concat ((λ p, report_lost false (Sent.frames p)) <$> hits) ∧ acked_frames e' = acked_frames e ∧
    loss_time e' = ((λ p, Sent.time_sent p + Z.max delay GRANULARITY) <$>
      head (filter (λ p, outstanding p && (Sent.pkt_num p <=? largest) && negb (late p)) (sent_packets e))) ∧
    lost_bytes l = zsum Sent.size (filter charged hits) ∧ pmtud_lost_bytes l = zsum Sent.size (filter Sent.pmtud hits) ∧
    lost_packets l = zlen (filter counted hits) ∧ largest_lost_pkt l = (lost_mark now <$> last (filter charged hits)) ∧
    in_flight_count e' = zsum flying (sent_packets e') ∧ tracked_frames e' ≡ₚ tracked_frames e ∧
    lost_bytes l + pmtud_lost_bytes l = zsum weight hits.
Proof.
  intros He Ht Hd Hth Hlive Hnow largest late hits.
  destruct (detect_lost_run D delay thresh now e) as (l & e' & Hrun & He' & _ & _ & _ & Hb & _ & _ & _ & _ & Htr & _ & _ & Hex); [done..|].
  specialize (Hex Ht). fold largest in Hex. destruct (detect_lost_report _ _ _ _ _ _ _ He Ht Hrun) as ([Hf Hby Hpm Hpk Hlg Htime] & Elf & Elt & Eaf).
  exists l, e'. split_and!; try done; [by rewrite Elf, Hf|..].
  - rewrite Elt, Htime. fold largest. unfold waiting. fold late. by destruct (head _).
  - apply He'.
  - assert (∀ pkts, zsum weight pkts = zsum weight (lose_all now largest (now - Z.max delay GRANULARITY) thresh pkts) + zsum weight (filter late pkts)) as Hsum.
    { induction pkts as [|p pkts IH]; [done|]. unfold lose_all. rewrite fmap_cons, bfilter_cons. fold (lose_all now largest (now - Z.max delay GRANULARITY) thresh pkts).
      fold late. rewrite !zsum_cons, IH. destruct (late p).
      - rewrite zsum_cons. assert (weight (lost_mark now p) = 0) as ->; [|lia].
        unfold weight, outstanding. cbn [lost_mark Sent.set_time_lost Sent.time_lost]. by rewrite !andb_false_r.
      - lia. }
    specialize (Hsum (sent_packets e)). rewrite <- Hex in Hsum. subst hits. lia.
Qed.
End packets.
