(* ===== verification/RecovRun.v ===== *)
(** * Loss recovery, verified

    The invariant of [Recovery], that every event keeps it, and the connection's
    recovery as a state machine: no event panics, the bytes in flight are those
    of the packets in flight, no frame is lost or reported twice, and the loss
    timer is armed while something is in flight. *)
From Stdlib Require Import Sorting.Sorted QArith.
From S2P Require Import Prelude Orders Ranges RangeBufs Packets Frames FrameCodec Times Minmax Congest CongestInv Recov RecovInv.
Local Open Scope Z_scope.

(** The largest [max_ack_delay]: 2^14 ms. *)
Definition ACK_DELAY : Z := 2 ^ 14 * 1000000.

Section recovery.
Context `{NetCoding} `{StdOrders} {S : Type}.
Import Recovery.
Implicit Types (r : Recovery.t S) (e : Epoch.t).

Definition sent_in e r : list Sent.t := RecoveryEpoch.sent_packets (epoch e r).

(** A sum over the packets of all spaces. *)
Definition over (f : Sent.t → Z) r : Z :=
  zsum f (sent_in Epoch.Initial r) + zsum f (sent_in Epoch.Handshake r) + zsum f (sent_in Epoch.Application r).

Definition delivered_bytes r : Z := Rate.delivered (Congestion.delivery_rate (congestion r)).

Lemma epoch_set_epoch e v r : epoch e (set_epoch e v r) = v.
Proof. by destruct e. Qed.
Lemma epoch_set_other e e' v r : e ≠ e' → epoch e (set_epoch e' v r) = epoch e r.
Proof. by destruct e, e'. Qed.
Lemma over_set_epoch f e v r : over f (set_epoch e v r) = over f r - zsum f (sent_in e r) + zsum f (RecoveryEpoch.sent_packets v).
Proof. unfold over, sent_in. destruct e; cbn [epoch set_epoch initial handshake application]; lia. Qed.

(** ** Timers *)

(** Bounds under which no timer overflows. *)
Record timer_ready r : Prop := {
  tr_rtt : 0 <= RttStats.smoothed_rtt (rtt_stats r) <= HORIZON;
  tr_var : 0 <= RttStats.rttvar (rtt_stats r) <= HORIZON;
  tr_delay : 0 <= RttStats.max_ack_delay (rtt_stats r) <= ACK_DELAY;
  tr_pto : 0 <= pto_count r <= 31;
  tr_times e : match RecoveryEpoch.time_of_last_ack_eliciting_packet (epoch e r) with Some t => 0 <= t <= HORIZON | None => True end
}.

Lemma pto_run r : timer_ready r → ∃ d, pto r = Ok d ∧ 0 <= d <= 6 * HORIZON.
Proof.
  intros []. unfold pto, rtt, RttStats.rtt. change HORIZON with 67108864000000000 in *. change GRANULARITY with 1000000.
  rewrite dur_mul_ok by (change DURATION_MAX with 18446744073709551615999999999; lia). cbn [mbind result_bind].
  rewrite dur_add_ok by (change DURATION_MAX with 18446744073709551615999999999; lia). eexists. split; [reflexivity|]. lia.
Qed.

Lemma pow2_ok {E} k : 0 <= k <= 31 → ∃ b, pow2_u32 (E:=E) k = Ok b ∧ 1 <= b <= 2 ^ 31.
Proof.
  intros Hk. unfold pow2_u32. zdecide. eexists. split; [reflexivity|]. split.
  - pose proof (Z.pow_le_mono_r 2 0 k). lia.
  - apply Z.pow_le_mono_r; lia.
Qed.

Definition idle e r : Prop := RecoveryEpoch.in_flight_count (epoch e r) = 0.

(** The probe timer waits for the packets of the space [e]. *)
Definition awaited (hs : HandshakeStatus) e r : Prop := ¬ idle e r ∧ (e = Epoch.Application → completed hs = true).

(** The application space is the last one. *)
Fixpoint app_last (es : list Epoch.t) : Prop := match es with [] => True | e :: es => (e = Epoch.Application → es = []) ∧ app_last es end.

(** The loop finds a time if one of the spaces has one. *)
Lemma pto_loop_run hs r d es timeout space :
  timer_ready r → 0 <= d <= 2 ^ 61 * SEC → app_last es → (Epoch.Application ∈ es → d <= 2 ^ 60 * SEC) →
  ∃ t e, pto_loop hs r d es timeout space = Ok (t, e) ∧
    ((∀ e, e ∈ es → ¬ idle e r → is_Some (RecoveryEpoch.time_of_last_ack_eliciting_packet (epoch e r))) →
     is_Some timeout ∨ (∃ e, e ∈ es ∧ awaited hs e r) → is_Some t).
Proof.
  intros Hr. revert d timeout space. induction es as [|e es IH]; intros d timeout space Hd Hlast Happ; cbn [pto_loop].
  { exists timeout, space. split; [done|]. intros _ [Ht|(e & He & _)]; [done|]. by apply elem_of_nil in He. }
  destruct Hlast as [Hni Hnd].
  destruct (Z.eqb_spec (RecoveryEpoch.in_flight_count (epoch e r)) 0) as [Hz|Hz].
  { destruct (IH d timeout space) as (t & e' & -> & Ht); [done|done|intros; apply Happ; by constructor|]. exists t, e'. split; [done|].
    intros Htimes Hex. apply Ht; [intros; apply Htimes; [by constructor|done]|]. destruct Hex as [?|(e0 & He0 & Hf)]; [by left|]. right. exists e0. split; [|done].
    apply elem_of_cons in He0 as [-> | He0]; [by destruct Hf as [[] _]|done]. }
  destruct (bool_decide (e = Epoch.Application) && negb (completed hs)) eqn:Es.
  { exists timeout, space. split; [done|]. intros _ [?|(e0 & He0 & _ & Hf)]; [done|]. apply andb_true_iff in Es as [->%bool_decide_eq_true Hc].
    rewrite Hni in He0 by done. apply list_elem_of_singleton in He0 as ->. by rewrite Hf in Hc. }
  change (2 ^ 61 * SEC) with 2305843009213693952000000000 in *. change (2 ^ 60 * SEC) with 1152921504606846976000000000 in *.
  set (m := if bool_decide (e = Epoch.Application) then _ else _).
  assert (∃ d', m = Ok d' ∧ 0 <= d' <= 2305843009213693952000000000 ∧ (Epoch.Application ∈ es → d' <= 1152921504606846976000000000)) as (d' & -> & Hd' & Happ').
  { unfold m. case_bool_decide as He; [|exists d; split_and!; try done; try lia; intros; apply Happ; by constructor]. subst e.
    destruct (pow2_ok (E:=Error) (pto_count r)) as (b & -> & Hb); [apply Hr|]. cbn [mbind result_bind].
    pose proof (tr_delay _ Hr) as Hdelay. change ACK_DELAY with 16384000000 in Hdelay. change (2 ^ 31) with 2147483648 in Hb. specialize (Happ ltac:(by constructor)).
    assert (0 <= RttStats.max_ack_delay (rtt_stats r) * b <= 35184372088832000000000) by nia.
    rewrite dur_mul_ok by (change DURATION_MAX with 18446744073709551615999999999; lia). cbn [mbind result_bind].
    rewrite dur_add_ok by (change DURATION_MAX with 18446744073709551615999999999; lia). eexists. split; [reflexivity|]. split; [lia|]. rewrite Hni by done. by intros ?%elem_of_nil. }
  cbn [mbind result_bind]. pose proof (tr_times _ Hr e) as Hte. unfold opt_add. unfold idle in *.
  assert (∀ new, (match RecoveryEpoch.time_of_last_ack_eliciting_packet (epoch e r) with Some _ => is_Some new | None => new = None end) →
    ∃ t e', (if bool_decide (timeout = None) || opt_lt new timeout then pto_loop hs r d' es new e else pto_loop hs r d' es timeout space) = Ok (t, e') ∧
      ((∀ e0, e0 ∈ e :: es → ¬ idle e0 r → is_Some (RecoveryEpoch.time_of_last_ack_eliciting_packet (epoch e0 r))) →
       is_Some timeout ∨ (∃ e0, e0 ∈ e :: es ∧ awaited hs e0 r) → is_Some t)) as Hnext.
  { intros new Hnew. destruct (bool_decide (timeout = None) || opt_lt new timeout) eqn:Ecmp.
    - destruct (IH d' new e Hd' Hnd Happ') as (t & e' & -> & Ht). exists t, e'. split; [done|]. intros Htimes _. apply Ht; [intros; apply Htimes; [by constructor|done]|].
      left. destruct (Htimes e) as [x Ex]; [by constructor|done|]. by rewrite Ex in Hnew.
    - destruct (IH d' timeout space Hd' Hnd Happ') as (t & e' & -> & Ht). exists t, e'. split; [done|]. intros Htimes _. apply Ht; [intros; apply Htimes; [by constructor|done]|].
      left. apply orb_false_iff in Ecmp as [Ecmp _]. apply bool_decide_eq_false in Ecmp. by apply not_eq_None_Some. }
  destruct (RecoveryEpoch.time_of_last_ack_eliciting_packet (epoch e r)) as [te|].
  - change HORIZON with 67108864000000000 in Hte. rewrite inst_add_ok by (change INSTANT_MAX with 9223372036854775807999999999; lia). cbn [mbind result_bind].
    apply Hnext. by eexists.
  - cbn [mbind result_bind]. by apply Hnext.
Qed.

(** Something in flight elicits an acknowledgement in every space that is not idle. *)
Definition eliciting r : Prop := ∀ e, ¬ idle e r → is_Some (RecoveryEpoch.time_of_last_ack_eliciting_packet (epoch e r)).
Definition busy (hs : HandshakeStatus) r : Prop := ∃ e, awaited hs e r.

Lemma pto_time_run hs now r :
  timer_ready r → 0 <= now <= HORIZON →
  ∃ t e, pto_time_and_space hs now r = Ok (t, e) ∧ (eliciting r → busy hs r → is_Some t).
Proof.
  intros Hr Hnow. unfold pto_time_and_space. destruct (pto_run r Hr) as (d & -> & Hd). cbn [mbind result_bind].
  destruct (pow2_ok (E:=Error) (pto_count r)) as (b & -> & Hb); [apply Hr|]. cbn [mbind result_bind].
  change HORIZON with 67108864000000000 in *. change (2 ^ 31) with 2147483648 in Hb. assert (0 <= d * b <= 864691128455135232000000000) by nia.
  rewrite dur_mul_ok by (change DURATION_MAX with 18446744073709551615999999999; lia). cbn [mbind result_bind].
  destruct (bytes_in_flight r =? 0).
  { rewrite inst_add_ok by (change INSTANT_MAX with 9223372036854775807999999999; lia). cbn [mbind result_bind]. eexists _, _. split; [reflexivity|]. by eexists. }
  destruct (pto_loop_run hs r (d * b) [Epoch.Initial; Epoch.Handshake; Epoch.Application] None Epoch.Initial Hr) as (t & e & -> & Ht).
  - change (2 ^ 61 * SEC) with 2305843009213693952000000000. lia.
  - done.
  - change (2 ^ 60 * SEC) with 1152921504606846976000000000. lia.
  - exists t, e. split; [done|]. intros He [e0 Hb0]. apply Ht; [intros; by apply He|]. right. exists e0. split; [|done]. destruct e0; set_solver.
Qed.

Lemma timer_ok hs now r :
  timer_ready r → 0 <= now <= HORIZON →
  total (set_loss_detection_timer hs now)
    (λ _ r', ∃ t, r' = set_loss_timer t r ∧ (bytes_in_flight r = 0 ∨ is_Some t ∨ t = loss_timer r) ∧
       (eliciting r → busy hs r → bytes_in_flight r ≠ 0 → is_Some t)) r.
Proof.
  intros Hr Hnow. unfold set_loss_detection_timer. do 2 tstep. destruct (loss_time_and_space r).1 as [to|].
  { tstep. exists (Some to). split_and!; [done|right; left; by eexists|by eexists]. }
  destruct ((bytes_in_flight r =? 0) && peer_verified_address hs) eqn:E.
  { apply andb_true_iff in E as [E%Z.eqb_eq _]. tstep. exists None. split_and!; [done|by left|]. intros _ _ Hb. by destruct Hb. }
  destruct (pto_time_run hs now r Hr Hnow) as (t & e & Ht & Hs). tstep. eapply total_lift; [done|].
  destruct t as [t|]; tstep.
  - exists (Some t). split_and!; [done|right; left; by eexists|by eexists].
  - exists (loss_timer r). split_and!; [by destruct r|by right; right|]. intros He Hb _. specialize (Hs He Hb). by destruct Hs.
Qed.

(** ** The invariant *)

Context (cc : Congestion.ops S) `{!CongestionLaws cc}.

(** What is known of the packets in flight: nothing; that all of them elicit
    acknowledgements, and that beside it the handshake has completed. *)
Inductive phase := Unknown | Handshaking | Completed.
(** The timer is needed while bytes are in flight. *)
Definition urgent (armed : phase) r : Prop := armed = Completed ∨ ¬ idle Epoch.Initial r ∨ ¬ idle Epoch.Handshake r.
(** The phase after the timer was set with the status [hs]. *)
Definition later (hs : HandshakeStatus) (armed : phase) : phase :=
  match armed with Handshaking => if completed hs then Completed else Handshaking | _ => armed end.

(** [n] packets have been sent, [a] acknowledged, [l] lost, the clock shows
    [now], and [b] bytes of [bytes_in_flight] are of packets that the current
    call acknowledges. *)
Record rec_ok (armed : phase) (n a l now b : Z) r : Prop := {
  ro_bounds : 0 <= n <= PACKETS ∧ 0 <= now <= HORIZON;
  ro_epoch e : epoch_ok (delivered_bytes r) (epoch e r);
  ro_bytes : bytes_in_flight r = over weight r + b;
  ro_sent : 0 <= bytes_sent r <= PACKET_SIZE * n;
  ro_acked : 0 <= a ∧ a + over live r <= n;
  ro_lost : 0 <= l ∧ l + over live r <= n;
  ro_gone : 0 <= lost_spurious_count r ∧ lost_spurious_count r + over gone r + over live r <= n;
  ro_rtt : ∃ ss t, t <= now ∧ Forall (sample_ok HORIZON) ss ∧ rtt_ok HORIZON ss t (rtt_stats r);
  ro_delay : RttStats.max_ack_delay (rtt_stats r) <= ACK_DELAY;
  ro_thresh : INITIAL_PACKET_THRESHOLD <= pkt_thresh r <= MAX_PACKET_THRESHOLD;
  ro_time : time_thresh r = INITIAL_TIME_THRESHOLD;
  ro_pto : 0 <= pto_count r <= 31;
  ro_cong : cong_ok cc n a l (congestion r);
  ro_size : 0 < max_datagram_size r <= PACKET_SIZE;
  ro_out : 0 <= outstanding_non_ack_eliciting r <= n;
  ro_times e : match RecoveryEpoch.time_of_last_ack_eliciting_packet (epoch e r) with Some t => 0 <= t <= now | None => True end;
  ro_armed : armed ≠ Unknown → eliciting r ∧ (0 < bytes_in_flight r → urgent armed r → is_Some (loss_timer r))
}.

Lemma epochs_set (P : RecoveryEpoch.t → Prop) e v r : P v → (∀ e', P (epoch e' r)) → ∀ e', P (epoch e' (set_epoch e v r)).
Proof. intros Hv Hr e'. destruct (decide (e' = e)) as [-> | Hne]; [by rewrite epoch_set_epoch|by rewrite epoch_set_other]. Qed.

Lemma total_call_epoch {A} e m a ep (Q : A → Recovery.t S → Prop) r :
  m (epoch e r) = Ok (a, ep) → Q a (set_epoch e ep r) → total (call_epoch e m) Q r.
Proof. intros Hm HQ. unfold call_epoch. do 2 tstep. tstep. eapply total_lift; [done|]. cbn beta iota. by repeat tstep. Qed.

Lemma over_nonneg armed n a l now b r : rec_ok armed n a l now b r →
  0 <= over weight r <= PACKET_SIZE * over live r ∧ 0 <= over live r ∧ 0 <= over gone r.
Proof.
  intros Hr. unfold over. pose proof (sums_ok _ _ (proj1 (ep_packets _ _ (ro_epoch _ _ _ _ _ _ _ Hr Epoch.Initial)))) as (H1 & H2 & H3).
  pose proof (sums_ok _ _ (proj1 (ep_packets _ _ (ro_epoch _ _ _ _ _ _ _ Hr Epoch.Handshake)))) as (H4 & H5 & H6).
  pose proof (sums_ok _ _ (proj1 (ep_packets _ _ (ro_epoch _ _ _ _ _ _ _ Hr Epoch.Application)))) as (H7 & H8 & H9).
  unfold sent_in, PACKET_SIZE in *. lia.
Qed.

Lemma part_le armed n a l now b r e : rec_ok armed n a l now b r →
  zsum live (sent_in e r) <= over live r ∧ zsum gone (sent_in e r) <= over gone r ∧ zsum weight (sent_in e r) <= over weight r.
Proof.
  intros Hr. unfold over. pose proof (sums_ok _ _ (proj1 (ep_packets _ _ (ro_epoch _ _ _ _ _ _ _ Hr Epoch.Initial)))) as (H1 & H2 & H3).
  pose proof (sums_ok _ _ (proj1 (ep_packets _ _ (ro_epoch _ _ _ _ _ _ _ Hr Epoch.Handshake)))) as (H4 & H5 & H6).
  pose proof (sums_ok _ _ (proj1 (ep_packets _ _ (ro_epoch _ _ _ _ _ _ _ Hr Epoch.Application)))) as (H7 & H8 & H9).
  unfold sent_in in *. destruct e; lia.
Qed.

Lemma rtt_bounds armed n a l now b r : rec_ok armed n a l now b r →
  0 <= RttStats.smoothed_rtt (rtt_stats r) <= HORIZON ∧ 0 <= RttStats.latest_rtt (rtt_stats r) <= HORIZON ∧
  0 <= RttStats.rttvar (rtt_stats r) <= HORIZON ∧ 0 <= RttStats.max_ack_delay (rtt_stats r).
Proof. intros Hr. destruct (ro_rtt _ _ _ _ _ _ _ Hr) as (ss & t & _ & _ & (H1 & H2 & H3 & H4) & _). split_and!; lia. Qed.

Lemma rec_timer_ready armed n a l now b r : rec_ok armed n a l now b r → timer_ready r.
Proof.
  intros Hr. pose proof (rtt_bounds _ _ _ _ _ _ _ Hr) as (? & ? & ? & ?). destruct Hr. split; try done; try lia.
  intros e. specialize (ro_times0 e). destruct (RecoveryEpoch.time_of_last_ack_eliciting_packet _); lia.
Qed.

(** A space keeps the time of its last packet, or is reset. *)
Definition same_time (v w : RecoveryEpoch.t) : Prop :=
  RecoveryEpoch.time_of_last_ack_eliciting_packet v = RecoveryEpoch.time_of_last_ack_eliciting_packet w ∨
  RecoveryEpoch.time_of_last_ack_eliciting_packet v = None ∧ RecoveryEpoch.in_flight_count v = 0.

(** A space whose packets in flight do not get more. *)
Lemma eliciting_set e v r : eliciting r →
  RecoveryEpoch.in_flight_count v = zsum flying (RecoveryEpoch.sent_packets v) → zsum flying (RecoveryEpoch.sent_packets v) <= RecoveryEpoch.in_flight_count (epoch e r) →
  same_time v (epoch e r) → eliciting (set_epoch e v r).
Proof.
  intros He Hc Hle Ht e' Hidle. unfold idle in Hidle. destruct (decide (e' = e)) as [-> | Hne].
  - rewrite epoch_set_epoch in *. destruct Ht as [Ht|[_ Hz]]; [|by destruct Hidle]. rewrite Ht. apply He. unfold idle. assert (0 <= zsum flying (RecoveryEpoch.sent_packets v)); [|lia].
    apply zsum_nonneg, Forall_true. intros p. apply flying_live.
  - rewrite epoch_set_other in * by done. by apply He.
Qed.

(** The same frames in every space. *)
Definition kept r r' : Prop := ∀ e, tracked_frames (epoch e r') ≡ₚ tracked_frames (epoch e r).

Lemma kept_set_epoch e v r : tracked_frames v ≡ₚ tracked_frames (epoch e r) → kept r (set_epoch e v r).
Proof. intros Hv e'. destruct (decide (e' = e)) as [-> | Hne]; [by rewrite epoch_set_epoch|by rewrite epoch_set_other]. Qed.

(** The clock moves on. *)
Lemma rec_later armed n a l now now' b r : now <= now' <= HORIZON → rec_ok armed n a l now b r → rec_ok armed n a l now' b r.
Proof.
  intros Hn []. split; try done; [lia| |].
  - destruct ro_rtt0 as (ss & t & Ht & Hss & Hok). exists ss, t. split; [lia|done].
  - intros e. specialize (ro_times0 e). destruct (RecoveryEpoch.time_of_last_ack_eliciting_packet _); [lia|done].
Qed.

(** The congestion state changes, with [l'] packets lost. *)
Lemma rec_congestion armed n a l a' l' now b r c :
  rec_ok armed n a l now b r → cong_ok cc n a' l' c → delivered_bytes r <= Rate.delivered (Congestion.delivery_rate c) →
  0 <= a' ∧ a' + over live r <= n → 0 <= l' ∧ l' + over live r <= n → rec_ok armed n a' l' now b (set_congestion c r).
Proof.
  intros [] Hc Hd Ha Hl. split; try done. intros e. eapply epoch_more; [exact Hd|]. exact (ro_epoch0 e).
Qed.

Lemma count_lost_ok n a l now k c :
  cong_ok cc n a l c → 0 <= k → 0 <= l → l + k <= PACKETS →
  total (count_lost now k) (λ _ c', cong_ok cc n a (l + k) c' ∧ Congestion.lost_count c' <= l ∧ Congestion.delivery_rate c' = Congestion.delivery_rate c) c.
Proof.
  intros (Hs & Ha & Hh) Hk Hl Hlk. unfold count_lost. pose proof (sh_lost _ _ _ _ Hs) as Hsl. change PACKETS with 68719476736 in Hlk.
  assert (∀ c', own c' = own c → Congestion.hystart c' = Congestion.hystart c → shared_ok n a (l + k) c' → cong_ok cc n a (l + k) c') as Hkeep.
  { intros c' Eo Eh Hs'. split_and!; [done|by eapply algo_frame|]. by rewrite Eh. }
  destruct (Z.ltb_spec 0 k).
  - repeat tstep. destruct (Congestion.current_loss_epoch_start_time c); repeat tstep; (split; [|split; [cbn; lia|done]]);
      (apply Hkeep; [done|done|]); destruct Hs; split; try done; cbn; lia.
  - tstep. split; [|split; [lia|done]]. apply Hkeep; [done|done|]. destruct Hs. split; try done. lia.
Qed.

(** What the calls to congestion control leave alone. *)
Definition base r := (initial r, handshake r, application r, rtt_stats r, pto_count r, newly_acked r, delivered_bytes r).

Lemma base_epoch e r r' : base r' = base r → epoch e r' = epoch e r.
Proof. unfold base. intros E. injection E as E1 E2 E3 _ _ _ _. by destruct e. Qed.
Lemma base_over f r r' : base r' = base r → over f r' = over f r.
Proof. intros E. unfold over, sent_in. by rewrite !(base_epoch _ _ _ E). Qed.
Lemma base_kept r r' : base r' = base r → kept r r'.
Proof. intros E e. by rewrite (base_epoch _ _ _ E). Qed.
Lemma handshake_kept_refl r : kept r r.
Proof. by intros e. Qed.
Lemma kept_trans r1 r2 r3 : kept r1 r2 → kept r2 r3 → kept r1 r3.
Proof. intros H1 H2 e. by rewrite (H2 e). Qed.

Lemma urgent_set armed e v r :
  RecoveryEpoch.in_flight_count v = zsum flying (RecoveryEpoch.sent_packets v) → RecoveryEpoch.in_flight_count v <= RecoveryEpoch.in_flight_count (epoch e r) →
  urgent armed (set_epoch e v r) → urgent armed r.
Proof.
  intros Hv Hle. assert (0 <= zsum flying (RecoveryEpoch.sent_packets v)) by (apply zsum_nonneg, Forall_true; intros p; apply flying_live).
  assert (∀ e', ¬ idle e' (set_epoch e v r) → ¬ idle e' r) as Hi.
  { intros e'. unfold idle. destruct (decide (e' = e)) as [-> | Hne]; [rewrite epoch_set_epoch; lia|by rewrite epoch_set_other]. }
  intros [?|[?|?]]; [by left|right; left; by apply Hi|right; right; by apply Hi].
Qed.

(** One space changes: packets are acknowledged, lost or dropped. *)
Lemma rec_epoch armed n a l now b b' e v r :
  rec_ok armed n a l now b r → epoch_ok (delivered_bytes r) v →
  RecoveryEpoch.in_flight_count v <= RecoveryEpoch.in_flight_count (epoch e r) →
  same_time v (epoch e r) →
  zsum live (RecoveryEpoch.sent_packets v) <= zsum live (sent_in e r) →
  zsum gone (RecoveryEpoch.sent_packets v) + zsum live (RecoveryEpoch.sent_packets v) <= zsum gone (sent_in e r) + zsum live (sent_in e r) →
  b' + zsum weight (RecoveryEpoch.sent_packets v) = b + zsum weight (sent_in e r) →
  rec_ok armed n a l now b' (set_epoch e v r).
Proof.
  intros [] Hv Hfew Ht Hl Hg Hb. split; rewrite ?over_set_epoch; try done; try lia.
  - by apply epochs_set.
  - cbn. lia.
  - cbn. lia.
  - apply (epochs_set (λ ep, match RecoveryEpoch.time_of_last_ack_eliciting_packet ep with Some t => 0 <= t <= now | None => True end) e v r); [|done].
    destruct Ht as [-> | [-> _]]; [apply ro_times0|done].
  - intros Harm. destruct (ro_armed0 Harm) as [Hel Htimer]. split; [apply eliciting_set; [done|apply Hv|rewrite <- (ep_count _ _ Hv); lia|exact Ht]|].
    intros Hbif Hu. assert (urgent armed r) by (apply (urgent_set armed e v); [apply Hv|done|exact Hu]). by destruct e; apply Htimer.
Qed.

Lemma rec_drained armed n a l now b e thresh r :
  rec_ok armed n a l now b r →
  rec_ok armed n a l now b (on_epoch e (RecoveryEpoch.drain_acked_and_lost_packets thresh) r) ∧
  kept r (on_epoch e (RecoveryEpoch.drain_acked_and_lost_packets thresh) r) ∧
  over live (on_epoch e (RecoveryEpoch.drain_acked_and_lost_packets thresh) r) = over live r ∧
  over weight (on_epoch e (RecoveryEpoch.drain_acked_and_lost_packets thresh) r) = over weight r.
Proof.
  intros Hr. destruct (drain_epoch_ok _ thresh _ (ro_epoch _ _ _ _ _ _ _ Hr e)) as (Hep & Hfew & Hw & Hl & Hg & Htr).
  unfold on_epoch. rewrite !over_set_epoch. unfold sent_in. split_and!; [|apply kept_set_epoch; by rewrite Htr|lia|lia].
  eapply rec_epoch; [exact Hr|exact Hep| |by left|..]; unfold sent_in; lia.
Qed.

(** Bytes leave the network. *)
Lemma rec_bytes armed n a l now b x r :
  rec_ok armed n a l now b r → 0 <= x → rec_ok armed n a l now (b - x) (set_bytes_in_flight (bytes_in_flight r - x) r).
Proof.
  intros [] Hx. split; try done; [cbn; change (over weight (set_bytes_in_flight (bytes_in_flight r - x) r)) with (over weight r); lia|].
  intros Harm. destruct (ro_armed0 Harm) as [Hel Ht]. split; [done|]. cbn. intros Hbif Hu. apply Ht; [lia|exact Hu].
Qed.

(** The congestion window reacts to the losses. *)
Lemma react_ok armed n a l now b lost largest lost_bytes r :
  rec_ok armed n a l now b r → (largest = None → lost_bytes = 0) → 0 <= lost_bytes <= b → Congestion.lost_count (congestion r) <= lost →
  total (match largest with
   | Some pkt =>
       r ← get;
       (if negb (Congestion.in_congestion_recovery (Sent.time_sent pkt) (congestion r)) then
          on_congestion (Congestion.ops_checkpoint cc)
        else mret ());;
       on_congestion (Congestion.ops_congestion_event cc (bytes_in_flight r) lost_bytes pkt now);;
       r ← get;
       bif ← lift (usub (bytes_in_flight r) lost_bytes);
       modify (set_bytes_in_flight bif)
   | None => mret ()
   end) (λ _ r', rec_ok armed n a l now (b - lost_bytes) r' ∧ base r' = base r ∧ Congestion.lost_count (congestion r') <= lost) r.
Proof.
  intros Hr Hnone Hlb Hlost. destruct largest as [pkt|]; [|tstep; by rewrite Hnone, Z.sub_0_r by done].
  pose proof (over_nonneg _ _ _ _ _ _ _ Hr) as (Hw & Hlv & _).
  assert (∀ r1 c, rec_ok armed n a l now b r1 ∧ base r1 = base r ∧ Congestion.lost_count (congestion r1) <= lost →
    algo_ok a c ∧ hystart_ok a (Congestion.hystart c) ∧ shared c = shared (congestion r1) →
    rec_ok armed n a l now b (set_congestion c r1) ∧ base (set_congestion c r1) = base r ∧ Congestion.lost_count (congestion (set_congestion c r1)) <= lost) as Hkeep.
  { intros r1 c (Hr1 & Eb & Hl1) Hc. assert (Congestion.delivery_rate c = Congestion.delivery_rate (congestion r1) ∧ Congestion.lost_count c = Congestion.lost_count (congestion r1)) as [Ed El].
    { destruct Hc as (_ & _ & E). unfold shared in E. injection E as _ _ _ Ed _ _ _ Ec. by split. }
    split_and!; [|unfold base, delivered_bytes in *; cbn; by rewrite Ed|cbn; by rewrite El].
    eapply rec_congestion; [done|eapply cong_kept; [apply (ro_cong _ _ _ _ _ _ _ Hr1)|done]|unfold delivered_bytes; by rewrite Ed|apply Hr1|apply Hr1]. }
  do 3 tstep. apply (total_mono _ (λ _ r1, rec_ok armed n a l now b r1 ∧ base r1 = base r ∧ Congestion.lost_count (congestion r1) <= lost)).
  { destruct (negb _); [|by tstep]. unfold on_congestion. tstep. eapply total_mono; [apply (algo_checkpoint a); apply (ro_cong _ _ _ _ _ _ _ Hr)|].
    intros [] c Hc. by apply Hkeep. }
  intros [] r1 H1. pose proof H1 as (Hr1 & E1 & _). tstep. unfold on_congestion. tstep. eapply total_mono.
  { apply (algo_lost a); [apply (ro_cong _ _ _ _ _ _ _ Hr1)..|]. pose proof (ro_bounds _ _ _ _ _ _ _ Hr). pose proof (ro_acked _ _ _ _ _ _ _ Hr). lia. }
  intros [] c Hc. pose proof (Hkeep _ _ H1 Hc) as (Hr2 & E2 & Hl2). cbn beta. do 3 tstep. eapply total_lift.
  { apply usub_ok. rewrite (ro_bytes _ _ _ _ _ _ _ Hr2), (base_over _ _ _ E2). lia. }
  tstep. split_and!; [|exact E2|exact Hl2]. apply rec_bytes; [done|lia].
Qed.

(** Loss detection in one space. *)
Lemma detect_lost_ok armed n a l now b e r :
  rec_ok armed n a l now b r → 0 <= b →
  total (detect_lost_packets cc e now)
    (λ _ r', ∃ l', rec_ok armed n a l' now b r' ∧ kept r r' ∧ over live r' <= over live r ∧ rtt_stats r' = rtt_stats r ∧
       newly_acked r' = newly_acked r ∧ delivered_bytes r' = delivered_bytes r) r.
Proof.
  intros Hr Hb0. pose proof (over_nonneg _ _ _ _ _ _ _ Hr) as (Hw & Hlv & Hg). pose proof (part_le _ _ _ _ _ _ _ e Hr) as (Hpl & Hpg & Hpw).
  pose proof (rtt_bounds _ _ _ _ _ _ _ Hr) as (Hsr & Hlr & _ & _). pose proof (ro_bounds _ _ _ _ _ _ _ Hr) as (Hn & Hnow).
  pose proof (ro_lost _ _ _ _ _ _ _ Hr) as (Hl0 & Hl). pose proof (ro_thresh _ _ _ _ _ _ _ Hr) as Hth.
  unfold detect_lost_packets. do 2 tstep. tstep. rewrite (ro_time _ _ _ _ _ _ _ Hr). unfold rtt, RttStats.rtt.
  change HORIZON with 67108864000000000 in *. change PACKETS with 68719476736 in *.
  destruct (mul_f64_bounds (E:=Error) (Z.max (RttStats.latest_rtt (rtt_stats r)) (RttStats.smoothed_rtt (rtt_stats r))) INITIAL_TIME_THRESHOLD) as (d & Hd & Hdb);
    [change (2 ^ 32 * SEC) with 4294967296000000000; lia|split; by vm_compute|].
  eapply total_lift; [done|]. tstep. unfold sent_in in *.
  destruct (detect_lost_run (delivered_bytes r) d (pkt_thresh r) now (epoch e r)) as (loss & ep & Hrun & Hep & Hfew & Hnb & Hnp & Hbytes & Hnl & Hll & Hgl & Hlg & Htr & Htm & Hla & _);
    [apply Hr|change (2 ^ 59 * SEC) with 576460752303423488000000000; lia|unfold INITIAL_PACKET_THRESHOLD in *; lia|change PACKETS with 68719476736; lia|lia|].
  eapply total_call_epoch; [done|].
  set (k := RecoveryEpoch.lost_packets loss) in *. set (lb := RecoveryEpoch.lost_bytes loss) in *. set (pb := RecoveryEpoch.pmtud_lost_bytes loss) in *.
  pose proof (sums_ok _ _ (proj1 (ep_packets _ _ Hep))) as (_ & Hsf & _).
  assert (rec_ok armed n a l now (b + lb + pb) (set_epoch e ep r)) as Hr1 by (eapply rec_epoch; [exact Hr|exact Hep|exact Hfew|by left|..]; unfold sent_in; lia).
  assert (over live (set_epoch e ep r) + k <= over live r) as Hlive by (rewrite over_set_epoch; unfold sent_in; lia).
  tstep. unfold on_congestion at 1. tstep. eapply total_mono; [apply (count_lost_ok n a l); [apply Hr1|done|done|change PACKETS with 68719476736; lia]|].
  intros [] c1 (Hc1 & Hlc1 & Hd1). tstep.
  eapply total_mono; [apply (react_ok armed n a (l + k) now (b + lb + pb) l); [|exact Hlg|lia|exact Hlc1]|].
  { eapply rec_congestion; [done..|unfold delivered_bytes; by rewrite Hd1|apply Hr1|lia]. }
  intros [] r3 (Hr3 & E3 & Hlc3). cbn beta. do 3 tstep. eapply total_lift.
  { apply usub_ok. rewrite (ro_bytes _ _ _ _ _ _ _ Hr3). pose proof (over_nonneg _ _ _ _ _ _ _ Hr3). lia. }
  assert (base (set_congestion c1 (set_epoch e ep r)) = base (set_epoch e ep r)) as E1 by (unfold base, delivered_bytes; cbn; by rewrite Hd1).
  rewrite E1 in E3. apply rec_bytes with (x := pb) in Hr3; [|done]. do 3 tstep. eapply total_lift.
  { apply inst_sub_ok. pose proof (rtt_bounds _ _ _ _ _ _ _ Hr3) as (? & _). unfold rtt, RttStats.rtt. cbn in *. change HORIZON with 67108864000000000 in *.
    change INSTANT_MIN with (-9223372036854775808000000000). lia. }
  set (r4 := set_bytes_in_flight _ _) in *. set (thr := now - _). do 4 tstep. destruct (rec_drained _ _ _ _ _ _ e thr _ Hr3) as (Hr5 & Hk5 & El5 & _).
  set (r5 := on_epoch _ _ _) in *. tstep. pose proof (sh_lost _ _ _ _ (proj1 (ro_cong _ _ _ _ _ _ _ Hr5))) as Hs5.
  change (congestion r5) with (congestion r3) in *. eapply total_lift; [apply uadd_ok; lia|]. unfold on_congestion. repeat tstep. exists (l + k).
  assert (base r4 = base (set_epoch e ep r)) as E4 by exact E3. assert (over live r5 <= over live r) as Hov by (rewrite El5, (base_over _ _ _ E4); lia).
  pose proof E4 as E. unfold base in E. injection E as _ _ _ Ert _ Enw Edl. split_and!; [| |exact Hov|exact Ert|exact Enw|exact Edl].
  - replace (b + lb + pb - lb - pb) with b in Hr5 by lia. eapply rec_congestion; [exact Hr5| |done|apply Hr5|apply Hr5].
    destruct (ro_cong _ _ _ _ _ _ _ Hr5) as (Hs & Ha & Hh). split_and!; [|by eapply algo_frame; [|exact Ha]|exact Hh]. destruct Hs. split; try done. cbn. lia.
  - eapply kept_trans; [|exact Hk5]. eapply kept_trans; [by apply (kept_set_epoch e ep)|]. by apply base_kept.
Qed.

(** Bytes in flight are of packets in flight. *)
Lemma bytes_busy armed n a l now hs r : rec_ok armed n a l now 0 r → completed hs = true → 0 < bytes_in_flight r → busy hs r.
Proof.
  intros Hr Hc Hb. destruct (over_nonneg _ _ _ _ _ _ _ Hr) as (_ & _ & _). pose proof (ro_bytes _ _ _ _ _ _ _ Hr) as Eb.
  assert (∀ e, idle e r → zsum weight (sent_in e r) = 0) as Hz.
  { intros e Hi. pose proof (sums_ok _ _ (proj1 (ep_packets _ _ (ro_epoch _ _ _ _ _ _ _ Hr e)))) as (Hw & _ & _). pose proof (ep_count _ _ (ro_epoch _ _ _ _ _ _ _ Hr e)) as Ec.
    unfold idle, sent_in, PACKET_SIZE in *. lia. }
  assert (∀ e, ¬ idle e r → busy hs r) as Hbusy by (intros e ?; exists e; by split).
  destruct (decide (RecoveryEpoch.in_flight_count (epoch Epoch.Initial r) = 0)) as [H1|]; [|by apply (Hbusy Epoch.Initial)].
  destruct (decide (RecoveryEpoch.in_flight_count (epoch Epoch.Handshake r) = 0)) as [H2|]; [|by apply (Hbusy Epoch.Handshake)].
  destruct (decide (RecoveryEpoch.in_flight_count (epoch Epoch.Application r) = 0)) as [H3|]; [|by apply (Hbusy Epoch.Application)].
  unfold over in Eb. rewrite !Hz in Eb by done. lia.
Qed.

Lemma later_known hs armed : later hs armed ≠ Unknown → armed ≠ Unknown.
Proof. by destruct armed. Qed.
Lemma later_completed hs armed : later hs armed = Completed → armed = Completed ∨ completed hs = true.
Proof. destruct armed; cbn; [done| |by left]. destruct (completed hs); [by right|done]. Qed.

(** The handshake is not forgotten. *)
Lemma rec_before hs armed n a l now b r : rec_ok (later hs armed) n a l now b r → rec_ok armed n a l now b r.
Proof.
  intros []. split; try done. intros Harm. assert (later hs armed ≠ Unknown) as Hl by (destruct armed; cbn; by destruct (completed hs)).
  destruct (ro_armed0 Hl) as [He Ht]. split; [done|]. intros Hb Hu. apply Ht; [done|]. destruct Hu as [-> |Hu]; [by left|by right].
Qed.

Lemma rearm_ok armed n a l now hs r :
  rec_ok armed n a l now 0 r → total (set_loss_detection_timer hs now) (λ _ r', rec_ok (later hs armed) n a l now 0 r' ∧ ∃ t, r' = set_loss_timer t r) r.
Proof.
  intros Hr. eapply total_mono; [apply timer_ok; [by eapply rec_timer_ready|apply (ro_bounds _ _ _ _ _ _ _ Hr)]|].
  intros [] r' (t & -> & Ht & Hset). split; [|by exists t]. pose proof (bytes_busy _ _ _ _ _ hs _ Hr) as Hbusy. destruct Hr. split; try done.
  intros Harm%later_known. destruct (ro_armed0 Harm) as [He Htimer]. split; [done|]. cbn. intros Hb Hu. destruct Ht as [Ht|[Ht| -> ]]; [lia|done|].
  destruct Hu as [[-> |Hc]%later_completed|Hu]; [apply Htimer; [done|by left]|apply Hset; [done|by apply Hbusy|lia]|apply Htimer; [done|by right]].
Qed.

(** ** Sending *)

(** A packet that may be sent next. *)
Record sendable (armed : phase) n e (pkt : Sent.t) (hs : HandshakeStatus) r : Prop := {
  sd_size : size_ok (Sent.size pkt);
  sd_num : 0 <= Sent.pkt_num pkt < PKT_NUM_MAX;
  sd_new : Sent.time_acked pkt = None ∧ Sent.time_lost pkt = None;
  sd_pmtud : Sent.pmtud pkt = true → Sent.in_flight pkt = true;
  sd_last : Forall (λ q, Sent.pkt_num q < Sent.pkt_num pkt) (sent_in e r);
  sd_count : n < PACKETS;
  sd_armed : (armed = Completed → completed hs = true) ∧ (armed ≠ Unknown → Sent.in_flight pkt = true → Sent.ack_eliciting pkt = true)
}.

Lemma sorted_snoc (l : list Sent.t) p : StronglySorted Z.lt (numbers l) → Forall (λ q, Sent.pkt_num q < Sent.pkt_num p) l → StronglySorted Z.lt (numbers (l ++ [p])).
Proof.
  intros Hs Hl. induction Hl as [|q l Hq Hl IH]; [by repeat constructor|]. cbn [app]. apply sorted_cons in Hs as [Hs Hlt]. apply sorted_cons.
  split; [by apply IH|]. apply Forall_app_2; [done|by apply Forall_singleton].
Qed.

(** The space after sending, before the packet is stored. *)
Definition sending now (pkt : Sent.t) (ep : RecoveryEpoch.t) : RecoveryEpoch.t :=
  let ep := if Sent.in_flight pkt && Sent.ack_eliciting pkt then RecoveryEpoch.set_time_of_last_ack_eliciting_packet (Some now) ep else ep in
  RecoveryEpoch.set_in_flight_count (RecoveryEpoch.in_flight_count ep + b2z (Sent.in_flight pkt)) ep.

Lemma count_same ep : RecoveryEpoch.set_in_flight_count (RecoveryEpoch.in_flight_count ep) ep = ep.
Proof. by destruct ep. Qed.
Lemma sending_time now pkt ep :
  RecoveryEpoch.time_of_last_ack_eliciting_packet (sending now pkt ep) = Some now ∨
  RecoveryEpoch.time_of_last_ack_eliciting_packet (sending now pkt ep) = RecoveryEpoch.time_of_last_ack_eliciting_packet ep.
Proof. unfold sending. destruct (_ && _); [by left|by right]. Qed.

Lemma set_epoch_twice e v v' r : set_epoch e v (set_epoch e v' r) = set_epoch e v r.
Proof. by destruct e. Qed.

Lemma fresh_packet D pkt pkt' :
  same_packet pkt pkt' → Sent.time_acked pkt = None ∧ Sent.time_lost pkt = None → size_ok (Sent.size pkt) → 0 <= Sent.pkt_num pkt < PKT_NUM_MAX →
  0 <= Sent.time_sent pkt' <= SEND_TIME → 0 <= Sent.delivered pkt' <= D → (Sent.pmtud pkt = true → Sent.in_flight pkt = true) →
  packet_ok D pkt' ∧ flying pkt' = b2z (Sent.in_flight pkt) ∧ weight pkt' = (if Sent.in_flight pkt then Sent.size pkt else 0) ∧ live pkt' = 1 ∧ gone pkt' = 0.
Proof.
  intros [] [Ha Hl] Hs Hn Ht Hd Hp. assert (RecoveryEpoch.outstanding pkt' = true) as Ho by (unfold RecoveryEpoch.outstanding; by rewrite same_acked, same_lost, Ha, Hl).
  unfold flying, weight, live, gone. rewrite Ho, same_in_flight, same_size, same_lost, same_acked, Ha, Hl, !andb_true_r. split; [|done].
  split; rewrite ?same_size, ?same_num, ?same_in_flight, ?same_pmtud; try done. by rewrite Ho.
Qed.

(** Where a packet is stored. *)
Definition stored now (pkt pkt' : Sent.t) e r : RecoveryEpoch.t := RecoveryEpoch.set_sent_packets (sent_in e r ++ [pkt']) (sending now pkt (epoch e r)).
Definition sent_size (pkt : Sent.t) : Z := if Sent.in_flight pkt then Sent.size pkt else 0.
(** The phase after sending it. *)
Definition sent_phase (hs : HandshakeStatus) (pkt : Sent.t) (armed : phase) : phase := if Sent.in_flight pkt then later hs armed else armed.

Lemma rec_sent armed n a l now pkt pkt' e hs c x t r :
  rec_ok armed n a l now 0 r → sendable armed n e pkt hs r → same_packet pkt pkt' → 0 <= Sent.time_sent pkt' <= SEND_TIME →
  recorded c (Sent.delivered pkt') → Rate.delivered (Congestion.delivery_rate c) = delivered_bytes r → cong_ok cc (n + 1) a l c → 0 <= x <= n + 1 →
  let p := sent_phase hs pkt armed in let r2 := set_epoch e (sending now pkt (epoch e r)) r in
  (p ≠ Unknown → eliciting r2) → (p ≠ Unknown → 0 < bytes_in_flight r + sent_size pkt → urgent p r2 → is_Some t) →
  let r' := set_bytes_sent (bytes_sent r + Sent.size pkt) (set_loss_timer t (set_bytes_in_flight (bytes_in_flight r + sent_size pkt)
      (set_epoch e (stored now pkt pkt' e r) (set_congestion c (set_outstanding_non_ack_eliciting x r))))) in
  rec_ok p (n + 1) a l now 0 r' ∧
  ∀ e', tracked_frames (epoch e' r') ≡ₚ (if decide (e' = e) then Sent.frames pkt else []) ++ tracked_frames (epoch e' r).
Proof.
  intros Hr [] Hsame Ht Hrec Hdel' Hc Hx p r2 Hel Htimer. pose proof (over_nonneg _ _ _ _ _ _ _ Hr) as (Hw & Hlv & Hg). destruct Hr. change PACKETS with 68719476736 in *.
  set (size := sent_size pkt). set (ep3 := stored now pkt pkt' e r). cbv zeta.
  assert (RecoveryEpoch.in_flight_count (if Sent.in_flight pkt && Sent.ack_eliciting pkt then
    RecoveryEpoch.set_time_of_last_ack_eliciting_packet (Some now) (epoch e r) else epoch e r) = RecoveryEpoch.in_flight_count (epoch e r)) as Ecnt by by destruct (_ && _).
  destruct (fresh_packet (delivered_bytes r) pkt pkt' Hsame) as (Hpk & Hf & Hwt & Hlv1 & Hg0); [done..|unfold recorded in Hrec; by rewrite Hdel' in Hrec|done|].
  assert (∀ f, over f (set_epoch e ep3 r) = over f r + f pkt') as Hover.
  { intros f. rewrite over_set_epoch. unfold ep3, stored. cbn [RecoveryEpoch.sent_packets RecoveryEpoch.set_sent_packets]. rewrite zsum_app, zsum_cons. change (zsum f []) with 0. lia. }
  assert (epoch_ok (delivered_bytes r) ep3) as Hep3.
  { destruct (ro_epoch0 e) as [[Hpa Hso] Hco Hla Hpr]. unfold ep3, stored, sending. split; cbn [RecoveryEpoch.sent_packets RecoveryEpoch.in_flight_count RecoveryEpoch.set_sent_packets RecoveryEpoch.set_in_flight_count].
    - split; [by apply Forall_app_2; [|apply Forall_singleton]|]. apply sorted_snoc; [done|]. eapply Forall_impl; [exact sd_last0|]. intros q. cbn. by rewrite (same_num _ _ Hsame).
    - rewrite Ecnt, zsum_app, zsum_cons, Hf, Hco. change (zsum flying []) with 0. unfold sent_in. lia.
    - cbn. by destruct (_ && _).
    - cbn. by destruct (_ && _). }
  split.
  - split.
    + change PACKETS with 68719476736. lia.
    + cbn [congestion]. change (∀ e', epoch_ok (Rate.delivered (Congestion.delivery_rate c)) (epoch e' (set_epoch e ep3 r))). rewrite Hdel'. by apply epochs_set.
    + change (bytes_in_flight r + size = over weight (set_epoch e ep3 r) + 0). rewrite Hover, Hwt. unfold size, sent_size. lia.
    + cbn. unfold size_ok, PACKET_SIZE in *. lia.
    + change (0 <= a ∧ a + over live (set_epoch e ep3 r) <= n + 1). rewrite Hover. lia.
    + change (0 <= l ∧ l + over live (set_epoch e ep3 r) <= n + 1). rewrite Hover. lia.
    + change (0 <= lost_spurious_count r ∧ lost_spurious_count r + over gone (set_epoch e ep3 r) + over live (set_epoch e ep3 r) <= n + 1). rewrite !Hover. lia.
    + exact ro_rtt0.
    + exact ro_delay0.
    + exact ro_thresh0.
    + exact ro_time0.
    + exact ro_pto0.
    + exact Hc.
    + exact ro_size0.
    + exact Hx.
    + apply (epochs_set (λ ep, match RecoveryEpoch.time_of_last_ack_eliciting_packet ep with Some t => 0 <= t <= now | None => True end) e ep3 r); [|exact ro_times0].
      change (RecoveryEpoch.time_of_last_ack_eliciting_packet ep3) with (RecoveryEpoch.time_of_last_ack_eliciting_packet (sending now pkt (epoch e r))).
      destruct (sending_time now pkt (epoch e r)) as [-> | ->]; [lia|apply ro_times0].
    + assert (∀ e', RecoveryEpoch.in_flight_count (epoch e' (set_epoch e ep3 r)) = RecoveryEpoch.in_flight_count (epoch e' r2)) as Ecount.
      { intros e'. unfold r2. destruct (decide (e' = e)) as [-> | Hne]; [by rewrite !epoch_set_epoch|by rewrite !epoch_set_other]. }
      intros Harm. split; cycle 1.
      { intros Hb Hu. apply Htimer; [done|exact Hb|]. unfold urgent, idle in *. rewrite <- !Ecount. exact Hu. }
      specialize (Hel Harm). intros e'. specialize (Hel e'). unfold r2, idle in *.
      match goal with |- ¬ RecoveryEpoch.in_flight_count (epoch e' ?s) = 0 → _ => change (epoch e' s) with (epoch e' (set_epoch e ep3 r)) end.
      destruct (decide (e' = e)) as [-> | Hne]; [|by rewrite epoch_set_other in Hel |- *]. by rewrite epoch_set_epoch in *.
  - intros e'. match goal with |- tracked_frames (epoch e' ?s) ≡ₚ _ => change (epoch e' s) with (epoch e' (set_epoch e ep3 r)) end.
    case_decide as He; [subst e'; rewrite epoch_set_epoch|by rewrite epoch_set_other]. unfold tracked_frames.
    change (RecoveryEpoch.sent_packets ep3) with (sent_in e r ++ [pkt']). rewrite frames_app.
    assert (frames_of [pkt'] = Sent.frames pkt) as -> by (unfold frames_of; cbn; by rewrite app_nil_r, (same_frames _ _ Hsame)).
    assert (RecoveryEpoch.acked_frames ep3 = RecoveryEpoch.acked_frames (epoch e r) ∧ RecoveryEpoch.lost_frames ep3 = RecoveryEpoch.lost_frames (epoch e r)) as [-> ->]
      by (unfold ep3, stored, sending; by destruct (_ && _)).
    rewrite (Permutation_app_comm (frames_of _) (Sent.frames pkt)), <- (assoc_L (++)). done.
Qed.

Lemma on_packet_sent_run armed n a l now pkt e hs r :
  rec_ok armed n a l now 0 r → sendable armed n e pkt hs r →
  total (Recovery.on_packet_sent cc pkt e hs now)
    (λ _ r', rec_ok (sent_phase hs pkt armed) (n + 1) a l now 0 r' ∧
       (∀ e', tracked_frames (epoch e' r') ≡ₚ (if decide (e' = e) then Sent.frames pkt else []) ++ tracked_frames (epoch e' r))) r.
Proof.
  intros Hr Hs. pose proof Hs as Hs0. destruct Hs0. pose proof (over_nonneg _ _ _ _ _ _ _ Hr) as (Hw & Hlv & Hg). pose proof (rtt_bounds _ _ _ _ _ _ _ Hr) as (Hsr & _ & _ & _).
  pose proof Hr as Hr0. destruct Hr0. change PACKETS with 68719476736 in *. unfold Recovery.on_packet_sent. do 3 tstep.
  eapply (total_mono _ (λ _ s, ∃ x, s = set_outstanding_non_ack_eliciting x r ∧ 0 <= x <= n + 1)).
  { destruct (Sent.ack_eliciting pkt); repeat tstep; eexists; (split; [reflexivity|lia]). }
  intros [] s (x & -> & Hx). tstep.
  eapply (total_mono _ (λ _ s, s = set_epoch e (if Sent.in_flight pkt && Sent.ack_eliciting pkt then
    RecoveryEpoch.set_time_of_last_ack_eliciting_packet (Some now) (epoch e r) else epoch e r) (set_outstanding_non_ack_eliciting x r))).
  { destruct (_ && _); tstep; [done|]. by destruct e. }
  intros [] s ->. set (ep1 := if Sent.in_flight pkt && Sent.ack_eliciting pkt then RecoveryEpoch.set_time_of_last_ack_eliciting_packet (Some now) (epoch e r) else epoch e r).
  assert (RecoveryEpoch.in_flight_count ep1 = RecoveryEpoch.in_flight_count (epoch e r)) as Ecnt by (unfold ep1; by destruct (_ && _)).
  pose proof (part_le _ _ _ _ _ _ _ e Hr) as (Hpl & _ & _). pose proof (sums_ok _ _ (proj1 (ep_packets _ _ (ro_epoch0 e)))) as (_ & Hfl & _).
  pose proof (ep_count _ _ (ro_epoch0 e)) as Hcnt. unfold sent_in in Hpl.
  tstep. unfold on_congestion. tstep.
  assert (bytes_in_flight r <= PACKET_SIZE * n) as Hbif by (unfold PACKET_SIZE in *; lia).
  eapply total_mono; [apply (on_packet_sent_ok cc n a l); [exact ro_cong0|lia|change PACKETS with 68719476736; lia|done|lia|lia|lia]|].
  intros pkt' c (Hc & Hsame & Ht & Hrec & Hdel). cbn beta. tstep.
  set (size := sent_size pkt).
  set (r2 := set_bytes_in_flight (bytes_in_flight r + size) (set_epoch e (sending now pkt (epoch e r)) (set_congestion c (set_outstanding_non_ack_eliciting x r)))).
  assert (eliciting r → (Sent.in_flight pkt = true → Sent.ack_eliciting pkt = true) → eliciting r2) as Hel.
  { intros He Hie e' Hidle. change (epoch e' r2) with (epoch e' (set_epoch e (sending now pkt (epoch e r)) r)) in *. unfold idle in Hidle.
    change (epoch e' r2) with (epoch e' (set_epoch e (sending now pkt (epoch e r)) r)) in Hidle.
    destruct (decide (e' = e)) as [-> | Hne]; [|rewrite epoch_set_other in * by done; by apply He]. rewrite epoch_set_epoch in *. unfold sending in *.
    destruct (Sent.in_flight pkt); cbn [andb]; [rewrite Hie by done; cbn; by eexists|]. cbn [andb b2z RecoveryEpoch.in_flight_count RecoveryEpoch.set_in_flight_count] in Hidle.
    rewrite Z.add_0_r in Hidle. by apply He. }
  set (p := sent_phase hs pkt armed). eapply (total_mono _ (λ _ s, ∃ t, s = set_loss_timer t r2 ∧ (p ≠ Unknown → 0 < bytes_in_flight r2 → urgent p r2 → is_Some t))).
  { destruct (Sent.in_flight pkt) eqn:Ein.
    - do 3 tstep. eapply total_lift.
      { apply uadd_ok. change (epoch e (set_congestion _ _)) with (epoch e (set_epoch e ep1 r)). rewrite epoch_set_epoch, Ecnt. lia. }
      do 3 tstep. eapply total_lift; [apply uadd_ok; cbn; unfold size_ok, PACKET_SIZE in *; lia|]. do 2 tstep. cbn [bytes_in_flight set_congestion set_epoch on_epoch].
      match goal with |- total _ _ ?s => assert (s = r2) as -> end.
      { unfold r2, size, sent_size, sending, ep1. rewrite Ein. by destruct e; cbn; destruct (Sent.ack_eliciting pkt). }
      eapply total_mono; [apply timer_ok; [|exact (proj2 ro_bounds0)]|].
      { split; [exact Hsr|apply (rtt_bounds _ _ _ _ _ _ _ Hr)|split; [apply (rtt_bounds _ _ _ _ _ _ _ Hr)|exact ro_delay0]|exact ro_pto0|].
        apply (epochs_set (λ ep, match RecoveryEpoch.time_of_last_ack_eliciting_packet ep with Some t => 0 <= t <= HORIZON | None => True end) e (sending now pkt (epoch e r)) r).
        - destruct (sending_time now pkt (epoch e r)) as [-> | ->].
          + lia.
          + specialize (ro_times0 e). destruct (RecoveryEpoch.time_of_last_ack_eliciting_packet (epoch e r)); [lia|done].
        - intros e'. specialize (ro_times0 e'). destruct (RecoveryEpoch.time_of_last_ack_eliciting_packet (epoch e' r)); [lia|done]. }
      intros [] s' (t & -> & _ & Ht'). exists t. split; [done|]. unfold p, sent_phase. rewrite Ein. intros Harm%later_known Hb Hu. destruct sd_armed0 as [Hcomp Hie]. specialize (Hie Harm).
      apply Ht'; [by apply Hel; [apply ro_armed0|]| |lia]. destruct Hu as [Hdone|[Hu|Hu]]; [|by exists Epoch.Initial|by exists Epoch.Handshake].
      exists e. split; [|intros _; apply later_completed in Hdone as [?|?]; [by apply Hcomp|done]]. unfold idle. change (epoch e r2) with (epoch e (set_epoch e (sending now pkt (epoch e r)) r)). rewrite epoch_set_epoch. unfold sending. rewrite Ein.
      change (RecoveryEpoch.in_flight_count (RecoveryEpoch.set_in_flight_count ?v _)) with v. fold ep1. rewrite Ecnt. cbn [b2z]. lia.
    - tstep. exists (loss_timer r). split.
      + unfold r2, size, sent_size, sending, ep1. rewrite Ein. cbn [andb b2z]. rewrite !Z.add_0_r, count_same. by destruct e.
      + unfold p, sent_phase. rewrite Ein. intros Harm Hb Hu. apply ro_armed0; [done|unfold r2, size, sent_size in Hb; rewrite Ein in Hb; cbn in Hb; lia|].
        unfold urgent, idle in *. change (epoch ?x r2) with (epoch x (set_epoch e (sending now pkt (epoch e r)) r)) in Hu. unfold sending in Hu. rewrite Ein in Hu. cbn [andb b2z] in Hu.
        rewrite Z.add_0_r, count_same in Hu. by destruct e. }
  intros [] s (t & -> & Htimer). do 3 tstep. eapply total_lift; [apply uadd_ok; cbn; unfold size_ok, PACKET_SIZE in *; lia|]. do 3 tstep.
  set (ep3 := stored now pkt pkt' e r).
  match goal with |- rec_ok _ _ _ _ _ _ ?s ∧ _ =>
    assert (s = set_bytes_sent (bytes_sent r + Sent.size pkt) (set_loss_timer t (set_bytes_in_flight (bytes_in_flight r + size)
      (set_epoch e ep3 (set_congestion c (set_outstanding_non_ack_eliciting x r)))))) as -> end.
  { unfold on_epoch, ep3, stored. change (epoch e (set_bytes_sent _ _)) with (epoch e (set_epoch e (sending now pkt (epoch e r)) r)). rewrite epoch_set_epoch.
    change (RecoveryEpoch.sent_packets (sending now pkt (epoch e r))) with
      (RecoveryEpoch.sent_packets (if Sent.in_flight pkt && Sent.ack_eliciting pkt then RecoveryEpoch.set_time_of_last_ack_eliciting_packet (Some now) (epoch e r) else epoch e r)).
    unfold sent_in. assert (RecoveryEpoch.sent_packets (if Sent.in_flight pkt && Sent.ack_eliciting pkt then RecoveryEpoch.set_time_of_last_ack_eliciting_packet (Some now) (epoch e r) else epoch e r) =
      RecoveryEpoch.sent_packets (epoch e r)) as -> by by destruct (_ && _). by destruct e. }
  apply (rec_sent armed n a l now pkt pkt' e hs c x t r Hr Hs Hsame Ht Hrec Hdel Hc Hx); [|exact Htimer].
  intros Harm. assert (armed ≠ Unknown) as Ha by (unfold p, sent_phase in Harm; destruct (Sent.in_flight pkt); [by eapply later_known|done]).
  exact (Hel (proj1 (ro_armed0 Ha)) (proj2 sd_armed0 Ha)).
Qed.

(** ** Acknowledgements *)

(** The ranges of an ACK frame, the last number they cover being [last]. *)
Definition ack_fine (ranges : RangeSet.t) (last : Z) : Prop :=
  RangeSet.last (E:=Error) ranges = Ok (Some last) ∧ 0 <= last < PKT_NUM_MAX ∧ Forall (λ x, x.2 <= last + 1) (RangeSet.iter ranges).

(** Spurious losses are counted and raise the packet threshold. *)
Lemma rec_spurious armed n a l now b newly spurious r :
  rec_ok armed n a l now b r → 0 <= spurious → lost_spurious_count r + spurious + over gone r + over live r <= n →
  rec_ok armed n a l now b (set_lost_spurious_count (lost_spurious_count r + spurious) (set_newly_acked newly r)).
Proof.
  intros [] Hs Hg. split; try done.
  change (0 <= lost_spurious_count r + spurious ∧ lost_spurious_count r + spurious + over gone r + over live r <= n). lia.
Qed.

Lemma rec_thresh armed n a l now b thresh r :
  rec_ok armed n a l now b r → match thresh with Some t => 1 <= t | None => True end →
  total (match thresh with
    | Some thresh => modify (λ r, set_pkt_thresh (Z.max (pkt_thresh r) (Z.min thresh MAX_PACKET_THRESHOLD)) r)
    | None => mret ()
    end) (λ _ r', rec_ok armed n a l now b r' ∧ ∃ t, r' = set_pkt_thresh t r) r.
Proof.
  intros Hr Ht. destruct thresh as [t|]; tstep.
  - split; [|by eexists]. destruct Hr. split; try done. cbn. unfold INITIAL_PACKET_THRESHOLD, MAX_PACKET_THRESHOLD in *. lia.
  - split; [done|]. exists (pkt_thresh r). by destruct r.
Qed.

Lemma rec_rollback armed n a l now b (f : bool) r :
  rec_ok armed n a l now b r →
  total (if f then on_congestion (_ ← Congestion.ops_rollback cc; mret ()) else mret ()) (λ _ r', rec_ok armed n a l now b r' ∧ base r' = base r) r.
Proof.
  intros Hr. destruct f; [|by tstep]. unfold on_congestion. do 2 tstep. pose proof (ro_cong _ _ _ _ _ _ _ Hr) as Hc.
  eapply total_mono; [apply (algo_rollback a); apply Hc|]. intros u c Hc'. cbv beta in Hc'. tstep.
  assert (Congestion.delivery_rate c = Congestion.delivery_rate (congestion r)) as Ed by (destruct Hc' as (_ & _ & E); unfold shared in E; by injection E).
  split; [|unfold base, delivered_bytes; cbn; by rewrite Ed].
  eapply rec_congestion; [exact Hr|by eapply cong_kept|unfold delivered_bytes; by rewrite Ed|apply Hr|apply Hr].
Qed.

Lemma rec_rtt armed n a l now b sample r :
  rec_ok armed n a l now b r → sample_ok HORIZON sample → s_now sample = now →
  total (stats ← lift (RttStats.update_rtt (s_rtt sample) (s_delay sample) (s_now sample) (s_confirmed sample) (rtt_stats r));
         modify (set_rtt_stats stats))
    (λ _ r', rec_ok armed n a l now b r' ∧ ∃ stats, r' = set_rtt_stats stats r) r.
Proof.
  intros Hr Hs Hnow. destruct (ro_rtt _ _ _ _ _ _ _ Hr) as (ss & t & Ht & Hss & Hok).
  destruct (update_rtt_ok HORIZON ss t sample (rtt_stats r)) as (stats & Hup & Hok' & _ & Hd & _); [by vm_compute|done|by apply Forall_app_2; [|apply Forall_singleton]|lia|].
  tstep. eapply total_lift; [done|]. tstep. split; [|by exists stats]. destruct Hr. split; try done.
  - exists (ss ++ [sample]), (s_now sample). split; [lia|]. split; [by apply Forall_app_2; [|apply Forall_singleton]|done].
  - cbn. by rewrite Hd.
Qed.

(** The rest of the call, once losses have been detected. *)
Lemma ack_finish armed n a l now ab e hs (loss : Z * Z) r :
  rec_ok armed n a l now ab r → 0 <= ab → Forall (acked_fine (delivered_bytes r)) (newly_acked r) →
  a + zlen (newly_acked r) + over live r <= n →
  total (r ← get;
         rest ← on_congestion (Congestion.on_packets_acked cc (bytes_in_flight r) (newly_acked r) (rtt_stats r) now);
         modify (set_newly_acked rest);;
         r ← get;
         bif ← lift (usub (bytes_in_flight r) ab);
         modify (set_bytes_in_flight bif);;
         modify (set_pto_count 0);;
         set_loss_detection_timer hs now;;
         r ← get;
         thresh ← lift (inst_sub now (rtt r));
         modify (on_epoch e (RecoveryEpoch.drain_acked_and_lost_packets thresh));;
         mret (loss, ab))
    (λ _ r', (∃ a' l', rec_ok armed n a' l' now 0 r') ∧ kept r r') r.
Proof.
  intros Hr Hab Hnewly Hlen. pose proof (over_nonneg _ _ _ _ _ _ _ Hr) as (Hw & Hlv & _). pose proof (ro_bounds _ _ _ _ _ _ _ Hr) as (Hn & Hnow).
  pose proof (ro_acked _ _ _ _ _ _ _ Hr) as (Ha0 & _). pose proof (zlen_nonneg (newly_acked r)) as Hk. set (k := zlen (newly_acked r)) in *.
  do 3 tstep. unfold on_congestion. tstep. eapply total_mono; [apply (on_packets_acked_ok cc n a l); [apply Hr|done|fold k; lia|]|].
  { eapply Forall_impl; [exact Hnewly|]. intros p (Hp1 & Hp2 & _). by split. }
  fold k. intros rest c (Hc & Hd). do 5 tstep. pose proof (ro_bytes _ _ _ _ _ _ _ Hr) as Hb. eapply total_lift; [apply usub_ok; cbn; lia|].
  assert (rec_ok armed n (a + k) l now ab (set_congestion c r)) as Hr1 by (eapply rec_congestion; [exact Hr|exact Hc|exact Hd|lia|apply Hr]).
  assert (rec_ok armed n (a + k) l now ab (set_newly_acked rest (set_congestion c r))) as Hr2 by (destruct Hr1; by split).
  apply (rec_bytes _ _ _ _ _ _ ab) in Hr2; [|done]. rewrite Z.sub_diag in Hr2. do 5 tstep.
  set (r2 := set_bytes_in_flight _ _) in *. assert (rec_ok armed n (a + k) l now 0 (set_pto_count 0 r2)) as Hr3 by (destruct Hr2; by split).
  eapply total_mono; [apply (rearm_ok armed n (a + k) l now hs); exact Hr3|]. intros [] r4 (Hr4%rec_before & t & Et). do 3 tstep. eapply total_lift.
  { apply inst_sub_ok. pose proof (rtt_bounds _ _ _ _ _ _ _ Hr4) as (Hs & _). unfold rtt, RttStats.rtt. change HORIZON with 67108864000000000 in *.
    change INSTANT_MIN with (-9223372036854775808000000000). lia. }
  destruct (rec_drained _ _ _ _ _ _ e (now - rtt r4) _ Hr4) as (Hr5 & Hk5 & _). do 3 tstep. split; [by exists (a + k), l|]. by subst r4.
Qed.

Lemma on_ack_received_run armed n a l now ranges last delay e hs r :
  rec_ok armed n a l now 0 r → ack_fine ranges last → is_u64 delay →
  total (Recovery.on_ack_received cc ranges delay e hs now)
    (λ _ r', (∃ a' l', rec_ok armed n a' l' now 0 r') ∧ kept r r') r.
Proof.
  intros Hr (Hlast & Hlb & Hrs) Hdelay. pose proof (over_nonneg _ _ _ _ _ _ _ Hr) as (Hw & Hlv & Hg). pose proof (part_le _ _ _ _ _ _ _ e Hr) as (Hpl & Hpg & Hpw).
  pose proof (rtt_bounds _ _ _ _ _ _ _ Hr) as (Hsr & _ & _ & _). pose proof (ro_bounds _ _ _ _ _ _ _ Hr) as (Hn & Hnow).
  pose proof (ro_gone _ _ _ _ _ _ _ Hr) as (Hsp0 & Hsp). pose proof (ro_acked _ _ _ _ _ _ _ Hr) as (Ha0 & Ha).
  pose proof (ro_epoch _ _ _ _ _ _ _ Hr e) as Hep0. unfold Recovery.on_ack_received. tstep. eapply total_lift; [done|]. do 2 tstep.
  set (largest := Z.max _ last). assert (last <= largest < PKT_NUM_MAX) as Hlg.
  { pose proof (ep_largest _ _ Hep0). unfold largest. destruct (RecoveryEpoch.largest_acked_packet (epoch e r)); cbn; lia. }
  do 3 tstep. set (ep0 := RecoveryEpoch.set_largest_acked_packet (Some largest) (epoch e r)). change (on_epoch e _ r) with (set_epoch e ep0 r).
  assert (epoch_ok (delivered_bytes r) ep0) as Hep0' by (apply largest_set_ok; [lia|done]).
  assert (rec_ok armed n a l now 0 (set_epoch e ep0 r)) as Hr0 by (eapply rec_epoch; [exact Hr|exact Hep0'|done|by left|done|done|done]).
  destruct (detect_acked_run (delivered_bytes r) now ranges (rtt_stats r) ep0 largest)
    as (acks & ep & Hrun & Hep & _ & Hfew & Hsz & Hnb & Hbytes & Hnewly & Hnsp & Hspur & Hfine & Hthr & Htr & Htm & Hla & _);
    [done|done|eapply Forall_impl; [exact Hrs|]; cbn; lia|change (RecoveryEpoch.sent_packets ep0) with (sent_in e r); lia|change (RecoveryEpoch.sent_packets ep0) with (sent_in e r); lia|lia|done|].
  eapply total_call_epoch; [by rewrite epoch_set_epoch|]. rewrite set_epoch_twice.
  change (RecoveryEpoch.sent_packets ep0) with (sent_in e r) in *. change (RecoveryEpoch.in_flight_count ep0) with (RecoveryEpoch.in_flight_count (epoch e r)) in *.
  set (k := zlen (RecoveryEpoch.newly_acked acks)) in *. set (ab := RecoveryEpoch.acked_bytes acks) in *.
  pose proof (zlen_nonneg (RecoveryEpoch.newly_acked acks)) as Hk. fold k in Hk.
  assert (rec_ok armed n a l now ab (set_epoch e ep r)) as Hr1 by (eapply rec_epoch; [exact Hr|exact Hep|exact Hfew|by left|lia..]).
  assert (over live (set_epoch e ep r) + k = over live r ∧ over gone (set_epoch e ep r) + RecoveryEpoch.spurious_losses acks <= over gone r) as [Elive Egone].
  { rewrite !over_set_epoch. lia. }
  assert (kept r (set_epoch e ep r)) as Hkept by (apply kept_set_epoch; exact Htr). change PACKETS with 68719476736 in *.
  pose proof (over_nonneg _ _ _ _ _ _ _ Hr1) as (Hw1 & Hlv1 & Hg1). do 3 tstep. eapply total_lift; [apply uadd_ok; lia|]. do 3 tstep.
  set (newly := RecoveryEpoch.newly_acked acks) in *.
  pose proof (rec_spurious _ _ _ _ _ _ newly (RecoveryEpoch.spurious_losses acks) _ Hr1 Hnsp) as Hr2.
  change (lost_spurious_count (set_epoch e ep r)) with (lost_spurious_count r) in Hr2. specialize (Hr2 ltac:(lia)). set (r2 := set_lost_spurious_count _ _) in *.
  eapply total_mono; [by apply (rec_thresh armed n a l now ab)|]. intros [] r3 (Hr3 & t3 & ->). tstep.
  eapply total_mono; [by apply (rec_rollback armed n a l now ab)|]. intros [] r4 (Hr4 & E4).
  change (base (set_pkt_thresh t3 r2)) with (base r2) in E4.
  assert (over live r4 = over live (set_epoch e ep r)) as El4 by (rewrite (base_over _ _ _ E4); done).
  assert (newly_acked r4 = newly ∧ delivered_bytes r4 = delivered_bytes r) as [En4 Ed4] by (unfold base in E4; by injection E4).
  assert (kept r r4) as Hk4 by (eapply kept_trans; [exact Hkept|exact (base_kept _ _ E4)]).
  destruct (list.last newly) as [big|] eqn:Elast.
  2: { tstep. apply last_None in Elast. assert (k = 0) as Ek by (change (zlen newly = 0); by rewrite Elast). assert (ab = 0) as Eab by lia. split; [|done]. exists a, l. by rewrite Eab in Hr4. }
  tstep. eapply (total_mono _ (λ _ r5, rec_ok armed n a l now ab r5 ∧ ∃ stats, r5 = set_rtt_stats stats r4)).
  { destruct (_ && _); [|tstep; split; [done|]; exists (rtt_stats r4); by destruct r4]. do 2 tstep.
    apply (rec_rtt armed n a l now ab (Sample (duration_since now (Acked.time_sent big)) (delay * 1000) now (completed hs))); [done| |done].
    assert (acked_fine (delivered_bytes r) big) as (_ & _ & Hts) by (rewrite Forall_forall in Hfine; apply Hfine; by apply last_Some_elem_of).
    split; cbn; [unfold duration_since; lia|]. unfold is_u64 in Hdelay. lia. }
  intros [] r5 (Hr5 & stats & ->). tstep. eapply total_mono; [apply (detect_lost_ok armed n a l now ab); [done|lia]|].
  intros loss r6 (l6 & Hr6 & Hk6 & Hl6 & _ & En6 & Ed6). eapply total_mono.
  - apply (ack_finish armed n a l6 now ab e hs loss); [done|done| |].
    + rewrite En6, Ed6. change (newly_acked (set_rtt_stats stats r4)) with (newly_acked r4). change (delivered_bytes (set_rtt_stats stats r4)) with (delivered_bytes r4).
      by rewrite En4, Ed4.
    + rewrite En6. change (newly_acked (set_rtt_stats stats r4)) with (newly_acked r4). change (over live (set_rtt_stats stats r4)) with (over live r4) in Hl6.
      rewrite En4. fold k. lia.
  - cbn beta. intros x r7 [Hex Hk7]. split; [exact Hex|]. eapply kept_trans; [|exact Hk7]. eapply kept_trans; [exact Hk4|exact Hk6].
Qed.

(** ** Timeouts *)

(** The frames that a probe timeout queues again. *)
Definition copies e r r' : list RecoveryEpoch.LostFrame :=
  if bool_decide (is_Some (loss_time_and_space r).1) then []
  else drop (length (RecoveryEpoch.lost_frames (epoch e r))) (RecoveryEpoch.lost_frames (epoch e r')).

Lemma on_timeout_run armed n a l now hs r :
  rec_ok armed n a l now 0 r → is_Some (loss_time_and_space r).1 ∨ pto_count r < 31 →
  total (Recovery.on_loss_detection_timeout cc hs now)
    (λ _ r', (∃ l', rec_ok (later hs armed) n a l' now 0 r') ∧ ∀ e, tracked_frames (epoch e r') ≡ₚ reported (copies e r r') ++ tracked_frames (epoch e r)) r.
Proof.
  intros Hr Hpto. pose proof (ro_bounds _ _ _ _ _ _ _ Hr) as (Hn & Hnow). unfold Recovery.on_loss_detection_timeout, copies. do 2 tstep.
  destruct (loss_time_and_space r) as [[t|] e]; cbn [fst].
  { rewrite bool_decide_true by by eexists. tstep. eapply total_mono; [by apply (detect_lost_ok armed n a l now 0)|]. intros loss r1 (l1 & Hr1 & Hk1 & _). tstep.
    eapply total_mono; [by apply (rearm_ok armed n a l1 now hs)|]. intros [] r2 (Hr2 & t2 & ->). tstep. split; [by exists l1|]. intros e'. cbn [reported fmap list_fmap app]. apply Hk1. }
  destruct Hpto as [[]|Hpto]; [done|]. rewrite bool_decide_false by by intros []. tstep.
  eapply (total_mono _ (λ _ s, s = r)).
  { destruct (0 <? bytes_in_flight r); [|by tstep]. destruct (pto_time_run hs now r) as (t & e1 & He & _); [by eapply rec_timer_ready|done|]. tstep. eapply total_lift; [done|]. by tstep. }
  intros e1 s ->. clear e. rename e1 into e. tstep. pose proof (ro_pto _ _ _ _ _ _ _ Hr) as Hp. eapply total_lift; [unfold next_pto_count; by zdecide|].
  do 4 tstep. set (probes := Z.min _ _). change (on_epoch e _ _) with (set_pto_count (pto_count r + 1) (set_epoch e (RecoveryEpoch.set_lost_frames
    (RecoveryEpoch.lost_frames (epoch e r) ++ RecoveryEpoch.probe_frames (Z.to_nat probes) (RecoveryEpoch.sent_packets (epoch e r))) (RecoveryEpoch.set_loss_probes probes (epoch e r))) r)).
  set (v := RecoveryEpoch.set_lost_frames _ _).
  assert (rec_ok armed n a l now 0 (set_pto_count (pto_count r + 1) (set_epoch e v r))) as Hr1.
  { assert (rec_ok armed n a l now 0 (set_epoch e v r)) as Hv.
    { eapply rec_epoch; [exact Hr| |done|by left|done|done|done]. destruct (ro_epoch _ _ _ _ _ _ _ Hr e). split; try done. cbn. unfold probes, MAX_PTO_PROBES_COUNT in *. lia. }
    destruct Hv. split; try done. cbn. lia. }
  tstep. eapply total_mono; [by apply (rearm_ok armed n a l now hs)|]. intros [] r2 (Hr2 & t2 & ->). tstep. split; [by exists l|]. intros e'.
  change (epoch e' (set_loss_timer t2 _)) with (epoch e' (set_epoch e v r)).
  destruct (decide (e' = e)) as [-> | Hne]; [rewrite epoch_set_epoch|rewrite epoch_set_other, drop_all by done; done].
  unfold v. cbn [RecoveryEpoch.lost_frames RecoveryEpoch.set_lost_frames]. rewrite drop_app_length. unfold tracked_frames.
  cbn [RecoveryEpoch.sent_packets RecoveryEpoch.acked_frames RecoveryEpoch.lost_frames RecoveryEpoch.set_lost_frames RecoveryEpoch.set_loss_probes].
  by rewrite reported_app, (Permutation_app_comm (reported (RecoveryEpoch.probe_frames _ _))), <- !(assoc_L (++)).
Qed.

(** ** The other calls *)

Lemma sum_sizes_run D acc pkts : Forall (packet_ok D) pkts → 0 <= acc → acc + zsum weight pkts <= u64_max →
  sum_sizes acc pkts = Ok (acc + zsum weight pkts).
Proof.
  intros Hp. revert acc. induction Hp as [|p pkts Hp Hpkts IH]; intros acc Hacc Hle; cbn [sum_sizes].
  { unfold zsum. cbn. f_equal. lia. }
  rewrite zsum_cons in *. pose proof (weight_bounds _ _ Hp) as Hw. pose proof (sums_ok _ _ Hpkts) as (Hs & _). 
  assert (weight p = (if Sent.in_flight p && RecoveryEpoch.outstanding p then Sent.size p else 0)) as Ew by done. rewrite Ew in *. clear Ew.
  destruct (Sent.in_flight p && RecoveryEpoch.outstanding p).
  - rewrite uadd_ok by lia. cbn [mbind result_bind]. rewrite IH by lia. f_equal. lia.
  - cbn [mbind result_bind]. rewrite IH by lia. f_equal.
Qed.

Lemma on_discard_run armed n a l now e hs r :
  rec_ok armed n a l now 0 r →
  total (on_pkt_num_space_discarded e hs now)
    (λ _ r', rec_ok (later hs armed) n a l now 0 r' ∧ ∀ e', tracked_frames (epoch e' r') = if decide (e' = e) then [] else tracked_frames (epoch e' r)) r.
Proof.
  intros Hr. pose proof (over_nonneg _ _ _ _ _ _ _ Hr) as (Hw & Hlv & Hg). pose proof (part_le _ _ _ _ _ _ _ e Hr) as (Hpl & Hpg & Hpw).
  pose proof (ro_bounds _ _ _ _ _ _ _ Hr) as (Hn & Hnow). pose proof (ro_acked _ _ _ _ _ _ _ Hr). pose proof (ro_bytes _ _ _ _ _ _ _ Hr) as Hb.
  pose proof (sums_ok _ _ (proj1 (ep_packets _ _ (ro_epoch _ _ _ _ _ _ _ Hr e)))) as (Hsw & Hsf & Hsg). fold (sent_in e r) in *.
  change PACKETS with 68719476736 in *. unfold PACKET_SIZE in *. unfold on_pkt_num_space_discarded. do 3 tstep.
  eapply total_lift; [eapply sum_sizes_run; [apply (ro_epoch _ _ _ _ _ _ _ Hr e)|done|fold (sent_in e r); lia]|]. fold (sent_in e r). rewrite Z.add_0_l. tstep. eapply total_lift; [apply usub_ok; lia|].
  do 4 tstep. set (v := RecoveryEpoch.mk None (RecoveryEpoch.largest_acked_packet (epoch e r)) None [] 0 0 [] []).
  match goal with |- total _ _ ?s => change s with (set_bytes_in_flight (bytes_in_flight r - zsum weight (sent_in e r)) (set_epoch e v r)) end.
  assert (epoch_ok (delivered_bytes r) v) as Hv by (destruct (ro_epoch _ _ _ _ _ _ _ Hr e); split; [split; constructor|done|done|done]).
  assert (rec_ok armed n a l now (zsum weight (sent_in e r)) (set_epoch e v r)) as Hr1.
  { assert (∀ f, zsum f (RecoveryEpoch.sent_packets v) = 0) as Hz by done. assert (RecoveryEpoch.in_flight_count v = 0) as Hz' by done.
    eapply rec_epoch; [exact Hr|exact Hv| |by right|..]; rewrite ?Hz, ?Hz'; rewrite ?(ep_count _ _ (ro_epoch _ _ _ _ _ _ _ Hr e)); unfold sent_in in *; lia. }
  apply (rec_bytes _ _ _ _ _ _ (zsum weight (sent_in e r))) in Hr1; [|lia]. rewrite Z.sub_diag in Hr1.
  change (bytes_in_flight (set_epoch e v r)) with (bytes_in_flight r) in Hr1.
  eapply total_mono; [by apply (rearm_ok armed n a l now hs)|]. intros [] r2 (Hr2 & t2 & ->). split; [done|]. intros e'.
  match goal with |- tracked_frames (epoch e' ?s) = _ => change (epoch e' s) with (epoch e' (set_epoch e v r)) end.
  case_decide as He; [subst e'; by rewrite epoch_set_epoch|by rewrite epoch_set_other].
Qed.

Lemma rec_cong_own armed n a l now b c r :
  rec_ok armed n a l now b r → own c = own (congestion r) → Congestion.hystart c = Congestion.hystart (congestion r) →
  shared_ok n a l c → Congestion.delivery_rate c = Congestion.delivery_rate (congestion r) → rec_ok armed n a l now b (set_congestion c r).
Proof.
  intros Hr Eo Eh Hs Ed. destruct (ro_cong _ _ _ _ _ _ _ Hr) as (_ & Ha & Hh).
  eapply rec_congestion; [exact Hr| |unfold delivered_bytes; by rewrite Ed|apply Hr|apply Hr]. split; [done|]. split; [by eapply algo_frame|by rewrite Eh].
Qed.

Lemma on_pmtud_run armed n a l now b clock size r :
  rec_ok armed n a l now b r → 0 <= clock <= HORIZON → 0 < size <= PACKET_SIZE →
  size * Congestion.initial_congestion_window_packets (congestion r) <= QUANTUM →
  total (pmtud_update_max_datagram_size clock size) (λ _ r', rec_ok armed n a l now b r' ∧ kept r r') r.
Proof.
  intros Hr Hclock Hsize Hq. pose proof (ro_cong _ _ _ _ _ _ _ Hr) as (Hs & Ha & Hh). pose proof (ro_bounds _ _ _ _ _ _ _ Hr) as (Hn & _).
  destruct (sh_config _ _ _ _ Hs) as (Hc1 & Hc2 & Hc3 & _). pose proof (ro_size _ _ _ _ _ _ _ Hr) as Hsz. unfold pmtud_update_max_datagram_size, cwnd.
  set (p := Congestion.initial_congestion_window_packets (congestion r)) in *. change QUANTUM with 1048576 in *. unfold PACKET_SIZE in Hc1, Hsize, Hsz.
  assert (0 <= p <= 1048576) by nia. do 3 tstep. eapply total_lift; [apply umul_ok; fold p; nia|]. fold p. tstep.
  assert (rec_ok armed n a l now b (set_congestion (Congestion.set_congestion_window (size * p) (congestion r)) r)) as Hw.
  { eapply rec_congestion; [exact Hr| |done|apply Hr|apply Hr]. split; [|split; [apply algo_resize; [change QUANTUM with 1048576; nia|done]|exact Hh]].
    destruct Hs. split; try done. cbn. nia. }
  eapply (total_mono _ (λ _ r1, rec_ok armed n a l now b r1 ∧ base r1 = base r ∧ Congestion.pacer (congestion r1) = Congestion.pacer (congestion r))).
  { destruct (_ =? _); [|by tstep]. tstep. eapply total_lift; [apply umul_ok; nia|]. unfold on_congestion. by repeat tstep. }
  intros [] r1 (Hr1 & E1 & Ep1). do 3 tstep. pose proof (ro_cong _ _ _ _ _ _ _ Hr1) as (Hs1 & Ha1 & Hh1). pose proof (algo_window _ _ Ha1) as Hw1.
  destruct (new_pacer_ok clock (Pacer.enabled (Congestion.pacer (congestion r1))) (Congestion.congestion_window (congestion r1)) size
    (Pacer.max_pacing_rate (Congestion.pacer (congestion r1))) n) as (pc & Hpc & Hpok); [done|lia|lia|apply (sh_pacer _ _ _ _ Hs1)|lia|].
  eapply total_lift; [exact Hpc|]. unfold on_congestion. repeat tstep. split; [|intros e; exact (base_kept _ _ E1 e)].
  assert (rec_ok armed n a l now b (set_congestion (Congestion.set_pacer pc (congestion r1)) r1)) as Hr2.
  { apply rec_cong_own; [done|done|done| |done]. destruct Hs1 as [_ H2 H3 H4 H5 H6]. exact (Build_shared_ok _ _ _ (Congestion.set_pacer pc _) Hpok H2 H3 H4 H5 H6). }
  destruct Hr2. split; done.
Qed.

Lemma on_app_limited_run armed n a l now b v r :
  rec_ok armed n a l now b r → total (update_app_limited v) (λ _ r', rec_ok armed n a l now b r' ∧ kept r r') r.
Proof.
  intros Hr. unfold update_app_limited, on_congestion. repeat tstep. split; [|exact (handshake_kept_refl r)]. apply rec_cong_own; [done|done|done| |done].
  destruct (proj1 (ro_cong _ _ _ _ _ _ _ Hr)). split; assumption.
Qed.

Lemma on_rate_limited_run armed n a l now b v r :
  rec_ok armed n a l now b r → total (delivery_rate_update_app_limited v) (λ _ r', rec_ok armed n a l now b r' ∧ kept r r') r.
Proof.
  intros Hr. unfold delivery_rate_update_app_limited, on_congestion, Rate.update_app_limited. repeat tstep. split; [|exact (handshake_kept_refl r)].
  pose proof (ro_cong _ _ _ _ _ _ _ Hr) as (Hs & Ha & Hh). eapply rec_congestion; [exact Hr| |done|apply Hr|apply Hr].
  split; [destruct Hs; split; assumption|]. split; [by eapply algo_frame; [|exact Ha]|exact Hh].
Qed.

Lemma on_ack_delay_run armed n a l now b d r :
  rec_ok armed n a l now b r → 0 <= d <= ACK_DELAY → total (update_max_ack_delay d) (λ _ r', rec_ok armed n a l now b r' ∧ kept r r') r.
Proof.
  intros Hr Hd. unfold update_max_ack_delay. tstep. split; [|exact (handshake_kept_refl r)]. destruct Hr. split; try done; [|apply Hd].
  destruct ro_rtt0 as (ss & t & Ht & Hss & (H1 & H2 & H3 & _) & Hf). exists ss, t. split; [exact Ht|]. split; [exact Hss|]. split; [|exact Hf].
  split; [exact H1|]. split; [exact H2|]. split; [exact H3|]. cbn. change ACK_DELAY with 16384000000 in Hd. change DURATION_MAX with 18446744073709551615999999999. lia.
Qed.

Lemma on_ping_run armed n a l now b e r : rec_ok armed n a l now b r → total (ping_sent e) (λ _ r', rec_ok armed n a l now b r' ∧ kept r r') r.
Proof.
  intros Hr. unfold ping_sent. tstep. unfold on_epoch. split; [|by apply kept_set_epoch].
  eapply rec_epoch; [exact Hr| |done|by left|done|done|done]. destruct (ro_epoch _ _ _ _ _ _ _ Hr e). split; try done. cbn. unfold saturating_sub. lia.
Qed.

Lemma on_read_acked_run armed n a l now b e r :
  rec_ok armed n a l now b r →
  total (get_acked_frames e) (λ out r', rec_ok armed n a l now b r' ∧
    ∀ e', tracked_frames (epoch e' r) ≡ₚ (if decide (e' = e) then out else []) ++ tracked_frames (epoch e' r')) r.
Proof.
  intros Hr. unfold get_acked_frames. repeat tstep. unfold on_epoch. split.
  - eapply rec_epoch; [exact Hr| |done|by left|done|done|done]. by destruct (ro_epoch _ _ _ _ _ _ _ Hr e).
  - intros e'. case_decide as He; [subst e'; rewrite epoch_set_epoch|by rewrite epoch_set_other]. unfold tracked_frames. cbn. apply Permutation_app_swap_app.
Qed.

Lemma on_read_lost_run armed n a l now b e r :
  rec_ok armed n a l now b r →
  total (get_lost_frames e) (λ out r', rec_ok armed n a l now b r' ∧
    ∀ e', tracked_frames (epoch e' r) ≡ₚ (if decide (e' = e) then reported out else []) ++ tracked_frames (epoch e' r')) r.
Proof.
  intros Hr. unfold get_lost_frames. repeat tstep. unfold on_epoch. split.
  - eapply rec_epoch; [exact Hr| |done|by left|done|done|done]. by destruct (ro_epoch _ _ _ _ _ _ _ Hr e).
  - intros e'. case_decide as He; [subst e'; rewrite epoch_set_epoch|by rewrite epoch_set_other]. unfold tracked_frames. cbn.
    rewrite app_nil_r, (Permutation_app_comm (reported _)), <- (assoc_L (++)). done.
Qed.

(** *** Recovered source symbols *)

(** A frame without the mark that its source symbol was recovered. *)
Definition plain (f : Frame.t) : Frame.t := match f with Frame.SourceSymbolHeader metadata _ => Frame.SourceSymbolHeader metadata false | _ => f end.

Context (metadata_to_u64 : list Z → Z).

Lemma recover_packet_same D x p : packet_ok D p →
  let q := RecoveryEpoch.recover_packet metadata_to_u64 x p in
  packet_ok D q ∧ weight q = weight p ∧ flying q = flying p ∧ live q = live p ∧ gone q = gone p ∧ Sent.pkt_num q = Sent.pkt_num p ∧
  plain <$> Sent.frames q = plain <$> Sent.frames p.
Proof.
  intros Hp. unfold RecoveryEpoch.recover_packet. case_bool_decide; [|by split]. split; [|split_and!; try done].
  - pose proof (pk_frames _ _ Hp) as Hf. destruct Hp. split; try done. intros Ho. cbn. by rewrite (Hf Ho).
  - cbn [Sent.frames Sent.set_frames]. rewrite <- list_fmap_compose. apply list_fmap_ext. intros i f _. unfold compose, RecoveryEpoch.recover_frame, plain.
    destruct f; try done. by destruct (_ && _).
Qed.

Lemma recover_ranges_same D ranges pkts : packets_ok D pkts →
  let pkts' := foldl (λ pkts x, RecoveryEpoch.recover_packet metadata_to_u64 x <$> pkts) pkts ranges in
  packets_ok D pkts' ∧ (∀ f, f = weight ∨ f = flying ∨ f = live ∨ f = gone → zsum f pkts' = zsum f pkts) ∧ plain <$> frames_of pkts' = plain <$> frames_of pkts.
Proof.
  revert pkts. induction ranges as [|x ranges IH]; intros pkts Hp; cbn [foldl]; [done|].
  assert (packets_ok D (RecoveryEpoch.recover_packet metadata_to_u64 x <$> pkts) ∧
    (∀ f, f = weight ∨ f = flying ∨ f = live ∨ f = gone → zsum f (RecoveryEpoch.recover_packet metadata_to_u64 x <$> pkts) = zsum f pkts) ∧
    plain <$> frames_of (RecoveryEpoch.recover_packet metadata_to_u64 x <$> pkts) = plain <$> frames_of pkts) as (H1 & H2 & H3).
  - destruct Hp as [Hp Hs]. assert (numbers (RecoveryEpoch.recover_packet metadata_to_u64 x <$> pkts) = numbers pkts) as En.
    { unfold numbers. rewrite <- list_fmap_compose. apply list_fmap_ext. intros i p Hi. unfold compose. rewrite Forall_lookup in Hp. by apply (recover_packet_same D x p), (Hp i). }
    unfold packets_ok. rewrite En. clear En IH. split; [split; [|done]|split].
    + apply Forall_fmap. eapply Forall_impl; [exact Hp|]. intros p Hp'. by apply (recover_packet_same D x p).
    + intros f Hf. clear Hs. induction Hp as [|p pkts Hp _ IH]; [done|]. rewrite fmap_cons, !zsum_cons, IH. f_equal.
      destruct (recover_packet_same D x p Hp) as (_ & ? & ? & ? & ? & _). by destruct Hf as [-> | [-> | [-> | ->]]].
    + clear Hs. induction Hp as [|p pkts Hp _ IH]; [done|]. unfold frames_of in *. rewrite !fmap_cons. cbn [concat]. rewrite !fmap_app, IH. f_equal. by apply (recover_packet_same D x p).
  - destruct (IH _ H1) as (H4 & H5 & H6). split; [done|]. split; [intros f Hf; by rewrite H5, H2|by rewrite H6].
Qed.

Lemma on_recovered_run armed n a l now b ranges e r :
  rec_ok armed n a l now b r →
  total (on_source_symbol_ack_received metadata_to_u64 ranges e)
    (λ _ r', rec_ok armed n a l now b r' ∧ ∀ e', plain <$> tracked_frames (epoch e' r') ≡ₚ plain <$> tracked_frames (epoch e' r)) r.
Proof.
  intros Hr. unfold on_source_symbol_ack_received. tstep. unfold on_epoch, RecoveryEpoch.recover_ranges.
  destruct (ro_epoch _ _ _ _ _ _ _ Hr e) as [Hp Hc Hl Hb]. destruct (recover_ranges_same _ (RangeSet.iter ranges) _ Hp) as (Hp' & Hsum & Hfr).
  set (pkts := foldl _ _ _) in *. split.
  - eapply rec_epoch; [exact Hr| |done|by left|..]; cbn [RecoveryEpoch.sent_packets RecoveryEpoch.set_sent_packets]; unfold sent_in; rewrite ?Hsum by auto; try lia.
    split; cbn [RecoveryEpoch.sent_packets RecoveryEpoch.set_sent_packets RecoveryEpoch.in_flight_count]; [done|by rewrite Hsum by auto|done|done].
  - intros e'. destruct (decide (e' = e)) as [-> | Hne]; [rewrite epoch_set_epoch|by rewrite epoch_set_other]. unfold tracked_frames.
    cbn [RecoveryEpoch.sent_packets RecoveryEpoch.set_sent_packets RecoveryEpoch.acked_frames RecoveryEpoch.lost_frames]. by rewrite !fmap_app, Hfr.
Qed.

(** ** The state machine *)

Inductive event :=
| OnSent (pkt : Sent.t) (e : Epoch.t) (hs : HandshakeStatus)
| OnAck (ranges : RangeSet.t) (ack_delay : Z) (e : Epoch.t) (hs : HandshakeStatus)
| OnTimeout (hs : HandshakeStatus)
| OnDiscard (e : Epoch.t) (hs : HandshakeStatus)
| OnPathChange (e : Epoch.t)
| OnRecovered (ranges : RangeSet.t) (e : Epoch.t)
| OnPing (e : Epoch.t)
| OnReadAcked (e : Epoch.t)
| OnReadLost (e : Epoch.t)
| OnPmtud (clock size : Z)
| OnDatagramSize (clock size : Z)
| OnAppLimited (v : bool)
| OnRateLimited (v : bool)
| OnAckDelay (d : Z).

(** A call at the time [now]; the result is the frames that it hands out. *)
Definition handle (now : Z) (ev : event) : M (Recovery.t S) Error (list Frame.t) :=
  match ev with
  | OnSent pkt e hs => Recovery.on_packet_sent cc pkt e hs now;; mret []
  | OnAck ranges delay e hs => _ ← Recovery.on_ack_received cc ranges delay e hs now; mret []
  | OnTimeout hs => _ ← Recovery.on_loss_detection_timeout cc hs now; mret []
  | OnDiscard e hs => on_pkt_num_space_discarded e hs now;; mret []
  | OnPathChange e => _ ← on_path_change cc e now; mret []
  | OnRecovered ranges e => on_source_symbol_ack_received metadata_to_u64 ranges e;; mret []
  | OnPing e => ping_sent e;; mret []
  | OnReadAcked e => get_acked_frames e
  | OnReadLost e => out ← get_lost_frames e; mret (reported out)
  | OnPmtud clock size => pmtud_update_max_datagram_size clock size;; mret []
  | OnDatagramSize clock size => update_max_datagram_size clock size;; mret []
  | OnAppLimited v => update_app_limited v;; mret []
  | OnRateLimited v => delivery_rate_update_app_limited v;; mret []
  | OnAckDelay d => update_max_ack_delay d;; mret []
  end.

(** What became of the frames of the space [e0]: sent or queued again by a
    probe timeout; handed out as acknowledged; handed out as lost; dropped with
    the space. *)
Record ledger := mk_ledger { l_sent : list Frame.t; l_acked : list Frame.t; l_lost : list Frame.t; l_dropped : list Frame.t }.

Definition account (e0 : Epoch.t) r ev (out : list Frame.t) r' (g : ledger) : ledger :=
  match ev with
  | OnSent pkt e _ => if decide (e0 = e) then mk_ledger (Sent.frames pkt ++ l_sent g) (l_acked g) (l_lost g) (l_dropped g) else g
  | OnTimeout _ => mk_ledger (reported (copies e0 r r') ++ l_sent g) (l_acked g) (l_lost g) (l_dropped g)
  | OnReadAcked e => if decide (e0 = e) then mk_ledger (l_sent g) (out ++ l_acked g) (l_lost g) (l_dropped g) else g
  | OnReadLost e => if decide (e0 = e) then mk_ledger (l_sent g) (l_acked g) (out ++ l_lost g) (l_dropped g) else g
  | OnDiscard e _ => if decide (e0 = e) then mk_ledger (l_sent g) (l_acked g) (l_lost g) (tracked_frames (epoch e0 r) ++ l_dropped g) else g
  | _ => g
  end.

(** The recovery state, the number of packets sent, the clock, and the ledger
    of the space [e0]. *)
Record world := mk_world { w_rec : Recovery.t S; w_sent : Z; w_now : Z; w_ledger : ledger }.

Definition sent_by ev : Z := match ev with OnSent _ _ _ => 1 | _ => 0 end.

(** What the connection respects: packet numbers grow, an ACK has a largest
    number, the configuration is within its bounds, and fewer than 32 probe
    timeouts come in a row. *)
Definition event_ok (armed : phase) (w : world) ev : Prop :=
  match ev with
  | OnSent pkt e hs => sendable armed (w_sent w) e pkt hs (w_rec w)
  | OnAck ranges delay e hs => (∃ last, ack_fine ranges last) ∧ is_u64 delay
  | OnTimeout hs => is_Some (loss_time_and_space (w_rec w)).1 ∨ pto_count (w_rec w) < 31
  | OnPmtud clock size | OnDatagramSize clock size =>
      0 <= clock <= HORIZON ∧ 0 < size <= PACKET_SIZE ∧ size * Congestion.initial_congestion_window_packets (congestion (w_rec w)) <= QUANTUM
  | OnAckDelay d => 0 <= d <= ACK_DELAY
  | _ => True
  end.

Definition next_phase ev (armed : phase) : phase :=
  match ev with OnSent pkt _ hs => sent_phase hs pkt armed | OnTimeout hs | OnDiscard _ hs => later hs armed | _ => armed end.

Inductive step (armed : phase) (e0 : Epoch.t) (w : world) : phase → world → Prop :=
| step_event now ev out r' :
    w_now w <= now <= HORIZON → event_ok armed w ev → handle now ev (w_rec w) = (Ok out, r') →
    step armed e0 w (next_phase ev armed) (mk_world r' (w_sent w + sent_by ev) now (account e0 (w_rec w) ev out r' (w_ledger w))).

(** A new connection, its congestion state made by [from_config]. *)
Inductive reachable (e0 : Epoch.t) : phase → world → Prop :=
| reachable_start armed s now delay size packets hystart pacing real_time m c :
    armed ≠ Completed → 0 <= now <= HORIZON → 0 <= delay <= ACK_DELAY → 0 < size <= PACKET_SIZE → 0 <= packets → size * packets <= QUANTUM →
    match m with Some m => is_u64 m | None => True end →
    Congestion.from_config cc now s size packets hystart pacing real_time m = Ok c →
    reachable e0 armed (mk_world (new_with_config now delay size c) 0 now (mk_ledger [] [] [] []))
| reachable_step armed w armed' w' : reachable e0 armed w → step armed e0 w armed' w' → reachable e0 armed' w'.

Definition settled (e0 : Epoch.t) (w : world) : Prop :=
  plain <$> l_sent (w_ledger w) ≡ₚ plain <$> tracked_frames (epoch e0 (w_rec w)) ++ l_acked (w_ledger w) ++ l_lost (w_ledger w) ++ l_dropped (w_ledger w).

Lemma handle_run armed e0 w now ev a l :
  rec_ok armed (w_sent w) a l (w_now w) 0 (w_rec w) → settled e0 w → w_now w <= now <= HORIZON → event_ok armed w ev →
  total (handle now ev)
    (λ out r', (∃ a' l', rec_ok (next_phase ev armed) (w_sent w + sent_by ev) a' l' now 0 r') ∧
       settled e0 (mk_world r' (w_sent w + sent_by ev) now (account e0 (w_rec w) ev out r' (w_ledger w)))) (w_rec w).
Proof.
  intros Hr Hset Hnow Hev. apply (rec_later _ _ _ _ _ now) in Hr; [|done]. destruct w as [r n t g]. cbn [w_rec w_sent w_now w_ledger] in *. unfold settled in *. cbn [w_rec w_ledger] in *.
  assert (∀ r', kept r r' → plain <$> l_sent g ≡ₚ plain <$> tracked_frames (epoch e0 r') ++ l_acked g ++ l_lost g ++ l_dropped g) as Hkept.
  { intros r' Hk. by rewrite (Hk e0). }
  assert (∀ r', tracked_frames (epoch e0 r') ≡ₚ [] ++ tracked_frames (epoch e0 r) → plain <$> l_sent g ≡ₚ plain <$> tracked_frames (epoch e0 r') ++ l_acked g ++ l_lost g ++ l_dropped g) as Hkept'.
  { intros r' Hk. by rewrite Hk. }
  assert (∀ p a' l' r', rec_ok p n a' l' now 0 r' → rec_ok p (n + 0) a' l' now 0 r') as Hsame by (intros; by rewrite Z.add_0_r).
  destruct ev; cbn [handle event_ok account sent_by w_rec w_sent next_phase] in *.
  - tstep. eapply total_mono; [by apply (on_packet_sent_run armed n a l now)|]. intros [] r' (Hr' & Ht). tstep. split; [by exists a, l|]. specialize (Ht e0).
    case_decide as He; cbn [l_sent l_acked l_lost l_dropped].
    + by rewrite Ht, fmap_app, Hset, !fmap_app, <- !(assoc_L (++)).
    + by apply Hkept'.
  - destruct Hev as [(last & Hack) Hd]. tstep. eapply total_mono; [by eapply (on_ack_received_run armed n a l now ranges last)|]. intros x r' ((a' & l' & Hr') & Hk). tstep.
    split; [exists a', l'; by apply Hsame|by apply Hkept].
  - tstep. eapply total_mono; [by apply (on_timeout_run armed n a l now)|]. intros x r' ((l' & Hr') & Ht). tstep. split; [exists a, l'; by apply Hsame|].
    cbn [l_sent l_acked l_lost l_dropped]. rewrite (Ht e0), fmap_app, Hset, !fmap_app, <- !(assoc_L (++)). done.
  - tstep. eapply total_mono; [by apply (on_discard_run armed n a l now)|]. intros [] r' (Hr' & Ht). tstep. split; [exists a, l; by apply Hsame|]. specialize (Ht e0).
    case_decide as He; cbn [l_sent l_acked l_lost l_dropped]; rewrite Ht; [|done]. rewrite app_nil_l, Hset, (Permutation_app_swap_app (tracked_frames _)).
    by rewrite (Permutation_app_swap_app (tracked_frames _) (l_lost g)).
  - tstep. eapply total_mono; [by apply (detect_lost_ok armed n a l now 0)|]. intros x r' (l' & Hr' & Hk & _). tstep. split; [exists a, l'; by apply Hsame|by apply Hkept].
  - tstep. eapply total_mono; [by apply (on_recovered_run armed n a l now 0)|]. intros [] r' (Hr' & Hk). tstep. split; [exists a, l; by apply Hsame|].
    rewrite fmap_app, (Hk e0), <- fmap_app. done.
  - tstep. eapply total_mono; [by apply (on_ping_run armed n a l now 0)|]. intros [] r' (Hr' & Hk). tstep. split; [exists a, l; by apply Hsame|by apply Hkept].
  - eapply total_mono; [by apply (on_read_acked_run armed n a l now 0)|]. intros out r' (Hr' & Ht). split; [exists a, l; by apply Hsame|]. specialize (Ht e0).
    case_decide as He; cbn [l_sent l_acked l_lost l_dropped].
    + rewrite Hset, Ht, <- !(assoc_L (++)). by rewrite (Permutation_app_swap_app out).
    + by rewrite Hset, Ht.
  - tstep. eapply total_mono; [by apply (on_read_lost_run armed n a l now 0)|]. intros out r' (Hr' & Ht). tstep. split; [exists a, l; by apply Hsame|]. specialize (Ht e0).
    case_decide as He; cbn [l_sent l_acked l_lost l_dropped].
    + rewrite Hset, Ht, <- !(assoc_L (++)). rewrite (Permutation_app_swap_app (reported out)). by rewrite (Permutation_app_swap_app (reported out)).
    + by rewrite Hset, Ht.
  - destruct Hev as (Hc & Hs & Hq). tstep. eapply total_mono; [by apply (on_pmtud_run armed n a l now 0)|]. intros [] r' (Hr' & Hk). tstep.
    split; [exists a, l; by apply Hsame|by apply Hkept].
  - destruct Hev as (Hc & Hs & Hq). unfold update_max_datagram_size. do 3 tstep. pose proof (ro_size _ _ _ _ _ _ _ Hr) as Hsz.
    assert (0 <= Congestion.initial_congestion_window_packets (congestion r)) as Hp by apply (sh_config _ _ _ _ (proj1 (ro_cong _ _ _ _ _ _ _ Hr))).
    eapply total_mono; [apply (on_pmtud_run armed n a l now 0); [done|done|lia|nia]|]. intros [] r' (Hr' & Hk). tstep.
    split; [exists a, l; by apply Hsame|by apply Hkept].
  - tstep. eapply total_mono; [by apply (on_app_limited_run armed n a l now 0)|]. intros [] r' (Hr' & Hk). tstep. split; [exists a, l; by apply Hsame|by apply Hkept].
  - tstep. eapply total_mono; [by apply (on_rate_limited_run armed n a l now 0)|]. intros [] r' (Hr' & Hk). tstep. split; [exists a, l; by apply Hsame|by apply Hkept].
  - tstep. eapply total_mono; [by apply (on_ack_delay_run armed n a l now 0)|]. intros [] r' (Hr' & Hk). tstep. split; [exists a, l; by apply Hsame|by apply Hkept].
Qed.

Lemma start_ok armed now delay size packets s hystart pacing real_time m c :
  0 <= now <= HORIZON → 0 <= delay <= ACK_DELAY → 0 < size <= PACKET_SIZE → 0 <= packets → size * packets <= QUANTUM →
  match m with Some m => is_u64 m | None => True end →
  Congestion.from_config cc now s size packets hystart pacing real_time m = Ok c →
  rec_ok armed 0 0 0 now 0 (new_with_config now delay size c).
Proof.
  intros Hnow Hd Hsize Hp Hq Hm Hc. destruct (from_config_ok cc s now size packets hystart pacing real_time m) as (c' & Hc' & Hok); [done..|].
  rewrite Hc in Hc'. injection Hc' as <-. change ACK_DELAY with 16384000000 in *.
  split; try done.
  - intros e. unfold delivered_bytes. cbn. destruct e; apply default_epoch_ok.
  - exists [], now. split; [done|]. split; [constructor|]. apply new_rtt_ok; [by vm_compute|]. unfold is_duration. change DURATION_MAX with 18446744073709551615999999999. lia.
  - cbn. change ACK_DELAY with 16384000000. lia.
  - by destruct e.
  - intros _. split; [|cbn; lia]. intros e Hi. by destruct e; destruct Hi.
Qed.

Lemma reachable_ok armed e0 w : reachable e0 armed w → (∃ a l, rec_ok armed (w_sent w) a l (w_now w) 0 (w_rec w)) ∧ settled e0 w.
Proof.
  induction 1 as [armed s now delay size packets hystart pacing real_time m c _ Hnow Hd Hsize Hp Hq Hm Hc|armed w armed' w' _ ((a & l & Hr) & Hs) Hstep].
  - split; [exists 0, 0; by eapply start_ok|]. unfold settled, tracked_frames. cbn. by destruct e0.
  - destruct Hstep as [now ev out r' Hnow Hev Hrun]. pose proof (handle_run armed e0 w now ev a l Hr Hs Hnow Hev) as Hok.
    unfold total, wp in Hok. by rewrite Hrun in Hok.
Qed.

(** C10. Whatever is sent, acknowledged, lost, timed out or reconfigured, in any
    order, no call on the recovery state panics, as long as fewer than 32 probe
    timeouts come in a row with no acknowledgement between them (the 32nd does,
    [timeouts_panic]) and the arguments are those of a connection ([event_ok]);
    after each call the bytes in flight are those of the packets that are neither
    acknowledged nor lost, the counters of the packet number spaces agree with
    their packets, and these are in the order of their numbers. *)
Theorem recovery_invariant armed e0 w now ev :
  reachable e0 armed w → w_now w <= now <= HORIZON → event_ok armed w ev →
  ∃ out r', handle now ev (w_rec w) = (Ok out, r') ∧ bytes_in_flight r' = over weight r' ∧
    ∀ e, RecoveryEpoch.in_flight_count (epoch e r') = zsum flying (sent_in e r') ∧ StronglySorted Z.lt (numbers (sent_in e r')).
Proof.
  intros Hw Hnow Hev. destruct (reachable_ok _ _ _ Hw) as ((a & l & Hr) & Hs).
  destruct (total_run _ _ _ (handle_run armed e0 w now ev a l Hr Hs Hnow Hev)) as (out & r' & Hrun & (a' & l' & Hr') & _).
  exists out, r'. split; [done|]. destruct Hr'. split; [lia|]. intros e. destruct (ro_epoch0 e) as [[_ Hso] Hco _ _]. by split.
Qed.

(** C11. No frame is forgotten or reported twice: at any time the frames that
    were sent in a packet number space, and those that probe timeouts queued
    again, are those of the packets kept, those reported as acknowledged, those
    reported as lost, and those dropped with the space, each as often as it was
    sent. *)
Theorem frames_conserved armed e0 w : reachable e0 armed w →
  plain <$> l_sent (w_ledger w) ≡ₚ
  plain <$> (frames_of (sent_in e0 (w_rec w)) ++ RecoveryEpoch.acked_frames (epoch e0 (w_rec w)) ++ reported (RecoveryEpoch.lost_frames (epoch e0 (w_rec w)))) ++
    l_acked (w_ledger w) ++ l_lost (w_ledger w) ++ l_dropped (w_ledger w).
Proof. intros Hw. by destruct (reachable_ok _ _ _ Hw) as [_ Hs]. Qed.

(** C22. The loss detection timer is armed while it is needed, as long as every
    packet that counts as in flight elicits an acknowledgement.  Before the
    handshake completes: whenever a packet of the Initial or the Handshake space
    is in flight.  From the first packet in flight that is sent, the first
    timeout or the first discarded space with a completed handshake on: whenever
    any byte is in flight.  Then the connection cannot wait forever. *)
Theorem loss_timer_armed armed e0 w : reachable e0 armed w → armed ≠ Unknown → 0 < bytes_in_flight (w_rec w) →
  armed = Completed ∨ ¬ idle Epoch.Initial (w_rec w) ∨ ¬ idle Epoch.Handshake (w_rec w) → is_Some (loss_detection_timer (w_rec w)).
Proof. intros Hw Harm Hb Hu. destruct (reachable_ok _ _ _ Hw) as ((a & l & Hr) & _). by apply (ro_armed _ _ _ _ _ _ _ Hr). Qed.
End recovery.

(** ** Concrete runs *)

#[local] Existing Instance ToyCoding.coding.
#[local] Existing Instance ToyOrders.orders.

Module RecovRuns.
Import Recovery.
(** A Reno connection, its first packets of the application space, and times in
    milliseconds. *)
Definition ms (t : Z) : Z := t * 1000000.
Definition metadata : list Z → Z := foldl (λ x y, x * 256 + y) 0.
Definition complete : HandshakeStatus := mk_status true true true.
Definition fresh_cc : result Error (Congestion.t unit) := Congestion.from_config Reno.RENO 0 () 1200 10 true true false None.
Definition fresh : Recovery.t unit :=
  match fresh_cc with Ok c => new_with_config 0 (ms 25) 1200 c | _ => new_with_config 0 0 0 (Congestion.mk () (Hystart.new false) (Pacer.mk false 0 0 0 0 0 0 None 0 None) PRR.default false 0 0 0 0 0 None false (Rate.default 0) 0 None 0 None None 0 0 0) end.
Definition packet (num size : Z) (frames : list Frame.t) : Sent.t := Sent.mk num frames 0 None None size true true 0 0 0 false 0 0 true false.
Definition no_frames : ledger := mk_ledger [] [] [] [].
Definition app : Epoch.t := Epoch.Application.
Definition after (now : Z) (ev : event) (w : world (S := unit)) : world :=
  match handle Reno.RENO metadata now ev (w_rec w) with
  | (Ok out, r') => mk_world r' (w_sent w + sent_by ev) now (account app (w_rec w) ev out r' (w_ledger w))
  | _ => w
  end.
Definition start : world := mk_world fresh 0 0 no_frames.
Definition one : world := after (ms 1) (OnSent (packet 0 1200 [Frame.Stream 0 (RangeBuf.from [1; 2] 0 false)]) app complete) start.
Definition five : world := foldl (λ w i, after (ms 2) (OnSent (packet i 1000 [Frame.MaxData i]) app complete) w) one [1; 2; 3; 4].
Definition acked : world := after (ms 60) (OnAck (RangeSet.Inline (InlineRangeSet.mk [(4, 5)] 68)) 0 app complete) five.

Lemma after_reachable armed now ev w :
  reachable Reno.RENO metadata app armed w → w_now w <= now <= HORIZON → event_ok armed w ev →
  reachable Reno.RENO metadata app (next_phase ev armed) (after now ev w).
Proof.
  intros Hw Hnow Hev. destruct (reachable_ok _ _ _ _ _ Hw) as ((a & l & Hr) & Hs).
  destruct (total_run _ _ _ (handle_run Reno.RENO metadata armed app w now ev a l Hr Hs Hnow Hev)) as (out & r' & Hrun & _).
  unfold after. rewrite Hrun. eapply reachable_step; [exact Hw|]. by eapply step_event.
Qed.

(** When the handshake has completed. *)
Lemma completed_reachable now ev w : next_phase ev Completed = Completed → reachable Reno.RENO metadata app Completed w → w_now w <= now <= HORIZON →
  event_ok Completed w ev → reachable Reno.RENO metadata app Completed (after now ev w).
Proof. intros E Hw Hnow Hev. rewrite <- E. by apply after_reachable. Qed.

Lemma start_reachable : reachable Reno.RENO metadata app Handshaking start.
Proof.
  destruct fresh_cc as [c| |] eqn:E; [|by vm_compute in E..].
  replace start with (mk_world (new_with_config 0 (ms 25) 1200 c) 0 0 no_frames) by (unfold start, fresh; by rewrite E).
  eapply reachable_start; [..|exact E]; by vm_compute.
Qed.

(** The first packet of the Initial space, with no keys for the next one. *)
Definition hello : world := after (ms 1) (OnSent (packet 0 1200 []) Epoch.Initial (mk_status false false false)) start.
Lemma hello_reachable : reachable Reno.RENO metadata app Handshaking hello.
Proof.
  apply (after_reachable Handshaking (ms 1) (OnSent (packet 0 1200 []) Epoch.Initial (mk_status false false false))); [exact start_reachable|by vm_compute|].
  split; cbn [packet Sent.size Sent.pkt_num Sent.time_acked Sent.time_lost Sent.pmtud Sent.in_flight Sent.ack_eliciting]; try done.
Qed.

Lemma one_reachable : reachable Reno.RENO metadata app Completed one.
Proof.
  apply (after_reachable Handshaking (ms 1) (OnSent (packet 0 1200 [Frame.Stream 0 (RangeBuf.from [1; 2] 0 false)]) app complete)); [exact start_reachable|by vm_compute|].
  split; cbn [packet Sent.size Sent.pkt_num Sent.time_acked Sent.time_lost Sent.pmtud Sent.in_flight Sent.ack_eliciting]; try done.
Qed.

Lemma five_reachable : reachable Reno.RENO metadata app Completed five.
Proof.
  unfold five. cbn [foldl]. do 4 (apply completed_reachable;
    [done| |by vm_compute|split; cbn [packet Sent.size Sent.pkt_num Sent.time_acked Sent.time_lost Sent.pmtud Sent.in_flight Sent.ack_eliciting]; try done; vm_compute; repeat constructor]).
  exact one_reachable.
Qed.

Definition ack_four : RangeSet.t := RangeSet.Inline (InlineRangeSet.mk [(4, 5)] 68).
Lemma ack_four_fine : ack_fine ack_four 4.
Proof. split; [done|]. split; [done|]. by apply Forall_singleton. Qed.

Lemma acked_reachable : reachable Reno.RENO metadata app Completed acked.
Proof. apply completed_reachable; [done|exact five_reachable|by vm_compute|]. split; [by exists 4; apply ack_four_fine|done]. Qed.
End RecovRuns.

Lemma recovery_invariant_witness :
  ∃ out r', handle Reno.RENO RecovRuns.metadata (RecovRuns.ms 60) (OnAck RecovRuns.ack_four 0 RecovRuns.app RecovRuns.complete) (w_rec RecovRuns.five) = (Ok out, r') ∧
    Recovery.bytes_in_flight r' = over weight r' ∧
    ∀ e, RecoveryEpoch.in_flight_count (Recovery.epoch e r') = zsum flying (sent_in e r') ∧ StronglySorted Z.lt (numbers (sent_in e r')).
Proof.
  apply (recovery_invariant Reno.RENO RecovRuns.metadata Completed RecovRuns.app RecovRuns.five); [exact RecovRuns.five_reachable|by vm_compute|].
  split; [by exists 4; apply RecovRuns.ack_four_fine|done].
Defined.

Lemma frames_conserved_witness :
  plain <$> l_sent (w_ledger RecovRuns.acked) ≡ₚ
  plain <$> (frames_of (sent_in RecovRuns.app (w_rec RecovRuns.acked)) ++ RecoveryEpoch.acked_frames (Recovery.epoch RecovRuns.app (w_rec RecovRuns.acked)) ++
      reported (RecoveryEpoch.lost_frames (Recovery.epoch RecovRuns.app (w_rec RecovRuns.acked)))) ++
    l_acked (w_ledger RecovRuns.acked) ++ l_lost (w_ledger RecovRuns.acked) ++ l_dropped (w_ledger RecovRuns.acked).
Proof. apply (frames_conserved Reno.RENO RecovRuns.metadata Completed RecovRuns.app RecovRuns.acked). exact RecovRuns.acked_reachable. Defined.

Lemma loss_timer_armed_witness :
  is_Some (Recovery.loss_detection_timer (w_rec RecovRuns.hello)) ∧ is_Some (Recovery.loss_detection_timer (w_rec RecovRuns.acked)).
Proof.
  split.
  - apply (loss_timer_armed Reno.RENO RecovRuns.metadata Handshaking RecovRuns.app RecovRuns.hello); [exact RecovRuns.hello_reachable|done|by vm_compute|].
    right. left. unfold idle. by vm_compute.
  - apply (loss_timer_armed Reno.RENO RecovRuns.metadata Completed RecovRuns.app RecovRuns.acked); [exact RecovRuns.acked_reachable|done|by vm_compute|by left].
Defined.

(** The application space before the ACK, with its largest number set. *)
Definition five_space : RecoveryEpoch.t := RecoveryEpoch.set_largest_acked_packet (Some 4) (Recovery.epoch Epoch.Application (w_rec RecovRuns.five)).

Lemma five_space_ok : epoch_ok 0 five_space.
Proof.
  destruct (reachable_ok _ _ _ _ _ RecovRuns.five_reachable) as ((a & l & Hr) & _). pose proof (ro_epoch _ _ _ _ _ _ _ _ Hr Epoch.Application) as He.
  apply largest_set_ok; [by vm_compute|]. assert (delivered_bytes (w_rec RecovRuns.five) = 0) as E by by vm_compute. rewrite E in He. exact He.
Qed.

Lemma ack_exact_witness :
  let stats := Recovery.rtt_stats (w_rec RecovRuns.five) in
  ∃ a e', RecoveryEpoch.detect_and_remove_acked_packets (RecovRuns.ms 60) RecovRuns.ack_four stats five_space = Ok (a, e') ∧
    Acked.pkt_num <$> RecoveryEpoch.newly_acked a = [4] ∧ RecoveryEpoch.acked_frames e' = [Frame.MaxData 4] ∧ RecoveryEpoch.acked_bytes a = 1000.
Proof.
  intros stats. assert (ranges_wf (RangeSet.iter RecovRuns.ack_four)) as Hwf by (change (ranges_wf [(4, 5)]); solve_ranges).
  pose proof (ack_exact 0 (RecovRuns.ms 60) RecovRuns.ack_four stats five_space 4 five_space_ok eq_refl Hwf (proj2 (proj2 RecovRuns.ack_four_fine))
    ltac:(vm_compute; discriminate) ltac:(vm_compute; discriminate) ltac:(vm_compute; discriminate) ltac:(vm_compute; split; discriminate))
    as (a & e' & Hrun & _ & Hn & Hf & Hb & _).
  exists a, e'. split_and!; [exact Hrun|rewrite Hn; by vm_compute|rewrite Hf; by vm_compute|rewrite Hb; by vm_compute].
Defined.

Lemma loss_exact_witness :
  ∃ l e', RecoveryEpoch.detect_lost_packets (RecovRuns.ms 75) 3 (RecovRuns.ms 60) five_space = Ok (l, e') ∧
    reported (RecoveryEpoch.lost_frames e') = [Frame.Stream 0 (RangeBuf.from [1; 2] 0 false); Frame.MaxData 1] ∧
    RecoveryEpoch.loss_time e' = Some (RecovRuns.ms 77) ∧ RecoveryEpoch.lost_bytes l = 2200.
Proof.
  assert (StronglySorted Z.le (Sent.time_sent <$> RecoveryEpoch.sent_packets five_space)) as Hs by (vm_compute; repeat constructor; discriminate).
  pose proof (loss_exact 0 (RecovRuns.ms 75) 3 (RecovRuns.ms 60) five_space five_space_ok Hs
    ltac:(vm_compute; split; discriminate) ltac:(vm_compute; split; discriminate) ltac:(vm_compute; discriminate) ltac:(vm_compute; discriminate))
    as (l & e' & Hrun & _ & Hf & _ & Ht & Hb & _).
  exists l, e'. split_and!; [exact Hrun|rewrite Hf; by vm_compute|rewrite Ht; by vm_compute|rewrite Hb; by vm_compute].
Defined.

(** A second loss of the same flight does not shrink the window again. *)
Lemma reno_halves_once_witness :
  let c := Recovery.congestion RecovRuns.fresh in
  let lost := RecovRuns.packet 3 1200 [] in
  ∃ c', (Congestion.ops_congestion_event Reno.RENO 6000 1200 lost (RecovRuns.ms 60);; Congestion.ops_congestion_event Reno.RENO 4800 1200 lost (RecovRuns.ms 61)) c = (Ok (), c') ∧
    Congestion.congestion_window c' = Z.max (Congestion.congestion_window c / 2) (2 * Congestion.max_datagram_size c) ∧
    Congestion.ssthresh c' = Congestion.congestion_window c' ∧ Congestion.bytes_acked_ca c' = Congestion.congestion_window c' / 2 ∧
    Congestion.congestion_recovery_start_time c' = Some (RecovRuns.ms 60).
Proof. intros c lost. apply (reno_halves_once 6000 1200 lost (RecovRuns.ms 60) 4800 1200 lost (RecovRuns.ms 61) c); [by vm_compute..|reflexivity|by vm_compute]. Defined.

(** After 31 timeouts in a row the next one overflows [2_u32.pow]. *)
Lemma timeouts_panic :
  let w := Nat.iter 31 (RecovRuns.after (RecovRuns.ms 100) (OnTimeout RecovRuns.complete)) RecovRuns.one in
  Recovery.pto_count (w_rec w) = 31 ∧ (handle Reno.RENO RecovRuns.metadata (RecovRuns.ms 100) (OnTimeout RecovRuns.complete) (w_rec w)).1 = Panic.
Proof. by vm_compute. Qed.
