(* ===== verification/Streams.v ===== *)
(** * Streams of a connection: [quiche/src/stream/mod.rs]

    [Stream], the priority keys, and [StreamMap]: the streams of a connection,
    the stream limits of both sides, and the queues of readable, writable and
    flushable streams ordered by priority.  A priority key is shared between a
    stream and the queues; its address is the identity of the shared
    allocation, and a queue holds the key exactly when its intrusive link is
    set. *)
From Stdlib Require Import Sorted.
From stdpp Require Import gmap.
From S2P Require Import Prelude Orders OctetsLib Ranges FlowCtl RangeBufs RecvBufs SendBufs Params.

Definition DEFAULT_URGENCY : Z := 127.

Definition is_local (stream_id : Z) (is_server : bool) : bool :=
  Z.land stream_id 0x1 =? Z.b2z is_server.
Definition is_bidi (stream_id : Z) : bool := Z.land stream_id 0x2 =? 0.

(** ** Priority keys *)

Module StreamPriorityKey.
Record t := mk { urgency : Z; incremental : bool; id : Z; addr : Z }.

Definition default (a : Z) : t := mk DEFAULT_URGENCY true 0 a.

Definition eq (self other : t) : bool := id self =? id other.

Definition partial_cmp (self other : t) : option comparison :=
  if id self =? id other then Some Eq
  else if negb (urgency self =? urgency other) then Some (Z.compare (urgency self) (urgency other))
  else if negb (incremental self) && negb (incremental other) then
    Some (Z.compare (id self) (id other))
  else if incremental self && negb (incremental other) then Some Gt
  else if negb (incremental self) && incremental other then Some Lt
  else Some Gt.

Definition cmp (self other : t) : result Error comparison :=
  match partial_cmp self other with Some c => Ok c | None => Panic end.

(** [self < other] *)
Definition less (self other : t) : bool :=
  match partial_cmp self other with Some Lt => true | _ => false end.
End StreamPriorityKey.

#[export] Instance StreamPriorityKey_eq_dec : EqDecision StreamPriorityKey.t.
Proof. solve_decision. Defined.

(** ** [Stream] *)

Module Stream.
Record t := mk {
  recv : RecvBuf.t;
  send : SendBuf.t;
  send_lowat : Z;
  bidi : bool;
  local : bool;
  urgency : Z;
  incremental : bool;
  priority_key : StreamPriorityKey.t
}.

Definition set_recv v s := mk v (send s) (send_lowat s) (bidi s) (local s) (urgency s) (incremental s) (priority_key s).
Definition set_send v s := mk (recv s) v (send_lowat s) (bidi s) (local s) (urgency s) (incremental s) (priority_key s).
Definition set_send_lowat v s := mk (recv s) (send s) v (bidi s) (local s) (urgency s) (incremental s) (priority_key s).
Definition set_bidi v s := mk (recv s) (send s) (send_lowat s) v (local s) (urgency s) (incremental s) (priority_key s).
Definition set_local v s := mk (recv s) (send s) (send_lowat s) (bidi s) v (urgency s) (incremental s) (priority_key s).
Definition set_urgency v s := mk (recv s) (send s) (send_lowat s) (bidi s) (local s) v (incremental s) (priority_key s).
Definition set_incremental v s := mk (recv s) (send s) (send_lowat s) (bidi s) (local s) (urgency s) v (priority_key s).
Definition set_priority_key v s := mk (recv s) (send s) (send_lowat s) (bidi s) (local s) (urgency s) (incremental s) v.

(** The key is allocated at the address [a]. *)
Definition new (id max_rx_data max_tx_data : Z) (bidi local : bool) (max_window a : Z) : t :=
  let d := StreamPriorityKey.default a in
  let priority_key := StreamPriorityKey.mk (StreamPriorityKey.urgency d)
                        (StreamPriorityKey.incremental d) id a in
  mk (RecvBuf.new max_rx_data max_window) (SendBuf.new max_tx_data) 1 bidi local
     (StreamPriorityKey.urgency priority_key) (StreamPriorityKey.incremental priority_key) priority_key.

Definition is_readable (s : t) : bool := RecvBuf.ready (recv s).

(** The sum is computed only when the first two conditions hold. *)
Definition is_writable (s : t) : result Error bool :=
  if negb (SendBuf.is_shutdown (send s)) && negb (SendBuf.is_fin (send s)) then
    n ← uadd (SendBuf.off_back (send s)) (send_lowat s);
    Ok (n <? SendBuf.max_off (send s))
  else Ok false.

Definition is_flushable (s : t) : bool :=
  let off_front := SendBuf.off_front (send s) in
  negb (SendBuf.is_empty (send s)) &&
  (off_front <? SendBuf.off_back (send s)) && (off_front <? SendBuf.max_off (send s)).

Definition is_complete (s : t) : bool :=
  match bidi s, local s with
  | true, _ => RecvBuf.is_fin (recv s) && SendBuf.is_complete (send s)
  | false, true => SendBuf.is_complete (send s)
  | false, false => RecvBuf.is_fin (recv s)
  end.
End Stream.

(** ** [StreamIter] *)

Module StreamIter.
Record t := mk { streams : list Z; index : nat }.

Definition from `{StdOrders} (s : gset Z) : t := mk (hash_iter s) 0.
Definition next (i : t) : option Z * t :=
  match streams i !! index i with
  | Some v => (Some v, mk (streams i) (S (index i)))
  | None => (None, i)
  end.
Definition len (i : t) : result Error Z := usub (zlen (streams i)) (Z.of_nat (index i)).
End StreamIter.

(** ** [StreamMap] *)

Module StreamMap.
Module K := StreamPriorityKey.
Abbreviation key := StreamPriorityKey.t.

(** [next_addr] is the address of the next allocation of a key. *)
Record t := mk {
  streams : gmap Z Stream.t;
  collected : gset Z;
  peer_max_streams_bidi : Z;
  peer_max_streams_uni : Z;
  peer_opened_streams_bidi : Z;
  peer_opened_streams_uni : Z;
  local_max_streams_bidi : Z;
  local_max_streams_bidi_next : Z;
  local_max_streams_uni : Z;
  local_max_streams_uni_next : Z;
  local_opened_streams_bidi : Z;
  local_opened_streams_uni : Z;
  flushable : list key;
  readable : list key;
  writable : list key;
  almost_full : gset Z;
  blocked : gmap Z Z;
  reset : gmap Z (Z * Z);
  stopped : gmap Z Z;
  max_stream_window : Z;
  next_addr : Z
}.

Definition set_streams v m := mk v (collected m) (peer_max_streams_bidi m) (peer_max_streams_uni m) (peer_opened_streams_bidi m) (peer_opened_streams_uni m) (local_max_streams_bidi m) (local_max_streams_bidi_next m) (local_max_streams_uni m) (local_max_streams_uni_next m) (local_opened_streams_bidi m) (local_opened_streams_uni m) (flushable m) (readable m) (writable m) (almost_full m) (blocked m) (reset m) (stopped m) (max_stream_window m) (next_addr m).
Definition set_collected v m := mk (streams m) v (peer_max_streams_bidi m) (peer_max_streams_uni m) (peer_opened_streams_bidi m) (peer_opened_streams_uni m) (local_max_streams_bidi m) (local_max_streams_bidi_next m) (local_max_streams_uni m) (local_max_streams_uni_next m) (local_opened_streams_bidi m) (local_opened_streams_uni m) (flushable m) (readable m) (writable m) (almost_full m) (blocked m) (reset m) (stopped m) (max_stream_window m) (next_addr m).
Definition set_peer_max_streams_bidi v m := mk (streams m) (collected m) v (peer_max_streams_uni m) (peer_opened_streams_bidi m) (peer_opened_streams_uni m) (local_max_streams_bidi m) (local_max_streams_bidi_next m) (local_max_streams_uni m) (local_max_streams_uni_next m) (local_opened_streams_bidi m) (local_opened_streams_uni m) (flushable m) (readable m) (writable m) (almost_full m) (blocked m) (reset m) (stopped m) (max_stream_window m) (next_addr m).
Definition set_peer_max_streams_uni v m := mk (streams m) (collected m) (peer_max_streams_bidi m) v (peer_opened_streams_bidi m) (peer_opened_streams_uni m) (local_max_streams_bidi m) (local_max_streams_bidi_next m) (local_max_streams_uni m) (local_max_streams_uni_next m) (local_opened_streams_bidi m) (local_opened_streams_uni m) (flushable m) (readable m) (writable m) (almost_full m) (blocked m) (reset m) (stopped m) (max_stream_window m) (next_addr m).
Definition set_peer_opened_streams_bidi v m := mk (streams m) (collected m) (peer_max_streams_bidi m) (peer_max_streams_uni m) v (peer_opened_streams_uni m) (local_max_streams_bidi m) (local_max_streams_bidi_next m) (local_max_streams_uni m) (local_max_streams_uni_next m) (local_opened_streams_bidi m) (local_opened_streams_uni m) (flushable m) (readable m) (writable m) (almost_full m) (blocked m) (reset m) (stopped m) (max_stream_window m) (next_addr m).
Definition set_peer_opened_streams_uni v m := mk (streams m) (collected m) (peer_max_streams_bidi m) (peer_max_streams_uni m) (peer_opened_streams_bidi m) v (local_max_streams_bidi m) (local_max_streams_bidi_next m) (local_max_streams_uni m) (local_max_streams_uni_next m) (local_opened_streams_bidi m) (local_opened_streams_uni m) (flushable m) (readable m) (writable m) (almost_full m) (blocked m) (reset m) (stopped m) (max_stream_window m) (next_addr m).
Definition set_local_max_streams_bidi v m := mk (streams m) (collected m) (peer_max_streams_bidi m) (peer_max_streams_uni m) (peer_opened_streams_bidi m) (peer_opened_streams_uni m) v (local_max_streams_bidi_next m) (local_max_streams_uni m) (local_max_streams_uni_next m) (local_opened_streams_bidi m) (local_opened_streams_uni m) (flushable m) (readable m) (writable m) (almost_full m) (blocked m) (reset m) (stopped m) (max_stream_window m) (next_addr m).
Definition set_local_max_streams_bidi_next v m := mk (streams m) (collected m) (peer_max_streams_bidi m) (peer_max_streams_uni m) (peer_opened_streams_bidi m) (peer_opened_streams_uni m) (local_max_streams_bidi m) v (local_max_streams_uni m) (local_max_streams_uni_next m) (local_opened_streams_bidi m) (local_opened_streams_uni m) (flushable m) (readable m) (writable m) (almost_full m) (blocked m) (reset m) (stopped m) (max_stream_window m) (next_addr m).
Definition set_local_max_streams_uni v m := mk (streams m) (collected m) (peer_max_streams_bidi m) (peer_max_streams_uni m) (peer_opened_streams_bidi m) (peer_opened_streams_uni m) (local_max_streams_bidi m) (local_max_streams_bidi_next m) v (local_max_streams_uni_next m) (local_opened_streams_bidi m) (local_opened_streams_uni m) (flushable m) (readable m) (writable m) (almost_full m) (blocked m) (reset m) (stopped m) (max_stream_window m) (next_addr m).
Definition set_local_max_streams_uni_next v m := mk (streams m) (collected m) (peer_max_streams_bidi m) (peer_max_streams_uni m) (peer_opened_streams_bidi m) (peer_opened_streams_uni m) (local_max_streams_bidi m) (local_max_streams_bidi_next m) (local_max_streams_uni m) v (local_opened_streams_bidi m) (local_opened_streams_uni m) (flushable m) (readable m) (writable m) (almost_full m) (blocked m) (reset m) (stopped m) (max_stream_window m) (next_addr m).
Definition set_local_opened_streams_bidi v m := mk (streams m) (collected m) (peer_max_streams_bidi m) (peer_max_streams_uni m) (peer_opened_streams_bidi m) (peer_opened_streams_uni m) (local_max_streams_bidi m) (local_max_streams_bidi_next m) (local_max_streams_uni m) (local_max_streams_uni_next m) v (local_opened_streams_uni m) (flushable m) (readable m) (writable m) (almost_full m) (blocked m) (reset m) (stopped m) (max_stream_window m) (next_addr m).
Definition set_local_opened_streams_uni v m := mk (streams m) (collected m) (peer_max_streams_bidi m) (peer_max_streams_uni m) (peer_opened_streams_bidi m) (peer_opened_streams_uni m) (local_max_streams_bidi m) (local_max_streams_bidi_next m) (local_max_streams_uni m) (local_max_streams_uni_next m) (local_opened_streams_bidi m) v (flushable m) (readable m) (writable m) (almost_full m) (blocked m) (reset m) (stopped m) (max_stream_window m) (next_addr m).
Definition set_flushable v m := mk (streams m) (collected m) (peer_max_streams_bidi m) (peer_max_streams_uni m) (peer_opened_streams_bidi m) (peer_opened_streams_uni m) (local_max_streams_bidi m) (local_max_streams_bidi_next m) (local_max_streams_uni m) (local_max_streams_uni_next m) (local_opened_streams_bidi m) (local_opened_streams_uni m) v (readable m) (writable m) (almost_full m) (blocked m) (reset m) (stopped m) (max_stream_window m) (next_addr m).
Definition set_readable v m := mk (streams m) (collected m) (peer_max_streams_bidi m) (peer_max_streams_uni m) (peer_opened_streams_bidi m) (peer_opened_streams_uni m) (local_max_streams_bidi m) (local_max_streams_bidi_next m) (local_max_streams_uni m) (local_max_streams_uni_next m) (local_opened_streams_bidi m) (local_opened_streams_uni m) (flushable m) v (writable m) (almost_full m) (blocked m) (reset m) (stopped m) (max_stream_window m) (next_addr m).
Definition set_writable v m := mk (streams m) (collected m) (peer_max_streams_bidi m) (peer_max_streams_uni m) (peer_opened_streams_bidi m) (peer_opened_streams_uni m) (local_max_streams_bidi m) (local_max_streams_bidi_next m) (local_max_streams_uni m) (local_max_streams_uni_next m) (local_opened_streams_bidi m) (local_opened_streams_uni m) (flushable m) (readable m) v (almost_full m) (blocked m) (reset m) (stopped m) (max_stream_window m) (next_addr m).
Definition set_almost_full v m := mk (streams m) (collected m) (peer_max_streams_bidi m) (peer_max_streams_uni m) (peer_opened_streams_bidi m) (peer_opened_streams_uni m) (local_max_streams_bidi m) (local_max_streams_bidi_next m) (local_max_streams_uni m) (local_max_streams_uni_next m) (local_opened_streams_bidi m) (local_opened_streams_uni m) (flushable m) (readable m) (writable m) v (blocked m) (reset m) (stopped m) (max_stream_window m) (next_addr m).
Definition set_blocked v m := mk (streams m) (collected m) (peer_max_streams_bidi m) (peer_max_streams_uni m) (peer_opened_streams_bidi m) (peer_opened_streams_uni m) (local_max_streams_bidi m) (local_max_streams_bidi_next m) (local_max_streams_uni m) (local_max_streams_uni_next m) (local_opened_streams_bidi m) (local_opened_streams_uni m) (flushable m) (readable m) (writable m) (almost_full m) v (reset m) (stopped m) (max_stream_window m) (next_addr m).
Definition set_reset v m := mk (streams m) (collected m) (peer_max_streams_bidi m) (peer_max_streams_uni m) (peer_opened_streams_bidi m) (peer_opened_streams_uni m) (local_max_streams_bidi m) (local_max_streams_bidi_next m) (local_max_streams_uni m) (local_max_streams_uni_next m) (local_opened_streams_bidi m) (local_opened_streams_uni m) (flushable m) (readable m) (writable m) (almost_full m) (blocked m) v (stopped m) (max_stream_window m) (next_addr m).
Definition set_stopped v m := mk (streams m) (collected m) (peer_max_streams_bidi m) (peer_max_streams_uni m) (peer_opened_streams_bidi m) (peer_opened_streams_uni m) (local_max_streams_bidi m) (local_max_streams_bidi_next m) (local_max_streams_uni m) (local_max_streams_uni_next m) (local_opened_streams_bidi m) (local_opened_streams_uni m) (flushable m) (readable m) (writable m) (almost_full m) (blocked m) (reset m) v (max_stream_window m) (next_addr m).
Definition set_max_stream_window v m := mk (streams m) (collected m) (peer_max_streams_bidi m) (peer_max_streams_uni m) (peer_opened_streams_bidi m) (peer_opened_streams_uni m) (local_max_streams_bidi m) (local_max_streams_bidi_next m) (local_max_streams_uni m) (local_max_streams_uni_next m) (local_opened_streams_bidi m) (local_opened_streams_uni m) (flushable m) (readable m) (writable m) (almost_full m) (blocked m) (reset m) (stopped m) v (next_addr m).
Definition set_next_addr v m := mk (streams m) (collected m) (peer_max_streams_bidi m) (peer_max_streams_uni m) (peer_opened_streams_bidi m) (peer_opened_streams_uni m) (local_max_streams_bidi m) (local_max_streams_bidi_next m) (local_max_streams_uni m) (local_max_streams_uni_next m) (local_opened_streams_bidi m) (local_opened_streams_uni m) (flushable m) (readable m) (writable m) (almost_full m) (blocked m) (reset m) (stopped m) (max_stream_window m) v.

Definition new (max_streams_bidi max_streams_uni max_stream_window : Z) : t :=
  mk ∅ ∅ 0 0 0 0 max_streams_bidi max_streams_bidi max_streams_uni max_streams_uni 0 0
     [] [] [] ∅ ∅ ∅ ∅ max_stream_window 0.

Definition get (id : Z) (m : t) : option Stream.t := streams m !! id.

(** [*self.get_mut(id)? = f(..)] *)
Definition update (id : Z) (f : Stream.t → Stream.t) (m : t) : t := set_streams (alter f id (streams m)) m.

(** *** The priority queues *)

Definition is_linked (k : key) (q : list key) : bool := bool_decide (K.addr k ∈ K.addr <$> q).

(** [RBTree::insert] panics when the element is linked. *)
Definition link `{RBTree} (k : key) (q : list key) : result Error (list key) :=
  if is_linked k q then Panic else Ok (rb_insert K.less k q).

(** [cursor_mut_from_ptr] and [remove] *)
Definition unlink (k : key) (q : list key) : list key := List.filter (λ k', negb (K.addr k' =? K.addr k)) q.

Section queues.
Context `{RBTree}.

Definition insert_readable (k : key) : M t Error unit :=
  m ← Prelude.get;
  if negb (is_linked k (readable m)) then
    q ← lift (link k (readable m)); modify (set_readable q)
  else mret ().
Definition insert_writable (k : key) : M t Error unit :=
  m ← Prelude.get;
  if negb (is_linked k (writable m)) then
    q ← lift (link k (writable m)); modify (set_writable q)
  else mret ().
Definition insert_flushable (k : key) : M t Error unit :=
  m ← Prelude.get;
  if negb (is_linked k (flushable m)) then
    q ← lift (link k (flushable m)); modify (set_flushable q)
  else mret ().
End queues.

Definition remove_readable (k : key) (m : t) : t :=
  if negb (is_linked k (readable m)) then m else set_readable (unlink k (readable m)) m.
Definition remove_writable (k : key) (m : t) : t :=
  if negb (is_linked k (writable m)) then m else set_writable (unlink k (writable m)) m.
Definition remove_flushable (k : key) (m : t) : t :=
  if negb (is_linked k (flushable m)) then m else set_flushable (unlink k (flushable m)) m.

Definition peek_flushable (m : t) : option key := head (flushable m).

Definition update_priority `{RBTree} (old new : key) : M t Error unit :=
  m ← Prelude.get;
  (if is_linked old (readable m) then
     modify (remove_readable old);;
     m ← Prelude.get; q ← lift (link new (readable m)); modify (set_readable q)
   else mret ());;
  m ← Prelude.get;
  (if is_linked old (writable m) then
     modify (remove_writable old);;
     m ← Prelude.get; q ← lift (link new (writable m)); modify (set_writable q)
   else mret ());;
  m ← Prelude.get;
  (if is_linked old (flushable m) then
     modify (remove_flushable old);;
     m ← Prelude.get; q ← lift (link new (flushable m)); modify (set_flushable q)
   else mret ()).

(** *** Opening and dropping streams *)

Definition initial_limits (local_params peer_params : TransportParams.t) (local bidi : bool) : Z * Z :=
  match local, bidi with
  | true, true => (TransportParams.initial_max_stream_data_bidi_local local_params,
                   TransportParams.initial_max_stream_data_bidi_remote peer_params)
  | true, false => (0, TransportParams.initial_max_stream_data_uni peer_params)
  | false, true => (TransportParams.initial_max_stream_data_bidi_remote local_params,
                    TransportParams.initial_max_stream_data_bidi_local peer_params)
  | false, false => (TransportParams.initial_max_stream_data_uni local_params, 0)
  end.

(** [match (is_local(id, is_server), is_bidi(id)) { ... }] *)
Definition count_stream (id : Z) (local bidi : bool) : M t Error unit :=
  m ← Prelude.get;
  let stream_sequence := Z.shiftr id 2 in
  next ← lift (uadd stream_sequence 1);
  match local, bidi with
  | true, true =>
      let n := Z.max (local_opened_streams_bidi m) next in
      if peer_max_streams_bidi m <? n then fail StreamLimit
      else put (set_local_opened_streams_bidi n m)
  | true, false =>
      let n := Z.max (local_opened_streams_uni m) next in
      if peer_max_streams_uni m <? n then fail StreamLimit
      else put (set_local_opened_streams_uni n m)
  | false, true =>
      let n := Z.max (peer_opened_streams_bidi m) next in
      if local_max_streams_bidi m <? n then fail StreamLimit
      else put (set_peer_opened_streams_bidi n m)
  | false, false =>
      let n := Z.max (peer_opened_streams_uni m) next in
      if local_max_streams_uni m <? n then fail StreamLimit
      else put (set_peer_opened_streams_uni n m)
  end.

(** The stream is returned by value; the code returns a reference to the one
    in the map. *)
Definition get_or_create `{RBTree} (id : Z) (local_params peer_params : TransportParams.t)
    (local is_server : bool) : M t Error Stream.t :=
  m ← Prelude.get;
  match streams m !! id with
  | Some s => mret s
  | None =>
      if bool_decide (id ∈ collected m) then fail Done
      else if negb (Bool.eqb local (is_local id is_server)) then fail (InvalidStreamState id)
      else
        let '(max_rx_data, max_tx_data) := initial_limits local_params peer_params local (is_bidi id) in
        count_stream id (is_local id is_server) (is_bidi id);;
        m ← Prelude.get;
        let s := Stream.new id max_rx_data max_tx_data (is_bidi id) local (max_stream_window m) (next_addr m) in
        is_writable ← lift (Stream.is_writable s);
        put (set_next_addr (next_addr m + 1) (set_streams (<[id := s]> (streams m)) m));;
        (if is_writable : bool then
           m ← Prelude.get; q ← lift (link (Stream.priority_key s) (writable m)); modify (set_writable q)
         else mret ());;
        mret s
  end.

Definition give_credit (stream_id : Z) (local : bool) (m : t) : t :=
  if negb local then
    if is_bidi stream_id then
      set_local_max_streams_bidi_next (saturating_add (local_max_streams_bidi_next m) 1) m
    else set_local_max_streams_uni_next (saturating_add (local_max_streams_uni_next m) 1) m
  else m.

Definition collect (stream_id : Z) (local : bool) : M t Error unit :=
  modify (give_credit stream_id local);;
  m ← Prelude.get;
  match streams m !! stream_id with
  | None => panic
  | Some s =>
      put (set_streams (delete stream_id (streams m)) m);;
      modify (remove_readable (Stream.priority_key s));;
      modify (remove_writable (Stream.priority_key s));;
      modify (remove_flushable (Stream.priority_key s));;
      modify (λ m, set_collected ({[stream_id]} ∪ collected m) m)
  end.

(** *** Sets of streams *)

Definition insert_almost_full (stream_id : Z) (m : t) : t := set_almost_full ({[stream_id]} ∪ almost_full m) m.
Definition remove_almost_full (stream_id : Z) (m : t) : t := set_almost_full (almost_full m ∖ {[stream_id]}) m.
Definition insert_blocked (stream_id off : Z) (m : t) : t := set_blocked (<[stream_id := off]> (blocked m)) m.
Definition remove_blocked (stream_id : Z) (m : t) : t := set_blocked (delete stream_id (blocked m)) m.
Definition insert_reset (stream_id error_code final_size : Z) (m : t) : t :=
  set_reset (<[stream_id := (error_code, final_size)]> (reset m)) m.
Definition remove_reset (stream_id : Z) (m : t) : t := set_reset (delete stream_id (reset m)) m.
Definition insert_stopped (stream_id error_code : Z) (m : t) : t :=
  set_stopped (<[stream_id := error_code]> (stopped m)) m.
Definition remove_stopped (stream_id : Z) (m : t) : t := set_stopped (delete stream_id (stopped m)) m.

(** *** Limits *)

Definition update_peer_max_streams_bidi (v : Z) (m : t) : t :=
  set_peer_max_streams_bidi (Z.max (peer_max_streams_bidi m) v) m.
Definition update_peer_max_streams_uni (v : Z) (m : t) : t :=
  set_peer_max_streams_uni (Z.max (peer_max_streams_uni m) v) m.
Definition update_max_streams_bidi (m : t) : t := set_local_max_streams_bidi (local_max_streams_bidi_next m) m.
Definition max_streams_bidi (m : t) : Z := local_max_streams_bidi m.
Definition max_streams_bidi_next (m : t) : Z := local_max_streams_bidi_next m.
Definition update_max_streams_uni (m : t) : t := set_local_max_streams_uni (local_max_streams_uni_next m) m.
Definition max_streams_uni_next (m : t) : Z := local_max_streams_uni_next m.
Definition peer_streams_left_bidi (m : t) : result Error Z :=
  usub (peer_max_streams_bidi m) (local_opened_streams_bidi m).
Definition peer_streams_left_uni (m : t) : result Error Z :=
  usub (peer_max_streams_uni m) (local_opened_streams_uni m).

Definition should_update_max_streams_bidi (m : t) : result Error bool :=
  if negb (local_max_streams_bidi_next m =? local_max_streams_bidi m) then
    n ← usub (local_max_streams_bidi m) (peer_opened_streams_bidi m);
    Ok (n <? local_max_streams_bidi_next m / 2)
  else Ok false.
Definition should_update_max_streams_uni (m : t) : result Error bool :=
  if negb (local_max_streams_uni_next m =? local_max_streams_uni m) then
    n ← usub (local_max_streams_uni m) (peer_opened_streams_uni m);
    Ok (n <? local_max_streams_uni_next m / 2)
  else Ok false.

(** *** Iterators and tests *)

Definition readable_iter (m : t) : StreamIter.t := StreamIter.mk (K.id <$> readable m) 0.
Definition writable_iter (m : t) : StreamIter.t := StreamIter.mk (K.id <$> writable m) 0.
Definition almost_full_iter `{StdOrders} (m : t) : StreamIter.t := StreamIter.from (almost_full m).
Definition blocked_iter `{StdOrders} (m : t) : list (Z * Z) := map_iter (blocked m).
Definition reset_iter `{StdOrders} (m : t) : list (Z * (Z * Z)) := map_iter (reset m).
Definition stopped_iter `{StdOrders} (m : t) : list (Z * Z) := map_iter (stopped m).

Definition is_collected (stream_id : Z) (m : t) : bool := bool_decide (stream_id ∈ collected m).
Definition has_flushable (m : t) : bool := bool_decide (flushable m ≠ []).
Definition has_readable (m : t) : bool := bool_decide (readable m ≠ []).
Definition has_almost_full (m : t) : bool := bool_decide (almost_full m ≠ ∅).
Definition has_blocked (m : t) : bool := bool_decide (blocked m ≠ ∅).
Definition has_reset (m : t) : bool := bool_decide (reset m ≠ ∅).
Definition has_stopped (m : t) : bool := bool_decide (stopped m ≠ ∅).
End StreamMap.

(** ** Priority order *)

Section order.
Import StreamPriorityKey.
Implicit Types k : t.

(** Comparing with a stored key is comparing urgency, then incremental last,
    then the stream ids of streams that are not incremental. *)
Definition precedes k1 k2 : Prop :=
  id k1 ≠ id k2 ∧
  (urgency k1 < urgency k2 ∨
   (urgency k1 = urgency k2 ∧ incremental k1 = false ∧ (incremental k2 = true ∨ id k1 < id k2))).

Lemma less_spec k1 k2 : less k1 k2 = true ↔ precedes k1 k2.
Proof.
  unfold less, partial_cmp, precedes. destruct (Z.eqb_spec (id k1) (id k2)) as [|Hid]; [naive_solver|].
  destruct (Z.eqb_spec (urgency k1) (urgency k2)) as [->|Hu]; cbn [negb].
  - destruct (incremental k1), (incremental k2); cbn [negb andb]; try destruct (Z.compare_spec (id k1) (id k2));
      naive_solver lia.
  - destruct (Z.compare_spec (urgency k1) (urgency k2)); naive_solver lia.
Qed.

Lemma less_false k1 k2 : less k1 k2 = false ↔ ¬ precedes k1 k2.
Proof. rewrite <- less_spec. destruct (less k1 k2); naive_solver. Qed.

(** A queue in order: no key stands after one that it precedes. *)
Definition ordered (q : list t) : Prop := StronglySorted (λ k1 k2, ¬ precedes k2 k1) q.

Lemma precedes_later k k1 k2 :
  precedes k k1 → ¬ precedes k2 k1 → id k ≠ id k2 → id k1 ≠ id k2 → precedes k k2.
Proof. unfold precedes. intros. destruct (incremental k), (incremental k1), (incremental k2); naive_solver lia. Qed.

(** The place of a new key in an ordered queue. *)
Lemma ordered_split k q :
  ordered q → NoDup (id <$> q) → id k ∉ id <$> q →
  ∃ l1 l2, q = l1 ++ l2 ∧ Forall (λ y, less k y = false) l1 ∧ Forall (λ y, less k y = true) l2.
Proof.
  intros Ho Hnd Hk. induction Ho as [|y q Hq IH Hy]; [by exists [], []|].
  cbn in Hnd, Hk. apply NoDup_cons in Hnd as [Hyq Hnd]. apply not_elem_of_cons in Hk as [Hky Hkq].
  destruct (less k y) eqn:E.
  - exists [], (y :: q). split; [done|]. split; [constructor|]. constructor; [done|].
    apply less_spec in E. rewrite Forall_forall in Hy |- *. intros z Hz. apply less_spec.
    apply (precedes_later k y z); [done|by apply Hy|..]; intros Eid.
    + apply Hkq. rewrite Eid. by apply list_elem_of_fmap_2.
    + apply Hyq. rewrite Eid. by apply list_elem_of_fmap_2.
  - destruct (IH Hnd Hkq) as (l1 & l2 & -> & H1 & H2). exists (y :: l1), l2. split; [done|]. split; [by constructor|done].
Qed.

Lemma ordered_insert k l1 l2 :
  ordered (l1 ++ l2) → Forall (λ y, less k y = false) l1 → Forall (λ y, less k y = true) l2 →
  ordered (l1 ++ k :: l2).
Proof.
  unfold ordered. intros Ho H1 H2. induction H1 as [|y l1 Hy H1 IH]; cbn in *.
  - constructor; [done|]. eapply Forall_impl; [exact H2|]. intros y Hy%less_spec. cbv beta.
    unfold precedes in *. destruct (incremental k), (incremental y); naive_solver lia.
  - apply StronglySorted_inv in Ho as [Ho Hf]. constructor; [by apply IH|].
    apply Forall_app in Hf as [Hf1 Hf2]. apply Forall_app. split; [done|]. constructor; [|done].
    by apply less_false.
Qed.

Lemma ordered_sublist q q' : sublist q' q → ordered q → ordered q'.
Proof.
  intros Hs Ho. revert q' Hs. induction Ho as [|y q Hq IH Hy]; intros q' Hs.
  - apply sublist_nil_r in Hs as ->. constructor.
  - apply sublist_cons_r in Hs as [Hs|(l & -> & Hs)]; [by apply IH|].
    constructor; [by apply IH|]. rewrite Forall_forall in Hy |- *. intros z Hz. apply Hy.
    by eapply elem_of_submseteq; [|apply sublist_submseteq].
Qed.
End order.

(** ** Queues of keys *)

Section queues.
Import StreamMap.
Context `{RBTree}.
Implicit Types (k : StreamPriorityKey.t) (q : list StreamPriorityKey.t) (m : t).

(** The stream that a key belongs to. *)
Definition owned m k : Prop := ∃ s, streams m !! K.id k = Some s ∧ Stream.priority_key s = k.

(** A key whose stream was collected.  [stream_recv] with an empty buffer puts
    the key of a stream that it has collected back among the readable ones. *)
Definition dead m k : Prop := K.id k ∈ collected m ∧ streams m !! K.id k = None ∧ K.addr k < next_addr m ∧
  ∀ i s, streams m !! i = Some s → K.addr (Stream.priority_key s) ≠ K.addr k.

(** The three queues, by name. *)
Inductive queue := Readable | Writable | Flushable.
#[global] Instance queue_eq_dec : EqDecision queue.
Proof. solve_decision. Defined.

Definition listed (Q : queue) m k : Prop := owned m k ∨ Q = Readable ∧ dead m k.

Record queue_ok (Q : queue) m q : Prop := {
  qo_ids : NoDup (K.id <$> q);
  qo_addrs : NoDup (K.addr <$> q);
  qo_listed : Forall (listed Q m) q;
  qo_ordered : ordered q
}.

(** The keys of the streams are what the streams say, at addresses of their own. *)
Record keys_ok m : Prop := {
  ko_key i s : streams m !! i = Some s →
    K.id (Stream.priority_key s) = i ∧
    K.urgency (Stream.priority_key s) = Stream.urgency s ∧
    K.incremental (Stream.priority_key s) = Stream.incremental s ∧
    K.addr (Stream.priority_key s) < next_addr m;
  ko_addr i j s s' : streams m !! i = Some s → streams m !! j = Some s' →
    K.addr (Stream.priority_key s) = K.addr (Stream.priority_key s') → i = j
}.

Lemma owned_id m k k' : owned m k → owned m k' → K.id k = K.id k' → k = k'.
Proof. intros (s & Hs & <-) (s' & Hs' & <-) E. rewrite E in Hs. by simplify_eq. Qed.

Lemma owned_addr m k k' : keys_ok m → owned m k → owned m k' → K.addr k = K.addr k' → k = k'.
Proof.
  intros Hk (s & Hs & <-) (s' & Hs' & <-) Ha.
  assert (K.id (Stream.priority_key s) = K.id (Stream.priority_key s')) as E by by eapply ko_addr.
  rewrite E in Hs. by simplify_eq.
Qed.

Lemma listed_addr Q m k : keys_ok m → listed Q m k → K.addr k < next_addr m.
Proof. intros Hk [(s & Hs & <-)|(_ & _ & _ & Ha & _)]; [apply (ko_key _ Hk _ _ Hs)|done]. Qed.

(** A listed key of a stream that is there is the stream's. *)
Lemma listed_id Q m k k' : listed Q m k → owned m k' → K.id k = K.id k' → k = k'.
Proof. intros [Ho|(_ & _ & Hn & _)] Ho' E; [by eapply owned_id|]. destruct Ho' as (s & Hs & _). congruence. Qed.
Lemma listed_owned_addr Q m k k' : keys_ok m → listed Q m k → owned m k' → K.addr k = K.addr k' → k = k'.
Proof.
  intros Hk [Ho|(_ & _ & _ & _ & Hn)] Ho' E; [by eapply owned_addr|]. destruct Ho' as (s & Hs & <-). by destruct (Hn _ _ Hs).
Qed.
Lemma live_owned Q m q k : Q ≠ Readable → queue_ok Q m q → k ∈ q → owned m k.
Proof. intros HQ Hq Hin. pose proof (qo_listed _ _ _ Hq) as Hl. rewrite Forall_forall in Hl. by destruct (Hl k Hin) as [?|[? _]]. Qed.

Lemma linked_elem Q m k q : keys_ok m → queue_ok Q m q → owned m k → is_linked k q = true ↔ k ∈ q.
Proof.
  intros Hk Hq Ho. unfold is_linked. rewrite bool_decide_eq_true. split.
  - intros (k' & E & Hin)%list_elem_of_fmap. pose proof (qo_listed _ _ _ Hq) as Hall. rewrite Forall_forall in Hall.
    by rewrite (listed_owned_addr Q m k' k Hk (Hall k' Hin) Ho (eq_sym E)) in Hin.
  - intros Hin. by apply list_elem_of_fmap_2.
Qed.

Lemma link_listed Q m k q :
  queue_ok Q m q → listed Q m k → is_linked k q = false → K.id k ∉ K.id <$> q →
  ∃ q', link k q = Ok q' ∧ queue_ok Q m q' ∧ q' ≡ₚ k :: q ∧
    ∃ l1 l2, q = l1 ++ l2 ∧ q' = l1 ++ k :: l2 ∧ Forall (λ y, ¬ precedes k y) l1 ∧ Forall (precedes k) l2.
Proof.
  intros Hq Ho Hl Hid. unfold link. rewrite Hl. destruct Hq as [Hnd Had How Hord]. unfold is_linked in Hl. apply bool_decide_eq_false in Hl.
  destruct (ordered_split k q Hord Hnd Hid) as (l1 & l2 & -> & H1 & H2).
  exists (l1 ++ k :: l2). rewrite rb_insert_ordered by done. split; [done|]. split_and!.
  - constructor.
    + rewrite fmap_app. cbn. rewrite <- Permutation_middle, <- fmap_app. by constructor.
    + rewrite fmap_app. cbn. rewrite <- Permutation_middle, <- fmap_app. by constructor.
    + rewrite <- Permutation_middle. by constructor.
    + by apply ordered_insert.
  - by rewrite <- Permutation_middle.
  - exists l1, l2. split; [done|]. split; [done|]. split; (eapply Forall_impl; [done|]); intros y; cbv beta.
    + by rewrite less_false.
    + by rewrite less_spec.
Qed.

Lemma link_run Q m k q :
  queue_ok Q m q → owned m k → is_linked k q = false →
  ∃ q', link k q = Ok q' ∧ queue_ok Q m q' ∧ q' ≡ₚ k :: q ∧
    ∃ l1 l2, q = l1 ++ l2 ∧ q' = l1 ++ k :: l2 ∧ Forall (λ y, ¬ precedes k y) l1 ∧ Forall (precedes k) l2.
Proof.
  intros Hq Ho Hl. apply link_listed; [done|by left|done|]. intros (k' & E & Hin)%list_elem_of_fmap.
  pose proof (qo_listed _ _ _ Hq) as How. rewrite Forall_forall in How.
  rewrite (listed_id Q m k' k (How k' Hin) Ho (eq_sym E)) in Hin. unfold is_linked in Hl.
  apply bool_decide_eq_false in Hl. by apply Hl, list_elem_of_fmap_2.
Qed.

Lemma unlink_sublist k q : sublist (unlink k q) q.
Proof.
  unfold unlink. induction q as [|k' q IH]; [constructor|]. cbn. destruct (negb _); by constructor.
Qed.

Lemma queue_sublist Q m q q' : sublist q' q → queue_ok Q m q → queue_ok Q m q'.
Proof.
  intros Hs [Hnd Had How Hord]. constructor.
  - eapply sublist_NoDup; [exact Hnd|by apply fmap_sublist].
  - eapply sublist_NoDup; [exact Had|by apply fmap_sublist].
  - rewrite Forall_forall in How |- *. intros k Hk. apply How. by eapply elem_of_submseteq; [|apply sublist_submseteq].
  - by eapply ordered_sublist.
Qed.

Lemma elem_of_unlink k k' q : k' ∈ unlink k q ↔ k' ∈ q ∧ K.addr k' ≠ K.addr k.
Proof.
  unfold unlink. rewrite !list_elem_of_In, List.filter_In, negb_true_iff, Z.eqb_neq. done.
Qed.

(** Taking the head off a queue leaves the rest. *)
Lemma unlink_head Q m k q : queue_ok Q m (k :: q) → unlink k (k :: q) = q.
Proof.
  intros Hq. unfold unlink. cbn. rewrite Z.eqb_refl. cbn. pose proof (qo_addrs _ _ _ Hq) as [Hn _]%NoDup_cons.
  induction q as [|k' q IH]; [done|]. cbn in Hn |- *. apply not_elem_of_cons in Hn as [Hne Hn].
  rewrite (proj2 (Z.eqb_neq _ _)) by done. cbn. f_equal. apply IH; [|exact Hn].
  eapply queue_sublist; [|exact Hq]. by apply sublist_skip, sublist_cons.
Qed.

(** A queue only depends on the keys of its streams, and on those without. *)
Lemma queue_other Q m m' q :
  (∀ k, k ∈ q → owned m k → owned m' k) → (∀ k, k ∈ q → dead m k → dead m' k) → queue_ok Q m q → queue_ok Q m' q.
Proof.
  intros Hk Hd [Hnd Had How Hord]. constructor; [done..| |done]. rewrite Forall_forall in How |- *.
  intros k Hin. destruct (How k Hin) as [?|[? ?]]; [left|right]; auto.
Qed.

Lemma dead_same m m' k : streams m' = streams m → collected m' = collected m → next_addr m <= next_addr m' → dead m k → dead m' k.
Proof. intros Es Ec Ea (Hc & Hn & Ha & Hs). unfold dead. rewrite Es, Ec. split_and!; [done|done|lia|done]. Qed.
End queues.

(** ** The invariant of the stream map *)

Section invariant.
Import StreamMap.
Context `{RBTree}.
Implicit Types (k : StreamPriorityKey.t) (m : t) (s : Stream.t).

Definition queue_of (Q : queue) m : list StreamPriorityKey.t :=
  match Q with Readable => readable m | Writable => writable m | Flushable => flushable m end.
Definition set_queue (Q : queue) (q : list StreamPriorityKey.t) m : t :=
  match Q with Readable => set_readable q m | Writable => set_writable q m | Flushable => set_flushable q m end.
Definition insert_in (Q : queue) k : M t Error unit :=
  match Q with Readable => insert_readable k | Writable => insert_writable k | Flushable => insert_flushable k end.
Definition remove_from (Q : queue) k : t → t :=
  match Q with Readable => remove_readable k | Writable => remove_writable k | Flushable => remove_flushable k end.

(** How many streams of a kind are open, and how many may be. *)
Definition opened (local bidi : bool) m : Z :=
  match local, bidi with
  | true, true => local_opened_streams_bidi m
  | true, false => local_opened_streams_uni m
  | false, true => peer_opened_streams_bidi m
  | false, false => peer_opened_streams_uni m
  end.
Definition limit (local bidi : bool) m : Z :=
  match local, bidi with
  | true, true => peer_max_streams_bidi m
  | true, false => peer_max_streams_uni m
  | false, true => local_max_streams_bidi m
  | false, false => local_max_streams_uni m
  end.

Record map_wf (srv : bool) m : Prop := {
  mw_keys : keys_ok m;
  mw_queue Q : queue_ok Q m (queue_of Q m);
  mw_limits l b : 0 <= opened l b m <= limit l b m;
  mw_next : local_max_streams_bidi m <= local_max_streams_bidi_next m <= u64_max ∧
            local_max_streams_uni m <= local_max_streams_uni_next m <= u64_max;
  mw_open i : is_Some (streams m !! i) ∨ i ∈ collected m →
    0 <= i ∧ Z.shiftr i 2 < opened (is_local i srv) (is_bidi i) m;
  mw_kind i s : streams m !! i = Some s →
    Stream.local s = is_local i srv ∧ Stream.bidi s = is_bidi i;
  mw_collected i : i ∈ collected m → streams m !! i = None
}.

(** The parts of the map that the queues do not touch. *)
Record same_streams m m' : Prop := {
  ss_streams : streams m' = streams m;
  ss_collected : collected m' = collected m;
  ss_opened l b : opened l b m' = opened l b m;
  ss_limit l b : limit l b m' = limit l b m;
  ss_next : local_max_streams_bidi_next m' = local_max_streams_bidi_next m ∧
            local_max_streams_uni_next m' = local_max_streams_uni_next m;
  ss_addr : next_addr m' = next_addr m
}.

Lemma same_streams_refl m : same_streams m m.
Proof. by constructor. Qed.
Lemma same_streams_trans m1 m2 m3 : same_streams m1 m2 → same_streams m2 m3 → same_streams m1 m3.
Proof.
  intros [? ? Ho Hl [? ?] ?] [? ? Ho' Hl' [? ?] ?]. constructor; intros; rewrite ?Ho', ?Hl'; try congruence; auto.
  split; congruence.
Qed.
Lemma same_set_queue Q q m : same_streams m (set_queue Q q m).
Proof. destruct Q; constructor; try done; by intros [] []. Qed.

Lemma keys_ok_same m m' : streams m' = streams m → next_addr m <= next_addr m' → keys_ok m → keys_ok m'.
Proof.
  intros Hs Ha [Hk Hu]. constructor; rewrite Hs; [|done]. intros i s Hi. destruct (Hk i s Hi) as (? & ? & ? & ?).
  split_and!; try done. lia.
Qed.

Lemma queue_ok_same Q m m' q : streams m' = streams m → collected m' = collected m → next_addr m <= next_addr m' →
  queue_ok Q m q → queue_ok Q m' q.
Proof. intros Hs Hc Ha. apply queue_other; intros k _; [unfold owned; by rewrite Hs|by apply dead_same]. Qed.

Lemma map_wf_same srv m m' :
  same_streams m m' → (∀ Q, queue_ok Q m (queue_of Q m')) → map_wf srv m → map_wf srv m'.
Proof.
  intros [Hs Hc Ho Hl [Hb Hu] Ha] Hq [Hk _ Hlim Hn Hop Hkind Hcol].
  pose proof (Hl false true) as Hlb. pose proof (Hl false false) as Hlu. cbn in Hlb, Hlu.
  constructor.
  - eapply keys_ok_same; [exact Hs|lia|done].
  - intros Q. eapply queue_ok_same; [exact Hs|exact Hc|lia|done].
  - intros l b. rewrite Ho, Hl. apply Hlim.
  - lia.
  - intros i. rewrite Hs, Hc, Ho. apply Hop.
  - intros i s. rewrite Hs. apply Hkind.
  - intros i. rewrite Hs, Hc. apply Hcol.
Qed.

Lemma queue_of_set Q Q' q m : queue_of Q' (set_queue Q q m) = if decide (Q' = Q) then q else queue_of Q' m.
Proof. by destruct Q, Q'. Qed.

Lemma map_wf_set_queue srv Q q m : map_wf srv m → queue_ok Q m q → map_wf srv (set_queue Q q m).
Proof.
  intros Hwf Hq. eapply map_wf_same; [apply same_set_queue| |done].
  intros Q'. rewrite queue_of_set. destruct (decide (Q' = Q)) as [-> |]; [done|]. apply mw_queue with srv, Hwf.
Qed.

Lemma insert_in_eq Q k m :
  insert_in Q k m =
    if is_linked k (queue_of Q m) then (Ok (), m)
    else match link k (queue_of Q m) with
         | Ok q => (Ok (), set_queue Q q m) | Err e => (Err e, m) | Panic => (Panic, m)
         end.
Proof.
  destruct Q; cbn [insert_in queue_of set_queue]; unfold insert_readable, insert_writable, insert_flushable;
    rewrite run_bind_get; destruct (is_linked _ _) eqn:E; try done; unfold link; by rewrite E.
Qed.

(** Queueing the key of a stream: never a panic, in order, and at most once. *)
Lemma insert_in_run srv Q i s m :
  map_wf srv m → streams m !! i = Some s →
  ∃ q', insert_in Q (Stream.priority_key s) m = (Ok (), set_queue Q q' m) ∧
    queue_ok Q m q' ∧ (∀ k, k ∈ q' ↔ k = Stream.priority_key s ∨ k ∈ queue_of Q m).
Proof.
  intros Hwf Hs. pose proof (mw_keys _ _ Hwf) as Hk. pose proof (mw_queue _ _ Hwf Q) as Hq.
  assert (owned m (Stream.priority_key s)) as How.
  { exists s. by rewrite (proj1 (ko_key _ Hk _ _ Hs)). }
  rewrite insert_in_eq. destruct (is_linked _ _) eqn:El.
  - exists (queue_of Q m). split; [by destruct m, Q|]. split; [done|].
    apply (linked_elem Q m) in El; [|done..]. naive_solver.
  - destruct (link_run Q m _ _ Hq How El) as (q' & -> & Hq' & Hp & _). exists q'. split; [done|]. split; [done|].
    intros k. by rewrite Hp, elem_of_cons.
Qed.

Lemma remove_from_eq Q k m :
  remove_from Q k m = set_queue Q (if is_linked k (queue_of Q m) then unlink k (queue_of Q m) else queue_of Q m) m.
Proof.
  destruct Q; cbn [remove_from queue_of set_queue]; unfold remove_readable, remove_writable, remove_flushable;
    destruct (is_linked _ _); by destruct m.
Qed.

Lemma not_linked_unlink k q : is_linked k q = false → unlink k q = q.
Proof.
  unfold is_linked, unlink. rewrite bool_decide_eq_false. intros Hk. induction q as [|y q IH]; [done|]. cbn in *.
  apply not_elem_of_cons in Hk as [Hy Hq]. rewrite (proj2 (Z.eqb_neq _ _)) by done. cbn. by rewrite IH.
Qed.

Lemma remove_from_run Q k m : remove_from Q k m = set_queue Q (unlink k (queue_of Q m)) m.
Proof.
  rewrite remove_from_eq. destruct (is_linked _ _) eqn:E; [done|]. by rewrite not_linked_unlink.
Qed.

Lemma remove_from_wf srv Q k m : map_wf srv m → map_wf srv (remove_from Q k m).
Proof.
  intros Hwf. rewrite remove_from_run. apply map_wf_set_queue; [done|].
  eapply queue_sublist; [apply unlink_sublist|]. by apply (mw_queue srv).
Qed.

Lemma insert_in_wf srv Q i s m :
  map_wf srv m → streams m !! i = Some s →
  ∃ m', insert_in Q (Stream.priority_key s) m = (Ok (), m') ∧ map_wf srv m' ∧ same_streams m m'.
Proof.
  intros Hwf Hs. destruct (insert_in_run srv Q i s m Hwf Hs) as (q' & -> & Hq & _).
  eexists. split; [done|]. split; [by apply map_wf_set_queue|apply same_set_queue].
Qed.

Lemma fresh_not_linked srv Q k m : map_wf srv m → next_addr m <= K.addr k → is_linked k (queue_of Q m) = false.
Proof.
  intros Hwf Ha. unfold is_linked. apply bool_decide_eq_false. intros (k' & E & Hin)%list_elem_of_fmap.
  pose proof (qo_listed _ _ _ (mw_queue _ _ Hwf Q)) as Hq. rewrite Forall_forall in Hq.
  pose proof (listed_addr _ _ _ (mw_keys _ _ Hwf) (Hq k' Hin)). lia.
Qed.

(** Putting the key of a collected stream among the readable ones. *)
Lemma insert_dead srv k m : map_wf srv m → dead m k → K.id k ∉ K.id <$> readable m →
  ∃ m', insert_in Readable k m = (Ok (), m') ∧ map_wf srv m' ∧ same_streams m m' ∧
    (∀ Q, Q ≠ Readable → queue_of Q m' = queue_of Q m).
Proof.
  intros Hwf Hd Hid. rewrite insert_in_eq. destruct (is_linked k _) eqn:El.
  { exists m. split; [done|]. split; [done|]. split; [apply same_streams_refl|done]. }
  destruct (link_listed Readable m k (readable m) (mw_queue _ _ Hwf Readable)) as (q' & Hl & Hq' & _); [by right|done..|].
  cbn [queue_of]. rewrite Hl. eexists. split; [done|]. split; [by apply (map_wf_set_queue srv Readable)|].
  split; [by apply (same_set_queue Readable)|by intros []].
Qed.

(** *** Opening a stream *)

Definition set_opened (local bidi : bool) (n : Z) m : t :=
  match local, bidi with
  | true, true => set_local_opened_streams_bidi n m
  | true, false => set_local_opened_streams_uni n m
  | false, true => set_peer_opened_streams_bidi n m
  | false, false => set_peer_opened_streams_uni n m
  end.

Lemma count_stream_run i l b m :
  0 <= i < 2 ^ 62 →
  count_stream i l b m =
    let n := Z.max (opened l b m) (Z.shiftr i 2 + 1) in
    if limit l b m <? n then (Err StreamLimit, m) else (Ok (), set_opened l b n m).
Proof.
  intros Hi. unfold count_stream. rewrite run_bind_get. cbv zeta.
  rewrite (run_bind_lift _ _ _ (Z.shiftr i 2 + 1)).
  - destruct l, b; cbn [opened limit set_opened]; by destruct (_ <? _).
  - apply uadd_ok. rewrite Z.shiftr_div_pow2 by lia. change (2 ^ 2) with 4. change (2 ^ 62) with 4611686018427387904 in Hi.
    Z.div_mod_to_equations. lia.
Qed.

(** The map after a new stream [s] was stored. *)
Definition store_stream i s m : t := set_next_addr (next_addr m + 1) (set_streams (<[i := s]> (streams m)) m).

Lemma opened_set l b n m l' b' :
  opened l' b' (set_opened l b n m) = if decide (l = l' ∧ b = b') then n else opened l' b' m.
Proof. by destruct l, b, l', b'. Qed.

Lemma store_stream_wf srv i n rx tx w m :
  let l := is_local i srv in let b := is_bidi i in
  let s := Stream.new i rx tx b l w (next_addr m) in
  map_wf srv m → streams m !! i = None → i ∉ collected m →
  0 <= i → Z.shiftr i 2 < n → opened l b m <= n <= limit l b m →
  map_wf srv (store_stream i s (set_opened l b n m)).
Proof.
  intros l b s [Hk Hq Hlim Hn Hop Hkind Hcol] Hi Hc Hpos Hseq Hcnt.
  set (m' := store_stream _ _ _).
  assert (streams m' = <[i := s]> (streams m)) as Es by (unfold m'; by destruct l, b).
  assert (collected m' = collected m) as Ec by (unfold m'; by destruct l, b).
  assert (next_addr m' = next_addr m + 1) as Ea by (unfold m'; by destruct l, b).
  assert (∀ l' b', opened l' b' m' = if decide (l = l' ∧ b = b') then n else opened l' b' m) as Eo.
  { intros l' b'. rewrite <- opened_set. by destruct l', b'. }
  assert (∀ l' b', limit l' b' m' = limit l' b' m) as El.
  { intros [] []; unfold m'; by destruct l, b. }
  assert (∀ Q, queue_of Q m' = queue_of Q m) as EQ by (intros []; unfold m'; by destruct l, b).
  assert (local_max_streams_bidi m' = local_max_streams_bidi m ∧ local_max_streams_uni m' = local_max_streams_uni m ∧
    local_max_streams_bidi_next m' = local_max_streams_bidi_next m ∧
    local_max_streams_uni_next m' = local_max_streams_uni_next m) as (E1 & E2 & E3 & E4).
  { unfold m'. by destruct l, b. }
  clearbody m'. constructor.
  - constructor; rewrite Es.
    + intros j s' Hj. rewrite Ea. destruct (decide (i = j)) as [<-|Hij].
      * rewrite lookup_insert_eq in Hj. injection Hj as <-. unfold s. cbn. split_and!; try done. lia.
      * rewrite lookup_insert_ne in Hj by done. destruct (ko_key _ Hk _ _ Hj) as (? & ? & ? & ?). split_and!; try done. lia.
    + intros j1 j2 s1 s2 H1 H2 E. destruct (decide (i = j1)) as [<-|Hij1], (decide (i = j2)) as [<-|Hij2]; [done|..].
      * rewrite lookup_insert_eq in H1. rewrite lookup_insert_ne in H2 by done. injection H1 as <-.
        destruct (ko_key _ Hk _ _ H2) as (_ & _ & _ & ?). unfold s in E. cbn in E. lia.
      * rewrite lookup_insert_eq in H2. rewrite lookup_insert_ne in H1 by done. injection H2 as <-.
        destruct (ko_key _ Hk _ _ H1) as (_ & _ & _ & ?). unfold s in E. cbn in E. lia.
      * rewrite lookup_insert_ne in H1, H2 by done. by eapply (ko_addr _ Hk).
  - intros Q. rewrite EQ. eapply queue_other; [..|exact (Hq Q)].
    + intros k _ (s' & Hs' & E). exists s'. rewrite Es, lookup_insert_ne; [done|]. congruence.
    + intros k _ (Hkc & Hkn & Hka & Hks). unfold dead. rewrite Es, Ec, Ea. split_and!; [done| |lia|].
      * rewrite lookup_insert_ne; [done|]. intros E. by rewrite <- E in Hkc.
      * intros j s' Hj. destruct (decide (i = j)) as [<-|Hij].
        -- rewrite lookup_insert_eq in Hj. injection Hj as <-. unfold s. cbn. lia.
        -- rewrite lookup_insert_ne in Hj by done. by apply (Hks j).
  - intros l' b'. rewrite Eo, El. specialize (Hlim l' b'). destruct (decide _) as [[<- <-]|]; lia.
  - lia.
  - intros j. rewrite Es, Ec, Eo. intros Hj. destruct (decide (i = j)) as [<-|Hij].
    + rewrite decide_True by done. done.
    + rewrite lookup_insert_ne in Hj by done. destruct (Hop j Hj) as [Hj0 Hj1]. split; [done|].
      destruct (decide _) as [[E E']|]; [|done]. rewrite <- E, <- E' in Hj1. lia.
  - intros j s' Hj. rewrite Es in Hj. destruct (decide (i = j)) as [<-|Hij].
    + rewrite lookup_insert_eq in Hj. by injection Hj as <-.
    + rewrite lookup_insert_ne in Hj by done. by apply Hkind.
  - intros j. rewrite Es, Ec. intros Hj. rewrite lookup_insert_ne by congruence. by apply Hcol.
Qed.

Definition max_limits (p : TransportParams.t) : Prop :=
  is_varint (TransportParams.initial_max_stream_data_bidi_local p) ∧
  is_varint (TransportParams.initial_max_stream_data_bidi_remote p) ∧
  is_varint (TransportParams.initial_max_stream_data_uni p).

Lemma new_is_writable i rx tx b l w a :
  Stream.is_writable (Stream.new i rx tx b l w a) = Ok (1 <? tx).
Proof. reflexivity. Qed.

Lemma get_or_create_new srv i lp pp m :
  let l := is_local i srv in let b := is_bidi i in
  map_wf srv m → 0 <= i < 2 ^ 62 → streams m !! i = None → i ∉ collected m → Z.shiftr i 2 < limit l b m →
  ∃ s m', get_or_create i lp pp l srv m = (Ok s, m') ∧ map_wf srv m' ∧
    streams m' = <[i := s]> (streams m) ∧ collected m' = collected m ∧
    s = Stream.new i (initial_limits lp pp l b).1 (initial_limits lp pp l b).2 b l (max_stream_window m) (next_addr m) ∧
    (∀ l' b', opened l' b' m' = if decide (l = l' ∧ b = b') then Z.max (opened l b m) (Z.shiftr i 2 + 1)
                                 else opened l' b' m) ∧
    (∀ k, k ∈ writable m' ↔ (k = Stream.priority_key s ∧ Stream.is_writable s = Ok true) ∨ k ∈ writable m) ∧
    readable m' = readable m ∧ flushable m' = flushable m.
Proof.
  intros l b Hwf Hi Hs Hc Hlim. unfold get_or_create. rewrite run_bind_get, Hs, bool_decide_false by done.
  fold l. rewrite eqb_reflx. cbn [negb]. fold b. destruct (initial_limits lp pp l b) as [rx tx] eqn:Elim.
  pose proof (mw_limits _ _ Hwf l b) as Hlb. cbn [fst snd].
  set (n := Z.max (opened l b m) (Z.shiftr i 2 + 1)).
  assert (count_stream i l b m = (Ok (), set_opened l b n m)) as Hcount.
  { rewrite count_stream_run by done. fold n. cbv zeta. by rewrite (proj2 (Z.ltb_ge _ _)) by lia. }
  rewrite (run_bind_ok _ _ _ _ _ Hcount), run_bind_get.
  assert (max_stream_window (set_opened l b n m) = max_stream_window m ∧ next_addr (set_opened l b n m) = next_addr m) as [-> ->]
    by by destruct l, b.
  set (s := Stream.new _ _ _ _ _ _ _). rewrite (run_bind_lift _ _ _ (1 <? tx)) by done.
  set (m1 := store_stream i s (set_opened l b n m)).
  assert (map_wf srv m1) as Hwf1 by (apply store_stream_wf; try done; unfold n; fold l b; lia).
  assert (streams m1 = <[i := s]> (streams m)) as Es by (unfold m1; by destruct l, b).
  assert (∀ q, streams (set_writable q m1) = streams m1 ∧ collected (set_writable q m1) = collected m1) as Hw by done.
  assert (collected m1 = collected m ∧ writable m1 = writable m ∧ readable m1 = readable m ∧ flushable m1 = flushable m)
    as (Ec & Ew & Er & Ef) by (unfold m1; by destruct l, b).
  assert (∀ l' b', opened l' b' m1 = if decide (l = l' ∧ b = b') then n else opened l' b' m) as Eo.
  { intros l' b'. rewrite <- opened_set. by destruct l', b'. }
  unfold put at 1, mbind at 1, M_bind at 1.
  replace (set_next_addr (next_addr m + 1) _) with m1 by (unfold m1, store_stream; by destruct l, b).
  assert (∀ m', streams m' = streams m1 → collected m' = collected m1 → (∀ l b, opened l b m' = opened l b m1) →
    streams m' = <[i:=s]> (streams m) ∧ collected m' = collected m ∧ s = s ∧
    (∀ l' b', opened l' b' m' = if decide (l = l' ∧ b = b') then n else opened l' b' m)) as Hcommon.
  { intros m' -> -> Hm'. split_and!; try done. intros l' b'. by rewrite Hm'. }
  destruct (Z.ltb_spec 1 tx) as [Htx|Htx].
  - assert (owned m1 (Stream.priority_key s)) as How by (exists s; by rewrite Es, lookup_insert_eq).
    assert (is_linked (Stream.priority_key s) (writable m1) = false) as Hl.
    { rewrite Ew. apply (fresh_not_linked srv Writable); [done|]. unfold s. cbn. lia. }
    destruct (link_run Writable m1 _ (writable m1) (mw_queue _ _ Hwf1 Writable) How Hl)
      as (q' & Hlink & Hq' & Hp & _).
    rewrite run_bind_assoc, run_bind_get, run_bind_assoc, (run_bind_lift _ _ _ _ Hlink).
    eexists s, _. split; [reflexivity|]. split; [by apply (map_wf_set_queue srv Writable)|].
    destruct (Hcommon (set_writable q' m1)) as (-> & -> & _ & Ho); [done..|by intros [] []|].
    split_and!; try done.
    intros k. change (writable (set_writable q' m1)) with q'. rewrite Hp, elem_of_cons, Ew.
    change (Stream.is_writable s) with (Ok (E:=Error) (1 <? tx)). rewrite (proj2 (Z.ltb_lt _ _)) by done. naive_solver.
  - eexists s, m1. split; [reflexivity|]. destruct (Hcommon m1) as (-> & -> & _ & Ho); [done..|].
    split_and!; try done. intros k. rewrite Ew. change (Stream.is_writable s) with (Ok (E:=Error) (1 <? tx)).
    rewrite (proj2 (Z.ltb_ge _ _)) by done. naive_solver.
Qed.

(** *** Dropping a stream *)

Definition unlink_all k m : t :=
  set_queue Flushable (unlink k (flushable m))
    (set_queue Writable (unlink k (writable m)) (set_queue Readable (unlink k (readable m)) m)).

Lemma unlink_all_queue Q k m : queue_of Q (unlink_all k m) = unlink k (queue_of Q m).
Proof. by destruct Q. Qed.
Lemma unlink_all_same k m : same_streams m (unlink_all k m).
Proof. constructor; try done; by intros [] []. Qed.

Lemma collect_eq i l s m :
  streams m !! i = Some s →
  collect i l m =
    (Ok (), set_collected ({[i]} ∪ collected m)
              (unlink_all (Stream.priority_key s) (set_streams (delete i (streams m)) (give_credit i l m)))).
Proof.
  intros Hs. unfold collect. rewrite run_bind_modify, run_bind_get.
  assert (streams (give_credit i l m) = streams m ∧ collected (give_credit i l m) = collected m) as [E Ec].
  { unfold give_credit. by destruct l, (is_bidi i). }
  rewrite E, Hs. unfold put, mbind, M_bind, modify. f_equal.
  change (remove_readable ?k) with (remove_from Readable k). change (remove_writable ?k) with (remove_from Writable k).
  change (remove_flushable ?k) with (remove_from Flushable k). rewrite !remove_from_run.
  unfold unlink_all, give_credit. by destruct l, (is_bidi i).
Qed.

Lemma give_credit_fields i l m :
  (∀ Q, queue_of Q (give_credit i l m) = queue_of Q m) ∧ (∀ l' b, opened l' b (give_credit i l m) = opened l' b m) ∧
  (∀ l' b, limit l' b (give_credit i l m) = limit l' b m) ∧ next_addr (give_credit i l m) = next_addr m ∧
  (map_wf true m ∨ map_wf false m →
   local_max_streams_bidi (give_credit i l m) <= local_max_streams_bidi_next (give_credit i l m) <= u64_max ∧
   local_max_streams_uni (give_credit i l m) <= local_max_streams_uni_next (give_credit i l m) <= u64_max).
Proof.
  unfold give_credit. split_and!.
  - intros []; by destruct l, (is_bidi i).
  - intros [] []; by destruct l, (is_bidi i).
  - intros [] []; by destruct l, (is_bidi i).
  - by destruct l, (is_bidi i).
  - intros Hwf. assert (local_max_streams_bidi m <= local_max_streams_bidi_next m <= u64_max ∧
      local_max_streams_uni m <= local_max_streams_uni_next m <= u64_max) by (destruct Hwf as [Hwf|Hwf]; apply Hwf).
    destruct l, (is_bidi i); cbn; unfold saturating_add; lia.
Qed.

Lemma collect_run srv i l s m :
  map_wf srv m → streams m !! i = Some s →
  ∃ m', collect i l m = (Ok (), m') ∧ map_wf srv m' ∧
    streams m' = delete i (streams m) ∧ collected m' = {[i]} ∪ collected m ∧
    (∀ Q k, k ∈ queue_of Q m' ↔ k ∈ queue_of Q m ∧ K.addr k ≠ K.addr (Stream.priority_key s)).
Proof.
  intros Hwf Hs. rewrite (collect_eq i l s m Hs).
  destruct (give_credit_fields i l m) as (HQ & Ho & Hl & Ha & Hn).
  set (m' := set_collected _ _). exists m'. split; [done|].
  assert (streams m' = delete i (streams m)) as Es by done.
  assert (∀ Q, queue_of Q m' = unlink (Stream.priority_key s) (queue_of Q m)) as Eq.
  { intros Q. rewrite <- (HQ Q). by destruct Q. }
  assert (∀ l' b, opened l' b m' = opened l' b m) as Eo by (intros l' b; rewrite <- Ho; by destruct l', b).
  assert (∀ l' b, limit l' b m' = limit l' b m) as El by (intros l' b; rewrite <- Hl; by destruct l', b).
  destruct Hwf as [Hk Hq Hlim Hnext Hop Hkind Hcol] eqn:Ewf. clear Ewf.
  split; [|split_and!; [done..|intros Q k; rewrite Eq; apply elem_of_unlink]]. constructor.
  - constructor; rewrite Es.
    + intros j s' [_ Hj]%lookup_delete_Some. change (next_addr m') with (next_addr (give_credit i l m)). rewrite Ha.
      by apply Hk.
    + intros j1 j2 s1 s2 [_ H1]%lookup_delete_Some [_ H2]%lookup_delete_Some. by apply (ko_addr _ Hk).
  - intros Q. rewrite Eq. eapply (queue_other Q m m'); [..|eapply queue_sublist; [apply unlink_sublist|apply Hq]].
    + intros k [_ Hne]%elem_of_unlink (s' & Hs' & <-). exists s'. rewrite Es. split; [|done].
      apply lookup_delete_Some. split; [|done]. intros E. rewrite <- E in Hs'. congruence.
    + intros k _ (Hkc & Hkn & Hka & Hks). unfold dead. rewrite Es. change (next_addr m') with (next_addr (give_credit i l m)). rewrite Ha.
      change (collected m') with ({[i]} ∪ collected m). split_and!; [set_solver|by apply lookup_delete_None; right|done|].
      intros j s' [_ Hj]%lookup_delete_Some. by apply (Hks j).
  - intros l' b. rewrite Eo, El. apply Hlim.
  - apply Hn. destruct srv; [left|right]; by constructor.
  - intros j Hj. rewrite Eo. apply Hop. rewrite Es in Hj. change (collected m') with ({[i]} ∪ collected m) in Hj.
    rewrite elem_of_union, elem_of_singleton in Hj.
    destruct Hj as [[s' [_ Hj]%lookup_delete_Some]|[->|Hj]]; [left; by eexists|left; by eexists|by right].
  - intros j s' Hj. rewrite Es in Hj. apply lookup_delete_Some in Hj as [_ Hj]. by apply Hkind.
  - intros j Hj. rewrite Es. change (collected m') with ({[i]} ∪ collected m) in Hj.
    rewrite elem_of_union, elem_of_singleton in Hj. apply lookup_delete_None.
    destruct Hj as [->|Hj]; [by left|right; by apply Hcol].
Qed.

(** The key of the dropped stream is dead, and its id is no longer listed. *)
Lemma collect_departed srv i l s m m' :
  map_wf srv m → streams m !! i = Some s → collect i l m = (Ok (), m') →
  dead m' (Stream.priority_key s) ∧ K.id (Stream.priority_key s) ∉ K.id <$> readable m'.
Proof.
  intros Hwf Hs Hr. pose proof (mw_keys _ _ Hwf) as Hk. destruct (ko_key _ Hk _ _ Hs) as (Hid & _ & _ & Ha).
  destruct (collect_run srv i l s m Hwf Hs) as (m1 & Hr1 & _ & Es & Ec & HQ). rewrite Hr in Hr1. injection Hr1 as <-.
  assert (next_addr m' = next_addr m) as En.
  { rewrite (collect_eq i l s m Hs) in Hr. injection Hr as <-. change (next_addr (give_credit i l m) = next_addr m). apply give_credit_fields. }
  unfold dead. rewrite Hid, Es, Ec, En. split; [split_and!|].
  - set_solver.
  - apply lookup_delete_eq.
  - done.
  - intros j s' [Hne Hj]%lookup_delete_Some E. apply Hne. by eapply (ko_addr _ Hk).
  - intros (k' & E & [Hin Hne]%(HQ Readable))%list_elem_of_fmap. pose proof (qo_listed _ _ _ (mw_queue _ _ Hwf Readable)) as Hl.
    rewrite Forall_forall in Hl. apply Hne. f_equal. apply (listed_id Readable m); [by apply Hl|exists s; by rewrite Hid|congruence].
Qed.

(** *** Changing a stream in place *)

(** What every operation on a stream other than a new priority keeps. *)
Definition keeps_key (s s' : Stream.t) : Prop :=
  Stream.priority_key s' = Stream.priority_key s ∧ Stream.urgency s' = Stream.urgency s ∧
  Stream.incremental s' = Stream.incremental s ∧ Stream.local s' = Stream.local s ∧ Stream.bidi s' = Stream.bidi s.

Lemma put_stream_wf srv i s s' m :
  map_wf srv m → streams m !! i = Some s → keeps_key s s' → map_wf srv (set_streams (<[i := s']> (streams m)) m).
Proof.
  intros [Hk Hq Hlim Hnext Hop Hkind Hcol] Hs (Ek & Eu & Ei & El & Eb).
  assert (∀ j s0, (<[i := s']> (streams m)) !! j = Some s0 → ∃ s1, streams m !! j = Some s1 ∧ keeps_key s1 s0) as Hget.
  { intros j s0 Hj. destruct (decide (i = j)) as [<-|Hij].
    - rewrite lookup_insert_eq in Hj. simplify_eq. exists s. by split; [|split_and!].
    - rewrite lookup_insert_ne in Hj by done. exists s0. by split; [|split_and!]. }
  constructor; cbn [streams set_streams collected].
  - constructor; cbn [streams set_streams next_addr].
    + intros j s0 Hj. destruct (Hget j s0 Hj) as (s1 & Hj1 & -> & -> & -> & _). by apply Hk.
    + intros j1 j2 s1 s2 H1 H2. destruct (Hget _ _ H1) as (s1' & H1' & -> & _), (Hget _ _ H2) as (s2' & H2' & -> & _).
      by apply (ko_addr _ Hk).
  - intros Q. eapply queue_other; [..|apply (Hq Q)].
    + intros k _ (s0 & Hs0 & Ek0). unfold owned. cbn [streams set_streams]. destruct (decide (i = K.id k)) as [->|Hij].
      * exists s'. rewrite lookup_insert_eq. split; [done|]. congruence.
      * exists s0. by rewrite lookup_insert_ne.
    + intros k _ (Hkc & Hkn & Hka & Hks). unfold dead. cbn [streams set_streams collected next_addr]. split_and!; [done| |done|].
      * rewrite lookup_insert_ne; [done|]. congruence.
      * intros j s0 Hj. destruct (Hget j s0 Hj) as (s1 & Hj1 & -> & _). by apply (Hks j).
  - intros [] []; [apply (Hlim true true)|apply (Hlim true false)|apply (Hlim false true)|apply (Hlim false false)].
  - done.
  - intros j Hj. assert (opened (is_local j srv) (is_bidi j) (set_streams (<[i:=s']> (streams m)) m) =
      opened (is_local j srv) (is_bidi j) m) as -> by by destruct (is_local j srv), (is_bidi j).
    apply Hop. destruct Hj as [[s0 Hj]|Hj]; [|by right]. destruct (Hget j s0 Hj) as (s1 & Hj1 & _). left. by eexists.
  - intros j s0 Hj. destruct (Hget j s0 Hj) as (s1 & Hj1 & _ & _ & _ & -> & ->). by apply Hkind.
  - intros j Hj. destruct (decide (i = j)) as [<-|Hij]; [|by rewrite lookup_insert_ne; [apply Hcol|]].
    rewrite (Hcol i Hj) in Hs. done.
Qed.

(** *** A new priority *)

Definition update_in (Q : queue) (old new : key) : M t Error unit :=
  m ← Prelude.get;
  if is_linked old (queue_of Q m) then
    modify (remove_from Q old);;
    m ← Prelude.get; q ← lift (link new (queue_of Q m)); modify (set_queue Q q)
  else mret ().

Lemma update_priority_eq old new m :
  update_priority old new m = (update_in Readable old new;; update_in Writable old new;; update_in Flushable old new) m.
Proof.
  unfold update_priority, update_in. rewrite run_bind_assoc. unfold mbind, M_bind, Prelude.get.
  destruct (_ m) as [[[]| |] m1]; [|done..]. by destruct (_ m1) as [[[]| |] m2].
Qed.

(** The new key takes the place of the old one in the queues. *)
Record replaced (old new : key) (q q' : list key) : Prop := {
  rp_elem k : k ∈ q' ↔ (k = new ∧ is_linked old q = true) ∨ (k ∈ q ∧ K.addr k ≠ K.addr old)
}.

Lemma update_in_run Q old new m :
  owned m new → queue_ok Q m (unlink old (queue_of Q m)) →
  is_linked new (queue_of Q m) = false →
  ∃ q', update_in Q old new m = (Ok (), set_queue Q q' m) ∧ queue_ok Q m q' ∧ replaced old new (queue_of Q m) q'.
Proof.
  intros How Hq Hnl. unfold update_in. rewrite run_bind_get. destruct (is_linked old _) eqn:El.
  - rewrite run_bind_modify, run_bind_get, remove_from_run, queue_of_set, decide_True by done.
    assert (is_linked new (unlink old (queue_of Q m)) = false) as Hnl'.
    { unfold is_linked in *. apply bool_decide_eq_false in Hnl. apply bool_decide_eq_false. contradict Hnl.
      eapply elem_of_submseteq; [exact Hnl|]. apply sublist_submseteq, fmap_sublist, unlink_sublist. }
    destruct (link_run Q m new _ Hq How Hnl') as (q' & Hlink & Hq' & Hp & _).
    rewrite (run_bind_lift _ _ _ _ Hlink). exists q'. split; [by destruct Q|]. split; [done|].
    constructor. intros k. rewrite Hp, elem_of_cons, elem_of_unlink. naive_solver.
  - exists (queue_of Q m). split; [by destruct m, Q|]. rewrite not_linked_unlink in Hq by done. split; [done|].
    constructor. intros k. split; [|intros [[_ E]|[? _]]; [congruence|done]].
    unfold is_linked in El. apply bool_decide_eq_false in El. intros Hin. right. split; [done|]. intros E. apply El. rewrite <- E.
    by apply list_elem_of_fmap_2.
Qed.

(** [stream.priority_key] becomes a new key: the stream keeps its place among
    the readable, writable and flushable ones, in the new order. *)
Definition rekey i s' m : t := set_next_addr (next_addr m + 1) (set_streams (<[i := s']> (streams m)) m).

Lemma rekey_keys srv i s s' m :
  map_wf srv m → streams m !! i = Some s →
  Stream.priority_key s' = StreamPriorityKey.mk (Stream.urgency s') (Stream.incremental s') i (next_addr m) →
  keys_ok (rekey i s' m).
Proof.
  intros Hwf Hs Hnew. pose proof (mw_keys _ _ Hwf) as Hk. unfold rekey. constructor; cbn.
  - intros j s0 Hj. destruct (decide (i = j)) as [<-|Hij].
    + rewrite lookup_insert_eq in Hj. injection Hj as <-. rewrite Hnew. cbn. split_and!; done || lia.
    + rewrite lookup_insert_ne in Hj by done. destruct (ko_key _ Hk _ _ Hj) as (? & ? & ? & ?). split_and!; try done. lia.
  - intros j1 j2 s1 s2 H1 H2 E. destruct (decide (i = j1)) as [<-|Hij1], (decide (i = j2)) as [<-|Hij2]; [done|..].
    + rewrite lookup_insert_eq in H1. rewrite lookup_insert_ne in H2 by done. injection H1 as <-.
      destruct (ko_key _ Hk _ _ H2) as (_ & _ & _ & ?). rewrite Hnew in E. cbn in E. lia.
    + rewrite lookup_insert_eq in H2. rewrite lookup_insert_ne in H1 by done. injection H2 as <-.
      destruct (ko_key _ Hk _ _ H1) as (_ & _ & _ & ?). rewrite Hnew in E. cbn in E. lia.
    + rewrite lookup_insert_ne in H1, H2 by done. by eapply (ko_addr _ Hk).
Qed.

Lemma rekey_unlinked srv i s s' Q m :
  map_wf srv m → streams m !! i = Some s →
  K.addr (Stream.priority_key s') = next_addr m →
  queue_ok Q (rekey i s' m) (unlink (Stream.priority_key s) (queue_of Q m)).
Proof.
  intros Hwf Hs Hnew. eapply (queue_other Q m); [..|eapply queue_sublist; [apply unlink_sublist|by apply (mw_queue srv)]].
  - intros k [_ Hne]%elem_of_unlink (s0 & Hs0 & <-). exists s0. cbn. rewrite lookup_insert_ne; [done|].
    intros E. rewrite <- E in Hs0. congruence.
  - intros k _ (Hkc & Hkn & Hka & Hks). unfold dead, rekey. cbn. split_and!; [done| |lia|].
    + rewrite lookup_insert_ne; [done|]. congruence.
    + intros j s0 Hj. destruct (decide (i = j)) as [<-|Hij].
      * rewrite lookup_insert_eq in Hj. injection Hj as <-. lia.
      * rewrite lookup_insert_ne in Hj by done. by apply (Hks j).
Qed.

Lemma update_priority_run srv i s s' m :
  map_wf srv m → streams m !! i = Some s →
  Stream.priority_key s' = StreamPriorityKey.mk (Stream.urgency s') (Stream.incremental s') i (next_addr m) →
  Stream.local s' = Stream.local s → Stream.bidi s' = Stream.bidi s →
  ∃ m', update_priority (Stream.priority_key s) (Stream.priority_key s') (rekey i s' m) = (Ok (), m') ∧
    map_wf srv m' ∧ same_streams (rekey i s' m) m' ∧
    (∀ Q, replaced (Stream.priority_key s) (Stream.priority_key s') (queue_of Q m) (queue_of Q m')).
Proof.
  intros Hwf Hs Hnew Hl Hb. set (old := Stream.priority_key s). set (new := Stream.priority_key s').
  pose proof (rekey_keys srv i s s' m Hwf Hs Hnew) as Hk.
  assert (owned (rekey i s' m) new) as How.
  { exists s'. unfold new. rewrite Hnew. cbn. by rewrite lookup_insert_eq. }
  assert (∀ Q m1, streams m1 = streams (rekey i s' m) → collected m1 = collected m → next_addr m1 = next_addr (rekey i s' m) →
    queue_of Q m1 = queue_of Q m →
    ∃ q', update_in Q old new m1 = (Ok (), set_queue Q q' m1) ∧ queue_ok Q (rekey i s' m) q' ∧
      replaced old new (queue_of Q m) q') as Hstep.
  { intros Q m1 Es Ec Ea EQ. rewrite <- EQ.
    destruct (update_in_run Q old new m1) as (q' & Hr & Hq & Hrep).
    - unfold owned. by rewrite Es.
    - rewrite EQ. eapply queue_ok_same; [exact Es|exact Ec|lia|]. apply (rekey_unlinked srv); [done..|]. by rewrite Hnew.
    - rewrite EQ. apply (fresh_not_linked srv); [done|]. unfold new. rewrite Hnew. cbn. lia.
    - exists q'. split; [done|]. split; [|done]. eapply queue_ok_same; [..|exact Hq]; [done|done|lia]. }
  rewrite update_priority_eq.
  destruct (Hstep Readable (rekey i s' m)) as (q1 & Hr1 & Hq1 & Hp1); [done..|].
  rewrite (run_bind_ok _ _ _ _ _ Hr1).
  destruct (Hstep Writable (set_queue Readable q1 (rekey i s' m))) as (q2 & Hr2 & Hq2 & Hp2); [done..|].
  rewrite (run_bind_ok _ _ _ _ _ Hr2).
  destruct (Hstep Flushable (set_queue Writable q2 (set_queue Readable q1 (rekey i s' m)))) as (q3 & -> & Hq3 & Hp3); [done..|].
  set (m' := set_queue Flushable _ _). exists m'. split; [done|].
  assert (same_streams (rekey i s' m) m') as Hsame by (constructor; try done; by intros [] []).
  split; [|split; [done|by intros []]].
  destruct Hwf as [_ _ Hlim Hnext Hop Hkind Hcol]. constructor.
  - eapply keys_ok_same; [apply Hsame|rewrite (ss_addr _ _ Hsame); lia|done].
  - intros Q. eapply queue_ok_same; [apply Hsame|apply Hsame|rewrite (ss_addr _ _ Hsame); lia|]. by destruct Q.
  - intros l b. rewrite (ss_opened _ _ Hsame), (ss_limit _ _ Hsame). destruct l, b;
      [apply (Hlim true true)|apply (Hlim true false)|apply (Hlim false true)|apply (Hlim false false)].
  - exact Hnext.
  - intros j Hj. rewrite (ss_opened _ _ Hsame).
    assert (opened (is_local j srv) (is_bidi j) (rekey i s' m) = opened (is_local j srv) (is_bidi j) m) as ->
      by by destruct (is_local j srv), (is_bidi j).
    apply Hop. destruct Hj as [[s0 Hj]|Hj]; [|by right]. cbn in Hj.
    destruct (decide (i = j)) as [<-|Hij]; left; [by eexists|]. rewrite lookup_insert_ne in Hj by done. by eexists.
  - intros j s0 Hj. cbn in Hj. destruct (decide (i = j)) as [<-|Hij].
    + rewrite lookup_insert_eq in Hj. injection Hj as <-. rewrite Hl, Hb. by apply Hkind.
    + rewrite lookup_insert_ne in Hj by done. by apply Hkind.
  - intros j Hj. cbn in *. destruct (decide (i = j)) as [<-|Hij]; [|by rewrite lookup_insert_ne; [apply Hcol|]].
    rewrite (Hcol i Hj) in Hs. done.
Qed.

(** *** Limits *)

Lemma map_wf_raise srv m m' :
  streams m' = streams m → collected m' = collected m → next_addr m' = next_addr m →
  (∀ Q, queue_of Q m' = queue_of Q m) → (∀ l b, opened l b m' = opened l b m) →
  (∀ l b, limit l b m <= limit l b m') →
  (local_max_streams_bidi m' <= local_max_streams_bidi_next m' <= u64_max ∧
   local_max_streams_uni m' <= local_max_streams_uni_next m' <= u64_max) →
  map_wf srv m → map_wf srv m'.
Proof.
  intros Hs Hc Ha HQ Ho Hl Hn [Hk Hq Hlim _ Hop Hkind Hcol]. constructor.
  - apply (keys_ok_same m); [done|lia|done].
  - intros Q. rewrite HQ. apply (queue_ok_same Q m); [done|done|lia|done].
  - intros l b. rewrite Ho. specialize (Hl l b). specialize (Hlim l b). lia.
  - done.
  - intros i. rewrite Hs, Hc, Ho. apply Hop.
  - intros i s. rewrite Hs. apply Hkind.
  - intros i. rewrite Hs, Hc. apply Hcol.
Qed.

Ltac solve_raise m Hwf :=
  apply (map_wf_raise _ m); try done; try (by intros []); try (by intros [] []);
  pose proof (mw_next _ _ Hwf); try (intros [] []); cbn; lia.

Lemma raise_peer_wf srv v m :
  map_wf srv m → map_wf srv (update_peer_max_streams_bidi v m) ∧ map_wf srv (update_peer_max_streams_uni v m).
Proof. intros Hwf. split; solve_raise m Hwf. Qed.

Lemma raise_local_wf srv m :
  map_wf srv m → map_wf srv (update_max_streams_bidi m) ∧ map_wf srv (update_max_streams_uni m).
Proof. intros Hwf. split; solve_raise m Hwf. Qed.

Lemma new_map_wf srv b u w : 0 <= b <= u64_max → 0 <= u <= u64_max → map_wf srv (new b u w).
Proof.
  intros. constructor; cbn; try lia.
  - constructor; cbn; [intros ? ? Hi|intros ? ? ? ? Hi]; by rewrite lookup_empty in Hi.
  - intros []; constructor; cbn; constructor.
  - intros [] []; cbn; lia.
  - intros i [Hi|Hi]; [rewrite lookup_empty in Hi; by destruct Hi|by apply not_elem_of_empty in Hi].
  - intros i s Hi. by rewrite lookup_empty in Hi.
  - intros i Hi. by apply not_elem_of_empty in Hi.
Qed.
End invariant.

(** What callers of [get_or_create] rely on: no panic, an error leaves the map
    alone, and the stream is in the map afterwards. *)
Record opens srv (i : Z) (s : Stream.t) (m m' : StreamMap.t) : Prop := {
  os_wf : map_wf srv m';
  os_get : StreamMap.streams m' !! i = Some s;
  os_other j : j ≠ i → StreamMap.streams m' !! j = StreamMap.streams m !! j;
  os_old s0 : StreamMap.streams m !! i = Some s0 → m' = m ∧ s0 = s;
  os_collected : StreamMap.collected m' = StreamMap.collected m
}.

Lemma wp_get_or_create `{RBTree} srv i lp pp local m :
  map_wf srv m → 0 <= i < 2 ^ 62 →
  wp (StreamMap.get_or_create i lp pp local srv) (λ s m', opens srv i s m m')
    (λ e m', m' = m ∧ StreamMap.streams m !! i = None ∧ (i ∈ StreamMap.collected m → e = Done)) m.
Proof.
  intros Hwf Hi. destruct (StreamMap.streams m !! i) as [s|] eqn:Hs.
  { unfold wp, StreamMap.get_or_create. rewrite run_bind_get, Hs. constructor; try done. intros s0 E. by rewrite Hs in E; simplify_eq. }
  destruct (decide (i ∈ StreamMap.collected m)) as [Hc|Hc].
  { unfold wp, StreamMap.get_or_create. by rewrite run_bind_get, Hs, bool_decide_true. }
  destruct (Bool.eqb local (is_local i srv)) eqn:El.
  2: { unfold wp, StreamMap.get_or_create. by rewrite run_bind_get, Hs, bool_decide_false, El. }
  apply eqb_prop in El as ->.
  destruct (Z.lt_ge_cases (Z.shiftr i 2) (limit (is_local i srv) (is_bidi i) m)) as [Hlim|Hlim].
  - destruct (get_or_create_new srv i lp pp m Hwf Hi Hs Hc Hlim) as (s & m' & Hr & Hwf' & Es & Ec & _).
    unfold wp. rewrite Hr. constructor; try done.
    + by rewrite Es, lookup_insert_eq.
    + intros j Hj. by rewrite Es, lookup_insert_ne.
    + intros s0 E. congruence.
  - unfold wp, StreamMap.get_or_create. rewrite run_bind_get, Hs, bool_decide_false, eqb_reflx by done. cbn [negb].
    destruct (StreamMap.initial_limits _ _ _ _) as [rx tx].
    pose proof (count_stream_run i (is_local i srv) (is_bidi i) m Hi) as Hcount. cbv zeta in Hcount.
    rewrite (proj2 (Z.ltb_lt _ _)) in Hcount by lia. by rewrite (run_bind_err _ _ _ _ _ Hcount).
Qed.

(** ** Properties *)

Section properties.
Import StreamMap.
Context `{RBTree}.
Implicit Types (k : StreamPriorityKey.t) (m : t) (s : Stream.t).

(** C36. [get_or_create] on every branch: an open stream is returned as it is;
    a collected one is [Done], whoever asks; an id of the wrong kind is
    refused; the peer's limit, or ours for the peer's streams, is enforced
    exactly; otherwise the stream is created with the limits of its kind, is
    the only change to the map, is counted as opened, and is queued as
    writable if it is. *)
Theorem get_or_create_spec srv i lp pp local m :
  map_wf srv m → 0 <= i < 2 ^ 62 →
  let l := is_local i srv in let b := is_bidi i in
  let r := get_or_create i lp pp local srv m in
  match streams m !! i with
  | Some s => r = (Ok s, m)
  | None =>
      if decide (i ∈ collected m) then r = (Err Done, m)
      else if negb (Bool.eqb local l) then r = (Err (InvalidStreamState i), m)
      else if limit l b m <=? Z.shiftr i 2 then r = (Err StreamLimit, m)
      else ∃ s m', r = (Ok s, m') ∧ map_wf srv m' ∧ streams m' = <[i := s]> (streams m) ∧
        s = Stream.new i (initial_limits lp pp l b).1 (initial_limits lp pp l b).2 b l
              (max_stream_window m) (next_addr m) ∧
        (∀ l' b', opened l' b' m' = if decide (l = l' ∧ b = b') then Z.max (opened l b m) (Z.shiftr i 2 + 1)
                                     else opened l' b' m) ∧
        (∀ k, k ∈ writable m' ↔ (k = Stream.priority_key s ∧ Stream.is_writable s = Ok true) ∨ k ∈ writable m) ∧
        collected m' = collected m ∧ readable m' = readable m ∧ flushable m' = flushable m
  end.
Proof.
  intros Hwf Hi l b r. subst r. destruct (streams m !! i) as [s|] eqn:Hs.
  { unfold get_or_create. by rewrite run_bind_get, Hs. }
  destruct (decide (i ∈ collected m)) as [Hc|Hc].
  { unfold get_or_create. by rewrite run_bind_get, Hs, bool_decide_true. }
  destruct (Bool.eqb local l) eqn:El; cbn [negb].
  2: { unfold get_or_create. rewrite run_bind_get, Hs, bool_decide_false by done. fold l. by rewrite El. }
  apply eqb_prop in El as ->. destruct (Z.leb_spec (limit l b m) (Z.shiftr i 2)) as [Hlim|Hlim].
  - unfold get_or_create. rewrite run_bind_get, Hs, bool_decide_false by done. fold l. rewrite eqb_reflx. cbn [negb].
    destruct (initial_limits lp pp l (is_bidi i)) as [rx tx]. fold b.
    assert (count_stream i l b m = (Err StreamLimit, m)) as Hcount.
    { rewrite count_stream_run by done. cbv zeta. by rewrite (proj2 (Z.ltb_lt _ _)) by lia. }
    by rewrite (run_bind_err _ _ _ _ _ Hcount).
  - destruct (get_or_create_new srv i lp pp m Hwf Hi Hs Hc Hlim)
      as (s & m' & Hr & Hwf' & Es & Ec & E & Eo & Ew & Er & Ef).
    exists s, m'. split_and!; done.
Qed.

(** Priorities: no stream waiting behind the head of a queue precedes it,
    so [peek_flushable], [stream_readable_next] and [stream_writable_next]
    look at a stream of the lowest urgency value first. *)
Theorem queue_head_first srv Q m k q :
  map_wf srv m → queue_of Q m = k :: q → Forall (λ k', ¬ precedes k' k) q ∧ Forall (λ k', K.urgency k <= K.urgency k') q.
Proof.
  intros Hwf Hq. pose proof (mw_queue _ _ Hwf Q) as [Hnd _ _ Hord]. rewrite Hq in Hord, Hnd.
  apply StronglySorted_inv in Hord as [_ Hord]. split; [done|].
  cbn in Hnd. apply NoDup_cons in Hnd as [Hk _].
  rewrite Forall_forall in Hord |- *. intros k' Hk'. pose proof (Hord k' Hk') as Hp. unfold precedes in Hp.
  destruct (Z.lt_ge_cases (K.urgency k') (K.urgency k)); [|done]. exfalso. apply Hp. split; [|by left].
  intros E. apply Hk. rewrite <- E. by apply list_elem_of_fmap_2.
Qed.

(** C37. Fairness among streams of one urgency: an incremental stream that was
    served at the head of a queue and is queued again goes behind every stream
    of its urgency, and stays before those of a larger urgency value. *)
Theorem round_robin srv Q m i s l1 l2 :
  map_wf srv m → streams m !! i = Some s → Stream.incremental s = true →
  queue_of Q m = Stream.priority_key s :: l1 ++ l2 →
  Forall (λ k, K.urgency k = Stream.urgency s) l1 → Forall (λ k, Stream.urgency s < K.urgency k) l2 →
  ∃ m', insert_in Q (Stream.priority_key s) (remove_from Q (Stream.priority_key s) m) = (Ok (), m') ∧
    queue_of Q m' = l1 ++ Stream.priority_key s :: l2 ∧ same_streams m m' ∧
    (∀ Q', Q' ≠ Q → queue_of Q' m' = queue_of Q' m).
Proof.
  intros Hwf Hs Hinc Hq H1 H2. set (k := Stream.priority_key s) in *.
  destruct (ko_key _ (mw_keys _ _ Hwf) _ _ Hs) as (Hid & Hu & Hi & _).
  pose proof (mw_queue _ _ Hwf Q) as HQ. rewrite Hq in HQ.
  pose proof (unlink_head Q m k (l1 ++ l2) HQ) as Hun.
  rewrite remove_from_run, Hq, Hun.
  assert (map_wf srv (set_queue Q (l1 ++ l2) m)) as Hwf'.
  { apply map_wf_set_queue; [done|]. rewrite <- Hun. eapply queue_sublist; [apply unlink_sublist|done]. }
  rewrite insert_in_eq, queue_of_set, decide_True by done.
  assert (is_linked k (l1 ++ l2) = false) as Hl.
  { rewrite <- Hun. unfold is_linked. apply bool_decide_eq_false.
    intros (k' & E & [_ Hne]%elem_of_unlink)%list_elem_of_fmap. by rewrite E in Hne. }
  rewrite Hl. unfold link. rewrite Hl, rb_insert_ordered.
  - eexists. split; [reflexivity|]. split; [by rewrite queue_of_set, decide_True|].
    split; [by destruct Q; constructor; try done; intros [] []|]. intros Q' HQ'. by rewrite !queue_of_set, !decide_False.
  - eapply Forall_impl; [exact H1|]. intros k' Hk'. apply less_false. unfold precedes. fold k in Hu, Hi. cbv beta in Hk'.
    intros [_ [?|(_ & E & _)]]; [lia|congruence].
  - pose proof (qo_ids _ _ _ HQ) as Hnd. cbn in Hnd. apply NoDup_cons in Hnd as [Hn _].
    rewrite Forall_forall in H2 |- *. intros k' Hk'. apply less_spec. split; [|left; rewrite <- Hu in H2; by apply H2].
    intros E. apply Hn. fold k. rewrite E. apply list_elem_of_fmap_2, elem_of_app. by right.
Qed.
End properties.

(** ** Witnesses *)

Definition sample_params : TransportParams.t :=
  TransportParams.with_bidi_remote 1000 (TransportParams.with_bidi_local 1000 TransportParams.default).
Definition sample_map : StreamMap.t := StreamMap.update_peer_max_streams_bidi 10 (StreamMap.new 10 10 1000).

Lemma sample_map_wf : map_wf false sample_map.
Proof. apply (raise_peer_wf false 10), new_map_wf; lia. Qed.

Lemma get_or_create_spec_witness :
  ∃ s m', StreamMap.get_or_create (H := ToyOrders.rbtree) 4 sample_params sample_params true false sample_map = (Ok s, m') ∧
    Stream.bidi s = true ∧ StreamMap.local_opened_streams_bidi m' = 2.
Proof.
  pose proof (get_or_create_spec (H := ToyOrders.rbtree) false 4 sample_params sample_params true sample_map
    sample_map_wf ltac:(lia)) as Hs.
  cbv zeta in Hs. change (StreamMap.streams sample_map !! 4) with (@None Stream.t) in Hs. cbv iota in Hs.
  rewrite decide_False in Hs by (apply not_elem_of_empty).
  change (negb (Bool.eqb true (is_local 4 false))) with false in Hs. cbv iota in Hs.
  change (limit (is_local 4 false) (is_bidi 4) sample_map <=? Z.shiftr 4 2) with false in Hs. cbv iota in Hs.
  destruct Hs as (s & m' & Hr & _ & _ & -> & Ho & _). eexists _, m'. split; [exact Hr|]. split; [done|].
  exact (Ho true true).
Defined.

(** Streams 0 and 4, both writable. *)
Definition open_sample (i : Z) (m : StreamMap.t) : StreamMap.t :=
  (StreamMap.get_or_create (H := ToyOrders.rbtree) i sample_params sample_params true false m).2.
Definition two_streams : StreamMap.t := open_sample 4 (open_sample 0 sample_map).

Lemma open_sample_wf i m : map_wf false m → 0 <= i < 2 ^ 62 → map_wf false (open_sample i m).
Proof.
  intros Hwf Hi. pose proof (wp_get_or_create (H := ToyOrders.rbtree) false i sample_params sample_params true m Hwf Hi) as Hw.
  unfold wp in Hw. unfold open_sample. destruct (StreamMap.get_or_create _ _ _ _ _ _) as [[s|e|] m']; cbn [snd].
  - apply Hw.
  - by destruct Hw as [-> _].
  - done.
Qed.

Lemma two_streams_wf : map_wf false two_streams.
Proof. apply open_sample_wf; [apply open_sample_wf; [apply sample_map_wf|]|]; lia. Qed.

Lemma queue_head_first_witness :
  ∃ k q, StreamMap.writable two_streams = k :: q ∧ StreamPriorityKey.id k = 0 ∧
    Forall (λ k', ¬ precedes k' k) q.
Proof.
  eexists _, _. split; [by vm_compute|]. split; [done|].
  refine (proj1 (queue_head_first false Writable two_streams _ _ two_streams_wf _)).
  by vm_compute.
Defined.

Lemma round_robin_witness :
  ∃ m', insert_in (H := ToyOrders.rbtree) Writable (StreamPriorityKey.mk 127 true 0 0)
          (remove_from Writable (StreamPriorityKey.mk 127 true 0 0) two_streams) = (Ok (), m') ∧
    StreamPriorityKey.id <$> StreamMap.writable m' = [4; 0].
Proof.
  destruct (StreamMap.streams two_streams !! 0) as [s|] eqn:Hs; [|by vm_compute in Hs].
  assert (Stream.priority_key s = StreamPriorityKey.mk 127 true 0 0 ∧ Stream.incremental s = true ∧ Stream.urgency s = 127)
    as (Hk & Hi & Hu) by (vm_compute in Hs; injection Hs as <-; done).
  destruct (round_robin (H := ToyOrders.rbtree) false Writable two_streams 0 s [StreamPriorityKey.mk 127 true 4 1] [])
    as (m' & Hr & Hq & _).
  - apply two_streams_wf.
  - exact Hs.
  - exact Hi.
  - rewrite Hk. by vm_compute.
  - rewrite Hu. by repeat constructor.
  - constructor.
  - rewrite Hk in Hr, Hq. exists m'. split; [exact Hr|]. change (StreamMap.writable m') with (queue_of Writable m'). by rewrite Hq.
Defined.
