(* ===== verification/ConnStreams.v ===== *)
(** * The streams of a connection: the stream part of [Connection] in [quiche/src/lib.rs]

    The application's calls ([stream_recv], [stream_send], ...), the frames of
    the peer that concern streams ([process_frame]), what acknowledgements and
    losses of our own frames do, and the frames of a packet that carry stream
    data and stream limits ([send_single]).  The state is the part of
    [Connection] that these read and write; the counters of retransmitted
    bytes and the qlog events, which nothing reads, are left out. *)
From stdpp Require Import gmap.
From S2P Require Import Prelude Orders OctetsLib FlowCtl RangeBufs RecvBufs SendBufs Frames Params Streams.

(** A call whose error the caller looks at. *)
Definition attempt {S E A} (m : M S E A) : M S E (A + E) := λ s,
  match m s with
  | (Ok a, s') => (Ok (inl a), s')
  | (Err e, s') => (Ok (inr e), s')
  | (Panic, s') => (Panic, s')
  end.

(** [if b { m }] *)
Definition when {S E} (b : bool) (m : M S E unit) : M S E unit := if b then m else mret ().

(** [Shutdown] *)
Inductive Shutdown := Read | Write.

(** ** State *)
Module Conn.
Record t := mk {
  is_server : bool;
  local_transport_params : TransportParams.t;
  peer_transport_params : TransportParams.t;
  streams : StreamMap.t;
  flow_control : FlowControl.t;
  rx_data : Z;
  almost_full : bool;
  max_tx_data : Z;
  tx_data : Z;
  tx_cap : Z;
  tx_buffered : Z;
  blocked_limit : option Z;
  reset_stream_local_count : Z;
  stopped_stream_local_count : Z;
  reset_stream_remote_count : Z;
  stopped_stream_remote_count : Z
}.

Definition set_peer_transport_params v c := mk (is_server c) (local_transport_params c) v (streams
  c) (flow_control c) (rx_data c) (almost_full c) (max_tx_data c) (tx_data c) (tx_cap c)
  (tx_buffered c) (blocked_limit c) (reset_stream_local_count c) (stopped_stream_local_count c)
  (reset_stream_remote_count c) (stopped_stream_remote_count c).
Definition set_streams v c := mk (is_server c) (local_transport_params c) (peer_transport_params c)
  v (flow_control c) (rx_data c) (almost_full c) (max_tx_data c) (tx_data c) (tx_cap c) (tx_buffered
  c) (blocked_limit c) (reset_stream_local_count c) (stopped_stream_local_count c)
  (reset_stream_remote_count c) (stopped_stream_remote_count c).
Definition set_flow_control v c := mk (is_server c) (local_transport_params c)
  (peer_transport_params c) (streams c) v (rx_data c) (almost_full c) (max_tx_data c) (tx_data c)
  (tx_cap c) (tx_buffered c) (blocked_limit c) (reset_stream_local_count c)
  (stopped_stream_local_count c) (reset_stream_remote_count c) (stopped_stream_remote_count c).
Definition set_rx_data v c := mk (is_server c) (local_transport_params c) (peer_transport_params c)
  (streams c) (flow_control c) v (almost_full c) (max_tx_data c) (tx_data c) (tx_cap c) (tx_buffered
  c) (blocked_limit c) (reset_stream_local_count c) (stopped_stream_local_count c)
  (reset_stream_remote_count c) (stopped_stream_remote_count c).
Definition set_almost_full v c := mk (is_server c) (local_transport_params c) (peer_transport_params
  c) (streams c) (flow_control c) (rx_data c) v (max_tx_data c) (tx_data c) (tx_cap c) (tx_buffered
  c) (blocked_limit c) (reset_stream_local_count c) (stopped_stream_local_count c)
  (reset_stream_remote_count c) (stopped_stream_remote_count c).
Definition set_max_tx_data v c := mk (is_server c) (local_transport_params c) (peer_transport_params
  c) (streams c) (flow_control c) (rx_data c) (almost_full c) v (tx_data c) (tx_cap c) (tx_buffered
  c) (blocked_limit c) (reset_stream_local_count c) (stopped_stream_local_count c)
  (reset_stream_remote_count c) (stopped_stream_remote_count c).
Definition set_tx_data v c := mk (is_server c) (local_transport_params c) (peer_transport_params c)
  (streams c) (flow_control c) (rx_data c) (almost_full c) (max_tx_data c) v (tx_cap c) (tx_buffered
  c) (blocked_limit c) (reset_stream_local_count c) (stopped_stream_local_count c)
  (reset_stream_remote_count c) (stopped_stream_remote_count c).
Definition set_tx_cap v c := mk (is_server c) (local_transport_params c) (peer_transport_params c)
  (streams c) (flow_control c) (rx_data c) (almost_full c) (max_tx_data c) (tx_data c) v
  (tx_buffered c) (blocked_limit c) (reset_stream_local_count c) (stopped_stream_local_count c)
  (reset_stream_remote_count c) (stopped_stream_remote_count c).
Definition set_tx_buffered v c := mk (is_server c) (local_transport_params c) (peer_transport_params
  c) (streams c) (flow_control c) (rx_data c) (almost_full c) (max_tx_data c) (tx_data c) (tx_cap c)
  v (blocked_limit c) (reset_stream_local_count c) (stopped_stream_local_count c)
  (reset_stream_remote_count c) (stopped_stream_remote_count c).
Definition set_blocked_limit v c := mk (is_server c) (local_transport_params c)
  (peer_transport_params c) (streams c) (flow_control c) (rx_data c) (almost_full c) (max_tx_data c)
  (tx_data c) (tx_cap c) (tx_buffered c) v (reset_stream_local_count c) (stopped_stream_local_count
  c) (reset_stream_remote_count c) (stopped_stream_remote_count c).
Definition set_reset_stream_local_count v c := mk (is_server c) (local_transport_params c)
  (peer_transport_params c) (streams c) (flow_control c) (rx_data c) (almost_full c) (max_tx_data c)
  (tx_data c) (tx_cap c) (tx_buffered c) (blocked_limit c) v (stopped_stream_local_count c)
  (reset_stream_remote_count c) (stopped_stream_remote_count c).
Definition set_stopped_stream_local_count v c := mk (is_server c) (local_transport_params c)
  (peer_transport_params c) (streams c) (flow_control c) (rx_data c) (almost_full c) (max_tx_data c)
  (tx_data c) (tx_cap c) (tx_buffered c) (blocked_limit c) (reset_stream_local_count c) v
  (reset_stream_remote_count c) (stopped_stream_remote_count c).
Definition set_reset_stream_remote_count v c := mk (is_server c) (local_transport_params c)
  (peer_transport_params c) (streams c) (flow_control c) (rx_data c) (almost_full c) (max_tx_data c)
  (tx_data c) (tx_cap c) (tx_buffered c) (blocked_limit c) (reset_stream_local_count c)
  (stopped_stream_local_count c) v (stopped_stream_remote_count c).
Definition set_stopped_stream_remote_count v c := mk (is_server c) (local_transport_params c)
  (peer_transport_params c) (streams c) (flow_control c) (rx_data c) (almost_full c) (max_tx_data c)
  (tx_data c) (tx_cap c) (tx_buffered c) (blocked_limit c) (reset_stream_local_count c)
  (stopped_stream_local_count c) (reset_stream_remote_count c) v.

(** A method of the stream map. *)
Definition on_streams {A} (m : M StreamMap.t Error A) : M t Error A := zoom streams set_streams m.
(** A method of the stream that a mutable reference into the map points to. *)
Definition on_stream {A} (id : Z) (m : M Stream.t Error A) : M t Error A := λ c,
  match StreamMap.get id (streams c) with
  | Some s => let '(r, s') := m s in (r, set_streams (StreamMap.update id (λ _, s') (streams c)) c)
  | None => (Panic, c)
  end.
Definition on_recv {A} (id : Z) (m : M RecvBuf.t Error A) : M t Error A :=
  on_stream id (zoom Stream.recv Stream.set_recv m).
Definition on_send {A} (id : Z) (m : M SendBuf.t Error A) : M t Error A :=
  on_stream id (zoom Stream.send Stream.set_send m).
Definition on_flow {A} (m : M FlowControl.t Error A) : M t Error A := zoom flow_control set_flow_control m.

(** ** Helpers of the connection *)

Definition max_rx_data (c : t) : Z := FlowControl.max_data (flow_control c).
Definition should_update_max_data (c : t) : result Error bool :=
  FlowControl.should_update_max_data (flow_control c).

(** [cwin_available] is the window left on the active path, 0 without one. *)
Definition update_tx_cap (cwin_available : Z) : M t Error unit :=
  c ← get;
  room ← lift (usub (max_tx_data c) (tx_data c));
  put (set_tx_cap (Z.min cwin_available room) c).

Definition bump (n : Z) : Z := saturating_add n 1.

(** [self.tx_data = self.tx_data.saturating_sub(unsent)], the same for [tx_buffered] *)
Definition claw_back (unsent : Z) (c : t) : t :=
  set_tx_buffered (saturating_sub (tx_buffered c) unsent) (set_tx_data (saturating_sub (tx_data c) unsent) c).

Section operations.
Context `{RBTree} `{NetCoding}.

(** The stream is returned by value; it is the one in the map. *)
Definition get_or_create_stream (id : Z) (local : bool) : M t Error Stream.t :=
  c ← get;
  on_streams (StreamMap.get_or_create id (local_transport_params c) (peer_transport_params c) local (is_server c)).

(** ** The application's calls *)

Definition is_uni_local (id : Z) (c : t) : bool := negb (is_bidi id) && is_local id (is_server c).
Definition is_uni_remote (id : Z) (c : t) : bool := negb (is_bidi id) && negb (is_local id (is_server c)).

(** [out] is a slice of [cap] bytes; the bytes written to it are returned. *)
Definition stream_recv (stream_id cap : Z) : M t Error (list Z * bool) :=
  c ← get;
  if is_uni_local stream_id c then fail (InvalidStreamState stream_id)
  else match StreamMap.get stream_id (streams c) with
  | None => fail (InvalidStreamState stream_id)
  | Some stream =>
      if negb (Stream.is_readable stream) then fail Done
      else
        let local := Stream.local stream in
        let priority_key := Stream.priority_key stream in
        r ← attempt (on_recv stream_id (RecvBuf.emit cap));
        match r with
        | inr e =>
            stream ← on_stream stream_id get;
            when (Stream.is_complete stream) (on_streams (StreamMap.collect stream_id local));;
            on_streams (modify (StreamMap.remove_readable priority_key));;
            fail e
        | inl (out, fin) =>
            on_flow (FlowControl.add_consumed (zlen out));;
            stream ← on_stream stream_id get;
            let readable := Stream.is_readable stream in
            let complete := Stream.is_complete stream in
            almost ← lift (RecvBuf.almost_full (Stream.recv stream));
            when almost (on_streams (modify (StreamMap.insert_almost_full stream_id)));;
            when (negb readable) (on_streams (modify (StreamMap.remove_readable priority_key)));;
            when complete (on_streams (StreamMap.collect stream_id local));;
            update ← reads should_update_max_data;
            when update (modify (set_almost_full true));;
            when (StreamPriorityKey.incremental priority_key && readable)
              (on_streams (modify (StreamMap.remove_readable priority_key));;
               on_streams (StreamMap.insert_readable priority_key));;
            mret (out, fin)
        end
  end.

(** [stream.send.update_blocked_at(Some(max_off)); self.streams.insert_blocked(..)]
    unless the stream was already blocked there. *)
Definition mark_blocked (stream_id : Z) : M t Error unit :=
  stream ← on_stream stream_id get;
  let max_off := SendBuf.max_off (Stream.send stream) in
  when (negb (bool_decide (SendBuf.blocked_at (Stream.send stream) = Some max_off)))
    (on_send stream_id (SendBuf.update_blocked_at (Some max_off));;
     on_streams (modify (StreamMap.insert_blocked stream_id max_off))).

Definition stream_send (stream_id : Z) (buf : list Z) (fin : bool) : M t Error Z :=
  c ← get;
  if is_uni_remote stream_id c then fail (InvalidStreamState stream_id)
  else
    room ← lift (usub (max_tx_data c) (tx_data c));
    when (room <? zlen buf) (modify (set_blocked_limit (Some (max_tx_data c))));;
    let cap := tx_cap c in
    stream ← get_or_create_stream stream_id true;
    was_writable ← lift (Stream.is_writable stream);
    let was_flushable := Stream.is_flushable stream in
    let priority_key := Stream.priority_key stream in
    if (cap =? 0) && negb (zlen buf =? 0) then
      when was_writable (on_streams (StreamMap.insert_writable priority_key));;
      fail Done
    else
      let '(buf, fin, blocked_by_cap) :=
        if cap <? zlen buf then (ztake cap buf, false, true) else (buf, fin, false) in
      r ← attempt (on_send stream_id (SendBuf.write buf fin));
      match r with
      | inr e =>
          on_streams (modify (StreamMap.remove_writable priority_key));;
          fail e
      | inl sent =>
          stream ← on_stream stream_id get;
          let incremental := Stream.incremental stream in
          let priority_key := Stream.priority_key stream in
          let flushable := Stream.is_flushable stream in
          writable ← lift (Stream.is_writable stream);
          let empty_fin := (zlen buf =? 0) && fin in
          (if sent <? zlen buf then mark_blocked stream_id
           else
             on_send stream_id (SendBuf.update_blocked_at None);;
             on_streams (modify (StreamMap.remove_blocked stream_id)));;
          when ((flushable || empty_fin) && negb was_flushable)
            (on_streams (StreamMap.insert_flushable priority_key));;
          (if negb writable then on_streams (modify (StreamMap.remove_writable priority_key))
           else when (was_writable && blocked_by_cap) (on_streams (StreamMap.insert_writable priority_key)));;
          c ← get;
          cap ← lift (usub (tx_cap c) sent);
          data ← lift (uadd (tx_data c) sent);
          buffered ← lift (uadd (tx_buffered c) sent);
          put (set_tx_buffered buffered (set_tx_data data (set_tx_cap cap c)));;
          if (sent =? 0) && negb (zlen buf =? 0) then fail Done
          else
            when (incremental && writable)
              (on_streams (modify (StreamMap.remove_writable priority_key));;
               on_streams (StreamMap.insert_writable priority_key));;
            mret sent
      end.

(** [std::mem::replace(&mut stream.priority_key, new_priority_key)], with a
    new allocation for the key. *)
Definition replace_key (stream_id urgency : Z) (incremental : bool) : M t Error (StreamPriorityKey.t * StreamPriorityKey.t) :=
  stream ← on_stream stream_id get;
  c ← get;
  let new := StreamPriorityKey.mk urgency incremental stream_id (StreamMap.next_addr (streams c)) in
  on_streams (modify (λ m, StreamMap.set_next_addr (StreamMap.next_addr m + 1) m));;
  on_stream stream_id (modify (λ s,
    Stream.set_priority_key new (Stream.set_incremental incremental (Stream.set_urgency urgency s))));;
  mret (Stream.priority_key stream, new).

Definition stream_priority (stream_id urgency : Z) (incremental : bool) : M t Error unit :=
  r ← attempt (get_or_create_stream stream_id true);
  match r with
  | inr Done => mret ()
  | inr e => fail e
  | inl stream =>
      if (Stream.urgency stream =? urgency) && Bool.eqb (Stream.incremental stream) incremental then mret ()
      else
        '(old, new) ← replace_key stream_id urgency incremental;
        on_streams (StreamMap.update_priority old new)
  end.

Definition stream_shutdown (cwin_available stream_id : Z) (direction : Shutdown) (err : Z) : M t Error unit :=
  c ← get;
  if match direction with Read => is_uni_local stream_id c | Write => is_uni_remote stream_id c end
  then fail (InvalidStreamState stream_id)
  else match StreamMap.get stream_id (streams c) with
  | None => fail Done
  | Some stream =>
      let priority_key := Stream.priority_key stream in
      match direction with
      | Read =>
          on_recv stream_id RecvBuf.shutdown;;
          stream ← on_stream stream_id get;
          when (negb (RecvBuf.is_fin (Stream.recv stream)))
            (on_streams (modify (StreamMap.insert_stopped stream_id err)));;
          on_streams (modify (StreamMap.remove_readable priority_key));;
          modify (λ c, set_stopped_stream_local_count (bump (stopped_stream_local_count c)) c)
      | Write =>
          '(final_size, unsent) ← on_send stream_id SendBuf.shutdown;
          modify (claw_back unsent);;
          update_tx_cap cwin_available;;
          on_streams (modify (StreamMap.insert_reset stream_id err final_size));;
          on_streams (modify (StreamMap.remove_writable priority_key));;
          modify (λ c, set_reset_stream_local_count (bump (reset_stream_local_count c)) c)
      end
  end.

Definition stream_capacity (stream_id : Z) (c : t) : result Error Z :=
  match StreamMap.get stream_id (streams c) with
  | Some stream => cap ← SendBuf.cap (Stream.send stream); Ok (Z.min (tx_cap c) cap)
  | None => Err (InvalidStreamState stream_id)
  end.

Definition stream_readable_next : M t Error (option Z) :=
  c ← get;
  match StreamMap.readable (streams c) with
  | [] => mret None
  | priority_key :: _ =>
      on_streams (modify (StreamMap.remove_readable priority_key));;
      mret (Some (StreamPriorityKey.id priority_key))
  end.

Definition stream_readable (stream_id : Z) (c : t) : bool :=
  match StreamMap.get stream_id (streams c) with Some stream => Stream.is_readable stream | None => false end.

(** The [while] loop over the cursor: the first key to return. *)
Fixpoint next_writable (keys : list StreamPriorityKey.t) (c : t) : result Error (option StreamPriorityKey.t) :=
  match keys with
  | [] => Ok None
  | priority_key :: keys =>
      match StreamMap.get (StreamPriorityKey.id priority_key) (streams c) with
      | Some stream =>
          match SendBuf.cap (Stream.send stream) with
          | Err _ => Ok (Some priority_key)
          | Ok cap =>
              if Stream.send_lowat stream <=? Z.min (tx_cap c) cap then Ok (Some priority_key)
              else next_writable keys c
          | Panic => Panic
          end
      | None => next_writable keys c
      end
  end.

Definition stream_writable_next : M t Error (option Z) :=
  c ← get;
  if tx_cap c =? 0 then mret None
  else
    k ← reads (next_writable (StreamMap.writable (streams c)));
    match k with
    | Some priority_key =>
        on_streams (modify (StreamMap.remove_writable priority_key));;
        mret (Some (StreamPriorityKey.id priority_key))
    | None => mret None
    end.

Definition stream_writable (stream_id len : Z) : M t Error bool :=
  capacity ← reads (stream_capacity stream_id);
  if len <=? capacity then mret true
  else
    c ← get;
    match StreamMap.get stream_id (streams c) with
    | None => fail (InvalidStreamState stream_id)
    | Some _ =>
        on_stream stream_id (modify (Stream.set_send_lowat (Z.max 1 len)));;
        stream ← on_stream stream_id get;
        is_writable ← lift (Stream.is_writable stream);
        let priority_key := Stream.priority_key stream in
        room ← lift (usub (max_tx_data c) (tx_data c));
        when (room <? len) (modify (set_blocked_limit (Some (max_tx_data c))));;
        cap ← lift (SendBuf.cap (Stream.send stream));
        (if cap <? len then mark_blocked stream_id
         else when is_writable (on_streams (StreamMap.insert_writable priority_key)));;
        mret false
    end.

Definition stream_finished (stream_id : Z) (c : t) : bool :=
  match StreamMap.get stream_id (streams c) with
  | Some stream => RecvBuf.is_fin (Stream.recv stream)
  | None => true
  end.

Definition peer_streams_left_bidi (c : t) : result Error Z := StreamMap.peer_streams_left_bidi (streams c).
Definition peer_streams_left_uni (c : t) : result Error Z := StreamMap.peer_streams_left_uni (streams c).

(** ** Frames of the peer *)

(** [match self.get_or_create_stream(stream_id, false) { Ok(v) => v,
    Err(Error::Done) => return Ok(()), Err(e) => return Err(e) }] and the rest
    of the arm. *)
Definition with_peer_stream (stream_id : Z) (k : Stream.t → M t Error unit) : M t Error unit :=
  r ← attempt (get_or_create_stream stream_id false);
  match r with
  | inl stream => k stream
  | inr Done => mret ()
  | inr e => fail e
  end.

Definition on_reset_stream (stream_id error_code final_size : Z) : M t Error unit :=
  c ← get;
  if is_uni_local stream_id c then fail (InvalidStreamState stream_id)
  else
    max_rx_data_left ← lift (usub (max_rx_data c) (rx_data c));
    with_peer_stream stream_id (λ stream,
      let was_readable := Stream.is_readable stream in
      let priority_key := Stream.priority_key stream in
      max_off_delta ← on_recv stream_id (RecvBuf.reset error_code final_size);
      if max_rx_data_left <? max_off_delta then fail FlowControl
      else
        stream ← on_stream stream_id get;
        when (negb was_readable && Stream.is_readable stream)
          (on_streams (StreamMap.insert_readable priority_key));;
        c ← get;
        rx ← lift (uadd (rx_data c) max_off_delta);
        put (set_reset_stream_remote_count (bump (reset_stream_remote_count c)) (set_rx_data rx c))).

Definition on_stop_sending (stream_id error_code : Z) : M t Error unit :=
  c ← get;
  if is_uni_remote stream_id c then fail (InvalidStreamState stream_id)
  else
    with_peer_stream stream_id (λ stream,
      was_writable ← lift (Stream.is_writable stream);
      let priority_key := Stream.priority_key stream in
      r ← attempt (on_send stream_id (SendBuf.stop error_code));
      match r with
      | inl (final_size, unsent) =>
          modify (claw_back unsent);;
          on_streams (modify (StreamMap.insert_reset stream_id error_code final_size));;
          when (negb was_writable) (on_streams (StreamMap.insert_writable priority_key));;
          modify (λ c, set_reset_stream_local_count (bump (reset_stream_local_count c))
                         (set_stopped_stream_remote_count (bump (stopped_stream_remote_count c)) c))
      | inr _ => mret ()
      end).

Definition on_stream_data (stream_id : Z) (data : RangeBuf.t) : M t Error unit :=
  c ← get;
  if is_uni_local stream_id c then fail (InvalidStreamState stream_id)
  else
    max_rx_data_left ← lift (usub (max_rx_data c) (rx_data c));
    with_peer_stream stream_id (λ stream,
      let max_off_delta := saturating_sub (RangeBuf.max_off data) (RecvBuf.max_off (Stream.recv stream)) in
      if max_rx_data_left <? max_off_delta then fail FlowControl
      else
        let was_readable := Stream.is_readable stream in
        let priority_key := Stream.priority_key stream in
        let was_draining := RecvBuf.is_draining (Stream.recv stream) in
        on_recv stream_id (RecvBuf.write data);;
        stream ← on_stream stream_id get;
        when (negb was_readable && Stream.is_readable stream)
          (on_streams (StreamMap.insert_readable priority_key));;
        c ← get;
        rx ← lift (uadd (rx_data c) max_off_delta);
        put (set_rx_data rx c);;
        when was_draining
          (on_flow (FlowControl.add_consumed max_off_delta);;
           update ← reads should_update_max_data;
           when update (modify (set_almost_full true)))).

Definition on_max_data (max : Z) : M t Error unit :=
  modify (λ c, set_max_tx_data (Z.max (max_tx_data c) max) c).

Definition on_max_stream_data (stream_id max : Z) : M t Error unit :=
  c ← get;
  if is_uni_remote stream_id c then fail (InvalidStreamState stream_id)
  else
    with_peer_stream stream_id (λ stream,
      let was_flushable := Stream.is_flushable stream in
      on_send stream_id (SendBuf.update_max_data max);;
      stream ← on_stream stream_id get;
      writable ← lift (Stream.is_writable stream);
      let priority_key := Stream.priority_key stream in
      when (Stream.is_flushable stream && negb was_flushable)
        (on_streams (StreamMap.insert_flushable priority_key));;
      when writable (on_streams (StreamMap.insert_writable priority_key))).

(** The arms of [process_frame] for the frames that concern streams; [None]
    for the other frames. *)
Definition process_frame (f : Frame.t) : option (M t Error unit) :=
  match f with
  | Frame.ResetStream stream_id error_code final_size => Some (on_reset_stream stream_id error_code final_size)
  | Frame.StopSending stream_id error_code => Some (on_stop_sending stream_id error_code)
  | Frame.Stream stream_id data => Some (on_stream_data stream_id data)
  | Frame.MaxData max => Some (on_max_data max)
  | Frame.MaxStreamData stream_id max => Some (on_max_stream_data stream_id max)
  | Frame.MaxStreamsBidi max =>
      Some (if MAX_STREAM_ID <? max then fail InvalidFrame
            else on_streams (modify (StreamMap.update_peer_max_streams_bidi max)))
  | Frame.MaxStreamsUni max =>
      Some (if MAX_STREAM_ID <? max then fail InvalidFrame
            else on_streams (modify (StreamMap.update_peer_max_streams_uni max)))
  | Frame.DataBlocked _ | Frame.StreamDataBlocked _ _ => Some (mret ())
  | Frame.StreamsBlockedBidi limit | Frame.StreamsBlockedUni limit =>
      Some (if MAX_STREAM_ID <? limit then fail InvalidFrame else mret ())
  | _ => None
  end.

(** ** Acknowledged and lost frames *)

(** [if stream.is_complete() && !stream.is_readable() { collect }] *)
Definition collect_if_done (stream_id : Z) : M t Error unit :=
  stream ← on_stream stream_id get;
  when (Stream.is_complete stream && negb (Stream.is_readable stream))
    (on_streams (StreamMap.collect stream_id (Stream.local stream))).

Definition acked_frame (f : Frame.t) : M t Error unit :=
  c ← get;
  match f with
  | Frame.StreamHeader stream_id offset length _ =>
      match StreamMap.get stream_id (streams c) with
      | None => mret ()
      | Some _ =>
          on_send stream_id (SendBuf.ack_and_drop offset length);;
          modify (λ c, set_tx_buffered (saturating_sub (tx_buffered c) length) c);;
          collect_if_done stream_id
      end
  | Frame.ResetStream stream_id _ _ =>
      match StreamMap.get stream_id (streams c) with
      | None => mret ()
      | Some _ => collect_if_done stream_id
      end
  | _ => mret ()
  end.

Definition lost_frame (f : Frame.t) : M t Error unit :=
  c ← get;
  match f with
  | Frame.StreamHeader stream_id offset length fin =>
      match StreamMap.get stream_id (streams c) with
      | None => mret ()
      | Some stream =>
          let was_flushable := Stream.is_flushable stream in
          let empty_fin := (length =? 0) && fin in
          on_send stream_id (SendBuf.retransmit offset length);;
          stream ← on_stream stream_id get;
          when ((Stream.is_flushable stream || empty_fin) && negb was_flushable)
            (on_streams (StreamMap.insert_flushable (Stream.priority_key stream)))
      end
  | Frame.ResetStream stream_id error_code final_size =>
      when (bool_decide (is_Some (StreamMap.get stream_id (streams c))))
        (on_streams (modify (StreamMap.insert_reset stream_id error_code final_size)))
  | Frame.MaxStreamData stream_id _ =>
      when (bool_decide (is_Some (StreamMap.get stream_id (streams c))))
        (on_streams (modify (StreamMap.insert_almost_full stream_id)))
  | Frame.MaxData _ => modify (set_almost_full true)
  | _ => mret ()
  end.

(** ** Creation, and the peer's transport parameters *)

Definition DEFAULT_CONNECTION_WINDOW : Z := 48 * 1024.

Definition new (is_server : bool) (local_params : TransportParams.t) (max_connection_window max_stream_window : Z)
    : result Error t :=
  let max_rx_data := TransportParams.initial_max_data local_params in
  window ← umul (max_rx_data / 2) 3;
  Ok (mk is_server local_params TransportParams.default
        (StreamMap.new (TransportParams.initial_max_streams_bidi local_params)
           (TransportParams.initial_max_streams_uni local_params) max_stream_window)
        (FlowControl.new max_rx_data (Z.min window DEFAULT_CONNECTION_WINDOW) max_connection_window)
        0 false 0 0 0 0 None 0 0 0 0).

(** The part that concerns streams; the rest sets limits of the path, of the
    recovery and of the connection ids. *)
Definition process_peer_transport_params (cwin_available : Z) (peer_params : TransportParams.t) : M t Error unit :=
  modify (set_max_tx_data (TransportParams.initial_max_data peer_params));;
  update_tx_cap cwin_available;;
  on_streams (modify (StreamMap.update_peer_max_streams_bidi (TransportParams.initial_max_streams_bidi peer_params)));;
  on_streams (modify (StreamMap.update_peer_max_streams_uni (TransportParams.initial_max_streams_uni peer_params)));;
  modify (set_peer_transport_params peer_params).
End operations.
End Conn.

(** ** The stream frames of a packet ([send_single])

    A packet under construction: the output buffer, the frames written so far,
    the room left, and the three flags of the packet. *)
Module Packing.
Section packing.
Context `{RBTree} `{StdOrders} `{NetCoding}.

Record pkt := mk_pkt {
  b : octets;
  frames : list Frame.t;
  left : Z;
  ack_eliciting : bool;
  in_flight : bool;
  has_data : bool
}.

Record t := mk { conn : Conn.t; pk : pkt }.
Definition set_conn (c : Conn.t) (s : t) : t := mk c (pk s).
Definition set_pk (p : pkt) (s : t) : t := mk (conn s) p.
Definition set_b (o : octets) (p : pkt) : pkt :=
  mk_pkt o (frames p) (left p) (ack_eliciting p) (in_flight p) (has_data p).

Definition on_conn {A} (m : M Conn.t Error A) : M t Error A := zoom conn set_conn m.
Definition on_b {A} (m : M octets Error A) : M t Error A := zoom (λ s, b (pk s)) (λ o s, set_pk (set_b o (pk s)) s) m.
(** [ack_eliciting = true; in_flight = true;] *)
Definition mark_eliciting : M t Error unit :=
  modify (λ s, set_pk (mk_pkt (b (pk s)) (frames (pk s)) (left (pk s)) true true (has_data (pk s))) s).
Definition mark_data : M t Error unit :=
  modify (λ s, set_pk (mk_pkt (b (pk s)) (frames (pk s)) (left (pk s)) (ack_eliciting (pk s)) (in_flight (pk s)) true) s).

(** [push_frame_to_pkt!] *)
Definition push_frame_to_pkt (frame : Frame.t) : M t Error bool :=
  s ← get;
  n ← lift (Frame.wire_len frame);
  if n <=? left (pk s) then
    modify (λ s, set_pk (mk_pkt (b (pk s)) (frames (pk s)) (left (pk s) - n) (ack_eliciting (pk s)) (in_flight (pk s)) (has_data (pk s))) s);;
    on_b (Frame.to_bytes frame);;
    modify (λ s, set_pk (mk_pkt (b (pk s)) (frames (pk s) ++ [frame]) (left (pk s)) (ack_eliciting (pk s)) (in_flight (pk s)) (has_data (pk s))) s);;
    mret true
  else mret false.

(** [if push_frame_to_pkt!(..) { k; ack_eliciting = true; in_flight = true; }] *)
Definition push_and (frame : Frame.t) (k : M t Error unit) : M t Error unit :=
  pushed ← push_frame_to_pkt frame;
  if (pushed : bool) then k;; mark_eliciting else mret ().

(** [for x in l { f(x) }] *)
Fixpoint for_each {A} (l : list A) (f : A → M t Error unit) : M t Error unit :=
  match l with [] => mret () | x :: l => f x;; for_each l f end.

Definition max_streams_frames : M t Error unit :=
  s ← get;
  should ← lift (StreamMap.should_update_max_streams_bidi (Conn.streams (conn s)));
  when should (push_and (Frame.MaxStreamsBidi (StreamMap.max_streams_bidi_next (Conn.streams (conn s))))
                (on_conn (Conn.on_streams (modify StreamMap.update_max_streams_bidi))));;
  s ← get;
  should ← lift (StreamMap.should_update_max_streams_uni (Conn.streams (conn s)));
  when should (push_and (Frame.MaxStreamsUni (StreamMap.max_streams_uni_next (Conn.streams (conn s))))
                (on_conn (Conn.on_streams (modify StreamMap.update_max_streams_uni)))).

Definition data_blocked_frame : M t Error unit :=
  s ← get;
  match Conn.blocked_limit (conn s) with
  | Some limit => push_and (Frame.DataBlocked limit) (on_conn (modify (Conn.set_blocked_limit None)))
  | None => mret ()
  end.

(** An integer as an [f64]: the nearest one with 53 significant bits, ties to even. *)
Definition round53 (n : Z) : Z :=
  let e := Z.max 0 (Z.log2 n - 52) in
  let q := n / 2 ^ e in
  let r := n mod 2 ^ e in
  let up := (2 ^ e <? 2 * r) || ((2 ^ e =? 2 * r) && Z.odd q && (0 <? e)) in
  (if up then q + 1 else q) * 2 ^ e.
(** [(w as f64 * CONNECTION_WINDOW_FACTOR) as u64]; the factor is 3/2. *)
Definition CONNECTION_WINDOW_FACTOR (w : Z) : Z := Z.min u64_max (round53 (3 * round53 w) / 2).

(** [now] and [rtt] are the current instant and [path.recovery.rtt()]. *)
Definition max_stream_data_frame (now rtt stream_id : Z) : M t Error unit :=
  s ← get;
  match StreamMap.get stream_id (Conn.streams (conn s)) with
  | None => on_conn (Conn.on_streams (modify (StreamMap.remove_almost_full stream_id)))
  | Some _ =>
      on_conn (Conn.on_recv stream_id (RecvBuf.autotune_window now rtt));;
      stream ← on_conn (Conn.on_stream stream_id get);
      max ← lift (RecvBuf.max_data_next (Stream.recv stream));
      push_and (Frame.MaxStreamData stream_id max)
        (let recv_win := RecvBuf.window (Stream.recv stream) in
         on_conn (Conn.on_recv stream_id (RecvBuf.update_max_data now));;
         on_conn (Conn.on_streams (modify (StreamMap.remove_almost_full stream_id)));;
         on_conn (Conn.on_flow (FlowControl.ensure_window_lower_bound (CONNECTION_WINDOW_FACTOR recv_win)));;
         on_conn (modify (Conn.set_almost_full true)))
  end.

Definition max_data_frame (now rtt : Z) : M t Error unit :=
  s ← get;
  let fc := Conn.flow_control (conn s) in
  next ← lift (if Conn.almost_full (conn s) then FlowControl.max_data_next fc else Ok 0);
  when (Conn.almost_full (conn s) && (FlowControl.max_data fc <? next))
    (on_conn (Conn.on_flow (FlowControl.autotune_window now rtt));;
     s ← get;
     max ← lift (FlowControl.max_data_next (Conn.flow_control (conn s)));
     push_and (Frame.MaxData max)
       (on_conn (modify (Conn.set_almost_full false));;
        on_conn (Conn.on_flow (FlowControl.update_max_data now)))).

Definition stop_sending_frame (p : Z * Z) : M t Error unit :=
  push_and (Frame.StopSending p.1 p.2) (on_conn (Conn.on_streams (modify (StreamMap.remove_stopped p.1)))).
Definition reset_stream_frame (p : Z * (Z * Z)) : M t Error unit :=
  push_and (Frame.ResetStream p.1 p.2.1 p.2.2) (on_conn (Conn.on_streams (modify (StreamMap.remove_reset p.1)))).
Definition stream_data_blocked_frame (p : Z * Z) : M t Error unit :=
  push_and (Frame.StreamDataBlocked p.1 p.2) (on_conn (Conn.on_streams (modify (StreamMap.remove_blocked p.1)))).

(** The frames between HANDSHAKE_DONE and RETIRE_CONNECTION_ID of a 1-RTT
    packet on the active path. *)
Definition control_frames (now rtt : Z) : M t Error unit :=
  max_streams_frames;;
  data_blocked_frame;;
  s ← get;
  for_each (StreamIter.streams (StreamMap.almost_full_iter (Conn.streams (conn s)))) (max_stream_data_frame now rtt);;
  max_data_frame now rtt;;
  s ← get;
  for_each (StreamMap.stopped_iter (Conn.streams (conn s))) stop_sending_frame;;
  s ← get;
  for_each (StreamMap.reset_iter (Conn.streams (conn s))) reset_stream_frame;;
  s ← get;
  for_each (StreamMap.blocked_iter (Conn.streams (conn s))) stream_data_blocked_frame.

(** [stream.send.emit(&mut payload.as_mut()[..max_len])], where [payload] is
    the window of the output buffer from [from] to its end. *)
Definition emit_into (stream_id from max_len : Z) : M t Error (list Z * bool) :=
  s ← get;
  if zlen (o_buf (b (pk s))) - from <? max_len then panic
  else
    '(out, fin) ← on_conn (Conn.on_send stream_id (SendBuf.emit max_len));
    on_b (modify (λ o, mk_octets (zsplice from out (o_buf o)) (o_off o)));;
    mret (out, fin).

(** One STREAM frame for the stream [stream_id], whose key is [priority_key];
    [max_len] bytes of payload fit. *)
Definition write_stream (stream_id stream_off hdr_len max_len : Z) : M t Error unit :=
  s ← get;
  let hdr_off := o_off (b (pk s)) in
  '(hdr, payload) ← on_b (OctetsMut.split_at (hdr_off + hdr_len));
  '(out, fin) ← emit_into stream_id payload.1 max_len;
  let len := zlen out in
  on_b (OctetsMut.in_window hdr
    (OctetsMut.skip hdr_off;; Frame.encode_stream_header stream_id stream_off len fin));;
  on_b (OctetsMut.skip (hdr_len + len));;
  push_and (Frame.StreamHeader stream_id stream_off len fin) mark_data;;
  stream ← on_conn (Conn.on_stream stream_id get);
  let priority_key := Stream.priority_key stream in
  if negb (Stream.is_flushable stream) then
    on_conn (Conn.on_streams (modify (StreamMap.remove_flushable priority_key)))
  else when (Stream.incremental stream)
    (on_conn (Conn.on_streams (modify (StreamMap.remove_flushable priority_key)));;
     on_conn (Conn.on_streams (StreamMap.insert_flushable priority_key))).

(** [while let Some(priority_key) = self.streams.peek_flushable()]: every turn
    that goes on removes a key. *)
Fixpoint stream_loop (fuel : nat) : M t Error unit :=
  match fuel with
  | O => panic
  | S fuel =>
      s ← get;
      match StreamMap.peek_flushable (Conn.streams (conn s)) with
      | None => mret ()
      | Some priority_key =>
          let stream_id := StreamPriorityKey.id priority_key in
          match StreamMap.get stream_id (Conn.streams (conn s)) with
          | Some stream =>
              if negb (SendBuf.is_stopped (Stream.send stream)) then
                let stream_off := SendBuf.off_front (Stream.send stream) in
                id_len ← lift (varint_len stream_id);
                off_len ← lift (varint_len stream_off);
                let hdr_len := 1 + id_len + off_len + 2 in
                if left (pk s) <? hdr_len then
                  on_conn (Conn.on_streams (modify (StreamMap.remove_flushable (Stream.priority_key stream))));;
                  stream_loop fuel
                else write_stream stream_id stream_off hdr_len (left (pk s) - hdr_len)
              else
                on_conn (Conn.on_streams (modify (StreamMap.remove_flushable priority_key)));;
                stream_loop fuel
          | None =>
              on_conn (Conn.on_streams (modify (StreamMap.remove_flushable priority_key)));;
              stream_loop fuel
          end
      end
  end.

(** [may_send]: a 1-RTT or 0-RTT packet on the active path of a connection
    that is not closing and in which no DATAGRAM frame was written. *)
Definition stream_frames (may_send : bool) : M t Error unit :=
  s ← get;
  when (may_send && (MAX_STREAM_OVERHEAD <? left (pk s)))
    (stream_loop (S (length (StreamMap.flushable (Conn.streams (conn s)))))).
End packing.
End Packing.
