(* ===== verification/ConnInv.v ===== *)
(** * The invariant of the streams of a connection

    [conn_ok] says what holds between the calls: the stream map and every
    stream are well formed, every stream with something to send is queued, the
    send capacity lies within the peer's limit, and what was received lies
    within ours, with the bytes still buffered accounted for.  Its two
    parameters are what a call may break for a moment: a stream that is yet
    to be queued, and received bytes that are yet to be charged. *)
From stdpp Require Import gmap.
From S2P Require Import Prelude Orders OctetsLib FlowCtl RangeBufs Ranges RecvBufs SendBufs Frames Params Streams ConnStreams.

(** ** Weakest preconditions for the connection's combinators *)
Section wp_rules.
Context {S E : Type}.

Lemma wp_attempt {A} (m : M S E A) Q QE s :
  wp m (λ a s', Q (inl a) s') (λ e s', Q (inr e) s') s → wp (attempt m) Q QE s.
Proof. unfold wp, attempt. by destruct (m s) as [[]]. Qed.

Lemma wp_when (b : bool) (m : M S E unit) (Q : unit → S → Prop) QE s :
  (b = true → wp m Q QE s) → (b = false → Q () s) → wp (when b m) Q QE s.
Proof. destruct b; cbn; auto. Qed.

Lemma wp_reads {A} (f : S → result E A) a Q QE s : f s = Ok a → Q a s → wp (reads f) Q QE s.
Proof. unfold wp, reads. by intros ->. Qed.
Lemma wp_put (s' : S) (Q : unit → S → Prop) QE s : Q () s' → wp (put s') Q (QE : E → S → Prop) s.
Proof. done. Qed.
Lemma wp_run {A} (m : M S E A) a s' (Q : A → S → Prop) QE s : m s = (Ok a, s') → Q a s' → wp m Q QE s.
Proof. unfold wp. by intros ->. Qed.
Lemma wp_run_err {A} (m : M S E A) e s' (Q : A → S → Prop) (QE : E → S → Prop) s :
  m s = (Err e, s') → QE e s' → wp m Q QE s.
Proof. unfold wp. by intros ->. Qed.
End wp_rules.

(** ** Sums over the open streams *)
Definition total (f : Stream.t → Z) (m : gmap Z Stream.t) : Z := map_fold (λ _ s n, f s + n) 0 m.

Section total.
Context (f : Stream.t → Z).
Implicit Types (m : gmap Z Stream.t).

Lemma total_empty : total f ∅ = 0.
Proof. done. Qed.
Lemma total_insert i s m : m !! i = None → total f (<[i := s]> m) = f s + total f m.
Proof. intros Hi. unfold total. rewrite map_fold_insert_L; [done| |done]. intros. lia. Qed.
Lemma total_delete i s m : m !! i = Some s → total f m = f s + total f (delete i m).
Proof. intros Hi. unfold total. rewrite (map_fold_delete_L _ _ i s m); [done| |done]. intros. lia. Qed.
Lemma total_update i s s' m : m !! i = Some s → total f (<[i := s']> m) = total f m - f s + f s'.
Proof.
  intros Hi. rewrite (total_delete i s m Hi), <- insert_delete_eq, total_insert by apply lookup_delete_eq. lia.
Qed.
Lemma total_nonneg m : (∀ i s, m !! i = Some s → 0 <= f s) → 0 <= total f m.
Proof.
  induction m as [|i s m Hi IH] using map_ind; intros Hf; [rewrite total_empty; lia|]. rewrite total_insert by done.
  pose proof (Hf i s (lookup_insert_eq _ _ _)).
  enough (0 <= total f m) by lia. apply IH. intros j s' Hj. apply (Hf j). rewrite lookup_insert_ne; [done|congruence].
Qed.
Lemma total_le i s m : (∀ i s, m !! i = Some s → 0 <= f s) → m !! i = Some s → f s <= total f m.
Proof.
  intros Hf Hi. rewrite (total_delete i s m Hi). enough (0 <= total f (delete i m)) by lia.
  apply total_nonneg. intros j s' [_ Hj]%lookup_delete_Some. by apply (Hf j).
Qed.
End total.

(** ** One stream *)

(** Received and not yet read; a draining stream keeps nothing. *)
Definition held (s : Stream.t) : Z :=
  if RecvBuf.drain (Stream.recv s) then 0 else RecvBuf.len (Stream.recv s) - RecvBuf.off (Stream.recv s).

(** A stopped stream has nothing left to send. *)
Definition stopped_empty (sb : SendBuf.t) : Prop := SendBuf.error sb ≠ None → SendBuf.data sb = [].

Record stream_wf (s : Stream.t) : Prop := {
  st_recv : recv_wf (Stream.recv s);
  st_send : send_wf (Stream.send s);
  st_max : SendBuf.max_data (Stream.send s) <= varint_max;
  st_lowat : 1 <= Stream.send_lowat s <= 2 ^ 63;
  st_stopped : stopped_empty (Stream.send s)
}.

Section stream.
Implicit Types (s : Stream.t).

Lemma held_bounds s : stream_wf s → 0 <= held s <= RecvBuf.len (Stream.recv s).
Proof.
  intros [Hr _ _ _ _]. pose proof (recv_off _ Hr). unfold held. destruct (RecvBuf.drain _); lia.
Qed.

Lemma send_off_bounds s : stream_wf s → 0 <= SendBuf.off (Stream.send s) <= SendBuf.max_data (Stream.send s) ∧
  SendBuf.max_data (Stream.send s) <= varint_max.
Proof.
  intros [_ Hs Hm _ _]. pose proof (q_max _ _ (sw_queue _ Hs)). pose proof (sw_off _ Hs). lia.
Qed.

Lemma is_writable_run s : stream_wf s → ∃ b, Stream.is_writable s = Ok b.
Proof.
  intros Hwf. pose proof (send_off_bounds s Hwf) as [? ?]. pose proof (st_lowat _ Hwf).
  unfold Stream.is_writable. destruct (_ && _); [|by eexists].
  unfold SendBuf.off_back. rewrite uadd_ok by lia. by eexists.
Qed.

Lemma almost_full_run s : stream_wf s → ∃ b, RecvBuf.almost_full (Stream.recv s) = Ok b.
Proof.
  intros [Hr _ _ _ _]. unfold RecvBuf.almost_full. destruct (RecvBuf.fin_off _); [by eexists|].
  pose proof (recv_consumed _ Hr). pose proof (recv_off _ Hr). pose proof (recv_len _ Hr).
  unfold RecvBuf.max_data in *. rewrite FlowControl.should_update_run by lia. by eexists.
Qed.

(** A stream can be flushed exactly when some offset is waiting to be sent. *)
Lemma flushable_pending s :
  send_wf (Stream.send s) → Stream.is_flushable s = true ↔ ∃ o, pending (SendBuf.data (Stream.send s)) o.
Proof.
  intros Hwf. set (sb := Stream.send s) in *. pose proof (sw_queue _ Hwf) as Hq. pose proof (q_max _ _ Hq).
  destruct (off_front_spec _ _ Hq) as (Hb & Hfront & Hpend).
  unfold Stream.is_flushable, SendBuf.off_back, SendBuf.max_off. fold sb.
  rewrite !andb_true_iff, negb_true_iff, !Z.ltb_lt. split.
  - intros [[_ Hlt] _]. exists (SendBuf.off_front sb). by apply Hpend.
  - intros [o Ho]. pose proof (Hfront o Ho). pose proof (chain_pending _ _ _ _ (q_chain _ _ Hq) Ho).
    split; [split|]; [|lia..]. unfold SendBuf.is_empty. destruct (SendBuf.data sb); [|done]. by apply pending_nil in Ho.
Qed.

Lemma empty_not_flushable s : SendBuf.data (Stream.send s) = [] → Stream.is_flushable s = false.
Proof. intros E. unfold Stream.is_flushable, SendBuf.is_empty. by rewrite E. Qed.

Lemma new_stream_wf i rx tx b l w a :
  0 <= rx <= u64_max → is_varint tx → stream_wf (Stream.new i rx tx b l w a).
Proof.
  intros Hrx Htx. unfold is_varint in Htx. constructor; cbn.
  - by apply new_wf.
  - apply new_send_wf. lia.
  - lia.
  - lia.
  - done.
Qed.
End stream.

(** ** The invariant *)

(** The ids that were used. *)
Definition used (i : Z) (m : StreamMap.t) : Prop :=
  is_Some (StreamMap.streams m !! i) ∨ i ∈ StreamMap.collected m.

(** The counters of flow control. *)
Record counters := mk_counters {
  k_flow : FlowControl.t; k_rx : Z; k_max : Z; k_tx : Z; k_cap : Z; k_buffered : Z
}.
Definition counters_of (c : Conn.t) : counters :=
  mk_counters (Conn.flow_control c) (Conn.rx_data c) (Conn.max_tx_data c) (Conn.tx_data c) (Conn.tx_cap c)
    (Conn.tx_buffered c).

(** [kept] is the sum of the bytes that the streams hold and [d] what is yet
    to be charged. *)
Record counters_ok (kept d : Z) (k : counters) : Prop := {
  ko_cap : 0 <= k_cap k ∧ 0 <= k_tx k ∧ k_cap k + k_tx k <= k_max k <= varint_max;
  ko_buffered : 0 <= k_buffered k <= k_tx k;
  ko_rx : 0 <= FlowControl.consumed (k_flow k) ∧ FlowControl.consumed (k_flow k) + kept <= k_rx k + d ∧
    k_rx k <= FlowControl.max_data (k_flow k) <= u64_max
}.

(** Streams that a packet may have taken off the queue of flushable streams with
    their data, since its room was too small for their header. *)
Class Stuck := stuck : Z → Prop.

Section invariant.
Context `{RBTree} {stk : Stuck}.
Implicit Types (c : Conn.t) (s : Stream.t) (m : StreamMap.t).

Record conn_ok (x : option Z) (d : Z) c : Prop := {
  co_map : map_wf (Conn.is_server c) (Conn.streams c);
  co_stream i s : StreamMap.streams (Conn.streams c) !! i = Some s → stream_wf s ∧ 0 <= i < 2 ^ 62;
  co_queued i s : StreamMap.streams (Conn.streams c) !! i = Some s → Stream.is_flushable s = true → x ≠ Some i → ¬ stuck i →
    Stream.priority_key s ∈ StreamMap.flushable (Conn.streams c);
  co_counters : counters_ok (total held (StreamMap.streams (Conn.streams c))) d (counters_of c);
  co_params : max_limits (Conn.local_transport_params c) ∧ max_limits (Conn.peer_transport_params c)
}.

Definition conn_wf c : Prop := conn_ok None 0 c.

(** Streams are opened at most once and what was sent stays sent. *)
Record evolves c c' : Prop := {
  ev_server : Conn.is_server c' = Conn.is_server c;
  ev_used i : used i (Conn.streams c) → used i (Conn.streams c');
  ev_sent i s' : StreamMap.streams (Conn.streams c') !! i = Some s' →
    (∃ s, StreamMap.streams (Conn.streams c) !! i = Some s ∧
          SendBuf.emit_off (Stream.send s) <= SendBuf.emit_off (Stream.send s')) ∨
    ¬ used i (Conn.streams c)
}.

#[global] Instance evolves_preorder : PreOrder evolves.
Proof.
  split.
  - intros c. constructor; [done..|]. intros i s Hs. left. exists s. split; [done|lia].
  - intros c1 c2 c3 [E1 U1 S1] [E2 U2 S2]. constructor; [congruence|auto|].
    intros i s3 H3. destruct (S2 i s3 H3) as [(s2 & H2 & Hle2)|Hn]; [|right; auto].
    destruct (S1 i s2 H2) as [(s1 & H1 & Hle1)|Hn]; [|by right]. left. exists s1. split; [done|lia].
Qed.

Lemma conn_ok_weaken x x' d d' c : d <= d' → (x = None ∨ x = x') → conn_ok x d c → conn_ok x' d' c.
Proof.
  intros Hd Hx [Hm Hs Hq [Hc Hb Hr] Hp]. constructor; [done..| | |done].
  - intros i s Hi Hf Hne. apply (Hq i s Hi Hf). destruct Hx as [->| ->]; [done|exact Hne].
  - constructor; [done..|]. destruct Hr as (? & ? & ?). split_and!; [done|lia|lia|lia].
Qed.

(** A stuck stream need not be queued. *)
Lemma conn_ok_stuck i d c : stuck i → conn_ok (Some i) d c → conn_ok None d c.
Proof.
  intros Hi [Hm Hs Hq Hc Hp]. constructor; [done..| |done|done]. intros j s Hj Hf _ Hnst. apply (Hq j s Hj Hf); [|done].
  intros [= ->]. by apply Hnst.
Qed.

Lemma total_held_nonneg x d c : conn_ok x d c → 0 <= total held (StreamMap.streams (Conn.streams c)).
Proof. intros Hok. apply total_nonneg. intros i s Hi. by apply held_bounds, (co_stream _ _ _ Hok i). Qed.

(** Every part of the map that the three queues and the streams do not use is
    free; [n] are the streams. *)
Definition same_flushable m m' : Prop := ∀ k, k ∈ StreamMap.flushable m → k ∈ StreamMap.flushable m'.

(** *** A call in progress on the stream [i], which is now [s] *)
Record at_stream (c0 : Conn.t) (i : Z) (x : option Z) (d : Z) (k : counters) (s : Stream.t) c : Prop := {
  at_ok : conn_ok x d c;
  at_ev : evolves c0 c;
  at_get : StreamMap.streams (Conn.streams c) !! i = Some s;
  at_k : counters_of c = k
}.

Lemma update_put i s s' m :
  StreamMap.streams m !! i = Some s →
  StreamMap.update i (λ _, s') m = StreamMap.set_streams (<[i := s']> (StreamMap.streams m)) m.
Proof.
  intros Hs. unfold StreamMap.update. f_equal. apply map_eq. intros j. destruct (decide (i = j)) as [->|Hne].
  - by rewrite lookup_alter_eq, lookup_insert_eq, Hs.
  - by rewrite lookup_alter_ne, lookup_insert_ne.
Qed.

Definition put_stream i s' c : Conn.t :=
  Conn.set_streams (StreamMap.set_streams (<[i := s']> (StreamMap.streams (Conn.streams c))) (Conn.streams c)) c.

Lemma wp_on_stream {A} i s c (m : M Stream.t Error A) Q QE :
  StreamMap.streams (Conn.streams c) !! i = Some s →
  wp m (λ a s', Q a (put_stream i s' c)) (λ e s', QE e (put_stream i s' c)) s →
  wp (Conn.on_stream i m) Q QE c.
Proof.
  intros Hs. unfold wp, Conn.on_stream, StreamMap.get. rewrite Hs.
  destruct (m s) as [[a|e|] s']; by rewrite ?(update_put i s).
Qed.

Lemma put_same i s c : StreamMap.streams (Conn.streams c) !! i = Some s → put_stream i s c = c.
Proof.
  intros Hs. unfold put_stream. rewrite insert_id by done. destruct c as [? ? ? m]. by destruct m.
Qed.

Lemma wp_stream_get i s c (Q : Stream.t → Conn.t → Prop) QE :
  StreamMap.streams (Conn.streams c) !! i = Some s → Q s c → wp (Conn.on_stream i get) Q QE c.
Proof. intros Hs HQ. eapply wp_on_stream; [done|]. apply wp_get. by rewrite put_same. Qed.

(** Replacing the stream.  It may become flushable without being queued, and
    the bytes it holds may change. *)
Lemma at_put c0 i x d k s s' c :
  at_stream c0 i x d k s c → keeps_key s s' → stream_wf s' →
  SendBuf.emit_off (Stream.send s) <= SendBuf.emit_off (Stream.send s') →
  let x' := if Stream.is_flushable s' && negb (Stream.is_flushable s) then Some i else x in
  (x = None ∨ x = Some i) →
  at_stream c0 i x' (d + held s' - held s) k s' (put_stream i s' c).
Proof.
  intros [[Hm Hst Hq Hcnt Hp] Hev Hget Hk] Hkey Hwf He x' Hx. constructor.
  - constructor.
    + by apply (put_stream_wf _ i s).
    + intros j sj Hj. cbn in Hj. destruct (decide (i = j)) as [->|Hne].
      * rewrite lookup_insert_eq in Hj. injection Hj as <-. split; [done|]. by apply (Hst j s).
      * rewrite lookup_insert_ne in Hj by done. by apply Hst.
    + intros j sj Hj Hf Hne Hst'. cbn in Hj |- *. destruct (decide (i = j)) as [->|Hij].
      * rewrite lookup_insert_eq in Hj. injection Hj as <-. destruct Hkey as [-> _]. subst x'. rewrite Hf in Hne.
        destruct (Stream.is_flushable s) eqn:Ef; cbn in Hne; [|done]. by apply (Hq j s).
      * rewrite lookup_insert_ne in Hj by done. apply (Hq j sj Hj Hf); [|done].
        intros E. destruct Hx; congruence.
    + destruct Hcnt as [Hc Hb Hr]. constructor; [done..|]. cbn [Conn.streams put_stream Conn.set_streams StreamMap.streams
        StreamMap.set_streams] in Hr |- *. unfold put_stream. cbn. rewrite (total_update _ i s) by done.
      destruct Hr as (Hr1 & Hr2 & Hr3). cbn in Hr1, Hr2, Hr3. split; [exact Hr1|split; [|exact Hr3]]. lia.
    + done.
  - etrans; [exact Hev|]. constructor; [done| |].
    + intros j [[sj Hj]|Hj]; [left|by right]. cbn. destruct (decide (i = j)) as [->|Hne].
      * rewrite lookup_insert_eq. by eexists.
      * rewrite lookup_insert_ne by done. by eexists.
    + intros j sj Hj. cbn in Hj. left. destruct (decide (i = j)) as [->|Hne].
      * rewrite lookup_insert_eq in Hj. injection Hj as <-. by exists s.
      * rewrite lookup_insert_ne in Hj by done. exists sj. split; [done|lia].
  - cbn. by rewrite lookup_insert_eq.
  - exact Hk.
Qed.

(** Changing the map without touching the streams. *)
Lemma at_map c0 i x x' d k s c m' :
  at_stream c0 i x d k s c → same_streams (Conn.streams c) m' → map_wf (Conn.is_server c) m' →
  (∀ j sj, StreamMap.streams (Conn.streams c) !! j = Some sj → Stream.is_flushable sj = true → x' ≠ Some j → ¬ stuck j →
     Stream.priority_key sj ∈ StreamMap.flushable m') →
  at_stream c0 i x' d k s (Conn.set_streams m' c).
Proof.
  intros [[Hm Hst Hq Hcnt Hp] Hev Hget Hk] Hss Hwf Hf. pose proof (ss_streams _ _ Hss) as Es.
  pose proof (ss_collected _ _ Hss) as Ec.
  constructor; [constructor|..]; cbn; rewrite ?Es; try done.
  etrans; [exact Hev|]. constructor; [done| |]; unfold used; cbn; rewrite ?Es, ?Ec; [done|].
  intros j sj Hj. left. exists sj. split; [done|lia].
Qed.

Lemma wp_insert_in Q key c0 i x d k s c (P : unit → Conn.t → Prop) QE :
  at_stream c0 i x d k s c → Stream.priority_key s = key →
  (∀ c', at_stream c0 i (if decide (Q = Flushable ∧ x = Some i) then None else x) d k s c' → P () c') →
  wp (Conn.on_streams (insert_in Q key)) P QE c.
Proof.
  intros Hat <- HP. pose proof (at_ok _ _ _ _ _ _ _ Hat) as Hok. pose proof (at_get _ _ _ _ _ _ _ Hat) as Hget.
  destruct (insert_in_run _ Q i s _ (co_map _ _ _ Hok) Hget) as (q' & Hr & Hq' & Hin).
  apply wp_zoom. eapply wp_run; [exact Hr|]. apply HP.
  apply (at_map _ _ x); [done|apply same_set_queue|by apply map_wf_set_queue; [apply (co_map _ _ _ Hok)|]|].
  intros j sj Hj Hf Hx Hnst.
  assert (x ≠ Some j → Stream.priority_key sj ∈ StreamMap.flushable (Conn.streams c)) as Hold by (intros Hx'; by apply (co_queued _ _ _ Hok j)).
  destruct Q; cbn; [apply Hold; by rewrite decide_False in Hx by naive_solver..|].
  apply Hin. destruct (decide (x = Some j)) as [->|Hne]; [|right; by apply Hold].
  destruct (decide (i = j)) as [->|Hij]; [left; congruence|]. rewrite decide_False in Hx by naive_solver. done.
Qed.

(** Removing a key from the other two queues. *)
Lemma wp_remove_from Q key c0 i x d k s c (P : unit → Conn.t → Prop) QE :
  at_stream c0 i x d k s c → Q ≠ Flushable →
  (∀ c', at_stream c0 i x d k s c' → P () c') →
  wp (Conn.on_streams (modify (remove_from Q key))) P QE c.
Proof.
  intros Hat HQ HP. apply wp_zoom, wp_modify. apply HP. pose proof (at_ok _ _ _ _ _ _ _ Hat) as Hok.
  apply (at_map _ _ x); [done| | |].
  - rewrite remove_from_run. apply same_set_queue.
  - apply remove_from_wf, (co_map _ _ _ Hok).
  - intros j sj Hj Hf Hx Hnst. rewrite remove_from_run. destruct Q; [..|done]; cbn; by apply (co_queued _ _ _ Hok j).
Qed.

(** The sets beside the queues are free. *)
Definition beside_queues (f : StreamMap.t → StreamMap.t) : Prop := ∀ m,
  same_streams m (f m) ∧ ∀ Q, queue_of Q (f m) = queue_of Q m.

Lemma wp_beside f c0 i x d k s c (P : unit → Conn.t → Prop) QE :
  at_stream c0 i x d k s c → beside_queues f → (∀ c', at_stream c0 i x d k s c' → P () c') →
  wp (Conn.on_streams (modify f)) P QE c.
Proof.
  intros Hat Hf HP. apply wp_zoom, wp_modify. apply HP. pose proof (at_ok _ _ _ _ _ _ _ Hat) as Hok.
  destruct (Hf (Conn.streams c)) as [Hss HQ].
  apply (at_map _ _ x); [done..| |].
  - apply (map_wf_same _ (Conn.streams c)); [done| |apply (co_map _ _ _ Hok)].
    intros Q. rewrite HQ. apply (mw_queue _ _ (co_map _ _ _ Hok)).
  - intros j sj Hj Hfl Hx Hnst. pose proof (HQ Flushable) as E. cbn in E. rewrite E. by apply (co_queued _ _ _ Hok j).
Qed.

(** Fields that the invariant does not mention, and the counters. *)
Lemma at_fields c0 i x d d' k k' s c c' :
  at_stream c0 i x d k s c →
  Conn.is_server c' = Conn.is_server c → Conn.streams c' = Conn.streams c →
  Conn.local_transport_params c' = Conn.local_transport_params c →
  Conn.peer_transport_params c' = Conn.peer_transport_params c →
  counters_of c' = k' →
  (counters_ok (total held (StreamMap.streams (Conn.streams c))) d k →
   counters_ok (total held (StreamMap.streams (Conn.streams c))) d' k') →
  at_stream c0 i x d' k' s c'.
Proof.
  intros [[Hm Hst Hq Hcnt [Hp1 Hp2]] Hev Hget Hk] E1 E2 E3 E4 E5 Hcnt'. constructor.
  - constructor; rewrite ?E1, ?E2; try done.
    + rewrite E5. apply Hcnt'. by rewrite <- Hk.
    + by rewrite E3, E4.
  - etrans; [exact Hev|]. constructor; rewrite ?E2; [done..|]. intros j sj Hj. left. exists sj. split; [done|lia].
  - by rewrite E2.
  - done.
Qed.

Lemma wp_same c0 i x d k s c f (P : unit → Conn.t → Prop) QE :
  at_stream c0 i x d k s c →
  Conn.is_server (f c) = Conn.is_server c → Conn.streams (f c) = Conn.streams c →
  Conn.local_transport_params (f c) = Conn.local_transport_params c →
  Conn.peer_transport_params (f c) = Conn.peer_transport_params c → counters_of (f c) = counters_of c →
  (∀ c', at_stream c0 i x d k s c' → P () c') → wp (modify f) P (QE : Error → Conn.t → Prop) c.
Proof.
  intros Hat ? ? ? ? Hk HP. apply wp_modify, HP. apply (at_fields c0 i x d d k k s c); try done.
  rewrite Hk. by destruct Hat.
Qed.

Lemma at_weaken c0 i x d d' k s c : d <= d' → at_stream c0 i x d k s c → at_stream c0 i x d' k s c.
Proof. intros Hd [Hok Hev Hg Hk]. constructor; try done. eapply conn_ok_weaken; [exact Hd|by right|done]. Qed.

(** The end of a call. *)
Definition kept c0 c : Prop := conn_wf c ∧ evolves c0 c.
Lemma at_kept c0 i k s c : at_stream c0 i None 0 k s c → kept c0 c.
Proof. by intros []. Qed.
Lemma kept_at c0 c i s : kept c0 c → StreamMap.streams (Conn.streams c) !! i = Some s →
  at_stream c0 i None 0 (counters_of c) s c.
Proof. intros [? ?] ?. by constructor. Qed.
Lemma kept_refl c : conn_wf c → kept c c.
Proof. done. Qed.
Lemma at_start c i s : conn_wf c → StreamMap.streams (Conn.streams c) !! i = Some s →
  at_stream c i None 0 (counters_of c) s c.
Proof. intros. by apply kept_at. Qed.

(** *** Dropping and opening streams *)

(** The stream of the key was dropped. *)
Definition departed (key : StreamPriorityKey.t) c : Prop := dead (Conn.streams c) key ∧
  StreamPriorityKey.id key ∉ StreamPriorityKey.id <$> StreamMap.readable (Conn.streams c).

Lemma wp_collect c0 i l k s c (P : unit → Conn.t → Prop) QE :
  at_stream c0 i None 0 k s c →
  (∀ c', kept c0 c' → departed (Stream.priority_key s) c' → P () c') →
  wp (Conn.on_streams (StreamMap.collect i l)) P QE c.
Proof.
  intros [[Hm Hst Hq Hcnt Hp] Hev Hget Hk] HP.
  destruct (collect_run _ i l s _ Hm Hget) as (m' & Hr & Hwf & Es & Ec & HQ).
  apply wp_zoom. eapply wp_run; [exact Hr|]. apply HP; [|by apply (collect_departed _ _ _ _ _ _ Hm Hget Hr)].
  assert (∀ j sj, StreamMap.streams m' !! j = Some sj → j ≠ i ∧ StreamMap.streams (Conn.streams c) !! j = Some sj) as Hold.
  { intros j sj Hj. rewrite Es in Hj. apply lookup_delete_Some in Hj as [? ?]. done. }
  split; [constructor|].
  - done.
  - intros j sj [_ Hj]%Hold. by apply Hst.
  - intros j sj [Hne Hj]%Hold Hf Hx Hnst. cbn. apply (HQ Flushable). split; [by apply (Hq j)|].
    intros E. apply Hne. by eapply (ko_addr _ (mw_keys _ _ Hm)).
  - cbn. rewrite Es. destruct Hcnt as [? ? (? & Hr2 & ?)]. constructor; [done..|].
    rewrite (total_delete held i s) in Hr2 by done. pose proof (held_bounds s (proj1 (Hst i s Hget))).
    cbn in Hr2 |- *. split; [done|split; [lia|done]].
  - done.
  - etrans; [exact Hev|]. constructor; [done| |]; unfold used; cbn.
    + intros j [[sj Hj]|Hj]; [|right; rewrite Ec; set_solver].
      destruct (decide (j = i)) as [->|Hne]; [right; rewrite Ec; set_solver|].
      left. rewrite Es, lookup_delete_ne by done. by eexists.
    + intros j sj [_ Hj]%Hold. left. exists sj. split; [done|lia].
Qed.

Lemma initial_limits_ok lp pp l b : max_limits lp → max_limits pp →
  0 <= (StreamMap.initial_limits lp pp l b).1 <= u64_max ∧ is_varint (StreamMap.initial_limits lp pp l b).2.
Proof. unfold max_limits, is_varint. intros (? & ? & ?) (? & ? & ?). destruct l, b; cbn; lia. Qed.

Lemma conn_ok_open c s m' i :
  conn_wf c → 0 <= i < 2 ^ 62 → map_wf (Conn.is_server c) m' →
  StreamMap.streams (Conn.streams c) !! i = None → i ∉ StreamMap.collected (Conn.streams c) →
  StreamMap.streams m' = <[i := s]> (StreamMap.streams (Conn.streams c)) →
  StreamMap.collected m' = StreamMap.collected (Conn.streams c) →
  StreamMap.flushable m' = StreamMap.flushable (Conn.streams c) →
  stream_wf s → held s = 0 → Stream.is_flushable s = false →
  at_stream c i None 0 (counters_of c) s (Conn.set_streams m' c).
Proof.
  intros [Hm Hst Hq Hcnt Hp] Hi Hwf Hnone Hnc Es Ec Ef Hs Hh Hfl.
  constructor; [constructor|constructor| |]; cbn; rewrite ?Es; try done.
  - intros j sj Hj. destruct (decide (i = j)) as [<-|Hne].
    + rewrite lookup_insert_eq in Hj. by injection Hj as <-.
    + rewrite lookup_insert_ne in Hj by done. by apply Hst.
  - intros j sj Hj Hf Hx Hnst. destruct (decide (i = j)) as [<-|Hne].
    + rewrite lookup_insert_eq in Hj. injection Hj as <-. congruence.
    + rewrite lookup_insert_ne in Hj by done. rewrite Ef. by apply (Hq j).
  - rewrite total_insert, Hh by done. exact Hcnt.
  - unfold used. cbn. rewrite Es, Ec. intros j [[sj Hj]|Hj]; [left|by right].
    destruct (decide (i = j)) as [<-|Hne]; [rewrite lookup_insert_eq|rewrite lookup_insert_ne by done]; by eexists.
  - intros j sj Hj. destruct (decide (i = j)) as [<-|Hne].
    + right. intros [[? ?]|?]; congruence.
    + rewrite lookup_insert_ne in Hj by done. left. exists sj. split; [done|lia].
  - by rewrite lookup_insert_eq.
Qed.

(** The stream was there, or is new. *)
Definition opened_as c (i : Z) s : Prop :=
  StreamMap.streams (Conn.streams c) !! i = Some s ∨
  StreamMap.streams (Conn.streams c) !! i = None ∧ ∃ rx tx b l w a, s = Stream.new i rx tx b l w a.

Lemma wp_open i local c (P : Stream.t → Conn.t → Prop) (QE : Error → Conn.t → Prop) :
  conn_wf c → 0 <= i < 2 ^ 62 →
  (∀ s c', at_stream c i None 0 (counters_of c) s c' → opened_as c i s → P s c') →
  (∀ e, StreamMap.streams (Conn.streams c) !! i = None → QE e c) →
  wp (Conn.get_or_create_stream i local) P QE c.
Proof.
  intros Hok Hi HP HE. unfold Conn.get_or_create_stream. apply wp_bind, wp_get, wp_zoom.
  set (m := Conn.streams c). set (srv := Conn.is_server c).
  set (lp := Conn.local_transport_params c). set (pp := Conn.peer_transport_params c).
  assert (Conn.set_streams m c = c) as Ec by by destruct c.
  pose proof (wp_get_or_create srv i lp pp local m (co_map _ _ _ Hok) Hi) as Hw.
  destruct (StreamMap.streams m !! i) as [s|] eqn:Hs.
  { eapply (wp_run (E := Error) _ s m); [unfold StreamMap.get_or_create; by rewrite run_bind_get, Hs|].
    rewrite Ec. apply HP; [by apply at_start|by left]. }
  unfold wp in Hw |- *. destruct (StreamMap.get_or_create i lp pp local srv m) as [[s|e|] m'] eqn:Er; [|destruct Hw as [-> _]; rewrite Ec; by apply HE|done].
  destruct (decide (i ∈ StreamMap.collected m)) as [Hc|Hc].
  { unfold StreamMap.get_or_create in Er. by rewrite run_bind_get, Hs, bool_decide_true in Er. }
  unfold StreamMap.get_or_create in Er. rewrite run_bind_get, Hs, bool_decide_false in Er by done.
  destruct (Bool.eqb local (is_local i srv)) eqn:El; cbn [negb] in Er; [|done]. apply eqb_prop in El as ->.
  destruct (Z.lt_ge_cases (Z.shiftr i 2) (limit (is_local i srv) (is_bidi i) m)) as [Hlim|Hlim].
  - destruct (get_or_create_new srv i lp pp m (co_map _ _ _ Hok) Hi Hs Hc Hlim)
      as (s1 & m1 & Er1 & Hwf & Es & Ecol & E & _ & _ & _ & Ef).
    unfold StreamMap.get_or_create in Er1. rewrite run_bind_get, Hs, bool_decide_false in Er1 by done.
    rewrite eqb_reflx in Er1. cbn [negb] in Er1. rewrite Er1 in Er. injection Er as <- <-.
    destruct (initial_limits_ok lp pp (is_local i srv) (is_bidi i) (proj1 (co_params _ _ _ Hok)) (proj2 (co_params _ _ _ Hok))).
    apply HP; [|right; split; [done|]; rewrite E; by repeat eexists].
    apply conn_ok_open; try done; rewrite E; first [by apply new_stream_wf|done].
  - destruct (StreamMap.initial_limits lp pp _ _). rewrite (run_bind_err _ _ m StreamLimit m) in Er; [done|].
    rewrite count_stream_run by done. cbv zeta. by rewrite (proj2 (Z.ltb_lt _ _)) by lia.
Qed.
End invariant.

(** ** The buffers' operations, as the connection uses them *)
Section recv_ops.
Implicit Types (rb : RecvBuf.t).

(** What a read does to the counters, whatever its outcome. *)
Definition read_post rb (out : list Z) rb' : Prop :=
  recv_wf rb' ∧ RecvBuf.off rb' = RecvBuf.off rb + zlen out ∧ RecvBuf.len rb' = RecvBuf.len rb ∧
  RecvBuf.drain rb' = RecvBuf.drain rb.

Lemma wp_recv_emit cap rb :
  recv_wf rb → RecvBuf.ready rb = true → 0 <= cap →
  wp (RecvBuf.emit cap) (λ r rb', read_post rb r.1 rb')
    (λ _ rb', read_post rb [] rb' ∧ RecvBuf.ready rb' = false) rb.
Proof.
  intros Hwf Hr Hcap. destruct (RecvBuf.error rb) as [e|] eqn:He.
  - unfold RecvBuf.emit. apply wp_bind, wp_get. rewrite Hr, He. cbn [negb]. apply wp_bind, wp_modify, wp_fail.
    split; [|done]. unfold read_post. cbn. rewrite zlen_nil, Z.add_0_r.
    split; [|done]. destruct Hwf as [Hd Ho Hl Hf Hc Hdr Herr].
    constructor; cbn; try done. constructor; [split; constructor|constructor..].
  - destruct (recv_emit_run cap rb Hwf He Hcap Hr) as (out & rb' & Hrun & Hp).
    eapply wp_run; [exact Hrun|]. cbn.
    exact (conj (ep_wf _ _ _ _ Hp) (conj (ep_off _ _ _ _ Hp) (conj (ep_len _ _ _ _ Hp) (ep_drain _ _ _ _ Hp)))).
Qed.

Lemma wp_recv_write buf rb :
  recv_wf rb → RangeBuf.wf buf → RangeBuf.fresh buf →
  wp (RecvBuf.write buf) (λ _ rb', write_post buf rb rb') (λ _ rb', rb' = rb) rb.
Proof.
  intros Hwf Hb Hf. destruct (decide (accepts rb buf)) as [Ha|Ha].
  - destruct (write_accepts buf rb Hwf Hb Hf Ha) as (rb' & Hr & Hp). by eapply wp_run.
  - eapply wp_run_err; [by apply write_rejects|done].
Qed.

(** A reset; when the final size exceeds the limit the buffer is lost, but so
    is the connection. *)
Lemma wp_recv_reset e n rb :
  recv_wf rb →
  wp (RecvBuf.reset e n) (λ delta rb', recv_wf rb' ∧ delta = n - RecvBuf.len rb ∧ 0 <= delta ∧
      RecvBuf.drain rb' = RecvBuf.drain rb ∧ RecvBuf.off rb' = RecvBuf.len rb')
    (λ _ _, True) rb.
Proof.
  intros Hwf. destruct (decide (n < RecvBuf.len rb)) as [Hbad|Hlen].
  { eapply wp_run_err; [apply reset_refused; by left|done]. }
  destruct (decide (RecvBuf.fin_off rb = None ∨ RecvBuf.fin_off rb = Some n)) as [Hok|Hbad]; cycle 1.
  { eapply wp_run_err; [apply reset_refused; right|done]. destruct (RecvBuf.fin_off rb) as [f|]; [|naive_solver].
    exists f. split; [done|]. intros ->. naive_solver. }
  pose proof (recv_fin _ Hwf) as Hfin. pose proof (recv_off _ Hwf) as Hoff.
  assert (∀ f, RecvBuf.fin_off rb = Some f → f = n) as Hn.
  { intros f Ef. destruct Hok; congruence. }
  destruct (RecvBuf.error rb) as [e0|] eqn:He.
  - pose proof (recv_error _ Hwf _ He) as Ef. pose proof (Hn _ Ef). pose proof (Hfin _ Ef).
    eapply (wp_run (E := Error) _ (n - RecvBuf.len rb) rb); [|split_and!; try done; lia].
    unfold RecvBuf.reset. rewrite run_bind_get, Ef, He. zdecide. cbn [negb].
    by rewrite (run_bind_lift _ _ _ (n - RecvBuf.len rb)) by (apply usub_ok; lia).
  - destruct (Z.le_gt_cases n (RecvBuf.max_data rb)) as [Hle|Hgt].
    + eapply wp_run; [apply recv_reset_run; try done; lia|].
      split; [apply after_reset_wf; try done; lia|]. split_and!; try done; lia.
    + destruct (RecvBuf.fin_off rb) as [f|] eqn:Ef.
      { pose proof (Hn f eq_refl). pose proof (Hfin f eq_refl). pose proof (recv_len _ Hwf). lia. }
      pose proof (recv_len _ Hwf).
      unfold RecvBuf.reset. apply wp_bind, wp_get. rewrite Ef, He. zdecide.
      apply wp_bind. eapply wp_lift; [apply usub_ok; lia|]. do 3 (apply wp_bind, wp_modify). apply wp_bind.
      eapply (wp_run_err (E := Error) _ FlowControl); [|done]. unfold RecvBuf.write. rewrite run_bind_get.
      rewrite RangeBuf.max_off_from, zlen_nil, Z.add_0_r.
      set (rb1 := RecvBuf.set_data _ _). change (RecvBuf.max_data rb1) with (RecvBuf.max_data rb).
      by rewrite (proj2 (Z.ltb_lt _ _)) by lia.
Qed.

Lemma wp_recv_shutdown rb :
  recv_wf rb →
  wp RecvBuf.shutdown (λ _ rb', recv_wf rb' ∧ RecvBuf.drain rb' = true ∧ RecvBuf.data rb' = []) (λ _ rb', rb' = rb) rb.
Proof.
  intros Hwf. unfold RecvBuf.shutdown. apply wp_bind, wp_get. destruct (RecvBuf.drain rb) eqn:Ed; [by apply wp_fail|].
  do 2 apply wp_bind, wp_modify. apply wp_modify. split; [|done].
  destruct Hwf as [Hd Ho Hl Hf Hc Hdr Herr]. constructor; cbn; try done; unfold RecvBuf.max_off; cbn.
  - constructor; [split; constructor|constructor..].
  - lia.
  - lia.
  - intros e He. specialize (Herr e He). by rewrite (Hf _ Herr).
Qed.
End recv_ops.

Section send_ops.
Implicit Types (sb : SendBuf.t).

(** The fields that the invariant does not read. *)
Lemma send_wf_flags sb sb' :
  send_wf sb → SendBuf.data sb' = SendBuf.data sb → SendBuf.pos sb' = SendBuf.pos sb → SendBuf.off sb' = SendBuf.off sb →
  SendBuf.emit_off sb' = SendBuf.emit_off sb → SendBuf.len sb' = SendBuf.len sb →
  SendBuf.max_data sb' = SendBuf.max_data sb → SendBuf.fin_off sb' = SendBuf.fin_off sb →
  SendBuf.acked sb' = SendBuf.acked sb → send_wf sb'.
Proof.
  intros Hwf Ed Ep Eo Ee El Em Ef Ea. destruct Hwf as [[? ? ? ? ?] ? ? ? ? ? ? ? ? ?].
  assert (base sb' = base sb) as Eb by (unfold base; by rewrite Ed, Eo).
  assert (SendBuf.ack_off sb' = SendBuf.ack_off sb) as Eaf by (unfold SendBuf.ack_off; by rewrite Ea).
  constructor; [constructor|..]; rewrite ?Eb, ?Eaf, ?Ed, ?Ep, ?Eo, ?Ee, ?El, ?Em, ?Ef, ?Ea; done.
Qed.

(** What no operation of the connection takes back. *)
Record send_kept sb sb' : Prop := {
  sk_wf : send_wf sb';
  sk_max : SendBuf.max_data sb' = SendBuf.max_data sb;
  sk_sent : SendBuf.emit_off sb <= SendBuf.emit_off sb';
  sk_stopped : stopped_empty sb → stopped_empty sb'
}.

(** A queue without content is empty. *)
Lemma no_content_empty sb : send_wf sb → (∀ o x, ¬ content_at (SendBuf.data sb) o x) → SendBuf.data sb = [].
Proof.
  intros Hwf Hn. pose proof (q_chain _ _ (sw_queue _ Hwf)) as Hc. destruct (SendBuf.data sb) as [|b l]; [done|].
  destruct Hc as (Hb & Hbwf & Hlen & Hc). pose proof (chain_le _ _ _ Hc).
  destruct (chain_total (RangeBuf.off_ b) (b :: l) (SendBuf.off sb) (RangeBuf.off_ b)) as [x Hx].
  - cbn. rewrite Hb. done.
  - rewrite <- Hb in *. lia.
  - by destruct (Hn _ _ Hx).
Qed.

Lemma stopped_content sb sb' :
  send_wf sb' → SendBuf.error sb' = SendBuf.error sb →
  (∀ o x, content_at (SendBuf.data sb') o x → content_at (SendBuf.data sb) o x) → stopped_empty sb → stopped_empty sb'.
Proof.
  intros Hwf He Hc Hs Hne. rewrite He in Hne. apply no_content_empty; [done|]. intros o x Hx%Hc.
  rewrite (Hs Hne) in Hx. by apply Exists_nil in Hx.
Qed.

Lemma wp_send_write d fin sb :
  send_wf sb → SendBuf.max_data sb <= varint_max → zlen d <= varint_max → SendBuf.len sb + zlen d <= u64_max →
  wp (SendBuf.write d fin) (λ n sb', send_kept sb sb' ∧ n = Z.min (SendBuf.max_data sb - SendBuf.off sb) (zlen d))
    (λ _ sb', sb' = sb ∧ ¬ (SendBuf.error sb = None ∧ SendBuf.fin_off sb = None)) sb.
Proof.
  intros Hwf Hm Hd Hl. pose proof (zlen_nonneg d). pose proof (q_max _ _ (sw_queue _ Hwf)). pose proof (sw_off _ Hwf).
  destruct (SendBuf.error sb) as [e|] eqn:He.
  - unfold SendBuf.write. apply wp_bind, wp_get, wp_bind. eapply wp_lift; [apply uadd_ok; lia|]. apply wp_bind.
    eapply (wp_run_err (E := Error) _ (StreamStopped e)); [|by split; [|intros [? _]]]. unfold reads, SendBuf.cap. by rewrite He.
  - pose proof (write_run sb d fin Hwf He ltac:(lia) Hl) as Hrun. cbv zeta in Hrun.
    destruct (bool_decide (is_Some (SendBuf.fin_off sb)) && _) eqn:Hfin.
    { eapply wp_run_err; [exact Hrun|]. split; [done|]. intros [_ Hnone]. by rewrite Hnone in Hfin. }
    destruct Hrun as (sb' & Hrun & Ha).
    eapply wp_run; [exact Hrun|]. destruct Ha as [Hwf' _ Hem _ Hmx Herr _ _ _]. split; [|done].
    constructor; [done|done|lia|]. intros _ Hne. congruence.
Qed.

Lemma wp_send_stop e sb :
  send_wf sb →
  wp (SendBuf.stop e) (λ r sb', send_kept sb sb' ∧ SendBuf.data sb' = [] ∧ 0 <= r.2) (λ _ sb', sb' = sb) sb.
Proof.
  intros Hwf. unfold SendBuf.stop. apply wp_bind, wp_get. destruct (bool_decide _); [by apply wp_fail|].
  destruct (send_reset_run sb Hwf) as (sb' & Hr & Hwf' & Hd & Ho & He & _ & _ & _ & _ & Hm).
  apply wp_bind. eapply wp_run; [exact Hr|]. apply wp_bind, wp_modify, wp_ret. cbn. pose proof (sw_off _ Hwf).
  split; [|split; [done|lia]]. constructor; [by eapply send_wf_flags|done|cbn; lia|by intros _ _].
Qed.

Lemma wp_send_shutdown sb :
  send_wf sb →
  wp SendBuf.shutdown (λ r sb', send_kept sb sb' ∧ SendBuf.data sb' = [] ∧ 0 <= r.2) (λ _ sb', sb' = sb) sb.
Proof.
  intros Hwf. unfold SendBuf.shutdown. apply wp_bind, wp_get. destruct (SendBuf.is_shut sb); [by apply wp_fail|].
  apply wp_bind, wp_modify. assert (send_wf (SendBuf.set_shutdown true sb)) as Hwf1 by by eapply send_wf_flags.
  destruct (send_reset_run _ Hwf1) as (sb' & Hr & Hwf' & Hd & Ho & He & _ & _ & _ & _ & Hm).
  eapply wp_run; [exact Hr|]. cbn in He, Hm |- *. pose proof (sw_off _ Hwf).
  split; [|split; [done|lia]]. constructor; [done|done|lia|by intros _ _].
Qed.

Lemma wp_send_ack o n sb :
  send_wf sb → 0 <= o → 0 <= n → o + n <= SendBuf.emit_off sb →
  wp (SendBuf.ack_and_drop o n)
    (λ _ sb', send_kept sb sb' ∧ ∀ i, pending (SendBuf.data sb') i → pending (SendBuf.data sb) i) (λ _ _, False) sb.
Proof.
  intros Hwf Ho Hn Hle. destruct (ack_and_drop_run sb o n Hwf Ho Hn Hle) as (sb' & Hr & [Hwf' _ _ Hc Hp (_ & He & Hm & _ & Herr)]).
  eapply wp_run; [exact Hr|]. split.
  { constructor; [done|done|lia|]. apply stopped_content; [done..|]. intros i x Hx. by apply Hc. }
  intros i Hi. by apply Hp in Hi as [? _].
Qed.

Lemma wp_send_lost o n sb :
  send_wf sb → 0 <= o → 0 <= n → o + n <= u64_max → SendBuf.len sb + (SendBuf.off sb - base sb) <= u64_max →
  wp (SendBuf.retransmit o n) (λ _ sb', send_kept sb sb') (λ _ _, False) sb.
Proof.
  intros Hwf Ho Hn Hle Hl. destruct (retransmit_run sb o n Hwf Ho Hn Hle Hl) as (sb' & Hr & Hwf' & _ & E & Hc & _).
  eapply wp_run; [exact Hr|]. pose proof (f_equal SendBuf.max_data E) as E1.
  pose proof (f_equal SendBuf.emit_off E) as E2. pose proof (f_equal SendBuf.error E) as E3. cbn in E1, E2, E3.
  constructor; [done|done|lia|]. apply stopped_content; [done..|]. intros i x Hx. by apply Hc.
Qed.
End send_ops.
