(* ===== verification/ConnOps.v ===== *)
(** * The stream calls of a connection keep its invariant

    Each operation of [ConnStreams.v], from a well-formed connection: it does
    not panic, and it leaves a well-formed connection in which no stream was
    opened twice and nothing that was sent is forgotten ([kept]).  Then runs of
    operations, the peer's frames among them. *)
From stdpp Require Import gmap.
From S2P Require Import Prelude Orders OctetsLib FlowCtl RangeBufs Ranges RecvBufs SendBufs Frames Params Streams ConnStreams ConnInv.

Section steps.
Context `{RBTree} `{NetCoding} {stk : Stuck}.
Implicit Types (c : Conn.t) (s : Stream.t).

Lemma wp_on_recv {A} i s c (m : M RecvBuf.t Error A) P QE :
  StreamMap.streams (Conn.streams c) !! i = Some s →
  wp m (λ a rb, P a (put_stream i (Stream.set_recv rb s) c)) (λ e rb, QE e (put_stream i (Stream.set_recv rb s) c))
    (Stream.recv s) →
  wp (Conn.on_recv i m) P QE c.
Proof. intros Hs Hm. eapply wp_on_stream; [exact Hs|]. by apply wp_zoom. Qed.

Lemma wp_on_send {A} i s c (m : M SendBuf.t Error A) P QE :
  StreamMap.streams (Conn.streams c) !! i = Some s →
  wp m (λ a sb, P a (put_stream i (Stream.set_send sb s) c)) (λ e sb, QE e (put_stream i (Stream.set_send sb s) c))
    (Stream.send s) →
  wp (Conn.on_send i m) P QE c.
Proof. intros Hs Hm. eapply wp_on_stream; [exact Hs|]. by apply wp_zoom. Qed.

Lemma at_recv c0 i d k s rb c :
  at_stream c0 i None d k s c → recv_wf rb →
  let s' := Stream.set_recv rb s in
  at_stream c0 i None (d + held s' - held s) k s' (put_stream i s' c).
Proof.
  intros Hat Hwf s'. pose proof (co_stream _ _ _ (at_ok _ _ _ _ _ _ _ Hat) _ _ (at_get _ _ _ _ _ _ _ Hat)) as [[_ Hs Hm Hl Hsto] _].
  pose proof (at_put c0 i None d k s s' c Hat) as Hp. cbv zeta in Hp.
  replace (Stream.is_flushable s' && negb (Stream.is_flushable s)) with false in Hp
    by (change (Stream.is_flushable s') with (Stream.is_flushable s); by destruct (Stream.is_flushable s)).
  apply Hp; [done|by constructor|cbn; lia|by left].
Qed.

(** [new_flush s s']: the stream has become flushable. *)
Definition new_flush s s' : bool := Stream.is_flushable s' && negb (Stream.is_flushable s).

Lemma at_send c0 i x d k s sb c :
  at_stream c0 i x d k s c → send_kept (Stream.send s) sb → x = None ∨ x = Some i →
  let s' := Stream.set_send sb s in
  at_stream c0 i (if new_flush s s' then Some i else x) d k s' (put_stream i s' c).
Proof.
  intros Hat [Hwf Hm He Hsto] Hx s'.
  pose proof (co_stream _ _ _ (at_ok _ _ _ _ _ _ _ Hat) _ _ (at_get _ _ _ _ _ _ _ Hat)) as [[Hr _ Hm0 Hl Hsto0] _].
  pose proof (at_put c0 i x d k s s' c Hat) as Hp. cbv zeta in Hp. change (held s') with (held s) in Hp.
  replace (d + held s - held s) with d in Hp by lia. apply Hp; [done| |done|done].
  constructor; cbn; [done|done|congruence|done|by apply Hsto].
Qed.

(** Counters. *)
Lemma wp_add_consumed c0 i x n k s c (P : unit → Conn.t → Prop) QE :
  at_stream c0 i x (- n) k s c → 0 <= n →
  (∀ c' k', at_stream c0 i x 0 k' s c' → P () c') →
  wp (Conn.on_flow (FlowControl.add_consumed n)) P QE c.
Proof.
  intros Hat Hn HP. pose proof (at_ok _ _ _ _ _ _ _ Hat) as Hok. pose proof (total_held_nonneg _ _ _ Hok).
  pose proof (ko_rx _ _ _ (co_counters _ _ _ Hok)) as (? & ? & ?). cbn in *.
  apply wp_zoom. eapply wp_run; [apply FlowControl.add_consumed_run; lia|]. eapply HP.
  eapply at_fields; [exact Hat|done..|]. intros [Hc Hb Hr]. pose proof (at_k _ _ _ _ _ _ _ Hat) as <-.
  constructor; cbn; [done|done|]. cbn in Hr. lia.
Qed.

Lemma at_charge c0 i x d n k s c f :
  at_stream c0 i x d k s c → 0 <= n → n <= Conn.max_rx_data c - Conn.rx_data c →
  Conn.is_server (f c) = Conn.is_server c → Conn.streams (f c) = Conn.streams c →
  Conn.local_transport_params (f c) = Conn.local_transport_params c →
  Conn.peer_transport_params (f c) = Conn.peer_transport_params c →
  counters_of (f c) = counters_of (Conn.set_rx_data (Conn.rx_data c + n) c) →
  at_stream c0 i x (d - n) (counters_of (f c)) s (f c).
Proof.
  intros Hat Hn Hle ? ? ? ? Ek. eapply at_fields; [exact Hat|done..|]. intros [Hc Hb Hr].
  pose proof (at_k _ _ _ _ _ _ _ Hat) as <-. rewrite Ek. unfold Conn.max_rx_data in Hle.
  constructor; cbn; [done|done|]. cbn in Hr. lia.
Qed.

Lemma wp_should_update c0 i x d k s c (P : bool → Conn.t → Prop) QE :
  at_stream c0 i x d k s c → d <= 0 → (∀ b, P b c) → wp (reads Conn.should_update_max_data) P QE c.
Proof.
  intros Hat Hd HP. pose proof (at_ok _ _ _ _ _ _ _ Hat) as Hok. pose proof (total_held_nonneg _ _ _ Hok).
  pose proof (ko_rx _ _ _ (co_counters _ _ _ Hok)) as (? & ? & ?). cbn in *.
  eapply wp_reads; [|apply HP]. unfold Conn.should_update_max_data. apply FlowControl.should_update_run. lia.
Qed.

Lemma at_stream_wf c0 i x d k s c : at_stream c0 i x d k s c → stream_wf s ∧ 0 <= i < 2 ^ 62.
Proof. intros Hat. apply (co_stream _ _ _ (at_ok _ _ _ _ _ _ _ Hat)), (at_get _ _ _ _ _ _ _ Hat). Qed.

(** [self.almost_full = true] *)
Lemma wp_almost_full c0 i x d k s c b (P : unit → Conn.t → Prop) QE :
  at_stream c0 i x d k s c → (∀ c', at_stream c0 i x d k s c' → P () c') →
  wp (when b (modify (Conn.set_almost_full true))) P (QE : Error → Conn.t → Prop) c.
Proof. intros Hat HP. apply wp_when; intros _; [|by apply HP]. by eapply wp_same. Qed.

Lemma wp_insert_when Q (b : bool) key c0 i d k s c (P : unit → Conn.t → Prop) QE :
  at_stream c0 i None d k s c → Stream.priority_key s = key → (∀ c', at_stream c0 i None d k s c' → P () c') →
  wp (when b (Conn.on_streams (insert_in Q key))) P QE c.
Proof.
  intros Hat Hk HP. apply wp_when; intros _; [|by apply HP]. eapply wp_insert_in; [exact Hat|exact Hk|].
  intros c' Hat'. apply HP. by destruct (decide _).
Qed.

Lemma wp_remove_when Q (b : bool) key c0 i x d k s c (P : unit → Conn.t → Prop) QE :
  at_stream c0 i x d k s c → Q ≠ Flushable → (∀ c', at_stream c0 i x d k s c' → P () c') →
  wp (when b (Conn.on_streams (modify (remove_from Q key)))) P QE c.
Proof. intros Hat HQ HP. apply wp_when; intros _; [|by apply HP]. by eapply wp_remove_from. Qed.

Lemma wp_beside_when (b : bool) f c0 i x d k s c (P : unit → Conn.t → Prop) QE :
  at_stream c0 i x d k s c → beside_queues f → (∀ c', at_stream c0 i x d k s c' → P () c') →
  wp (when b (Conn.on_streams (modify f))) P QE c.
Proof. intros Hat Hf HP. apply wp_when; intros _; [|by apply HP]. by eapply wp_beside. Qed.

(** The same without a stream at hand. *)
Lemma kept_map c0 c m' :
  kept c0 c → map_wf (Conn.is_server c) m' → StreamMap.streams m' = StreamMap.streams (Conn.streams c) →
  StreamMap.collected m' = StreamMap.collected (Conn.streams c) →
  StreamMap.flushable m' = StreamMap.flushable (Conn.streams c) → kept c0 (Conn.set_streams m' c).
Proof.
  intros [[Hm Hst Hq Hcnt Hp] Hev] Hwf Es Ec Ef. split; [constructor|]; cbn; rewrite ?Es, ?Ef; try done.
  etrans; [exact Hev|]. constructor; [done| |]; unfold used; cbn; rewrite ?Es, ?Ec; [done|].
  intros j sj Hj. left. exists sj. split; [done|lia].
Qed.

Lemma wp_remove_kept Q key c0 c (P : unit → Conn.t → Prop) QE :
  kept c0 c → Q ≠ Flushable → (∀ c', kept c0 c' → P () c') →
  wp (Conn.on_streams (modify (remove_from Q key))) P QE c.
Proof.
  intros Hk HQ HP. apply wp_zoom, wp_modify, HP.
  apply kept_map; [done|apply remove_from_wf, (co_map _ _ _ (proj1 Hk))|..];
    rewrite remove_from_run; destruct Q; done.
Qed.

Lemma kept_almost_full b c0 c : kept c0 c → kept c0 (Conn.set_almost_full b c).
Proof. intros [[Hm Hst Hq Hcnt Hp] [? ? ?]]. split; by constructor. Qed.

(** [if stream.is_complete() { collect }], with what follows. *)
Lemma wp_collect_when (b : bool) l c0 i k s c (P : unit → Conn.t → Prop) QE :
  at_stream c0 i None 0 k s c →
  (b = true → ∀ c', kept c0 c' → departed (Stream.priority_key s) c' → P () c') → (b = false → ∀ c', at_stream c0 i None 0 k s c' → P () c') →
  wp (when b (Conn.on_streams (StreamMap.collect i l))) P QE c.
Proof.
  intros Hat H1 H2. apply wp_when; intros Hb; [|by apply H2]. eapply wp_collect; [exact Hat|]. intros c' Hk Hd. by apply H1.
Qed.

(** Queueing the key of a dropped stream again. *)
Lemma wp_insert_departed key c0 c (P : unit → Conn.t → Prop) QE :
  kept c0 c → departed key c → (∀ c', kept c0 c' → P () c') →
  wp (Conn.on_streams (modify (StreamMap.remove_readable key));; Conn.on_streams (StreamMap.insert_readable key)) P QE c.
Proof.
  intros Hk [Hd Hid] HP. apply wp_bind. apply wp_zoom, wp_modify. pose proof (co_map _ _ _ (proj1 Hk)) as Hm.
  change (StreamMap.remove_readable key) with (remove_from Readable key). rewrite remove_from_run. set (m1 := set_queue _ _ _).
  assert (kept c0 (Conn.set_streams m1 c)) as Hk1.
  { apply kept_map; [done| |done..]. unfold m1. rewrite <- remove_from_run. by apply remove_from_wf. }
  destruct (insert_dead _ key m1 (co_map _ _ _ (proj1 Hk1))) as (m2 & Hr & Hwf & Hss & HQ).
  { by eapply dead_same; [..|exact Hd]. }
  { cbn. contradict Hid. eapply elem_of_submseteq; [exact Hid|]. apply sublist_submseteq, fmap_sublist, unlink_sublist. }
  apply wp_zoom. eapply wp_run; [exact Hr|]. apply HP.
  apply (kept_map c0 (Conn.set_streams m1 c)); [done|exact Hwf|apply Hss|apply Hss|by apply (HQ Flushable)].
Qed.

Lemma wp_should_update_kept c0 c (P : bool → Conn.t → Prop) QE :
  kept c0 c → (∀ b, P b c) → wp (reads Conn.should_update_max_data) P QE c.
Proof.
  intros [Hok _] HP. pose proof (total_held_nonneg _ _ _ Hok).
  pose proof (ko_rx _ _ _ (co_counters _ _ _ Hok)) as (? & ? & ?). cbn in *.
  eapply wp_reads; [|apply HP]. unfold Conn.should_update_max_data. apply FlowControl.should_update_run. lia.
Qed.

End steps.

Ltac beside := intros m; split; [by constructor|by intros []].


(** ** The application's calls *)
Section calls.
Context `{RBTree} `{NetCoding} {stk : Stuck}.
Implicit Types (c : Conn.t) (s : Stream.t).

(** [wp] of a call: the invariant is kept, whatever the outcome. *)
Abbreviation keeps m c := (wp m (λ _ c', kept c c') (λ _ c', kept c c') c).

Lemma keeps_stream_recv stream_id cap c :
  conn_wf c → 0 <= cap → keeps (Conn.stream_recv stream_id cap) c.
Proof.
  intros Hok Hcap. unfold Conn.stream_recv. apply wp_bind, wp_get.
  destruct (Conn.is_uni_local stream_id c) eqn:Hu; [by apply wp_fail|].
  unfold StreamMap.get. destruct (StreamMap.streams (Conn.streams c) !! stream_id) as [s|] eqn:Hs; [|by apply wp_fail].
  destruct (Stream.is_readable s) eqn:Hready; cbn [negb]; [|by apply wp_fail].
  pose proof (at_start c stream_id s Hok Hs) as Hat. destruct (at_stream_wf _ _ _ _ _ _ _ Hat) as [Hwf _].
  apply wp_bind, wp_attempt. eapply wp_on_recv; [exact Hs|].
  eapply wp_mono; [apply (wp_recv_emit cap); [apply Hwf|exact Hready|lia]|..]; cbv beta.
  - intros [out fin] rb (Hrb & Ho & Hl & Hd). cbn [fst] in Ho.
    pose proof (at_recv _ _ _ _ _ rb _ Hat Hrb) as Hat1. cbv zeta in Hat1. set (s1 := Stream.set_recv rb s) in *.
    assert (0 + held s1 - held s <= - zlen out) as Hle.
    { unfold held. cbn. rewrite Hl, Ho, Hd. destruct (RecvBuf.drain (Stream.recv s)) eqn:Edr; [|lia].
      pose proof (recv_drain _ (st_recv _ Hwf) Edr) as Edata. unfold Stream.is_readable, RecvBuf.ready in Hready.
      by rewrite Edata in Hready. }
    apply (at_weaken _ _ _ _ _ _ _ _ Hle) in Hat1. apply wp_bind. eapply wp_add_consumed; [exact Hat1|apply zlen_nonneg|].
    intros c2 k2 Hat2. apply wp_bind. eapply wp_stream_get; [apply Hat2|].
    destruct (almost_full_run s1 (proj1 (at_stream_wf _ _ _ _ _ _ _ Hat2))) as [af Haf].
    apply wp_bind. eapply wp_lift; [exact Haf|]. apply wp_bind.
    eapply wp_beside_when; [exact Hat2|beside|]. intros c3 Hat3. apply wp_bind.
    eapply (wp_remove_when Readable); [exact Hat3|done|]. intros c4 Hat4. apply wp_bind.
    eapply wp_collect_when; [exact Hat4|..].
    + intros _ c5 Hk5 Hd5. apply wp_bind, (wp_should_update_kept c); [done|]. intros b. apply wp_bind.
      assert (∀ c6, kept c c6 → departed (Stream.priority_key s) c6 →
        wp (when (StreamPriorityKey.incremental (Stream.priority_key s) && Stream.is_readable s1)
              (Conn.on_streams (modify (StreamMap.remove_readable (Stream.priority_key s)));;
               Conn.on_streams (StreamMap.insert_readable (Stream.priority_key s)));; mret (out, fin))
          (λ _ c', kept c c') (λ _ c', kept c c') c6) as Hlast.
      { intros c6 Hk6 Hd6. apply wp_bind, wp_when; intros _; [|by apply wp_ret]. eapply wp_insert_departed; [done|done|].
        intros c7 Hk7. by apply wp_ret. }
      apply wp_when; intros _; [apply wp_modify|]; apply Hlast; by try apply kept_almost_full.
    + intros _ c5 Hat5. apply wp_bind. eapply wp_should_update; [exact Hat5|lia|]. intros b.
      apply wp_bind. eapply wp_almost_full; [exact Hat5|]. intros c6 Hat6. apply wp_bind, wp_when; intros _.
      * apply wp_bind. eapply (wp_remove_from Readable); [exact Hat6|done|]. intros c7 Hat7.
        eapply (wp_insert_in Readable); [exact Hat7|done|]. intros c8 Hat8. apply wp_ret. by eapply at_kept.
      * apply wp_ret. by eapply at_kept.
  - intros e rb [(Hrb & Ho & Hl & Hd) Hnr]. rewrite zlen_nil, Z.add_0_r in Ho.
    pose proof (at_recv _ _ _ _ _ rb _ Hat Hrb) as Hat1. cbv zeta in Hat1. set (s1 := Stream.set_recv rb s) in *.
    replace (0 + held s1 - held s) with 0 in Hat1 by (unfold held; cbn; rewrite Hl, Ho, Hd; lia).
    apply wp_bind. eapply wp_stream_get; [apply Hat1|]. apply wp_bind.
    eapply wp_collect_when; [exact Hat1|..].
    + intros _ c2 Hk2 _. apply wp_bind. eapply (wp_remove_kept Readable); [exact Hk2|done|]. intros c3 Hk3. by apply wp_fail.
    + intros _ c2 Hat2. apply wp_bind. eapply (wp_remove_from Readable); [exact Hat2|done|]. intros c3 Hat3.
      apply wp_fail. by eapply at_kept.
Qed.

(** Noting or clearing that the stream is blocked. *)
Lemma at_blocked b c0 i x d k s c :
  at_stream c0 i x d k s c → x = None ∨ x = Some i →
  let s' := Stream.set_send (SendBuf.set_blocked_at b (Stream.send s)) s in
  at_stream c0 i x d k s' (put_stream i s' c).
Proof.
  intros Hat Hx s'. destruct (at_stream_wf _ _ _ _ _ _ _ Hat) as [[_ Hs _ _ _] _].
  assert (send_kept (Stream.send s) (SendBuf.set_blocked_at b (Stream.send s))) as Hk.
  { constructor; [by eapply send_wf_flags|done|cbn; lia|done]. }
  pose proof (at_send _ _ _ _ _ _ _ _ Hat Hk Hx) as Hp. cbv zeta in Hp.
  replace (new_flush s (Stream.set_send (SendBuf.set_blocked_at b (Stream.send s)) s)) with false in Hp; [done|].
  unfold new_flush. change (Stream.is_flushable (Stream.set_send _ s)) with (Stream.is_flushable s).
  by destruct (Stream.is_flushable s).
Qed.

Definition blocked_changed s s' : Prop := ∃ b, s' = Stream.set_send (SendBuf.set_blocked_at b (Stream.send s)) s.

Lemma wp_mark_blocked c0 i x d k s c (P : unit → Conn.t → Prop) QE :
  at_stream c0 i x d k s c → x = None ∨ x = Some i →
  (∀ s' c', blocked_changed s s' → at_stream c0 i x d k s' c' → P () c') →
  wp (Conn.mark_blocked i) P QE c.
Proof.
  intros Hat Hx HP. unfold Conn.mark_blocked. apply wp_bind. eapply wp_stream_get; [apply Hat|].
  apply wp_when; intros _.
  - apply wp_bind. eapply wp_on_send; [apply Hat|]. apply wp_modify.
    eapply wp_beside; [by apply (at_blocked (Some (SendBuf.max_off (Stream.send s)))) in Hat|beside|].
    intros c' Hat'. eapply HP; [|exact Hat']. by eexists.
  - apply (HP s); [|done]. exists (SendBuf.blocked_at (Stream.send s)). destruct s as [? sb]. by destruct sb.
Qed.

(** The stream is queued for flushing if it has become flushable. *)
Lemma wp_queue_flush (b : bool) key c0 i x d k s c (P : unit → Conn.t → Prop) QE :
  at_stream c0 i x d k s c → Stream.priority_key s = key → x = None ∨ x = Some i ∧ b = true →
  (∀ c', at_stream c0 i None d k s c' → P () c') →
  wp (when b (Conn.on_streams (StreamMap.insert_flushable key))) P QE c.
Proof.
  intros Hat Hk Hx HP. apply wp_when.
  - intros _. eapply (wp_insert_in Flushable); [exact Hat|done|]. intros c' Hat'. apply HP.
    destruct Hx as [->|[-> _]]; [by destruct (decide _)|by rewrite decide_True in Hat'].
  - intros ->. apply HP. by destruct Hx as [->|[-> ?]].
Qed.

(** The two branches of [stream_send] after a write. *)
Lemma wp_blocked_either (b : bool) c0 i x d k s c (P : unit → Conn.t → Prop) QE :
  at_stream c0 i x d k s c → x = None ∨ x = Some i →
  (∀ s' c', blocked_changed s s' → at_stream c0 i x d k s' c' → P () c') →
  wp (if b then Conn.mark_blocked i
      else Conn.on_send i (SendBuf.update_blocked_at None);; Conn.on_streams (modify (StreamMap.remove_blocked i))) P QE c.
Proof.
  intros Hat Hx HP. destruct b; [by eapply wp_mark_blocked|]. apply wp_bind. eapply wp_on_send; [apply Hat|].
  apply wp_modify. apply (at_blocked None) in Hat; [|done]. eapply wp_beside; [exact Hat|beside|].
  intros c' Hat'. eapply HP; [by eexists|exact Hat'].
Qed.

Lemma wp_writable_either (w b : bool) key c0 i d k s c (P : unit → Conn.t → Prop) QE :
  at_stream c0 i None d k s c → Stream.priority_key s = key → (∀ c', at_stream c0 i None d k s c' → P () c') →
  wp (if negb w then Conn.on_streams (modify (StreamMap.remove_writable key))
      else when b (Conn.on_streams (StreamMap.insert_writable key))) P QE c.
Proof.
  intros Hat Hk HP. destruct w; cbn [negb]; [by eapply (wp_insert_when Writable)|by eapply (wp_remove_from Writable)].
Qed.

Definition queue_room (i n : Z) c : Prop := ∀ s,
  StreamMap.streams (Conn.streams c) !! i = Some s → SendBuf.len (Stream.send s) + n <= u64_max.

Lemma opened_room i n c s : queue_room i n c → n <= u64_max → opened_as c i s → SendBuf.len (Stream.send s) + n <= u64_max.
Proof. intros Hr Hn [Hs|[_ (?&?&?&?&?&?&->)]]; [by apply Hr|cbn; lia]. Qed.

Lemma wp_blocked_limit (b : bool) v c (P : unit → Conn.t → Prop) QE :
  conn_wf c → (∀ c1, kept c c1 → Conn.streams c1 = Conn.streams c → counters_of c1 = counters_of c → P () c1) →
  wp (when b (modify (Conn.set_blocked_limit v))) P (QE : Error → Conn.t → Prop) c.
Proof.
  intros Hok HP. apply wp_when; intros _; [apply wp_modify|]; apply HP; try done.
  destruct Hok as [Hm Hst Hq Hcnt Hp]. split; [by constructor|]. constructor; [done..|].
  intros j sj Hj. left. exists sj. split; [done|lia].
Qed.

(** A call that goes on in a later state. *)
Lemma at_from c0 c1 i x d k s c : kept c0 c1 → at_stream c1 i x d k s c → at_stream c0 i x d k s c.
Proof. intros [_ Hev] [Hok Hev' Hg Hk]. constructor; try done. by etrans. Qed.

Lemma put_send_same i s c :
  StreamMap.streams (Conn.streams c) !! i = Some s → put_stream i (Stream.set_send (Stream.send s) s) c = c.
Proof. intros Hs. replace (Stream.set_send (Stream.send s) s) with s by by destruct s. by apply put_same. Qed.

(** An open stream, neither stopped nor finished, whose limit and the
    connection's leave room for [n] bytes. *)
Definition will_take (i n : Z) c : Prop := Conn.is_uni_remote i c = false ∧ n <= Conn.tx_cap c ∧
  ∃ s, StreamMap.streams (Conn.streams c) !! i = Some s ∧ SendBuf.error (Stream.send s) = None ∧ SendBuf.fin_off (Stream.send s) = None ∧
    n <= SendBuf.max_data (Stream.send s) - SendBuf.off (Stream.send s).

(** It refuses only what it need not take. *)
Lemma wp_stream_send stream_id buf fin c :
  conn_wf c → 0 <= stream_id < 2 ^ 62 → queue_room stream_id (Z.min (zlen buf) (Conn.tx_cap c)) c →
  wp (Conn.stream_send stream_id buf fin) (λ _ c', kept c c') (λ _ c', kept c c' ∧ ¬ will_take stream_id (zlen buf) c) c.
Proof.
  intros Hok Hid Hroom. unfold Conn.stream_send. apply wp_bind, wp_get.
  destruct (Conn.is_uni_remote stream_id c) eqn:Huni; [apply wp_fail; split; [by apply kept_refl|intros [? _]; congruence]|].
  pose proof (co_counters _ _ _ Hok) as [(? & ? & ?) Hb0 _]. cbn in *. apply wp_bind. eapply wp_lift; [apply usub_ok; lia|].
  apply wp_bind. apply wp_blocked_limit; [done|]. intros c1 Hk1 Es1 Ec1.
  apply wp_bind, wp_open; [apply Hk1|done| |].
  2: { intros e Hnone. split; [done|]. intros (_ & _ & s & Hs & _). rewrite Es1 in Hnone. congruence. }
  intros s c2 Hat Hopen.
  apply (at_from _ _ _ _ _ _ _ _ Hk1) in Hat. rewrite Ec1 in Hat.
  assert (SendBuf.len (Stream.send s) + Z.min (zlen buf) (Conn.tx_cap c) <= u64_max) as Hlen.
  { apply (opened_room stream_id _ c1); [|lia|done]. unfold queue_room. by rewrite Es1. }
  assert (will_take stream_id (zlen buf) c → zlen buf <= Conn.tx_cap c ∧ SendBuf.error (Stream.send s) = None ∧ SendBuf.fin_off (Stream.send s) = None ∧
    zlen buf <= SendBuf.max_data (Stream.send s) - SendBuf.off (Stream.send s)) as Htake.
  { intros (_ & ? & s0 & Hs0 & ? & ? & ?). rewrite <- Es1 in Hs0. destruct Hopen as [Hs|[Hs _]]; [|congruence]. assert (s0 = s) as -> by congruence. done. }
  pose proof (zlen_nonneg buf).
  destruct (at_stream_wf _ _ _ _ _ _ _ Hat) as [Hwf _]. destruct (is_writable_run s Hwf) as [ww Hww].
  apply wp_bind. eapply wp_lift; [exact Hww|].
  destruct ((Conn.tx_cap c =? 0) && negb (zlen buf =? 0)) eqn:Hnone.
  { apply wp_bind. eapply (wp_insert_when Writable); [exact Hat|done|]. intros c3 Hat3. apply wp_fail. split; [by eapply at_kept|].
    intros (? & _)%Htake. apply andb_true_iff in Hnone as [E1%Z.eqb_eq E2%negb_true_iff%Z.eqb_neq]. lia. }
  set (w := if Conn.tx_cap c <? zlen buf then (ztake (Conn.tx_cap c) buf, false, true) else (buf, fin, false)).
  assert (zlen w.1.1 <= Conn.tx_cap c ∧ zlen w.1.1 <= zlen buf ∧ (zlen buf <= Conn.tx_cap c → zlen w.1.1 = zlen buf)) as (Hw1 & Hw2 & Hw3).
  { unfold w. destruct (Z.ltb_spec (Conn.tx_cap c) (zlen buf)); cbn; rewrite ?zlen_ztake by lia; lia. }
  clearbody w. destruct w as [[buf1 fin1] capped]. cbn [fst] in Hw1, Hw2, Hw3. pose proof (zlen_nonneg buf1). apply wp_bind, wp_attempt.
  eapply wp_on_send; [apply Hat|]. pose proof (send_off_bounds s Hwf).
  eapply wp_mono; [apply (wp_send_write buf1 fin1); [apply Hwf|apply Hwf|lia|lia]|..]; cbv beta.
  - intros sent sb [Hkept Hsent]. pose proof (at_send _ _ _ _ _ _ _ _ Hat Hkept (or_introl eq_refl)) as Hat1.
    cbv zeta in Hat1. set (s1 := Stream.set_send sb s) in *. apply wp_bind. eapply wp_stream_get; [apply Hat1|].
    destruct (is_writable_run s1 (proj1 (at_stream_wf _ _ _ _ _ _ _ Hat1))) as [w1 Hw].
    apply wp_bind. eapply wp_lift; [exact Hw|]. apply wp_bind.
    eapply wp_blocked_either; [exact Hat1|by destruct (new_flush s s1); [right|left]|]. intros s2 c3 [bl ->] Hat2.
    apply wp_bind. eapply wp_queue_flush; [exact Hat2|done|..].
    { unfold new_flush. destruct (Stream.is_flushable s1), (Stream.is_flushable s); cbn; auto. }
    clear Hat1 Hat2. intros c4 Hat4. apply wp_bind. eapply wp_writable_either; [exact Hat4|done|]. intros c5 Hat5.
    pose proof (at_k _ _ _ _ _ _ _ Hat5) as Ek. injection Ek as Efl Erx Emx Etx Ecap Ebuf.
    apply wp_bind, wp_get, wp_bind. eapply wp_lift; [apply usub_ok; lia|].
    apply wp_bind. eapply wp_lift; [apply uadd_ok; lia|]. apply wp_bind. eapply wp_lift; [apply uadd_ok; lia|].
    apply wp_bind, wp_put. rewrite Ecap, Etx, Ebuf.
    set (c6 := Conn.set_tx_buffered _ _). eapply (at_fields _ _ _ _ 0 _ _ _ _ c6) in Hat5; [|reflexivity..|]; cycle 1.
    { intros [Hc Hb Hr]. constructor; cbn in *; rewrite ?Efl, ?Erx, ?Emx; [lia|lia|done]. }
    destruct ((sent =? 0) && _) eqn:Hzero.
    { apply wp_fail. split; [by eapply at_kept|]. intros (? & _ & _ & ?)%Htake.
      apply andb_true_iff in Hzero as [E1%Z.eqb_eq E2%negb_true_iff%Z.eqb_neq]. lia. }
    apply wp_bind, wp_when; intros _.
    + apply wp_bind. eapply (wp_remove_from Writable); [exact Hat5|done|]. intros c7 Hat7.
      eapply (wp_insert_in Writable); [exact Hat7|done|]. intros c8 Hat8. apply wp_ret. by eapply at_kept.
    + apply wp_ret. by eapply at_kept.
  - intros e sb [-> Hrefused]. rewrite put_send_same by apply Hat. apply wp_bind.
    eapply (wp_remove_from Writable); [exact Hat|done|]. intros c3 Hat3. apply wp_fail. split; [by eapply at_kept|].
    intros (_ & ? & ? & _)%Htake. by apply Hrefused.
Qed.

Lemma keeps_stream_send stream_id buf fin c :
  conn_wf c → 0 <= stream_id < 2 ^ 62 → queue_room stream_id (Z.min (zlen buf) (Conn.tx_cap c)) c →
  keeps (Conn.stream_send stream_id buf fin) c.
Proof. intros. eapply wp_mono; [by apply wp_stream_send|done|by intros ? ? []]. Qed.

(** A new key for the stream. *)
Lemma at_rekey c0 i k s s' m' c :
  at_stream c0 i None 0 k s c → stream_wf s' → held s' = held s → Stream.send s' = Stream.send s →
  map_wf (Conn.is_server c) m' → same_streams (rekey i s' (Conn.streams c)) m' →
  (∀ Q, replaced (Stream.priority_key s) (Stream.priority_key s') (queue_of Q (Conn.streams c)) (queue_of Q m')) →
  at_stream c0 i None 0 k s' (Conn.set_streams m' c).
Proof.
  intros [[Hm Hst Hq Hcnt Hp] Hev Hget Hk] Hwf Hh Hsend Hwf' Hss HQ.
  pose proof (ss_streams _ _ Hss) as Es. pose proof (ss_collected _ _ Hss) as Ec. cbn in Es, Ec.
  constructor; [constructor|..]; cbn; rewrite ?Es, ?lookup_insert_eq; try done.
  - intros j sj Hj. destruct (decide (i = j)) as [<-|Hne].
    + rewrite lookup_insert_eq in Hj. injection Hj as <-. split; [done|]. by apply (Hst i s).
    + rewrite lookup_insert_ne in Hj by done. by apply Hst.
  - intros j sj Hj Hf _ Hnst. destruct (decide (i = j)) as [<-|Hne].
    + rewrite lookup_insert_eq in Hj. injection Hj as <-. apply (rp_elem _ _ _ _ (HQ Flushable)). left. split; [done|].
      apply bool_decide_eq_true. apply list_elem_of_fmap_2. apply (Hq i s Hget); [|done|done].
      unfold Stream.is_flushable in Hf |- *. by rewrite <- Hsend.
    + rewrite lookup_insert_ne in Hj by done. apply (rp_elem _ _ _ _ (HQ Flushable)). right. split; [by apply (Hq j)|].
      intros E. apply Hne. symmetry. by eapply (ko_addr _ (mw_keys _ _ Hm)).
  - rewrite (total_update held i s), Hh by done. replace (total held _ - held s + held s) with (total held (StreamMap.streams (Conn.streams c))) by lia.
    exact Hcnt.
  - etrans; [exact Hev|]. constructor; [done| |]; unfold used; cbn; rewrite ?Es, ?Ec.
    + intros j [Hj|Hj]; [left|by right]. destruct (decide (i = j)) as [<-|Hne];
        [rewrite lookup_insert_eq; by eexists|by rewrite lookup_insert_ne].
    + intros j sj Hj. left. destruct (decide (i = j)) as [<-|Hne].
      * rewrite lookup_insert_eq in Hj. injection Hj as <-. exists s. split; [done|rewrite Hsend; lia].
      * rewrite lookup_insert_ne in Hj by done. exists sj. split; [done|lia].
Qed.

Lemma keeps_stream_priority stream_id urgency incremental c :
  conn_wf c → 0 <= stream_id < 2 ^ 62 → keeps (Conn.stream_priority stream_id urgency incremental) c.
Proof.
  intros Hok Hid. unfold Conn.stream_priority. apply wp_bind, wp_attempt, wp_open; [done..| |].
  2: { intros e _. destruct e; first [by apply wp_ret|by apply wp_fail]. }
  intros s c1 Hat _. destruct (_ && _); [apply wp_ret; by eapply at_kept|].
  unfold Conn.replace_key. apply wp_bind, wp_bind. eapply wp_stream_get; [apply Hat|].
  apply wp_bind, wp_get, wp_bind, wp_zoom, wp_modify, wp_bind. set (m := Conn.streams c1).
  set (key := StreamPriorityKey.mk urgency incremental stream_id (StreamMap.next_addr m)).
  set (s' := Stream.set_priority_key key (Stream.set_incremental incremental (Stream.set_urgency urgency s))).
  eapply wp_on_stream; [apply Hat|]. apply wp_modify, wp_ret, wp_zoom.
  destruct (update_priority_run _ stream_id s s' m (co_map _ _ _ (at_ok _ _ _ _ _ _ _ Hat)) (at_get _ _ _ _ _ _ _ Hat))
    as (m' & Hr & Hwf' & Hss & HQ); [done..|].
  eapply wp_run; [exact Hr|]. destruct (at_stream_wf _ _ _ _ _ _ _ Hat) as [[? ? ? ? ?] _].
  assert (stream_wf s') as Hwfs by by constructor.
  exact (at_kept _ _ _ _ _ (at_rekey _ _ _ s s' m' _ Hat Hwfs eq_refl eq_refl Hwf' Hss HQ)).
Qed.

(** *** Shutting down, and asking for streams *)

Lemma at_claw_back c0 i x d k s n c :
  at_stream c0 i x d k s c → 0 <= n → at_stream c0 i x d (counters_of (Conn.claw_back n c)) s (Conn.claw_back n c).
Proof.
  intros Hat Hn. eapply at_fields; [exact Hat|done..|]. intros [Hc Hb Hr].
  pose proof (at_k _ _ _ _ _ _ _ Hat) as <-. unfold saturating_sub.
  constructor; cbn in *; unfold saturating_sub; [lia|lia|done].
Qed.

Lemma wp_update_tx_cap w c0 i x d k s c (P : unit → Conn.t → Prop) QE :
  at_stream c0 i x d k s c → 0 <= w → (∀ c' k', at_stream c0 i x d k' s c' → P () c') →
  wp (Conn.update_tx_cap w) P QE c.
Proof.
  intros Hat Hw HP. pose proof (ko_cap _ _ _ (co_counters _ _ _ (at_ok _ _ _ _ _ _ _ Hat))) as (? & ? & ?). cbn in *.
  unfold Conn.update_tx_cap. apply wp_bind, wp_get, wp_bind. eapply wp_lift; [apply usub_ok; lia|]. apply wp_put.
  eapply HP, at_fields; [exact Hat|done..|]. intros [Hc Hb Hr]. pose proof (at_k _ _ _ _ _ _ _ Hat) as <-.
  constructor; cbn in *; [lia|done|done].
Qed.

Lemma keeps_stream_shutdown cwin stream_id direction err c :
  conn_wf c → 0 <= cwin → keeps (Conn.stream_shutdown cwin stream_id direction err) c.
Proof.
  intros Hok Hw. unfold Conn.stream_shutdown. apply wp_bind, wp_get. destruct (match direction with Read => _ | Write => _ end); [by apply wp_fail|].
  unfold StreamMap.get. destruct (StreamMap.streams (Conn.streams c) !! stream_id) as [s|] eqn:Hs; [|by apply wp_fail].
  pose proof (at_start c stream_id s Hok Hs) as Hat. destruct (at_stream_wf _ _ _ _ _ _ _ Hat) as [Hwf _].
  destruct direction; apply wp_bind.
  - eapply wp_on_recv; [exact Hs|]. eapply wp_mono; [apply wp_recv_shutdown, Hwf|..]; cbv beta.
    + intros _ rb (Hrb & Hdr & _). pose proof (at_recv _ _ _ _ _ rb _ Hat Hrb) as Hat1. cbv zeta in Hat1.
      set (s1 := Stream.set_recv rb s) in *. assert (0 + held s1 - held s <= 0) as Hle.
      { pose proof (held_bounds s Hwf). assert (held s1 = 0) as -> by (unfold held; cbn; by rewrite Hdr). lia. }
      apply (at_weaken _ _ _ _ _ _ _ _ Hle) in Hat1. apply wp_bind. eapply wp_stream_get; [apply Hat1|].
      apply wp_bind. eapply wp_beside_when; [exact Hat1|beside|]. intros c2 Hat2.
      apply wp_bind. eapply (wp_remove_from Readable); [exact Hat2|done|]. intros c3 Hat3.
      eapply wp_same; [exact Hat3|done..|]. intros c4 Hat4. by eapply at_kept.
    + intros e rb ->. rewrite put_same; [by apply kept_refl|]. by destruct s.
  - eapply wp_on_send; [exact Hs|]. eapply wp_mono; [apply wp_send_shutdown, Hwf|..]; cbv beta.
    + intros [final unsent] sb (Hk & Hd & Hu). cbn [snd] in Hu.
      pose proof (at_send _ _ _ _ _ _ _ _ Hat Hk (or_introl eq_refl)) as Hat1. cbv zeta in Hat1.
      set (s1 := Stream.set_send sb s) in *. replace (new_flush s s1) with false in Hat1
        by (unfold new_flush; by rewrite (empty_not_flushable s1 Hd)).
      apply wp_bind, wp_modify. apply (at_claw_back _ _ _ _ _ _ unsent) in Hat1; [|done].
      apply wp_bind. eapply wp_update_tx_cap; [exact Hat1|done|]. intros c2 k2 Hat2.
      apply wp_bind. eapply wp_beside; [exact Hat2|beside|]. intros c3 Hat3.
      apply wp_bind. eapply (wp_remove_from Writable); [exact Hat3|done|]. intros c4 Hat4.
      eapply wp_same; [exact Hat4|done..|]. intros c5 Hat5. by eapply at_kept.
    + intros e sb ->. rewrite put_send_same by done. by apply kept_refl.
Qed.

Lemma keeps_readable_next c : conn_wf c → keeps Conn.stream_readable_next c.
Proof.
  intros Hok. unfold Conn.stream_readable_next. apply wp_bind, wp_get.
  destruct (StreamMap.readable _); [by apply wp_ret|]. apply wp_bind.
  eapply (wp_remove_kept Readable); [by apply kept_refl|done|]. intros c' Hk. by apply wp_ret.
Qed.

Lemma send_cap_run s : stream_wf s → SendBuf.cap (Stream.send s) ≠ Panic.
Proof.
  intros Hwf. pose proof (send_off_bounds s Hwf). unfold SendBuf.cap. destruct (SendBuf.error _); [done|].
  by rewrite usub_ok by lia.
Qed.

Lemma next_writable_run keys c : conn_wf c → ∃ k, Conn.next_writable keys c = Ok k.
Proof.
  intros Hok. induction keys as [|key keys IH]; cbn; [by eexists|]. unfold StreamMap.get.
  destruct (StreamMap.streams _ !! _) as [s|] eqn:Hs; [|done].
  pose proof (send_cap_run s (proj1 (co_stream _ _ _ Hok _ _ Hs))).
  destruct (SendBuf.cap _); [destruct (_ <=? _); [by eexists|done]|by eexists|done].
Qed.

Lemma keeps_writable_next c : conn_wf c → keeps Conn.stream_writable_next c.
Proof.
  intros Hok. unfold Conn.stream_writable_next. apply wp_bind, wp_get. destruct (_ =? 0); [by apply wp_ret|].
  destruct (next_writable_run (StreamMap.writable (Conn.streams c)) c Hok) as [k Hk].
  apply wp_bind. eapply wp_reads; [exact Hk|]. destruct k; [|by apply wp_ret]. apply wp_bind.
  eapply (wp_remove_kept Writable); [by apply kept_refl|done|]. intros c' Hk'. by apply wp_ret.
Qed.

Lemma keeps_stream_writable stream_id len c :
  conn_wf c → len <= 2 ^ 63 → keeps (Conn.stream_writable stream_id len) c.
Proof.
  intros Hok Hlen. unfold Conn.stream_writable. apply wp_bind. unfold Conn.stream_capacity, StreamMap.get.
  destruct (StreamMap.streams (Conn.streams c) !! stream_id) as [s|] eqn:Hs.
  2: { eapply wp_run_err; [unfold reads; by rewrite Hs|by apply kept_refl]. }
  pose proof (at_start c stream_id s Hok Hs) as Hat. destruct (at_stream_wf _ _ _ _ _ _ _ Hat) as [Hwf _].
  pose proof (send_cap_run s Hwf) as Hcap. destruct (SendBuf.cap (Stream.send s)) as [cap|e|] eqn:Ecap; [|..|done].
  2: { eapply wp_run_err; [unfold reads; rewrite Hs, Ecap; reflexivity|by apply kept_refl]. }
  eapply wp_reads; [rewrite Hs, Ecap; reflexivity|]. destruct (_ <=? _); [by apply wp_ret|].
  apply wp_bind, wp_get. rewrite Hs. apply wp_bind. eapply wp_on_stream; [exact Hs|]. apply wp_modify.
  set (s1 := Stream.set_send_lowat (Z.max 1 len) s).
  assert (stream_wf s1) as Hwf1 by (destruct Hwf; constructor; cbn; [done|done|done|lia|done]).
  pose proof (at_put _ _ _ _ _ _ s1 _ Hat) as Hat1. cbv zeta in Hat1.
  replace (Stream.is_flushable s1 && negb (Stream.is_flushable s)) with false in Hat1
    by (change (Stream.is_flushable s1) with (Stream.is_flushable s); by destruct (Stream.is_flushable s)).
  replace (0 + held s1 - held s) with 0 in Hat1 by (change (held s1) with (held s); lia).
  specialize (Hat1 ltac:(done) Hwf1 ltac:(cbn; lia) ltac:(by left)).
  apply wp_bind. eapply wp_stream_get; [apply Hat1|]. destruct (is_writable_run s1 Hwf1) as [w Hw].
  apply wp_bind. eapply wp_lift; [exact Hw|].
  pose proof (ko_cap _ _ _ (co_counters _ _ _ Hok)) as (? & ? & ?). cbn in *.
  apply wp_bind. eapply wp_lift; [apply usub_ok; lia|]. apply wp_bind, wp_blocked_limit; [apply Hat1|].
  intros c2 Hk2 Es2 Ec2. assert (at_stream c stream_id None 0 (counters_of c2) s1 c2) as Hat2.
  { apply kept_at; [|rewrite Es2; apply Hat1]. split; [apply Hk2|]. etrans; [apply Hat1|apply Hk2]. }
  apply wp_bind. eapply wp_lift; [exact Ecap|]. apply wp_bind. destruct (cap <? len).
  - eapply wp_mark_blocked; [exact Hat2|by left|]. intros s3 c3 _ Hat3. apply wp_ret. by eapply at_kept.
  - eapply (wp_insert_when Writable); [exact Hat2|done|]. intros c3 Hat3. apply wp_ret. by eapply at_kept.
Qed.
End calls.

(** ** The frames of the peer

    An error of [process_frame] closes the connection, so nothing is said of
    the state after one. *)
Section frames.
Context `{RBTree} `{NetCoding} {stk : Stuck}.
Implicit Types (c : Conn.t) (s : Stream.t).

Abbreviation accepts_frame m c := (wp m (λ _ c', kept c c') (λ _ _, True) c).

Lemma wp_with_peer i (k : Stream.t → M Conn.t Error unit) c :
  conn_wf c → 0 <= i < 2 ^ 62 →
  (∀ s c', at_stream c i None 0 (counters_of c) s c' → opened_as c i s →
     wp (k s) (λ _ c1, kept c c1) (λ _ _, True) c') →
  accepts_frame (Conn.with_peer_stream i k) c.
Proof.
  intros Hok Hi Hk. unfold Conn.with_peer_stream. apply wp_bind, wp_attempt, wp_open; [done..|].
  intros e _. destruct e; first [by apply wp_ret|by apply wp_fail].
Qed.

Lemma max_rx_room c : conn_wf c → Conn.rx_data c <= Conn.max_rx_data c <= u64_max.
Proof. intros Hok. pose proof (ko_rx _ _ _ (co_counters _ _ _ Hok)) as (_ & _ & ?). done. Qed.

Lemma same_rx c0 i x d s c : at_stream c0 i x d (counters_of c0) s c →
  Conn.max_rx_data c = Conn.max_rx_data c0 ∧ Conn.rx_data c = Conn.rx_data c0.
Proof. intros Hat. pose proof (at_k _ _ _ _ _ _ _ Hat) as Ek. unfold Conn.max_rx_data. by injection Ek as -> -> _ _ _ _. Qed.

Lemma accepts_reset_stream stream_id error_code final_size c :
  conn_wf c → 0 <= stream_id < 2 ^ 62 → accepts_frame (Conn.on_reset_stream stream_id error_code final_size) c.
Proof.
  intros Hok Hid. unfold Conn.on_reset_stream. apply wp_bind, wp_get. destruct (Conn.is_uni_local _ _); [by apply wp_fail|].
  pose proof (max_rx_room c Hok). apply wp_bind. eapply wp_lift; [apply usub_ok; lia|]. apply wp_with_peer; [done..|].
  intros s c1 Hat _. destruct (at_stream_wf _ _ _ _ _ _ _ Hat) as [Hwf _].
  apply wp_bind. eapply wp_on_recv; [apply Hat|]. eapply wp_mono; [apply wp_recv_reset, Hwf|..]; cbv beta; [|done].
  intros delta rb (Hrb & Hdelta & Hpos & Hdr & Hol). pose proof (at_recv _ _ _ _ _ rb _ Hat Hrb) as Hat1. cbv zeta in Hat1.
  set (s1 := Stream.set_recv rb s) in *. assert (0 + held s1 - held s <= 0) as Hle.
  { pose proof (held_bounds s Hwf). assert (held s1 = 0) as -> by (unfold held; cbn; destruct (RecvBuf.drain rb); lia). lia. }
  apply (at_weaken _ _ _ _ _ _ _ _ Hle) in Hat1.
  destruct (Z.ltb_spec (Conn.max_rx_data c - Conn.rx_data c) delta); [by apply wp_fail|].
  apply wp_bind. eapply wp_stream_get; [apply Hat1|]. apply wp_bind.
  eapply (wp_insert_when Readable); [exact Hat1|done|]. intros c2 Hat2. destruct (same_rx _ _ _ _ _ _ Hat2) as [E1 E2].
  apply wp_bind, wp_get, wp_bind. eapply wp_lift; [apply uadd_ok; lia|]. apply wp_put.
  set (f := λ c', Conn.set_reset_stream_remote_count (Conn.bump (Conn.reset_stream_remote_count c'))
                    (Conn.set_rx_data (Conn.rx_data c' + delta) c')).
  assert (at_stream c stream_id None (0 - delta) (counters_of (f c2)) s1 (f c2)) as Hat3
    by (refine (at_charge _ _ _ 0 delta _ _ _ f Hat2 _ _ _ _ _ _ _); first [done|lia]).
  apply (at_weaken _ _ _ _ 0) in Hat3; [|lia]. exact (at_kept _ _ _ _ _ Hat3).
Qed.

Lemma accepts_stop_sending stream_id error_code c :
  conn_wf c → 0 <= stream_id < 2 ^ 62 → accepts_frame (Conn.on_stop_sending stream_id error_code) c.
Proof.
  intros Hok Hid. unfold Conn.on_stop_sending. apply wp_bind, wp_get. destruct (Conn.is_uni_remote _ _); [by apply wp_fail|].
  apply wp_with_peer; [done..|]. intros s c1 Hat _. destruct (at_stream_wf _ _ _ _ _ _ _ Hat) as [Hwf _].
  destruct (is_writable_run s Hwf) as [w Hw]. apply wp_bind. eapply wp_lift; [exact Hw|].
  apply wp_bind, wp_attempt. eapply wp_on_send; [apply Hat|]. eapply wp_mono; [apply wp_send_stop, Hwf|..]; cbv beta.
  - intros [final unsent] sb (Hk & Hd & Hu). cbn [snd] in Hu.
    pose proof (at_send _ _ _ _ _ _ _ _ Hat Hk (or_introl eq_refl)) as Hat1. cbv zeta in Hat1.
    set (s1 := Stream.set_send sb s) in *. replace (new_flush s s1) with false in Hat1
      by (unfold new_flush; by rewrite (empty_not_flushable s1 Hd)).
    apply wp_bind, wp_modify. apply (at_claw_back _ _ _ _ _ _ unsent) in Hat1; [|done].
    apply wp_bind. eapply wp_beside; [exact Hat1|beside|]. intros c2 Hat2.
    apply wp_bind. eapply (wp_insert_when Writable); [exact Hat2|done|]. intros c3 Hat3.
    eapply wp_same; [exact Hat3|done..|]. intros c4 Hat4. by eapply at_kept.
  - intros e sb ->. rewrite put_send_same by apply Hat. apply wp_ret. by eapply at_kept.
Qed.

(** What the frame adds to the received length is at most what it is charged for. *)
Lemma write_held data s rb :
  write_post data (Stream.recv s) rb → recv_wf (Stream.recv s) →
  held (Stream.set_recv rb s) - held s <=
    (if RecvBuf.drain (Stream.recv s) then 0
     else saturating_sub (RangeBuf.max_off data) (RecvBuf.max_off (Stream.recv s))).
Proof.
  intros Hp Hwf. unfold held, saturating_sub, RecvBuf.max_off. cbn.
  rewrite (wp_drain _ _ _ Hp), (wp_off _ _ _ Hp), (wp_len _ _ _ Hp).
  destruct (RecvBuf.drain _); [lia|]. destruct (_ && _); lia.
Qed.

Lemma accepts_stream_data stream_id data c :
  conn_wf c → 0 <= stream_id < 2 ^ 62 → RangeBuf.wf data → RangeBuf.fresh data →
  accepts_frame (Conn.on_stream_data stream_id data) c.
Proof.
  intros Hok Hid Hdata Hfresh. unfold Conn.on_stream_data. apply wp_bind, wp_get. destruct (Conn.is_uni_local _ _); [by apply wp_fail|].
  pose proof (max_rx_room c Hok). apply wp_bind. eapply wp_lift; [apply usub_ok; lia|]. apply wp_with_peer; [done..|].
  intros s c1 Hat _. destruct (at_stream_wf _ _ _ _ _ _ _ Hat) as [Hwf _]. pose proof (st_recv _ Hwf) as Hrecv.
  set (delta := saturating_sub _ _). assert (0 <= delta) by (unfold delta, saturating_sub; lia).
  destruct (Z.ltb_spec (Conn.max_rx_data c - Conn.rx_data c) delta); [by apply wp_fail|].
  apply wp_bind. eapply wp_on_recv; [apply Hat|]. eapply wp_mono; [by apply wp_recv_write|..]; cbv beta; [|done].
  intros _ rb Hp. pose proof (at_recv _ _ _ _ _ rb _ Hat (wp_wf _ _ _ Hp)) as Hat1. cbv zeta in Hat1.
  pose proof (write_held _ _ _ Hp Hrecv) as Hheld. fold delta in Hheld. set (s1 := Stream.set_recv rb s) in *.
  apply wp_bind. eapply wp_stream_get; [apply Hat1|]. apply wp_bind.
  eapply (wp_insert_when Readable); [exact Hat1|done|]. intros c2 Hat2. destruct (same_rx _ _ _ _ _ _ Hat2) as [E1 E2].
  apply wp_bind, wp_get, wp_bind. eapply wp_lift; [apply uadd_ok; lia|]. apply wp_bind, wp_put.
  pose proof (at_charge _ _ _ _ delta _ _ c2 (λ c', Conn.set_rx_data (Conn.rx_data c' + delta) c') Hat2) as Hat3.
  cbv beta in Hat3. specialize (Hat3 ltac:(done) ltac:(lia) eq_refl eq_refl eq_refl eq_refl eq_refl).
  unfold RecvBuf.is_draining. destruct (RecvBuf.drain (Stream.recv s)); cbn [when].
  - apply (at_weaken _ _ _ _ (- delta)) in Hat3; [|lia]. apply wp_bind. eapply wp_add_consumed; [exact Hat3|done|].
    intros c4 k4 Hat4. apply wp_bind. eapply wp_should_update; [exact Hat4|lia|]. intros b.
    eapply wp_almost_full; [exact Hat4|]. intros c5 Hat5. by eapply at_kept.
  - apply (at_weaken _ _ _ _ 0) in Hat3; [|lia]. apply wp_ret. by eapply at_kept.
Qed.

Lemma accepts_max_data max c : conn_wf c → is_varint max → accepts_frame (Conn.on_max_data max) c.
Proof.
  intros [Hm Hst Hq Hcnt Hp] Hmax. unfold is_varint in Hmax. apply wp_modify. split; [constructor|]; try done.
  - destruct Hcnt as [Hc Hb Hr]. constructor; cbn in *; [lia|done|done].
  - constructor; [done..|]. intros j sj Hj. left. exists sj. split; [done|lia].
Qed.

Lemma accepts_max_stream_data stream_id max c :
  conn_wf c → 0 <= stream_id < 2 ^ 62 → is_varint max → accepts_frame (Conn.on_max_stream_data stream_id max) c.
Proof.
  intros Hok Hid Hmax. unfold is_varint in Hmax. unfold Conn.on_max_stream_data. apply wp_bind, wp_get.
  destruct (Conn.is_uni_remote _ _); [by apply wp_fail|]. apply wp_with_peer; [done..|].
  intros s c1 Hat _. destruct (at_stream_wf _ _ _ _ _ _ _ Hat) as [Hwf _]. apply wp_bind.
  eapply wp_on_send; [apply Hat|]. apply wp_modify. set (sb := SendBuf.set_max_data _ _). set (s1 := Stream.set_send sb s).
  assert (stream_wf s1) as Hwf1.
  { pose proof (st_max _ Hwf). destruct Hwf. constructor; cbn; [done|apply credit_wf; [done|lia]|lia|done|done]. }
  pose proof (at_put _ _ _ _ _ _ s1 _ Hat) as Hat1. cbv zeta in Hat1.
  replace (0 + held s1 - held s) with 0 in Hat1 by (change (held s1) with (held s); lia).
  specialize (Hat1 ltac:(done) Hwf1 ltac:(cbn; lia) ltac:(by left)).
  apply wp_bind. eapply wp_stream_get; [apply Hat1|]. destruct (is_writable_run s1 Hwf1) as [w Hw].
  apply wp_bind. eapply wp_lift; [exact Hw|]. apply wp_bind.
  eapply wp_queue_flush; [exact Hat1|done| |].
  { destruct (_ && _); [by right|by left]. }
  intros c2 Hat2. eapply (wp_insert_when Writable); [exact Hat2|done|]. intros c3 Hat3. by eapply at_kept.
Qed.

Lemma kept_max_streams f c :
  conn_wf c → (f = StreamMap.update_peer_max_streams_bidi ∨ f = StreamMap.update_peer_max_streams_uni) →
  ∀ max, accepts_frame (Conn.on_streams (modify (f max))) c.
Proof.
  intros Hok Hf max. apply wp_zoom, wp_modify. pose proof (raise_peer_wf _ max _ (co_map _ _ _ Hok)) as [? ?].
  destruct Hf as [-> | ->]; by apply kept_map.
Qed.

(** What [Frame.from_bytes] guarantees of a frame. *)
Definition peer_frame (f : Frame.t) : Prop :=
  match f with
  | Frame.ResetStream i _ _ | Frame.StopSending i _ => 0 <= i < 2 ^ 62
  | Frame.Stream i data => 0 <= i < 2 ^ 62 ∧ RangeBuf.wf data ∧ RangeBuf.fresh data
  | Frame.MaxData max => is_varint max
  | Frame.MaxStreamData i max => 0 <= i < 2 ^ 62 ∧ is_varint max
  | _ => True
  end.

Lemma accepts_process_frame f m c :
  conn_wf c → peer_frame f → Conn.process_frame f = Some m → accepts_frame m c.
Proof.
  intros Hok Hf Hm. assert (kept c c) as Hkc by by apply kept_refl.
  destruct f; try done; cbn in Hf, Hm; injection Hm as <-.
  - by apply accepts_reset_stream.
  - by apply accepts_stop_sending.
  - destruct Hf as (? & ? & ?). by apply accepts_stream_data.
  - by apply accepts_max_data.
  - destruct Hf. by apply accepts_max_stream_data.
  - destruct (_ <? _); [by apply wp_fail|]. apply kept_max_streams; [done|by left].
  - destruct (_ <? _); [by apply wp_fail|]. apply kept_max_streams; [done|by right].
  - by apply wp_ret.
  - by apply wp_ret.
  - destruct (_ <? _); [by apply wp_fail|by apply wp_ret].
  - destruct (_ <? _); [by apply wp_fail|by apply wp_ret].
Qed.
End frames.

(** ** Acknowledged and lost frames *)
Section feedback.
Context `{RBTree} `{NetCoding} {stk : Stuck}.
Implicit Types (c : Conn.t) (s : Stream.t).

(** A STREAM frame that was put into a packet of the connection. *)
Definition was_sent (f : Frame.t) c : Prop :=
  match f with
  | Frame.StreamHeader i o n _ =>
      0 <= o ∧ 0 <= n ∧ used i (Conn.streams c) ∧
      ∀ s, StreamMap.streams (Conn.streams c) !! i = Some s → o + n <= SendBuf.emit_off (Stream.send s)
  | _ => True
  end.

(** It stays so, whatever happens to the stream. *)
Lemma was_sent_evolves f c c' : evolves c c' → was_sent f c → was_sent f c'.
Proof.
  intros [_ Hu Hs]. destruct f; try done. intros (Ho & Hn & Hused & Hle). split_and!; [done|done|by apply Hu|].
  intros s' Hs'. destruct (Hs _ _ Hs') as [(s & Hi & ?)|Hnot]; [|done]. pose proof (Hle s Hi). lia.
Qed.

Lemma collect_if_done_keeps c0 i k s c : at_stream c0 i None 0 k s c →
  wp (Conn.collect_if_done i) (λ _ c', kept c0 c') (λ _ _, False) c.
Proof.
  intros Hat. unfold Conn.collect_if_done. apply wp_bind. eapply wp_stream_get; [apply Hat|].
  eapply wp_collect_when; [exact Hat|by intros _ c'|]. intros _ c' Hat'. by eapply at_kept.
Qed.

Lemma acked_keeps f c :
  conn_wf c → was_sent f c → wp (Conn.acked_frame f) (λ _ c', kept c c') (λ _ _, False) c.
Proof.
  intros Hok Hsent. unfold Conn.acked_frame. apply wp_bind, wp_get. unfold StreamMap.get.
  destruct f; try (by apply wp_ret, kept_refl);
    (destruct (StreamMap.streams _ !! _) as [s|] eqn:Hs; [|by apply wp_ret, kept_refl]).
  - by eapply collect_if_done_keeps, at_start.
  - destruct Hsent as (Ho & Hn & _ & Hle). pose proof (at_start c stream_id s Hok Hs) as Hat.
    destruct (at_stream_wf _ _ _ _ _ _ _ Hat) as [Hwf _]. apply wp_bind. eapply wp_on_send; [exact Hs|].
    eapply wp_mono; [apply wp_send_ack; [apply Hwf|done|done|by apply Hle]|..]; cbv beta; [|done].
    intros _ sb [Hk Hpend]. pose proof (at_send _ _ _ _ _ _ _ _ Hat Hk (or_introl eq_refl)) as Hat1. cbv zeta in Hat1.
    set (s1 := Stream.set_send sb s) in *. replace (new_flush s s1) with false in Hat1; cycle 1.
    { unfold new_flush. destruct (Stream.is_flushable s1) eqn:Ef; [|done].
      apply (flushable_pending s1) in Ef as [o Hp]; [|apply Hk]. symmetry. apply negb_false_iff.
      apply (flushable_pending s); [apply Hwf|]. exists o. by apply Hpend. }
    apply wp_bind, wp_modify. eapply collect_if_done_keeps, (at_fields _ _ _ 0 0); [exact Hat1|done..|].
    intros [Hc Hb Hr]. unfold saturating_sub. constructor; cbn in *; [lia|lia|done].
Qed.

(** The counter of queued bytes of the stream does not overflow. *)
Definition lost_room (f : Frame.t) c : Prop :=
  match f with
  | Frame.StreamHeader i o n _ => o + n <= u64_max ∧ ∀ s, StreamMap.streams (Conn.streams c) !! i = Some s →
      SendBuf.len (Stream.send s) + (SendBuf.off (Stream.send s) - base (Stream.send s)) <= u64_max
  | _ => True
  end.

Lemma lost_keeps f c :
  conn_wf c → was_sent f c → lost_room f c → wp (Conn.lost_frame f) (λ _ c', kept c c') (λ _ _, False) c.
Proof.
  intros Hok Hsent Hroom. unfold Conn.lost_frame. apply wp_bind, wp_get. unfold StreamMap.get.
  destruct f; try (by apply wp_ret, kept_refl).
  - destruct (StreamMap.streams _ !! _) as [s|] eqn:Hs; [|by apply wp_ret, kept_refl].
    eapply wp_beside_when; [by apply at_start|beside|]. intros c' Hat. by eapply at_kept.
  - destruct (StreamMap.streams _ !! _) as [s|] eqn:Hs; [|by apply wp_ret, kept_refl].
    destruct Hsent as (Ho & Hn & _ & Hle). destruct Hroom as [Hmax Hroom]. pose proof (at_start c stream_id s Hok Hs) as Hat.
    destruct (at_stream_wf _ _ _ _ _ _ _ Hat) as [Hwf _]. apply wp_bind. eapply wp_on_send; [exact Hs|].
    eapply wp_mono; [apply wp_send_lost; [apply Hwf|done|done|done|by apply Hroom]|..]; cbv beta; [|done].
    intros _ sb Hk. pose proof (at_send _ _ _ _ _ _ _ _ Hat Hk (or_introl eq_refl)) as Hat1. cbv zeta in Hat1.
    set (s1 := Stream.set_send sb s) in *. apply wp_bind. eapply wp_stream_get; [apply Hat1|].
    eapply wp_queue_flush; [exact Hat1|done| |intros c' Hat'; by eapply at_kept].
    unfold new_flush. destruct (Stream.is_flushable s1), (Stream.is_flushable s); cbn; auto.
  - apply wp_modify. by apply kept_almost_full.
  - destruct (StreamMap.streams _ !! _) as [s|] eqn:Hs; [|by apply wp_ret, kept_refl].
    eapply wp_beside_when; [by apply at_start|beside|]. intros c' Hat. by eapply at_kept.
Qed.
End feedback.
