(* ===== verification/ConnFlush.v ===== *)
(** * Writing STREAM frames ([send_single])

    The loop over the flushable streams ends, it writes the frame of the first
    stream in the queue that may send, and that frame is what the peer's parser
    reads back: the next bytes of that stream. *)
From stdpp Require Import gmap.
From S2P Require Import Prelude Orders OctetsLib FlowCtl RangeBufs Ranges RecvBufs SendBufs Frames FrameCodec Params Streams ConnStreams ConnInv ConnOps.

(** ** The output buffer *)
Section buffer.
Implicit Types (pre hdr out rest : list Z).

Lemma buffer_split buf off h n :
  0 <= off → 0 <= h → 0 <= n → off + h + n <= zlen buf →
  ∃ pre o1 o2 rest, buf = pre ++ o1 ++ o2 ++ rest ∧ zlen pre = off ∧ zlen o1 = h ∧ zlen o2 = n ∧
    pre = ztake off buf ∧ rest = zdrop (off + h + n) buf.
Proof.
  intros. exists (ztake off buf), (ztake h (zdrop off buf)), (ztake n (zdrop h (zdrop off buf))), (zdrop n (zdrop h (zdrop off buf))).
  rewrite !ztake_zdrop. split; [done|]. rewrite !zlen_ztake by (rewrite ?zlen_zdrop by (rewrite ?zlen_zdrop; lia); lia).
  split_and!; try done. by rewrite !zdrop_zdrop, (Z.add_assoc off) by lia.
Qed.

Lemma skip_run n buf o : 0 <= n → 0 <= o → o + n <= zlen buf →
  OctetsMut.skip (E:=Error) n (mk_octets buf o) = (Ok (), mk_octets buf (o + n)).
Proof.
  intros. unfold OctetsMut.skip. rewrite (run_bind_reads _ _ _ (zlen buf - o)) by (apply usub_ok; cbn; lia).
  cbn. by rewrite (proj2 (Z.ltb_ge _ _)) by lia.
Qed.
(** Writing the header in front of the payload, through the first of the two
    windows. *)
Lemma write_header_run (m : M octets Error unit) hdr pre o1 out rest o :
  writes m hdr → zlen o1 = zlen hdr →
  OctetsMut.in_window (0, zlen pre + zlen hdr) (OctetsMut.skip (zlen pre);; m) (mk_octets (pre ++ o1 ++ out ++ rest) o) =
    (Ok (), mk_octets (pre ++ hdr ++ out ++ rest) o).
Proof.
  intros Hm Hl. unfold OctetsMut.in_window. cbn [o_buf o_off fst snd].
  assert (zslice 0 (zlen pre + zlen hdr) (pre ++ o1 ++ out ++ rest) = pre ++ o1 ++ []) as ->.
  { rewrite app_nil_r, (app_assoc pre). apply (zslice_mid [] (pre ++ o1) (out ++ rest)); [done|]. rewrite zlen_app, zlen_nil. lia. }
  assert (OctetsMut.skip (E:=Error) (zlen pre) (mk_octets (pre ++ o1 ++ []) 0) = (Ok (), mk_octets (pre ++ o1 ++ []) (zlen pre))) as Hskip.
  { pose proof (zlen_nonneg pre). pose proof (zlen_nonneg o1). rewrite skip_run; rewrite ?Z.add_0_l, ?zlen_app, ?zlen_nil; done || lia. }
  rewrite (run_bind_ok _ _ _ _ _ Hskip). destruct (Hm pre o1 [] Hl) as ([] & Hr). rewrite Hr. cbn [o_buf].
  rewrite app_nil_r. f_equal. f_equal.
  pose proof (zsplice_mid [] (pre ++ o1) (pre ++ hdr) (out ++ rest)) as Hz. cbn in Hz. rewrite <- !app_assoc in Hz.
  apply Hz. rewrite !zlen_app. lia.
Qed.

End buffer.

(** ** One frame *)
Section frame.
Context `{RBTree} `{NetCoding} {stk : Stuck}.
Implicit Types (c : Conn.t) (s : Stream.t) (st : Packing.t).
Import Packing.

Lemma wp_on_conn {A} (m : M Conn.t Error A) P QE st :
  wp m (λ a c, P a (set_conn c st)) (λ e c, QE e (set_conn c st)) (conn st) → wp (on_conn m) P QE st.
Proof. apply wp_zoom. Qed.

(** Taking the stream's own key off the queue. *)
Lemma wp_remove_flush key c0 i d k s c (P : unit → Conn.t → Prop) QE :
  at_stream c0 i None d k s c → Stream.priority_key s = key →
  (∀ c', at_stream c0 i (if Stream.is_flushable s then Some i else None) d k s c' →
     StreamMap.flushable (Conn.streams c') = StreamMap.unlink key (StreamMap.flushable (Conn.streams c)) →
     StreamMap.streams (Conn.streams c') = StreamMap.streams (Conn.streams c) → P () c') →
  wp (Conn.on_streams (modify (StreamMap.remove_flushable key))) P QE c.
Proof.
  intros Hat <- HP. apply wp_zoom, wp_modify.
  pose proof (remove_from_run Flushable (Stream.priority_key s) (Conn.streams c)) as Er. cbn in Er. rewrite Er.
  pose proof (at_ok _ _ _ _ _ _ _ Hat) as Hok. apply HP; [|done..].
  apply (at_map _ _ None); [done|apply (same_set_queue Flushable)| |].
  - pose proof (remove_from_wf _ Flushable (Stream.priority_key s) _ (co_map _ _ _ Hok)) as Hwf. cbn in Hwf. by rewrite Er in Hwf.
  - intros j sj Hj Hf Hx Hnst. cbn. apply elem_of_unlink. split; [by apply (co_queued _ _ _ Hok j)|]. intros E.
    assert (j = i) as -> by (eapply (ko_addr _ (mw_keys _ _ (co_map _ _ _ Hok))); [exact Hj|apply Hat|done]).
    assert (s = sj) as -> by (pose proof (at_get _ _ _ _ _ _ _ Hat); congruence). by rewrite Hf in Hx.
Qed.

(** The record of a frame whose bytes are already in the packet. *)
Lemma wp_push_header i off len fin st (P : unit → Packing.t → Prop) QE :
  is_varint i → is_varint off → 1 + varint_size i + varint_size off + (2 + len) <= left (pk st) →
  0 <= o_off (b (pk st)) <= zlen (o_buf (b (pk st))) →
  (∀ st', conn st' = conn st → b (pk st') = b (pk st) →
     left (pk st') = left (pk st) - (1 + varint_size i + varint_size off + (2 + len)) →
     frames (pk st') = frames (pk st) ++ [Frame.StreamHeader i off len fin] → P () st') →
  wp (push_and (Frame.StreamHeader i off len fin) mark_data) P QE st.
Proof.
  intros Hi Ho Hl Hb HP. unfold push_and, push_frame_to_pkt. apply wp_bind, wp_bind, wp_get, wp_bind.
  eapply wp_lift.
  { cbn [Frame.wire_len]. apply fields_len_enc. by apply Forall_cons_2, Forall_cons_2, Forall_nil_2. }
  unfold enc_fields. cbn [mbind list_bind]. rewrite !zlen_app, !zlen_enc_varint, zlen_nil.
  rewrite (proj2 (Z.leb_le _ _)) by lia. apply wp_bind, wp_modify, wp_bind, wp_zoom. cbn.
  unfold Frame.to_bytes. apply wp_bind. eapply wp_reads; [apply usub_ok; lia|]. apply wp_bind, wp_ret, wp_bind.
  eapply wp_reads; [apply usub_ok; lia|]. eapply wp_lift; [apply usub_ok; lia|]. cbn.
  apply wp_bind, wp_modify, wp_ret, wp_bind, wp_modify, wp_modify. cbn. apply HP; cbn; try done. lia.
Qed.

(** What was written: the frame of the next bytes of the stream [s]. *)
Definition stream_frame (i : Z) s (out : list Z) (fin : bool) : Frame.t :=
  Frame.Stream i (RangeBuf.from out (SendBuf.off_front (Stream.send s)) fin).

Record wrote (i : Z) s (out : list Z) (fin : bool) st st' : Prop := {
  wr_buf : let bs := enc_frame (stream_frame i s out fin) in let o := o_off (b (pk st)) in
    o_buf (b (pk st')) = ztake o (o_buf (b (pk st))) ++ bs ++ zdrop (o + zlen bs) (o_buf (b (pk st))) ∧
    o_off (b (pk st')) = o + zlen bs ∧ left (pk st') = left (pk st) - zlen bs ∧ zlen bs <= left (pk st);
  wr_frames : frames (pk st') =
    frames (pk st) ++ [Frame.StreamHeader i (SendBuf.off_front (Stream.send s)) (zlen out) fin];
  wr_fin : fin = bool_decide (SendBuf.fin_off (Stream.send s) = Some (SendBuf.off_front (Stream.send s) + zlen out));
  wr_out j x : out !! j = Some x →
    content_at (SendBuf.data (Stream.send s)) (SendBuf.off_front (Stream.send s) + Z.of_nat j) x;
  wr_ok : frame_ok (stream_frame i s out fin);
  wr_full : left (pk st') = 0 ∨
    ∃ s', StreamMap.streams (Conn.streams (conn st')) !! i = Some s' ∧
      ¬ pending (SendBuf.data (Stream.send s')) (SendBuf.off_front (Stream.send s) + zlen out);
  wr_kept : kept (conn st) (conn st');
  wr_sent : was_sent (Frame.StreamHeader i (SendBuf.off_front (Stream.send s)) (zlen out) fin) (conn st')
}.

(** The packet has room for [left] bytes, at most what a two-byte length can say. *)
Definition pkt_ok (p : pkt) : Prop :=
  0 <= o_off (b p) ∧ 0 <= left p < 16384 ∧ o_off (b p) + left p <= zlen (o_buf (b p)).

Definition header_len (i : Z) s : Z := 1 + varint_size i + varint_size (SendBuf.off_front (Stream.send s)) + 2.

Lemma header_len_le i s : header_len i s <= 19.
Proof.
  unfold header_len. pose proof (varint_size_bounds i). pose proof (varint_size_bounds (SendBuf.off_front (Stream.send s))). lia.
Qed.

(** A STREAM frame is its header and the bytes. *)
Definition stream_header (i off n : Z) (fin : bool) : list Z :=
  [if fin then 0x0f else 0x0e] ++ enc_varint i ++ enc_varint off ++ enc_varint_len 2 n.

Lemma enc_stream_frame i s out fin :
  enc_frame (stream_frame i s out fin) = stream_header i (SendBuf.off_front (Stream.send s)) (zlen out) fin ++ out.
Proof.
  unfold enc_frame, stream_frame, stream_header, enc_payload, enc_len2, frame_type.
  rewrite RangeBuf.off_from, RangeBuf.deref_from, <- !app_assoc. done.
Qed.

Lemma zlen_stream_header i s n fin :
  zlen (stream_header i (SendBuf.off_front (Stream.send s)) n fin) = header_len i s.
Proof.
  unfold stream_header, header_len. rewrite !zlen_app, !zlen_enc_varint, zlen_enc_varint_len by lia.
  rewrite zlen_cons, zlen_nil. lia.
Qed.

(** [emit] on the stream of a connection. *)
Lemma at_emit c i s out fin sb' n :
  conn_wf c → StreamMap.streams (Conn.streams c) !! i = Some s → 0 <= n →
  SendBuf.emit n (Stream.send s) = (Ok (out, fin), sb') →
  let s' := Stream.set_send sb' s in
  at_stream c i None 0 (counters_of c) s' (put_stream i s' c) ∧
  zlen out <= n ∧ fin = bool_decide (SendBuf.fin_off (Stream.send s) = Some (SendBuf.off_front (Stream.send s) + zlen out)) ∧
  0 <= SendBuf.off_front (Stream.send s) ∧ SendBuf.off_front (Stream.send s) + zlen out <= varint_max ∧
  SendBuf.off_front (Stream.send s) + zlen out <= SendBuf.emit_off sb' ∧
  (∀ j x, out !! j = Some x → content_at (SendBuf.data (Stream.send s)) (SendBuf.off_front (Stream.send s) + Z.of_nat j) x) ∧
  (zlen out = n ∨ ¬ pending (SendBuf.data sb') (SendBuf.off_front (Stream.send s) + zlen out)).
Proof.
  intros Hok Hs Hn He s'. pose proof (at_start c i s Hok Hs) as Hat. destruct (at_stream_wf _ _ _ _ _ _ _ Hat) as [Hwf _].
  pose proof (st_send _ Hwf) as Hsend. pose proof (send_off_bounds s Hwf). pose proof (sw_queue _ Hsend) as Hq.
  destruct (off_front_spec _ _ Hq) as ([Hfr _] & _). pose proof (sw_base _ Hsend).
  destruct (send_emit_run (Stream.send s) n Hsend Hn) as
    (out1 & sb1 & Hr & Hwf1 & _ & Hlen & Hem & (Ho & _ & Hm & _ & Herr) & Hle & Hc & Hout & Hpend & Hfull).
  rewrite He in Hr. injection Hr as <- -> <-.
  assert (send_kept (Stream.send s) sb') as Hk.
  { constructor; [done|done|lia|]. apply stopped_content; [done..|]. intros o x Hx. by apply Hc. }
  pose proof (at_send _ _ _ _ _ _ _ _ Hat Hk (or_introl eq_refl)) as Hat1. cbv zeta in Hat1. fold s' in Hat1.
  replace (new_flush s s') with false in Hat1; cycle 1.
  { unfold new_flush. destruct (Stream.is_flushable s') eqn:Ef; [|done].
    apply (flushable_pending s') in Ef as [o Hp]; [|done]. symmetry. apply negb_false_iff.
    apply (flushable_pending s); [done|]. exists o. by apply Hpend in Hp as [? _]. }
  split; [done|]. split_and!; try done; lia.
Qed.

(** Once the bytes are in the buffer: the record of the frame, and the stream's
    place in the queue. *)
Lemma wp_requeue c0 i d k s key st (P : unit → Packing.t → Prop) QE :
  at_stream c0 i None d k s (conn st) → Stream.priority_key s = key →
  (∀ c', at_stream c0 i None d k s c' → P () (set_conn c' st)) →
  wp (if negb (Stream.is_flushable s) then on_conn (Conn.on_streams (modify (StreamMap.remove_flushable key)))
      else when (Stream.incremental s)
        (on_conn (Conn.on_streams (modify (StreamMap.remove_flushable key)));;
         on_conn (Conn.on_streams (StreamMap.insert_flushable key)))) P QE st.
Proof.
  intros Hat Hkey HP. destruct (Stream.is_flushable s) eqn:Ef; cbn [negb].
  - apply wp_when; intros _.
    + apply wp_bind, wp_on_conn. eapply wp_remove_flush; [exact Hat|done|]. rewrite Ef. intros c' Hat' _ _.
      apply wp_on_conn. eapply (wp_insert_in Flushable); [exact Hat'|done|]. intros c2 Hat2.
      rewrite decide_True in Hat2 by done. by apply (HP c2).
    + replace st with (set_conn (conn st) st) by by destruct st. by apply HP.
  - apply wp_on_conn. eapply wp_remove_flush; [exact Hat|done|]. rewrite Ef. intros c' Hat' _ _. by apply HP.
Qed.

Ltac psimpl := cbn [o_off o_buf b pk conn left frames set_pk set_b set_conn].

Lemma wp_write_stream i s st :
  conn_wf (conn st) → StreamMap.streams (Conn.streams (conn st)) !! i = Some s → pkt_ok (pk st) →
  header_len i s <= left (pk st) →
  wp (write_stream i (SendBuf.off_front (Stream.send s)) (header_len i s) (left (pk st) - header_len i s))
    (λ _ st', ∃ out fin, wrote i s out fin st st') (λ _ _, False) st.
Proof.
  intros Hok Hs (Hoff & Hleft & Hroom) Hhdr.
  assert (0 <= header_len i s) as Hh by (rewrite <- (zlen_stream_header i s 0 true); apply zlen_nonneg).
  set (h := header_len i s) in *. set (n := left (pk st) - h) in *.
  pose proof (at_start (conn st) i s Hok Hs) as Hat0. destruct (at_stream_wf _ _ _ _ _ _ _ Hat0) as [Hwf Hi].
  unfold write_stream. apply wp_bind, wp_get. set (o := o_off (b (pk st))) in *. set (buf := o_buf (b (pk st))) in *.
  apply wp_bind, wp_zoom. destruct (b (pk st)) as [buf0 o0] eqn:Eb. cbn in buf, o. subst buf o.
  eapply wp_run; [apply split_at_run; lia|]. cbn [fst snd]. apply wp_bind. unfold emit_into. apply wp_bind, wp_get.
  rewrite (proj2 (Z.ltb_ge _ _)) by (cbn; lia).
  destruct (send_emit_run (Stream.send s) n (st_send _ Hwf) ltac:(lia)) as (out & sb' & He & _).
  set (fin := bool_decide _) in He. apply wp_bind, wp_on_conn. eapply wp_on_send; [exact Hs|]. eapply wp_run; [exact He|].
  destruct (at_emit (conn st) i s out fin sb' n Hok Hs ltac:(lia) He)
    as (Hat & Hlen & Hfin & Hfr0 & Hfr & Hemit & Hout & Hfull). set (s1 := Stream.set_send sb' s) in *.
  apply wp_bind, wp_zoom, wp_modify, wp_ret. cbn.
  destruct (buffer_split buf0 o0 h (zlen out)) as (pre & o1 & o2 & rest & Ebuf & Epre & Eo1 & Eo2 & Epre' & Erest);
    [lia|lia|apply zlen_nonneg|lia|].
  set (off := SendBuf.off_front (Stream.send s)) in *. set (hdr := stream_header i off (zlen out) fin).
  assert (zlen hdr = h) as Ehdr by apply zlen_stream_header.
  assert (h = 1 + varint_size i + varint_size off + 2) as Eh by done.
  assert (n = left (pk st) - h) as En by done. clearbody h n.
  assert (zsplice (o0 + h) out buf0 = pre ++ o1 ++ out ++ rest) as ->.
  { rewrite Ebuf, <- Epre, <- Eo1, <- zlen_app, !(app_assoc pre). by apply zsplice_mid. }
  pose proof (zlen_nonneg out). assert (zlen (pre ++ hdr ++ out ++ rest) = zlen buf0) as Ezlen.
  { rewrite Ebuf, !zlen_app. lia. }
  assert (is_varint i) as Hiv by (unfold is_varint; change (2 ^ 62) with 4611686018427387904 in Hi; lia).
  assert (is_varint off) as Hov by (unfold is_varint; lia).
  apply wp_bind, wp_zoom. psimpl. eapply wp_run.
  { rewrite <- Epre, <- Ehdr. apply write_header_run; [|lia]. by apply encode_stream_header_writes; [..|lia]. }
  apply wp_bind, wp_zoom. psimpl. eapply wp_run; [apply skip_run; lia|].
  apply wp_bind, wp_push_header; [done|done|psimpl; lia|psimpl; lia|].
  psimpl. intros st1 Ec1 Eb1 El1 Ef1. apply wp_bind, wp_on_conn. rewrite Ec1. eapply wp_stream_get; [apply Hat|].
  eapply wp_requeue; [cbn; exact Hat|done|]. intros c2 Hat2. cbn in Hat2. exists out, fin.
  assert (zlen (enc_frame (stream_frame i s out fin)) = h + zlen out) as Ebs.
  { rewrite enc_stream_frame, zlen_app. fold off hdr. by rewrite Ehdr. }
  constructor; psimpl.
  - cbv zeta. rewrite Ebs, Eb1, Eb, enc_stream_frame. psimpl. split_and!; [|lia|lia|lia].
    rewrite <- Epre', <- app_assoc. do 3 f_equal. rewrite Erest. f_equal. lia.
  - by rewrite Ef1.
  - done.
  - exact Hout.
  - split; [done|]. unfold data_ok. rewrite RangeBuf.max_off_from. change (2 ^ 62) with 4611686018427387904.
    split; [apply RangeBuf.from_wf; lia|]. split; [unfold RangeBuf.len; cbn; lia|lia].
  - destruct Hfull as [Hn|Hn]; [left|right].
    + rewrite El1. lia.
    + exists s1. split; [apply Hat2|done].
  - by eapply at_kept.
  - split_and!; [done|done| |].
    + left. eexists. apply Hat2.
    + intros s2 Hs2. cbn in Hs2. assert (s2 = s1) as -> by (pose proof (at_get _ _ _ _ _ _ _ Hat2); congruence). done.
Qed.

(** ** The loop *)

(** A stream that the loop passes over: it was stopped, or its header does not
    fit, and then it leaves the queue with its data. *)
Definition stopped_in c (k : StreamPriorityKey.t) : Prop := ∃ s,
  StreamMap.streams (Conn.streams c) !! StreamPriorityKey.id k = Some s ∧ SendBuf.is_stopped (Stream.send s) = true.
Definition squeezed_in (room : Z) c (k : StreamPriorityKey.t) : Prop := ∃ s,
  StreamMap.streams (Conn.streams c) !! StreamPriorityKey.id k = Some s ∧ SendBuf.is_stopped (Stream.send s) = false ∧
  room < header_len (StreamPriorityKey.id k) s.
Definition passed_over (room : Z) c k : Prop := stopped_in c k ∨ squeezed_in room c k.

(** The stream of the first key in the queue that is not passed over. *)
Definition first_sender (room : Z) c (i : Z) s : Prop :=
  StreamMap.streams (Conn.streams c) !! i = Some s ∧ SendBuf.is_stopped (Stream.send s) = false ∧ header_len i s <= room ∧
  ∃ l1 l2, StreamMap.flushable (Conn.streams c) = l1 ++ Stream.priority_key s :: l2 ∧ Forall (passed_over room c) l1.

(** With room for any header only stopped streams are passed over. *)
Lemma passed_over_stopped room c k : 19 <= room → passed_over room c k → stopped_in c k.
Proof. intros Hr [Hs|(s & _ & _ & Hh)]; [done|]. pose proof (header_len_le (StreamPriorityKey.id k) s). lia. Qed.

(** The ids of the streams that a packet with this room drops from the queue. *)
Fixpoint squeezed (room : Z) c (q : list StreamPriorityKey.t) : list Z :=
  match q with
  | [] => []
  | k :: q =>
      let i := StreamPriorityKey.id k in
      match StreamMap.get i (Conn.streams c) with
      | Some s =>
          if SendBuf.is_stopped (Stream.send s) then squeezed room c q
          else if room <? header_len i s then i :: squeezed room c q
          else []
      | None => squeezed room c q
      end
  end.
Lemma squeezed_none room c q : 19 <= room → squeezed room c q = [].
Proof.
  intros Hr. induction q as [|k q IH]; [done|]. cbn. destruct (StreamMap.get _ _) as [s|]; [|done]. destruct (SendBuf.is_stopped _); [done|].
  pose proof (header_len_le (StreamPriorityKey.id k) s). by rewrite (proj2 (Z.ltb_ge _ _)) by lia.
Qed.
Lemma squeezed_same room c c' q : StreamMap.streams (Conn.streams c') = StreamMap.streams (Conn.streams c) → squeezed room c' q = squeezed room c q.
Proof. intros E. induction q as [|k q IH]; [done|]. cbn. unfold StreamMap.get. by rewrite E, IH. Qed.

(** Nothing was written, and no stream has anything to send, but those that were
    dropped. *)
Definition nothing_to_send st st' : Prop :=
  pk st' = pk st ∧ kept (conn st) (conn st') ∧
  ∀ i s, StreamMap.streams (Conn.streams (conn st')) !! i = Some s → ¬ stuck i → Stream.is_flushable s = false.

Definition flushed st st' : Prop :=
  nothing_to_send st st' ∨ ∃ i s out fin, first_sender (left (pk st)) (conn st) i s ∧ wrote i s out fin st st'.

Lemma wrote_from i s out fin c1 st st' :
  kept (conn st) c1 → wrote i s out fin (set_conn c1 st) st' → wrote i s out fin st st'.
Proof. intros [_ Hev] [? ? ? ? ? ? [Hok Hev'] ?]. constructor; try done. split; [done|]. by etrans. Qed.

(** Dropping a stream that is passed over from the queue. *)
Lemma drop_passed room st k q s (P : unit → Packing.t → Prop) QE :
  conn_wf (conn st) → StreamMap.flushable (Conn.streams (conn st)) = k :: q →
  StreamMap.streams (Conn.streams (conn st)) !! StreamPriorityKey.id k = Some s → Stream.priority_key s = k →
  passed_over room (conn st) k → (SendBuf.is_stopped (Stream.send s) = false → stuck (StreamPriorityKey.id k)) →
  (∀ c1, kept (conn st) c1 → StreamMap.flushable (Conn.streams c1) = q → StreamMap.streams (Conn.streams c1) = StreamMap.streams (Conn.streams (conn st)) →
     (∀ i s1, first_sender room c1 i s1 → first_sender room (conn st) i s1) → P () (set_conn c1 st)) →
  wp (on_conn (Conn.on_streams (modify (StreamMap.remove_flushable k)))) P QE st.
Proof.
  intros Hok Hq Hs Hk Hpass Hstuck HP. pose proof (at_start _ _ s Hok Hs) as Hat. destruct (at_stream_wf _ _ _ _ _ _ _ Hat) as [Hwf _].
  apply wp_on_conn. eapply wp_remove_flush; [exact Hat|done|]. intros c1 Hat1 Ef Es.
  assert (kept (conn st) c1) as Hkept.
  { split; [|apply (at_ev _ _ _ _ _ _ _ Hat1)]. pose proof (at_ok _ _ _ _ _ _ _ Hat1) as Hok1. destruct (SendBuf.is_stopped (Stream.send s)) eqn:Hstop.
    - rewrite empty_not_flushable in Hok1; [done|]. apply (st_stopped _ Hwf). unfold SendBuf.is_stopped in Hstop. apply bool_decide_eq_true in Hstop as [e E]. by rewrite E.
    - destruct (Stream.is_flushable s); [|done]. by apply (conn_ok_stuck (StreamPriorityKey.id k)); [apply Hstuck|]. }
  pose proof (co_map _ _ _ Hok) as Hm. pose proof (mw_queue _ _ Hm Flushable) as Hqueue. cbn in Hqueue.
  rewrite Hq in Ef, Hqueue. rewrite (unlink_head _ _ _ _ Hqueue) in Ef.
  apply HP; [done..|]. intros i s1 (Hi & Hns & Hfit & l1 & l2 & Hl & Hl1). rewrite Es in Hi.
  split_and!; [done..|]. exists (k :: l1), l2. rewrite Hq, <- Ef, Hl. split; [done|]. constructor; [done|].
  unfold passed_over, stopped_in, squeezed_in in *. by rewrite Es in Hl1.
Qed.

Lemma wp_stream_loop fuel st :
  conn_wf (conn st) → pkt_ok (pk st) → Forall stuck (squeezed (left (pk st)) (conn st) (StreamMap.flushable (Conn.streams (conn st)))) →
  (length (StreamMap.flushable (Conn.streams (conn st))) < fuel)%nat →
  wp (stream_loop fuel) (λ _ st', flushed st st') (λ _ _, False) st.
Proof.
  revert st. induction fuel as [|fuel IH]; intros st Hok Hpk Hst Hfuel; [lia|].
  cbn [stream_loop]. apply wp_bind, wp_get. unfold StreamMap.peek_flushable.
  destruct (StreamMap.flushable (Conn.streams (conn st))) as [|k q] eqn:Hq; cbn [head].
  { apply wp_ret. left. split; [done|]. split; [by apply kept_refl|]. intros i s Hs Hnst.
    destruct (Stream.is_flushable s) eqn:Ef; [|done]. pose proof (co_queued _ _ _ Hok i s Hs Ef ltac:(done) Hnst) as Hin.
    rewrite Hq in Hin. by apply not_elem_of_nil in Hin. }
  pose proof (mw_queue _ _ (co_map _ _ _ Hok) Flushable) as Hqueue. cbn in Hqueue. rewrite Hq in Hqueue.
  destruct (live_owned Flushable _ _ k ltac:(done) Hqueue ltac:(by left)) as (s & Hs & Hk). cbn [squeezed] in Hst. unfold StreamMap.get in Hst |- *. rewrite Hs in Hst |- *.
  assert (passed_over (left (pk st)) (conn st) k → (SendBuf.is_stopped (Stream.send s) = false → stuck (StreamPriorityKey.id k)) →
    Forall stuck (squeezed (left (pk st)) (conn st) q) →
    wp (on_conn (Conn.on_streams (modify (StreamMap.remove_flushable k)));; stream_loop fuel) (λ _ st', flushed st st') (λ _ _, False) st) as Hdrop.
  { intros Hpass Hstuck Hrest. apply wp_bind. eapply (drop_passed (left (pk st))); [done..|]. intros c1 Hk1 Hq1 Es1 Hfirst.
    eapply wp_mono; [apply IH; cbn; [apply Hk1|done|by rewrite Hq1, (squeezed_same _ (conn st))|rewrite Hq1; cbn in Hfuel; lia]|..]; cbv beta; [|done].
    intros _ st' [(E & Hk2 & Hn)|(i & s1 & out & fin & Hf & Hw)].
    - left. split; [done|]. split; [|done]. split; [apply Hk2|]. etrans; [apply Hk1|apply Hk2].
    - right. exists i, s1, out, fin. split; [by apply Hfirst|by eapply wrote_from]. }
  destruct (SendBuf.is_stopped (Stream.send s)) eqn:Hstop; cbn [negb].
  { apply Hdrop; [left; by exists s|done|done]. }
  destruct (co_stream _ _ _ Hok _ _ Hs) as [Hwf Hi]. pose proof (st_send _ Hwf) as Hsend.
  pose proof (send_off_bounds s Hwf). destruct (off_front_spec _ _ (sw_queue _ Hsend)) as ([? ?] & _). pose proof (sw_base _ Hsend).
  apply wp_bind. eapply wp_lift; [apply varint_len_size; unfold is_varint; change (2 ^ 62) with 4611686018427387904 in Hi; lia|].
  apply wp_bind. eapply wp_lift; [apply varint_len_size; unfold is_varint; lia|].
  change (1 + varint_size (StreamPriorityKey.id k) + varint_size (SendBuf.off_front (Stream.send s)) + 2)
    with (header_len (StreamPriorityKey.id k) s). rewrite Hk.
  destruct (Z.ltb_spec (left (pk st)) (header_len (StreamPriorityKey.id k) s)) as [Hlt|Hge].
  { apply Forall_cons in Hst as [Hst1 Hst2]. apply Hdrop; [right; by exists s|done|done]. }
  eapply wp_mono; [by apply wp_write_stream| |done]; cbv beta.
  intros _ st' (out & fin & Hw). right. exists (StreamPriorityKey.id k), s, out, fin. split; [|done].
  split_and!; [done..|]. exists [], q. split; [by rewrite Hk|constructor].
Qed.
End frame.
