(* ===== verification/ConnRun.v ===== *)
(** * A connection's streams over time

    The connection as a state machine: the application's calls, the frames of
    the peer, the feedback on our own frames and the packets we write, in any
    order.  The invariant of [ConnInv.v] holds in every state and no step
    panics; the packets carry the next bytes of the streams. *)
From stdpp Require Import gmap.
From S2P Require Import Prelude Orders OctetsLib Readers FlowCtl RangeBufs Ranges RecvBufs SendBufs Packets Frames FrameCodec Params Streams ConnStreams ConnInv ConnOps ConnFlush.

(** ** The steps *)
Section run.
Context `{RBTree} `{NetCoding} {stk : Stuck}.
Implicit Types (c : Conn.t) (s : Stream.t) (st : Packing.t).

Inductive conn_op :=
  | OpRecv (stream_id cap : Z)
  | OpSend (stream_id : Z) (buf : list Z) (fin : bool)
  | OpPriority (stream_id urgency : Z) (incremental : bool)
  | OpShutdown (cwin_available stream_id : Z) (direction : Shutdown) (err : Z)
  | OpReadableNext
  | OpWritableNext
  | OpWritable (stream_id len : Z)
  | OpTxCap (cwin_available : Z)
  | OpPeerParams (cwin_available : Z) (peer_params : TransportParams.t)
  | OpFrame (f : Frame.t)
  | OpAcked (f : Frame.t)
  | OpLost (f : Frame.t)
  | OpPacket (p : Packing.pkt).

(** The stream frames of one packet; [p] is what the packet is before them. *)
Definition write_packet (p : Packing.pkt) : M Conn.t Error (list Frame.t) := λ c,
  match (Packing.stream_frames true) (Packing.mk c p) with
  | (Ok _, st) => (Ok (Packing.frames (Packing.pk st)), Packing.conn st)
  | (Err e, st) => (Err e, Packing.conn st)
  | (Panic, st) => (Panic, Packing.conn st)
  end.

Definition quiet {A} (m : M Conn.t Error A) : M Conn.t Error (list Frame.t) := m;; mret [].

(** A step returns the frames that it sent. *)
Definition run_op (o : conn_op) : M Conn.t Error (list Frame.t) :=
  match o with
  | OpRecv i cap => quiet (Conn.stream_recv i cap)
  | OpSend i buf fin => quiet (Conn.stream_send i buf fin)
  | OpPriority i u inc => quiet (Conn.stream_priority i u inc)
  | OpShutdown w i d e => quiet (Conn.stream_shutdown w i d e)
  | OpReadableNext => quiet Conn.stream_readable_next
  | OpWritableNext => quiet Conn.stream_writable_next
  | OpWritable i n => quiet (Conn.stream_writable i n)
  | OpTxCap w => quiet (Conn.update_tx_cap w)
  | OpPeerParams w peer => quiet (Conn.process_peer_transport_params w peer)
  | OpFrame f => match Conn.process_frame f with Some m => quiet m | None => mret [] end
  | OpAcked f => quiet (Conn.acked_frame f)
  | OpLost f => quiet (Conn.lost_frame f)
  | OpPacket p => write_packet p
  end.

(** What a peer can say, and what the configuration may hold. *)
Definition stream_params (p : TransportParams.t) : Prop :=
  max_limits p ∧ is_varint (TransportParams.initial_max_data p) ∧
  0 <= TransportParams.initial_max_streams_bidi p <= u64_max ∧ 0 <= TransportParams.initial_max_streams_uni p <= u64_max.

(** What the callers provide: stream ids of 62 bits, room for what is written
    in the counter of queued bytes, frames as [Frame.from_bytes] returns them, feedback only
    on frames that were [sent], packets of less than 16 KiB, and, when the peer's
    parameters come after 0-RTT data was sent, a limit that covers that data. *)
Definition op_ok (sent : list Frame.t) c (o : conn_op) : Prop :=
  match o with
  | OpRecv _ cap => 0 <= cap
  | OpSend i buf _ => 0 <= i < 2 ^ 62 ∧ queue_room i (Z.min (zlen buf) (Conn.tx_cap c)) c
  | OpPriority i _ _ => 0 <= i < 2 ^ 62
  | OpShutdown w _ _ _ | OpTxCap w => 0 <= w
  | OpPeerParams w peer => 0 <= w ∧ stream_params peer ∧ Conn.tx_data c <= TransportParams.initial_max_data peer
  | OpReadableNext | OpWritableNext => True
  | OpWritable _ n => n <= 2 ^ 63
  | OpFrame f => peer_frame f
  | OpAcked f => f ∈ sent
  | OpLost f => f ∈ sent ∧ lost_room f c
  | OpPacket p => pkt_ok p ∧ Packing.frames p = []
  end.

(** The streams that a packet takes off the queue with their data: those whose
    header does not fit, when the room passes the check of [stream_frames]. *)
Definition squeezed_out c (p : Packing.pkt) : list Z :=
  if MAX_STREAM_OVERHEAD <? Packing.left p then squeezed (Packing.left p) c (StreamMap.flushable (Conn.streams c)) else [].
Definition drops c (o : conn_op) : list Z := match o with OpPacket p => squeezed_out c p | _ => [] end.

(** An error of a frame closes the connection; the application may go on after
    an error of a call. *)
Definition goes_on (o : conn_op) (r : result Error (list Frame.t)) (out : list Frame.t) : Prop :=
  r = Ok out ∨ (out = [] ∧ ∃ e, r = Err e ∧ ∀ f, o ≠ OpFrame f).

(** A connection after the peer's transport parameters arrived. *)
Definition started (server : bool) (local peer : TransportParams.t) (max_conn_window max_stream_window cwin : Z) c : Prop :=
  ∃ c1, Conn.new server local max_conn_window max_stream_window = Ok c1 ∧
        Conn.process_peer_transport_params cwin peer c1 = (Ok (), c).

(** With the frames that were sent, and the streams that packets dropped. *)
Inductive conn_run c0 : list Frame.t → list Z → Conn.t → Prop :=
  | run_start : conn_run c0 [] [] c0
  | run_step sent dropped c o r out c' :
      conn_run c0 sent dropped c → op_ok sent c o → run_op o c = (r, c') → goes_on o r out →
      conn_run c0 (out ++ sent) (drops c o ++ dropped) c'.

Lemma wp_quiet {A} (m : M Conn.t Error A) c (P : Conn.t → Prop) QE :
  wp m (λ _ c', P c') QE c → wp (quiet m) (λ out c', P c' ∧ out = []) QE c.
Proof. intros Hm. apply wp_bind. eapply wp_mono; [exact Hm|intros; by apply wp_ret|done]. Qed.

(** The frames that a step sends were sent. *)
Definition sends (out : list Frame.t) c c' : Prop := kept c c' ∧ Forall (λ f, was_sent f c') out.

Lemma wp_quiet_sends {A} (m : M Conn.t Error A) c :
  wp m (λ _ c', kept c c') (λ _ c', kept c c') c → wp (quiet m) (λ out c', sends out c c') (λ _ c', kept c c') c.
Proof. intros Hm. eapply wp_mono; [apply (wp_quiet _ _ (kept c)), Hm|by intros out c' [? ->]|done]. Qed.

Lemma wp_stream_frames st :
  conn_wf (Packing.conn st) → pkt_ok (Packing.pk st) → Forall stuck (squeezed_out (Packing.conn st) (Packing.pk st)) →
  wp (Packing.stream_frames true) (λ _ st', if MAX_STREAM_OVERHEAD <? Packing.left (Packing.pk st) then flushed st st' else st' = st) (λ _ _, False) st.
Proof.
  intros Hok Hp Hs. unfold Packing.stream_frames, squeezed_out in *. apply wp_bind, wp_get. cbn [andb].
  destruct (_ <? _); cbn [when]; [apply wp_stream_loop; done || lia|by apply wp_ret].
Qed.

(** The frames that were written, one or none. *)
Lemma write_packet_sends p c :
  conn_wf c → pkt_ok p → Packing.frames p = [] → Forall stuck (squeezed_out c p) →
  wp (write_packet p) (λ out c', sends out c c') (λ _ c', kept c c') c.
Proof.
  intros Hok Hp Hf Hs. pose proof (wp_stream_frames (Packing.mk c p) Hok Hp Hs) as Hw. unfold wp, write_packet in *. cbn [Packing.pk] in Hw.
  destruct (Packing.stream_frames true (Packing.mk c p)) as [[[]|e|] st']; [|done..]. destruct (_ <? _).
  2: { subst st'. cbn. rewrite Hf. split; [by apply kept_refl|constructor]. }
  destruct Hw as [(Hpk & Hk & _)|(i & s & out & fin & _ & [_ Hfr _ _ _ _ Hk Hsent])]; split.
  - exact Hk.
  - rewrite Hpk. cbn. rewrite Hf. constructor.
  - exact Hk.
  - rewrite Hfr. cbn. rewrite Hf. by apply Forall_singleton.
Qed.

Lemma keeps_update_tx_cap w c :
  conn_wf c → 0 <= w → wp (Conn.update_tx_cap w) (λ _ c', kept c c') (λ _ c', kept c c') c.
Proof.
  intros [Hm Hst Hq [Hc Hb Hr] Hp] Hw. destruct Hc as (? & ? & ?). cbn in *.
  unfold Conn.update_tx_cap. apply wp_bind, wp_get, wp_bind. eapply wp_lift; [apply usub_ok; lia|]. apply wp_put.
  split; [constructor|]; try done; [constructor; cbn in *; [lia|done|done]|].
  constructor; [done..|]. intros j sj Hj. left. exists sj. split; [done|lia].
Qed.

(** The peer's parameters; they may not lower the limit below what was sent. *)
Lemma peer_params_keeps cwin peer c :
  conn_wf c → 0 <= cwin → stream_params peer → Conn.tx_data c <= TransportParams.initial_max_data peer →
  wp (Conn.process_peer_transport_params cwin peer) (λ _ c', kept c c') (λ _ _, False) c.
Proof.
  intros [Hm Hst Hq [Hc Hb Hr] Hp] Hw (Hl & Hd & _ & _) Htx. unfold is_varint in Hd. destruct Hc as (? & ? & ?). cbn in *.
  unfold Conn.process_peer_transport_params, Conn.update_tx_cap.
  apply wp_bind, wp_modify, wp_bind, wp_bind, wp_get, wp_bind. cbn [Conn.max_tx_data Conn.tx_data Conn.set_max_tx_data].
  eapply wp_lift; [apply usub_ok; lia|]. apply wp_put, wp_bind, wp_zoom, wp_modify, wp_bind, wp_zoom, wp_modify, wp_modify.
  destruct Hp. split; [constructor; cbn; [by apply raise_peer_wf, raise_peer_wf|exact Hst|exact Hq| |done]|].
  - constructor; cbn; [lia|done|exact Hr].
  - constructor; cbn; [done..|]. intros j sj Hj. left. exists sj. split; [done|lia].
Qed.

(** One step. *)
Lemma step_keeps sent c o :
  conn_wf c → Forall (λ f, was_sent f c) sent → op_ok sent c o → Forall stuck (drops c o) →
  wp (run_op o) (λ out c', sends out c c') (λ _ c', (∀ f, o ≠ OpFrame f) → kept c c') c.
Proof.
  intros Hok Hsent Ho Hst. assert (∀ f, f ∈ sent → was_sent f c) as Hs by by apply Forall_forall.
  destruct o; cbn [run_op op_ok drops] in *.
  10: { destruct (Conn.process_frame f) as [m|] eqn:Hm; [|by apply wp_ret].
    eapply wp_mono; [apply (wp_quiet _ _ (kept c)); by eapply accepts_process_frame|by intros out c' [? ->]|].
    cbv beta. intros _ c' _ Hne. by destruct (Hne f). }
  12: { destruct Ho as (? & ?). eapply wp_mono; [by apply write_packet_sends|by intros ? ?|by intros ? ?]. }
  all: eapply wp_mono; [apply wp_quiet_sends|by intros ? ?|by intros ? ?].
  - by apply keeps_stream_recv.
  - destruct Ho. by apply keeps_stream_send.
  - by apply keeps_stream_priority.
  - by apply keeps_stream_shutdown.
  - by apply keeps_readable_next.
  - by apply keeps_writable_next.
  - by apply keeps_stream_writable.
  - by apply keeps_update_tx_cap.
  - destruct Ho as (? & ? & ?). eapply wp_mono; [by apply peer_params_keeps|done|done].
  - eapply wp_mono; [apply acked_keeps; auto|by intros ? ?|by intros ? ?].
  - destruct Ho as [? ?]. eapply wp_mono; [apply lost_keeps; auto|by intros ? ?|by intros ? ?].
Qed.

Lemma run_invariant c0 sent dropped c :
  conn_wf c0 → conn_run c0 sent dropped c → Forall stuck dropped → conn_wf c ∧ evolves c0 c ∧ Forall (λ f, was_sent f c) sent.
Proof.
  intros Hok. induction 1 as [|sent dropped c o r out c' _ IH Ho Hr Hg]; intros Hd; [done|]. apply Forall_app in Hd as [Hd1 Hd2].
  destruct (IH Hd2) as (Hwf & Hev & Hs). pose proof (step_keeps sent c o Hwf Hs Ho Hd1) as Hk. unfold wp in Hk. rewrite Hr in Hk.
  assert (kept c c' ∧ Forall (λ f, was_sent f c') out) as [[Hwf' Hev'] Hout].
  { destruct Hg as [-> | (-> & e & -> & Hne)]; [exact Hk|]. split; [by apply Hk|constructor]. }
  split; [done|]. split; [by etrans|]. apply Forall_app. split; [done|].
  eapply Forall_impl; [exact Hs|]. intros f. by apply was_sent_evolves.
Qed.

(** *** The start *)

Lemma new_conn_wf srv lp w1 w2 c :
  stream_params lp → Conn.new srv lp w1 w2 = Ok c → conn_wf c ∧ Conn.tx_data c = 0.
Proof.
  intros (Hl & Hd & Hb & Hu) Hc. unfold Conn.new in Hc. unfold is_varint in Hd.
  pose proof (Z.mul_div_le (TransportParams.initial_max_data lp) 2 ltac:(lia)).
  rewrite umul_ok in Hc by lia. injection Hc as <-. split; [|done]. constructor; cbn.
  - by apply new_map_wf.
  - intros i s Hi. by rewrite lookup_empty in Hi.
  - intros i s Hi. by rewrite lookup_empty in Hi.
  - rewrite total_empty. constructor; cbn; lia.
  - split; [done|]. split_and!; unfold is_varint; cbn; lia.
Qed.

Lemma started_wf srv lp peer w1 w2 cwin c :
  stream_params lp → stream_params peer → 0 <= cwin → started srv lp peer w1 w2 cwin c → conn_wf c.
Proof.
  intros Hlp Hpeer Hw (c1 & Hnew & Hr). destruct (new_conn_wf _ _ _ _ _ Hlp Hnew) as [Hok Htx].
  destruct Hpeer as (? & Hd & ?). pose proof (peer_params_keeps cwin peer c1 Hok Hw) as Hk.
  unfold wp in Hk. rewrite Hr in Hk. apply Hk; [done|]. rewrite Htx. apply Hd.
Qed.

(** Small parameters, and the connections that start with them. *)
Definition small_params : TransportParams.t :=
  TransportParams.with_data 1000 (TransportParams.with_uni 1000 (TransportParams.with_streams_bidi 10
    (TransportParams.with_streams_uni 10 (TransportParams.with_bidi_remote 1000
      (TransportParams.with_bidi_local 1000 TransportParams.default))))).

(** A sequence of steps, with the frames they sent, latest first. *)
Fixpoint run_ops (os : list conn_op) (sent : list Frame.t) : M Conn.t Error (list Frame.t) :=
  match os with
  | [] => mret sent
  | o :: os =>
      r ← attempt (run_op o);
      run_ops os (match r with inl out => out ++ sent | inr _ => sent end)
  end.

(** From the start with [small_params] on both sides, as a server. *)
Definition run_small (os : list conn_op) : result Error (list Frame.t) * option Conn.t :=
  match Conn.new true small_params 10000 10000 with
  | Ok c =>
      let '(r, c) := (Conn.process_peer_transport_params 5000 small_params;; run_ops os []) c in (r, Some c)
  | Err e => (Err e, None)
  | Panic => (Panic, None)
  end.
End run.

(** ** Theorems *)
Section theorems.
Context `{RBTree} `{NetCoding}.
Implicit Types (c : Conn.t) (s : Stream.t) (st : Packing.t).

(** The invariant after a run, the streams that it dropped aside. *)
Lemma run_reaches srv lp peer w1 w2 cwin c0 sent dropped c (stk : Stuck := λ i, i ∈ dropped) :
  stream_params lp → stream_params peer → 0 <= cwin → started srv lp peer w1 w2 cwin c0 →
  conn_run c0 sent dropped c → conn_wf c ∧ Forall (λ f, was_sent f c) sent.
Proof.
  intros Hlp Hpeer Hw Hstart Hrun. pose proof (started_wf _ _ _ _ _ _ _ Hlp Hpeer Hw Hstart) as Hok0.
  destruct (run_invariant _ _ _ _ Hok0 Hrun) as (Hok & _ & Hsent); [|done]. by apply Forall_forall.
Qed.

(** C4. The streams of a connection stay consistent.  From a connection that
    got the peer's transport parameters, after any sequence of calls, accepted
    frames, acknowledgements, losses and written packets: every stream that has
    something to send is in the queue of flushable streams, unless a packet that
    had more than 12 bytes left and not enough for its header took it off; the
    bytes that the application may still write fit the peer's connection limit
    ([tx_cap]) and what is buffered was counted; what the peer sent is within the
    limit we advertised, and what was consumed together with what the streams
    still hold is part of it; and none of these calls panics, provided that its
    arguments are as [op_ok] says: in particular parameters of the peer that come
    later do not set a limit below what was sent ([lower_limit_panics]). *)
Theorem conn_invariant srv lp peer w1 w2 cwin c0 sent dropped c :
  stream_params lp → stream_params peer → 0 <= cwin → started srv lp peer w1 w2 cwin c0 →
  conn_run c0 sent dropped c →
  (∀ i s, StreamMap.streams (Conn.streams c) !! i = Some s → Stream.is_flushable s = true →
     i ∈ dropped ∨ Stream.priority_key s ∈ StreamMap.flushable (Conn.streams c)) ∧
  (0 <= Conn.tx_cap c ∧ Conn.tx_data c + Conn.tx_cap c <= Conn.max_tx_data c ∧ Conn.tx_buffered c <= Conn.tx_data c) ∧
  (FlowControl.consumed (Conn.flow_control c) + total held (StreamMap.streams (Conn.streams c)) <= Conn.rx_data c ∧
   Conn.rx_data c <= Conn.max_rx_data c) ∧
  ∀ o, op_ok sent c o → (run_op o c).1 ≠ Panic.
Proof.
  intros Hlp Hpeer Hw Hstart Hrun. destruct (run_reaches _ _ _ _ _ _ _ _ _ _ Hlp Hpeer Hw Hstart Hrun) as [Hok Hsent].
  pose proof Hok as [_ _ Hq [Hc Hb Hr] _]. cbn in Hc, Hb, Hr. split_and!; [|lia..| |].
  - intros i s Hs Hf. destruct (decide (i ∈ dropped)) as [Hd|Hd]; [by left|right]. by apply (Hq i s).
  - unfold Conn.max_rx_data. lia.
  - intros o Ho E. pose proof (started_wf (stk := λ _, True) _ _ _ _ _ _ _ Hlp Hpeer Hw Hstart) as Hok0.
    destruct (run_invariant (stk := λ _, True) _ _ _ _ Hok0 Hrun) as (Hok' & _ & _); [by apply Forall_true|].
    pose proof (step_keeps (stk := λ _, True) sent c o Hok' Hsent Ho) as Hk. unfold wp in Hk.
    destruct (run_op o c) as [[]]; cbn in E; try done. by apply Hk, Forall_true.
Qed.

(** C5. Writing stream data.  In every reachable state and for every packet of
    less than 16 KiB, writing the STREAM frame of a packet ends without an error.
    With at most 12 bytes left nothing happens.  Otherwise either the packet is
    as it was, and no stream has anything to send but those that this or an
    earlier packet dropped, or the packet has the frame of the first stream of
    the queue that was not stopped and whose header fits; with room for 19 bytes
    every header fits and nothing is dropped.  Those bytes parse, in a 1-RTT and
    in a 0-RTT packet, as a STREAM frame with the stream's id and first unsent
    offset, the bytes are the stream's content from that offset, and the frame
    has the fin flag exactly when it ends where the stream ends. *)
Theorem packet_carries_streams srv lp peer w1 w2 cwin c0 sent dropped c p dec :
  stream_params lp → stream_params peer → 0 <= cwin → started srv lp peer w1 w2 cwin c0 →
  conn_run c0 sent dropped c → pkt_ok p →
  let '(r, st) := Packing.stream_frames true (Packing.mk c p) in
  (19 <= Packing.left p → squeezed_out c p = []) ∧
  r = Ok () ∧
  (Packing.left p <= MAX_STREAM_OVERHEAD ∧ st = Packing.mk c p ∨
   MAX_STREAM_OVERHEAD < Packing.left p ∧ Packing.pk st = p ∧
     (∀ i s, StreamMap.streams (Conn.streams (Packing.conn st)) !! i = Some s → Stream.is_flushable s = true → i ∈ squeezed_out c p ++ dropped) ∨
   ∃ i s out fin bs, first_sender (Packing.left p) c i s ∧
     let off := SendBuf.off_front (Stream.send s) in
     let o := o_off (Packing.b p) in
     o_buf (Packing.b (Packing.pk st)) = ztake o (o_buf (Packing.b p)) ++ bs ++ zdrop (o + zlen bs) (o_buf (Packing.b p)) ∧
     o_off (Packing.b (Packing.pk st)) = o + zlen bs ∧ Packing.left (Packing.pk st) = Packing.left p - zlen bs ∧
     (∀ pkt, pkt = PktType.Short ∨ pkt = PktType.ZeroRTT →
        ∃ f, parses (Frame.from_bytes pkt dec) bs f ∧ same_frame (Frame.Stream i (RangeBuf.from out off fin)) f) ∧
     (∀ j x, out !! j = Some x → content_at (SendBuf.data (Stream.send s)) (off + Z.of_nat j) x) ∧
     fin = bool_decide (SendBuf.fin_off (Stream.send s) = Some (off + zlen out))).
Proof.
  intros Hlp Hpeer Hw Hstart Hrun Hp. set (stk := (λ i, i ∈ squeezed_out c p ++ dropped) : Stuck).
  pose proof (started_wf (stk := stk) _ _ _ _ _ _ _ Hlp Hpeer Hw Hstart) as Hok0.
  destruct (run_invariant (stk := stk) _ _ _ _ Hok0 Hrun) as (Hok & _ & _); [apply Forall_forall; intros i Hi; apply elem_of_app; by right|].
  assert (Forall stk (squeezed_out c p)) as Hsq by (apply Forall_forall; intros i Hi; apply elem_of_app; by left).
  pose proof (wp_stream_frames (stk := stk) (Packing.mk c p) Hok Hp Hsq) as Hf. unfold wp in Hf. cbn [Packing.pk] in Hf.
  destruct (Packing.stream_frames true (Packing.mk c p)) as [[[]|e|] st]; [|done..].
  split; [intros Hl; unfold squeezed_out; rewrite squeezed_none by done; by destruct (_ <? _)|]. split; [done|].
  destruct (Z.ltb_spec MAX_STREAM_OVERHEAD (Packing.left p)) as [Hlt|Hge]; [right|by left].
  destruct Hf as [(Hpk & _ & Hn)|(i & s & out & fin & Hfirst & [Hbuf _ Hfin Hout Hframe _ _ _])]; [left|right].
  { split_and!; [done..|]. intros i s Hs Hfl. destruct (decide (i ∈ squeezed_out c p ++ dropped)) as [|Hni]; [done|]. by rewrite (Hn i s Hs Hni) in Hfl. }
  exists i, s, out, fin, (enc_frame (stream_frame i s out fin)). split; [done|]. cbv zeta in Hbuf |- *.
  destruct Hbuf as (Hb & Ho & Hleft & _). split_and!; [done..| |done|done].
  intros pkt Hpkt. apply from_bytes_p; [done|]. by destruct Hpkt as [-> | ->].
Qed.
(** A packet whose room passes the check against [MAX_STREAM_OVERHEAD] and is
    too small for the header: the stream leaves the queue with its data, and as
    it was flushable before, no later call queues it again. *)
Lemma short_packet_drops_stream c p i s :
  StreamMap.streams (Conn.streams c) !! i = Some s → Stream.is_flushable s = true → SendBuf.is_stopped (Stream.send s) = false →
  StreamPriorityKey.id (Stream.priority_key s) = i → StreamMap.flushable (Conn.streams c) = [Stream.priority_key s] →
  is_varint i → is_varint (SendBuf.off_front (Stream.send s)) →
  MAX_STREAM_OVERHEAD < Packing.left p < header_len i s →
  ∃ c', Packing.stream_frames true (Packing.mk c p) = (Ok (), Packing.mk c' p) ∧
    StreamMap.streams (Conn.streams c') = StreamMap.streams (Conn.streams c) ∧ StreamMap.flushable (Conn.streams c') = [].
Proof.
  intros Hs _ Hstop Hid Hq Hi Hoff [Hmin Hmax].
  enough (wp (Packing.stream_frames true) (λ _ st', Packing.pk st' = p ∧
    StreamMap.streams (Conn.streams (Packing.conn st')) = StreamMap.streams (Conn.streams c) ∧
    StreamMap.flushable (Conn.streams (Packing.conn st')) = []) (λ _ _, False) (Packing.mk c p)) as Hw.
  { unfold wp in Hw. destruct (Packing.stream_frames _ _) as [[[]|e|] [c' p']]; [|done..].
    destruct Hw as (Hp & H1 & H2). cbn in Hp. subst p'. by exists c'. }
  unfold Packing.stream_frames. apply wp_bind, wp_get. cbn [andb Packing.pk Packing.conn].
  rewrite (proj2 (Z.ltb_lt _ _) Hmin), Hq. cbn [when length Packing.stream_loop]. apply wp_bind, wp_get.
  unfold StreamMap.peek_flushable. cbn [Packing.conn]. rewrite Hq. cbn [head]. rewrite Hid. unfold StreamMap.get. rewrite Hs, Hstop. cbn [negb].
  apply wp_bind. eapply wp_lift; [by apply varint_len_size|]. apply wp_bind. eapply wp_lift; [by apply varint_len_size|].
  change (1 + varint_size i + varint_size (SendBuf.off_front (Stream.send s)) + 2) with (header_len i s).
  cbn [Packing.pk]. rewrite (proj2 (Z.ltb_lt _ _) Hmax). apply wp_bind, wp_on_conn, wp_zoom, wp_modify.
  change (StreamMap.remove_flushable ?k ?m) with (remove_from Flushable k m). rewrite remove_from_run. cbn [queue_of].
  cbn [Packing.conn]. rewrite Hq. replace (StreamMap.unlink (Stream.priority_key s) [Stream.priority_key s]) with (@nil StreamPriorityKey.t);
    [by apply wp_bind, wp_get, wp_ret|].
  unfold StreamMap.unlink. cbn. by rewrite Z.eqb_refl.
Qed.
End theorems.

(** ** Concrete runs *)
Module Runs.
#[local] Existing Instance ToyOrders.rbtree.
#[local] Existing Instance ToyCoding.coding.

Definition data (off : Z) (bs : list Z) (fin : bool) : conn_op :=
  OpFrame (Frame.Stream 2 (RangeBuf.from bs off fin)).

(** Reading with an empty buffer when only the end of the stream is left: the
    stream is collected, and its key goes back into the queue of readable
    streams. *)
Lemma empty_read_leaves_key :
  match run_small [data 0 [7] false; OpRecv 2 10; data 1 [] true; OpRecv 2 0] with
  | (Ok _, Some c) =>
      StreamMap.streams (Conn.streams c) !! 2 = None ∧
      map StreamPriorityKey.id (StreamMap.readable (Conn.streams c)) = [2]
  | _ => False
  end.
Proof. vm_compute. done. Qed.

(** An empty frame beyond the received data counts against the connection's
    limit every time it comes, and the stream does not record it. *)
Lemma empty_frame_charged_twice :
  match run_small [data 400 [] false; data 400 [] false] with
  | (Ok _, Some c) =>
      Conn.rx_data c = 800 ∧
      option_map (λ s, RecvBuf.len (Stream.recv s)) (StreamMap.streams (Conn.streams c) !! 2) = Some 0
  | _ => False
  end.
Proof. vm_compute. done. Qed.

(** What a reset stream held is never counted as consumed: the limit of the
    connection does not grow by it. *)
Lemma reset_discards_credit :
  match run_small [data 0 (replicate 90 1) false; OpFrame (Frame.ResetStream 2 5 90); OpRecv 2 10] with
  | (Ok _, Some c) =>
      StreamMap.streams (Conn.streams c) = ∅ ∧ Conn.rx_data c = 90 ∧ FlowControl.consumed (Conn.flow_control c) = 0
  | _ => False
  end.
Proof. vm_compute. done. Qed.

(** Transport parameters with a lower limit than what was sent already. *)
Lemma lower_limit_panics :
  match run_small [OpSend 3 (replicate 50 1) false] with
  | (Ok _, Some c) =>
      Conn.tx_data c = 50 ∧
      (Conn.process_peer_transport_params 5000 (TransportParams.with_data 10 small_params) c).1 = Panic
  | _ => False
  end.
Proof. vm_compute. done. Qed.

Lemma small_params_ok : stream_params small_params.
Proof. by vm_compute. Qed.

(** A server that has just started, and after its first [stream_send]. *)
Definition fresh : Conn.t :=
  match Conn.new true small_params 10000 10000 with
  | Ok c => (Conn.process_peer_transport_params 5000 small_params c).2
  | _ => Conn.mk true small_params small_params (StreamMap.new 0 0 0) (FlowControl.new 0 0 0) 0 false 0 0 0 0 None 0 0 0 0
  end.

Lemma fresh_started : started true small_params small_params 10000 10000 5000 fresh.
Proof. eexists. split; [reflexivity|]. reflexivity. Qed.

Definition hello : conn_op := OpSend 3 [104; 105] true.
Definition greeted : Conn.t := (run_op hello fresh).2.

Lemma greeted_run : conn_run fresh [] [] greeted.
Proof.
  refine (run_step fresh [] [] fresh hello (Ok []) [] greeted (run_start fresh) _ _ _).
  - cbn. split; [lia|]. intros s Hs. by vm_compute in Hs.
  - vm_compute. reflexivity.
  - by left.
Qed.

Definition room : Packing.pkt := Packing.mk_pkt (mk_octets (replicate 40 0) 4) [] 30 false false false.
(** What a stream looks like after a gigabyte: one byte at offset 2^30 waits. *)
Definition far_stream : Stream.t :=
  Stream.set_send (SendBuf.mk [RangeBuf.from [5] (2 ^ 30) false] 0 (2 ^ 30 + 1) (2 ^ 30) 1 (2 ^ 40) None None false
    (RangeSet.new 10) None) (Stream.new 67 1000 (2 ^ 40) false true 1000 0).

Lemma far_stream_header : Stream.is_flushable far_stream = true ∧ header_len 67 far_stream = 13.
Proof. done. Qed.
End Runs.

Lemma conn_invariant_witness :
  let c := Runs.greeted in
  Conn.tx_data c + Conn.tx_cap c <= Conn.max_tx_data c ∧ Conn.rx_data c <= Conn.max_rx_data c ∧
  (run_op (OpPacket Runs.room) c).1 ≠ Panic.
Proof.
  pose proof (conn_invariant (H := ToyOrders.rbtree) (H0 := ToyCoding.coding) true small_params small_params 10000 10000 5000
    Runs.fresh [] [] Runs.greeted Runs.small_params_ok Runs.small_params_ok ltac:(lia) Runs.fresh_started Runs.greeted_run)
    as (_ & (_ & Htx & _) & (_ & Hrx) & Hsafe).
  split; [exact Htx|]. split; [exact Hrx|]. apply Hsafe. cbn. split; [|done].
  unfold pkt_ok. vm_compute. split; [discriminate|]. split; [split; [discriminate|reflexivity]|discriminate].
Defined.

Lemma packet_carries_streams_witness :
  let '(r, st) := Packing.stream_frames (H := ToyOrders.rbtree) (H1 := ToyCoding.coding) true (Packing.mk Runs.greeted Runs.room) in
  r = Ok () ∧ ztake 12 (o_buf (Packing.b (Packing.pk st))) = [0; 0; 0; 0; 0x0f; 3; 0; 0x40; 2; 104; 105; 0].
Proof.
  pose proof (packet_carries_streams (H := ToyOrders.rbtree) (H0 := ToyCoding.coding) true small_params small_params 10000 10000 5000
    Runs.fresh [] [] Runs.greeted Runs.room (ToyCoding.decoder 100) Runs.small_params_ok Runs.small_params_ok ltac:(lia)
    Runs.fresh_started Runs.greeted_run) as Hp.
  specialize (Hp ltac:(unfold pkt_ok; vm_compute; repeat split; discriminate)).
  set (x := Packing.stream_frames true _) in *.
  assert (ztake 12 (o_buf (Packing.b (Packing.pk x.2))) = [0; 0; 0; 0; 0x0f; 3; 0; 0x40; 2; 104; 105; 0]) as E by (by vm_compute).
  clearbody x. destruct x as [r st]. by destruct Hp as (_ & -> & _).
Defined.
