(* ===== verification/ConnTouch.v ===== *)
(** * Which streams a call changes

    Footprints of the connection's calls: what each does to the buffers of the
    streams, whatever it does to the queues and sets.  A call that does not
    panic is known from [ConnOps.v]; here a panic is left aside ([pp]), and the
    footprints hold of every connection. *)
From stdpp Require Import gmap.
From S2P Require Import Prelude Orders OctetsLib FlowCtl RangeBufs RecvBufs SendBufs Frames Params Streams ConnStreams ConnInv.

(** ** Partial specifications *)
Section partial.
Context {S E : Type}.

Definition pp {A} (m : M S E A) (Q : A → S → Prop) (QE : E → S → Prop) (s : S) : Prop :=
  match m s with (Ok a, s') => Q a s' | (Err e, s') => QE e s' | (Panic, _) => True end.

Lemma pp_ret {A} (a : A) Q QE s : Q a s → pp (mret a) Q QE s.
Proof. done. Qed.
Lemma pp_fail {A} (e : E) (Q : A → S → Prop) QE s : QE e s → pp (fail e) Q QE s.
Proof. done. Qed.
Lemma pp_get (Q : S → S → Prop) QE s : Q s s → pp get Q QE s.
Proof. done. Qed.
Lemma pp_modify (f : S → S) Q QE s : Q () (f s) → pp (modify f) Q QE s.
Proof. done. Qed.
Lemma pp_put (s' : S) (Q : unit → S → Prop) QE s : Q () s' → pp (put s') Q QE s.
Proof. done. Qed.
Lemma pp_lift {A} (r : result E A) Q QE s : (∀ a, r = Ok a → Q a s) → (∀ e, r = Err e → QE e s) → pp (lift r) Q QE s.
Proof. intros HQ HE. unfold pp, lift. destruct r; auto. Qed.
Lemma pp_reads {A} (f : S → result E A) Q QE s : (∀ a, f s = Ok a → Q a s) → (∀ e, f s = Err e → QE e s) → pp (reads f) Q QE s.
Proof. intros HQ HE. unfold pp, reads. destruct (f s); auto. Qed.
Lemma pp_bind {A B} (m : M S E A) (k : A → M S E B) Q QE s :
  pp m (λ a s', pp (k a) Q QE s') QE s → pp (m ≫= k) Q QE s.
Proof. unfold pp, mbind, M_bind. by destruct (m s) as [[]]. Qed.
Lemma pp_attempt {A} (m : M S E A) Q QE s :
  pp m (λ a s', Q (inl a) s') (λ e s', Q (inr e) s') s → pp (attempt m) Q QE s.
Proof. unfold pp, attempt. by destruct (m s) as [[]]. Qed.
Lemma pp_mono {A} (m : M S E A) (Q Q' : A → S → Prop) (QE QE' : E → S → Prop) s :
  pp m Q QE s → (∀ a s', Q a s' → Q' a s') → (∀ e s', QE e s' → QE' e s') → pp m Q' QE' s.
Proof. unfold pp. destruct (m s) as [[]]; naive_solver. Qed.

(** A partial specification beside a total one. *)
Lemma wp_pp {A} (m : M S E A) (Q Q' : A → S → Prop) (QE QE' : E → S → Prop) s :
  wp m Q QE s → pp m Q' QE' s → wp m (λ a s', Q a s' ∧ Q' a s') (λ e s', QE e s' ∧ QE' e s') s.
Proof. unfold wp, pp. by destruct (m s) as [[]]. Qed.
Lemma pp_run {A} (m : M S E A) Q QE s : (∀ a s', m s = (Ok a, s') → Q a s') → (∀ e s', m s = (Err e, s') → QE e s') → pp m Q QE s.
Proof. intros HQ HE. unfold pp. destruct (m s) as [[]]; auto. Qed.

(** *** Steps within a preorder *)
Definition stays (R : S → S → Prop) {A} (m : M S E A) : Prop := ∀ s, pp m (λ _ s', R s s') (λ _ s', R s s') s.

Context (R : S → S → Prop) `{!PreOrder R}.

Lemma stays_ret {A} (a : A) : stays R (mret a).
Proof. intros s. by apply pp_ret. Qed.
Lemma stays_fail {A} (e : E) : stays R (fail e : M S E A).
Proof. intros s. by apply pp_fail. Qed.
Lemma stays_panic {A} : stays R (panic : M S E A).
Proof. by intros s. Qed.
Lemma stays_get : stays R (get : M S E S).
Proof. intros s. by apply pp_get. Qed.
Lemma stays_gets {A} (f : S → A) : stays R (gets f : M S E A).
Proof. intros s. unfold pp, gets. reflexivity. Qed.
Lemma stays_lift {A} (r : result E A) : stays R (lift r).
Proof. intros s. apply pp_lift; intros; reflexivity. Qed.
Lemma stays_reads {A} (f : S → result E A) : stays R (reads f).
Proof. intros s. apply pp_reads; intros; reflexivity. Qed.
Lemma stays_modify (f : S → S) : (∀ s, R s (f s)) → stays R (modify f : M S E unit).
Proof. intros Hf s. by apply pp_modify. Qed.
Lemma stays_bind {A B} (m : M S E A) (k : A → M S E B) : stays R m → (∀ a, stays R (k a)) → stays R (m ≫= k).
Proof.
  intros Hm Hk s. apply pp_bind. eapply pp_mono; [apply Hm|..]; [|done]. cbv beta. intros a s1 H1.
  eapply pp_mono; [apply Hk|..]; cbv beta; intros; by etrans.
Qed.
Lemma stays_attempt {A} (m : M S E A) : stays R m → stays R (attempt m).
Proof. intros Hm s. by apply pp_attempt. Qed.
Lemma stays_when (b : bool) (m : M S E unit) : (b = true → stays R m) → stays R (when b m).
Proof. intros Hm. destruct b; [by apply Hm|apply stays_ret]. Qed.
Lemma stays_from {A} (m : M S E A) s0 s : stays R m → R s0 s → pp m (λ _ s', R s0 s') (λ _ s', R s0 s') s.
Proof. intros Hm H0. eapply pp_mono; [apply Hm|..]; cbv beta; intros; by etrans. Qed.

Lemma pp_stays {A B} (m : M S E A) (k : A → M S E B) Q QE s0 s : R s0 s → stays R m → (∀ e s', R s0 s' → QE e s') →
  (∀ a s', R s0 s' → pp (k a) Q QE s') → pp (m ≫= k) Q QE s.
Proof. intros H0 Hm HE Hk. apply pp_bind. eapply pp_mono; [by apply (stays_from m s0)|..]; cbv beta; auto. Qed.

(** The same, with what is known of the value that is returned. *)
Definition yields {A} (P : A → Prop) (m : M S E A) : Prop := ∀ s, pp m (λ r s', P r ∧ R s s') (λ _ s', R s s') s.
Lemma yields_ret {A} (P : A → Prop) a : P a → yields P (mret a).
Proof. intros Ha s. by apply pp_ret. Qed.
Lemma yields_fail {A} (P : A → Prop) e : yields P (fail e).
Proof. intros s. by apply pp_fail. Qed.
Lemma yields_then {A B} (P : B → Prop) (m : M S E A) (k : A → M S E B) : stays R m → (∀ a, yields P (k a)) → yields P (m ≫= k).
Proof.
  intros Hm Hk s. apply pp_bind. eapply pp_mono; [apply Hm|..]; [|done]. cbv beta. intros a s1 H1.
  eapply pp_mono; [apply Hk|..]; cbv beta; [|intros; by etrans]. intros r s' [? ?]. split; [done|by etrans].
Qed.
End partial.

Lemma stays_mono {S E A} (R R' : S → S → Prop) (m : M S E A) : (∀ s s', R s s' → R' s s') → stays R m → stays R' m.
Proof. intros HR Hm s. eapply pp_mono; [apply Hm|..]; auto. Qed.

Lemma pp_zoom {S T E A} (g : S → T) (u : T → S → S) (m : M T E A) Q QE s :
  pp m (λ a t, Q a (u t s)) (λ e t, QE e (u t s)) (g s) → pp (zoom g u m) Q QE s.
Proof. unfold pp, zoom. by destruct (m (g s)) as [[]]. Qed.
Lemma stays_zoom {S T E A} (R : S → S → Prop) (R' : T → T → Prop) (g : S → T) (u : T → S → S) (m : M T E A) :
  (∀ s t, R' (g s) t → R s (u t s)) → stays R' m → stays R (zoom g u m).
Proof. intros HR Hm s. apply pp_zoom. eapply pp_mono; [apply Hm|..]; auto. Qed.

(** Fails only where [P]. *)
Section errs.
Context {S E : Type} (P : Prop).
Definition errs {A} (m : M S E A) : Prop := ∀ s, pp m (λ _ _, True) (λ _ _, P) s.
Lemma errs_ret {A} (a : A) : errs (mret a).
Proof. by intros s. Qed.
Lemma errs_fail {A} e : P → errs (fail e : M S E A).
Proof. by intros ? s. Qed.
Lemma errs_get : errs (get : M S E S).
Proof. by intros s. Qed.
Lemma errs_put s : errs (put s : M S E unit).
Proof. by intros s0. Qed.
Lemma errs_modify f : errs (modify f : M S E unit).
Proof. by intros s. Qed.
Lemma errs_lift {A} (r : result E A) : (∀ e, r ≠ Err e) → errs (lift r).
Proof. intros Hr s. apply pp_lift; [done|]. intros e He. by destruct (Hr e). Qed.
Lemma errs_reads {A} (f : S → result E A) : (∀ s e, f s ≠ Err e) → errs (reads f).
Proof. intros Hf s. apply pp_reads; [done|]. intros e He. by destruct (Hf s e). Qed.
Lemma errs_bind {A B} (m : M S E A) (k : A → M S E B) : errs m → (∀ a, errs (k a)) → errs (m ≫= k).
Proof. intros Hm Hk s. apply pp_bind. eapply pp_mono; [apply Hm|..]; cbv beta; [|done]. intros a s' _. apply Hk. Qed.
Lemma errs_when (b : bool) (m : M S E unit) : errs m → errs (when b m).
Proof. by destruct b. Qed.
Lemma pp_errs {A} (m : M S E A) Q QE s : pp m Q QE s → errs m → pp m Q (λ e s', QE e s' ∧ P) s.
Proof. intros Hm He. specialize (He s). unfold pp in *. by destruct (m s) as [[]]. Qed.
End errs.
Lemma errs_zoom {S T E A} P (g : S → T) (u : T → S → S) (m : M T E A) : errs P m → errs P (zoom g u m).
Proof. intros Hm s. apply pp_zoom, Hm. Qed.
Lemma uadd_errs {E} a b (e : E) : uadd a b ≠ Err e.
Proof. unfold uadd. by case_match. Qed.
Lemma usub_errs {E} a b (e : E) : usub a b ≠ Err e.
Proof. unfold usub. by case_match. Qed.

(** [stays] along binds, branches and matches; what is left are the method
    calls. *)
Ltac stays := repeat first
  [progress intros|apply _|apply stays_ret|apply stays_fail|apply stays_panic|apply stays_get|apply stays_gets|apply stays_lift|apply stays_reads
  |apply stays_bind|apply stays_when|apply stays_attempt|case_match].

(** ** The buffers of a stream *)

(** Where a stream is blocked does not matter. *)
Definition buffers (s : Stream.t) : RecvBuf.t * SendBuf.t := (Stream.recv s, SendBuf.set_blocked_at None (Stream.send s)).
Definition stream_at (i : Z) (c : Conn.t) : option (RecvBuf.t * SendBuf.t) := buffers <$> StreamMap.streams (Conn.streams c) !! i.
Definition collected_at (i : Z) (c : Conn.t) : Prop := i ∈ StreamMap.collected (Conn.streams c).
Definition same_at (j : Z) (c c' : Conn.t) : Prop := stream_at j c' = stream_at j c ∧ (collected_at j c' ↔ collected_at j c).

(** What none of the application's calls changes, and what the peer lets us send. *)
Definition fixed (c c' : Conn.t) : Prop :=
  Conn.is_server c' = Conn.is_server c ∧ ∀ l b, limit l b (Conn.streams c') = limit l b (Conn.streams c).
Definition credit (c : Conn.t) : Z * Z * Z := (Conn.max_tx_data c, Conn.tx_data c, Conn.tx_cap c).

(** No buffer changes; those of [i] may; [i] may be dropped. *)
Definition still (c c' : Conn.t) : Prop := fixed c c' ∧ credit c' = credit c ∧ ∀ j, same_at j c c'.
Definition only (i : Z) (c c' : Conn.t) : Prop := fixed c c' ∧ ∀ j, j ≠ i → same_at j c c'.
Definition ended (i : Z) (c c' : Conn.t) : Prop :=
  only i c c' ∧ credit c' = credit c ∧ (same_at i c c' ∨ stream_at i c' = None ∧ collected_at i c').

#[export] Instance same_at_preorder j : PreOrder (same_at j).
Proof. split; [by split|]. intros c1 c2 c3 [? ?] [? ?]. split; [congruence|tauto]. Qed.
#[export] Instance fixed_preorder : PreOrder fixed.
Proof.
  split; [by split|]. intros c1 c2 c3 [? Hl1] [? Hl2]. split; [congruence|]. intros l b. by rewrite Hl2.
Qed.
#[export] Instance still_preorder : PreOrder still.
Proof.
  split; [by intros c|]. intros c1 c2 c3 (? & ? & Hj1) (? & ? & Hj2). split_and!; [by etrans|congruence|]. intros j. etrans; [apply Hj1|apply Hj2].
Qed.
#[export] Instance only_preorder i : PreOrder (only i).
Proof.
  split; [by intros c|]. intros c1 c2 c3 [Hf1 Hj1] [Hf2 Hj2]. split; [by etrans|]. intros j Hj. etrans; [by apply Hj1|by apply Hj2].
Qed.
#[export] Instance ended_preorder i : PreOrder (ended i).
Proof.
  split; [intros c; split_and!; [done|done|by left]|]. intros c1 c2 c3 (? & ? & Hi1) (? & ? & Hi2). split_and!; [by etrans|congruence|].
  destruct Hi2 as [Hi2|Hi2]; [|by right]. destruct Hi1 as [Hi1|[Hi1 Hc]]; [left; by etrans|]. right. destruct Hi2 as [-> Hi2]. by rewrite Hi2.
Qed.
Lemma still_only i c c' : still c c' → only i c c'.
Proof. intros (? & _ & H). split; [done|]. intros j _. apply H. Qed.
Lemma still_ended i c c' : still c c' → ended i c c'.
Proof. intros Hs. pose proof Hs as (? & ? & H). split_and!; [by apply still_only|done|left; apply H]. Qed.

Section touch.
Context `{RBTree} `{NetCoding}.
Implicit Types (c : Conn.t) (s : Stream.t) (m : StreamMap.t).

(** *** Queues and sets *)

(** The streams are not touched. *)
Definition calm m m' : Prop := StreamMap.streams m' = StreamMap.streams m ∧ StreamMap.collected m' = StreamMap.collected m ∧
  ∀ l b, limit l b m' = limit l b m.
#[local] Instance calm_preorder : PreOrder calm.
Proof.
  split; [by split|]. intros m1 m2 m3 (? & ? & Hl1) (? & ? & Hl2). split_and!; [congruence..|]. intros l b. by rewrite Hl2.
Qed.

Lemma calm_still c m' : calm (Conn.streams c) m' → still c (Conn.set_streams m' c).
Proof.
  intros (Es & Ec & El). split_and!; [by split|done|]. intros j. unfold same_at, stream_at, collected_at. cbn. by rewrite Es, Ec.
Qed.
Lemma stays_calm {A} (x : M StreamMap.t Error A) : stays calm x → stays still (Conn.on_streams x).
Proof. apply stays_zoom. intros c m'. apply calm_still. Qed.

Ltac calm := repeat first [progress (unfold StreamMap.insert_readable, StreamMap.insert_writable, StreamMap.insert_flushable, StreamMap.update_priority,
    StreamMap.remove_readable, StreamMap.remove_writable, StreamMap.remove_flushable)|progress stays|apply stays_modify; intros ?; repeat case_match; split_and!; done].

Lemma calm_insert Q k : stays calm (insert_in Q k).
Proof. destruct Q; cbn [insert_in]; calm. Qed.
Lemma calm_remove Q k : stays calm (modify (remove_from Q k) : M StreamMap.t Error unit).
Proof. destruct Q; cbn [remove_from]; calm. Qed.
Lemma calm_update k k' : stays calm (StreamMap.update_priority k k').
Proof. calm. Qed.
Lemma calm_beside f : beside_queues f → stays calm (modify f : M StreamMap.t Error unit).
Proof. intros Hf. apply stays_modify. intros m. destruct (Hf m) as [[? ? _ Hl _ _] _]. by split_and!. Qed.

(** The methods on a stream of the map. *)
Lemma pp_on_stream {A} i (x : M Stream.t Error A) Q QE c :
  (∀ s, StreamMap.streams (Conn.streams c) !! i = Some s →
    pp x (λ a s', Q a (put_stream i s' c)) (λ e s', QE e (put_stream i s' c)) s) → pp (Conn.on_stream i x) Q QE c.
Proof.
  intros Hx. unfold pp, Conn.on_stream, StreamMap.get in *. destruct (StreamMap.streams (Conn.streams c) !! i) as [s|] eqn:Hs; [|done].
  specialize (Hx s eq_refl). destruct (x s) as [[a|e|] s']; by rewrite ?(update_put i s).
Qed.
Lemma pp_stream_get i (Q : Stream.t → Conn.t → Prop) QE c :
  (∀ s, StreamMap.streams (Conn.streams c) !! i = Some s → Q s c) → pp (Conn.on_stream i get) Q QE c.
Proof. intros HQ. apply pp_on_stream. intros s Hs. apply pp_get. rewrite put_same by done. auto. Qed.

Lemma put_at i s c : stream_at i (put_stream i s c) = Some (buffers s).
Proof. unfold stream_at. cbn. by rewrite lookup_insert_eq. Qed.
Lemma put_only i s c : only i c (put_stream i s c).
Proof.
  split; [by split|]. intros j Hj. split; [|done]. unfold stream_at. cbn. by rewrite lookup_insert_ne.
Qed.
Lemma put_still i s s' c : StreamMap.streams (Conn.streams c) !! i = Some s → buffers s' = buffers s → still c (put_stream i s' c).
Proof.
  intros Hs Hb. split_and!; [by split|done|]. intros j. split; [|done]. unfold stream_at. cbn. destruct (decide (j = i)) as [-> |Hj].
  - rewrite lookup_insert_eq, Hs. change (Some (buffers s') = Some (buffers s)). by rewrite Hb.
  - by rewrite lookup_insert_ne.
Qed.

Lemma stays_on_stream {A} i (x : M Stream.t Error A) : stays (λ s s', buffers s' = buffers s) x → stays still (Conn.on_stream i x).
Proof.
  intros Hx c. apply pp_on_stream. intros s Hs. eapply pp_mono; [apply Hx|..]; cbv beta; intros; by eapply put_still.
Qed.
Lemma stays_stream_get i : stays still (Conn.on_stream i get).
Proof. by apply stays_on_stream. Qed.
Lemma stays_update_blocked i b : stays still (Conn.on_send i (SendBuf.update_blocked_at b)).
Proof. apply stays_on_stream. by intros s. Qed.

Lemma stays_put_still f : (∀ c, Conn.is_server (f c) = Conn.is_server c ∧ Conn.streams (f c) = Conn.streams c ∧ credit (f c) = credit c) →
  stays still (modify f : M Conn.t Error unit).
Proof.
  intros Hf. apply stays_modify. intros c. destruct (Hf c) as (? & E & ?). split_and!; [|done|].
  - split; [done|]. intros. by rewrite E.
  - intros j. unfold same_at, stream_at, collected_at. by rewrite E.
Qed.

Lemma stays_mark_blocked i : stays still (Conn.mark_blocked i).
Proof.
  unfold Conn.mark_blocked. stays; [apply stays_stream_get|apply stays_update_blocked|].
  apply stays_calm, calm_beside. intros m. by split; [constructor|intros []].
Qed.

Lemma stays_on_flow {A} (x : M FlowControl.t Error A) : stays still (Conn.on_flow x).
Proof. apply (stays_zoom _ (λ _ _, True)); [|by intros f; apply pp_run]. intros c f _. by split_and!. Qed.

Lemma stays_insert Q k : stays still (Conn.on_streams (insert_in Q k)).
Proof. apply stays_calm, calm_insert. Qed.
Lemma stays_remove Q k : stays still (Conn.on_streams (modify (remove_from Q k))).
Proof. apply stays_calm, calm_remove. Qed.
Lemma stays_beside f : beside_queues f → stays still (Conn.on_streams (modify f)).
Proof. intros Hf. by apply stays_calm, calm_beside. Qed.

(** *** Dropping and opening a stream *)

Definition dropped i m m' : Prop := (∀ j, j ≠ i → StreamMap.streams m' !! j = StreamMap.streams m !! j) ∧ StreamMap.streams m' !! i = None ∧
  StreamMap.collected m' = {[i]} ∪ StreamMap.collected m ∧ ∀ l b, limit l b m' = limit l b m.

Lemma pp_collect i l m : pp (StreamMap.collect i l) (λ _ m', dropped i m m') (λ _ _, False) m.
Proof.
  unfold StreamMap.collect. apply pp_bind, pp_modify, pp_bind, pp_get.
  assert (StreamMap.streams (StreamMap.give_credit i l m) = StreamMap.streams m ∧ StreamMap.collected (StreamMap.give_credit i l m) = StreamMap.collected m ∧
    ∀ l' b, limit l' b (StreamMap.give_credit i l m) = limit l' b m) as (Es & Ec & El) by (by destruct l; cbn [StreamMap.give_credit negb]; [|destruct (is_bidi i)]).
  set (m1 := StreamMap.give_credit i l m) in *. clearbody m1. destruct (StreamMap.streams m1 !! i) as [s|]; [|done].
  apply pp_bind, pp_put, pp_bind, pp_modify, pp_bind, pp_modify, pp_bind, pp_modify, pp_modify. set (k := Stream.priority_key s).
  change (StreamMap.remove_readable k) with (remove_from Readable k). change (StreamMap.remove_writable k) with (remove_from Writable k).
  change (StreamMap.remove_flushable k) with (remove_from Flushable k). rewrite !remove_from_run. unfold dropped. cbn.
  rewrite Es, Ec. split_and!; [intros j Hj; by rewrite lookup_delete_ne|apply lookup_delete_eq|done|done].
Qed.

Lemma stays_collect i l : stays (ended i) (Conn.on_streams (StreamMap.collect i l)).
Proof.
  intros c. apply pp_zoom. eapply pp_mono; [apply pp_collect|..]; [|done]. cbv beta. intros _ m' (Hs & Hi & Hc & Hl).
  split_and!; [|done|right].
  - split; [by split|]. intros j Hj. unfold same_at, stream_at, collected_at. cbn. rewrite Hs, Hc by done. set_solver.
  - unfold stream_at, collected_at. cbn. rewrite Hi, Hc. set_solver.
Qed.

(** The stream was there, or is new. *)
Definition newly i (c c' : Conn.t) : Prop := stream_at i c = None ∧ ¬ collected_at i c ∧ ¬ collected_at i c' ∧
  ∃ rx tx w, stream_at i c' = Some (RecvBuf.new rx w, SendBuf.new tx).
Definition opens i (c c' : Conn.t) : Prop := only i c c' ∧ credit c' = credit c ∧ (same_at i c c' ∨ newly i c c').

Lemma opens_still i c c1 c2 : still c c1 → opens i c1 c2 → opens i c c2.
Proof.
  intros Hs (Ho & Hc & Hi). pose proof Hs as (_ & Hc' & Hj). destruct (Hj i) as [E Ec].
  split_and!; [etrans; [by apply still_only|done]|congruence|]. destruct Hi as [Hi|(H1 & H2 & H3 & H4)]; [left; etrans; [apply Hj|done]|right].
  split_and!; [congruence|tauto|done|done].
Qed.
Lemma still_opens i c c' : still c c' → opens i c c'.
Proof. intros Hs. split_and!; [by apply still_only|apply Hs|left; apply Hs]. Qed.
Lemma opens_then i c c1 c2 : opens i c c1 → still c1 c2 → opens i c c2.
Proof.
  intros (Ho & Hc & Hi) Hs. pose proof Hs as (_ & Hc' & Hj). destruct (Hj i) as [E Ec].
  split_and!; [etrans; [done|by apply still_only]|congruence|]. destruct Hi as [Hi|(H1 & H2 & H3 & H4)]; [left; etrans; [done|apply Hj]|right].
  split_and!; [done|done|tauto|by rewrite E].
Qed.

Lemma pp_open i local c : pp (Conn.get_or_create_stream i local)
  (λ s c', opens i c c' ∧ StreamMap.streams (Conn.streams c') !! i = Some s) (λ _ c', c' = c) c.
Proof.
  assert (∀ c0, Conn.set_streams (Conn.streams c0) c0 = c0) as Heta by by intros [].
  unfold Conn.get_or_create_stream. apply pp_bind, pp_get, pp_zoom. unfold StreamMap.get_or_create. apply pp_bind, pp_get.
  destruct (StreamMap.streams (Conn.streams c) !! i) as [s|] eqn:Hs.
  { apply pp_ret. rewrite Heta. split; [|done]. apply still_opens. reflexivity. }
  case_bool_decide as Hc; [apply pp_fail, Heta|]. destruct (negb _); [apply pp_fail, Heta|].
  destruct (StreamMap.initial_limits _ _ _ _) as [rx tx]. apply pp_bind.
  assert (pp (StreamMap.count_stream i (is_local i (Conn.is_server c)) (is_bidi i)) (λ _ m', calm (Conn.streams c) m') (λ _ m', m' = Conn.streams c) (Conn.streams c)) as Hcount.
  { unfold StreamMap.count_stream. apply pp_bind, pp_get, pp_bind, pp_lift; [|unfold uadd; intros e He; by case_match]. intros next _.
    destruct (is_local _ _), (is_bidi i); cbv zeta; (destruct (_ <? _); [by apply pp_fail|apply pp_put]);
      (split_and!; [done|done|by intros [] []]). }
  eapply pp_mono; [exact Hcount|..]; cbv beta; [|intros e m' ->; apply Heta]. intros _ m1 (Es & Ec & El).
  apply pp_bind, pp_get. cbv zeta. set (s := Stream.new _ _ _ _ _ _ _). apply pp_bind, pp_lift.
  2: { intros e He. unfold Stream.is_writable, uadd in He. destruct (_ && _); [|done]. unfold mbind, result_bind in He. by case_match. }
  intros w _. apply pp_bind, pp_put, pp_bind. set (m2 := StreamMap.set_next_addr _ _).
  assert (∀ m3, calm m2 m3 → opens i c (Conn.set_streams m3 c) ∧ StreamMap.streams (Conn.streams (Conn.set_streams m3 c)) !! i = Some s) as Hdone.
  { intros m3 (Es3 & Ec3 & El3). cbn in Es3, Ec3. split; [|cbn; by rewrite Es3, lookup_insert_eq]. split_and!; [|done|right].
    - split; [split; [done|]; intros l b; cbn; rewrite El3; apply El|]. intros j Hj. unfold same_at, stream_at, collected_at. cbn.
      by rewrite Es3, Ec3, Ec, Es, lookup_insert_ne.
    - unfold newly, stream_at, collected_at. cbn. rewrite Es3, Ec3, Ec, Hs, lookup_insert_eq. split_and!; [done..|]. by exists rx, tx, (StreamMap.max_stream_window m1). }
  destruct w; [|by apply pp_ret, pp_ret, Hdone]. apply pp_bind, pp_get, pp_bind, pp_lift.
  2: { intros e He. unfold StreamMap.link in He. by case_match. }
  intros q _. apply pp_modify, pp_ret. by apply Hdone.
Qed.

(** ** The application's calls *)

(** [emit] ran on the buffer of [i], with the result [r]. *)
Definition read_from i cap c c' (r : result Error (list Z * bool)) : Prop := ∃ s rb,
  StreamMap.streams (Conn.streams c) !! i = Some s ∧ Stream.is_readable s = true ∧ RecvBuf.emit cap (Stream.recv s) = (r, rb) ∧
  ended i (put_stream i (Stream.set_recv rb s) c) c'.

Lemma stays_ended {A} i (x : M Conn.t Error A) : stays still x → stays (ended i) x.
Proof. apply stays_mono. intros c c'. apply still_ended. Qed.

Ltac beside_still := apply stays_beside; intros m; by split; [constructor|intros []].
(** The steps of a call that leave every buffer. *)
Ltac quiet_step := first [apply stays_stream_get|apply stays_on_flow|apply stays_mark_blocked|apply stays_update_blocked
  |apply (stays_insert Readable)|apply (stays_insert Writable)|apply (stays_insert Flushable)
  |apply (stays_remove Readable)|apply (stays_remove Writable)|apply (stays_remove Flushable)
  |apply stays_put_still; by intros|beside_still].

Ltac tail_of i := repeat (apply (yields_then (ended i)); [|intros ?]); try apply (yields_fail (ended i)); try (by apply (yields_ret (ended i)));
  first [apply (stays_when (ended i)); intros _; apply stays_collect|apply stays_ended; stays; quiet_step].

(** *** Steps that do not fail *)
Lemma errs_on_streams {A} P (m : M StreamMap.t Error A) : errs P m → errs P (Conn.on_streams m).
Proof. apply errs_zoom. Qed.
Lemma errs_on_stream {A} P i (x : M Stream.t Error A) : errs P x → errs P (Conn.on_stream i x).
Proof. intros Hx c. apply pp_on_stream. intros s _. apply Hx. Qed.
Lemma errs_on_send {A} P i (x : M SendBuf.t Error A) : errs P x → errs P (Conn.on_send i x).
Proof. intros Hx. by apply errs_on_stream, errs_zoom. Qed.
Lemma errs_insert P Q k : errs P (insert_in Q k).
Proof.
  destruct Q; cbn [insert_in]; unfold StreamMap.insert_readable, StreamMap.insert_writable, StreamMap.insert_flushable;
    (apply errs_bind; [apply errs_get|intros m]; destruct (negb _); [|apply errs_ret]; apply errs_bind; [|intros; apply errs_modify];
     apply errs_lift; intros e; unfold StreamMap.link; by case_match).
Qed.
Lemma errs_collect P i l : errs P (StreamMap.collect i l).
Proof. intros m. by eapply pp_mono; [apply pp_collect|..]. Qed.
Lemma errs_add_consumed P n : errs P (Conn.on_flow (FlowControl.add_consumed (E := Error) n)).
Proof.
  apply errs_zoom. unfold FlowControl.add_consumed. apply errs_bind; [apply errs_get|intros f]. apply errs_bind; [apply errs_lift, uadd_errs|intros; apply errs_put].
Qed.
Lemma is_writable_errs s e : Stream.is_writable s ≠ Err e.
Proof. unfold Stream.is_writable. case_match; [|done]. unfold mbind, result_bind. case_match eqn:E; [done| |done]. by destruct (uadd_errs _ _ _ E). Qed.
Lemma flow_update_errs f (e : Error) : FlowControl.should_update_max_data f ≠ Err e.
Proof. unfold FlowControl.should_update_max_data, mbind, result_bind. case_match eqn:E; [done| |done]. by destruct (usub_errs _ _ _ E). Qed.
Lemma almost_full_errs rb e : RecvBuf.almost_full rb ≠ Err e.
Proof. unfold RecvBuf.almost_full. case_match; [done|apply flow_update_errs]. Qed.
Lemma should_update_errs c e : Conn.should_update_max_data c ≠ Err e.
Proof. apply flow_update_errs. Qed.
Lemma errs_mark_blocked P i : errs P (Conn.mark_blocked i).
Proof.
  unfold Conn.mark_blocked. apply errs_bind; [apply errs_on_stream, errs_get|intros s]. apply errs_when, errs_bind; [apply errs_on_send, errs_modify|intros].
  apply errs_on_streams, errs_modify.
Qed.
Ltac errs := repeat first [progress intros|apply errs_ret|apply errs_get|apply errs_put|apply errs_mark_blocked|apply errs_add_consumed
  |apply errs_on_streams, errs_modify|apply errs_on_streams, errs_collect|apply errs_on_streams, (errs_insert _ Readable)|apply errs_on_streams, (errs_insert _ Writable)
  |apply errs_on_streams, (errs_insert _ Flushable)|apply errs_on_stream, errs_get|apply errs_on_send, errs_modify|apply errs_modify
  |apply errs_lift; first [apply uadd_errs|apply usub_errs|apply is_writable_errs|apply almost_full_errs]|apply errs_reads, should_update_errs
  |apply errs_bind|apply errs_when|case_match].

Lemma touch_stream_recv i cap c : pp (Conn.stream_recv i cap)
  (λ r c', read_from i cap c c' (Ok r)) (λ e c', still c c' ∨ ∃ e', read_from i cap c c' (Err e')) c.
Proof.
  unfold Conn.stream_recv. apply pp_bind, pp_get. destruct (Conn.is_uni_local i c); [apply pp_fail; left; reflexivity|].
  unfold StreamMap.get. destruct (StreamMap.streams (Conn.streams c) !! i) as [s|] eqn:Hs; [|apply pp_fail; left; reflexivity].
  destruct (Stream.is_readable s) eqn:Hready; cbn [negb]; [|apply pp_fail; left; reflexivity]. cbv zeta. apply pp_bind, pp_attempt, pp_on_stream. intros s0 Hs0.
  assert (s0 = s) as -> by congruence. apply pp_zoom, pp_run; intros r rb Hr; set (c1 := put_stream i (Stream.set_recv rb s) c).
  - destruct r as [out fin]. match goal with |- pp ?m _ _ _ => assert (yields (ended i) (λ r, r = (out, fin)) m) as Hy by tail_of i end.
    eapply pp_mono; [apply (pp_errs False); [apply Hy|errs]|..]; cbv beta; [intros r c' [-> He]; by exists s, rb|by intros e c' [_ []]].
  - match goal with |- pp ?m _ _ _ => assert (yields (ended i) (λ _, False) m) as Hy by tail_of i end.
    eapply pp_mono; [apply Hy|..]; cbv beta; [by intros ? ? []|intros e c' He; right; by exists r, s, rb].
Qed.

(** [write] ran on the buffer of [i] as it was in [c1], with the result [r]. *)
Definition clip c (buf : list Z) (fin : bool) : list Z * bool :=
  if Conn.tx_cap c <? zlen buf then (ztake (Conn.tx_cap c) buf, false) else (buf, fin).
Definition wrote_to i buf fin c c' (r : result Error Z) : Prop := ∃ c1 s sb, opens i c c1 ∧ StreamMap.streams (Conn.streams c1) !! i = Some s ∧
  SendBuf.write (clip c buf fin).1 (clip c buf fin).2 (Stream.send s) = (r, sb) ∧ r ≠ Panic ∧ only i c1 c' ∧
  stream_at i c' = Some (Stream.recv s, SendBuf.set_blocked_at None sb) ∧ (collected_at i c' ↔ collected_at i c1).

(** As [still], but for the credit. *)
Definition alike (c c' : Conn.t) : Prop := fixed c c' ∧ ∀ j, same_at j c c'.
Lemma still_alike c c' : still c c' → alike c c'.
Proof. by intros (? & _ & ?). Qed.

Lemma wrote_put i buf fin c c1 s sb r c' : opens i c c1 → StreamMap.streams (Conn.streams c1) !! i = Some s →
  SendBuf.write (clip c buf fin).1 (clip c buf fin).2 (Stream.send s) = (r, sb) → r ≠ Panic → alike (put_stream i (Stream.set_send sb s) c1) c' →
  wrote_to i buf fin c c' r.
Proof.
  intros Ho Hs Hr Hp [Hf Hj]. exists c1, s, sb. destruct (Hj i) as [E Ec].
  split_and!; [done|done|done|done|etrans; [apply put_only|by split; [|intros j _; apply Hj]]|by rewrite E, put_at|done].
Qed.

Lemma touch_stream_send i buf fin c : pp (Conn.stream_send i buf fin)
  (λ n c', Conn.is_uni_remote i c = false ∧ wrote_to i buf fin c c' (Ok n) ∧ (n ≠ 0 ∨ (clip c buf fin).1 = []) ∧
    credit c' = (Conn.max_tx_data c, Conn.tx_data c + n, Conn.tx_cap c - n))
  (λ _ c', opens i c c' ∨ ∃ r, wrote_to i buf fin c c' r ∧ ∀ n, r = Ok n → n = 0) c.
Proof.
  assert (∀ c', still c c' → opens i c c') as Hopen by apply still_opens.
  unfold Conn.stream_send. apply pp_bind, pp_get. destruct (Conn.is_uni_remote i c) eqn:Huni; [apply pp_fail; left; apply Hopen; reflexivity|].
  apply pp_bind, pp_lift; [intros room _|unfold usub; intros e He; by case_match].
  apply (pp_stays still _ _ _ _ c); [reflexivity|apply (stays_when still); intros _; by apply stays_put_still|intros; left; auto|]. intros _ c1 H1.
  apply pp_bind. eapply pp_mono; [apply pp_open|..]; cbv beta; [|intros e c' ->; left; auto].
  intros s c2 [Ho Hs]. apply (opens_still _ c) in Ho; [|done].
  assert (∀ c', still c2 c' → opens i c c') as Hopen2 by (intros c'; by apply opens_then).
  apply pp_bind, pp_lift; [intros ww _|intros; left; apply Hopen2; reflexivity]. cbv zeta.
  destruct ((Conn.tx_cap c =? 0) && negb (zlen buf =? 0)).
  { apply (pp_stays still _ _ _ _ c2); [reflexivity|stays; apply (stays_insert Writable)|intros; left; auto|]. intros _ c3 H3. apply pp_fail. left; auto. }
  set (w := if Conn.tx_cap c <? zlen buf then _ else _). assert (w = (clip c buf fin, Conn.tx_cap c <? zlen buf)) as -> by (unfold w, clip; by destruct (_ <? _)).
  destruct (clip c buf fin) as [buf1 fin1] eqn:Eclip. apply pp_bind, pp_attempt, pp_on_stream. intros s' Hs'. assert (s' = s) as -> by congruence.
  assert (SendBuf.write buf1 fin1 (Stream.send s) = SendBuf.write (clip c buf fin).1 (clip c buf fin).2 (Stream.send s)) as Ew by by rewrite Eclip.
  apply pp_zoom, pp_run; intros r sb Hr; rewrite Ew in Hr; set (c3 := put_stream i (Stream.set_send sb s) c2);
    pose proof (λ c', wrote_put i buf fin c c2 s sb _ c' Ho Hs Hr ltac:(done)) as Hput;
    pose proof (λ c' H', Hput c' (still_alike _ c' H')) as Hstill.
  2: { apply (pp_stays still _ _ _ _ c3); [reflexivity|apply (stays_remove Writable)|intros e c' H4|intros _ c4 H4; apply pp_fail]; right; exists (Err r); (split; [auto|done]). }
  match goal with |- pp ?m ?Q _ _ => assert (errs (r = 0) m) as Herr; [|enough (pp m Q (λ _ c', wrote_to i buf fin c c' (Ok r)) c3) as Hgo] end.
  { errs. apply errs_fail. by match goal with E : (r =? 0) && _ = true |- _ => apply andb_true_iff in E as [?%Z.eqb_eq _] end. }
  { eapply pp_mono; [apply (pp_errs (r = 0)); [exact Hgo|exact Herr]|done|]. intros e c' [Hw Hz]. right. exists (Ok r). split; [done|]. by intros n [= <-]. }
  clear Herr.
  apply (pp_stays still _ _ _ _ c3); [reflexivity|apply stays_stream_get|auto|]. intros s1 c4 H4. cbv zeta.
  apply (pp_stays still _ _ _ _ c3); [done|apply (stays_lift still)|auto|]. intros w1 c5 H5.
  apply (pp_stays still _ _ _ _ c3); [done|stays; quiet_step|auto|]. intros _ c6 H6.
  apply (pp_stays still _ _ _ _ c3); [done|stays; quiet_step|auto|]. intros _ c7 H7.
  apply (pp_stays still _ _ _ _ c3); [done|stays; quiet_step|auto|]. intros _ c8 H8.
  apply pp_bind, pp_get. apply pp_bind, pp_lift; [intros cap' Hcap|auto]. apply pp_bind, pp_lift; [intros data Hdata|auto].
  apply pp_bind, pp_lift; [intros buffered Hbuf|auto]. apply pp_bind, pp_put. set (c9 := Conn.set_tx_buffered _ _).
  assert (∀ c', still c9 c' → alike c3 c') as Hlater.
  { intros c' (Hf & _ & Hj). destruct H8 as (Hf8 & _ & Hj8). split; [etrans; [exact Hf8|exact Hf]|]. intros j. etrans; [apply Hj8|apply Hj]. }
  assert (credit c9 = (Conn.max_tx_data c, Conn.tx_data c + r, Conn.tx_cap c - r)) as Hcredit.
  { destruct H8 as (_ & E8 & _). destruct Ho as (_ & E2 & _). assert (credit c8 = credit c) as E by (by rewrite E8, <- E2).
    unfold credit in E. injection E as E1 E2' E3. unfold usub, uadd in *. repeat (case_match; [|discriminate]). unfold credit, c9. cbn. congruence. }
  destruct ((r =? 0) && negb (zlen buf1 =? 0)) eqn:Ezero; [apply pp_fail, Hput, Hlater; reflexivity|].
  apply (pp_stays still _ _ _ _ c9); [reflexivity|stays; quiet_step|intros e c' H'; by apply Hput, Hlater|].
  intros _ c10 H10. apply pp_ret. split_and!; [done|by apply Hput, Hlater| |destruct H10 as (_ & -> & _); exact Hcredit].
  apply andb_false_iff in Ezero as [?%Z.eqb_neq|E%negb_false_iff%Z.eqb_eq]; [by left|right]. cbn. destruct buf1; [done|]. rewrite zlen_cons in E. pose proof (zlen_nonneg buf1). lia.
Qed.

Lemma touch_stream_priority i urgency incremental c :
  pp (Conn.stream_priority i urgency incremental) (λ _ c', opens i c c') (λ _ c', opens i c c') c.
Proof.
  assert (opens i c c) as Hc by (apply still_opens; reflexivity).
  unfold Conn.stream_priority. apply pp_bind, pp_attempt. eapply pp_mono; [apply pp_open|..]; cbv beta.
  2: { intros e c' ->. destruct e; by first [apply pp_ret|apply pp_fail]. }
  intros s c1 [Ho Hs]. destruct (_ && _); [by apply pp_ret|].
  match goal with |- pp ?m _ _ _ => assert (stays still m) as Hm end.
  { unfold Conn.replace_key. stays; first [apply stays_calm, calm_update|apply stays_stream_get|apply stays_calm, stays_modify; by intros|by apply stays_on_stream]. }
  eapply pp_mono; [apply Hm|..]; cbv beta; intros; by eapply opens_then.
Qed.

(** [shutdown] ran on the buffer of [i], or nothing happened to it. *)
Definition closed_read i c c' : Prop := only i c c' ∧ (same_at i c c' ∨
  ∃ s rb, StreamMap.streams (Conn.streams c) !! i = Some s ∧ RecvBuf.shutdown (Stream.recv s) = (Ok (), rb) ∧
    stream_at i c' = Some (buffers (Stream.set_recv rb s)) ∧ (collected_at i c' ↔ collected_at i c)).
Definition closed_write i c c' : Prop := only i c c' ∧ (same_at i c c' ∨
  ∃ s r sb, StreamMap.streams (Conn.streams c) !! i = Some s ∧ SendBuf.shutdown (Stream.send s) = (r, sb) ∧
    stream_at i c' = Some (buffers (Stream.set_send sb s)) ∧ (collected_at i c' ↔ collected_at i c)).

#[local] Instance alike_preorder : PreOrder alike.
Proof.
  split; [by split|]. intros c1 c2 c3 [? Hj1] [? Hj2]. split; [by etrans|]. intros j. etrans; [apply Hj1|apply Hj2].
Qed.
Lemma stays_alike {A} (m : M Conn.t Error A) : stays still m → stays alike m.
Proof. apply stays_mono. intros c c'. apply still_alike. Qed.
Lemma stays_money f : (∀ c, Conn.is_server (f c) = Conn.is_server c ∧ Conn.streams (f c) = Conn.streams c) →
  stays alike (modify f : M Conn.t Error unit).
Proof.
  intros Hf. apply stays_modify. intros c. destruct (Hf c) as [? E].
  split; [split; [done|]; intros; by rewrite E|]. intros j. unfold same_at, stream_at, collected_at. by rewrite E.
Qed.
Lemma stays_tx_cap w : stays alike (Conn.update_tx_cap w).
Proof.
  intros c. unfold Conn.update_tx_cap. apply pp_bind, pp_get, pp_bind, pp_lift; [|intros; reflexivity]. intros room _. by apply pp_put.
Qed.

Lemma alike_put i s' c c' : alike (put_stream i s' c) c' → only i c c' ∧ stream_at i c' = Some (buffers s') ∧ (collected_at i c' ↔ collected_at i c).
Proof.
  intros [Hf Hj]. destruct (Hj i) as [E Ec]. split_and!; [etrans; [apply put_only|by split; [|intros j _; apply Hj]]|by rewrite E, put_at|done].
Qed.

Lemma touch_stream_shutdown w i dir err c : pp (Conn.stream_shutdown w i dir err)
  (λ _ c', closed_read i c c' ∨ closed_write i c c') (λ _ c', closed_read i c c' ∨ closed_write i c c') c.
Proof.
  assert (closed_read i c c ∨ closed_write i c c) as Hc by (left; split; [reflexivity|left; reflexivity]).
  unfold Conn.stream_shutdown. apply pp_bind, pp_get. destruct (match dir with Read => _ | Write => _ end); [by apply pp_fail|].
  unfold StreamMap.get. destruct (StreamMap.streams (Conn.streams c) !! i) as [s|] eqn:Hs; [|by apply pp_fail]. cbv zeta.
  destruct dir; apply pp_bind, pp_on_stream; intros s' Hs'; (assert (s' = s) as -> by congruence); apply pp_zoom, pp_run.
  - intros [] rb Hr. match goal with |- pp ?m _ _ _ => assert (stays alike m) as Hm by (apply stays_alike; stays; quiet_step) end.
    eapply pp_mono; [apply Hm|..]; cbv beta; intros ? c' H'; left; destruct (alike_put _ _ _ _ H') as (? & ? & ?);
      (split; [done|right; by exists s, rb]).
  - intros e rb Hr. unfold RecvBuf.shutdown in Hr. rewrite run_bind_get in Hr. destruct (RecvBuf.drain (Stream.recv s)); [|done].
    injection Hr as <- <-. rewrite put_same; [done|]. by destruct s.
  - intros [final unsent] sb Hr. match goal with |- pp ?m _ _ _ => assert (stays alike m) as Hm end.
    { repeat first [apply stays_tx_cap|by apply stays_money|apply stays_alike; quiet_step|apply (stays_bind alike); [|intros ?]]. }
    eapply pp_mono; [apply Hm|..]; cbv beta; intros ? c' H'; right; destruct (alike_put _ _ _ _ H') as (? & ? & ?);
      (split; [done|right; by exists s, (Ok (final, unsent)), sb]).
  - intros e sb Hr. right. destruct (alike_put i (Stream.set_send sb s) c _ (reflexivity _)) as (? & ? & ?). split; [done|right; by exists s, (Err e), sb].
Qed.

Lemma stays_stream_writable i n : stays still (Conn.stream_writable i n).
Proof.
  unfold Conn.stream_writable. stays; first [quiet_step|by apply stays_on_stream].
Qed.
End touch.
