(* ===== verification/QuicBuffers.v ===== *)
(** * What a stream's buffers keep

    Facts on [RecvBuf] and [SendBuf] that hold whatever their state: no byte is
    stored but those that were written, a stream that was read to its end stays
    so, reading leaves less to read, and queued bytes are counted as they are
    written. *)
From S2P Require Import Prelude OctetsLib BTree FlowCtl RangeBufs RecvBufs SendBufs Streams ConnStreams ConnTouch.

(** ** Chunks

    [raw_holds] and [content_at] (of [SendBufs.v]) are the bytes of a chunk and
    of a queue, whatever was consumed of them. *)

Lemma raw_split n b h t : RangeBuf.split_off (E:=Error) n b = Ok (h, t) → 0 <= n →
  ∀ o x, raw_holds h o x ∨ raw_holds t o x → raw_holds b o x.
Proof.
  unfold RangeBuf.split_off. intros Hs Hn o x. destruct (Z.leb_spec n (RangeBuf.len_ b)); [|done]. injection Hs as <- <-.
  unfold raw_holds. rewrite !raw_max. cbn. replace (RangeBuf.off_ b + n - (RangeBuf.start b + n)) with (RangeBuf.off_ b - RangeBuf.start b) by lia.
  intros [[? ?]|[? ?]]; (split; [lia|done]).
Qed.
Lemma raw_same b b' o x : RangeBuf.off_ b' = RangeBuf.off_ b → RangeBuf.start b' = RangeBuf.start b → RangeBuf.len_ b' = RangeBuf.len_ b →
  RangeBuf.data b' = RangeBuf.data b → raw_holds b' o x ↔ raw_holds b o x.
Proof. intros E1 E2 E3 E4. unfold raw_holds. by rewrite !raw_max, E1, E2, E3, E4. Qed.

(** ** Receiving *)

Definition recv_content (rb : RecvBuf.t) (o x : Z) : Prop := content_at (RecvBuf.data rb).*2 o x.

Lemma stores_content rb o x : recv_wf rb → stores rb o x → recv_content rb o x.
Proof.
  intros Hwf. pose proof (data_chunks _ _ _ _ (recv_data _ Hwf)) as [Hc _]. unfold stores, holds_in, recv_content, content_at.
  induction Hc as [|[k b] l [_ Hb] _ IH]; [by intros ?%Exists_nil|]. rewrite fmap_cons, !Exists_cons. cbn. intros [Hx|Hx]; [left|right; auto].
  by apply holds_raw in Hx as [? _].
Qed.

(** Read to the end, and at the end for good. *)
Definition read_out (rb rb' : RecvBuf.t) : Prop := RecvBuf.is_fin rb = true → RecvBuf.is_fin rb' = true.

Lemma is_fin_iff rb : RecvBuf.is_fin rb = true ↔ RecvBuf.fin_off rb = Some (RecvBuf.off rb).
Proof. apply bool_decide_eq_true. Qed.

(** *** [emit] *)
Definition weight (bs : list (Z * RangeBuf.t)) : Z := foldr (λ p n, RangeBuf.len p.2 + 1 + n) 0 bs.
Definition lens_ok (bs : list (Z * RangeBuf.t)) : Prop := Forall (λ p, 0 <= RangeBuf.len p.2) bs.

Lemma lens_of rb : recv_wf rb → lens_ok (RecvBuf.data rb).
Proof.
  intros Hwf. pose proof (data_chunks _ _ _ _ (recv_data _ Hwf)) as [Hc _]. eapply Forall_impl; [exact Hc|].
  intros [k b] [_ Hb]. by apply RangeBuf.len_nonneg.
Qed.
Lemma weight_nonneg bs : lens_ok bs → 0 <= weight bs.
Proof. induction 1 as [|[k b] bs Hb _ IH]; [done|]. cbn [weight foldr snd] in *. unfold weight in IH. lia. Qed.

Lemma emit_loop_weight cap bs off out bs' off' : RecvBuf.emit_loop cap bs off = Ok (out, bs', off') → lens_ok bs → 0 <= cap →
  weight bs' + zlen out <= weight bs ∧ (0 < cap → head (RangeBuf.off ∘ snd <$> bs) = Some off → weight bs' + zlen out < weight bs ∨ weight bs' < weight bs).
Proof.
  revert cap off out bs' off'. induction bs as [|[k b] bs IH]; cbn [RecvBuf.emit_loop]; intros cap off out bs' off' Hrun Hb Hcap.
  { injection Hrun as <- <- <-. by split. }
  destruct ((0 <? cap) && _) eqn:Hgo; cycle 1.
  { injection Hrun as <- <- <-. split; [rewrite zlen_nil; lia|]. intros Hpos [= <-]. cbn in Hgo. rewrite Z.eqb_refl, (proj2 (Z.ltb_lt _ _) Hpos) in Hgo. done. }
  apply andb_true_iff in Hgo as [Hpos%Z.ltb_lt _]. apply Forall_cons in Hb as [Hk Hb]. cbn [snd] in Hk.
  assert (zlen (ztake (Z.min (RangeBuf.len b) cap) (RangeBuf.deref b)) <= Z.min (RangeBuf.len b) cap) as Ht by (unfold zlen, ztake; rewrite length_take; lia).
  unfold uadd, mbind, result_bind in Hrun. destruct (_ <=? u64_max); [|done]. cbn [weight foldr snd]. destruct (Z.ltb_spec (Z.min (RangeBuf.len b) cap) (RangeBuf.len b)).
  - injection Hrun as <- <- <-. cbn [weight foldr snd]. rewrite RangeBuf.len_consume. fold (weight bs). lia.
  - destruct (RecvBuf.emit_loop _ bs _) as [[[out1 bs1] off1]|e|] eqn:Hr; [|done..]. injection Hrun as <- <- <-.
    destruct (IH _ _ _ _ _ Hr Hb ltac:(lia)) as [Hle _]. fold (weight bs). rewrite zlen_app. lia.
Qed.

Section recv.
Implicit Types (rb : RecvBuf.t).

Lemma emit_weight cap rb : lens_ok (RecvBuf.data rb) → 0 <= cap →
  pp (RecvBuf.emit cap) (λ r rb', weight (RecvBuf.data rb') + zlen r.1 <= weight (RecvBuf.data rb) ∧
      (0 < cap → weight (RecvBuf.data rb') < weight (RecvBuf.data rb)))
    (λ _ rb', weight (RecvBuf.data rb') <= weight (RecvBuf.data rb)) rb.
Proof.
  intros Hb Hcap. pose proof (weight_nonneg _ Hb). unfold RecvBuf.emit. apply pp_bind, pp_get. destruct (RecvBuf.ready rb) eqn:Hready; cbn [negb]; [|by apply pp_fail].
  destruct (RecvBuf.error rb); [by apply pp_bind, pp_modify, pp_fail|].
  apply pp_bind, pp_lift; [|by intros]. intros [[out bs] off] Hr. destruct (emit_loop_weight _ _ _ _ _ _ Hr Hb Hcap) as [Hle Hlt].
  assert (0 < cap → weight bs < weight (RecvBuf.data rb)) as Hlt'.
  { intros Hpos. pose proof (zlen_nonneg out). unfold RecvBuf.ready in Hready. destruct (RecvBuf.data rb) as [|[k b] l]; [done|]. cbn in Hready.
    apply Z.eqb_eq in Hready. destruct (Hlt Hpos) as [?|?]; [cbn; by f_equal|lia|done]. }
  apply pp_bind, pp_modify, pp_bind, pp_modify, pp_bind, pp_zoom, pp_run; intros ? f _; [|pose proof (zlen_nonneg out); change (weight bs <= weight (RecvBuf.data rb)); lia]. by apply pp_bind, pp_run; intros ? ? [= <- <-].
Qed.

(** *** [write], [reset], [shutdown] *)

(** Every byte of the chunks satisfies [P]. *)
Definition all_raw (P : Z → Z → Prop) (b : RangeBuf.t) : Prop := ∀ o x, raw_holds b o x → P o x.
Lemma all_raw_split P n b h t : RangeBuf.split_off (E:=Error) n b = Ok (h, t) → 0 <= n → all_raw P b → all_raw P h ∧ all_raw P t.
Proof. intros Hs Hn Hb. split; intros o x Hx; apply Hb, (raw_split _ _ _ _ Hs Hn); auto. Qed.

Lemma content_all P l : (∀ o x, content_at l o x → P o x) ↔ Forall (all_raw P) l.
Proof.
  unfold content_at. induction l as [|b l IH]; [split; [constructor|by intros _ o x ?%Exists_nil]|]. rewrite Forall_cons, <- IH. split.
  - intros Ha. split; [intros o x Hx|intros o x Hx]; apply Ha; rewrite Exists_cons; auto.
  - intros [H1 H2] o x [Hx|Hx]%Exists_cons; auto.
Qed.

Lemma overlap_raw P bs : ∀ buf tmp kept tmp', RecvBuf.overlap buf tmp bs = Ok (kept, tmp') → all_raw P buf → Forall (all_raw P) tmp →
  (∀ b, kept = Some b → all_raw P b) ∧ Forall (all_raw P) tmp'.
Proof.
  induction bs as [|[k b] bs IH]; cbn [RecvBuf.overlap]; intros buf tmp kept tmp' Hrun Hb Ht.
  { injection Hrun as <- <-. split; [by intros b [= <-]|done]. }
  destruct (_ <? RangeBuf.off b); [injection Hrun as <- <-; split; [by intros ? [= <-]|done]|].
  destruct ((RangeBuf.off b <=? RangeBuf.off buf) && (RangeBuf.max_off buf <=? RangeBuf.max_off b)); [by injection Hrun as <- <-|].
  assert (∀ buf', all_raw P buf' → (if (RangeBuf.off buf <? RangeBuf.off b) && (RangeBuf.off b <? RangeBuf.max_off buf')
    then '(head, tail) ← RangeBuf.split_off (RangeBuf.off b - RangeBuf.off buf) buf'; RecvBuf.overlap head (tmp ++ [tail]) bs
    else RecvBuf.overlap buf' tmp bs) = Ok (kept, tmp') → (∀ b, kept = Some b → all_raw P b) ∧ Forall (all_raw P) tmp') as Hrest.
  { intros buf' Hb' Hr. clear Hrun. destruct ((RangeBuf.off buf <? RangeBuf.off b) && _) eqn:Hin; cycle 1; [eapply IH; [exact Hr|done|done]|].
    apply andb_true_iff in Hin as [Hlt%Z.ltb_lt _].
    unfold mbind, result_bind in Hr. destruct (RangeBuf.split_off _ buf') as [[h t]|e|] eqn:Hs; [|discriminate Hr..].
    destruct (all_raw_split P _ _ _ _ Hs ltac:(lia) Hb'). eapply IH; [exact Hr|done|]. apply Forall_app. split; [done|by constructor]. }
  unfold mbind at 1, result_bind at 1 in Hrun. destruct ((RangeBuf.off b <=? RangeBuf.off buf) && (RangeBuf.off buf <? RangeBuf.max_off b)) eqn:Hin.
  - apply andb_true_iff in Hin as [_ Hlt%Z.ltb_lt].
    destruct (RangeBuf.split_off _ buf) as [[h t]|e|] eqn:Hs; [|discriminate Hrun..]. destruct (all_raw_split P _ _ _ _ Hs ltac:(lia) Hb). by apply (Hrest t).
  - apply (Hrest buf); [done|exact Hrun].
Qed.

(** The read offset, a known final size and the flags do not change. *)
Definition keeps_end rb rb' : Prop := RecvBuf.off rb' = RecvBuf.off rb ∧ (∀ f, RecvBuf.fin_off rb = Some f → RecvBuf.fin_off rb' = Some f) ∧
  RecvBuf.drain rb' = RecvBuf.drain rb ∧ RecvBuf.error rb' = RecvBuf.error rb.
#[export] Instance keeps_end_preorder : PreOrder keeps_end.
Proof. split; [by intros rb|]. intros r1 r2 r3 (? & ? & ? & ?) (? & ? & ? & ?). split_and!; [congruence|auto|congruence|congruence]. Qed.
Lemma keeps_read_out rb rb' : keeps_end rb rb' → read_out rb rb'.
Proof. intros (Ho & Hf & _) Hfin. apply is_fin_iff. rewrite Ho. by apply Hf, is_fin_iff. Qed.

Definition data_all (P : Z → Z → Prop) rb : Prop := Forall (λ p, all_raw P p.2) (RecvBuf.data rb).

Lemma write_loop_raw P fuel : ∀ tmp rb, data_all P rb → Forall (all_raw P) tmp →
  pp (RecvBuf.write_loop fuel tmp) (λ _ rb', data_all P rb' ∧ keeps_end rb rb') (λ _ _, True) rb.
Proof.
  induction fuel as [|fuel IH]; intros tmp rb Hb Ht; [by destruct tmp|]. destruct tmp as [|buf tmp]; [by apply pp_ret|].
  apply Forall_cons in Ht as [Hk Ht]. cbn [RecvBuf.write_loop]. apply pp_bind, pp_get, pp_bind, pp_lift; [|done]. intros buf1 H1. assert (all_raw P buf1) as Hk1.
  { destruct (Z.ltb_spec (RangeBuf.off buf) (RecvBuf.off_front rb)); [|by injection H1 as <-].
    unfold mbind, result_bind in H1. destruct (RangeBuf.split_off _ buf) as [[h t]|e|] eqn:Hs; [|discriminate H1..]. injection H1 as <-.
    by destruct (all_raw_split P _ _ _ _ Hs ltac:(lia) Hk). }
  apply pp_bind, pp_lift; [|done].
  intros [kept tmp1] Hkept. assert ((∀ b, kept = Some b → all_raw P b) ∧ Forall (all_raw P) tmp1) as [Hkept1 Ht1].
  { destruct (_ || _); [by eapply overlap_raw|]. injection Hkept as <- <-. split; [by intros b [= <-]|done]. }
  destruct kept as [h|]; [|by apply IH]. apply pp_bind, pp_modify, pp_bind, pp_modify. set (rb1 := if RecvBuf.drain _ then _ else _).
  assert (data_all P rb1 ∧ keeps_end rb rb1) as [Hb1 He1].
  { unfold rb1, data_all. destruct (RecvBuf.drain _); (split; [|done]); [done|]. apply bt_insert_Forall; [exact Hb|by apply Hkept1]. }
  eapply pp_mono; [by apply IH|..]; cbv beta; [|done]. intros _ rb' [? ?]. split; [done|by etrans].
Qed.

Lemma write_raw P buf rb : data_all P rb → all_raw P buf →
  pp (RecvBuf.write buf) (λ _ rb', data_all P rb' ∧ keeps_end rb rb') (λ _ _, True) rb.
Proof.
  intros Hb Hk. unfold RecvBuf.write. apply pp_bind, pp_get. destruct (_ <? _); [by apply pp_fail|].
  destruct (match RecvBuf.fin_off rb with Some _ => _ | None => _ end) eqn:Hend; [by apply pp_fail|]. destruct (RangeBuf.fin buf && _); [by apply pp_fail|].
  destruct (_ && _); [by apply pp_ret|]. apply pp_bind.
  assert (∀ rb1, data_all P rb1 → keeps_end rb rb1 → pp (if negb (RangeBuf.fin buf) && RangeBuf.is_empty buf then mret ()
    else if (RangeBuf.max_off buf <=? RecvBuf.off rb) && negb (RangeBuf.is_empty buf) then mret ()
    else RecvBuf.write_loop (RecvBuf.write_fuel buf) [buf]) (λ _ rb', data_all P rb' ∧ keeps_end rb rb') (λ _ _, True) rb1) as Hrest.
  { intros rb1 Hb1 He1. destruct (_ && _); [by apply pp_ret|]. destruct (_ && _); [by apply pp_ret|].
    eapply pp_mono; [by apply (write_loop_raw P); [|constructor]|..]; cbv beta; [|done]. intros _ rb' [? ?]. split; [done|by etrans]. }
  destruct (RangeBuf.fin buf) eqn:Hfin; [apply pp_modify|apply pp_ret]; apply Hrest; try done. split_and!; [done| |done|done].
  intros f Hf. rewrite Hf in Hend. apply orb_false_iff in Hend as [_ Hend]. cbn in Hend. apply negb_false_iff, Z.eqb_eq in Hend. cbn. by rewrite Hend.
Qed.

Lemma reset_ends e n rb : pp (RecvBuf.reset e n) (λ _ rb', RecvBuf.error rb' ≠ None ∧ read_out rb rb') (λ _ _, True) rb.
Proof.
  unfold RecvBuf.reset. apply pp_bind, pp_get. destruct (match RecvBuf.fin_off rb with Some _ => _ | None => _ end) eqn:Hend; [by apply pp_fail|].
  destruct (_ <? _); [by apply pp_fail|]. apply pp_bind, pp_lift; [|by intros]. intros delta _.
  destruct (RecvBuf.error rb) eqn:He; [apply pp_ret; split; [by rewrite He|by intros ?]|].
  do 3 (apply pp_bind, pp_modify). apply pp_bind. eapply pp_mono; [apply (write_raw (λ _ _, True)); [constructor|by intros ?]|..]; cbv beta; [|done].
  intros _ rb' [_ Hk]. apply pp_ret. split; [destruct Hk as (_ & _ & _ & ->); done|]. intros Hfin. apply (keeps_read_out _ _ Hk), is_fin_iff. cbn.
  apply is_fin_iff in Hfin. rewrite Hfin in Hend. apply negb_false_iff, Z.eqb_eq in Hend. by rewrite Hfin, Hend.
Qed.

Lemma shutdown_drains rb rb' : RecvBuf.shutdown rb = (Ok (), rb') → recv_wf rb → RecvBuf.drain rb' = true ∧ RecvBuf.data rb' = [] ∧ read_out rb rb'.
Proof.
  unfold RecvBuf.shutdown. rewrite run_bind_get. destruct (RecvBuf.drain rb); [done|]. intros [= <-] Hwf. split_and!; [done|done|].
  unfold read_out. rewrite !is_fin_iff. cbn. intros Hfin. pose proof (recv_fin _ Hwf _ Hfin) as E. by rewrite Hfin, E.
Qed.
End recv.

(** ** Queued bytes are counted *)
Section send.
Implicit Types (sb : SendBuf.t).

(** The counter of queued bytes grows with the write offset; the limit and the
    error stay. *)
Definition counts sb sb' : Prop := SendBuf.len sb' - SendBuf.off sb' = SendBuf.len sb - SendBuf.off sb ∧
  SendBuf.max_data sb' = SendBuf.max_data sb ∧ SendBuf.error sb' = SendBuf.error sb.

Lemma push_chunks_counts total fin cs : ∀ n sb, pp (SendBuf.push_chunks total fin n cs) (λ _ sb', counts sb sb') (λ _ _, False) sb.
Proof.
  induction cs as [|chunk cs IH]; intros n sb; [by apply pp_ret|]. cbn [SendBuf.push_chunks]. apply pp_bind, pp_get.
  apply pp_bind, pp_lift; [|unfold uadd; intros e He; by case_match]. intros o Ho. apply pp_bind, pp_lift; [|unfold uadd; intros e He; by case_match]. intros l Hl.
  do 3 (apply pp_bind, pp_modify). eapply pp_mono; [apply IH|..]; cbv beta; [|done]. unfold counts. cbn.
  unfold uadd in *. case_match; [|discriminate]. case_match; [|discriminate]. intros _ sb' (Hlen & Hmax & Herr). assert (o = SendBuf.off sb + zlen chunk ∧ l = SendBuf.len sb + zlen chunk) by (by split; congruence). split; [lia|done].
Qed.

Lemma write_counts d fin sb : pp (SendBuf.write d fin) (λ _ sb', counts sb sb') (λ _ sb', sb' = sb) sb.
Proof.
  unfold SendBuf.write. apply pp_bind, pp_get, pp_bind, pp_lift; [|done]. intros m _. apply pp_bind, pp_reads; [|done]. intros room _.
  destruct (if room <? zlen d then (ztake room d, false) else (d, fin)) as [d1 f1].
  destruct (match SendBuf.fin_off sb with Some _ => _ | None => _ end); [by apply pp_fail|]. apply pp_bind.
  destruct f1; [apply pp_modify|apply pp_ret]; (destruct (_ <=? _); [by apply pp_ret|]; destruct (_ =? 0); [by apply pp_ret|];
    eapply pp_mono; [apply push_chunks_counts|..]; cbv beta; [done|by intros]).
Qed.
End send.

(** ** What stays of the queue

    No operation but [write] adds bytes to the queue, and the write offset
    moves only when the stream ends. *)
Definition queue_all (P : Z → Z → Prop) (sb : SendBuf.t) : Prop := Forall (all_raw P) (SendBuf.data sb).
Definition shrinks (sb sb' : SendBuf.t) : Prop := (∀ P, queue_all P sb → queue_all P sb') ∧
  (SendBuf.off sb' = SendBuf.off sb ∨ SendBuf.fin_off sb' ≠ None) ∧
  (SendBuf.error sb ≠ None → SendBuf.error sb' ≠ None) ∧ (SendBuf.fin_off sb ≠ None → SendBuf.fin_off sb' ≠ None).
#[export] Instance shrinks_preorder : PreOrder shrinks.
Proof.
  split; [intros sb; split_and!; auto|]. intros s1 s2 s3 (H1 & O1 & E1 & F1) (H2 & O2 & E2 & F2). split_and!; [auto| |auto|auto].
  destruct O2 as [-> |?]; [|by right]. destruct O1; auto.
Qed.

Section shrink.
Implicit Types (sb : SendBuf.t).

Lemma all_raw_same P b b' : all_raw P b → RangeBuf.off_ b' = RangeBuf.off_ b → RangeBuf.start b' = RangeBuf.start b → RangeBuf.len_ b' = RangeBuf.len_ b →
  RangeBuf.data b' = RangeBuf.data b → all_raw P b'.
Proof. intros Hb E1 E2 E3 E4 o x Hx. by apply Hb, (raw_same b b'). Qed.
Lemma queue_all_at P sb i b : queue_all P sb → SendBuf.data sb !! i = Some b → all_raw P b.
Proof. intros Hq. by apply Forall_lookup_1. Qed.

Lemma shrinks_data d sb : (∀ P, queue_all P sb → Forall (all_raw P) d) → shrinks sb (SendBuf.set_data d sb).
Proof. intros Hd. split_and!; auto. Qed.
Lemma stays_shrink_modify f : (∀ sb, SendBuf.data (f sb) = SendBuf.data sb ∧ SendBuf.off (f sb) = SendBuf.off sb ∧ SendBuf.error (f sb) = SendBuf.error sb ∧
  SendBuf.fin_off (f sb) = SendBuf.fin_off sb) → stays shrinks (modify f : M SendBuf.t Error unit).
Proof. intros Hf. apply stays_modify. intros sb. destruct (Hf sb) as (E1 & E2 & E3 & E4). unfold shrinks, queue_all. rewrite E1, E2, E3, E4. split_and!; auto. Qed.

Lemma stays_emit_loop fuel : ∀ n next out, stays shrinks (SendBuf.emit_loop fuel n next out).
Proof.
  induction fuel as [|fuel IH]; intros n next out; [apply stays_panic|]. cbn [SendBuf.emit_loop]. destruct (n <=? 0); [apply (stays_ret shrinks)|].
  intros sb. apply pp_bind, pp_get. destruct (_ || _); [by apply pp_ret|]. destruct (SendBuf.data sb !! SendBuf.pos sb) as [buf|] eqn:Hbuf; [|by apply pp_ret].
  destruct (RangeBuf.is_empty buf).
  - apply pp_bind, pp_modify. apply (stays_from shrinks); [apply IH|]. split_and!; auto.
  - cbv zeta. apply pp_bind, pp_lift; [|intros; reflexivity]. intros l _. apply pp_bind, pp_modify, pp_bind, pp_lift; [|intros; split_and!; auto].
    intros o _. apply pp_bind, pp_modify. set (sb1 := SendBuf.set_data _ _).
    assert (shrinks sb sb1) as H1.
    { split_and!; auto. intros P HP. apply Forall_insert; [exact HP|]. by apply (all_raw_same P buf); [eapply queue_all_at|..]. }
    destruct (_ <? _); [by apply pp_ret|]. apply pp_bind, pp_modify. apply (stays_from shrinks); [apply IH|]. etrans; [exact H1|]. split_and!; auto.
Qed.
Lemma stays_emit n : stays shrinks (SendBuf.emit n).
Proof.
  unfold SendBuf.emit. apply (stays_bind shrinks); [apply (stays_get shrinks)|intros sb]. apply (stays_bind shrinks); [apply stays_emit_loop|intros [next out]].
  cbv zeta. apply (stays_bind shrinks); [by apply stays_shrink_modify|intros []]. apply (stays_ret shrinks).
Qed.

Lemma stays_ack off len : stays shrinks (SendBuf.ack off len).
Proof.
  unfold SendBuf.ack. apply (stays_bind shrinks); [apply (stays_lift shrinks)|intros e]. apply (stays_zoom _ (λ _ _, True)); [|by intros r; apply pp_run].
  intros sb r _. split_and!; auto.
Qed.
Lemma stays_ack_and_drop off len : stays shrinks (SendBuf.ack_and_drop off len).
Proof.
  unfold SendBuf.ack_and_drop. apply (stays_bind shrinks); [apply stays_ack|intros []]. intros sb. apply pp_bind, pp_get.
  destruct (SendBuf.is_empty sb); [by apply pp_ret|]. destruct (_ <? _); [by apply pp_ret|]. cbv zeta. destruct (_ =? _)%nat; [by apply pp_ret|].
  apply pp_bind, pp_modify. apply (stays_from shrinks); [by apply stays_shrink_modify|]. apply shrinks_data. intros P HP. by apply Forall_drop.
Qed.

Lemma stays_retransmit_loop n : ∀ i off max_off, stays shrinks (SendBuf.retransmit_loop n i off max_off).
Proof.
  induction n as [|n IH]; intros i off max_off; [apply (stays_ret shrinks)|]. cbn [SendBuf.retransmit_loop]. intros sb. apply pp_bind, pp_get.
  destruct (SendBuf.data sb !! i) as [buf|] eqn:Hbuf; [|done]. destruct (_ <=? _); [by apply pp_ret|]. destruct (RangeBuf.max_off buf <? off); [apply IH|].
  apply pp_bind, pp_lift; [|intros; reflexivity]. intros [h t] Hs.
  assert (∀ P, queue_all P sb → all_raw P h ∧ ∀ b, t = Some b → all_raw P b) as Hht.
  { intros P HP. pose proof (queue_all_at _ _ _ _ HP Hbuf) as Hb. destruct ((RangeBuf.off_ buf <? max_off) && _) eqn:Hin; [|injection Hs as <- <-; by split].
    apply andb_true_iff in Hin as [Hlt%Z.ltb_lt _]. unfold mbind, result_bind in Hs. destruct (RangeBuf.split_off _ buf) as [[h' t']|e|] eqn:Hsp; [|discriminate Hs..].
    injection Hs as <- <-. destruct (all_raw_split P _ _ _ _ Hsp ltac:(lia) Hb). split; [done|by intros b [= <-]]. }
  cbv zeta. apply pp_bind, pp_modify, pp_bind, pp_lift; [|intros; split_and!; auto]. intros d _. apply pp_bind, pp_lift; [|intros; split_and!; auto]. intros l _.
  apply pp_bind, pp_modify, pp_bind, pp_modify. apply (stays_from shrinks); [apply IH|]. split_and!; auto. intros P HP. destruct (Hht P HP) as [Hh Ht]. unfold queue_all. cbn.
  apply Forall_app. split; [by apply Forall_take|]. apply Forall_cons. split; [by apply (all_raw_same P h)|]. apply Forall_app. split; [|by apply Forall_drop].
  destruct t; [|constructor]. apply Forall_singleton. by apply Ht.
Qed.
Lemma stays_retransmit off len : stays shrinks (SendBuf.retransmit off len).
Proof.
  unfold SendBuf.retransmit. apply (stays_bind shrinks); [apply (stays_lift shrinks)|intros m]. intros sb. apply pp_bind, pp_get.
  destruct (SendBuf.is_empty sb); [by apply pp_ret|]. destruct (_ <=? _); [by apply pp_ret|]. apply stays_retransmit_loop.
Qed.

Lemma stays_reset : stays shrinks SendBuf.reset.
Proof.
  intros sb. unfold SendBuf.reset. apply pp_bind, pp_get. do 3 apply pp_bind, pp_modify. set (sb1 := SendBuf.set_off _ _).
  assert (shrinks sb sb1) as H1 by (split_and!; [intros P _; constructor|by right|auto|done]).
  apply (pp_stays shrinks _ _ _ _ sb); [done|apply stays_ack|auto|]. intros _ sb2 H2. apply pp_bind, pp_modify, pp_bind, pp_modify, pp_ret. etrans; [exact H2|]. split_and!; auto.
Qed.
Lemma stays_stop e : stays shrinks (SendBuf.stop e).
Proof.
  intros sb. unfold SendBuf.stop. apply pp_bind, pp_get. destruct (bool_decide _); [by apply pp_fail|].
  apply (pp_stays shrinks _ _ _ _ sb); [reflexivity|apply stays_reset|auto|]. intros [m u] sb1 H1. apply pp_bind, pp_modify, pp_ret. etrans; [exact H1|]. by split_and!; auto.
Qed.
Lemma stays_shutdown : stays shrinks SendBuf.shutdown.
Proof.
  intros sb. unfold SendBuf.shutdown. apply pp_bind, pp_get. destruct (SendBuf.is_shut sb); [by apply pp_fail|]. apply pp_bind, pp_modify.
  apply (stays_from shrinks); [apply stays_reset|]. split_and!; auto.
Qed.
Lemma stays_update_max m : stays shrinks (SendBuf.update_max_data m).
Proof. by apply stays_shrink_modify. Qed.
Lemma stays_update_blocked_at b : stays shrinks (SendBuf.update_blocked_at b).
Proof. by apply stays_shrink_modify. Qed.
End shrink.

(** ** Buffers that agree with what was written and read

    [spells l o x]: [x] is the byte of [l] at the offset [o]. *)
Definition spells (l : list Z) (o x : Z) : Prop := l !! Z.to_nat o = Some x.

(** The same for a received byte. *)
Definition hears (l : list Z) (o x : Z) : Prop := spells l o x ∧ is_u8 x.

(** The receive buffer of a stream on which the peer has written [s], and of
    which [tk] was read; nothing more is read after a reset or a shutdown. *)
Definition got (rb : RecvBuf.t) (s tk : list Z) : Prop := RecvBuf.drain rb = true ∨ RecvBuf.error rb ≠ None ∨
  RecvBuf.off rb = zlen tk ∧ data_all (hears s) rb.
(** The send buffer of a stream to which [wr] was written; nothing more is
    written after the end of the stream. *)
Definition queued (sb : SendBuf.t) (wr : list Z) : Prop := queue_all (spells wr) sb ∧
  (SendBuf.off sb = zlen wr ∨ SendBuf.error sb ≠ None ∨ SendBuf.fin_off sb ≠ None).

Section agree.
Implicit Types (rb : RecvBuf.t) (sb : SendBuf.t) (s tk wr : list Z).

Lemma spells_grow s s' o x : s `prefix_of` s' → spells s o x → spells s' o x.
Proof. intros [k ->] Hx. by apply lookup_app_l_Some. Qed.
Lemma hears_grow s s' o x : s `prefix_of` s' → hears s o x → hears s' o x.
Proof. intros Hs [? ?]. split; [by eapply spells_grow|done]. Qed.
Lemma all_raw_mono (P P' : Z → Z → Prop) b : (∀ o x, P o x → P' o x) → all_raw P b → all_raw P' b.
Proof. intros HP Hb o x Hx. by apply HP, Hb. Qed.

Lemma got_new rx w s : got (RecvBuf.new rx w) s [].
Proof. right. right. split; [done|constructor]. Qed.
Lemma got_grow rb s s' tk : s `prefix_of` s' → got rb s tk → got rb s' tk.
Proof.
  intros Hs [?|[?|[? Hd]]]; [by left|by right; left|right; right]. split; [done|]. eapply Forall_impl; [exact Hd|]. intros [k b]. apply all_raw_mono.
  intros o x. by apply hears_grow.
Qed.
Lemma got_write buf rb s tk : got rb s tk → all_raw (hears s) buf → pp (RecvBuf.write buf) (λ _ rb', got rb' s tk ∧ read_out rb rb') (λ _ _, True) rb.
Proof.
  intros Hg Hb. assert (pp (RecvBuf.write buf) (λ _ rb', keeps_end rb rb') (λ _ _, True) rb) as Hk.
  { eapply pp_mono; [apply (write_raw (λ _ _, True))|..]; cbv beta; [by apply Forall_true|by intros ?|by intros ? ? []|done]. }
  destruct Hg as [Hd|[He|[Ho Hd]]].
  - eapply pp_mono; [exact Hk|..]; cbv beta; [|done]. intros _ rb' Hkeep. split; [left; by destruct Hkeep as (_ & _ & -> & _)|by apply keeps_read_out].
  - eapply pp_mono; [exact Hk|..]; cbv beta; [|done]. intros _ rb' Hkeep. split; [right; left; by destruct Hkeep as (_ & _ & _ & ->)|by apply keeps_read_out].
  - eapply pp_mono; [by apply (write_raw (hears s))|..]; cbv beta; [|done]. intros _ rb' [Hd' Hkeep]. split; [|by apply keeps_read_out].
    right. right. split; [|done]. destruct Hkeep as (-> & _). done.
Qed.
Lemma got_reset e n rb s tk : pp (RecvBuf.reset e n) (λ _ rb', got rb' s tk ∧ read_out rb rb') (λ _ _, True) rb.
Proof. eapply pp_mono; [apply reset_ends|..]; cbv beta; [|done]. intros _ rb' [? ?]. split; [by right; left|done]. Qed.

Lemma emit_loop_raw P cap bs off out bs' off' : RecvBuf.emit_loop cap bs off = Ok (out, bs', off') → Forall (λ p, all_raw P p.2) bs → Forall (λ p, all_raw P p.2) bs'.
Proof.
  revert cap off out bs' off'. induction bs as [|[k b] bs IH]; cbn [RecvBuf.emit_loop]; intros cap off out bs' off' Hrun Hb; [by injection Hrun as <- <- <-|].
  destruct (_ && _); [|by injection Hrun as <- <- <-]. apply Forall_cons in Hb as [Hk Hb].
  unfold uadd, mbind, result_bind in Hrun. destruct (_ <=? u64_max); [|done]. destruct (_ <? _).
  - injection Hrun as <- <- <-. apply Forall_cons. split; [by apply (all_raw_same P b)|done].
  - destruct (RecvBuf.emit_loop _ bs _) as [[[out1 bs1] off1]|e|] eqn:Hr; [|done..]. injection Hrun as <- <- <-. by eapply IH.
Qed.
Lemma emit_raw P cap rb : data_all P rb → pp (RecvBuf.emit cap) (λ _ rb', data_all P rb') (λ _ _, True) rb.
Proof.
  intros Hd. unfold RecvBuf.emit. apply pp_bind, pp_get. destruct (RecvBuf.ready rb); cbn [negb]; [|by apply pp_fail].
  destruct (RecvBuf.error rb); [by apply pp_bind, pp_modify, pp_fail|]. apply pp_bind, pp_lift; [|done]. intros [[out bs] off] Hr.
  apply pp_bind, pp_modify, pp_bind, pp_modify, pp_bind, pp_zoom, pp_run; [|done]. intros ? f _. apply pp_bind, pp_run; [|done]. intros ? ? [= <- <-]. by eapply emit_loop_raw.
Qed.

Lemma prefix_more s tk out : tk `prefix_of` s → (∀ k x, out !! k = Some x → s !! (length tk + k)%nat = Some x) → tk ++ out `prefix_of` s.
Proof.
  intros [r ->] Hout. apply prefix_app. exists (drop (length out) r). apply list_eq. intros k. destruct (out !! k) as [x|] eqn:Hx.
  - rewrite (lookup_app_l_Some _ _ _ x) by done. apply Hout in Hx. rewrite lookup_app_r in Hx by lia. by replace (length tk + k - length tk)%nat with k in Hx by lia.
  - apply lookup_ge_None in Hx. rewrite lookup_app_r, lookup_drop by done. f_equal. lia.
Qed.

(** What [emit] returns continues what was read, and is part of what the peer
    wrote. *)
Lemma got_emit cap rb s tk r rb' : recv_wf rb → RecvBuf.ready rb = true → 0 <= cap → got rb s tk → tk `prefix_of` s → RecvBuf.emit cap rb = (r, rb') →
  0 <= weight (RecvBuf.data rb') <= weight (RecvBuf.data rb) ∧
  (∀ out fin, r = Ok (out, fin) → weight (RecvBuf.data rb') + zlen out <= weight (RecvBuf.data rb) ∧
     (0 < cap → weight (RecvBuf.data rb') < weight (RecvBuf.data rb)) ∧ zlen out <= cap ∧ (RecvBuf.is_fin rb = true → out = []) ∧
     got rb' s (tk ++ out) ∧ tk ++ out `prefix_of` s ∧ bytes_ok out) ∧
  (∀ e, r = Err e → got rb' s tk) ∧ read_out rb rb'.
Proof.
  intros Hwf Hready Hcap Hg Hpre Hrun. pose proof (emit_weight cap rb (lens_of _ Hwf) Hcap) as H2.
  unfold pp in H2. rewrite Hrun in H2. destruct (RecvBuf.error rb) as [e|] eqn:He.
  - assert (r = Err (StreamReset e) ∧ rb' = RecvBuf.set_data [] rb) as [-> ->].
    { unfold RecvBuf.emit in Hrun. rewrite run_bind_get, Hready, He in Hrun. by injection Hrun as <- <-. }
    pose proof (weight_nonneg _ (lens_of _ Hwf)).
    split_and!; [done|done|by intros|intros ? _; right; left; cbn; by rewrite He|by intros ?].
  - destruct (recv_emit_run cap rb Hwf He Hcap Hready) as (out & rb1 & Hrun1 & [Hwf' Ho Hle Hstores _ _ _ El Ef _ _ _]). rewrite Hrun in Hrun1.
    injection Hrun1 as -> ->. destruct H2 as [? ?]. pose proof (zlen_nonneg out).
    assert (RecvBuf.is_fin rb = true → out = []) as Hnil.
    { intros Hfin%is_fin_iff. pose proof (recv_fin _ Hwf _ Hfin). pose proof (recv_off _ Hwf'). destruct out; [done|].
      rewrite zlen_cons in *. pose proof (zlen_nonneg out). lia. }
    pose proof (weight_nonneg _ (lens_of _ Hwf')). cbn [fst] in *.
    assert (RecvBuf.off rb = zlen tk ∧ data_all (hears s) rb) as [Etk Hd].
    { destruct Hg as [Hdr|[?|?]]; [|done|done]. pose proof (recv_drain _ Hwf Hdr) as E. unfold RecvBuf.ready in Hready. by rewrite E in Hready. }
    pose proof (emit_raw (hears s) cap rb Hd) as Hd'. unfold pp in Hd'. rewrite Hrun in Hd'.
    split_and!; [done|lia| |done|].
    + assert (∀ k x, out !! k = Some x → hears s (RecvBuf.off rb + Z.of_nat k) x) as Hhears.
      { intros k x Hx. apply Hstores, stores_content in Hx; [|done]. unfold recv_content in Hx.
        pose proof (proj2 (content_all (hears s) (RecvBuf.data rb).*2)) as Hc. rewrite Forall_fmap in Hc. apply Hc in Hx; [|exact Hd]. done. }
      intros ? ? [= <- _]. split_and!; [done|done|done|done|right; right; split; [rewrite zlen_app; lia|done]| |].
      2: { apply Forall_lookup. intros k x Hx. by destruct (Hhears k x Hx). }
      apply prefix_more; [done|]. intros k x Hx. apply Hhears in Hx as [Hx _].
      unfold spells in Hx. rewrite Etk in Hx. unfold zlen in Hx. by replace (Z.to_nat (Z.of_nat (length tk) + Z.of_nat k)) with (length tk + k)%nat in Hx by lia.
    + intros Hfin. pose proof (Hnil Hfin) as ->. apply is_fin_iff in Hfin. apply is_fin_iff. rewrite Ef, Ho, zlen_nil, Hfin. f_equal. lia.
Qed.

Lemma queued_new tx : queued (SendBuf.new tx) [].
Proof. split; [constructor|by left]. Qed.
Lemma queued_shrinks sb sb' wr : shrinks sb sb' → queued sb wr → queued sb' wr.
Proof. intros (Hd & Ho & He & Hf) [Hq Hend]. split; [by apply Hd|]. destruct Hend as [E|[?|?]]; [|by right; left; apply He|by right; right; apply Hf]. destruct Ho as [-> |?]; auto. Qed.
Lemma queued_blocked sb wr b : queued (SendBuf.set_blocked_at b sb) wr ↔ queued sb wr.
Proof. done. Qed.

Lemma queued_write sb d fin wr n sb' : send_wf sb → SendBuf.off sb + zlen d <= u64_max → SendBuf.len sb + zlen d <= u64_max →
  SendBuf.write d fin sb = (Ok n, sb') → queued sb wr → queued sb' (wr ++ ztake n d).
Proof.
  intros Hwf Ho Hl Hrun [Hq Hend]. destruct (SendBuf.error sb) as [e|] eqn:He.
  { unfold SendBuf.write in Hrun. rewrite run_bind_get in Hrun. rewrite (run_bind_lift _ _ _ (SendBuf.off sb + zlen d)) in Hrun by (apply uadd_ok; pose proof (zlen_nonneg d); pose proof (sw_off _ Hwf); lia).
    unfold mbind at 1, M_bind at 1, reads, SendBuf.cap in Hrun. by rewrite He in Hrun. }
  pose proof (write_run sb d fin Hwf He Ho Hl) as Hr. cbv zeta in Hr. rewrite Hrun in Hr.
  destruct (bool_decide (is_Some (SendBuf.fin_off sb)) && _) eqn:Hfin; [done|]. destruct Hr as (sb1 & [= -> <-] & [Hwf' Eo _ _ _ Ee Ef Hc _]).
  set (d1 := ztake _ d) in *. assert (queue_all (spells (wr ++ d1)) sb' ∨ d1 = [] ∧ SendBuf.fin_off sb ≠ None) as Hcase.
  { destruct Hend as [E|[?|Hne]]; [|done|].
    - left. apply content_all. intros o x [Hx|[Hle Hx]]%Hc.
      + eapply spells_grow; [by apply prefix_app_r|]. revert Hx. by apply content_all.
      + unfold spells. rewrite lookup_app_r by (unfold zlen in *; lia). rewrite <- Hx. f_equal. unfold zlen in *. lia.
    - right. split; [|done]. apply not_eq_None_Some in Hne. rewrite bool_decide_eq_true_2 in Hfin by done. apply orb_false_iff in Hfin as [Hz%Z.ltb_ge _].
      assert (d = []) as Hd by (apply zlen_0; pose proof (zlen_nonneg d); lia). unfold d1. rewrite Hd. by apply take_nil. }
  split.
  - destruct Hcase as [?|[E _]]; [done|]. rewrite E in *. rewrite app_nil_r. apply content_all. intros o x [Hx|[_ Hx]]%Hc; [|by rewrite lookup_nil in Hx].
    revert Hx. by apply content_all.
  - destruct Hend as [E|[?|Hne]]; [|done|].
    + left. rewrite Eo, zlen_app. lia.
    + right. right. rewrite Ef. by destruct (fin && _).
Qed.
End agree.
