(* ===== verification/H3Frames.v ===== *)
(** * HTTP/3 frames ([quiche/src/h3/frame.rs])

    The errors of the HTTP/3 layer, frames with their parser and writer, their
    wire format, and the round trip. *)
From S2P Require Import Prelude OctetsLib Readers.

(** ** Errors ([quiche/src/h3/mod.rs]) *)
Module H3.
Inductive Error :=
| Done
| BufferTooShort
| InternalError
| ExcessiveLoad
| IdError
| StreamCreationError
| ClosedCriticalStream
| MissingSettings
| FrameUnexpected
| FrameError
| QpackDecompressionFailed
| TransportError (e : Prelude.Error)
| StreamBlocked
| SettingsError
| RequestRejected
| RequestCancelled
| RequestIncomplete
| MessageError
| ConnectError
| VersionFallback.

#[global] Instance error_eq_dec : EqDecision Error.
Proof. solve_decision. Defined.

(** The values of [WireErrorCode], and of the errors that have none. *)
Definition to_wire (e : Error) : Z :=
  match e with
  | Done => 0x100
  | InternalError => 0x102
  | StreamCreationError => 0x103
  | ClosedCriticalStream => 0x104
  | FrameUnexpected => 0x105
  | FrameError => 0x106
  | ExcessiveLoad => 0x107
  | IdError => 0x108
  | MissingSettings => 0x10a
  | QpackDecompressionFailed => 0x200
  | BufferTooShort => 0x999
  | TransportError _ | StreamBlocked => 0xff
  | SettingsError => 0x109
  | RequestRejected => 0x10b
  | RequestCancelled => 0x10c
  | RequestIncomplete => 0x10d
  | MessageError => 0x10e
  | ConnectError => 0x10f
  | VersionFallback => 0x110
  end.

(** [From<crate::Error>], [From<octets::BufferTooShortError>] *)
Definition from_transport (err : Prelude.Error) : Error :=
  match err with Prelude.Done => Done | _ => TransportError err end.
#[global] Instance error_buf : BufErr Error := BufferTooShort.
End H3.

Definition DATA_FRAME_TYPE_ID : Z := 0x0.
Definition HEADERS_FRAME_TYPE_ID : Z := 0x1.
Definition CANCEL_PUSH_FRAME_TYPE_ID : Z := 0x3.
Definition SETTINGS_FRAME_TYPE_ID : Z := 0x4.
Definition PUSH_PROMISE_FRAME_TYPE_ID : Z := 0x5.
Definition GOAWAY_FRAME_TYPE_ID : Z := 0x7.
Definition MAX_PUSH_FRAME_TYPE_ID : Z := 0xd.
Definition PRIORITY_UPDATE_FRAME_REQUEST_TYPE_ID : Z := 0xf0700.
Definition PRIORITY_UPDATE_FRAME_PUSH_TYPE_ID : Z := 0xf0701.

Definition SETTINGS_QPACK_MAX_TABLE_CAPACITY : Z := 0x1.
Definition SETTINGS_MAX_FIELD_SECTION_SIZE : Z := 0x6.
Definition SETTINGS_QPACK_BLOCKED_STREAMS : Z := 0x7.
Definition SETTINGS_ENABLE_CONNECT_PROTOCOL : Z := 0x8.
Definition SETTINGS_H3_DATAGRAM_00 : Z := 0x276.
Definition SETTINGS_H3_DATAGRAM : Z := 0x33.
Definition MAX_SETTINGS_PAYLOAD_SIZE : Z := 256.

Module H3Frame.
Abbreviation Error := H3.Error.

(** The fields of SETTINGS. *)
Record settings := mk_settings {
  max_field_section_size : option Z;
  qpack_max_table_capacity : option Z;
  qpack_blocked_streams : option Z;
  connect_protocol_enabled : option Z;
  h3_datagram : option Z;
  grease : option (Z * Z);
  additional_settings : option (list (Z * Z));
  raw : option (list (Z * Z))
}.

Inductive t :=
| Data (payload : list Z)
| Headers (header_block : list Z)
| CancelPush (push_id : Z)
| Settings (s : settings)
| PushPromise (push_id : Z) (header_block : list Z)
| GoAway (id : Z)
| MaxPushId (push_id : Z)
| PriorityUpdateRequest (prioritized_element_id : Z) (priority_field_value : list Z)
| PriorityUpdatePush (prioritized_element_id : Z) (priority_field_value : list Z)
| Unknown (raw_type : Z) (payload : list Z).

(** *** Parsing *)
Section parse.
Import Octets.

(** [match identifier { ... }] in [parse_settings_frame], with [raw.push]. *)
Definition add_setting (identifier value : Z) (s : settings) : result Error settings :=
  let '(mk_settings a b c d e g more raw) := s in
  let raw := Some (default [] raw ++ [(identifier, value)]) in
  if identifier =? SETTINGS_QPACK_MAX_TABLE_CAPACITY then Ok (mk_settings a (Some value) c d e g more raw)
  else if identifier =? SETTINGS_MAX_FIELD_SECTION_SIZE then Ok (mk_settings (Some value) b c d e g more raw)
  else if identifier =? SETTINGS_QPACK_BLOCKED_STREAMS then Ok (mk_settings a b (Some value) d e g more raw)
  else if identifier =? SETTINGS_ENABLE_CONNECT_PROTOCOL then
    if 1 <? value then Err H3.SettingsError else Ok (mk_settings a b c (Some value) e g more raw)
  else if (identifier =? SETTINGS_H3_DATAGRAM_00) || (identifier =? SETTINGS_H3_DATAGRAM) then
    if 1 <? value then Err H3.SettingsError else Ok (mk_settings a b c d (Some value) g more raw)
  else if bool_decide (identifier ∈ [0x0; 0x2; 0x3; 0x4; 0x5]) then Err H3.SettingsError
  else Ok (mk_settings a b c d e g (Some (default [] more ++ [(identifier, value)])) raw).

(** A turn reads two bytes at least. *)
Fixpoint parse_settings_loop (fuel : nat) (settings_length : Z) (s : settings) : M octets Error settings :=
  match fuel with
  | O => panic
  | S fuel =>
      o ← gets off;
      if o <? settings_length then
        identifier ← get_varint;
        value ← get_varint;
        s ← lift (add_setting identifier value s);
        parse_settings_loop fuel settings_length s
      else mret s
  end.

Definition parse_settings_frame (settings_length : Z) : M octets Error t :=
  if MAX_SETTINGS_PAYLOAD_SIZE <? settings_length then fail H3.ExcessiveLoad
  else
    s ← parse_settings_loop (Z.to_nat MAX_SETTINGS_PAYLOAD_SIZE + 1) settings_length
      (mk_settings None None None None None None None (Some []));
    mret (Settings s).

Definition parse_push_promise (payload_length : Z) : M octets Error t :=
  push_id ← get_varint;
  n ← lift (varint_len push_id);
  header_block_length ← lift (usub payload_length n);
  header_block ← get_bytes header_block_length;
  mret (PushPromise push_id (to_vec header_block)).

Definition parse_priority_update (frame_type payload_length : Z) : M octets Error t :=
  prioritized_element_id ← get_varint;
  n ← lift (varint_len prioritized_element_id);
  priority_field_value_length ← lift (usub payload_length n);
  priority_field_value ← get_bytes priority_field_value_length;
  if frame_type =? PRIORITY_UPDATE_FRAME_REQUEST_TYPE_ID then
    mret (PriorityUpdateRequest prioritized_element_id (to_vec priority_field_value))
  else if frame_type =? PRIORITY_UPDATE_FRAME_PUSH_TYPE_ID then
    mret (PriorityUpdatePush prioritized_element_id (to_vec priority_field_value))
  else panic.

Definition parse (frame_type payload_length : Z) : M octets Error t :=
  if frame_type =? DATA_FRAME_TYPE_ID then b ← get_bytes payload_length; mret (Data (to_vec b))
  else if frame_type =? HEADERS_FRAME_TYPE_ID then b ← get_bytes payload_length; mret (Headers (to_vec b))
  else if frame_type =? CANCEL_PUSH_FRAME_TYPE_ID then v ← get_varint; mret (CancelPush v)
  else if frame_type =? SETTINGS_FRAME_TYPE_ID then parse_settings_frame payload_length
  else if frame_type =? PUSH_PROMISE_FRAME_TYPE_ID then parse_push_promise payload_length
  else if frame_type =? GOAWAY_FRAME_TYPE_ID then v ← get_varint; mret (GoAway v)
  else if frame_type =? MAX_PUSH_FRAME_TYPE_ID then v ← get_varint; mret (MaxPushId v)
  else if (frame_type =? PRIORITY_UPDATE_FRAME_REQUEST_TYPE_ID) || (frame_type =? PRIORITY_UPDATE_FRAME_PUSH_TYPE_ID) then
    parse_priority_update frame_type payload_length
  else b ← get_bytes payload_length; mret (Unknown frame_type (to_vec b)).

Definition from_bytes (frame_type payload_length : Z) (bytes : list Z) : result Error t :=
  (parse frame_type payload_length (with_slice bytes)).1.
End parse.

(** *** Writing *)
Section write.
Import OctetsMut.

(** [len += varint_len(id); len += varint_len(val)] *)
Definition add_len (id v len : Z) : result Error Z :=
  n ← varint_len id;
  len ← uadd len n;
  n ← varint_len v;
  uadd len n.
Definition opt_len (id : Z) (v : option Z) (len : Z) : result Error Z :=
  match v with Some v => add_len id v len | None => Ok len end.
Fixpoint pairs_len (vals : list (Z * Z)) (len : Z) : result Error Z :=
  match vals with
  | [] => Ok len
  | (id, v) :: vals => len ← add_len id v len; pairs_len vals len
  end.

Definition settings_len (s : settings) : result Error Z :=
  len ← opt_len SETTINGS_MAX_FIELD_SECTION_SIZE (max_field_section_size s) 0;
  len ← opt_len SETTINGS_QPACK_MAX_TABLE_CAPACITY (qpack_max_table_capacity s) len;
  len ← opt_len SETTINGS_QPACK_BLOCKED_STREAMS (qpack_blocked_streams s) len;
  len ← opt_len SETTINGS_ENABLE_CONNECT_PROTOCOL (connect_protocol_enabled s) len;
  len ← opt_len SETTINGS_H3_DATAGRAM_00 (h3_datagram s) len;
  len ← opt_len SETTINGS_H3_DATAGRAM (h3_datagram s) len;
  len ← pairs_len (option_list (grease s)) len;
  pairs_len (default [] (additional_settings s)) len.

Definition put_setting (id v : Z) : M octets Error unit := put_varint id;; put_varint v;; mret ().
Definition put_opt (id : Z) (v : option Z) : M octets Error unit :=
  match v with Some v => put_setting id v | None => mret () end.
Fixpoint put_pairs (vals : list (Z * Z)) : M octets Error unit :=
  match vals with
  | [] => mret ()
  | (id, v) :: vals => put_setting id v;; put_pairs vals
  end.

Definition put_settings (s : settings) : M octets Error unit :=
  len ← lift (settings_len s);
  put_varint SETTINGS_FRAME_TYPE_ID;;
  put_varint len;;
  put_opt SETTINGS_MAX_FIELD_SECTION_SIZE (max_field_section_size s);;
  put_opt SETTINGS_QPACK_MAX_TABLE_CAPACITY (qpack_max_table_capacity s);;
  put_opt SETTINGS_QPACK_BLOCKED_STREAMS (qpack_blocked_streams s);;
  put_opt SETTINGS_ENABLE_CONNECT_PROTOCOL (connect_protocol_enabled s);;
  put_opt SETTINGS_H3_DATAGRAM_00 (h3_datagram s);;
  put_opt SETTINGS_H3_DATAGRAM (h3_datagram s);;
  put_pairs (option_list (grease s));;
  put_pairs (default [] (additional_settings s)).

(** A type, a length and bytes. *)
Definition put_payload (ty : Z) (payload : list Z) : M octets Error unit :=
  put_varint ty;; put_varint (zlen payload);; put_bytes payload.
(** A type and one varint with its length. *)
Definition put_id (ty id : Z) : M octets Error unit :=
  put_varint ty;; n ← lift (varint_len id); put_varint n;; put_varint id;; mret ().
(** A type, a length, a varint and bytes. *)
Definition put_id_and (ty id : Z) (bytes : list Z) : M octets Error unit :=
  n ← lift (varint_len id);
  len ← lift (uadd n (zlen bytes));
  put_varint ty;; put_varint len;; put_varint id;; put_bytes bytes.

Definition put_frame (f : t) : M octets Error unit :=
  match f with
  | Data payload => put_payload DATA_FRAME_TYPE_ID payload
  | Headers header_block => put_payload HEADERS_FRAME_TYPE_ID header_block
  | CancelPush push_id => put_id CANCEL_PUSH_FRAME_TYPE_ID push_id
  | Settings s => put_settings s
  | PushPromise push_id header_block => put_id_and PUSH_PROMISE_FRAME_TYPE_ID push_id header_block
  | GoAway id => put_id GOAWAY_FRAME_TYPE_ID id
  | MaxPushId push_id => put_id MAX_PUSH_FRAME_TYPE_ID push_id
  | PriorityUpdateRequest id value => put_id_and PRIORITY_UPDATE_FRAME_REQUEST_TYPE_ID id value
  | PriorityUpdatePush id value => put_id_and PRIORITY_UPDATE_FRAME_PUSH_TYPE_ID id value
  | Unknown raw_type payload => put_payload raw_type payload
  end.

Definition to_bytes (f : t) : M octets Error Z :=
  before ← reads cap;
  put_frame f;;
  after ← reads cap;
  lift (usub before after).
End write.
End H3Frame.

(** ** The wire format *)

Section wire.
Import H3Frame.

Definition setting_of (id : Z) (v : option Z) : list (Z * Z) := (λ v, (id, v)) <$> option_list v.

(** The settings in the order in which they are written. *)
Definition setting_pairs (s : settings) : list (Z * Z) :=
  setting_of SETTINGS_MAX_FIELD_SECTION_SIZE (max_field_section_size s) ++
  setting_of SETTINGS_QPACK_MAX_TABLE_CAPACITY (qpack_max_table_capacity s) ++
  setting_of SETTINGS_QPACK_BLOCKED_STREAMS (qpack_blocked_streams s) ++
  setting_of SETTINGS_ENABLE_CONNECT_PROTOCOL (connect_protocol_enabled s) ++
  setting_of SETTINGS_H3_DATAGRAM_00 (h3_datagram s) ++
  setting_of SETTINGS_H3_DATAGRAM (h3_datagram s) ++
  option_list (grease s) ++ default [] (additional_settings s).

Definition enc_pairs (ps : list (Z * Z)) : list Z := ps ≫= λ p, enc_varint p.1 ++ enc_varint p.2.

Definition h3_type (f : t) : Z :=
  match f with
  | Data _ => DATA_FRAME_TYPE_ID
  | Headers _ => HEADERS_FRAME_TYPE_ID
  | CancelPush _ => CANCEL_PUSH_FRAME_TYPE_ID
  | Settings _ => SETTINGS_FRAME_TYPE_ID
  | PushPromise _ _ => PUSH_PROMISE_FRAME_TYPE_ID
  | GoAway _ => GOAWAY_FRAME_TYPE_ID
  | MaxPushId _ => MAX_PUSH_FRAME_TYPE_ID
  | PriorityUpdateRequest _ _ => PRIORITY_UPDATE_FRAME_REQUEST_TYPE_ID
  | PriorityUpdatePush _ _ => PRIORITY_UPDATE_FRAME_PUSH_TYPE_ID
  | Unknown raw_type _ => raw_type
  end.

Definition h3_payload (f : t) : list Z :=
  match f with
  | Data bs | Headers bs | Unknown _ bs => bs
  | CancelPush id | GoAway id | MaxPushId id => enc_varint id
  | Settings s => enc_pairs (setting_pairs s)
  | PushPromise id bs | PriorityUpdateRequest id bs | PriorityUpdatePush id bs => enc_varint id ++ bs
  end.

(** A frame on the wire: its type, the length of its payload, its payload. *)
Definition h3_wire (f : t) : list Z := enc_varint (h3_type f) ++ enc_varint (zlen (h3_payload f)) ++ h3_payload f.

(** The type identifiers with a meaning, and the settings with one or reserved. *)
Definition known_types : list Z := [0x0; 0x1; 0x3; 0x4; 0x5; 0x7; 0xd; 0xf0700; 0xf0701].
Definition known_settings : list Z := [0x1; 0x6; 0x7; 0x8; 0x276; 0x33; 0x0; 0x2; 0x3; 0x4; 0x5].

Definition is_custom (p : Z * Z) : Prop := p.1 ∉ known_settings.
#[global] Instance is_custom_dec p : Decision (is_custom p).
Proof. unfold is_custom. apply _. Defined.
Definition is_pair (p : Z * Z) : Prop := is_varint p.1 ∧ is_varint p.2.
Definition flag_ok (v : option Z) : Prop := match v with Some v => v <= 1 | None => True end.

Definition settings_ok (s : settings) : Prop :=
  Forall is_pair (setting_pairs s) ∧ flag_ok (connect_protocol_enabled s) ∧ flag_ok (h3_datagram s) ∧
  Forall is_custom (option_list (grease s) ++ default [] (additional_settings s)) ∧
  zlen (enc_pairs (setting_pairs s)) <= MAX_SETTINGS_PAYLOAD_SIZE.

Definition h3_frame_ok (f : t) : Prop :=
  is_varint (zlen (h3_payload f)) ∧
  match f with
  | Data _ | Headers _ => True
  | CancelPush id | GoAway id | MaxPushId id | PushPromise id _ | PriorityUpdateRequest id _ | PriorityUpdatePush id _ => is_varint id
  | Settings s => settings_ok s
  | Unknown raw_type _ => is_varint raw_type ∧ raw_type ∉ known_types
  end.

(** What the receiver sees: the settings that it does not know, GREASE among
    them, are the additional ones, and all of them are kept raw. *)
Definition received_settings (s : settings) : settings :=
  let more := option_list (grease s) ++ default [] (additional_settings s) in
  mk_settings (max_field_section_size s) (qpack_max_table_capacity s) (qpack_blocked_streams s) (connect_protocol_enabled s)
    (h3_datagram s) None (if bool_decide (more = []) then None else Some more) (Some (setting_pairs s)).
Definition received (f : t) : t := match f with Settings s => Settings (received_settings s) | f => f end.

(** *** Writing *)

Lemma enc_pairs_cons p ps : enc_pairs (p :: ps) = enc_varint p.1 ++ enc_varint p.2 ++ enc_pairs ps.
Proof. unfold enc_pairs. cbn. by rewrite <- app_assoc. Qed.
Lemma enc_pairs_app ps qs : enc_pairs (ps ++ qs) = enc_pairs ps ++ enc_pairs qs.
Proof. unfold enc_pairs. by rewrite bind_app. Qed.

(** The length of the pairs of varints so far fits the counter. *)
Lemma add_len_run (id v len : Z) : is_varint id → is_varint v → len + varint_size id + varint_size v <= u64_max →
  add_len id v len = Ok (len + varint_size id + varint_size v).
Proof.
  intros Hi Hv Hl. pose proof (varint_size_bounds v). unfold add_len, mbind, result_bind.
  by rewrite !varint_len_size, uadd_ok, uadd_ok by (done || lia).
Qed.

Lemma pairs_len_run ps len : Forall is_pair ps → 0 <= len → len + zlen (enc_pairs ps) <= u64_max →
  pairs_len ps len = Ok (len + zlen (enc_pairs ps)).
Proof.
  intros Hps. revert len. induction Hps as [|[id v] ps [Hi Hv] _ IH]; intros len H0 Hl; [cbn; f_equal; autorewrite with zlen; lia|].
  rewrite enc_pairs_cons in *. cbn [fst snd] in *. autorewrite with zlen in *. cbn [pairs_len].
  pose proof (varint_size_bounds id). pose proof (varint_size_bounds v). pose proof (zlen_nonneg (enc_pairs ps)).
  unfold mbind, result_bind. rewrite add_len_run by (done || lia). rewrite IH by lia. f_equal. lia.
Qed.

Lemma opt_len_pairs id v len : opt_len id v len = pairs_len (setting_of id v) len.
Proof. destruct v as [v|]; [|done]. cbn. unfold mbind, result_bind. by destruct (add_len id v len). Qed.

Lemma pairs_len_app ps qs len : pairs_len (ps ++ qs) len = (len ← pairs_len ps len; pairs_len qs len).
Proof.
  revert len. induction ps as [|[id v] ps IH]; intros len; [done|]. cbn. unfold mbind, result_bind in *.
  destruct (add_len id v len); [apply IH|done..].
Qed.

Lemma settings_len_run s : settings_ok s → settings_len s = Ok (zlen (enc_pairs (setting_pairs s))).
Proof.
  intros (Hp & _ & _ & _ & Hl). unfold MAX_SETTINGS_PAYLOAD_SIZE in Hl. transitivity (pairs_len (setting_pairs s) 0).
  - unfold settings_len, setting_pairs, mbind, result_bind.
    do 6 (rewrite opt_len_pairs, pairs_len_app; unfold mbind at 1, result_bind at 1; destruct (pairs_len _ _); [|done..]).
    by rewrite pairs_len_app.
  - rewrite pairs_len_run by (done || lia). f_equal. 
Qed.

Lemma put_setting_writes id v : is_varint id → is_varint v → writes (put_setting id v) (enc_varint id ++ enc_varint v).
Proof.
  intros Hi Hv. apply writes_bind; [by apply put_varint_writes|]. intros _. rewrite <- (app_nil_r (enc_varint v)).
  apply writes_bind; [by apply put_varint_writes|]. intros _. apply writes_ret.
Qed.

Lemma put_pairs_writes ps : Forall is_pair ps → writes (put_pairs ps) (enc_pairs ps).
Proof.
  induction 1 as [|[id v] ps [Hi Hv] _ IH]; [apply writes_ret|]. rewrite enc_pairs_cons, app_assoc.
  apply writes_bind; [by apply put_setting_writes|done].
Qed.

Lemma put_opt_writes id v : Forall is_pair (setting_of id v) → writes (put_opt id v) (enc_pairs (setting_of id v)).
Proof.
  destruct v as [v|]; [|intros _; apply writes_ret]. intros [[? ?] _]%Forall_cons.
  change (enc_pairs _) with ((enc_varint id ++ enc_varint v) ++ []). rewrite app_nil_r. by apply put_setting_writes.
Qed.

Lemma put_settings_writes s : settings_ok s → writes (put_settings s) (h3_wire (Settings s)).
Proof.
  intros Hs. pose proof (settings_len_run s Hs) as Hlen. destruct Hs as (Hp & _ & _ & _ & Hl).
  unfold MAX_SETTINGS_PAYLOAD_SIZE in Hl. intros pre old rest Hold. unfold put_settings.
  rewrite (run_bind_lift _ _ _ _ Hlen). revert pre old rest Hold. unfold h3_wire. cbn [h3_type h3_payload].
  pose proof (zlen_nonneg (enc_pairs (setting_pairs s))).
  apply writes_bind; [apply put_varint_writes; unfold is_varint, SETTINGS_FRAME_TYPE_ID; lia|]. intros _.
  apply writes_bind; [apply put_varint_writes; unfold is_varint; lia|]. intros _. clear Hl Hlen.
  unfold setting_pairs in *. rewrite !Forall_app in Hp. destruct Hp as (?&?&?&?&?&?&?&?). rewrite !enc_pairs_app.
  do 6 (apply writes_bind; [by apply put_opt_writes|intros _]).
  apply writes_bind; [by apply put_pairs_writes|]. intros _. by apply put_pairs_writes.
Qed.

Lemma put_payload_writes ty bs : is_varint ty → is_varint (zlen bs) → writes (put_payload ty bs) (enc_varint ty ++ enc_varint (zlen bs) ++ bs).
Proof. intros. do 2 (apply writes_bind; [by apply put_varint_writes|intros _]). apply put_bytes_writes. Qed.

Lemma is_varint_size v : is_varint (varint_size v).
Proof. pose proof (varint_size_bounds v). unfold is_varint. lia. Qed.

Lemma put_id_writes ty id : is_varint ty → is_varint id →
  writes (put_id ty id) (enc_varint ty ++ enc_varint (zlen (enc_varint id)) ++ enc_varint id).
Proof.
  intros. rewrite zlen_enc_varint. apply writes_bind; [by apply put_varint_writes|]. intros _ pre old rest Hold.
  rewrite (run_bind_lift _ _ _ _ (varint_len_size id ltac:(done))). revert pre old rest Hold.
  apply writes_bind; [apply put_varint_writes, is_varint_size|]. intros _. rewrite <- (app_nil_r (enc_varint id)).
  apply writes_bind; [by apply put_varint_writes|]. intros _. apply writes_ret.
Qed.

Lemma put_id_and_writes ty id bs : is_varint ty → is_varint id → is_varint (zlen (enc_varint id ++ bs)) →
  writes (put_id_and ty id bs) (enc_varint ty ++ enc_varint (zlen (enc_varint id ++ bs)) ++ enc_varint id ++ bs).
Proof.
  rewrite zlen_app, zlen_enc_varint. intros ? ? Hl pre old rest Hold. unfold put_id_and.
  rewrite (run_bind_lift _ _ _ _ (varint_len_size id ltac:(done))).
  rewrite (run_bind_lift _ _ _ (varint_size id + zlen bs)) by (apply uadd_ok; unfold is_varint in Hl; lia).
  revert pre old rest Hold.
  do 3 (apply writes_bind; [by apply put_varint_writes|intros _]). apply put_bytes_writes.
Qed.

Lemma put_h3_frame_writes f : h3_frame_ok f → writes (put_frame f) (h3_wire f).
Proof.
  assert (∀ ty, 0 <= ty <= 0xf0701 → is_varint ty) as Hty by (unfold is_varint; lia).
  intros [Hl Hok]. destruct f; cbn [put_frame]; unfold h3_wire; cbn [h3_type h3_payload] in *.
  4: by apply put_settings_writes.
  9: by apply put_payload_writes; [apply Hok|].
  all: match goal with
       | |- writes (put_payload _ _) _ => apply put_payload_writes; [|exact Hl]
       | |- writes (put_id _ _) _ => apply put_id_writes; [|exact Hok]
       | |- writes (put_id_and _ _ _) _ => apply put_id_and_writes; [|exact Hok|exact Hl]
       end; apply Hty; by vm_compute.
Qed.

Lemma to_bytes_run f pre old rest : h3_frame_ok f → zlen old = zlen (h3_wire f) →
  to_bytes f (mk_octets (pre ++ old ++ rest) (zlen pre)) =
    (Ok (zlen (h3_wire f)), mk_octets (pre ++ h3_wire f ++ rest) (zlen pre + zlen (h3_wire f))).
Proof.
  intros Hok Hold. unfold to_bytes. pose proof (zlen_nonneg rest). pose proof (zlen_nonneg (h3_wire f)).
  rewrite (run_bind_ok _ _ _ _ _ (cap_run (E:=Error) pre old rest)).
  destruct (put_h3_frame_writes f Hok pre old rest Hold) as [a Ha]. rewrite (run_bind_ok _ _ _ _ _ Ha).
  rewrite (run_bind_reads _ _ _ (zlen rest)).
  - unfold lift. rewrite usub_ok by lia. do 2 f_equal. lia.
  - unfold OctetsMut.cap. cbn [o_buf o_off]. rewrite usub_ok; rewrite !zlen_app; [f_equal|]; lia.
Qed.
End wire.

(** *** Reading *)

Section unwire.
Import H3Frame.

Fixpoint add_all (ps : list (Z * Z)) (s : settings) : result Error settings :=
  match ps with
  | [] => Ok s
  | (id, v) :: ps => s ← add_setting id v s; add_all ps s
  end.

Lemma add_all_app ps qs s : add_all (ps ++ qs) s = (s ← add_all ps s; add_all qs s).
Proof.
  revert s. induction ps as [|[id v] ps IH]; intros s; [done|]. cbn. unfold mbind, result_bind in *.
  destruct (add_setting id v s); [apply IH|done..].
Qed.

Lemma parse_settings_loop_run ps fuel pre rest s s' : (length ps < fuel)%nat → Forall is_pair ps → add_all ps s = Ok s' →
  parse_settings_loop fuel (zlen pre + zlen (enc_pairs ps)) s (mk_octets (pre ++ enc_pairs ps ++ rest) (zlen pre)) =
    (Ok s', mk_octets (pre ++ enc_pairs ps ++ rest) (zlen pre + zlen (enc_pairs ps))).
Proof.
  revert fuel pre s. induction ps as [|[id v] ps IH]; intros [|fuel] pre s Hf Hps Hadd; try (cbn in Hf; lia).
  - cbn [parse_settings_loop add_all] in *. injection Hadd as ->. rewrite run_bind_gets. unfold Octets.off. cbn [o_off].
    change (zlen (enc_pairs [])) with 0. by rewrite Z.add_0_r, Z.ltb_irrefl.
  - apply Forall_cons in Hps as [[Hi Hv] Hps]. cbn [parse_settings_loop add_all fst snd] in *. rewrite run_bind_gets. unfold Octets.off. cbn [o_off].
    rewrite enc_pairs_cons. cbn [fst snd]. pose proof (varint_size_bounds id). pose proof (zlen_nonneg (enc_varint v ++ enc_pairs ps)).
    rewrite (proj2 (Z.ltb_lt _ _)) by (rewrite zlen_app, zlen_enc_varint; lia). rewrite <- !app_assoc.
    rewrite (run_bind_ok _ _ _ _ _ (get_varint_parses (E:=Error) id Hi pre _)). rewrite (app_assoc pre (enc_varint id)), <- (zlen_app pre (enc_varint id)).
    rewrite (run_bind_ok _ _ _ _ _ (get_varint_parses (E:=Error) v Hv _ _)). rewrite (app_assoc (pre ++ enc_varint id) (enc_varint v)), <- (zlen_app (pre ++ enc_varint id) (enc_varint v)).
    unfold mbind at 1, result_bind in Hadd. destruct (add_setting id v s) as [s1|?|] eqn:Hs1; [|done..].
    rewrite (run_bind_lift _ _ _ _ eq_refl).
    replace (zlen pre + zlen (enc_varint id ++ enc_varint v ++ enc_pairs ps))
      with (zlen ((pre ++ enc_varint id) ++ enc_varint v) + zlen (enc_pairs ps)) by (rewrite !zlen_app; lia).
    apply IH; [cbn in Hf; lia|done..].
Qed.

Lemma zlen_pairs ps : 2 * Z.of_nat (length ps) <= zlen (enc_pairs ps).
Proof.
  induction ps as [|p ps IH]; [done|]. rewrite enc_pairs_cons, !zlen_app, !zlen_enc_varint.
  pose proof (varint_size_bounds p.1). pose proof (varint_size_bounds p.2). cbn [length]. lia.
Qed.

Lemma add_custom ps a b c d e g more r : Forall is_custom ps →
  add_all ps (mk_settings a b c d e g more (Some r)) =
    Ok (mk_settings a b c d e g (if bool_decide (ps = []) then more else Some (default [] more ++ ps)) (Some (r ++ ps))).
Proof.
  intros Hps. revert more r. induction Hps as [|[id v] ps Hid _ IH]; intros more r; [by rewrite bool_decide_true, app_nil_r by done|].
  unfold is_custom, known_settings in Hid. cbn [fst] in Hid. rewrite !not_elem_of_cons in Hid. cbn [add_all]. unfold mbind at 1, result_bind, add_setting.
  unfold SETTINGS_QPACK_MAX_TABLE_CAPACITY, SETTINGS_MAX_FIELD_SECTION_SIZE, SETTINGS_QPACK_BLOCKED_STREAMS,
    SETTINGS_ENABLE_CONNECT_PROTOCOL, SETTINGS_H3_DATAGRAM_00, SETTINGS_H3_DATAGRAM.
  rewrite !(proj2 (Z.eqb_neq id _)) by tauto. cbn [orb].
  rewrite bool_decide_false by (rewrite !elem_of_cons, elem_of_nil; tauto). rewrite IH. cbn [default from_option]. unfold Datatypes.id.
  rewrite (bool_decide_false (_ :: _ = [])) by done. rewrite <- !app_assoc. cbn [app].
  case_bool_decide; [subst ps|]; by rewrite ?app_nil_r.
Qed.

Definition empty_settings : settings := mk_settings None None None None None None None (Some []).

(** One known setting, absent so far. *)
Ltac known_setting v :=
  destruct v as [v|]; intros; [|cbn; by rewrite app_nil_r];
  match goal with |- context [setting_of ?id (Some v) ++ ?rest] => change (setting_of id (Some v) ++ rest) with ((id, v) :: rest) end;
  cbn [add_all]; unfold add_setting;
  rewrite ?(proj2 (Z.ltb_ge 1 v)) by done; reflexivity.

Lemma add_max_size v rest b c d e g m r :
  add_all (setting_of SETTINGS_MAX_FIELD_SECTION_SIZE v ++ rest) (mk_settings None b c d e g m (Some r)) =
  add_all rest (mk_settings v b c d e g m (Some (r ++ setting_of SETTINGS_MAX_FIELD_SECTION_SIZE v))).
Proof. known_setting v. Qed.
Lemma add_capacity v rest a c d e g m r :
  add_all (setting_of SETTINGS_QPACK_MAX_TABLE_CAPACITY v ++ rest) (mk_settings a None c d e g m (Some r)) =
  add_all rest (mk_settings a v c d e g m (Some (r ++ setting_of SETTINGS_QPACK_MAX_TABLE_CAPACITY v))).
Proof. known_setting v. Qed.
Lemma add_blocked v rest a b d e g m r :
  add_all (setting_of SETTINGS_QPACK_BLOCKED_STREAMS v ++ rest) (mk_settings a b None d e g m (Some r)) =
  add_all rest (mk_settings a b v d e g m (Some (r ++ setting_of SETTINGS_QPACK_BLOCKED_STREAMS v))).
Proof. known_setting v. Qed.
Lemma add_connect v rest a b c e g m r : flag_ok v →
  add_all (setting_of SETTINGS_ENABLE_CONNECT_PROTOCOL v ++ rest) (mk_settings a b c None e g m (Some r)) =
  add_all rest (mk_settings a b c v e g m (Some (r ++ setting_of SETTINGS_ENABLE_CONNECT_PROTOCOL v))).
Proof. known_setting v. Qed.
Lemma add_datagram id v e rest a b c d g m r : flag_ok v → e = None ∨ e = v →
  id = SETTINGS_H3_DATAGRAM_00 ∨ id = SETTINGS_H3_DATAGRAM →
  add_all (setting_of id v ++ rest) (mk_settings a b c d e g m (Some r)) =
  add_all rest (mk_settings a b c d v g m (Some (r ++ setting_of id v))).
Proof.
  intros Hv He Hid. destruct v as [v|]; [|cbn; rewrite app_nil_r; by destruct He as [-> | ->]].
  change (setting_of id (Some v) ++ rest) with ((id, v) :: rest). cbn [add_all]. unfold add_setting.
  rewrite (proj2 (Z.ltb_ge 1 v)) by done. by destruct Hid as [-> | ->].
Qed.

Lemma add_all_received s : settings_ok s → add_all (setting_pairs s) empty_settings = Ok (received_settings s).
Proof.
  intros (_ & Hc & Hd & Hx & _). unfold received_settings, setting_pairs, empty_settings.
  rewrite add_max_size, add_capacity, add_blocked, add_connect, add_datagram, add_datagram by tauto.
  rewrite add_custom by done. cbn [default from_option]. by rewrite <- !app_assoc.
Qed.

Lemma get_bytes_to_vec {A} (c : list Z → A) bs :
  parses (E:=Error) (b ← Octets.get_bytes (zlen bs); mret (c (Octets.to_vec b))) bs (c bs).
Proof. eapply parses_bind_ret; [by apply get_bytes_parses|done]. Qed.
Lemma get_varint_into {A} (c : Z → A) id : is_varint id → parses (E:=Error) (v ← Octets.get_varint; mret (c v)) (enc_varint id) (c id).
Proof. intros. by eapply parses_bind_ret; [by apply get_varint_parses|]. Qed.

(** A varint and the bytes that the payload length leaves. *)
Lemma get_id_and_bytes {A} (k : Z → octets → M octets Error A) id bs a : is_varint id →
  k id (mk_octets bs 0) = mret a →
  parses (v ← Octets.get_varint; n ← lift (varint_len v); m ← lift (usub (zlen (enc_varint id ++ bs)) n); b ← Octets.get_bytes m; k v b)
    (enc_varint id ++ bs) a.
Proof.
  intros Hi Hk. eapply parses_bind; [by apply get_varint_parses|]. rewrite zlen_app, zlen_enc_varint.
  eapply parses_lift; [by apply varint_len_size|]. pose proof (zlen_nonneg bs).
  eapply parses_lift; [apply usub_ok; lia|]. eapply parses_bind_ret; [apply get_bytes_parses; lia|done].
Qed.

Lemma parse_settings_parses s : settings_ok s →
  parse_settings_frame (zlen (enc_pairs (setting_pairs s))) (Octets.with_slice (enc_pairs (setting_pairs s))) =
  (Ok (Settings (received_settings s)), mk_octets (enc_pairs (setting_pairs s)) (zlen (enc_pairs (setting_pairs s)))).
Proof.
  intros Hs. pose proof (add_all_received s Hs) as Hadd. destruct Hs as (Hp & _ & _ & _ & Hl).
  unfold parse_settings_frame. rewrite (proj2 (Z.ltb_ge _ _)) by done. pose proof (zlen_pairs (setting_pairs s)).
  pose proof (parse_settings_loop_run (setting_pairs s) (Z.to_nat MAX_SETTINGS_PAYLOAD_SIZE + 1) [] [] empty_settings _
    ltac:(unfold MAX_SETTINGS_PAYLOAD_SIZE in *; lia) Hp Hadd) as Hrun.
  rewrite app_nil_r in Hrun. rewrite (run_bind_ok _ _ _ _ _ Hrun). by rewrite run_ret.
Qed.

Lemma unknown_type ty : ty ∉ known_types → Forall (λ k, ty =? k = false) known_types.
Proof. intros Hty. apply Forall_forall. intros k Hk. apply Z.eqb_neq. by intros ->. Qed.

Lemma parse_parses f : h3_frame_ok f → (∀ s, f ≠ Settings s) → parses (parse (h3_type f) (zlen (h3_payload f))) (h3_payload f) (received f).
Proof.
  intros [Hl Hok] Hs. destruct f; cbn [h3_type h3_payload received] in *; try (by destruct (Hs s)).
  1, 2: apply get_bytes_to_vec.
  1, 3, 4: by apply get_varint_into.
  1, 2, 3: by apply (get_id_and_bytes (λ id b, mret _)).
  destruct Hok as [_ Hu]. apply unknown_type in Hu. unfold known_types in Hu. rewrite !Forall_cons in Hu.
  destruct Hu as (?&?&?&?&?&?&?&?&?&_). unfold parse.
  unfold DATA_FRAME_TYPE_ID, HEADERS_FRAME_TYPE_ID, CANCEL_PUSH_FRAME_TYPE_ID, SETTINGS_FRAME_TYPE_ID, PUSH_PROMISE_FRAME_TYPE_ID,
    GOAWAY_FRAME_TYPE_ID, MAX_PUSH_FRAME_TYPE_ID, PRIORITY_UPDATE_FRAME_REQUEST_TYPE_ID, PRIORITY_UPDATE_FRAME_PUSH_TYPE_ID.
  repeat match goal with H : (raw_type =? _) = false |- _ => rewrite H; clear H end. cbn [orb]. apply get_bytes_to_vec.
Qed.

Lemma from_bytes_run f : h3_frame_ok f → from_bytes (h3_type f) (zlen (h3_payload f)) (h3_payload f) = Ok (received f).
Proof.
  intros Hok. unfold from_bytes. destruct f as [| | |s| | | | | |];
    try (pose proof (parse_parses _ Hok ltac:(done) [] []) as Hp; rewrite app_nil_r in Hp;
         change (mk_octets ([] ++ ?b) (zlen [])) with (Octets.with_slice b) in Hp; by rewrite Hp).
  destruct Hok as [_ Hok]. cbn [h3_type h3_payload]. 
  assert (∀ n, parse SETTINGS_FRAME_TYPE_ID n = parse_settings_frame n) as -> by done. by rewrite parse_settings_parses.
Qed.
End unwire.

(** C26. HTTP/3 frames round-trip.  Every frame within the limits of the format
    is written by [to_bytes], wherever the cursor stands, as its type, the
    length of its payload and the payload, and the number returned is the
    number of bytes written; from the type, the length and the payload
    [from_bytes] makes the same frame again, except that in SETTINGS the
    receiver finds GREASE among the additional settings and keeps all settings
    raw, in the order in which they were sent. *)
Theorem h3_frame_roundtrip f : h3_frame_ok f →
  (∀ pre old rest, zlen old = zlen (h3_wire f) →
    H3Frame.to_bytes f (mk_octets (pre ++ old ++ rest) (zlen pre)) =
      (Ok (zlen (h3_wire f)), mk_octets (pre ++ h3_wire f ++ rest) (zlen pre + zlen (h3_wire f)))) ∧
  H3Frame.from_bytes (h3_type f) (zlen (h3_payload f)) (h3_payload f) = Ok (received f).
Proof. intros Hok. split; [intros; by apply to_bytes_run|by apply from_bytes_run]. Qed.

(** *** Arbitrary input *)

Section any_input.
Import H3Frame.

Definition id_ok (f : t) : Prop :=
  match f with
  | CancelPush id | GoAway id | MaxPushId id | PushPromise id _ | PriorityUpdateRequest id _ | PriorityUpdatePush id _ => is_varint id
  | _ => True
  end.
Definition bytes_of (f : t) : list Z :=
  match f with
  | Data bs | Headers bs | Unknown _ bs | PushPromise _ bs | PriorityUpdateRequest _ bs | PriorityUpdatePush _ bs => bs
  | _ => []
  end.

(** What a parser may hand on: values in range, no setting that is reserved,
    and no more bytes than the payload had. *)
Definition settings_parsed (s : settings) : Prop :=
  flag_ok (connect_protocol_enabled s) ∧ flag_ok (h3_datagram s) ∧ grease s = None ∧
  Forall is_custom (default [] (additional_settings s)) ∧
  ∃ r, raw s = Some r ∧ Forall is_pair r ∧ Forall (λ p, p.1 ∉ [0x0; 0x2; 0x3; 0x4; 0x5]) r.
Definition h3_parsed (ty len : Z) (f : t) : Prop :=
  h3_type f = ty ∧ id_ok f ∧ bytes_ok (bytes_of f) ∧ zlen (bytes_of f) <= len ∧
  (∀ s, f = Settings s → settings_parsed s ∧ 2 * zlen (default [] (raw s)) <= len).
Definition refusal (e : Error) : Prop := e = H3.BufferTooShort ∨ e = H3.ExcessiveLoad ∨ e = H3.SettingsError.

Definition reserved_settings : list Z := [0x0; 0x2; 0x3; 0x4; 0x5].
Definition raw_ok (r : list (Z * Z)) : Prop := Forall is_pair r ∧ Forall (λ p, p.1 ∉ reserved_settings) r.

Lemma raw_ok_snoc r id v : raw_ok r → is_varint id → is_varint v → id ∉ reserved_settings → raw_ok (r ++ [(id, v)]).
Proof. intros [? ?] ? ? ?. split; by apply Forall_app; split; [|apply Forall_singleton]. Qed.

Lemma add_setting_parsed id v s : is_varint id → is_varint v → settings_parsed s →
  match add_setting id v s with
  | Ok s' => settings_parsed s' ∧ zlen (default [] (raw s')) = zlen (default [] (raw s)) + 1
  | Err e => refusal e
  | Panic => False
  end.
Proof.
  intros Hi Hv (Hc & Hd & Hg & Hm & r & Hr & Hok). destruct s as [a b c d e g more raw]. cbn in Hc, Hd, Hg, Hm, Hr. subst.
  assert (∀ a b c d e more, flag_ok d → flag_ok e → Forall is_custom (default [] more) → bool_decide (id ∈ reserved_settings) = false →
    settings_parsed (mk_settings a b c d e None more (Some (r ++ [(id, v)]))) ∧
    zlen (r ++ [(id, v)]) = zlen r + 1) as Hnew.
  { intros ??????????%bool_decide_eq_false_1. rewrite zlen_app. split; [|done]. split_and!; try done.
    exists (r ++ [(id, v)]). split; [done|]. by apply raw_ok_snoc. }
  unfold add_setting, SETTINGS_QPACK_MAX_TABLE_CAPACITY, SETTINGS_MAX_FIELD_SECTION_SIZE, SETTINGS_QPACK_BLOCKED_STREAMS,
    SETTINGS_ENABLE_CONNECT_PROTOCOL, SETTINGS_H3_DATAGRAM_00, SETTINGS_H3_DATAGRAM in *.
  destruct (Z.eqb_spec id 1) as [-> |?]; [by apply Hnew|]. destruct (Z.eqb_spec id 6) as [-> |?]; [by apply Hnew|].
  destruct (Z.eqb_spec id 7) as [-> |?]; [by apply Hnew|].
  destruct (Z.eqb_spec id 8) as [-> |?]; [destruct (Z.ltb_spec 1 v); [right; by right|by apply Hnew]|].
  destruct (Z.eqb_spec id 0x276) as [-> |?]; [cbn [orb]; destruct (Z.ltb_spec 1 v); [right; by right|by apply Hnew]|].
  destruct (Z.eqb_spec id 0x33) as [-> |?]; [cbn [orb]; destruct (Z.ltb_spec 1 v); [right; by right|by apply Hnew]|].
  cbn [orb]. destruct (bool_decide (id ∈ [0x0; 0x2; 0x3; 0x4; 0x5])) eqn:Hres; [right; by right|].
  apply Hnew; [done..| |done].
  apply Forall_app. split; [done|]. apply Forall_singleton. unfold is_custom, known_settings. cbn [fst].
  apply bool_decide_eq_false_1 in Hres. rewrite !not_elem_of_cons in *. tauto.
Qed.

Lemma parse_settings_loop_safe fuel len s o : octets_wf o → zlen (o_buf o) = len → len - o_off o < Z.of_nat fuel →
  settings_parsed s → 2 * zlen (default [] (raw s)) <= o_off o →
  wp (parse_settings_loop fuel len s) (λ s' _, settings_parsed s' ∧ 2 * zlen (default [] (raw s')) <= len) (λ e _, refusal e) o.
Proof.
  revert s o. induction fuel as [|fuel IH]; intros s o Hwf Hlen Hf Hs Hr; [destruct Hwf; lia|]. cbn [parse_settings_loop].
  apply wp_bind, wp_gets. unfold Octets.off. destruct (Z.ltb_spec (o_off o) len); [|apply wp_ret; destruct Hwf; split; [done|lia]].
  apply wp_bind. eapply wp_mono; [by apply wp_get_varint| |intros e o' [-> _]; by left]. intros id o1 ((Hb1 & ? & Hwf1) & ? & Hi).
  apply wp_bind. eapply wp_mono; [by apply wp_get_varint| |intros e o' [-> _]; by left]. intros v o2 ((Hb2 & ? & Hwf2) & ? & Hv).
  pose proof (add_setting_parsed id v s Hi Hv Hs) as Hadd. apply wp_bind. unfold wp, lift. destruct (add_setting id v s) as [s'| |]; [|done..].
  destruct Hadd as [Hs' Hl']. apply IH; [done|congruence|lia|done|lia].
Qed.

Lemma wp_from_get_bytes n (c : list Z → t) ty o : octets_wf o → 0 <= n <= zlen (o_buf o) → (∀ bs, h3_type (c bs) = ty ∧ id_ok (c bs) ∧ bytes_of (c bs) = bs) →
  (∀ bs s, c bs ≠ Settings s) →
  wp (b ← Octets.get_bytes n; mret (c (Octets.to_vec b))) (λ f _, h3_parsed ty (zlen (o_buf o)) f) (λ e _, refusal e) o.
Proof.
  intros Hwf Hn Hc Hs. apply wp_bind. eapply wp_mono; [apply wp_get_bytes; [done|lia]| |intros e o' [-> _]; by left].
  intros b o1 (_ & _ & [_ Hb] & Hoff & _ & Hl). apply wp_ret. destruct (whole_buf b Hoff) as [_ ->].
  destruct (Hc (o_buf b)) as (Ht & Hi & Hbs). unfold h3_parsed. rewrite Hbs. split_and!; [done..|lia|]. intros s Heq. by destruct (Hs _ _ Heq).
Qed.

(** The type, a varint and what is left of the payload. *)
Lemma wp_id_and_bytes (k : Z → octets → M octets Error t) (Q : t → Prop) o : octets_wf o → o_off o = 0 →
  (∀ id bs o', is_varint id → bytes_ok bs → zlen bs <= zlen (o_buf o) → wp (k id (mk_octets bs 0)) (λ f _, Q f) (λ e _, refusal e) o') →
  wp (v ← Octets.get_varint; n ← lift (varint_len v); m ← lift (usub (zlen (o_buf o)) n); b ← Octets.get_bytes m; k v b)
    (λ f _, Q f) (λ e _, refusal e) o.
Proof.
  intros Hwf Ho Hk. apply wp_bind. eapply wp_mono; [by apply wp_get_varint_size| |intros e o' [-> _]; by left].
  intros id o1 ((Hb1 & ? & Hwf1) & ? & Hi). pose proof (varint_size_bounds id). apply wp_bind. eapply wp_lift; [by apply varint_len_size|].
  assert (o_off o1 <= zlen (o_buf o)) by (rewrite <- Hb1; apply Hwf1).
  apply wp_bind. eapply wp_lift; [apply usub_ok; lia|]. apply wp_bind.
  eapply wp_mono; [apply wp_get_bytes; [done|lia]| |intros e o' [-> _]; by left].
  intros b o2 (_ & _ & [_ Hb] & Hoff & _ & Hl). destruct b as [bs off]. cbn [o_buf o_off] in *. subst off. apply Hk; [done..|lia].
Qed.

Lemma parse_safe ty o : octets_wf o → o_off o = 0 →
  wp (parse ty (zlen (o_buf o))) (λ f _, h3_parsed ty (zlen (o_buf o)) f) (λ e _, refusal e) o.
Proof.
  intros Hwf Ho. pose proof (zlen_nonneg (o_buf o)). unfold parse.
  assert (∀ (c : Z → t) ty, (∀ id, h3_type (c id) = ty ∧ (is_varint id → id_ok (c id)) ∧ bytes_of (c id) = []) → (∀ id s, c id ≠ Settings s) →
    wp (v ← Octets.get_varint; mret (c v)) (λ f _, h3_parsed ty (zlen (o_buf o)) f) (λ e _, refusal e) o) as Hid.
  { intros c ty' Hc Hs. apply wp_bind. eapply wp_mono; [by apply wp_get_varint| |intros e o' [-> _]; by left].
    intros v o1 (_ & _ & Hv). apply wp_ret. destruct (Hc v) as (? & ? & Hbs). unfold h3_parsed. rewrite Hbs.
    split_and!; [done|auto|constructor|done|]. intros s Heq. by destruct (Hs _ _ Heq). }
  assert (∀ (c : Z → list Z → t) ty, (∀ id bs, h3_type (c id bs) = ty ∧ (is_varint id → id_ok (c id bs)) ∧ bytes_of (c id bs) = bs) →
    (∀ id bs s, c id bs ≠ Settings s) → ∀ id bs, is_varint id → bytes_ok bs → zlen bs <= zlen (o_buf o) →
    h3_parsed ty (zlen (o_buf o)) (c id bs)) as Hand.
  { intros c ty' Hc Hs id bs Hi Hb Hl. destruct (Hc id bs) as (? & ? & Hbs). unfold h3_parsed. rewrite Hbs.
    split_and!; [done|auto|done|done|]. intros s Heq. by destruct (Hs _ _ _ Heq). }
  destruct (Z.eqb_spec ty DATA_FRAME_TYPE_ID) as [-> |?]; [apply (wp_from_get_bytes _ Data); [done|lia|done|done]|].
  destruct (Z.eqb_spec ty HEADERS_FRAME_TYPE_ID) as [-> |?]; [apply (wp_from_get_bytes _ Headers); [done|lia|done|done]|].
  destruct (Z.eqb_spec ty CANCEL_PUSH_FRAME_TYPE_ID) as [-> |?]; [by apply (Hid CancelPush)|].
  destruct (Z.eqb_spec ty SETTINGS_FRAME_TYPE_ID) as [-> |?].
  { unfold parse_settings_frame. destruct (Z.ltb_spec MAX_SETTINGS_PAYLOAD_SIZE (zlen (o_buf o))); [right; by left|].
    unfold MAX_SETTINGS_PAYLOAD_SIZE in *. apply wp_bind.
    eapply wp_mono; [apply (parse_settings_loop_safe _ (zlen (o_buf o)) empty_settings); [done|done|lia| |by rewrite Ho]| |done].
    - split_and!; try done. by exists [].
    - intros s o' [Hs Hl]. apply wp_ret. unfold h3_parsed. split_and!; [done|done|constructor|done|]. by intros s' [= <-]. }
  destruct (Z.eqb_spec ty PUSH_PROMISE_FRAME_TYPE_ID) as [-> |?].
  { apply (wp_id_and_bytes (λ id b, mret (PushPromise id (Octets.to_vec b)))); [done..|]. intros id bs o' Hi Hb Hl. apply wp_ret. by apply (Hand PushPromise). }
  destruct (Z.eqb_spec ty GOAWAY_FRAME_TYPE_ID) as [-> |?]; [by apply (Hid GoAway)|].
  destruct (Z.eqb_spec ty MAX_PUSH_FRAME_TYPE_ID) as [-> |?]; [by apply (Hid MaxPushId)|].
  destruct (Z.eqb_spec ty PRIORITY_UPDATE_FRAME_REQUEST_TYPE_ID) as [-> |?]; [|destruct (Z.eqb_spec ty PRIORITY_UPDATE_FRAME_PUSH_TYPE_ID) as [-> |?]]; cbn [orb].
  - apply (wp_id_and_bytes (λ id b, mret (PriorityUpdateRequest id (Octets.to_vec b)))); [done..|].
    intros id bs o' Hi Hb Hl. apply wp_ret. by apply (Hand PriorityUpdateRequest).
  - apply (wp_id_and_bytes (λ id b, mret (PriorityUpdatePush id (Octets.to_vec b)))); [done..|].
    intros id bs o' Hi Hb Hl. apply wp_ret. by apply (Hand PriorityUpdatePush).
  - apply (wp_from_get_bytes _ (Unknown ty)); [done|lia|done|done].
Qed.
End any_input.

(** C31. Parsing an HTTP/3 frame from arbitrary bytes never panics: the payload
    of any type gives a frame of that type whose fields are in range, whose
    bytes are bytes of the payload and whose settings are neither reserved nor
    more than the payload can hold, or one of three errors. *)
Theorem h3_frames_safe ty bytes : bytes_ok bytes →
  match H3Frame.from_bytes ty (zlen bytes) bytes with
  | Ok f => h3_parsed ty (zlen bytes) f
  | Err e => refusal e
  | Panic => False
  end.
Proof.
  intros Hb. unfold H3Frame.from_bytes.
  pose proof (parse_safe ty (Octets.with_slice bytes) ltac:(split; [split; [done|apply zlen_nonneg]|done]) eq_refl) as Hp.
  unfold wp in Hp. cbn [o_buf Octets.with_slice] in Hp. by destruct (H3Frame.parse _ _ _) as [[] ?].
Qed.

Lemma h3_frame_roundtrip_witness :
  let f := H3Frame.Settings (H3Frame.mk_settings (Some 16384) None (Some 16) (Some 1) (Some 1) (Some (64, 9)) None None) in
  (∀ pre old rest, zlen old = zlen (h3_wire f) →
    H3Frame.to_bytes f (mk_octets (pre ++ old ++ rest) (zlen pre)) =
      (Ok (zlen (h3_wire f)), mk_octets (pre ++ h3_wire f ++ rest) (zlen pre + zlen (h3_wire f)))) ∧
  H3Frame.from_bytes (h3_type f) (zlen (h3_payload f)) (h3_payload f) = Ok (received f).
Proof.
  intros f. apply (h3_frame_roundtrip f). split; [split; vm_compute; discriminate|]. split_and!.
  - repeat (apply Forall_cons; split; [split; split; vm_compute; discriminate|]). apply Forall_nil_2.
  - by vm_compute.
  - by vm_compute.
  - apply Forall_singleton. apply (bool_decide_unpack (is_custom (64, 9))). by vm_compute.
  - by vm_compute.
Defined.

Lemma h3_frames_safe_witness :
  match H3Frame.from_bytes SETTINGS_FRAME_TYPE_ID 3 [0x06; 0x40; 0x64] with
  | Ok f => h3_parsed SETTINGS_FRAME_TYPE_ID 3 f
  | Err e => refusal e
  | Panic => False
  end.
Proof. apply (h3_frames_safe SETTINGS_FRAME_TYPE_ID [0x06; 0x40; 0x64]). solve_bytes. Defined.

(** The length of what follows a push id is computed from the shortest form of
    the id: a payload that writes push id 5 in two bytes is refused. *)
Lemma long_push_id_refused :
  H3Frame.from_bytes PUSH_PROMISE_FRAME_TYPE_ID 3 [0x40; 0x05; 0xaa] = Err H3.BufferTooShort ∧
  H3Frame.from_bytes PUSH_PROMISE_FRAME_TYPE_ID 2 [0x05; 0xaa] = Ok (H3Frame.PushPromise 5 [0xaa]).
Proof. by vm_compute. Qed.

(** Bytes after the identifier are ignored. *)
Lemma trailing_bytes_ignored : H3Frame.from_bytes GOAWAY_FRAME_TYPE_ID 3 [0x04; 0x01; 0x02] = Ok (H3Frame.GoAway 4).
Proof. by vm_compute. Qed.
