(* ===== verification/H3Streams.v ===== *)
(** * HTTP/3 streams ([quiche/src/h3/stream.rs])

    What HTTP/3 asks of a QUIC connection, as an interface, and the state
    machine that parses one stream. *)
From S2P Require Import Prelude OctetsLib Streams ConnStreams H3Frames.

(** ** The transport

    The methods of [quiche::Connection] that the HTTP/3 layer calls. *)
Class Transport (C : Type) := {
  conn_is_server : C → bool;
  (** [local_error.is_some()] *)
  conn_failed : C → bool;
  conn_close : bool → Z → list Z → M C Error unit;
  stream_recv : Z → Z → M C Error (list Z * bool);
  stream_send : Z → list Z → bool → M C Error Z;
  stream_capacity : Z → C → result Error Z;
  stream_writable : Z → Z → M C Error bool;
  stream_readable : Z → C → bool;
  stream_finished : Z → C → bool;
  stream_shutdown : Z → Shutdown → Z → M C Error unit;
  stream_priority : Z → Z → bool → M C Error unit;
  (** [streams.max_streams_bidi()], [streams.is_collected(id)], [readable()] *)
  max_streams_bidi : C → Z;
  is_collected : Z → C → bool;
  readable : C → list Z;
  dgram_max_writable_len : C → option Z;
  dgram_enabled : C → bool;
  (** [is_established() || is_in_early_data()], [grease] *)
  conn_ready : C → bool;
  conn_grease : C → bool
}.

Definition HTTP3_CONTROL_STREAM_TYPE_ID : Z := 0x0.
Definition HTTP3_PUSH_STREAM_TYPE_ID : Z := 0x1.
Definition QPACK_ENCODER_STREAM_TYPE_ID : Z := 0x2.
Definition QPACK_DECODER_STREAM_TYPE_ID : Z := 0x3.
Definition MAX_STATE_BUF_SIZE : Z := 2 ^ 24 - 1.

(** [vec.resize(n, 0)] *)
Definition resize (n : Z) (l : list Z) : list Z := ztake n l ++ replicate (Z.to_nat (n - zlen l)) 0.

(** ** One stream *)
Module H3Stream.
Abbreviation Error := H3.Error.

Inductive Type_ := Control | Request | Push | QpackEncoder | QpackDecoder | Unknown.
Inductive State :=
| StreamType
| FrameType
| FramePayloadLen
| FramePayload
| Data
| PushId
| QpackInstruction
| Drain
| Finished.

#[global] Instance type_eq_dec : EqDecision Type_.
Proof. solve_decision. Defined.
#[global] Instance state_eq_dec : EqDecision State.
Proof. solve_decision. Defined.

Definition deserialize (v : Z) : Type_ :=
  if v =? HTTP3_CONTROL_STREAM_TYPE_ID then Control
  else if v =? HTTP3_PUSH_STREAM_TYPE_ID then Push
  else if v =? QPACK_ENCODER_STREAM_TYPE_ID then QpackEncoder
  else if v =? QPACK_DECODER_STREAM_TYPE_ID then QpackDecoder
  else Unknown.

Record t := mk {
  id : Z;
  ty_ : option Type_;
  state : State;
  state_buf : list Z;
  state_len : Z;
  state_off : Z;
  frame_type : option Z;
  is_local : bool;
  remote_initialized : bool;
  local_initialized : bool;
  data_event_triggered : bool;
  last_priority_update : option (list Z)
}.
Definition set_ty_ (v : option Type_) (x : t) : t := mk (id x) v (state x) (state_buf x) (state_len x)
  (state_off x) (frame_type x) (is_local x) (remote_initialized x) (local_initialized x) (data_event_triggered x)
  (last_priority_update x).
Definition set_state (v : State) (x : t) : t := mk (id x) (ty_ x) v (state_buf x) (state_len x) (state_off x)
  (frame_type x) (is_local x) (remote_initialized x) (local_initialized x) (data_event_triggered x)
  (last_priority_update x).
Definition set_state_buf (v : list Z) (x : t) : t := mk (id x) (ty_ x) (state x) v (state_len x) (state_off x)
  (frame_type x) (is_local x) (remote_initialized x) (local_initialized x) (data_event_triggered x)
  (last_priority_update x).
Definition set_state_len (v : Z) (x : t) : t := mk (id x) (ty_ x) (state x) (state_buf x) v (state_off x)
  (frame_type x) (is_local x) (remote_initialized x) (local_initialized x) (data_event_triggered x)
  (last_priority_update x).
Definition set_state_off (v : Z) (x : t) : t := mk (id x) (ty_ x) (state x) (state_buf x) (state_len x) v
  (frame_type x) (is_local x) (remote_initialized x) (local_initialized x) (data_event_triggered x)
  (last_priority_update x).
Definition set_frame_type (v : option Z) (x : t) : t := mk (id x) (ty_ x) (state x) (state_buf x) (state_len x)
  (state_off x) v (is_local x) (remote_initialized x) (local_initialized x) (data_event_triggered x)
  (last_priority_update x).
Definition set_remote_initialized (v : bool) (x : t) : t := mk (id x) (ty_ x) (state x) (state_buf x) (state_len
  x) (state_off x) (frame_type x) (is_local x) v (local_initialized x) (data_event_triggered x)
  (last_priority_update x).
Definition set_local_initialized (v : bool) (x : t) : t := mk (id x) (ty_ x) (state x) (state_buf x) (state_len
  x) (state_off x) (frame_type x) (is_local x) (remote_initialized x) v (data_event_triggered x)
  (last_priority_update x).
Definition set_data_event_triggered (v : bool) (x : t) : t := mk (id x) (ty_ x) (state x) (state_buf x)
  (state_len x) (state_off x) (frame_type x) (is_local x) (remote_initialized x) (local_initialized x) v
  (last_priority_update x).
Definition set_last_priority_update (v : option (list Z)) (x : t) : t := mk (id x) (ty_ x) (state x) (state_buf
  x) (state_len x) (state_off x) (frame_type x) (is_local x) (remote_initialized x) (local_initialized x)
  (data_event_triggered x) v.

Definition new (id : Z) (is_local : bool) : t :=
  let '(ty, state) := if is_bidi id then (Some Request, FrameType) else (None, StreamType) in
  mk id ty state (replicate 16 0) 1 0 None is_local false false false None.

(** [assert_eq!(self.state, state)] *)
Definition assert_state (st : State) : M t Error unit :=
  s ← get; if bool_decide (state s = st) then mret () else panic.

Definition state_buffer_complete (s : t) : bool := state_off s =? state_len s.

Definition state_transition (new_state : State) (expected_len : Z) (resize_ : bool) : M t Error unit :=
  (if resize_ then
     if MAX_STATE_BUF_SIZE <? expected_len then fail H3.ExcessiveLoad
     else modify (λ s, set_state_buf (resize expected_len (state_buf s)) s)
   else mret ());;
  modify (λ s, set_state_len expected_len (set_state_off 0 (set_state new_state s))).

Definition set_ty (ty : Type_) : M t Error unit :=
  assert_state StreamType;;
  modify (set_ty_ (Some ty));;
  st ← match ty with
       | Control | Request => mret FrameType
       | Push => mret PushId
       | QpackEncoder | QpackDecoder => modify (set_remote_initialized true);; mret QpackInstruction
       | Unknown => mret Drain
       end;
  state_transition st 1 true.

Definition set_push_id (id : Z) : M t Error unit :=
  assert_state PushId;;
  state_transition FrameType 1 true.

(** The frame types that the stream's type and state allow. *)
Definition check_frame_type (ty : Z) : M t Error unit :=
  s ← get;
  match ty_ s with
  | Some Control =>
      if negb (remote_initialized s) then
        if ty =? SETTINGS_FRAME_TYPE_ID then modify (set_remote_initialized true) else fail H3.MissingSettings
      else if bool_decide (ty ∈ [SETTINGS_FRAME_TYPE_ID; DATA_FRAME_TYPE_ID; HEADERS_FRAME_TYPE_ID; PUSH_PROMISE_FRAME_TYPE_ID])
      then fail H3.FrameUnexpected
      else mret ()
  | Some Request =>
      if is_local s then mret ()
      else if (ty =? HEADERS_FRAME_TYPE_ID) && negb (remote_initialized s) then modify (set_remote_initialized true)
      else if (ty =? DATA_FRAME_TYPE_ID) && negb (remote_initialized s) then fail H3.FrameUnexpected
      else if bool_decide (ty ∈ [CANCEL_PUSH_FRAME_TYPE_ID; SETTINGS_FRAME_TYPE_ID; GOAWAY_FRAME_TYPE_ID; MAX_PUSH_FRAME_TYPE_ID])
      then fail H3.FrameUnexpected
      else mret ()
  | Some Push =>
      if bool_decide (ty ∈ [CANCEL_PUSH_FRAME_TYPE_ID; SETTINGS_FRAME_TYPE_ID; PUSH_PROMISE_FRAME_TYPE_ID; GOAWAY_FRAME_TYPE_ID;
                            MAX_PUSH_FRAME_TYPE_ID])
      then fail H3.FrameUnexpected
      else mret ()
  | _ => fail H3.FrameUnexpected
  end.

Definition set_frame_type_ (ty : Z) : M t Error unit :=
  assert_state FrameType;;
  check_frame_type ty;;
  modify (set_frame_type (Some ty));;
  state_transition FramePayloadLen 1 true.

Definition set_frame_payload_len (len : Z) : M t Error unit :=
  assert_state FramePayloadLen;;
  s ← get;
  if bool_decide (ty_ s ∈ [Some Control; Some Request; Some Push]) then
    '(st, resize) ← (if bool_decide (frame_type s = Some DATA_FRAME_TYPE_ID) then mret (Data, false)
                     else if bool_decide (frame_type s ∈ [Some GOAWAY_FRAME_TYPE_ID; Some PUSH_PROMISE_FRAME_TYPE_ID;
                                                          Some CANCEL_PUSH_FRAME_TYPE_ID; Some MAX_PUSH_FRAME_TYPE_ID])
                     then if len =? 0 then fail H3.FrameError else mret (FramePayload, true)
                     else mret (FramePayload, true));
    state_transition st len resize
  else fail H3.InternalError.

Definition reset_data_event : t → t := set_data_event_triggered false.

Definition initialize_local : t → t := set_local_initialized true.

(** Whether the event had not been triggered. *)
Definition try_trigger_data_event (s : t) : bool * t :=
  if data_event_triggered s then (false, s) else (true, set_data_event_triggered true s).

Definition try_consume_varint : M t Error Z :=
  s ← get;
  (if state_off s =? 1 then
     match state_buf s with
     | [] => panic
     | first :: _ =>
         len ← lift (varint_parse_len first);
         modify (λ s, set_state_buf (resize len (state_buf s)) (set_state_len len s))
     end
   else mret ());;
  s ← get;
  if negb (state_buffer_complete s) then fail H3.Done
  else lift (Octets.get_varint (Octets.with_slice (state_buf s))).1.

Definition try_consume_frame : M t Error (H3Frame.t * Z) :=
  modify reset_data_event;;
  s ← get;
  let payload_len := state_len s in
  match frame_type s with
  | None => panic
  | Some ty =>
      frame ← lift (H3Frame.from_bytes ty payload_len (state_buf s));
      state_transition FrameType 1 true;;
      mret (frame, payload_len)
  end.

Definition finished (s : t) : t := (state_transition Finished 0 false s).2.

Section transport.
Context {C : Type} `{Transport C}.

(** On the stream and the connection. *)
Definition on_self {A} (m : M t Error A) : M (t * C) Error A := λ '(s, c), let '(r, s) := m s in (r, (s, c)).
Definition on_conn {A} (m : M C Prelude.Error A) : M (t * C) Error A := λ '(s, c),
  match m c with
  | (Ok a, c) => (Ok a, (s, c))
  | (Err e, c) => (Err (H3.from_transport e), (s, c))
  | (Panic, c) => (Panic, (s, c))
  end.

(** [conn.stream_recv], with the reset of the Data event on [Done]. *)
Definition recv_or_rearm (cap : Z) : M (t * C) Error (list Z * bool) :=
  '(s, c) ← get;
  r ← attempt (on_conn (stream_recv (id s) cap));
  match r with
  | inl v => mret v
  | inr e =>
      (if bool_decide (e = H3.Done) then on_self (modify reset_data_event) else mret ());;
      fail e
  end.

Definition try_fill_buffer : M (t * C) Error unit :=
  '(s, c) ← get;
  if state_buffer_complete s then mret ()
  else if (state_len s <? state_off s) || (zlen (state_buf s) <? state_len s) then panic
  else
    '(bytes, _) ← recv_or_rearm (state_len s - state_off s);
    on_self (modify (λ s,
      set_state_off (state_off s + zlen bytes) (set_state_buf (zsplice (state_off s) bytes (state_buf s)) s)));;
    '(s, c) ← get;
    if negb (state_buffer_complete s) then on_self (modify reset_data_event);; fail H3.Done
    else mret ().

(** [out_len] is the length of the buffer; the bytes read are returned. *)
Definition try_consume_data (out_len : Z) : M (t * C) Error (list Z * bool) :=
  '(s, c) ← get;
  room ← lift (usub (state_len s) (state_off s));
  let left := Z.min out_len room in
  '(bytes, fin) ← recv_or_rearm left;
  on_self (modify (λ s, set_state_off (state_off s + zlen bytes) s));;
  '(s, c) ← get;
  (if negb (stream_readable (id s) c) then on_self (modify reset_data_event) else mret ());;
  '(s, c) ← get;
  (if state_buffer_complete s then on_self (state_transition FrameType 1 true) else mret ());;
  mret (bytes, fin).
End transport.
End H3Stream.
