(* ===== verification/H3Conn.v ===== *)
(** * HTTP/3 connections: receiving ([quiche/src/h3/mod.rs])

    The state of an HTTP/3 connection, the loop that parses a readable stream,
    what each frame does, and the calls [poll] and [recv_body].  The QPACK
    encoder and decoder have no state.  Trace output and qlog events are left
    out. *)
From stdpp Require Import gmap pretty.
From S2P Require Import Prelude OctetsLib Huffman StaticTable QpackCodec Streams ConnStreams H3Frames H3Streams.

(** A byte string literal. *)
Abbreviation msg s := (ascii s%string).

Module ConnectionSettings.
Record t := mk {
  max_field_section_size : option Z;
  qpack_max_table_capacity : option Z;
  qpack_blocked_streams : option Z;
  connect_protocol_enabled : option Z;
  h3_datagram : option Z;
  additional_settings : option (list (Z * Z));
  raw : option (list (Z * Z))
}.
End ConnectionSettings.

Module QpackStreams.
Record t := mk {
  encoder_stream_id : option Z;
  decoder_stream_id : option Z
}.
Definition set_encoder_stream_id (v : option Z) (x : t) : t := mk v (decoder_stream_id x).
Definition set_decoder_stream_id (v : option Z) (x : t) : t := mk (encoder_stream_id x) v.
End QpackStreams.

Inductive Event :=
| EvHeaders (headers : list Header.t) (has_body : bool)
| EvData
| EvFinished
| EvReset (e : Z)
| EvPriorityUpdate
| EvGoAway.

Module H3Conn.
Abbreviation Error := H3.Error.

Record t := mk {
  is_server : bool;
  next_request_stream_id : Z;
  next_uni_stream_id : Z;
  streams : gmap Z H3Stream.t;
  local_settings : ConnectionSettings.t;
  peer_settings : ConnectionSettings.t;
  control_stream_id : option Z;
  peer_control_stream_id : option Z;
  local_qpack_streams : QpackStreams.t;
  peer_qpack_streams : QpackStreams.t;
  max_push_id : Z;
  finished_streams : list Z;
  frames_greased : bool;
  local_goaway_id : option Z;
  peer_goaway_id : option Z
}.
Definition set_next_request_stream_id (v : Z) (x : t) : t := mk (is_server x) v (next_uni_stream_id x) (streams
  x) (local_settings x) (peer_settings x) (control_stream_id x) (peer_control_stream_id x) (local_qpack_streams x)
  (peer_qpack_streams x) (max_push_id x) (finished_streams x) (frames_greased x) (local_goaway_id x)
  (peer_goaway_id x).
Definition set_next_uni_stream_id (v : Z) (x : t) : t := mk (is_server x) (next_request_stream_id x) v (streams
  x) (local_settings x) (peer_settings x) (control_stream_id x) (peer_control_stream_id x) (local_qpack_streams x)
  (peer_qpack_streams x) (max_push_id x) (finished_streams x) (frames_greased x) (local_goaway_id x)
  (peer_goaway_id x).
Definition set_streams (v : gmap Z H3Stream.t) (x : t) : t := mk (is_server x) (next_request_stream_id x)
  (next_uni_stream_id x) v (local_settings x) (peer_settings x) (control_stream_id x) (peer_control_stream_id x)
  (local_qpack_streams x) (peer_qpack_streams x) (max_push_id x) (finished_streams x) (frames_greased x)
  (local_goaway_id x) (peer_goaway_id x).
Definition set_peer_settings (v : ConnectionSettings.t) (x : t) : t := mk (is_server x) (next_request_stream_id
  x) (next_uni_stream_id x) (streams x) (local_settings x) v (control_stream_id x) (peer_control_stream_id x)
  (local_qpack_streams x) (peer_qpack_streams x) (max_push_id x) (finished_streams x) (frames_greased x)
  (local_goaway_id x) (peer_goaway_id x).
Definition set_control_stream_id (v : option Z) (x : t) : t := mk (is_server x) (next_request_stream_id x)
  (next_uni_stream_id x) (streams x) (local_settings x) (peer_settings x) v (peer_control_stream_id x)
  (local_qpack_streams x) (peer_qpack_streams x) (max_push_id x) (finished_streams x) (frames_greased x)
  (local_goaway_id x) (peer_goaway_id x).
Definition set_peer_control_stream_id (v : option Z) (x : t) : t := mk (is_server x) (next_request_stream_id x)
  (next_uni_stream_id x) (streams x) (local_settings x) (peer_settings x) (control_stream_id x) v
  (local_qpack_streams x) (peer_qpack_streams x) (max_push_id x) (finished_streams x) (frames_greased x)
  (local_goaway_id x) (peer_goaway_id x).
Definition set_local_qpack_streams (v : QpackStreams.t) (x : t) : t := mk (is_server x) (next_request_stream_id
  x) (next_uni_stream_id x) (streams x) (local_settings x) (peer_settings x) (control_stream_id x)
  (peer_control_stream_id x) v (peer_qpack_streams x) (max_push_id x) (finished_streams x) (frames_greased x)
  (local_goaway_id x) (peer_goaway_id x).
Definition set_peer_qpack_streams (v : QpackStreams.t) (x : t) : t := mk (is_server x) (next_request_stream_id
  x) (next_uni_stream_id x) (streams x) (local_settings x) (peer_settings x) (control_stream_id x)
  (peer_control_stream_id x) (local_qpack_streams x) v (max_push_id x) (finished_streams x) (frames_greased x)
  (local_goaway_id x) (peer_goaway_id x).
Definition set_max_push_id (v : Z) (x : t) : t := mk (is_server x) (next_request_stream_id x)
  (next_uni_stream_id x) (streams x) (local_settings x) (peer_settings x) (control_stream_id x)
  (peer_control_stream_id x) (local_qpack_streams x) (peer_qpack_streams x) v (finished_streams x) (frames_greased
  x) (local_goaway_id x) (peer_goaway_id x).
Definition set_finished_streams (v : list Z) (x : t) : t := mk (is_server x) (next_request_stream_id x)
  (next_uni_stream_id x) (streams x) (local_settings x) (peer_settings x) (control_stream_id x)
  (peer_control_stream_id x) (local_qpack_streams x) (peer_qpack_streams x) (max_push_id x) v (frames_greased x)
  (local_goaway_id x) (peer_goaway_id x).
Definition set_frames_greased (v : bool) (x : t) : t := mk (is_server x) (next_request_stream_id x)
  (next_uni_stream_id x) (streams x) (local_settings x) (peer_settings x) (control_stream_id x)
  (peer_control_stream_id x) (local_qpack_streams x) (peer_qpack_streams x) (max_push_id x) (finished_streams x) v
  (local_goaway_id x) (peer_goaway_id x).
Definition set_local_goaway_id (v : option Z) (x : t) : t := mk (is_server x) (next_request_stream_id x)
  (next_uni_stream_id x) (streams x) (local_settings x) (peer_settings x) (control_stream_id x)
  (peer_control_stream_id x) (local_qpack_streams x) (peer_qpack_streams x) (max_push_id x) (finished_streams x)
  (frames_greased x) v (peer_goaway_id x).
Definition set_peer_goaway_id (v : option Z) (x : t) : t := mk (is_server x) (next_request_stream_id x)
  (next_uni_stream_id x) (streams x) (local_settings x) (peer_settings x) (control_stream_id x)
  (peer_control_stream_id x) (local_qpack_streams x) (peer_qpack_streams x) (max_push_id x) (finished_streams x)
  (frames_greased x) (local_goaway_id x) v.

(** [Config] *)
Module Config.
Record t := mk {
  max_field_section_size : option Z;
  qpack_max_table_capacity : option Z;
  qpack_blocked_streams : option Z;
  connect_protocol_enabled : option Z;
  additional_settings : option (list (Z * Z))
}.
End Config.

Definition new (config : Config.t) (is_server enable_dgram : bool) : t :=
  mk is_server 0 (if is_server then 0x3 else 0x2) ∅
    (ConnectionSettings.mk (Config.max_field_section_size config) (Config.qpack_max_table_capacity config)
       (Config.qpack_blocked_streams config) (Config.connect_protocol_enabled config)
       (if enable_dgram then Some 1 else None) (Config.additional_settings config) None)
    (ConnectionSettings.mk None None None None None None None)
    None None (QpackStreams.mk None None) (QpackStreams.mk None None) 0 [] false None None.

(** How the body of the loop in [process_readable_stream] ends. *)
Inductive flow := Continue | Break | Return (ev : Z * Event).

Section operations.
Context {C : Type} `{Transport C}.
Abbreviation HM := (M (t * C) Error).

(** The transport, with its errors converted. *)
Definition on_conn {A} (m : M C Prelude.Error A) : HM A := λ '(h, c),
  match m c with
  | (Ok a, c) => (Ok a, (h, c))
  | (Err e, c) => (Err (H3.from_transport e), (h, c))
  | (Panic, c) => (Panic, (h, c))
  end.
Definition on_self (f : t → t) : HM unit := modify (λ '(h, c), (f h, c)).

(** A method of the stream that a reference into the map points to. *)
Definition on_stream {A} (stream_id : Z) (m : M (H3Stream.t * C) Error A) : HM A := λ '(h, c),
  match streams h !! stream_id with
  | Some s => let '(r, (s, c)) := m (s, c) in (r, (set_streams (<[stream_id := s]> (streams h)) h, c))
  | None => (Panic, (h, c))
  end.

(** [conn.close(true, wire, reason)?; return Err(e)] *)
Definition close_as {A} (wire : Z) (reason : list Z) (e : Error) : HM A :=
  on_conn (conn_close true wire reason);;
  fail e.
Definition close {A} (e : Error) (reason : list Z) : HM A := close_as (H3.to_wire e) reason e.

(** [if let Err(e) = m { conn.close(true, e.to_wire(), reason)?; return Err(e) }] *)
Definition or_close {A} (m : HM A) (reason : list Z) : HM A :=
  r ← attempt m;
  match r with inl a => mret a | inr e => close e reason end.

Definition self : HM t := gets fst.
Definition conn : HM C := gets snd.

(** *** The states of [process_readable_stream] *)

(** [stream.try_fill_buffer(conn)?] and [try_consume_varint], [None] for [continue]. *)
Definition read_varint (stream_id : Z) : HM (option Z) :=
  on_stream stream_id H3Stream.try_fill_buffer;;
  r ← attempt (on_stream stream_id (H3Stream.on_self H3Stream.try_consume_varint));
  match r with inl v => mret (Some v) | inr _ => mret None end.

(** At most one stream of each kind. *)
Definition on_type_set (stream_id : Z) (ty : H3Stream.Type_) : HM unit :=
  h ← self;
  match ty with
  | H3Stream.Control =>
      if bool_decide (is_Some (peer_control_stream_id h))
      then close H3.StreamCreationError (msg "Received multiple control streams")
      else on_self (set_peer_control_stream_id (Some stream_id))
  | H3Stream.Push =>
      if is_server h then close H3.StreamCreationError (msg "Server received push stream.") else mret ()
  | H3Stream.QpackEncoder =>
      if bool_decide (is_Some (QpackStreams.encoder_stream_id (peer_qpack_streams h)))
      then close H3.StreamCreationError (msg "Received multiple QPACK encoder streams")
      else on_self (set_peer_qpack_streams (QpackStreams.set_encoder_stream_id (Some stream_id) (peer_qpack_streams h)))
  | H3Stream.QpackDecoder =>
      if bool_decide (is_Some (QpackStreams.decoder_stream_id (peer_qpack_streams h)))
      then close H3.StreamCreationError (msg "Received multiple QPACK decoder streams")
      else on_self (set_peer_qpack_streams (QpackStreams.set_decoder_stream_id (Some stream_id) (peer_qpack_streams h)))
  | H3Stream.Unknown => mret ()
  | H3Stream.Request => panic
  end.

Definition read_stream_type (stream_id : Z) : HM flow :=
  v ← read_varint stream_id;
  match v with
  | None => mret Continue
  | Some varint =>
      let ty := H3Stream.deserialize varint in
      or_close (on_stream stream_id (H3Stream.on_self (H3Stream.set_ty ty))) [];;
      on_type_set stream_id ty;;
      mret Continue
  end.

Definition read_push_id (stream_id : Z) : HM flow :=
  v ← read_varint stream_id;
  match v with
  | None => mret Continue
  | Some varint =>
      or_close (on_stream stream_id (H3Stream.on_self (H3Stream.set_push_id varint))) [];;
      mret Continue
  end.

Definition read_frame_type (stream_id : Z) : HM flow :=
  v ← read_varint stream_id;
  match v with
  | None => mret Continue
  | Some varint =>
      r ← attempt (on_stream stream_id (H3Stream.on_self (H3Stream.set_frame_type_ varint)));
      match r with
      | inr H3.FrameUnexpected =>
          close H3.FrameUnexpected (msg "Unexpected frame type " ++ ascii (pretty (Z.to_N varint)))
      | inr e => close e (msg "Error handling frame.")
      | inl _ => mret Continue
      end
  end.

Definition read_frame_payload_len (stream_id : Z) : HM flow :=
  v ← read_varint stream_id;
  match v with
  | None => mret Continue
  | Some payload_len =>
      or_close (on_stream stream_id (H3Stream.on_self (H3Stream.set_frame_payload_len payload_len))) [];;
      mret Continue
  end.

(** [loop { conn.stream_recv(stream_id, &mut d)?; }] *)
Fixpoint discard (fuel : nat) (stream_id : Z) : HM flow :=
  match fuel with
  | O => panic
  | S fuel => on_conn (stream_recv stream_id 4096);; discard fuel stream_id
  end.

Definition drain (stream_id : Z) : HM flow :=
  on_conn (stream_shutdown stream_id Read 0x100);;
  mret Break.

(** *** [process_frame], one definition per frame *)

(** The frame is refused unless the condition holds. *)
Definition refuse_unless (ok : bool) (wire : Z) (reason : list Z) (e : Error) : HM unit :=
  if ok then mret () else close_as wire reason e.
Definition expected (ok : bool) (reason : list Z) : HM unit :=
  refuse_unless ok (H3.to_wire H3.FrameUnexpected) reason H3.FrameUnexpected.

Definition is_control (stream_id : Z) (h : t) : bool := bool_decide (Some stream_id = peer_control_stream_id h).

Definition on_settings (s : H3Frame.settings) : HM (Z * Event) :=
  on_self (set_peer_settings
    (ConnectionSettings.mk (H3Frame.max_field_section_size s) (H3Frame.qpack_max_table_capacity s) (H3Frame.qpack_blocked_streams s)
       (H3Frame.connect_protocol_enabled s) (H3Frame.h3_datagram s) (H3Frame.additional_settings s) (H3Frame.raw s)));;
  c ← conn;
  (if bool_decide (H3Frame.h3_datagram s = Some 1) && bool_decide (dgram_max_writable_len c = None)
   then close H3.SettingsError (msg "H3_DATAGRAM sent with value 1 but max_datagram_frame_size TP not set.")
   else mret ());;
  fail H3.Done.

Definition on_headers (stream_id : Z) (header_block : list Z) : HM (Z * Event) :=
  h ← self;
  expected (negb (is_control stream_id h)) (msg "HEADERS received on control stream");;
  let max_size := default u64_max (ConnectionSettings.max_field_section_size (local_settings h)) in
  match Decoder.decode header_block max_size with
  | Panic => panic
  | Err e =>
      close (match e with Qpack.HeaderListTooLarge => H3.ExcessiveLoad | _ => H3.QpackDecompressionFailed end)
        (msg "Error parsing headers.")
  | Ok headers =>
      c ← conn;
      mret (stream_id, EvHeaders headers (negb (stream_finished stream_id c)))
  end.

Definition on_data_frame (stream_id : Z) : HM (Z * Event) :=
  h ← self;
  expected (negb (is_control stream_id h)) (msg "DATA received on control stream");;
  fail H3.Done.

Definition on_goaway (stream_id id : Z) : HM (Z * Event) :=
  h ← self;
  expected (is_control stream_id h) (msg "GOAWAY received on non-control stream");;
  refuse_unless (is_server h || (id mod 4 =? 0)) (H3.to_wire H3.FrameUnexpected)
    (msg "GOAWAY received with ID of non-request stream") H3.IdError;;
  refuse_unless (match peer_goaway_id h with Some received_id => id <=? received_id | None => true end) (H3.to_wire H3.IdError)
    (msg "GOAWAY received with ID larger than previously received") H3.IdError;;
  on_self (set_peer_goaway_id (Some id));;
  mret (id, EvGoAway).

Definition on_max_push_id (stream_id push_id : Z) : HM (Z * Event) :=
  h ← self;
  expected (is_control stream_id h) (msg "MAX_PUSH_ID received on non-control stream");;
  expected (is_server h) (msg "MAX_PUSH_ID received by client");;
  refuse_unless (max_push_id h <=? push_id) (H3.to_wire H3.IdError) (msg "MAX_PUSH_ID reduced limit") H3.IdError;;
  on_self (set_max_push_id push_id);;
  fail H3.Done.

Definition on_push_promise (stream_id : Z) : HM (Z * Event) :=
  h ← self;
  expected (negb (is_server h)) (msg "PUSH_PROMISE received by server");;
  expected (stream_id mod 4 =? 0) (msg "PUSH_PROMISE received on non-request stream");;
  fail H3.Done.

Definition on_cancel_push (stream_id : Z) : HM (Z * Event) :=
  h ← self;
  expected (is_control stream_id h) (msg "CANCEL_PUSH received on non-control stream");;
  fail H3.Done.

Definition on_priority_update_request (stream_id prioritized_element_id : Z) (priority_field_value : list Z) : HM (Z * Event) :=
  h ← self;
  expected (is_server h) (msg "PRIORITY_UPDATE received by client");;
  expected (is_control stream_id h) (msg "PRIORITY_UPDATE received on non-control stream");;
  expected (prioritized_element_id mod 4 =? 0) (msg "PRIORITY_UPDATE for request stream type with wrong ID");;
  c ← conn;
  limit ← lift (umul (max_streams_bidi c) 4);
  refuse_unless (prioritized_element_id <=? limit) (H3.to_wire H3.IdError)
    (msg "PRIORITY_UPDATE for request stream beyond max streams limit") H3.IdError;;
  if is_collected prioritized_element_id c then fail H3.Done
  else
    let stream := default (H3Stream.new prioritized_element_id false) (streams h !! prioritized_element_id) in
    on_self (set_streams (<[prioritized_element_id :=
      H3Stream.set_last_priority_update (Some priority_field_value) stream]> (streams h)));;
    if bool_decide (H3Stream.last_priority_update stream = None) then mret (prioritized_element_id, EvPriorityUpdate)
    else fail H3.Done.

Definition on_priority_update_push (stream_id prioritized_element_id : Z) : HM (Z * Event) :=
  h ← self;
  expected (is_server h) (msg "PRIORITY_UPDATE received by client");;
  expected (is_control stream_id h) (msg "PRIORITY_UPDATE received on non-control stream");;
  expected (prioritized_element_id mod 3 =? 0) (msg "PRIORITY_UPDATE for push stream type with wrong ID");;
  fail H3.Done.

Definition process_frame (stream_id : Z) (frame : H3Frame.t) (payload_len : Z) : HM (Z * Event) :=
  match frame with
  | H3Frame.Settings s => on_settings s
  | H3Frame.Headers header_block => on_headers stream_id header_block
  | H3Frame.Data _ => on_data_frame stream_id
  | H3Frame.GoAway id => on_goaway stream_id id
  | H3Frame.MaxPushId push_id => on_max_push_id stream_id push_id
  | H3Frame.PushPromise _ _ => on_push_promise stream_id
  | H3Frame.CancelPush _ => on_cancel_push stream_id
  | H3Frame.PriorityUpdateRequest id value => on_priority_update_request stream_id id value
  | H3Frame.PriorityUpdatePush id _ => on_priority_update_push stream_id id
  | H3Frame.Unknown _ _ => fail H3.Done
  end.

(** *** The loop *)

Definition read_frame_payload (stream_id : Z) (polling : bool) : HM flow :=
  if negb polling then mret Break
  else
    on_stream stream_id H3Stream.try_fill_buffer;;
    r ← attempt (on_stream stream_id (H3Stream.on_self H3Stream.try_consume_frame));
    match r with
    | inr H3.Done => fail H3.Done
    | inr e => close e (msg "Error handling frame.")
    | inl (frame, payload_len) =>
        r ← attempt (process_frame stream_id frame payload_len);
        match r with
        | inl ev => mret (Return ev)
        | inr H3.Done =>
            c ← conn;
            mret (if stream_finished stream_id c then Break else Continue)
        | inr e => fail e
        end
    end.

Definition announce_data (stream_id : Z) (polling : bool) : HM flow :=
  if negb polling then mret Break
  else
    trigger ← on_stream stream_id (H3Stream.on_self (λ s, let '(b, s) := H3Stream.try_trigger_data_event s in (Ok b, s)));
    mret (if trigger : bool then Return (stream_id, EvData) else Break).

(** The body of [while let Some(stream) = self.streams.get_mut(&stream_id)]. *)
Definition read_state (fuel : nat) (stream_id : Z) (polling : bool) (st : H3Stream.State) : HM flow :=
  match st with
  | H3Stream.StreamType => read_stream_type stream_id
  | H3Stream.PushId => read_push_id stream_id
  | H3Stream.FrameType => read_frame_type stream_id
  | H3Stream.FramePayloadLen => read_frame_payload_len stream_id
  | H3Stream.FramePayload => read_frame_payload stream_id polling
  | H3Stream.Data => announce_data stream_id polling
  | H3Stream.QpackInstruction => discard fuel stream_id
  | H3Stream.Drain => drain stream_id
  | H3Stream.Finished => mret Break
  end.

Fixpoint read_loop (fuel : nat) (stream_id : Z) (polling : bool) : HM (Z * Event) :=
  match fuel with
  | O => panic
  | S fuel =>
      h ← self;
      match streams h !! stream_id with
      | None => fail H3.Done
      | Some stream =>
          r ← read_state fuel stream_id polling (H3Stream.state stream);
          match r with
          | Continue => read_loop fuel stream_id polling
          | Break => fail H3.Done
          | Return ev => mret ev
          end
      end
  end.

Definition process_readable_stream (fuel : nat) (stream_id : Z) (polling : bool) : HM (Z * Event) :=
  on_self (λ h, match streams h !! stream_id with
                | Some _ => h
                | None => set_streams (<[stream_id := H3Stream.new stream_id false]> (streams h)) h
                end);;
  read_loop fuel stream_id polling.

(** *** [poll], [recv_body] *)

Definition closed_critical {A} (stream_id : Z) : HM A := close H3.ClosedCriticalStream (msg "Critical stream closed.").

Definition process_control_stream (fuel : nat) (stream_id : Z) : HM (Z * Event) :=
  c ← conn;
  if stream_finished stream_id c then closed_critical stream_id
  else
    r ← attempt (process_readable_stream fuel stream_id true);
    match r with
    | inl ev => mret ev
    | inr H3.Done =>
        c ← conn;
        if stream_finished stream_id c then closed_critical stream_id else fail H3.Done
    | inr e => fail e
    end.

Definition process_finished_stream (stream_id : Z) (h : t) : t :=
  match streams h !! stream_id with
  | None => h
  | Some stream =>
      if bool_decide (H3Stream.state stream = H3Stream.Finished) then h
      else if bool_decide (H3Stream.ty_ stream ∈ [Some H3Stream.Request; Some H3Stream.Push]) then
        set_finished_streams (finished_streams h ++ [stream_id])
          (set_streams (<[stream_id := H3Stream.finished stream]> (streams h)) h)
      else h
  end.

(** [if let Some(stream_id) = id { match self.process_control_stream(..) { Ok(ev) => return
    Ok(ev), Err(Done) => (), Err(e) => return Err(e) } }], then the rest. *)
Definition first_critical (fuel : nat) (id : option Z) (rest : HM (Z * Event)) : HM (Z * Event) :=
  match id with
  | None => rest
  | Some stream_id =>
      r ← attempt (process_control_stream fuel stream_id);
      match r with
      | inl ev => mret ev
      | inr H3.Done => rest
      | inr e => fail e
      end
  end.

(** [self.finished_streams.pop_front()] *)
Definition pop_finished : HM (option Z) :=
  h ← self;
  match finished_streams h with
  | [] => mret None
  | id :: rest => on_self (set_finished_streams rest);; mret (Some id)
  end.

(** [for s in conn.readable()], [None] when no event was found. *)
Fixpoint poll_readable (fuel : nat) (ids : list Z) : HM (option (Z * Event)) :=
  match ids with
  | [] => mret None
  | s :: ids =>
      r ← attempt (process_readable_stream fuel s true);
      match r with
      | inr (H3.TransportError (StreamReset e)) => mret (Some (s, EvReset e))
      | inr H3.Done | inl _ =>
          c ← conn;
          (if stream_finished s c then on_self (process_finished_stream s) else mret ());;
          match r with inl ev => mret (Some ev) | inr _ => poll_readable fuel ids end
      | inr e => fail e
      end
  end.

Definition last_finished : HM (Z * Event) :=
  f ← pop_finished;
  match f with
  | None => fail H3.Done
  | Some finished =>
      c ← conn;
      if stream_readable finished c then
        r ← attempt (on_conn (stream_recv finished 0));
        match r with
        | inr (H3.TransportError (StreamReset e)) => mret (finished, EvReset e)
        | _ => mret (finished, EvFinished)
        end
      else mret (finished, EvFinished)
  end.

Definition poll (fuel : nat) : HM (Z * Event) :=
  c ← conn;
  if conn_failed c then fail H3.Done
  else
    h ← self;
    first_critical fuel (peer_control_stream_id h)
      (h ← self;
       first_critical fuel (QpackStreams.encoder_stream_id (peer_qpack_streams h))
         (h ← self;
          first_critical fuel (QpackStreams.decoder_stream_id (peer_qpack_streams h))
            (f ← pop_finished;
             match f with
             | Some finished => mret (finished, EvFinished)
             | None =>
                 c ← conn;
                 ev ← poll_readable fuel (readable c);
                 match ev with
                 | Some ev => mret ev
                 | None => last_finished
                 end
             end))).

(** [while total < out.len()]; the bytes written to [out]. *)
Fixpoint recv_body_loop (turns fuel : nat) (stream_id out_len : Z) (got : list Z) : HM (list Z) :=
  if zlen got <? out_len then
    match turns with
    | O => panic
    | S turns =>
        h ← self;
        match streams h !! stream_id with
        | None => fail H3.Done
        | Some stream =>
            if negb (bool_decide (H3Stream.state stream = H3Stream.Data)) then mret got
            else
              r ← attempt (on_stream stream_id (H3Stream.try_consume_data (out_len - zlen got)));
              match r with
              | inr H3.Done => mret got
              | inr e => fail e
              | inl (bytes, fin) =>
                  let got := got ++ bytes in
                  if bool_decide (bytes = []) || (fin : bool) then mret got
                  else
                    r ← attempt (process_readable_stream fuel stream_id false);
                    match r with
                    | inl _ => panic
                    | inr H3.Done =>
                        c ← conn;
                        if stream_finished stream_id c then mret got
                        else recv_body_loop turns fuel stream_id out_len got
                    | inr e => fail e
                    end
              end
        end
    end
  else mret got.

Definition recv_body (fuel : nat) (stream_id out_len : Z) : HM (list Z) :=
  got ← recv_body_loop (Z.to_nat out_len) fuel stream_id out_len [];
  c ← conn;
  (if stream_finished stream_id c then on_self (process_finished_stream stream_id) else mret ());;
  if bool_decide (got = []) then fail H3.Done else mret got.

Definition take_last_priority_update (prioritized_element_id : Z) (h : t) : result Error (list Z) * t :=
  match streams h !! prioritized_element_id with
  | Some stream =>
      (match H3Stream.last_priority_update stream with Some v => Ok v | None => Err H3.Done end,
       set_streams (<[prioritized_element_id := H3Stream.set_last_priority_update None stream]> (streams h)) h)
  | None => (Err H3.Done, h)
  end.

Definition peer_settings_raw (h : t) : option (list (Z * Z)) := ConnectionSettings.raw (peer_settings h).
Definition dgram_enabled_by_peer (h : t) (c : C) : bool :=
  bool_decide (ConnectionSettings.h3_datagram (peer_settings h) = Some 1) && bool_decide (is_Some (dgram_max_writable_len c)).
Definition extended_connect_enabled_by_peer (h : t) : bool :=
  bool_decide (ConnectionSettings.connect_protocol_enabled (peer_settings h) = Some 1).
End operations.
End H3Conn.
