(* ===== verification/H3Scan.v ===== *)
(** * A reference parser for HTTP/3 streams

    What a stream of frames means, read off all its bytes at once, and how it
    grows with them.  [H3Inv.v] and [H3Run.v] show that the incremental parser
    of [H3Streams.v] and [H3Conn.v] computes it. *)
From S2P Require Import Prelude OctetsLib H3Frames.

(** ** Varints of any length *)

(** [b] is a whole varint that stands for [v]. *)
Definition varint_of (b : list Z) (v : Z) : Prop :=
  is_varint v ∧ bytes_ok b ∧ ∃ first rest, b = first :: rest ∧ varint_parse_len (E:=H3.Error) first = Ok (zlen b) ∧
  parses (E:=H3.Error) Octets.get_varint b v.

(** [q] is the beginning of a varint, not the whole of it. *)
Definition partial_varint (q : list Z) : Prop :=
  match q with
  | [] => True
  | first :: _ => ∃ len, varint_parse_len (E:=H3.Error) first = Ok len ∧ zlen q < len
  end.

Lemma parse_len_ok first : is_u8 first → ∃ len, varint_parse_len (E:=H3.Error) first = Ok len ∧ (len = 1 ∨ len = 2 ∨ len = 4 ∨ len = 8).
Proof.
  unfold is_u8, varint_parse_len. intros Hf. rewrite Z.shiftr_div_pow2 by lia. change (2 ^ 6) with 64.
  repeat zcase; [..|exfalso; Z.div_mod_to_equations; lia]; eexists; (split; [done|lia]).
Qed.

Lemma whole_varint b first rest : bytes_ok b → b = first :: rest → varint_parse_len (E:=H3.Error) first = Ok (zlen b) →
  ∃ v, varint_of b v.
Proof.
  intros Hb Hf Hl. assert (is_u8 first) as Hu by (subst b; by inversion Hb).
  destruct (parse_len_ok first Hu) as (len & Hl' & Hlen). rewrite Hl in Hl'. injection Hl' as Hz.
  assert (∃ v, is_varint v ∧ ∀ pre rest', Octets.get_varint (mk_octets (pre ++ b ++ rest') (zlen pre)) =
    (Ok (A:=Z) (E:=H3.Error) v, mk_octets (pre ++ b ++ rest') (zlen pre + zlen b))) as (v & Hv & Hrun).
  2: { exists v. split_and!; [done..|]. exists first, rest. by split_and!. }
  assert (∀ pre rest', Octets.peek_u8 (E:=H3.Error) (mk_octets (pre ++ b ++ rest') (zlen pre)) =
    (Ok first, mk_octets (pre ++ b ++ rest') (zlen pre))) as Hpeek.
  { intros pre rest'. unfold Octets.peek_u8. rewrite peek_u_prefix by lia. do 2 f_equal. by subst b. }
  pose proof (be_val_bound b Hb) as Hbound.
  assert (∀ k, 0 <= k → 2 ^ k <= 2 ^ 62 → is_varint (Z.land (be_val b) (Z.ones k))) as Hmask.
  { intros k Hk Hle. rewrite Z.land_ones by done. pose proof (Z.mod_pos_bound (be_val b) (2 ^ k) ltac:(apply Z.pow_pos_nonneg; lia)).
    change (2 ^ 62) with 4611686018427387904 in Hle. unfold is_varint. lia. }
  assert (len = 1 → is_varint (be_val b)) as Hone.
  { intros H1. rewrite Hz, H1 in Hbound. unfold is_varint. change (256 ^ 1) with 256 in Hbound. lia. }
  exists (if len =? 1 then be_val b else Z.land (be_val b) (Z.ones (8 * len - 2))). split.
  { destruct (Z.eqb_spec len 1); [auto|]. by destruct Hlen as [?|[-> |[-> | ->]]]; [lia|..]; apply Hmask. }
  intros pre rest'. unfold Octets.get_varint. rewrite (run_bind_ok _ _ _ _ _ (Hpeek pre rest')).
  rewrite (run_bind_lift _ _ _ _ Hl). rewrite (run_bind_ok _ _ _ _ _ (cap_run (E:=H3.Error) pre b rest')).
  pose proof (zlen_nonneg rest'). rewrite (proj2 (Z.ltb_ge _ _)) by lia. rewrite Hz.
  pose proof (get_u_parses (E:=H3.Error) len b (eq_sym Hz) pre rest') as Hget. rewrite Hz in Hget.
  destruct Hlen as [-> |[-> |[-> | ->]]]; zdecide; [exact Hget|..];
    [unfold Octets.get_u16|unfold Octets.get_u32|unfold Octets.get_u64]; by rewrite (run_bind_ok _ _ _ _ _ Hget).
Qed.

Lemma varint_of_enc v : is_varint v → varint_of (enc_varint v) v.
Proof.
  intros Hv. destruct (enc_varint_len_first _ _ (varint_size_fits v Hv)) as (b & tl & Heq & _ & Hb & Htag).
  split_and!; [done|apply enc_varint_ok|]. exists b, tl. split_and!; [done| |by apply get_varint_parses].
  rewrite zlen_enc_varint. apply varint_parse_len_tag; [by apply fits_varint_len with v, varint_size_fits|done].
Qed.

Definition scan_varint (bytes : list Z) : option (Z * list Z) :=
  match Octets.get_varint (E:=H3.Error) (Octets.with_slice bytes) with
  | (Ok v, o) => Some (v, zdrop (o_off o) bytes)
  | _ => None
  end.

Lemma scan_varint_of b v rest : varint_of b v → scan_varint (b ++ rest) = Some (v, rest).
Proof.
  intros (_ & _ & first & tl & _ & _ & Hp). unfold scan_varint. pose proof (Hp [] rest) as Hrun.
  change (mk_octets ([] ++ ?l) (zlen [])) with (Octets.with_slice l) in Hrun. rewrite Hrun. cbn [o_off].
  change (zlen [] + zlen b) with (zlen b). by rewrite zdrop_app.
Qed.

Lemma scan_varint_inv bytes v rest : bytes_ok bytes → scan_varint bytes = Some (v, rest) → ∃ b, bytes = b ++ rest ∧ varint_of b v.
Proof.
  intros Hb. destruct bytes as [|first tl]; [done|]. assert (is_u8 first) as Hu by by inversion Hb.
  destruct (parse_len_ok first Hu) as (len & Hl & Hlen). destruct (Z.le_gt_cases len (zlen (first :: tl))) as [Hle|Hgt].
  - assert (zlen (ztake len (first :: tl)) = len) as Hz by (apply zlen_ztake; lia).
    destruct (whole_varint (ztake len (first :: tl)) first (take (Z.to_nat len - 1) tl)) as [v' Hv'].
    + by apply Forall_take.
    + unfold ztake. replace (Z.to_nat len) with (S (Z.to_nat len - 1)) by lia. cbn [take]. do 2 f_equal. lia.
    + by rewrite Hz.
    + rewrite <- (ztake_zdrop len (first :: tl)). rewrite (scan_varint_of _ _ _ Hv'). intros [= <- <-].
      exists (ztake len (first :: tl)). by rewrite ztake_zdrop.
  - unfold scan_varint, Octets.get_varint, Octets.with_slice.
    assert (Octets.peek_u8 (E:=H3.Error) (mk_octets (first :: tl) 0) = (Ok first, mk_octets (first :: tl) 0)) as Hp.
    { pose proof (peek_u_prefix (E:=H3.Error) 1 [] (first :: tl) []) as Hp. rewrite app_nil_r in Hp. cbn [app] in Hp.
      rewrite zlen_cons in *. pose proof (zlen_nonneg tl). apply Hp. lia. }
    rewrite (run_bind_ok _ _ _ _ _ Hp), (run_bind_lift _ _ _ _ Hl).
    pose proof (cap_run (E:=H3.Error) [] (first :: tl) []) as Hc. rewrite app_nil_r in Hc. cbn [app] in Hc. change (zlen []) with 0 in Hc.
    rewrite (run_bind_ok _ _ _ _ _ Hc). rewrite (proj2 (Z.ltb_lt _ _)) by lia. done.
Qed.

Lemma scan_partial q : bytes_ok q → partial_varint q → scan_varint q = None.
Proof.
  intros Hb Hq. destruct (scan_varint q) as [[v rest]|] eqn:Hs; [|done].
  apply scan_varint_inv in Hs as (b & -> & _ & _ & first & tl & -> & Hl & _); [|done]. cbn in Hq.
  destruct Hq as (len & Hl' & Hlt). rewrite Hl in Hl'. injection Hl' as <-.
  change (first :: tl ++ rest) with ((first :: tl) ++ rest) in Hlt. rewrite zlen_app in Hlt. pose proof (zlen_nonneg rest). lia.
Qed.

(** ** The frames of a stream *)

(** What the receiver of a stream gets: whole frames, and the bytes of DATA
    frames one by one. *)
Inductive out :=
| OFrame (ty : Z) (payload : list Z)
| OBody (b : Z).

Definition outs_of (ty : Z) (payload : list Z) : list out :=
  if ty =? DATA_FRAME_TYPE_ID then OBody <$> payload else [OFrame ty payload].

Fixpoint scan_frames (fuel : nat) (bytes : list Z) : list out :=
  match fuel with
  | O => []
  | S fuel =>
      match scan_varint bytes with
      | None => []
      | Some (ty, rest) =>
          match scan_varint rest with
          | None => []
          | Some (len, rest) =>
              if len <=? zlen rest then outs_of ty (ztake len rest) ++ scan_frames fuel (zdrop len rest)
              else if ty =? DATA_FRAME_TYPE_ID then OBody <$> rest
              else []
          end
      end
  end.

(** A frame takes two bytes at least. *)
Definition scan (bytes : list Z) : list out := scan_frames (length bytes) bytes.

Lemma varint_of_pos b v : varint_of b v → (0 < length b)%nat.
Proof. intros (_ & _ & first & tl & -> & _). cbn. lia. Qed.

Lemma scan_frames_fuel n m bytes : bytes_ok bytes → (length bytes <= n)%nat → (length bytes <= m)%nat →
  scan_frames n bytes = scan_frames m bytes.
Proof.
  revert m bytes. induction n as [|n IH]; intros m bytes Hb Hn Hm.
  - destruct bytes; [|cbn in Hn; lia]. by destruct m.
  - destruct m as [|m]; [destruct bytes; [done|cbn in Hm; lia]|]. cbn [scan_frames].
    destruct (scan_varint bytes) as [[ty r1]|] eqn:H1; [|done]. apply scan_varint_inv in H1 as (b1 & -> & Hb1); [|done].
    apply Forall_app in Hb as [_ Hb]. destruct (scan_varint r1) as [[len r2]|] eqn:H2; [|done].
    apply scan_varint_inv in H2 as (b2 & -> & Hb2); [|done]. apply Forall_app in Hb as [_ Hb].
    apply varint_of_pos in Hb1. apply varint_of_pos in Hb2. rewrite !length_app in *.
    destruct (len <=? zlen r2); [|done]. f_equal. apply IH; [by apply Forall_drop|..]; unfold zdrop; rewrite length_drop; lia.
Qed.

Lemma scan_enough n bytes : bytes_ok bytes → (length bytes <= n)%nat → scan_frames n bytes = scan bytes.
Proof. intros. by apply scan_frames_fuel. Qed.

(** One frame whose length is known. *)
Lemma scan_one b1 ty b2 len rest : varint_of b1 ty → varint_of b2 len → bytes_ok rest →
  scan (b1 ++ b2 ++ rest) =
    if len <=? zlen rest then outs_of ty (ztake len rest) ++ scan (zdrop len rest)
    else if ty =? DATA_FRAME_TYPE_ID then OBody <$> rest else [].
Proof.
  intros H1 H2 Hb. unfold scan at 1. pose proof (varint_of_pos _ _ H1). rewrite !length_app.
  destruct (length b1 + (length b2 + length rest))%nat as [|n] eqn:Hn; [lia|]. cbn [scan_frames].
  rewrite (scan_varint_of _ _ _ H1), (scan_varint_of _ _ _ H2). destruct (len <=? zlen rest); [|done]. f_equal.
  apply scan_enough; [by apply Forall_drop|]. unfold zdrop. rewrite length_drop. lia.
Qed.

Lemma scan_frame b1 ty b2 payload rest : varint_of b1 ty → varint_of b2 (zlen payload) → bytes_ok payload → bytes_ok rest →
  scan (b1 ++ b2 ++ payload ++ rest) = outs_of ty payload ++ scan rest.
Proof.
  intros H1 H2 Hp Hr. rewrite (scan_one _ _ _ _ _ H1 H2) by by apply Forall_app. rewrite zlen_app. pose proof (zlen_nonneg rest).
  rewrite (proj2 (Z.leb_le _ _)) by lia. by rewrite ztake_app, zdrop_app.
Qed.

(** Unfinished frames. *)
Lemma scan_type_part q : bytes_ok q → partial_varint q → scan q = [].
Proof. intros Hb Hq. unfold scan. destruct (length q); [done|]. cbn [scan_frames]. by rewrite scan_partial. Qed.
Lemma scan_len_part b1 ty q : varint_of b1 ty → bytes_ok q → partial_varint q → scan (b1 ++ q) = [].
Proof.
  intros H1 Hb Hq. unfold scan. destruct (length (b1 ++ q)); [done|]. cbn [scan_frames].
  by rewrite (scan_varint_of _ _ _ H1), scan_partial.
Qed.
Lemma scan_type_only b1 ty : varint_of b1 ty → scan b1 = [].
Proof. intros H1. rewrite <- (app_nil_r b1). eapply scan_len_part; [done|constructor|exact I]. Qed.
Lemma scan_payload_part b1 ty b2 len q : varint_of b1 ty → varint_of b2 len → bytes_ok q → ty ≠ DATA_FRAME_TYPE_ID →
  zlen q < len → scan (b1 ++ b2 ++ q) = [].
Proof. intros H1 H2 Hb Hty Hl. rewrite (scan_one _ _ _ _ _ H1 H2 Hb). by rewrite (proj2 (Z.leb_gt _ _)), (proj2 (Z.eqb_neq _ _)). Qed.
Lemma scan_data_part b1 b2 len q : varint_of b1 DATA_FRAME_TYPE_ID → varint_of b2 len → bytes_ok q →
  zlen q <= len → scan (b1 ++ b2 ++ q) = OBody <$> q.
Proof.
  intros H1 H2 Hb Hl. rewrite (scan_one _ _ _ _ _ H1 H2 Hb). destruct (Z.leb_spec len (zlen q)); [|done].
  rewrite ztake_all, zdrop_all by lia. by rewrite app_nil_r.
Qed.

(** More bytes only add to what was parsed. *)
Lemma scan_frames_mono n r x : bytes_ok (r ++ x) → (length (r ++ x) <= n)%nat → scan_frames n r `prefix_of` scan_frames n (r ++ x).
Proof.
  revert r. induction n as [|n IH]; intros r Hb Hn; [apply prefix_nil|]. cbn [scan_frames].
  pose proof (proj1 (proj1 (Forall_app _ _ _) Hb)) as Hbr.
  destruct (scan_varint r) as [[ty r1]|] eqn:H1; [|apply prefix_nil]. apply scan_varint_inv in H1 as (b1 & -> & H1); [|done].
  rewrite <- app_assoc, (scan_varint_of _ _ _ H1). rewrite <- app_assoc in Hb, Hn. apply Forall_app in Hbr as [_ Hbr]. apply Forall_app in Hb as [_ Hb].
  destruct (scan_varint r1) as [[len r2]|] eqn:H2; [|apply prefix_nil]. apply scan_varint_inv in H2 as (b2 & -> & H2); [|done].
  rewrite <- app_assoc, (scan_varint_of _ _ _ H2). rewrite <- app_assoc in Hb, Hn. apply Forall_app in Hb as [_ Hb].
  assert (0 <= len) by (destruct H2 as [[? _] _]; done). apply varint_of_pos in H1. apply varint_of_pos in H2. rewrite !length_app in Hn.
  rewrite zlen_app; pose proof (zlen_nonneg x); pose proof (zlen_nonneg r2).
  destruct (Z.leb_spec len (zlen r2)).
  - rewrite (proj2 (Z.leb_le _ _)) by lia. unfold ztake, zdrop. unfold zlen in *. rewrite take_app_le, drop_app_le by lia. apply prefix_app.
    apply IH; [apply Forall_app in Hb as [? ?]; apply Forall_app; split; [by apply Forall_drop|done]|rewrite length_app, length_drop; lia].
  - destruct (Z.leb_spec len (zlen r2 + zlen x)).
    + destruct (Z.eqb_spec ty DATA_FRAME_TYPE_ID) as [-> |]; [|apply prefix_nil]. unfold outs_of. rewrite Z.eqb_refl.
      apply prefix_app_r. unfold ztake, zlen in *. rewrite take_app_ge, fmap_app by lia. by apply prefix_app_r.
    + destruct (ty =? DATA_FRAME_TYPE_ID); [|done]. rewrite fmap_app. by apply prefix_app_r.
Qed.

Lemma scan_mono r x : bytes_ok (r ++ x) → scan r `prefix_of` scan (r ++ x).
Proof.
  intros Hb. rewrite <- (scan_enough (length (r ++ x)) r); [|by apply (Forall_app _ r x)|rewrite length_app; lia].
  rewrite <- (scan_enough (length (r ++ x)) (r ++ x)) by done. by apply scan_frames_mono.
Qed.

(** A stream that consists of whole frames. *)
Inductive closed : list Z → list out → Prop :=
| closed_nil : closed [] []
| closed_snoc p outs b1 ty b2 payload : closed p outs → varint_of b1 ty → varint_of b2 (zlen payload) → bytes_ok payload →
    closed (p ++ b1 ++ b2 ++ payload) (outs ++ outs_of ty payload).

Lemma closed_bytes p outs : closed p outs → bytes_ok p.
Proof. induction 1 as [|p outs b1 ty b2 payload _ IH (_ & H1 & _) (_ & H2 & _) Hb]; [constructor|]. by repeat (apply Forall_app; split). Qed.

Lemma scan_closed p outs rest : closed p outs → bytes_ok rest → scan (p ++ rest) = outs ++ scan rest.
Proof.
  intros Hc. revert rest. induction Hc as [|p outs b1 ty b2 payload Hp IH H1 H2 Hb]; intros rest Hr; [done|].
  rewrite <- !app_assoc, IH; [by rewrite (scan_frame _ _ _ _ _ H1 H2 Hb Hr)|].
  destruct H1 as (_ & H1 & _), H2 as (_ & H2 & _). by repeat (apply Forall_app; split).
Qed.

(** The frames of a sender. *)
Lemma closed_wire fs : Forall h3_frame_ok fs → Forall (λ f, bytes_ok (h3_payload f) ∧ is_varint (h3_type f)) fs →
  closed (mjoin (h3_wire <$> fs)) (mjoin ((λ f, outs_of (h3_type f) (h3_payload f)) <$> fs)).
Proof.
  induction fs as [|f fs IH] using rev_ind; intros Hok Hb; [constructor|].
  apply Forall_app in Hok as [Hoks Hok]. apply Forall_app in Hb as [Hbs Hb]. rewrite Forall_singleton in Hok, Hb. destruct Hb as [Hb Ht].
  rewrite !fmap_app, !join_app. cbn. rewrite !app_nil_r. unfold h3_wire.
  apply closed_snoc; [by apply IH|by apply varint_of_enc|apply varint_of_enc, Hok|done].
Qed.
