(* ===== verification/H3Inv.v ===== *)
(** * Parsing one HTTP/3 stream

    What the HTTP/3 layer relies on in the transport ([TransportLaws]), the
    invariant of a stream that relates its state to the bytes read so far, and
    that every method of [H3Streams.v] keeps it. *)
From S2P Require Import Prelude OctetsLib Streams ConnStreams ConnInv H3Frames H3Streams H3Scan.

(** ** The laws of the transport

    [history i] are the bytes that have been read from stream [i] and [backlog
    i] bounds those that can still be read before the peer sends more; nothing
    more will come on a stream that is [over].  [sent i] are the bytes that were
    accepted for sending; the next [n] are certain to be when it [takes i n]. *)
Class TransportGhost (C : Type) := {
  t_ok : C → Prop;
  history : Z → C → list Z;
  backlog : Z → C → Z;
  over : Z → C → Prop;
  sent : Z → C → list Z;
  takes : Z → Z → C → Prop
}.

(** The transport moved on without a byte being read or written; [bytes] were
    read from [i]; [bytes] were written to [i]. *)
Definition unread {C} `{TransportGhost C} (j : Z) (c c' : C) : Prop :=
  history j c' = history j c ∧ backlog j c' <= backlog j c ∧ (over j c → over j c').
Definition quiet {C} `{TransportGhost C} (c c' : C) : Prop :=
  t_ok c' ∧ ∀ j, unread j c c' ∧ sent j c' = sent j c.
Definition moved {C} `{TransportGhost C} (i : Z) (c c' : C) (bytes : list Z) : Prop :=
  t_ok c' ∧ history i c' = history i c ++ bytes ∧ backlog i c' + zlen bytes <= backlog i c ∧ (over i c → bytes = [] ∧ over i c') ∧
  (∀ j, j ≠ i → unread j c c') ∧ ∀ j, sent j c' = sent j c.
Definition wrote {C} `{TransportGhost C} (i : Z) (c c' : C) (bytes : list Z) : Prop :=
  t_ok c' ∧ sent i c' = sent i c ++ bytes ∧ (∀ j, j ≠ i → sent j c' = sent j c) ∧ ∀ j, unread j c c'.

Class TransportLaws (C : Type) `{Transport C} `{TransportGhost C} := {
  backlog_nonneg i c : t_ok c → 0 <= backlog i c;
  (** A stream that does not exist counts as finished. *)
  finished_law i c : t_ok c → stream_finished i c = true → over i c ∨ history i c = [];
  recv_law i cap c : t_ok c → 0 <= cap →
    wp (stream_recv i cap)
      (λ r c', moved i c c' r.1 ∧ zlen r.1 <= cap ∧ bytes_ok r.1 ∧ (0 < cap → backlog i c' < backlog i c))
      (λ _ c', quiet c c') c;
  close_law app err reason c : t_ok c → wp (conn_close app err reason) (λ _ c', quiet c c') (λ _ c', quiet c c') c;
  close_marks app err reason c c' : conn_close app err reason c = (Ok tt, c') → conn_failed c' = true;
  shutdown_law i dir err c : t_ok c → wp (stream_shutdown i dir err) (λ _ c', quiet c c') (λ _ c', quiet c c') c;
  priority_law i urgency incremental c : t_ok c →
    wp (stream_priority i urgency incremental) (λ _ c', quiet c c') (λ _ c', quiet c c') c;
  send_law i bytes fin c : t_ok c →
    wp (stream_send i bytes fin) (λ n c', 0 <= n <= zlen bytes ∧ wrote i c c' (ztake n bytes)) (λ _ c', quiet c c') c;
  (** What fits the capacity is taken whole, and so is what follows it. *)
  capacity_law i cap c : t_ok c → stream_capacity i c = Ok cap → 0 <= cap ∧ ∀ bytes, zlen bytes <= cap →
    wp (stream_send i bytes false) (λ n c', n = zlen bytes ∧ takes i (cap - n) c') (λ _ _, True) c;
  takes_law i room c : t_ok c → takes i room c → ∀ bytes fin, zlen bytes <= room →
    wp (stream_send i bytes fin) (λ n c', n = zlen bytes ∧ (fin = false → takes i (room - n) c')) (λ _ _, False) c;
  writable_law i n c : t_ok c → n <= 2 ^ 63 →
    wp (stream_writable i n)
      (λ b c', quiet c c' ∧ (b = true → ∃ cap, n <= cap ∧ stream_capacity i c' = Ok cap)) (λ _ c', quiet c c') c;
  capacity_safe i c : t_ok c → stream_capacity i c ≠ Panic;
  limit_law c : t_ok c → 0 <= max_streams_bidi c <= 2 ^ 60
}.

Section stream.
Context {C : Type} {HT : Transport C} {HG : TransportGhost C} {HL : TransportLaws C}.
Import H3Stream.
Implicit Types (s : t) (c : C).

Lemma unread_refl j c : unread j c c.
Proof. split_and!; [done|lia|done]. Qed.
Lemma unread_trans j c c1 c2 : unread j c c1 → unread j c1 c2 → unread j c c2.
Proof. intros (? & ? & ?) (? & ? & ?). split_and!; [congruence|lia|auto]. Qed.
Lemma quiet_refl c : t_ok c → quiet c c.
Proof. intros Hok. split; [done|]. intros j. split; [apply unread_refl|done]. Qed.
Lemma quiet_trans c c1 c2 : quiet c c1 → quiet c1 c2 → quiet c c2.
Proof.
  intros [_ H1] [Hok H2]. split; [done|]. intros j. destruct (H1 j), (H2 j). split; [by eapply unread_trans|congruence].
Qed.
Lemma quiet_moved i c c' : quiet c c' → moved i c c' [].
Proof.
  intros [Hok Hq]. destruct (Hq i) as [(Hh & Hb & Ho) _]. split_and!; [done|by rewrite app_nil_r|rewrite zlen_nil; lia|auto|..]; intros; apply Hq.
Qed.
Lemma moved_refl i c : t_ok c → moved i c c [].
Proof. intros. by apply quiet_moved, quiet_refl. Qed.
Lemma moved_trans i c c1 c2 b1 b2 : moved i c c1 b1 → moved i c1 c2 b2 → moved i c c2 (b1 ++ b2).
Proof.
  intros (_ & Hh1 & Hb1 & Hv1 & Ho1 & Hs1) (Hok & Hh2 & Hb2 & Hv2 & Ho2 & Hs2). split_and!; [done| |rewrite zlen_app; lia|intros Hv; destruct (Hv1 Hv) as [-> Hv']; destruct (Hv2 Hv') as [-> ?]; done|..].
  - by rewrite Hh2, Hh1, app_assoc.
  - intros j Hj. by eapply unread_trans; [apply Ho1|apply Ho2].
  - intros j. by rewrite Hs2.
Qed.

(** ** The buffer *)

Definition buffered s : list Z := ztake (state_off s) (state_buf s).

(** The buffer of a state that reads a varint, between two calls: nothing read
    yet, or its length is known. *)
Definition varint_buf s : Prop :=
  bytes_ok (state_buf s) ∧ 0 <= state_off s <= state_len s ∧ state_len s <= zlen (state_buf s) ∧
  (state_off s = 0 ∧ state_len s = 1 ∨
   ∃ first rest, state_buf s = first :: rest ∧ varint_parse_len (E:=Error) first = Ok (state_len s) ∧
     zlen (state_buf s) = state_len s ∧ 1 <= state_off s).

(** Fields other than the buffer. *)
Definition same_but_buf s s' : Prop :=
  id s' = id s ∧ ty_ s' = ty_ s ∧ state s' = state s ∧ frame_type s' = frame_type s ∧ is_local s' = is_local s ∧
  remote_initialized s' = remote_initialized s ∧ local_initialized s' = local_initialized s ∧
  last_priority_update s' = last_priority_update s.

Lemma same_but_buf_refl s : same_but_buf s s.
Proof. done. Qed.

Lemma bytes_ok_resize n l : bytes_ok l → bytes_ok (resize n l).
Proof. intros Hl. apply Forall_app. split; [by apply Forall_take|]. apply Forall_replicate. unfold is_u8. lia. Qed.
Lemma zlen_resize n l : 0 <= n → zlen (resize n l) = n.
Proof. intros Hn. unfold resize, ztake, zlen. rewrite length_app, length_take, length_replicate. lia. Qed.

Lemma wp_on_self {A} (m : M t Error A) s c Q QE :
  wp m (λ a s', Q a (s', c)) (λ e s', QE e (s', c)) s → wp (on_self m) Q QE (s, c).
Proof. unfold wp, on_self. by destruct (m s) as [[] ?]. Qed.

(** *** Filling it *)

(** [bytes] were appended to what was read. *)
Definition filled s s' (bytes : list Z) : Prop :=
  same_but_buf s s' ∧ state_len s' = state_len s ∧ state_off s' = state_off s + zlen bytes ∧
  state_buf s' = zsplice (state_off s) bytes (state_buf s) ∧ state_off s' <= state_len s' ∧ bytes_ok bytes.

Lemma wp_recv_or_rearm cap s c Q QE : t_ok c → 0 <= cap →
  (∀ bytes fin c', moved (id s) c c' bytes → zlen bytes <= cap → bytes_ok bytes → (0 < cap → backlog (id s) c' < backlog (id s) c) →
    Q (bytes, fin) (s, c')) →
  (∀ e s' c', quiet c c' → s' = s ∨ s' = reset_data_event s → QE e (s', c')) →
  wp (recv_or_rearm cap) Q QE (s, c).
Proof.
  intros Hok Hcap HQ HQE. unfold recv_or_rearm. apply wp_bind, wp_get, wp_bind, wp_attempt. unfold on_conn, wp.
  pose proof (recv_law (id s) cap c Hok Hcap) as Hr. unfold wp in Hr. destruct (stream_recv (id s) cap c) as [[[bytes fin]|e|] c'].
  - destruct Hr as (? & ? & ? & ?). by apply HQ.
  - change (wp ((if bool_decide (H3.from_transport e = H3.Done) then on_self (modify reset_data_event) else mret ());; fail (H3.from_transport e)) Q QE (s, c')).
    apply wp_bind. case_bool_decide; apply wp_fail; apply HQE; auto.
  - done.
Qed.

Lemma wp_try_fill_buffer s c Q QE : t_ok c → 0 <= state_off s <= state_len s → state_len s <= zlen (state_buf s) →
  (∀ s' c' bytes, filled s s' bytes → moved (id s) c c' bytes → state_off s' = state_len s' → Q () (s', c')) →
  (∀ e s' c' bytes, filled s s' bytes → moved (id s) c c' bytes → state_off s' < state_len s' → QE e (s', c')) →
  wp try_fill_buffer Q QE (s, c).
Proof.
  intros Hok Hoff Hlen HQ HQE. unfold try_fill_buffer. apply wp_bind, wp_get. unfold state_buffer_complete.
  assert (∀ s', same_but_buf s s' → state_len s' = state_len s → state_off s' = state_off s → state_buf s' = state_buf s → filled s s' []) as Hnil.
  { intros s' ? E1 E2 E3. unfold filled. rewrite E1, E2, E3. split_and!; [done|done|rewrite zlen_nil; lia| |lia|constructor].
    unfold zsplice. by rewrite zlen_nil, Z.add_0_r, app_nil_l, ztake_zdrop. }
  destruct (Z.eqb_spec (state_off s) (state_len s)); [apply wp_ret; eapply HQ; [by apply Hnil|by apply moved_refl|done]|].
  rewrite (proj2 (Z.ltb_ge _ _)) by lia. rewrite (proj2 (Z.ltb_ge _ _)) by lia. cbn [orb].
  apply wp_bind, wp_recv_or_rearm; [done|lia| |].
  - intros bytes fin c' Hm Hl Hb _. unfold on_self. apply wp_bind. cbn.
    set (s' := set_state_off _ _). assert (filled s s' bytes) as Hf by (split_and!; [done|done|done|done|cbn; lia|done]).
    apply wp_bind, wp_get. destruct (Z.eqb_spec (state_off s') (state_len s')); cbn [negb]; [apply wp_ret; by eapply HQ|].
    apply wp_bind. cbn. eapply HQE; [|exact Hm|destruct Hf as (_ & _ & _ & _ & ? & _); cbn in *; lia]. exact Hf.
  - intros e s' c' Hq Hs. eapply HQE; [|by apply quiet_moved|]; destruct Hs as [-> | ->]; first [by apply Hnil|cbn; lia].
Qed.

Lemma ztake_cons1 (x : Z) l : ztake 1 (x :: l) = [x].
Proof. unfold ztake. by destruct l. Qed.
Lemma zsplice_within (l : list Z) i bytes : 0 <= i → i + zlen bytes <= zlen l →
  zlen (zsplice i bytes l) = zlen l ∧ ztake (i + zlen bytes) (zsplice i bytes l) = ztake i l ++ bytes ∧ (1 <= i → head (zsplice i bytes l) = head l).
Proof.
  intros Hi Hl. pose proof (zlen_nonneg bytes). unfold zsplice. assert (zlen (ztake i l) = i) as Hz by (apply zlen_ztake; lia). split_and!.
  - rewrite !zlen_app, Hz, zlen_zdrop by lia. lia.
  - rewrite app_assoc. apply ztake_app'. by rewrite zlen_app, Hz.
  - intros H1. destruct l as [|x l]; [change (zlen []) with 0 in Hl; lia|]. unfold ztake. by replace (Z.to_nat i) with (Datatypes.S (Z.to_nat i - 1)) by lia.
Qed.

Lemma bytes_ok_zsplice i bytes l : bytes_ok l → bytes_ok bytes → bytes_ok (zsplice i bytes l).
Proof. intros Hl Hb. apply Forall_app. split; [by apply Forall_take|]. apply Forall_app. split; [done|by apply Forall_drop]. Qed.

Lemma filled_buf s s' bytes : bytes_ok (state_buf s) → 0 <= state_off s → state_len s <= zlen (state_buf s) → filled s s' bytes →
  bytes_ok (state_buf s') ∧ zlen (state_buf s') = zlen (state_buf s) ∧ buffered s' = buffered s ++ bytes ∧
  (1 <= state_off s → head (state_buf s') = head (state_buf s)).
Proof.
  intros Hb Hoff Hlen (_ & El & Eo & Eb & Hle & Hbytes). destruct (zsplice_within (state_buf s) (state_off s) bytes Hoff ltac:(lia)) as (Hz & Ht & Hh).
  unfold buffered. rewrite Eo, Eb. split_and!; [by apply bytes_ok_zsplice|done|done|done].
Qed.

(** *** Reading a varint from it *)

Lemma wp_try_consume_varint s first rest n Q QE : bytes_ok (state_buf s) → state_buf s = first :: rest →
  varint_parse_len (E:=Error) first = Ok n → state_off s = state_len s → state_len s <= zlen (state_buf s) →
  state_off s = 1 ∨ state_off s = n ∧ zlen (state_buf s) = n →
  (∀ v s', same_but_buf s s' → varint_buf s' → state_off s' = state_off s → buffered s' = buffered s → varint_of (buffered s) v → Q v s') →
  (∀ e s', same_but_buf s s' → varint_buf s' → state_off s' = state_off s → buffered s' = buffered s → state_off s = 1 → n ≠ 1 → QE e s') →
  wp try_consume_varint Q QE s.
Proof.
  intros Hb Hf Hn Heq Hle Hcase HQ HQE. assert (is_u8 first) as Hu by (rewrite Hf in Hb; by inversion Hb).
  destruct (parse_len_ok first Hu) as (n' & Hn' & Hlen). rewrite Hn in Hn'. injection Hn' as <-.
  assert (∀ s', same_but_buf s s' → head (state_buf s') = Some first → bytes_ok (state_buf s') → zlen (state_buf s') = n →
    state_len s' = n → state_off s' = n → state_off s = n → buffered s' = buffered s →
    wp (s ← get; if negb (state_buffer_complete s) then fail H3.Done else lift (Octets.get_varint (Octets.with_slice (state_buf s))).1) Q QE s') as Hget.
  { intros s' Hs Hh Hb' Hz El Eo Eo' Hbuf. apply wp_bind, wp_get. unfold state_buffer_complete. rewrite El, Eo, Z.eqb_refl. cbn [negb].
    destruct (state_buf s') as [|x rest'] eqn:Eb; [done|]. injection Hh as ->.
    assert (buffered s' = first :: rest') as Hall by (unfold buffered; rewrite Eo, Eb; apply ztake_all; lia).
    destruct (whole_varint (first :: rest') first rest' Hb' eq_refl ltac:(by rewrite Hz)) as [v Hv].
    pose proof Hv as (_ & _ & _ & _ & _ & _ & Hp). specialize (Hp [] []). rewrite app_nil_r in Hp.
    change (mk_octets ([] ++ ?l) (zlen [])) with (Octets.with_slice l) in Hp. eapply wp_lift; [by rewrite Hp|].
    apply HQ; [done| |lia|done|by rewrite <- Hbuf, Hall].
    unfold varint_buf. rewrite Eb, El, Eo. split_and!; [done|lia|lia|lia|]. right. exists first, rest'. split_and!; [done|done|done|lia]. }
  unfold try_consume_varint. apply wp_bind, wp_get. destruct (Z.eqb_spec (state_off s) 1) as [E1|E1].
  - rewrite Hf. apply wp_bind, wp_bind. eapply wp_lift; [done|]. apply wp_modify. set (s1 := set_state_buf _ _).
    assert (zlen (state_buf s1) = n) as Hz by (apply zlen_resize; lia).
    assert (bytes_ok (state_buf s1)) as Hb1 by by apply bytes_ok_resize.
    assert (head (state_buf s1) = Some first) as Hh.
    { cbn. rewrite Hf. unfold resize, ztake. by replace (Z.to_nat n) with (Datatypes.S (Z.to_nat n - 1)) by lia. }
    assert (buffered s1 = buffered s) as Hbuf.
    { unfold buffered. change (state_off s1) with (state_off s). rewrite E1, Hf. destruct (state_buf s1) as [|x rest']; [done|]. injection Hh as ->. by rewrite !ztake_cons1. }
    destruct (decide (n = 1)) as [Hn1|Hn1]; [by apply Hget; [done..|cbn; lia|lia|]|].
    apply wp_bind, wp_get. unfold state_buffer_complete. rewrite (proj2 (Z.eqb_neq _ _)) by (cbn; lia). cbn [negb]. apply wp_fail.
    apply HQE; [done| |done|done|done|done]. unfold varint_buf. rewrite Hz. change (state_len s1) with n. change (state_off s1) with (state_off s).
    split_and!; [done|lia|lia|lia|]. right. destruct (state_buf s1) as [|x rest']; [done|]. injection Hh as ->. exists first, rest'. split_and!; [done|done|done|lia].
  - destruct Hcase as [?|[Ho Hz]]; [lia|]. apply wp_bind, wp_ret. apply Hget; [done|by rewrite Hf|done|done|lia|done|done|done].
Qed.

(** A first byte is there and the state's bytes are complete. *)
Definition varint_ready s : Prop :=
  bytes_ok (state_buf s) ∧ state_off s = state_len s ∧ state_len s <= zlen (state_buf s) ∧
  ∃ first rest n, state_buf s = first :: rest ∧ varint_parse_len (E:=Error) first = Ok n ∧
    (state_off s = 1 ∨ state_off s = n ∧ zlen (state_buf s) = n).

Lemma varint_buf_filled s s' bytes : varint_buf s → filled s s' bytes →
  buffered s' = buffered s ++ bytes ∧
  (state_off s' < state_len s' → varint_buf s') ∧
  (state_off s' = state_len s' → varint_ready s' ∧ (1 <= zlen bytes ∨ varint_buf s')).
Proof.
  intros (Hb & Hoff & Hlen & Hcase) Hf. destruct (filled_buf s s' bytes Hb ltac:(lia) Hlen Hf) as (Hb' & Hz & Hbuf & Hhead).
  destruct Hf as (_ & El & Eo & Eb & Hle & _). pose proof (zlen_nonneg bytes). split; [done|].
  destruct Hcase as [[E0 E1]|(first & rest & Ef & Hp & Hz' & H1)].
  - rewrite E0, E1 in *. split.
    + intros Hlt. unfold varint_buf. rewrite El. split_and!; [done|lia|lia|lia|left; lia].
    + intros Heq. split; [|lia]. split_and!; [done|done|lia|].
      destruct (state_buf s') as [|first rest] eqn:Es; [change (zlen []) with 0 in Hz; lia|]. assert (is_u8 first) as Hu by by inversion Hb'.
      destruct (parse_len_ok first Hu) as (n & Hn & _). exists first, rest, n. split_and!; [done|done|left; lia].
  - rewrite Ef in Hhead. specialize (Hhead H1). destruct (state_buf s') as [|x rest'] eqn:Es; [done|]. injection Hhead as ->. rewrite <- Es in *.
    assert (varint_buf s') as Hv.
    { unfold varint_buf. rewrite El. split_and!; [done|lia|lia|lia|]. right. exists first, rest'. rewrite Es, <- Es. split_and!; [done|done|lia|lia]. }
    split; [done|]. intros Heq. split; [|by right]. split_and!; [done|done|lia|]. exists first, rest', (state_len s). split_and!; [done|done|]. right. lia.
Qed.

(** Filling and reading a varint. *)
Lemma wp_fill_varint s c Q QE : t_ok c → varint_buf s →
  (∀ s' c' bytes, same_but_buf s s' → varint_ready s' → buffered s' = buffered s ++ bytes → moved (id s) c c' bytes →
    1 <= zlen bytes ∨ varint_buf s' → Q () (s', c')) →
  (∀ e s' c' bytes, same_but_buf s s' → varint_buf s' → buffered s' = buffered s ++ bytes → moved (id s) c c' bytes → QE e (s', c')) →
  wp try_fill_buffer Q QE (s, c).
Proof.
  intros Hok Hv HQ HQE. pose proof Hv as (Hb & Hoff & Hlen & _). apply wp_try_fill_buffer; [done|done|done|..].
  - intros s' c' bytes Hf Hm Heq. destruct (varint_buf_filled s s' bytes Hv Hf) as (Hbuf & _ & Hr).
    destruct (Hr Heq). eapply HQ; [apply Hf|done..].
  - intros e s' c' bytes Hf Hm Hlt. destruct (varint_buf_filled s s' bytes Hv Hf) as (Hbuf & Hi & Hr).
    eapply HQE; [apply Hf|auto|done..].
Qed.

(** ** Where a stream stands

    [r] are the bytes read from the stream and [outs] what came out of it: the
    type of a unidirectional stream (and a push id) come first, then frames. *)
Definition framed s : Prop := ty_ s ∈ [Some Control; Some Request; Some Push].

Definition stands s (pre r : list Z) (outs : list out) : Prop :=
  match state s with
  | StreamType => outs = [] ∧ pre = [] ∧ r = buffered s ∧ varint_buf s
  | PushId => outs = [] ∧ r = buffered s ∧ varint_buf s ∧ framed s
  | FrameType => ∃ p, closed p outs ∧ r = p ++ buffered s ∧ varint_buf s ∧ framed s
  | FramePayloadLen => ∃ p b1 ty, closed p outs ∧ varint_of b1 ty ∧ frame_type s = Some ty ∧
      r = p ++ b1 ++ buffered s ∧ varint_buf s ∧ framed s
  | FramePayload => ∃ p b1 ty b2, closed p outs ∧ varint_of b1 ty ∧ frame_type s = Some ty ∧ ty ≠ DATA_FRAME_TYPE_ID ∧
      varint_of b2 (state_len s) ∧ r = p ++ b1 ++ b2 ++ buffered s ∧
      0 <= state_off s <= state_len s ∧ zlen (state_buf s) = state_len s ∧ framed s
  | Data => ∃ p outs0 b1 b2 d, closed p outs0 ∧ varint_of b1 DATA_FRAME_TYPE_ID ∧ varint_of b2 (state_len s) ∧
      r = p ++ b1 ++ b2 ++ d ∧ zlen d = state_off s ∧ state_off s <= state_len s ∧ outs = outs0 ++ (OBody <$> d) ∧ framed s
  | QpackInstruction | Drain => outs = []
  | Finished => is_bidi (id s) = true → ∃ rest, scan r = outs ++ rest ∧ (length rest <= 1)%nat
  end.

Definition position s (read : list Z) (outs : list out) : Prop :=
  bytes_ok read ∧ bytes_ok (state_buf s) ∧
  ∃ pre r, read = pre ++ r ∧ stands s pre r outs ∧
    (is_bidi (id s) = true → pre = [] ∧ state s ∉ [StreamType; PushId; QpackInstruction; Drain]).

(** Whatever the state, what came out is what the reference parser finds, up to
    the frame that is being read. *)
Lemma varint_buf_part s : varint_buf s → partial_varint (buffered s) ∨ ∃ v, varint_of (buffered s) v.
Proof.
  intros (Hb & Hoff & Hlen & Hc). destruct Hc as [[E0 E1]|(first & rest & Ef & Hp & Hz & H1)].
  - left. unfold buffered. by rewrite E0.
  - unfold buffered. destruct (Z.lt_ge_cases (state_off s) (state_len s)) as [Hlt|Hge].
    + left. rewrite Ef. unfold ztake. replace (Z.to_nat (state_off s)) with (Datatypes.S (Z.to_nat (state_off s) - 1)) by lia.
      exists (state_len s). split; [done|]. unfold zlen in *. cbn [length]. rewrite length_take. rewrite Ef in Hlen. cbn [length] in *. lia.
    + right. rewrite ztake_all by lia. eapply whole_varint; [done|done|by rewrite Hz].
Qed.

Lemma scan_stands s pre r outs : stands s pre r outs → bytes_ok r → is_bidi (id s) = true → state s ∉ [StreamType; PushId; QpackInstruction; Drain] →
  ∃ rest, scan r = outs ++ rest ∧ (length rest <= 1)%nat.
Proof.
  unfold stands. intros Hs Hr Hbi Hst. destruct (state s) eqn:Est.
  - by destruct Hst; left.
  - destruct Hs as (p & Hp & -> & Hv & _). apply Forall_app in Hr as [_ Hr]. exists []. rewrite (scan_closed _ _ _ Hp Hr).
    split; [|cbn; lia]. f_equal. destruct (varint_buf_part s Hv) as [Hq|[v Hv']]; [by apply scan_type_part|by eapply scan_type_only].
  - destruct Hs as (p & b1 & ty & Hp & H1 & _ & -> & Hv & _). apply Forall_app in Hr as [_ Hr]. rewrite (scan_closed _ _ _ Hp Hr).
    apply Forall_app in Hr as [_ Hr]. destruct (varint_buf_part s Hv) as [Hq|[v Hv']].
    + exists []. split; [|cbn; lia]. f_equal. by eapply scan_len_part.
    + pose proof (scan_one b1 ty (buffered s) v [] H1 Hv' ltac:(constructor)) as Ho. rewrite !app_nil_r in Ho. rewrite Ho.
      change (zlen []) with 0. destruct Hv' as [[Hv' _] _]. assert (zdrop v [] = @nil Z ∧ ztake v [] = @nil Z) as [-> ->] by (unfold zdrop, ztake; by rewrite drop_nil, take_nil).
      change (scan []) with (@nil out). rewrite app_nil_r. unfold outs_of. exists (if v <=? 0 then if ty =? DATA_FRAME_TYPE_ID then [] else [OFrame ty []] else []).
      destruct (v <=? 0), (ty =? DATA_FRAME_TYPE_ID); (split; [done|cbn; lia]).
  - destruct Hs as (p & b1 & ty & b2 & Hp & H1 & _ & Hty & H2 & -> & Ho & Hz & _). apply Forall_app in Hr as [_ Hr]. rewrite (scan_closed _ _ _ Hp Hr).
    do 2 apply Forall_app in Hr as [_ Hr]. rewrite (scan_one _ _ _ _ _ H1 H2 Hr). unfold outs_of. rewrite (proj2 (Z.eqb_neq _ _) Hty).
    assert (zlen (buffered s) = state_off s) as Hzb by (apply zlen_ztake; lia).
    destruct (Z.leb_spec (state_len s) (zlen (buffered s))); [|exists []; split; [done|cbn; lia]].
    rewrite ztake_all, zdrop_all by lia. eexists [_]. by split.
  - destruct Hs as (p & outs0 & b1 & b2 & d & Hp & H1 & H2 & -> & Hd & Hle & -> & _). apply Forall_app in Hr as [_ Hr]. rewrite (scan_closed _ _ _ Hp Hr).
    do 2 apply Forall_app in Hr as [_ Hr]. rewrite (scan_data_part _ _ _ _ H1 H2 Hr) by lia. exists []. split; [by rewrite app_nil_r|cbn; lia].
  - by destruct Hst; right; left.
  - by destruct Hst; do 2 right; left.
  - by destruct Hst; do 3 right; left.
  - auto.
Qed.

(** ** The transitions

    [bytes] more were read and [outs'] more came out. *)

(** [state_transition], when it does not fail. *)
Definition entered (st : State) (n : Z) (resize_ : bool) s : t :=
  set_state_len n (set_state_off 0 (set_state st (if resize_ then set_state_buf (resize n (state_buf s)) s else s))).

Lemma wp_state_transition st n rs s Q QE :
  ((rs = true → n <= MAX_STATE_BUF_SIZE) → Q () (entered st n rs s)) → (MAX_STATE_BUF_SIZE < n → rs = true → QE H3.ExcessiveLoad s) →
  wp (state_transition st n rs) Q QE s.
Proof.
  intros HQ HE. unfold state_transition. apply wp_bind. destruct rs.
  - destruct (Z.ltb_spec MAX_STATE_BUF_SIZE n); [by apply wp_fail, HE|]. by apply wp_modify, wp_modify, HQ.
  - by apply wp_ret, wp_modify, HQ.
Qed.

Lemma entered_varint st s : bytes_ok (state_buf s) →
  varint_buf (entered st 1 true s) ∧ buffered (entered st 1 true s) = [] ∧ bytes_ok (state_buf (entered st 1 true s)).
Proof.
  intros Hb. pose proof (bytes_ok_resize 1 _ Hb) as Hr. pose proof (zlen_resize 1 (state_buf s) ltac:(lia)) as Hz.
  split_and!; [|done|done]. unfold varint_buf. cbn. rewrite Hz. split_and!; [done|lia..|]. by left.
Qed.

(** A rank that each turn of the loop that reads nothing makes smaller. *)
Definition rank s : Z :=
  match state s with
  | StreamType | PushId | FrameType | FramePayloadLen => if state_off s =? 0 then 0 else 2
  | FramePayload | QpackInstruction => 1
  | _ => 0
  end.
Lemma rank_range s : 0 <= rank s <= 2.
Proof. unfold rank. destruct (state s), (state_off s =? 0); lia. Qed.

Definition reads_varint s : Prop := match state s with StreamType | PushId | FrameType | FramePayloadLen => True | _ => False end.

Lemma position_stands s read outs : position s read outs → ∃ pre r, read = pre ++ r ∧ stands s pre r outs.
Proof. intros (_ & _ & pre & r & -> & Hs & _). by exists pre, r. Qed.

Lemma position_varint_buf s read outs : reads_varint s → position s read outs → varint_buf s.
Proof.
  intros Hv Hp. destruct (position_stands _ _ _ Hp) as (pre & r & _ & Hs). unfold reads_varint in Hv. unfold stands in Hs.
  destruct (state s); by naive_solver.
Qed.

(** More bytes of a varint. *)
Lemma position_more s s' read bytes outs : position s read outs → reads_varint s → same_but_buf s s' → varint_buf s' →
  buffered s' = buffered s ++ bytes → position s' (read ++ bytes) outs.
Proof.
  intros (Hr & _ & pre & r & -> & Hs & Hbi) Hv (Ei & Ety & Est & Eft & _) Hv' Hbuf.
  assert (bytes_ok (state_buf s')) as Hb' by apply Hv'.
  assert (bytes_ok bytes) as Hb.
  { apply (Forall_take _ (Z.to_nat (state_off s'))) in Hb'. change (take _ _) with (buffered s') in Hb'. rewrite Hbuf in Hb'. by apply Forall_app in Hb' as [_ ?]. }
  split_and!; [by apply Forall_app; split|done|]. exists pre, (r ++ bytes). rewrite app_assoc, Ei, Est. split_and!; [done| |done].
  unfold stands, framed, reads_varint in *. rewrite Est, Ety, Eft. destruct (state s); try done.
  - destruct Hs as (? & ? & -> & _). by rewrite Hbuf.
  - destruct Hs as (p & ? & -> & _ & ?). exists p. by rewrite Hbuf, app_assoc.
  - destruct Hs as (p & b1 & ty & ? & ? & ? & -> & _ & ?). exists p, b1, ty. by rewrite Hbuf, !app_assoc.
  - destruct Hs as (? & -> & _ & ?). by rewrite Hbuf.
Qed.

(** A new state that starts after all the bytes read. *)
Lemma wp_enter st s read : bytes_ok read → bytes_ok (state_buf s) → is_bidi (id s) = false →
  framed s ∧ (st = PushId ∨ st = FrameType) ∨ st = QpackInstruction ∨ st = Drain →
  wp (state_transition st 1 true) (λ _ s', id s' = id s ∧ position s' read [] ∧ rank s' <= 1) (λ _ _, False) s.
Proof.
  intros Hr Hb Hbi Hst. apply wp_state_transition; [|unfold MAX_STATE_BUF_SIZE; lia]. intros _.
  destruct (entered_varint st s Hb) as (Hv & Hbuf & Hb'). split_and!; [done| |].
  - split_and!; [done|done|]. exists read, []. rewrite app_nil_r. split_and!; [done| |change (id (entered st 1 true s)) with (id s); congruence].
    unfold stands. change (state (entered st 1 true s)) with st. rewrite Hbuf. change (framed (entered st 1 true s)) with (framed s).
    destruct Hst as [[Hf [-> | ->]]|[-> | ->]]; [done| |done|done]. exists []. split_and!; [constructor|done..].
  - destruct Hst as [[Hf [-> | ->]]|[-> | ->]]; done.
Qed.

Lemma position_ext s s' read outs : position s read outs → id s' = id s → ty_ s' = ty_ s → state s' = state s → state_buf s' = state_buf s →
  state_len s' = state_len s → state_off s' = state_off s → frame_type s' = frame_type s → position s' read outs.
Proof.
  intros Hp E1 E2 E3 E4 E5 E6 E7. unfold position, stands, framed, varint_buf, buffered in *. by rewrite E1, E2, E3, E4, E5, E6, E7.
Qed.

Lemma not_bidi_type s read outs : position s read outs → state s ∈ [StreamType; PushId; QpackInstruction; Drain] → is_bidi (id s) = false.
Proof. intros (_ & _ & pre & r & _ & _ & Hbi) Hst. destruct (is_bidi (id s)); [|done]. by destruct (Hbi eq_refl). Qed.

Lemma wp_set_ty ty s read outs : position s read outs → state s = StreamType →
  wp (set_ty ty) (λ _ s', id s' = id s ∧ position s' read outs ∧ rank s' <= 1) (λ _ _, False) s.
Proof.
  intros Hp Hst. unfold set_ty, assert_state. assert (is_bidi (id s) = false) as Hbi by (eapply not_bidi_type; [done|rewrite Hst; left]).
  assert (outs = []) as -> by (destruct (position_stands _ _ _ Hp) as (pre & r & _ & Hs); unfold stands in Hs; rewrite Hst in Hs; apply Hs).
  assert (bytes_ok read) as Hr by apply Hp.
  apply wp_bind, wp_bind, wp_get. rewrite bool_decide_true by done. apply wp_ret, wp_bind, wp_modify.
  assert (bytes_ok (state_buf s)) as Hb by apply Hp.
  assert (ty ∈ [Control; Request; Push] → framed (set_ty_ (Some ty) s)) as Hf by (unfold framed; cbn; set_solver).
  destruct ty; apply wp_bind; try apply wp_ret; try (apply wp_bind, wp_modify, wp_ret);
    (match goal with |- wp _ _ _ ?s' => apply (wp_enter _ s') end); try done; try auto.
  all: left; split; [apply Hf; set_solver|auto].
Qed.

Lemma wp_set_push_id v s read outs : position s read outs → state s = PushId →
  wp (set_push_id v) (λ _ s', id s' = id s ∧ position s' read outs ∧ rank s' <= 1) (λ _ _, False) s.
Proof.
  intros Hp Hst. assert (is_bidi (id s) = false) as Hbi by (eapply not_bidi_type; [done|rewrite Hst; set_solver]).
  destruct (position_stands _ _ _ Hp) as (pre & r & _ & Hs). unfold stands in Hs. rewrite Hst in Hs. destruct Hs as (-> & _ & _ & Hf).
  unfold set_push_id, assert_state. apply wp_bind, wp_bind, wp_get. rewrite bool_decide_true by done. apply wp_ret, wp_enter; [apply Hp..|done|auto].
Qed.

(** Only the stream's record of the first frame changes. *)
Lemma wp_check_frame_type v s Q QE : (∀ b, Q () (set_remote_initialized b s)) → (∀ e, QE e s) → wp (check_frame_type v) Q QE s.
Proof.
  intros HQ HE. unfold check_frame_type. apply wp_bind, wp_get.
  assert (Q () s) as HQs by (destruct s as [? ? ? ? ? ? ? ? b ? ? ?]; apply (HQ b)).
  repeat first [by apply wp_modify|by apply wp_fail|by apply wp_ret|case_match|case_bool_decide].
Qed.

Lemma wp_set_frame_type v s read outs : position s read outs → state s = FrameType → varint_of (buffered s) v →
  wp (set_frame_type_ v) (λ _ s', id s' = id s ∧ position s' read outs ∧ rank s' = 0) (λ _ s', s' = s) s.
Proof.
  intros Hp Hst Hv. pose proof Hp as (Hr & Hb & pre & r & -> & Hs & Hbi). unfold stands in Hs. rewrite Hst in Hs.
  destruct Hs as (p & Hc & -> & _ & Hf). unfold set_frame_type_, assert_state. apply wp_bind, wp_bind, wp_get. rewrite bool_decide_true by done.
  apply wp_ret, wp_bind, wp_check_frame_type; [|done]. intros b. apply wp_bind, wp_modify. set (s1 := set_frame_type _ _).
  apply wp_state_transition; [|unfold MAX_STATE_BUF_SIZE; lia]. intros _. destruct (entered_varint FramePayloadLen s1 Hb) as (Hv' & Hbuf & Hb').
  split_and!; [done| |done]. split_and!; [done|done|]. exists pre, (p ++ buffered s). split_and!; [done| |].
  - unfold stands. change (state (entered FramePayloadLen 1 true s1)) with FramePayloadLen. rewrite Hbuf.
    exists p, (buffered s), v. rewrite app_nil_r. split_and!; done.
  - intros Hbd. split; [by apply Hbi|]. change (state (entered FramePayloadLen 1 true s1)) with FramePayloadLen. set_solver.
Qed.

Lemma wp_set_frame_payload_len v s read outs : position s read outs → state s = FramePayloadLen → varint_of (buffered s) v →
  wp (set_frame_payload_len v) (λ _ s', id s' = id s ∧ position s' read outs ∧ rank s' <= 1) (λ _ s', s' = s) s.
Proof.
  intros Hp Hst Hv. pose proof Hp as (Hr & Hb & pre & r & -> & Hs & Hbi). unfold stands in Hs. rewrite Hst in Hs.
  destruct Hs as (p & b1 & ty & Hc & H1 & Ety & -> & _ & Hf). assert (0 <= v) as Hv0 by (destruct Hv as [[? _] _]; done).
  unfold set_frame_payload_len, assert_state. apply wp_bind, wp_bind, wp_get. rewrite bool_decide_true by done. apply wp_ret, wp_bind, wp_get.
  rewrite bool_decide_true by done. apply wp_bind. assert (∀ st, st = Data ∨ st = FramePayload → ∀ rs,
    (is_bidi (id s) = true → pre = [] ∧ state (entered st v rs s) ∉ [StreamType; PushId; QpackInstruction; Drain])) as Hbi'.
  { intros st Hd rs Hbd. split; [by apply Hbi|]. change (state (entered st v rs s)) with st. destruct Hd as [-> | ->]; set_solver. }
  rewrite Ety. destruct (bool_decide_reflect (Some ty = Some DATA_FRAME_TYPE_ID)) as [Hd|Hd].
  - injection Hd as ->. apply wp_ret, wp_state_transition; [|done]. intros _. split_and!; [done| |done]. split_and!; [done|done|].
    exists pre, (p ++ b1 ++ buffered s). split_and!; [done| |by apply Hbi'; left].
    unfold stands. change (state (entered Data v false s)) with Data. exists p, outs, b1, (buffered s), [].
    rewrite !app_nil_r. by split_and!.
  - assert (wp (state_transition FramePayload v true) (λ _ s', id s' = id s ∧ position s' (pre ++ p ++ b1 ++ buffered s) outs ∧ rank s' <= 1) (λ _ s', s' = s) s) as Hgo.
    { apply wp_state_transition; [|done]. intros _. split_and!; [done| |done]. split_and!; [done|by apply bytes_ok_resize|].
      exists pre, (p ++ b1 ++ buffered s). split_and!; [done| |by apply Hbi'; right].
      unfold stands. change (state (entered FramePayload v true s)) with FramePayload. exists p, b1, ty, (buffered s).
      change (buffered (entered FramePayload v true s)) with (@nil Z). rewrite app_nil_r. split_and!; try done; [congruence|].
      by apply zlen_resize. }
    case_bool_decide; [destruct (v =? 0); [by apply wp_fail|]|]; by apply wp_ret.
Qed.

(** A frame of a type other than DATA whose payload is complete. *)
Lemma wp_try_consume_frame s read outs : position s read outs → state s = FramePayload → state_off s = state_len s →
  wp try_consume_frame
    (λ r s', id s' = id s ∧ rank s' = 0 ∧ ∃ ty, ty ≠ DATA_FRAME_TYPE_ID ∧ bytes_ok (state_buf s) ∧
       h3_type r.1 = ty ∧ (ty = HEADERS_FRAME_TYPE_ID → r.1 = H3Frame.Headers (state_buf s)) ∧ is_varint (zlen (state_buf s)) ∧ position s' read (outs ++ [OFrame ty (state_buf s)]))
    (λ _ s', id s' = id s ∧ position s' read outs) s.
Proof.
  intros Hp Hst Hoff. pose proof Hp as (Hr & Hb & pre & r & -> & Hs & Hbi). unfold stands in Hs. rewrite Hst in Hs.
  destruct Hs as (p & b1 & ty & b2 & Hc & H1 & Ety & Hty & H2 & -> & Ho & Hz & Hf). unfold try_consume_frame.
  apply wp_bind, wp_modify, wp_bind, wp_get. change (frame_type (reset_data_event s)) with (frame_type s). rewrite Ety.
  change (state_len (reset_data_event s)) with (state_len s). change (state_buf (reset_data_event s)) with (state_buf s). rewrite <- Hz.
  assert (buffered s = state_buf s) as Hbuf by (apply ztake_all; lia). rewrite Hbuf in *.
  pose proof (parse_safe ty (Octets.with_slice (state_buf s)) ltac:(split; [split; [done|apply zlen_nonneg]|done]) eq_refl) as Hpar.
  assert (match H3Frame.from_bytes ty (zlen (state_buf s)) (state_buf s) with Ok f => h3_type f = ty | Err _ => True | Panic => False end) as Hsafe.
  { unfold H3Frame.from_bytes, wp in *. cbn [o_buf Octets.with_slice] in Hpar. destruct (H3Frame.parse _ _ _) as [[] ?]; [apply Hpar|done..]. }
  assert (ty = HEADERS_FRAME_TYPE_ID → H3Frame.from_bytes ty (zlen (state_buf s)) (state_buf s) = Ok (H3Frame.Headers (state_buf s))) as Hhead.
  { intros ->. pose proof (from_bytes_run (H3Frame.Headers (state_buf s))) as Hrun. cbn [h3_type h3_payload received] in Hrun. rewrite Hrun; [done|].
    split; [|done]. cbn [h3_payload]. rewrite Hz. apply H2. }
  apply wp_bind. destruct (H3Frame.from_bytes ty _ (state_buf s)) as [frame|e|] eqn:Hfrom; [| |done].
  - eapply wp_lift; [done|]. apply wp_bind, wp_state_transition; [|unfold MAX_STATE_BUF_SIZE; lia]. intros _. apply wp_ret.
    set (s' := reset_data_event s). destruct (entered_varint FrameType s' Hb) as (Hv' & Hbuf' & Hb'). split_and!; [done|done|].
    exists ty. split_and!; [done|done|done|cbn [fst]; intros Ht; specialize (Hhead Ht); congruence|rewrite Hz; apply H2|]. split_and!; [done|done|]. exists pre, (p ++ b1 ++ b2 ++ state_buf s). split_and!; [done| |].
    + unfold stands. change (state (entered FrameType 1 true s')) with FrameType. cbv iota. rewrite Hbuf'.
      exists (p ++ b1 ++ b2 ++ state_buf s). rewrite app_nil_r. split_and!; [|done|done|done].
      replace [OFrame ty (state_buf s)] with (outs_of ty (state_buf s)) by (unfold outs_of; by rewrite (proj2 (Z.eqb_neq _ _) Hty)).
      rewrite <- Hz in H2. by apply closed_snoc.
    + intros Hbd. split; [by apply Hbi|]. change (state (entered FrameType 1 true s')) with FrameType. set_solver.
  - apply (wp_fail e). split; [done|]. by apply (position_ext s).
Qed.

Lemma wp_fill_payload s c read outs Q QE : t_ok c → position s read outs → state s = FramePayload →
  (∀ s' c' bytes, id s' = id s → state s' = FramePayload → state_off s' = state_len s' → position s' (read ++ bytes) outs →
    moved (id s) c c' bytes → Q () (s', c')) →
  (∀ e s' c' bytes, id s' = id s → position s' (read ++ bytes) outs → moved (id s) c c' bytes → QE e (s', c')) →
  wp try_fill_buffer Q QE (s, c).
Proof.
  intros Hok Hp Hst HQ HQE. pose proof Hp as (Hr & Hb & pre & r & -> & Hs & Hbi). unfold stands in Hs. rewrite Hst in Hs.
  destruct Hs as (p & b1 & ty & b2 & Hc & H1 & Ety & Hty & H2 & -> & Ho & Hz & Hf).
  assert (∀ s' bytes, filled s s' bytes → position s' ((pre ++ p ++ b1 ++ b2 ++ buffered s) ++ bytes) outs) as Hpos.
  { intros s' bytes Hfl. destruct (filled_buf s s' bytes Hb ltac:(lia) ltac:(lia) Hfl) as (Hb' & Hz' & Hbuf & _).
    destruct Hfl as ((Ei & Et & Es & Ef & _) & El & Eo & _ & Hle & Hbytes). pose proof (zlen_nonneg bytes).
    split_and!; [by apply Forall_app; split|done|]. exists pre, (p ++ b1 ++ b2 ++ buffered s'). rewrite Hbuf, !app_assoc. split_and!; [done| |by rewrite Ei, Es].
    unfold stands, framed. rewrite Es, Hst, Et, El. exists p, b1, ty, b2. rewrite Ef, Hbuf, !app_assoc. split_and!; try done; lia. }
  apply wp_try_fill_buffer; [done|done|lia|..].
  - intros s' c' bytes Hfl Hm Heq. pose proof Hfl as ((Ei & _ & Es & _) & _). eapply HQ; [done|congruence|done|by apply Hpos|done].
  - intros e s' c' bytes Hfl Hm _. pose proof Hfl as ((Ei & _ & Es & _) & _). eapply HQE; [done|by apply Hpos|done].
Qed.

Lemma wp_try_consume_data n s c read outs Q QE : t_ok c → position s read outs → state s = Data → 0 <= n →
  (∀ bytes fin s' c', id s' = id s → position s' (read ++ bytes) (outs ++ (OBody <$> bytes)) → moved (id s) c c' bytes → zlen bytes <= n →
    Q (bytes, fin) (s', c')) →
  (∀ e s' c', id s' = id s → position s' read outs → quiet c c' → QE e (s', c')) →
  wp (try_consume_data n) Q QE (s, c).
Proof.
  intros Hok Hp Hst Hn HQ HQE. pose proof Hp as (Hr & Hb & pre & r & -> & Hs & Hbi). unfold stands in Hs. rewrite Hst in Hs.
  destruct Hs as (p & outs0 & b1 & b2 & d & Hc & H1 & H2 & -> & Hd & Hle & -> & Hf). pose proof (zlen_nonneg d).
  unfold try_consume_data. apply wp_bind, wp_get, wp_bind. unfold usub. rewrite (proj2 (Z.leb_le _ _)) by lia. eapply wp_lift; [done|].
  apply wp_bind, wp_recv_or_rearm; [done|lia| |].
  2: { intros e s' c' Hq [-> | ->]; apply HQE; [done..|by apply (position_ext s)|done]. }
  intros bytes fin c' Hm Hl Hbytes _. pose proof (zlen_nonneg bytes). apply wp_bind, wp_on_self, wp_modify. set (s1 := set_state_off _ _).
  apply wp_bind, wp_get, wp_bind.
  assert (bytes_ok ((pre ++ p ++ b1 ++ b2 ++ d) ++ bytes)) as Hread by by apply Forall_app.
  assert (∀ s', id s' = id s1 → ty_ s' = ty_ s1 → state s' = state s1 → state_buf s' = state_buf s1 → state_len s' = state_len s1 → state_off s' = state_off s1 →
    wp (mbind (λ '(s, c), (if state_buffer_complete s then on_self (state_transition FrameType 1 true) else mret ());; mret (bytes, fin)) get) Q QE (s', c')) as Hrest.
  { intros s' Ei Et Es Eb El Eo. apply wp_bind, wp_get, wp_bind. unfold state_buffer_complete. rewrite El, Eo. unfold s1 at 1 2. cbn [state_off state_len set_state_off].
    destruct (Z.eqb_spec (state_off s + zlen bytes) (state_len s)) as [Heq|Hne].
    - apply wp_on_self, wp_state_transition; [|unfold MAX_STATE_BUF_SIZE; lia]. intros _. apply wp_ret.
      assert (bytes_ok (state_buf s')) as Hb1 by by rewrite Eb.
      destruct (entered_varint FrameType s' Hb1) as (Hv' & Hbuf' & Hb'). apply HQ; [done| |done|lia].
      split_and!; [done|done|]. exists pre, (p ++ b1 ++ b2 ++ d ++ bytes). rewrite !app_assoc. split_and!; [done| |].
      + unfold stands. change (state (entered FrameType 1 true s')) with FrameType. cbv iota. rewrite Hbuf'.
        exists (p ++ b1 ++ b2 ++ d ++ bytes). rewrite app_nil_r, !app_assoc. split_and!; [|done|done|].
        * replace ((outs0 ++ (OBody <$> d)) ++ (OBody <$> bytes)) with (outs0 ++ outs_of DATA_FRAME_TYPE_ID (d ++ bytes))
            by (unfold outs_of; by rewrite Z.eqb_refl, fmap_app, app_assoc).
          rewrite <- !app_assoc. apply closed_snoc; [done|done|rewrite zlen_app; by replace (zlen d + zlen bytes) with (state_len s) by lia|].
          do 4 apply Forall_app in Hr as [_ Hr]. by apply Forall_app.
        * unfold framed in *. change (ty_ (entered FrameType 1 true s')) with (ty_ s'). by rewrite Et.
      + change (id (entered FrameType 1 true s')) with (id s'). rewrite Ei. intros Hbd. split; [by apply Hbi|]. set_solver.
    - apply wp_ret, wp_ret, HQ; [done| |done|lia]. split_and!; [done|by rewrite Eb|]. exists pre, ((p ++ b1 ++ b2 ++ d) ++ bytes).
      rewrite Ei, Es. split_and!; [by rewrite <- app_assoc| |done]. unfold stands, framed. rewrite Es, El, Eo, Et. unfold s1. cbn. rewrite Hst.
      exists p, outs0, b1, b2, (d ++ bytes). rewrite zlen_app, fmap_app, !app_assoc. split_and!; try done; lia. }
  destruct (negb _); [|by apply wp_ret, Hrest]. by apply wp_on_self, wp_modify, Hrest.
Qed.

(** A request or push stream is marked as finished. *)
Lemma position_finished s read outs : position s read outs → id (finished s) = id s ∧ position (finished s) read outs ∧ rank (finished s) = 0.
Proof.
  intros (Hr & Hb & pre & r & -> & Hs & Hbi). split_and!; [done| |done]. split_and!; [done|done|]. exists pre, r. split_and!; [done| |].
  - change (is_bidi (id s) = true → ∃ rest, scan r = outs ++ rest ∧ (length rest <= 1)%nat). intros Hbd. destruct (Hbi Hbd) as [-> Hst].
    by apply scan_stands with s [].
  - change (id (finished s)) with (id s). intros Hbd. split; [by apply Hbi|]. set_solver.
Qed.

(** What a new stream is. *)
Lemma position_new i local : position (new i local) [] [].
Proof.
  assert (bytes_ok (replicate 16 0)) as Hb by (apply Forall_replicate; unfold is_u8; lia).
  assert (∀ s, state_buf s = replicate 16 0 → state_len s = 1 → state_off s = 0 → varint_buf s ∧ buffered s = []) as Hv.
  { intros s E1 E2 E3. unfold varint_buf, buffered. rewrite E1, E2, E3. change (zlen (replicate 16 0)) with 16. split; [|done].
    split_and!; [done|lia..|by left]. }
  destruct (Hv (new i local)) as [Hvb Hbuf]; [unfold new; by destruct (is_bidi i)..|].
  split_and!; [constructor|unfold new; by destruct (is_bidi i)|]. exists [], []. split_and!; [done|..]; unfold new, stands, framed in *; destruct (is_bidi i) eqn:Hi.
  - exists []. rewrite Hbuf. split_and!; [constructor|done|done|]. cbn. set_solver.
  - by rewrite Hbuf.
  - intros _. split; [done|]. cbn. set_solver.
  - cbn. congruence.
Qed.
End stream.
