(* ===== verification/H3Pipe.v ===== *)
(** * A small transport

    An implementation of the interface of [H3Streams.v] by one buffer per
    stream, that satisfies the laws of [H3Inv.v]: what the theorems on HTTP/3
    are instantiated with. *)
From stdpp Require Import gmap.
From S2P Require Import Prelude OctetsLib Streams ConnStreams H3Frames H3Streams H3Scan H3Inv.

Module Pipe.
Record t := mk {
  is_server : bool;
  failed : bool;
  (** arrived, not yet read; and whether that is the end of the stream *)
  inbox : Z → list Z;
  fin : Z → bool;
  (** read so far, and written so far *)
  taken : Z → list Z;
  written : Z → list Z;
  room : Z;
  ready : list Z
}.

Definition update {A} (i : Z) (x : A) (f : Z → A) : Z → A := λ j, if j =? i then x else f j.

Definition recv (i cap : Z) : M t Error (list Z * bool) := λ p,
  match inbox p i with
  | [] => (Err Done, p)
  | bytes =>
      (Ok (ztake cap bytes, fin p i && bool_decide (zdrop cap bytes = [])),
       mk (is_server p) (failed p) (update i (zdrop cap bytes) (inbox p)) (fin p)
         (update i (taken p i ++ ztake cap bytes) (taken p)) (written p) (room p) (ready p))
  end.

Definition send (i : Z) (bytes : list Z) (_ : bool) : M t Error Z := λ p,
  let n := Z.min (zlen bytes) (room p) in
  (Ok n, mk (is_server p) (failed p) (inbox p) (fin p) (taken p) (update i (written p i ++ ztake n bytes) (written p)) (room p - n) (ready p)).

Definition close : M t Error unit := λ p,
  if failed p then (Err Done, p)
  else (Ok tt, mk (is_server p) true (inbox p) (fin p) (taken p) (written p) (room p) (ready p)).

Definition finished (i : Z) (p : t) : bool := fin p i && bool_decide (inbox p i = []).

#[global] Instance transport : Transport t := {
  conn_is_server := is_server;
  conn_failed := failed;
  conn_close _ _ _ := close;
  stream_recv := recv;
  stream_send := send;
  stream_capacity _ p := Ok (room p);
  stream_writable _ n := gets (λ p, n <=? room p);
  stream_readable i p := negb (bool_decide (inbox p i = []));
  stream_finished := finished;
  stream_shutdown _ _ _ := mret ();
  stream_priority _ _ _ := mret ();
  max_streams_bidi _ := 100;
  is_collected _ _ := false;
  readable := ready;
  dgram_max_writable_len _ := None;
  dgram_enabled _ := false;
  conn_ready _ := true;
  conn_grease _ := true
}.

#[global] Instance ghost : TransportGhost t := {
  t_ok p := (∀ i, bytes_ok (inbox p i)) ∧ 0 <= room p;
  history i p := taken p i;
  backlog i p := zlen (inbox p i);
  over i p := fin p i = true ∧ inbox p i = [];
  sent i p := written p i;
  takes _ n p := n <= room p
}.

Lemma update_same {A} i (x : A) f : update i x f i = x.
Proof. unfold update. by rewrite Z.eqb_refl. Qed.
Lemma update_other {A} i j (x : A) f : j ≠ i → update i x f j = f j.
Proof. intros Hj. unfold update. by rewrite (proj2 (Z.eqb_neq _ _) Hj). Qed.

Lemma recv_moved i cap p : t_ok p → 0 <= cap →
  wp (recv i cap) (λ r p', moved i p p' r.1 ∧ zlen r.1 <= cap ∧ bytes_ok r.1 ∧ (0 < cap → backlog i p' < backlog i p)) (λ _ p', quiet p p') p.
Proof.
  intros [Hb Hr] Hcap. unfold wp, recv. destruct (inbox p i) as [|x l] eqn:Hi; [by apply quiet_refl|]. set (bytes := x :: l) in *.
  specialize (Hb i) as Hbi. rewrite Hi in Hbi. assert (zlen (ztake cap bytes) + zlen (zdrop cap bytes) = zlen bytes) as Hsum.
  { rewrite <- zlen_app. f_equal. apply ztake_zdrop. }
  pose proof (zlen_nonneg (zdrop cap bytes)). pose proof (zlen_nonneg (ztake cap bytes)).
  assert (zlen bytes = 1 + zlen l) as Hz by apply zlen_cons. pose proof (zlen_nonneg l).
  assert (zlen (ztake cap bytes) <= cap) as Hle by (unfold zlen, ztake; rewrite length_take; lia).
  cbn [fst snd]. split_and!; [|done|by apply Forall_take|].
  - split_and!; cbn [t_ok history backlog over sent ghost inbox fin taken written room].
    + split; [|done]. intros j. destruct (decide (j = i)) as [-> |Hj]; [rewrite update_same; by apply Forall_drop|by rewrite update_other].
    + by rewrite update_same.
    + rewrite update_same, Hi. lia.
    + intros [_ Hnil]. by rewrite Hi in Hnil.
    + intros j Hj. split_and!; cbn; rewrite ?update_other by done; [done|lia|done].
    + done.
  - intros Hpos. cbn. rewrite update_same, Hi. assert (1 <= zlen (ztake cap bytes)); [|lia].
    unfold bytes, ztake. replace (Z.to_nat cap) with (S (Z.to_nat cap - 1)) by lia. cbn [take]. rewrite zlen_cons.
    match goal with |- context [zlen ?t] => pose proof (zlen_nonneg t) end. lia.
Qed.

Lemma send_wrote i bytes b p : t_ok p →
  wp (send i bytes b) (λ n p', 0 <= n <= zlen bytes ∧ wrote i p p' (ztake n bytes)) (λ _ p', quiet p p') p.
Proof.
  intros [Hb Hr]. pose proof (zlen_nonneg bytes). unfold wp, send. split; [lia|]. split_and!; cbn.
  - split; [done|lia].
  - by rewrite update_same.
  - intros j Hj. by rewrite update_other.
  - intros j. split_and!; [done|cbn; lia|done].
Qed.

Lemma send_takes i bytes b n p : zlen bytes <= n → n <= room p →
  wp (send i bytes b) (λ k p', k = zlen bytes ∧ n - k <= room p') (λ _ _, False) p.
Proof. intros Hl Hn. unfold wp, send. cbn. split; lia. Qed.

#[global] Instance laws : TransportLaws t.
Proof.
  split.
  - intros i p _. apply zlen_nonneg.
  - intros i p _ Hf. left. apply andb_true_iff in Hf as [? Hi%bool_decide_eq_true]. by split.
  - intros i cap p. apply recv_moved.
  - intros app err reason p Hok. unfold wp. cbn. unfold close. destruct (failed p); [by apply quiet_refl|].
    split; [apply Hok|]. intros j. split; [split_and!; [done|cbn; lia|done]|done].
  - intros app err reason p p' Hrun. cbn in Hrun. unfold close in Hrun. destruct (failed p); [done|]. by injection Hrun as <-.
  - intros i dir err p Hok. by apply wp_ret, quiet_refl.
  - intros i u inc p Hok. by apply wp_ret, quiet_refl.
  - intros i bytes b p. apply send_wrote.
  - intros i cap p Hok [= <-]. split; [apply Hok|]. intros bytes Hl. eapply wp_mono; [by apply (send_takes i bytes false (room p))|done|done].
  - intros i n p Hok Ht bytes b Hl. cbn in Ht. eapply wp_mono; [by apply (send_takes i bytes b n)| |done]. intros k p' [-> ?]. by split.
  - intros i n p Hok _. apply wp_gets. split; [by apply quiet_refl|]. intros Hle. exists (room p). split; [lia|done].
  - done.
  - intros p _. cbn. lia.
Qed.
End Pipe.
