(* ===== verification/H3Errors.v ===== *)
(** * Errors of an HTTP/3 connection

    An error that is not the transport's own has closed the connection before
    the application sees it. *)
From stdpp Require Import gmap.
From S2P Require Import Prelude OctetsLib QpackCodec Streams ConnStreams H3Frames H3Streams H3Conn H3Scan H3Inv H3Pipe.

(** Errors that the transport gave, and [Done]. *)
Definition from_quic (e : H3.Error) : bool := match e with H3.Done | H3.TransportError _ => true | _ => false end.

Lemma from_transport_quic e : from_quic (H3.from_transport e) = true.
Proof. by destruct e. Qed.

Section errors.
Context {C : Type} {HT : Transport C} {HG : TransportGhost C} {HL : TransportLaws C}.
Abbreviation HM := (M (H3Conn.t * C) H3.Error).

(** A failure of [m] is the transport's, or the connection is closed. *)
Definition reported (e : H3.Error) (c : C) : Prop := from_quic e = true ∨ conn_failed c = true.
Definition reports {A} (m : HM A) : Prop := ∀ hc, match m hc with (Err e, hc') => reported e hc'.2 | _ => True end.

Lemma reports_bind {A B} (m : HM A) (k : A → HM B) : reports m → (∀ a, reports (k a)) → reports (m ≫= k).
Proof.
  intros Hm Hk hc. unfold mbind, M_bind. specialize (Hm hc). destruct (m hc) as [[a|e|] hc']; [apply Hk|done|done].
Qed.
Lemma reports_ret {A} (a : A) : reports (mret a).
Proof. done. Qed.
Lemma reports_panic {A} : reports (panic : HM A).
Proof. done. Qed.
Lemma reports_self : reports H3Conn.self.
Proof. done. Qed.
Lemma reports_conn : reports H3Conn.conn.
Proof. done. Qed.
Lemma reports_on_self f : reports (H3Conn.on_self f).
Proof. by intros [h c]. Qed.
Lemma reports_fail {A} e : from_quic e = true → reports (fail e : HM A).
Proof. intros He hc. by left. Qed.
Lemma reports_lift {A} (r : result H3.Error A) : (∀ e, r ≠ Err e) → reports (lift r).
Proof. intros Hr hc. unfold lift. destruct r as [|e|]; [done|by destruct (Hr e)|done]. Qed.
Lemma reports_transport {A} (m : M C Error A) : reports (H3Conn.on_conn m).
Proof. intros [h c]. unfold H3Conn.on_conn. destruct (m c) as [[] ?]; [done| |done]. left. apply from_transport_quic. Qed.
Lemma reports_close_as {A} wire reason e : reports (H3Conn.close_as wire reason e : HM A).
Proof.
  intros [h c]. unfold H3Conn.close_as, mbind, M_bind, H3Conn.on_conn.
  destruct (conn_close true wire reason c) as [[[]|e'|] c'] eqn:Hc; [|left; apply from_transport_quic|done].
  right. by eapply close_marks.
Qed.

(** An attempt whose error is passed on, or starts something new. *)
Lemma reports_attempt {A B} (m : HM A) (k : A + H3.Error → HM B) : reports m → (∀ a, reports (k (inl a))) →
  (∀ e, reports (k (inr e)) ∨ k (inr e) = fail e) → reports (attempt m ≫= k).
Proof.
  intros Hm Ha He hc. unfold mbind, M_bind, attempt. specialize (Hm hc). destruct (m hc) as [[a|e|] hc'] eqn:Hr; [apply Ha| |done].
  destruct (He e) as [Hk| ->]; [apply Hk|exact Hm].
Qed.
(** An attempt of a call of the stream's state machine, whose error closes the connection. *)
Lemma reports_try {A B} (m : HM A) (k : A + H3.Error → HM B) : (∀ r, reports (k r)) → reports (attempt m ≫= k).
Proof. intros Hk hc. unfold mbind, M_bind, attempt. destruct (m hc) as [[a|e|] hc']; [apply Hk|apply Hk|done]. Qed.

Lemma reports_or_close {A} (m : HM A) reason : reports (H3Conn.or_close m reason).
Proof. apply reports_try. intros [a|e]; [done|apply reports_close_as]. Qed.

Lemma refuse_reports ok wire reason e : reports (H3Conn.refuse_unless ok wire reason e).
Proof. destruct ok; [done|apply reports_close_as]. Qed.

(** A handler reads the state, refuses, updates, and ends with an event or [Done]. *)
Ltac handler := repeat first
  [apply reports_fail; reflexivity|apply reports_ret|apply reports_panic|apply reports_close_as|apply reports_on_self
  |apply reports_bind;
    [first [apply reports_self|apply reports_conn|apply refuse_reports|apply reports_on_self|idtac]|intro; cbv beta]].

(** *** The stream's own errors *)

(** Filling the buffer fails with the transport's errors only. *)
Definition stream_reports {A} (m : M (H3Stream.t * C) H3.Error A) : Prop :=
  ∀ sc, match m sc with (Err e, _) => from_quic e = true | _ => True end.
Lemma stream_reports_bind {A B} (m : M (H3Stream.t * C) H3.Error A) (k : A → M (H3Stream.t * C) H3.Error B) :
  stream_reports m → (∀ a, stream_reports (k a)) → stream_reports (m ≫= k).
Proof. intros Hm Hk sc. unfold mbind, M_bind. specialize (Hm sc). destruct (m sc) as [[a|e|] sc']; [apply Hk|done|done]. Qed.
Lemma reports_on_stream {A} i (m : M (H3Stream.t * C) H3.Error A) : stream_reports m → reports (H3Conn.on_stream i m).
Proof.
  intros Hm [h c]. unfold H3Conn.on_stream. destruct (H3Conn.streams h !! i) as [s|]; [|done]. specialize (Hm (s, c)).
  destruct (m (s, c)) as [[a|e|] [s' c']]; [done|by left|done].
Qed.

Lemma recv_or_rearm_reports cap : stream_reports (H3Stream.recv_or_rearm cap).
Proof.
  intros [s c]. unfold H3Stream.recv_or_rearm, get, mbind, M_bind, attempt, H3Stream.on_conn.
  destruct (stream_recv (H3Stream.id s) cap c) as [[v|e|] c']; [done| |done]. case_bool_decide; apply from_transport_quic.
Qed.
Lemma try_fill_buffer_reports : stream_reports H3Stream.try_fill_buffer.
Proof.
  apply stream_reports_bind; [by intros [s c]|]. intros [s c]. destruct (H3Stream.state_buffer_complete s); [done|].
  destruct (_ || _); [done|]. apply stream_reports_bind; [apply recv_or_rearm_reports|]. intros [bytes fin].
  apply stream_reports_bind; [by intros [s' c']|]. intros _. apply stream_reports_bind; [by intros [s' c']|]. intros [s' c'].
  destruct (negb _); [|done]. apply stream_reports_bind; [by intros [? ?]|]. by intros _ [? ?].
Qed.
Lemma try_consume_data_reports n : stream_reports (H3Stream.try_consume_data n).
Proof.
  apply stream_reports_bind; [by intros [s c]|]. intros [s c]. apply stream_reports_bind; [intros [s' c']; unfold usub; by destruct (_ <=? _)|]. intros room.
  apply stream_reports_bind; [apply recv_or_rearm_reports|]. intros [bytes fin].
  apply stream_reports_bind; [by intros [s' c']|]. intros _. apply stream_reports_bind; [by intros [s' c']|]. intros [s' c'].
  apply stream_reports_bind; [intros [? ?]; by destruct (negb _)|]. intros _. apply stream_reports_bind; [by intros [? ?]|]. intros [s2 c2].
  apply stream_reports_bind; [intros [? ?]; destruct (H3Stream.state_buffer_complete s2); exact I|]. by intros _ [? ?].
Qed.

(** *** The connection *)

Lemma read_varint_reports i : reports (H3Conn.read_varint i).
Proof.
  apply reports_bind; [apply reports_on_stream, try_fill_buffer_reports|]. intros _. apply reports_try. by intros [v|e].
Qed.

Lemma on_type_set_reports i ty : reports (H3Conn.on_type_set i ty).
Proof.
  apply reports_bind; [apply reports_self|]. intros h.
  destruct ty; first [case_bool_decide|destruct (H3Conn.is_server h)|idtac]; first [apply reports_close_as|apply reports_on_self|done].
Qed.

Lemma discard_reports fuel i : reports (H3Conn.discard fuel i).
Proof. induction fuel as [|fuel IH]; [done|]. apply reports_bind; [apply reports_transport|done]. Qed.

Lemma on_settings_reports s : reports (H3Conn.on_settings s).
Proof. unfold H3Conn.on_settings. handler. case_match; [apply reports_close_as|done]. Qed.
Lemma on_headers_reports i hb : reports (H3Conn.on_headers i hb).
Proof.
  unfold H3Conn.on_headers. handler. cbv zeta. destruct (Decoder.decode _ _); handler.
Qed.
Lemma on_priority_update_request_reports i id v : reports (H3Conn.on_priority_update_request i id v).
Proof.
  unfold H3Conn.on_priority_update_request. handler.
  - apply reports_lift. intros e. unfold umul. by destruct (_ <=? _).
  - destruct (is_collected _ _); handler. destruct (bool_decide _); handler.
Qed.

Lemma process_frame_reports i frame n : reports (H3Conn.process_frame i frame n).
Proof.
  destruct frame; cbn [H3Conn.process_frame];
    first [apply on_settings_reports|apply on_headers_reports|apply on_priority_update_request_reports|idtac];
    unfold H3Conn.on_data_frame, H3Conn.on_goaway, H3Conn.on_max_push_id, H3Conn.on_push_promise, H3Conn.on_cancel_push,
      H3Conn.on_priority_update_push; handler.
Qed.

Lemma read_frame_payload_reports i polling : reports (H3Conn.read_frame_payload i polling).
Proof.
  unfold H3Conn.read_frame_payload. destruct (negb polling); [done|]. apply reports_bind; [apply reports_on_stream, try_fill_buffer_reports|].
  intros _. apply reports_try. intros [[frame n]|e]; [|destruct e; by first [apply reports_close_as|apply reports_fail]].
  apply reports_attempt; [apply process_frame_reports|done|]. intros e. destruct e; try (by right). left. by apply reports_bind; [apply reports_conn|].
Qed.

Lemma read_state_reports fuel i polling st : reports (H3Conn.read_state fuel i polling st).
Proof.
  destruct st; cbn [H3Conn.read_state].
  - apply reports_bind; [apply read_varint_reports|]. intros [v|]; [|done]. apply reports_bind; [apply reports_or_close|]. intros _.
    apply reports_bind; [apply on_type_set_reports|done].
  - apply reports_bind; [apply read_varint_reports|]. intros [v|]; [|done]. apply reports_try. intros [a|e]; [done|]. destruct e; apply reports_close_as.
  - apply reports_bind; [apply read_varint_reports|]. intros [v|]; [|done]. apply reports_bind; [apply reports_or_close|done].
  - apply read_frame_payload_reports.
  - unfold H3Conn.announce_data. destruct (negb polling); [done|]. apply reports_bind; [|done]. apply reports_on_stream.
    intros [s c]. unfold H3Stream.on_self. by destruct (H3Stream.try_trigger_data_event s).
  - apply reports_bind; [apply read_varint_reports|]. intros [v|]; [|done]. apply reports_bind; [apply reports_or_close|done].
  - apply discard_reports.
  - apply reports_bind; [apply reports_transport|done].
  - done.
Qed.

Lemma read_loop_reports fuel i polling : reports (H3Conn.read_loop fuel i polling).
Proof.
  induction fuel as [|fuel IH]; [done|]. apply reports_bind; [apply reports_self|]. intros h.
  destruct (H3Conn.streams h !! i); [|by apply reports_fail]. apply reports_bind; [apply read_state_reports|].
  intros [| |ev]; [done|by apply reports_fail|done].
Qed.
Lemma process_readable_stream_reports fuel i polling : reports (H3Conn.process_readable_stream fuel i polling).
Proof. apply reports_bind; [apply reports_on_self|intros _; apply read_loop_reports]. Qed.

Lemma process_control_stream_reports fuel i : reports (H3Conn.process_control_stream fuel i).
Proof.
  apply reports_bind; [apply reports_conn|]. intros c. destruct (stream_finished i c); [apply reports_close_as|].
  apply reports_attempt; [apply process_readable_stream_reports|done|]. intros e. destruct e; try (by right). left.
  apply reports_bind; [apply reports_conn|]. intros c1. destruct (stream_finished i c1); [apply reports_close_as|by apply reports_fail].
Qed.

Lemma first_critical_reports fuel o rest : reports rest → reports (H3Conn.first_critical fuel o rest).
Proof.
  intros Hr. destruct o as [i|]; [|done]. apply reports_attempt; [apply process_control_stream_reports|done|].
  intros e. destruct e; first [left; exact Hr|by right].
Qed.

Lemma poll_readable_reports fuel ids : reports (H3Conn.poll_readable fuel ids).
Proof.
  induction ids as [|i ids IH]; [done|]. cbn [H3Conn.poll_readable]. apply reports_attempt; [apply process_readable_stream_reports|intros ev; handler; case_match; handler|].
  intros e. destruct e as [| | | | | | | | | | |e| | | | | | | |]; try (by right); left; [handler; [case_match; handler|apply IH]|]. destruct e; first [done|by apply reports_fail].
Qed.

Lemma pop_finished_reports : reports H3Conn.pop_finished.
Proof. unfold H3Conn.pop_finished. handler; case_match; handler. Qed.

Lemma poll_reports fuel : reports (H3Conn.poll fuel).
Proof.
  apply reports_bind; [apply reports_conn|]. intros c. destruct (conn_failed c); [by apply reports_fail|].
  apply reports_bind; [apply reports_self|]. intros h1. apply first_critical_reports.
  apply reports_bind; [apply reports_self|]. intros h2. apply first_critical_reports.
  apply reports_bind; [apply reports_self|]. intros h3. apply first_critical_reports.
  apply reports_bind; [apply pop_finished_reports|]. intros [i|]; [done|]. apply reports_bind; [apply reports_conn|]. intros c1.
  apply reports_bind; [apply poll_readable_reports|]. intros [ev|]; [done|]. unfold H3Conn.last_finished.
  apply reports_bind; [apply pop_finished_reports|]. intros [i|]; [|by apply reports_fail]. apply reports_bind; [apply reports_conn|]. intros c2.
  destruct (stream_readable i c2); [|done]. apply reports_try. intros [a|e]; [done|]. destruct e as [| | | | | | | | | | |e| | | | | | | |]; try done. by destruct e.
Qed.

Lemma recv_body_loop_reports turns fuel i n got : reports (H3Conn.recv_body_loop turns fuel i n got).
Proof.
  revert got. induction turns as [|turns IH]; intros got; cbn [H3Conn.recv_body_loop]; (destruct (zlen got <? n); [|done]); [done|].
  apply reports_bind; [apply reports_self|]. intros h. destruct (H3Conn.streams h !! i) as [s|]; [|by apply reports_fail].
  destruct (negb _); [done|]. apply reports_attempt; [apply reports_on_stream, try_consume_data_reports| |].
  - intros [bytes fin]. destruct (_ || _); [done|]. apply reports_attempt; [apply process_readable_stream_reports|done|].
    intros e. destruct e; try (by right). left. apply reports_bind; [apply reports_conn|]. intros c. by destruct (stream_finished i c).
  - intros e. destruct e; try (by right). by left.
Qed.

Lemma recv_body_reports fuel i n : reports (H3Conn.recv_body fuel i n).
Proof. apply reports_bind; [apply recv_body_loop_reports|]. intros got. handler; case_match; handler. Qed.

(** C18. An HTTP/3 error has closed the connection.  Whenever [poll] or
    [recv_body] returns an error other than [Done] and the transport's own, the
    transport has been closed by then, and from then on [poll] reports nothing
    more: it returns [Done] and leaves both connections as they are. *)
Theorem h3_error_closes fuel (h h' : H3Conn.t) (c c' : C) e i n :
  H3Conn.poll fuel (h, c) = (Err e, (h', c')) ∨ H3Conn.recv_body fuel i n (h, c) = (Err e, (h', c')) →
  from_quic e = false →
  conn_failed c' = true ∧ ∀ fuel', H3Conn.poll fuel' (h', c') = (Err H3.Done, (h', c')).
Proof.
  intros Hrun He. assert (reported e c') as [Hq|Hc]; [|congruence|].
  - destruct Hrun as [Hrun|Hrun]; [pose proof (poll_reports fuel (h, c)) as Hr|pose proof (recv_body_reports fuel i n (h, c)) as Hr]; by rewrite Hrun in Hr.
  - split; [done|]. intros fuel'. unfold H3Conn.poll, H3Conn.conn, gets, mbind, M_bind. cbn [snd]. by rewrite Hc.
Qed.
End errors.

(** A control stream that starts with a DATA frame. *)
Definition bad_control : Pipe.t :=
  Pipe.mk true false (λ i, if i =? 2 then [0; 0; 0] else []) (λ _, false) (λ _, []) (λ _, []) 1000 [2].
Definition bad_server : H3Conn.t := H3Conn.new (H3Conn.Config.mk None None None None None) true false.
Definition bad_poll := H3Conn.poll 100 (bad_server, bad_control).

Lemma h3_error_closes_witness : bad_poll.1 = Err H3.MissingSettings ∧ conn_failed bad_poll.2.2 = true
  ∧ ∀ fuel', H3Conn.poll fuel' (bad_poll.2.1, bad_poll.2.2) = (Err H3.Done, (bad_poll.2.1, bad_poll.2.2)).
Proof.
  assert (bad_poll.1 = Err H3.MissingSettings) as He by (vm_compute; reflexivity).
  split; [exact He|]. apply (h3_error_closes 100 bad_server bad_poll.2.1 bad_control bad_poll.2.2 H3.MissingSettings 2 0); [left|reflexivity].
  rewrite <- He. fold bad_poll. by destruct bad_poll as [r [h c]].
Defined.
