(* ===== verification/H3Run.v ===== *)
(** * The HTTP/3 receive loop

    What the application has been given, the invariant of an HTTP/3 connection
    that relates it to the bytes read from the transport, and that [poll] and
    [recv_body] keep it, end, and never panic. *)
From stdpp Require Import gmap.
From S2P Require Import Prelude OctetsLib QpackCodec Streams ConnStreams ConnInv H3Frames H3Streams H3Conn H3Scan H3Inv.

(** ** What the application gets *)

(** Header lists and the bytes of bodies. *)
Inductive item :=
| IHeaders (headers : list Header.t)
| IBody (b : Z).

Definition view_out (max : Z) (o : out) : list item :=
  match o with
  | OFrame ty payload =>
      if ty =? HEADERS_FRAME_TYPE_ID then
        match Decoder.decode payload max with Ok hs => [IHeaders hs] | _ => [] end
      else []
  | OBody b => [IBody b]
  end.
Definition view (max : Z) (outs : list out) : list item := mjoin (view_out max <$> outs).

Lemma view_app max outs outs' : view max (outs ++ outs') = view max outs ++ view max outs'.
Proof. unfold view. by rewrite fmap_app, join_app. Qed.
Lemma view_body max bytes : view max (OBody <$> bytes) = IBody <$> bytes.
Proof. induction bytes as [|b bytes IH]; [done|]. unfold view in *. cbn. by f_equal. Qed.
Lemma view_prefix max outs outs' : outs `prefix_of` outs' → view max outs `prefix_of` view max outs'.
Proof. intros [k ->]. rewrite view_app. by apply prefix_app_r. Qed.

(** What was given, by stream. *)
Abbreviation log := (Z → list item).
Definition give (i : Z) (items : list item) (A : log) : log := λ j, if j =? i then A j ++ items else A j.
Definition deliver (ev : Z * Event) (A : log) : log :=
  match ev.2 with EvHeaders hs _ => give ev.1 [IHeaders hs] A | _ => A end.

Section run.
Context {C : Type} {HT : Transport C} {HG : TransportGhost C} {HL : TransportLaws C}.
Context (max : Z) (max_ok : 0 <= max).
(** Streams that must exist. *)
Context (must : Z → Prop).
Implicit Types (s : H3Stream.t) (h : H3Conn.t) (c : C) (A : log).

(** ** The invariant *)

(** What was given from stream [i] is what its bytes mean, up to the frame that
    is being read. *)
Definition settled (i : Z) c (items : list item) : Prop :=
  is_bidi i = true → ∃ outs rest, scan (history i c) = outs ++ rest ∧ (length rest <= 1)%nat ∧ items = view max outs.

(** The stream has read all that was read from the transport, or was created
    anew after the end of the transport's stream. *)
Definition linked (i : Z) c (items : list item) (read : list Z) (outs : list out) : Prop :=
  history i c = read ∧ (is_bidi i = true → items = view max outs) ∨
  over i c ∧ settled i c items ∧ read = [].

Definition stream_inv (i : Z) c (items : list item) s : Prop :=
  H3Stream.id s = i ∧ ∃ read outs, position s read outs ∧ linked i c items read outs.

Definition slot_inv (i : Z) c (items : list item) (o : option H3Stream.t) : Prop :=
  match o with
  | Some s => stream_inv i c items s
  | None => settled i c items ∧ (history i c = [] ∨ over i c)
  end.

Definition max_size h : Z := default u64_max (ConnectionSettings.max_field_section_size (H3Conn.local_settings h)).

(** The streams that this endpoint opens for itself are unidirectional. *)
Definition own_streams h : Prop :=
  is_bidi (H3Conn.next_uni_stream_id h) = false ∧ ∀ i, H3Conn.control_stream_id h = Some i → is_bidi i = false.

Definition inv h c A : Prop :=
  t_ok c ∧ max_size h = max ∧ (∀ i, slot_inv i c (A i) (H3Conn.streams h !! i)) ∧
  (∀ i, H3Conn.peer_control_stream_id h = Some i → is_bidi i = false) ∧
  (∀ i, must i → is_Some (H3Conn.streams h !! i)) ∧ own_streams h.

(** *** Its parts *)

Lemma position_scan s read outs : position s read outs → is_bidi (H3Stream.id s) = true →
  ∃ rest, scan read = outs ++ rest ∧ (length rest <= 1)%nat.
Proof.
  intros (Hr & _ & pre & r & -> & Hs & Hbi) Hbd. destruct (Hbi Hbd) as [-> Hst]. by apply scan_stands with s [].
Qed.

Lemma position_empty s outs : position s [] outs → is_bidi (H3Stream.id s) = true → outs = [].
Proof. intros Hp Hbd. destruct (position_scan _ _ _ Hp Hbd) as (rest & Heq & _). by destruct outs. Qed.

Lemma settled_stream i c items s : stream_inv i c items s → settled i c items.
Proof.
  intros (Hid & read & outs & Hp & [[Hh Hi]|(_ & Hs & _)]); [|done]. intros Hbd. rewrite <- Hid in Hbd.
  destruct (position_scan _ _ _ Hp Hbd) as (rest & Heq & Hl). rewrite Hid in Hbd. exists outs, rest. rewrite Hh. auto.
Qed.
Lemma settled_slot i c items o : slot_inv i c items o → settled i c items.
Proof. destruct o; [apply settled_stream|by intros []]. Qed.

Lemma settled_start i c : history i c = [] → settled i c [].
Proof. intros Hh Hbd. exists [], []. rewrite Hh. split_and!; [done|cbn; lia|done]. Qed.
Lemma settled_empty i c items : settled i c items → history i c = [] → is_bidi i = true → items = [].
Proof. intros Hs Hh Hbd. destruct (Hs Hbd) as (outs & rest & Heq & _ & ->). rewrite Hh in Heq. by destruct outs. Qed.

(** Other streams of the transport moved. *)
Lemma slot_same i c c' items o : history i c' = history i c → (over i c → over i c') → slot_inv i c items o → slot_inv i c' items o.
Proof.
  intros Hh Ho. assert (settled i c items → settled i c' items) as Hset by (unfold settled; by rewrite Hh).
  destruct o as [s|]; cbn [slot_inv]; [|rewrite Hh; intros [? [?|?]]; auto].
  intros (Hid & read & outs & Hp & Hl). split; [done|]. exists read, outs. split; [done|]. unfold linked in *. rewrite Hh.
  destruct Hl as [?|(? & ? & ?)]; [by left|right; auto].
Qed.
Lemma slot_unread i c c' items o : unread i c c' → slot_inv i c items o → slot_inv i c' items o.
Proof. intros (Hh & _ & Ho). by apply slot_same. Qed.

(** The stream read [bytes] more, and [o] came out. *)
Lemma linked_step i c c' s' items read outs bytes o : t_ok c → linked i c items read outs → moved i c c' bytes → H3Stream.id s' = i →
  position s' (read ++ bytes) (outs ++ o) → linked i c' (items ++ view max o) (read ++ bytes) (outs ++ o).
Proof.
  intros Hok Hl (Hok' & Hh & Hb & Ho & _) Hid Hp. destruct Hl as [[Hr Hi]|(Hov & Hset & ->)].
  - left. split; [by rewrite Hh, Hr|]. intros Hbd. by rewrite view_app, (Hi Hbd).
  - right. destruct (Ho Hov) as [-> Hov']. rewrite app_nil_r in Hh. split_and!; [done| |done]. intros Hbd. destruct (Hset Hbd) as (outs0 & rest & Heq & Hlen & ->). exists outs0, rest.
    rewrite Hh. split_and!; [done|done|]. rewrite <- Hid in Hbd. pose proof (position_empty s' _ Hp Hbd) as Hnil. apply app_eq_nil in Hnil as [_ ->]. by rewrite app_nil_r.
Qed.

Definition put_stream (i : Z) s h : H3Conn.t := H3Conn.set_streams (<[i := s]> (H3Conn.streams h)) h.

Lemma put_twice i s s' h : put_stream i s' (put_stream i s h) = put_stream i s' h.
Proof. unfold put_stream, H3Conn.set_streams. cbn. by rewrite insert_insert_eq. Qed.
Lemma lookup_put i s h : H3Conn.streams (put_stream i s h) !! i = Some s.
Proof. cbn. by rewrite lookup_insert_eq. Qed.

Lemma inv_ext h c A A' : (∀ j, is_bidi j = true → A j = A' j) → inv h c A → inv h c A'.
Proof.
  intros HA (Hok & Hmax & Hs & Hp & Hex & Hown). split_and!; [done|done| |done|done|done]. intros i. specialize (Hs i).
  assert (settled i c (A i) → settled i c (A' i)) as Hset by (intros H Hb; rewrite <- HA by done; auto).
  destruct (H3Conn.streams h !! i) as [s|]; [|by destruct Hs; split; auto]. destruct Hs as (Hid & read & outs & Hpos & Hl).
  split; [done|]. exists read, outs. split; [done|]. destruct Hl as [[Hh Hi]|(? & ? & ?)]; [left|right; auto].
  split; [done|]. intros Hb. rewrite <- HA by done. auto.
Qed.

(** The transport moved on. *)
Lemma inv_quiet h c c' A : inv h c A → quiet c c' → inv h c' A.
Proof.
  intros (Hok & Hmax & Hs & Hp & Hex & Hown) [Hok' Hq]. split_and!; [done|done| |done|done|done]. intros i. by eapply slot_unread; [apply Hq|].
Qed.

(** Stream [i] moved. *)
Lemma inv_put i h c c' bytes A its s' : inv h c A → moved i c c' bytes → stream_inv i c' (A i ++ its) s' →
  inv (put_stream i s' h) c' (give i its A).
Proof.
  intros (Hok & Hmax & Hs & Hp & Hex & Hown) (Hok' & _ & _ & _ & Ho & _) Hi.
  split_and!; [done|done| |done|intros j Hj; apply lookup_insert_is_Some'; auto|done]. intros j. cbn. unfold give.
  destruct (Z.eqb_spec j i) as [-> |Hj]; [by rewrite lookup_insert_eq|]. rewrite lookup_insert_ne by done.
  by eapply slot_unread; [apply Ho|].
Qed.

Lemma inv_step i h c A s read outs s' c' bytes o : inv h c A → H3Stream.id s' = i →
  linked i c (A i) read outs → moved i c c' bytes → position s' (read ++ bytes) (outs ++ o) → inv (put_stream i s' h) c' (give i (view max o) A).
Proof.
  intros Hinv Hid Hl Hm Hp. eapply inv_put; [done|done|]. split; [done|]. exists (read ++ bytes), (outs ++ o). split; [done|].
  eapply linked_step; [apply Hinv|done..].
Qed.

Lemma give_nil i A j : give i [] A j = A j.
Proof. unfold give. destruct (j =? i); [|done]. by rewrite app_nil_r. Qed.

(** ... and nothing came out. *)
Lemma inv_silent i h c A read outs s' c' bytes : inv h c A → H3Stream.id s' = i →
  linked i c (A i) read outs → moved i c c' bytes → position s' (read ++ bytes) outs → inv (put_stream i s' h) c' A.
Proof.
  intros Hinv Hid Hl Hm Hp. eapply inv_ext; [|eapply (inv_step i _ _ _ s' read outs s' c' bytes []); try done; by rewrite app_nil_r].
  intros j _. apply give_nil.
Qed.

(** ** Rules for the connection's combinators *)

Lemma wp_stream_of {X} i s h c (m : M (H3Stream.t * C) H3.Error X) Q QE : H3Conn.streams h !! i = Some s →
  wp m (λ a sc, Q a (put_stream i sc.1 h, sc.2)) (λ e sc, QE e (put_stream i sc.1 h, sc.2)) (s, c) → wp (H3Conn.on_stream i m) Q QE (h, c).
Proof. intros Hs. unfold wp, H3Conn.on_stream. rewrite Hs. by destruct (m (s, c)) as [[] [??]]. Qed.

Lemma wp_transport {X} h c (m : M C Error X) Q QE :
  wp m (λ a c', Q a (h, c')) (λ e c', QE (H3.from_transport e) (h, c')) c → wp (H3Conn.on_conn m) Q QE (h, c).
Proof. unfold wp, H3Conn.on_conn. by destruct (m c) as [[] ?]. Qed.

Lemma wp_self Q (QE : H3.Error → H3Conn.t * C → Prop) h c : Q h (h, c) → wp H3Conn.self Q QE (h, c).
Proof. done. Qed.
Lemma wp_conn Q (QE : H3.Error → H3Conn.t * C → Prop) h c : Q c (h, c) → wp H3Conn.conn Q QE (h, c).
Proof. done. Qed.
Lemma wp_self_modify f (Q : unit → H3Conn.t * C → Prop) (QE : H3.Error → H3Conn.t * C → Prop) h c : Q () (f h, c) → wp (H3Conn.on_self f) Q QE (h, c).
Proof. done. Qed.

(** No stream has more to read, and nothing was written. *)
Definition less c c' : Prop := ∀ j, backlog j c' <= backlog j c ∧ sent j c' = sent j c.
Lemma less_refl c : less c c.
Proof. intros j. split; [lia|done]. Qed.
Lemma less_trans c c1 c2 : less c c1 → less c1 c2 → less c c2.
Proof. intros H1 H2 j. destruct (H1 j), (H2 j). split; [lia|congruence]. Qed.

(** A state that is reached from [c]. *)
Definition kept c A (hc : H3Conn.t * C) : Prop := inv hc.1 hc.2 A ∧ less c hc.2.

Lemma h3_kept_refl h c A : inv h c A → kept c A (h, c).
Proof. intros ?. split; [done|]. apply less_refl. Qed.
Lemma kept_quiet h c c' A : inv h c A → quiet c c' → kept c A (h, c').
Proof. intros Hi Hq. split; [by eapply inv_quiet|]. intros j. split; apply Hq. Qed.
Lemma h3_kept_trans c c' A hc : less c c' → kept c' A hc → kept c A hc.
Proof. intros Hl [? Hk]. split; [done|]. by eapply less_trans. Qed.
Lemma moved_less i c c' bytes : moved i c c' bytes → less c c'.
Proof.
  intros (_ & _ & Hb & _ & Ho & Hs) j. pose proof (zlen_nonneg bytes). split; [|done].
  destruct (decide (j = i)) as [-> |Hj]; [lia|apply Ho; done].
Qed.

Lemma wp_close_as {X} wire reason e h c A (Q : X → H3Conn.t * C → Prop) (QE : H3.Error → H3Conn.t * C → Prop) : inv h c A →
  (∀ e c', kept c A (h, c') → QE e (h, c')) → wp (H3Conn.close_as wire reason e) Q QE (h, c).
Proof.
  intros Hinv HQE. unfold H3Conn.close_as. apply wp_bind, wp_transport.
  eapply wp_mono; [apply close_law, Hinv|..]; cbn; intros ? c' Hq.
  - change (QE e (h, c')). apply HQE. by apply kept_quiet.
  - apply HQE. by apply kept_quiet.
Qed.
Lemma wp_close {X} e reason h c A (Q : X → H3Conn.t * C → Prop) (QE : H3.Error → H3Conn.t * C → Prop) : inv h c A →
  (∀ e c', kept c A (h, c') → QE e (h, c')) → wp (H3Conn.close e reason) Q QE (h, c).
Proof. apply wp_close_as. Qed.

(** [or_close]: the error leaves a state where the invariant holds. *)
Lemma wp_or_close {X} m reason h c A (Q : X → H3Conn.t * C → Prop) (QE : H3.Error → H3Conn.t * C → Prop) :
  wp m Q (λ _ hc, kept c A hc) (h, c) →
  (∀ e hc, kept c A hc → QE e hc) → wp (H3Conn.or_close m reason) Q QE (h, c).
Proof.
  intros Hm HQE. unfold H3Conn.or_close. apply wp_bind, wp_attempt. eapply wp_mono; [exact Hm|..]; cbn.
  - intros a [h' c'] HQ. exact HQ.
  - intros e [h' c'] [Hk Hl]. apply (wp_close _ _ _ _ A); [done|]. intros e' c'' Hk'. apply HQE. by eapply h3_kept_trans.
Qed.

(** ** The states of the loop *)

(** What holds when the body of the loop ends: [before] is the measure at its
    start, and a turn that continues makes it smaller. *)
Definition measure i c s : Z := 3 * backlog i c + rank s.
Definition turned (polling : bool) (i : Z) c s A (r : H3Conn.flow) (hc : H3Conn.t * C) : Prop :=
  match r with
  | H3Conn.Return ev => polling = true ∧ kept c (deliver ev A) hc
  | H3Conn.Break => kept c A hc
  | H3Conn.Continue => kept c A hc ∧ ∃ s', H3Conn.streams hc.1 !! i = Some s' ∧ measure i hc.2 s' < measure i c s
  end.

Lemma kept_silent i h c A read outs s' c' bytes : inv h c A → H3Stream.id s' = i →
  linked i c (A i) read outs → moved i c c' bytes → position s' (read ++ bytes) outs → kept c A (put_stream i s' h, c').
Proof. intros. split; [by eapply inv_silent|]. by eapply moved_less. Qed.

(** Reading a varint. *)
Definition varint_read i h c (read : list Z) (outs : list out) s (v : option Z) (hc : H3Conn.t * C) : Prop :=
  ∃ s' c' bytes, hc = (put_stream i s' h, c') ∧ H3Stream.id s' = i ∧ H3Stream.state s' = H3Stream.state s ∧ moved i c c' bytes ∧
    position s' (read ++ bytes) outs ∧
    match v with
    | Some v => varint_of (buffered s') v ∧ (1 <= zlen bytes ∨ rank s = 2)
    | None => 1 <= zlen bytes
    end.

Lemma buffered_off s : 0 <= H3Stream.state_off s → H3Stream.state_off s <= zlen (H3Stream.state_buf s) → zlen (buffered s) = H3Stream.state_off s.
Proof. intros. unfold buffered. apply zlen_ztake. lia. Qed.

Lemma varint_rank s : reads_varint s → H3Stream.state_off s ≠ 0 → rank s = 2.
Proof. unfold reads_varint, rank. intros Hr Ho. rewrite (proj2 (Z.eqb_neq _ _) Ho). by destruct (H3Stream.state s). Qed.

Lemma wp_read_varint i s h c A read outs (QE : H3.Error → H3Conn.t * C → Prop) : inv h c A → H3Conn.streams h !! i = Some s →
  H3Stream.id s = i → linked i c (A i) read outs → position s read outs → reads_varint s →
  (∀ e hc, kept c A hc → QE e hc) →
  wp (H3Conn.read_varint i) (varint_read i h c read outs s) QE (h, c).
Proof.
  intros Hinv Hs Hid Hl Hp Hr HQE. pose proof (position_varint_buf s read outs Hr Hp) as Hv. pose proof Hv as (_ & Hoff & Hlen & _).
  pose proof (buffered_off s ltac:(lia) ltac:(lia)) as Hz.
  unfold H3Conn.read_varint. apply wp_bind, (wp_stream_of _ s); [done|]. apply wp_fill_varint; [apply Hinv|done|..].
  - intros s1 c1 bytes Hsame Hready Hbuf Hm Hcase. rewrite Hid in Hm. cbn [fst snd].
    apply wp_bind, wp_attempt, (wp_stream_of _ s1); [apply lookup_put|]. apply wp_on_self.
    destruct Hready as (Hb1 & Heq & Hlen1 & first & rest & n & Ef & En & Ecase).
    assert (0 <= H3Stream.state_off s1) as Hoff1.
    { destruct (parse_len_ok first) as (n' & En' & Hn'); [rewrite Ef in Hb1; by inversion Hb1|]. rewrite En in En'. injection En' as <-. lia. }
    pose proof (buffered_off s1 Hoff1 ltac:(lia)) as Hz1. rewrite Hbuf, zlen_app in Hz1. pose proof (zlen_nonneg bytes).
    assert (∀ s2, same_but_buf s1 s2 → varint_buf s2 → buffered s2 = buffered s1 →
      H3Stream.id s2 = i ∧ H3Stream.state s2 = H3Stream.state s ∧ position s2 (read ++ bytes) outs) as Hdone.
    { intros s2 Hs2 Hv2 Hbuf2. pose proof Hsame as (Ei & Et & Es & Ef1 & El & Er & Eli & Ep). pose proof Hs2 as (Ei2 & Et2 & Es2 & Ef2 & El2 & Er2 & Eli2 & Ep2).
      split_and!; [congruence|congruence|]. eapply position_more; [done|done| |done|by rewrite Hbuf2]. split_and!; congruence. }
    eapply wp_try_consume_varint; [done|done|done|done|lia|done|..].
    + intros v s2 Hs2 Hv2 Ho2 Hbuf2 Hof. rewrite put_twice. destruct (Hdone s2 Hs2 Hv2 Hbuf2) as (? & ? & ?). apply wp_ret.
      exists s2, c1, bytes. split_and!; try done; [by rewrite Hbuf2|]. destruct (Z.le_gt_cases 1 (zlen bytes)); [by left|].
      right. apply varint_rank; [done|]. destruct (parse_len_ok first) as (n' & En' & Hn'); [rewrite Ef in Hb1; by inversion Hb1|].
      rewrite En in En'. injection En' as <-. lia.
    + intros e s2 Hs2 Hv2 Ho2 Hbuf2 Ho1 Hn1. rewrite put_twice. destruct (Hdone s2 Hs2 Hv2 Hbuf2) as (? & ? & ?). apply wp_ret.
      exists s2, c1, bytes. split_and!; try done. destruct Hcase as [?|(_ & _ & _ & [[? ?]|(x & l & Ex & Epx & _)])]; [done|lia|].
      rewrite Ex in Ef. injection Ef as -> ->. rewrite En in Epx. injection Epx as ->. lia.
  - intros e s1 c1 bytes Hsame Hv1 Hbuf Hm. rewrite Hid in Hm. apply HQE. pose proof Hsame as (Ei & _).
    eapply kept_silent; [done|cbn [fst]; congruence|done|done|]. by eapply position_more.
Qed.

(** A change of other fields. *)
Definition fixed_fields h := (H3Conn.local_settings h, H3Conn.next_uni_stream_id h, H3Conn.control_stream_id h).
Lemma inv_fields h h' c A : inv h c A → H3Conn.streams h' = H3Conn.streams h → fixed_fields h' = fixed_fields h →
  H3Conn.peer_control_stream_id h' = H3Conn.peer_control_stream_id h ∨ (∃ i, H3Conn.peer_control_stream_id h' = Some i ∧ is_bidi i = false) →
  inv h' c A.
Proof.
  intros (Hok & Hmax & Hs & Hp & Hex & Hown) E1 [= E2 E3 E4] E5. unfold inv, max_size, own_streams in *. rewrite E1, E2, E3, E4.
  split_and!; [done..| |done|exact (proj1 Hown)|exact (proj2 Hown)]. intros i Hi. destruct E5 as [E5|(j & E5 & Hj)]; [apply Hp|]; congruence.
Qed.

Lemma wp_on_type_set i ty h c A (Q : unit → H3Conn.t * C → Prop) (QE : H3.Error → H3Conn.t * C → Prop) : inv h c A →
  is_bidi i = false → ty ≠ H3Stream.Request →
  (∀ h', inv h' c A → H3Conn.streams h' = H3Conn.streams h → Q () (h', c)) →
  (∀ e hc, kept c A hc → QE e hc) → wp (H3Conn.on_type_set i ty) Q QE (h, c).
Proof.
  intros Hinv Hbi Hty HQ HQE. unfold H3Conn.on_type_set. apply wp_bind, wp_self.
  destruct ty; try done; try (case_bool_decide; [by eapply wp_close; [|intros; by apply HQE]|]); try (apply wp_self_modify, HQ; [|done]).
  - eapply inv_fields; [done|done|done|right; eauto].
  - destruct (H3Conn.is_server h); [by eapply wp_close; [|intros; by apply HQE]|]. by apply wp_ret, HQ.
  - eapply inv_fields; [done|done|done|by left].
  - eapply inv_fields; [done|done|done|by left].
  - by apply wp_ret, HQ.
Qed.

Lemma deserialize_not_request v : H3Stream.deserialize v ≠ H3Stream.Request.
Proof. unfold H3Stream.deserialize. by repeat case_match. Qed.

Section state.
Context (polling : bool) (i : Z) (s : H3Stream.t) (h : H3Conn.t) (c : C) (A : log) (read : list Z) (outs : list out).
Context (Hinv : inv h c A) (Hs : H3Conn.streams h !! i = Some s) (Hid : H3Stream.id s = i).
Context (Hlinked : linked i c (A i) read outs) (Hpos : position s read outs).

(** What follows a varint: [next] takes it, or refuses it and leaves the stream
    as it was. *)
Lemma wp_varint_state (next : Z → M (H3Conn.t * C) H3.Error H3Conn.flow) :
  reads_varint s →
  (∀ v s' c' bytes, H3Stream.id s' = i → H3Stream.state s' = H3Stream.state s → moved i c c' bytes → position s' (read ++ bytes) outs → varint_of (buffered s') v →
    1 <= zlen bytes ∨ rank s = 2 →
    wp (next v) (turned polling i c s A) (λ _ hc, kept c A hc) (put_stream i s' h, c')) →
  wp (v ← H3Conn.read_varint i; match v with None => mret H3Conn.Continue | Some v => next v end)
    (turned polling i c s A) (λ _ hc, kept c A hc) (h, c).
Proof.
  intros Hr Hnext. apply wp_bind. eapply wp_mono; [by eapply (wp_read_varint i s h c A read outs (λ _ hc, kept c A hc))| |done].
  cbv beta. intros v hc (s' & c' & bytes & -> & Hid' & Hst & Hm & Hp & Hv). destruct v as [v|].
  - destruct Hv. by eapply Hnext.
  - apply wp_ret. split; [by eapply kept_silent|]. exists s'. split; [apply lookup_put|]. unfold measure. cbn [snd].
    destruct Hm as (_ & _ & Hb & _). pose proof (rank_range s). pose proof (rank_range s'). lia.
Qed.

(** The stream took it. *)
Lemma turned_more s' c' bytes hc : H3Conn.streams hc.1 !! i = Some s' → hc.2 = c' → moved i c c' bytes → rank s' <= 1 →
  1 <= zlen bytes ∨ rank s = 2 → kept c A hc → turned polling i c s A H3Conn.Continue hc.
Proof.
  intros Hs' <- (_ & _ & Hb & _) Hrk Hcase Hk. split; [done|]. exists s'. split; [done|]. unfold measure.
  pose proof (rank_range s). pose proof (rank_range s'). pose proof (zlen_nonneg bytes). destruct Hcase; lia.
Qed.

Lemma wp_read_stream_type : H3Stream.state s = H3Stream.StreamType →
  wp (H3Conn.read_stream_type i) (turned polling i c s A) (λ _ hc, kept c A hc) (h, c).
Proof.
  intros Hst. unfold H3Conn.read_stream_type. apply wp_varint_state; [by unfold reads_varint; rewrite Hst|].
  intros v s' c' bytes Hid' Hst' Hm Hp Hv Hcase. rewrite Hst in Hst'.
  assert (is_bidi i = false) as Hbi by (rewrite <- Hid'; eapply not_bidi_type; [done|rewrite Hst'; left]).
  apply wp_bind, (wp_or_close _ _ _ _ A); [|intros e hc Hk; eapply h3_kept_trans; [by eapply moved_less|done]].
  apply (wp_stream_of _ s'); [apply lookup_put|]. apply wp_on_self.
  eapply wp_mono; [by apply wp_set_ty|..]; [|done]. intros [] s2 (Hid2 & Hp2 & Hr2). cbn [fst snd]. rewrite put_twice.
  assert (inv (put_stream i s2 h) c' A) as Hinv2 by (eapply inv_silent; [done|congruence|done..]).
  apply wp_bind, (wp_on_type_set _ _ _ _ A); [done|done|apply deserialize_not_request| |].
  - intros h' Hinv' Hsame. apply wp_ret. eapply turned_more; [cbn; rewrite Hsame; apply lookup_put|done|done|done|done|].
    split; [done|]. by eapply moved_less.
  - intros e hc Hk. eapply h3_kept_trans; [by eapply moved_less|done].
Qed.

(** The stream's state machine is given a varint. *)
Lemma wp_give_varint s' c' bytes (m : M H3Stream.t H3.Error unit) (Q : unit → H3Conn.t * C → Prop) (QE : H3.Error → H3Conn.t * C → Prop) :
  H3Stream.id s' = i → moved i c c' bytes → 1 <= zlen bytes ∨ rank s = 2 → position s' (read ++ bytes) outs →
  wp m (λ _ s2, H3Stream.id s2 = H3Stream.id s' ∧ position s2 (read ++ bytes) outs ∧ rank s2 <= 1) (λ _ s2, s2 = s') s' →
  (∀ hc, turned polling i c s A H3Conn.Continue hc → Q () hc) → (∀ e h', kept c A (h', c') ∧ kept c' A (h', c') → QE e (h', c')) →
  wp (H3Conn.on_stream i (H3Stream.on_self m)) Q QE (put_stream i s' h, c').
Proof.
  intros Hid' Hm Hcase Hp Hw HQ HQE. apply (wp_stream_of _ s'); [apply lookup_put|]. apply wp_on_self. eapply wp_mono; [exact Hw|..]; cbv beta.
  - intros [] s2 (Hid2 & Hp2 & Hr2). cbn [fst snd]. rewrite put_twice. apply HQ. eapply turned_more; [apply lookup_put|done..|].
    eapply kept_silent; [done|congruence|done..].
  - intros e s2 ->. cbn [fst snd]. rewrite put_twice. apply HQE. assert (kept c A (put_stream i s' h, c')) as Hk by by eapply kept_silent.
    split; [done|]. apply h3_kept_refl, Hk.
Qed.

Lemma wp_read_push_id : H3Stream.state s = H3Stream.PushId →
  wp (H3Conn.read_push_id i) (turned polling i c s A) (λ _ hc, kept c A hc) (h, c).
Proof.
  intros Hst. unfold H3Conn.read_push_id. apply wp_varint_state; [by unfold reads_varint; rewrite Hst|].
  intros v s' c' bytes Hid' Hst' Hm Hp Hv Hcase. rewrite Hst in Hst'.
  apply wp_bind, (wp_or_close _ _ _ _ A); [|intros e hc Hk; eapply h3_kept_trans; [by eapply moved_less|done]].
  eapply wp_give_varint; [done..|eapply wp_mono; [by apply wp_set_push_id|done|done]|done|by intros e h' [_ Hk]].
Qed.

Lemma wp_read_frame_type : H3Stream.state s = H3Stream.FrameType →
  wp (H3Conn.read_frame_type i) (turned polling i c s A) (λ _ hc, kept c A hc) (h, c).
Proof.
  intros Hst. unfold H3Conn.read_frame_type. apply wp_varint_state; [by unfold reads_varint; rewrite Hst|].
  intros v s' c' bytes Hid' Hst' Hm Hp Hv Hcase. rewrite Hst in Hst'. apply wp_bind, wp_attempt.
  eapply wp_give_varint; [done..| |done|].
  - eapply wp_mono; [by apply wp_set_frame_type| |done]. intros [] s2 (? & ? & ?). split_and!; [done|done|lia].
  - intros e h' [_ [Hk _]]. assert (∀ (e : H3.Error) c'', kept c' A (h', c'') → kept c A (h', c'')) as Hgo.
    { intros _ c'' Hk'. eapply h3_kept_trans; [by eapply moved_less|done]. }
    destruct e; by apply (wp_close _ _ _ _ A).
Qed.

Lemma wp_read_frame_payload_len : H3Stream.state s = H3Stream.FramePayloadLen →
  wp (H3Conn.read_frame_payload_len i) (turned polling i c s A) (λ _ hc, kept c A hc) (h, c).
Proof.
  intros Hst. unfold H3Conn.read_frame_payload_len. apply wp_varint_state; [by unfold reads_varint; rewrite Hst|].
  intros v s' c' bytes Hid' Hst' Hm Hp Hv Hcase. rewrite Hst in Hst'.
  apply wp_bind, (wp_or_close _ _ _ _ A); [|intros e hc Hk; eapply h3_kept_trans; [by eapply moved_less|done]].
  eapply wp_give_varint; [done..|eapply wp_mono; [by apply wp_set_frame_payload_len|done|done]|done|by intros e h' [_ Hk]].
Qed.

Lemma wp_drain : wp (H3Conn.drain i) (turned polling i c s A) (λ _ hc, kept c A hc) (h, c).
Proof.
  unfold H3Conn.drain. apply wp_bind, wp_transport.
  eapply wp_mono; [apply shutdown_law, Hinv|..]; intros ? c' Hq; by eapply kept_quiet.
Qed.

Lemma wp_announce_data : wp (H3Conn.announce_data i polling)
  (turned polling i c s A) (λ _ hc, kept c A hc) (h, c).
Proof.
  unfold H3Conn.announce_data. destruct polling; cbn [negb]; [|by apply wp_ret, h3_kept_refl].
  apply wp_bind, (wp_stream_of _ s); [done|]. apply wp_on_self. unfold H3Stream.try_trigger_data_event.
  assert (∀ s', H3Stream.id s' = H3Stream.id s → position s' read outs → kept c A (put_stream i s' h, c)) as Hk.
  { intros s' Hid' Hp'. eapply kept_silent; [done|congruence|done|apply moved_refl, Hinv|by rewrite app_nil_r]. }
  destruct (H3Stream.data_event_triggered s) eqn:Hd; (eapply wp_run; [cbv beta; by rewrite Hd|]).
  - apply wp_ret. by apply Hk.
  - apply wp_ret. split; [done|]. apply Hk; [done|]. by apply (position_ext s).
Qed.
End state.

(** Discarding what a QPACK stream sends. *)
Lemma h3_wp_discard fuel i s h c A read outs : inv h c A → H3Conn.streams h !! i = Some s → H3Stream.id s = i → linked i c (A i) read outs →
  position s read outs → H3Stream.state s = H3Stream.QpackInstruction → backlog i c < Z.of_nat fuel →
  wp (H3Conn.discard fuel i) (λ _ _, False) (λ _ hc, kept c A hc) (h, c).
Proof.
  revert c read. induction fuel as [|fuel IH]; intros c read Hinv Hs Hid Hl Hp Hst Hf.
  { pose proof (backlog_nonneg i c (proj1 Hinv)). lia. }
  cbn [H3Conn.discard]. apply wp_bind, wp_transport. eapply wp_mono; [apply recv_law; [apply Hinv|lia]|..]; cbv beta.
  - intros [bytes fin] c' (Hm & _ & Hb & Hless). cbn [fst] in *. pose proof Hp as (Hr & Hbuf & pre & r & -> & Hstands & Hbi).
    assert (position s ((pre ++ r) ++ bytes) outs) as Hp'.
    { split_and!; [by apply Forall_app|done|]. exists pre, (r ++ bytes). rewrite app_assoc. split_and!; [done| |done].
      unfold stands in *. by rewrite Hst in *. }
    assert (put_stream i s h = h) as Hput by (unfold put_stream, H3Conn.set_streams; rewrite insert_id by done; by destruct h).
    assert (inv h c' A) as Hinv' by (rewrite <- Hput; by eapply inv_silent).
    eapply wp_mono; [eapply (IH c' ((pre ++ r) ++ bytes)); try done; [|specialize (Hless ltac:(lia)); lia]|done|].
    + pose proof (linked_step i c c' s (A i) _ outs bytes [] (proj1 Hinv) Hl Hm Hid) as Hl'. rewrite !app_nil_r in Hl'. by apply Hl'.
    + intros e hc Hk. eapply h3_kept_trans; [by eapply moved_less|done].
  - intros e c' Hq. by eapply kept_quiet.
Qed.

(** ** Handling a frame *)

(** A stream is replaced by one that stands at the same place. *)
Lemma inv_replace p s' h c A : inv h c A → stream_inv p c (A p) s' → inv (put_stream p s' h) c A.
Proof.
  intros Hinv Hi. eapply inv_ext; [|eapply (inv_put p h c c [] A []); [done|apply moved_refl, Hinv|by rewrite app_nil_r]].
  intros j _. apply give_nil.
Qed.

(** A stream that is created: the transport has read nothing from it, or its end. *)
Lemma stream_inv_new p local c A o : slot_inv p c (A p) o → history p c = [] ∨ o = None → stream_inv p c (A p) (H3Stream.new p local).
Proof.
  intros Hslot Hh. split; [unfold H3Stream.new; by destruct (is_bidi p)|]. exists [], []. split; [apply position_new|].
  pose proof (settled_slot _ _ _ _ Hslot) as Hset. assert (history p c = [] ∨ over p c) as [Hh'|Hov].
  { destruct Hh as [?| ->]; [by left|]. apply Hslot. }
  - left. split; [done|]. intros Hb. by apply settled_empty with p c.
  - by right.
Qed.

Lemma stream_inv_ext p c A s s' : stream_inv p c (A p) s → H3Stream.id s' = H3Stream.id s → (∀ read outs, position s read outs → position s' read outs) →
  stream_inv p c (A p) s'.
Proof. intros (Hid & read & outs & Hp & Hl) Hid' Hpos. split; [congruence|]. exists read, outs. auto. Qed.

Section frame.
Context (i : Z) (s : H3Stream.t) (h : H3Conn.t) (c : C) (A : log).
Context (Hinv : inv h c A) (Hs : H3Conn.streams h !! i = Some s).

(** The stream is still there when the handler fails. *)
Definition refused (e : H3.Error) (hc : H3Conn.t * C) : Prop :=
  kept c A hc ∧ ∃ s', H3Conn.streams hc.1 !! i = Some s' ∧ rank s' = rank s.
Definition handles (m : M (H3Conn.t * C) H3.Error (Z * Event)) : Prop :=
  wp m (λ ev hc, kept c (deliver ev A) hc) refused (h, c).

Lemma refused_fields e h' : H3Conn.streams h' = H3Conn.streams h → inv h' c A → refused e (h', c).
Proof. intros Hsame Hinv'. split; [by apply h3_kept_refl|]. exists s. cbn. by rewrite Hsame. Qed.

Lemma wp_refuse_unless ok wire reason e (Q : unit → H3Conn.t * C → Prop) : (ok = true → Q () (h, c)) →
  wp (H3Conn.refuse_unless ok wire reason e) Q refused (h, c).
Proof.
  intros HQ. unfold H3Conn.refuse_unless. destruct ok; [by apply wp_ret, HQ|]. apply (wp_close_as _ _ _ _ _ A); [done|].
  intros e' c' Hk. split; [done|]. by exists s.
Qed.
Lemma wp_expected ok reason (Q : unit → H3Conn.t * C → Prop) : (ok = true → Q () (h, c)) → wp (H3Conn.expected ok reason) Q refused (h, c).
Proof. apply wp_refuse_unless. Qed.

(** Conditions, then the effect. *)
Ltac conditions := repeat first
  [apply wp_bind, wp_self|apply wp_bind, wp_conn|apply wp_bind, wp_expected; intros ?|apply wp_bind, wp_refuse_unless; intros ?].

Lemma handles_settings st : handles (H3Conn.on_settings st).
Proof.
  unfold handles, H3Conn.on_settings. apply wp_bind, wp_self_modify. set (h' := H3Conn.set_peer_settings _ h).
  assert (inv h' c A) as Hinv' by (eapply inv_fields; [done|done|done|by left]).
  apply wp_bind, wp_conn, wp_bind. destruct (_ && _).
  - apply (wp_close _ _ _ _ A); [done|]. intros e c' Hk. split; [done|]. by exists s.
  - by apply wp_ret, wp_fail, refused_fields.
Qed.

Lemma handles_data : handles (H3Conn.on_data_frame i).
Proof. unfold handles, H3Conn.on_data_frame. conditions. by apply wp_fail, refused_fields. Qed.
Lemma handles_cancel_push : handles (H3Conn.on_cancel_push i).
Proof. unfold handles, H3Conn.on_cancel_push. conditions. by apply wp_fail, refused_fields. Qed.
Lemma handles_push_promise : handles (H3Conn.on_push_promise i).
Proof. unfold handles, H3Conn.on_push_promise. conditions. by apply wp_fail, refused_fields. Qed.
Lemma handles_priority_update_push v : handles (H3Conn.on_priority_update_push i v).
Proof. unfold handles, H3Conn.on_priority_update_push. conditions. by apply wp_fail, refused_fields. Qed.

Lemma handles_goaway v : handles (H3Conn.on_goaway i v).
Proof.
  unfold handles, H3Conn.on_goaway. conditions. apply wp_bind, wp_self_modify, wp_ret, h3_kept_refl.
  eapply inv_fields; [done|done|done|by left].
Qed.
Lemma handles_max_push_id v : handles (H3Conn.on_max_push_id i v).
Proof.
  unfold handles, H3Conn.on_max_push_id. conditions. apply wp_bind, wp_self_modify, wp_fail, refused_fields; [done|].
  eapply inv_fields; [done|done|done|by left].
Qed.

Lemma handles_priority_update_request p v : handles (H3Conn.on_priority_update_request i p v).
Proof.
  unfold handles, H3Conn.on_priority_update_request. conditions. pose proof (limit_law c (proj1 Hinv)) as Hlim.
  change (2 ^ 60) with 1152921504606846976 in Hlim.
  apply wp_bind. unfold umul. rewrite (proj2 (Z.leb_le _ _)) by lia. eapply wp_lift; [done|]. conditions.
  destruct (is_collected p c); [by apply wp_fail, refused_fields|]. set (stream := default _ _).
  set (stream' := H3Stream.set_last_priority_update (Some v) stream).
  assert (inv (put_stream p stream' h) c A) as Hinv'.
  { apply inv_replace; [done|]. eapply (stream_inv_ext p c A stream); [|done|intros ?? Hp; by apply (position_ext stream)].
    pose proof Hinv as (_ & _ & Hslot & _). specialize (Hslot p). unfold stream. destruct (H3Conn.streams h !! p) as [s0|]; [done|].
    by apply (stream_inv_new p false c A None); [|right]. }
  apply wp_bind, wp_self_modify. case_bool_decide; [by apply wp_ret, h3_kept_refl|]. apply wp_fail. split; [by apply h3_kept_refl|].
  destruct (decide (i = p)) as [<- |Hne].
  - exists stream'. split; [apply lookup_put|]. unfold stream', stream. by rewrite Hs.
  - exists s. split; [|done]. cbn. by rewrite lookup_insert_ne.
Qed.
End frame.

Lemma view_frame ty payload : ty ≠ HEADERS_FRAME_TYPE_ID → view_out max (OFrame ty payload) = [].
Proof. intros Hty. cbn. by rewrite (proj2 (Z.eqb_neq _ _) Hty). Qed.

Lemma inv_nothing i h c A its : its = [] ∨ is_bidi i = false → inv h c (give i its A) → inv h c A.
Proof.
  intros Hc. apply inv_ext. intros j Hj. destruct Hc as [-> |Hi]; [apply give_nil|]. unfold give.
  destruct (Z.eqb_spec j i) as [-> |]; [congruence|done].
Qed.

Lemma handles_headers i s h c A b : inv h c (give i (view_out max (OFrame HEADERS_FRAME_TYPE_ID b)) A) → H3Conn.streams h !! i = Some s →
  bytes_ok b → zlen b < 2 ^ 62 → handles i s h c A (H3Conn.on_headers i b).
Proof.
  intros Hinv Hs Hb Hlen. unfold handles, H3Conn.on_headers. apply wp_bind, wp_self. pose proof Hinv as (_ & Hmax & _ & Hctl & _).
  destruct (H3Conn.is_control i h) eqn:Hic; cbn [negb].
  - apply wp_bind, (wp_expected i s h c A); [|done|done]. eapply inv_nothing; [right|done]. apply Hctl.
    unfold H3Conn.is_control in Hic. by apply bool_decide_eq_true in Hic.
  - apply wp_bind, wp_ret. change (default u64_max _) with (max_size h). rewrite Hmax.
    pose proof (decode_safe b max Hb Hlen max_ok) as Hd. revert Hinv. cbn [view_out]. rewrite Z.eqb_refl.
    destruct (Decoder.decode b max) as [hs|e|]; [|intros Hinv..|done].
    + intros Hinv. apply wp_bind, wp_conn, wp_ret. by apply h3_kept_refl.
    + apply inv_nothing in Hinv; [|by left]. apply (wp_close _ _ _ _ A); [done|]. intros e' c' Hk. split; [done|]. by exists s.
Qed.

Lemma wp_process_frame i s h c A ty payload frame n : inv h c (give i (view_out max (OFrame ty payload)) A) → H3Conn.streams h !! i = Some s →
  h3_type frame = ty → (ty = HEADERS_FRAME_TYPE_ID → frame = H3Frame.Headers payload) → bytes_ok payload → zlen payload < 2 ^ 62 →
  handles i s h c A (H3Conn.process_frame i frame n).
Proof.
  intros Hinv Hs Hty Hhead Hb Hlen. destruct (decide (ty = HEADERS_FRAME_TYPE_ID)) as [-> |Hne].
  - rewrite (Hhead eq_refl). by apply handles_headers.
  - rewrite (view_frame _ _ Hne) in Hinv. apply inv_nothing in Hinv; [|by left]. destruct frame; cbn [H3Conn.process_frame].
    + by apply handles_data.
    + by subst ty.
    + by apply handles_cancel_push.
    + by apply handles_settings.
    + by apply handles_push_promise.
    + by apply handles_goaway.
    + by apply handles_max_push_id.
    + by apply handles_priority_update_request.
    + by apply handles_priority_update_push.
    + by apply wp_fail, (refused_fields i s h c A).
Qed.

Lemma view_one o : view max [o] = view_out max o.
Proof. unfold view. cbn. by rewrite app_nil_r. Qed.

Section turn.
Context (polling : bool) (i : Z) (s : H3Stream.t) (h : H3Conn.t) (c : C) (A : log) (read : list Z) (outs : list out).
Context (Hinv : inv h c A) (Hs : H3Conn.streams h !! i = Some s) (Hid : H3Stream.id s = i).
Context (Hlinked : linked i c (A i) read outs) (Hpos : position s read outs).

(** The frame was handled. *)
Lemma wp_frame_handled s2 c1 bytes frame n ty payload : moved i c c1 bytes → rank s = 1 → rank s2 = 0 →
  inv (put_stream i s2 h) c1 (give i (view_out max (OFrame ty payload)) A) →
  h3_type frame = ty → (ty = HEADERS_FRAME_TYPE_ID → frame = H3Frame.Headers payload) → bytes_ok payload → is_varint (zlen payload) →
  wp (r ← attempt (H3Conn.process_frame i frame n);
      match r with
      | inl ev => mret (H3Conn.Return ev)
      | inr H3.Done => c ← H3Conn.conn; mret (if stream_finished i c then H3Conn.Break else H3Conn.Continue)
      | inr e => fail e
      end) (turned true i c s A) (λ _ hc, kept c A hc) (put_stream i s2 h, c1).
Proof.
  intros Hm Hr Hr2 Hinv2 Hty Hhead Hb Hlen. pose proof (moved_less _ _ _ _ Hm) as Hless. apply wp_bind, wp_attempt.
  eapply wp_mono; [eapply (wp_process_frame i s2 _ c1 A ty payload); [done|apply lookup_put|done..|]|..]; cbv beta.
  - unfold is_varint in Hlen. change (2 ^ 62) with 4611686018427387904. lia.
  - intros ev hc Hk. apply wp_ret. split; [done|]. by eapply h3_kept_trans.
  - intros e [h3 c3] [Hk (s3 & Hs3 & Hr3)]. assert (kept c A (h3, c3)) as Hk' by by eapply h3_kept_trans.
    destruct e; try (by apply wp_fail). apply wp_bind, wp_conn, wp_ret. destruct (stream_finished i c3); [done|].
    split; [done|]. exists s3. split; [done|]. destruct Hk' as [_ Hb3]. destruct (Hb3 i). unfold measure in *. cbn [snd] in *. lia.
Qed.

Lemma wp_read_frame_payload : H3Stream.state s = H3Stream.FramePayload →
  wp (H3Conn.read_frame_payload i polling)
    (turned polling i c s A) (λ _ hc, kept c A hc) (h, c).
Proof.
  intros Hst. unfold H3Conn.read_frame_payload. destruct polling eqn:Hpoll; cbn [negb]; [|by apply wp_ret, h3_kept_refl].
  assert (rank s = 1) as Hr by (unfold rank; by rewrite Hst).
  apply wp_bind, (wp_stream_of _ s); [done|]. apply (wp_fill_payload s c read outs); [apply Hinv|done|done|..]; rewrite Hid; cbn [fst snd].
  - intros s1 c1 bytes Hid1 Hst1 Hfull Hp1 Hm. apply wp_bind, wp_attempt, (wp_stream_of _ s1); [apply lookup_put|]. apply wp_on_self.
    eapply wp_mono; [by apply (wp_try_consume_frame s1 (read ++ bytes) outs)|..]; cbv beta; cbn [fst snd].
    + intros [frame n] s2 (Hid2 & Hr2 & ty & Hty & Hb & Hft & Hhead & Hlen & Hp2). cbn [fst] in *. rewrite put_twice.
      eapply (wp_frame_handled s2 c1 bytes frame n ty (H3Stream.state_buf s1)); try done. rewrite <- view_one. eapply (inv_step i h c A s read outs); [done|congruence|done..].
    + intros e s2 [Hid2 Hp2]. rewrite put_twice. assert (kept c A (put_stream i s2 h, c1)) as Hk by (eapply kept_silent; [done|congruence|done..]).
      assert (∀ reason, wp (H3Conn.close e reason) (turned true i c s A) (λ _ hc, kept c A hc) (put_stream i s2 h, c1)) as Hclose.
      { intros reason. apply (wp_close _ _ _ _ A); [by destruct Hk|]. intros e' c' Hk'. eapply h3_kept_trans; [by eapply moved_less|done]. }
      destruct e; try apply Hclose. by apply wp_fail.
  - intros e s1 c1 bytes Hid1 Hp1 Hm. eapply kept_silent; [done|congruence|done..].
Qed.

(** The body of the loop. *)
Lemma wp_read_state fuel : measure i c s <= Z.of_nat fuel →
  wp (H3Conn.read_state fuel i polling (H3Stream.state s))
    (turned polling i c s A) (λ _ hc, kept c A hc) (h, c).
Proof.
  intros Hf. unfold H3Conn.read_state. destruct (H3Stream.state s) eqn:Hst.
  - by eapply wp_read_stream_type.
  - by eapply wp_read_frame_type.
  - by eapply wp_read_frame_payload_len.
  - by apply wp_read_frame_payload.
  - by eapply wp_announce_data.
  - by eapply wp_read_push_id.
  - eapply wp_mono; [eapply (h3_wp_discard fuel i s h c A read outs)|..]; try done. unfold measure, rank in Hf. rewrite Hst in Hf.
    pose proof (backlog_nonneg i c (proj1 Hinv)). lia.
  - by apply wp_drain.
  - by apply wp_ret, h3_kept_refl.
Qed.
End turn.

(** ** The loop, [poll] and [recv_body] *)

Definition enough (fuel : nat) c : Prop := ∀ i, 3 * backlog i c + 2 < Z.of_nat fuel.
Lemma enough_less fuel c c' : enough fuel c → less c c' → enough fuel c'.
Proof. intros He Hl i. specialize (He i). destruct (Hl i). lia. Qed.

(** An event was found, or none. *)
Definition found c A (ev : Z * Event) (hc : H3Conn.t * C) : Prop := kept c (deliver ev A) hc.
Definition none_found c A (_ : H3.Error) (hc : H3Conn.t * C) : Prop := kept c A hc.

Lemma wp_read_loop fuel polling i h c A : inv h c A → (0 < fuel)%nat →
  (∀ s, H3Conn.streams h !! i = Some s → measure i c s < Z.of_nat fuel) →
  wp (H3Conn.read_loop fuel i polling) (λ ev hc, polling = true ∧ found c A ev hc) (none_found c A) (h, c).
Proof.
  revert h c. induction fuel as [|fuel IH]; intros h c Hinv Hpos Hf; [lia|]. cbn [H3Conn.read_loop].
  apply wp_bind, wp_self. destruct (H3Conn.streams h !! i) as [s|] eqn:Hs; [|by apply wp_fail, h3_kept_refl].
  pose proof Hinv as (_ & _ & Hslot & _). specialize (Hslot i). rewrite Hs in Hslot. destruct Hslot as (Hid & read & outs & Hp & Hl).
  specialize (Hf s eq_refl). apply wp_bind. eapply wp_mono; [eapply (wp_read_state polling i s h c A read outs); try done; lia| |done]; cbv beta.
  intros [| |ev] [h1 c1] Ht; cbn [turned] in Ht.
  - destruct Ht as [[Hinv1 Hb1] (s1 & Hs1 & Hlt)]. cbn [fst snd] in *. eapply wp_mono; [apply (IH h1 c1); [done| |]|..].
    + pose proof (backlog_nonneg i c1 (proj1 Hinv1)). pose proof (rank_range s1). unfold measure in *. lia.
    + intros s' Hs'. rewrite Hs1 in Hs'. injection Hs' as <-. lia.
    + intros ev hc [? Hk]. split; [done|]. by eapply h3_kept_trans.
    + intros e hc Hk. by eapply h3_kept_trans.
  - by apply wp_fail.
  - by apply wp_ret.
Qed.

Lemma wp_process_readable_stream fuel polling i h c A : inv h c A → enough fuel c →
  wp (H3Conn.process_readable_stream fuel i polling) (λ ev hc, polling = true ∧ found c A ev hc) (none_found c A) (h, c).
Proof.
  intros Hinv Hf. pose proof (Hf i) as Hfi. pose proof (backlog_nonneg i c (proj1 Hinv)). unfold H3Conn.process_readable_stream.
  apply wp_bind, wp_self_modify. apply wp_read_loop; [|lia|intros s _; unfold measure; pose proof (rank_range s); lia].
  destruct (H3Conn.streams h !! i) eqn:Hs; [done|]. apply inv_replace; [done|]. apply (stream_inv_new _ _ _ _ None); [|by right].
  pose proof Hinv as (_ & _ & Hslot & _). specialize (Hslot i). by rewrite Hs in Hslot.
Qed.

Lemma wp_process_control_stream fuel i h c A : inv h c A → enough fuel c →
  wp (H3Conn.process_control_stream fuel i) (found c A) (none_found c A) (h, c).
Proof.
  intros Hinv Hf. unfold H3Conn.process_control_stream. apply wp_bind, wp_conn.
  destruct (stream_finished i c); [by apply (wp_close _ _ _ _ A)|]. apply wp_bind, wp_attempt.
  eapply wp_mono; [by apply wp_process_readable_stream|by intros ev hc [_ ?]; apply wp_ret|]. intros e [h1 c1] Hk.
  destruct e; try (by apply wp_fail). apply wp_bind, wp_conn. destruct (stream_finished i c1); [|by apply wp_fail].
  destruct Hk as [Hinv1 Hb1]. apply (wp_close _ _ _ _ A); [done|]. intros e c2 Hk. by eapply h3_kept_trans.
Qed.

Lemma wp_first_critical fuel o rest h c A : inv h c A → enough fuel c →
  (∀ h1 c1, kept c A (h1, c1) → wp rest (found c1 A) (none_found c1 A) (h1, c1)) →
  wp (H3Conn.first_critical fuel o rest) (found c A) (none_found c A) (h, c).
Proof.
  intros Hinv Hf Hrest. assert (∀ h1 c1, kept c A (h1, c1) → wp rest (found c A) (none_found c A) (h1, c1)) as Hgo.
  { intros h1 c1 Hk. eapply wp_mono; [by apply Hrest|..].
    - intros ev hc Hk'. eapply h3_kept_trans; [apply (proj2 Hk)|exact Hk'].
    - intros e hc Hk'. eapply h3_kept_trans; [apply (proj2 Hk)|exact Hk']. }
  destruct o as [i|]; cbn [H3Conn.first_critical]; [|by apply Hgo, h3_kept_refl]. apply wp_bind, wp_attempt.
  eapply wp_mono; [by apply wp_process_control_stream|by intros; apply wp_ret|]. intros e [h1 c1] Hk.
  destruct e; try (by apply wp_fail). by apply Hgo.
Qed.

Lemma inv_process_finished i h c A : inv h c A → inv (H3Conn.process_finished_stream i h) c A.
Proof.
  intros Hinv. unfold H3Conn.process_finished_stream. destruct (H3Conn.streams h !! i) as [s|] eqn:Hs; [|done].
  case_bool_decide; [done|]. case_bool_decide; [|done]. eapply inv_fields; [|done..|by left].
  apply (inv_replace i (H3Stream.finished s)); [done|]. pose proof Hinv as (_ & _ & Hslot & _). specialize (Hslot i). rewrite Hs in Hslot.
  eapply stream_inv_ext; [done|done|]. intros read outs Hp. by apply position_finished.
Qed.

Lemma moved_nil i c c' : moved i c c' [] → quiet c c'.
Proof.
  intros (Hok & Hh & Hb & Ho & Hj & Hsent). split; [done|]. intros j. split; [|done]. rewrite app_nil_r in Hh. rewrite zlen_nil in Hb.
  destruct (decide (j = i)) as [-> |Hne]; [split_and!; [done|lia|by intros [_ ?]%Ho]|by apply Hj].
Qed.

Lemma wp_pop_finished h c A : inv h c A →
  wp H3Conn.pop_finished (λ _ hc, ∃ h', hc = (h', c) ∧ inv h' c A) (none_found c A) (h, c).
Proof.
  intros Hinv. unfold H3Conn.pop_finished. apply wp_bind, wp_self. destruct (H3Conn.finished_streams h); [by apply wp_ret; eauto|].
  apply wp_bind, wp_self_modify, wp_ret. eexists. split; [done|]. eapply inv_fields; [done|done|done|by left].
Qed.

(** After a stream was processed. *)
Lemma wp_after_stream i h c A (Q : unit → H3Conn.t * C → Prop) (QE : H3.Error → H3Conn.t * C → Prop) : inv h c A → (∀ h', inv h' c A → Q () (h', c)) →
  wp (if stream_finished i c then H3Conn.on_self (H3Conn.process_finished_stream i) else mret ()) Q QE (h, c).
Proof.
  intros Hinv HQ. destruct (stream_finished i c); [apply wp_self_modify|apply wp_ret]; apply HQ; [by apply inv_process_finished|done].
Qed.

Lemma wp_poll_readable fuel ids h c A : inv h c A → enough fuel c →
  wp (H3Conn.poll_readable fuel ids) (λ o hc, match o with Some ev => found c A ev hc | None => kept c A hc end) (none_found c A) (h, c).
Proof.
  revert h c. induction ids as [|i ids IH]; intros h c Hinv Hf; cbn [H3Conn.poll_readable]; [by apply wp_ret, h3_kept_refl|].
  apply wp_bind, wp_attempt. eapply wp_mono; [by apply wp_process_readable_stream|..]; cbv beta.
  - intros ev [h1 c1] [_ [Hinv1 Hb1]]. cbn [fst snd] in *. apply wp_bind, wp_conn, wp_bind, (wp_after_stream _ _ _ (deliver ev A)); [done|].
    intros h' Hinv'. by apply wp_ret.
  - intros e [h1 c1] [Hinv1 Hb1]. cbn [fst snd] in *.
    assert (wp (c ← H3Conn.conn; (if stream_finished i c then H3Conn.on_self (H3Conn.process_finished_stream i) else mret ());; H3Conn.poll_readable fuel ids)
      (λ o hc, match o with Some ev => found c A ev hc | None => kept c A hc end) (none_found c A) (h1, c1)) as Hnext.
    { apply wp_bind, wp_conn, wp_bind, (wp_after_stream _ _ _ A); [done|]. intros h' Hinv'.
      eapply wp_mono; [apply (IH h' c1); [done|by eapply enough_less]|..].
      - intros [ev|] hc Hk; by eapply h3_kept_trans.
      - intros e' hc Hk. by eapply h3_kept_trans. }
    destruct e as [| | | | | | | | | | |e| | | | | | | |]; try (by apply wp_fail); [exact Hnext|].
    destruct e; first [by apply wp_fail|by apply wp_ret].
Qed.

Lemma wp_last_finished h c A : inv h c A → wp H3Conn.last_finished (found c A) (none_found c A) (h, c).
Proof.
  intros Hinv. unfold H3Conn.last_finished. apply wp_bind. eapply wp_mono; [by apply wp_pop_finished| |done].
  intros [i|] hc (h' & -> & Hinv'); [|by apply wp_fail, h3_kept_refl]. apply wp_bind, wp_conn.
  destruct (stream_readable i c); [|by apply wp_ret, h3_kept_refl]. apply wp_bind, wp_attempt, wp_transport.
  eapply wp_mono; [apply (recv_law i 0 c); [apply Hinv|lia]|..]; cbv beta.
  - intros [bytes fin] c' (Hm & Hl & _ & _). cbn [fst] in *. pose proof (zlen_nonneg bytes). destruct bytes; [|rewrite zlen_cons in Hl; pose proof (zlen_nonneg bytes); lia].
    apply wp_ret. by eapply kept_quiet, moved_nil.
  - intros e c' Hq. assert (kept c A (h', c')) by by eapply kept_quiet.
    destruct e; by apply wp_ret.
Qed.

Lemma wp_poll fuel h c A : inv h c A → enough fuel c → wp (H3Conn.poll fuel) (found c A) (none_found c A) (h, c).
Proof.
  intros Hinv Hf. unfold H3Conn.poll. apply wp_bind, wp_conn. destruct (conn_failed c); [by apply wp_fail, h3_kept_refl|].
  apply wp_bind, wp_self, wp_first_critical; [done|done|]. intros h1 c1 [Hinv1 Hb1]. cbn [fst snd] in *.
  pose proof (enough_less _ _ _ Hf Hb1) as Hf1.
  apply wp_bind, wp_self, wp_first_critical; [done|done|]. intros h2 c2 [Hinv2 Hb2]. cbn [fst snd] in *.
  pose proof (enough_less _ _ _ Hf1 Hb2) as Hf2.
  apply wp_bind, wp_self, wp_first_critical; [done|done|]. intros h3 c3 [Hinv3 Hb3]. cbn [fst snd] in *.
  pose proof (enough_less _ _ _ Hf2 Hb3) as Hf3.
  apply wp_bind. eapply wp_mono; [by apply wp_pop_finished| |done]. intros [i|] hc (h4 & -> & Hinv4).
  - by apply wp_ret, h3_kept_refl.
  - apply wp_bind, wp_conn, wp_bind. eapply wp_mono; [by apply wp_poll_readable| |done]. intros [ev|] [h5 c5] Hk; [by apply wp_ret|].
    destruct Hk as [Hinv5 Hb5]. eapply wp_mono; [by apply wp_last_finished|..].
    + intros ev hc Hk. by eapply h3_kept_trans.
    + intros e hc Hk. by eapply h3_kept_trans.
Qed.

Lemma give_twice i xs ys A j : give i ys (give i xs A) j = give i (xs ++ ys) A j.
Proof. unfold give. destruct (j =? i); [|done]. by rewrite app_assoc. Qed.

(** [got] are the bytes copied so far; they stay in the buffer of the caller
    when the call fails. *)
Lemma wp_recv_body_loop turns fuel i n got h c A : must i → inv h c (give i (IBody <$> got) A) → enough fuel c →
  n - zlen got <= Z.of_nat turns →
  wp (H3Conn.recv_body_loop turns fuel i n got)
    (λ got' hc, kept c (give i (IBody <$> got') A) hc)
    (λ e hc, e ≠ H3.Done ∧ ∃ lost, kept c (give i (IBody <$> lost) A) hc) (h, c).
Proof.
  intros Hmust. revert got h c. induction turns as [|turns IH]; intros got h c Hinv Hf Hn; cbn [H3Conn.recv_body_loop];
    (destruct (Z.ltb_spec (zlen got) n); [|by apply wp_ret, h3_kept_refl]); [lia|].
  apply wp_bind, wp_self. pose proof Hinv as (_ & _ & Hslot & _ & Hex & _). destruct (Hex i Hmust) as [s Hs]. rewrite Hs. specialize (Hslot i).
  rewrite Hs in Hslot. destruct Hslot as (Hid & read & outs & Hp & Hl).
  destruct (bool_decide_reflect (H3Stream.state s = H3Stream.Data)) as [Hst|]; cbn [negb]; [|by apply wp_ret, h3_kept_refl].
  apply wp_bind, wp_attempt, (wp_stream_of _ s); [done|]. apply (wp_try_consume_data _ s c read outs); [apply Hinv|done|done|lia|..]; cbn [fst snd].
  - intros bytes fin s1 c1 Hid1 Hp1 Hm Hlen. rewrite Hid in *. pose proof (moved_less _ _ _ _ Hm) as Hless.
    assert (inv (put_stream i s1 h) c1 (give i (IBody <$> (got ++ bytes)) A)) as Hinv1.
    { eapply inv_ext; [|by eapply (inv_step i h c _ s read outs s1 c1 bytes (OBody <$> bytes))].
      intros j _. by rewrite give_twice, view_body, fmap_app. }
    assert (kept c (give i (IBody <$> (got ++ bytes)) A) (put_stream i s1 h, c1)) as Hk by by split.
    case_bool_decide as Hnil; cbn [orb]; [by apply wp_ret|]. destruct fin; [by apply wp_ret|].
    assert (1 <= zlen bytes) by (destruct bytes; [done|rewrite zlen_cons; pose proof (zlen_nonneg bytes); lia]).
    apply wp_bind, wp_attempt. eapply wp_mono; [apply (wp_process_readable_stream fuel false i _ c1); [done|by eapply enough_less]|..]; cbv beta.
    + by intros ev hc [? _].
    + intros e [h2 c2] [Hinv2 Hb2]. cbn [fst snd] in *. pose proof (less_trans _ _ _ Hless Hb2) as Hless2.
      assert (kept c (give i (IBody <$> (got ++ bytes)) A) (h2, c2)) as Hk2 by by split.
      destruct (decide (e = H3.Done)) as [-> |He].
      * apply wp_bind, wp_conn. destruct (stream_finished i c2); [by apply wp_ret|].
        eapply wp_mono; [apply (IH (got ++ bytes) h2 c2); [done|by eapply enough_less|rewrite zlen_app; lia]|..].
        -- intros got' hc Hk'. by eapply h3_kept_trans.
        -- intros e [h3 c3] [? [lost Hk']]. split; [done|]. exists lost. by eapply h3_kept_trans.
      * destruct e; try done; apply wp_fail; eauto.
  - intros e s1 c1 Hid1 Hp1 Hq. assert (kept c (give i (IBody <$> got) A) (put_stream i s1 h, c1)) as Hk.
    { eapply kept_silent; [done|congruence|done|by apply quiet_moved|by rewrite app_nil_r]. }
    destruct (decide (e = H3.Done)) as [-> |He]; [by apply wp_ret|]. destruct e; try done; apply wp_fail; eauto.
Qed.
End run.

Section body.
Context {C : Type} {HT : Transport C} {HG : TransportGhost C} {HL : TransportLaws C}.
Context (max : Z) (max_ok : 0 <= max) (must : Z → Prop).

Lemma inv_must (m m' : Z → Prop) h c A : inv max m h c A → (∀ i, m' i → m i ∨ is_Some (H3Conn.streams h !! i)) → inv max m' h c A.
Proof. intros (? & ? & ? & ? & Hex & ?) Hm. split_and!; [done..| |done]. intros i Hi. destruct (Hm i Hi); auto. Qed.

Lemma wp_recv_body fuel i n h c A : inv max must h c A → enough fuel c →
  wp (H3Conn.recv_body fuel i n)
    (λ got hc, kept max must c (give i (IBody <$> got) A) hc)
    (λ e hc, ∃ lost, kept max must c (give i (IBody <$> lost) A) hc ∧ (e = H3.Done → lost = [])) (h, c).
Proof.
  intros Hinv Hf. assert (∀ h c, inv max must h c A → inv max must h c (give i (IBody <$> []) A)) as Hnil.
  { intros h' c'. apply inv_ext. intros j _. by rewrite give_nil. }
  unfold H3Conn.recv_body. apply wp_bind.
  destruct (H3Conn.streams h !! i) as [s|] eqn:Hs.
  - set (must' := λ j, must j ∨ j = i).
    assert (∀ c0 B hc, kept max must' c0 B hc → kept max must c0 B hc) as Hweak.
    { intros c0 B hc [Hi Hb]. split; [|done]. eapply inv_must; [done|]. intros j Hj. left. by left. }
    eapply wp_mono; [apply (wp_recv_body_loop max max_ok must' (Z.to_nat n) fuel i n [] h c A)|..]; cbv beta.
    + by right.
    + eapply inv_must; [by apply Hnil|]. intros j [?| ->]; [by left|]. right. by rewrite Hs.
    + done.
    + rewrite zlen_nil. lia.
    + intros got [h1 c1] Hk. apply Hweak in Hk as [Hi Hb]. cbn [fst snd] in *. apply wp_bind, wp_conn, wp_bind, (wp_after_stream max must _ _ _ (give i (IBody <$> got) A)); [done|].
      intros h2 Hi2. case_bool_decide as Hgot; [|by apply wp_ret]. apply wp_fail. exists got. by split.
    + intros e [h1 c1] [He [lost Hk]]. exists lost. split; [by apply Hweak|done].
  - assert (kept max must c (give i (IBody <$> []) A) (h, c)) as Hk by by apply h3_kept_refl, Hnil.
    destruct (Z.to_nat n) as [|turns] eqn:Hn; cbn [H3Conn.recv_body_loop]; rewrite zlen_nil.
    + rewrite (proj2 (Z.ltb_ge _ _)) by lia. apply wp_ret, wp_bind, wp_conn, wp_bind, (wp_after_stream max must _ _ _ A); [done|].
      intros h2 Hi2. apply wp_fail. exists []. split; [|done]. apply h3_kept_refl. by apply Hnil.
    + rewrite (proj2 (Z.ltb_lt _ _)) by lia. apply wp_bind, wp_self. rewrite Hs. apply wp_fail. exists []. by split.
Qed.
End body.
