(* ===== verification/H3Send.v ===== *)
(** * HTTP/3 connections: sending ([quiche/src/h3/mod.rs])

    Opening the control and QPACK streams, requests, responses, bodies,
    GOAWAY and PRIORITY_UPDATE.  The random numbers that GREASE values are made
    of are arguments. *)
From stdpp Require Import gmap pretty.
From S2P Require Import Prelude OctetsLib StaticTable QpackCodec Streams ConnStreams H3Frames H3Streams H3Conn.

(** Priority parameters; [as_u8] values. *)
Module Priority.
Record t := mk {
  urgency : Z;
  incremental : bool
}.
Definition PRIORITY_URGENCY_OFFSET : Z := 124.
Definition PRIORITY_URGENCY_LOWER_BOUND : Z := 0.
Definition PRIORITY_URGENCY_UPPER_BOUND : Z := 7.
Definition default_ : t := mk 3 false.
Definition clamp (x lo hi : Z) : Z := Z.max lo (Z.min x hi).
Definition clamped (p : t) : Z := clamp (urgency p) PRIORITY_URGENCY_LOWER_BOUND PRIORITY_URGENCY_UPPER_BOUND.
End Priority.

Module H3Send.
Abbreviation Error := H3.Error.
Abbreviation t := H3Conn.t.
Import H3Conn(on_conn, on_self, self, conn).

(** [n] is the random number. *)
Definition grease_value (n : Z) : Z := 31 * n + 33.

(** [Config::set_additional_settings] *)
Definition explicit_quiche_settings : list Z :=
  [SETTINGS_QPACK_MAX_TABLE_CAPACITY; SETTINGS_MAX_FIELD_SECTION_SIZE; SETTINGS_QPACK_BLOCKED_STREAMS; SETTINGS_ENABLE_CONNECT_PROTOCOL;
   SETTINGS_H3_DATAGRAM; SETTINGS_H3_DATAGRAM_00].
Definition set_additional_settings (settings : list (Z * Z)) (c : H3Conn.Config.t) : result Error H3Conn.Config.t :=
  if bool_decide (NoDup settings.*1) && forallb (λ id, bool_decide (id ∉ explicit_quiche_settings)) settings.*1 then
    Ok (H3Conn.Config.mk (H3Conn.Config.max_field_section_size c) (H3Conn.Config.qpack_max_table_capacity c)
          (H3Conn.Config.qpack_blocked_streams c) (H3Conn.Config.connect_protocol_enabled c) (Some settings))
  else Err H3.SettingsError.

(** What was written to a buffer of [size] bytes. *)
Definition scratch (size fill : Z) {A} (m : M octets Error A) : result Error (list Z) :=
  match m (OctetsMut.with_slice (replicate (Z.to_nat size) fill)) with
  | (Ok _, o) => Ok (ztake (o_off o) (o_buf o))
  | (Err e, _) => Err e
  | (Panic, _) => Panic
  end.

Section operations.
Context {C : Type} `{Transport C}.
Abbreviation HM := (M (t * C) Error).

Definition stream_send_ (stream_id : Z) (bytes : list Z) (fin : bool) : HM Z := on_conn (stream_send stream_id bytes fin).
Definition stream_capacity_ (stream_id : Z) : HM Z := on_conn (reads (stream_capacity stream_id)).
(** [let _ = conn.stream_writable(..)] *)
Definition want_writable (stream_id len : Z) : HM unit := attempt (on_conn (stream_writable stream_id len));; mret ().

(** [if conn.stream_finished(stream_id) { self.streams.remove(&stream_id); }] *)
Definition forget_finished (stream_id : Z) : HM unit :=
  c ← conn;
  if stream_finished stream_id c then on_self (λ h, H3Conn.set_streams (delete stream_id (H3Conn.streams h)) h) else mret ().

(** [match m { Ok(v) => v, Err(e) => { forget_finished; return Err(e) } }] *)
Definition or_forget {A} (stream_id : Z) (m : HM A) : HM A :=
  r ← attempt m;
  match r with
  | inl a => mret a
  | inr e => forget_finished stream_id;; fail e
  end.

Definition grease_payload : list Z := msg "GREASE is the word".

Definition send_grease_frames (n1 n2 : Z) (stream_id : Z) : HM unit :=
  stream_cap ← or_forget stream_id (stream_capacity_ stream_id);
  let grease_frame1 := grease_value n1 in
  let grease_frame2 := grease_value n2 in
  len1 ← lift (varint_len grease_frame1);
  len2 ← lift (varint_len grease_frame2);
  let overhead := len1 + 1 + len2 + 1 + zlen grease_payload in
  if stream_cap <? overhead then mret ()
  else
    b ← lift (scratch 8 0 (OctetsMut.put_varint grease_frame1));
    stream_send_ stream_id b false;;
    b ← lift (scratch 8 0 (OctetsMut.put_varint 0));
    stream_send_ stream_id b false;;
    b ← lift (scratch 8 0 (OctetsMut.put_varint grease_frame2));
    stream_send_ stream_id b false;;
    b ← lift (scratch 8 0 (OctetsMut.put_varint 18));
    stream_send_ stream_id b false;;
    stream_send_ stream_id grease_payload false;;
    mret ().

Definition headers_len (headers : list Header.t) : Z :=
  foldl (λ acc h, acc + zlen (Header.value h) + zlen (Header.name h) + 32) 0 headers.

Definition encode_header_block (headers : list Header.t) : result Error (list Z) :=
  match Encoder.encode headers (replicate (Z.to_nat (headers_len headers)) 0) with
  | (Ok len, o) => Ok (ztake len (o_buf o))
  | (Err _, _) => Err H3.InternalError
  | (Panic, _) => Panic
  end.

(** The type and the length of a frame in [d]. *)
Definition frame_header (ty len : Z) : result Error (list Z) :=
  scratch 10 42 (OctetsMut.put_varint ty;; OctetsMut.put_varint len).

Definition send_headers (n1 n2 : Z) (stream_id : Z) (headers : list Header.t) (fin : bool) : HM unit :=
  h ← self;
  c ← conn;
  (if negb (H3Conn.frames_greased h) && conn_grease c
   then send_grease_frames n1 n2 stream_id;; on_self (H3Conn.set_frames_greased true)
   else mret ());;
  header_block ← lift (encode_header_block headers);
  ty_len ← lift (varint_len HEADERS_FRAME_TYPE_ID);
  len_len ← lift (varint_len (zlen header_block));
  let overhead := ty_len + len_len in
  writable ← or_forget stream_id (on_conn (stream_writable stream_id (overhead + zlen header_block)));
  if negb writable then fail H3.StreamBlocked
  else
    d ← lift (frame_header HEADERS_FRAME_TYPE_ID (zlen header_block));
    stream_send_ stream_id d false;;
    stream_send_ stream_id header_block fin;;
    on_self (λ h, match H3Conn.streams h !! stream_id with
                  | Some s => H3Conn.set_streams (<[stream_id := H3Stream.initialize_local s]> (H3Conn.streams h)) h
                  | None => h
                  end);;
    (if fin : bool then forget_finished stream_id else mret ()).

Definition send_request (n1 n2 : Z) (headers : list Header.t) (fin : bool) : HM Z :=
  h ← self;
  if bool_decide (is_Some (H3Conn.peer_goaway_id h)) then fail H3.FrameUnexpected
  else
    let stream_id := H3Conn.next_request_stream_id h in
    on_self (λ h, H3Conn.set_streams (<[stream_id := H3Stream.new stream_id true]> (H3Conn.streams h)) h);;
    r ← attempt (stream_send_ stream_id [] false);
    match r with
    | inr e =>
        on_self (λ h, H3Conn.set_streams (delete stream_id (H3Conn.streams h)) h);;
        fail (if bool_decide (e = H3.Done) then H3.StreamBlocked else e)
    | inl _ =>
        send_headers n1 n2 stream_id headers fin;;
        h ← self;
        if H3Conn.next_request_stream_id h + 4 <=? u64_max then
          on_self (H3Conn.set_next_request_stream_id (H3Conn.next_request_stream_id h + 4));;
          mret stream_id
        else fail H3.IdError
    end.

Definition send_response_with_priority (n1 n2 : Z) (stream_id : Z) (headers : list Header.t) (priority : Priority.t) (fin : bool) : HM unit :=
  h ← self;
  if bool_decide (H3Conn.streams h !! stream_id = None) then fail H3.FrameUnexpected
  else
    send_headers n1 n2 stream_id headers fin;;
    on_conn (stream_priority stream_id (Priority.clamped priority + Priority.PRIORITY_URGENCY_OFFSET) (Priority.incremental priority)).

Definition send_response (n1 n2 : Z) (stream_id : Z) (headers : list Header.t) (fin : bool) : HM unit :=
  send_response_with_priority n1 n2 stream_id headers Priority.default_ fin.

(** Data may be sent on the stream. *)
Definition may_send_body (stream_id : Z) (h : t) : bool :=
  (stream_id mod 4 =? 0) &&
  match H3Conn.streams h !! stream_id with
  | Some s => H3Stream.local_initialized s
  | None => false
  end.

Definition send_body (stream_id : Z) (body : list Z) (fin : bool) : HM Z :=
  h ← self;
  if negb (may_send_body stream_id h) then fail H3.FrameUnexpected
  else if bool_decide (body = []) && negb fin then fail H3.Done
  else
    ty_len ← lift (varint_len DATA_FRAME_TYPE_ID);
    len_len ← lift (varint_len (zlen body));
    let overhead := ty_len + len_len in
    stream_cap ← or_forget stream_id (stream_capacity_ stream_id);
    if stream_cap <? overhead then want_writable stream_id (overhead + 1);; fail H3.Done
    else
      room ← lift (usub stream_cap overhead);
      let body_len := Z.min (zlen body) room in
      let fin := if negb (body_len =? zlen body) then false else fin in
      if (body_len =? 0) && negb fin then want_writable stream_id (overhead + 1);; fail H3.Done
      else
        d ← lift (frame_header DATA_FRAME_TYPE_ID body_len);
        stream_send_ stream_id d false;;
        written ← stream_send_ stream_id (ztake body_len body) fin;
        (if written <? zlen body then want_writable stream_id (overhead + 1) else mret ());;
        (if fin && (written =? zlen body) then forget_finished stream_id else mret ());;
        mret written.

(** ["u={urgency}"], with [",i"] *)
Definition field_value (priority : Priority.t) : list Z :=
  msg "u=" ++ ascii (pretty (Z.to_N (Priority.clamped priority))) ++ (if Priority.incremental priority then msg ",i" else []).

Definition send_priority_update_for_request (stream_id : Z) (priority : Priority.t) : HM unit :=
  h ← self;
  if H3Conn.is_server h then fail H3.FrameUnexpected
  else if negb (stream_id mod 4 =? 0) then fail H3.FrameUnexpected
  else
    match H3Conn.control_stream_id h with
    | None => fail H3.FrameUnexpected
    | Some control_stream_id =>
        let priority_field_value := field_value priority in
        id_len ← lift (varint_len stream_id);
        let frame_payload_len := id_len + zlen priority_field_value in
        ty_len ← lift (varint_len PRIORITY_UPDATE_FRAME_REQUEST_TYPE_ID);
        len_len ← lift (varint_len frame_payload_len);
        let overhead := ty_len + id_len + len_len in
        writable ← on_conn (stream_writable control_stream_id (overhead + zlen priority_field_value));
        if negb writable then fail H3.StreamBlocked
        else
          d ← lift (scratch 20 42 (OctetsMut.put_varint PRIORITY_UPDATE_FRAME_REQUEST_TYPE_ID;;
                                   OctetsMut.put_varint frame_payload_len;; OctetsMut.put_varint stream_id));
          stream_send_ control_stream_id d false;;
          stream_send_ control_stream_id priority_field_value false;;
          mret ()
    end.

Definition send_goaway (id : Z) : HM unit :=
  h ← self;
  let id := if H3Conn.is_server h then id else 0 in
  if H3Conn.is_server h && negb (id mod 4 =? 0) then fail H3.IdError
  else if match H3Conn.local_goaway_id h with Some sent_id => sent_id <? id | None => false end then fail H3.IdError
  else
    match H3Conn.control_stream_id h with
    | None => mret ()
    | Some stream_id =>
        d ← lift (scratch 10 42 (H3Frame.to_bytes (H3Frame.GoAway id)));
        let wire_len := zlen d in
        stream_cap ← stream_capacity_ stream_id;
        if stream_cap <? wire_len then fail H3.StreamBlocked
        else
          stream_send_ stream_id d false;;
          on_self (H3Conn.set_local_goaway_id (Some id))
    end.

(** *** Opening the connection's own streams *)

Definition open_uni_stream (ty : Z) : HM Z :=
  h ← self;
  let stream_id := H3Conn.next_uni_stream_id h in
  (if bool_decide (ty ∈ [HTTP3_CONTROL_STREAM_TYPE_ID; QPACK_ENCODER_STREAM_TYPE_ID; QPACK_DECODER_STREAM_TYPE_ID])
   then on_conn (stream_priority stream_id 0 false)
   else if ty =? HTTP3_PUSH_STREAM_TYPE_ID then mret ()
   else on_conn (stream_priority stream_id 255 false));;
  b ← lift (scratch 8 0 (OctetsMut.put_varint ty));
  stream_send_ stream_id b false;;
  if stream_id + 4 <=? u64_max then on_self (H3Conn.set_next_uni_stream_id (stream_id + 4));; mret stream_id
  else fail H3.IdError.

Definition open_qpack_encoder_stream : HM unit :=
  stream_id ← open_uni_stream QPACK_ENCODER_STREAM_TYPE_ID;
  on_self (λ h, H3Conn.set_local_qpack_streams (QpackStreams.set_encoder_stream_id (Some stream_id) (H3Conn.local_qpack_streams h)) h).
Definition open_qpack_decoder_stream : HM unit :=
  stream_id ← open_uni_stream QPACK_DECODER_STREAM_TYPE_ID;
  on_self (λ h, H3Conn.set_local_qpack_streams (QpackStreams.set_decoder_stream_id (Some stream_id) (H3Conn.local_qpack_streams h)) h).

Definition open_grease_stream (n : Z) : HM unit :=
  r ← attempt (open_uni_stream (grease_value n));
  match r with
  | inl stream_id => stream_send_ stream_id grease_payload true;; mret ()
  | inr H3.IdError => mret ()
  | inr e => fail e
  end.

(** The SETTINGS frame. *)
Definition settings_frame (grease : option (Z * Z)) (s : ConnectionSettings.t) : H3Frame.t :=
  H3Frame.Settings (H3Frame.mk_settings (ConnectionSettings.max_field_section_size s) (ConnectionSettings.qpack_max_table_capacity s)
    (ConnectionSettings.qpack_blocked_streams s) (ConnectionSettings.connect_protocol_enabled s) (ConnectionSettings.h3_datagram s)
    grease (ConnectionSettings.additional_settings s) None).

Definition send_settings (n1 n2 : Z) : HM unit :=
  r ← attempt (open_uni_stream HTTP3_CONTROL_STREAM_TYPE_ID);
  match r with
  | inr e => fail (if bool_decide (e = H3.Done) then H3.InternalError else e)
  | inl stream_id =>
      on_self (H3Conn.set_control_stream_id (Some stream_id));;
      h ← self;
      c ← conn;
      let grease := if conn_grease c then Some (grease_value n1, grease_value n2) else None in
      d ← lift (scratch 128 42 (H3Frame.to_bytes (settings_frame grease (H3Conn.local_settings h))));
      stream_send_ stream_id d false;;
      mret ()
  end.

(** [Connection::with_transport]: the streams, whose errors are ignored but for
    the control stream's. *)
Definition open_streams (n1 n2 n3 : Z) : HM unit :=
  r ← attempt (send_settings n1 n2);
  match r with
  | inr e => H3Conn.close e (msg "Error opening control stream")
  | inl _ =>
      attempt open_qpack_encoder_stream;;
      attempt open_qpack_decoder_stream;;
      c ← conn;
      if conn_grease c then attempt (open_grease_stream n3);; mret () else mret ()
  end.

Definition with_transport (n1 n2 n3 : Z) (config : H3Conn.Config.t) : M C Error t := λ c,
  if negb (conn_is_server c) && negb (conn_ready c) then (Err H3.InternalError, c)
  else
    match open_streams n1 n2 n3 (H3Conn.new config (conn_is_server c) (dgram_enabled c), c) with
    | (Ok _, (h, c)) => (Ok h, c)
    | (Err e, (_, c)) => (Err e, c)
    | (Panic, (_, c)) => (Panic, c)
    end.
End operations.
End H3Send.
