(* ===== verification/H3Sent.v ===== *)
(** * What an HTTP/3 connection sends

    The bytes sent on a request stream are whole frames that say what the
    application asked for, and sending keeps the invariant of [H3Run.v]. *)
From stdpp Require Import gmap pretty.
From S2P Require Import Prelude OctetsLib Huffman QpackCodec Streams ConnStreams ConnInv H3Frames H3Streams H3Conn H3Scan H3Inv H3Run H3Send.

(** ** Frames and what they say *)

(** A frame: its type and its payload. *)
Definition wire_of (f : Z * list Z) : list Z := enc_varint f.1 ++ enc_varint (zlen f.2) ++ f.2.
Definition wires (fs : list (Z * list Z)) : list Z := mjoin (wire_of <$> fs).
Definition outs_from (fs : list (Z * list Z)) : list out := mjoin ((λ f, outs_of f.1 f.2) <$> fs).
Definition frame_fine (f : Z * list Z) : Prop := is_varint f.1 ∧ is_varint (zlen f.2) ∧ bytes_ok f.2.

Lemma wires_app fs gs : wires (fs ++ gs) = wires fs ++ wires gs.
Proof. unfold wires. by rewrite fmap_app, join_app. Qed.
Lemma wires_one f : wires [f] = wire_of f.
Proof. unfold wires. cbn. by rewrite app_nil_r. Qed.
Lemma outs_from_app fs gs : outs_from (fs ++ gs) = outs_from fs ++ outs_from gs.
Proof. unfold outs_from. by rewrite fmap_app, join_app. Qed.

Lemma closed_wires fs : Forall frame_fine fs → closed (wires fs) (outs_from fs).
Proof.
  induction fs as [|f fs IH] using rev_ind; intros Hf; [constructor|]. apply Forall_app in Hf as [Hf Hl]. rewrite Forall_singleton in Hl.
  destruct Hl as (Ht & Hl & Hb). rewrite wires_app, outs_from_app, wires_one. unfold outs_from at 2. cbn. rewrite app_nil_r.
  apply closed_snoc; [by apply IH|by apply varint_of_enc|by apply varint_of_enc|done].
Qed.

(** [block] is the encoding of the headers. *)
Definition encodes (hs : list Header.t) (block : list Z) : Prop :=
  ∀ max, 0 <= max → Decoder.decode block max = if list_size hs <=? max then Ok (lower <$> hs) else Err Qpack.HeaderListTooLarge.

(** What a sequence of frames says: GREASE nothing, HEADERS a list of headers,
    DATA bytes of the body. *)
Inductive said : list (Z * list Z) → list (list Header.t + Z) → Prop :=
| said_nil : said [] []
| said_grease fs its ty payload : said fs its → ty ≠ DATA_FRAME_TYPE_ID → ty ≠ HEADERS_FRAME_TYPE_ID → said (fs ++ [(ty, payload)]) its
| said_headers fs its hs block : said fs its → encodes hs block → said (fs ++ [(HEADERS_FRAME_TYPE_ID, block)]) (its ++ [inl hs])
| said_body fs its bytes : said fs its → said (fs ++ [(DATA_FRAME_TYPE_ID, bytes)]) (its ++ (inr <$> bytes)).

(** What the receiver gets when the headers are within its limit. *)
Definition received_item (x : list Header.t + Z) : item := match x with inl hs => IHeaders (lower <$> hs) | inr b => IBody b end.
Definition within (max : Z) (x : list Header.t + Z) : Prop := match x with inl hs => list_size hs <= max | inr _ => True end.

Lemma view_said max fs its : 0 <= max → said fs its → Forall (within max) its → view max (outs_from fs) = received_item <$> its.
Proof.
  intros Hmax. induction 1 as [|fs its ty payload _ IH Hd Hh|fs its hs block _ IH He|fs its bytes _ IH]; intros Hw; [done|..].
  - rewrite outs_from_app, view_app, IH by done. unfold outs_from, outs_of. cbn. rewrite (proj2 (Z.eqb_neq _ _) Hd). cbn.
    rewrite (proj2 (Z.eqb_neq _ _) Hh). by rewrite app_nil_r.
  - apply Forall_app in Hw as [Hw Hl]. rewrite Forall_singleton in Hl. cbn in Hl. rewrite outs_from_app, view_app, IH, fmap_app by done. f_equal.
    change (outs_from [(HEADERS_FRAME_TYPE_ID, block)]) with [OFrame HEADERS_FRAME_TYPE_ID block]. rewrite view_one. unfold view_out.
    rewrite Z.eqb_refl, He, (proj2 (Z.leb_le _ _) Hl) by done. done.
  - apply Forall_app in Hw as [Hw _]. rewrite outs_from_app, view_app, IH, fmap_app by done. f_equal.
    assert (outs_from [(DATA_FRAME_TYPE_ID, bytes)] = OBody <$> bytes) as -> by apply app_nil_r. by rewrite view_body, <- list_fmap_compose.
Qed.

(** ** What is written to the buffers *)

Lemma scratch_writes {A} size fill (m : M octets H3.Error A) bytes : writes m bytes → zlen bytes <= size → H3Send.scratch size fill m = Ok bytes.
Proof.
  intros Hw Hs. pose proof (zlen_nonneg bytes). unfold H3Send.scratch, OctetsMut.with_slice.
  assert (replicate (Z.to_nat size) fill = replicate (Z.to_nat (zlen bytes)) fill ++ replicate (Z.to_nat (size - zlen bytes)) fill) as ->
    by (rewrite <- replicate_add; f_equal; lia).
  destruct (Hw [] (replicate (Z.to_nat (zlen bytes)) fill) (replicate (Z.to_nat (size - zlen bytes)) fill)) as [a Ha];
    [unfold zlen at 1; rewrite length_replicate; lia|].
  cbn [app] in Ha. change (zlen []) with 0 in Ha. rewrite Ha. cbn [o_off o_buf]. by rewrite Z.add_0_l, ztake_app.
Qed.

Lemma frame_header_run ty len : is_varint ty → is_varint len → varint_size ty + varint_size len <= 10 →
  H3Send.frame_header ty len = Ok (enc_varint ty ++ enc_varint len).
Proof.
  intros Ht Hl Hs. apply scratch_writes; [|by rewrite zlen_app, !zlen_enc_varint].
  eapply writes_bind; [by apply put_varint_writes|intros _; by apply put_varint_writes].
Qed.

Lemma headers_len_eq hs : H3Send.headers_len hs = list_size hs + 32 * zlen hs.
Proof.
  unfold H3Send.headers_len. assert (∀ acc, foldl (λ acc h, acc + zlen (Header.value h) + zlen (Header.name h) + 32) acc hs = acc + list_size hs + 32 * zlen hs) as Hf.
  { induction hs as [|h hs IH]; intros acc; [unfold zlen; cbn; lia|]. cbn [list_size]. cbn. rewrite IH, zlen_cons. unfold header_size. lia. }
  rewrite Hf. lia.
Qed.

(** Lists of headers that can be sent. *)
Definition headers_fine (hs : list Header.t) : Prop := Forall header_ok hs ∧ is_varint (H3Send.headers_len hs).

Lemma encode_header_block_run hs : headers_fine hs →
  match H3Send.encode_header_block hs with
  | Ok block => encodes hs block ∧ bytes_ok block ∧ is_varint (zlen block)
  | Err _ => hs = []
  | Panic => False
  end.
Proof.
  intros [Hok Hlen]. destruct (decide (hs = [])) as [-> |Hne]; [done|].
  destruct (encode_decode hs Hok) as (bs & Hb & He & Hd & Hz). unfold H3Send.encode_header_block. rewrite headers_len_eq in *.
  assert (1 <= zlen hs) by (destruct hs; [done|rewrite zlen_cons; pose proof (zlen_nonneg hs); lia]). pose proof (list_size_nonneg hs). pose proof (zlen_nonneg bs).
  rewrite He by (unfold zlen at 2; rewrite length_replicate; lia). cbn [o_buf]. rewrite ztake_app. split_and!; [done|done|]. unfold is_varint in *. lia.
Qed.

Lemma wp_and {S E A} (m : M S E A) Q QE Q' QE' s : wp m Q QE s → wp m Q' QE' s → wp m (λ a s, Q a s ∧ Q' a s) (λ e s, QE e s ∧ QE' e s) s.
Proof. unfold wp. by destruct (m s) as [[] ?]. Qed.

Section sending.
Context {C : Type} {HT : Transport C} {HG : TransportGhost C} {HL : TransportLaws C}.
Context (max : Z) (max_ok : 0 <= max).
Implicit Types (h : H3Conn.t) (c : C) (A : log).

(** No stream is required to exist: sending removes finished ones. *)
Abbreviation inv := (inv max (λ _, False)).

(** ** The invariant *)

(** What the application has sent, by stream. *)
Abbreviation script := (Z → list (list Header.t + Z)).
Definition says c (S : script) : Prop :=
  ∀ i, is_bidi i = true → ∃ fs, sent i c = wires fs ∧ Forall frame_fine fs ∧ said fs (S i).
Definition utter (i : Z) (items : list (list Header.t + Z)) (S : script) : script := λ j, if j =? i then S j ++ items else S j.

Definition sinv c A (S : script) (hc : H3Conn.t * C) : Prop := inv hc.1 hc.2 A ∧ says hc.2 S.

Lemma says_same c c' S : (∀ j, sent j c' = sent j c) → says c S → says c' S.
Proof. intros Hs Hy i Hi. rewrite Hs. by apply Hy. Qed.
Lemma says_quiet c c' S : quiet c c' → says c S → says c' S.
Proof. intros [_ Hq]. apply says_same. intros j. apply Hq. Qed.

Lemma says_frames i fs new c c' S : wrote i c c' (wires fs) → Forall frame_fine fs →
  (∀ fs0 its, said fs0 its → said (fs0 ++ fs) (its ++ new)) → says c S → says c' (utter i new S).
Proof.
  intros (_ & Hi & Ho & _) Hf Hs Hy j Hj. destruct (Hy j Hj) as (fs0 & Hsent & Hf0 & Hs0). unfold utter.
  destruct (Z.eqb_spec j i) as [-> |Hne]; [|rewrite Ho by done; eauto]. exists (fs0 ++ fs).
  rewrite Hi, Hsent, wires_app. split_and!; [done|by apply Forall_app|by apply Hs].
Qed.
(** A stream that is not a request stream. *)
Lemma says_other i bytes c c' S : wrote i c c' bytes → is_bidi i = false → says c S → says c' S.
Proof. intros (_ & _ & Ho & _) Hi Hy j Hj. rewrite Ho; [by apply Hy|congruence]. Qed.

Lemma says_ext c S S' : (∀ j, is_bidi j = true → S j = S' j) → says c S → says c S'.
Proof. intros HS Hy i Hi. rewrite <- HS by done. by apply Hy. Qed.
Lemma utter_nil i S j : utter i [] S j = S j.
Proof. unfold utter. destruct (j =? i); [apply app_nil_r|done]. Qed.

Lemma wrote_nil i c c' : quiet c c' → wrote i c c' [].
Proof. intros [Hok Hq]. split_and!; [done|by rewrite app_nil_r; apply Hq|intros; apply Hq|intros; apply Hq]. Qed.
Lemma wrote_trans i c c1 c2 b1 b2 : wrote i c c1 b1 → wrote i c1 c2 b2 → wrote i c c2 (b1 ++ b2).
Proof.
  intros (_ & H1 & O1 & U1) (Hok & H2 & O2 & U2). split_and!; [done|by rewrite H2, H1, app_assoc|..].
  - intros j Hj. by rewrite O2, O1.
  - intros j. by eapply unread_trans.
Qed.

Lemma inv_wrote i h c c' bytes A : inv h c A → wrote i c c' bytes → inv h c' A.
Proof.
  intros (Hok & Hmax & Hs & Hp & Hex & Hown) (Hok' & _ & _ & Hu). split_and!; [done|done| |done|done|done]. intros j. eapply slot_unread; [apply Hu|apply Hs].
Qed.

(** A finished stream is removed. *)
Lemma inv_delete i h c A : inv h c A → history i c = [] ∨ over i c → inv (H3Conn.set_streams (delete i (H3Conn.streams h)) h) c A.
Proof.
  intros (Hok & Hmax & Hs & Hp & Hex & Hown) Hi. split_and!; [done|done| |done|done|done]. intros j. cbn. destruct (decide (j = i)) as [-> |Hj].
  - rewrite lookup_delete_eq. split; [by eapply settled_slot|done].
  - by rewrite lookup_delete_ne.
Qed.

(** ** Rules *)

Lemma wp_forget_finished i h c A (Q : unit → H3Conn.t * C → Prop) (QE : H3.Error → H3Conn.t * C → Prop) : inv h c A →
  (∀ h', inv h' c A → Q () (h', c)) → wp (H3Send.forget_finished i) Q QE (h, c).
Proof.
  intros Hinv HQ. unfold H3Send.forget_finished. apply wp_bind, wp_conn. destruct (stream_finished i c) eqn:Hfin; [|by apply wp_ret, HQ].
  apply wp_self_modify, HQ, inv_delete; [done|]. destruct (finished_law i c (proj1 Hinv) Hfin); auto.
Qed.

Lemma wp_or_forget {X} i (m : M (H3Conn.t * C) H3.Error X) h c A (Q : X → H3Conn.t * C → Prop) (QE : H3.Error → H3Conn.t * C → Prop) :
  wp m Q (λ _ hc, hc.1 = h ∧ quiet c hc.2) (h, c) → inv h c A → (∀ e h' c', inv h' c' A → quiet c c' → QE e (h', c')) →
  wp (H3Send.or_forget i m) Q QE (h, c).
Proof.
  intros Hm Hinv HQE. unfold H3Send.or_forget. apply wp_bind, wp_attempt. eapply wp_mono; [exact Hm|done|].
  intros e [h' c'] [Hh Hq]. cbn [fst snd] in *. subst h'. apply wp_bind, (wp_forget_finished _ _ _ A); [by eapply inv_quiet|].
  intros h' Hinv'. apply wp_fail. by apply HQE.
Qed.

Lemma wp_capacity i h c (Q : Z → H3Conn.t * C → Prop) : t_ok c → (∀ cap, stream_capacity i c = Ok cap → 0 <= cap → Q cap (h, c)) →
  wp (H3Send.stream_capacity_ i) Q (λ _ hc, hc.1 = h ∧ quiet c hc.2) (h, c).
Proof.
  intros Hok HQ. unfold H3Send.stream_capacity_. apply wp_transport. unfold wp, reads. pose proof (capacity_safe i c Hok) as Hs.
  pose proof (λ cap, capacity_law i cap c Hok) as Hc. destruct (stream_capacity i c) as [cap|e|]; [|by split; [|apply quiet_refl]|done].
  apply HQ; [done|]. by apply Hc.
Qed.

Lemma wp_writable i n h c (Q : bool → H3Conn.t * C → Prop) (QE : H3.Error → H3Conn.t * C → Prop) : t_ok c → n <= 2 ^ 63 →
  (∀ b c', quiet c c' → (b = true → ∃ cap, n <= cap ∧ stream_capacity i c' = Ok cap) → Q b (h, c')) →
  (∀ e c', quiet c c' → QE e (h, c')) → wp (H3Conn.on_conn (stream_writable i n)) Q QE (h, c).
Proof.
  intros Hok Hn HQ HQE. apply wp_transport. eapply wp_mono; [by apply writable_law|..]; cbv beta; [|by intros; apply HQE].
  intros b c' [? ?]. by apply HQ.
Qed.
Lemma wp_want_writable i n h c (Q : unit → H3Conn.t * C → Prop) (QE : H3.Error → H3Conn.t * C → Prop) : t_ok c → n <= 2 ^ 63 →
  (∀ c', quiet c c' → Q () (h, c')) → wp (H3Send.want_writable i n) Q QE (h, c).
Proof.
  intros Hok Hn HQ. unfold H3Send.want_writable. apply wp_bind, wp_attempt, wp_writable; [done|done|..]; intros; by apply wp_ret, HQ.
Qed.

(** A send that may be cut short, one that is the first of several, and one
    whose bytes are certain to be taken. *)
Lemma wp_send_some i bytes fin h c (Q : Z → H3Conn.t * C → Prop) (QE : H3.Error → H3Conn.t * C → Prop) : t_ok c →
  (∀ n c', 0 <= n <= zlen bytes → wrote i c c' (ztake n bytes) → Q n (h, c')) → (∀ e c', quiet c c' → QE e (h, c')) →
  wp (H3Send.stream_send_ i bytes fin) Q QE (h, c).
Proof.
  intros Hok HQ HQE. unfold H3Send.stream_send_. apply wp_transport. eapply wp_mono; [by apply send_law|..]; cbv beta; [|by intros; apply HQE].
  intros n c' [? ?]. by apply HQ.
Qed.

Lemma wp_send_first i bytes cap h c (Q : Z → H3Conn.t * C → Prop) (QE : H3.Error → H3Conn.t * C → Prop) : t_ok c →
  stream_capacity i c = Ok cap → zlen bytes <= cap →
  (∀ c', wrote i c c' bytes → takes i (cap - zlen bytes) c' → Q (zlen bytes) (h, c')) → (∀ e c', quiet c c' → QE e (h, c')) →
  wp (H3Send.stream_send_ i bytes false) Q QE (h, c).
Proof.
  intros Hok Hcap Hl HQ HQE. unfold H3Send.stream_send_. apply wp_transport. destruct (capacity_law i cap c Hok Hcap) as [_ Hc].
  eapply wp_mono; [apply (wp_and _ _ _ _ _ _ (send_law i bytes false c Hok) (Hc bytes Hl))|..]; cbv beta.
  - intros n c' [[_ Hw] [-> Ht]]. rewrite ztake_all in Hw by lia. by apply HQ.
  - intros e c' [Hq _]. by apply HQE.
Qed.

Lemma wp_send_next i bytes fin room h c (Q : Z → H3Conn.t * C → Prop) (QE : H3.Error → H3Conn.t * C → Prop) : t_ok c →
  takes i room c → zlen bytes <= room →
  (∀ c', wrote i c c' bytes → (fin = false → takes i (room - zlen bytes) c') → Q (zlen bytes) (h, c')) →
  wp (H3Send.stream_send_ i bytes fin) Q QE (h, c).
Proof.
  intros Hok Ht Hl HQ. unfold H3Send.stream_send_. apply wp_transport.
  eapply wp_mono; [apply (wp_and _ _ _ _ _ _ (send_law i bytes fin c Hok) (takes_law i room c Hok Ht bytes fin Hl))|..]; cbv beta.
  - intros n c' [[_ Hw] [-> Hn]]. rewrite ztake_all in Hw by lia. by apply HQ.
  - by intros e c' [_ ?].
Qed.

(** ** Requests and responses *)

(** Draws of the random number generator that GREASE values are made of. *)
Definition draw (n : Z) : Prop := 0 <= n < 148764065110560899.
Lemma grease_fine n : draw n → is_varint (H3Send.grease_value n) ∧ 33 <= H3Send.grease_value n.
Proof. unfold draw, H3Send.grease_value, is_varint. lia. Qed.

Lemma sinv_quiet h c c' A S : sinv c A S (h, c) → quiet c c' → sinv c' A S (h, c').
Proof. intros [Hi Hy] Hq. split; [by eapply inv_quiet|by eapply says_quiet]. Qed.

(** What the caller of a sending method may rely on. *)
Definition spoken A (S : script) (hc : H3Conn.t * C) : Prop := inv hc.1 hc.2 A ∧ says hc.2 S.
Lemma spoken_quiet h c c' A S : spoken A S (h, c) → quiet c c' → spoken A S (h, c').
Proof. intros [Hi Hy] Hq. split; [by eapply inv_quiet|by eapply says_quiet]. Qed.

Lemma spoken_frames i fs new h c c' A S : spoken A S (h, c) → wrote i c c' (wires fs) → Forall frame_fine fs →
  (∀ fs0 its, said fs0 its → said (fs0 ++ fs) (its ++ new)) → spoken A (utter i new S) (h, c').
Proof. intros [Hi Hy] Hw Hf Hs. split; [by eapply inv_wrote|by eapply says_frames]. Qed.

(** Two GREASE frames say nothing. *)
Lemma spoken_grease g1 g2 i h c c' A S : is_varint g1 ∧ 33 <= g1 → is_varint g2 ∧ 33 <= g2 → spoken A S (h, c) →
  wrote i c c' (enc_varint g1 ++ enc_varint 0 ++ enc_varint g2 ++ enc_varint 18 ++ H3Send.grease_payload) → spoken A S (h, c').
Proof.
  intros [Hv1 Hg1] [Hv2 Hg2] Hsp Hw. assert (zlen H3Send.grease_payload = 18) as Hp by done.
  assert (bytes_ok H3Send.grease_payload) as Hb by (apply (bool_decide_unpack _); by vm_compute).
  destruct (spoken_frames i [(g1, []); (g2, H3Send.grease_payload)] [] h c c' A S Hsp) as [Hi Hy].
  - unfold wires, wire_of. cbn [fmap list_fmap mjoin list_join fst snd]. rewrite Hp. change (zlen []) with 0. by rewrite !app_nil_r, <- !app_assoc.
  - assert (frame_fine (g1, [])) by (split; [done|split; [done|constructor]]).
    assert (frame_fine (g2, H3Send.grease_payload)) by (split; [done|split; [cbn [snd]; by rewrite Hp|done]]).
    by apply Forall_cons_2, Forall_cons_2.
  - intros fs its Hs. rewrite app_nil_r. change [(g1, []); (g2, H3Send.grease_payload)] with ([(g1, [] : list Z)] ++ [(g2, H3Send.grease_payload)]).
    rewrite app_assoc. apply said_grease; [apply said_grease; [done|..]|..]; unfold DATA_FRAME_TYPE_ID, HEADERS_FRAME_TYPE_ID; lia.
  - split; [done|]. eapply says_ext; [|exact Hy]. intros j _. apply utter_nil.
Qed.

(** Five sends, one after the other. *)
Lemma wp_send_grease_frames n1 n2 i h c A S : draw n1 → draw n2 → spoken A S (h, c) →
  wp (H3Send.send_grease_frames n1 n2 i) (λ _ hc, hc.1 = h ∧ spoken A S hc) (λ _ hc, spoken A S hc) (h, c).
Proof.
  intros H1 H2 Hsp. destruct (grease_fine n1 H1) as [Hv1 Hg1], (grease_fine n2 H2) as [Hv2 Hg2]. pose proof Hsp as [Hinv Hy].
  unfold H3Send.send_grease_frames. set (g1 := H3Send.grease_value n1) in *. set (g2 := H3Send.grease_value n2) in *.
  apply wp_bind, (wp_or_forget _ _ _ _ A); [|done|intros e h' c' Hi Hq; split; [done|by eapply says_quiet]].
  apply wp_capacity; [apply Hinv|]. intros cap Hcap Hcap0.
  assert (zlen H3Send.grease_payload = 18) as Hp by done.
  assert (∀ v, is_varint v → H3Send.scratch 8 0 (OctetsMut.put_varint v) = Ok (enc_varint v)) as Hscr.
  { intros v Hv. apply scratch_writes; [by apply put_varint_writes|]. rewrite zlen_enc_varint. pose proof (varint_size_bounds v). lia. }
  apply wp_bind. eapply wp_lift; [by apply varint_len_size|]. apply wp_bind. eapply wp_lift; [by apply varint_len_size|].
  rewrite Hp. destruct (Z.ltb_spec cap (varint_size g1 + 1 + varint_size g2 + 1 + 18)); [by apply wp_ret|].
  pose proof (varint_size_bounds g1). pose proof (varint_size_bounds g2).
  assert (zlen (enc_varint 0) = 1 ∧ zlen (enc_varint 18) = 1) as [Hz0 Hz18] by done.
  pose proof (zlen_enc_varint g1) as Hzg1. pose proof (zlen_enc_varint g2) as Hzg2.
  apply wp_bind. eapply wp_lift; [by apply Hscr|]. apply wp_bind, (wp_send_first _ _ cap); [apply Hinv|done|lia| |intros e c' Hq; by eapply spoken_quiet].
  intros c1 W1 T1. pose proof W1 as (Hok1 & _).
  apply wp_bind. eapply wp_lift; [by apply Hscr|]. apply wp_bind, (wp_send_next _ _ _ (cap - zlen (enc_varint g1))); [done|done|lia|]. intros c2 W2 T2. specialize (T2 eq_refl). pose proof W2 as (Hok2 & _).
  apply wp_bind. eapply wp_lift; [by apply Hscr|]. apply wp_bind. eapply wp_send_next; [done|exact T2|lia|]. intros c3 W3 T3. specialize (T3 eq_refl). pose proof W3 as (Hok3 & _).
  apply wp_bind. eapply wp_lift; [by apply Hscr|]. apply wp_bind. eapply wp_send_next; [done|exact T3|lia|]. intros c4 W4 T4. specialize (T4 eq_refl). pose proof W4 as (Hok4 & _).
  apply wp_bind. eapply wp_send_next; [done|exact T4|lia|]. intros c5 W5 _. apply wp_ret. split; [done|].
  pose proof (wrote_trans _ _ _ _ _ _ W1 (wrote_trans _ _ _ _ _ _ W2 (wrote_trans _ _ _ _ _ _ W3 (wrote_trans _ _ _ _ _ _ W4 W5)))) as W.
  by apply (spoken_grease g1 g2 i h c c5 A S).
Qed.

Lemma inv_initialize_local i h c A : inv h c A →
  inv (match H3Conn.streams h !! i with
       | Some s => H3Conn.set_streams (<[i := H3Stream.initialize_local s]> (H3Conn.streams h)) h
       | None => h
       end) c A.
Proof.
  intros Hinv. destruct (H3Conn.streams h !! i) as [s|] eqn:Hs; [|done]. apply (inv_replace max (λ _, False) i); [done|].
  pose proof Hinv as (_ & _ & Hslot & _). specialize (Hslot i). rewrite Hs in Hslot.
  eapply stream_inv_ext; [exact Hslot|done|]. intros read outs Hp. by apply (position_ext s).
Qed.

(** A HEADERS frame in two sends. *)
Lemma spoken_headers i hs block h c c1 c2 A S : spoken A S (h, c) → encodes hs block → bytes_ok block → is_varint (zlen block) →
  wrote i c c1 (enc_varint HEADERS_FRAME_TYPE_ID ++ enc_varint (zlen block)) → wrote i c1 c2 block → spoken A (utter i [inl hs] S) (h, c2).
Proof.
  intros Hsp He Hb Hl W1 W2. apply (spoken_frames i [(HEADERS_FRAME_TYPE_ID, block)] _ h c); [done| | |].
  - rewrite wires_one. unfold wire_of. cbn [fst snd]. rewrite app_assoc. by eapply wrote_trans.
  - apply Forall_singleton. by split_and!.
  - intros fs its Hs. by apply said_headers.
Qed.
Lemma spoken_body i bytes h c c1 c2 A S : spoken A S (h, c) → bytes_ok bytes → is_varint (zlen bytes) →
  wrote i c c1 (enc_varint DATA_FRAME_TYPE_ID ++ enc_varint (zlen bytes)) → wrote i c1 c2 bytes → spoken A (utter i (inr <$> bytes) S) (h, c2).
Proof.
  intros Hsp Hb Hl W1 W2. apply (spoken_frames i [(DATA_FRAME_TYPE_ID, bytes)] _ h c); [done| | |].
  - rewrite wires_one. unfold wire_of. cbn [fst snd]. rewrite app_assoc. by eapply wrote_trans.
  - apply Forall_singleton. by split_and!.
  - intros fs its Hs. by apply said_body.
Qed.

Lemma zlen_header ty len : 0 <= ty < 64 → zlen (enc_varint ty ++ enc_varint len) = 1 + varint_size len.
Proof. intros Hty. rewrite zlen_app, !zlen_enc_varint. f_equal. unfold varint_size. by rewrite (proj2 (Z.leb_le ty 63)) by lia. Qed.

Lemma wp_maybe_grease n1 n2 i h c A S (Q : unit → H3Conn.t * C → Prop) (QE : H3.Error → H3Conn.t * C → Prop) : draw n1 → draw n2 → spoken A S (h, c) →
  (∀ h' c', spoken A S (h', c') → Q () (h', c')) → (∀ e hc, spoken A S hc → QE e hc) →
  wp (if negb (H3Conn.frames_greased h) && conn_grease c
      then H3Send.send_grease_frames n1 n2 i;; H3Conn.on_self (H3Conn.set_frames_greased true) else mret ()) Q QE (h, c).
Proof.
  intros H1 H2 Hsp HQ HQE. destruct (_ && _); [|by apply wp_ret, HQ]. apply wp_bind.
  eapply wp_mono; [by apply wp_send_grease_frames|..|by intros; apply HQE]; cbv beta. intros _ [h' c'] [_ [Hi Hy]].
  apply wp_self_modify, HQ. split; [|done]. eapply inv_fields; [exact Hi|done|done|by left].
Qed.

Lemma wp_send_headers n1 n2 i hs fin h c A S : draw n1 → draw n2 → headers_fine hs → spoken A S (h, c) →
  wp (H3Send.send_headers n1 n2 i hs fin) (λ _ hc, spoken A (utter i [inl hs] S) hc) (λ _ hc, spoken A S hc) (h, c).
Proof.
  intros H1 H2 Hfine Hsp. unfold H3Send.send_headers. apply wp_bind, wp_self, wp_bind, wp_conn, wp_bind.
  eapply wp_maybe_grease; [done|done|exact Hsp| |done]. clear h c Hsp. intros h c Hsp. pose proof Hsp as [Hinv Hy]. cbn [fst snd] in Hinv, Hy.
  pose proof (encode_header_block_run hs Hfine) as He. apply wp_bind.
  destruct (H3Send.encode_header_block hs) as [block|e|]; [|by apply (wp_fail e)|done]. destruct He as (He & Hb & Hl).
  eapply wp_lift; [done|]. apply wp_bind. eapply wp_lift; [by apply varint_len_size|]. apply wp_bind. eapply wp_lift; [by apply varint_len_size|].
  apply wp_bind, (wp_or_forget _ _ _ _ A); [|done|intros e h' c' Hi Hq; split; [done|by eapply says_quiet]].
  apply wp_writable; [apply Hinv|unfold is_varint in Hl; pose proof (varint_size_bounds (zlen block));
    change (varint_size HEADERS_FRAME_TYPE_ID) with 1; lia| |done]. intros [|] c' Hq Hcap; cbn [negb].
  2: { apply wp_fail. by eapply spoken_quiet. }
  destruct (Hcap eq_refl) as (cap & Hle & Hc). pose proof (varint_size_bounds (zlen block)). change (varint_size HEADERS_FRAME_TYPE_ID) with 1 in *.
  pose proof (zlen_header HEADERS_FRAME_TYPE_ID (zlen block) ltac:(done)) as Hz. pose proof (spoken_quiet _ _ _ _ _ Hsp Hq) as Hsp'.
  pose proof (zlen_nonneg block). apply wp_bind. eapply wp_lift; [apply frame_header_run; [done|done|change (varint_size HEADERS_FRAME_TYPE_ID) with 1; lia]|].
  apply wp_bind. eapply (wp_send_first _ _ cap); [apply Hsp'|done|lia| |intros e c2 Hq2; by eapply spoken_quiet].
  intros c2 W2 T2. apply wp_bind. eapply wp_send_next; [apply W2|exact T2|lia|]. intros c3 W3 _.
  pose proof (spoken_headers i hs block h c' c2 c3 A S Hsp' He Hb Hl W2 W3) as [Hinv3 Hy3].
  apply wp_bind, wp_self_modify. destruct fin; [|by apply wp_ret; split; [apply inv_initialize_local|]].
  apply (wp_forget_finished _ _ _ A); [by apply inv_initialize_local|]. intros h' Hinv'. by split.
Qed.

(** Nothing was read from a stream before its request was sent. *)
Definition unopened h c : Prop := history (H3Conn.next_request_stream_id h) c = [].

Lemma wp_send_request n1 n2 hs fin h c A S : draw n1 → draw n2 → headers_fine hs → spoken A S (h, c) → unopened h c →
  wp (H3Send.send_request n1 n2 hs fin) (λ i hc, spoken A (utter i [inl hs] S) hc)
    (λ e hc, spoken A S hc ∨ e = H3.IdError ∧ ∃ i, spoken A (utter i [inl hs] S) hc) (h, c).
Proof.
  intros H1 H2 Hfine [Hinv Hy] Hun. unfold H3Send.send_request. apply wp_bind, wp_self. cbn [fst snd] in Hinv, Hy.
  case_bool_decide; [by apply wp_fail; left|]. set (i := H3Conn.next_request_stream_id h).
  apply wp_bind, wp_self_modify. change (H3Conn.set_streams _ h) with (put_stream i (H3Stream.new i true) h).
  assert (inv (put_stream i (H3Stream.new i true) h) c A) as Hinv'.
  { apply inv_replace; [done|]. eapply stream_inv_new; [apply Hinv|by left]. }
  assert (∀ c', quiet c c' → spoken A S (put_stream i (H3Stream.new i true) h, c')) as Hq by (intros c' Hq; by eapply spoken_quiet).
  apply wp_bind, wp_attempt, wp_send_some; [apply Hinv| |].
  - intros n c' Hn Hw. assert (ztake n [] = @nil Z) as Hnil by (unfold ztake; by rewrite take_nil). rewrite Hnil in Hw.
    assert (spoken A S (put_stream i (H3Stream.new i true) h, c')) as Hsp'.
    { split; [by eapply inv_wrote|]. eapply says_same; [|exact Hy]. intros j. cbn [snd]. destruct Hw as (_ & Hi & Ho & _).
      destruct (decide (j = i)) as [-> |Hj]; [by rewrite Hi, app_nil_r|by apply Ho]. }
    apply wp_bind. eapply wp_mono; [by apply wp_send_headers|..]; cbv beta; [|by left]. intros _ [h2 c2] Hsp2. apply wp_bind, wp_self.
    destruct (_ <=? _); [|by apply wp_fail; right; eauto]. apply wp_bind, wp_self_modify, wp_ret. destruct Hsp2 as [Hi2 Hy2]. split; [|done].
    eapply inv_fields; [exact Hi2|done|done|by left].
  - intros e c' Hq'. apply wp_bind, wp_self_modify, wp_fail. left. destruct (Hq c' Hq') as [Hi' Hy']. split; [|done].
    apply inv_delete; [done|]. left. destruct Hq' as [_ Hq']. destruct (Hq' i) as [(Hh & _) _]. cbn [snd]. by rewrite Hh.
Qed.

(** A response whose priority the transport refuses was sent all the same. *)
Lemma wp_send_response n1 n2 i hs priority fin h c A S : draw n1 → draw n2 → headers_fine hs → spoken A S (h, c) →
  wp (H3Send.send_response_with_priority n1 n2 i hs priority fin) (λ _ hc, spoken A (utter i [inl hs] S) hc)
    (λ e hc, spoken A S hc ∨ e ≠ H3.StreamBlocked ∧ spoken A (utter i [inl hs] S) hc) (h, c).
Proof.
  intros H1 H2 Hfine Hsp. unfold H3Send.send_response_with_priority. apply wp_bind, wp_self. case_bool_decide; [by apply wp_fail; left|].
  apply wp_bind. eapply wp_mono; [by apply wp_send_headers|..]; cbv beta; [|by left]. intros _ [h' c'] Hsp'. apply wp_transport.
  eapply wp_mono; [apply priority_law, Hsp'|..]; cbv beta; [intros ? c2 Hq; by eapply spoken_quiet|].
  intros e c2 Hq. right. split; [by destruct e|by eapply spoken_quiet].
Qed.

Lemma wp_send_body i body fin h c A S : bytes_ok body → is_varint (zlen body) → spoken A S (h, c) →
  wp (H3Send.send_body i body fin) (λ n hc, 0 <= n <= zlen body ∧ spoken A (utter i (inr <$> ztake n body) S) hc)
    (λ _ hc, spoken A S hc) (h, c).
Proof.
  intros Hb Hl Hsp. pose proof Hsp as [Hinv Hy]. cbn [fst snd] in Hinv, Hy. unfold H3Send.send_body. apply wp_bind, wp_self.
  destruct (negb _); [by apply wp_fail|]. destruct (_ && _); [by apply wp_fail|].
  apply wp_bind. eapply wp_lift; [by apply varint_len_size|]. apply wp_bind. eapply wp_lift; [by apply varint_len_size|].
  change (varint_size DATA_FRAME_TYPE_ID) with 1. pose proof (varint_size_bounds (zlen body)). set (overhead := 1 + varint_size (zlen body)).
  apply wp_bind, (wp_or_forget _ _ _ _ A); [|done|intros e h' c' Hi Hq; split; [done|by eapply says_quiet]].
  apply wp_capacity; [apply Hinv|]. intros cap Hcap Hcap0.
  assert (wp (H3Send.want_writable i (overhead + 1);; fail H3.Done) (λ n hc, 0 <= n <= zlen body ∧ spoken A (utter i (inr <$> ztake n body) S) hc)
    (λ _ hc, spoken A S hc) (h, c)) as Hblocked.
  { apply wp_bind, wp_want_writable; [apply Hinv|lia|]. intros c' Hq. apply wp_fail. by eapply spoken_quiet. }
  destruct (Z.ltb_spec cap overhead); [apply Hblocked|]. apply wp_bind. unfold usub. rewrite (proj2 (Z.leb_le _ _)) by lia.
  eapply wp_lift; [done|]. set (body_len := Z.min (zlen body) (cap - overhead)). set (fin' := if negb (body_len =? zlen body) then false else fin).
  destruct (_ && _); [apply Hblocked|]. pose proof (zlen_nonneg body). assert (0 <= body_len <= zlen body) as Hbl by lia.
  assert (is_varint body_len) as Hlen by (unfold is_varint in *; lia). assert (varint_size body_len <= varint_size (zlen body)) as Hmono.
  { unfold varint_size. repeat zcase; lia. }
  assert (zlen (ztake body_len body) = body_len) as Hzt by (apply zlen_ztake; lia).
  pose proof (zlen_header DATA_FRAME_TYPE_ID body_len ltac:(done)) as Hz. pose proof (varint_size_bounds body_len).
  apply wp_bind. eapply wp_lift; [apply frame_header_run; [done|done|change (varint_size DATA_FRAME_TYPE_ID) with 1; lia]|].
  apply wp_bind. eapply (wp_send_first _ _ cap); [apply Hinv|done|lia| |intros e c2 Hq2; by eapply spoken_quiet].
  intros c2 W2 T2. apply wp_bind. eapply wp_send_next; [apply W2|exact T2|lia|]. intros c3 W3 _. rewrite Hzt.
  assert (spoken A (utter i (inr <$> ztake body_len body) S) (h, c3)) as Hsp3.
  { apply (spoken_body i (ztake body_len body) h c c2 c3); rewrite ?Hzt; try done. by apply Forall_take. }
  assert (∀ c', quiet c3 c' ∨ c' = c3 → wp ((if fin' && (body_len =? zlen body) then H3Send.forget_finished i else mret ());; mret body_len)
    (λ n hc, 0 <= n <= zlen body ∧ spoken A (utter i (inr <$> ztake n body) S) hc) (λ _ hc, spoken A S hc) (h, c')) as Hend.
  { intros c' Hc'. assert (spoken A (utter i (inr <$> ztake body_len body) S) (h, c')) as Hsp' by (destruct Hc' as [Hq| ->]; [by eapply spoken_quiet|done]).
    destruct Hsp' as [Hinv' Hy']. apply wp_bind. destruct (_ && _); [|by apply wp_ret, wp_ret]. apply (wp_forget_finished _ _ _ A); [done|].
    intros h' Hinv2. by apply wp_ret. }
  apply wp_bind. destruct (_ <? _); [|by apply wp_ret, Hend; right]. apply wp_want_writable; [apply W3|lia|]. intros c' Hq. by apply Hend; left.
Qed.

(** ** The connection's own streams *)

Lemma spoken_uni i bytes h c c' A S : spoken A S (h, c) → wrote i c c' bytes → is_bidi i = false → spoken A S (h, c').
Proof. intros [Hi Hy] Hw Hu. split; [by eapply inv_wrote|by eapply says_other]. Qed.

Lemma spoken_self f h c A S : spoken A S (h, c) → (inv h c A → inv (f h) c A) → spoken A S (f h, c).
Proof. intros [Hi Hy] Hf. split; [by apply Hf|done]. Qed.

(** A send on one of them. *)
Lemma wp_send_uni i bytes fin h c A S (Q : Z → H3Conn.t * C → Prop) (QE : H3.Error → H3Conn.t * C → Prop) : is_bidi i = false → spoken A S (h, c) →
  (∀ n c', spoken A S (h, c') → Q n (h, c')) → (∀ e c', spoken A S (h, c') → QE e (h, c')) →
  wp (H3Send.stream_send_ i bytes fin) Q QE (h, c).
Proof.
  intros Hu Hsp HQ HQE. apply wp_send_some; [apply Hsp|..].
  - intros n c' _ Hw. apply HQ. by eapply spoken_uni.
  - intros e c' Hq. apply HQE. by eapply spoken_quiet.
Qed.

Lemma spoken_own h c A S : spoken A S (h, c) → own_streams h.
Proof. by intros [(_ & _ & _ & _ & _ & Hown) _]. Qed.

Lemma wp_send_goaway id h c A S : is_varint id → spoken A S (h, c) →
  wp (H3Send.send_goaway id) (λ _ hc, spoken A S hc) (λ _ hc, spoken A S hc) (h, c).
Proof.
  intros Hid Hsp. unfold H3Send.send_goaway. apply wp_bind, wp_self. set (id' := if H3Conn.is_server h then id else 0).
  destruct (_ && _); [by apply wp_fail|]. destruct (match _ with Some _ => _ | None => false end); [by apply wp_fail|].
  destruct (H3Conn.control_stream_id h) as [i|] eqn:Hc; [|by apply wp_ret].
  assert (is_bidi i = false) as Hu by (by apply (spoken_own _ _ _ _ Hsp)).
  assert (is_varint id') as Hid' by (unfold id'; destruct (H3Conn.is_server h); [done|unfold is_varint; lia]).
  assert (h3_frame_ok (H3Frame.GoAway id')) as Hok.
  { split; [|done]. cbn [h3_payload]. rewrite zlen_enc_varint. apply is_varint_size. }
  apply wp_bind. eapply wp_lift.
  { apply (scratch_writes _ _ _ (h3_wire (H3Frame.GoAway id'))).
    - intros pre old rest Hold. eexists. by apply to_bytes_run.
    - unfold h3_wire. cbn [h3_type h3_payload]. rewrite !zlen_app, !zlen_enc_varint. pose proof (varint_size_bounds id').
      assert (∀ v, v <= 8 → varint_size v = 1) as Hs by (intros v Hv; unfold varint_size; zcase; lia).
      rewrite (Hs (varint_size id')) by lia. change (varint_size GOAWAY_FRAME_TYPE_ID) with 1. lia. }
  apply wp_bind. eapply wp_mono; [apply (wp_capacity i h c (λ _ hc, hc = (h, c))); [apply Hsp|done]|..]; cbv beta.
  - intros cap hc ->. destruct (_ <? _); [by apply wp_fail|]. apply wp_bind, (wp_send_uni _ _ _ _ _ A S); [done|done| |done].
    intros _ c' Hsp'. apply wp_self_modify, spoken_self; [done|]. intros Hi. eapply inv_fields; [done|done|done|by left].
  - intros e [h' c'] [Hh Hq]. cbn [fst snd] in *. subst h'. by eapply spoken_quiet.
Qed.

Lemma zlen_field_value priority : 3 <= zlen (H3Send.field_value priority) <= 5.
Proof.
  unfold H3Send.field_value. assert (0 <= Priority.clamped priority <= 7) as Hc.
  { unfold Priority.clamped, Priority.clamp, Priority.PRIORITY_URGENCY_LOWER_BOUND, Priority.PRIORITY_URGENCY_UPPER_BOUND. lia. }
  assert (zlen (StaticTable.ascii (pretty (Z.to_N (Priority.clamped priority)))) = 1) as Hl.
  { generalize dependent (Priority.clamped priority). intros z Hz.
    assert (z = 0 ∨ z = 1 ∨ z = 2 ∨ z = 3 ∨ z = 4 ∨ z = 5 ∨ z = 6 ∨ z = 7) as Hcases by lia.
    by repeat destruct Hcases as [-> |Hcases]; [..|subst z]. }
  rewrite !zlen_app, Hl. change (zlen (msg "u=")) with 2. destruct (Priority.incremental priority).
  - change (zlen (msg ",i")) with 2. lia.
  - rewrite zlen_nil. lia.
Qed.

Lemma wp_send_priority_update i priority h c A S : is_varint i → spoken A S (h, c) →
  wp (H3Send.send_priority_update_for_request i priority) (λ _ hc, spoken A S hc) (λ _ hc, spoken A S hc) (h, c).
Proof.
  intros Hid Hsp. unfold H3Send.send_priority_update_for_request. apply wp_bind, wp_self. destruct (H3Conn.is_server h); [by apply wp_fail|].
  destruct (negb _); [by apply wp_fail|]. destruct (H3Conn.control_stream_id h) as [ctl|] eqn:Hc; [|by apply wp_fail].
  assert (is_bidi ctl = false) as Hu by (by apply (spoken_own _ _ _ _ Hsp)). pose proof (zlen_field_value priority) as Hf. pose proof (varint_size_bounds i).
  assert (∀ v, 0 <= v <= 63 → is_varint v ∧ varint_size v = 1) as Hsmall.
  { intros v Hv. split; [unfold is_varint; lia|]. unfold varint_size. zcase; lia. }
  destruct (Hsmall (varint_size i + zlen (H3Send.field_value priority)) ltac:(lia)) as [Hpv Hps].
  assert (is_varint PRIORITY_UPDATE_FRAME_REQUEST_TYPE_ID) as Ht by done.
  apply wp_bind. eapply wp_lift; [by apply varint_len_size|]. apply wp_bind. eapply wp_lift; [by apply varint_len_size|].
  apply wp_bind. eapply wp_lift; [by apply varint_len_size|]. apply wp_bind, wp_writable; [apply Hsp| | |intros e c' Hq; by eapply spoken_quiet].
  { change (varint_size PRIORITY_UPDATE_FRAME_REQUEST_TYPE_ID) with 4. lia. }
  intros b c' Hq _. pose proof (spoken_quiet _ _ _ _ _ Hsp Hq) as Hsp'. destruct b; cbn [negb]; [|by apply wp_fail].
  apply wp_bind. eapply wp_lift.
  { eapply scratch_writes; [eapply writes_bind; [by apply put_varint_writes|intros _; eapply writes_bind; [by apply put_varint_writes|intros _; by apply put_varint_writes]]|].
    rewrite !zlen_app, !zlen_enc_varint. rewrite Hps. change (varint_size PRIORITY_UPDATE_FRAME_REQUEST_TYPE_ID) with 4. lia. }
  apply wp_bind, (wp_send_uni _ _ _ _ _ A S); [done|done| |done]. intros _ c2 Hsp2.
  apply wp_bind, (wp_send_uni _ _ _ _ _ A S); [done|done| |done]. intros _ c3 Hsp3. by apply wp_ret.
Qed.

Lemma next_uni_bidi i : is_bidi (i + 4) = is_bidi i.
Proof.
  unfold is_bidi. assert (Z.land (i + 4) 2 = Z.land i 2) as ->; [|done]. change 2 with (2 ^ 1) at 1 2.
  apply Z.bits_inj'. intros k Hk. rewrite !Z.land_spec, Z.pow2_bits_eqb by lia. destruct (Z.eqb_spec 1 k) as [<- |]; [|by rewrite !andb_false_r].
  rewrite !andb_true_r, !Z.testbit_odd, !Z.shiftr_div_pow2 by lia. change (2 ^ 1) with 2.
  replace (i + 4) with (i + 2 * 2) by lia. rewrite Z.div_add by lia. by rewrite Z.odd_add, xorb_false_r.
Qed.

Lemma wp_open_uni_stream ty h c A S : is_varint ty → spoken A S (h, c) →
  wp (H3Send.open_uni_stream ty) (λ i hc, is_bidi i = false ∧ H3Conn.local_settings hc.1 = H3Conn.local_settings h ∧ spoken A S hc) (λ _ hc, spoken A S hc) (h, c).
Proof.
  intros Hty Hsp. destruct (spoken_own _ _ _ _ Hsp) as [Hu _].
  unfold H3Send.open_uni_stream. apply wp_bind, wp_self, wp_bind.
  assert (∀ c', quiet c c' → spoken A S (h, c')) as Hq by (intros c' Hq; by eapply spoken_quiet).
  assert (∀ c', spoken A S (h, c') → wp (b ← lift (H3Send.scratch 8 0 (OctetsMut.put_varint ty));
      H3Send.stream_send_ (H3Conn.next_uni_stream_id h) b false;;
      if H3Conn.next_uni_stream_id h + 4 <=? u64_max then
        H3Conn.on_self (H3Conn.set_next_uni_stream_id (H3Conn.next_uni_stream_id h + 4));; mret (H3Conn.next_uni_stream_id h)
      else fail H3.IdError)
    (λ i hc, is_bidi i = false ∧ H3Conn.local_settings hc.1 = H3Conn.local_settings h ∧ spoken A S hc) (λ _ hc, spoken A S hc) (h, c')) as Hrest.
  { intros c' Hsp'. apply wp_bind. eapply wp_lift.
    { apply scratch_writes; [by apply put_varint_writes|]. rewrite zlen_enc_varint. pose proof (varint_size_bounds ty). lia. }
    apply wp_bind, (wp_send_uni _ _ _ _ _ A S); [done|done| |done]. intros _ c2 Hsp2. destruct (_ <=? _); [|by apply wp_fail].
    apply wp_bind, wp_self_modify, wp_ret. split; [done|]. split; [done|]. apply spoken_self; [done|].
    intros (Hok & Hmax & Hs & Hp & Hex & Hown). split_and!; [done..|]. split; [cbn; by rewrite next_uni_bidi|apply Hown]. }
  assert (∀ u, wp (H3Conn.on_conn (stream_priority (H3Conn.next_uni_stream_id h) u false)) (λ _ hc, ∃ c', hc = (h, c') ∧ spoken A S (h, c')) (λ _ hc, spoken A S hc) (h, c)) as Hprio.
  { intros u. apply wp_transport. eapply wp_mono; [apply priority_law, Hsp|..]; cbv beta; intros ? c' Hq'; [exists c'; split; [done|]|]; by apply Hq. }
  case_bool_decide; [|destruct (_ =? _); [by apply wp_ret, Hrest|]];
    (eapply wp_mono; [apply Hprio| |done]; cbv beta; intros _ hc (c' & -> & Hsp'); by apply Hrest).
Qed.

(** SETTINGS that are well formed and fit the buffer of [send_settings]. *)
Definition settings_fine (grease : option (Z * Z)) (st : ConnectionSettings.t) : Prop :=
  h3_frame_ok (H3Send.settings_frame grease st) ∧ zlen (h3_wire (H3Send.settings_frame grease st)) <= 128.

Lemma wp_send_settings n1 n2 h c A S : (∀ g, g = None ∨ g = Some (H3Send.grease_value n1, H3Send.grease_value n2) → settings_fine g (H3Conn.local_settings h)) →
  spoken A S (h, c) → wp (H3Send.send_settings n1 n2) (λ _ hc, spoken A S hc) (λ _ hc, spoken A S hc) (h, c).
Proof.
  intros Hfine Hsp. unfold H3Send.send_settings. apply wp_bind, wp_attempt.
  eapply wp_mono; [by apply wp_open_uni_stream|..]; cbv beta; [|by intros; apply wp_fail]. intros i [h1 c1] (Hu & Hloc & Hsp1). cbn [fst] in Hloc.
  apply wp_bind, wp_self_modify. assert (spoken A S (H3Conn.set_control_stream_id (Some i) h1, c1)) as Hsp2.
  { apply spoken_self; [done|]. intros (Hok & Hmax & Hs & Hp & Hex & Hown). split_and!; [done..|]. split; [exact (proj1 Hown)|]. by intros j [= <-]. }
  apply wp_bind, wp_self, wp_bind, wp_conn. set (h2 := H3Conn.set_control_stream_id _ h1) in *. change (H3Conn.local_settings h2) with (H3Conn.local_settings h1).
  rewrite Hloc. set (g := if conn_grease c1 then _ else _). destruct (Hfine g) as [Hok Hlen]; [unfold g; destruct (conn_grease c1); auto|].
  apply wp_bind. eapply wp_lift.
  { eapply (scratch_writes _ _ _ _ _ Hlen). Unshelve. intros pre old rest Hold. eexists. by apply to_bytes_run. }
  apply wp_bind, (wp_send_uni _ _ _ _ _ A S); [done|done| |done]. intros _ c3 Hsp3. by apply wp_ret.
Qed.

Lemma spoken_ignoring {X} (m : M (H3Conn.t * C) H3.Error X) h c A S (Q : X + H3.Error → H3Conn.t * C → Prop) (QE : H3.Error → H3Conn.t * C → Prop) :
  wp m (λ _ hc, spoken A S hc) (λ _ hc, spoken A S hc) (h, c) → (∀ r h' c', spoken A S (h', c') → Q r (h', c')) → wp (attempt m) Q QE (h, c).
Proof. intros Hm HQ. apply wp_attempt. eapply wp_mono; [exact Hm|..]; intros ? [h' c'] ?; by apply HQ. Qed.

Lemma wp_open_qpack_streams h c A S : spoken A S (h, c) →
  wp H3Send.open_qpack_encoder_stream (λ _ hc, spoken A S hc) (λ _ hc, spoken A S hc) (h, c) ∧
  wp H3Send.open_qpack_decoder_stream (λ _ hc, spoken A S hc) (λ _ hc, spoken A S hc) (h, c).
Proof.
  intros Hsp. split; apply wp_bind; (eapply wp_mono; [by apply wp_open_uni_stream| |done]); cbv beta; intros i [h1 c1] (_ & _ & Hsp1);
    (apply wp_self_modify, spoken_self; [done|]); intros Hi; (eapply inv_fields; [done|done|done|by left]).
Qed.

Lemma wp_open_grease_stream n h c A S : draw n → spoken A S (h, c) →
  wp (H3Send.open_grease_stream n) (λ _ hc, spoken A S hc) (λ _ hc, spoken A S hc) (h, c).
Proof.
  intros Hn Hsp. unfold H3Send.open_grease_stream. apply wp_bind, wp_attempt.
  eapply wp_mono; [apply wp_open_uni_stream; [by apply grease_fine|done]|..]; cbv beta.
  - intros i [h1 c1] (Hu & _ & Hsp1). apply wp_bind, (wp_send_uni _ _ _ _ _ A S); [done|done| |done]. intros _ c2 Hsp2. by apply wp_ret.
  - intros e hc Hsp1. destruct e; first [by apply wp_ret|by apply wp_fail].
Qed.

Lemma wp_open_streams n1 n2 n3 h c A S : draw n3 →
  (∀ g, g = None ∨ g = Some (H3Send.grease_value n1, H3Send.grease_value n2) → settings_fine g (H3Conn.local_settings h)) →
  spoken A S (h, c) → wp (H3Send.open_streams n1 n2 n3) (λ _ hc, spoken A S hc) (λ _ _, True) (h, c).
Proof.
  intros Hn Hfine Hsp. unfold H3Send.open_streams. apply wp_bind, (spoken_ignoring _ _ _ A S); [by apply wp_send_settings|].
  intros [[]|e] h1 c1 Hsp1; [|by apply (wp_close max (λ _, False) _ _ _ _ A); [apply Hsp1|]].
  apply wp_bind, (spoken_ignoring _ _ _ A S); [by destruct (wp_open_qpack_streams _ _ _ _ Hsp1)|]. intros _ h2 c2 Hsp2.
  apply wp_bind, (spoken_ignoring _ _ _ A S); [by destruct (wp_open_qpack_streams _ _ _ _ Hsp2)|]. intros _ h3 c3 Hsp3.
  apply wp_bind, wp_conn. destruct (conn_grease c3); [|by apply wp_ret].
  apply wp_bind, (spoken_ignoring _ _ _ A S); [by apply wp_open_grease_stream|]. intros _ h4 c4 Hsp4. by apply wp_ret.
Qed.

(** A transport on which nothing was read or written. *)
Definition fresh c : Prop := t_ok c ∧ ∀ i, history i c = [] ∧ sent i c = [].

Lemma spoken_new config c : fresh c → max = default u64_max (H3Conn.Config.max_field_section_size config) →
  spoken (λ _, []) (λ _, []) (H3Conn.new config (conn_is_server c) (dgram_enabled c), c).
Proof.
  intros [Hok Hf] Hmax. split.
  - split_and!; [done|done| |done|done|split; [by cbn; destruct (conn_is_server c)|done]]. intros i. split; [|left; apply Hf]. apply settled_start, Hf.
  - intros i _. exists []. destruct (Hf i) as [_ Hs]. cbn [snd]. rewrite Hs. split_and!; [done|constructor|constructor].
Qed.

Definition config_fine (n1 n2 : Z) (config : H3Conn.Config.t) : Prop :=
  ∀ g server dgram, g = None ∨ g = Some (H3Send.grease_value n1, H3Send.grease_value n2) →
    settings_fine g (H3Conn.local_settings (H3Conn.new config server dgram)).

Lemma wp_with_transport n1 n2 n3 config c : fresh c → max = default u64_max (H3Conn.Config.max_field_section_size config) → draw n3 → config_fine n1 n2 config →
  wp (H3Send.with_transport n1 n2 n3 config) (λ h c', spoken (λ _, []) (λ _, []) (h, c')) (λ _ _, True) c.
Proof.
  intros Hf Hmax Hn Hc. unfold H3Send.with_transport. unfold wp at 1. destruct (_ && _); [done|].
  pose proof (wp_open_streams n1 n2 n3 _ c (λ _, []) (λ _, []) Hn (λ g Hg, Hc g _ _ Hg) (spoken_new config c Hf Hmax)) as Hw. unfold wp in Hw.
  by destruct (H3Send.open_streams n1 n2 n3 _) as [[] [h' c']].
Qed.
End sending.
