(* ===== verification/H3World.v ===== *)
(** * Runs of HTTP/3 connections

    The calls of an application and the work of the transport in any order,
    what every run has delivered and sent, and two endpoints. *)
From stdpp Require Import gmap relations pretty.
From S2P Require Import Prelude OctetsLib Huffman QpackCodec Streams ConnStreams ConnInv H3Frames H3Streams H3Conn H3Scan H3Inv H3Pipe H3Run H3Send H3Sent.

Abbreviation script := (Z → list (list Header.t + Z)).

(** A connection, its transport, what the application got and what it sent. *)
Record world (C : Type) := World { wh : H3Conn.t; wc : C; wlog : log; wscript : script }.
Arguments World {C}.
Arguments wh {C}.
Arguments wc {C}.
Arguments wlog {C}.
Arguments wscript {C}.

(** What an application may call, with the random numbers the call draws, and
    the transport's own work. *)
Inductive op (C : Type) :=
| Poll (fuel : nat)
| RecvBody (fuel : nat) (i n : Z)
| TakePriority (i : Z)
| SendRequest (n1 n2 : Z) (hs : list Header.t) (fin : bool)
| SendResponse (n1 n2 i : Z) (hs : list Header.t) (priority : Priority.t) (fin : bool)
| SendBody (i : Z) (body : list Z) (fin : bool)
| SendGoaway (id : Z)
| SendPriority (i : Z) (priority : Priority.t)
| Work (c : C).
Arguments Poll {C}.
Arguments RecvBody {C}.
Arguments TakePriority {C}.
Arguments SendRequest {C}.
Arguments SendResponse {C}.
Arguments SendBody {C}.
Arguments SendGoaway {C}.
Arguments SendPriority {C}.
Arguments Work {C}.

Definition limit (config : H3Conn.Config.t) : Z := default u64_max (H3Conn.Config.max_field_section_size config).

Section world.
Context {C : Type} {HT : Transport C} {HG : TransportGhost C} {HL : TransportLaws C}.
Implicit Types (w : world C) (o : op C).

Definition on_ok {A X} (r : result H3.Error A) (f : A → X) (x : X) : X := match r with Ok a => f a | _ => x end.

Definition exec o w : world C :=
  let '(World h c A T) := w in
  match o with
  | Poll fuel => let '(r, (h, c)) := H3Conn.poll fuel (h, c) in World h c (on_ok r (λ ev, deliver ev A) A) T
  | RecvBody fuel i n =>
      let '(r, (h, c)) := H3Conn.recv_body fuel i n (h, c) in World h c (on_ok r (λ got, give i (IBody <$> got) A) A) T
  | TakePriority i => World (H3Conn.take_last_priority_update i h).2 c A T
  | SendRequest n1 n2 hs fin =>
      let '(r, (h, c)) := H3Send.send_request n1 n2 hs fin (h, c) in World h c A (on_ok r (λ i, utter i [inl hs] T) T)
  | SendResponse n1 n2 i hs priority fin =>
      let '(r, (h, c)) := H3Send.send_response_with_priority n1 n2 i hs priority fin (h, c) in
      World h c A (on_ok r (λ _, utter i [inl hs] T) T)
  | SendBody i body fin =>
      let '(r, (h, c)) := H3Send.send_body i body fin (h, c) in World h c A (on_ok r (λ n, utter i (inr <$> ztake n body) T) T)
  | SendGoaway id => let '(_, (h, c)) := H3Send.send_goaway id (h, c) in World h c A T
  | SendPriority i priority => let '(_, (h, c)) := H3Send.send_priority_update_for_request i priority (h, c) in World h c A T
  | Work c => World h c A T
  end.

(** The transport received, acknowledged and sent: more may be readable. *)
Definition worked (c c' : C) : Prop :=
  t_ok c' ∧ ∀ j, history j c' = history j c ∧ sent j c' = sent j c ∧ (over j c → over j c').

(** Arguments in range, and results after which the caller knows what was read
    and what was sent. *)
Definition allowed o w : Prop :=
  let h := wh w in let c := wc w in
  match o with
  | Poll fuel => enough fuel c
  | RecvBody fuel i n => enough fuel c ∧ ∀ e, (H3Conn.recv_body fuel i n (h, c)).1 = Err e → e = H3.Done
  | TakePriority _ => True
  | SendRequest n1 n2 hs fin =>
      draw n1 ∧ draw n2 ∧ headers_fine hs ∧ unopened h c ∧ (H3Send.send_request n1 n2 hs fin (h, c)).1 ≠ Err H3.IdError
  | SendResponse n1 n2 i hs priority fin =>
      draw n1 ∧ draw n2 ∧ headers_fine hs ∧
      ∀ e, (H3Send.send_response_with_priority n1 n2 i hs priority fin (h, c)).1 = Err e → e = H3.StreamBlocked
  | SendBody i body fin => bytes_ok body ∧ is_varint (zlen body)
  | SendGoaway id => is_varint id
  | SendPriority i _ => is_varint i
  | Work c' => worked c c'
  end.

Inductive step w : world C → Prop :=
| step_exec o : allowed o w → step w (exec o w).

(** A connection over a transport on which nothing happened. *)
Inductive start (config : H3Conn.Config.t) : world C → Prop :=
| start_with n1 n2 n3 c h c' : fresh c → 0 <= limit config → draw n3 → config_fine n1 n2 config → H3Send.with_transport n1 n2 n3 config c = (Ok h, c') →
    start config (World h c' (λ _, []) (λ _, [])).

Definition reachable (config : H3Conn.Config.t) w : Prop := ∃ w0, start config w0 ∧ rtc step w0 w.

(** ** The invariant of a run *)
Definition world_ok (max : Z) w : Prop := spoken max (wlog w) (wscript w) (wh w, wc w).

Lemma run_of {X A} (m : M X H3.Error A) Q QE s : wp m Q QE s →
  match m s with (Ok a, s') => Q a s' | (Err e, s') => QE e s' | (Panic, _) => False end.
Proof. done. Qed.

Lemma spoken_kept max h c c' A A' T : spoken max A T (h, c) → kept max (λ _, False) c A' (h, c') → spoken max A' T (h, c').
Proof. intros [_ Hy] [Hi Hl]. split; [done|]. eapply says_same; [|exact Hy]. intros j. apply Hl. Qed.
Lemma spoken_moved max h h' c c' A A' T : spoken max A T (h, c) → kept max (λ _, False) c A' (h', c') → spoken max A' T (h', c').
Proof. intros [_ Hy] [Hi Hl]. split; [done|]. eapply says_same; [|exact Hy]. intros j. apply Hl. Qed.

Lemma spoken_worked max h c c' A T : spoken max A T (h, c) → worked c c' → spoken max A T (h, c').
Proof.
  intros [(Hok & Hmax & Hs & Hp & Hex & Hown) Hy] [Hok' Hw]. split.
  - split_and!; [done|done| |done|done|done]. intros j. destruct (Hw j) as (? & ? & ?). by eapply slot_same.
  - eapply says_same; [|exact Hy]. intros j. apply Hw.
Qed.

Lemma spoken_take max i h c A T : spoken max A T (h, c) → spoken max A T ((H3Conn.take_last_priority_update i h).2, c).
Proof.
  intros [Hi Hy]. split; [|done]. cbn [fst snd] in *. unfold H3Conn.take_last_priority_update.
  destruct (H3Conn.streams h !! i) as [s|] eqn:Hs; [|done]. apply (inv_replace max (λ _, False) i); [done|].
  pose proof Hi as (_ & _ & Hslot & _). specialize (Hslot i). rewrite Hs in Hslot.
  eapply stream_inv_ext; [exact Hslot|done|]. intros read outs Hp. by apply (position_ext s).
Qed.

Lemma step_ok max w o : 0 <= max → world_ok max w → allowed o w → world_ok max (exec o w).
Proof.
  intros Hmax Hw. destruct w as [h c A T]. pose proof Hw as [Hinv Hy]. cbn [wh wc wlog wscript fst snd] in *.
  destruct o as [fuel|fuel i n|i|n1 n2 hs fin|n1 n2 i hs priority fin|i body fin|id|i priority|c']; cbn [allowed exec wh wc].
  - intros Hf. pose proof (run_of _ _ _ _ (wp_poll max Hmax _ fuel h c A Hinv Hf)) as Hr.
    destruct (H3Conn.poll fuel (h, c)) as [[ev|e|] [h' c']]; [| |done]; by eapply spoken_moved.
  - intros [Hf He]. pose proof (run_of _ _ _ _ (wp_recv_body max Hmax _ fuel i n h c A Hinv Hf)) as Hr.
    destruct (H3Conn.recv_body fuel i n (h, c)) as [[got|e|] [h' c']]; [by eapply spoken_moved| |done].
    destruct Hr as (lost & Hk & Hlost). rewrite (Hlost (He e eq_refl)) in Hk. cbn [on_ok]. eapply spoken_moved; [exact Hw|].
    destruct Hk as [Hi Hl]. split; [|done]. eapply inv_ext; [|exact Hi]. intros j _. apply give_nil.
  - intros _. by apply spoken_take.
  - intros (H1 & H2 & Hfine & Hun & Hne). pose proof (run_of _ _ _ _ (wp_send_request max n1 n2 hs fin h c A T H1 H2 Hfine Hw Hun)) as Hr.
    destruct (H3Send.send_request n1 n2 hs fin (h, c)) as [[i|e|] [h' c']]; [exact Hr| |done]. by destruct Hr as [?|[-> _]].
  - intros (H1 & H2 & Hfine & Hne). pose proof (run_of _ _ _ _ (wp_send_response max n1 n2 i hs priority fin h c A T H1 H2 Hfine Hw)) as Hr.
    destruct (H3Send.send_response_with_priority n1 n2 i hs priority fin (h, c)) as [[[]|e|] [h' c']]; [exact Hr| |done].
    destruct Hr as [?|[Hb _]]; [done|]. by destruct Hb; apply Hne.
  - intros [Hb Hl]. pose proof (run_of _ _ _ _ (wp_send_body max i body fin h c A T Hb Hl Hw)) as Hr.
    destruct (H3Send.send_body i body fin (h, c)) as [[n|e|] [h' c']]; [apply Hr|exact Hr|done].
  - intros Hid. pose proof (run_of _ _ _ _ (wp_send_goaway max id h c A T Hid Hw)) as Hr.
    by destruct (H3Send.send_goaway id (h, c)) as [[] [h' c']].
  - intros Hid. pose proof (run_of _ _ _ _ (wp_send_priority_update max i priority h c A T Hid Hw)) as Hr.
    by destruct (H3Send.send_priority_update_for_request i priority (h, c)) as [[] [h' c']].
  - intros Hwk. by eapply spoken_worked.
Qed.

Lemma h3_start_ok config w : start config w → 0 <= limit config ∧ world_ok (limit config) w.
Proof.
  intros [n1 n2 n3 c h c' Hf Hm Hn Hc Hrun]. split; [done|].
  pose proof (run_of _ _ _ _ (wp_with_transport (limit config) n1 n2 n3 config c Hf eq_refl Hn Hc)) as Hr. by rewrite Hrun in Hr.
Qed.

Lemma steps_ok max w w' : 0 <= max → rtc step w w' → world_ok max w → world_ok max w'.
Proof. intros Hm. induction 1 as [w|w w1 w2 [o Ho] _ IH]; [done|]. intros Hw. by apply IH, step_ok. Qed.

Lemma h3_reachable_ok config w : reachable config w → 0 <= limit config ∧ world_ok (limit config) w.
Proof. intros (w0 & Hstart & Hsteps). destruct (h3_start_ok _ _ Hstart) as [Hm Hw]. split; [done|]. by eapply steps_ok. Qed.

(** C7. HTTP/3 delivery does not depend on how the bytes arrive.  In every run of
    an HTTP/3 connection (calls of the application and the transport's work in
    any order, the stream read in pieces of any size), what the application was
    given from a request stream, header lists and body bytes in order, is what
    the reference parser [scan] finds in all the bytes read from that stream
    taken at once, up to one frame that is still being read. *)
Theorem h3_delivery config w i : reachable config w → is_bidi i = true →
  ∃ outs rest, scan (history i (wc w)) = outs ++ rest ∧ (length rest <= 1)%nat ∧ wlog w i = view (limit config) outs.
Proof. intros Hr Hi. destruct (h3_reachable_ok _ _ Hr) as [_ [(_ & _ & Hs & _) _]]. by eapply settled_slot. Qed.

(** C12. Whatever the peer sends, [poll] and [recv_body] end without a panic:
    with fuel for three turns per byte that can be read, neither runs out, the
    slice bounds hold and the code marked unreachable is not reached. *)
Theorem h3_calls_end config w fuel : reachable config w → enough fuel (wc w) →
  (H3Conn.poll fuel (wh w, wc w)).1 ≠ Panic ∧ ∀ i n, (H3Conn.recv_body fuel i n (wh w, wc w)).1 ≠ Panic.
Proof.
  intros Hr Hf. destruct (h3_reachable_ok _ _ Hr) as [Hm [Hinv _]]. split.
  - pose proof (run_of _ _ _ _ (wp_poll _ Hm _ fuel _ _ _ Hinv Hf)) as Hp. by destruct (H3Conn.poll fuel _) as [[] ?].
  - intros i n. pose proof (run_of _ _ _ _ (wp_recv_body _ Hm _ fuel i n _ _ _ Hinv Hf)) as Hp. by destruct (H3Conn.recv_body fuel i n _) as [[] ?].
Qed.

(** C13. What is sent on a request stream is always a sequence of whole frames
    that say what the application asked to send, in that order: GREASE frames
    say nothing, each HEADERS frame holds the encoding of a list of headers and
    each DATA frame the bytes that [send_body] reported as written. *)
Theorem h3_sends_frames config w i : reachable config w → is_bidi i = true →
  ∃ fs, sent i (wc w) = wires fs ∧ Forall frame_fine fs ∧ said fs (wscript w i).
Proof. intros Hr Hi. destruct (h3_reachable_ok _ _ Hr) as [_ [_ Hy]]. by apply Hy. Qed.
End world.

(** ** Two endpoints *)
Section endpoints.
Context {C1 : Type} {HT1 : Transport C1} {HG1 : TransportGhost C1} {HL1 : TransportLaws C1}.
Context {C2 : Type} {HT2 : Transport C2} {HG2 : TransportGhost C2} {HL2 : TransportLaws C2}.

Lemma ends_agree config1 config2 (w1 : world C1) (w2 : world C2) i :
  reachable config1 w1 → reachable config2 w2 → is_bidi i = true → history i (wc w2) `prefix_of` sent i (wc w1) →
  Forall (within (limit config2)) (wscript w1 i) →
  wlog w2 i `prefix_of` received_item <$> wscript w1 i ∧
  (history i (wc w2) = sent i (wc w1) → (length (wscript w1 i) <= length (wlog w2 i) + 1)%nat).
Proof.
  intros H1 H2 Hi Hpre Hw. destruct (h3_reachable_ok _ _ H1) as [_ [_ Hy]]. destruct (Hy i Hi) as (fs & Hsent & Hfine & Hsaid).
  destruct (h3_reachable_ok _ _ H2) as [Hm [(_ & _ & Hs & _) _]]. destruct (settled_slot _ _ _ _ _ (Hs i) Hi) as (outs & rest & Hscan & Hlen & Hlog).
  cbn [fst snd] in *. pose proof (closed_wires fs Hfine) as Hc. pose proof (closed_bytes _ _ Hc) as Hb.
  assert (scan (wires fs) = outs_from fs) as Hall.
  { pose proof (scan_closed _ _ [] Hc) as Hsc. rewrite !app_nil_r in Hsc. apply Hsc. constructor. }
  pose proof (view_said _ _ _ Hm Hsaid Hw) as Hview. rewrite Hlog, <- Hview. rewrite Hsent in *. split.
  - apply view_prefix. rewrite <- Hall. destruct Hpre as [k Hk]. rewrite Hk in *. etrans; [|by apply scan_mono]. rewrite Hscan. by apply prefix_app_r.
  - intros Heq. rewrite Heq, Hall in Hscan. rewrite <- (length_fmap received_item), <- Hview, Hscan, view_app, length_app.
    assert (length (view (limit config2) rest) <= 1)%nat; [|lia]. destruct rest as [|o [|]]; [cbn; lia| |cbn in Hlen; lia].
    rewrite view_one. destruct o as [ty p|b]; cbn; [|lia]. case_match; [|cbn; lia]. by case_match; cbn; lia.
Qed.

(** C6. HTTP/3 end to end.  When what an endpoint has read from a request stream
    is a prefix of what its peer has sent on it, as QUIC guarantees, its
    application has been given a prefix of what the peer's application sent,
    header names in lower case, provided the lists of headers are within its
    limit; and when everything sent was read, at most one item is missing. *)
Theorem h3_end_to_end config1 config2 (w1 : world C1) (w2 : world C2) i :
  reachable config1 w1 → reachable config2 w2 → is_bidi i = true → history i (wc w2) `prefix_of` sent i (wc w1) →
  Forall (within (limit config2)) (wscript w1 i) →
  wlog w2 i `prefix_of` received_item <$> wscript w1 i ∧
  (history i (wc w2) = sent i (wc w1) → (length (wscript w1 i) <= length (wlog w2 i) + 1)%nat).
Proof. apply ends_agree. Qed.
End endpoints.

(** ** A request with a body *)

Section fuel.
Context {C : Type} {HT : Transport C} {HG : TransportGhost C} {HL : TransportLaws C}.

(** Receiving leaves less to read, so that fuel that was enough stays enough. *)
Lemma enough_after (config : H3Conn.Config.t) (w : world C) o fuel n : reachable config w → allowed o w → enough fuel (wc w) →
  (∃ f, o = Poll f) ∨ (∃ f i, o = RecvBody f i n) → enough fuel (wc (exec o w)).
Proof.
  intros Hr Ha Hf Ho. destruct (h3_reachable_ok _ _ Hr) as [Hm [Hinv _]]. destruct w as [h c A T]. cbn [wh wc wlog wscript fst snd] in *.
  destruct Ho as [[f ->]|(f & i & ->)]; cbn [allowed exec wh wc] in *.
  - pose proof (run_of _ _ _ _ (wp_poll _ Hm _ f h c A Hinv Ha)) as Hp.
    destruct (H3Conn.poll f (h, c)) as [[ev|e|] [h' c']]; [..|done]; destruct Hp as [_ Hl]; by eapply enough_less.
  - destruct Ha as [Ha _]. pose proof (run_of _ _ _ _ (wp_recv_body _ Hm _ f i n h c A Hinv Ha)) as Hp.
    destruct (H3Conn.recv_body f i n (h, c)) as [[got|e|] [h' c']]; [destruct Hp as [_ Hl]|destruct Hp as (? & [_ Hl] & _)|done]; by eapply enough_less.
Qed.

Lemma reachable_t_ok (config : H3Conn.Config.t) (w : world C) : reachable config w → t_ok (wc w).
Proof. intros Hr. destruct (h3_reachable_ok _ _ Hr) as [_ [Hinv _]]. apply Hinv. Qed.

Lemma reachable_exec (config : H3Conn.Config.t) (w : world C) o : reachable config w → allowed o w → reachable config (exec o w).
Proof. intros (w0 & Hs & Hw) Ho. exists w0. split; [done|]. by eapply rtc_r; [|constructor]. Qed.
End fuel.

Module Demo.
Definition config : H3Conn.Config.t := H3Conn.Config.mk (Some 1000) None None None None.
Definition pipe (server : bool) : Pipe.t := Pipe.mk server false (λ _, []) (λ _, false) (λ _, []) (λ _, []) 1000 [].

Definition opened (server : bool) : world Pipe.t :=
  match H3Send.with_transport 1 2 3 config (pipe server) with
  | (Ok h, c) => World h c (λ _, []) (λ _, [])
  | (_, c) => World (H3Conn.new config server false) c (λ _, []) (λ _, [])
  end.

Lemma opened_reachable server : reachable config (opened server).
Proof.
  exists (opened server). split; [|apply rtc_refl].
  assert (match (H3Send.with_transport 1 2 3 config (pipe server)).1 with Ok _ => true | _ => false end = true) as Hok by (destruct server; by vm_compute).
  unfold opened. destruct (H3Send.with_transport 1 2 3 config (pipe server)) as [[h|e|] c] eqn:Hrun; [|discriminate Hok..]. clear Hok.
  eapply (start_with config 1 2 3 _ h c); [..|exact Hrun].
  - split; [|done]. split; [by intros; constructor|by cbn].
  - by vm_compute.
  - by vm_compute.
  - intros g srv dgram Hg. split; [split|].
    + destruct Hg as [-> | ->]; by destruct dgram; vm_compute.
    + assert (settings_ok (H3Frame.mk_settings (Some 1000) None None None (if dgram then Some 1 else None) g None None)) as Hok; [|exact Hok].
      destruct Hg as [-> | ->]; destruct dgram; by apply (bool_decide_unpack (settings_ok _)).
    + destruct Hg as [-> | ->]; by destruct dgram; vm_compute.
Qed.

(** The client sends a request and its body. *)
Definition request : list Header.t := [Header.mk (msg ":method") (msg "GET"); Header.mk (msg "X-Foo") (msg "bar")].
Definition client1 : world Pipe.t := exec (SendRequest 4 5 request false) (opened false).
Definition client2 : world Pipe.t := exec (SendBody 0 [1; 2; 3] true) client1.

Lemma request_fine : headers_fine request.
Proof.
  split; [|split; vm_compute; discriminate].
  repeat (apply Forall_cons; split; [split; (split; [apply (bool_decide_unpack (bytes_ok _)); by vm_compute|vm_compute; discriminate])|]). constructor.
Qed.

Lemma client1_reachable : reachable config client1.
Proof.
  apply reachable_exec; [apply opened_reachable|]. cbn [allowed].
  split_and!; [by split|by split|apply request_fine|unfold unopened; by vm_compute|]. intros Hrun. vm_compute in Hrun. discriminate.
Qed.

Lemma client2_reachable : reachable config client2.
Proof.
  apply reachable_exec; [apply client1_reachable|]. cbn [allowed]. split; [|split; vm_compute; discriminate].
  apply (bool_decide_unpack (bytes_ok _)). by vm_compute.
Qed.

(** The server, to which the transport has brought the first [n] of all the
    bytes of the stream, or all of them and its end. *)
Definition arrived (all : list Z) (n : Z) (w : world Pipe.t) : op Pipe.t :=
  let p := wc w in
  Work (Pipe.mk (Pipe.is_server p) (Pipe.failed p) (λ j, if j =? 0 then zdrop (zlen (Pipe.taken p 0)) (ztake n all) else [])
    (λ j, (j =? 0) && (zlen all <=? n)) (Pipe.taken p) (Pipe.written p) (Pipe.room p) [0]).
Definition server1 : world Pipe.t := exec (arrived (sent 0 (wc client2)) 30 (opened true)) (opened true).
Definition server2 : world Pipe.t := exec (Poll 1000) server1.
Definition server3 : world Pipe.t := exec (arrived (sent 0 (wc client2)) 1000 server2) server2.
Definition server4 : world Pipe.t := exec (Poll 1000) server3.
Definition server5 : world Pipe.t := exec (Poll 1000) server4.
Definition server6 : world Pipe.t := exec (RecvBody 1000 0 2) server5.
Definition server7 : world Pipe.t := exec (RecvBody 1000 0 10) server6.

Lemma arrived_allowed all n w : bytes_ok all → t_ok (wc w) → (∀ j, Pipe.fin (wc w) j = false) → allowed (arrived all n w) w.
Proof.
  intros Hb [_ Hroom] Hfin. cbn [allowed arrived]. split.
  - split; [|exact Hroom]. intros j. cbn. destruct (j =? 0); [|constructor]. by apply Forall_drop, Forall_take.
  - intros j. split_and!; [done|done|]. intros [Hf _]. by rewrite Hfin in Hf.
Qed.
Lemma arrived_enough all n w : zlen all <= 100 → enough 1000 (wc (exec (arrived all n w) w)).
Proof.
  intros Hl i. destruct w as [h c A T]. cbn. destruct (i =? 0); [|change (zlen []) with 0; lia].
  unfold zdrop, ztake, zlen in *. rewrite length_drop, length_take. lia.
Qed.

Lemma sent_fine : bytes_ok (sent 0 (wc client2)) ∧ zlen (sent 0 (wc client2)) <= 100.
Proof. split; [apply (bool_decide_unpack (bytes_ok _)); by vm_compute|vm_compute; discriminate]. Qed.

Lemma server1_reachable : reachable config server1.
Proof.
  apply reachable_exec; [apply opened_reachable|]. apply arrived_allowed; [apply sent_fine|split; [|by vm_compute]|].
  - intros j. assert (Pipe.inbox (wc (opened true)) = λ _, []) as -> by (by vm_compute). constructor.
  - intros j. assert (Pipe.fin (wc (opened true)) = λ _, false) as -> by (by vm_compute). done.
Qed.
Lemma server2_reachable : reachable config server2.
Proof. apply reachable_exec; [apply server1_reachable|]. apply arrived_enough, sent_fine. Qed.
Lemma server3_reachable : reachable config server3.
Proof.
  pose proof server2_reachable as Hr. apply reachable_exec; [done|]. apply arrived_allowed; [apply sent_fine|..].
  - by apply (reachable_t_ok config).
  - intros j. assert (Pipe.fin (wc server2) = λ j, (j =? 0) && (zlen (Pipe.written (wc client2) 0) <=? 30)) as -> by (vm_compute; reflexivity).
    assert (zlen (Pipe.written (wc client2) 0) <=? 30 = false) as -> by (by vm_compute). apply andb_false_r.
Qed.
Lemma server4_reachable : reachable config server4.
Proof. apply reachable_exec; [apply server3_reachable|]. apply arrived_enough, sent_fine. Qed.
Lemma server4_enough : enough 1000 (wc server4).
Proof. apply (enough_after config server3 (Poll 1000) 1000 0); [apply server3_reachable|apply arrived_enough, sent_fine|apply arrived_enough, sent_fine|by left; exists 1000%nat]. Qed.

Lemma server5_reachable : reachable config server5.
Proof. apply reachable_exec; [apply server4_reachable|apply server4_enough]. Qed.
Lemma server5_enough : enough 1000 (wc server5).
Proof. apply (enough_after config server4 (Poll 1000) 1000 0); [apply server4_reachable|apply server4_enough|apply server4_enough|by left; exists 1000%nat]. Qed.

Lemma server6_allowed : allowed (RecvBody 1000 0 2) server5.
Proof. split; [apply server5_enough|]. intros e He. vm_compute in He. discriminate. Qed.
Lemma server6_reachable : reachable config server6.
Proof. apply reachable_exec; [apply server5_reachable|apply server6_allowed]. Qed.
Lemma server6_enough : enough 1000 (wc server6).
Proof.
  apply (enough_after config server5 (RecvBody 1000 0 2) 1000 2); [apply server5_reachable|apply server6_allowed|apply server5_enough|].
  right. by exists 1000%nat, 0.
Qed.
Lemma server7_reachable : reachable config server7.
Proof.
  apply reachable_exec; [apply server6_reachable|]. split; [apply server6_enough|]. intros e He. vm_compute in He. discriminate.
Qed.
End Demo.

Lemma h3_delivery_witness :
  wlog Demo.server7 0 = [IHeaders (lower <$> Demo.request); IBody 1; IBody 2; IBody 3] ∧
  ∃ outs rest, scan (history 0 (wc Demo.server7)) = outs ++ rest ∧ (length rest <= 1)%nat ∧ wlog Demo.server7 0 = view (limit Demo.config) outs.
Proof. split; [vm_compute; reflexivity|]. apply (h3_delivery Demo.config); [apply Demo.server7_reachable|reflexivity]. Defined.

Lemma h3_calls_end_witness : (H3Conn.poll 1000 (wh Demo.server6, wc Demo.server6)).1 ≠ Panic.
Proof. apply (h3_calls_end Demo.config Demo.server6 1000); [apply Demo.server6_reachable|apply Demo.server6_enough]. Defined.

Lemma h3_sends_frames_witness :
  ∃ fs, sent 0 (wc Demo.client2) = wires fs ∧ Forall frame_fine fs ∧ said fs [inl Demo.request; inr 1; inr 2; inr 3].
Proof. apply (h3_sends_frames Demo.config Demo.client2 0); [apply Demo.client2_reachable|reflexivity]. Defined.

Lemma h3_end_to_end_witness :
  wlog Demo.server7 0 `prefix_of` received_item <$> wscript Demo.client2 0 ∧
  (history 0 (wc Demo.server7) = sent 0 (wc Demo.client2) → (length (wscript Demo.client2 0%Z) <= length (wlog Demo.server7 0%Z) + 1)%nat).
Proof.
  apply (h3_end_to_end Demo.config Demo.config); [apply Demo.client2_reachable|apply Demo.server7_reachable|reflexivity| |].
  - exists []. rewrite app_nil_r. vm_compute. reflexivity.
  - assert (wscript Demo.client2 0 = [inl Demo.request; inr 1; inr 2; inr 3]) as -> by (vm_compute; reflexivity).
    repeat constructor. vm_compute. discriminate.
Defined.
