(* ===== verification/H3Moves.v ===== *)
(** * What HTTP/3 does to its transport

    Every function of the HTTP/3 connection acts on the transport through the
    transport's methods: a relation that all of them keep is kept by every call
    of the application, whatever its arguments and whatever it returns. *)
From stdpp Require Import gmap.
From S2P Require Import Prelude OctetsLib QpackCodec Streams ConnStreams ConnTouch H3Frames H3Streams H3Conn H3Inv H3Run H3Send H3Sent H3World.

(** The methods that change the transport keep [R]. *)
Class Respects {C : Type} `{Transport C} (R : C → C → Prop) := {
  rs_preorder :: PreOrder R;
  rs_recv i cap : stays R (stream_recv i cap);
  rs_send i bytes fin : stays R (stream_send i bytes fin);
  rs_close app err reason : stays R (conn_close app err reason);
  rs_writable i n : stays R (stream_writable i n);
  rs_shutdown i dir err : stays R (stream_shutdown i dir err);
  rs_priority i urgency incremental : stays R (stream_priority i urgency incremental)
}.

Create HintDb moves.

Section moves.
Context {C : Type} `{Transport C} (R : C → C → Prop) `{!Respects R}.

(** On the transport beside the HTTP/3 state. *)
Definition via {X : Type} (s s' : X * C) : Prop := R s.2 s'.2.
#[export] Instance via_preorder X : PreOrder (via (X := X)).
Proof. split; [intros s; unfold via; reflexivity|]. intros s1 s2 s3 H1 H2. unfold via in *. by etrans. Qed.

Lemma via_stream_conn {A} (m : M C Prelude.Error A) : stays R m → stays via (H3Stream.on_conn m).
Proof. intros Hm [s c]. specialize (Hm c). unfold pp, H3Stream.on_conn in *. by destruct (m c) as [[] ?]. Qed.
Lemma via_stream_self {A} (m : M H3Stream.t H3.Error A) : stays (via (X := H3Stream.t)) (H3Stream.on_self m).
Proof. intros [s c]. unfold pp, H3Stream.on_self, via. destruct (m s) as [[] ?]; cbn; by reflexivity. Qed.
Lemma via_conn {A} (m : M C Prelude.Error A) : stays R m → stays via (H3Conn.on_conn m).
Proof. intros Hm [s c]. specialize (Hm c). unfold pp, H3Conn.on_conn in *. by destruct (m c) as [[] ?]. Qed.
Lemma via_self f : stays via (H3Conn.on_self (C := C) f).
Proof. apply stays_modify. intros [h c]. unfold via. cbn. reflexivity. Qed.
Lemma via_stream {A} i (m : M (H3Stream.t * C) H3.Error A) : stays via m → stays via (H3Conn.on_stream i m).
Proof.
  intros Hm [h c]. unfold pp, H3Conn.on_stream. destruct (H3Conn.streams h !! i) as [s|]; [|done]. specialize (Hm (s, c)). unfold pp in Hm.
  by destruct (m (s, c)) as [[] [? ?]].
Qed.
Lemma via_get_self : stays via (H3Conn.self (C := C)).
Proof. apply (stays_gets via). Qed.
Lemma via_get_conn : stays via (H3Conn.conn (C := C)).
Proof. apply (stays_gets via). Qed.
#[local] Hint Resolve via_stream_self via_self via_get_self via_get_conn : moves.
#[local] Hint Resolve rs_recv rs_send rs_close rs_writable rs_shutdown rs_priority : moves.

Ltac moves := repeat first [progress intros|apply _|solve [eauto 3 with moves]|apply (stays_ret via)|apply (stays_fail via)|apply (stays_panic via)|apply (stays_get via)
  |apply (stays_lift via)|apply (stays_reads via)|apply stays_reads|apply (stays_bind via)|apply (stays_when via)|apply (stays_attempt via)|apply via_stream_conn|apply via_conn|apply via_stream
  |match goal with |- context [match ?x with _ => _ end] => destruct x end|progress cbv zeta].

(** *** Receiving *)
Lemma via_rearm n : stays via (H3Stream.recv_or_rearm (C := C) n).
Proof. unfold H3Stream.recv_or_rearm. moves. Qed.
#[local] Hint Resolve via_rearm : moves.
Lemma via_fill : stays via (H3Stream.try_fill_buffer (C := C)).
Proof. unfold H3Stream.try_fill_buffer. moves. Qed.
Lemma via_consume n : stays via (H3Stream.try_consume_data (C := C) n).
Proof. unfold H3Stream.try_consume_data. moves. Qed.
#[local] Hint Resolve via_fill via_consume : moves.
Lemma via_close_as {A} wire reason e : stays via (H3Conn.close_as (C := C) (A := A) wire reason e).
Proof. unfold H3Conn.close_as. moves. Qed.
#[local] Hint Resolve via_close_as : moves.
Lemma via_close {A} e reason : stays via (H3Conn.close (C := C) (A := A) e reason).
Proof. unfold H3Conn.close. moves. Qed.
#[local] Hint Resolve via_close : moves.
Lemma via_or_close {A} (m : M (H3Conn.t * C) H3.Error A) reason : stays via m → stays via (H3Conn.or_close m reason).
Proof. intros Hm. unfold H3Conn.or_close. moves. Qed.
#[local] Hint Resolve via_or_close via_stream : moves.
Lemma via_read_varint i : stays via (H3Conn.read_varint (C := C) i).
Proof. unfold H3Conn.read_varint. moves. Qed.
Lemma via_type_set i ty : stays via (H3Conn.on_type_set (C := C) i ty).
Proof. unfold H3Conn.on_type_set. moves. Qed.
#[local] Hint Resolve via_read_varint via_type_set : moves.
Lemma via_discard fuel i : stays via (H3Conn.discard (C := C) fuel i).
Proof. induction fuel; cbn [H3Conn.discard]; moves. Qed.
#[local] Hint Resolve via_discard : moves.
Lemma via_refuse ok wire reason e : stays via (H3Conn.refuse_unless (C := C) ok wire reason e).
Proof. unfold H3Conn.refuse_unless. moves. Qed.
#[local] Hint Resolve via_refuse : moves.
Lemma via_expected ok reason : stays via (H3Conn.expected (C := C) ok reason).
Proof. unfold H3Conn.expected. moves. Qed.
#[local] Hint Resolve via_expected : moves.
Lemma via_process_frame i f n : stays via (H3Conn.process_frame (C := C) i f n).
Proof.
  destruct f; cbn [H3Conn.process_frame]; unfold H3Conn.on_settings, H3Conn.on_headers, H3Conn.on_data_frame, H3Conn.on_goaway, H3Conn.on_max_push_id,
    H3Conn.on_push_promise, H3Conn.on_cancel_push, H3Conn.on_priority_update_request, H3Conn.on_priority_update_push; moves.
Qed.
#[local] Hint Resolve via_process_frame : moves.
Lemma via_read_state fuel i polling st : stays via (H3Conn.read_state (C := C) fuel i polling st).
Proof.
  destruct st; cbn [H3Conn.read_state]; unfold H3Conn.read_stream_type, H3Conn.read_push_id, H3Conn.read_frame_type, H3Conn.read_frame_payload_len,
    H3Conn.read_frame_payload, H3Conn.announce_data, H3Conn.drain; moves.
Qed.
#[local] Hint Resolve via_read_state : moves.
Lemma via_read_loop fuel i polling : stays via (H3Conn.read_loop (C := C) fuel i polling).
Proof. induction fuel; cbn [H3Conn.read_loop]; moves. Qed.
#[local] Hint Resolve via_read_loop : moves.
Lemma via_readable fuel i polling : stays via (H3Conn.process_readable_stream (C := C) fuel i polling).
Proof. unfold H3Conn.process_readable_stream. moves. Qed.
#[local] Hint Resolve via_readable : moves.
Lemma via_control fuel i : stays via (H3Conn.process_control_stream (C := C) fuel i).
Proof. unfold H3Conn.process_control_stream, H3Conn.closed_critical. moves. Qed.
#[local] Hint Resolve via_control : moves.
Lemma via_critical fuel o m : stays via m → stays via (H3Conn.first_critical (C := C) fuel o m).
Proof. intros Hm. unfold H3Conn.first_critical. moves. Qed.
Lemma via_pop : stays via (H3Conn.pop_finished (C := C)).
Proof. unfold H3Conn.pop_finished. moves. Qed.
#[local] Hint Resolve via_pop : moves.
Lemma via_poll_readable fuel ids : stays via (H3Conn.poll_readable (C := C) fuel ids).
Proof. induction ids; cbn [H3Conn.poll_readable]; moves. Qed.
Lemma via_last : stays via (H3Conn.last_finished (C := C)).
Proof. unfold H3Conn.last_finished. moves. Qed.
#[local] Hint Resolve via_poll_readable via_last : moves.
Lemma via_poll fuel : stays via (H3Conn.poll (C := C) fuel).
Proof. unfold H3Conn.poll. moves. all: repeat first [apply via_critical|progress moves]. Qed.
Lemma via_body_loop turns : ∀ fuel i n bytes, stays via (H3Conn.recv_body_loop (C := C) turns fuel i n bytes).
Proof. induction turns as [|turns IH]; intros fuel i n bytes; cbn [H3Conn.recv_body_loop]; moves. Qed.
#[local] Hint Resolve via_body_loop : moves.
Lemma via_recv_body fuel i n : stays via (H3Conn.recv_body (C := C) fuel i n).
Proof. unfold H3Conn.recv_body. moves. Qed.

(** *** Sending *)
Lemma via_send_ i bytes fin : stays via (H3Send.stream_send_ (C := C) i bytes fin).
Proof. unfold H3Send.stream_send_. moves. Qed.
Lemma via_capacity_ i : stays via (H3Send.stream_capacity_ (C := C) i).
Proof. unfold H3Send.stream_capacity_. apply via_conn, (stays_reads R). Qed.
Lemma via_want i n : stays via (H3Send.want_writable (C := C) i n).
Proof. unfold H3Send.want_writable. moves. Qed.
Lemma via_forget i : stays via (H3Send.forget_finished (C := C) i).
Proof. unfold H3Send.forget_finished. moves. Qed.
#[local] Hint Resolve via_send_ via_capacity_ via_want via_forget : moves.
Lemma via_or_forget {A} i (m : M (H3Conn.t * C) H3.Error A) : stays via m → stays via (H3Send.or_forget i m).
Proof. intros Hm. unfold H3Send.or_forget. moves. Qed.
#[local] Hint Resolve via_or_forget via_conn : moves.
Lemma via_grease_frames n1 n2 i : stays via (H3Send.send_grease_frames (C := C) n1 n2 i).
Proof. unfold H3Send.send_grease_frames. moves. Qed.
#[local] Hint Resolve via_grease_frames : moves.
Lemma via_send_headers n1 n2 i hs fin : stays via (H3Send.send_headers (C := C) n1 n2 i hs fin).
Proof. unfold H3Send.send_headers. moves. Qed.
#[local] Hint Resolve via_send_headers : moves.
Lemma via_send_request n1 n2 hs fin : stays via (H3Send.send_request (C := C) n1 n2 hs fin).
Proof. unfold H3Send.send_request. moves. Qed.
Lemma via_send_response n1 n2 i hs priority fin : stays via (H3Send.send_response_with_priority (C := C) n1 n2 i hs priority fin).
Proof. unfold H3Send.send_response_with_priority. moves. Qed.
Lemma via_send_body i body fin : stays via (H3Send.send_body (C := C) i body fin).
Proof. unfold H3Send.send_body. moves. Qed.
Lemma via_send_goaway id : stays via (H3Send.send_goaway (C := C) id).
Proof. unfold H3Send.send_goaway. moves. Qed.
Lemma via_send_priority i priority : stays via (H3Send.send_priority_update_for_request (C := C) i priority).
Proof. unfold H3Send.send_priority_update_for_request. moves. Qed.
Lemma via_open_uni ty : stays via (H3Send.open_uni_stream (C := C) ty).
Proof. unfold H3Send.open_uni_stream. moves. Qed.
#[local] Hint Resolve via_open_uni : moves.
Lemma via_open_streams n1 n2 n3 : stays via (H3Send.open_streams (C := C) n1 n2 n3).
Proof.
  unfold H3Send.open_streams, H3Send.send_settings, H3Send.open_qpack_encoder_stream, H3Send.open_qpack_decoder_stream, H3Send.open_grease_stream. moves.
Qed.

(** *** Runs *)

(** A call of the application, in a run. *)
Lemma exec_moves {HG : TransportGhost C} {HL : TransportLaws C} max (w : world C) (o : op C) : 0 <= max → world_ok max w → allowed o w →
  (∀ c, o ≠ Work c) → R (wc w) (wc (exec o w)).
Proof.
  intros Hmax Hw Ho Hnot. destruct w as [h c A T]. pose proof Hw as [Hinv Hy]. cbn [wh wc wlog wscript fst snd] in *.
  assert (∀ X (m : M (H3Conn.t * C) H3.Error X) Q QE, wp m Q QE (h, c) → stays via m → R c (m (h, c)).2.2) as Hgo.
  { intros X m Q QE Hwp Hm. specialize (Hm (h, c)). unfold wp, pp, via in *. destruct (m (h, c)) as [[a|e|] [h' c']]; [exact Hm|exact Hm|done]. }
  destruct o as [fuel|fuel i n|i|n1 n2 hs fin|n1 n2 i hs priority fin|i body fin|id|i priority|c']; cbn [allowed exec wh wc] in *; [..|by destruct (Hnot c')].
  - pose proof (Hgo _ _ _ _ (wp_poll max Hmax _ fuel h c A Hinv Ho) (via_poll fuel)) as Hr. by destruct (H3Conn.poll fuel (h, c)) as [? [? ?]].
  - destruct Ho as [Ho _]. pose proof (Hgo _ _ _ _ (wp_recv_body max Hmax _ fuel i n h c A Hinv Ho) (via_recv_body fuel i n)) as Hr.
    by destruct (H3Conn.recv_body fuel i n (h, c)) as [? [? ?]].
  - reflexivity.
  - destruct Ho as (H1 & H2 & Hfine & Hun & _). pose proof (Hgo _ _ _ _ (wp_send_request max n1 n2 hs fin h c A T H1 H2 Hfine Hw Hun) (via_send_request n1 n2 hs fin)) as Hr.
    by destruct (H3Send.send_request n1 n2 hs fin (h, c)) as [? [? ?]].
  - destruct Ho as (H1 & H2 & Hfine & _).
    pose proof (Hgo _ _ _ _ (wp_send_response max n1 n2 i hs priority fin h c A T H1 H2 Hfine Hw) (via_send_response n1 n2 i hs priority fin)) as Hr.
    by destruct (H3Send.send_response_with_priority n1 n2 i hs priority fin (h, c)) as [? [? ?]].
  - destruct Ho as [Hb Hl]. pose proof (Hgo _ _ _ _ (wp_send_body max i body fin h c A T Hb Hl Hw) (via_send_body i body fin)) as Hr.
    by destruct (H3Send.send_body i body fin (h, c)) as [? [? ?]].
  - pose proof (Hgo _ _ _ _ (wp_send_goaway max id h c A T Ho Hw) (via_send_goaway id)) as Hr. by destruct (H3Send.send_goaway id (h, c)) as [? [? ?]].
  - pose proof (Hgo _ _ _ _ (wp_send_priority_update max i priority h c A T Ho Hw) (via_send_priority i priority)) as Hr.
    by destruct (H3Send.send_priority_update_for_request i priority (h, c)) as [? [? ?]].
Qed.

(** Opening a connection over it. *)
Lemma start_moves n1 n2 n3 config (c : C) h c' : H3Send.with_transport n1 n2 n3 config c = (Ok h, c') → R c c'.
Proof.
  unfold H3Send.with_transport. destruct (_ && _); [done|]. pose proof (via_open_streams n1 n2 n3 (H3Conn.new config (conn_is_server c) (dgram_enabled c), c)) as Hm.
  unfold pp, via in Hm. destruct (H3Send.open_streams _ _ _ _) as [[[]|e|] [h1 c1]]; [|done..]. by intros [= <- <-].
Qed.
End moves.
