(* ===== verification/Quic.v ===== *)
(** * The QUIC connection as the transport of HTTP/3

    The state of a connection that HTTP/3 sees through the methods of
    [quiche::Connection]: the streams of [ConnStreams.v], closing the
    connection, and the datagram limits; what was read from each stream and
    written to it is recorded beside it.  It is an instance of the interface of
    [H3Streams.v]; that the interface's laws hold is [QuicLaws.v]. *)
From stdpp Require Import gmap.
From S2P Require Import Prelude Orders OctetsLib PktNum FlowCtl RangeBufs RecvBufs SendBufs Frames Params Streams ConnStreams ConnInv ConnOps ConnTouch QuicBuffers H3Frames H3Streams H3Inv.

(** [ConnectionError] *)
Module ConnectionError.
Record t := mk { is_app : bool; error_code : Z; reason : list Z }.
End ConnectionError.

(** Here a packet may take any stream off the queue of flushable streams. *)
#[export] Instance any_stuck : Stuck := λ _, True.
Lemma all_stuck (l : list Z) : Forall stuck l.
Proof. by apply Forall_true. Qed.

Module Quic.
Section quic.
Context `{RBTree} `{NetCoding}.

Record t := mk {
  conn : Conn.t;
  local_error : option ConnectionError.t;
  closed : bool;
  (** [draining_timer.is_some()], [handshake.is_in_early_data()] *)
  draining : bool;
  handshake_completed : bool;
  in_early_data : bool;
  recv_count : Z;
  grease : bool;
  (** of the active path: the congestion window that is left, the length of the
      peer's connection id, the largest UDP payload; and the overhead of the
      1-RTT keys, when they are there *)
  cwin_available : Z;
  dcid_len : Z;
  max_send_udp_payload_size : Z;
  crypto_overhead : option Z;
  (** what the calls have returned and accepted so far, and the frames that
      were sent *)
  taken : Z → list Z;
  written : Z → list Z;
  frames : list Frame.t;
  (** what the peer has written to each stream *)
  peer : Z → list Z
}.

Definition set_conn (c : Conn.t) (q : t) : t := mk c (local_error q) (closed q) (draining q) (handshake_completed q) (in_early_data q)
  (recv_count q) (grease q) (cwin_available q) (dcid_len q) (max_send_udp_payload_size q) (crypto_overhead q) (taken q) (written q) (frames q) (peer q).
Definition set_error (e : option ConnectionError.t) (q : t) : t := mk (conn q) e (closed q) (draining q) (handshake_completed q) (in_early_data q)
  (recv_count q) (grease q) (cwin_available q) (dcid_len q) (max_send_udp_payload_size q) (crypto_overhead q) (taken q) (written q) (frames q) (peer q).
Definition set_closed (b : bool) (q : t) : t := mk (conn q) (local_error q) b (draining q) (handshake_completed q) (in_early_data q)
  (recv_count q) (grease q) (cwin_available q) (dcid_len q) (max_send_udp_payload_size q) (crypto_overhead q) (taken q) (written q) (frames q) (peer q).

Definition set_frames (l : list Frame.t) (q : t) : t := mk (conn q) (local_error q) (closed q) (draining q) (handshake_completed q) (in_early_data q)
  (recv_count q) (grease q) (cwin_available q) (dcid_len q) (max_send_udp_payload_size q) (crypto_overhead q) (taken q) (written q) l (peer q).
Definition set_peer (f : Z → list Z) (q : t) : t := mk (conn q) (local_error q) (closed q) (draining q) (handshake_completed q) (in_early_data q)
  (recv_count q) (grease q) (cwin_available q) (dcid_len q) (max_send_udp_payload_size q) (crypto_overhead q) (taken q) (written q) (frames q) f.

Definition append (i : Z) (bytes : list Z) (f : Z → list Z) : Z → list Z := λ j, if j =? i then f j ++ bytes else f j.
Definition log_taken (i : Z) (bytes : list Z) (q : t) : t := mk (conn q) (local_error q) (closed q) (draining q) (handshake_completed q) (in_early_data q)
  (recv_count q) (grease q) (cwin_available q) (dcid_len q) (max_send_udp_payload_size q) (crypto_overhead q) (append i bytes (taken q)) (written q) (frames q) (peer q).
Definition log_written (i : Z) (bytes : list Z) (q : t) : t := mk (conn q) (local_error q) (closed q) (draining q) (handshake_completed q) (in_early_data q)
  (recv_count q) (grease q) (cwin_available q) (dcid_len q) (max_send_udp_payload_size q) (crypto_overhead q) (taken q) (append i bytes (written q)) (frames q) (peer q).

Definition on_conn {A} (m : M Conn.t Error A) : M t Error A := zoom conn set_conn m.

(** ** Closing *)

Definition is_established (q : t) : bool := handshake_completed q.
Definition is_in_early_data (q : t) : bool := in_early_data q.
Definition is_draining (q : t) : bool := draining q.
Definition is_closed (q : t) : bool := closed q.
Definition mark_closed : M t Error unit := modify (set_closed true).

Definition close (app : bool) (err : Z) (reason : list Z) : M t Error unit :=
  q ← get;
  if is_closed q || is_draining q then fail Done
  else if bool_decide (is_Some (local_error q)) then fail Done
  else
    let is_safe_to_send_app_data := is_established q || is_in_early_data q in
    (if app && negb is_safe_to_send_app_data
     then modify (set_error (Some (ConnectionError.mk false 0x0c [])))
     else modify (set_error (Some (ConnectionError.mk app err reason))));;
    when (recv_count q =? 0) mark_closed.

(** ** Datagrams *)

Definition dgram_max_writable_len (q : t) : option Z :=
  match TransportParams.max_datagram_frame_size (Conn.peer_transport_params (conn q)) with
  | None => None
  | Some peer_frame_len =>
      let max_len := max_send_udp_payload_size q in
      let max_len := saturating_sub max_len (1 + dcid_len q) in
      let max_len := saturating_sub max_len MAX_PKT_NUM_LEN in
      match crypto_overhead q with
      | None => None
      | Some overhead =>
          let max_len := saturating_sub max_len overhead in
          let max_len := Z.min peer_frame_len max_len in
          if 1 + MAX_DGRAM_OVERHEAD <=? max_len then Some (max_len - (1 + MAX_DGRAM_OVERHEAD)) else None
      end
  end.
Definition dgram_enabled (q : t) : bool :=
  bool_decide (is_Some (TransportParams.max_datagram_frame_size (Conn.local_transport_params (conn q)))).

(** ** Streams *)

(** A stream id is a [u64]. *)
Definition with_id {A} (i : Z) (m : M t Error A) : M t Error A :=
  if (0 <=? i) && (i <=? u64_max) then m else fail (InvalidStreamState i).

Definition recv (i cap : Z) : M t Error (list Z * bool) :=
  r ← on_conn (Conn.stream_recv i cap);
  modify (log_taken i r.1);;
  mret r.
Definition send (i : Z) (bytes : list Z) (fin : bool) : M t Error Z :=
  with_id i (
    n ← on_conn (Conn.stream_send i bytes fin);
    modify (log_written i (ztake n bytes));;
    mret n).
Definition shutdown (i : Z) (dir : Shutdown) (err : Z) : M t Error unit :=
  q ← get;
  on_conn (Conn.stream_shutdown (cwin_available q) i dir err).
Definition priority (i urgency : Z) (incremental : bool) : M t Error unit :=
  with_id i (on_conn (Conn.stream_priority i urgency incremental)).
Definition readable (q : t) : list Z := StreamIter.streams (StreamMap.readable_iter (Conn.streams (conn q))).

#[export] Instance transport : Transport t := {
  conn_is_server q := Conn.is_server (conn q);
  conn_failed q := bool_decide (is_Some (local_error q));
  conn_close := close;
  stream_recv := recv;
  stream_send := send;
  stream_capacity i q := Conn.stream_capacity i (conn q);
  stream_writable i n := on_conn (Conn.stream_writable i n);
  stream_readable i q := Conn.stream_readable i (conn q);
  stream_finished i q := Conn.stream_finished i (conn q);
  stream_shutdown := shutdown;
  stream_priority := priority;
  max_streams_bidi q := StreamMap.max_streams_bidi (Conn.streams (conn q));
  is_collected i q := StreamMap.is_collected i (Conn.streams (conn q));
  readable := readable;
  dgram_max_writable_len := dgram_max_writable_len;
  dgram_enabled := dgram_enabled;
  conn_ready q := is_established q || is_in_early_data q;
  conn_grease := grease
}.

(** ** What the laws speak of *)

(** The buffers agree with the bytes that the peer wrote, that were read and
    that were written, and the counter of queued bytes has room. *)
Definition fine (s tk wr : list Z) (b : RecvBuf.t * SendBuf.t) : Prop :=
  got b.1 s tk ∧ queued b.2 wr ∧ SendBuf.len b.2 <= 2 ^ 63 + SendBuf.off b.2.
(** The stream limits that the peer set and that we set. *)
Definition limits_ok (c : Conn.t) : Prop :=
  (∀ b, limit true b (Conn.streams c) <= 2 ^ 60) ∧ 0 <= limit false true (Conn.streams c) <= 2 ^ 60.
Definition touched (i : Z) (c : Conn.t) : Prop := is_Some (stream_at i c) ∨ collected_at i c.

Record quic_ok (q : t) : Prop := {
  q_wf : conn_wf (conn q);
  q_fine i b : stream_at i (conn q) = Some b → fine (peer q i) (taken q i) (written q i) b;
  q_limits : limits_ok (conn q);
  (** Only a stream that exists, or did, was read or written. *)
  q_logs i : touched i (conn q) ∨ taken q i = [] ∧ written q i = [];
  (** What was read is part of what the peer wrote. *)
  q_taken i : taken q i `prefix_of` peer q i;
  q_cwin : 0 <= cwin_available q;
  q_sent : Forall (λ f, was_sent f (conn q)) (frames q)
}.

(** Nothing more will be read from the stream. *)
Definition finished_at (i : Z) (c : Conn.t) : Prop :=
  collected_at i c ∨ ∃ b, stream_at i c = Some b ∧ RecvBuf.is_fin b.1 = true.
Definition backlog_at (i : Z) (c : Conn.t) : Z := match stream_at i c with Some b => weight (RecvBuf.data b.1) | None => 0 end.
(** The next [n] bytes will be taken. *)
Definition takes_at (i n : Z) (c : Conn.t) : Prop := Conn.is_uni_remote i c = false ∧ n <= Conn.tx_cap c ∧
  ∃ b, stream_at i c = Some b ∧ SendBuf.error b.2 = None ∧ SendBuf.fin_off b.2 = None ∧ n <= SendBuf.max_data b.2 - SendBuf.off b.2.

#[export] Instance ghost : TransportGhost t := {
  t_ok := quic_ok;
  history i q := taken q i;
  backlog i q := backlog_at i (conn q);
  over i q := finished_at i (conn q);
  sent i q := written q i;
  takes i n q := takes_at i n (conn q)
}.
End quic.
End Quic.
