(* ===== verification/QuicLaws.v ===== *)
(** * QUIC keeps the laws of the transport

    Each method of [Quic.v] does what [TransportLaws] asks: the invariant of
    the connection's calls ([ConnOps.v]) gives that they do not panic, their
    footprints ([ConnTouch.v]) that the other streams are left alone. *)
From stdpp Require Import gmap.
From S2P Require Import Prelude Orders OctetsLib FlowCtl RangeBufs RecvBufs SendBufs Frames Params Streams ConnStreams ConnInv ConnOps ConnTouch QuicBuffers H3Frames H3Streams H3Inv Quic.

Section laws.
Context `{RBTree} `{NetCoding}.
Implicit Types (c : Conn.t) (q : Quic.t).
Import Quic.

(** ** From footprints to the laws *)

Lemma stream_at_some i c b : stream_at i c = Some b → ∃ s, StreamMap.streams (Conn.streams c) !! i = Some s ∧ b = buffers s.
Proof. unfold stream_at. intros (s & Hs & ->)%fmap_Some. by exists s. Qed.
Lemma stream_at_wf i c b : conn_wf c → stream_at i c = Some b → recv_wf b.1 ∧ send_wf b.2 ∧ SendBuf.max_data b.2 <= varint_max.
Proof.
  intros Hwf (s & Hs & ->)%stream_at_some. destruct (co_stream _ _ _ Hwf _ _ Hs) as [[Hr Hsend Hm _ _] _].
  split_and!; [done|by eapply send_wf_flags|done].
Qed.
Lemma touched_same i c c' : same_at i c c' → touched i c → touched i c'.
Proof. intros [E Ec] [Ht|Ht]; [left; by rewrite E|right; by apply Ec]. Qed.
Lemma finished_same i c c' : same_at i c c' → finished_at i c → finished_at i c'.
Proof. intros [E Ec] [Ht|Ht]; [left; by apply Ec|right; by rewrite E]. Qed.
Lemma backlog_same i c c' : same_at i c c' → backlog_at i c' = backlog_at i c.
Proof. intros [E _]. unfold backlog_at. by rewrite E. Qed.
Lemma limits_fixed c c' : fixed c c' → limits_ok c → limits_ok c'.
Proof. intros [_ Hl] [H1 H2]. split; [intros b|]; by rewrite Hl. Qed.

Lemma backlog_at_nonneg i c : conn_wf c → 0 <= backlog_at i c.
Proof.
  intros Hwf. unfold backlog_at. destruct (stream_at i c) as [b|] eqn:Hb; [|done].
  destruct (stream_at_wf _ _ _ Hwf Hb) as (Hr & _). by apply weight_nonneg, lens_of.
Qed.

(** Only the logs of [i] change. *)
Definition beside i q q' : Prop := peer q' = peer q ∧ cwin_available q' = cwin_available q ∧ frames q' = frames q ∧
  ∀ j, j ≠ i → taken q' j = taken q j ∧ written q' j = written q j.

(** A call that touched only the stream [i]. *)
Lemma ok_after i q q' : quic_ok q → beside i q q' → kept (conn q) (conn q') → only i (conn q) (conn q') →
  (∀ b, stream_at i (conn q') = Some b → fine (peer q i) (taken q' i) (written q' i) b) →
  touched i (conn q') ∨ taken q' i = [] ∧ written q' i = [] → taken q' i `prefix_of` peer q i → quic_ok q'.
Proof.
  intros [Hwf Hf Hl Hlogs Ht Hw Hfr] (Ep & Ew & Efr & Hj') [Hwf' Hev] [Hfix Hj] Hi Hti Hpre.
  constructor; rewrite ?Ep, ?Ew, ?Efr; try done.
  - intros j b E. destruct (decide (j = i)) as [-> |Hne]; [by apply Hi|]. destruct (Hj j Hne) as [E' _], (Hj' j Hne) as [-> ->]. apply (Hf j). by rewrite <- E'.
  - by eapply limits_fixed.
  - intros j. destruct (decide (j = i)) as [-> |Hne]; [done|]. destruct (Hj' j Hne) as [-> ->]. destruct (Hlogs j); [left|by right]. eapply touched_same; [by apply Hj|done].
  - intros j. destruct (decide (j = i)) as [-> |Hne]; [done|]. by destruct (Hj' j Hne) as [-> _].
  - eapply Forall_impl; [exact Hfr|]. intros f. by apply was_sent_evolves.
Qed.
Lemma beside_same i q c' : beside i q (set_conn c' q).
Proof. by split_and!. Qed.

(** Nothing was read from [i] or written to it. *)
Definition unread_at i c c' : Prop := backlog_at i c' <= backlog_at i c ∧ (finished_at i c → finished_at i c').

Lemma unread_same i c c' : same_at i c c' → unread_at i c c'.
Proof. intros Hs. split; [rewrite (backlog_same _ _ _ Hs); lia|by apply finished_same]. Qed.

Lemma quiet_after i q c' : quic_ok q → kept (conn q) c' → only i (conn q) c' →
  (∀ b, stream_at i c' = Some b → fine (peer q i) (taken q i) (written q i) b) →
  (touched i (conn q) → touched i c') → unread_at i (conn q) c' → quiet q (set_conn c' q).
Proof.
  intros Hok Hwf' Ho Hf Ht Hu. split.
  - apply (ok_after i q); [done|apply beside_same|done..| |apply Hok]. destruct (q_logs _ Hok i); [left; by apply Ht|by right].
  - intros j. split; [|done].
    assert (unread_at j (conn q) c') as [Hb Hov]; [|by split_and!].
    destruct (decide (j = i)) as [-> |Hne]; [done|]. apply unread_same. by apply (proj2 Ho).
Qed.

Lemma quiet_still q c' : quic_ok q → kept (conn q) c' → still (conn q) c' → quiet q (set_conn c' q).
Proof.
  intros Hok Hwf' Hs. pose proof Hs as (_ & _ & Hj). apply (quiet_after 0); [done|done|by apply still_only|..].
  - intros b Hb. destruct (Hj 0) as [E _]. apply (q_fine _ Hok 0). by rewrite <- E.
  - by apply touched_same.
  - by apply unread_same.
Qed.

Lemma set_conn_same q : set_conn (conn q) q = q.
Proof. by destruct q. Qed.
Lemma quiet_same q : quic_ok q → quiet q q.
Proof. intros Hok. exact (quiet_refl q Hok). Qed.

(** ** Reading *)

(** A stream that is new, or as it was. *)
Lemma ended_at i c1 c' rb sb : stream_at i c1 = Some (rb, sb) → ended i c1 c' →
  (∀ b, stream_at i c' = Some b → b = (rb, sb)) ∧ touched i c' ∧ backlog_at i c' <= Z.max 0 (weight (RecvBuf.data rb)) ∧
  (collected_at i c1 ∨ RecvBuf.is_fin rb = true → finished_at i c').
Proof.
  intros H1 (_ & _ & [Hs|[Hn Hc]]).
  - pose proof Hs as [E Ec]. rewrite H1 in E. split_and!.
    + intros b Hb. congruence.
    + left. by rewrite E.
    + unfold backlog_at. rewrite E. cbn. lia.
    + intros [?|?]; [left; by apply Ec|right]. exists (rb, sb). by rewrite E.
  - split_and!; [intros b Hb; congruence|by right|unfold backlog_at; rewrite Hn; lia|intros _; by left].
Qed.

Lemma ended_only i c s c' : ended i (put_stream i s c) c' → only i c c'.
Proof. intros [Ho _]. etrans; [apply put_only|exact Ho]. Qed.

Lemma append_same i bytes f : append i bytes f i = f i ++ bytes.
Proof. unfold append. by rewrite Z.eqb_refl. Qed.
Lemma append_other i j bytes f : j ≠ i → append i bytes f j = f j.
Proof. intros Hj. unfold append. by rewrite (proj2 (Z.eqb_neq _ _) Hj). Qed.

(** The state after [emit] ran, and what came of it. *)
Lemma read_after i cap q c' r : quic_ok q → kept (conn q) c' → 0 <= cap → read_from i cap (conn q) c' r →
  only i (conn q) c' ∧ unread_at i (conn q) c' ∧
  (∀ out fin, r = Ok (out, fin) → quic_ok (log_taken i out (set_conn c' q)) ∧
     backlog_at i c' + zlen out <= backlog_at i (conn q) ∧ (0 < cap → backlog_at i c' < backlog_at i (conn q)) ∧
     zlen out <= cap ∧ bytes_ok out ∧ (finished_at i (conn q) → out = [] ∧ finished_at i c')) ∧
  (∀ e, r = Err e → quiet q (set_conn c' q)).
Proof.
  intros Hok Hwf' Hcap (s & rb & Hs & Hready & Hrun & Hend). destruct (co_stream _ _ _ (q_wf _ Hok) _ _ Hs) as [[Hr _ _ _ _] _].
  assert (stream_at i (conn q) = Some (buffers s)) as Hat by (unfold stream_at; by rewrite Hs).
  destruct (q_fine _ Hok i _ Hat) as (Hg & Hq & Hl). cbn [fst snd buffers] in Hg, Hq, Hl.
  destruct (got_emit cap _ _ _ _ _ Hr Hready Hcap Hg (q_taken _ Hok i) Hrun) as (Hw & Hout & Herr & Hfin).
  destruct (ended_at i _ c' rb (SendBuf.set_blocked_at None (Stream.send s)) (put_at _ (Stream.set_recv rb s) _) Hend) as (Hb & Ht & Hback & Hover).
  pose proof (weight_nonneg _ (lens_of _ Hr)) as Hpos.
  assert (backlog_at i (conn q) = weight (RecvBuf.data (Stream.recv s))) as E by (unfold backlog_at; by rewrite Hat).
  assert (finished_at i (conn q) → RecvBuf.is_fin (Stream.recv s) = true) as Hfinished.
  { intros [Hc|(b & Hb' & Hf)]; [|rewrite Hat in Hb'; by injection Hb' as <-]. apply (mw_collected _ _ (co_map _ _ _ (q_wf _ Hok))) in Hc. congruence. }
  assert (unread_at i (conn q) c') as Hunread by (split; [lia|intros Hf; apply Hover; right; auto]).
  pose proof (ended_only _ _ _ _ Hend) as Ho. split_and!.
  - done.
  - done.
  - intros out fin ->. destruct (Hout _ _ eq_refl) as (? & ? & ? & Hnil & Hg' & Hpre & Hbytes). split_and!.
    + apply (ok_after i q); cbn; [done| |done|done| |by left|by rewrite append_same].
      * split_and!; [done..|]. intros j Hj. cbn. by rewrite append_other.
      * intros b ->%Hb. rewrite append_same. by split_and!.
    + pose proof (zlen_nonneg out); lia.
    + lia.
    + done.
    + done.
    + intros Hf. split; [auto|by apply Hunread].
  - intros e ->. apply (quiet_after i); [done|done|done| |done|done]. intros b ->%Hb. split_and!; [by apply (Herr e)|done|done].
Qed.

Lemma recv_lawful i cap q : quic_ok q → 0 <= cap →
  wp (recv i cap) (λ r q', moved i q q' r.1 ∧ zlen r.1 <= cap ∧ bytes_ok r.1 ∧ (0 < cap → backlog i q' < backlog i q)) (λ _ q', quiet q q') q.
Proof.
  intros Hok Hcap. unfold recv. apply wp_bind, wp_zoom.
  eapply wp_mono; [apply wp_pp; [by apply keeps_stream_recv, Hcap; apply Hok|apply touch_stream_recv]|..]; cbv beta.
  - intros [out fin] c' [Hwf' Hread]. apply wp_bind, wp_modify, wp_ret. cbn [fst].
    destruct (read_after i cap q c' _ Hok Hwf' Hcap Hread) as (Ho & _ & Hout & _). destruct (Hout _ _ eq_refl) as (Hok' & Hle & Hlt & Hlen & Hbytes & Hfin).
    split_and!; [|done|done|done].
    split_and!; [done|apply append_same|done|done| |done].
    intros j Hj. destruct (unread_same _ _ _ (proj2 Ho j Hj)). split_and!; cbn; [by apply append_other|done|done].
  - intros e c' [Hwf' [Hs|[r Hread]]]; [by apply quiet_still|].
    destruct (read_after i cap q c' _ Hok Hwf' Hcap Hread) as (_ & _ & _ & Herr). by eapply Herr.
Qed.

(** ** Writing *)

(** An id that no stream can have is refused. *)
Lemma far_open i c : conn_wf c → limits_ok c → 2 ^ 62 <= i <= u64_max →
  wp (Conn.get_or_create_stream i true) (λ _ _, False) (λ _ c', c' = c) c.
Proof.
  intros Hwf [Hl _] Hi. change (2 ^ 62) with 4611686018427387904 in Hi. assert (Conn.set_streams (Conn.streams c) c = c) as Heta by by destruct c.
  unfold Conn.get_or_create_stream. apply wp_bind, wp_get, wp_zoom. unfold StreamMap.get_or_create. apply wp_bind, wp_get.
  destruct (StreamMap.streams (Conn.streams c) !! i) as [s|] eqn:Hs.
  { pose proof (co_stream _ _ _ Hwf _ _ Hs) as [_ Hid]. change (2 ^ 62) with 4611686018427387904 in Hid. lia. }
  case_bool_decide; [by apply wp_fail|]. destruct (is_local i (Conn.is_server c)); cbn [Bool.eqb negb]; [|by apply wp_fail].
  destruct (StreamMap.initial_limits _ _ _ _) as [rx tx]. apply wp_bind.
  assert (2 ^ 60 <= Z.shiftr i 2) as Hseq by (rewrite Z.shiftr_div_pow2 by lia; apply Z.div_le_lower_bound; lia).
  assert (Z.shiftr i 2 <= u64_max - 1) as Hseq' by (rewrite Z.shiftr_div_pow2 by lia; apply Z.div_le_upper_bound; lia).
  unfold StreamMap.count_stream. apply wp_bind, wp_get, wp_bind. eapply wp_lift; [apply uadd_ok; lia|].
  pose proof (Hl (is_bidi i)) as Hlim. destruct (is_bidi i); cbn [limit] in Hlim; cbv zeta;
    rewrite (proj2 (Z.ltb_lt _ _)) by lia; by apply wp_fail.
Qed.

Definition is_id (i : Z) : Prop := 0 <= i <= u64_max.

Lemma any_send i buf fin c : conn_wf c → limits_ok c → is_id i → queue_room i (Z.min (zlen buf) (Conn.tx_cap c)) c →
  wp (Conn.stream_send i buf fin) (λ _ c', kept c c') (λ _ c', kept c c' ∧ ¬ will_take i (zlen buf) c) c.
Proof.
  intros Hwf Hl Hi Hroom. destruct (Z.lt_ge_cases i (2 ^ 62)) as [Hlt|Hge]; [apply wp_stream_send; [done|split; [apply Hi|done]|done]|].
  assert (¬ will_take i (zlen buf) c) as Hno.
  { intros (_ & _ & s & Hs & _). pose proof (co_stream _ _ _ Hwf _ _ Hs) as [_ Hid]. lia. }
  unfold Conn.stream_send. apply wp_bind, wp_get. destruct (Conn.is_uni_remote i c); [apply wp_fail; split; [by apply kept_refl|done]|].
  pose proof (co_counters _ _ _ Hwf) as [(? & ? & ?) _ _]. cbn in *. apply wp_bind. eapply wp_lift; [apply usub_ok; lia|].
  apply wp_bind. apply wp_blocked_limit; [done|]. intros c1 Hk1 Es1 Ec1. apply wp_bind.
  eapply wp_mono; [apply far_open; [apply Hk1| |split; [done|apply Hi]]|..]; cbv beta; [|done|by intros e c' ->].
  destruct Hl. split; intros; by rewrite Es1.
Qed.

Lemma any_priority i urgency incremental c : conn_wf c → limits_ok c → is_id i →
  wp (Conn.stream_priority i urgency incremental) (λ _ c', kept c c') (λ _ c', kept c c') c.
Proof.
  intros Hwf Hl Hi. destruct (Z.lt_ge_cases i (2 ^ 62)) as [Hlt|Hge]; [apply keeps_stream_priority; [done|split; [apply Hi|done]]|].
  unfold Conn.stream_priority. apply wp_bind, wp_attempt. eapply wp_mono; [apply far_open; [done|done|split; [done|apply Hi]]|..]; cbv beta; [done|].
  intros e c' ->. destruct e; first [by apply wp_ret, kept_refl|by apply wp_fail, kept_refl].
Qed.

Lemma opened_at i q c1 : quic_ok q → opens i (conn q) c1 →
  (∀ b, stream_at i c1 = Some b → fine (peer q i) (taken q i) (written q i) b) ∧ unread_at i (conn q) c1 ∧ (touched i (conn q) → touched i c1) ∧ only i (conn q) c1.
Proof.
  intros Hok (Ho & _ & [Hs|(Hn & Hc & Hc1 & rx & tx & w & E)]).
  - split_and!; [intros b Hb; apply (q_fine _ Hok i); destruct Hs as [E _]; by rewrite <- E|by apply unread_same|by apply touched_same|done].
  - split_and!; [|split|intros _; left; by rewrite E|done].
    + rewrite E. intros b [= <-]. destruct (q_logs _ Hok i) as [[[b Hb]|?]|[-> ->]]; [congruence|done|].
      split_and!; [apply got_new|apply queued_new|cbn; lia].
    + unfold backlog_at. rewrite E, Hn. cbn. lia.
    + intros [?|(b & Hb & _)]; [done|congruence].
Qed.

Lemma opens_after i q c' : quic_ok q → kept (conn q) c' → opens i (conn q) c' → quiet q (set_conn c' q).
Proof.
  intros Hok Hwf Ho. destruct (opened_at _ _ _ Hok Ho) as (? & ? & ? & ?). by apply (quiet_after i).
Qed.

(** The stream a write ran on was well formed. *)
Lemma wrote_wf i buf fin q c' r c1 s sb : quic_ok q → kept (conn q) c' → opens i (conn q) c1 → StreamMap.streams (Conn.streams c1) !! i = Some s →
  SendBuf.write (clip (conn q) buf fin).1 (clip (conn q) buf fin).2 (Stream.send s) = (r, sb) → r ≠ Panic →
  stream_at i c' = Some (Stream.recv s, SendBuf.set_blocked_at None sb) →
  send_wf (Stream.send s) ∧ SendBuf.max_data (Stream.send s) <= varint_max ∧ SendBuf.len (Stream.send s) <= 2 ^ 63 + SendBuf.off (Stream.send s).
Proof.
  intros Hok Hwf Ho Hs Hrun Hr Hat. assert (stream_at i c1 = Some (buffers s)) as Hat1 by (unfold stream_at; by rewrite Hs).
  destruct (opened_at _ _ _ Hok Ho) as (Hf1 & _). destruct (Hf1 _ Hat1) as (_ & _ & Hlen).
  enough (send_wf (SendBuf.set_blocked_at None (Stream.send s)) ∧ SendBuf.max_data (Stream.send s) <= varint_max) as [Hsend ?].
  { split_and!; [by eapply send_wf_flags|done|done]. }
  destruct Ho as (_ & _ & [[E _]|(_ & _ & _ & rx & tx & w & E)]); rewrite Hat1 in E.
  - symmetry in E. destruct (stream_at_wf _ _ _ (q_wf _ Hok) E) as (_ & ? & ?). done.
  - apply (inj Some), (f_equal snd) in E. cbn [snd buffers] in E. destruct (stream_at_wf _ _ _ (proj1 Hwf) Hat) as (_ & Hsend & Hmax). cbn in Hsend, Hmax.
    pose proof (write_counts (clip (conn q) buf fin).1 (clip (conn q) buf fin).2 (Stream.send s)) as Hcount. unfold pp in Hcount. rewrite Hrun in Hcount.
    assert (SendBuf.max_data sb = SendBuf.max_data (Stream.send s)) as Em by (destruct r; [apply Hcount|by rewrite Hcount|done]).
    pose proof (q_max _ _ (sw_queue _ Hsend)) as Hq. pose proof (sw_off _ Hsend) as Hoff. cbn in Hq, Hoff. split; [|lia].
    rewrite E. apply new_send_wf. assert (SendBuf.max_data (SendBuf.set_blocked_at None (Stream.send s)) = tx) as Etx by by rewrite E. cbn in Etx. lia.
Qed.

Lemma write_ok d fin sb n sb' : send_wf sb → SendBuf.max_data sb <= varint_max → SendBuf.len sb <= 2 ^ 63 + SendBuf.off sb → zlen d <= varint_max →
  SendBuf.write d fin sb = (Ok n, sb') →
  n = Z.min (SendBuf.max_data sb - SendBuf.off sb) (zlen d) ∧ SendBuf.error sb = None ∧ SendBuf.error sb' = None ∧
  SendBuf.off sb' = SendBuf.off sb + n ∧ SendBuf.max_data sb' = SendBuf.max_data sb ∧ 0 <= SendBuf.max_data sb - SendBuf.off sb ∧
  (fin = false → SendBuf.fin_off sb' = None).
Proof.
  intros Hwf Hmax Hlen Hd Hrun. change (2 ^ 63) with 9223372036854775808 in Hlen.
  pose proof (sw_off _ Hwf). pose proof (q_max _ _ (sw_queue _ Hwf)). pose proof (zlen_nonneg d).
  destruct (SendBuf.error sb) as [e|] eqn:He.
  { unfold SendBuf.write in Hrun. rewrite run_bind_get in Hrun. rewrite (run_bind_lift _ _ _ (SendBuf.off sb + zlen d)) in Hrun by (apply uadd_ok; lia).
    unfold mbind at 1, M_bind at 1, reads, SendBuf.cap in Hrun. by rewrite He in Hrun. }
  pose proof (write_run sb d fin Hwf He ltac:(lia) ltac:(lia)) as Hr. cbv zeta in Hr. rewrite Hrun in Hr.
  destruct (bool_decide (is_Some (SendBuf.fin_off sb)) && _) eqn:Hfin; [done|]. destruct Hr as (sb1 & [= -> <-] & [_ Ho _ _ Hm Herr Hf _ _]).
  rewrite Ho, zlen_ztake by lia. split_and!; [done|done|congruence|done|done|lia|]. intros ->. rewrite Hf. cbn [andb].
  apply andb_false_iff in Hfin as [Hn|Hn]; [|by rewrite orb_true_r in Hn]. apply bool_decide_eq_false in Hn. by apply eq_None_not_Some.
Qed.

Lemma clip_len c buf fin : 0 <= Conn.tx_cap c → zlen (clip c buf fin).1 <= zlen buf ∧ zlen (clip c buf fin).1 <= Conn.tx_cap c ∧
  (zlen buf <= Conn.tx_cap c → clip c buf fin = (buf, fin)).
Proof.
  intros Hc. unfold clip. destruct (Z.ltb_spec (Conn.tx_cap c) (zlen buf)); cbn [fst]; [rewrite zlen_ztake by lia|]; (split_and!; [lia|lia|by intros; try lia]).
Qed.

Lemma tx_cap_bounds c : conn_wf c → 0 <= Conn.tx_cap c <= varint_max.
Proof. intros Hwf. pose proof (co_counters _ _ _ Hwf) as [(? & ? & ?) _ _]. cbn in *. lia. Qed.

Lemma send_room i (buf : list Z) q : quic_ok q → queue_room i (Z.min (zlen buf) (Conn.tx_cap (conn q))) (conn q).
Proof.
  intros Hok s Hs. pose proof (tx_cap_bounds _ (q_wf _ Hok)). destruct (co_stream _ _ _ (q_wf _ Hok) _ _ Hs) as [Hst _]. pose proof (send_off_bounds _ Hst).
  assert (stream_at i (conn q) = Some (buffers s)) as Hat by (unfold stream_at; by rewrite Hs).
  destruct (q_fine _ Hok _ _ Hat) as (_ & _ & Hl). cbn in Hl. change (Z.pow_pos 2 63) with 9223372036854775808 in Hl. lia.
Qed.

Lemma zlen_clip_take (n : Z) c (buf : list Z) fin : 0 <= Conn.tx_cap c → 0 <= n <= zlen (clip c buf fin).1 → ztake n (clip c buf fin).1 = ztake n buf.
Proof.
  intros Hc Hn. destruct (clip_len c buf fin Hc) as (_ & Hle & _). unfold clip in *. destruct (_ <? _); [|done]. cbn [fst] in *. unfold ztake. rewrite take_take. f_equal. lia.
Qed.

Lemma wrote_after i buf fin q c' r : quic_ok q → kept (conn q) c' → wrote_to i buf fin (conn q) c' r →
  only i (conn q) c' ∧ unread_at i (conn q) c' ∧ touched i c' ∧
  ∀ q', conn q' = c' → beside i q q' → taken q' i = taken q i →
    written q' i = written q i ++ match r with Ok n => ztake n buf | _ => [] end → quic_ok q'.
Proof.
  intros Hok Hwf (c1 & s & sb & Ho & Hs & Hrun & Hr & Honly & Hat & Hcol).
  destruct (opened_at _ _ _ Hok Ho) as (Hf1 & Hu1 & Ht1 & Ho1).
  destruct (wrote_wf _ _ _ _ _ _ _ _ _ Hok Hwf Ho Hs Hrun Hr Hat) as (Hsend & Hmax & Hroom).
  assert (stream_at i c1 = Some (buffers s)) as Hat1 by (unfold stream_at; by rewrite Hs).
  destruct (Hf1 _ Hat1) as (Hg & Hq & Hlen). cbn [fst snd buffers] in Hg, Hq, Hlen. rewrite queued_blocked in Hq.
  pose proof (write_counts (clip (conn q) buf fin).1 (clip (conn q) buf fin).2 (Stream.send s)) as Hcount. unfold pp in Hcount. rewrite Hrun in Hcount.
  assert (only i (conn q) c') as Hcc by by etrans.
  assert (touched i c') as Ht by (left; by rewrite Hat). split_and!; [done| |done|].
  - destruct Hu1 as [Hb Hfin]. split.
    + etrans; [|exact Hb]. unfold backlog_at. rewrite Hat, Hat1. done.
    + intros [Hc|(b & Hb' & Hf)]%Hfin; [left; by apply Hcol|right]. rewrite Hat1 in Hb'. injection Hb' as <-. by eexists.
  - intros q' Ec Hb Etk Ewr. apply (ok_after i q); rewrite ?Ec, ?Etk; [done..| |by left|apply Hok].
    rewrite Hat. intros b [= <-]. rewrite Ewr. pose proof (tx_cap_bounds _ (q_wf _ Hok)). destruct (clip_len (conn q) buf fin ltac:(lia)) as (Hc1 & Hc2 & _).
    split_and!; cbn [fst snd]; [done|rewrite queued_blocked|].
    + destruct r as [n|e|]; [|by rewrite Hcount, app_nil_r|done].
      destruct (write_ok (clip (conn q) buf fin).1 _ _ _ _ Hsend Hmax Hroom ltac:(lia) Hrun) as (En & _ & _ & _ & _ & Hle & _). pose proof (zlen_nonneg (clip (conn q) buf fin).1).
      rewrite <- (zlen_clip_take n (conn q) buf fin) by lia. change (2 ^ 63) with 9223372036854775808 in Hroom. pose proof (sw_off _ Hsend). pose proof (q_max _ _ (sw_queue _ Hsend)).
      eapply queued_write; [done| | |exact Hrun|done]; lia.
    + destruct r as [n|e|]; [destruct Hcount as [? _]; cbn in *; lia|by rewrite Hcount|done].
Qed.

(** A [stream_send], run in full. *)
Lemma wp_send i bytes fin q (P : Z → t → Prop) QE : quic_ok q → is_id i →
  (∀ n c', kept (conn q) c' → Conn.is_uni_remote i (conn q) = false → wrote_to i bytes fin (conn q) c' (Ok n) → (n ≠ 0 ∨ (clip (conn q) bytes fin).1 = []) →
     credit c' = (Conn.max_tx_data (conn q), Conn.tx_data (conn q) + n, Conn.tx_cap (conn q) - n) → P n (log_written i (ztake n bytes) (set_conn c' q))) →
  (∀ e c', kept (conn q) c' → ¬ will_take i (zlen bytes) (conn q) → (opens i (conn q) c' ∨ ∃ r, wrote_to i bytes fin (conn q) c' r ∧ ∀ n, r = Ok n → n = 0) → QE e (set_conn c' q)) →
  wp (send i bytes fin) P QE q.
Proof.
  intros Hok Hi HP HE. unfold send, with_id. destruct Hi. rewrite !(proj2 (Z.leb_le _ _)) by lia. cbn [andb]. apply wp_bind, wp_zoom.
  eapply wp_mono; [apply wp_pp; [by apply (any_send i bytes fin (conn q)); [apply Hok|apply Hok|split|apply send_room]|apply touch_stream_send]|..]; cbv beta.
  - intros n c' [Hwf' (? & ? & ? & ?)]. apply wp_bind, wp_modify, wp_ret. by apply HP.
  - intros e c' [[Hwf' Hno] Hw]. by apply HE.
Qed.

(** What was written is [bytes], or nothing. *)
Lemma quiet_wrote i bytes fin q c' r : quic_ok q → kept (conn q) c' → wrote_to i bytes fin (conn q) c' r → (∀ n, r = Ok n → n = 0) → quiet q (set_conn c' q).
Proof.
  intros Hok Hwf Hw Hz. destruct (wrote_after _ _ _ _ _ _ Hok Hwf Hw) as (Ho & Hu & _ & Hok'). split.
  - apply Hok'; [done|by split_and!|done|]. destruct r as [n|e|]; [by rewrite (Hz n eq_refl), app_nil_r|by rewrite app_nil_r|by rewrite app_nil_r].
  - intros j. split; [|done]. assert (unread_at j (conn q) c') as [? ?]; [|by split_and!]. destruct (decide (j = i)) as [-> |Hj]; [done|by apply unread_same, Ho].
Qed.

Lemma send_lawful i bytes fin q : quic_ok q →
  wp (send i bytes fin) (λ n q', 0 <= n <= zlen bytes ∧ wrote i q q' (ztake n bytes)) (λ _ q', quiet q q') q.
Proof.
  intros Hok. destruct (decide (0 <= i ∧ i <= u64_max)) as [Hi|Hi]; cycle 1.
  { unfold send, with_id. destruct (Z.leb_spec 0 i), (Z.leb_spec i u64_max); cbn [andb]; try lia; by apply wp_fail, quiet_same. }
  apply wp_send; [done|done|..].
  - intros n c' Hwf _ Hw _ _. destruct (wrote_after _ _ _ _ _ _ Hok Hwf Hw) as (Honly & Hu & _ & Hok'). pose proof Hw as (c1 & s & sb & Ho & Hs & Hrun & Hr & _ & Hat & _).
    destruct (wrote_wf _ _ _ _ _ _ _ _ _ Hok Hwf Ho Hs Hrun Hr Hat) as (Hsend & Hmax & Hlen).
    pose proof (tx_cap_bounds _ (q_wf _ Hok)). destruct (clip_len (conn q) bytes fin ltac:(lia)) as (Hc1 & Hc2 & _).
    destruct (write_ok (clip (conn q) bytes fin).1 _ _ _ _ Hsend Hmax Hlen ltac:(lia) Hrun) as (-> & _ & _ & _ & _ & Hroom & _). pose proof (zlen_nonneg (clip (conn q) bytes fin).1).
    split; [lia|]. split_and!; cbn.
    + apply Hok'; cbn; [done| |done|by rewrite append_same]. split_and!; [done..|]. intros j Hj. cbn. by rewrite append_other.
    + apply append_same.
    + intros j Hj. by apply append_other.
    + intros j. assert (unread_at j (conn q) c') as [? ?]; [|by split_and!]. destruct (decide (j = i)) as [-> |Hj]; [done|by apply unread_same, Honly].
  - intros e c' Hwf _ [Ho|(r & Hw & Hz)]; [by eapply opens_after|by eapply quiet_wrote].
Qed.

(** What a stream that exists says of a call that wrote to it. *)
Lemma opens_there i c c1 s0 s : opens i c c1 → StreamMap.streams (Conn.streams c) !! i = Some s0 → StreamMap.streams (Conn.streams c1) !! i = Some s →
  buffers s = buffers s0.
Proof.
  intros (_ & _ & [[E _]|(Hn & _)]) Hs0 Hs1; unfold stream_at in *; rewrite ?Hs0, ?Hs1 in *; [by apply (inj Some)|done].
Qed.

Lemma uni_fixed i c c' : Conn.is_server c' = Conn.is_server c → Conn.is_uni_remote i c' = Conn.is_uni_remote i c.
Proof. unfold Conn.is_uni_remote. by intros ->. Qed.

(** Writing what there is room for. *)
Lemma takes_room i bytes fin q s (QE : Error → t → Prop) : quic_ok q → is_id i → StreamMap.streams (Conn.streams (conn q)) !! i = Some s →
  SendBuf.error (Stream.send s) = None → zlen bytes <= Conn.tx_cap (conn q) →
  zlen bytes <= SendBuf.max_data (Stream.send s) - SendBuf.off (Stream.send s) →
  (∀ e q', ¬ will_take i (zlen bytes) (conn q) → QE e q') →
  wp (send i bytes fin) (λ n q', n = zlen bytes ∧ (fin = false → ∀ room, room <= Conn.tx_cap (conn q) →
      room <= SendBuf.max_data (Stream.send s) - SendBuf.off (Stream.send s) → takes_at i (room - n) (conn q'))) QE q.
Proof.
  intros Hok Hi Hs He Hcap Hroom HE. apply wp_send; [done|done| |by intros; apply HE].
  intros n c' Hwf Huni (c1 & s1 & sb & Ho & Hs1 & Hrun & Hr & [[Hsrv' _] _] & Hat & _) _ Hcredit. pose proof Ho as [[[Hsrv _] _] _].
  destruct (wrote_wf _ _ _ _ _ _ _ _ _ Hok Hwf Ho Hs1 Hrun Hr Hat) as (Hsend & Hmax & Hlen).
  pose proof (opens_there _ _ _ _ _ Ho Hs Hs1) as Eb. apply (f_equal snd) in Eb. cbn [snd buffers] in Eb.
  pose proof (f_equal SendBuf.max_data Eb) as Em. pose proof (f_equal SendBuf.off Eb) as Eo. cbn in Em, Eo.
  pose proof (tx_cap_bounds _ (q_wf _ Hok)). destruct (clip_len (conn q) bytes fin ltac:(lia)) as (_ & _ & Hclip). rewrite (Hclip Hcap) in Hrun. cbn [fst snd] in Hrun.
  destruct (write_ok bytes _ _ _ _ Hsend Hmax Hlen ltac:(lia) Hrun) as (En & _ & Herr & Hoff & Hmx & _ & Hfin).
  assert (n = zlen bytes) as -> by lia. split; [done|]. intros -> room Hr1 Hr2. cbn [conn log_written set_conn]. unfold credit in Hcredit. injection Hcredit as _ _ Etx.
  split; [by rewrite (uni_fixed _ (conn q)) by congruence|]. split; [lia|]. eexists. split; [exact Hat|]. cbn. split_and!; [done|by apply Hfin|lia].
Qed.

Lemma capacity_run i q : quic_ok q → Conn.stream_capacity i (conn q) ≠ Panic.
Proof.
  intros Hok. unfold Conn.stream_capacity, StreamMap.get. destruct (StreamMap.streams _ !! i) as [s|] eqn:Hs; [|done].
  pose proof (send_cap_run s (proj1 (co_stream _ _ _ (q_wf _ Hok) _ _ Hs))). by destruct (SendBuf.cap _).
Qed.

(** ** Shutting down *)

Lemma shutdown_empties sb : pp SendBuf.shutdown (λ _ sb', SendBuf.len sb' = 0) (λ _ _, True) sb.
Proof.
  unfold SendBuf.shutdown. apply pp_bind, pp_get. destruct (SendBuf.is_shut sb); [by apply pp_fail|]. apply pp_bind, pp_modify.
  unfold SendBuf.reset. apply pp_bind, pp_get. do 3 (apply pp_bind, pp_modify). apply pp_bind, pp_run; [|done]. intros _ sb1 _.
  by do 2 (apply pp_bind, pp_modify).
Qed.

Lemma shut_after i q c' : quic_ok q → kept (conn q) c' → closed_read i (conn q) c' ∨ closed_write i (conn q) c' → quiet q (set_conn c' q).
Proof.
  intros Hok Hwf Hc.
  assert (only i (conn q) c' → same_at i (conn q) c' → quiet q (set_conn c' q)) as Hsame.
  { intros Ho Hs. apply (quiet_after i); [done..| |by apply touched_same|by apply unread_same].
    intros b Hb. destruct Hs as [E _]. apply (q_fine _ Hok i). by rewrite <- E. }
  destruct Hc as [[Ho [Hs|(s & rb & Hs & Hrun & Hat & Hcol)]]|[Ho [Hs|(s & r & sb & Hs & Hrun & Hat & Hcol)]]]; [by apply Hsame| |by apply Hsame|];
    (assert (stream_at i (conn q) = Some (buffers s)) as Hat0 by (unfold stream_at; by rewrite Hs));
    destruct (q_fine _ Hok _ _ Hat0) as (Hg & Hq & Hl), (co_stream _ _ _ (q_wf _ Hok) _ _ Hs) as [Hst _]; cbn [fst snd buffers] in Hg, Hq, Hl.
  - destruct (shutdown_drains _ _ Hrun (st_recv _ Hst)) as (Hdr & Hd & Hfin). apply (quiet_after i); [done..| |by intros _; left; rewrite Hat|split].
    + rewrite Hat. intros b [= <-]. split_and!; [by left|done|done].
    + unfold backlog_at. rewrite Hat, Hat0. cbn [fst buffers Stream.recv Stream.set_recv]. rewrite Hd. by apply weight_nonneg, lens_of, (st_recv _ Hst).
    + intros [Hc|(b & Hb & Hf)]; [left; by apply Hcol|right]. rewrite Hat0 in Hb. injection Hb as <-. eexists. split; [exact Hat|]. by apply Hfin.
  - apply (quiet_after i); [done..| |by intros _; left; rewrite Hat|split].
    + rewrite Hat. intros b [= <-].
      pose proof (wp_send_shutdown _ (st_send _ Hst)) as Hw. pose proof (shutdown_empties (Stream.send s)) as Hz. pose proof (stays_shutdown (Stream.send s)) as Hsh.
      unfold wp, pp in Hw, Hz, Hsh. rewrite Hrun in Hw, Hz, Hsh. rewrite queued_blocked in Hq.
      destruct (stream_at_wf _ _ _ (proj1 Hwf) Hat) as (_ & Hsend & _). pose proof (sw_off _ Hsend). split_and!; cbn [fst snd buffers]; [done| |];
        destruct r as [[? ?]|e|]; [by apply (queued_shrinks (Stream.send s))|by apply (queued_shrinks (Stream.send s))|done|cbn in *; lia|by subst sb|done].
    + unfold backlog_at. by rewrite Hat, Hat0.
    + intros [Hc|(b & Hb & Hf)]; [left; by apply Hcol|right]. rewrite Hat0 in Hb. injection Hb as <-. eexists. by split.
Qed.

Lemma writable_says i n c : pp (Conn.stream_writable i n)
  (λ b c', b = true → ∃ cap, n <= cap ∧ Conn.stream_capacity i c' = Ok cap) (λ _ _, True) c.
Proof.
  unfold Conn.stream_writable. apply pp_bind, pp_reads; [|done]. intros cap Hcap. destruct (Z.leb_spec n cap); [apply pp_ret; eauto|].
  apply pp_bind, pp_get. destruct (StreamMap.get i (Conn.streams c)); [|by apply pp_fail].
  assert (PreOrder (λ _ _ : Conn.t, True)) as Hany by by split.
  match goal with |- pp ?m _ _ _ => assert (yields (λ _ _, True) (λ b, b = false) m) as Hy end.
  { repeat (apply (yields_then (λ _ _ : Conn.t, True)); [intros ?; apply pp_run; by intros|intros ?]). by apply (yields_ret (E := Error) (λ _ _ : Conn.t, True)). }
  eapply pp_mono; [apply Hy|..]; cbv beta; [by intros b c' [-> _]|done].
Qed.

(** ** The laws *)
#[export] Instance laws : TransportLaws t.
Proof.
  split; cbn [t_ok history backlog over sent takes ghost].
  - intros i q Hok. apply backlog_at_nonneg, Hok.
  - intros i q Hok Hf. cbn in Hf. unfold Conn.stream_finished, StreamMap.get in Hf. destruct (StreamMap.streams _ !! i) as [s|] eqn:Hs.
    + left. right. exists (buffers s). unfold stream_at. by rewrite Hs.
    + destruct (q_logs _ Hok i) as [[[b Hb]|?]|[? _]]; [|by left; left|by right]. unfold stream_at in Hb. by rewrite Hs in Hb.
  - intros i cap q. apply recv_lawful.
  - intros app err reason q Hok. assert (∀ q', conn q' = conn q → cwin_available q' = cwin_available q → taken q' = taken q → written q' = written q → frames q' = frames q → peer q' = peer q → quiet q q') as Hq.
    { intros q' E1 E2 E3 E4 E5 E6. split; [destruct Hok; constructor; by rewrite ?E1, ?E2, ?E3, ?E4, ?E5, ?E6|]. intros j. unfold unread. cbn. rewrite E1, E3, E4. by split_and!. }
    cbn. unfold close. apply wp_bind, wp_get. destruct (_ || _); [by apply wp_fail, Hq|]. destruct (bool_decide _); [by apply wp_fail, Hq|]. cbv zeta. apply wp_bind.
    destruct (_ && _); apply wp_modify, wp_when; intros _; first [apply wp_modify|idtac]; by apply Hq.
  - intros app err reason q q' Hrun. cbn in *. unfold close in Hrun. rewrite run_bind_get in Hrun.
    destruct (_ || _); [done|]. destruct (bool_decide _); [done|]. cbv zeta in Hrun.
    destruct (app && _); rewrite run_bind_modify in Hrun; (destruct (recv_count q =? 0); by injection Hrun as <-).
  - intros i dir err q Hok. cbn. unfold shutdown. apply wp_bind, wp_get, wp_zoom.
    eapply wp_mono; [apply wp_pp; [apply keeps_stream_shutdown; [apply (q_wf _ Hok)|apply (q_cwin _ Hok)]|apply touch_stream_shutdown]|..];
      cbv beta; intros ? c' [Hwf Hc]; by apply (shut_after i).
  - intros i u inc q Hok. cbn. unfold priority, with_id.
    destruct (Z.leb_spec 0 i), (Z.leb_spec i u64_max); cbn [andb]; try by apply wp_fail, quiet_same.
    apply wp_zoom. eapply wp_mono; [apply wp_pp; [apply (any_priority i u inc (conn q)); [apply Hok|apply Hok|by split]|apply touch_stream_priority]|..];
      cbv beta; intros ? c' [Hwf Ho]; by eapply opens_after.
  - intros i bytes fin q. apply send_lawful.
  - intros i cap q Hok Hcap. cbn in Hcap. unfold Conn.stream_capacity, StreamMap.get in Hcap. destruct (StreamMap.streams _ !! i) as [s|] eqn:Hs; [|done].
    destruct (SendBuf.cap (Stream.send s)) as [room|e|] eqn:Hroom; [|done..]. injection Hcap as <-.
    destruct (co_stream _ _ _ (q_wf _ Hok) _ _ Hs) as [Hst Hi]. pose proof (send_off_bounds _ Hst). pose proof (tx_cap_bounds _ (q_wf _ Hok)).
    unfold SendBuf.cap in Hroom. destruct (SendBuf.error (Stream.send s)) eqn:He; [done|]. rewrite usub_ok in Hroom by lia. injection Hroom as <-.
    split; [lia|]. intros bytes Hl. cbn [stream_send transport]. eapply wp_mono; [eapply (takes_room i bytes false q s (λ _ _, True)); try done; try lia|..]; cbv beta.
    + change (2 ^ 62) with 4611686018427387904 in Hi. unfold is_id. lia.
    + intros n q' [-> Ht]. split; [done|]. apply Ht; [done|lia|lia].
    + done.
  - intros i room q Hok (Huni & Hr1 & b & Hb & He & Hf & Hr2) bytes fin Hl. destruct (stream_at_some _ _ _ Hb) as (s & Hs & ->). cbn in He, Hf, Hr2.
    destruct (co_stream _ _ _ (q_wf _ Hok) _ _ Hs) as [Hst Hi]. cbn [stream_send transport].
    eapply wp_mono; [eapply (takes_room i bytes fin q s (λ _ _, False)); try done; try lia|..]; cbv beta.
    + change (2 ^ 62) with 4611686018427387904 in Hi. unfold is_id. lia.
    + intros e q' Hno. apply Hno. split; [done|]. split; [lia|]. exists s. split_and!; [done..|lia].
    + intros n q' [-> Ht]. split; [done|]. intros Hfin. apply Ht; [done|lia|lia].
    + done.
  - intros i n q Hok Hn. cbn. apply wp_zoom.
    eapply wp_mono; [apply wp_pp; [apply wp_pp; [by apply keeps_stream_writable; [apply Hok|]|apply stays_stream_writable]|apply writable_says]|..]; cbv beta.
    + intros b c' [[Hwf Hs] Hb]. split; [by apply quiet_still|done].
    + intros e c' [[Hwf Hs] _]. by apply quiet_still.
  - intros i q Hok. by apply capacity_run.
  - intros q Hok. cbn. apply (q_limits _ Hok).
Qed.
End laws.
