(* ===== verification/QuicWork.v ===== *)
(** * The network under HTTP/3

    The steps of a connection that are not calls of HTTP/3 (the peer's frames,
    acknowledgements and losses, packets, the congestion window) leave what was
    read and written as it is and open no finished stream again: they are the
    work of the transport that runs of HTTP/3 allow for ([worked]). *)
From stdpp Require Import gmap.
From S2P Require Import Prelude Orders OctetsLib FlowCtl RangeBufs RecvBufs SendBufs Frames Params Streams ConnStreams ConnInv ConnOps ConnFlush ConnRun ConnTouch QuicBuffers H3Frames H3Streams H3Inv H3Conn H3World Quic QuicLaws.

(** ** Steps that matter only when they succeed *)
Section goes.
Context {S E : Type}.
Definition goes (R : S → S → Prop) {A} (m : M S E A) : Prop := ∀ s, pp m (λ _ s', R s s') (λ _ _, True) s.

Context (R : S → S → Prop) `{!PreOrder R}.
Lemma stays_goes {A} (m : M S E A) : stays R m → goes R m.
Proof. intros Hm s. by eapply pp_mono; [apply Hm|..]. Qed.
Lemma goes_bind {A B} (m : M S E A) (k : A → M S E B) : goes R m → (∀ a, goes R (k a)) → goes R (m ≫= k).
Proof.
  intros Hm Hk s. apply pp_bind. eapply pp_mono; [apply Hm|..]; [|done]. cbv beta. intros a s1 H1.
  eapply pp_mono; [apply Hk|..]; cbv beta; [|done]. intros; by etrans.
Qed.
End goes.

Section work.
Context `{RBTree} `{NetCoding}.
Implicit Types (c : Conn.t) (q : Quic.t).
Import Quic.

(** What the peer wrote, and what was read and written, does not change. *)
Context (said tk wr : Z → list Z).

(** The buffers agree with the logs of their stream. *)
Definition good i (b : RecvBuf.t * SendBuf.t) : Prop := got b.1 (said i) (tk i) ∧ queued b.2 (wr i).
Definition agrees c : Prop := (∀ i b, stream_at i c = Some b → good i b) ∧ ∀ i, touched i c ∨ tk i = [] ∧ wr i = [].

(** What the network does to the streams. *)
Definition networks c c' : Prop := agrees c →
  agrees c' ∧ (∀ j, finished_at j c → finished_at j c') ∧ (∀ j, touched j c → touched j c') ∧ (limits_ok c → limits_ok c').
#[local] Instance networks_preorder : PreOrder networks.
Proof.
  split; [by intros c ?|]. intros c1 c2 c3 Ha Hb Hu. destruct (Ha Hu) as (Hu2 & Hf & Ht & Hl). destruct (Hb Hu2) as (? & ? & ? & ?).
  split_and!; auto.
Qed.

Lemma only_networks i c c' : only i c c' → (agrees c → ∀ b, stream_at i c' = Some b → good i b) →
  (finished_at i c → finished_at i c') → (touched i c → touched i c') → networks c c'.
Proof.
  intros [Hf Hj] Hb Hfin Ht Hu. assert (∀ j, touched j c → touched j c') as Htouch.
  { intros j. destruct (decide (j = i)) as [-> |Hne]; [done|by apply touched_same, Hj]. }
  split_and!; [split| |done|by apply limits_fixed]; intros j.
  - destruct (decide (j = i)) as [-> |Hne]; [auto|]. intros b E. destruct (Hj j Hne) as [E' _]. apply (proj1 Hu j). by rewrite <- E'.
  - destruct (proj2 Hu j); auto.
  - destruct (decide (j = i)) as [-> |Hne]; [done|by apply finished_same, Hj].
Qed.
Lemma same_networks i c c' : only i c c' → same_at i c c' → networks c c'.
Proof.
  intros Ho Hs. apply (only_networks i); [done| |by apply finished_same|by apply touched_same]. intros Hu b Hb. destruct Hs as [E _]. apply (proj1 Hu). by rewrite <- E.
Qed.
Lemma alike_networks c c' : alike c c' → networks c c'.
Proof. intros [Hf Hj]. apply (same_networks 0); [by split|apply Hj]. Qed.

Lemma put_networks i s s' c : StreamMap.streams (Conn.streams c) !! i = Some s → (good i (buffers s) → good i (buffers s')) →
  (good i (buffers s) → read_out (Stream.recv s) (Stream.recv s')) → networks c (put_stream i s' c).
Proof.
  intros Hs Hd Hr Hu. assert (stream_at i c = Some (buffers s)) as Hat by (unfold stream_at; by rewrite Hs).
  pose proof (proj1 Hu i _ Hat) as Hg. revert Hu. apply (only_networks i); [apply put_only|..].
  - intros _ b Hb. rewrite put_at in Hb. injection Hb as <-. by apply Hd.
  - intros [Hc|(b & Hb & Hf)]; [by left|right]. rewrite Hat in Hb. injection Hb as <-. eexists. split; [apply put_at|]. by apply (Hr Hg).
  - intros _. left. by rewrite put_at.
Qed.

Lemma stays_still_net {A} (m : M Conn.t Error A) : stays still m → stays networks m.
Proof. apply stays_mono. intros c c' Hs. by apply alike_networks, still_alike. Qed.
Lemma stays_alike_net {A} (m : M Conn.t Error A) : stays alike m → stays networks m.
Proof. apply stays_mono. apply alike_networks. Qed.
Lemma stays_collect_net i l : stays networks (Conn.on_streams (StreamMap.collect i l)).
Proof.
  eapply stays_mono; [|apply stays_collect]. intros c c' (Ho & _ & Hi). destruct Hi as [Hi|[Hn Hc]]; [by apply (same_networks i)|].
  apply (only_networks i); [done|intros _ b Hb; congruence|by intros _; left|by intros _; right].
Qed.
Lemma stays_open_net i local : stays networks (Conn.get_or_create_stream i local).
Proof.
  intros c. eapply pp_mono; [apply pp_open|..]; cbv beta; [|intros e c' ->; reflexivity].
  intros s c' [(Ho & _ & [Hi|(Hn & Hc & _ & rx & tx & w & E)]) _]; [by apply (same_networks i)|].
  apply (only_networks i); [done| | |intros _; left; by rewrite E].
  - intros [_ Hu] b Hb. rewrite E in Hb. injection Hb as <-. unfold good. destruct (Hu i) as [[[b Hb]|?]|[-> ->]]; [congruence|done|].
    split; [apply got_new|apply queued_new].
  - intros [?|(b & Hb & _)]; [done|congruence].
Qed.
Lemma stays_on_send_net {A} i (x : M SendBuf.t Error A) : stays shrinks x → stays networks (Conn.on_send i x).
Proof.
  intros Hx c. apply pp_on_stream. intros s Hs. apply pp_zoom. eapply pp_mono; [apply Hx|..]; cbv beta;
    (intros ? sb Hsb; apply (put_networks i s); [done| |by intros _ ?]; intros [Hg Hq]; split; [done|]; apply (queued_shrinks _ _ _ Hsb), Hq).
Qed.
Lemma goes_on_recv {A} i (x : M RecvBuf.t Error A) :
  (∀ rb, got rb (said i) (tk i) → pp x (λ _ rb', got rb' (said i) (tk i) ∧ read_out rb rb') (λ _ _, True) rb) → goes networks (Conn.on_recv i x).
Proof.
  intros Hx c. apply pp_on_stream. intros s Hs. apply pp_zoom, pp_run; [|done]. intros a rb Hr.
  assert (good i (buffers s) → got rb (said i) (tk i) ∧ read_out (Stream.recv s) rb) as Hrb.
  { intros [Hg _]. specialize (Hx _ Hg). unfold pp in Hx. cbn [fst buffers] in Hx. by rewrite Hr in Hx. }
  apply (put_networks i s); [done|intros Hg; split; [by apply Hrb|apply Hg]|intros Hg; by apply Hrb].
Qed.

(** *** The peer's frames *)

Ltac beside_net := apply stays_still_net; first [apply stays_stream_get|apply stays_on_flow|apply stays_mark_blocked
  |apply (stays_insert Readable)|apply (stays_insert Writable)|apply (stays_insert Flushable)|apply (stays_remove Writable)|apply (stays_remove Flushable)
  |apply stays_put_still; by intros|apply stays_beside; intros m; by split; [constructor|intros []]].
(** One step that keeps to [networks]. *)
Ltac net_step := first [apply stays_open_net|apply stays_on_send_net; first [apply stays_emit|apply stays_stop|apply stays_ack_and_drop|apply stays_retransmit|apply stays_update_max]|apply stays_collect_net|by apply stays_alike_net, stays_money|beside_net].
Ltac net := repeat first [progress intros|apply _|net_step|apply stays_ret|apply stays_fail|apply stays_panic|apply stays_get|apply stays_lift|apply stays_reads
  |apply stays_bind|apply stays_when|apply stays_attempt|case_match].

(** [put] of the state that was just read. *)
Lemma put_alike c c' : Conn.is_server c' = Conn.is_server c → Conn.streams c' = Conn.streams c → networks c c'.
Proof.
  intros ? E. apply alike_networks. split; [split; [done|]; intros; by rewrite E|]. intros j. unfold same_at, stream_at, collected_at. by rewrite E.
Qed.
Lemma goes_put {X} (f : Conn.t → result Error X) (g : X → Conn.t → Conn.t) :
  (∀ x c, Conn.is_server (g x c) = Conn.is_server c ∧ Conn.streams (g x c) = Conn.streams c) →
  goes networks (c ← get; x ← lift (f c); put (g x c)).
Proof. intros Hg c. apply pp_bind, pp_get, pp_bind, pp_lift; [|done]. intros x _. apply pp_put. by apply put_alike; apply Hg. Qed.
Lemma goes_put_then {X} (f : Conn.t → result Error X) (g : X → Conn.t → Conn.t) (k : M Conn.t Error unit) :
  (∀ x c, Conn.is_server (g x c) = Conn.is_server c ∧ Conn.streams (g x c) = Conn.streams c) → goes networks k →
  goes networks (c ← get; x ← lift (f c); put (g x c);; k).
Proof.
  intros Hg Hk c. apply pp_bind, pp_get, pp_bind, pp_lift; [|done]. intros x _. apply pp_bind, pp_put.
  eapply pp_mono; [apply Hk|..]; cbv beta; [|done]. intros. etrans; [|done]. by apply put_alike; apply Hg.
Qed.

Ltac net_goes := repeat first [progress intros|apply _|by apply goes_put|apply goes_put_then; [done|]|apply goes_on_recv|solve [apply (stays_goes networks); net]|apply (goes_bind networks)|case_match].

Lemma goes_reset_stream i e n : goes networks (Conn.on_reset_stream i e n).
Proof.
  unfold Conn.on_reset_stream, Conn.with_peer_stream.
  net_goes. apply got_reset.
Qed.
Lemma goes_stop_sending i e : goes networks (Conn.on_stop_sending i e).
Proof. unfold Conn.on_stop_sending, Conn.with_peer_stream. net_goes. Qed.
Lemma goes_max_stream_data i n : goes networks (Conn.on_max_stream_data i n).
Proof. unfold Conn.on_max_stream_data, Conn.with_peer_stream. net_goes. Qed.
Lemma goes_stream_data i data : all_raw (hears (said i)) data → goes networks (Conn.on_stream_data i data).
Proof.
  intros Hd. unfold Conn.on_stream_data, Conn.with_peer_stream.
  net_goes. by apply got_write.
Qed.

(** STREAM frames hold bytes that the peer wrote, at their offsets. *)
Definition frame_says (f : Frame.t) : Prop := match f with Frame.Stream i data => all_raw (hears (said i)) data | _ => True end.

Lemma goes_raise_limit l b (f : Z → StreamMap.t → StreamMap.t) max :
  (∀ m, StreamMap.streams (f max m) = StreamMap.streams m ∧ StreamMap.collected (f max m) = StreamMap.collected m ∧
     Streams.limit l b (f max m) = Z.max (Streams.limit l b m) max ∧ ∀ l' b', (l', b') ≠ (l, b) → Streams.limit l' b' (f max m) = Streams.limit l' b' m) → l = true → max <= 2 ^ 60 →
  goes networks (Conn.on_streams (modify (f max))).
Proof.
  intros Hf Hlb Hmax c. apply pp_zoom, pp_modify. destruct (Hf (Conn.streams c)) as (Es & Ec & El & Eo). intros Hu. unfold agrees, finished_at, touched, stream_at, collected_at in *. cbn.
  rewrite Es, Ec. split; [exact Hu|]. split; [done|]. split; [done|]. intros [Hl1 Hl2]. unfold limits_ok.
  change (Conn.streams (Conn.set_streams (f max (Conn.streams c)) c)) with (f max (Conn.streams c)). subst l. split; [|by rewrite Eo].
  intros b'. destruct (decide (b' = b)) as [-> |Hne]; [rewrite El; specialize (Hl1 b); lia|]. rewrite Eo; [apply Hl1|by intros [= ?]].
Qed.

Lemma goes_process_frame f m : frame_says f → Conn.process_frame f = Some m → goes networks m.
Proof.
  intros Hf Hm. destruct f; try done; cbn [Conn.process_frame] in Hm; injection Hm as <-.
  - apply goes_reset_stream.
  - apply goes_stop_sending.
  - by apply goes_stream_data.
  - apply (stays_goes networks). by apply stays_alike_net, stays_money.
  - apply goes_max_stream_data.
  - destruct (Z.ltb_spec MAX_STREAM_ID max); [by intros c|]. apply (goes_raise_limit true true); [|done|done]. intros m0. split_and!; [done..|]. by intros [] [].
  - destruct (Z.ltb_spec MAX_STREAM_ID max); [by intros c|]. apply (goes_raise_limit true false); [|done|done]. intros m0. split_and!; [done..|]. by intros [] [].
  - net_goes.
  - net_goes.
  - net_goes.
  - net_goes.
Qed.

(** *** Feedback and packets *)

Lemma goes_acked f : goes networks (Conn.acked_frame f).
Proof. unfold Conn.acked_frame, Conn.collect_if_done. net_goes. Qed.
Lemma goes_lost f : goes networks (Conn.lost_frame f).
Proof. unfold Conn.lost_frame. net_goes. Qed.

(** Writing a packet. *)
Definition pkt_networks (st st' : Packing.t) : Prop := networks (Packing.conn st) (Packing.conn st').
#[local] Instance pkt_networks_preorder : PreOrder pkt_networks.
Proof. split; [intros st; unfold pkt_networks; reflexivity|]. intros s1 s2 s3 H1 H2. unfold pkt_networks in *. by etrans. Qed.

Lemma stays_pkt_conn {A} (m : M Conn.t Error A) : stays networks m → stays pkt_networks (Packing.on_conn m).
Proof. by apply stays_zoom. Qed.
Lemma stays_pkt_b {A} (m : M octets Error A) : stays pkt_networks (Packing.on_b m).
Proof. apply (stays_zoom _ (λ _ _, True)); [|intros o; apply pp_run; by intros]. intros st o _. unfold pkt_networks. cbn. reflexivity. Qed.
Lemma stays_pkt_modify f : (∀ st, Packing.conn (f st) = Packing.conn st) → stays pkt_networks (modify f : M Packing.t Error unit).
Proof. intros Hf. apply stays_modify. intros st. unfold pkt_networks. by rewrite Hf. Qed.

Ltac pkt := repeat first [progress intros|apply _|apply stays_pkt_b|by apply stays_pkt_modify|apply stays_pkt_conn; net|apply stays_ret|apply stays_fail
  |apply stays_panic|apply stays_get|apply stays_lift|apply stays_reads|apply stays_bind|apply stays_when|apply stays_attempt|case_match].

Lemma stays_write_stream i off hdr_len max_len : stays pkt_networks (Packing.write_stream i off hdr_len max_len).
Proof. unfold Packing.write_stream, Packing.emit_into, Packing.push_and, Packing.push_frame_to_pkt, Packing.mark_data. pkt. Qed.
Lemma stays_stream_loop fuel : stays pkt_networks (Packing.stream_loop fuel).
Proof.
  induction fuel as [|fuel IH]; [by intros st|]. cbn [Packing.stream_loop].
  repeat first [exact IH|apply stays_write_stream|progress pkt].
Qed.
Lemma stays_stream_frames b : stays pkt_networks (Packing.stream_frames b).
Proof.
  unfold Packing.stream_frames. apply (stays_bind pkt_networks); [apply (stays_get pkt_networks)|intros st].
  apply (stays_when pkt_networks). intros _. apply stays_stream_loop.
Qed.

Lemma networks_same c c' : Conn.is_server c' = Conn.is_server c → Conn.streams c' = Conn.streams c → networks c c'.
Proof. apply put_alike. Qed.
Lemma goes_quiet {A} (m : M Conn.t Error A) : goes networks m → goes networks (ConnRun.quiet m).
Proof. intros Hm. apply (goes_bind networks); [done|]. intros a c. by apply pp_ret. Qed.

(** The steps of a connection that are not calls of the application. *)
Definition is_net (o : conn_op) : Prop := match o with OpFrame _ | OpAcked _ | OpLost _ | OpPacket _ | OpTxCap _ => True | _ => False end.
Definition op_says (o : conn_op) : Prop := match o with OpFrame f => frame_says f | _ => True end.

Lemma net_networks o c out c' : is_net o → op_says o → run_op o c = (Ok out, c') → networks c c'.
Proof.
  intros Hnet Hsays Hrun. assert (∀ m : M Conn.t Error (list Frame.t), goes networks m → m c = (Ok out, c') → networks c c') as Hgo.
  { intros m Hm E. specialize (Hm c). unfold pp in Hm. by rewrite E in Hm. }
  destruct o; try done; cbn [run_op] in Hrun.
  - eapply Hgo, Hrun. apply goes_quiet, stays_goes, stays_alike_net, stays_tx_cap.
  - destruct (Conn.process_frame f) as [m|] eqn:Hm; [|injection Hrun as <- <-; reflexivity]. eapply Hgo, Hrun. by eapply goes_quiet, goes_process_frame.
  - eapply Hgo, Hrun. apply goes_quiet, goes_acked.
  - eapply Hgo, Hrun. apply goes_quiet, goes_lost.
  - unfold write_packet in Hrun. pose proof (stays_stream_frames true (Packing.mk c p)) as Hst. unfold pp, pkt_networks in Hst.
    destruct (Packing.stream_frames true _) as [[u|e|] st]; [|done..]. injection Hrun as _ <-. exact Hst.
Qed.
End work.

Section worked.
Context `{RBTree} `{NetCoding}.
Implicit Types (c : Conn.t) (q : Quic.t).
Import Quic.

(** The counter of queued bytes has room. *)
Definition room_left c : Prop := ∀ i b, stream_at i c = Some b → SendBuf.len b.2 <= 2 ^ 63 + SendBuf.off b.2.

(** The connection after a step that sent [out]. *)
Definition after_op q (out : list Frame.t) c : t := set_frames (out ++ frames q) (set_conn c q).

Lemma quic_agrees q : quic_ok q → agrees (peer q) (taken q) (written q) (conn q).
Proof. intros Hok. split; [|apply Hok]. intros i b Hb. destruct (q_fine _ Hok i b Hb) as (? & ? & _). by split. Qed.

Lemma net_worked q o out c' : quic_ok q → is_net o → op_says (peer q) o → op_ok (frames q) (conn q) o → run_op o (conn q) = (Ok out, c') → room_left c' →
  worked q (after_op q out c').
Proof.
  intros Hok Hnet Hsays Ho Hrun Hroom. destruct (net_networks _ _ _ _ _ _ _ Hnet Hsays Hrun (quic_agrees _ Hok)) as ([Hgood Hlogs] & Hfin & Ht & Hl).
  pose proof (step_keeps (frames q) (conn q) o (q_wf _ Hok) (q_sent _ Hok) Ho (all_stuck _)) as Hk. unfold wp in Hk. rewrite Hrun in Hk. destruct Hk as [[Hwf Hev] Hout].
  pose proof (q_sent _ Hok) as Hs. split; [|intros j; split_and!; [done..|apply Hfin]]. destruct Hok. constructor; cbn; auto.
  - intros i b Hb. destruct (Hgood i b Hb). split_and!; [done..|by apply (Hroom i)].
  - apply Forall_app. split; [done|]. eapply Forall_impl; [exact Hs|]. intros f. by apply was_sent_evolves.
Qed.

(** More of what the peer wrote is known. *)
Lemma grown_worked q said : quic_ok q → (∀ i, peer q i `prefix_of` said i) → worked q (set_peer said q).
Proof.
  intros Hok Hpre. split; [|intros j; by split_and!]. constructor; cbn; [apply (q_wf _ Hok)| |apply (q_limits _ Hok)|apply (q_logs _ Hok)| |apply (q_cwin _ Hok)|apply (q_sent _ Hok)].
  - intros i b Hi. destruct (q_fine _ Hok i b Hi) as (Hg & ? & ?). split_and!; [by apply (got_grow _ (peer q i))|done|done].
  - intros i. etrans; [apply (q_taken _ Hok)|apply Hpre].
Qed.
Lemma worked_trans q1 q2 q3 : worked q1 q2 → worked q2 q3 → worked q1 q3.
Proof. intros [_ H1] [Hok H2]. split; [done|]. intros j. destruct (H1 j) as (? & ? & ?), (H2 j) as (? & ? & ?). split_and!; [congruence|congruence|auto]. Qed.
End worked.
