(* ===== verification/QuicWorld.v ===== *)
(** * HTTP/3 over QUIC

    Two endpoints, each an HTTP/3 connection over a QUIC connection, and the
    STREAM frames between them: the bytes of every packet may arrive in any
    order, several times or not at all, among any other frames. *)
From stdpp Require Import gmap relations.
From S2P Require Import Prelude Orders OctetsLib FlowCtl RangeBufs RecvBufs SendBufs Packets Frames FrameCodec Params Streams ConnStreams ConnInv ConnOps ConnFlush ConnRun ConnTouch QuicBuffers QpackCodec H3Frames H3Streams H3Conn H3Scan H3Inv H3Run H3Send H3Sent H3World H3Moves Quic QuicLaws QuicWork.

(** ** Bytes on the wire *)
Section wire.
Context `{NetCoding}.
Implicit Types (f : Frame.t) (bs : list Z).

(** What [from_bytes] makes of a STREAM frame that [send_single] wrote. *)
Lemma stream_frame_parsed i off out fin pkt dec : frame_ok (Frame.Stream i (RangeBuf.from out off fin)) → pkt = PktType.Short ∨ pkt = PktType.ZeroRTT →
  parses (Frame.from_bytes pkt dec) (enc_frame (Frame.Stream i (RangeBuf.from out off fin))) (Frame.Stream i (RangeBuf.from out off fin)).
Proof.
  intros Hok Hpkt. pose proof Hok as [Hi Hd]. pose proof (parse_stream_p i (RangeBuf.from out off fin) Hi Hd) as Hp.
  rewrite RangeBuf.off_from, RangeBuf.deref_from in Hp. cbn [RangeBuf.fin RangeBuf.from] in Hp.
  unfold enc_frame, Frame.from_bytes. pose proof (frame_type_small _ Hok). rewrite <- (enc_varint_small _ (frame_type_small _ Hok)).
  eapply parses_bind; [apply get_varint_p; unfold is_varint; lia|]. eapply parses_bind_ret.
  - cbn [frame_type enc_payload RangeBuf.fin RangeBuf.from]. rewrite RangeBuf.off_from, RangeBuf.deref_from. instantiate (1 := Frame.Stream i (RangeBuf.from out off fin)).
    by destruct fin.
  - by destruct Hpkt as [-> | ->].
Qed.

(** A STREAM frame with bytes of the stream at their offsets. *)
Definition carried (said : Z → list Z) bs : Prop := ∃ i off out fin, let f := Frame.Stream i (RangeBuf.from out off fin) in
  bs = enc_frame f ∧ frame_ok f ∧ ∀ j x, out !! j = Some x → spells (said i) (off + Z.of_nat j) x.

Lemma carried_grow said said' bs : (∀ i, said i `prefix_of` said' i) → carried said bs → carried said' bs.
Proof.
  intros Hs (i & off & out & fin & E & Hok & Hx). exists i, off, out, fin. split_and!; [done|done|]. intros j x Hj. eapply spells_grow; [apply Hs|by apply Hx].
Qed.

(** Bytes of [out] are in the frame's encoding. *)
Lemma stream_frame_bytes i off out fin : bytes_ok (enc_frame (Frame.Stream i (RangeBuf.from out off fin))) → bytes_ok out.
Proof.
  unfold enc_frame, enc_payload, enc_len2. rewrite RangeBuf.deref_from. intros Hb. by do 4 apply Forall_app in Hb as [_ Hb].
Qed.

Lemma carried_frame said bs pre rest pkt dec f : carried said bs → bytes_ok bs → pkt = PktType.Short ∨ pkt = PktType.ZeroRTT →
  (Frame.from_bytes pkt dec (mk_octets (pre ++ bs ++ rest) (zlen pre))).1 = Ok f → frame_says said f ∧ peer_frame f.
Proof.
  intros (i & off & out & fin & -> & Hok & Hx) Hb Hpkt Hrun. rewrite (stream_frame_parsed i off out fin pkt dec Hok Hpkt) in Hrun. injection Hrun as <-.
  apply stream_frame_bytes in Hb. destruct Hok as (Hi & Hwf & _ & _). split; [|split_and!; [apply Hi|unfold is_varint in Hi; change (2 ^ 62) with 4611686018427387904; lia|done|done]].
  intros o x [Ho Hl]. rewrite raw_max in Ho. cbn in Ho, Hl. rewrite Z.sub_0_r in Hl. split; [|by eapply Forall_lookup_1 in Hl].
  apply Hx in Hl. by replace (off + Z.of_nat (Z.to_nat (o - off))) with o in Hl by lia.
Qed.
End wire.

(** ** What the calls of HTTP/3 do to the QUIC connection *)
Section respects.
Context `{RBTree} `{NetCoding}.
Implicit Types (q : Quic.t).
Import Quic.

(** More may have been written; what the peer wrote is what it was. *)
Definition extends q q' : Prop := peer q' = peer q ∧ ∀ i, written q i `prefix_of` written q' i.
#[export] Instance extends_preorder : PreOrder extends.
Proof. split; [by intros q|]. intros q1 q2 q3 [? Hw1] [? Hw2]. split; [congruence|]. intros i. etrans; [apply Hw1|apply Hw2]. Qed.

Lemma extends_conn {A} (m : M Conn.t Error A) : stays extends (on_conn m).
Proof. apply (stays_zoom _ (λ _ _, True)); [|intros c; by apply pp_run]. intros q c _. by split. Qed.
#[export] Instance quic_respects : Respects extends.
Proof.
  split; [apply _|..].
  - intros i cap. cbn. unfold recv. apply (stays_bind extends); [apply extends_conn|intros r]. apply (stays_bind extends); [by apply stays_modify|intros _; apply (stays_ret extends)].
  - intros i bytes fin. cbn. unfold send, with_id. destruct (_ && _); [|apply (stays_fail extends)]. apply (stays_bind extends); [apply extends_conn|intros n].
    apply (stays_bind extends); [|intros _; apply (stays_ret extends)]. apply stays_modify. intros q. split; [done|]. intros j. cbn. unfold append. destruct (j =? i); [by apply prefix_app_r|done].
  - intros app err reason. cbn. unfold close. apply (stays_bind extends); [apply (stays_get extends)|intros q]. destruct (_ || _); [apply (stays_fail extends)|].
    destruct (bool_decide _); [apply (stays_fail extends)|]. cbv zeta. apply (stays_bind extends); [destruct (_ && _); by apply stays_modify|intros _].
    apply (stays_when extends). intros _. by apply stays_modify.
  - intros i n. apply extends_conn.
  - intros i dir err. cbn. unfold shutdown. apply (stays_bind extends); [apply (stays_get extends)|intros q]. apply extends_conn.
  - intros i u inc. cbn. unfold priority, with_id. destruct (_ && _); [apply extends_conn|apply (stays_fail extends)].
Qed.
End respects.

(** ** One endpoint *)
Section endpoint.
Context `{RBTree} `{NetCoding}.
Implicit Types (q : Quic.t) (c : Conn.t) (said : Z → list Z) (inbox : list (list Z)).
Import Quic.

(** A connection that got the peer's transport parameters, and did nothing yet.
    [from_bytes] refuses parameters with more streams. *)
Definition few_streams (p : TransportParams.t) : Prop :=
  TransportParams.initial_max_streams_bidi p <= 2 ^ 60 ∧ TransportParams.initial_max_streams_uni p <= 2 ^ 60.
Definition begins q : Prop := ∃ srv local remote w1 w2 cwin,
  stream_params local ∧ stream_params remote ∧ few_streams local ∧ few_streams remote ∧ 0 <= cwin ∧
  started srv local remote w1 w2 cwin (conn q) ∧
  (∀ i, taken q i = [] ∧ written q i = [] ∧ peer q i = []) ∧ frames q = [] ∧ 0 <= cwin_available q.

Lemma started_state srv local remote w1 w2 cwin c : started srv local remote w1 w2 cwin c →
  StreamMap.streams (Conn.streams c) = ∅ ∧ (∀ b, Streams.limit true b (Conn.streams c) = Z.max 0 (if b then TransportParams.initial_max_streams_bidi remote else TransportParams.initial_max_streams_uni remote)) ∧
  Streams.limit false true (Conn.streams c) = TransportParams.initial_max_streams_bidi local.
Proof.
  intros (c1 & Hnew & Hrun). unfold Conn.new in Hnew. unfold mbind, result_bind in Hnew. destruct (umul _ _) as [w|e|]; [|done..]. injection Hnew as <-.
  unfold Conn.process_peer_transport_params, Conn.update_tx_cap in Hrun. rewrite run_bind_modify in Hrun.
  unfold mbind at 1, M_bind at 1 in Hrun. rewrite run_bind_get in Hrun. unfold mbind at 1, M_bind at 1, lift in Hrun.
  destruct (usub _ _) as [room|e|]; [|done..]. cbn in Hrun. injection Hrun as <-. split_and!; [done|by intros []|done].
Qed.

Lemma begins_fresh q : begins q → fresh q.
Proof.
  intros (srv & local & remote & w1 & w2 & cwin & Hl & Hr & [Hf1 Hf2] & [Hf3 Hf4] & Hw & Hs & Hlogs & Hfr & Hcw).
  pose proof (started_wf _ _ _ _ _ _ _ Hl Hr Hw Hs) as Hwf. destruct (started_state _ _ _ _ _ _ _ Hs) as (Es & El & Ef).
  destruct Hl as (_ & _ & Hb & _). split; [|intros i; cbn; by destruct (Hlogs i) as (-> & -> & _)]. constructor.
  - done.
  - intros i b Hi. unfold stream_at in Hi. by rewrite Es in Hi.
  - split; [|rewrite Ef; lia]. intros b. rewrite El. change (2 ^ 60) with 1152921504606846976 in *. destruct b; lia.
  - intros i. right. by destruct (Hlogs i) as (-> & -> & _).
  - intros i. by destruct (Hlogs i) as (-> & _ & ->).
  - done.
  - by rewrite Hfr.
Qed.

(** The bytes that a packet got. *)
Definition packet_bytes (p : Packing.pkt) (st : Packing.t) : list Z :=
  zslice (o_off (Packing.b p)) (o_off (Packing.b (Packing.pk st))) (o_buf (Packing.b (Packing.pk st))).

(** Time, the handshake, the congestion window and the path. *)
Definition surroundings q q' : Prop := conn q' = conn q ∧ taken q' = taken q ∧ written q' = written q ∧ frames q' = frames q ∧ peer q' = peer q ∧
  0 <= cwin_available q'.

(** What happens to the connection [q] beside the calls of HTTP/3, with the
    STREAM frames it writes: [said] is what the peer's application wrote so far,
    [inbox] the STREAM frames that the peer's packets held. *)
Inductive carries said inbox q : t → list (list Z) → Prop :=
| carries_data pre bs rest pkt dec f out c' :
    bs ∈ inbox → bytes_ok bs → pkt = PktType.Short ∨ pkt = PktType.ZeroRTT →
    (Frame.from_bytes pkt dec (mk_octets (pre ++ bs ++ rest) (zlen pre))).1 = Ok f →
    run_op (OpFrame f) (conn q) = (Ok out, c') → room_left c' → carries said inbox q (after_op (set_peer said q) out c') []
| carries_other o out c' :
    match o with OpFrame (Frame.Stream _ _) | OpPacket _ => False | _ => is_net o end →
    op_ok (frames q) (conn q) o → run_op o (conn q) = (Ok out, c') → room_left c' → carries said inbox q (after_op q out c') []
| carries_packet p st :
    op_ok (frames q) (conn q) (OpPacket p) → Packing.stream_frames true (Packing.mk (conn q) p) = (Ok (), st) → room_left (Packing.conn st) →
    carries said inbox q (after_op q (Packing.frames (Packing.pk st)) (Packing.conn st))
      (match Packing.frames (Packing.pk st) with [] => [] | _ => [packet_bytes p st] end)
| carries_path q' : surroundings q q' → carries said inbox q q' [].

Lemma carries_worked said inbox q q' out : quic_ok q → (∀ i, peer q i `prefix_of` said i) → Forall (carried said) inbox → carries said inbox q q' out →
  worked q q' ∧ written q' = written q ∧ (∀ i, peer q' i `prefix_of` said i) ∧ Forall (carried (written q)) out.
Proof.
  intros Hok Hpre Hin Hc. destruct Hc as [pre bs rest pkt dec f out c' Hbs Hb Hpkt Hf Hrun Hroom|o out c' Hnet Ho Hrun Hroom|p st Ho Hrun Hroom|q' (E1 & E2 & E3 & E4 & E5 & E6)].
  - rewrite Forall_forall in Hin. destruct (carried_frame _ _ _ _ _ _ _ (Hin _ Hbs) Hb Hpkt Hf) as [Hsays Hpeer].
    pose proof (grown_worked q said Hok Hpre) as Hg. split_and!; [|done|done|done]. eapply worked_trans; [exact Hg|]. by apply (net_worked _ (OpFrame f)); [apply Hg|..].
  - split_and!; [|done|done|done]. apply (net_worked _ o); try done; destruct o; try done; by destruct f.
  - assert (run_op (OpPacket p) (conn q) = (Ok (Packing.frames (Packing.pk st)), Packing.conn st)) as Hr by (cbn [run_op]; unfold write_packet; by rewrite Hrun).
    split_and!; [by apply (net_worked _ (OpPacket p))|done|done|].
    destruct Ho as (Hp & Hfr). pose proof (wp_stream_frames (Packing.mk (conn q) p) (q_wf _ Hok) Hp (all_stuck _)) as Hw. unfold wp in Hw. rewrite Hrun in Hw.
    destruct (_ <? _); [|subst st; cbn; rewrite Hfr; constructor]. destruct Hw as [(Hpk & _)|(i & s & out & fin & (Hs & _) & [Hbuf Hframes _ Hout Hframe _ _ _])]; [cbn in Hpk; rewrite Hpk, Hfr; constructor|].
    rewrite Hframes. cbn [Packing.pk] in *. rewrite Hfr. cbn [app]. apply Forall_singleton. exists i, (SendBuf.off_front (Stream.send s)), out, fin.
    cbv zeta in Hbuf |- *. split_and!; [|exact Hframe|].
    + destruct Hbuf as (Hb & Ho & Hleft & Hfit). fold (stream_frame i s out fin). unfold packet_bytes. rewrite Ho, Hb. destruct Hp as (Hp1 & _ & Hp2).
      apply (zslice_mid (ztake (o_off (Packing.b p)) (o_buf (Packing.b p)))); rewrite zlen_ztake by (pose proof (zlen_nonneg (enc_frame (stream_frame i s out fin))); lia); lia.
    + cbn [Packing.conn] in Hs. intros j x Hj. assert (stream_at i (conn q) = Some (buffers s)) as Hat by (unfold stream_at; by rewrite Hs).
      destruct (q_fine _ Hok _ _ Hat) as (_ & [Hq _] & _). pose proof (proj2 (content_all _ _) Hq) as Hc. by apply Hc, Hout.
  - split_and!; [split|done|by rewrite E5|constructor].
    + destruct Hok. constructor; rewrite ?E1, ?E2, ?E3, ?E4, ?E5; done.
    + intros j. cbn. rewrite E1, E2, E3. by split_and!.
Qed.
End endpoint.

(** ** Two endpoints *)
Section pair.
Context `{RBTree} `{NetCoding}.
Implicit Types (w : world Quic.t) (said : Z → list Z) (inbox out : list (list Z)).
Import Quic.

(** A step of one endpoint: a call of HTTP/3, or something else of its QUIC
    connection. *)
Inductive half said inbox w : world t → list (list Z) → Prop :=
| half_call o : allowed o w → (∀ c, o ≠ Work c) → half said inbox w (exec o w) []
| half_work q out : carries said inbox (wc w) q out → half said inbox w (exec (Work q) w) out.

(** The endpoints, and the STREAM frames that were sent to each of them. *)
Record pair := Pair { end1 : world t; end2 : world t; to1 : list (list Z); to2 : list (list Z) }.

Inductive pair_step p : pair → Prop :=
| step_1 w out : half (written (wc (end2 p))) (to1 p) (end1 p) w out → pair_step p (Pair w (end2 p) (to1 p) (out ++ to2 p))
| step_2 w out : half (written (wc (end1 p))) (to2 p) (end2 p) w out → pair_step p (Pair (end1 p) w (out ++ to1 p) (to2 p)).

(** HTTP/3 opened its streams over a connection that had just begun. *)
Definition opened_over config w : Prop := ∃ n1 n2 n3 q h q', begins q ∧ 0 <= limit config ∧ draw n3 ∧ config_fine n1 n2 config ∧
  H3Send.with_transport n1 n2 n3 config q = (Ok h, q') ∧ w = World h q' (λ _, []) (λ _, []).
Definition pair_reachable config1 config2 p : Prop := ∃ w1 w2,
  opened_over config1 w1 ∧ opened_over config2 w2 ∧ rtc pair_step (Pair w1 w2 [] []) p.

(** *** The invariant of an endpoint *)
Definition side_ok config said inbox w : Prop :=
  reachable config w ∧ (∀ i, peer (wc w) i `prefix_of` said i) ∧ Forall (carried said) inbox.

Lemma side_grow config said said' inbox w : (∀ i, said i `prefix_of` said' i) → side_ok config said inbox w → side_ok config said' inbox w.
Proof.
  intros Hs (Hr & Hp & Hin). split_and!; [done|intros i; etrans; [apply Hp|apply Hs]|]. eapply Forall_impl; [exact Hin|]. intros bs. by apply carried_grow.
Qed.
Lemma side_more config said inbox out w : Forall (carried said) out → side_ok config said inbox w → side_ok config said (out ++ inbox) w.
Proof. intros Ho (Hr & Hp & Hin). split_and!; [done|done|]. by apply Forall_app. Qed.

Lemma half_ok config said inbox w w' out : side_ok config said inbox w → half said inbox w w' out →
  side_ok config said inbox w' ∧ (∀ i, written (wc w) i `prefix_of` written (wc w') i) ∧ Forall (carried (written (wc w'))) out.
Proof.
  intros (Hr & Hp & Hin) Hh. destruct (h3_reachable_ok _ _ Hr) as [Hm Hw]. destruct Hh as [o Ho Hnot|q out Hc].
  - destruct (exec_moves extends _ _ _ Hm Hw Ho Hnot) as [Ep Hwr]. split_and!; [|done|constructor]. split_and!; [by apply reachable_exec|by rewrite Ep|done].
  - destruct (carries_worked _ _ _ _ _ (proj1 (proj1 Hw)) Hp Hin Hc) as (Hwork & Ew & Hp' & Hout). destruct w as [h c A T]. cbn [exec wc] in *.
    split_and!; [|by rewrite Ew|by rewrite Ew]. split_and!; [|done|done]. by apply (reachable_exec config (World h c A T) (Work q)).
Qed.

Lemma opened_side config said w : opened_over config w → side_ok config said [] w.
Proof.
  intros (n1 & n2 & n3 & q & h & q' & Hb & Hm & Hn & Hc & Hrun & ->). split_and!; [|intros i|constructor].
  - eexists. split; [|apply rtc_refl]. by eapply start_with, Hrun; [apply begins_fresh|..].
  - destruct (start_moves extends _ _ _ _ _ _ _ Hrun) as [Ep _]. cbn. rewrite Ep.
    destruct Hb as (? & ? & ? & ? & ? & ? & _ & _ & _ & _ & _ & _ & Hlogs & _). destruct (Hlogs i) as (_ & _ & ->). apply prefix_nil.
Qed.

Definition pair_ok config1 config2 p : Prop :=
  side_ok config1 (written (wc (end2 p))) (to1 p) (end1 p) ∧ side_ok config2 (written (wc (end1 p))) (to2 p) (end2 p).

Lemma pair_step_ok config1 config2 p p' : pair_ok config1 config2 p → pair_step p p' → pair_ok config1 config2 p'.
Proof.
  intros [H1 H2] Hs. destruct Hs as [w out Hh|w out Hh].
  - destruct (half_ok _ _ _ _ _ _ H1 Hh) as (H1' & Hgrow & Hout). split; cbn; [done|]. by apply side_more, (side_grow _ (written (wc (end1 p)))).
  - destruct (half_ok _ _ _ _ _ _ H2 Hh) as (H2' & Hgrow & Hout). split; cbn; [|done]. by apply side_more, (side_grow _ (written (wc (end2 p)))).
Qed.

Lemma pair_reachable_ok config1 config2 p : pair_reachable config1 config2 p → pair_ok config1 config2 p.
Proof.
  intros (w1 & w2 & H1 & H2 & Hrun). assert (pair_ok config1 config2 (Pair w1 w2 [] [])) as Hok by (split; by apply opened_side).
  revert Hok. induction Hrun as [p|p p1 p2 Hs _ IH]; [done|]. intros Hok. by apply IH, (pair_step_ok _ _ p).
Qed.

(** What was read from a stream is part of what was written to it. *)
Lemma pair_prefix config1 config2 p i : pair_ok config1 config2 p → taken (wc (end2 p)) i `prefix_of` written (wc (end1 p)) i.
Proof.
  intros [_ (Hr & Hp & _)]. etrans; [|apply Hp]. apply (q_taken (wc (end2 p))). exact (reachable_t_ok config2 _ Hr).
Qed.

(** The other way round. *)
Definition flip p : pair := Pair (end2 p) (end1 p) (to2 p) (to1 p).
Lemma pair_ok_flip config1 config2 p : pair_ok config1 config2 p → pair_ok config2 config1 (flip p).
Proof. by intros [? ?]. Qed.

(** What the application of [w2] was given of the stream [i] is a beginning of
    what the application of [w1] sent, and all of it up to an item when all the
    bytes were read. *)
Definition delivered config (w1 w2 : world t) i : Prop := Forall (within (limit config)) (wscript w1 i) →
  wlog w2 i `prefix_of` received_item <$> wscript w1 i ∧
  (taken (wc w2) i = written (wc w1) i → (length (wscript w1 i) <= length (wlog w2 i) + 1)%nat).

Lemma pair_delivers config1 config2 p i : pair_ok config1 config2 p → is_bidi i = true → delivered config2 (end1 p) (end2 p) i.
Proof.
  intros Hok Hi Hw. pose proof Hok as [(H1 & _) (H2 & _)]. refine (ends_agree config1 config2 _ _ i H1 H2 Hi _ Hw). by apply (pair_prefix config1 config2).
Qed.

(** C2. Streams over a network that loses, repeats and reorders.  Two QUIC
    connections, each under HTTP/3 and with any calls of its application, write
    packets whose STREAM frames reach the other side in any order, any number of
    times or never, among any acknowledgements and losses of what was sent and
    any other frames: what is read from a stream is always a beginning of what
    the peer wrote to it. *)
Theorem quic_streams_agree config1 config2 p i : pair_reachable config1 config2 p →
  taken (wc (end2 p)) i `prefix_of` written (wc (end1 p)) i ∧ taken (wc (end1 p)) i `prefix_of` written (wc (end2 p)) i.
Proof.
  intros Hr. pose proof (pair_reachable_ok _ _ _ Hr) as Hok. split; [by apply (pair_prefix config1 config2)|].
  by apply (pair_prefix config2 config1 (flip p)), pair_ok_flip.
Qed.

(** C1. HTTP/3 over QUIC, end to end.  In the same runs, on every request stream
    and in both directions, the application is given header lists and body bytes
    that are a beginning of what the peer's application sent, header names in
    lower case, provided the lists are within its limit; when all the bytes of
    the stream were read, at most one item is missing. *)
Theorem h3_over_quic config1 config2 p i : pair_reachable config1 config2 p → is_bidi i = true →
  delivered config2 (end1 p) (end2 p) i ∧ delivered config1 (end2 p) (end1 p) i.
Proof.
  intros Hr Hi. pose proof (pair_reachable_ok _ _ _ Hr) as Hok. split; [by apply (pair_delivers config1 config2)|].
  apply (pair_delivers config2 config1 (flip p)); [by apply pair_ok_flip|done].
Qed.
End pair.

(** ** A request over a network that reorders and repeats *)
Module Exchange.
#[local] Existing Instance ToyOrders.rbtree.
#[local] Existing Instance ToyCoding.coding.
Import Quic.

Definition begun (server : bool) : Conn.t :=
  match Conn.new server small_params 10000 10000 with
  | Ok c => (Conn.process_peer_transport_params 5000 small_params c).2
  | _ => Runs.fresh
  end.
Definition idle (server : bool) : t :=
  mk (begun server) None false false true false 1 false 5000 8 1200 (Some 16) (λ _, []) (λ _, []) [] (λ _, []).
Definition opened (server : bool) : world t :=
  match H3Send.with_transport 1 2 3 Demo.config (idle server) with
  | (Ok h, q) => World h q (λ _, []) (λ _, [])
  | (_, q) => World (H3Conn.new Demo.config server false) q (λ _, []) (λ _, [])
  end.

Lemma config_ok : config_fine 1 2 Demo.config.
Proof.
  intros g srv dgram Hg. split; [split|].
  - destruct Hg as [-> | ->]; by destruct dgram; vm_compute.
  - assert (settings_ok (H3Frame.mk_settings (Some 1000) None None None (if dgram then Some 1 else None) g None None)) as Hok; [|exact Hok].
    destruct Hg as [-> | ->]; destruct dgram; by apply (bool_decide_unpack (settings_ok _)).
  - destruct Hg as [-> | ->]; by destruct dgram; vm_compute.
Qed.
Lemma opened_runs server : opened_over Demo.config (opened server).
Proof.
  assert (match (H3Send.with_transport 1 2 3 Demo.config (idle server)).1 with Ok _ => true | _ => false end = true) as Hok by (destruct server; by vm_compute).
  unfold opened. destruct (H3Send.with_transport 1 2 3 Demo.config (idle server)) as [[h|e|] q'] eqn:Hrun; [|discriminate Hok..]. clear Hok.
  exists 1, 2, 3, (idle server), h, q'. split_and!; [|by vm_compute|by vm_compute|apply config_ok|exact Hrun|done].
  exists server, small_params, small_params, 10000, 10000, 5000.
  assert (few_streams small_params) as Hfew by (by vm_compute). split_and!; [apply Runs.small_params_ok|apply Runs.small_params_ok|done|done|lia| |done|done|by vm_compute].
  eexists. split; destruct server; reflexivity.
Qed.

(** *** Steps of the client *)
Definition roomy (c : Conn.t) : bool := bool_decide (map_Forall (λ _ s, SendBuf.len (Stream.send s) <= 2 ^ 63 + SendBuf.off (Stream.send s)) (StreamMap.streams (Conn.streams c))).
Lemma roomy_left c : roomy c = true → room_left c.
Proof. intros Hr%bool_decide_eq_true i b (s & Hs & ->)%fmap_Some. exact (Hr i s Hs). Qed.
Definition fueled (fuel : nat) (q : t) : bool := (2 <? Z.of_nat fuel) &&
  bool_decide (map_Forall (λ _ s, 3 * weight (RecvBuf.data (Stream.recv s)) + 2 < Z.of_nat fuel) (StreamMap.streams (Conn.streams (conn q)))).
Lemma fueled_enough fuel q : fueled fuel q = true → enough fuel q.
Proof.
  intros [Hf%Z.ltb_lt Hr%bool_decide_eq_true]%andb_true_iff i. cbn. unfold backlog_at, stream_at. destruct (StreamMap.streams _ !! i) as [s|] eqn:Hs; [|cbn; lia].
  exact (Hr i s Hs).
Qed.

Definition call1 (o : op t) (p : pair) : pair := Pair (exec o (end1 p)) (end2 p) (to1 p) (to2 p).
Definition call2 (o : op t) (p : pair) : pair := Pair (end1 p) (exec o (end2 p)) (to1 p) (to2 p).
Lemma call1_step o p : allowed o (end1 p) → (∀ c, o ≠ Work c) → pair_step p (call1 o p).
Proof. intros Ho Hn. exact (step_1 p _ [] (half_call _ _ _ o Ho Hn)). Qed.
Lemma call2_step o p : allowed o (end2 p) → (∀ c, o ≠ Work c) → pair_step p (call2 o p).
Proof. intros Ho Hn. exact (step_2 p _ [] (half_call _ _ _ o Ho Hn)). Qed.

(** A packet of the client with [n] bytes of room. *)
Definition room (n : Z) : Packing.pkt := Packing.mk_pkt (mk_octets (replicate (Z.to_nat (4 + n)) 0) 4) [] n false false false.
Definition packed (n : Z) (q : t) : result Error unit * Packing.t := Packing.stream_frames true (Packing.mk (conn q) (room n)).
Definition send1 (n : Z) (p : pair) : pair :=
  let q := wc (end1 p) in
  let st := (packed n q).2 in
  Pair (exec (Work (after_op q (Packing.frames (Packing.pk st)) (Packing.conn st))) (end1 p)) (end2 p) (to1 p)
    ((match Packing.frames (Packing.pk st) with [] => [] | _ => [packet_bytes (room n) st] end) ++ to2 p).
Definition sendable (n : Z) (p : pair) : bool :=
  let '(r, st) := packed n (wc (end1 p)) in
  (0 <=? n) && (n <? 16384) && match r with Ok _ => true | _ => false end && roomy (Packing.conn st).
Lemma send1_step n p : sendable n p = true → pair_step p (send1 n p).
Proof.
  unfold sendable, send1. cbv zeta. destruct (packed n (wc (end1 p))) as [r st] eqn:Hrun. cbn [snd]. rewrite !andb_true_iff.
  intros (((Hn1%Z.leb_le & Hn2%Z.ltb_lt) & Hr) & Hroom%roomy_left). destruct r as [[]|e|]; [|done..].
  apply step_1, half_work, (carries_packet _ _ _ (room n) st); [|exact Hrun|exact Hroom].
  cbn. unfold pkt_ok. cbn. unfold zlen. rewrite length_replicate. split_and!; [lia..|done].
Qed.

(** *** The server gets the [k]th latest frame that was sent to it *)
Definition frame_of (bs : list Z) : result Error Frame.t := (Frame.from_bytes PktType.Short (ToyCoding.decoder 100) (mk_octets ([] ++ bs ++ []) 0)).1.
Definition deliver2 (k : nat) (p : pair) : pair :=
  let q := wc (end2 p) in
  match frame_of (default [] (to2 p !! k)) with
  | Ok f => Pair (end1 p) (exec (Work (after_op (set_peer (written (wc (end1 p))) q) [] (run_op (OpFrame f) (conn q)).2)) (end2 p)) (to1 p) (to2 p)
  | _ => p
  end.
Definition deliverable (k : nat) (p : pair) : bool :=
  match to2 p !! k with
  | Some bs => bool_decide (bytes_ok bs) && match frame_of bs with
      | Ok f => let '(r, c) := run_op (OpFrame f) (conn (wc (end2 p))) in match r with Ok [] => true | _ => false end && roomy c
      | _ => false
      end
  | None => false
  end.
Lemma deliver2_step k p : deliverable k p = true → pair_step p (deliver2 k p).
Proof.
  unfold deliverable, deliver2. cbv zeta. destruct (to2 p !! k) as [bs|] eqn:Hbs; [|done]. cbn [default from_option id]. destruct (frame_of bs) as [f|e|] eqn:Hf; rewrite ?andb_false_r; [|done..].
  intros [Hb%bool_decide_eq_true Hr]%andb_true_iff. destruct (run_op (OpFrame f) _) as [r c] eqn:Hrun. apply andb_true_iff in Hr as [Hr Hroom%roomy_left].
  destruct r as [[|]|e|]; [|done..]. cbn [snd]. refine (step_2 p _ [] (half_work _ _ _ _ _ _)).
  apply (carries_data _ _ _ [] bs [] PktType.Short (ToyCoding.decoder 100) f []); [by eapply list_elem_of_lookup_2|done|by left|exact Hf|exact Hrun|exact Hroom].
Qed.

(** *** The run *)
Definition asked : pair := call1 (SendBody 0 [1; 2; 3] true) (call1 (SendRequest 4 5 Demo.request false) (Pair (opened false) (opened true) [] [])).
(** The control and QPACK streams, and the request in two packets. *)
Definition sent5 : pair := send1 19 (send1 19 (send1 100 (send1 100 (send1 100 asked)))).
(** The second half of the request comes first, the first half comes twice. *)
Definition heard3 : pair := deliver2 1 (deliver2 1 (deliver2 0 sent5)).
Definition read3 : pair := call2 (RecvBody 1000 0 10) (call2 (Poll 1000) (call2 (Poll 1000) heard3)).

Lemma run_more p0 p p' : rtc pair_step p0 p → pair_step p p' → rtc pair_step p0 p'.
Proof. intros Hr Hs. by eapply rtc_r. Qed.

Lemma asked_runs : rtc pair_step (Pair (opened false) (opened true) [] []) asked.
Proof.
  unfold asked. eapply run_more; [eapply run_more; [apply rtc_refl|]|].
  - apply (call1_step (SendRequest 4 5 Demo.request false)); cbn [allowed]; [|by intros c]. split_and!; [by split|by split|apply Demo.request_fine|unfold unopened; by vm_compute|].
    intros Hrun. vm_compute in Hrun. discriminate.
  - apply (call1_step (SendBody 0 [1; 2; 3] true)); cbn [allowed]; [|by intros c]. split; [|split; vm_compute; discriminate]. apply (bool_decide_unpack (bytes_ok _)). by vm_compute.
Qed.
Lemma sent5_runs : rtc pair_step asked sent5.
Proof. unfold sent5. do 5 (eapply run_more; [|apply send1_step; vm_compute; reflexivity]). apply rtc_refl. Qed.
Lemma heard3_runs : rtc pair_step sent5 heard3.
Proof. unfold heard3. do 3 (eapply run_more; [|apply deliver2_step; vm_compute; reflexivity]). apply rtc_refl. Qed.
Lemma read3_runs : rtc pair_step heard3 read3.
Proof.
  unfold read3. eapply run_more; [eapply run_more; [eapply run_more; [apply rtc_refl|]|]|].
  - apply (call2_step (Poll 1000)); [|by intros c]. apply fueled_enough. vm_compute. reflexivity.
  - apply (call2_step (Poll 1000)); [|by intros c]. apply fueled_enough. vm_compute. reflexivity.
  - apply (call2_step (RecvBody 1000 0 10)); [|by intros c]. split; [apply fueled_enough; vm_compute; reflexivity|]. intros e He. vm_compute in He. discriminate.
Qed.

Lemma reachable3 : pair_reachable Demo.config Demo.config read3.
Proof.
  exists (opened false), (opened true). split_and!; [apply opened_runs|apply opened_runs|].
  etrans; [apply asked_runs|]. etrans; [apply sent5_runs|]. etrans; [apply heard3_runs|]. apply read3_runs.
Qed.
End Exchange.

Lemma quic_streams_agree_witness :
  zlen (Quic.taken (wc (end2 Exchange.read3)) 0) = 19 ∧
  Quic.taken (wc (end2 Exchange.read3)) 0 `prefix_of` Quic.written (wc (end1 Exchange.read3)) 0.
Proof.
  split; [vm_compute; reflexivity|].
  apply (quic_streams_agree (H := ToyOrders.rbtree) (H0 := ToyCoding.coding) Demo.config Demo.config Exchange.read3 0 Exchange.reachable3).
Defined.

Lemma h3_over_quic_witness :
  wlog (end2 Exchange.read3) 0 = [IHeaders (lower <$> Demo.request); IBody 1; IBody 2; IBody 3] ∧
  delivered (H0 := ToyCoding.coding) Demo.config (end1 Exchange.read3) (end2 Exchange.read3) 0.
Proof.
  split; [vm_compute; reflexivity|].
  apply (h3_over_quic (H := ToyOrders.rbtree) (H0 := ToyCoding.coding) Demo.config Demo.config Exchange.read3 0 Exchange.reachable3 eq_refl).
Defined.
