(* ===== verification/Dgrams.v ===== *)
(** * Datagrams

    The queue of [quiche/src/dgram.rs], and the part of [Connection]
    ([quiche/src/lib.rs]) that sends and receives DATAGRAM frames: the calls of
    the application, the frames of a packet, and the frame that arrives.  The
    theorems: the loop that fills a packet writes exactly the datagrams that a
    reference function chooses, and what the peer's application receives are
    datagrams that were sent, each at most once. *)
From stdpp Require Import gmap relations.
From S2P Require Import Prelude Orders OctetsLib Packets Frames FrameCodec Params Streams ConnStreams ConnInv ConnFlush ConnRun Quic.

(** ** The queue ([dgram.rs]) *)
Module DatagramQueue.
Record t := mk { queue : option (list (list Z)); queue_max_len : Z; queue_bytes_size : Z }.
Implicit Types (q : t) (d data buf : list Z).

Definition new (queue_max_len : Z) : t := mk None queue_max_len 0.

Definition len q : Z := match queue q with Some l => zlen l | None => 0 end.
Definition is_full q : bool := len q =? queue_max_len q.
Definition is_empty q : bool := len q =? 0.
Definition byte_size q : Z := queue_bytes_size q.
Definition has_pending q : bool := negb (match queue q with Some l => bool_decide (l = []) | None => true end).
Definition front q : option (list Z) := queue q ≫= head.

Definition push data : M t Error unit :=
  q ← get;
  if is_full q then fail Done
  else
    size ← lift (uadd (queue_bytes_size q) (zlen data));
    modify (λ q, mk (Some (default [] (queue q) ++ [data])) (queue_max_len q) size).

Definition peek_front_len q : option Z := zlen <$> front q.

(** The buffer afterwards, and the number of bytes. *)
Definition peek_front_bytes buf (len : Z) q : result Error (list Z * Z) :=
  match front q with
  | Some d =>
      let len := Z.min len (zlen d) in
      if zlen buf <? len then Err BufferTooShort
      else Ok (ztake len d ++ zdrop len buf, len)
  | None => Err Done
  end.

Definition pop : M t Error (option (list Z)) :=
  q ← get;
  match queue q with
  | Some (d :: l) =>
      modify (λ q, mk (Some l) (queue_max_len q) (saturating_sub (queue_bytes_size q) (zlen d)));;
      mret (Some d)
  | _ => mret None
  end.



(** *** The stored datagrams *)
Definition items q : list (list Z) := default [] (queue q).
Fixpoint sum_len (l : list (list Z)) : Z := match l with [] => 0 | d :: l => zlen d + sum_len l end.

(** Datagrams and queues are short enough for the count of bytes. *)
Record queue_wf q : Prop := {
  dq_size : queue_bytes_size q = sum_len (items q);
  dq_len : zlen (items q) <= queue_max_len q <= u32_max;
  dq_short : Forall (λ d, zlen d <= u32_max) (items q)
}.

Lemma sum_len_app l k : sum_len (l ++ k) = sum_len l + sum_len k.
Proof. induction l as [|d l IH]; cbn; [done|lia]. Qed.
Lemma sum_len_bound l : Forall (λ d, zlen d <= u32_max) l → 0 <= sum_len l <= zlen l * u32_max.
Proof.
  induction 1 as [|d l Hd Hl IH]; cbn; [unfold zlen; cbn; lia|]. rewrite zlen_cons. pose proof (zlen_nonneg d). lia.
Qed.
Lemma len_items q : len q = zlen (items q).
Proof. unfold len, items. by destruct (queue q). Qed.
Lemma front_items q : front q = head (items q).
Proof. unfold front, items. by destruct (queue q). Qed.


(** [push] fails when the queue is full; otherwise the datagram is last. *)
Lemma wp_push data q (Q : unit → t → Prop) QE : queue_wf q → zlen data <= u32_max →
  (zlen (items q) = queue_max_len q → QE Done q) →
  (∀ q', queue_wf q' → items q' = items q ++ [data] → queue_max_len q' = queue_max_len q → Q () q') →
  wp (push data) Q QE q.
Proof.
  intros [Hs Hl Hd] Hdata HE HQ. unfold push. apply wp_bind, wp_get. unfold is_full. rewrite len_items.
  destruct (Z.eqb_spec (zlen (items q)) (queue_max_len q)) as [E|E]; [apply wp_fail; by apply HE|].
  pose proof (sum_len_bound _ Hd). apply wp_bind. eapply wp_lift; [apply uadd_ok; lia|]. apply wp_modify, HQ; cbn; [|done..].
  fold (items q). split; cbn.
  - rewrite Hs, sum_len_app. cbn. lia.
  - rewrite zlen_app, zlen_cons, zlen_nil. lia.
  - by apply Forall_app_2, Forall_singleton.
Qed.

(** [pop] takes the first one. *)
Lemma wp_pop q (Q : option (list Z) → t → Prop) QE : queue_wf q →
  (items q = [] → Q None q) →
  (∀ d q', items q = d :: items q' → queue_wf q' → queue_max_len q' = queue_max_len q → Q (Some d) q') →
  wp pop Q QE q.
Proof.
  intros [Hs Hl Hd] HN HS. unfold pop. apply wp_bind, wp_get. unfold items in *.
  destruct (queue q) as [[|d l]|] eqn:Eq; [by apply wp_ret, HN| |by apply wp_ret, HN].
  apply wp_bind, wp_modify, wp_ret, HS; cbn; [done| |done]. cbn in *. apply Forall_cons in Hd as [Hd Hd']. rewrite zlen_cons in Hl.
  pose proof (sum_len_bound l Hd'). split; unfold items; cbn; [|lia|done]. unfold saturating_sub. lia.
Qed.

End DatagramQueue.

(** ** The connection *)
Module Dgrams.
Module Q := DatagramQueue.
Section dgrams.
Context `{RBTree} `{NetCoding}.

(** [app_limited] is the flag of the active path's loss recovery, [None] when no
    path is active; [quic] has the rest of the connection. *)
Record t := mk {
  quic : Quic.t;
  dgram_recv_queue : Q.t;
  dgram_send_queue : Q.t;
  emit_dgram : bool;
  app_limited : option bool
}.
Definition set_recv (q : Q.t) (s : t) : t := mk (quic s) q (dgram_send_queue s) (emit_dgram s) (app_limited s).
Definition set_send (q : Q.t) (s : t) : t := mk (quic s) (dgram_recv_queue s) q (emit_dgram s) (app_limited s).
Definition set_emit (b : bool) (s : t) : t := mk (quic s) (dgram_recv_queue s) (dgram_send_queue s) b (app_limited s).
Definition set_app_limited (b : bool) (s : t) : t := mk (quic s) (dgram_recv_queue s) (dgram_send_queue s) (emit_dgram s) (Some b).
Definition set_quic (q : Quic.t) (s : t) : t := mk q (dgram_recv_queue s) (dgram_send_queue s) (emit_dgram s) (app_limited s).

Definition on_recv {A} (m : M Q.t Error A) : M t Error A := zoom dgram_recv_queue set_recv m.
Definition on_send {A} (m : M Q.t Error A) : M t Error A := zoom dgram_send_queue set_send m.

(** *** The calls of the application *)

Definition dgram_recv_peek (buf : list Z) (len : Z) (s : t) : result Error (list Z * Z) :=
  Q.peek_front_bytes buf len (dgram_recv_queue s).
Definition dgram_recv_front_len (s : t) : option Z := Q.peek_front_len (dgram_recv_queue s).
Definition dgram_recv_queue_len (s : t) : Z := Q.len (dgram_recv_queue s).
Definition dgram_recv_queue_byte_size (s : t) : Z := Q.byte_size (dgram_recv_queue s).
Definition dgram_send_queue_len (s : t) : Z := Q.len (dgram_send_queue s).
Definition dgram_send_queue_byte_size (s : t) : Z := Q.byte_size (dgram_send_queue s).
Definition is_dgram_send_queue_full (s : t) : bool := Q.is_full (dgram_send_queue s).
Definition is_dgram_recv_queue_full (s : t) : bool := Q.is_full (dgram_recv_queue s).

Definition dgram_send (buf : list Z) : M t Error unit :=
  s ← get;
  match Quic.dgram_max_writable_len (quic s) with
  | None => fail InvalidState
  | Some max_payload_len =>
      if max_payload_len <? zlen buf then fail BufferTooShort
      else
        on_send (Q.push buf);;
        s ← get;
        match app_limited s with
        | None => fail InvalidState
        | Some _ =>
            when (Quic.cwin_available (quic s) <? Q.byte_size (dgram_send_queue s))
              (modify (set_app_limited false))
        end
  end.

(** *** A DATAGRAM frame ([process_frame]) *)
Definition on_datagram (data : list Z) : M t Error unit :=
  s ← get;
  if negb (Quic.dgram_enabled (quic s)) then fail InvalidState
  else
    (when (Q.is_full (dgram_recv_queue s)) (on_recv Q.pop;; mret ()));;
    on_recv (Q.push data).

(** *** The DATAGRAM frames of a packet ([send_single]) *)

(** The send queue, the connection with the packet, and [dgram_emitted]. *)
Record packing := mk_packing { send_queue : Q.t; st : Packing.t; dgram_emitted : bool }.
Definition on_queue {A} (m : M Q.t Error A) : M packing Error A :=
  zoom send_queue (λ q s, mk_packing q (st s) (dgram_emitted s)) m.
Definition on_st {A} (m : M Packing.t Error A) : M packing Error A :=
  zoom st (λ p s, mk_packing (send_queue s) p (dgram_emitted s)) m.
Definition mark_emitted : M packing Error unit := modify (λ s, mk_packing (send_queue s) (st s) true).

(** [dgram_payload.as_mut()[..len].copy_from_slice(&data)], the window of the
    payload starting at [from] *)
Definition copy_in (from len : Z) (data : list Z) : M Packing.t Error unit :=
  s ← get;
  if (zlen (o_buf (Packing.b (Packing.pk s))) - from <? len) || negb (len =? zlen data) then panic
  else Packing.on_b (modify (λ o, mk_octets (zsplice from data (o_buf o)) (o_off o))).

(** The frame for [data], the front of the queue, of [len] bytes. *)
Definition write_datagram (len : Z) (data : list Z) : M Packing.t Error bool :=
  s ← get;
  let hdr_off := o_off (Packing.b (Packing.pk s)) in
  let hdr_len := 1 + 2 in
  '(hdr, payload) ← Packing.on_b (OctetsMut.split_at (hdr_off + hdr_len));
  copy_in payload.1 len data;;
  Packing.on_b (OctetsMut.in_window hdr (OctetsMut.skip hdr_off;; Frame.encode_dgram_header len));;
  Packing.on_b (OctetsMut.skip (hdr_len + len));;
  pushed ← Packing.push_frame_to_pkt (Frame.DatagramHeader len);
  when (pushed : bool) Packing.mark_eliciting;;
  mret pushed.

(** Every turn that goes on takes a datagram off the queue. *)
Fixpoint dgram_loop (fuel : nat) (max_dgram_payload : Z) : M packing Error unit :=
  match fuel with
  | O => panic
  | S fuel =>
      s ← get;
      match Q.peek_front_len (send_queue s) with
      | None => mret ()
      | Some len =>
          if (1 + 2) + len <=? Packing.left (Packing.pk (st s)) then
            d ← on_queue Q.pop;
            match d with
            | Some data =>
                pushed ← on_st (write_datagram len data);
                when (pushed : bool) mark_emitted;;
                dgram_loop fuel max_dgram_payload
            | None => dgram_loop fuel max_dgram_payload
            end
          else if max_dgram_payload <? len then
            on_queue Q.pop;;
            dgram_loop fuel max_dgram_payload
          else mret ()
      end
  end.

(** [may_send] as for [Packing.stream_frames] *)
Definition dgram_frames (may_send do_dgram : bool) (max_dgram_len : option Z) : M packing Error unit :=
  s ← get;
  when (may_send && (MAX_DGRAM_OVERHEAD <? Packing.left (Packing.pk (st s))) && do_dgram)
    (match max_dgram_len with
     | Some max_dgram_payload => dgram_loop (S (length (Q.items (send_queue s)))) max_dgram_payload
     | None => mret ()
     end).

(** Which kind of data comes first. *)
Definition choose_dgram (emit_dgram dgrams_to_emit stream_to_emit : bool) : bool :=
  let do_dgram := emit_dgram && dgrams_to_emit in
  let do_stream := negb emit_dgram && stream_to_emit in
  if negb do_stream && dgrams_to_emit then true else do_dgram.

(** The datagrams, or else the stream data, of a packet [p] that is not protected
    by FEC; the state afterwards and the packet. *)
Definition data_frames (may_send : bool) (p : Packing.pkt) : M t Error Packing.pkt :=
  s ← get;
  let max_dgram_len := if negb (Q.is_empty (dgram_send_queue s)) then Quic.dgram_max_writable_len (quic s) else None in
  let do_dgram := choose_dgram (emit_dgram s) (bool_decide (is_Some max_dgram_len))
                    (StreamMap.has_flushable (Conn.streams (Quic.conn (quic s)))) in
  let '(r, w) := dgram_frames may_send do_dgram max_dgram_len
                   (mk_packing (dgram_send_queue s) (Packing.mk (Quic.conn (quic s)) p) false) in
  modify (set_send (send_queue w));;
  lift r;;
  let '(r, st) := Packing.stream_frames (may_send && negb (dgram_emitted w)) (st w) in
  modify (set_quic (Quic.set_conn (Packing.conn st) (quic s)));;
  lift r;;
  modify (set_emit (negb (dgram_emitted w)));;
  mret (Packing.pk st).
End dgrams.
End Dgrams.

(** ** What a packet gets *)
Section packet.
Context `{RBTree} `{NetCoding}.
Import Dgrams.
Implicit Types (q : DatagramQueue.t) (d data : list Z) (ds : list (list Z)) (st : Packing.t).

(** The datagrams that go into a packet with [room] bytes, and those that stay in
    the queue: every one that fits, in order, until one does not; those that
    are too long for any packet are dropped. *)
Fixpoint chosen (room max : Z) ds : list (list Z) * list (list Z) :=
  match ds with
  | [] => ([], [])
  | d :: ds' =>
      if 3 + zlen d <=? room then let '(e, r) := chosen (room - (3 + zlen d)) max ds' in (d :: e, r)
      else if max <? zlen d then chosen room max ds'
      else ([], ds)
  end.

Definition dgram_bytes ds : list Z := ds ≫= λ d, enc_frame (Frame.Datagram d).

(** The packet [p'] is [p] with the frames of [ds] behind. *)
Record holds ds (p p' : Packing.pkt) : Prop := {
  h_buf : let o := o_off (Packing.b p) in let n := zlen (dgram_bytes ds) in
    o_buf (Packing.b p') = ztake o (o_buf (Packing.b p)) ++ dgram_bytes ds ++ zdrop (o + n) (o_buf (Packing.b p)) ∧
    o_off (Packing.b p') = o + n ∧ Packing.left p' = Packing.left p - n ∧ n <= Packing.left p;
  h_frames : Packing.frames p' = Packing.frames p ++ ((λ d, Frame.DatagramHeader (zlen d)) <$> ds)
}.

Lemma zlen_enc_datagram d : zlen (enc_frame (Frame.Datagram d)) = 3 + zlen d.
Proof. unfold enc_frame. cbn [enc_payload frame_type]. unfold enc_len2. rewrite !zlen_app, zlen_enc_varint_len, zlen_cons, zlen_nil by lia. lia. Qed.

Lemma wp_write_datagram d st (P : bool → Packing.t → Prop) QE : pkt_ok (Packing.pk st) → 3 + zlen d <= Packing.left (Packing.pk st) →
  (∀ st', Packing.conn st' = Packing.conn st → pkt_ok (Packing.pk st') → holds [d] (Packing.pk st) (Packing.pk st') → P true st') →
  wp (write_datagram (zlen d) d) P QE st.
Proof.
  intros (Hoff & Hleft & Hroom) Hd HP. pose proof (zlen_nonneg d) as Hd0. destruct st as [c p]. cbn [Packing.pk Packing.conn] in *.
  destruct (Packing.b p) as [buf o] eqn:Eb. cbn in Hoff, Hroom.
  destruct (buffer_split buf o 3 (zlen d)) as (pre & o1 & o2 & rest & Ebuf & Epre & Eo1 & Eo2 & Epre' & Erest); [lia..|].
  unfold write_datagram. apply wp_bind, wp_get. cbv zeta. apply wp_bind, wp_zoom. cbn. rewrite Eb.
  eapply wp_run; [apply split_at_run; cbn; lia|]. cbn. apply wp_bind. unfold copy_in. apply wp_bind, wp_get. cbn.
  rewrite (proj2 (Z.ltb_ge _ _)), Z.eqb_refl by lia. cbn [orb negb]. apply wp_zoom, wp_modify. cbn.
  assert (zsplice (o + (1 + 2)) d buf = pre ++ o1 ++ d ++ rest) as ->.
  { rewrite Ebuf, <- Epre. change (1 + 2) with 3. rewrite <- Eo1, <- zlen_app, !(app_assoc pre). by apply zsplice_mid. }
  set (hdr := [0x31] ++ enc_varint_len 2 (zlen d)). assert (zlen hdr = 3) as Ehdr.
  { unfold hdr. rewrite zlen_app, zlen_enc_varint_len, zlen_cons, zlen_nil by lia. lia. }
  assert (writes (Frame.encode_dgram_header (zlen d)) hdr) as Hw by (apply encode_dgram_header_writes; lia).
  assert (dgram_bytes [d] = hdr ++ d) as Ebs by (unfold dgram_bytes, hdr; cbn; by rewrite app_nil_r). clearbody hdr.
  assert (zlen (pre ++ hdr ++ d ++ rest) = zlen buf) as Elen by (rewrite Ebuf, !zlen_app; lia).
  apply wp_bind, wp_zoom. cbn. eapply wp_run.
  { rewrite <- Epre. change (1 + 2) with 3. rewrite <- Ehdr. apply write_header_run; [done|lia]. }
  apply wp_bind, wp_zoom. cbn. eapply wp_run; [apply skip_run; lia|]. apply wp_bind. unfold Packing.push_frame_to_pkt.
  apply wp_bind, wp_get, wp_bind. eapply wp_lift; [done|]. cbn. rewrite (proj2 (Z.leb_le _ _)) by lia.
  apply wp_bind, wp_modify, wp_bind, wp_zoom. cbn. unfold Frame.to_bytes. apply wp_bind. eapply wp_reads; [apply usub_ok; cbn; lia|].
  apply wp_bind, wp_ret, wp_bind. eapply wp_reads; [apply usub_ok; cbn; lia|]. eapply wp_lift; [apply usub_ok; lia|]. cbn.
  apply wp_bind, wp_modify, wp_ret, wp_bind, wp_modify, wp_ret. cbn. apply HP; [done|unfold pkt_ok; cbn; lia|].
  constructor; [|done]. rewrite Ebs, Eb, zlen_app. cbn. split_and!; [|lia..].
  rewrite <- Epre', <- app_assoc. do 3 f_equal. rewrite Erest. f_equal. lia.
Qed.

Lemma dgram_bytes_app ds ds' : dgram_bytes (ds ++ ds') = dgram_bytes ds ++ dgram_bytes ds'.
Proof. apply bind_app. Qed.
Lemma holds_nil p : pkt_ok p → holds [] p p.
Proof.
  intros (Ho & Hl & _). constructor; [|by rewrite app_nil_r]. change (dgram_bytes []) with (@nil Z). cbv zeta. change (zlen (@nil Z)) with 0.
  rewrite Z.add_0_r. cbn [app]. rewrite ztake_zdrop. split_and!; lia || done.
Qed.
Lemma holds_app ds ds' p p1 p2 : pkt_ok p → holds ds p p1 → holds ds' p1 p2 → holds (ds ++ ds') p p2.
Proof.
  intros (Ho & Hl & Hr) [(Eb & Eo & El & Hle) Ef] [(Eb' & Eo' & El' & Hle') Ef']. pose proof (zlen_nonneg (dgram_bytes ds)). pose proof (zlen_nonneg (dgram_bytes ds')).
  set (o := o_off (Packing.b p)) in *. set (buf := o_buf (Packing.b p)) in *. set (bs := dgram_bytes ds) in *. set (bs' := dgram_bytes ds') in *.
  constructor; [|by rewrite Ef', Ef, <- app_assoc, fmap_app]. fold o buf. rewrite dgram_bytes_app. fold bs bs'. cbv zeta. rewrite zlen_app.
  split_and!; [|lia..]. rewrite Eb', Eo, Eb. assert (zlen (ztake o buf) = o) as Ez by (rewrite zlen_ztake; lia).
  rewrite <- app_assoc. assert (ztake (o + zlen bs) (ztake o buf ++ bs ++ zdrop (o + zlen bs) buf) = ztake o buf ++ bs) as ->.
  { rewrite app_assoc. apply ztake_app'. rewrite zlen_app. lia. }
  rewrite <- !app_assoc. do 3 f_equal. rewrite <- zdrop_zdrop by lia. rewrite (app_assoc (ztake o buf)), (zdrop_app' (o + zlen bs)) by (rewrite zlen_app; lia).
  rewrite zdrop_zdrop by lia. f_equal. lia.
Qed.

(** Filling a packet. *)
Lemma wp_dgram_loop fuel max s (P : unit → packing → Prop) QE : DatagramQueue.queue_wf (send_queue s) → pkt_ok (Packing.pk (st s)) →
  (length (DatagramQueue.items (send_queue s)) < fuel)%nat →
  (∀ s', let '(e, r) := chosen (Packing.left (Packing.pk (st s))) max (DatagramQueue.items (send_queue s)) in
     DatagramQueue.queue_wf (send_queue s') → DatagramQueue.items (send_queue s') = r →
     DatagramQueue.queue_max_len (send_queue s') = DatagramQueue.queue_max_len (send_queue s) →
     Packing.conn (st s') = Packing.conn (st s) → holds e (Packing.pk (st s)) (Packing.pk (st s')) →
     dgram_emitted s' = dgram_emitted s || bool_decide (e ≠ []) → P () s') →
  wp (dgram_loop fuel max) P QE s.
Proof.
  revert s P. induction fuel as [|fuel IH]; intros s P Hq Hp Hf HP; [lia|]. cbn [dgram_loop]. apply wp_bind, wp_get.
  unfold DatagramQueue.peek_front_len. rewrite DatagramQueue.front_items.
  destruct (DatagramQueue.items (send_queue s)) as [|d ds] eqn:Ei; cbn [head fmap option_fmap option_map chosen] in *.
  { apply wp_ret, HP; [done..|by apply holds_nil|]. by rewrite orb_false_r. }
  change (1 + 2) with 3. destruct (Z.leb_spec (3 + zlen d) (Packing.left (Packing.pk (st s)))) as [Hd|Hd].
  - apply wp_bind, wp_zoom, DatagramQueue.wp_pop; [done|by rewrite Ei|]. intros d' q' E Hq' Em. rewrite Ei in E. injection E as <- E.
    apply wp_bind, wp_zoom. apply wp_write_datagram; [done|done|]. cbn [st]. intros st' Ec Hp' Hh. apply wp_bind, wp_modify.
    apply IH; cbn [send_queue st dgram_emitted]; [done|done|rewrite <- E; cbn in Hf; lia|]. intros s'.
    pose proof Hh as [(_ & _ & Hl & _) _]. assert (zlen (dgram_bytes [d]) = 3 + zlen d) as Ez by (unfold dgram_bytes; cbn [mbind list_bind]; rewrite app_nil_r; apply zlen_enc_datagram).
    rewrite Ez in Hl. rewrite Hl, <- E. specialize (HP s'). destruct (chosen _ max ds) as [e r]. intros Hw Hi Hm' Hc' Hh' Hem.
    apply HP; [done|done|congruence|congruence|by apply (holds_app [d] e _ (Packing.pk st'))|]. rewrite Hem. cbn [orb].
    rewrite (bool_decide_eq_true_2 (d :: e ≠ [])) by done. by rewrite orb_true_r.
  - destruct (Z.ltb_spec max (zlen d)) as [Hm|Hm].
    + apply wp_bind, wp_zoom, DatagramQueue.wp_pop; [done|by rewrite Ei|]. intros d' q' E Hq' Em. rewrite Ei in E. injection E as <- E.
      apply IH; cbn [send_queue st dgram_emitted]; [done|done|rewrite <- E; cbn in Hf; lia|]. intros s'. rewrite <- E. specialize (HP s').
      destruct (chosen _ max ds) as [e r]. intros Hw Hi Hm' Hc' Hh' Hem. apply HP; done || congruence.
    + apply wp_ret, HP; [done..|by apply holds_nil|]. by rewrite orb_false_r.
Qed.
End packet.

(** ** Two endpoints *)
Section link.
Context `{RBTree} `{NetCoding}.
Import Dgrams.
Implicit Types (s a b : t) (d data buf : list Z) (ds wire sent got : list (list Z)).

(** The sender, the receiver, the DATAGRAM frames on their way, and what the
    applications gave to the queue and were given. *)
Record link := Link { sender : t; receiver : t; wire : list (list Z); sent : list (list Z); got : list (list Z) }.





(** Each at most as often, and in the same order when [ordered]. *)
Definition among (ordered : bool) (l k : list (list Z)) : Prop := if ordered then l `sublist_of` k else l ⊆+ k.

Lemma among_trans ordered l k m : among ordered l k → among ordered k m → among ordered l m.
Proof. destruct ordered; apply transitivity. Qed.
Lemma among_sub ordered l k : l `sublist_of` k → among ordered l k.
Proof. destruct ordered; [done|apply sublist_submseteq]. Qed.
Lemma among_add ordered l k m : among ordered l k → among ordered l (k ++ m).
Proof. intros Hl. eapply among_trans; [exact Hl|]. by apply among_sub, sublist_inserts_r. Qed.



Lemma chosen_fits room max ds : Forall (λ d, 3 + zlen d <= room) (chosen room max ds).1.
Proof.
  revert room. induction ds as [|d ds IH]; intros room; cbn; [constructor|]. destruct (Z.leb_spec (3 + zlen d) room).
  - specialize (IH (room - (3 + zlen d))). destruct (chosen _ _ ds). cbn in *. constructor; [done|].
    eapply Forall_impl; [exact IH|]. cbn. intros x. pose proof (zlen_nonneg d). lia.
  - destruct (_ <? _); [done|constructor].
Qed.







(** *** Every step keeps what it should *)






(** The DATAGRAM frames of a packet.  Filling a packet ends, without a panic;
    it writes the frames of the datagrams that [chosen] picks from the queue, one
    behind the other where the cursor stood and nothing else, each of which the
    peer's parser reads back, and leaves the others in the queue. *)
Theorem datagrams_packed max p s pkt dec :
  DatagramQueue.queue_wf (dgram_send_queue s) → pkt_ok p → MAX_DGRAM_OVERHEAD < Packing.left p → pkt = PktType.Short ∨ pkt = PktType.ZeroRTT →
  let '(r, w) := dgram_frames true true (Some max) (mk_packing (dgram_send_queue s) (Packing.mk (Quic.conn (quic s)) p) false) in
  let '(picked, others) := chosen (Packing.left p) max (DatagramQueue.items (dgram_send_queue s)) in
  r = Ok () ∧ DatagramQueue.items (send_queue w) = others ∧ holds picked p (Packing.pk (st w)) ∧
  dgram_emitted w = bool_decide (picked ≠ []) ∧ Packing.conn (st w) = Quic.conn (quic s) ∧
  Forall (λ d, parses (Frame.from_bytes pkt dec) (enc_frame (Frame.Datagram d)) (Frame.Datagram d)) picked.
Proof.
  intros Hq Hp Hroom Hpkt. pose proof (chosen_fits (Packing.left p) max (DatagramQueue.items (dgram_send_queue s))) as Hfit.
  set (w0 := mk_packing _ _ _). set (m := dgram_frames true true (Some max)). destruct (chosen _ _ _) as [e r] eqn:Ec. cbn in Hfit.
  assert (wp m (λ _ w, DatagramQueue.items (send_queue w) = r ∧ holds e p (Packing.pk (st w)) ∧ dgram_emitted w = bool_decide (e ≠ []) ∧ Packing.conn (st w) = Quic.conn (quic s)) (λ _ _, False) w0) as Hw.
  { unfold m, dgram_frames. apply wp_bind, wp_get. rewrite (proj2 (Z.ltb_lt _ _)) by done. cbn [andb when].
    apply wp_dgram_loop; [done|done|cbn; lia|]. intros w. cbn [send_queue st w0 Packing.pk Packing.conn dgram_emitted]. rewrite Ec. intros ??????. by split_and!. }
  unfold wp in Hw. destruct (m w0) as [[[]|?|] w]; [|done..]. destruct Hw as (? & ? & ? & ?). split_and!; try done.
  eapply Forall_impl; [exact Hfit|]. intros d Hd. cbv beta in Hd. destruct (from_bytes_p dec pkt (Frame.Datagram d)) as (f' & Hpar & Hsame).
  - cbn. destruct Hp as (_ & ? & _). lia.
  - by destruct Hpkt as [-> | ->].
  - assert (f' = Frame.Datagram d) as ->; [|done]. by destruct f'; try done; cbn in Hsame; subst.
Qed.
(** *** Two corners *)

(** With a receive queue of length zero every DATAGRAM frame is an error. *)
Lemma no_room_refuses data s : Quic.dgram_enabled (quic s) = true → dgram_recv_queue s = DatagramQueue.new 0 →
  on_datagram data s = (Err Done, s).
Proof.
  intros He Eq. destruct s as [k rq sq em al]. cbn [quic dgram_recv_queue] in *. subst rq. unfold on_datagram, mbind, M_bind, get, mret. cbn [quic]. rewrite He. done.
Qed.

(** Without an active path the datagram is refused and queued. *)
Lemma no_path_queues buf s : Quic.dgram_max_writable_len (quic s) = Some (zlen buf) → app_limited s = None →
  DatagramQueue.queue_wf (dgram_send_queue s) → DatagramQueue.is_full (dgram_send_queue s) = false → zlen buf <= u32_max →
  (dgram_send buf s).1 = Err InvalidState ∧
  DatagramQueue.items (dgram_send_queue (dgram_send buf s).2) = DatagramQueue.items (dgram_send_queue s) ++ [buf].
Proof.
  intros Em Ea Hq Hf Hb.
  enough (wp (dgram_send buf) (λ _ _, False)
    (λ e s', e = InvalidState ∧ DatagramQueue.items (dgram_send_queue s') = DatagramQueue.items (dgram_send_queue s) ++ [buf]) s) as Hw.
  { unfold wp in Hw. destruct (dgram_send buf s) as [[u|e|] s']; [done| |done]. destruct Hw as [-> Ei]. done. }
  unfold dgram_send. apply wp_bind, wp_get. rewrite Em, Z.ltb_irrefl. apply wp_bind, wp_zoom, DatagramQueue.wp_push; [done|done| |].
  - unfold DatagramQueue.is_full in Hf. apply Z.eqb_neq in Hf. rewrite DatagramQueue.len_items in Hf. done.
  - intros q' _ Ei _. apply wp_bind, wp_get. cbn. rewrite Ea. by apply wp_fail.
Qed.
End link.

(** ** A run *)
Module DatagramRun.
#[local] Existing Instance ToyOrders.rbtree.
#[local] Existing Instance ToyCoding.coding.
Import Dgrams.

Definition dgram_params : TransportParams.t := TransportParams.with_dgram (Some 65536) TransportParams.default.
Definition begun : Conn.t :=
  match Conn.new true dgram_params 10000 10000 with
  | Ok c => (Conn.process_peer_transport_params 5000 dgram_params c).2
  | _ => Runs.fresh
  end.
Definition idle : t :=
  mk (Quic.mk begun None false false true false 1 false 5000 8 1200 (Some 16) (λ _, []) (λ _, []) [] (λ _, []))
    (DatagramQueue.new 1) (DatagramQueue.new 3) true (Some true).
Definition packet : Packing.pkt := Packing.mk_pkt (mk_octets (replicate 40 0) 4) [] 12 false false false.

Definition send_all (s : t) : t := (dgram_send [6] (dgram_send [4; 5] (dgram_send [1; 2; 3] s).2).2).2.
Definition queued : link := Link (send_all idle) idle [] [[1; 2; 3]; [4; 5]; [6]] [].

End DatagramRun.


Lemma datagrams_packed_witness :
  let s := Dgrams.sender DatagramRun.queued in
  let w := (Dgrams.dgram_frames (H0 := ToyCoding.coding) true true (Some 1000)
    (Dgrams.mk_packing (Dgrams.dgram_send_queue s) (Packing.mk (Quic.conn (Dgrams.quic s)) DatagramRun.packet) false)).2 in
  DatagramQueue.items (Dgrams.send_queue w) = [[6]].
Proof.
  assert (DatagramQueue.queue_wf (DatagramQueue.mk (Some [[1; 2; 3]; [4; 5]; [6]]) 3 6)) as Hq by (split; [by vm_compute|by vm_compute|by repeat constructor]).
  assert (pkt_ok DatagramRun.packet) as Hpk by (by vm_compute).
  assert (MAX_DGRAM_OVERHEAD < Packing.left DatagramRun.packet) as Hroom by (by vm_compute). cbv zeta.
  pose proof (datagrams_packed (H0 := ToyCoding.coding) 1000 DatagramRun.packet (sender DatagramRun.queued) PktType.Short (ToyCoding.decoder 100)) as Hp.
  assert (Dgrams.dgram_send_queue (sender DatagramRun.queued) = DatagramQueue.mk (Some [[1; 2; 3]; [4; 5]; [6]]) 3 6) as Eq by (by vm_compute).
  rewrite Eq in Hp |- *. set (x := Dgrams.dgram_frames true true _ _) in *.
  assert (chosen (Packing.left DatagramRun.packet) 1000 (DatagramQueue.items (DatagramQueue.mk (Some [[1; 2; 3]; [4; 5]; [6]]) 3 6)) = ([[1; 2; 3]; [4; 5]], [[6]])) as E by (by vm_compute).
  rewrite E in Hp. clearbody x. destruct x as [r w].
  exact (proj1 (proj2 (Hp Hq Hpk Hroom (or_introl eq_refl)))).
Defined.
